(* ===== verification/_CoqProject ===== *)
-Q . S2P
Prelude.v
Reader.v
StateErr.v
Etype.v
Nfold.v
Primitives.v
Cts.v
Derive.v
Utf8.v
Weak.v
Ops.v
Prf.v
SeqState.v
Der.v
Name.v
Pac.v
Decimal.v
K5json.v
EncList.v
Time.v
Kdc.v
Lockout.v
LockoutFile.v
KdcPolicy.v
Osa.v
History.v
PMap.v
Transit.v
Messages.v
ToyCodec.v
Ascii.v
Pwqual.v
Glob.v
Deltat.v
Acl.v
Store.v
Asn1Text.v
Exchange.v
Runs.v
AuthData.v
PacSign.v
PacVerify.v
S4u.v
Fast.v
Preauth.v
Hints.v
Reply.v
Steady.v
Sample.v
AsExchange.v
AsCorrect.v
TgsHeader.v
TgsExchange.v
TgsCorrect.v
Iprop.v
Ulog.v
UlogRing.v
UlogCrash.v
StoreOps.v
StoreInv.v
StorePw.v
StoreAlias.v
DumpText.v
Journal.v
Dump.v
DumpKept.v
DumpStore.v
Gss.v
ExportCtx.v
Replay.v
Lookaside.v
