(* ===== verification/Prelude.v ===== *)
(** * Verification of kerber-rust

    kerber-rust is a Kerberos 5 server, GSS-API library and set of tools in
    Rust.  This library models, as executable Gallina definitions translated
    from the source, the parts on which its security rests, and proves what
    makes them correct.  All paths below are under [src/crates/].

    ** The program and its model

    - [krb5-crypto] is the bottom layer: enctypes and keys ([Etype.v]), n-fold
      ([Nfold.v]), CBC with ciphertext stealing ([Cts.v]), key derivation
      ([Derive.v]), the RC4, triple-DES and Camellia enctypes ([Weak.v]),
      encryption, checksums, string-to-key and master-key wrapping ([Ops.v]),
      PRF, PRF+, KRB-FX-CF2 and the PKINIT key derivations ([Prf.v]), and the
      configuration language of enctype and keysalt lists ([EncList.v]).  The
      block ciphers, hashes and MACs are crates from outside the repository:
      they are the class [Primitives] of [Primitives.v], with what the code
      relies on in [PrimitiveLaws] and an instance that satisfies it.
    - [krb5-gss] protects messages of an established context: the sequence
      window ([SeqState.v], from [seqstate.rs] and [accept_seq] of
      [context.rs]), the wrap and MIC tokens ([Gss.v], from [wrap.rs], [mic.rs],
      [oid.rs]) over [Ops.v] and the window, and context export ([ExportCtx.v],
      from [export.rs]).
    - [krb5-types] has the shared data: DER lengths ([Der.v]), principal names
      ([Name.v], from [name.rs] and [PrincipalName] of [lib.rs]), times
      ([Time.v], from [KerberosTime] of [lib.rs], over the class [Chrono] for the
      range of the chrono crate), flag words (Module [Flags] of [Kdc.v]), JSON
      ([K5json.v], from [k5json.rs]), the container of a PAC with its client and
      delegation information ([Pac.v], from [pac.rs]) and the messages
      ([Messages.v]).  The messages' DER codec is derived by a macro of the rasn
      crate: it is the class [Codecs], with the law that decoding reads an encoding
      back ([CodecsLaws]), and [ToyCodec.v] is an instance.  [Decimal.v] and [Utf8.v] are what the sources use of Rust's number
      formatting and strings.
    - [krb5-protocol] has the acceptor's replay cache ([Replay.v], from
      [replay.rs]).
    - [krb5-kdc] answers requests.  [Kdc.v] has its principal and policy records,
      its error type, the key search [find_enctype], and its store as the class
      [PrincipalRead], after the trait of that name in [kdb.rs].  [Lockout.v]
      ([lockout.rs]) is the check and audit of failed logins, [LockoutFile.v]
      ([lockout/file.rs]) the file its counters live in, [KdcPolicy.v]
      ([issue/kdc_util.rs], [tgs_policy.rs], part of [tgs_req.rs]) the
      checks on AS and TGS requests and the times, flags and enctypes of the
      tickets issued, [Transit.v] ([transit.rs] of [krb5-types] and its use in
      [tgs_req.rs]) the list of transited realms and its check, and
      [Lookaside.v] ([lookaside.rs]) the cache of replies to retransmitted
      requests.
    - The exchanges of [krb5-kdc].  A handler runs in the monad [M] of
      [Exchange.v], over [StateErr.v]: its state counts the readings of the clock and
      of random octets, which the class [World] answers, and keeps the client to be
      audited and the lockout updates made.  [KdcStore] is the store with the
      settings.  On it are the error texts of [Asn1Text.v] ([asn1_text.rs]),
      authorization data and CAMMACs ([AuthData.v], from [ad.rs]), the signatures of
      a PAC and their verification ([PacSign.v], [PacVerify.v], also [ad.rs]), S4U
      and user-to-user ([S4u.v]), the FAST tunnel ([Fast.v], from [preauth.rs]), the
      preauthentication modules ([Preauth.v], from [plugins.rs] and [as_req.rs]),
      hints, cookies and freshness tokens ([Hints.v]), and what both exchanges reply
      with ([Reply.v], from [reply.rs] and [fast_util.rs]).  [AsExchange.v]
      ([issue/as_req.rs]) is the AS handler; [TgsHeader.v] and [TgsExchange.v]
      ([issue/kdc_util.rs], [issue/tgs_req.rs]) are the TGS handler.  [Runs.v] and
      [Steady.v] have the inversion lemmas of the monad and that no step turns the
      clock back; the theorems are in [AsCorrect.v] and [TgsCorrect.v], with
      examples in the realm of [Sample.v].
    - Administration, also in [krb5-kdc].  [Acl.v] ([acl.rs]) reads the access
      control list and decides, over the durations of [Deltat.v]; [Glob.v] selects
      the names a listing asks for.  The principal store ([store.rs] and
      [store/]) is built in layers: the rows with their undo record and RID index
      ([PMap.v], from [iprop_ulog.rs]), the record with the policy and the old
      keys ([Osa.v], from [osa.rs]), the password history ([History.v]), the
      quality checks and the dictionary ([Pwqual.v]), the parts of a record, its
      names, TL data and salts ([Store.v]), and every operation of the
      administration server with the locked change around it ([StoreOps.v]).
      Their theorems are in [StoreInv.v], [StorePw.v] and [StoreAlias.v].
      Operations live in the monad of [StateErr.v]: one that fails leaves what
      it did in the state, and it is [change] that takes it back.  What the
      operating system, the clock, the random source, the database file and the
      hook modules answer is the class [StoreEnv] and the record [Disk].
    - What is kept on disk and sent to replicas, also in [krb5-kdc].  [Iprop.v]
      ([store/iprop_xdr.rs]) has the XDR records of incremental updates, over the
      readers of [Reader.v]; [Ulog.v] ([ulog.rs]) the update log, a file of fixed
      blocks in a ring, with the theorems of [UlogRing.v] and, for failing calls of
      the operating system, [UlogCrash.v].  [DumpText.v] ([kdb_dump.rs]) is the text
      of a database with the changes appended to it, [Journal.v] what such a file
      holds, also when changes are cut short ([append_change] of [persist.rs]);
      [Dump.v] writes and reads one principal's record with its tagged data and
      wrapped keys, [DumpKept.v] proves that nothing of it is lost, and
      [DumpStore.v] writes and loads the whole store, for itself and for replicas.

    Names follow the source.  A [&mut self] method takes and returns the state; a
    [Result] is [result]; the clock, random bytes and stored records are
    arguments.  Machine integers are [Z] with the source's wrapping, saturating
    or checked operation written out; bytes are [Byte.byte]; a [String] that is
    only compared is its bytes, one read by [char] the list of its code points.

    ** What the theorems show

    - Encryption: for every enctype decryption inverts encryption and both sides
      end in the same cipher state ([encrypt_decrypt]); whatever decryption accepts
      is an encryption of what it returns ([decrypt_authentic]); CTS is a
      bijection; n-fold and DK equal their RFC definitions; checksums,
      string-to-key, wrapped keys, PRF+ and CF2 behave as documented on success
      and on error.
    - Messages: the 64-bit window refines the set of received numbers with its
      high-water mark ([window_refines]), hence no number is accepted twice
      ([no_replay]), both short of the wrap of that mark; tokens round trip between peers and an accepted sealed token
      was sealed by the peer for this direction and number.
    - Caches: an authenticator is not accepted twice within the skew
      ([no_double_accept]); a lookaside hit is the last reply stored for those
      very bytes; both caches keep their bounds and invariants in any run.
    - Lockout: no run of requests tests more passwords than the policy allows, in
      total while no failure comes too late to be counted with the one before
      ([lockout_limits_guesses]), or per unlock period; the side file with its in-place writes refines
      a finite map ([sidefile_refines]).
    - The AS exchange: client and service agree on the session key, flags and times
      of a ticket, under their own keys ([as_agreement]); a ticket flagged as
      preauthenticated was asked for by a holder of the client's key
      ([as_preauthenticated]); no ticket outlives the configured maxima
      ([as_lifetime]); failures are counted as the lockout model counts them
      ([as_refines_lockout]).
    - The TGS exchange: client and service agree likewise ([tgs_agreement]); the
      client of a ticket is the requester, or one the requester may act for by S4U
      ([tgs_entitled]); no ticket outlives the one presented, unless it is to start
      2^31 seconds after its end ([tgs_bounded]).  A PAC the KDC signs is one it
      accepts ([ticket_pac_verifies]).  In both exchanges the encrypted parts a
      theorem speaks of are the only values with such an encoding in the message
      ([opens_unique]).
    - Policy: no chain of requests, renewals and validations outlives the ticket
      it starts from, with the same exception ([tgs_chain_never_outlives]); what each
      ticket flag means;
      when an AS request is accepted; which session enctype is chosen.
    - Transited realms: what a ticket's list says after a step is the realms before
      it and the one just left ([append_realm_refines], [tgs_transit_step]), and the
      check accepts exactly the paths the configuration or the hierarchy allows.
    - Administration: a request is allowed exactly when the first matching entry
      of the list grants it ([acl_decides]) and restrictions bind what they name;
      a glob selects the names its pattern describes.
    - The store: whatever is requested, but the renaming of the master key's row,
      rows stay under their own names and RIDs unique ([store_invariant], by a step
      relation that every operation follows); a change is all or nothing
      ([change_atomic]); a password change
      does what it should and the password cannot be chosen again
      ([password_changed], [history_kept]); staging it outside the lock loses no
      update ([staged_is_direct]); unlocking lets a principal in
      ([unlock_opens]); an alias stands for its target ([alias_stands_for]); the
      dictionary holds exactly the words of its file ([dictionary_refines]).
    - Disk: whatever calls fail while the database is written under the log, and
      however much of a write reaches the file, the log is never found to hold less
      than the database ([log_never_lags]); the ring of blocks behaves as a list of
      updates whose oldest are dropped, as long as updates are replayed in their
      order ([ulog_refines]); changes appended to the database are all or nothing
      under cuts between characters ([journal_history]), are what the file
      then holds ([change_persisted]), and reading only what was appended is reading
      again ([catch_up_rereads]); a principal and a whole store are read as they were
      written ([principal_persisted], [store_reloaded]).
    - Data formats: names, keysalts, exported contexts, policy records, JSON values
      ([json_roundtrip], and [json_terminates] for any text), DER lengths and framing
      round trip; [days_from_civil] counts the days of the Gregorian
      calendar.

    Some statements record behaviour that differs from what the code or its
    documents mean: [Prf.prf_plus_repeats] (a block counter that saturates
    where wrapping to zero was meant), [Gss.rrc_rotates_left] (the rotation
    count is applied in the direction opposite to RFC 4121),
    [LockoutFile.torn_append_returns] (a torn record revived by the next append),
    [History.history_after_wrap] and [StorePw.keepold_after_wrap] (versions
    compared by number after the number wraps around), [Journal.journal_history]
    (a change cut inside its first word or inside a character makes the database
    unreadable), [KdcPolicy.postdated_outlives] (a signed difference of times that
    wraps), [StoreInv.km_renamed_shares_rid] (two rows with one RID),
    [SeqState.wrap_forgets] and [UlogRing.replay_out_of_turn] (the limits of the
    replay window and of the update log).

    ** Fuel

    Loops over data are structural.  The others take a bound that is proved to
    suffice for every input: [Nfold.gcd_loop] (the second argument decreases),
    [Derive.dk_loop] and [dk_des3_loop] (each turn adds a block to the output),
    [Der.len_len_loop] (one octet of a 64-bit length per turn),
    [Prf.prf_plus_loop] and [hash_loop] (each turn adds at least one octet),
    [Glob.glob_fuel] (a star moves on in the text or the pattern is consumed),
    [Acl.lines_loop] and [flags_spec_loop] (each turn consumes input),
    [Reader.times] (the count read, each turn consuming input),
    [Pwqual.search_loop] (the interval shrinks), [Ulog.extend_loop] and [gather]
    (a block per turn), [DumpText.width] (a digit per turn of a number of at most
    twenty) and [parse_lines] (a line per turn), [K5json] (a byte per call or turn),
    [Exchange.find_tag] (an element per turn; [find_tag_fuel]),
    [AuthData.find_authdata_1] and [PacVerify.authorization_with_zeroed_pac] (a level
    of containers per turn, each shorter than the one around it;
    [find_authdata_total], [zeroed_pac_fuel]).  [Store.resolve_loop] has the source's
    own limit, [MAX_ALIAS_DEPTH], and [TgsHeader.try_tgts] and
    [PacVerify.try_old_keys] the source's number of key versions.

    ** Not modelled

    Sockets, files, locks, signals, command lines, logging and tracing (with the
    [detail] of an error, which only goes to the log); wiping of secrets; writes that
    the operating system reorders or loses when the power fails (a crash of the
    process, failing calls and partial writes are modelled); the ASN.1 codecs, which
    a macro of the rasn crate derives; X.509, CMS and elliptic curves, which are
    external crates, and with them the inside of the PKINIT, SPAKE and OTP modules,
    whose answers are the class [PreauthCode] (and the parking of requests while an
    OTP server answers); the NDR encoding of a PAC's logon information, the class
    [LogonCode]; modules an embedding program registers, which are parameters; the
    generated field arithmetic of [krb5-brainpool]; the client side, keytabs and
    credential caches of [krb5-protocol]; the RPC server of [krb5-admin]; the profile
    reader of [krb5-config]. *)

From coqutil Require Export Byte Word.LittleEndianList.
From Stdlib Require Export Strings.Byte.
From stdpp Require Export base list gmap strings numbers.

#[global] Open Scope Z_scope.

(** ** Results

    [result E A] is Rust's [Result<A, E>]; [let?] is the [?] operator. *)

Inductive result (E A : Type) : Type :=
| Ok (a : A)
| Err (e : E).
Arguments Ok {E A} a.
Arguments Err {E A} e.

Declare Scope rust_scope.
Delimit Scope rust_scope with rust.
#[global] Open Scope rust_scope.

Notation "'let?' x := e 'in' k" :=
  (match e with Ok x => k | Err err => Err err end)
  (at level 10, x pattern, e at level 200, k at level 200,
   format "'[v' 'let?'  x  :=  e  'in' '/' k ']'") : rust_scope.

Definition is_ok {E A} (r : result E A) : bool :=
  match r with Ok _ => true | Err _ => false end.

(** [Result::map_err] and [Option::ok_or]. *)
Definition map_err {E F A} (f : E -> F) (r : result E A) : result F A :=
  match r with Ok a => Ok a | Err e => Err (f e) end.

Definition ok_or {E A} (o : option A) (e : E) : result E A :=
  match o with Some a => Ok a | None => Err e end.

#[global] Instance result_eq_dec {E A} `{EqDecision E, EqDecision A} :
  EqDecision (result E A).
Proof. solve_decision. Defined.

(** ** Bytes and machine integers

    A [u8] is [Init.Byte.byte]; the wider unsigned integers are [Z] with their
    wrap-around written out where the source has it. *)

Abbreviation bytes := (list byte).

#[global] Instance byte_eq_dec : EqDecision byte := Byte.byte_eq_dec.

#[global] Instance byte_inhabited : Inhabited byte := populate x00.

#[global] Instance byte_countable : Countable byte :=
  inj_countable Byte.to_N Byte.of_N Byte.of_to_N.

Abbreviation u8z := byte.unsigned.
Abbreviation z8 := byte.of_Z.

Definition U16_MAX : Z := 2 ^ 16 - 1.
Definition U32_MAX : Z := 2 ^ 32 - 1.
Definition I32_MAX : Z := 2 ^ 31 - 1.
Definition U64_MAX : Z := 2 ^ 64 - 1.

Definition is_u16 (z : Z) : Prop := 0 <= z < 2 ^ 16.
Definition is_u32 (z : Z) : Prop := 0 <= z < 2 ^ 32.
Definition is_u64 (z : Z) : Prop := 0 <= z < 2 ^ 64.
Definition is_i16 (z : Z) : Prop := - 2 ^ 15 <= z < 2 ^ 15.
Definition is_i32 (z : Z) : Prop := - 2 ^ 31 <= z < 2 ^ 31.

(** [uN::wrapping_add], [uN::wrapping_sub] at width [w]. *)
Definition wrapping_add (w a b : Z) : Z := (a + b) mod 2 ^ w.
Definition wrapping_sub (w a b : Z) : Z := (a - b) mod 2 ^ w.

(** [cast_signed] and [cast_unsigned] at width [w]. *)
Definition cast_signed (w z : Z) : Z := if z <? 2 ^ (w - 1) then z else z - 2 ^ w.
Definition cast_unsigned (w z : Z) : Z := z mod 2 ^ w.

(** [uN::try_from(n).unwrap_or(d)] on a non-negative [n]. *)
Definition try_from_or (w n d : Z) : Z := if n <? 2 ^ w then n else d.

Definition blen {A} (l : list A) : Z := Z.of_nat (length l).

(** *** Byte orders *)

Inductive endian := Little | Big.
#[global] Instance endian_eq_dec : EqDecision endian.
Proof. solve_decision. Defined.

Definition to_le_bytes (n : nat) (z : Z) : bytes := le_split n z.
Definition from_le_bytes (b : bytes) : Z := le_combine b.
Definition to_be_bytes (n : nat) (z : Z) : bytes := rev (le_split n z).
Definition from_be_bytes (b : bytes) : Z := le_combine (rev b).

(** [to_ne_bytes] and [from_ne_bytes] depend on the host's byte order. *)
Definition to_bytes_of (e : endian) (n : nat) (z : Z) : bytes :=
  match e with Little => to_le_bytes n z | Big => to_be_bytes n z end.
Definition from_bytes_of (e : endian) (b : bytes) : Z :=
  match e with Little => from_le_bytes b | Big => from_be_bytes b end.

Lemma length_to_le_bytes n z : length (to_le_bytes n z) = n.
Proof. apply length_le_split. Qed.

Lemma length_to_be_bytes n z : length (to_be_bytes n z) = n.
Proof. unfold to_be_bytes. by rewrite length_rev, length_le_split. Qed.

Lemma length_to_bytes_of e n z : length (to_bytes_of e n z) = n.
Proof. destruct e; [apply length_to_le_bytes|apply length_to_be_bytes]. Qed.

Lemma from_to_le_bytes n z :
  0 <= z < 2 ^ (Z.of_nat n * 8) -> from_le_bytes (to_le_bytes n z) = z.
Proof.
  intros H. unfold from_le_bytes, to_le_bytes.
  rewrite le_combine_split. by apply Z.mod_small.
Qed.

Lemma from_to_be_bytes n z :
  0 <= z < 2 ^ (Z.of_nat n * 8) -> from_be_bytes (to_be_bytes n z) = z.
Proof.
  intros H. unfold from_be_bytes, to_be_bytes.
  rewrite rev_involutive. by apply from_to_le_bytes.
Qed.

Lemma from_to_bytes_of e n z :
  0 <= z < 2 ^ (Z.of_nat n * 8) -> from_bytes_of e (to_bytes_of e n z) = z.
Proof. destruct e; [apply from_to_le_bytes|apply from_to_be_bytes]. Qed.

Lemma to_from_le_bytes b : to_le_bytes (length b) (from_le_bytes b) = b.
Proof. apply split_le_combine. Qed.

Lemma to_from_be_bytes b : to_be_bytes (length b) (from_be_bytes b) = b.
Proof.
  unfold to_be_bytes, from_be_bytes.
  rewrite <- (length_rev b), split_le_combine. apply rev_involutive.
Qed.

Lemma to_from_bytes_of e n b :
  length b = n -> to_bytes_of e n (from_bytes_of e b) = b.
Proof.
  intros <-. destruct e; [apply to_from_le_bytes|apply to_from_be_bytes].
Qed.

Lemma from_bytes_of_bound e b n :
  length b = n -> 0 <= from_bytes_of e b < 2 ^ (8 * Z.of_nat n).
Proof.
  intros <-. destruct e; cbn; unfold from_le_bytes, from_be_bytes.
  - apply le_combine_bound.
  - rewrite <- (length_rev b). apply le_combine_bound.
Qed.

Lemma land_255 z : Z.land z 255 = z mod 256.
Proof. exact (Z.land_ones z 8 ltac:(done)). Qed.

Lemma land_7 z : Z.land z 7 = z mod 8.
Proof. exact (Z.land_ones z 3 ltac:(done)). Qed.

Lemma shiftr_8 z : Z.shiftr z 8 = z / 256.
Proof. exact (Z.shiftr_div_pow2 z 8 ltac:(done)). Qed.

Lemma shiftr_3 z : Z.shiftr z 3 = z / 8.
Proof. exact (Z.shiftr_div_pow2 z 3 ltac:(done)). Qed.

(** *** Values of byte strings *)

Lemma from_le_cons b l : from_le_bytes (b :: l) = u8z b + 256 * from_le_bytes l.
Proof.
  unfold from_le_bytes.
  change (le_combine (b :: l)) with (Z.lor (u8z b) (Z.shiftl (le_combine l) 8)).
  pose proof (byte.unsigned_range b) as Hb. pose proof (le_combine_bound l) as Hl.
  rewrite Z.shiftl_mul_pow2 by lia.
  pose proof (Z.add_lor_land (u8z b) (le_combine l * 2 ^ 8)) as Hlor.
  enough (Z.land (u8z b) (le_combine l * 2 ^ 8) = 0) as Hz by (change (2 ^ 8) with 256 in *; lia).
  apply Z.bits_inj'. intros n Hn. rewrite Z.land_spec, Z.bits_0.
  destruct (decide (n < 8)).
  - rewrite (Z.mul_pow2_bits_low _ 8 n) by lia. apply andb_false_r.
  - rewrite <- (Z.mod_small (u8z b) (2 ^ 8)) by lia.
    rewrite Z.mod_pow2_bits_high by lia. done.
Qed.

Lemma from_le_app a l :
  from_le_bytes (a ++ l) = from_le_bytes a + 256 ^ blen a * from_le_bytes l.
Proof.
  induction a as [|b a IH].
  { rewrite app_nil_l. change (from_le_bytes []) with 0. unfold blen.
    change (256 ^ Z.of_nat (length [])) with 1. lia. }
  rewrite <- app_comm_cons, !from_le_cons, IH. unfold blen.
  rewrite length_cons, Nat2Z.inj_succ, Z.pow_succ_r by lia. lia.
Qed.

Lemma from_be_app a l :
  from_be_bytes (a ++ l) = from_be_bytes a * 256 ^ blen l + from_be_bytes l.
Proof.
  unfold from_be_bytes. rewrite rev_app_distr.
  change le_combine with from_le_bytes. rewrite from_le_app. unfold blen.
  rewrite length_rev. lia.
Qed.

Lemma from_be_nil : from_be_bytes [] = 0.
Proof. done. Qed.

Lemma from_be_cons b l :
  from_be_bytes (b :: l) = u8z b * 256 ^ blen l + from_be_bytes l.
Proof.
  change (b :: l) with ([b] ++ l). rewrite from_be_app. f_equal. f_equal.
  change [b] with (rev [b]). unfold from_be_bytes. rewrite rev_involutive.
  change le_combine with from_le_bytes. rewrite from_le_cons.
  change (from_le_bytes []) with 0. lia.
Qed.

Lemma from_be_bound l : 0 <= from_be_bytes l < 256 ^ blen l.
Proof.
  pose proof (from_bytes_of_bound Big l (length l) eq_refl) as H. cbn in H.
  rewrite Z.pow_mul_r in H by lia. exact H.
Qed.

(** Bit [p] of a little-endian value is bit [p mod 8] of byte [p / 8]. *)
Lemma testbit_from_le l p :
  0 <= p < 8 * blen l ->
  Z.testbit (from_le_bytes l) p = Z.testbit (u8z (l !!! Z.to_nat (p / 8))) (p mod 8).
Proof.
  revert p. induction l as [|b l IH]; intros p Hp; unfold blen in *; [cbn in *; lia|].
  unfold from_le_bytes.
  change (le_combine (b :: l)) with (Z.lor (u8z b) (Z.shiftl (le_combine l) 8)).
  rewrite Z.lor_spec, Z.shiftl_spec by lia.
  pose proof (byte.unsigned_range b) as Hb. rewrite length_cons in Hp.
  destruct (decide (p < 8)) as [Hlt|Hge].
  - rewrite (Z.testbit_neg_r _ (p - 8)) by lia.
    rewrite Z.div_small, Z.mod_small by lia. rewrite orb_false_r. done.
  - rewrite <- (Z.mod_small (u8z b) (2 ^ 8)) by lia.
    rewrite Z.mod_pow2_bits_high by lia. rewrite orb_false_l.
    change (le_combine l) with (from_le_bytes l). rewrite IH by lia.
    replace (p / 8) with (Z.succ ((p - 8) / 8)).
    2: { replace p with ((p - 8) + 1 * 8) at 2 by lia. rewrite Z.div_add by lia. lia. }
    rewrite Z2Nat.inj_succ by (apply Z.div_pos; lia). cbn.
    f_equal. replace p with ((p - 8) + 1 * 8) at 2 by lia. by rewrite Z.mod_add by lia.
Qed.

Lemma testbit_from_be l p :
  0 <= p < 8 * blen l ->
  Z.testbit (from_be_bytes l) p
  = Z.testbit (u8z (l !!! Z.to_nat (blen l - 1 - p / 8))) (p mod 8).
Proof.
  intros Hp. unfold from_be_bytes. change le_combine with from_le_bytes.
  rewrite testbit_from_le by (unfold blen in *; rewrite length_rev; lia).
  do 2 f_equal. rewrite rev_alt. change (rev_append l []) with (reverse l). unfold blen in *.
  assert (0 <= p / 8 < Z.of_nat (length l)) as Hd
    by (split; [apply Z.div_pos; lia|apply Z.div_lt_upper_bound; lia]).
  rewrite !list_lookup_total_alt, reverse_lookup by lia. do 2 f_equal. lia.
Qed.

(** *** Exclusive or of byte strings, [a ^= b] element by element *)

Definition xor_bytes (a b : bytes) : bytes := zip_with byte.xor a b.

Lemma byte_xor_unsigned a b : u8z (byte.xor a b) = Z.lxor (u8z a) (u8z b).
Proof.
  unfold byte.xor. rewrite byte.unsigned_of_Z. unfold byte.wrap.
  pose proof (byte.unsigned_range a). pose proof (byte.unsigned_range b).
  apply Z.mod_small. split; [apply Z.lxor_nonneg; lia|].
  destruct (decide (Z.lxor (u8z a) (u8z b) = 0)) as [->|Hne]; [lia|].
  apply Z.log2_lt_pow2; [pose proof (Z.lxor_nonneg (u8z a) (u8z b)); lia|].
  eapply Z.le_lt_trans; [apply Z.log2_lxor; lia|].
  apply Z.max_lub_lt; (destruct (decide (u8z a = 0)) as [Ea|Ea];
    destruct (decide (u8z b = 0)) as [Eb|Eb]; rewrite ?Ea, ?Eb; try (cbn; lia);
    apply Z.log2_lt_pow2; lia).
Qed.

Lemma byte_xor_cancel a b : byte.xor (byte.xor a b) b = a.
Proof.
  apply byte.unsigned_inj. rewrite !byte_xor_unsigned.
  by rewrite Z.lxor_assoc, Z.lxor_nilpotent, Z.lxor_0_r.
Qed.

Lemma length_xor_bytes a b :
  length a = length b -> length (xor_bytes a b) = length a.
Proof. intros H. unfold xor_bytes. rewrite length_zip_with. lia. Qed.

Lemma xor_bytes_cancel a b :
  (length a <= length b)%nat -> xor_bytes (xor_bytes a b) b = a.
Proof.
  revert b. induction a as [|x a IH]; intros [|y b] H; simpl in *; try done; try lia.
  unfold xor_bytes in *. simpl. rewrite byte_xor_cancel, IH by lia. done.
Qed.

(** ** Slices

    [slice l i j] is [&l[i..j]] for [i <= j <= l.len()]. *)

Definition slice {A} (l : list A) (i j : nat) : list A := take (j - i) (drop i l).

(** [&mut l[i..i + s.len()]).copy_from_slice(s)]. *)
Definition write_at {A} (l : list A) (i : nat) (s : list A) : list A :=
  take i l ++ s ++ drop (i + length s) l.

Lemma length_slice {A} (l : list A) i j :
  (i <= j <= length l)%nat -> length (slice l i j) = (j - i)%nat.
Proof. intros H. unfold slice. rewrite length_take, length_drop. lia. Qed.

Lemma slice_app_mid {A} (a b c : list A) :
  slice (a ++ b ++ c) (length a) (length a + length b) = b.
Proof.
  unfold slice. rewrite drop_app_length.
  replace (length a + length b - length a)%nat with (length b) by lia.
  apply take_app_length.
Qed.

Lemma slice_mid {A} (a b c : list A) i j :
  length a = i -> length (a ++ b) = j -> slice (a ++ b ++ c) i j = b.
Proof.
  intros <- <-. rewrite length_app. apply slice_app_mid.
Qed.

Lemma length_write_at {A} (l : list A) i s :
  (i + length s <= length l)%nat -> length (write_at l i s) = length l.
Proof.
  intros H. unfold write_at. rewrite !length_app, length_take, length_drop. lia.
Qed.

Lemma write_at_app {A} (a x c y : list A) :
  length x = length y -> write_at (a ++ x ++ c) (length a) y = a ++ y ++ c.
Proof.
  intros H. unfold write_at. rewrite take_app_length. do 2 f_equal. rewrite <- H, <- drop_drop, drop_app_length.
  apply drop_app_length.
Qed.

(** ** Tactics *)

(** Split every [match] of the goal or the hypotheses. *)
Ltac case_matches := repeat (case_match; simplify_eq/=; try done).

(** Turn boolean comparisons of the context into propositions. *)
Ltac to_prop :=
  repeat match goal with
  | H : (_ && _)%bool = true |- _ => apply andb_true_iff in H as [? ?]
  | H : (_ || _)%bool = false |- _ => apply orb_false_iff in H as [? ?]
  | H : negb _ = true |- _ => apply negb_true_iff in H
  | H : negb _ = false |- _ => apply negb_false_iff in H
  | H : (_ <? _) = true |- _ => apply Z.ltb_lt in H
  | H : (_ <? _) = false |- _ => apply Z.ltb_ge in H
  | H : (_ <=? _) = true |- _ => apply Z.leb_le in H
  | H : (_ <=? _) = false |- _ => apply Z.leb_gt in H
  | H : (_ =? _) = true |- _ => apply Z.eqb_eq in H
  | H : (_ =? _) = false |- _ => apply Z.eqb_neq in H
  | H : (_ <? _)%nat = true |- _ => apply Nat.ltb_lt in H
  | H : (_ <? _)%nat = false |- _ => apply Nat.ltb_ge in H
  | H : (_ <=? _)%nat = true |- _ => apply Nat.leb_le in H
  | H : (_ <=? _)%nat = false |- _ => apply Nat.leb_gt in H
  | H : (_ =? _)%nat = true |- _ => apply Nat.eqb_eq in H
  | H : (_ =? _)%nat = false |- _ => apply Nat.eqb_neq in H
  | H : bool_decide _ = true |- _ => apply bool_decide_eq_true in H
  | H : bool_decide _ = false |- _ => apply bool_decide_eq_false in H
  end.

Create HintDb krb discriminated.
Create Rewrite HintDb len.
#[export] Hint Resolve length_to_be_bytes length_to_le_bytes length_to_bytes_of : krb.
#[export] Hint Rewrite length_to_be_bytes length_to_le_bytes length_to_bytes_of
  @length_app @length_take @length_drop @length_rev : len.

(** Normalise lengths, then arithmetic. *)
Ltac len := autorewrite with len in *; simpl in *; try lia.
