(* ===== verification/Reader.v ===== *)
(** * Readers of binary formats

    A reader takes a value off the front of its input and gives it with the rest,
    or an error: the cursor of a Rust reader is the rest of the bytes.  Shared by
    the codecs of the development: what it means to read an encoding back, and
    that a reader looks at nothing past what it takes. *)

From S2P Require Import Prelude.

Create HintDb reader.

Section Reader.
Context {T Er : Type}.

(** The input is a list of bytes, or of fields. *)
#[local] Abbreviation input := (list T).
Abbreviation reader A := (input -> result Er (A * input)).

(** [n] reads in a row.  Every read takes bytes, so there are no more of them
    than bytes before one fails; the fuel is that bound
    and [e] the error of a read at the end. *)
Fixpoint times {A} (e : Er) (fuel : nat) (rd : reader A) (n : Z) (b : input)
    : result Er (list A * input) :=
  if n <=? 0 then Ok ([], b)
  else
    match fuel with
    | O => Err e
    | S fuel =>
        let? (a, b) := rd b in
        let? (l, b) := times e fuel rd (n - 1) b in
        Ok (a :: l, b)
    end.

(** The same where [n] is known to be at most the number of bytes left. *)
Fixpoint repeat_n {A} (n : nat) (rd : reader A) (b : input) : result Er (list A * input) :=
  match n with
  | O => Ok ([], b)
  | S n =>
      let? (a, b) := rd b in
      let? (l, b) := repeat_n n rd b in
      Ok (a :: l, b)
  end.

(** [rd] takes [enc] off the front of the input and gives [x]. *)
Definition reads {A} (rd : reader A) (enc : input) (x : A) : Prop :=
  forall rest, rd (enc ++ rest) = Ok (x, rest).

(** A successful read does not look past what it takes, and takes something. *)
Definition local {A} (rd : reader A) : Prop :=
  forall b a r, rd b = Ok (a, r) -> (length r < length b)%nat /\ forall x, rd (b ++ x) = Ok (a, r ++ x).

(** The same for a reader that may take nothing. *)
Definition wlocal {A} (rd : reader A) : Prop :=
  forall b a r, rd b = Ok (a, r) -> (length r <= length b)%nat /\ forall x, rd (b ++ x) = Ok (a, r ++ x).

Lemma local_weak {A} (rd : reader A) : local rd -> wlocal rd.
Proof. intros H b a r E. apply H in E as [? ?]. split; [lia|done]. Qed.

Lemma wlocal_ret {A} (a : A) : wlocal (fun b => Ok (a, b)).
Proof. intros b a' r [= <- <-]. by split. Qed.

Lemma wlocal_err {A} (e : Er) : wlocal (fun _ : input => Err e : result Er (A * input)).
Proof. by intros b a r. Qed.

Lemma wlocal_if {A} (c : bool) (f g : reader A) :
  wlocal f -> wlocal g -> wlocal (fun b => if c then f b else g b).
Proof. by destruct c. Qed.

Lemma wlocal_pure {A B} (v : result Er A) (k : A -> reader B) :
  (forall a, wlocal (k a)) -> wlocal (fun b => let? a := v in k a b).
Proof. intros H. destruct v; [apply H|apply wlocal_err]. Qed.

Lemma local_bind {A B} rd (k : A -> reader B) :
  local rd -> (forall a, wlocal (k a)) -> local (fun b => let? (a, b) := rd b in k a b).
Proof.
  intros Hrd Hk b c r. destruct (rd b) as [[a b1]|] eqn:E; [|done]. intros Hc.
  apply Hrd in E as [Hl E]. apply Hk in Hc as [Hl' Hc]. split; [lia|]. intros x. by rewrite E.
Qed.

Lemma wlocal_bind {A B} rd (k : A -> reader B) :
  wlocal rd -> (forall a, wlocal (k a)) -> wlocal (fun b => let? (a, b) := rd b in k a b).
Proof.
  intros Hrd Hk b c r. destruct (rd b) as [[a b1]|] eqn:E; [|done]. intros Hc.
  apply Hrd in E as [Hl E]. apply Hk in Hc as [Hl' Hc]. split; [lia|]. intros x. by rewrite E.
Qed.

Lemma times_fuel {A} (rd : reader A) e fuel fuel' n b :
  local rd -> (length b < fuel)%nat -> (length b < fuel')%nat -> times e fuel rd n b = times e fuel' rd n b.
Proof.
  intros Hrd. revert fuel' n b. induction fuel as [|fuel IH]; intros [|fuel'] n b H H'; [lia..|].
  cbn [times]. destruct (n <=? 0); [done|]. destruct (rd b) as [[a b1]|] eqn:E; [|done].
  apply Hrd in E as [Hl _]. by rewrite (IH fuel') by lia.
Qed.

Lemma wlocal_times {A} (e : Er) (rd : reader A) n :
  local rd -> wlocal (fun b => times e (S (length b)) rd n b).
Proof.
  intros Hrd. cut (forall fuel n b a r, (length b < fuel)%nat -> times e fuel rd n b = Ok (a, r) ->
    (length r <= length b)%nat /\ forall x, times e (fuel + length x) rd n (b ++ x) = Ok (a, r ++ x)).
  { intros H b a r E. apply H in E as [Hl E]; [|lia]. split; [done|]. intros x. rewrite <- (E x).
    apply times_fuel; [done|rewrite length_app; lia..]. }
  clear n. induction fuel as [|fuel IH]; intros n b a r Hf E; [lia|]. cbn [times Nat.add] in *.
  destruct (n <=? 0); [injection E as <- <-; by split|]. destruct (rd b) as [[c b1]|] eqn:Eb; [|done].
  apply Hrd in Eb as [Hl Eb]. destruct (times e fuel rd (n - 1) b1) as [[l b2]|] eqn:Et; [|done].
  apply IH in Et as [Hl' Et]; [|lia]. injection E as <- <-. split; [lia|]. intros x. by rewrite Eb, Et.
Qed.

Lemma times_reads {A} rd (f : A -> input) l e fuel rest :
  local rd -> Forall (fun x => reads rd (f x) x) l -> (length (flat_map f l ++ rest) < fuel)%nat ->
  times e fuel rd (Z.of_nat (length l)) (flat_map f l ++ rest) = Ok (l, rest).
Proof.
  intros Hrd Hl. revert fuel. induction Hl as [|x l Hx _ IH]; intros fuel Hf; [by destruct fuel|].
  destruct fuel as [|fuel]; [lia|]. cbn [times length flat_map].
  rewrite (proj2 (Z.leb_gt _ _)) by lia. rewrite <- app_assoc, Hx.
  replace (Z.of_nat (S (length l)) - 1) with (Z.of_nat (length l)) by lia.
  rewrite IH; [done|]. destruct (Hrd _ _ _ (Hx [])) as [Hlt _]. cbn [flat_map] in Hf.
  rewrite !length_app in *. cbn in Hlt. lia.
Qed.

Lemma wlocal_repeat_n {A} n (rd : reader A) : wlocal rd -> wlocal (repeat_n n rd).
Proof.
  intros Hrd. induction n as [|n IH]; cbn [repeat_n]; [apply wlocal_ret|].
  apply wlocal_bind; [done|]. intros a. apply wlocal_bind; [done|]. intros l. apply wlocal_ret.
Qed.

Lemma repeat_n_reads {A} (rd : reader A) es xs :
  Forall2 (reads rd) es xs -> reads (repeat_n (length es) rd) (concat es) xs.
Proof.
  intros Hl. induction Hl as [|e x es xs Hx _ IH]; intros rest; [done|]. cbn [repeat_n length concat].
  by rewrite <- app_assoc, Hx, IH.
Qed.

End Reader.

#[export] Hint Resolve local_weak : reader.

(** Locality of a reader, step by step. *)
Ltac local_reader :=
  repeat first
    [ match goal with |- forall _, _ => intros ? end | assumption | solve [auto 3 with reader nocore]
    | apply wlocal_ret | apply wlocal_err
    | apply wlocal_times | apply wlocal_repeat_n | apply wlocal_if | apply local_bind | apply wlocal_bind
    | apply wlocal_pure | apply local_weak ].
