(* ===== verification/StateErr.v ===== *)
(** * State and errors

    The monad of [&mut self] methods that return a [Result]: a computation takes
    the state and gives the state after it with a value or an error.  What was
    done before an error stays in the state. *)

From S2P Require Import Prelude.

Section StateErr.
Context {St Er : Type}.

Definition SE (A : Type) : Type := St -> St * result Er A.

Definition ret {A} (a : A) : SE A := fun s => (s, Ok a).
Definition lift {A} (r : result Er A) : SE A := fun s => (s, r).
Definition bind {A B} (m : SE A) (k : A -> SE B) : SE B :=
  fun s => match m s with (s, Ok a) => k a s | (s, Err e) => (s, Err e) end.
Definition reading {A} (f : St -> A) : SE A := fun s => (s, Ok (f s)).
Definition assign (f : St -> St) : SE unit := fun s => (f s, Ok tt).

(** [for x in l { f(x)?; }]. *)
Fixpoint each {A} (f : A -> SE unit) (l : list A) : SE unit :=
  match l with
  | [] => ret tt
  | x :: l => bind (f x) (fun _ => each f l)
  end.

Lemma bind_ok {A B} (m : SE A) (k : A -> SE B) s s' a : m s = (s', Ok a) -> bind m k s = k a s'.
Proof. intros H. unfold bind. by rewrite H. Qed.

Lemma bind_err {A B} (m : SE A) (k : A -> SE B) s s' e : m s = (s', Err e) -> bind m k s = (s', Err e).
Proof. intros H. unfold bind. by rewrite H. Qed.

Lemma bind_ok2 {A B C} (m : SE A) (n : A -> SE B) (k : B -> SE C) s s' b :
  bind m n s = (s', Ok b) -> bind m (fun a => bind (n a) k) s = k b s'.
Proof. unfold bind. destruct (m s) as [s1 [a|e]]; [|done]. intros H. by rewrite H. Qed.

Lemma bind_inv {A B} (m : SE A) (k : A -> SE B) s s' b :
  bind m k s = (s', Ok b) -> exists s1 a, m s = (s1, Ok a) /\ k a s1 = (s', Ok b).
Proof. unfold bind. destruct (m s) as [s1 [a|e]]; [|done]. intros H. by exists s1, a. Qed.

End StateErr.

Arguments SE : clear implicits.

Notation "'let!' x := m 'in' k" := (bind m (fun x => k)) (at level 10, x pattern, m at level 100, k at level 200).
Notation "'do!' m ; k" := (bind m (fun _ => k)) (at level 10, m at level 100, k at level 200).
