(* ===== verification/Etype.v ===== *)
(** * Encryption types, key usages and protocol keys

    Models [krb5-crypto/src/error.rs], [etype.rs] and [key.rs]: the error enum,
    the enctypes with their IANA numbers and size tables, the checksum-type
    classification, [KeyUsage] and [ProtocolKey]. *)

From S2P Require Import Prelude.

(** [krb5_crypto::Error]. *)
Inductive Error :=
| UnsupportedEtype (n : Z)
| WeakEtypeRefused (n : Z)
| InvalidKeyLength
| InvalidKeyUsage
| InvalidParams
| InvalidConfounder
| CiphertextTooShort
| Integrity
| UnsupportedChecksum (n : Z)
| BadChecksumSize
| InappChecksum
| Rng
| BadS2kParams
| BadEnctype (n : Z)
| DesBadParity
| DesWeakKey.

#[global] Instance Error_eq_dec : EqDecision Error.
Proof. solve_decision. Defined.

(** ** Key usages *)

Module KeyUsage.

(** A usage is its [u32]; [new] refuses 0, [from_rfc] takes any number. *)
Definition new (n : Z) : result Error Z :=
  if n =? 0 then Err InvalidKeyUsage else Ok n.

Definition derivation_constant (usage : Z) (suffix : byte) : bytes :=
  to_be_bytes 4 usage ++ [suffix].

Lemma length_derivation_constant u s : length (derivation_constant u s) = 5%nat.
Proof. unfold derivation_constant. len. Qed.

(** Distinct (usage, suffix) pairs have distinct constants. *)
Lemma derivation_constant_inj u v s t :
  is_u32 u -> is_u32 v ->
  derivation_constant u s = derivation_constant v t -> u = v /\ s = t.
Proof.
  intros Hu Hv H. unfold derivation_constant in H.
  apply app_inj_2 in H as [Hb Hs]; [|done]. split; [|by injection Hs].
  rewrite <- (from_to_be_bytes 4 u), <- (from_to_be_bytes 4 v) by (unfold is_u32 in *; lia).
  by rewrite Hb.
Qed.

End KeyUsage.

(** ** Encryption types *)

Inductive EncryptionType :=
| Des3CbcSha1
| Aes128CtsHmacSha196
| Aes256CtsHmacSha196
| Aes128CtsHmacSha256128
| Aes256CtsHmacSha384192
| Rc4Hmac
| Camellia128CtsCmac
| Camellia256CtsCmac.

#[global] Instance EncryptionType_eq_dec : EqDecision EncryptionType.
Proof. solve_decision. Defined.

Module EType.

Definition to_iana (e : EncryptionType) : Z :=
  match e with
  | Des3CbcSha1 => 16
  | Aes128CtsHmacSha196 => 17
  | Aes256CtsHmacSha196 => 18
  | Aes128CtsHmacSha256128 => 19
  | Aes256CtsHmacSha384192 => 20
  | Rc4Hmac => 23
  | Camellia128CtsCmac => 25
  | Camellia256CtsCmac => 26
  end.

Definition known (n : Z) : result Error EncryptionType :=
  match n with
  | 16 => Ok Des3CbcSha1
  | 17 => Ok Aes128CtsHmacSha196
  | 18 => Ok Aes256CtsHmacSha196
  | 19 => Ok Aes128CtsHmacSha256128
  | 20 => Ok Aes256CtsHmacSha384192
  | 23 => Ok Rc4Hmac
  | 25 => Ok Camellia128CtsCmac
  | 26 => Ok Camellia256CtsCmac
  | other => Err (UnsupportedEtype other)
  end.

Definition is_deprecated (e : EncryptionType) : bool :=
  match e with Des3CbcSha1 | Rc4Hmac => true | _ => false end.

Definition is_weak (e : EncryptionType) : bool :=
  match e with
  | Des3CbcSha1 | Rc4Hmac | Camellia128CtsCmac | Camellia256CtsCmac => true
  | _ => false
  end.

Definition from_iana_policy (n : Z) (allow_weak : bool) : result Error EncryptionType :=
  let? e := known n in
  if is_weak e && negb allow_weak then Err (WeakEtypeRefused n) else Ok e.

Definition from_iana (n : Z) : result Error EncryptionType := from_iana_policy n false.

Definition key_len (e : EncryptionType) : nat :=
  match e with
  | Aes128CtsHmacSha196 | Aes128CtsHmacSha256128 | Camellia128CtsCmac | Rc4Hmac => 16
  | Aes256CtsHmacSha196 | Aes256CtsHmacSha384192 | Camellia256CtsCmac => 32
  | Des3CbcSha1 => 24
  end.

Definition keybytes (e : EncryptionType) : nat :=
  match e with Des3CbcSha1 => 21 | _ => key_len e end.

Definition hmac_output_len (e : EncryptionType) : nat :=
  match e with
  | Aes128CtsHmacSha196 | Aes256CtsHmacSha196 => 12
  | Aes128CtsHmacSha256128 | Rc4Hmac | Camellia128CtsCmac | Camellia256CtsCmac => 16
  | Aes256CtsHmacSha384192 => 24
  | Des3CbcSha1 => 20
  end.

Definition mac_key_len (e : EncryptionType) : nat :=
  match e with
  | Aes128CtsHmacSha196 | Aes256CtsHmacSha196 => key_len e
  | Aes128CtsHmacSha256128 | Rc4Hmac | Camellia128CtsCmac => 16
  | Aes256CtsHmacSha384192 | Des3CbcSha1 => 24
  | Camellia256CtsCmac => 32
  end.

Definition checksum_type (e : EncryptionType) : Z :=
  match e with
  | Aes128CtsHmacSha196 => 15
  | Aes256CtsHmacSha196 => 16
  | Aes128CtsHmacSha256128 => 19
  | Aes256CtsHmacSha384192 => 20
  | Des3CbcSha1 => 12
  | Rc4Hmac => -138
  | Camellia128CtsCmac => 17
  | Camellia256CtsCmac => 18
  end.

Definition min_ciphertext_len (e : EncryptionType) : nat :=
  match e with
  | Rc4Hmac => 24
  | Des3CbcSha1 => 28
  | _ => 16 + hmac_output_len e
  end.

Definition is_rfc8009 (e : EncryptionType) : bool :=
  match e with Aes128CtsHmacSha256128 | Aes256CtsHmacSha384192 => true | _ => false end.

Definition is_aes (e : EncryptionType) : bool :=
  match e with
  | Aes128CtsHmacSha196 | Aes256CtsHmacSha196
  | Aes128CtsHmacSha256128 | Aes256CtsHmacSha384192 => true
  | _ => false
  end.

Definition is_camellia (e : EncryptionType) : bool :=
  match e with Camellia128CtsCmac | Camellia256CtsCmac => true | _ => false end.

Definition default_iterations (e : EncryptionType) : Z :=
  if is_rfc8009 e || is_camellia e then 32768 else 4096.

(** The enctype names that salt RFC 8009 and Camellia string-to-key. *)
Definition enctype_name (e : EncryptionType) : option bytes :=
  let of_string := fun s => String.list_byte_of_string s in
  match e with
  | Aes128CtsHmacSha256128 => Some (of_string "aes128-cts-hmac-sha256-128"%string)
  | Aes256CtsHmacSha384192 => Some (of_string "aes256-cts-hmac-sha384-192"%string)
  | Camellia128CtsCmac => Some (of_string "camellia128-cts-cmac"%string)
  | Camellia256CtsCmac => Some (of_string "camellia256-cts-cmac"%string)
  | _ => None
  end.

Lemma known_to_iana e : known (to_iana e) = Ok e.
Proof. by destruct e. Qed.

Lemma to_iana_known n e : known n = Ok e -> to_iana e = n.
Proof.
  unfold known. intros H.
  repeat case_match; simplify_eq; done.
Qed.

Lemma to_iana_inj e f : to_iana e = to_iana f -> e = f.
Proof. intros H. by destruct e, f. Qed.

End EType.

(** ** Checksum types *)

Definition cksumtype_is_keyed (t : Z) : bool :=
  bool_decide (t ∈ [12; 15; 16; 17; 18; 19; 20; -137; -138]).
Definition cksumtype_is_unkeyed (t : Z) : bool := bool_decide (t ∈ [2; 7; 9; 14]).
Definition cksumtype_is_known (t : Z) : bool :=
  cksumtype_is_keyed t || cksumtype_is_unkeyed t.
Definition cksumtype_is_coll_proof (t : Z) : bool := cksumtype_is_known t.

(** ** Protocol keys *)

Module Key.

Record ProtocolKey := mk { etype : EncryptionType; as_bytes : bytes }.

Definition from_bytes (e : EncryptionType) (b : bytes) : result Error ProtocolKey :=
  if (length b =? EType.key_len e)%nat then Ok (mk e b) else Err InvalidKeyLength.

(** The invariant [from_bytes] establishes: the fields are private. *)
Definition wf (k : ProtocolKey) : Prop := length (as_bytes k) = EType.key_len (etype k).

Lemma from_bytes_wf e b k : from_bytes e b = Ok k -> wf k /\ etype k = e /\ as_bytes k = b.
Proof.
  unfold from_bytes. intros H. case_match; simplify_eq. to_prop. by split_and!.
Qed.

Lemma from_bytes_ok e b : length b = EType.key_len e -> from_bytes e b = Ok (mk e b).
Proof. intros H. unfold from_bytes. by rewrite H, Nat.eqb_refl. Qed.

Lemma from_bytes_of_key k : wf k -> from_bytes (etype k) (as_bytes k) = Ok k.
Proof. intros H. rewrite from_bytes_ok by done. by destruct k. Qed.

End Key.
