(* ===== verification/Nfold.v ===== *)
(** * n-fold (RFC 3961 section 5.1)

    Models [krb5-crypto/src/nfold.rs]: the Euclid loop for the least common
    multiple, the byte loop from the last expanded octet to the first with its
    running carry, and the final carry ripple. *)

From S2P Require Import Prelude Etype.

Module Nfold.

(** [while b != 0 { let c = b; b = a % b; a = c; }] *)
Fixpoint gcd_loop (fuel a b : nat) : nat :=
  match fuel with
  | O => a
  | S f => if (b =? 0)%nat then a else gcd_loop f b (a mod b)
  end.

(** The bit index, from the least significant end of the input, of the top bit
    of expanded octet [i]. *)
Definition msbit (inbits i : Z) : Z :=
  let inbits_bits := Z.shiftl inbits 3 in
  ((inbits_bits - 1) + ((inbits_bits + 13) * (i / inbits))
   + Z.shiftl (inbits - i mod inbits) 3) mod inbits_bits.

(** Expanded octet [i]: eight bits of the input from [msbit] down, cyclically. *)
Definition expanded_octet (input : bytes) (i : Z) : Z :=
  let inbits := blen input in
  let m := msbit inbits i in
  let at_ := fun j => u8z (input !!! Z.to_nat (j mod inbits)) in
  Z.land (Z.shiftr (Z.lor (Z.shiftl (at_ ((inbits - 1) - Z.shiftr m 3)) 8)
                          (at_ (inbits - Z.shiftr m 3)))
                   (Z.land m 7 + 1)) 255.

(** [for i in (0..n).rev()]: the main loop. *)
Fixpoint add_loop (input : bytes) (outbits n : nat) (out : bytes) (byte : Z) : bytes * Z :=
  match n with
  | O => (out, byte)
  | S i =>
      let byte := byte + expanded_octet input (Z.of_nat i) in
      let byte := byte + u8z (out !!! (i mod outbits)%nat) in
      add_loop input outbits i (<[(i mod outbits)%nat := z8 (Z.land byte 255)]> out)
        (Z.shiftr byte 8)
  end.

(** The final [for i in (0..outbits).rev()]. *)
Fixpoint carry_loop (n : nat) (out : bytes) (byte : Z) : bytes * Z :=
  match n with
  | O => (out, byte)
  | S i =>
      let byte := byte + u8z (out !!! i) in
      carry_loop i (<[i := z8 (Z.land byte 255)]> out) (Z.shiftr byte 8)
  end.

Definition lcm_of (inbits outbits : nat) : nat :=
  (outbits * inbits / gcd_loop (S inbits) outbits inbits)%nat.

Definition nfold (input : bytes) (out_len : nat) : result Error bytes :=
  if (length input =? 0)%nat || (out_len =? 0)%nat then Err InvalidParams
  else
    let lcm := lcm_of (length input) out_len in
    let '(out, byte) := add_loop input out_len lcm (replicate out_len x00) 0 in
    if byte =? 0 then Ok out else Ok (fst (carry_loop out_len out byte)).

(** ** RFC 3961's definition

    The input, read as a big-endian number of [8 * inbits] bits, is repeated
    with each copy rotated right by 13 more bits; the copies, concatenated, are
    cut in [n]-octet numbers that are added with end-around carry, which is the
    concatenation taken modulo [2 ^ (8 n) - 1]. *)

Definition rotate_right (w v r : Z) : Z :=
  Z.lor (Z.shiftr v (r mod w)) (Z.shiftl v (w - r mod w)) mod 2 ^ w.

Definition copy (input : bytes) (k : nat) : Z :=
  rotate_right (8 * blen input) (from_be_bytes input) (13 * Z.of_nat k).

Fixpoint expanded (input : bytes) (m : nat) : Z :=
  match m with
  | O => 0
  | S k => expanded input k * 2 ^ (8 * blen input) + copy input k
  end.

Definition copies (inbits outbits : nat) : nat := (Nat.lcm inbits outbits / inbits)%nat.

(** ** Proofs *)

Lemma gcd_loop_spec fuel a b : (b < fuel)%nat -> gcd_loop fuel a b = Nat.gcd a b.
Proof.
  revert a b. induction fuel as [|f IH]; intros a b H; [lia|]. simpl.
  destruct (Nat.eqb_spec b 0) as [->|Hb]; [by rewrite Nat.gcd_0_r|].
  rewrite IH by (pose proof (Nat.mod_upper_bound a b Hb); lia).
  by rewrite (Nat.gcd_comm b), Nat.Lcm0.gcd_mod, Nat.gcd_comm.
Qed.

Lemma lcm_of_spec inb outb : inb <> 0%nat -> lcm_of inb outb = Nat.lcm inb outb.
Proof.
  intros Hi. unfold lcm_of, Nat.lcm. rewrite gcd_loop_spec by lia.
  rewrite (Nat.gcd_comm outb), (Nat.mul_comm outb).
  apply Nat.Lcm0.divide_div_mul_exact, Nat.gcd_divide_r.
Qed.

(** One pass of byte additions with carry; both loops are instances. *)
Fixpoint ripple (f : nat -> Z) (p : nat) (out : bytes) (byte : Z) : bytes * Z :=
  match p with
  | O => (out, byte)
  | S i =>
      let t := byte + f i + u8z (out !!! i) in
      ripple f i (<[i := z8 (Z.land t 255)]> out) (Z.shiftr t 8)
  end.

(** Horner sum of [p] octets, most significant first. *)
Fixpoint fsum (f : nat -> Z) (p : nat) : Z :=
  match p with O => 0 | S i => fsum f i * 256 + f i end.

Lemma fsum_bound f p : (forall i, 0 <= f i < 256) -> 0 <= fsum f p < 256 ^ Z.of_nat p.
Proof.
  intros Hf. induction p as [|p IH]; [cbn; lia|].
  rewrite Nat2Z.inj_succ, Z.pow_succ_r by lia. cbn [fsum].
  specialize (Hf p). lia.
Qed.

Lemma fsum_split f n c :
  fsum f (c + n) = fsum f c * 256 ^ Z.of_nat n + fsum (fun i => f (c + i)%nat) n.
Proof.
  induction n as [|n IH].
  - rewrite Nat.add_0_r. cbn [fsum]. change (256 ^ Z.of_nat 0) with 1. lia.
  - replace (c + S n)%nat with (S (c + n)) by lia. cbn [fsum].
    rewrite IH, Nat2Z.inj_succ, Z.pow_succ_r by lia. lia.
Qed.

Lemma fsum_zero p : fsum (fun _ => 0) p = 0.
Proof. induction p as [|p IH]; [done|]. cbn [fsum]. lia. Qed.

Lemma take_S_be (l : bytes) i :
  (i < length l)%nat ->
  from_be_bytes (take (S i) l) = from_be_bytes (take i l) * 256 + u8z (l !!! i).
Proof.
  intros H. rewrite (take_S_r l i (l !!! i)) by (by apply list_lookup_lookup_total_lt).
  rewrite from_be_app. change (blen [l !!! i]) with 1.
  rewrite from_be_cons. change (blen []) with 0. rewrite from_be_nil. lia.
Qed.

Lemma ripple_spec f p out byte :
  (forall i, 0 <= f i < 256) -> (p <= length out)%nat -> 0 <= byte <= 1 ->
  let '(out', byte') := ripple f p out byte in
  length out' = length out /\ drop p out' = drop p out /\ 0 <= byte' <= 1 /\
  from_be_bytes (take p out') + 256 ^ Z.of_nat p * byte'
  = from_be_bytes (take p out) + fsum f p + byte.
Proof.
  intros Hf. revert out byte. induction p as [|i IH]; intros out byte Hp Hb.
  { cbn [ripple fsum]. split_and!; try done; try lia. }
  cbn [ripple].
  remember (byte + f i + u8z (out !!! i)) as t eqn:Et.
  pose proof (Hf i) as Hfi. pose proof (byte.unsigned_range (out !!! i)) as Ho.
  rewrite land_255, shiftr_8.
  assert (0 <= t < 2 * 256) as Ht by lia.
  assert (0 <= t / 256 <= 1) as Hc.
  { split; [apply Z.div_pos; lia|]. apply Z.lt_succ_r, Z.div_lt_upper_bound; lia. }
  specialize (IH (<[i:=z8 (t mod 256)]> out) (t / 256)).
  rewrite length_insert in IH. specialize (IH ltac:(lia) Hc).
  destruct (ripple f i _ _) as [out' byte'] eqn:E. destruct IH as (Hl & Hd & Hb' & Hv).
  assert (Hi : out' !!! i = z8 (t mod 256)).
  { apply list_lookup_total_correct.
    rewrite <- (Nat.add_0_r i), <- lookup_drop, Hd, lookup_drop, Nat.add_0_r.
    apply list_lookup_insert_eq. lia. }
  split_and!; [done| |lia|lia|].
  - replace (S i) with (i + 1)%nat by lia. rewrite <- !drop_drop, Hd.
    rewrite !drop_drop, drop_insert_lt; [done|lia].
  - rewrite !take_S_be by lia. rewrite Hi, byte.unsigned_of_Z.
    unfold byte.wrap. rewrite (Z.mod_small (t mod 256)) by (apply Z.mod_pos_bound; lia).
    rewrite take_insert_ge in Hv by lia. cbn [fsum].
    rewrite Nat2Z.inj_succ, Z.pow_succ_r by lia.
    pose proof (Z.div_mod t 256 ltac:(lia)). lia.
Qed.

Lemma add_loop_ripple input n c p out byte :
  (p <= n)%nat ->
  add_loop input n (c * n + p) out byte
  = let '(o, b) := ripple (fun i => expanded_octet input (Z.of_nat (c * n + i))) p out byte in
    add_loop input n (c * n) o b.
Proof.
  revert out byte. induction p as [|i IH]; intros out byte Hp.
  { by rewrite Nat.add_0_r. }
  rewrite Nat.add_succ_r. cbn [add_loop ripple].
  rewrite (Nat.add_comm (c * n) i), Nat.Div0.mod_add, Nat.mod_small by lia.
  rewrite (Nat.add_comm i (c * n)). apply IH. lia.
Qed.

Lemma carry_loop_ripple p out byte :
  carry_loop p out byte = ripple (fun _ => 0) p out byte.
Proof.
  revert out byte. induction p as [|i IH]; intros out byte; [done|].
  cbn [carry_loop ripple]. rewrite Z.add_0_r. apply IH.
Qed.

Lemma expanded_octet_bound input i : 0 <= expanded_octet input i < 256.
Proof. unfold expanded_octet. rewrite land_255. apply Z.mod_pos_bound. lia. Qed.

(** The octets of the expanded string, as the loop adds them. *)
Definition octet (input : bytes) (i : nat) : Z := expanded_octet input (Z.of_nat i).

(** The main loop adds the whole expanded string modulo [256 ^ n - 1], and its
    result and carry never reach the all-ones sum that would carry twice. *)
Lemma add_loop_spec input n c out byte :
  length out = n -> 0 <= byte <= 1 ->
  from_be_bytes out + 256 ^ Z.of_nat n * byte <= 2 * 256 ^ Z.of_nat n - 2 ->
  let '(o, b) := add_loop input n (c * n) out byte in
  length o = n /\ 0 <= b <= 1 /\
  from_be_bytes o + 256 ^ Z.of_nat n * b <= 2 * 256 ^ Z.of_nat n - 2 /\
  exists q, from_be_bytes o + b
            = from_be_bytes out + byte + fsum (octet input) (c * n)
              + q * (256 ^ Z.of_nat n - 1).
Proof.
  revert out byte. induction c as [|c IH]; intros out byte Hl Hb Hle.
  { cbn. split_and!; try done; try lia. exists 0. lia. }
  replace (S c * n)%nat with (c * n + n)%nat by lia.
  rewrite add_loop_ripple by lia.
  pose proof (ripple_spec (fun i => octet input (c * n + i)) n out byte
    (fun i => expanded_octet_bound _ _) ltac:(lia) Hb) as Hr.
  change (fun i => expanded_octet input (Z.of_nat (c * n + i)))
    with (fun i => octet input (c * n + i)).
  destruct (ripple _ n out byte) as [o1 b1]. destruct Hr as (Hl1 & _ & Hb1 & Hv).
  rewrite !take_ge in Hv by lia.
  pose proof (fsum_bound (fun i => octet input (c * n + i)) n
    (fun i => expanded_octet_bound _ _)) as Hch.
  pose proof (from_be_bound out) as Hob. unfold blen in Hob. rewrite Hl in Hob.
  specialize (IH o1 b1 ltac:(lia) Hb1).
  destruct (add_loop input n (c * n) o1 b1) as [o b].
  destruct IH as (Hlo & Hbo & Hleo & q & Hq); [destruct (decide (byte = 0)); subst; nia|].
  split_and!; try done; try lia.
  exists (q - fsum (octet input) (c * n) - b1). rewrite fsum_split. lia.
Qed.

Lemma nfold_sum input n out :
  input <> [] -> n <> 0%nat -> nfold input n = Ok out ->
  length out = n /\
  exists q, from_be_bytes out
            = fsum (octet input) (Nat.lcm (length input) n) + q * (256 ^ Z.of_nat n - 1).
Proof.
  intros Hi Hn. unfold nfold.
  destruct (Nat.eqb_spec (length input) 0) as [H0|_]; [by destruct input|].
  destruct (Nat.eqb_spec n 0) as [?|_]; [done|]. cbn [orb].
  rewrite lcm_of_spec by (by destruct input).
  destruct (Nat.divide_lcm_r (length input) n) as [c Hc]. rewrite Hc.
  assert (Hz : from_be_bytes (replicate n x00) = 0).
  { clear. induction n as [|n IH]; [done|]. cbn [replicate].
    rewrite from_be_cons, IH. change (u8z x00) with 0. lia. }
  pose proof (add_loop_spec input n c (replicate n x00) 0) as H.
  rewrite length_replicate, Hz in H.
  assert (0 < 256 ^ Z.of_nat n) by (apply Z.pow_pos_nonneg; lia).
  destruct (add_loop _ _ _ _ _) as [o b].
  destruct H as (Hl & Hb & Hle & q & Hq); try done; try lia.
  destruct (Z.eqb_spec b 0) as [->|Hb0]; intros [= <-].
  { split; [done|]. exists q. lia. }
  pose proof (ripple_spec (fun _ => 0) n o b ltac:(lia) ltac:(lia) Hb) as Hr.
  rewrite carry_loop_ripple. destruct (ripple _ n o b) as [o' b']. cbn [fst].
  destruct Hr as (Hl' & _ & Hb' & Hv). rewrite !take_ge in Hv by lia.
  rewrite fsum_zero in Hv. split; [lia|].
  pose proof (from_be_bound o') as Ho'. unfold blen in Ho'. rewrite Hl', Hl in Ho'.
  assert (b = 1) as -> by lia. assert (b' = 0) as -> by nia.
  exists q. lia.
Qed.

(** *** The octets are the bits of the rotated copies *)

Lemma testbit_fsum g n p :
  (forall i, 0 <= g i < 256) -> 0 <= p < 8 * Z.of_nat n ->
  Z.testbit (fsum g n) p = Z.testbit (g (n - 1 - Z.to_nat (p / 8))%nat) (p mod 8).
Proof.
  intros Hg. revert p. induction n as [|n IH]; intros p Hp; [lia|].
  cbn [fsum]. pose proof (Hg n) as Hn. destruct (decide (p < 8)) as [Hlt|Hge].
  - rewrite <- (Z.mod_pow2_bits_low _ 8 p) by lia.
    rewrite Z.add_comm, Z.mod_add, Z.mod_small by lia.
    rewrite (Z.div_small p 8), (Z.mod_small p 8) by lia. do 2 f_equal. lia.
  - replace p with ((p - 8) + 8) at 1 by lia.
    rewrite <- Z.div_pow2_bits by lia. change (2 ^ 8) with 256.
    rewrite Z.add_comm, Z.div_add, Z.div_small, Z.add_0_l by lia.
    rewrite IH by lia.
    assert (p / 8 = (p - 8) / 8 + 1) as ->
      by (replace p with ((p - 8) + 1 * 8) at 1 by lia; by rewrite Z.div_add by lia).
    assert (0 <= (p - 8) / 8) by (apply Z.div_pos; lia).
    f_equal; [f_equal; lia|].
    replace p with ((p - 8) + 1 * 8) at 2 by lia. by rewrite Z.mod_add by lia.
Qed.

Lemma msbit_eq inb k j :
  0 < inb -> 0 <= k -> 0 <= j < inb ->
  msbit inb (k * inb + j) = (8 * (inb - 1 - j) + 13 * k + 7) mod (8 * inb).
Proof.
  intros Hi Hk Hj. unfold msbit. rewrite !Z.shiftl_mul_pow2 by lia.
  change (2 ^ 3) with 8.
  rewrite Z.add_comm with (n := k * inb), Z.div_add, Z.div_small, Z.add_0_l by lia.
  rewrite Z.mod_add, (Z.mod_small j) by lia.
  rewrite (Z.mul_comm inb 8).
  replace (8 * inb - 1 + (8 * inb + 13) * k + (inb - j) * 8)
    with (8 * (inb - 1 - j) + 13 * k + 7 + (1 + k) * (8 * inb)) by lia.
  apply Z.mod_add. lia.
Qed.

Lemma octet_bits input k j t :
  (j < length input)%nat -> 0 <= t < 8 ->
  Z.testbit (octet input (k * length input + j)) t
  = Z.testbit (from_be_bytes input)
      ((8 * (blen input - 1 - Z.of_nat j) + t + 13 * Z.of_nat k) mod (8 * blen input)).
Proof.
  intros Hj Ht. unfold octet, expanded_octet, blen.
  set (inb := Z.of_nat (length input)).
  replace (Z.of_nat (k * length input + j)) with (Z.of_nat k * inb + Z.of_nat j) by lia.
  rewrite msbit_eq by lia.
  rewrite land_255. change 256 with (2 ^ 8). rewrite Z.mod_pow2_bits_low by lia.
  rewrite Z.shiftr_spec, land_7, shiftr_3 by lia.
  set (m := (8 * (inb - 1 - Z.of_nat j) + 13 * Z.of_nat k + 7) mod (8 * inb)).
  assert (0 <= m < 8 * inb) as Hm by (apply Z.mod_pos_bound; lia).
  assert (Heq : (8 * (inb - 1 - Z.of_nat j) + t + 13 * Z.of_nat k) mod (8 * inb)
                = (m - (7 - t)) mod (8 * inb)).
  { subst m. rewrite Zminus_mod_idemp_l. f_equal. lia. }
  rewrite Heq. clear Heq. clearbody m.
  pose proof (Z.div_mod m 8 ltac:(lia)) as Hdm.
  pose proof (Z.mod_pos_bound m 8 ltac:(lia)) as Hr.
  set (q := m / 8) in *. set (r := m mod 8) in *.
  rewrite Z.lor_spec, Z.shiftl_spec by lia.
  pose proof (byte.unsigned_range (input !!! Z.to_nat ((inb - q) mod inb))) as Hlo.
  destruct (decide (8 <= t + (r + 1))) as [Hhi|Hlow].
  - rewrite (Z.mod_small (m - (7 - t))) by lia.
    rewrite <- (Z.mod_small (u8z (input !!! Z.to_nat ((inb - q) mod inb))) (2 ^ 8)) by lia.
    rewrite Z.mod_pow2_bits_high, orb_false_r by lia.
    rewrite testbit_from_be by (unfold blen; fold inb; lia).
    unfold blen. fold inb.
    assert ((m - (7 - t)) / 8 = q) as ->.
    { symmetry. apply (Z.div_unique _ 8 q (r + t - 7)); lia. }
    assert ((m - (7 - t)) mod 8 = r + t - 7) as ->.
    { symmetry. apply (Z.mod_unique _ 8 q (r + t - 7)); lia. }
    rewrite Z.mod_small by lia. f_equal. lia.
  - rewrite (Z.testbit_neg_r _ (t + (r + 1) - 8)), orb_false_l by lia.
    destruct (decide (q = 0)) as [Hq|Hq].
    + assert ((m - (7 - t)) mod (8 * inb) = m - (7 - t) + 8 * inb) as ->.
      { symmetry. apply (Z.mod_unique _ _ (-1)); lia. }
      rewrite testbit_from_be by (unfold blen; fold inb; lia).
      unfold blen. fold inb.
      assert ((m - (7 - t) + 8 * inb) / 8 = inb - 1) as ->.
      { symmetry. apply (Z.div_unique _ 8 _ (r + t + 1)); lia. }
      assert ((m - (7 - t) + 8 * inb) mod 8 = t + (r + 1)) as ->.
      { symmetry. apply (Z.mod_unique _ 8 (inb - 1)); lia. }
      rewrite Hq, Z.sub_0_r, Z_mod_same_full.
      by replace (inb - 1 - (inb - 1)) with 0 by lia.
    + rewrite (Z.mod_small (m - (7 - t))) by lia.
      rewrite testbit_from_be by (unfold blen; fold inb; lia).
      unfold blen. fold inb.
      assert ((m - (7 - t)) / 8 = q - 1) as ->.
      { symmetry. apply (Z.div_unique _ 8 _ (r + t + 1)); lia. }
      assert ((m - (7 - t)) mod 8 = t + (r + 1)) as ->.
      { symmetry. apply (Z.mod_unique _ 8 (q - 1)); lia. }
      rewrite (Z.mod_small (inb - q)) by lia.
      by replace (inb - 1 - (q - 1)) with (inb - q) by lia.
Qed.

Lemma rotate_right_bits w v r p :
  0 < w -> 0 <= v < 2 ^ w -> 0 <= p < w ->
  Z.testbit (rotate_right w v r) p = Z.testbit v ((p + r) mod w).
Proof.
  intros Hw Hv Hp. unfold rotate_right.
  rewrite Z.mod_pow2_bits_low, Z.lor_spec, Z.shiftr_spec, Z.shiftl_spec by lia.
  rewrite <- (Zplus_mod_idemp_r r).
  pose proof (Z.mod_pos_bound r w Hw) as Hr. set (s := r mod w) in *.
  destruct (decide (p + s < w)).
  - rewrite (Z.testbit_neg_r _ (p - (w - s))) by lia.
    rewrite orb_false_r, Z.mod_small by lia. done.
  - rewrite <- (Z.mod_small v (2 ^ w)) by lia.
    rewrite (Z.mod_pow2_bits_high v w (p + s)), orb_false_l by lia.
    f_equal. apply (Z.mod_unique _ _ 1); lia.
Qed.

Lemma fsum_copy input k :
  input <> [] -> fsum (fun j => octet input (k * length input + j)) (length input) = copy input k.
Proof.
  intros Hi. assert (0 < blen input) by (unfold blen; destruct input; [done|cbn; lia]).
  pose proof (fsum_bound (fun j => octet input (k * length input + j)) (length input)
    (fun j => expanded_octet_bound _ _)) as Hb.
  fold (blen input) in Hb. change 256 with (2 ^ 8) in Hb. rewrite <- Z.pow_mul_r in Hb by lia.
  pose proof (from_be_bound input) as Hv.
  change 256 with (2 ^ 8) in Hv. rewrite <- Z.pow_mul_r in Hv by lia.
  apply Z.bits_inj'. intros p Hp. destruct (decide (p < 8 * blen input)) as [Hlt|Hge].
  - rewrite testbit_fsum by (eauto using expanded_octet_bound; fold (blen input); lia).
    unfold copy. rewrite rotate_right_bits by lia.
    assert (0 <= p / 8 < blen input) as Hd
      by (split; [apply Z.div_pos; lia|apply Z.div_lt_upper_bound; lia]).
    pose proof (Z.div_mod p 8 ltac:(lia)). pose proof (Z.mod_pos_bound p 8 ltac:(lia)).
    rewrite octet_bits by (unfold blen in *; lia). do 2 f_equal. unfold blen in *. lia.
  - rewrite <- (Z.mod_small (fsum _ _) (2 ^ (8 * blen input))) by lia.
    unfold copy, rotate_right. by rewrite !Z.mod_pow2_bits_high by lia.
Qed.

Lemma fsum_expanded input m :
  input <> [] -> fsum (octet input) (m * length input) = expanded input m.
Proof.
  intros Hi. induction m as [|m IH]; [done|].
  replace (S m * length input)%nat with (m * length input + length input)%nat by lia.
  rewrite fsum_split, IH, fsum_copy by done. cbn [expanded]. do 2 f_equal.
  fold (blen input). change 256 with (2 ^ 8). by rewrite <- Z.pow_mul_r by (unfold blen; lia).
Qed.

Lemma nfold_total input n : input <> [] -> n <> 0%nat -> exists out, nfold input n = Ok out.
Proof.
  intros Hi Hn. unfold nfold. destruct input; [done|]. destruct n; [done|].
  cbn [length Nat.eqb orb]. case_match. case_match; eauto.
Qed.

(** C31: n-fold is RFC 3961's: for every non-empty input and non-zero length it
    returns [n] octets whose value is, modulo [2 ^ (8 n) - 1], the concatenation
    of the copies of the input, each rotated right by 13 bits more than the one
    before, up to the least common multiple of the two lengths. *)
Theorem nfold_rfc3961 (input : bytes) (n : nat) :
  input <> [] -> n <> 0%nat ->
  exists out, nfold input n = Ok out /\ length out = n /\
    from_be_bytes out mod (2 ^ (8 * Z.of_nat n) - 1)
    = expanded input (copies (length input) n) mod (2 ^ (8 * Z.of_nat n) - 1).
Proof.
  intros Hi Hn.
  destruct (nfold_total input n Hi Hn) as [out E]. exists out. destruct (nfold_sum input n out Hi Hn E) as (Hl & q & Hq).
  split_and!; [done|done|].
  rewrite (Z.pow_mul_r 2 8) by lia. change (2 ^ 8) with 256.
  rewrite Hq, Z.mod_add by (assert (256 <= 256 ^ Z.of_nat n);
    [rewrite <- (Z.pow_1_r 256) at 1; apply Z.pow_le_mono_r; lia|lia]).
  rewrite <- fsum_expanded by done. unfold copies. do 2 f_equal.
  destruct (Nat.divide_lcm_l (length input) n) as [c Hc]. rewrite Hc at 2.
  rewrite Nat.div_mul by (by destruct input). done.
Qed.

Lemma nfold_rfc3961_witness :
  exists out, nfold (String.list_byte_of_string "kerberos"%string) 16 = Ok out /\
    length out = 16%nat /\
    from_be_bytes out mod (2 ^ (8 * 16) - 1)
    = expanded (String.list_byte_of_string "kerberos"%string) 2 mod (2 ^ (8 * 16) - 1).
Proof.
  apply (nfold_rfc3961 (String.list_byte_of_string "kerberos"%string) 16); done.
Defined.

(** RFC 3961 appendix A.1's vectors, as the source's own test has them. *)
Example nfold_vectors :
  nfold (String.list_byte_of_string "012345"%string) 8
    = Ok (to_be_bytes 8 0xbe072631276b1955) /\
  nfold (String.list_byte_of_string "password"%string) 7
    = Ok (to_be_bytes 7 0x78a07b6caf85fa) /\
  nfold (String.list_byte_of_string "Q"%string) 21
    = Ok (to_be_bytes 21 0x518a54a215a8452a518a54a215a8452a518a54a215) /\
  nfold (String.list_byte_of_string "kerberos"%string) 32
    = Ok (to_be_bytes 32 0x6b65726265726f737b9b5b2b93132b935c9bdcdad95c9899c4cae4dee6d6cae4).
Proof. vm_compute. done. Qed.

Lemma nfold_length input n out : nfold input n = Ok out -> length out = n.
Proof.
  intros H. destruct (decide (input = [])) as [->|Hi]; [done|].
  destruct (decide (n = 0%nat)) as [->|Hn].
  - unfold nfold in H. by rewrite orb_true_r in H.
  - by apply (nfold_sum input n out Hi Hn).
Qed.

End Nfold.
