(* ===== verification/Primitives.v ===== *)
(** * The cryptographic primitives the crate calls

    The block ciphers, digests, MACs, stream cipher and PBKDF2 come from the
    RustCrypto crates, which are not part of the repository: they are a
    parameter of the model, [Primitives], and [PrimitiveLaws] states what the
    crate relies on of their documented behaviour: which key lengths a cipher
    takes, output lengths, that decryption inverts encryption on a block, and
    that RC4 is its own inverse.  [ToyPrimitives] is a concrete instance, for
    evaluation and to show the laws can hold. *)

From S2P Require Import Prelude.

Inductive BlockCipher := Aes128 | Aes256 | Camellia128 | Camellia256 | TdesEde3.
Inductive Digest := Md4 | Md5 | Sha1 | Sha256 | Sha384.

#[global] Instance BlockCipher_eq_dec : EqDecision BlockCipher.
Proof. solve_decision. Defined.

Definition bc_key_size (c : BlockCipher) : nat :=
  match c with
  | Aes128 | Camellia128 => 16 | Aes256 | Camellia256 => 32 | TdesEde3 => 24
  end.
Definition bc_block_size (c : BlockCipher) : nat :=
  match c with TdesEde3 => 8 | _ => 16 end.
Definition digest_size (d : Digest) : nat :=
  match d with Md4 | Md5 => 16 | Sha1 => 20 | Sha256 => 32 | Sha384 => 48 end.

Class Primitives := {
  KeySched : BlockCipher -> Type;
  (** [KeyInit::new_from_slice]; [None] is its error. *)
  bc_new : forall c, bytes -> option (KeySched c);
  encrypt_block : forall {c}, KeySched c -> bytes -> bytes;
  decrypt_block : forall {c}, KeySched c -> bytes -> bytes;
  digest : Digest -> bytes -> bytes;
  (** [Hmac::<D>::new_from_slice(key)], [update(data)], [finalize()]. *)
  hmac : Digest -> bytes -> bytes -> option bytes;
  (** [Cmac::<C>] likewise. *)
  cmac : BlockCipher -> bytes -> bytes -> option bytes;
  (** [Rc4::new_from_slice(key)], then [apply_keystream(data)]. *)
  rc4 : bytes -> bytes -> option bytes;
  (** [pbkdf2_hmac::<D>(password, salt, iterations, out)], [out] of that length. *)
  pbkdf2_hmac : Digest -> bytes -> bytes -> Z -> nat -> bytes;
}.

Class PrimitiveLaws `{Primitives} : Prop := {
  bc_new_some c k : is_Some (bc_new c k) <-> length k = bc_key_size c;
  length_encrypt_block c (ks : KeySched c) b :
    length b = bc_block_size c -> length (encrypt_block ks b) = bc_block_size c;
  length_decrypt_block c (ks : KeySched c) b :
    length b = bc_block_size c -> length (decrypt_block ks b) = bc_block_size c;
  decrypt_encrypt_block c (ks : KeySched c) b :
    length b = bc_block_size c -> decrypt_block ks (encrypt_block ks b) = b;
  encrypt_decrypt_block c (ks : KeySched c) b :
    length b = bc_block_size c -> encrypt_block ks (decrypt_block ks b) = b;
  length_digest d m : length (digest d m) = digest_size d;
  hmac_some d k m : exists h, hmac d k m = Some h /\ length h = digest_size d;
  cmac_some c k m :
    length k = bc_key_size c -> exists h, cmac c k m = Some h /\ length h = bc_block_size c;
  rc4_some k m :
    length k = 16%nat -> exists o, rc4 k m = Some o /\ length o = length m /\ rc4 k o = Some m;
  length_pbkdf2 d p s i n : length (pbkdf2_hmac d p s i n) = n;
}.

#[export] Hint Rewrite @length_encrypt_block @length_decrypt_block @length_digest
  @length_pbkdf2 using (first [assumption | reflexivity | lia]) : len.

(** ** A concrete instance *)

Section Toy.

(** A block is exclusive-ored with the first bytes of the key. *)
Definition toy_block (k : bytes) (b : bytes) : bytes := xor_bytes b (take (length b) (k ++ replicate (length b) x5a)).

(** A digest is the input's length and first bytes, padded. *)
Definition toy_digest (n : nat) (m : bytes) : bytes :=
  take n (to_le_bytes 4 (blen m) ++ m ++ replicate n x36).

Lemma length_toy_digest n m : length (toy_digest n m) = n.
Proof. unfold toy_digest. rewrite length_take, !length_app, length_replicate. lia. Qed.

Lemma length_toy_block k b : length (toy_block k b) = length b.
Proof.
  unfold toy_block. apply length_xor_bytes.
  rewrite length_take, length_app, length_replicate. lia.
Qed.

Lemma toy_block_inv k b : toy_block k (toy_block k b) = b.
Proof.
  unfold toy_block at 1. rewrite length_toy_block. unfold toy_block.
  apply xor_bytes_cancel. rewrite length_take, length_app, length_replicate. lia.
Qed.

Definition toy_new (c : BlockCipher) (k : bytes) : option bytes :=
  if (length k =? bc_key_size c)%nat then Some k else None.

Definition ToyPrimitives : Primitives := {|
  KeySched _ := bytes;
  bc_new := toy_new;
  encrypt_block _ := toy_block;
  decrypt_block _ := toy_block;
  digest d := toy_digest (digest_size d);
  hmac d k m := Some (toy_digest (digest_size d) (k ++ m));
  cmac c k m := if (length k =? bc_key_size c)%nat
                then Some (toy_digest (bc_block_size c) (k ++ m)) else None;
  rc4 k m := if (length k =? 16)%nat then Some (toy_block k m) else None;
  pbkdf2_hmac d p s i n := toy_digest n (p ++ s);
|}.

Lemma toy_laws : @PrimitiveLaws ToyPrimitives.
Proof.
  split; cbn; intros.
  - unfold toy_new. destruct (Nat.eqb_spec (length k) (bc_key_size c)).
    + split; eauto.
    + split; [intros [? ?]; done|done].
  - by rewrite length_toy_block.
  - by rewrite length_toy_block.
  - apply toy_block_inv.
  - apply toy_block_inv.
  - apply length_toy_digest.
  - eexists. split; [done|]. apply length_toy_digest.
  - rewrite H, Nat.eqb_refl. eexists. split; [done|]. apply length_toy_digest.
  - rewrite H. cbn. eexists. split_and!; [done|apply length_toy_block|].
    by rewrite toy_block_inv.
  - apply length_toy_digest.
Qed.

End Toy.
