(* ===== verification/Cts.v ===== *)
(** * CBC with ciphertext stealing

    Models [krb5-crypto/src/cts.rs]: RFC 3962's CBC-CTS over AES and Camellia,
    and the raw block encryption the key derivation uses. *)

From S2P Require Import Prelude Etype Primitives.

Module Cts.
Section Cts.
Context {Prim : Primitives}.

Definition BLOCK : nat := 16.

(** [let mut block = [0u8; BLOCK]; block[..b.len()].copy_from_slice(b)] *)
Definition pad_block (b : bytes) : bytes := b ++ replicate (BLOCK - length b) x00.

Definition keyed (c : BlockCipher) (key : bytes) : result Error (KeySched c) :=
  ok_or (bc_new c key) InvalidKeyLength.

(** [usize::div_ceil(BLOCK)] *)
Definition nblocks (n : nat) : nat := ((n + BLOCK - 1) / BLOCK)%nat.

(** The CBC loop over the first [n] blocks: the last block chained and the
    output. *)
Fixpoint cbc_encrypt {c} (ks : KeySched c) (n : nat) (prev rest : bytes) : bytes * bytes :=
  match n with
  | O => (prev, [])
  | S n =>
      let block := encrypt_block ks (xor_bytes (take BLOCK rest) prev) in
      let '(last, out) := cbc_encrypt ks n block (drop BLOCK rest) in
      (last, block ++ out)
  end.

Fixpoint cbc_decrypt {c} (ks : KeySched c) (n : nat) (prev rest : bytes) : bytes * bytes :=
  match n with
  | O => (prev, [])
  | S n =>
      let ccopy := take BLOCK rest in
      let block := xor_bytes (decrypt_block ks ccopy) prev in
      let '(last, out) := cbc_decrypt ks n ccopy (drop BLOCK rest) in
      (last, block ++ out)
  end.

Definition encrypt_with {c} (ks : KeySched c) (iv plaintext : bytes) : result Error bytes :=
  if (length plaintext =? 0)%nat then Err CiphertextTooShort
  else
    let nb := nblocks (length plaintext) in
    if (nb =? 1)%nat then
      Ok (take (length plaintext) (encrypt_block ks (pad_block plaintext)))
    else
      let full_prefix := ((nb - 2) * BLOCK)%nat in
      let '(prev, out) := cbc_encrypt ks (nb - 2) iv plaintext in
      let n2_len := (length plaintext - full_prefix)%nat in
      let take_n2 := Nat.min n2_len BLOCK in
      let block_n2 := encrypt_block ks
        (xor_bytes (pad_block (slice plaintext full_prefix (full_prefix + take_n2))) prev) in
      let n1_off := (full_prefix + BLOCK)%nat in
      let block_n1 := encrypt_block ks
        (xor_bytes (pad_block (if (n1_off <? length plaintext)%nat
                               then drop n1_off plaintext else [])) block_n2) in
      let last_len := (length plaintext - (nb - 1) * BLOCK)%nat in
      Ok (out ++ block_n1 ++ take last_len block_n2).

Definition decrypt_with {c} (ks : KeySched c) (iv ciphertext : bytes) : result Error bytes :=
  if (length ciphertext =? 0)%nat then Err CiphertextTooShort
  else
    let nb := nblocks (length ciphertext) in
    if (nb =? 1)%nat then
      Ok (take (length ciphertext) (decrypt_block ks (pad_block ciphertext)))
    else
      let last_len := (length ciphertext - (nb - 1) * BLOCK)%nat in
      let full_prefix := ((nb - 2) * BLOCK)%nat in
      let '(prev, out) := cbc_decrypt ks (nb - 2) iv ciphertext in
      let block_n2 := slice ciphertext full_prefix (full_prefix + BLOCK) in
      let dummy_iv := pad_block (drop (full_prefix + BLOCK) ciphertext) in
      let pn := xor_bytes (decrypt_block ks block_n2) dummy_iv in
      let block_n1 := take last_len dummy_iv ++ drop last_len pn in
      let pn1 := xor_bytes (decrypt_block ks block_n1) prev in
      Ok (out ++ pn1 ++ take last_len pn).

(** The public entry points choose the cipher by the key's length. *)
Definition encrypt (key iv plaintext : bytes) : result Error bytes :=
  match length key with
  | 16%nat => let? ks := keyed Aes128 key in encrypt_with ks iv plaintext
  | 32%nat => let? ks := keyed Aes256 key in encrypt_with ks iv plaintext
  | _ => Err InvalidKeyLength
  end.

Definition decrypt (key iv ciphertext : bytes) : result Error bytes :=
  match length key with
  | 16%nat => let? ks := keyed Aes128 key in decrypt_with ks iv ciphertext
  | 32%nat => let? ks := keyed Aes256 key in decrypt_with ks iv ciphertext
  | _ => Err InvalidKeyLength
  end.

Definition encrypt_one (key block : bytes) : result Error bytes :=
  match length key with
  | 16%nat => let? ks := keyed Aes128 key in Ok (encrypt_block ks block)
  | 32%nat => let? ks := keyed Aes256 key in Ok (encrypt_block ks block)
  | _ => Err InvalidKeyLength
  end.

Definition camellia_encrypt (key iv plaintext : bytes) : result Error bytes :=
  match length key with
  | 16%nat => let? ks := keyed Camellia128 key in encrypt_with ks iv plaintext
  | 32%nat => let? ks := keyed Camellia256 key in encrypt_with ks iv plaintext
  | _ => Err InvalidKeyLength
  end.

Definition camellia_decrypt (key iv ciphertext : bytes) : result Error bytes :=
  match length key with
  | 16%nat => let? ks := keyed Camellia128 key in decrypt_with ks iv ciphertext
  | 32%nat => let? ks := keyed Camellia256 key in decrypt_with ks iv ciphertext
  | _ => Err InvalidKeyLength
  end.

(** ** Proofs *)

Context {Laws : PrimitiveLaws}.

Lemma length_pad_block b : (length b <= BLOCK)%nat -> length (pad_block b) = BLOCK.
Proof. intros Hb. unfold pad_block. rewrite length_app, length_replicate. lia. Qed.

Lemma pad_block_full b : length b = BLOCK -> pad_block b = b.
Proof. intros Hb. unfold pad_block. rewrite Hb, Nat.sub_diag. apply app_nil_r. Qed.

Lemma nblocks_spec n :
  (0 < n)%nat -> ((nblocks n - 1) * BLOCK < n <= nblocks n * BLOCK)%nat /\ (1 <= nblocks n)%nat.
Proof.
  intros Hn. unfold nblocks, BLOCK.
  pose proof (Nat.div_mod_eq (n + 16 - 1) 16) as Hd.
  pose proof (Nat.mod_upper_bound (n + 16 - 1) 16). lia.
Qed.

Lemma nblocks_decompose (p : bytes) :
  nblocks (length p) <> 1%nat -> p <> [] ->
  exists a b d, p = a ++ b ++ d /\ length a = ((nblocks (length p) - 2) * BLOCK)%nat /\
    length b = BLOCK /\ (1 <= length d <= BLOCK)%nat /\ (2 <= nblocks (length p))%nat /\
    length d = (length p - (nblocks (length p) - 1) * BLOCK)%nat.
Proof.
  intros Hn Hp. assert (0 < length p)%nat by (destruct p; [done|cbn; lia]).
  destruct (nblocks_spec (length p)) as [Hb H1]; [done|].
  set (n := nblocks (length p)) in *. set (f := ((n - 2) * BLOCK)%nat).
  exists (take f p), (take BLOCK (drop f p)), (drop BLOCK (drop f p)).
  rewrite !take_drop, !length_take, !length_drop. unfold BLOCK in *.
  split_and!; try done; lia.
Qed.

(** CBC over whole blocks is inverted, and chains the same last block. *)
Lemma cbc_roundtrip {c} (ks : KeySched c) n prev p rest rest' :
  bc_block_size c = BLOCK -> length p = (n * BLOCK)%nat -> length prev = BLOCK ->
  let '(last, out) := cbc_encrypt ks n prev (p ++ rest) in
  length out = (n * BLOCK)%nat /\ length last = BLOCK /\
  cbc_decrypt ks n prev (out ++ rest') = (last, p).
Proof.
  intros Hc. revert prev p. induction n as [|n IH]; intros prev p Hp Hprev.
  { destruct p; [|done]. by cbn. }
  cbn [cbc_encrypt].
  assert (Hsz : (BLOCK <= length p)%nat) by (rewrite Hp; lia).
  rewrite take_app_le, drop_app_le by lia.
  assert (Htk : length (take BLOCK p) = BLOCK) by (rewrite length_take; lia).
  set (block := encrypt_block ks (xor_bytes (take BLOCK p) prev)).
  assert (Hx : length (xor_bytes (take BLOCK p) prev) = BLOCK)
    by (rewrite length_xor_bytes; lia).
  assert (Hbl : length block = BLOCK)
    by (subst block; rewrite length_encrypt_block; congruence).
  specialize (IH block (drop BLOCK p)). rewrite length_drop in IH.
  specialize (IH ltac:(lia) Hbl).
  destruct (cbc_encrypt ks n block (drop BLOCK p ++ rest)) as [last out].
  destruct IH as (Hlo & Hll & IH).
  split_and!; [rewrite length_app; lia|done|].
  cbn [cbc_decrypt]. rewrite <- app_assoc, take_app_length', drop_app_length' by done.
  rewrite IH. subst block. rewrite decrypt_encrypt_block by congruence.
  rewrite xor_bytes_cancel by (rewrite Htk; lia). by rewrite take_drop.
Qed.

Lemma xor_bytes_app a b x y :
  length a = length x -> xor_bytes (a ++ b) (x ++ y) = xor_bytes a x ++ xor_bytes b y.
Proof. intros E. unfold xor_bytes. by apply zip_with_app. Qed.

Lemma xor_bytes_zero_l n a : length a = n -> xor_bytes (replicate n x00) a = a.
Proof.
  intros <-. induction a as [|b a IH]; [done|]. cbn [length replicate].
  unfold xor_bytes in *. cbn [zip_with]. rewrite IH. f_equal.
  apply byte.unsigned_inj. rewrite byte_xor_unsigned. done.
Qed.

Lemma xor_bytes_zero_r n a : length a = n -> xor_bytes a (replicate n x00) = a.
Proof.
  intros <-. induction a as [|b a IH]; [done|]. cbn [length replicate].
  unfold xor_bytes in *. cbn [zip_with]. rewrite IH. f_equal.
  apply byte.unsigned_inj. rewrite byte_xor_unsigned. apply Z.lxor_0_r.
Qed.

(** The stolen block: exclusive-oring the padded tail and the padded stolen
    bytes back leaves the tail followed by the rest of the stolen block. *)
Lemma steal d n2 :
  (length d <= BLOCK)%nat -> length n2 = BLOCK ->
  xor_bytes (xor_bytes (pad_block d) n2) (pad_block (take (length d) n2))
  = d ++ drop (length d) n2.
Proof.
  intros Hd Hn2. rewrite <- (take_drop (length d) n2) at 1. unfold pad_block at 1.
  rewrite xor_bytes_app by (rewrite length_take; lia).
  rewrite xor_bytes_zero_l by (rewrite length_drop; lia).
  unfold pad_block. rewrite xor_bytes_app.
  2: { rewrite length_xor_bytes; rewrite ?length_take; lia. }
  rewrite xor_bytes_cancel by (rewrite length_take; lia).
  rewrite xor_bytes_zero_r; [done|]. rewrite length_drop, length_take. lia.
Qed.

Lemma nblocks_split k (a b d : bytes) :
  length a = (k * BLOCK)%nat -> length b = BLOCK -> (1 <= length d <= BLOCK)%nat ->
  nblocks (length (a ++ b ++ d)) = (k + 2)%nat.
Proof.
  intros Ha Hb Hd. rewrite !length_app.
  destruct (nblocks_spec (length a + (length b + length d))) as [Hs _]; unfold BLOCK in *; lia.
Qed.

Lemma drop_two (a b d : bytes) : length b = BLOCK -> drop (length a + BLOCK) (a ++ b ++ d) = d.
Proof. intros <-. by rewrite <- drop_drop, !drop_app_length. Qed.

Lemma slice_block (a b d : bytes) :
  length b = BLOCK -> slice (a ++ b ++ d) (length a) (length a + BLOCK) = b.
Proof. intros <-. apply slice_app_mid. Qed.

(** Both directions on a message of [k] whole blocks, a block and a tail. *)
Lemma encrypt_with_split {c} (ks : KeySched c) iv k a b d :
  length a = (k * BLOCK)%nat -> length b = BLOCK -> (1 <= length d <= BLOCK)%nat ->
  encrypt_with ks iv (a ++ b ++ d)
  = let '(prev, out) := cbc_encrypt ks k iv (a ++ b ++ d) in
    let n2 := encrypt_block ks (xor_bytes b prev) in
    let n1 := encrypt_block ks (xor_bytes (pad_block d) n2) in
    Ok (out ++ n1 ++ take (length d) n2).
Proof.
  intros Ha Hb Hd. unfold encrypt_with. rewrite nblocks_split with (k := k) by done.
  rewrite (proj2 (Nat.eqb_neq _ 0)) by (rewrite !length_app; lia).
  rewrite (proj2 (Nat.eqb_neq _ 1)) by lia.
  replace (k + 2 - 2)%nat with k by lia. rewrite <- Ha.
  destruct (cbc_encrypt ks k iv (a ++ b ++ d)) as [prev out].
  rewrite Nat.min_r by (rewrite !length_app; lia).
  rewrite slice_block, drop_two, (pad_block_full b) by done.
  rewrite (proj2 (Nat.ltb_lt _ _)) by (rewrite !length_app; lia).
  replace (length (a ++ b ++ d) - (k + 2 - 1) * BLOCK)%nat with (length d)
    by (rewrite !length_app; unfold BLOCK in *; lia).
  done.
Qed.

Lemma decrypt_with_split {c} (ks : KeySched c) iv k a b d :
  length a = (k * BLOCK)%nat -> length b = BLOCK -> (1 <= length d <= BLOCK)%nat ->
  decrypt_with ks iv (a ++ b ++ d)
  = let '(prev, out) := cbc_decrypt ks k iv (a ++ b ++ d) in
    let pn := xor_bytes (decrypt_block ks b) (pad_block d) in
    let pn1 := xor_bytes (decrypt_block ks (d ++ drop (length d) pn)) prev in
    Ok (out ++ pn1 ++ take (length d) pn).
Proof.
  intros Ha Hb Hd. unfold decrypt_with. rewrite nblocks_split with (k := k) by done.
  rewrite (proj2 (Nat.eqb_neq _ 0)) by (rewrite !length_app; lia).
  rewrite (proj2 (Nat.eqb_neq _ 1)) by lia.
  replace (k + 2 - 2)%nat with k by lia. rewrite <- Ha.
  destruct (cbc_decrypt ks k iv (a ++ b ++ d)) as [prev out].
  rewrite slice_block, drop_two by done.
  replace (length (a ++ b ++ d) - (k + 2 - 1) * BLOCK)%nat with (length d)
    by (rewrite !length_app; unfold BLOCK in *; lia).
  assert (take (length d) (pad_block d) = d) as -> by (unfold pad_block; apply take_app_length).
  done.
Qed.

Lemma one_block_roundtrip {c} (ks : KeySched c) iv p :
  bc_block_size c = BLOCK -> length p = BLOCK ->
  exists ct, encrypt_with ks iv p = Ok ct /\ length ct = length p /\
             decrypt_with ks iv ct = Ok p.
Proof.
  intros Hc Hp.
  assert (He : length (encrypt_block ks p) = BLOCK)
    by (rewrite length_encrypt_block; congruence).
  exists (encrypt_block ks p). unfold encrypt_with, decrypt_with. rewrite He, Hp. cbn.
  rewrite !pad_block_full, decrypt_encrypt_block by congruence.
  rewrite !firstn_all2 by (rewrite ?He, ?Hp; unfold BLOCK; lia). done.
Qed.

Lemma encrypt_with_roundtrip {c} (ks : KeySched c) iv p :
  bc_block_size c = BLOCK -> length iv = BLOCK -> (BLOCK <= length p)%nat ->
  exists ct, encrypt_with ks iv p = Ok ct /\ length ct = length p /\
             decrypt_with ks iv ct = Ok p.
Proof.
  intros Hc Hiv Hp. destruct (decide (length p = BLOCK)) as [|Hne];
    [by apply one_block_roundtrip|].
  destruct (nblocks_decompose p) as (a & b & d & Ep & Ha & Hb & Hd & _ & _).
  { pose proof (nblocks_spec (length p)). unfold BLOCK in *. lia. }
  { intros ->. unfold BLOCK in *. cbn in *. lia. }
  set (k := (nblocks (length p) - 2)%nat) in *. clearbody k. subst p.
  rewrite encrypt_with_split with (k := k) by done.
  pose proof (cbc_roundtrip ks k iv a (b ++ d)) as Hcbc.
  destruct (cbc_encrypt ks k iv (a ++ b ++ d)) as [prev out]. cbv zeta.
  set (n2 := encrypt_block ks (xor_bytes b prev)).
  set (n1 := encrypt_block ks (xor_bytes (pad_block d) n2)).
  destruct (Hcbc (n1 ++ take (length d) n2)) as (Hlo & Hlp & Hdec); [done..|].
  assert (Hxb : length (xor_bytes b prev) = BLOCK) by (rewrite length_xor_bytes; lia).
  assert (Hn2 : length n2 = BLOCK) by (subst n2; rewrite length_encrypt_block; congruence).
  assert (Hxd : length (xor_bytes (pad_block d) n2) = BLOCK)
    by (rewrite length_xor_bytes; rewrite length_pad_block; lia).
  assert (Hn1 : length n1 = BLOCK) by (subst n1; rewrite length_encrypt_block; congruence).
  assert (Hdt : length (take (length d) n2) = length d) by (rewrite length_take; lia).
  eexists. split_and!; [done|rewrite !length_app; lia|].
  rewrite decrypt_with_split with (k := k) by (rewrite ?Hdt; lia).
  rewrite Hdec. cbv zeta. rewrite Hdt.
  assert (decrypt_block ks n1 = xor_bytes (pad_block d) n2) as ->
    by (subst n1; apply decrypt_encrypt_block; congruence).
  rewrite steal, take_app_length, drop_app_length, take_drop by lia.
  assert (decrypt_block ks n2 = xor_bytes b prev) as ->
    by (subst n2; apply decrypt_encrypt_block; congruence).
  by rewrite xor_bytes_cancel by lia.
Qed.

(** *** The other direction: decryption is injective too *)

Lemma cbc_roundtrip_rev {c} (ks : KeySched c) n prev p rest rest' :
  bc_block_size c = BLOCK -> length p = (n * BLOCK)%nat -> length prev = BLOCK ->
  let '(last, out) := cbc_decrypt ks n prev (p ++ rest) in
  length out = (n * BLOCK)%nat /\ length last = BLOCK /\
  cbc_encrypt ks n prev (out ++ rest') = (last, p).
Proof.
  intros Hc. revert prev p. induction n as [|n IH]; intros prev p Hp Hprev.
  { destruct p; [|done]. by cbn. }
  cbn [cbc_decrypt].
  assert (Hsz : (BLOCK <= length p)%nat) by (rewrite Hp; lia).
  rewrite take_app_le, drop_app_le by lia.
  assert (Htk : length (take BLOCK p) = BLOCK) by (rewrite length_take; lia).
  assert (Hdk : length (decrypt_block ks (take BLOCK p)) = BLOCK)
    by (rewrite length_decrypt_block; congruence).
  specialize (IH (take BLOCK p) (drop BLOCK p)). rewrite length_drop in IH.
  specialize (IH ltac:(lia) Htk).
  destruct (cbc_decrypt ks n (take BLOCK p) (drop BLOCK p ++ rest)) as [last out].
  destruct IH as (Hlo & Hll & IH).
  assert (Hx : length (xor_bytes (decrypt_block ks (take BLOCK p)) prev) = BLOCK)
    by (rewrite length_xor_bytes; lia).
  split_and!; [rewrite length_app; lia|done|].
  cbn [cbc_encrypt]. rewrite <- app_assoc, take_app_length', drop_app_length' by done.
  rewrite xor_bytes_cancel by (rewrite Hdk; lia).
  rewrite encrypt_decrypt_block by congruence. rewrite IH. by rewrite take_drop.
Qed.

(** Re-encrypting the tail recovers the decrypted last block. *)
Lemma steal_rev d x :
  (length d <= BLOCK)%nat -> length x = BLOCK ->
  let pn := xor_bytes x (pad_block d) in
  xor_bytes (pad_block (take (length d) pn)) (d ++ drop (length d) pn) = x.
Proof.
  intros Hd Hx. cbv zeta. rewrite <- (take_drop (length d) x).
  unfold pad_block at 2 3. rewrite xor_bytes_app by (rewrite length_take; lia).
  rewrite (xor_bytes_zero_r (BLOCK - length d)) by (rewrite length_drop; lia).
  assert (length (xor_bytes (take (length d) x) d) = length d) as Hl
    by (rewrite length_xor_bytes; rewrite length_take; lia).
  rewrite take_app_length', drop_app_length' by done.
  unfold pad_block. rewrite xor_bytes_app by done.
  rewrite xor_bytes_cancel by (rewrite length_take; lia). f_equal.
  apply xor_bytes_zero_l. rewrite length_drop. lia.
Qed.

Lemma decrypt_with_roundtrip {c} (ks : KeySched c) iv ct :
  bc_block_size c = BLOCK -> length iv = BLOCK -> (BLOCK <= length ct)%nat ->
  exists p, decrypt_with ks iv ct = Ok p /\ length p = length ct /\
            encrypt_with ks iv p = Ok ct.
Proof.
  intros Hc Hiv Hct. destruct (decide (length ct = BLOCK)) as [Hp|Hne].
  { assert (He : length (decrypt_block ks ct) = BLOCK)
      by (rewrite length_decrypt_block; congruence).
    exists (decrypt_block ks ct). unfold encrypt_with, decrypt_with. rewrite He, Hp. cbn.
    rewrite !pad_block_full, encrypt_decrypt_block by congruence.
    rewrite !firstn_all2 by (rewrite ?He, ?Hp; unfold BLOCK; lia). done. }
  destruct (nblocks_decompose ct) as (a & b & d & Ep & Ha & Hb & Hd & _ & _).
  { pose proof (nblocks_spec (length ct)). unfold BLOCK in *. lia. }
  { intros ->. unfold BLOCK in *. cbn in *. lia. }
  set (k := (nblocks (length ct) - 2)%nat) in *. clearbody k. subst ct.
  rewrite decrypt_with_split with (k := k) by done.
  pose proof (cbc_roundtrip_rev ks k iv a (b ++ d)) as Hcbc.
  destruct (cbc_decrypt ks k iv (a ++ b ++ d)) as [prev out]. cbv zeta.
  assert (Hdb : length (decrypt_block ks b) = BLOCK)
    by (rewrite length_decrypt_block; congruence).
  set (pn := xor_bytes (decrypt_block ks b) (pad_block d)).
  assert (Hpn : length pn = BLOCK)
    by (subst pn; rewrite length_xor_bytes; rewrite ?length_pad_block; lia).
  set (n2 := d ++ drop (length d) pn).
  assert (Hn2 : length n2 = BLOCK) by (subst n2; rewrite length_app, length_drop; lia).
  assert (Hdn : length (decrypt_block ks n2) = BLOCK)
    by (rewrite length_decrypt_block; congruence).
  destruct (Hcbc (xor_bytes (decrypt_block ks n2) prev ++ take (length d) pn))
    as (Hlo & Hlp & Hdec); [done..|].
  assert (Hx : length (xor_bytes (decrypt_block ks n2) prev) = BLOCK)
    by (rewrite length_xor_bytes; lia).
  assert (Htd : length (take (length d) pn) = length d) by (rewrite length_take; lia).
  eexists. split_and!; [done|rewrite !length_app; lia|].
  rewrite encrypt_with_split with (k := k) by (rewrite ?Htd; lia).
  rewrite Hdec. cbv zeta. rewrite Htd, xor_bytes_cancel by lia.
  rewrite (encrypt_decrypt_block _ _ n2) by congruence.
  unfold n2 at 1. unfold pn at 1 2. rewrite steal_rev by lia.
  rewrite encrypt_decrypt_block by congruence.
  unfold n2. by rewrite take_app_length.
Qed.

Lemma keyed_ok c key : length key = bc_key_size c -> exists ks, keyed c key = Ok ks.
Proof.
  intros Hk. apply bc_new_some in Hk as [ks Hks]. exists ks. unfold keyed. by rewrite Hks.
Qed.

(** The entry points, which choose the cipher by the key's length. *)
Lemma aes_entry key :
  length key = 16%nat \/ length key = 32%nat ->
  exists c (ks : KeySched c), bc_block_size c = BLOCK /\
    (forall iv p, encrypt key iv p = encrypt_with ks iv p) /\
    (forall iv p, decrypt key iv p = decrypt_with ks iv p).
Proof.
  intros [Hk|Hk]; unfold encrypt, decrypt; rewrite Hk;
    [destruct (keyed_ok Aes128 key Hk) as [ks ->]; exists Aes128, ks
    |destruct (keyed_ok Aes256 key Hk) as [ks ->]; exists Aes256, ks]; done.
Qed.

Lemma camellia_entry key :
  length key = 16%nat \/ length key = 32%nat ->
  exists c (ks : KeySched c), bc_block_size c = BLOCK /\
    (forall iv p, camellia_encrypt key iv p = encrypt_with ks iv p) /\
    (forall iv p, camellia_decrypt key iv p = decrypt_with ks iv p).
Proof.
  intros [Hk|Hk]; unfold camellia_encrypt, camellia_decrypt; rewrite Hk;
    [destruct (keyed_ok Camellia128 key Hk) as [ks ->]; exists Camellia128, ks
    |destruct (keyed_ok Camellia256 key Hk) as [ks ->]; exists Camellia256, ks]; done.
Qed.

(** C29: CBC with ciphertext stealing is a length-preserving bijection on messages
    of at least one block, through the AES entry points that choose the cipher
    by key length: every plaintext encrypts to a ciphertext of its length that
    decrypts to it, and every ciphertext is the encryption of what it decrypts
    to. *)
Theorem cts_bijection (key iv m : bytes) :
  length key = 16%nat \/ length key = 32%nat ->
  length iv = BLOCK -> (BLOCK <= length m)%nat ->
  (exists ct, encrypt key iv m = Ok ct /\ length ct = length m /\ decrypt key iv ct = Ok m) /\
  (exists p, decrypt key iv m = Ok p /\ length p = length m /\ encrypt key iv p = Ok m).
Proof.
  intros Hk Hiv Hm. destruct (aes_entry key Hk) as (c & ks & Hc & He & Hd).
  setoid_rewrite He. setoid_rewrite Hd.
  split; [by apply encrypt_with_roundtrip|by apply decrypt_with_roundtrip].
Qed.

End Cts.

Lemma cts_bijection_witness :
  let key := replicate 16 x42 in let iv := replicate 16 x00 in let p := replicate 37 x61 in
  exists ct, @encrypt ToyPrimitives key iv p = Ok ct /\ length ct = 37%nat /\
    @decrypt ToyPrimitives key iv ct = Ok p.
Proof.
  apply (@cts_bijection ToyPrimitives toy_laws); [by left|reflexivity|cbn; unfold BLOCK; lia].
Defined.

End Cts.
