(* ===== verification/Derive.v ===== *)
(** * Key derivation

    Models [krb5-crypto/src/derive.rs] and the key derivations of [weak.rs]:
    RFC 3961 DK over AES and triple DES, RFC 8009's KDF-HMAC-SHA2, RFC 6803's
    feedback-mode CMAC KDF for Camellia, the truncated HMACs and their
    comparison, and [derive_usage_keys], which all of encryption, decryption
    and checksums start from. *)

From S2P Require Import Prelude Etype Nfold Primitives Cts.

Module Derive.
Section Derive.
Context {Prim : Primitives}.

(** ** [derive.rs] *)

Definition bits_u32 (nbytes : nat) : Z := try_from_or 32 (Z.of_nat nbytes * 8) U32_MAX.

(** [while out.len() < k { block = encrypt_block(key, block)?; ... }] *)
Fixpoint dk_loop (fuel k : nat) (key block out : bytes) : result Error bytes :=
  match fuel with
  | O => Ok out
  | S f =>
      if (length out <? k)%nat then
        let? block := Cts.encrypt_one key block in
        let need := Nat.min (k - length out) Cts.BLOCK in
        dk_loop f k key block (out ++ take need block)
      else Ok out
  end.

Definition dk_rfc3961 (key constant : bytes) : result Error bytes :=
  let k := length key in
  let? folded := if (length constant =? Cts.BLOCK)%nat then Ok constant
                 else Nfold.nfold constant Cts.BLOCK in
  dk_loop (S k) k key folded [].

Definition hmac_digest (e : EncryptionType) (key data : bytes) : result Error bytes :=
  match e with
  | Aes128CtsHmacSha196 | Aes256CtsHmacSha196 => ok_or (hmac Sha1 key data) InvalidKeyLength
  | Aes128CtsHmacSha256128 => ok_or (hmac Sha256 key data) InvalidKeyLength
  | Aes256CtsHmacSha384192 => ok_or (hmac Sha384 key data) InvalidKeyLength
  | Des3CbcSha1 | Rc4Hmac | Camellia128CtsCmac | Camellia256CtsCmac =>
      Err (UnsupportedEtype (EType.to_iana e))
  end.

Definition kdf_hmac_sha2 (e : EncryptionType) (key label : bytes) (context : option bytes)
    (k_bits : Z) : result Error bytes :=
  let k_len := Z.to_nat (k_bits / 8) in
  let msg := to_be_bytes 4 1 ++ label ++ [x00] ++ default [] context ++ to_be_bytes 4 k_bits in
  let? mac := hmac_digest e key msg in
  Ok (if (k_len <? length mac)%nat then take k_len mac else mac).

Definition hmac_truncated (e : EncryptionType) (key data : bytes) : result Error bytes :=
  let? mac := hmac_digest e key data in
  let n := EType.hmac_output_len e in
  Ok (if (n <? length mac)%nat then take n mac else mac).

Definition mac_verify (got expected : bytes) : result Error unit :=
  if negb (length got =? length expected)%nat || negb (bool_decide (got = expected))
  then Err Integrity else Ok tt.

Record DerivedKeys := { kc : bytes; ke : bytes; ki : bytes }.

(** ** The key derivations of [weak.rs] *)

Definition DES_BLOCK : nat := 8.

(** [u8::count_ones] *)
Definition count_ones (b : byte) : nat :=
  let '(b0, (b1, (b2, (b3, (b4, (b5, (b6, b7))))))) := Byte.to_bits b in
  (Nat.b2n b0 + Nat.b2n b1 + Nat.b2n b2 + Nat.b2n b3
   + Nat.b2n b4 + Nat.b2n b5 + Nat.b2n b6 + Nat.b2n b7)%nat.

Definition des_check_key_parity (key : bytes) : bool :=
  forallb (fun b => (count_ones b mod 2 =? 1)%nat) key.

Definition WEAK_DES_KEYS : list bytes :=
  map (to_be_bytes 8)
   [0x0101010101010101; 0xfefefefefefefefe; 0x1f1f1f1f0e0e0e0e; 0xe0e0e0e0f1f1f1f1;
    0x01fe01fe01fe01fe; 0xfe01fe01fe01fe01; 0x1fe01fe00ef10ef1; 0xe01fe01ff10ef10e;
    0x01e001e001f101f1; 0xe001e001f101f101; 0x1ffe1ffe0efe0efe; 0xfe1ffe1ffe0efe0e;
    0x011f011f010e010e; 0x1f011f010e010e01; 0xe0fee0fef1fef1fe; 0xfee0fee0fef1fef1].

Definition des_is_weak_key (key : bytes) : bool := bool_decide (key ∈ WEAK_DES_KEYS).

(** The three 8-byte keys are checked in order, parity before weakness. *)
Fixpoint des3_check (keys : list bytes) : result Error unit :=
  match keys with
  | [] => Ok tt
  | k :: ks =>
      if negb (des_check_key_parity k) then Err DesBadParity
      else if des_is_weak_key k then Err DesWeakKey
      else des3_check ks
  end.

Definition des3_key_sched (key : bytes) : result Error (KeySched TdesEde3) :=
  if negb (length key =? 24)%nat then Err InvalidKeyLength
  else
    let? _ := des3_check [take 8 key; take 8 (drop 8 key); drop 16 key] in
    ok_or (bc_new TdesEde3 key) InvalidKeyLength.

(** [plain.chunks(DES_BLOCK)] for a multiple of the block size. *)
Fixpoint cbc8_encrypt (ks : KeySched TdesEde3) (n : nat) (prev rest : bytes) : bytes :=
  match n with
  | O => []
  | S n =>
      let block := encrypt_block ks (xor_bytes (take DES_BLOCK rest) prev) in
      block ++ cbc8_encrypt ks n block (drop DES_BLOCK rest)
  end.

Fixpoint cbc8_decrypt (ks : KeySched TdesEde3) (n : nat) (prev rest : bytes) : bytes :=
  match n with
  | O => []
  | S n =>
      let saved := take DES_BLOCK rest in
      xor_bytes (decrypt_block ks saved) prev ++ cbc8_decrypt ks n saved (drop DES_BLOCK rest)
  end.

Definition des3_cbc_encrypt (key iv plain : bytes) : result Error bytes :=
  if negb (length key =? 24)%nat || negb (length plain mod DES_BLOCK =? 0)%nat
  then Err InvalidKeyLength
  else
    let? ks := des3_key_sched key in
    Ok (cbc8_encrypt ks (length plain / DES_BLOCK) iv plain).

Definition des3_cbc_decrypt (key iv cipher_text : bytes) : result Error bytes :=
  if negb (length key =? 24)%nat || negb (length cipher_text mod DES_BLOCK =? 0)%nat
  then Err InvalidKeyLength
  else
    let? ks := des3_key_sched key in
    Ok (cbc8_decrypt ks (length cipher_text / DES_BLOCK) iv cipher_text).

Definition bit0 (b : byte) : Z := Z.land (u8z b) 1.

(** Bits 1..7 of the eighth byte are the low bits of the first seven. *)
Definition eighth_byte (seven : bytes) : byte :=
  z8 (Z.lor (Z.shiftl (bit0 (seven !!! 0%nat)) 1)
     (Z.lor (Z.shiftl (bit0 (seven !!! 1%nat)) 2)
     (Z.lor (Z.shiftl (bit0 (seven !!! 2%nat)) 3)
     (Z.lor (Z.shiftl (bit0 (seven !!! 3%nat)) 4)
     (Z.lor (Z.shiftl (bit0 (seven !!! 4%nat)) 5)
     (Z.lor (Z.shiftl (bit0 (seven !!! 5%nat)) 6)
            (Z.shiftl (bit0 (seven !!! 6%nat)) 7))))))).

Definition fixup_byte (b : byte) : byte :=
  let x := byte.and b xfe in
  if (count_ones x mod 2 =? 0)%nat then z8 (Z.lor (u8z x) 1) else x.

Definition fixup_key_parity (key : bytes) : bytes := map fixup_byte key.

Definition des3_one_key (seven : bytes) : bytes :=
  fixup_key_parity (seven ++ [eighth_byte seven]).

Definition des3_random_to_key (raw21 : bytes) : bytes :=
  des3_one_key (take 7 raw21) ++ des3_one_key (take 7 (drop 7 raw21))
  ++ des3_one_key (take 7 (drop 14 raw21)).

(** [while dr.len() < 21 { ... }] *)
Fixpoint dk_des3_loop (fuel : nat) (key block dr : bytes) : result Error bytes :=
  match fuel with
  | O => Ok dr
  | S f =>
      if (length dr <? 21)%nat then
        let? c := des3_cbc_encrypt key (replicate DES_BLOCK x00) block in
        if negb (length c =? DES_BLOCK)%nat then Err InvalidKeyLength
        else dk_des3_loop f key c (dr ++ c)
      else Ok dr
  end.

Definition dk_des3 (key constant : bytes) : result Error bytes :=
  let? folded := Nfold.nfold constant DES_BLOCK in
  let? dr := dk_des3_loop 22 key folded [] in
  Ok (des3_random_to_key (take 21 dr)).

Definition cmac_camellia (key data : bytes) : result Error bytes :=
  match length key with
  | 16%nat => ok_or (cmac Camellia128 key data) InvalidKeyLength
  | 32%nat => ok_or (cmac Camellia256 key data) InvalidKeyLength
  | _ => Err InvalidKeyLength
  end.

(** [for i in 1..=n] of the feedback-mode KDF. *)
Fixpoint kdf_feedback_loop (n i : nat) (key constant : bytes) (k_bits : Z)
    (k_prev out : bytes) : result Error bytes :=
  match n with
  | O => Ok out
  | S n =>
      let input := k_prev ++ to_be_bytes 4 (try_from_or 32 (Z.of_nat i) U32_MAX)
                   ++ constant ++ [x00] ++ to_be_bytes 4 k_bits in
      let? ki := cmac_camellia key input in
      kdf_feedback_loop n (S i) key constant k_bits ki (out ++ ki)
  end.

Definition kdf_feedback_cmac (key constant : bytes) : result Error bytes :=
  let out_len := length key in
  if negb (out_len =? 16)%nat && negb (out_len =? 32)%nat then Err InvalidKeyLength
  else
    let k_bits := try_from_or 32 (Z.of_nat out_len * 8) U32_MAX in
    let n := Cts.nblocks out_len in
    let? out := kdf_feedback_loop n 1 key constant k_bits (replicate 16 x00) [] in
    Ok (take out_len out).

Definition dk_camellia (key constant : bytes) : result Error bytes := kdf_feedback_cmac key constant.

(** ** The three keys of a usage *)

Definition derive_usage_keys (e : EncryptionType) (base : bytes) (usage : Z)
    : result Error DerivedKeys :=
  let constant := KeyUsage.derivation_constant usage in
  if EType.is_rfc8009 e then
    let? kc := kdf_hmac_sha2 e base (constant x99) None (bits_u32 (EType.mac_key_len e)) in
    let? ke := kdf_hmac_sha2 e base (constant xaa) None (bits_u32 (EType.key_len e)) in
    let? ki := kdf_hmac_sha2 e base (constant x55) None (bits_u32 (EType.mac_key_len e)) in
    Ok {| kc := kc; ke := ke; ki := ki |}
  else if EType.is_camellia e then
    let? kc := dk_camellia base (constant x99) in
    let? ke := dk_camellia base (constant xaa) in
    let? ki := dk_camellia base (constant x55) in
    Ok {| kc := kc; ke := ke; ki := ki |}
  else if decide (e = Des3CbcSha1) then
    let? kc := dk_des3 base (constant x99) in
    let? ke := dk_des3 base (constant xaa) in
    let? ki := dk_des3 base (constant x55) in
    Ok {| kc := kc; ke := ke; ki := ki |}
  else
    let? kc := dk_rfc3961 base (constant x99) in
    let? ke := dk_rfc3961 base (constant xaa) in
    let? ki := dk_rfc3961 base (constant x55) in
    Ok {| kc := kc; ke := ke; ki := ki |}.

(** ** Proofs *)

(** RFC 3961's DR: [K1 = E(Key, n-fold(Constant)), K2 = E(Key, K1), ...]. *)
Fixpoint dr_stream {c} (ks : KeySched c) (n : nat) (block : bytes) : bytes :=
  match n with
  | O => []
  | S n => encrypt_block ks block ++ dr_stream ks n (encrypt_block ks block)
  end.

Context {Laws : PrimitiveLaws}.

Lemma encrypt_one_keyed key :
  length key = 16%nat \/ length key = 32%nat ->
  exists c (ks : KeySched c), bc_block_size c = Cts.BLOCK /\
    Cts.keyed c key = Ok ks /\ forall b, Cts.encrypt_one key b = Ok (encrypt_block ks b).
Proof.
  intros [Hk|Hk]; [destruct (Cts.keyed_ok Aes128 key Hk) as [ks Hks]; exists Aes128, ks
                  |destruct (Cts.keyed_ok Aes256 key Hk) as [ks Hks]; exists Aes256, ks];
    (split_and!; [done|done|]; intros b; unfold Cts.encrypt_one; rewrite Hk, Hks; done).
Qed.

Lemma dk_loop_spec {c} (ks : KeySched c) key k :
  bc_block_size c = Cts.BLOCK ->
  (forall b, Cts.encrypt_one key b = Ok (encrypt_block ks b)) ->
  forall fuel block out, (k <= fuel + length out)%nat -> (length out <= k)%nat ->
  length block = Cts.BLOCK ->
  dk_loop (S fuel) k key block out = Ok (out ++ take (k - length out) (dr_stream ks (S fuel) block)).
Proof.
  intros Hc He. induction fuel as [|f IH]; intros block out Hf Ho Hb.
  { cbn [dk_loop]. replace (length out <? k)%nat with false by (symmetry; apply Nat.ltb_ge; lia).
    replace (k - length out)%nat with 0%nat by lia. by rewrite take_0, app_nil_r. }
  cbn [dk_loop dr_stream]. destruct (Nat.ltb_spec (length out) k) as [Hlt|Hge].
  - rewrite He. set (e := encrypt_block ks block).
    assert (length e = Cts.BLOCK) as Hle by (rewrite <- Hc; apply length_encrypt_block; congruence).
    unfold Cts.BLOCK in *.
    change (dk_loop (S f) k key e (out ++ take (Nat.min (k - length out) 16) e)
            = Ok (out ++ take (k - length out) (e ++ dr_stream ks (S f) e))).
    rewrite IH by (rewrite ?length_app, ?length_take; lia).
    rewrite <- app_assoc. f_equal. f_equal. rewrite take_app.
    rewrite length_app, length_take, Hle. f_equal; [|f_equal; lia].
    destruct (decide (k - length out <= 16)%nat); [f_equal; lia|].
    rewrite !take_ge by lia. done.
  - replace (k - length out)%nat with 0%nat by lia. by rewrite take_0, app_nil_r.
Qed.

Lemma length_dr_stream {c} (ks : KeySched c) n b :
  length b = bc_block_size c -> length (dr_stream ks n b) = (n * bc_block_size c)%nat.
Proof.
  revert b. induction n as [|n IH]; intros b Hb; [done|]. cbn.
  rewrite length_app, IH, length_encrypt_block by auto using length_encrypt_block. lia.
Qed.

(** [dk_rfc3961] with an AES key is RFC 3961's DK: the k-truncation of DR. *)
Lemma dk_rfc3961_spec key constant :
  length key = 16%nat \/ length key = 32%nat ->
  constant <> [] ->
  exists c (ks : KeySched c) folded,
    bc_block_size c = Cts.BLOCK /\ Cts.keyed c key = Ok ks /\ length folded = Cts.BLOCK /\
    (if (length constant =? Cts.BLOCK)%nat then folded = constant
     else Nfold.nfold constant Cts.BLOCK = Ok folded) /\
    dk_rfc3961 key constant = Ok (take (length key) (dr_stream ks (S (length key)) folded)).
Proof.
  intros Hk Hc. destruct (encrypt_one_keyed key Hk) as (c & ks & Hbs & Hks & He).
  assert (exists folded, (if (length constant =? Cts.BLOCK)%nat then Ok constant
     else Nfold.nfold constant Cts.BLOCK) = Ok folded /\ length folded = Cts.BLOCK) as (f & Hf & Hlf).
  { destruct (Nat.eqb_spec (length constant) Cts.BLOCK) as [E|E]; [by exists constant|].
    destruct (Nfold.nfold_total constant Cts.BLOCK) as [f Hf]; [done|by unfold Cts.BLOCK|].
    exists f. split; [done|]. by apply (Nfold.nfold_length _ _ _ Hf). }
  exists c, ks, f. split_and!; [done|done|done|by destruct (_ =? _)%nat; simplify_eq|].
  unfold dk_rfc3961. rewrite Hf.
  rewrite (dk_loop_spec ks key) by (done || (cbn; lia)).
  cbn [app length]. by rewrite Nat.sub_0_r.
Qed.

Lemma dk_rfc3961_ok key constant :
  length key = 16%nat \/ length key = 32%nat -> constant <> [] ->
  exists d, dk_rfc3961 key constant = Ok d /\ length d = length key.
Proof.
  intros Hk Hc. destruct (dk_rfc3961_spec key constant Hk Hc) as (c & ks & f & Hb & _ & Hl & _ & ->).
  eexists. split; [done|]. rewrite length_take, length_dr_stream by congruence.
  rewrite Hb. unfold Cts.BLOCK. lia.
Qed.

(** *** RFC 8009 and RFC 6803 *)

Lemma hmac_digest_ok e key data :
  EType.is_aes e = true ->
  exists h, hmac_digest e key data = Ok h /\ (EType.hmac_output_len e <= length h)%nat /\
    (EType.is_rfc8009 e = true -> EType.mac_key_len e <= length h /\ EType.key_len e <= length h)%nat.
Proof.
  intros He. destruct e; try done; cbn [hmac_digest];
    [destruct (hmac_some Sha1 key data) as (h & -> & Hl)
    |destruct (hmac_some Sha1 key data) as (h & -> & Hl)
    |destruct (hmac_some Sha256 key data) as (h & -> & Hl)
    |destruct (hmac_some Sha384 key data) as (h & -> & Hl)];
    exists h; cbn in *; (split_and!; [done|lia|intros; try done; lia]).
Qed.

Lemma hmac_truncated_ok e key data :
  EType.is_aes e = true ->
  exists h, hmac_truncated e key data = Ok h /\ length h = EType.hmac_output_len e.
Proof.
  intros He. destruct (hmac_digest_ok e key data He) as (h & Hh & Hl & _).
  unfold hmac_truncated. rewrite Hh. eexists. split; [done|].
  destruct (Nat.ltb_spec (EType.hmac_output_len e) (length h)); rewrite ?length_take; lia.
Qed.

Lemma kdf_hmac_sha2_ok e key label ctx n :
  EType.is_rfc8009 e = true -> n = EType.mac_key_len e \/ n = EType.key_len e ->
  exists d, kdf_hmac_sha2 e key label ctx (bits_u32 n) = Ok d /\ length d = n.
Proof.
  intros He Hn.
  assert (EType.is_aes e = true) as Ha by (by destruct e).
  unfold kdf_hmac_sha2. match goal with |- context [hmac_digest e key ?m] =>
    destruct (hmac_digest_ok e key m Ha) as (h & Hh & _ & Hl) end.
  rewrite Hh. specialize (Hl He). eexists. split; [done|].
  assert (Z.to_nat (bits_u32 n / 8) = n) as ->.
  { assert (n <= 32)%nat by (destruct e, Hn; subst; cbn; lia).
    unfold bits_u32, try_from_or. rewrite (proj2 (Z.ltb_lt _ _)) by lia.
    rewrite Z.div_mul by lia. lia. }
  destruct (Nat.ltb_spec n (length h)); rewrite ?length_take; lia.
Qed.

Lemma cmac_camellia_ok key data :
  length key = 16%nat \/ length key = 32%nat ->
  exists m, cmac_camellia key data = Ok m /\ length m = 16%nat.
Proof.
  intros Hk. unfold cmac_camellia.
  destruct Hk as [Hk|Hk]; rewrite Hk;
    [destruct (cmac_some Camellia128 key data Hk) as (h & -> & Hl)
    |destruct (cmac_some Camellia256 key data Hk) as (h & -> & Hl)]; exists h; done.
Qed.

Lemma kdf_feedback_loop_ok key constant kb :
  length key = 16%nat \/ length key = 32%nat ->
  forall n i prev out, exists o,
    kdf_feedback_loop n i key constant kb prev out = Ok o /\ length o = (length out + 16 * n)%nat.
Proof.
  intros Hk. induction n as [|n IH]; intros i prev out; [exists out; cbn; split; [done|lia]|].
  cbn [kdf_feedback_loop].
  match goal with |- context [cmac_camellia key ?d] =>
    destruct (cmac_camellia_ok key d Hk) as (m & Hm & Hl) end. rewrite Hm.
  destruct (IH (S i) m (out ++ m)) as (o & Ho & Hlo). exists o. split; [done|].
  rewrite Hlo, length_app, Hl. lia.
Qed.

Lemma dk_camellia_ok key constant :
  length key = 16%nat \/ length key = 32%nat ->
  exists d, dk_camellia key constant = Ok d /\ length d = length key.
Proof.
  intros Hk. unfold dk_camellia, kdf_feedback_cmac.
  replace (negb (length key =? 16)%nat && negb (length key =? 32)%nat) with false
    by (destruct Hk as [-> | ->]; done).
  match goal with |- context [kdf_feedback_loop ?n ?i _ _ ?kb ?p ?o] =>
    destruct (kdf_feedback_loop_ok key constant kb Hk n i p o) as (d & Hd & Hl) end.
  rewrite Hd. eexists. split; [done|]. rewrite length_take, Hl.
  destruct Hk as [-> | ->]; cbn; lia.
Qed.

(** *** Triple DES *)

Lemma fixup_byte_parity b : (count_ones (fixup_byte b) mod 2 =? 1)%nat = true.
Proof. by destruct b. Qed.

Lemma fixup_byte_high b : byte.and (fixup_byte b) xfe = byte.and b xfe.
Proof. by destruct b. Qed.

Lemma des3_one_key_parity seven : des_check_key_parity (des3_one_key seven) = true.
Proof.
  unfold des_check_key_parity, des3_one_key, fixup_key_parity.
  apply forallb_forall. intros b Hb. apply in_map_iff in Hb as (x & <- & _).
  apply fixup_byte_parity.
Qed.

Lemma length_des3_one_key seven : length seven = 7%nat -> length (des3_one_key seven) = 8%nat.
Proof.
  intros H. unfold des3_one_key, fixup_key_parity. by rewrite length_map, length_app, H.
Qed.

Lemma length_des3_random_to_key r : length r = 21%nat -> length (des3_random_to_key r) = 24%nat.
Proof.
  intros H. unfold des3_random_to_key.
  rewrite !length_app, !length_des3_one_key; rewrite ?length_take, ?length_drop; lia.
Qed.

(** The input byte [i] of a DES key: its high bits, and bit [i + 1] of the eighth. *)
Definition recover (key : bytes) (i : nat) : byte :=
  z8 (Z.lor (u8z (byte.and (key !!! i) xfe))
            (Z.land (Z.shiftr (u8z (byte.and (key !!! 7%nat) xfe)) (Z.of_nat i + 1)) 1)).

Lemma bit0_b2z b : bit0 b = Z.b2z (Z.testbit (u8z b) 0).
Proof. by destruct b. Qed.

Lemma byte_split b : z8 (Z.lor (u8z (byte.and b xfe)) (bit0 b)) = b.
Proof. by destruct b. Qed.

Lemma eighth_byte_bit seven i :
  length seven = 7%nat -> (i < 7)%nat ->
  Z.land (Z.shiftr (u8z (byte.and (eighth_byte seven) xfe)) (Z.of_nat i + 1)) 1
  = bit0 (seven !!! i).
Proof.
  intros Hl Hi. do 8 (destruct seven as [|? seven]; try done). clear Hl.
  unfold eighth_byte.
  do 7 (destruct i as [|i]; [cbn [lookup_total list_lookup_total]; rewrite !bit0_b2z;
    repeat (match goal with |- context [Z.testbit (u8z ?b) 0] =>
      generalize (Z.testbit (u8z b) 0) end; intros []); reflexivity|]). lia.
Qed.

Lemma recover_one_key seven i :
  length seven = 7%nat -> (i < 7)%nat -> recover (des3_one_key seven) i = seven !!! i.
Proof.
  intros Hl Hi. unfold recover, des3_one_key, fixup_key_parity.
  rewrite !(list_lookup_total_fmap fixup_byte) by (rewrite length_app, Hl; cbn; lia).
  rewrite !fixup_byte_high, lookup_total_app_l, lookup_total_app_r, Hl by lia.
  change ([eighth_byte seven] !!! (7 - 7)%nat) with (eighth_byte seven).
  rewrite eighth_byte_bit by done. apply byte_split.
Qed.

Lemma des3_one_key_inj a b :
  length a = 7%nat -> length b = 7%nat -> des3_one_key a = des3_one_key b -> a = b.
Proof.
  intros Ha Hb H. apply (list_eq_same_length _ _ 7); [done..|].
  intros i x y Hi Hx Hy. apply list_lookup_total_correct in Hx as <-, Hy as <-.
  rewrite <- !recover_one_key by done. by rewrite H.
Qed.

Lemma des3_random_to_key_inj a b :
  length a = 21%nat -> length b = 21%nat ->
  des3_random_to_key a = des3_random_to_key b -> a = b.
Proof.
  intros Ha Hb H. unfold des3_random_to_key in H.
  assert (forall (r : bytes) n, length r = 21%nat -> (n <= 14)%nat -> length (take 7 (drop n r)) = 7%nat) as Hl
    by (intros; rewrite length_take, length_drop; lia).
  pose proof (Hl a 0%nat Ha ltac:(lia)) as A0. pose proof (Hl b 0%nat Hb ltac:(lia)) as B0.
  rewrite drop_0 in A0, B0.
  apply app_inj_1 in H as [H0 H]; [|by rewrite !length_des3_one_key].
  apply app_inj_1 in H as [H1 H2]; [|rewrite !length_des3_one_key; auto with lia].
  apply des3_one_key_inj in H0, H1, H2; auto with lia.
  rewrite (take_ge (drop 14 a)), (take_ge (drop 14 b)) in H2 by (rewrite length_drop; lia).
  rewrite <- (take_drop 7 a), <- (take_drop 7 b), H0. f_equal.
  rewrite <- (take_drop 7 (drop 7 a)), <- (take_drop 7 (drop 7 b)), H1. f_equal.
  by rewrite !drop_drop.
Qed.

Lemma cbc8_roundtrip (ks : KeySched TdesEde3) n iv p :
  length iv = DES_BLOCK -> length p = (n * DES_BLOCK)%nat ->
  length (cbc8_encrypt ks n iv p) = length p /\
  cbc8_decrypt ks n iv (cbc8_encrypt ks n iv p) = p.
Proof.
  revert iv p. induction n as [|n IH]; intros iv p Hiv Hp.
  { destruct p; done. }
  unfold DES_BLOCK in *. cbn [cbc8_encrypt cbc8_decrypt]. unfold DES_BLOCK.
  assert (length (xor_bytes (take 8 p) iv) = 8%nat) as Hx
    by (rewrite length_xor_bytes; rewrite length_take; lia).
  set (e := encrypt_block ks (xor_bytes (take 8 p) iv)).
  assert (length e = 8%nat) as He by (by apply (length_encrypt_block TdesEde3)).
  destruct (IH e (drop 8 p) He) as [IHl IHr]; [rewrite length_drop; lia|].
  split; [rewrite length_app, IHl, length_drop; lia|].
  rewrite take_app_length' by done. rewrite drop_app_length' by done. rewrite IHr. unfold e.
  rewrite decrypt_encrypt_block by done.
  rewrite xor_bytes_cancel by (rewrite length_take; lia). apply take_drop.
Qed.

Lemma des3_cbc_roundtrip key iv p :
  length iv = DES_BLOCK -> (length p mod DES_BLOCK = 0)%nat -> is_ok (des3_key_sched key) = true ->
  exists c, des3_cbc_encrypt key iv p = Ok c /\ length c = length p /\
    des3_cbc_decrypt key iv c = Ok p.
Proof.
  intros Hiv Hp Hk. destruct (des3_key_sched key) as [ks|] eqn:Hks; [|done].
  assert (length key = 24%nat) as Hl.
  { unfold des3_key_sched in Hks. destruct (Nat.eqb_spec (length key) 24); [done|discriminate]. }
  assert (length p = (length p / DES_BLOCK) * DES_BLOCK)%nat as Hdiv
    by (rewrite (Nat.div_mod_eq (length p) DES_BLOCK) at 1; lia).
  destruct (cbc8_roundtrip ks (length p / DES_BLOCK) iv p Hiv Hdiv) as [Hlc Hr].
  eexists. unfold des3_cbc_encrypt, des3_cbc_decrypt. rewrite Hl, Hp, Hks.
  split; [done|]. split; [done|]. rewrite Hlc, Hp. by rewrite Hr.
Qed.

Lemma cbc8_roundtrip_rev (ks : KeySched TdesEde3) n iv p :
  length iv = DES_BLOCK -> length p = (n * DES_BLOCK)%nat ->
  length (cbc8_decrypt ks n iv p) = length p /\
  cbc8_encrypt ks n iv (cbc8_decrypt ks n iv p) = p.
Proof.
  revert iv p. induction n as [|n IH]; intros iv p Hiv Hp.
  { destruct p; done. }
  unfold DES_BLOCK in *. cbn [cbc8_encrypt cbc8_decrypt]. unfold DES_BLOCK.
  assert (length (take 8 p) = 8%nat) as Ht by (rewrite length_take; lia).
  assert (length (decrypt_block ks (take 8 p)) = 8%nat) as He
    by (by apply (length_decrypt_block TdesEde3)).
  assert (length (xor_bytes (decrypt_block ks (take 8 p)) iv) = 8%nat) as Hx
    by (rewrite length_xor_bytes; lia).
  destruct (IH (take 8 p) (drop 8 p) Ht) as [IHl IHr]; [rewrite length_drop; lia|].
  split; [rewrite length_app, IHl, length_drop; lia|].
  rewrite take_app_length', drop_app_length' by done.
  rewrite xor_bytes_cancel, encrypt_decrypt_block by (done || lia).
  rewrite IHr. apply take_drop.
Qed.

Lemma des3_cbc_decrypt_inv key iv c p :
  length iv = DES_BLOCK -> des3_cbc_decrypt key iv c = Ok p ->
  length p = length c /\ (length p mod DES_BLOCK = 0)%nat /\ des3_cbc_encrypt key iv p = Ok c.
Proof.
  intros Hiv H. unfold des3_cbc_decrypt in H.
  destruct (negb (length key =? 24)%nat) eqn:Hk; [done|].
  destruct (Nat.eqb_spec (length c mod DES_BLOCK) 0) as [Hm|]; [|done]. cbn [orb negb] in H.
  destruct (des3_key_sched key) as [ks|] eqn:Hks; [|done].
  assert (p = cbc8_decrypt ks (length c / DES_BLOCK) iv c) as -> by congruence.
  assert (length c = (length c / DES_BLOCK) * DES_BLOCK)%nat as Hdiv
    by (rewrite (Nat.div_mod_eq (length c) DES_BLOCK) at 1; lia).
  destruct (cbc8_roundtrip_rev ks (length c / DES_BLOCK) iv c Hiv Hdiv) as [Hlc Hr].
  split_and!; [done|by rewrite Hlc|].
  unfold des3_cbc_encrypt. rewrite Hk, Hlc, Hm, Hks. cbn [orb negb Nat.eqb]. by rewrite Hr.
Qed.

Lemma dk_des3_loop_ok key :
  is_ok (des3_key_sched key) = true ->
  forall fuel block dr, length block = DES_BLOCK -> (21 <= length dr + 8 * fuel)%nat ->
  exists out, dk_des3_loop fuel key block dr = Ok out /\ (21 <= length out)%nat.
Proof.
  intros Hk. induction fuel as [|f IH]; intros block dr Hb Hf.
  { exists dr. split; [done|lia]. }
  cbn [dk_des3_loop]. destruct (Nat.ltb_spec (length dr) 21); [|by exists dr].
  destruct (des3_cbc_roundtrip key (replicate DES_BLOCK x00) block) as (c & Hc & Hlc & _);
    [done|by rewrite Hb|done|].
  rewrite Hc, Hlc, Hb, Nat.eqb_refl. unfold DES_BLOCK in *. cbn [negb].
  apply IH; rewrite ?length_app; lia.
Qed.

(** The derived triple-DES key is 24 bytes of odd parity. *)
Lemma dk_des3_ok key constant :
  is_ok (des3_key_sched key) = true -> constant <> [] ->
  exists d, dk_des3 key constant = Ok d /\ length d = 24%nat /\ des_check_key_parity d = true.
Proof.
  intros Hk Hc. unfold dk_des3.
  destruct (Nfold.nfold_total constant DES_BLOCK) as [f Hf]; [done|done|].
  rewrite Hf. destruct (dk_des3_loop_ok key Hk 22 f []) as (dr & Hdr & Hl);
    [by apply (Nfold.nfold_length _ _ _ Hf)|cbn; lia|].
  rewrite Hdr. eexists. split_and!; [done| |].
  - apply length_des3_random_to_key. rewrite length_take. lia.
  - unfold des3_random_to_key, des_check_key_parity. rewrite !forallb_app.
    by rewrite !des3_one_key_parity.
Qed.

(** *** The usage keys *)

(** Keys of the enctypes other than triple DES are accepted as they are; a
    triple-DES key must also pass [des3_key_sched]. *)
Definition usable (e : EncryptionType) (base : bytes) : Prop :=
  length base = EType.key_len e /\
  (e = Des3CbcSha1 -> is_ok (des3_key_sched base) = true).

Lemma constant_not_nil u s : KeyUsage.derivation_constant u s <> [].
Proof. intros H. apply (f_equal length) in H. by rewrite KeyUsage.length_derivation_constant in H. Qed.

(** Deriving the keys of a usage succeeds for every usable base key, and the
    encryption key has the enctype's key length and the checksum and integrity
    keys its MAC key length; for triple DES every derived byte has odd
    parity. *)
Lemma derive_usage_keys_ok e base usage :
  usable e base ->
  exists d, derive_usage_keys e base usage = Ok d /\
    length (ke d) = EType.key_len e /\
    length (kc d) = EType.mac_key_len e /\
    length (ki d) = length (kc d) /\
    (e = Des3CbcSha1 -> des_check_key_parity (ke d ++ kc d ++ ki d) = true).
Proof.
  intros [Hl H3]. unfold derive_usage_keys.
  destruct (EType.is_rfc8009 e) eqn:E8.
  { destruct (kdf_hmac_sha2_ok e base (KeyUsage.derivation_constant usage x99) None _ E8 (or_introl eq_refl)) as (c & -> & Hc).
    destruct (kdf_hmac_sha2_ok e base (KeyUsage.derivation_constant usage xaa) None _ E8 (or_intror eq_refl)) as (k & -> & Hk).
    destruct (kdf_hmac_sha2_ok e base (KeyUsage.derivation_constant usage x55) None _ E8 (or_introl eq_refl)) as (i & -> & Hi).
    eexists. split; [done|]. cbn. destruct e; try done; cbn in *; split_and!; done || congruence. }
  destruct (EType.is_camellia e) eqn:Ec.
  { assert (length base = 16 \/ length base = 32)%nat as Hb by (rewrite Hl; destruct e; auto; done).
    destruct (dk_camellia_ok base (KeyUsage.derivation_constant usage x99) Hb) as (c & -> & Hc).
    destruct (dk_camellia_ok base (KeyUsage.derivation_constant usage xaa) Hb) as (k & -> & Hk).
    destruct (dk_camellia_ok base (KeyUsage.derivation_constant usage x55) Hb) as (i & -> & Hi).
    eexists. split; [done|]. cbn. destruct e; try done; cbn in *; split_and!; done || congruence. }
  destruct (decide (e = Des3CbcSha1)) as [->|Hd].
  { specialize (H3 eq_refl).
    destruct (dk_des3_ok base _ H3 (constant_not_nil usage x99)) as (c & -> & Hc & Pc).
    destruct (dk_des3_ok base _ H3 (constant_not_nil usage xaa)) as (k & -> & Hk & Pk).
    destruct (dk_des3_ok base _ H3 (constant_not_nil usage x55)) as (i & -> & Hi & Pi).
    eexists. split; [done|]. cbn [ke kc ki]. split_and!; [done|done|congruence|intros _].
    unfold des_check_key_parity in *. by rewrite !forallb_app, Pc, Pk, Pi. }
  assert (length base = 16 \/ length base = 32)%nat as Hb by (rewrite Hl; destruct e; auto; done).
  destruct (dk_rfc3961_ok base _ Hb (constant_not_nil usage x99)) as (c & -> & Hc).
  destruct (dk_rfc3961_ok base _ Hb (constant_not_nil usage xaa)) as (k & -> & Hk).
  destruct (dk_rfc3961_ok base _ Hb (constant_not_nil usage x55)) as (i & -> & Hi).
  eexists. split; [done|]. cbn. destruct e; try done; cbn in *; split_and!; done || congruence.
Qed.

(** over AES, [dk_rfc3961] is RFC 3961's DK function: it always terminates
    with a key of the base key's length, which is the k-truncation of
    [E(Key, n-fold(Constant)) | E(Key, K1) | ...], the constant used as it is when
    it already is one block. *)
Theorem dk_rfc3961_is_DK key constant :
  length key = 16%nat \/ length key = 32%nat -> constant <> [] ->
  exists c (ks : KeySched c) folded d,
    Cts.keyed c key = Ok ks /\
    (if (length constant =? Cts.BLOCK)%nat then folded = constant
     else Nfold.nfold constant Cts.BLOCK = Ok folded) /\
    dk_rfc3961 key constant = Ok d /\ length d = length key /\
    d = take (length key) (dr_stream ks (S (length key)) folded).
Proof.
  intros Hk Hc. destruct (dk_rfc3961_spec key constant Hk Hc) as (c & ks & f & Hb & Hks & Hl & Hf & Hd).
  destruct (dk_rfc3961_ok key constant Hk Hc) as (d & Hd' & Hld).
  exists c, ks, f, d. split_and!; [done|done|done|done|]. rewrite Hd in Hd'. by injection Hd'.
Qed.

(** triple-DES random-to-key expands 21 bytes to 24 bytes that all have odd
    parity, and loses none of the 168 bits: it is injective. *)
Theorem des3_random_to_key_sound a :
  length a = 21%nat ->
  length (des3_random_to_key a) = 24%nat /\
  des_check_key_parity (des3_random_to_key a) = true /\
  (forall b, length b = 21%nat -> des3_random_to_key a = des3_random_to_key b -> a = b).
Proof.
  intros Ha. split_and!.
  - by apply length_des3_random_to_key.
  - unfold des3_random_to_key, des_check_key_parity.
    by rewrite !forallb_app, !des3_one_key_parity.
  - intros b Hb. by apply des3_random_to_key_inj.
Qed.

End Derive.

Lemma dk_rfc3961_is_DK_witness :
  exists d, @dk_rfc3961 ToyPrimitives (replicate 32 x11) [x6b; x65; x79] = Ok d /\ length d = 32%nat.
Proof.
  destruct (@dk_rfc3961_is_DK ToyPrimitives toy_laws (replicate 32 x11) [x6b; x65; x79])
    as (_ & _ & _ & d & _ & _ & Hd & Hl & _); [by right|done|].
  exists d. by split.
Defined.

Lemma des3_random_to_key_sound_witness :
  length (des3_random_to_key (replicate 21 x3c)) = 24%nat.
Proof. apply (des3_random_to_key_sound (replicate 21 x3c)). reflexivity. Defined.

End Derive.
