(* ===== verification/Utf8.v ===== *)
(** * UTF-8 and UTF-16

    What the sources use of Rust's [std::str]: [from_utf8] (as the code points
    of the decoded [str]), the lossy decoding, [as_bytes] and [encode_utf16],
    and that decoding what was encoded gives it back. *)

From S2P Require Import Prelude.

Module Utf8.

Definition is_cont (b : byte) : bool := (Z.land (u8z b) 0xc0 =? 0x80).
Definition cont (b : byte) : Z := Z.land (u8z b) 0x3f.

(** A [char]: a Unicode scalar value. *)
Definition is_scalar (c : Z) : bool :=
  (0 <=? c) && (c <=? 0x10ffff) && negb ((0xd800 <=? c) && (c <=? 0xdfff)).

(** [std::str::from_utf8(bytes)]: overlong forms, surrogates and values past
    U+10FFFF are errors. *)
Fixpoint from_utf8 (l : bytes) : option (list Z) :=
  match l with
  | [] => Some []
  | b0 :: l1 =>
      let c0 := u8z b0 in
      if c0 <? 0x80 then cons c0 <$> from_utf8 l1
      else if c0 <? 0xc0 then None
      else match l1 with
      | [] => None
      | b1 :: l2 =>
          if negb (is_cont b1) then None
          else if c0 <? 0xe0 then
            let c := Z.land c0 0x1f * 64 + cont b1 in
            if 0x80 <=? c then cons c <$> from_utf8 l2 else None
          else match l2 with
          | [] => None
          | b2 :: l3 =>
              if negb (is_cont b2) then None
              else if c0 <? 0xf0 then
                let c := (Z.land c0 0x0f * 64 + cont b1) * 64 + cont b2 in
                if (0x800 <=? c) && is_scalar c then cons c <$> from_utf8 l3 else None
              else match l3 with
              | [] => None
              | b3 :: l4 =>
                  if negb (is_cont b3) || negb (c0 <? 0xf8) then None
                  else
                    let c := ((Z.land c0 0x07 * 64 + cont b1) * 64 + cont b2) * 64 + cont b3 in
                    if (0x10000 <=? c) && is_scalar c then cons c <$> from_utf8 l4 else None
              end
          end
      end
  end.

(** [char::encode_utf16] and [str::encode_utf16]. *)
Definition utf16_units (c : Z) : list Z :=
  if c <? 0x10000 then [c]
  else [0xd800 + Z.shiftr (c - 0x10000) 10; 0xdc00 + Z.land (c - 0x10000) 0x3ff].

Definition encode_utf16 (s : list Z) : list Z := flat_map utf16_units s.

(** "zß水🍌" *)
Example from_utf8_sample :
  from_utf8 [x7a; xc3; x9f; xe6; xb0; xb4; xf0; x9f; x8d; x8c]
  = Some [0x7a; 0xdf; 0x6c34; 0x1f34c] /\
  encode_utf16 [0x7a; 0xdf; 0x6c34; 0x1f34c] = [0x7a; 0xdf; 0x6c34; 0xd83c; 0xdf4c] /\
  from_utf8 [xc0; x80] = None /\ from_utf8 [xed; xa0; x80] = None /\
  from_utf8 [xf4; x90; x80; x80] = None /\ from_utf8 [xf8; x88; x80; x80] = None.
Proof. vm_compute. by split_and!. Qed.

(** ** Lossy decoding

    [String::from_utf8_lossy(bytes)] and [str::chars], a [char] being its UTF-8
    encoding: every maximal part of an invalid sequence becomes one U+FFFD. *)
Definition REPLACEMENT : bytes := [xef; xbf; xbd].

(** The range the second byte of a three or four byte sequence is in. *)
Definition second_ok (b0 b1 : byte) : bool :=
  let c0 := u8z b0 in let c1 := u8z b1 in
  if c0 =? 0xe0 then (0xa0 <=? c1) && (c1 <=? 0xbf)
  else if c0 =? 0xed then (0x80 <=? c1) && (c1 <=? 0x9f)
  else if c0 =? 0xf0 then (0x90 <=? c1) && (c1 <=? 0xbf)
  else if c0 =? 0xf4 then (0x80 <=? c1) && (c1 <=? 0x8f)
  else (0x80 <=? c1) && (c1 <=? 0xbf).

Fixpoint lossy (l : bytes) : list bytes :=
  match l with
  | [] => []
  | b0 :: l1 =>
      let c0 := u8z b0 in
      if c0 <? 0x80 then [b0] :: lossy l1
      else if (c0 <? 0xc2) || (0xf4 <? c0) then REPLACEMENT :: lossy l1
      else match l1 with
      | [] => [REPLACEMENT]
      | b1 :: l2 =>
          if negb (if c0 <? 0xe0 then is_cont b1 else second_ok b0 b1)
          then REPLACEMENT :: lossy l1
          else if c0 <? 0xe0 then [b0; b1] :: lossy l2
          else match l2 with
          | [] => [REPLACEMENT]
          | b2 :: l3 =>
              if negb (is_cont b2) then REPLACEMENT :: lossy l2
              else if c0 <? 0xf0 then [b0; b1; b2] :: lossy l3
              else match l3 with
              | [] => [REPLACEMENT]
              | b3 :: l4 =>
                  if negb (is_cont b3) then REPLACEMENT :: lossy l3
                  else [b0; b1; b2; b3] :: lossy l4
              end
          end
      end
  end.

Definition from_utf8_lossy (l : bytes) : bytes := concat (lossy l).

(** [char::encode_utf8] and [str::as_bytes] of a string given by its chars. *)
Definition encode_char (c : Z) : bytes :=
  if c <? 0x80 then [z8 c]
  else if c <? 0x800 then [z8 (0xc0 + Z.shiftr c 6); z8 (0x80 + Z.land c 0x3f)]
  else if c <? 0x10000 then
    [z8 (0xe0 + Z.shiftr c 12); z8 (0x80 + Z.land (Z.shiftr c 6) 0x3f); z8 (0x80 + Z.land c 0x3f)]
  else
    [z8 (0xf0 + Z.shiftr c 18); z8 (0x80 + Z.land (Z.shiftr c 12) 0x3f);
     z8 (0x80 + Z.land (Z.shiftr c 6) 0x3f); z8 (0x80 + Z.land c 0x3f)].

Definition as_bytes (s : list Z) : bytes := flat_map encode_char s.

(** The chars of [String::from_utf8_lossy(bytes)]. *)
Definition lossy_chars_of (l : bytes) : list Z := default [] (from_utf8 (from_utf8_lossy l)).

(** The chars of a valid string: each is decoded from its own bytes wherever it
    stands. *)
Definition is_char (c : bytes) : Prop := forall rest, lossy (c ++ rest) = c :: lossy rest.
Definition is_str (s : bytes) : Prop := exists cs, Forall is_char cs /\ s = concat cs.

Lemma is_char_ascii b : u8z b < 0x80 -> is_char [b].
Proof. intros H rest. simpl. by rewrite (proj2 (Z.ltb_lt _ _) H). Qed.

Lemma is_char_replacement : is_char REPLACEMENT.
Proof. by intros rest. Qed.

Lemma lossy_chars cs rest : Forall is_char cs -> lossy (concat cs ++ rest) = cs ++ lossy rest.
Proof.
  induction 1 as [|c cs Hc Hcs IH]; [done|].
  simpl. rewrite <- app_assoc, (Hc _), IH. done.
Qed.

Lemma lossy_str cs : Forall is_char cs -> lossy (concat cs) = cs.
Proof. intros H. rewrite <- (app_nil_r (concat cs)), lossy_chars by done. apply app_nil_r. Qed.

(** A text after a whole one is read on its own. *)
Lemma from_utf8_app t x s : from_utf8 t = Some s -> from_utf8 (t ++ x) = app s <$> from_utf8 x.
Proof.
  revert s. induction t as [t IH] using (induction_ltof1 _ (@length byte)). intros s. destruct t as [|b0 t].
  { intros [= <-]. cbn [app]. by destruct (from_utf8 x). }
  assert (forall c t', (length t' < length (b0 :: t))%nat -> cons c <$> from_utf8 t' = Some s ->
    cons c <$> from_utf8 (t' ++ x) = app s <$> from_utf8 x) as Hc.
  { intros c t' Hl (s' & E & ->)%fmap_Some. rewrite (IH t' Hl s' E). by destruct (from_utf8 x). }
  clear IH. cbn [from_utf8 app]. destruct (u8z b0 <? 0x80); [apply Hc; cbn; lia|]. destruct (u8z b0 <? 0xc0); [done|].
  destruct t as [|b1 t]; [done|]. cbn [app]. destruct (negb (is_cont b1)); [done|].
  destruct (u8z b0 <? 0xe0); [destruct (_ <=? _); [apply Hc; cbn; lia|done]|].
  destruct t as [|b2 t]; [done|]. cbn [app]. destruct (negb (is_cont b2)); [done|].
  destruct (u8z b0 <? 0xf0); [destruct (_ && _); [apply Hc; cbn; lia|done]|].
  destruct t as [|b3 t]; [done|]. cbn [app]. destruct (_ || _); [done|]. destruct (_ && _); [apply Hc; cbn; lia|done].
Qed.

(** A char is one ASCII byte, or bytes that all have the high bit. *)
Lemma is_cont_high b : is_cont b = true -> 0x80 <= u8z b.
Proof.
  unfold is_cont. intros H%Z.eqb_eq. destruct (decide (0x80 <= u8z b)) as [|Hn]; [done|].
  pose proof (byte.unsigned_range b) as Hr.
  assert (u8z b = u8z b mod 2 ^ 7) as He by (rewrite Z.mod_small; lia).
  assert (Z.testbit (Z.land (u8z b) 0xc0) 7 = false) as Hb.
  { rewrite Z.land_spec, He, Z.mod_pow2_bits_high by lia. done. }
  rewrite H in Hb. done.
Qed.

Lemma second_ok_high b0 b1 : second_ok b0 b1 = true -> 0x80 <= u8z b1.
Proof. unfold second_ok. repeat case_match; intros ?; to_prop; lia. Qed.

Lemma is_char_cases c :
  is_char c -> (exists b, c = [b] /\ u8z b < 0x80) \/ (c <> [] /\ Forall (fun b => 0x80 <= u8z b) c).
Proof.
  intros H. specialize (H []). rewrite app_nil_r in H.
  destruct c as [|b0 l1]; [done|]. simpl in H.
  destruct (Z.ltb_spec (u8z b0) 0x80) as [Ha|Ha].
  { injection H as <-. left. by exists b0. }
  right. split; [done|].
  assert (forall x, REPLACEMENT :: x = [b0 :: l1] -> Forall (fun b => 0x80 <= u8z b) (b0 :: l1)) as Hrep.
  { intros x [= <- <-]. by repeat constructor. }
  destruct ((u8z b0 <? 0xc2) || (0xf4 <? u8z b0)); [by eapply Hrep|].
  destruct l1 as [|b1 l2]; [by eapply Hrep|].
  assert (negb (if u8z b0 <? 0xe0 then is_cont b1 else second_ok b0 b1) = false -> 0x80 <= u8z b1) as H1.
  { intros Hs%negb_false_iff. destruct (u8z b0 <? 0xe0); eauto using is_cont_high, second_ok_high. }
  destruct (negb (if u8z b0 <? 0xe0 then is_cont b1 else second_ok b0 b1)); [by eapply Hrep|].
  specialize (H1 eq_refl). destruct (u8z b0 <? 0xe0).
  { injection H as <-. by repeat constructor. }
  destruct l2 as [|b2 l3]; [by eapply Hrep|].
  destruct (is_cont b2) eqn:H2; simpl in H; [|by eapply Hrep].
  apply is_cont_high in H2. destruct (u8z b0 <? 0xf0).
  { injection H as <-. by repeat constructor. }
  destruct l3 as [|b3 l4]; [by eapply Hrep|].
  destruct (is_cont b3) eqn:H3; simpl in H; [|by eapply Hrep].
  apply is_cont_high in H3. injection H as <-. by repeat constructor.
Qed.

Lemma is_str_ascii s : forallb (fun b => u8z b <? 0x80) s = true -> is_str s.
Proof.
  intros H. exists (map (fun b => [b]) s). split.
  - induction s as [|b s IH]; simpl in *; [constructor|]. to_prop.
    constructor; [by apply is_char_ascii|auto].
  - clear H. induction s as [|b s IH]; simpl; [done|]. by f_equal.
Qed.

(** "a" then overlong, truncated and surrogate sequences. *)
Example lossy_sample :
  lossy [x61; xc0; x80; xe6; xb0; x62; xed; xa0; x80; xf0; x9f; x8d; x8c; xe2; x82]
  = [[x61]; REPLACEMENT; REPLACEMENT; REPLACEMENT; [x62]; REPLACEMENT; REPLACEMENT; REPLACEMENT;
     [xf0; x9f; x8d; x8c]; REPLACEMENT].
Proof. reflexivity. Qed.

(** ** Encoding and decoding *)

(** A property of the numbers below [n], by evaluating it on each. *)
Lemma below_spec (n : nat) (P : Z -> bool) :
  forallb (fun i => P (Z.of_nat i)) (seq 0 n) = true -> forall x, 0 <= x < Z.of_nat n -> P x = true.
Proof.
  intros H x Hx. rewrite forallb_forall in H. rewrite <- (Z2Nat.id x) by lia. apply H, in_seq. lia.
Qed.

Lemma cont_byte x : 0 <= x < 64 -> is_cont (z8 (0x80 + x)) = true /\ cont (z8 (0x80 + x)) = x.
Proof.
  intros Hx. rewrite <- Z.eqb_eq, <- andb_true_iff. revert x Hx.
  apply (below_spec 64 (fun x => is_cont (z8 (0x80 + x)) && (cont (z8 (0x80 + x)) =? x))).
  vm_compute. reflexivity.
Qed.

Lemma lead_byte (base width : Z) (n : nat) x :
  In (base, width, n) [(0xc0, 0x1f, 32%nat); (0xe0, 0x0f, 16%nat); (0xf0, 0x07, 8%nat)] ->
  0 <= x < Z.of_nat n ->
  u8z (z8 (base + x)) = base + x /\ Z.land (base + x) width = x.
Proof.
  intros Hin Hx. rewrite <- !Z.eqb_eq, <- andb_true_iff. revert x Hx.
  apply (below_spec n (fun x => (u8z (z8 (base + x)) =? base + x) && (Z.land (base + x) width =? x))).
  destruct Hin as [[= <- <- <-]|[[= <- <- <-]|[[= <- <- <-]|[]]]]; vm_compute; reflexivity.
Qed.

Lemma from_utf8_char c rest :
  is_scalar c = true -> from_utf8 (encode_char c ++ rest) = cons c <$> from_utf8 rest.
Proof.
  intros Hc. pose proof Hc as Hs. unfold is_scalar in Hs.
  assert (0 <= c <= 0x10ffff) as Hr by (to_prop; lia).
  assert (forall x, 0 <= Z.land x 0x3f < 64) as Hl.
  { intros x. change 0x3f with (Z.ones 6). rewrite Z.land_ones by lia. apply Z.mod_pos_bound. lia. }
  assert (forall x, x = Z.shiftr x 6 * 64 + Z.land x 0x3f) as Hd.
  { intros x. change 0x3f with (Z.ones 6). rewrite Z.land_ones, Z.shiftr_div_pow2 by lia.
    change (2 ^ 6) with 64. pose proof (Z.div_mod x 64). lia. }
  assert (forall x k, 0 <= k -> 0 <= x < 2 ^ (k + 6) -> 0 <= Z.shiftr x 6 < 2 ^ k) as Hq.
  { intros x k Hk Hx. rewrite Z.shiftr_div_pow2 by lia. rewrite Z.pow_add_r in Hx by lia.
    split; [apply Z.div_pos; lia|]. apply Z.div_lt_upper_bound; lia. }
  pose proof (Hd c) as Hd0. pose proof (Hd (Z.shiftr c 6)) as Hd1. pose proof (Hd (Z.shiftr c 12)) as Hd2.
  rewrite Z.shiftr_shiftr in Hd1, Hd2 by lia. change (6 + 6) with 12 in Hd1. change (12 + 6) with 18 in Hd2.
  destruct (cont_byte _ (Hl c)) as [I0 C0]. destruct (cont_byte _ (Hl (Z.shiftr c 6))) as [I1 C1].
  destruct (cont_byte _ (Hl (Z.shiftr c 12))) as [I2 C2].
  unfold encode_char. destruct (Z.ltb_spec c 0x80) as [H1|H1];
    [|destruct (Z.ltb_spec c 0x800) as [H2|H2]; [|destruct (Z.ltb_spec c 0x10000) as [H3|H3]]];
    cbn [app from_utf8].
  - rewrite byte.unsigned_of_Z. unfold byte.wrap. rewrite Z.mod_small by lia.
    by rewrite (proj2 (Z.ltb_lt _ _)) by lia.
  - destruct (lead_byte 0xc0 0x1f 32 (Z.shiftr c 6)) as [-> L]; [cbn; tauto|exact (Hq c 5 ltac:(lia) ltac:(lia))|].
    pose proof (Hq c 5 ltac:(lia) ltac:(lia)).
    rewrite !(proj2 (Z.ltb_ge _ _)) by lia. rewrite I0. cbn [negb].
    rewrite (proj2 (Z.ltb_lt _ _)) by lia. rewrite L, C0, <- Hd0. by rewrite (proj2 (Z.leb_le _ _)) by lia.
  - assert (0 <= Z.shiftr c 12 < 2 ^ 4) as Hb.
    { change 12 with (6 + 6). rewrite <- Z.shiftr_shiftr by lia. apply Hq; [lia|]. apply Hq; lia. }
    destruct (lead_byte 0xe0 0x0f 16 (Z.shiftr c 12)) as [-> L]; [cbn; tauto|lia|].
    rewrite !(proj2 (Z.ltb_ge _ _)) by lia. rewrite I1, I0. cbn [negb].
    rewrite (proj2 (Z.ltb_lt _ _)) by lia. rewrite L, C1, C0, <- Hd1, <- Hd0, Hc.
    by rewrite (proj2 (Z.leb_le _ _)) by lia.
  - assert (0 <= Z.shiftr c 18 < 2 ^ 3) as Hb.
    { change 18 with (6 + 6 + 6). rewrite <- !Z.shiftr_shiftr by lia. apply Hq; [lia|].
      apply Hq; [lia|]. apply Hq; lia. }
    destruct (lead_byte 0xf0 0x07 8 (Z.shiftr c 18)) as [-> L]; [cbn; tauto|lia|].
    rewrite !(proj2 (Z.ltb_ge _ _)) by lia. rewrite I2, I1, I0. cbn [negb orb].
    rewrite (proj2 (Z.ltb_lt _ _)) by lia. cbn [negb]. rewrite L, C2, C1, C0, <- Hd2, <- Hd1, <- Hd0, Hc.
    by rewrite (proj2 (Z.leb_le _ _)) by lia.
Qed.

(** A string is decoded from its bytes. *)
Lemma from_utf8_as_bytes s : Forall (fun c => is_scalar c = true) s -> from_utf8 (as_bytes s) = Some s.
Proof.
  induction 1 as [|c s Hc _ IH]; [done|]. unfold as_bytes in *. cbn [flat_map].
  by rewrite from_utf8_char, IH by done.
Qed.

(** An encoded char is one char to the lossy decoder. *)
Lemma is_char_encode c : is_scalar c = true -> is_char (encode_char c).
Proof.
  intros Hc rest. unfold is_scalar in Hc. assert (0 <= c <= 0x10ffff) as Hr by (to_prop; lia).
  assert (c < 0xd800 \/ 0xdfff < c) as Hg by (to_prop; lia).
  assert (forall x, 0 <= Z.land x 0x3f < 64 /\ x = Z.shiftr x 6 * 64 + Z.land x 0x3f) as Hl.
  { intros x. change 0x3f with (Z.ones 6). rewrite Z.land_ones, Z.shiftr_div_pow2 by lia.
    change (2 ^ 6) with 64. pose proof (Z.div_mod x 64). pose proof (Z.mod_pos_bound x 64). lia. }
  pose proof (Hl c) as [H0 Hd0]. pose proof (Hl (Z.shiftr c 6)) as [H6 Hd6]. pose proof (Hl (Z.shiftr c 12)) as [H12 Hd12].
  rewrite Z.shiftr_shiftr in Hd6, Hd12 by lia. change (6 + 6) with 12 in Hd6. change (12 + 6) with 18 in Hd12.
  destruct (cont_byte _ H0) as [I0 _]. destruct (cont_byte _ H6) as [I6 _]. destruct (cont_byte _ H12) as [I12 _].
  assert (forall x, 0 <= x < 256 -> u8z (z8 x) = x) as Hb.
  { intros x Hx. rewrite byte.unsigned_of_Z. unfold byte.wrap. by rewrite Z.mod_small by lia. }
  unfold encode_char. destruct (Z.ltb_spec c 0x80) as [H1|H1];
    [|destruct (Z.ltb_spec c 0x800) as [H2|H2]; [|destruct (Z.ltb_spec c 0x10000) as [H3|H3]]];
    cbn [app lossy]; rewrite Hb by lia.
  - by rewrite (proj2 (Z.ltb_lt _ _)) by lia.
  - rewrite (proj2 (Z.ltb_ge (0xc0 + Z.shiftr c 6) 0x80)), (proj2 (Z.ltb_ge (0xc0 + Z.shiftr c 6) 0xc2)), (proj2 (Z.ltb_ge 0xf4 (0xc0 + Z.shiftr c 6))) by lia. cbn [orb].
    by rewrite (proj2 (Z.ltb_lt (0xc0 + Z.shiftr c 6) 0xe0)), I0 by lia.
  - rewrite (proj2 (Z.ltb_ge (0xe0 + Z.shiftr c 12) 0x80)), (proj2 (Z.ltb_ge (0xe0 + Z.shiftr c 12) 0xc2)), (proj2 (Z.ltb_ge 0xf4 (0xe0 + Z.shiftr c 12))) by lia. cbn [orb].
    rewrite (proj2 (Z.ltb_ge (0xe0 + Z.shiftr c 12) 0xe0)), (proj2 (Z.ltb_lt (0xe0 + Z.shiftr c 12) 0xf0)) by lia. replace (second_ok _ _) with true; [by rewrite I0|].
    symmetry. unfold second_ok. rewrite !Hb by lia. repeat case_match; to_prop; lia.
  - rewrite (proj2 (Z.ltb_ge (0xf0 + Z.shiftr c 18) 0x80)), (proj2 (Z.ltb_ge (0xf0 + Z.shiftr c 18) 0xc2)), (proj2 (Z.ltb_ge 0xf4 (0xf0 + Z.shiftr c 18))) by lia. cbn [orb].
    rewrite (proj2 (Z.ltb_ge (0xf0 + Z.shiftr c 18) 0xe0)), (proj2 (Z.ltb_ge (0xf0 + Z.shiftr c 18) 0xf0)) by lia. replace (second_ok _ _) with true; [by rewrite I6, I0|].
    symmetry. unfold second_ok. rewrite !Hb by lia. repeat case_match; to_prop; lia.
Qed.

Lemma is_str_as_bytes s : Forall (fun c => is_scalar c = true) s -> is_str (as_bytes s).
Proof.
  intros Hs. exists (map encode_char s). split; [|unfold as_bytes; apply flat_map_concat_map].
  apply List.Forall_map. eapply List.Forall_impl; [|exact Hs]. apply is_char_encode.
Qed.

Lemma from_utf8_lossy_str r : is_str r -> from_utf8_lossy r = r.
Proof. intros (cs & Hcs & ->). unfold from_utf8_lossy. by rewrite lossy_str. Qed.

Lemma lossy_chars_as_bytes s : Forall (fun c => is_scalar c = true) s -> lossy_chars_of (as_bytes s) = s.
Proof.
  intros Hs. unfold lossy_chars_of. rewrite from_utf8_lossy_str by (by apply is_str_as_bytes).
  by rewrite from_utf8_as_bytes.
Qed.

(** An ASCII byte comes from its own char only. *)
Lemma encode_char_low c b : is_scalar c = true -> In b (encode_char c) -> u8z b < 0x80 -> c = u8z b.
Proof.
  intros Hc Hin Hlow. unfold is_scalar in Hc. assert (0 <= c <= 0x10ffff) as Hr by (to_prop; lia).
  assert (forall x, 0x80 <= u8z (z8 (0x80 + Z.land x 0x3f))) as Hk.
  { intros x. apply is_cont_high. apply cont_byte. change 0x3f with (Z.ones 6).
    rewrite Z.land_ones by lia. apply Z.mod_pos_bound. lia. }
  assert (forall base k n, 0xc0 <= base -> 0 <= k -> c < n * 2 ^ k -> base + n <= 256 ->
    u8z (z8 (base + Z.shiftr c k)) = base + Z.shiftr c k /\ 0 <= Z.shiftr c k) as Hlead.
  { intros base k n Hb Hk0 Hn Hbn. rewrite Z.shiftr_div_pow2 by done.
    assert (0 <= c / 2 ^ k < n) as Hq.
    { split; [apply Z.div_pos; lia|]. apply Z.div_lt_upper_bound; lia. }
    rewrite byte.unsigned_of_Z. unfold byte.wrap. rewrite Z.mod_small by lia. lia. }
  unfold encode_char in Hin. repeat case_match; to_prop; cbn in Hin; destruct_or?; try done; subst.
  all: try (match goal with H : u8z (z8 (0x80 + Z.land ?x _)) < 0x80 |- _ => specialize (Hk x); lia end).
  - rewrite byte.unsigned_of_Z in *. unfold byte.wrap in *. rewrite Z.mod_small in * by lia. lia.
  - destruct (Hlead 0xc0 6 32); lia.
  - destruct (Hlead 0xe0 12 16); lia.
  - destruct (Hlead 0xf0 18 5); lia.
Qed.

Lemma as_bytes_low s b :
  Forall (fun c => is_scalar c = true) s -> u8z b < 0x80 -> In b (as_bytes s) -> In (u8z b) s.
Proof.
  intros Hs Hb Hin. apply in_flat_map in Hin as (c & Hc & Hin). rewrite List.Forall_forall in Hs.
  by rewrite <- (encode_char_low c b (Hs c Hc) Hin Hb).
Qed.

Lemma as_bytes_nul s :
  Forall (fun c => is_scalar c = true) s -> In x00 (as_bytes s) -> In 0 s.
Proof. intros Hs. by apply (as_bytes_low s x00). Qed.

(** ** ASCII text *)

Definition ascii (b : bytes) : Prop := Forall (fun x => u8z x < 0x80) b.
Definition chars (b : bytes) : list Z := map (fun x => u8z x) b.

Lemma as_bytes_chars b : ascii b -> as_bytes (chars b) = b.
Proof.
  induction 1 as [|x b Hx _ IH]; [done|]. unfold as_bytes, chars in *. cbn [map flat_map].
  unfold encode_char at 1. rewrite (proj2 (Z.ltb_lt _ _)) by done. cbn [app].
  rewrite byte.of_Z_unsigned. by f_equal.
Qed.

Lemma scalar_chars b : ascii b -> Forall (fun c => is_scalar c = true) (chars b).
Proof.
  induction 1 as [|x b Hx _ IH]; [constructor|]. constructor; [|done].
  pose proof (byte.unsigned_range x). unfold is_scalar. cbn in *. lia.
Qed.

Lemma from_utf8_lossy_ascii b : ascii b -> from_utf8_lossy b = b.
Proof.
  intros Hb. assert (concat (map (fun x => [x]) b) = b) as Hc by (clear; induction b as [|x b IH]; cbn; [done|by rewrite IH]).
  unfold from_utf8_lossy. rewrite <- Hc at 1. rewrite lossy_str; [done|].
  clear Hc. induction Hb; cbn; constructor; [by apply is_char_ascii|done].
Qed.

Lemma lossy_ascii b : ascii b -> lossy_chars_of b = chars b.
Proof.
  intros Hb. unfold lossy_chars_of. rewrite from_utf8_lossy_ascii by done.
  rewrite <- (as_bytes_chars b Hb) at 1. by rewrite from_utf8_as_bytes by (by apply scalar_chars).
Qed.

End Utf8.
