(* ===== verification/Weak.v ===== *)
(** * The RC4, triple-DES and Camellia enctypes

    Models the encryption, decryption and string-to-key of
    [krb5-crypto/src/weak.rs], and [CipherState] and [update_iv] of [ops.rs]. *)

From S2P Require Import Prelude Etype Nfold Primitives Cts Derive Utf8.

Module Weak.
Import Derive.

(** [CipherState]: the 16-byte chaining value. *)
Record CipherState := { iv : bytes }.

Definition initial : CipherState := {| iv := replicate Cts.BLOCK x00 |}.

Definition update_iv (state : CipherState) (ciphertext : bytes) : CipherState :=
  let nblocks := Cts.nblocks (length ciphertext) in
  if (2 <=? nblocks)%nat then
    let start := ((nblocks - 2) * Cts.BLOCK)%nat in
    {| iv := slice ciphertext start (start + Cts.BLOCK) |}
  else state.

Definition arcfour_translate_usage (usage : Z) : Z :=
  match usage with 3 => 8 | 9 => 9 | 23 => 13 | n => n end.

Definition rc4_usage (usage : Z) : Z := arcfour_translate_usage usage.

Section Weak.
Context {Prim : Primitives}.

Definition hmac_md5 (key data : bytes) : result Error bytes :=
  ok_or (hmac Md5 key data) InvalidKeyLength.

Definition apply_rc4 (key data : bytes) : result Error bytes :=
  if negb (length key =? 16)%nat then Err InvalidKeyLength
  else ok_or (rc4 key data) InvalidKeyLength.

Definition rc4_string_to_key (password : bytes) : result Error Key.ProtocolKey :=
  let text := default [] (Utf8.from_utf8 password) in
  let utf16 := flat_map (to_le_bytes 2) (Utf8.encode_utf16 text) in
  Key.from_bytes Rc4Hmac (digest Md4 utf16).

Definition rc4_encrypt_with_conf (key : Key.ProtocolKey) (usage : Z) (confounder plaintext : bytes)
    : result Error bytes :=
  if negb (length confounder =? 8)%nat then Err InvalidConfounder
  else
    let? kusage := hmac_md5 (Key.as_bytes key) (to_le_bytes 4 (rc4_usage usage)) in
    let data := confounder ++ plaintext in
    let? checksum := hmac_md5 kusage data in
    let? kcrypt := hmac_md5 kusage checksum in
    let? ed := apply_rc4 kcrypt data in
    Ok (checksum ++ ed).

Definition rc4_decrypt (key : Key.ProtocolKey) (usage : Z) (ciphertext : bytes)
    : result Error bytes :=
  if (length ciphertext <? 16 + 8)%nat then Err CiphertextTooShort
  else
    let checksum := take 16 ciphertext in
    let ed := drop 16 ciphertext in
    let? kusage := hmac_md5 (Key.as_bytes key) (to_le_bytes 4 (rc4_usage usage)) in
    let? kcrypt := hmac_md5 kusage checksum in
    let? data := apply_rc4 kcrypt ed in
    let? expected := hmac_md5 kusage data in
    let? _ := mac_verify checksum expected in
    if (length data <? 8)%nat then Err CiphertextTooShort
    else Ok (drop 8 data).

Definition hmac_sha1_trunc (key data : bytes) (n : nat) : result Error bytes :=
  let? v := ok_or (hmac Sha1 key data) InvalidKeyLength in
  Ok (take n v).

Definition hmac_sha1_export (key data : bytes) (n : nat) : result Error bytes :=
  hmac_sha1_trunc key data n.

(** [Vec::resize(n, 0)] *)
Definition resize (n : nat) (data : bytes) : bytes := take n data ++ replicate (n - length data) x00.

(** [rng] is what [getrandom] fills the confounder with, or its failure. *)
Definition des3_encrypt (rng : option bytes) (key : Key.ProtocolKey) (usage : Z) (plaintext : bytes)
    : result Error bytes :=
  let? conf := ok_or rng Rng in
  let? derived := dk_des3 (Key.as_bytes key) (KeyUsage.derivation_constant usage xaa) in
  let? ki := dk_des3 (Key.as_bytes key) (KeyUsage.derivation_constant usage x55) in
  let span := (DES_BLOCK + length plaintext)%nat in
  let padded := ((span + DES_BLOCK - 1) / DES_BLOCK * DES_BLOCK)%nat in
  let data := resize padded (conf ++ plaintext) in
  let? c := des3_cbc_encrypt derived (replicate DES_BLOCK x00) data in
  let? h := hmac_sha1_trunc ki data 20 in
  Ok (c ++ h).

Definition des3_decrypt (key : Key.ProtocolKey) (usage : Z) (ciphertext : bytes)
    : result Error bytes :=
  if (length ciphertext <? DES_BLOCK + 20)%nat then Err CiphertextTooShort
  else
    let c := take (length ciphertext - 20) ciphertext in
    let mac := drop (length ciphertext - 20) ciphertext in
    let? derived := dk_des3 (Key.as_bytes key) (KeyUsage.derivation_constant usage xaa) in
    let? ki := dk_des3 (Key.as_bytes key) (KeyUsage.derivation_constant usage x55) in
    let? p := des3_cbc_decrypt derived (replicate DES_BLOCK x00) c in
    let? expected := hmac_sha1_trunc ki p 20 in
    let? _ := mac_verify mac expected in
    if (length p <? DES_BLOCK)%nat then Err CiphertextTooShort
    else Ok (drop DES_BLOCK p).

Definition des3_string_to_key (password salt : bytes) : result Error Key.ProtocolKey :=
  let seed := password ++ salt in
  let seed := if (length seed =? 0)%nat then [x00] else seed in
  let? raw21 := Nfold.nfold seed 21 in
  let raw := des3_random_to_key raw21 in
  let? dk := dk_des3 raw (String.list_byte_of_string "kerberos") in
  Key.from_bytes Des3CbcSha1 dk.

(** The cipher state is returned beside the result: [&mut CipherState]. *)
Definition camellia_encrypt_with_conf (key : Key.ProtocolKey) (usage : Z)
    (confounder plaintext : bytes) (state : CipherState) : CipherState * result Error bytes :=
  if negb (length confounder =? 16)%nat then (state, Err InvalidConfounder)
  else
    let base := Key.as_bytes key in
    match dk_camellia base (KeyUsage.derivation_constant usage xaa) with
    | Err e => (state, Err e)
    | Ok ke =>
    match dk_camellia base (KeyUsage.derivation_constant usage x55) with
    | Err e => (state, Err e)
    | Ok ki =>
    let data := confounder ++ plaintext in
    match Cts.camellia_encrypt ke (iv state) data with
    | Err e => (state, Err e)
    | Ok c =>
    match cmac_camellia ki data with
    | Err e => (state, Err e)
    | Ok h => (update_iv state c, Ok (c ++ h))
    end end end end.

Definition camellia_decrypt (key : Key.ProtocolKey) (usage : Z) (ciphertext : bytes)
    (state : CipherState) : CipherState * result Error bytes :=
  if (length ciphertext <? 16 + 16)%nat then (state, Err CiphertextTooShort)
  else
    let c := take (length ciphertext - 16) ciphertext in
    let mac := drop (length ciphertext - 16) ciphertext in
    let base := Key.as_bytes key in
    match dk_camellia base (KeyUsage.derivation_constant usage xaa) with
    | Err e => (state, Err e)
    | Ok ke =>
    match dk_camellia base (KeyUsage.derivation_constant usage x55) with
    | Err e => (state, Err e)
    | Ok ki =>
    match Cts.camellia_decrypt ke (iv state) c with
    | Err e => (state, Err e)
    | Ok p =>
    let state := update_iv state c in
    (state,
     let? expected := cmac_camellia ki p in
     let? _ := mac_verify mac expected in
     if (length p <? 16)%nat then Err CiphertextTooShort else Ok (drop 16 p))
    end end end.

(** ** Proofs *)

Context {Laws : PrimitiveLaws}.

Lemma mac_verify_ok got expected : mac_verify got expected = Ok tt <-> got = expected.
Proof.
  unfold mac_verify. split.
  - intros H. destruct (_ || _) eqn:E; [done|]. by to_prop.
  - intros ->. by rewrite Nat.eqb_refl, bool_decide_eq_true_2.
Qed.

Lemma mac_verify_refl m : mac_verify m m = Ok tt.
Proof. by apply mac_verify_ok. Qed.

Lemma hmac_md5_ok key data : exists h, hmac_md5 key data = Ok h /\ length h = 16%nat.
Proof. unfold hmac_md5. destruct (hmac_some Md5 key data) as (h & -> & Hl). by exists h. Qed.

Lemma apply_rc4_ok key data :
  length key = 16%nat ->
  exists o, apply_rc4 key data = Ok o /\ length o = length data /\ apply_rc4 key o = Ok data.
Proof.
  intros Hk. destruct (rc4_some key data Hk) as (o & Ho & Hl & Hinv).
  exists o. unfold apply_rc4. by rewrite Hk, Ho, Hinv.
Qed.

Lemma rc4_roundtrip key usage conf p :
  length conf = 8%nat ->
  exists ct, rc4_encrypt_with_conf key usage conf p = Ok ct /\
    length ct = (24 + length p)%nat /\ rc4_decrypt key usage ct = Ok p.
Proof.
  intros Hc. unfold rc4_encrypt_with_conf. rewrite Hc.
  destruct (hmac_md5_ok (Key.as_bytes key) (to_le_bytes 4 (rc4_usage usage))) as (ku & Hku & Hlu).
  cbn [negb Nat.eqb]. rewrite Hku.
  destruct (hmac_md5_ok ku (conf ++ p)) as (ck & Hck & Hlk). rewrite Hck.
  destruct (hmac_md5_ok ku ck) as (kc & Hkc & Hlc). rewrite Hkc.
  destruct (apply_rc4_ok kc (conf ++ p) Hlc) as (ed & Hed & Hle & Hinv). rewrite Hed.
  eexists. split; [done|]. rewrite length_app in Hle.
  assert (length (ck ++ ed) = 24 + length p)%nat as Hl by (rewrite length_app; lia).
  split; [done|]. unfold rc4_decrypt.
  rewrite (proj2 (Nat.ltb_ge _ _)), Hku by lia.
  rewrite take_app_length', drop_app_length' by done.
  rewrite Hkc, Hinv, Hck, mac_verify_refl.
  rewrite (proj2 (Nat.ltb_ge _ _)) by (rewrite length_app; lia).
  by rewrite drop_app_length'.
Qed.

Lemma rc4_authentic key usage ct p :
  rc4_decrypt key usage ct = Ok p ->
  exists conf, length conf = 8%nat /\ rc4_encrypt_with_conf key usage conf p = Ok ct.
Proof.
  unfold rc4_decrypt. destruct (Nat.ltb_spec (length ct) (16 + 8)) as [|Hl]; [done|].
  destruct (hmac_md5_ok (Key.as_bytes key) (to_le_bytes 4 (rc4_usage usage))) as (ku & Hku & Hlu).
  rewrite Hku. destruct (hmac_md5_ok ku (take 16 ct)) as (kc & Hkc & Hlc). rewrite Hkc.
  destruct (apply_rc4_ok kc (drop 16 ct) Hlc) as (data & Hd & Hld & Hinv). rewrite Hd.
  destruct (hmac_md5_ok ku data) as (ex & Hex & Hlx). rewrite Hex.
  destruct (mac_verify (take 16 ct) ex) as [[]|] eqn:Hv; [|done].
  apply mac_verify_ok in Hv. rewrite length_drop in Hld.
  destruct (Nat.ltb_spec (length data) 8) as [|H8]; [done|]. intros H. injection H as <-.
  exists (take 8 data). split; [rewrite length_take; lia|].
  unfold rc4_encrypt_with_conf. rewrite length_take, Nat.min_l by lia. cbn [negb Nat.eqb].
  rewrite Hku, take_drop, Hex, <- Hv, Hkc, Hinv. by rewrite take_drop.
Qed.

(** *** Triple DES *)

(** A base key that derives an encryption key triple DES accepts: the derived
    key has odd parity but may still be one of the sixteen weak keys. *)
Definition des3_usable (base : bytes) (usage : Z) : Prop :=
  is_ok (des3_key_sched base) = true /\
  match dk_des3 base (KeyUsage.derivation_constant usage xaa) with
  | Ok d => is_ok (des3_key_sched d) = true
  | Err _ => False
  end.

(** The zero bytes that pad a message to the block. *)
Definition des3_pad (n : nat) : nat := ((8 - n mod 8) mod 8)%nat.

Lemma des3_padded n :
  ((DES_BLOCK + n + DES_BLOCK - 1) / DES_BLOCK * DES_BLOCK = 8 + n + des3_pad n)%nat.
Proof.
  unfold DES_BLOCK, des3_pad. pose proof (Nat.mod_upper_bound n 8 ltac:(done)) as Hr.
  pose proof (Nat.div_mod_eq n 8) as Hn.
  replace (8 + n + 8 - 1)%nat with ((n / 8 + 1) * 8 + (n mod 8 + 7))%nat by lia.
  rewrite Nat.div_add_l by done.
  assert ((n mod 8 + 7) / 8 * 8 = n mod 8 + (8 - n mod 8) mod 8)%nat as H.
  { clear Hn. revert Hr. generalize (n mod 8)%nat. intros r Hr.
    do 8 (destruct r as [|r]; [reflexivity|]). lia. }
  rewrite Nat.mul_add_distr_r, H. lia.
Qed.

Lemma resize_grow (data : bytes) k :
  resize (length data + k) data = data ++ replicate k x00.
Proof.
  unfold resize. rewrite take_ge by lia. do 2 f_equal. lia.
Qed.

Lemma hmac_sha1_trunc_ok key data :
  exists h, hmac_sha1_trunc key data 20 = Ok h /\ length h = 20%nat.
Proof.
  unfold hmac_sha1_trunc. destruct (hmac_some Sha1 key data) as (h & -> & Hl). cbn [ok_or digest_size] in *.
  exists (take 20 h). split; [done|]. rewrite length_take. lia.
Qed.

Lemma des3_data_length conf (p : bytes) :
  length conf = 8%nat ->
  (length (conf ++ p ++ replicate (des3_pad (length p)) x00) mod DES_BLOCK = 0)%nat.
Proof.
  intros Hc. rewrite !length_app, length_replicate, Hc, Nat.add_assoc, <- des3_padded.
  apply Nat.Div0.mod_mul.
Qed.

(** A key that has derived or encrypted anything is usable. *)
Lemma des3_cbc_usable k v p c : des3_cbc_encrypt k v p = Ok c -> is_ok (des3_key_sched k) = true.
Proof. unfold des3_cbc_encrypt. case_match; [done|]. by destruct (des3_key_sched k). Qed.

Lemma dk_des3_usable base c d : dk_des3 base c = Ok d -> is_ok (des3_key_sched base) = true.
Proof.
  unfold dk_des3. destruct (Nfold.nfold c DES_BLOCK) as [f|]; [|discriminate].
  change (dk_des3_loop 22 base f []) with
    (let? c := des3_cbc_encrypt base (replicate DES_BLOCK x00) f in
     if negb (length c =? DES_BLOCK)%nat then Err InvalidKeyLength else dk_des3_loop 21 base c ([] ++ c)).
  destruct (des3_cbc_encrypt base _ f) as [c0|] eqn:E; [|discriminate].
  intros _. exact (des3_cbc_usable _ _ _ _ E).
Qed.

Lemma des3_encrypt_usable rng key usage p ct :
  des3_encrypt rng key usage p = Ok ct -> des3_usable (Key.as_bytes key) usage.
Proof.
  unfold des3_encrypt, des3_usable. destruct (ok_or rng _); [|discriminate].
  destruct (dk_des3 (Key.as_bytes key) (KeyUsage.derivation_constant usage xaa)) as [d|] eqn:E; [|discriminate].
  destruct (dk_des3 (Key.as_bytes key) (KeyUsage.derivation_constant usage x55)) as [ki|]; [|discriminate].
  destruct (des3_cbc_encrypt d _ _) as [c|] eqn:Ec; [|discriminate].
  intros _. split; [exact (dk_des3_usable _ _ _ E)|exact (des3_cbc_usable _ _ _ _ Ec)].
Qed.

Lemma des3_roundtrip key usage conf p :
  des3_usable (Key.as_bytes key) usage -> length conf = 8%nat ->
  exists ct, des3_encrypt (Some conf) key usage p = Ok ct /\
    length ct = (28 + length p + des3_pad (length p))%nat /\
    des3_decrypt key usage ct = Ok (p ++ replicate (des3_pad (length p)) x00).
Proof.
  intros [Hb Hd] Hc. unfold des3_encrypt. cbn [ok_or].
  destruct (dk_des3 (Key.as_bytes key) (KeyUsage.derivation_constant usage xaa)) as [ke|] eqn:Hke; [|destruct Hd].
  destruct (dk_des3_ok (Key.as_bytes key) (KeyUsage.derivation_constant usage x55)) as (ki & Hki & _ & _);
    [done|apply constant_not_nil|]. rewrite Hki.
  rewrite des3_padded.
  replace (8 + length p + des3_pad (length p))%nat
    with (length (conf ++ p) + des3_pad (length p))%nat by (rewrite length_app; lia).
  rewrite resize_grow, <- app_assoc.
  set (data := conf ++ p ++ _).
  destruct (des3_cbc_roundtrip ke (replicate DES_BLOCK x00) data) as (c & Hc' & Hlc & Hdec);
    [done|by apply des3_data_length|done|].
  rewrite Hc'. destruct (hmac_sha1_trunc_ok ki data) as (h & Hh & Hlh). rewrite Hh.
  eexists. split; [done|].
  assert (length data = 8 + length p + des3_pad (length p))%nat as Hld
    by (unfold data; rewrite !length_app, length_replicate; lia).
  split; [rewrite length_app; lia|]. unfold des3_decrypt.
  rewrite (proj2 (Nat.ltb_ge _ _)) by (rewrite length_app; unfold DES_BLOCK; lia).
  replace (length (c ++ h) - 20)%nat with (length c) by (rewrite length_app; lia).
  rewrite take_app_length, drop_app_length, Hke, Hki, Hdec, Hh, mac_verify_refl.
  rewrite (proj2 (Nat.ltb_ge _ _)) by (unfold DES_BLOCK; lia).
  unfold data. by rewrite drop_app_length'.
Qed.

Lemma des3_authentic key usage ct p :
  des3_decrypt key usage ct = Ok p ->
  exists conf, length conf = 8%nat /\ des3_encrypt (Some conf) key usage p = Ok ct.
Proof.
  unfold des3_decrypt. destruct (Nat.ltb_spec (length ct) (DES_BLOCK + 20)) as [|Hl]; [done|].
  set (n := (length ct - 20)%nat).
  destruct (dk_des3 (Key.as_bytes key) (KeyUsage.derivation_constant usage xaa)) as [ke|] eqn:Hke; [|done].
  destruct (dk_des3 (Key.as_bytes key) (KeyUsage.derivation_constant usage x55)) as [ki|] eqn:Hki; [|done].
  destruct (des3_cbc_decrypt ke _ (take n ct)) as [data|] eqn:Hdec; [|done].
  apply des3_cbc_decrypt_inv in Hdec as (Hld & Hm & Henc); [|done].
  destruct (hmac_sha1_trunc_ok ki data) as (h & Hh & Hlh). rewrite Hh.
  destruct (mac_verify (drop n ct) h) as [[]|] eqn:Hv; [|done]. apply mac_verify_ok in Hv.
  destruct (Nat.ltb_spec (length data) DES_BLOCK) as [|H8]; [done|]. intros H. injection H as <-.
  exists (take DES_BLOCK data). unfold DES_BLOCK in *.
  split; [rewrite length_take; lia|].
  unfold des3_encrypt. cbn [ok_or]. rewrite Hke, Hki, des3_padded, take_drop, length_drop.
  assert (des3_pad (length data - 8) = 0)%nat as ->.
  { unfold des3_pad. apply Nat.Div0.mod_divides in Hm as [k Hk].
    replace (length data - 8)%nat with ((k - 1) * 8)%nat by lia. by rewrite Nat.Div0.mod_mul. }
  replace (8 + (length data - 8) + 0)%nat with (length data + 0)%nat by lia.
  rewrite resize_grow, app_nil_r. unfold DES_BLOCK. rewrite Henc, Hh, <- Hv. by rewrite take_drop.
Qed.

(** *** Camellia *)

Lemma camellia_roundtrip key usage conf p st :
  length (Key.as_bytes key) = 16%nat \/ length (Key.as_bytes key) = 32%nat ->
  length conf = 16%nat -> length (iv st) = Cts.BLOCK ->
  exists ct st', camellia_encrypt_with_conf key usage conf p st = (st', Ok ct) /\
    length ct = (32 + length p)%nat /\ camellia_decrypt key usage ct st = (st', Ok p).
Proof.
  intros Hk Hc Hiv. unfold camellia_encrypt_with_conf. rewrite Hc. cbn [negb Nat.eqb].
  destruct (dk_camellia_ok _ (KeyUsage.derivation_constant usage xaa) Hk) as (ke & Hke & Hle).
  destruct (dk_camellia_ok _ (KeyUsage.derivation_constant usage x55) Hk) as (ki & Hki & Hli).
  rewrite <- Hle in Hk. destruct (Cts.camellia_entry ke Hk) as (c & ks & Hbs & He & Hd).
  assert (length (conf ++ p) = 16 + length p)%nat as Hl by (rewrite length_app; lia).
  destruct (Cts.encrypt_with_roundtrip ks (iv st) (conf ++ p)) as (ct & Hct & Hlct & Hdec);
    [done|done|unfold Cts.BLOCK; lia|].
  rewrite Hke, Hki, He, Hct. rewrite Hle, <- Hli in Hk.
  destruct (cmac_camellia_ok ki (conf ++ p) Hk) as (h & Hh & Hlh). rewrite Hh.
  eexists _, _. split; [done|]. split; [rewrite length_app; lia|].
  unfold camellia_decrypt. rewrite (proj2 (Nat.ltb_ge _ _)) by (rewrite length_app; lia).
  replace (length (ct ++ h) - 16)%nat with (length ct) by (rewrite length_app; lia).
  rewrite take_app_length, drop_app_length, Hke, Hki, Hd, Hdec, Hh, mac_verify_refl.
  rewrite (proj2 (Nat.ltb_ge _ _)) by lia. by rewrite drop_app_length'.
Qed.

Lemma camellia_authentic key usage ct st st' p :
  length (Key.as_bytes key) = 16%nat \/ length (Key.as_bytes key) = 32%nat ->
  length (iv st) = Cts.BLOCK ->
  camellia_decrypt key usage ct st = (st', Ok p) ->
  exists conf, length conf = 16%nat /\
    camellia_encrypt_with_conf key usage conf p st = (st', Ok ct).
Proof.
  intros Hk Hiv. unfold camellia_decrypt.
  destruct (Nat.ltb_spec (length ct) (16 + 16)) as [|Hl]; [done|]. set (n := (length ct - 16)%nat).
  destruct (dk_camellia_ok _ (KeyUsage.derivation_constant usage xaa) Hk) as (ke & Hke & Hle).
  destruct (dk_camellia_ok _ (KeyUsage.derivation_constant usage x55) Hk) as (ki & Hki & Hli).
  rewrite <- Hle in Hk. destruct (Cts.camellia_entry ke Hk) as (c & ks & Hbs & He & Hd).
  assert (length (take n ct) = n) as Hln by (rewrite length_take; lia).
  destruct (Cts.decrypt_with_roundtrip ks (iv st) (take n ct)) as (data & Hdata & Hld & Henc);
    [done|done|unfold Cts.BLOCK; lia|].
  rewrite Hke, Hki, Hd, Hdata. rewrite Hle, <- Hli in Hk.
  destruct (cmac_camellia_ok ki data Hk) as (h & Hh & Hlh). rewrite Hh.
  destruct (mac_verify (drop n ct) h) as [[]|] eqn:Hv; [|done]. apply mac_verify_ok in Hv.
  destruct (Nat.ltb_spec (length data) 16) as [|H16]; [done|]. intros H. injection H as <- <-.
  exists (take 16 data). split; [rewrite length_take; lia|].
  unfold camellia_encrypt_with_conf. rewrite length_take, Nat.min_l by lia. cbn [negb Nat.eqb].
  rewrite Hke, Hki, take_drop, He, Henc, Hh, <- Hv. by rewrite take_drop.
Qed.

End Weak.
End Weak.
