(* ===== verification/Ops.v ===== *)
(** * String-to-key, encryption, checksums

    Models [krb5-crypto/src/ops.rs]: the operations the rest of the workspace
    calls.  The timing and logging wrappers ([emit]) have no effect on results
    and are left out, as is wiping; [getrandom] is an argument. *)

From S2P Require Import Prelude Etype Nfold Primitives Cts Derive Weak.

Module Ops.
Import Derive Weak.

Definition MAX_ITERATIONS : Z := 0x1000000.
Definition ENCTYPE_UNKNOWN : Z := 0x01ff.

(** Release builds: [weak_iterations()] is [false]. *)
Definition parse_iterations (e : EncryptionType) (params : option bytes) : result Error Z :=
  let? n :=
    match params with
    | None | Some [] => Ok (EType.default_iterations e)
    | Some p =>
        if negb (length p =? 4)%nat then Err BadS2kParams
        else
          let n := from_be_bytes p in
          if (n =? 0) || (n <? EType.default_iterations e) then Err BadS2kParams else Ok n
    end in
  if MAX_ITERATIONS <=? n then Err BadS2kParams else Ok n.

Inductive EncProv := PAes128 | PAes256 | PDes3 | PArcfour | PCamellia128 | PCamellia256.
#[global] Instance EncProv_eq_dec : EqDecision EncProv.
Proof. solve_decision. Defined.

Definition cksum_enc (ctype : Z) : option EncProv :=
  match ctype with
  | 15 | 19 => Some PAes128
  | 16 | 20 => Some PAes256
  | 12 => Some PDes3
  | -137 => Some PArcfour
  | 17 => Some PCamellia128
  | 18 => Some PCamellia256
  | _ => None
  end.

Definition key_enc (e : EncryptionType) : EncProv :=
  match e with
  | Aes128CtsHmacSha196 | Aes128CtsHmacSha256128 => PAes128
  | Aes256CtsHmacSha196 | Aes256CtsHmacSha384192 => PAes256
  | Des3CbcSha1 => PDes3
  | Rc4Hmac => PArcfour
  | Camellia128CtsCmac => PCamellia128
  | Camellia256CtsCmac => PCamellia256
  end.

Definition keyed_cksum_accepts_key (ctype : Z) (e : EncryptionType) : bool :=
  match cksum_enc ctype with
  | None => true
  | Some p => bool_decide (key_enc e = p)
  end.

Definition cksumtype_compute_etype (ctype : Z) : result Error EncryptionType :=
  match ctype with
  | 15 => Ok Aes128CtsHmacSha196
  | 16 => Ok Aes256CtsHmacSha196
  | 19 => Ok Aes128CtsHmacSha256128
  | 20 => Ok Aes256CtsHmacSha384192
  | 12 => Ok Des3CbcSha1
  | 17 => Ok Camellia128CtsCmac
  | 18 => Ok Camellia256CtsCmac
  | -137 => Ok Rc4Hmac
  | other => Err (UnsupportedChecksum other)
  end.

Definition checksum_output_size (cksumtype : Z) : option nat :=
  match cksumtype with
  | 2 | 7 | 17 | 18 | 19 | -137 | -138 => Some 16%nat
  | 9 | 12 | 14 => Some 20%nat
  | 15 | 16 => Some 12%nat
  | 20 => Some 24%nat
  | _ => None
  end.

Definition check_enc_data_etype (key : Key.ProtocolKey) (etype : Z) : result Error unit :=
  if negb (etype =? ENCTYPE_UNKNOWN) && negb (etype =? EType.to_iana (Key.etype key))
  then Err (BadEnctype etype) else Ok tt.

Section Ops.
Context {Prim : Primitives}.

Definition kerberos : bytes := String.list_byte_of_string "kerberos".

Definition string_to_key_inner (e : EncryptionType) (password salt : bytes) (params : option bytes)
    : result Error Key.ProtocolKey :=
  if decide (e = Rc4Hmac) then
    match params with
    | Some (_ :: _) => Err BadS2kParams
    | _ => rc4_string_to_key password
    end
  else if decide (e = Des3CbcSha1) then des3_string_to_key password salt
  else
    let? iter := parse_iterations e params in
    let key_len := EType.key_len e in
    if EType.is_rfc8009 e then
      let? name := ok_or (EType.enctype_name e) (UnsupportedEtype (EType.to_iana e)) in
      let saltp := name ++ [x00] ++ salt in
      let? tkey :=
        match e with
        | Aes128CtsHmacSha256128 => Ok (pbkdf2_hmac Sha256 password saltp iter key_len)
        | Aes256CtsHmacSha384192 => Ok (pbkdf2_hmac Sha384 password saltp iter key_len)
        | _ => Err (UnsupportedEtype (EType.to_iana e))
        end in
      let? base := kdf_hmac_sha2 e tkey kerberos None (bits_u32 key_len) in
      Key.from_bytes e base
    else if EType.is_camellia e then
      let? name := ok_or (EType.enctype_name e) (UnsupportedEtype (EType.to_iana e)) in
      let saltp := name ++ [x00] ++ salt in
      let? base := dk_camellia (pbkdf2_hmac Sha1 password saltp iter key_len) kerberos in
      Key.from_bytes e base
    else
      let? base := dk_rfc3961 (pbkdf2_hmac Sha1 password salt iter key_len) kerberos in
      Key.from_bytes e base.

(** [rng8] is the confounder triple DES draws for itself. *)
Definition encrypt_inner_state (rng8 : option bytes) (key : Key.ProtocolKey) (usage : Z)
    (confounder plaintext : bytes) (state : CipherState) : CipherState * result Error bytes :=
  let e := Key.etype key in
  match e with
  | Rc4Hmac => (state, rc4_encrypt_with_conf key usage (take 8 confounder) plaintext)
  | Des3CbcSha1 => (state, des3_encrypt rng8 key usage plaintext)
  | Camellia128CtsCmac | Camellia256CtsCmac =>
      camellia_encrypt_with_conf key usage confounder plaintext state
  | _ =>
    if negb (length confounder =? Cts.BLOCK)%nat then (state, Err InvalidConfounder)
    else
      match derive_usage_keys e (Key.as_bytes key) usage with
      | Err err => (state, Err err)
      | Ok keys =>
      let data := confounder ++ plaintext in
      match Cts.encrypt (ke keys) (iv state) data with
      | Err err => (state, Err err)
      | Ok c =>
      let hmac_input := if EType.is_rfc8009 e then iv state ++ c else data in
      match hmac_truncated e (ki keys) hmac_input with
      | Err err => (state, Err err)
      | Ok h => (update_iv state c, Ok (c ++ h))
      end end end
  end.

(** RFC 8009 checks the MAC before decrypting; RFC 3962 decrypts, advances the
    cipher state and then checks. *)
Definition decrypt_inner_state (key : Key.ProtocolKey) (usage : Z) (ciphertext : bytes)
    (state : CipherState) : CipherState * result Error bytes :=
  let e := Key.etype key in
  match e with
  | Rc4Hmac => (state, rc4_decrypt key usage ciphertext)
  | Des3CbcSha1 => (state, des3_decrypt key usage ciphertext)
  | Camellia128CtsCmac | Camellia256CtsCmac => camellia_decrypt key usage ciphertext state
  | _ =>
    let h := EType.hmac_output_len e in
    if (length ciphertext <? Cts.BLOCK + h)%nat then (state, Err CiphertextTooShort)
    else
      let c := take (length ciphertext - h) ciphertext in
      let mac := drop (length ciphertext - h) ciphertext in
      match derive_usage_keys e (Key.as_bytes key) usage with
      | Err err => (state, Err err)
      | Ok keys =>
      if EType.is_rfc8009 e then
        match (let? expected := hmac_truncated e (ki keys) (iv state ++ c) in
               mac_verify mac expected) with
        | Err err => (state, Err err)
        | Ok _ =>
        match Cts.decrypt (ke keys) (iv state) c with
        | Err err => (state, Err err)
        | Ok p =>
            if (length p <? Cts.BLOCK)%nat then (state, Err CiphertextTooShort)
            else (update_iv state c, Ok (drop Cts.BLOCK p))
        end end
      else
        match Cts.decrypt (ke keys) (iv state) c with
        | Err err => (state, Err err)
        | Ok p =>
        (update_iv state c,
         let? expected := hmac_truncated e (ki keys) p in
         if is_ok (mac_verify mac expected) then
           if (length p <? Cts.BLOCK)%nat then Err CiphertextTooShort else Ok (drop Cts.BLOCK p)
         else Err Integrity)
        end
      end
  end.

Definition encrypt_inner rng8 key usage confounder plaintext : result Error bytes :=
  snd (encrypt_inner_state rng8 key usage confounder plaintext initial).
Definition encrypt_with_confounder rng8 key usage confounder plaintext : result Error bytes :=
  encrypt_inner rng8 key usage confounder plaintext.

(** [rng] is the block [getrandom] fills, [rng8] the one triple DES draws. *)
Definition encrypt (rng rng8 : option bytes) (key : Key.ProtocolKey) (usage : Z) (plaintext : bytes)
    : result Error bytes :=
  let? conf := ok_or rng Rng in
  encrypt_with_confounder rng8 key usage conf plaintext.

Definition encrypt_with_state (rng rng8 : option bytes) key usage state plaintext
    : CipherState * result Error bytes :=
  match rng with
  | None => (state, Err Rng)
  | Some conf => encrypt_inner_state rng8 key usage conf plaintext state
  end.

Definition decrypt_inner key usage ciphertext : result Error bytes :=
  snd (decrypt_inner_state key usage ciphertext initial).
Definition decrypt key usage ciphertext : result Error bytes := decrypt_inner key usage ciphertext.

Definition decrypt_with_state key usage state ciphertext : CipherState * result Error bytes :=
  decrypt_inner_state key usage ciphertext state.

Definition decrypt_enc_data key usage etype ciphertext : result Error bytes :=
  let? _ := check_enc_data_etype key etype in
  decrypt key usage ciphertext.

Definition decrypt_enc_data_with_state key usage state etype ciphertext
    : CipherState * result Error bytes :=
  match check_enc_data_etype key etype with
  | Err e => (state, Err e)
  | Ok _ => decrypt_with_state key usage state ciphertext
  end.

Definition kdb_encrypt_key (rng rng8 : option bytes) (mkey : Key.ProtocolKey) (raw_key : bytes)
    : result Error bytes :=
  if U16_MAX <? blen raw_key then Err InvalidKeyLength
  else
    let? cipher := encrypt rng rng8 mkey 0 raw_key in
    Ok (to_le_bytes 2 (blen raw_key) ++ cipher).

Definition kdb_decrypt_key (mkey : Key.ProtocolKey) (ciphertext : bytes) : result Error bytes :=
  if (length ciphertext <? 2)%nat then Err CiphertextTooShort
  else
    let key_len := Z.to_nat (from_le_bytes (take 2 ciphertext)) in
    let? plain := decrypt mkey 0 (drop 2 ciphertext) in
    if (0x7fff <? Z.of_nat key_len) || (length plain <? key_len)%nat then Err InvalidKeyLength
    else Ok (take key_len plain).

Definition integrity_mac (key : Key.ProtocolKey) (usage : Z) (message : bytes)
    : result Error bytes :=
  if negb (EType.is_aes (Key.etype key)) then Err (UnsupportedEtype (EType.to_iana (Key.etype key)))
  else
    let? keys := derive_usage_keys (Key.etype key) (Key.as_bytes key) usage in
    hmac_truncated (Key.etype key) (ki keys) message.

Definition decrypt_cts (key : Key.ProtocolKey) (usage : Z) (cipher : bytes)
    : result Error (bytes * bytes) :=
  if negb (EType.is_aes (Key.etype key)) then Err (UnsupportedEtype (EType.to_iana (Key.etype key)))
  else if (length cipher <? Cts.BLOCK)%nat then Err CiphertextTooShort
  else
    let? keys := derive_usage_keys (Key.etype key) (Key.as_bytes key) usage in
    let? p := Cts.decrypt (ke keys) (iv initial) cipher in
    if (length p <? Cts.BLOCK)%nat then Err CiphertextTooShort
    else Ok (take Cts.BLOCK p, drop Cts.BLOCK p).

(** ** Checksums *)

Definition hmac_md5_simple (key data : bytes) : result Error bytes :=
  ok_or (hmac Md5 key data) InvalidKeyLength.

Definition hmac_md5_arcfour_checksum (key : bytes) (usage : Z) (message : bytes) (ctype : Z)
    : result Error bytes :=
  if (64 <? length key)%nat then Err InvalidKeyLength
  else
    let mapped := arcfour_translate_usage usage in
    let? mac_key := if ctype =? -137 then Ok key
                    else hmac_md5_simple key (String.list_byte_of_string "signaturekey" ++ [x00]) in
    let hashval := digest Md5 (to_le_bytes 4 mapped ++ message) in
    hmac_md5_simple mac_key hashval.

Definition checksum_inner (key : Key.ProtocolKey) (usage : Z) (message : bytes)
    : result Error bytes :=
  match Key.etype key with
  | Rc4Hmac => hmac_md5_arcfour_checksum (Key.as_bytes key) usage message (-138)
  | Des3CbcSha1 =>
      let? kc := dk_des3 (Key.as_bytes key) (KeyUsage.derivation_constant usage x99) in
      hmac_sha1_export kc message 20
  | Camellia128CtsCmac | Camellia256CtsCmac =>
      let? kc := dk_camellia (Key.as_bytes key) (KeyUsage.derivation_constant usage x99) in
      cmac_camellia kc message
  | e =>
      let? keys := derive_usage_keys e (Key.as_bytes key) usage in
      hmac_truncated e (kc keys) message
  end.

Definition checksum key usage message : result Error bytes := checksum_inner key usage message.

Definition unkeyed_checksum (cksumtype : Z) (message : bytes) : result Error bytes :=
  match cksumtype with
  | 2 => Ok (digest Md4 message)
  | 7 => Ok (digest Md5 message)
  | 9 | 14 => Ok (digest Sha1 message)
  | other => Err (UnsupportedChecksum other)
  end.

Definition keyed_checksum_for_type (key : Key.ProtocolKey) (usage : Z) (message : bytes) (ctype : Z)
    : result Error bytes :=
  match ctype with
  | -137 | -138 => hmac_md5_arcfour_checksum (Key.as_bytes key) usage message ctype
  | _ =>
      let? e := cksumtype_compute_etype ctype in
      let? tmp := Key.from_bytes e (Key.as_bytes key) in
      checksum_inner tmp usage message
  end.

Definition verify_checksum_type (key : Key.ProtocolKey) (usage : Z) (message : bytes)
    (cksumtype : Z) (mac : bytes) : result Error unit :=
  let ctype := if cksumtype =? 0 then EType.checksum_type (Key.etype key) else cksumtype in
  match checksum_output_size ctype with
  | None => Err (UnsupportedChecksum ctype)
  | Some want =>
      if cksumtype_is_unkeyed ctype then
        if negb (length mac =? want)%nat then Err BadChecksumSize
        else
          let? expected := unkeyed_checksum ctype message in
          mac_verify mac expected
      else if negb (cksumtype_is_keyed ctype) then Err (UnsupportedChecksum ctype)
      else if negb (keyed_cksum_accepts_key ctype (Key.etype key)) then Err (UnsupportedChecksum ctype)
      else if negb (length mac =? want)%nat then Err BadChecksumSize
      else
        let? expected := keyed_checksum_for_type key usage message ctype in
        mac_verify mac expected
  end.

Definition verify_checksum_keyed key usage message (cksumtype : Z) mac : result Error unit :=
  if negb (cksumtype_is_keyed cksumtype) then Err InappChecksum
  else verify_checksum_type key usage message cksumtype mac.

Definition verify_checksum_collproof key usage message (cksumtype : Z) mac : result Error unit :=
  if negb (cksumtype_is_known cksumtype) then Err (UnsupportedChecksum cksumtype)
  else if negb (cksumtype_is_coll_proof cksumtype) || negb (cksumtype_is_keyed cksumtype)
  then Err InappChecksum
  else verify_checksum_type key usage message cksumtype mac.

(** ** Proofs *)

(** A key that can encrypt under a usage: of its enctype's length, and for
    triple DES with usable key schedules. *)
Definition key_usable (key : Key.ProtocolKey) (usage : Z) : Prop :=
  Key.wf key /\ (Key.etype key = Des3CbcSha1 -> des3_usable (Key.as_bytes key) usage).

(** What a plaintext decrypts to: itself, zero-padded to the block for triple
    DES, whose ciphertext does not carry the plaintext's length. *)
Definition padded (e : EncryptionType) (p : bytes) : bytes :=
  match e with Des3CbcSha1 => p ++ replicate (des3_pad (length p)) x00 | _ => p end.

Context {Laws : PrimitiveLaws}.

(** Key derivation is used through its lemmas only. *)
#[local] Opaque derive_usage_keys dk_des3 dk_camellia.

Lemma aes_keys key usage :
  Key.wf key -> EType.is_aes (Key.etype key) = true ->
  exists d c (ks : KeySched c),
    derive_usage_keys (Key.etype key) (Key.as_bytes key) usage = Ok d /\
    bc_block_size c = Cts.BLOCK /\
    (forall iv p, Cts.encrypt (ke d) iv p = Cts.encrypt_with ks iv p) /\
    (forall iv p, Cts.decrypt (ke d) iv p = Cts.decrypt_with ks iv p).
Proof.
  intros Hwf Ha.
  destruct (derive_usage_keys_ok (Key.etype key) (Key.as_bytes key) usage) as (d & Hd & Hke & _).
  { split; [done|]. intros E. by rewrite E in Ha. }
  destruct (Cts.aes_entry (ke d)) as (c & ks & Hc & He & Hdec).
  { rewrite Hke. clear Hd. revert Ha. destruct (Key.etype key); cbn; auto; done. }
  exists d, c, ks. by split_and!.
Qed.

(** The AES cases of the two functions. *)
Lemma encrypt_aes_unfold rng8 key usage conf p st :
  EType.is_aes (Key.etype key) = true ->
  encrypt_inner_state rng8 key usage conf p st =
    if negb (length conf =? Cts.BLOCK)%nat then (st, Err InvalidConfounder)
    else
      match derive_usage_keys (Key.etype key) (Key.as_bytes key) usage with
      | Err err => (st, Err err)
      | Ok keys =>
      match Cts.encrypt (ke keys) (iv st) (conf ++ p) with
      | Err err => (st, Err err)
      | Ok c =>
      match hmac_truncated (Key.etype key) (ki keys)
              (if EType.is_rfc8009 (Key.etype key) then iv st ++ c else conf ++ p) with
      | Err err => (st, Err err)
      | Ok h => (update_iv st c, Ok (c ++ h))
      end end end.
Proof. unfold encrypt_inner_state. destruct (Key.etype key); cbn [EType.is_aes]; done. Qed.

Lemma decrypt_aes_ok key usage c mac h d st data :
  EType.is_aes (Key.etype key) = true ->
  length mac = EType.hmac_output_len (Key.etype key) -> (Cts.BLOCK <= length c)%nat ->
  derive_usage_keys (Key.etype key) (Key.as_bytes key) usage = Ok d ->
  Cts.decrypt (ke d) (iv st) c = Ok data -> length data = length c ->
  hmac_truncated (Key.etype key) (ki d)
    (if EType.is_rfc8009 (Key.etype key) then iv st ++ c else data) = Ok h ->
  decrypt_inner_state key usage (c ++ mac) st =
    if decide (mac = h) then (update_iv st c, Ok (drop Cts.BLOCK data))
    else (if EType.is_rfc8009 (Key.etype key) then st else update_iv st c, Err Integrity).
Proof.
  intros Ha Hm Hc Hd Hdec Hl Hh. unfold decrypt_inner_state. revert Ha Hm Hd Hh.
  destruct (decide (mac = h)) as [<-|Hne].
  - pose proof (mac_verify_refl mac) as Hv.
    destruct (Key.etype key); intros Ha Hm Hd Hh; cbn [EType.is_aes] in Ha; try discriminate Ha;
      (rewrite (proj2 (Nat.ltb_ge _ _)) by (rewrite length_app; lia);
       rewrite <- Hm; replace (length (c ++ mac) - length mac)%nat with (length c)
         by (rewrite length_app; lia);
       rewrite take_app_length, drop_app_length, Hd; cbn [EType.is_rfc8009] in *;
       rewrite ?Hdec, Hh, ?Hv, ?Hdec;
       rewrite (proj2 (Nat.ltb_ge _ _)) by lia; done).
  - assert (mac_verify mac h = Err Integrity) as Hv.
    { unfold mac_verify. rewrite bool_decide_eq_false_2 by done. by rewrite orb_true_r. }
    destruct (Key.etype key); intros Ha Hm Hd Hh; cbn [EType.is_aes] in Ha; try discriminate Ha;
      (rewrite (proj2 (Nat.ltb_ge _ _)) by (rewrite length_app; lia);
       rewrite <- Hm; replace (length (c ++ mac) - length mac)%nat with (length c)
         by (rewrite length_app; lia);
       rewrite take_app_length, drop_app_length, Hd; cbn [EType.is_rfc8009] in *;
       rewrite ?Hdec, Hh, ?Hv, ?Hdec; done).
Qed.

Lemma aes_roundtrip rng8 key usage conf p st :
  Key.wf key -> EType.is_aes (Key.etype key) = true ->
  length conf = Cts.BLOCK -> length (iv st) = Cts.BLOCK ->
  exists ct st', encrypt_inner_state rng8 key usage conf p st = (st', Ok ct) /\
    decrypt_inner_state key usage ct st = (st', Ok p).
Proof.
  intros Hwf Ha Hc Hiv. rewrite encrypt_aes_unfold, Hc by done.
  destruct (aes_keys key usage Hwf Ha) as (d & c & ks & Hd & Hbs & He & Hdec).
  destruct (Cts.encrypt_with_roundtrip ks (iv st) (conf ++ p)) as (ct & Hct & Hl & Hr);
    [done|done|rewrite length_app; lia|].
  rewrite Hd, He, Hct. cbn [negb Nat.eqb Cts.BLOCK].
  destruct (hmac_truncated_ok (Key.etype key) (ki d)
    (if EType.is_rfc8009 (Key.etype key) then iv st ++ ct else conf ++ p)) as (h & Hh & Hlh); [done|].
  rewrite Hh. eexists _, _. split; [done|].
  rewrite (decrypt_aes_ok key usage ct h h d st (conf ++ p)); try done.
  - rewrite decide_True by done. by rewrite drop_app_length'.
  - rewrite Hl, length_app. lia.
  - by rewrite Hdec.
Qed.

Lemma aes_authentic key usage ct st st' p :
  Key.wf key -> EType.is_aes (Key.etype key) = true -> length (iv st) = Cts.BLOCK ->
  decrypt_inner_state key usage ct st = (st', Ok p) ->
  exists conf, length conf = Cts.BLOCK /\
    forall rng8, encrypt_inner_state rng8 key usage conf p st = (st', Ok ct).
Proof.
  intros Hwf Ha Hiv Hok.
  destruct (Nat.ltb_spec (length ct) (Cts.BLOCK + EType.hmac_output_len (Key.etype key))) as [Hs|Hl].
  { exfalso. apply Nat.ltb_lt in Hs. revert Hok. unfold decrypt_inner_state. revert Ha Hs.
    destruct (Key.etype key); intros Ha Hs; cbn [EType.is_aes] in Ha; try discriminate Ha;
      rewrite Hs; discriminate. }
  set (n := (length ct - EType.hmac_output_len (Key.etype key))%nat) in *.
  assert (length (take n ct) = n) as Hn by (rewrite length_take; lia).
  destruct (aes_keys key usage Hwf Ha) as (d & c & ks & Hd & Hbs & He & Hdec).
  destruct (Cts.decrypt_with_roundtrip ks (iv st) (take n ct)) as (data & Hdata & Hld & Henc);
    [done|done|lia|].
  destruct (hmac_truncated_ok (Key.etype key) (ki d)
    (if EType.is_rfc8009 (Key.etype key) then iv st ++ take n ct else data)) as (h & Hh & Hlh); [done|].
  rewrite <- (take_drop n ct) in Hok.
  rewrite (decrypt_aes_ok key usage _ _ h d st data) in Hok; try done.
  2: { rewrite length_drop. lia. } 2: lia. 2: by rewrite Hdec.
  destruct (decide (drop n ct = h)) as [Hmac|]; [|discriminate]. injection Hok as <- <-.
  exists (take Cts.BLOCK data). split; [rewrite length_take; lia|]. intros rng8.
  rewrite encrypt_aes_unfold, length_take, Nat.min_l, take_drop by (done || lia).
  rewrite Hd, He, Henc, Hh, <- Hmac. cbn [negb Nat.eqb Cts.BLOCK]. by rewrite take_drop.
Qed.

Lemma camellia_len key :
  Key.wf key -> EType.is_camellia (Key.etype key) = true ->
  length (Key.as_bytes key) = 16%nat \/ length (Key.as_bytes key) = 32%nat.
Proof. unfold Key.wf. intros -> H. destruct (Key.etype key); cbn in *; auto; done. Qed.

(** Every enctype is AES, Camellia, RC4 or triple DES. *)
Lemma etype_cases e :
  EType.is_aes e = true \/ EType.is_camellia e = true \/ e = Rc4Hmac \/ e = Des3CbcSha1.
Proof. destruct e; cbn; auto. Qed.

Lemma encrypt_roundtrip_state key usage conf conf8 p st :
  key_usable key usage -> length conf = Cts.BLOCK -> length conf8 = 8%nat ->
  length (iv st) = Cts.BLOCK ->
  exists ct st', encrypt_inner_state (Some conf8) key usage conf p st = (st', Ok ct) /\
    decrypt_inner_state key usage ct st = (st', Ok (padded (Key.etype key) p)).
Proof.
  intros [Hwf H3] Hc Hc8 Hiv. destruct (etype_cases (Key.etype key)) as [Ha|[Hcam|[Hr|Hd]]].
  - destruct (aes_roundtrip (Some conf8) key usage conf p st) as (ct & st' & He & Hd); [done..|].
    exists ct, st'. split; [done|]. rewrite Hd. unfold padded. by destruct (Key.etype key).
  - destruct (camellia_roundtrip key usage conf p st (camellia_len key Hwf Hcam)) as
      (ct & st' & He & _ & Hd); [done..|].
    exists ct, st'. unfold encrypt_inner_state, decrypt_inner_state, padded.
    revert Hcam. destruct (Key.etype key); intros Hcam; cbn [EType.is_camellia] in Hcam;
      try discriminate Hcam; done.
  - destruct (rc4_roundtrip key usage (take 8 conf) p) as (ct & He & _ & Hd).
    { rewrite length_take, Hc. done. }
    exists ct, st. unfold encrypt_inner_state, decrypt_inner_state. rewrite Hr, He, Hd. done.
  - destruct (des3_roundtrip key usage conf8 p (H3 Hd) Hc8) as (ct & He & _ & Hdec).
    exists ct, st. unfold encrypt_inner_state, decrypt_inner_state. rewrite Hd, He, Hdec.
    split; reflexivity.
Qed.

(** What encryption adds is at most 64 bytes. *)
Lemma aes_length rng8 key usage conf p st ct st' :
  Key.wf key -> EType.is_aes (Key.etype key) = true -> length conf = Cts.BLOCK -> length (iv st) = Cts.BLOCK ->
  encrypt_inner_state rng8 key usage conf p st = (st', Ok ct) -> (length ct <= length p + 64)%nat.
Proof.
  intros Hwf Ha Hc Hiv. rewrite encrypt_aes_unfold, Hc by done.
  destruct (aes_keys key usage Hwf Ha) as (d & c & ks & Hd & Hbs & He & Hdec).
  destruct (Cts.encrypt_with_roundtrip ks (iv st) (conf ++ p)) as (ct' & Hct & Hl & Hr);
    [done|done|rewrite length_app; lia|].
  rewrite Hd, He, Hct. cbn [negb Nat.eqb Cts.BLOCK].
  destruct (hmac_truncated_ok (Key.etype key) (ki d)
    (if EType.is_rfc8009 (Key.etype key) then iv st ++ ct' else conf ++ p)) as (h & Hh & Hlh); [done|].
  rewrite Hh. intros [= _ <-]. rewrite length_app, Hl, Hlh, length_app, Hc. unfold Cts.BLOCK.
  assert (EType.hmac_output_len (Key.etype key) <= 24)%nat by (destruct (Key.etype key); cbn; lia). lia.
Qed.

Lemma encrypt_length key usage conf conf8 p st ct st' :
  key_usable key usage -> length conf = Cts.BLOCK -> length conf8 = 8%nat -> length (iv st) = Cts.BLOCK ->
  encrypt_inner_state (Some conf8) key usage conf p st = (st', Ok ct) -> (length ct <= length p + 64)%nat.
Proof.
  intros [Hwf H3] Hc Hc8 Hiv. destruct (etype_cases (Key.etype key)) as [Ha|[Hcam|[Hr|Hd]]].
  - by apply aes_length.
  - destruct (camellia_roundtrip key usage conf p st (camellia_len key Hwf Hcam)) as (ct' & st2 & He & Hl & _); [done..|].
    unfold encrypt_inner_state. revert Hcam. destruct (Key.etype key); intros Hcam; cbn [EType.is_camellia] in Hcam;
      try discriminate Hcam; rewrite He; intros [= _ <-]; lia.
  - destruct (rc4_roundtrip key usage (take 8 conf) p) as (ct' & He & Hl & _).
    { rewrite length_take, Hc. done. }
    unfold encrypt_inner_state. rewrite Hr, He. intros [= _ <-]. lia.
  - destruct (des3_roundtrip key usage conf8 p (H3 Hd) Hc8) as (ct' & He & Hl & _).
    unfold encrypt_inner_state. rewrite Hd, He. intros [= _ <-]. assert (des3_pad (length p) <= 8)%nat; [|lia].
    unfold des3_pad. pose proof (Nat.mod_upper_bound (8 - length p mod 8) 8 ltac:(done)). lia.
Qed.

(** C3: encryption round trip for every enctype, with the cipher state: for a
    usable key, [encrypt_inner_state] succeeds, and decrypting the result from
    the same state succeeds, returns the plaintext (zero-padded to the block for
    triple DES) and leaves both sides in the same state. *)
Theorem encrypt_decrypt key usage conf conf8 p st :
  key_usable key usage -> length conf = Cts.BLOCK -> length conf8 = 8%nat ->
  length (iv st) = Cts.BLOCK ->
  exists ct st', encrypt_inner_state (Some conf8) key usage conf p st = (st', Ok ct) /\
    decrypt_inner_state key usage ct st = (st', Ok (padded (Key.etype key) p)).
Proof. apply encrypt_roundtrip_state. Qed.

(** What [encrypt] has produced decrypts: the key is the one condition. *)
Lemma encrypted_opens rng rng8 key usage p ct :
  Key.wf key -> (forall b, rng = Some b -> length b = Cts.BLOCK) -> (forall b, rng8 = Some b -> length b = 8%nat) ->
  encrypt rng rng8 key usage p = Ok ct -> decrypt key usage ct = Ok (padded (Key.etype key) p).
Proof.
  intros Hwf H16 H8. unfold encrypt, encrypt_with_confounder, encrypt_inner, decrypt, decrypt_inner.
  destruct rng as [conf|]; [|discriminate]. cbn [ok_or]. specialize (H16 conf eq_refl).
  assert (exists c8, length c8 = 8%nat /\ (rng8 = Some c8 \/ rng8 = None)) as (c8 & Hc8 & Hd).
  { destruct rng8 as [c8|]; [exists c8|exists (replicate 8 x00)]; auto. }
  assert (forall q, Key.etype key <> Des3CbcSha1 -> encrypt_inner_state rng8 key usage conf p q =
    encrypt_inner_state (Some c8) key usage conf p q) as Hother.
  { intros q Hne. unfold encrypt_inner_state. destruct (Key.etype key); try reflexivity. by elim Hne. }
  destruct (decide (Key.etype key = Des3CbcSha1)) as [E3|E3]; intros E.
  - assert (rng8 = Some c8 /\ des3_usable (Key.as_bytes key) usage) as [-> Hu].
    { unfold encrypt_inner_state in E. rewrite E3 in E. cbn [snd] in E. pose proof (des3_encrypt_usable _ _ _ _ _ E).
      split; [|assumption]. destruct Hd as [->| ->]; [reflexivity|discriminate]. }
    destruct (encrypt_roundtrip_state key usage conf c8 p initial) as (ct' & st' & He & Hdec);
      [by split|assumption|assumption|reflexivity|].
    rewrite He in E. injection E as <-. by rewrite Hdec.
  - rewrite (Hother _ E3) in E.
    destruct (encrypt_roundtrip_state key usage conf c8 p initial) as (ct' & st' & He & Hdec);
      [by split|assumption|assumption|reflexivity|].
    rewrite He in E. injection E as <-. by rewrite Hdec.
Qed.

Lemma decrypt_authentic_state key usage ct p st st' :
  Key.wf key -> length (iv st) = Cts.BLOCK ->
  decrypt_inner_state key usage ct st = (st', Ok p) ->
  exists conf conf8, length conf = Cts.BLOCK /\ length conf8 = 8%nat /\
    encrypt_inner_state (Some conf8) key usage conf p st = (st', Ok ct).
Proof.
  intros Hwf Hiv Hok. destruct (etype_cases (Key.etype key)) as [Ha|[Hcam|[Hr|Hd]]].
  - destruct (aes_authentic key usage ct st st' p) as (conf & Hc & He); [done..|].
    exists conf, (replicate 8 x00). by split_and!.
  - destruct (camellia_authentic key usage ct st st' p (camellia_len key Hwf Hcam) Hiv) as (conf & Hc & He).
    { revert Hok. unfold decrypt_inner_state. revert Hcam.
      destruct (Key.etype key); intros Hcam; cbn [EType.is_camellia] in Hcam; try discriminate Hcam; done. }
    exists conf, (replicate 8 x00). split_and!; [done|done|]. unfold encrypt_inner_state.
    revert Hcam. destruct (Key.etype key); intros Hcam; cbn [EType.is_camellia] in Hcam;
      try discriminate Hcam; done.
  - unfold decrypt_inner_state in Hok. rewrite Hr in Hok. injection Hok as <- Hok.
    apply rc4_authentic in Hok as (conf & Hc & He).
    exists (conf ++ replicate 8 x00), (replicate 8 x00). unfold encrypt_inner_state.
    rewrite Hr, take_app_length', He by done. by rewrite length_app, Hc.
  - unfold decrypt_inner_state in Hok. rewrite Hd in Hok. injection Hok as <- Hok.
    apply des3_authentic in Hok as (conf & Hc & He).
    exists (replicate 16 x00), conf. unfold encrypt_inner_state. rewrite Hd, He.
    split_and!; reflexivity || done.
Qed.

(** C4: decryption is authenticated: what [decrypt_inner_state] accepts under any
    enctype is an encryption, under the same key, usage and state, of exactly
    the plaintext it returns.  No other ciphertext is accepted. *)
Theorem decrypt_authentic key usage ct p st st' :
  Key.wf key -> length (iv st) = Cts.BLOCK ->
  decrypt_inner_state key usage ct st = (st', Ok p) ->
  exists conf conf8, length conf = Cts.BLOCK /\ length conf8 = 8%nat /\
    encrypt_inner_state (Some conf8) key usage conf p st = (st', Ok ct).
Proof. apply decrypt_authentic_state. Qed.

Lemma kdb_wrap_unwrap mkey conf conf8 raw :
  key_usable mkey 0 -> length conf = Cts.BLOCK -> length conf8 = 8%nat ->
  blen raw <= 0x7fff ->
  exists blob, kdb_encrypt_key (Some conf) (Some conf8) mkey raw = Ok blob /\
    kdb_decrypt_key mkey blob = Ok raw.
Proof.
  intros Hk Hc Hc8 Hl. unfold kdb_encrypt_key.
  rewrite (proj2 (Z.ltb_ge _ _)) by (unfold U16_MAX; lia).
  destruct (encrypt_roundtrip_state mkey 0 conf conf8 raw initial) as (ct & st' & He & Hd); [done..|].
  unfold encrypt, encrypt_with_confounder, encrypt_inner. cbn [ok_or]. rewrite He. cbn [snd].
  eexists. split; [done|]. unfold kdb_decrypt_key, decrypt, decrypt_inner.
  rewrite (proj2 (Nat.ltb_ge _ _)) by (rewrite length_app, length_to_le_bytes; lia).
  rewrite take_app_length', drop_app_length' by (by rewrite length_to_le_bytes).
  rewrite from_to_le_bytes by (unfold blen in *; cbn; lia). rewrite Hd. cbn [snd].
  assert (exists z, padded (Key.etype mkey) raw = raw ++ z) as [z ->].
  { unfold padded. destruct (Key.etype mkey); eauto; exists []; by rewrite app_nil_r. }
  unfold blen in *. rewrite (proj2 (Z.ltb_ge _ _)), (proj2 (Nat.ltb_ge _ _)) by (rewrite ?length_app; lia).
  cbn [orb]. by rewrite take_app_length' by lia.
Qed.

Lemma kdb_wrap_length mkey conf conf8 raw blob :
  key_usable mkey 0 -> length conf = Cts.BLOCK -> length conf8 = 8%nat ->
  kdb_encrypt_key (Some conf) (Some conf8) mkey raw = Ok blob -> (length blob <= length raw + 66)%nat.
Proof.
  intros Hk Hc Hc8. unfold kdb_encrypt_key. destruct (U16_MAX <? blen raw); [done|].
  unfold encrypt, encrypt_with_confounder, encrypt_inner. cbn [ok_or].
  destruct (encrypt_inner_state (Some conf8) mkey 0 conf raw initial) as [st r] eqn:E. cbn [snd].
  destruct r as [ct|]; [|done]. intros H.
  assert (length blob = 2 + length ct)%nat as ->.
  { transitivity (length (to_le_bytes 2 (blen raw) ++ ct)); [congruence|]. by rewrite length_app, length_to_le_bytes. }
  apply encrypt_length in E; [lia|done..].
Qed.

(** key wrapping under the master key round trips through the stored form
    for every key of at most 0x7fff bytes: [kdb_decrypt_key] cuts the padding
    off again, so also for triple DES. *)
Theorem kdb_key_roundtrip mkey conf conf8 raw :
  key_usable mkey 0 -> length conf = Cts.BLOCK -> length conf8 = 8%nat ->
  blen raw <= 0x7fff ->
  exists blob, kdb_encrypt_key (Some conf) (Some conf8) mkey raw = Ok blob /\
    kdb_decrypt_key mkey blob = Ok raw.
Proof. apply kdb_wrap_unwrap. Qed.

Lemma checksum_inner_ok key usage msg :
  Key.wf key ->
  (Key.etype key = Des3CbcSha1 -> is_ok (des3_key_sched (Key.as_bytes key)) = true) ->
  exists mac, checksum_inner key usage msg = Ok mac /\
    checksum_output_size (EType.checksum_type (Key.etype key)) = Some (length mac).
Proof.
  intros Hwf H3. destruct (etype_cases (Key.etype key)) as [Ha|[Hcam|[Hr|Hd]]].
  - destruct (derive_usage_keys_ok (Key.etype key) (Key.as_bytes key) usage) as (d & Hd & _); [done|].
    destruct (hmac_truncated_ok (Key.etype key) (kc d) msg Ha) as (h & Hh & Hl).
    exists h. rewrite Hl. unfold checksum_inner. clear H3 Hwf Hl. revert Ha Hd Hh.
    destruct (Key.etype key); intros Ha Hd Hh; cbn [EType.is_aes] in Ha; try discriminate Ha;
      rewrite Hd, Hh; split; reflexivity.
  - destruct (dk_camellia_ok _ (KeyUsage.derivation_constant usage x99) (camellia_len key Hwf Hcam))
      as (k & Hk & Hl). pose proof (camellia_len key Hwf Hcam) as Hb. rewrite <- Hl in Hb.
    destruct (cmac_camellia_ok k msg Hb) as (m & Hm & Hlm). exists m. rewrite Hlm.
    unfold checksum_inner. revert Hcam. destruct (Key.etype key); intros Hcam;
      cbn [EType.is_camellia] in Hcam; try discriminate Hcam; rewrite Hk, Hm; split; reflexivity.
  - unfold checksum_inner, hmac_md5_arcfour_checksum, hmac_md5_simple. rewrite Hr.
    assert (length (Key.as_bytes key) = 16%nat) as -> by (by rewrite Hwf, Hr).
    cbn [Nat.ltb Nat.leb Z.eqb Pos.eqb].
    destruct (hmac_some Md5 (Key.as_bytes key) (String.list_byte_of_string "signaturekey" ++ [x00]))
      as (k & -> & _). cbn [ok_or].
    destruct (hmac_some Md5 k (digest Md5 (to_le_bytes 4 (arcfour_translate_usage usage) ++ msg)))
      as (m & -> & Hlm). exists m. rewrite Hlm. split; reflexivity.
  - destruct (dk_des3_ok (Key.as_bytes key) (KeyUsage.derivation_constant usage x99)) as (k & Hk & _);
      [by apply H3|apply constant_not_nil|].
    destruct (hmac_sha1_trunc_ok k msg) as (m & Hm & Hlm). exists m. rewrite Hlm.
    unfold checksum_inner, hmac_sha1_export. rewrite Hd, Hk, Hm. split; reflexivity.
Qed.

(** Recomputing by the key's own checksum type is [checksum_inner]. *)
Lemma keyed_checksum_own key usage msg :
  Key.wf key ->
  keyed_checksum_for_type key usage msg (EType.checksum_type (Key.etype key))
  = checksum_inner key usage msg.
Proof.
  intros Hwf. pose proof (Key.from_bytes_of_key key Hwf) as Hf.
  unfold keyed_checksum_for_type. revert Hf. clear Hwf.
  destruct (Key.etype key) eqn:He; cbn -[Key.from_bytes checksum_inner hmac_md5_arcfour_checksum];
    intros Hf; rewrite ?Hf; try reflexivity.
  unfold checksum_inner. by rewrite He.
Qed.

Lemma verify_own key usage msg mac :
  Key.wf key ->
  verify_checksum_type key usage msg (EType.checksum_type (Key.etype key)) mac =
  match checksum_output_size (EType.checksum_type (Key.etype key)) with
  | None => Err (UnsupportedChecksum (EType.checksum_type (Key.etype key)))
  | Some want =>
      if negb (length mac =? want)%nat then Err BadChecksumSize
      else let? expected := checksum_inner key usage msg in mac_verify mac expected
  end.
Proof.
  intros Hwf. rewrite <- keyed_checksum_own by done. unfold verify_checksum_type.
  destruct (Key.etype key); reflexivity.
Qed.

(** A checksum that was made has the registered size and verifies: the key is the
    one condition. *)
Lemma checksum_made key usage msg mac :
  Key.wf key -> checksum key usage msg = Ok mac ->
  checksum_output_size (EType.checksum_type (Key.etype key)) = Some (length mac) /\
  verify_checksum_type key usage msg (EType.checksum_type (Key.etype key)) mac = Ok tt.
Proof.
  unfold checksum. intros Hwf E.
  assert (Key.etype key = Des3CbcSha1 -> is_ok (des3_key_sched (Key.as_bytes key)) = true) as H3.
  { intros E3. unfold checksum_inner in E. rewrite E3 in E.
    destruct (dk_des3 (Key.as_bytes key) (KeyUsage.derivation_constant usage x99)) as [d|] eqn:Ed; [|discriminate].
    exact (dk_des3_usable _ _ _ Ed). }
  destruct (checksum_inner_ok key usage msg Hwf H3) as (mac' & Hm & Hs). rewrite Hm in E. injection E as <-.
  split; [exact Hs|]. rewrite verify_own, Hs, Nat.eqb_refl, Hm by done. apply mac_verify_refl.
Qed.

(** the checksum an enctype computes is the one it verifies: for every key
    [checksum] succeeds with a MAC of the registered size, and
    [verify_checksum_keyed] under the key's checksum type (or type 0, for
    [verify_checksum_type]) accepts that MAC and no other. *)
Theorem checksum_verify key usage msg :
  Key.wf key ->
  (Key.etype key = Des3CbcSha1 -> is_ok (des3_key_sched (Key.as_bytes key)) = true) ->
  exists mac, checksum key usage msg = Ok mac /\
    checksum_output_size (EType.checksum_type (Key.etype key)) = Some (length mac) /\
    forall mac',
      (verify_checksum_keyed key usage msg (EType.checksum_type (Key.etype key)) mac' = Ok tt
       <-> mac' = mac) /\
      (verify_checksum_type key usage msg 0 mac' = Ok tt <-> mac' = mac).
Proof.
  intros Hwf H3. destruct (checksum_inner_ok key usage msg Hwf H3) as (mac & Hm & Hs).
  exists mac. split_and!; [done|done|]. intros mac'.
  assert (verify_checksum_type key usage msg 0 mac'
    = verify_checksum_type key usage msg (EType.checksum_type (Key.etype key)) mac') as H0
    by (unfold verify_checksum_type; destruct (Key.etype key); reflexivity).
  assert (cksumtype_is_keyed (EType.checksum_type (Key.etype key)) = true) as Hk
    by (destruct (Key.etype key); reflexivity).
  unfold verify_checksum_keyed. rewrite Hk. cbn [negb].
  rewrite H0, verify_own, Hs, Hm by done.
  assert ((if negb (length mac' =? length mac)%nat then Err BadChecksumSize else mac_verify mac' mac)
    = Ok tt <-> mac' = mac) as Hiff.
  { rewrite <- mac_verify_ok. destruct (Nat.eqb_spec (length mac') (length mac)); [done|].
    split; [done|]. intros Hv. apply mac_verify_ok in Hv. congruence. }
  by split.
Qed.

(** *** String-to-key *)

Lemma parse_iterations_spec e params :
  match parse_iterations e params with
  | Ok n => EType.default_iterations e <= n < MAX_ITERATIONS
  | Err err => err = BadS2kParams
  end.
Proof.
  assert (EType.default_iterations e < MAX_ITERATIONS) as Hd by (destruct e; reflexivity).
  unfold parse_iterations.
  destruct params as [[|b p]|]; [|destruct (negb _); [done|]; destruct (_ || _) eqn:E; [done|]|];
    (destruct (MAX_ITERATIONS <=? _) eqn:E'; to_prop; [reflexivity|lia]).
Qed.

Lemma from_bytes_key e base :
  length base = EType.key_len e ->
  exists key, Key.from_bytes e base = Ok key /\ Key.wf key /\ Key.etype key = e.
Proof. intros H. exists (Key.mk e base). split; [by apply Key.from_bytes_ok|done]. Qed.

Lemma rc4_string_to_key_ok password :
  exists key, rc4_string_to_key password = Ok key /\ Key.wf key /\ Key.etype key = Rc4Hmac.
Proof. unfold rc4_string_to_key. apply from_bytes_key, length_digest. Qed.

(** The PBKDF2 enctypes: with an accepted iteration count they always succeed. *)
Lemma pbkdf2_string_to_key_ok e password salt params n :
  e <> Des3CbcSha1 -> e <> Rc4Hmac -> parse_iterations e params = Ok n ->
  exists key, string_to_key_inner e password salt params = Ok key /\ Key.wf key /\ Key.etype key = e.
Proof.
  intros H3 Hr Hp. unfold string_to_key_inner.
  rewrite !decide_False, Hp by done. clear Hp.
  destruct (etype_cases e) as [Ha|[Hc|[?|?]]]; [| |done|done].
  - destruct (EType.is_rfc8009 e) eqn:E8.
    + assert (exists name d tkey, EType.enctype_name e = Some name /\ tkey = pbkdf2_hmac d password (name ++ [x00] ++ salt) n (EType.key_len e) /\
        match e with
        | Aes128CtsHmacSha256128 => Ok (pbkdf2_hmac Sha256 password (name ++ [x00] ++ salt) n (EType.key_len e))
        | Aes256CtsHmacSha384192 => Ok (pbkdf2_hmac Sha384 password (name ++ [x00] ++ salt) n (EType.key_len e))
        | _ => Err (UnsupportedEtype (EType.to_iana e))
        end = Ok tkey) as (name & d & tkey & -> & _ & Ht).
      { destruct e; try discriminate E8; eexists _, _, _; split_and!; reflexivity. }
      cbn [ok_or]. rewrite Ht.
      destruct (kdf_hmac_sha2_ok e tkey kerberos None (EType.key_len e) E8) as (b & -> & Hb); [by right|].
      by apply from_bytes_key.
    + assert (EType.is_camellia e = false) as -> by (by destruct e).
      destruct (dk_rfc3961_ok (pbkdf2_hmac Sha1 password salt n (EType.key_len e)) kerberos) as (b & -> & Hb);
        [rewrite length_pbkdf2; destruct e; cbn in *; auto; done|done|].
      rewrite length_pbkdf2 in Hb. by apply from_bytes_key.
  - assert (EType.is_rfc8009 e = false) as -> by (by destruct e). rewrite Hc.
    destruct (EType.enctype_name e) as [name|] eqn:En; [|by destruct e]. cbn [ok_or].
    destruct (dk_camellia_ok (pbkdf2_hmac Sha1 password (name ++ [x00] ++ salt) n (EType.key_len e)) kerberos)
      as (b & -> & Hb); [rewrite length_pbkdf2; destruct e; cbn in *; auto; done|].
    rewrite length_pbkdf2 in Hb. by apply from_bytes_key.
Qed.

(** string-to-key succeeds exactly when its parameters are acceptable, for
    every enctype but triple DES, and then with a well-formed key of the
    requested enctype; an accepted iteration count is at least the enctype's
    default and below 0x1000000, so the work done is bounded. *)
Theorem string_to_key_ok e password salt params :
  e <> Des3CbcSha1 ->
  (forall n, parse_iterations e params = Ok n ->
     EType.default_iterations e <= n < MAX_ITERATIONS) /\
  match string_to_key_inner e password salt params with
  | Ok key => Key.wf key /\ Key.etype key = e
  | Err err =>
      err = BadS2kParams /\
      (if decide (e = Rc4Hmac) then params <> None /\ params <> Some []
       else parse_iterations e params = Err BadS2kParams)
  end.
Proof.
  intros H3. pose proof (parse_iterations_spec e params) as Hspec. split.
  { intros n Hn. by rewrite Hn in Hspec. }
  destruct (decide (e = Rc4Hmac)) as [->|Hr].
  { unfold string_to_key_inner. rewrite decide_True by done.
    destruct (rc4_string_to_key_ok password) as (key & -> & Hk).
    destruct params as [[|b p]|]; done. }
  destruct (parse_iterations e params) as [n|err] eqn:Hp.
  - destruct (pbkdf2_string_to_key_ok e password salt params n H3 Hr Hp) as (key & -> & Hk). done.
  - unfold string_to_key_inner. rewrite !decide_False, Hp by done. by subst err.
Qed.

End Ops.

(** *** Witnesses, with the toy primitives *)

Definition sample_aes : Key.ProtocolKey := Key.mk Aes256CtsHmacSha384192 (replicate 32 x31).
Definition sample_des3 : Key.ProtocolKey :=
  Key.mk Des3CbcSha1 (concat (replicate 3 [x01; x02; x04; x07; x08; x0b; x0d; x0e])).
Definition sample_ct : bytes :=
  match snd (@encrypt_inner_state ToyPrimitives None sample_aes 7 (replicate 16 x55) [x68; x69] initial) with
  | Ok ct => ct | Err _ => [] end.

Lemma encrypt_decrypt_witness :
  exists ct st', @encrypt_inner_state ToyPrimitives (Some (replicate 8 x66)) sample_des3 7
    (replicate 16 x55) [x68; x69] initial = (st', Ok ct) /\
    @decrypt_inner_state ToyPrimitives sample_des3 7 ct initial
    = (st', Ok [x68; x69; x00; x00; x00; x00; x00; x00]).
Proof.
  apply (@encrypt_decrypt ToyPrimitives toy_laws sample_des3); try reflexivity.
  split; [reflexivity|]. intros _. split; vm_compute; reflexivity.
Defined.

Lemma decrypt_authentic_witness :
  exists conf conf8, length conf = Cts.BLOCK /\ length conf8 = 8%nat /\
    @encrypt_inner_state ToyPrimitives (Some conf8) sample_aes 7 conf [x68; x69] initial
    = (fst (@decrypt_inner_state ToyPrimitives sample_aes 7 sample_ct initial), Ok sample_ct).
Proof.
  apply (@decrypt_authentic ToyPrimitives toy_laws); [reflexivity|reflexivity|].
  vm_compute. reflexivity.
Defined.

Lemma kdb_key_roundtrip_witness :
  exists blob, @kdb_encrypt_key ToyPrimitives (Some (replicate 16 x55)) (Some (replicate 8 x66))
    sample_aes (replicate 24 x12) = Ok blob /\
    @kdb_decrypt_key ToyPrimitives sample_aes blob = Ok (replicate 24 x12).
Proof.
  apply (@kdb_key_roundtrip ToyPrimitives toy_laws); [|reflexivity|reflexivity|cbv; discriminate].
  split; [reflexivity|]. discriminate.
Defined.

Lemma checksum_verify_witness :
  exists mac, @checksum ToyPrimitives sample_aes 6 [x68; x69] = Ok mac /\
    @verify_checksum_keyed ToyPrimitives sample_aes 6 [x68; x69] 20 mac = Ok tt.
Proof.
  destruct (@checksum_verify ToyPrimitives toy_laws sample_aes 6 [x68; x69]) as (mac & Hm & _ & Hv);
    [reflexivity|discriminate|].
  exists mac. split; [exact Hm|]. by apply Hv.
Defined.

Lemma string_to_key_ok_witness :
  match @string_to_key_inner ToyPrimitives Aes256CtsHmacSha384192 [x70; x77] [x73] None with
  | Ok key => Key.wf key | Err _ => False
  end.
Proof.
  destruct (@string_to_key_ok ToyPrimitives toy_laws Aes256CtsHmacSha384192 [x70; x77] [x73] None)
    as [_ H]; [discriminate|].
  revert H. destruct (string_to_key_inner _ _ _ _); [by intros [? ?]|].
  intros [_ H]. discriminate H.
Defined.

End Ops.
