(* ===== verification/Prf.v ===== *)
(** * Pseudo-random functions and key combination

    Models [krb5-crypto/src/prf.rs] (PRF, PRF+ and key derivation from it), the
    [from_random]/[random] constructors of [key.rs], and [krb_fx_cf2],
    [octetstring2key] and [pkinit_kdf_agile] of [cf2.rs]. *)

From S2P Require Import Prelude Etype Nfold Primitives Cts Derive Weak.

Module Prf.
Import Derive Weak.

(** [u8::saturating_add] and [u32::saturating_add] of one. *)
Definition sat_succ (max i : Z) : Z := Z.min (i + 1) max.

Section Prf.
Context {Prim : Primitives}.

Definition prf_const : bytes := String.list_byte_of_string "prf".

Definition from_random (e : EncryptionType) (random : bytes) : result Error Key.ProtocolKey :=
  if negb (length random =? EType.keybytes e)%nat then Err InvalidKeyLength
  else if decide (e <> Des3CbcSha1) then Key.from_bytes e random
  else Key.from_bytes e (des3_random_to_key random).

(** [rng] is what [getrandom] fills the [keybytes] buffer with. *)
Definition random (rng : option bytes) (e : EncryptionType) : result Error Key.ProtocolKey :=
  let? raw := ok_or rng Rng in
  if decide (e = Des3CbcSha1) then Key.from_bytes e (des3_random_to_key raw)
  else Key.from_bytes e raw.

Definition prf_aes_sha1 (key : Key.ProtocolKey) (input : bytes) : result Error bytes :=
  let tmp1 := digest Sha1 input in
  if decide (Key.etype key = Des3CbcSha1) then
    let? dk := dk_des3 (Key.as_bytes key) prf_const in
    let trunc := (length tmp1 / 8 * 8)%nat in
    des3_cbc_encrypt dk (replicate 8 x00) (take trunc tmp1)
  else
    let? dk := dk_rfc3961 (Key.as_bytes key) prf_const in
    let trunc := (length tmp1 / Cts.BLOCK * Cts.BLOCK)%nat in
    Cts.encrypt_one dk (take trunc tmp1).

Definition prf_camellia (key : Key.ProtocolKey) (input : bytes) : result Error bytes :=
  let? kp := dk_camellia (Key.as_bytes key) prf_const in
  cmac_camellia kp input.

Definition prf_rfc8009 (key : Key.ProtocolKey) (input : bytes) : result Error bytes :=
  let? k_bits :=
    match Key.etype key with
    | Aes128CtsHmacSha256128 => Ok 256
    | Aes256CtsHmacSha384192 => Ok 384
    | e => Err (UnsupportedEtype (EType.to_iana e))
    end in
  kdf_hmac_sha2 (Key.etype key) (Key.as_bytes key) prf_const (Some input) k_bits.

Definition prf (key : Key.ProtocolKey) (input : bytes) : result Error bytes :=
  match Key.etype key with
  | Aes128CtsHmacSha196 | Aes256CtsHmacSha196 | Des3CbcSha1 => prf_aes_sha1 key input
  | Camellia128CtsCmac | Camellia256CtsCmac => prf_camellia key input
  | Aes128CtsHmacSha256128 | Aes256CtsHmacSha384192 => prf_rfc8009 key input
  | Rc4Hmac => hmac_digest Aes128CtsHmacSha196 (Key.as_bytes key) input
  end.

(** [while out.len() < len]; [i] is a [u8]. *)
Fixpoint prf_plus_loop (fuel : nat) (key : Key.ProtocolKey) (seed : bytes) (len : nat) (i : Z)
    (out : bytes) : result Error bytes :=
  match fuel with
  | O => Ok out
  | S f =>
      if (length out <? len)%nat then
        let? block := prf key (z8 i :: seed) in
        let need := Nat.min (len - length out) (length block) in
        let out := out ++ take need block in
        let i := sat_succ 255 i in
        if i =? 0 then Ok out else prf_plus_loop f key seed len i out
      else Ok out
  end.

Definition prf_plus (key : Key.ProtocolKey) (seed : bytes) (len : nat) : result Error bytes :=
  if (len =? 0)%nat then Err InvalidParams
  else
    let? out := prf_plus_loop (S len) key seed len 1 [] in
    if (length out <? len)%nat then Err InvalidParams else Ok out.

Definition derive_prfplus_enctype (key : Key.ProtocolKey) (input : bytes) (enctype : EncryptionType)
    : result Error Key.ProtocolKey :=
  let? rnd := prf_plus key input (EType.keybytes enctype) in
  if decide (enctype = Des3CbcSha1) then
    if negb (length rnd =? 21)%nat then Err InvalidKeyLength
    else Key.from_bytes enctype (des3_random_to_key rnd)
  else Key.from_bytes enctype rnd.

Definition derive_prfplus (key : Key.ProtocolKey) (input : bytes) : result Error Key.ProtocolKey :=
  derive_prfplus_enctype key input (Key.etype key).

Definition krb_fx_cf2 (k1 k2 : Key.ProtocolKey) (pepper1 pepper2 : bytes)
    : result Error Key.ProtocolKey :=
  let n := EType.keybytes (Key.etype k1) in
  let? a := prf_plus k1 pepper1 n in
  let? b := prf_plus k2 pepper2 n in
  from_random (Key.etype k1) (xor_bytes a b).

(** The two PKINIT derivations: hash the counter and the inputs until there are
    enough bytes. *)
Fixpoint hash_loop (fuel : nat) (d : Digest) (ctr : Z -> bytes) (max : Z) (suffix : bytes) (n : nat)
    (i : Z) (buf : bytes) : bytes :=
  match fuel with
  | O => buf
  | S f =>
      if (length buf <? n)%nat then
        let buf := buf ++ digest d (ctr i ++ suffix) in
        let i := sat_succ max i in
        if i =? 0 then buf else hash_loop f d ctr max suffix n i buf
      else buf
  end.

Definition octetstring2key (e : EncryptionType) (x : bytes) : result Error Key.ProtocolKey :=
  let n := EType.keybytes e in
  let buf := hash_loop (S n) Sha1 (fun i => [z8 i]) 255 x n 0 [] in
  from_random e (take n buf).

Definition pkinit_kdf_agile (e : EncryptionType) (shared other_info : bytes)
    : result Error Key.ProtocolKey :=
  let n := EType.keybytes e in
  let buf := hash_loop (S n) Sha256 (to_be_bytes 4) U32_MAX (shared ++ other_info) n 1 [] in
  from_random e (take n buf).

(** ** Proofs *)

(** The PRF's output length. *)
Definition prf_len (e : EncryptionType) : nat :=
  match e with
  | Aes128CtsHmacSha256128 => 32
  | Aes256CtsHmacSha384192 => 48
  | Rc4Hmac => 20
  | _ => 16
  end.

Definition prf_usable (key : Key.ProtocolKey) : Prop :=
  Key.wf key /\
  (Key.etype key = Des3CbcSha1 ->
   is_ok (des3_key_sched (Key.as_bytes key)) = true /\
   match dk_des3 (Key.as_bytes key) prf_const with
   | Ok d => is_ok (des3_key_sched d) = true
   | Err _ => False
   end).

Context {Laws : PrimitiveLaws}.
#[local] Opaque dk_des3 dk_camellia dk_rfc3961.

Lemma prf_aes_ok key input :
  length (Key.as_bytes key) = 16%nat \/ length (Key.as_bytes key) = 32%nat ->
  Key.etype key <> Des3CbcSha1 ->
  exists b, prf_aes_sha1 key input = Ok b /\ length b = 16%nat.
Proof.
  intros Hk Hne. unfold prf_aes_sha1. rewrite decide_False by done.
  destruct (dk_rfc3961_ok (Key.as_bytes key) prf_const Hk) as (dk & -> & Hl); [done|].
  rewrite <- Hl in Hk. destruct (encrypt_one_keyed dk Hk) as (c & ks & Hc & _ & He).
  rewrite He, length_digest. eexists. split; [reflexivity|]. change 16%nat with Cts.BLOCK. rewrite <- Hc.
  apply length_encrypt_block. rewrite length_take, length_digest, Hc. reflexivity.
Qed.

Lemma prf_des3_ok key input :
  Key.etype key = Des3CbcSha1 ->
  match dk_des3 (Key.as_bytes key) prf_const with
  | Ok d => is_ok (des3_key_sched d) = true
  | Err _ => False
  end ->
  exists b, prf_aes_sha1 key input = Ok b /\ length b = 16%nat.
Proof.
  intros He Hd. unfold prf_aes_sha1. rewrite decide_True by done.
  destruct (dk_des3 (Key.as_bytes key) prf_const) as [d|]; [|destruct Hd].
  rewrite length_digest. change (digest_size Sha1 / 8 * 8)%nat with 16%nat.
  assert (length (take 16 (digest Sha1 input)) = 16%nat) as Hl
    by (rewrite length_take, length_digest; reflexivity).
  destruct (des3_cbc_roundtrip d (replicate 8 x00) (take 16 (digest Sha1 input))) as (c & -> & Hlc & _);
    [reflexivity|by rewrite Hl|done|].
  exists c. split; [reflexivity|lia].
Qed.

Lemma prf_ok key input :
  prf_usable key -> exists b, prf key input = Ok b /\ length b = prf_len (Key.etype key).
Proof.
  intros [Hwf H3]. unfold prf, Key.wf in *.
  destruct (Key.etype key) eqn:He; cbn [EType.key_len prf_len] in *.
  - apply prf_des3_ok; [done|]. by apply H3.
  - apply prf_aes_ok; [by left|congruence].
  - apply prf_aes_ok; [by right|congruence].
  - unfold prf_rfc8009, kdf_hmac_sha2, hmac_digest. rewrite He.
    match goal with |- context [hmac Sha256 ?k ?m] => destruct (hmac_some Sha256 k m) as (h & -> & Hl) end.
    exists h. cbn [ok_or]. rewrite Hl. split; reflexivity.
  - unfold prf_rfc8009, kdf_hmac_sha2, hmac_digest. rewrite He.
    match goal with |- context [hmac Sha384 ?k ?m] => destruct (hmac_some Sha384 k m) as (h & -> & Hl) end.
    exists h. cbn [ok_or]. rewrite Hl. split; reflexivity.
  - unfold hmac_digest. destruct (hmac_some Sha1 (Key.as_bytes key) input) as (h & -> & Hl).
    exists h. by split.
  - unfold prf_camellia. destruct (dk_camellia_ok (Key.as_bytes key) prf_const) as (k & -> & Hl); [by left|].
    apply cmac_camellia_ok. left. congruence.
  - unfold prf_camellia. destruct (dk_camellia_ok (Key.as_bytes key) prf_const) as (k & -> & Hl); [by right|].
    apply cmac_camellia_ok. right. congruence.
Qed.

(** Octet [k] of PRF+'s output is octet [k mod B] of block [k / B], which is the
    PRF of its (saturating) number and the seed. *)
Definition plus_octets (key : Key.ProtocolKey) (seed out : bytes) : Prop :=
  forall k x, out !! k = Some x ->
  exists b, prf key (z8 (Z.min (Z.of_nat (k / prf_len (Key.etype key)) + 1) 255) :: seed) = Ok b /\
    b !! (k mod prf_len (Key.etype key))%nat = Some x.

Lemma prf_plus_loop_ok key seed len :
  prf_usable key -> forall fuel j out,
  length out = Nat.min (j * prf_len (Key.etype key)) len -> (len <= length out + fuel)%nat ->
  plus_octets key seed out ->
  exists out', prf_plus_loop fuel key seed len (Z.min (Z.of_nat j + 1) 255) out = Ok out' /\
    length out' = len /\ plus_octets key seed out'.
Proof.
  intros Hu. set (B := prf_len (Key.etype key)).
  assert (1 <= B)%nat as HB by (subst B; destruct (Key.etype key); cbn; lia).
  induction fuel as [|f IH]; intros j out Hl Hf Hp.
  { exists out. split_and!; [done|lia|done]. }
  cbn [prf_plus_loop]. destruct (Nat.ltb_spec (length out) len) as [Hlt|Hge].
  2: { exists out. split_and!; [done|lia|done]. }
  destruct (prf_ok key (z8 (Z.min (Z.of_nat j + 1) 255) :: seed) Hu) as (b & Hb & Hlb).
  fold B in Hlb. rewrite Hb, Hlb.
  assert (sat_succ 255 (Z.min (Z.of_nat j + 1) 255) = Z.min (Z.of_nat (S j) + 1) 255) as ->
    by (unfold sat_succ; lia).
  rewrite (proj2 (Z.eqb_neq _ 0)) by lia.
  apply IH.
  - rewrite length_app, length_take. lia.
  - rewrite length_app, length_take. lia.
  - intros k x Hk. apply lookup_app_Some in Hk as [Hk|[Hge Hk]]; [by apply Hp|].
    apply lookup_take_Some in Hk as [Hk Hlt']. pose proof (lookup_lt_Some _ _ _ Hk) as Hkb.
    fold B. assert (k = B * j + (k - length out))%nat as Hkk by lia.
    assert (k / B = j)%nat as Hq.
    { rewrite Hkk. symmetry. apply (Nat.div_unique _ B j (k - length out)); lia. }
    assert (k mod B = k - length out)%nat as Hr.
    { symmetry. apply (Nat.mod_unique k B j (k - length out)); lia. }
    rewrite Hq, Hr. exists b. split; done.
Qed.

Lemma prf_plus_spec key seed len :
  prf_usable key -> len <> 0%nat ->
  exists out, prf_plus key seed len = Ok out /\ length out = len /\ plus_octets key seed out.
Proof.
  intros Hu Hl. unfold prf_plus. rewrite (proj2 (Nat.eqb_neq _ _)) by done.
  destruct (prf_plus_loop_ok key seed len Hu (S len) 0 []) as (out & Ho & Hlo & Hp);
    [cbn; lia|cbn; lia|by intros k x Hk|].
  change (Z.min (Z.of_nat 0 + 1) 255) with 1 in Ho. rewrite Ho, Hlo, Nat.ltb_irrefl. by exists out.
Qed.

Lemma from_random_ok e r :
  length r = EType.keybytes e ->
  exists key, from_random e r = Ok key /\ Key.wf key /\ Key.etype key = e /\
    Key.as_bytes key = if decide (e = Des3CbcSha1) then des3_random_to_key r else r.
Proof.
  intros Hr. unfold from_random. rewrite Hr, Nat.eqb_refl. cbn [negb].
  destruct (decide (e = Des3CbcSha1)) as [->|Hne].
  - rewrite decide_False by (intros H; by apply H).
    rewrite Key.from_bytes_ok by (by apply length_des3_random_to_key).
    eexists. split; [reflexivity|]. split; [by apply length_des3_random_to_key|done].
  - rewrite decide_True by done.
    assert (length r = EType.key_len e) as Hk by (rewrite Hr; by destruct e).
    rewrite Key.from_bytes_ok by done. eexists. split; [reflexivity|]. by split.
Qed.

Lemma keybytes_pos e : EType.keybytes e <> 0%nat.
Proof. by destruct e. Qed.

Lemma hash_loop_ok d ctr max suffix n :
  0 < max -> forall fuel i buf, 0 <= i -> (n <= length buf + fuel)%nat ->
  (n <= length (hash_loop fuel d ctr max suffix n i buf))%nat.
Proof.
  intros Hm. induction fuel as [|f IH]; intros i buf Hi Hf; [cbn; lia|].
  cbn [hash_loop]. destruct (Nat.ltb_spec (length buf) n); [|done].
  unfold sat_succ. rewrite (proj2 (Z.eqb_neq _ 0)) by lia.
  apply IH; [lia|]. rewrite length_app, length_digest. destruct d; cbn; lia.
Qed.

(** PRF+ always returns the requested number of octets, and octet [k] is octet
    [k mod B] of the PRF (of output length [B]) of block number [k / B + 1] and
    the seed, the number saturating at 255. *)
Theorem prf_plus_octets key seed len :
  prf_usable key -> len <> 0%nat ->
  exists out, prf_plus key seed len = Ok out /\ length out = len /\ plus_octets key seed out.
Proof. apply prf_plus_spec. Qed.

(** past 255 blocks PRF+ does not fail: the counter saturates, the guard
    [if i == 0] never fires, and every later block repeats block 255. *)
Theorem prf_plus_repeats key seed len out :
  prf_usable key -> prf_plus key seed len = Ok out ->
  let B := prf_len (Key.etype key) in
  forall n r, (r < B)%nat -> (254 <= n)%nat -> (n * B + r < len)%nat ->
  out !! (n * B + r)%nat = out !! (254 * B + r)%nat.
Proof.
  intros Hu Ho B n r Hr Hn Hlt. assert (len <> 0%nat) as Hl by lia.
  destruct (prf_plus_spec key seed len Hu Hl) as (out' & Ho' & Hlo & Hp).
  assert (out' = out) as -> by congruence.
  assert (forall m, (254 <= m)%nat -> (m * B + r < len)%nat ->
    exists b, prf key (z8 255 :: seed) = Ok b /\ out !! (m * B + r)%nat = b !! r) as Hm.
  { intros m H254 Hm. destruct (lookup_lt_is_Some_2 out (m * B + r)) as [x Hx]; [lia|].
    destruct (Hp _ _ Hx) as (b & Hb & Hbx). fold B in Hb, Hbx.
    rewrite Nat.div_add_l, Nat.div_small, Nat.add_0_r in Hb by lia.
    rewrite Nat.add_comm, Nat.Div0.mod_add, Nat.mod_small in Hbx by lia.
    rewrite Z.min_r in Hb by lia. exists b. split; [done|congruence]. }
  destruct (Hm n) as (b & Hb & ->); [lia|lia|].
  destruct (Hm 254%nat) as (b' & Hb' & ->); [lia|nia|]. congruence.
Qed.

(** KRB-FX-CF2 combines any two usable keys into a well-formed key of the
    first one's enctype: random-to-key of the exclusive or of the two PRF+
    streams. *)
Theorem krb_fx_cf2_ok k1 k2 pepper1 pepper2 :
  prf_usable k1 -> prf_usable k2 ->
  exists a b key, krb_fx_cf2 k1 k2 pepper1 pepper2 = Ok key /\
    prf_plus k1 pepper1 (EType.keybytes (Key.etype k1)) = Ok a /\
    prf_plus k2 pepper2 (EType.keybytes (Key.etype k1)) = Ok b /\
    Key.wf key /\ Key.etype key = Key.etype k1 /\
    Key.as_bytes key = if decide (Key.etype k1 = Des3CbcSha1)
                       then des3_random_to_key (xor_bytes a b) else xor_bytes a b.
Proof.
  intros H1 H2. pose proof (keybytes_pos (Key.etype k1)) as Hn.
  destruct (prf_plus_spec k1 pepper1 _ H1 Hn) as (a & Ha & Hla & _).
  destruct (prf_plus_spec k2 pepper2 _ H2 Hn) as (b & Hb & Hlb & _).
  destruct (from_random_ok (Key.etype k1) (xor_bytes a b)) as (key & Hk & Hw);
    [rewrite length_xor_bytes; lia|].
  exists a, b, key. unfold krb_fx_cf2. rewrite Ha, Hb.
  split; [exact Hk|]. split; [done|]. split; [done|]. exact Hw.
Qed.

(** the two PKINIT derivations always produce a well-formed key of the
    requested enctype. *)
Theorem pkinit_keys_ok e x shared other_info :
  (exists key, octetstring2key e x = Ok key /\ Key.wf key /\ Key.etype key = e) /\
  (exists key, pkinit_kdf_agile e shared other_info = Ok key /\ Key.wf key /\ Key.etype key = e).
Proof.
  unfold octetstring2key, pkinit_kdf_agile. split.
  - match goal with |- context [from_random e (take ?n ?b)] =>
      pose proof (hash_loop_ok Sha1 (fun i => [z8 i]) 255 x n ltac:(lia) (S n) 0 [] ltac:(lia) ltac:(cbn; lia));
      destruct (from_random_ok e (take n b)) as (key & Hk & Hw & He & _); [rewrite length_take; lia|] end.
    by exists key.
  - match goal with |- context [from_random e (take ?n ?b)] =>
      pose proof (hash_loop_ok Sha256 (to_be_bytes 4) U32_MAX (shared ++ other_info) n
        ltac:(unfold U32_MAX; lia) (S n) 1 [] ltac:(lia) ltac:(cbn; lia));
      destruct (from_random_ok e (take n b)) as (key & Hk & Hw & He & _); [rewrite length_take; lia|] end.
    by exists key.
Qed.

End Prf.

(** *** Witnesses *)

Definition sample_key : Key.ProtocolKey := Key.mk Aes128CtsHmacSha196 (replicate 16 x10).

Lemma prf_plus_octets_witness :
  exists out, @prf_plus ToyPrimitives sample_key [x73] 40 = Ok out /\ length out = 40%nat.
Proof.
  destruct (@prf_plus_octets ToyPrimitives toy_laws sample_key [x73] 40) as (out & Ho & Hl & _);
    [split; [reflexivity|discriminate]|discriminate|].
  exists out. by split.
Defined.

Lemma prf_plus_repeats_witness :
  exists out, @prf_plus ToyPrimitives sample_key [x73] 4112 = Ok out /\
    out !! 4080%nat = out !! 4064%nat.
Proof.
  eexists. split; [vm_compute; reflexivity|].
  refine (@prf_plus_repeats ToyPrimitives toy_laws sample_key [x73] 4112 _ _ _ 255 0 _ _ _);
    [split; [reflexivity|discriminate]|vm_compute; reflexivity|cbn; lia|lia|cbn; lia].
Defined.

Lemma krb_fx_cf2_ok_witness :
  exists key, @krb_fx_cf2 ToyPrimitives sample_key sample_key [x61] [x62] = Ok key /\ Key.wf key.
Proof.
  destruct (@krb_fx_cf2_ok ToyPrimitives toy_laws sample_key sample_key [x61] [x62])
    as (_ & _ & key & Hk & _ & _ & Hw & _); [split; [reflexivity|discriminate]..|].
  exists key. by split.
Defined.

Lemma pkinit_keys_ok_witness :
  exists key, @octetstring2key ToyPrimitives Des3CbcSha1 [x01] = Ok key /\ Key.wf key.
Proof.
  destruct (@pkinit_keys_ok ToyPrimitives toy_laws Des3CbcSha1 [x01] [] []) as [(key & Hk & Hw & _) _].
  exists key. by split.
Defined.

End Prf.
