(* ===== verification/SeqState.v ===== *)
(** * The GSS per-message replay window

    Models [krb5-gss/src/seqstate.rs], and [GssContext::accept_seq] of
    [context.rs], which turns its statuses into acceptance or refusal.  The
    64-bit receive map is related to the abstract contract: the set of numbers
    already received, below a high-water mark, with a window of 64. *)

From S2P Require Import Prelude Etype.

(** [krb5_gss::Error].  [Inner] is built from the display form of a
    [krb5_crypto::Error] in the functions modelled; the error stands for its
    string. *)
Inductive GssError :=
| Inner (e : Error)
| GssIntegrity
| GssTruncated
| GssSequence
| GssChannelBindings.

#[global] Instance GssError_eq_dec : EqDecision GssError.
Proof. solve_decision. Defined.

Module SeqState.

Inductive SeqStatus := Complete | Gap | Unseq | Old | Duplicate.

Record SeqState := mkSeq {
  do_replay : bool;
  do_sequence : bool;
  wide : bool;
  base : Z;
  next : Z;
  recvmap : Z;
}.

Definition GSS_C_REPLAY : Z := 4.
Definition GSS_C_SEQUENCE : Z := 8.

Definition new (seqnum flags : Z) (wide : bool) : SeqState :=
  mkSeq (negb (Z.land flags GSS_C_REPLAY =? 0)) (negb (Z.land flags GSS_C_SEQUENCE =? 0))
        wide seqnum 0 0.

Definition mask (s : SeqState) : Z := if wide s then U64_MAX else U32_MAX.

Definition relative (s : SeqState) (seqnum : Z) : Z :=
  Z.land (wrapping_sub 64 seqnum (base s)) (mask s).

Definition past_window (s : SeqState) (seqnum : Z) : bool :=
  let rel := relative s seqnum in
  (rel <? next s) && (64 <? next s - rel).

(** [u64::checked_add], [u32::try_from] and [u64::checked_shl]. *)
Definition checked_add64 (a b : Z) : option Z := if a + b <=? U64_MAX then Some (a + b) else None.
Definition try_u32 (n : Z) : option Z := if n <=? U32_MAX then Some n else None.
Definition checked_shl64 (x n : Z) : option Z :=
  if n <? 64 then Some (Z.land (Z.shiftl x n) U64_MAX) else None.

Definition check (s : SeqState) (seqnum : Z) : SeqState * SeqStatus :=
  if negb (do_replay s) && negb (do_sequence s) then (s, Complete)
  else
    let rel := relative s seqnum in
    if next s <=? rel then
      let offset := rel - next s in
      let shifted := default 0
        (n ← checked_add64 offset 1; n ← try_u32 n; checked_shl64 (recvmap s) n) in
      let s' := mkSeq (do_replay s) (do_sequence s) (wide s) (base s)
                      (Z.land (wrapping_add 64 rel 1) (mask s)) (Z.lor shifted 1) in
      (s', if (0 <? offset) && do_sequence s then Gap else Complete)
    else
      let offset := next s - rel in
      if 64 <? offset then (s, if do_sequence s then Unseq else Old)
      else
        let bit := Z.shiftl 1 (offset - 1) in
        if do_replay s && negb (Z.land (recvmap s) bit =? 0) then (s, Duplicate)
        else
          let s' := mkSeq (do_replay s) (do_sequence s) (wide s) (base s)
                          (next s) (Z.lor (recvmap s) bit) in
          (s', if do_sequence s then Unseq else Complete).

(** [GssContext::accept_seq] on its [recv] field. *)
Definition accept_seq (s : SeqState) (seq : Z) : SeqState * result GssError unit :=
  let past := do_replay s && past_window s seq in
  let '(s', status) := check s seq in
  (s', match status with
       | Duplicate | Old => Err GssSequence
       | Unseq => if past then Err GssSequence else Ok tt
       | Complete | Gap => Ok tt
       end).

(** ** The contract

    An abstract receiver remembers every number it accepted and the number
    after the highest one; it refuses a number it has seen and one more than 64
    below. *)

Record Receiver := { seen : gset Z; high : Z }.

Definition receiver_init : Receiver := {| seen := ∅; high := 0 |}.

Definition receive (r : Receiver) (rel : Z) : Receiver * bool :=
  if (rel <? high r) && (64 <? high r - rel) then (r, false)
  else if decide (rel ∈ seen r) then (r, false)
  else ({| seen := {[rel]} ∪ seen r; high := Z.max (high r) (rel + 1) |}, true).

Fixpoint receive_all (r : Receiver) (rels : list Z) : list bool :=
  match rels with
  | [] => []
  | rel :: rest => let '(r', ok) := receive r rel in ok :: receive_all r' rest
  end.

(** A run of the implementation: which tokens of a sequence are accepted. *)
Fixpoint accept_all (s : SeqState) (seqs : list Z) : list bool :=
  match seqs with
  | [] => []
  | seq :: rest => let '(s', r) := accept_seq s seq in is_ok r :: accept_all s' rest
  end.

(** The accepted elements of a run. *)
Fixpoint accepted {A} (xs : list A) (oks : list bool) : list A :=
  match xs, oks with
  | x :: xs, ok :: oks => if ok then x :: accepted xs oks else accepted xs oks
  | _, _ => []
  end.

(** ** Proofs *)

Definition simulates (s : SeqState) (r : Receiver) : Prop :=
  next s = high r /\ 0 <= next s <= mask s /\ 0 <= recvmap s < 2 ^ 64 /\
  (forall x, x ∈ seen r -> 0 <= x < high r) /\
  (forall k, 1 <= k <= 64 -> Z.testbit (recvmap s) (k - 1) = bool_decide (high r - k ∈ seen r)).

Lemma land_mask s z : Z.land z (mask s) = z mod (mask s + 1).
Proof.
  unfold mask. destruct (wide s).
  - exact (Z.land_ones z 64 ltac:(done)).
  - exact (Z.land_ones z 32 ltac:(done)).
Qed.

Lemma mask_cases s : mask s = 2 ^ 64 - 1 \/ mask s = 2 ^ 32 - 1.
Proof. unfold mask. destruct (wide s); [by left|by right]. Qed.

Lemma relative_bound s q : 0 <= relative s q <= mask s.
Proof.
  unfold relative. rewrite land_mask.
  assert (0 < mask s + 1) by (destruct (mask_cases s) as [-> | ->]; lia).
  pose proof (Z.mod_pos_bound (wrapping_sub 64 q (base s)) (mask s + 1)). lia.
Qed.

(** The window after moving up to [rel]. *)
Lemma shifted_bits s rel k :
  0 <= recvmap s < 2 ^ 64 -> 0 <= next s <= rel -> rel <= mask s -> 1 <= k <= 64 ->
  Z.testbit (Z.lor (default 0 (n ← checked_add64 (rel - next s) 1; n ← try_u32 n;
                                checked_shl64 (recvmap s) n)) 1) (k - 1)
  = if k =? 1 then true
    else if k - 1 <? rel - next s + 1 then false
    else Z.testbit (recvmap s) (k - 1 - (rel - next s + 1)).
Proof.
  intros Hm Hn Hr Hk. rewrite Z.lor_spec.
  assert (Z.testbit 1 (k - 1) = (k =? 1)) as ->.
  { destruct (Z.eqb_spec k 1) as [->|]; [done|]. apply Z.bits_above_log2; cbn; lia. }
  destruct (k =? 1); [apply orb_true_r|]. rewrite orb_false_r.
  unfold checked_add64, try_u32, checked_shl64.
  destruct (Z.leb_spec (rel - next s + 1) U64_MAX); cbn.
  2: { unfold U64_MAX in *. rewrite (proj2 (Z.ltb_lt _ _)) by lia. apply Z.bits_0. }
  destruct (Z.leb_spec (rel - next s + 1) U32_MAX); cbn.
  2: { unfold U32_MAX in *. rewrite (proj2 (Z.ltb_lt _ _)) by lia. apply Z.bits_0. }
  destruct (Z.ltb_spec (rel - next s + 1) 64); cbn.
  2: { rewrite (proj2 (Z.ltb_lt _ _)) by lia. apply Z.bits_0. }
  rewrite Z.land_spec, Z.shiftl_spec by lia.
  change U64_MAX with (Z.ones 64). rewrite Z.ones_spec_low by lia. rewrite andb_true_r.
  destruct (Z.ltb_spec (k - 1) (rel - next s + 1)); [apply Z.testbit_neg_r; lia|done].
Qed.

Lemma shifted_bound m o :
  0 <= m < 2 ^ 64 ->
  0 <= Z.lor (default 0 (n ← checked_add64 o 1; n ← try_u32 n; checked_shl64 m n)) 1 < 2 ^ 64.
Proof.
  intros Hm.
  assert (forall z, 0 <= z < 2 ^ 64 -> 0 <= Z.lor z 1 < 2 ^ 64) as Hlor.
  { intros z Hz. split; [apply Z.lor_nonneg; lia|].
    destruct (decide (z = 0)) as [->|]; [done|].
    assert (0 < Z.lor z 1) by (pose proof (proj2 (Z.lor_nonneg z 1)); pose proof (Z.lor_eq_0_iff z 1); lia).
    apply Z.log2_lt_pow2; [done|]. rewrite Z.log2_lor by lia.
    apply Z.max_lub_lt; [apply Z.log2_lt_pow2; lia|done]. }
  apply Hlor. unfold checked_add64, try_u32, checked_shl64.
  repeat (case_match; cbn; try done).
  change U64_MAX with (Z.ones 64). rewrite Z.land_ones by done. apply Z.mod_pos_bound. done.
Qed.

Lemma shiftl1_testbit o k : 0 <= o -> 0 <= k -> Z.testbit (Z.shiftl 1 o) k = (k =? o).
Proof.
  intros Ho Hk. rewrite Z.shiftl_1_l, Z.pow2_bits_eqb by lia. apply Z.eqb_sym.
Qed.

Lemma land_bit_zero m o : 0 <= o -> (Z.land m (Z.shiftl 1 o) =? 0) = negb (Z.testbit m o).
Proof.
  intros Ho. destruct (Z.testbit m o) eqn:E; cbn.
  - apply Z.eqb_neq. intros H. apply (f_equal (fun z => Z.testbit z o)) in H.
    rewrite Z.land_spec, E, shiftl1_testbit, Z.eqb_refl, Z.bits_0 in H by lia. done.
  - apply Z.eqb_eq. apply Z.bits_inj'. intros k Hk.
    rewrite Z.land_spec, shiftl1_testbit, Z.bits_0 by lia.
    destruct (Z.eqb_spec k o) as [->|]; [by rewrite E|apply andb_false_r].
Qed.

Lemma lor_bit_bound m o : 0 <= m < 2 ^ 64 -> 0 <= o < 64 -> 0 <= Z.lor m (Z.shiftl 1 o) < 2 ^ 64.
Proof.
  intros Hm Ho. rewrite Z.shiftl_1_l.
  assert (0 < 2 ^ o) by (apply Z.pow_pos_nonneg; lia).
  split; [apply Z.lor_nonneg; lia|].
  assert (Z.lor m (2 ^ o) <> 0) by (rewrite Z.lor_eq_0_iff; lia).
  pose proof (proj2 (Z.lor_nonneg m (2 ^ o)) ltac:(lia)).
  apply Z.log2_lt_pow2; [lia|]. rewrite Z.log2_lor, Z.log2_pow2 by lia.
  apply Z.max_lub_lt; [|lia].
  destruct (decide (m = 0)) as [->|]; [done|]. apply Z.log2_lt_pow2; lia.
Qed.

(** Above the high-water mark: both sides accept and move up. *)
Lemma step_above s r q :
  do_replay s = true -> simulates s r -> relative s q <> mask s -> next s <= relative s q ->
  let '(s', res) := accept_seq s q in
  res = Ok tt /\ mask s' = mask s /\ base s' = base s /\ do_replay s' = true /\
  receive r (relative s q) = ({| seen := {[relative s q]} ∪ seen r; high := relative s q + 1 |}, true) /\
  simulates s' {| seen := {[relative s q]} ∪ seen r; high := relative s q + 1 |}.
Proof.
  intros Hd (Hn & Hnb & Hmb & Hseen & Hbits) Hmask Hle.
  pose proof (relative_bound s q) as Hr. set (rel := relative s q) in *.
  unfold accept_seq, past_window, check. rewrite Hd. fold rel. cbn [negb andb].
  rewrite (proj2 (Z.leb_le (next s) rel)), (proj2 (Z.ltb_ge rel (next s))) by lia. cbn [andb].
  split; [by destruct (_ && do_sequence s)|]. split; [done|]. split; [done|]. split; [done|].
  split.
  { unfold receive. rewrite (proj2 (Z.ltb_ge _ _)) by lia. cbn [andb].
    rewrite decide_False by (intros H; apply Hseen in H; lia). by rewrite Z.max_r by lia. }
  unfold simulates. cbn [next recvmap seen high].
  assert (Z.land (wrapping_add 64 rel 1) (mask s) = rel + 1) as ->.
  { rewrite land_mask. unfold wrapping_add.
    assert (mask s <= 2 ^ 64 - 1) by (destruct (mask_cases s) as [-> | ->]; done).
    rewrite (Z.mod_small (rel + 1) (2 ^ 64)) by lia. apply Z.mod_small. lia. }
  split_and!; [done|lia|change (rel + 1 <= mask s); lia|apply shifted_bound; lia..| |].
  - intros x Hx. apply elem_of_union in Hx as [Hx|Hx]; [|apply Hseen in Hx; lia].
    apply elem_of_singleton in Hx as ->. lia.
  - intros k Hk. rewrite shifted_bits by lia.
    destruct (Z.eqb_spec k 1) as [->|Hk1].
    { rewrite bool_decide_eq_true_2; [done|]. apply elem_of_union_l, elem_of_singleton. lia. }
    destruct (Z.ltb_spec (k - 1) (rel - next s + 1)) as [Hlt|Hge].
    + rewrite bool_decide_eq_false_2; [done|]. intros H.
      apply elem_of_union in H as [H|H]; [apply elem_of_singleton in H; lia|].
      apply Hseen in H. lia.
    + replace (k - 1 - (rel - next s + 1)) with ((k - (rel - next s + 1)) - 1) by lia.
      rewrite Hbits by lia. apply bool_decide_ext.
      replace (rel + 1 - k) with (high r - (k - (rel - next s + 1))) by lia.
      rewrite elem_of_union, elem_of_singleton. intuition lia.
Qed.

(** Below it: the window and the set of seen numbers agree. *)
Lemma step_below s r q :
  do_replay s = true -> simulates s r -> relative s q < next s ->
  let '(s', res) := accept_seq s q in
  let '(r', ok) := receive r (relative s q) in
  is_ok res = ok /\ mask s' = mask s /\ base s' = base s /\ do_replay s' = true /\ simulates s' r'.
Proof.
  intros Hd Hs Hlt. pose proof Hs as (Hn & Hnb & Hmb & Hseen & Hbits).
  pose proof (relative_bound s q) as Hr. set (rel := relative s q) in *.
  unfold accept_seq, past_window, check. rewrite Hd. fold rel. cbn [negb andb].
  rewrite (proj2 (Z.leb_gt (next s) rel)), (proj2 (Z.ltb_lt rel (next s))) by lia. cbn [andb].
  unfold receive. rewrite <- Hn, (proj2 (Z.ltb_lt rel (next s))) by lia. cbn [andb].
  destruct (Z.ltb_spec 64 (next s - rel)) as [Hold|Hwin].
  { destruct (do_sequence s); cbn; by split_and!. }
  rewrite land_bit_zero, Hbits by lia. rewrite negb_involutive.
  replace (high r - (next s - rel)) with rel by lia.
  destruct (decide (rel ∈ seen r)) as [Hin|Hout].
  { rewrite bool_decide_eq_true_2 by done. cbn. by split_and!. }
  rewrite bool_decide_eq_false_2 by done. cbn [is_ok].
  split; [by destruct (do_sequence s)|]. split_and!; [done|done|done|].
  unfold simulates. cbn [next recvmap seen high].
  rewrite Z.max_l by lia. split_and!; [done|lia|change (next s <= mask s); lia|apply lor_bit_bound; lia..| |].
  - intros x Hx. apply elem_of_union in Hx as [Hx|Hx]; [|apply Hseen in Hx; lia].
    apply elem_of_singleton in Hx as ->. lia.
  - intros k Hk. rewrite Z.lor_spec, Hbits, shiftl1_testbit by lia.
    destruct (Z.eqb_spec (k - 1) (next s - rel - 1)) as [E|E].
    + rewrite orb_true_r. symmetry. apply bool_decide_eq_true_2.
      apply elem_of_union_l, elem_of_singleton. lia.
    + rewrite orb_false_r. apply bool_decide_ext. rewrite elem_of_union, elem_of_singleton, Hn. intuition lia.
Qed.

Lemma simulates_new q flags w :
  Z.land flags GSS_C_REPLAY <> 0 -> simulates (new q flags w) receiver_init.
Proof.
  intros Hf. unfold simulates, new. cbn. split_and!; try done.
  - destruct w; cbn; done.
  - intros k Hk. rewrite Z.bits_0. symmetry. apply bool_decide_eq_false_2. set_solver.
Qed.

Lemma relative_ext s s' q : mask s' = mask s -> base s' = base s -> relative s' q = relative s q.
Proof. intros Hm Hb. unfold relative. by rewrite Hm, Hb. Qed.

Lemma accept_all_refines s r qs :
  do_replay s = true -> simulates s r ->
  Forall (fun q => relative s q <> mask s) qs ->
  accept_all s qs = receive_all r (map (relative s) qs).
Proof.
  revert s r. induction qs as [|q qs IH]; intros s r Hd Hs Hq; [done|].
  inversion_clear Hq as [|? ? Hq1 Hq2]. cbn [accept_all map receive_all].
  destruct (accept_seq s q) as [s' res] eqn:Ha.
  assert (exists r' ok, receive r (relative s q) = (r', ok) /\ is_ok res = ok /\
    mask s' = mask s /\ base s' = base s /\ do_replay s' = true /\ simulates s' r')
    as (r' & ok & -> & <- & Hm & Hb & Hd' & Hs').
  { destruct (Z.le_gt_cases (next s) (relative s q)) as [Hle|Hgt].
    - pose proof (step_above s r q Hd Hs Hq1 Hle) as H. rewrite Ha in H.
      destruct H as (-> & Hm & Hb & Hd' & Hr & Hs'). eexists _, _. split; [exact Hr|]. done.
    - pose proof (step_below s r q Hd Hs Hgt) as H. rewrite Ha in H.
      destruct (receive r (relative s q)) as [r' ok]. exists r', ok. split; [done|]. exact H. }
  f_equal. rewrite (IH s' r' Hd' Hs').
  - f_equal. apply map_ext. intros x. by apply relative_ext.
  - revert Hq2. apply Forall_impl. intros x Hx. by rewrite (relative_ext s s'), Hm.
Qed.

(** The contract never accepts a number twice. *)
Lemma receive_all_NoDup r rels :
  NoDup (accepted rels (receive_all r rels)) /\
  (forall x, x ∈ accepted rels (receive_all r rels) -> x ∉ seen r).
Proof.
  revert r. induction rels as [|rel rels IH]; intros r; cbn.
  { split; [constructor|]. intros x Hx. by apply elem_of_nil in Hx. }
  destruct (receive r rel) as [r' ok] eqn:Hr. cbn [accepted]. destruct (IH r') as [Hnd Hns]. clear IH.
  unfold receive in Hr. destruct (_ && _).
  { injection Hr as <- <-. by split. }
  destruct (decide (rel ∈ seen r)) as [Hin|Hout]; injection Hr as <- <-; [by split|].
  cbn [seen] in Hns. split.
  - constructor; [|done]. intros Hx. apply Hns in Hx. set_solver.
  - intros x Hx. apply elem_of_cons in Hx as [->|Hx]; [done|]. apply Hns in Hx. set_solver.
Qed.

(** C21: with replay detection on, the 64-bit receive map implements the contract:
    over every sequence of tokens, [accept_seq] accepts exactly those that are
    not already received and are not more than 64 below the highest received
    one, for 32-bit and 64-bit numbers, in any order and with any gaps; the
    only number excluded is the one just below the base, where the high-water
    mark would wrap. *)
Theorem window_refines q0 flags w qs :
  Z.land flags GSS_C_REPLAY <> 0 ->
  Forall (fun q => relative (new q0 flags w) q <> mask (new q0 flags w)) qs ->
  accept_all (new q0 flags w) qs = receive_all receiver_init (map (relative (new q0 flags w)) qs).
Proof.
  intros Hf Hq. apply accept_all_refines; [|by apply simulates_new|done].
  cbn. by apply negb_true_iff, Z.eqb_neq.
Qed.

(** C13: no replay: with replay detection on, no sequence number is accepted twice
    over any sequence of tokens in which the number just below the base, the last
    of the 2^32 or 2^64 there are, does not come.  (That number sets the high-water
    mark back, and those before it are accepted again: see [wrap_forgets].) *)
Theorem no_replay q0 flags w qs :
  Z.land flags GSS_C_REPLAY <> 0 ->
  Forall (fun q => relative (new q0 flags w) q <> mask (new q0 flags w)) qs ->
  let rels := map (relative (new q0 flags w)) qs in
  NoDup (accepted rels (accept_all (new q0 flags w) qs)).
Proof.
  intros Hf Hq rels. rewrite (accept_all_refines _ receiver_init);
    [|cbn; by apply negb_true_iff, Z.eqb_neq|by apply simulates_new|done].
  apply receive_all_NoDup.
Qed.

(** The excluded number is a real limit, shared with the C implementation: it
    resets the high-water mark, after which an old number is accepted again. *)
Example wrap_forgets :
  accept_all (new 0 GSS_C_REPLAY false) [5; U32_MAX; 5] = [true; true; true].
Proof. vm_compute. reflexivity. Qed.

Lemma window_refines_witness :
  accept_all (new 7 GSS_C_REPLAY true) [7; 9; 8; 9; 200; 7; 199; 199]
  = receive_all receiver_init (map (relative (new 7 GSS_C_REPLAY true)) [7; 9; 8; 9; 200; 7; 199; 199]).
Proof.
  apply window_refines; [discriminate|]. repeat constructor; vm_compute; discriminate.
Defined.

Lemma no_replay_witness :
  NoDup (accepted (map (relative (new 7 12 false)) [7; 9; 8; 9; 200; 7; 199; 199])
                  (accept_all (new 7 12 false) [7; 9; 8; 9; 200; 7; 199; 199])).
Proof.
  apply no_replay; [discriminate|]. repeat constructor; vm_compute; discriminate.
Defined.

End SeqState.
