(* ===== verification/Der.v ===== *)
(** * DER lengths

    Models [krb5-types/src/der.rs], which the GSS token framing uses; [usize]
    is 64 bits. *)

From S2P Require Import Prelude.

Module Der.

(** [while n > 0 { n >>= 8; llen += 1 }]; eight steps empty a [usize]. *)
Fixpoint len_len_loop (fuel : nat) (n : Z) (llen : nat) : nat :=
  match fuel with
  | O => llen
  | S f => if 0 <? n then len_len_loop f (Z.shiftr n 8) (S llen) else llen
  end.

Definition len_len (len : Z) : nat :=
  if len <? 128 then 1 else len_len_loop 8 len 1.

(** [push_len], [push_tlv]: what they append. *)
Definition push_len (len : Z) : bytes :=
  let llen := len_len len in
  if (llen =? 1)%nat then [z8 len]
  else z8 (Z.lor 0x80 (Z.of_nat (llen - 1))) :: drop (8 - (llen - 1)) (to_be_bytes 8 len).

Definition push_tlv (tag : byte) (value : bytes) : bytes :=
  tag :: push_len (blen value) ++ value.

(** [input.get(1..=llen)] and the fold over its octets. *)
Definition read_len (input : bytes) : option (Z * nat) :=
  first ← head input;
  '(len, hlen) ←
    (if u8z first <? 0x80 then Some (u8z first, 1%nat)
     else
       let llen := Z.to_nat (Z.land (u8z first) 0x7f) in
       if (llen =? 0)%nat || (8 <? llen)%nat then None
       else if (length input <? 1 + llen)%nat then None
       else Some (fold_left (fun len b => Z.lor (Z.land (Z.shiftl len 8) U64_MAX) (u8z b))
                            (slice input 1 (1 + llen)) 0, S llen));
  if len <=? blen input - Z.of_nat hlen then Some (len, hlen) else None.

(** ** Proofs *)

Lemma lor_byte a b : 0 <= a -> 0 <= b < 256 -> Z.lor (a * 256) b = a * 256 + b.
Proof.
  intros Ha Hb. pose proof (Z.add_lor_land (a * 256) b) as H.
  enough (Z.land (a * 256) b = 0) by lia.
  apply Z.bits_inj'. intros n Hn. rewrite Z.land_spec, Z.bits_0.
  destruct (decide (n < 8)).
  - rewrite (Z.mul_pow2_bits_low _ 8 n) by lia. done.
  - rewrite <- (Z.mod_small b (2 ^ 8)) by lia. rewrite Z.mod_pow2_bits_high by lia. apply andb_false_r.
Qed.

(** The fold is the big-endian value while it stays in 64 bits. *)
Lemma fold_be l acc :
  0 <= acc -> acc * 256 ^ blen l + from_be_bytes l < 2 ^ 64 ->
  fold_left (fun len b => Z.lor (Z.land (Z.shiftl len 8) U64_MAX) (u8z b)) l acc
  = acc * 256 ^ blen l + from_be_bytes l.
Proof.
  revert acc. induction l as [|b l IH]; intros acc Ha Hb.
  { cbn. rewrite from_be_nil. unfold blen. cbn. lia. }
  cbn [fold_left]. rewrite from_be_cons in *. pose proof (byte.unsigned_range b) as Hr.
  pose proof (from_be_bound l) as Hl.
  assert (blen (b :: l) = blen l + 1) as Hc by (unfold blen; cbn [length]; lia).
  assert (0 < 256 ^ blen l) by (apply Z.pow_pos_nonneg; unfold blen; lia).
  rewrite Hc, Z.pow_add_r in * by (unfold blen; lia). change (256 ^ 1) with 256 in *.
  assert (Z.land (Z.shiftl acc 8) U64_MAX = acc * 256) as ->.
  { change U64_MAX with (Z.ones 64). rewrite Z.land_ones, Z.shiftl_mul_pow2 by lia.
    change (2 ^ 8) with 256. apply Z.mod_small. nia. }
  rewrite lor_byte by lia. rewrite IH by nia. lia.
Qed.

Lemma len_len_loop_spec fuel n a :
  0 <= n < 256 ^ Z.of_nat fuel ->
  exists k, len_len_loop fuel n a = (a + k)%nat /\ (k <= fuel)%nat /\ n < 256 ^ Z.of_nat k.
Proof.
  revert n a. induction fuel as [|f IH]; intros n a Hn.
  { exists 0%nat. cbn in *. split_and!; lia. }
  cbn [len_len_loop]. destruct (Z.ltb_spec 0 n).
  2: { exists 0%nat. cbn. split_and!; lia. }
  rewrite shiftr_8. destruct (IH (n / 256) (S a)) as (k & Hk & Hkf & Hkn).
  { rewrite Nat2Z.inj_succ, Z.pow_succ_r in Hn by lia. split; [apply Z.div_pos; lia|].
    apply Z.div_lt_upper_bound; lia. }
  exists (S k). rewrite Hk. split_and!; [lia|lia|].
  rewrite Nat2Z.inj_succ, Z.pow_succ_r by lia.
  pose proof (Z.div_mod n 256). pose proof (Z.mod_pos_bound n 256). lia.
Qed.

(** Dropping leading octets that are zero keeps the value. *)
Lemma from_be_drop n k l :
  length l = n -> (k <= n)%nat -> from_be_bytes l < 256 ^ Z.of_nat k ->
  from_be_bytes (drop (n - k) l) = from_be_bytes l.
Proof.
  intros Hl Hk Hb. pose proof (from_be_bound (drop (n - k) l)).
  rewrite <- (take_drop (n - k) l) in Hb |- * at 2. rewrite from_be_app in *.
  assert (blen (drop (n - k) l) = Z.of_nat k) as Hd by (unfold blen; rewrite length_drop; lia).
  rewrite Hd in *. pose proof (from_be_bound (take (n - k) l)).
  assert (from_be_bytes (take (n - k) l) = 0) as -> by nia. lia.
Qed.

Lemma len_len_spec n :
  128 <= n < 2 ^ 64 ->
  exists k, len_len n = S k /\ (1 <= k <= 8)%nat /\ n < 256 ^ Z.of_nat k.
Proof.
  intros Hn. unfold len_len. rewrite (proj2 (Z.ltb_ge _ _)) by lia.
  destruct (len_len_loop_spec 8 n 1) as (k & Hk & Hk8 & Hkn); [cbn; lia|].
  exists k. split_and!; [lia| |lia|lia]. destruct k; [cbn in Hkn; lia|lia].
Qed.

(** The octet that announces [k] length octets. *)
Lemma long_form_octet k :
  (1 <= k <= 8)%nat ->
  (u8z (z8 (Z.lor 0x80 (Z.of_nat k))) <? 0x80) = false /\
  Z.to_nat (Z.land (u8z (z8 (Z.lor 0x80 (Z.of_nat k)))) 0x7f) = k.
Proof. intros Hk. do 9 (destruct k as [|k]; [try lia; done|]). lia. Qed.

Lemma read_push_len n rest :
  0 <= n < 2 ^ 64 -> n <= blen rest ->
  read_len (push_len n ++ rest) = Some (n, length (push_len n)).
Proof.
  intros Hn Hr. destruct (Z.lt_ge_cases n 128) as [Hs|Hl].
  - unfold push_len, len_len. rewrite (proj2 (Z.ltb_lt _ _)) by lia. cbn [Nat.eqb app].
    unfold read_len. cbn -[Z.ltb Z.leb blen byte.unsigned byte.of_Z].
    rewrite byte.unsigned_of_Z. unfold byte.wrap. rewrite Z.mod_small by lia.
    rewrite (proj2 (Z.ltb_lt _ _)) by lia. cbn -[Z.leb blen].
    rewrite (proj2 (Z.leb_le _ _)); [done|]. unfold blen in *. cbn [length]. lia.
  - destruct (len_len_spec n) as (k & Hk & Hk8 & Hkn); [lia|].
    unfold push_len. rewrite Hk, (proj2 (Nat.eqb_neq _ _)) by lia.
    replace (S k - 1)%nat with k by lia. destruct (long_form_octet k Hk8) as [Hf Hland].
    set (b := z8 _) in *. set (d := drop (8 - k) (to_be_bytes 8 n)).
    assert (length d = k) as Hd by (unfold d; rewrite length_drop, length_to_be_bytes; lia).
    assert (from_be_bytes d = n) as Hv.
    { unfold d. rewrite from_be_drop by (rewrite ?length_to_be_bytes, ?from_to_be_bytes; cbn; lia).
      apply from_to_be_bytes. cbn. lia. }
    unfold read_len. rewrite <- app_comm_cons. cbn [head mbind option_bind].
    rewrite Hf, Hland. rewrite (proj2 (Nat.eqb_neq _ _)), (proj2 (Nat.ltb_ge 8 k)) by lia. cbn [orb].
    rewrite (proj2 (Nat.ltb_ge _ _)) by (cbn; rewrite length_app; lia).
    assert (slice (b :: d ++ rest) 1 (1 + k) = d) as ->.
    { unfold slice. replace (1 + k - 1)%nat with k by lia. cbn [drop]. by apply take_app_length'. }
    rewrite fold_be by (rewrite ?Hv; lia). rewrite Hv. cbn [mbind option_bind].
    rewrite Z.mul_0_l, Z.add_0_l, (proj2 (Z.leb_le _ _));
      [|unfold blen in *; cbn [length]; rewrite length_app; lia].
    cbn [length]. by rewrite Hd.
Qed.

Lemma fold_nonneg l acc :
  0 <= acc ->
  0 <= fold_left (fun len b => Z.lor (Z.land (Z.shiftl len 8) U64_MAX) (u8z b)) l acc.
Proof.
  revert acc. induction l as [|b l IH]; intros acc Ha; [done|]. cbn [fold_left]. apply IH.
  apply Z.lor_nonneg. split; [apply Z.land_nonneg; right; done|].
  pose proof (byte.unsigned_range b). lia.
Qed.

Lemma read_len_bounds input len hlen :
  read_len input = Some (len, hlen) ->
  0 <= len /\ (1 <= hlen)%nat /\ Z.of_nat hlen + len <= blen input.
Proof.
  unfold read_len. destruct input as [|b input]; [done|]. cbn [head mbind option_bind].
  pose proof (byte.unsigned_range b).
  assert (forall l h : Z, l <= blen (b :: input) - h -> h + l <= blen (b :: input)) as Hb by lia.
  destruct (u8z b <? 0x80); cbn [mbind option_bind].
  - destruct (Z.leb_spec (u8z b) (blen (b :: input) - Z.of_nat 1)); [|done].
    intros Hs. injection Hs as <- <-. split_and!; [lia|lia|by apply Hb].
  - destruct (_ || _); [done|]. destruct (_ <? _)%nat; [done|]. cbn [mbind option_bind].
    match goal with |- (if ?a <=? ?b then _ else _) = _ -> _ => destruct (Z.leb_spec a b) end; [|done].
    intros Hs. injection Hs as <- <-. split_and!; [apply fold_nonneg; lia|lia|by apply Hb].
Qed.

(** a DER length reads back as itself: for every length below 2^64 that the
    rest of the input can hold, [read_len] of what [push_len] wrote is that
    length and the number of octets written; and whatever [read_len] returns,
    header and contents lie within the input. *)
Theorem der_length n rest :
  0 <= n < 2 ^ 64 -> n <= blen rest ->
  read_len (push_len n ++ rest) = Some (n, length (push_len n)) /\
  (forall input len hlen, read_len input = Some (len, hlen) ->
     0 <= len /\ (1 <= hlen)%nat /\ Z.of_nat hlen + len <= blen input).
Proof. intros Hn Hr. split; [by apply read_push_len|exact read_len_bounds]. Qed.

Lemma der_length_witness :
  read_len (push_len 300 ++ replicate 300 x00) = Some (300, 3%nat).
Proof. apply (der_length 300 (replicate 300 x00)); vm_compute; done. Defined.

End Der.
