(* ===== verification/Name.v ===== *)
(** * Principal names

    Models [krb5-types/src/name.rs]: parsing a principal name from its printed
    form, and printing it with the separators quoted.  A [String] read or built
    one [char] at a time is the list of its chars' code points. *)

From S2P Require Import Prelude Utf8.

Module Name.

Abbreviation ustr := (list Z).

(** [krb5_types::NameError]. *)
Inductive NameError := NotUtf8 | NotGeneralString | Empty | Malformed.

#[global] Instance NameError_eq_dec : EqDecision NameError.
Proof. solve_decision. Defined.

Record ParsedName := mkParsed {
  components : list ustr;
  realm : ustr;
  has_realm : bool;
}.

Definition BACKSLASH : Z := 0x5c.
Definition SLASH : Z := 0x2f.
Definition AT : Z := 0x40.

(** [comps.last_mut()] and [push]: nothing on an empty list. *)
Fixpoint push_last (comps : list ustr) (ch : Z) : list ustr :=
  match comps with
  | [] => []
  | [cur] => [cur ++ [ch]]
  | c :: cs => c :: push_last cs ch
  end.

Definition push_char (comps : list ustr) (realm : option ustr) (in_realm : bool) (ch : Z)
    : list ustr * option ustr :=
  if in_realm then (comps, Some (default [] realm ++ [ch])) else (push_last comps ch, realm).

(** The escapes of [parse_name_ex]: n, t, b and 0; any other char is itself. *)
Definition unescape (n : Z) : Z :=
  if n =? 0x6e then 0x0a
  else if n =? 0x74 then 0x09
  else if n =? 0x62 then 0x08
  else if n =? 0x30 then 0
  else n.

(** The [while let Some(c) = chars.next()] loop. *)
Fixpoint parse_loop (enterprise : bool) (chars : ustr) (comps : list ustr) (realm : option ustr)
    (in_realm first_at : bool) : result NameError (list ustr * option ustr * bool) :=
  match chars with
  | [] => Ok (comps, realm, in_realm)
  | c :: chars =>
      if c =? BACKSLASH then
        match chars with
        | [] => Err Malformed
        | n :: chars =>
            let '(comps, realm) := push_char comps realm in_realm (unescape n) in
            parse_loop enterprise chars comps realm in_realm first_at
        end
      else if (c =? SLASH) && negb enterprise then
        if in_realm then Err Malformed
        else parse_loop enterprise chars (comps ++ [[]]) realm in_realm first_at
      else if (c =? AT) && (negb enterprise || negb first_at) then
        if in_realm then Err Malformed
        else parse_loop enterprise chars comps (Some []) true first_at
      else
        let first_at := if (c =? AT) && enterprise then false else first_at in
        let '(comps, realm) := push_char comps realm in_realm c in
        parse_loop enterprise chars comps realm in_realm first_at
  end.

Definition parse_name_ex (s default_realm : ustr) (enterprise : bool)
    : result NameError ParsedName :=
  let? (comps, realm, in_realm) := parse_loop enterprise s [[]] None false true in
  Ok (mkParsed comps (default default_realm realm) in_realm).

Definition parse_name (s default_realm : ustr) : result NameError (list ustr * ustr) :=
  let? p := parse_name_ex s default_realm false in
  Ok (components p, realm p).

Definition quote_char (c : Z) : ustr :=
  if (c =? SLASH) || (c =? AT) || (c =? BACKSLASH) then [BACKSLASH; c]
  else if c =? 0x09 then [BACKSLASH; 0x74]
  else if c =? 0x0a then [BACKSLASH; 0x6e]
  else if c =? 0x08 then [BACKSLASH; 0x62]
  else if c =? 0 then [BACKSLASH; 0x30]
  else [c].

Definition quote_component (s : ustr) : ustr := flat_map quote_char s.

(** [[..].join(sep)]. *)
Fixpoint join (sep : Z) (l : list ustr) : ustr :=
  match l with
  | [] => []
  | [c] => c
  | c :: cs => c ++ [sep] ++ join sep cs
  end.

Definition unparse_components (comps : list ustr) : ustr :=
  join SLASH (map quote_component comps).

Definition unparse_name (comps : list ustr) (realm : ustr) : ustr :=
  unparse_components comps ++ [AT] ++ quote_component realm.

(** [c.split(sep)]: never empty. *)
Fixpoint split (sep : Z) (s : ustr) : list ustr :=
  match s with
  | [] => [[]]
  | c :: s =>
      if c =? sep then [] :: split sep s
      else match split sep s with
           | [] => [[c]]
           | cur :: rest => (c :: cur) :: rest
           end
  end.

Definition unparse_components_no_realm (comps : list ustr) : ustr :=
  join SLASH (map (fun c => join AT (map quote_component (split AT c))) comps).

(** ** The parser on quoted text *)

Lemma push_last_snoc comps cur ch : push_last (comps ++ [cur]) ch = comps ++ [cur ++ [ch]].
Proof.
  induction comps as [|c comps IH]; [done|].
  cbn [app push_last]. destruct comps; [done|]. cbn [app] in *. by rewrite IH.
Qed.

(** A quoted char is pushed unquoted, wherever the parser stands. *)
Lemma parse_quote_char ent c rest comps realm in_realm fa :
  parse_loop ent (quote_char c ++ rest) comps realm in_realm fa =
  (let '(comps', realm') := push_char comps realm in_realm c in
   parse_loop ent rest comps' realm' in_realm fa).
Proof.
  unfold quote_char.
  destruct (c =? SLASH) eqn:E1; [apply Z.eqb_eq in E1 as ->; reflexivity|].
  destruct (c =? AT) eqn:E2; [apply Z.eqb_eq in E2 as ->; reflexivity|].
  destruct (c =? BACKSLASH) eqn:E3; [apply Z.eqb_eq in E3 as ->; reflexivity|].
  cbn [orb].
  destruct (c =? 0x09) eqn:E4; [apply Z.eqb_eq in E4 as ->; reflexivity|].
  destruct (c =? 0x0a) eqn:E5; [apply Z.eqb_eq in E5 as ->; reflexivity|].
  destruct (c =? 0x08) eqn:E6; [apply Z.eqb_eq in E6 as ->; reflexivity|].
  destruct (c =? 0) eqn:E7; [apply Z.eqb_eq in E7 as ->; reflexivity|].
  cbn [app parse_loop]. by rewrite E1, E2, E3.
Qed.

Lemma parse_quote_component ent s rest comps cur fa :
  parse_loop ent (quote_component s ++ rest) (comps ++ [cur]) None false fa =
  parse_loop ent rest (comps ++ [cur ++ s]) None false fa.
Proof.
  revert cur. induction s as [|c s IH]; intros cur; [by rewrite app_nil_r|].
  cbn [quote_component flat_map]. rewrite <- app_assoc, parse_quote_char.
  cbn [push_char]. rewrite push_last_snoc. fold (quote_component s).
  by rewrite IH, <- app_assoc.
Qed.

Lemma parse_quote_realm ent s comps r fa :
  parse_loop ent (quote_component s) comps (Some r) true fa = Ok (comps, Some (r ++ s), true).
Proof.
  revert r. induction s as [|c s IH]; intros r; [by rewrite app_nil_r|].
  cbn [quote_component flat_map]. rewrite parse_quote_char.
  cbn [push_char default]. fold (quote_component s). by rewrite IH, <- app_assoc.
Qed.

Lemma parse_components comps acc rest fa :
  comps <> [] ->
  parse_loop false (unparse_components comps ++ rest) (acc ++ [[]]) None false fa =
  parse_loop false rest (acc ++ comps) None false fa.
Proof.
  revert acc. unfold unparse_components.
  induction comps as [|c comps IH]; intros acc Hne; [done|].
  destruct comps as [|c' comps]; cbn [map join].
  - by rewrite parse_quote_component.
  - rewrite <- !app_assoc, parse_quote_component.
    cbn [app parse_loop]. change (SLASH =? BACKSLASH) with false.
    change ((SLASH =? SLASH) && negb false) with true. cbn iota.
    rewrite <- (app_assoc acc), (app_assoc acc [c] [[]]).
    rewrite IH by done. by rewrite <- app_assoc.
Qed.

Lemma parse_unparsed c r :
  c <> [] -> parse_loop false (unparse_name c r) [[]] None false true = Ok (c, Some r, true).
Proof.
  intros Hc. unfold unparse_name. rewrite (parse_components c [] _ true Hc).
  cbn [app parse_loop]. change (AT =? BACKSLASH) with false.
  change ((AT =? SLASH) && negb false) with false.
  change ((AT =? AT) && (negb false || negb true)) with true. cbn iota.
  by rewrite parse_quote_realm.
Qed.

(** [unparse_components_no_realm] copies the realm separator as it is and
    quotes every other char. *)
Definition quote_but_at (c : Z) : ustr := if c =? AT then [AT] else quote_char c.

Lemma split_not_nil sep s : split sep s <> [].
Proof.
  destruct s as [|c s]; cbn [split]; [done|].
  destruct (c =? sep); [done|]. by destruct (split sep s).
Qed.

Lemma join_split_quote s :
  join AT (map quote_component (split AT s)) = flat_map quote_but_at s.
Proof.
  induction s as [|c s IH]; [done|]. cbn [split flat_map]. unfold quote_but_at at 1.
  pose proof (split_not_nil AT s) as Hne.
  destruct (c =? AT).
  - cbn [map]. destruct (split AT s) as [|x l]; [done|]. cbn [map join] in *. by rewrite <- IH.
  - destruct (split AT s) as [|x l]; [done|]. rewrite <- IH.
    destruct l; cbn [map join quote_component flat_map]; by rewrite <- ?app_assoc.
Qed.

(** In enterprise mode the first separator is part of the name. *)
Lemma parse_enterprise (s : ustr) comps cur (fa : bool) :
  (count_occ Z.eq_dec s AT <= if fa then 1 else 0)%nat ->
  exists fa', parse_loop true (flat_map quote_but_at s) (comps ++ [cur]) None false fa =
  parse_loop true [] (comps ++ [cur ++ s]) None false fa'.
Proof.
  revert cur fa. induction s as [|c s IH]; intros cur fa Hc; [exists fa; by rewrite app_nil_r|].
  cbn [flat_map]. unfold quote_but_at at 1. destruct (Z.eqb_spec c AT) as [->|Hat].
  - rewrite count_occ_cons_eq in Hc by done. destruct fa; [|lia].
    destruct (IH (cur ++ [AT]) false) as [fa' Hfa]; [lia|]. exists fa'.
    cbn [app parse_loop]. change (AT =? BACKSLASH) with false.
    change ((AT =? SLASH) && negb true) with false.
    change ((AT =? AT) && (negb true || negb true)) with false.
    change ((AT =? AT) && true) with true. cbn [push_char].
    rewrite push_last_snoc, Hfa. by rewrite <- app_assoc.
  - rewrite count_occ_cons_neq in Hc by done.
    destruct (IH (cur ++ [c]) fa Hc) as [fa' Hfa]. exists fa'.
    rewrite parse_quote_char. cbn [push_char]. rewrite push_last_snoc, Hfa.
    by rewrite <- app_assoc.
Qed.

(** ** The round trip *)

(** C32: the printed form of a principal name parses back to the name.  With its
    realm it gives the components and that realm, whatever the default realm is
    and whatever chars (separators, backslashes, control chars) the components
    and the realm hold; without a realm it gives the components and the default
    realm; and an enterprise name with at most one realm separator, printed
    without quoting it, parses back as one component in enterprise mode. *)
Theorem unparse_parse (comps : list ustr) (r d : ustr) :
  comps <> [] ->
  parse_name_ex (unparse_name comps r) d false = Ok (mkParsed comps r true) /\
  parse_name_ex (unparse_components comps) d false = Ok (mkParsed comps d false) /\
  (forall c, (count_occ Z.eq_dec c AT <= 1)%nat ->
    parse_name_ex (unparse_components_no_realm [c]) d true = Ok (mkParsed [c] d false)).
Proof.
  intros Hne. unfold parse_name_ex. split; [|split].
  - by rewrite parse_unparsed.
  - rewrite <- (app_nil_r (unparse_components comps)).
    by rewrite (parse_components comps [] _ true Hne).
  - intros c Hc. unfold unparse_components_no_realm. cbn [map join].
    rewrite join_split_quote.
    destruct (parse_enterprise c [] [] true Hc) as [fa' Hfa]. cbn [app] in Hfa.
    by rewrite Hfa.
Qed.

(** host/a@b with a tab in its realm *)
Lemma unparse_parse_witness :
  let comps := [[0x68; 0x6f; 0x73; 0x74]; [0x61; AT; SLASH; 0x62; BACKSLASH]] in
  comps <> [] /\
  parse_name_ex (unparse_name comps [0x52; 9]) [0x44] false = Ok (mkParsed comps [0x52; 9] true).
Proof.
  split; [done|].
  apply (unparse_parse [[0x68; 0x6f; 0x73; 0x74]; [0x61; AT; SLASH; 0x62; BACKSLASH]] [0x52; 9] [0x44]).
  done.
Defined.

(** two principals never print alike: [unparse_name] is injective on names
    with at least one component, so a name in the database or in an access list
    stands for one principal. *)
Theorem unparse_name_injective (c1 c2 : list ustr) (r1 r2 : ustr) :
  c1 <> [] -> c2 <> [] -> unparse_name c1 r1 = unparse_name c2 r2 -> c1 = c2 /\ r1 = r2.
Proof.
  intros H1 H2 H. pose proof (parse_unparsed c1 r1 H1) as E1.
  rewrite H, (parse_unparsed c2 r2 H2) in E1. by injection E1 as -> ->.
Qed.

Lemma unparse_name_injective_witness :
  exists c r, c <> [] /\ unparse_name c r = unparse_name [[0x61]] [0x52] /\ c = [[0x61]] /\ r = [0x52].
Proof.
  exists [[0x61]], [0x52]. split; [done|]. split; [reflexivity|].
  apply (unparse_name_injective [[0x61]] [[0x61]] [0x52] [0x52]); done.
Defined.

End Name.

(** ** Names on the wire

    [PrincipalName] of [krb5-types/src/lib.rs]; a component is the bytes of its
    [KerberosString]. *)

Module PrincipalName.

Record PrincipalName := mkName { name_type : Z; name_string : list bytes }.

#[global] Instance PrincipalName_eq_dec : EqDecision PrincipalName.
Proof. solve_decision. Defined.

Definition NT_UNKNOWN : Z := 0.
Definition NT_PRINCIPAL : Z := 1.
Definition NT_SRV_INST : Z := 2.
Definition NT_SRV_HST : Z := 3.
Definition NT_ENTERPRISE : Z := 10.
Definition NT_WELLKNOWN : Z := 11.

Definition KRBTGT : bytes := String.list_byte_of_string "krbtgt".

Definition krbtgt (realm : bytes) : PrincipalName := mkName NT_SRV_INST [KRBTGT; realm].

Definition components_eq (a b : PrincipalName) : bool :=
  bool_decide (name_string a = name_string b).

Definition is_krbtgt (n : PrincipalName) : bool :=
  match name_string n with [k; _] => bool_decide (k = KRBTGT) | _ => false end.

Definition is_krbtgt_for (n : PrincipalName) (realm : bytes) : bool :=
  match name_string n with
  | [k; r] => bool_decide (k = KRBTGT) && bool_decide (r = realm)
  | _ => false
  end.

Definition is_local_tgs_principal (n : PrincipalName) (princ_realm : bytes) : bool :=
  is_krbtgt n && is_krbtgt_for n princ_realm.

Definition is_cross_tgs_principal (n : PrincipalName) (princ_realm : bytes) : bool :=
  is_krbtgt n && negb (is_krbtgt_for n princ_realm).

(** [krb5_types::principal_compare]: the name type is not compared. *)
Definition principal_compare (name_a : PrincipalName) (realm_a : bytes) (name_b : PrincipalName)
    (realm_b : bytes) : bool :=
  bool_decide (realm_a = realm_b) && components_eq name_a name_b.

Lemma is_krbtgt_for_spec n realm :
  is_krbtgt_for n realm = true <-> name_string n = [KRBTGT; realm].
Proof.
  unfold is_krbtgt_for. destruct (name_string n) as [|k [|r [|x l]]]; try by split.
  rewrite andb_true_iff, !bool_decide_eq_true. split; [by intros [-> ->]|]. intros H. by simplify_eq.
Qed.

End PrincipalName.
