(* ===== verification/Pac.v ===== *)
(** * Privilege attribute certificates

    Models the container of [krb5-types/src/pac.rs]: its parsing and writing, the
    zeroing of its signatures, and its client-information and
    delegation-information buffers.  The logon-information buffers (NDR) are not
    modelled. *)

From S2P Require Import Prelude Utf8.

Definition PAC_LOGON_INFO : Z := 1.
Definition PAC_SERVER_CHECKSUM : Z := 6.
Definition PAC_PRIVSVR_CHECKSUM : Z := 7.
Definition PAC_CLIENT_INFO : Z := 10.
Definition PAC_DELEGATION_INFO : Z := 11.
Definition PAC_UPN_DNS_INFO : Z := 12.
Definition PAC_TICKET_CHECKSUM : Z := 16.
Definition PAC_ATTRIBUTES_INFO : Z := 17.
Definition PAC_REQUESTER_SID : Z := 18.
Definition PAC_FULL_CHECKSUM : Z := 19.
Definition MAX_BUFFERS : Z := 4096.
Definition PAC_ALIGNMENT : Z := 8.
Definition NDR_PTR_BASE : Z := 0x00020000.
Definition NT_UNIX_EPOCH : Z := 116444736000000000.

Module Pac.

Record PacBuffer := mkBuffer { kind : Z; data : bytes; offset : nat }.
Definition new_buffer (k : Z) (d : bytes) : PacBuffer := mkBuffer k d 0.

Record Pac := mkPac { version : Z; buffers : list PacBuffer; raw : bytes }.
Definition built (v : Z) (bs : list PacBuffer) : Pac := mkPac v bs [].

Inductive PacError := Truncated | Integrity | MissingBuffer | Malformed.

(** ** The container *)

Definition u32_at (b : bytes) (i : nat) : Z := from_le_bytes (slice b i (i + 4)).
Definition u64_at (b : bytes) (i : nat) : Z := from_le_bytes (slice b i (i + 8)).

(** The buffer a header entry at [off] describes. *)
Definition entry_at (b : bytes) (header_len : Z) (off : nat) : result PacError PacBuffer :=
  let k := u32_at b off in
  let size := u32_at b (off + 4) in
  let o := u64_at b (off + 8) in
  if negb (o mod PAC_ALIGNMENT =? 0) then Err Malformed
  else if (o <? header_len) || (blen b <? o) || (blen b - o <? size) then Err Truncated
  else Ok (mkBuffer k (slice b (Z.to_nat o) (Z.to_nat (o + size))) (Z.to_nat o)).

Fixpoint entries (b : bytes) (header_len : Z) (count off : nat) : result PacError (list PacBuffer) :=
  match count with
  | O => Ok []
  | S n =>
      let? e := entry_at b header_len off in
      let? es := entries b header_len n (off + 16) in
      Ok (e :: es)
  end.

Definition parse (b : bytes) : result PacError Pac :=
  if blen b <? 8 then Err Malformed
  else
    let count := u32_at b 0 in
    let v := u32_at b 4 in
    if negb (v =? 0) then Err Malformed
    else if negb ((1 <=? count) && (count <=? MAX_BUFFERS)) then Err Truncated
    else
      let header_len := 8 + 16 * count in
      if blen b <? header_len then Err Truncated
      else
        let? bs := entries b header_len (Z.to_nat count) 8 in
        Ok (mkPac v bs b).

Definition pad (n : nat) : nat := ((8 - n mod 8) mod 8)%nat.

(** The headers and the payloads of the buffers, from the offset [off] on. *)
Fixpoint layout (bs : list PacBuffer) (off : Z) : bytes * bytes :=
  match bs with
  | [] => ([], [])
  | b :: bs =>
      let n := length (data b) in
      let (hs, ps) := layout bs (off + Z.of_nat (n + pad n)) in
      (to_le_bytes 4 (kind b) ++ to_le_bytes 4 (try_from_or 32 (Z.of_nat n) 0) ++ to_le_bytes 8 off ++ hs,
       data b ++ replicate (pad n) x00 ++ ps)
  end.

Definition to_bytes (p : Pac) : bytes :=
  let (hs, ps) := layout (buffers p) (8 + 16 * blen (buffers p)) in
  to_le_bytes 4 (try_from_or 32 (blen (buffers p)) U32_MAX) ++ to_le_bytes 4 (version p) ++ hs ++ ps.

Definition of_kind (p : Pac) (k : Z) : list PacBuffer := List.filter (fun b => kind b =? k) (buffers p).

Definition buffer (p : Pac) (k : Z) : option bytes :=
  match of_kind p k with b :: _ => Some (data b) | [] => None end.

Definition unique_buffer (p : Pac) (k : Z) : result PacError (option bytes) :=
  match of_kind p k with
  | [] => Ok None
  | [b] => Ok (Some (data b))
  | _ => Err Malformed
  end.

(** ** Signatures *)

Definition zero_signature_payload (d : bytes) : bytes := take 4 d ++ replicate (length d - 4) x00.

Definition zeroed (kinds : list Z) (b : PacBuffer) : PacBuffer :=
  if bool_decide (kind b ∈ kinds) then mkBuffer (kind b) (zero_signature_payload (data b)) (offset b) else b.

Definition bytes_zeroing (p : Pac) (kinds : list Z) : bytes :=
  to_bytes (mkPac (version p) (map (zeroed kinds) (buffers p)) (raw p)).

Definition bytes_for_checksum (p : Pac) : bytes := bytes_zeroing p [PAC_SERVER_CHECKSUM; PAC_PRIVSVR_CHECKSUM].
Definition bytes_for_full_checksum (p : Pac) : bytes :=
  bytes_zeroing p [PAC_SERVER_CHECKSUM; PAC_PRIVSVR_CHECKSUM; PAC_FULL_CHECKSUM].

Fixpoint zero_in (p : Pac) (copy : bytes) (kinds : list Z) : result PacError bytes :=
  match kinds with
  | [] => Ok copy
  | k :: kinds =>
      match of_kind p k with
      | [] => Err MissingBuffer
      | [b] =>
          if (length (data b) <? 4)%nat then Err Truncated
          else
            let start := (offset b + 4)%nat in
            let stop := (offset b + length (data b))%nat in
            if (length copy <? stop)%nat || (stop <? start)%nat then Err Truncated
            else zero_in p (write_at copy start (replicate (stop - start) x00)) kinds
      | _ => Err Malformed
      end
  end.

Definition received_zeroed (p : Pac) (kinds : list Z) : result PacError bytes :=
  match raw p with
  | [] => if forallb (fun k => existsb (fun b => kind b =? k) (buffers p)) kinds
          then Ok (bytes_zeroing p kinds) else Err MissingBuffer
  | copy => zero_in p copy kinds
  end.

Definition server_checksum (p : Pac) := unique_buffer p PAC_SERVER_CHECKSUM.
Definition kdc_checksum (p : Pac) := unique_buffer p PAC_PRIVSVR_CHECKSUM.
Definition ticket_checksum (p : Pac) := unique_buffer p PAC_TICKET_CHECKSUM.
Definition full_checksum (p : Pac) := unique_buffer p PAC_FULL_CHECKSUM.

(** [cksumtype] is an [i32]; its octets are those of its value modulo 2^32. *)
Definition signature_buffer (cksumtype : Z) (mac : bytes) : bytes := to_le_bytes 4 cksumtype ++ mac.

(** ** Client information *)

Definition unix_to_nt (unix : Z) : Z := Z.min U64_MAX (Z.min U64_MAX (unix * 10000000) + NT_UNIX_EPOCH).

Definition utf16_le (s : list Z) : bytes := flat_map (to_le_bytes 2) (Utf8.encode_utf16 s).

Definition client_info_buffer (authtime : Z) (name : list Z) : bytes :=
  let utf16 := utf16_le name in
  let n := try_from_or 16 (blen utf16) U16_MAX in
  to_le_bytes 8 (unix_to_nt authtime) ++ to_le_bytes 2 n ++ take (Z.to_nat n) utf16.

(** [as_chunks::<2>().0] with [u16::from_le_bytes] of each. *)
Fixpoint le_units (b : bytes) : list Z :=
  match b with
  | x :: y :: b => from_le_bytes [x; y] :: le_units b
  | _ => []
  end.

(** [String::from_utf16]: a surrogate that is not one of a pair is an error. *)
Fixpoint from_utf16 (us : list Z) : option (list Z) :=
  match us with
  | [] => Some []
  | u :: us =>
      if (0xd800 <=? u) && (u <=? 0xdbff) then
        match us with
        | v :: us => if (0xdc00 <=? v) && (v <=? 0xdfff)
                     then cons (0x10000 + (u - 0xd800) * 0x400 + (v - 0xdc00)) <$> from_utf16 us
                     else None
        | [] => None
        end
      else if (0xdc00 <=? u) && (u <=? 0xdfff) then None
      else cons u <$> from_utf16 us
  end.

Definition parse_client_info (b : bytes) : option (Z * list Z) :=
  if (length b <? 10)%nat then None
  else
    let nt := from_le_bytes (slice b 0 8) in
    let nlen := from_le_bytes (slice b 8 10) in
    if negb (nlen mod 2 =? 0) || (blen b <? 10 + nlen) then None
    else
      match from_utf16 (le_units (slice b 10 (10 + Z.to_nat nlen))) with
      | None => None
      | Some name =>
          let unix := Z.max 0 (nt - NT_UNIX_EPOCH) / 10000000 in
          if unix <? 2 ^ 32 then Some (unix, name) else None
      end.

(** ** Delegation information *)

Record S4uDelegationInfo := mkDelegation { proxy_target : list Z; transited_services : list (list Z) }.

Definition utf16_units (s : list Z) : Z := try_from_or 16 (blen (Utf8.encode_utf16 s)) U16_MAX.

(** The pointer written and the next one; 0 stands for the first. *)
Definition ndr_ptr (p : Z) : Z := if p =? 0 then NDR_PTR_BASE else p.
Definition next_ptr (p : Z) : Z := Z.min U32_MAX (ndr_ptr p + 4).

Definition enc_wchar (s : list Z) : bytes :=
  let units := Utf8.encode_utf16 s in
  let n := try_from_or 32 (blen units) 0 in
  to_le_bytes 4 (n + 1) ++ to_le_bytes 4 0 ++ to_le_bytes 4 n ++ flat_map (to_le_bytes 2) units
  ++ (if n mod 2 =? 1 then to_le_bytes 2 0 else []).

(** The lengths and the pointer of each transited service. *)
Fixpoint service_headers (ss : list (list Z)) (ptr : Z) : bytes :=
  match ss with
  | [] => []
  | s :: ss =>
      let un := utf16_units s in
      to_le_bytes 2 (2 * un) ++ to_le_bytes 2 (2 * (un + 1)) ++ to_le_bytes 4 (ndr_ptr ptr)
      ++ service_headers ss (next_ptr ptr)
  end.

(** What follows the sixteen octets of NDR header, before the padding. *)
Definition delegation_fields (info : S4uDelegationInfo) : bytes :=
  let pn := utf16_units (proxy_target info) in
  let n := try_from_or 32 (blen (transited_services info)) 0 in
  to_le_bytes 4 (ndr_ptr 0) ++ to_le_bytes 2 (2 * pn) ++ to_le_bytes 2 (2 * (pn + 1))
  ++ to_le_bytes 4 (ndr_ptr (next_ptr 0)) ++ to_le_bytes 4 n ++ to_le_bytes 4 (ndr_ptr (next_ptr (next_ptr 0)))
  ++ enc_wchar (proxy_target info) ++ to_le_bytes 4 n
  ++ service_headers (transited_services info) (next_ptr (next_ptr (next_ptr 0)))
  ++ flat_map enc_wchar (transited_services info).

Definition ndr_header (body : bytes) : bytes :=
  [x01; x10; x08; x00] ++ to_le_bytes 4 0xcccccccc ++ to_le_bytes 4 (try_from_or 32 (blen body) 0) ++ to_le_bytes 4 0.

Definition delegation_info_buffer (info : S4uDelegationInfo) : bytes :=
  let body := delegation_fields info in
  let body := body ++ (if (length body mod 8 =? 0)%nat then [] else to_le_bytes 4 0) in
  ndr_header body ++ body.

(** Reads from a position are reads from the bytes after it. *)
Definition read_u32 (b : bytes) : result PacError (Z * bytes) :=
  if (length b <? 4)%nat then Err Truncated else Ok (from_le_bytes (take 4 b), drop 4 b).
Definition skip_u16 (b : bytes) : result PacError bytes :=
  if (length b <? 2)%nat then Err Truncated else Ok (drop 2 b).

Definition dec_wchar (b : bytes) : result PacError (list Z * bytes) :=
  let? (_, b) := read_u32 b in
  let? (_, b) := read_u32 b in
  let? (actual, b) := read_u32 b in
  if blen b <? 2 * actual then Err Truncated
  else
    let n := Z.to_nat (2 * actual) in
    let units := le_units (take n b) in
    let b := drop n b in
    let? b := (if actual mod 2 =? 1 then skip_u16 b else Ok b) in
    match from_utf16 units with Some s => Ok (s, b) | None => Err Malformed end.

Fixpoint dec_wchars (n : nat) (b : bytes) : result PacError (list (list Z) * bytes) :=
  match n with
  | O => Ok ([], b)
  | S n =>
      let? (s, b) := dec_wchar b in
      let? (l, b) := dec_wchars n b in
      Ok (s :: l, b)
  end.

Definition parse_delegation_info (d : bytes) : result PacError S4uDelegationInfo :=
  if (length d <? 16)%nat then Err Truncated
  else if negb (bool_decide (take 4 d = [x01; x10; x08; x00])) then Err Malformed
  else if negb (u32_at d 8 =? blen d - 16) then Err Malformed
  else
    let b := drop 16 d in
    let? (_, b) := read_u32 b in
    let? b := skip_u16 b in
    let? b := skip_u16 b in
    let? (_, b) := read_u32 b in
    let? (_, b) := read_u32 b in
    let? (_, b) := read_u32 b in
    let? (target, b) := dec_wchar b in
    let? (n, b) := read_u32 b in
    if blen d / 8 <? n then Err Malformed
    else
      let? (services, _) := dec_wchars (Z.to_nat n) (drop (Z.to_nat (8 * n)) b) in
      Ok (mkDelegation target services).

(** ** The container is read back *)

Definition payload (b : PacBuffer) : bytes := data b ++ replicate (pad (length (data b))) x00.

(** What the headers depend on. *)
Definition shape (bs : list PacBuffer) : list (Z * nat) := map (fun b => (kind b, length (data b))) bs.

Lemma layout_payload bs off : snd (layout bs off) = flat_map payload bs.
Proof.
  revert off. induction bs as [|b bs IH]; intros off; cbn [layout flat_map]; [done|].
  specialize (IH (off + Z.of_nat (length (data b) + pad (length (data b))))). destruct (layout bs _) as [hs ps].
  cbn [snd] in *. unfold payload. by rewrite IH, <- app_assoc.
Qed.

Lemma layout_shape bs bs' off : shape bs = shape bs' -> fst (layout bs off) = fst (layout bs' off).
Proof.
  revert bs' off. induction bs as [|b bs IH]; intros [|b' bs'] off; cbn [shape map]; intros E; try done.
  injection E as Ek El E. cbn [layout]. rewrite <- Ek, <- El.
  specialize (IH bs' (off + Z.of_nat (length (data b) + pad (length (data b)))) E).
  destruct (layout bs _) as [hs ps], (layout bs' _) as [hs' ps']. cbn [fst] in *. by rewrite IH.
Qed.

Lemma length_layout bs off : length (fst (layout bs off)) = (16 * length bs)%nat.
Proof.
  revert off. induction bs as [|b bs IH]; intros off; cbn [layout]; [done|].
  specialize (IH (off + Z.of_nat (length (data b) + pad (length (data b))))). destruct (layout bs _) as [hs ps].
  cbn [fst] in *. rewrite !length_app, !length_to_le_bytes, IH, length_cons. lia.
Qed.

Lemma length_payload b : length (payload b) = (length (data b) + pad (length (data b)))%nat.
Proof. unfold payload. by rewrite length_app, length_replicate. Qed.

(** A payload ends at a multiple of eight octets. *)
Lemma payload_aligned b : Z.of_nat (length (payload b)) mod 8 = 0.
Proof.
  rewrite length_payload. unfold pad. set (n := length (data b)).
  pose proof (Nat.mod_upper_bound n 8 ltac:(done)). pose proof (Nat.div_mod_eq n 8) as Hn.
  destruct (decide (n mod 8 = 0)%nat) as [E|E].
  - rewrite E, Nat.sub_0_r, Nat.Div0.mod_same, Nat.add_0_r. rewrite Hn, E, Nat.add_0_r, Nat2Z.inj_mul.
    rewrite Z.mul_comm. apply Z.mod_mul. lia.
  - rewrite (Nat.mod_small (8 - n mod 8)) by lia.
    replace (Z.of_nat (n + (8 - n mod 8))) with (Z.of_nat (n / 8 + 1) * 8) by lia. apply Z.mod_mul. lia.
Qed.

(** The buffers at the offsets they are written at. *)
Fixpoint placed (bs : list PacBuffer) (off : nat) : list PacBuffer :=
  match bs with
  | [] => []
  | b :: bs => mkBuffer (kind b) (data b) off :: placed bs (off + length (payload b))
  end.

(** Kinds are 32 bits and the sizes fit the fields of the headers. *)
Definition writable (bs : list PacBuffer) : Prop :=
  Forall (fun b => is_u32 (kind b) /\ blen (data b) < 2 ^ 32) bs /\
  8 + 16 * blen bs + blen (flat_map payload bs) < 2 ^ 64.

Lemma u32_mid a v rest i : length a = i -> is_u32 v -> u32_at (a ++ to_le_bytes 4 v ++ rest) i = v.
Proof.
  intros <- Hv. unfold u32_at. rewrite slice_mid; [|done|by rewrite length_app, length_to_le_bytes].
  by apply from_to_le_bytes.
Qed.

Lemma u64_mid a v rest i : length a = i -> is_u64 v -> u64_at (a ++ to_le_bytes 8 v ++ rest) i = v.
Proof.
  intros <- Hv. unfold u64_at. rewrite slice_mid; [|done|by rewrite length_app, length_to_le_bytes].
  by apply from_to_le_bytes.
Qed.

(** An entry whose payload is where it says. *)
Lemma entry_at_written pre b off hs mid rest hl :
  is_u32 (kind b) -> blen (data b) < 2 ^ 32 -> hl <= Z.of_nat off -> Z.of_nat off mod 8 = 0 ->
  Z.of_nat off < 2 ^ 64 ->
  length (pre ++ to_le_bytes 4 (kind b) ++ to_le_bytes 4 (blen (data b)) ++ to_le_bytes 8 (Z.of_nat off) ++ hs ++ mid) = off ->
  entry_at (pre ++ to_le_bytes 4 (kind b) ++ to_le_bytes 4 (blen (data b)) ++ to_le_bytes 8 (Z.of_nat off) ++ hs ++ mid ++ data b ++ rest)
    hl (length pre) = Ok (mkBuffer (kind b) (data b) off).
Proof.
  intros Hk Hd Hhl Hal Ho Hlen. set (all := pre ++ _).
  assert (all = (pre ++ to_le_bytes 4 (kind b) ++ to_le_bytes 4 (blen (data b)) ++ to_le_bytes 8 (Z.of_nat off) ++ hs ++ mid) ++ data b ++ rest) as Hall
    by (unfold all; by rewrite <- !app_assoc).
  assert (length all = off + length (data b) + length rest)%nat as Hl by (rewrite Hall, !length_app; rewrite !length_app in Hlen; lia).
  unfold entry_at.
  assert (u32_at all (length pre) = kind b) as -> by (by apply u32_mid).
  assert (u32_at all (length pre + 4) = blen (data b)) as ->.
  { unfold all. rewrite app_assoc. apply u32_mid; [by rewrite length_app, length_to_le_bytes|].
    unfold is_u32, blen in *. lia. }
  assert (u64_at all (length pre + 8) = Z.of_nat off) as ->.
  { unfold all. rewrite app_assoc, app_assoc. apply u64_mid; [rewrite !length_app, !length_to_le_bytes; lia|].
    unfold is_u64. lia. }
  change PAC_ALIGNMENT with 8. rewrite Hal. cbn [negb Z.eqb]. unfold blen. rewrite Hl.
  rewrite (proj2 (Z.ltb_ge _ _)) by lia. rewrite (proj2 (Z.ltb_ge _ _)) by lia. rewrite (proj2 (Z.ltb_ge _ _)) by lia.
  cbn [orb]. rewrite Nat2Z.id. f_equal. f_equal. rewrite Hall. apply slice_mid; [done|].
  rewrite length_app, Hlen. lia.
Qed.

Lemma entries_written bs pre mid off hl :
  Forall (fun b => is_u32 (kind b) /\ blen (data b) < 2 ^ 32) bs -> hl <= Z.of_nat off -> Z.of_nat off mod 8 = 0 ->
  Z.of_nat off + blen (flat_map payload bs) < 2 ^ 64 ->
  length (pre ++ fst (layout bs (Z.of_nat off)) ++ mid) = off ->
  entries (pre ++ fst (layout bs (Z.of_nat off)) ++ mid ++ flat_map payload bs) hl (length bs) (length pre) = Ok (placed bs off).
Proof.
  revert pre mid off. induction bs as [|b bs IH]; intros pre mid off Hf Hhl Hal Hb Hlen; [done|].
  apply list.Forall_cons in Hf as [[Hk Hd] Hf]. cbn [length entries placed flat_map layout] in *.
  set (off' := (off + length (payload b))%nat) in *.
  assert (Z.of_nat off + Z.of_nat (length (data b) + pad (length (data b))) = Z.of_nat off') as Hoff'
    by (unfold off'; rewrite length_payload; lia).
  rewrite Hoff' in *. destruct (layout bs (Z.of_nat off')) as [hs ps] eqn:El. cbn [fst] in *.
  unfold blen in Hb. rewrite length_app in Hb.
  assert (try_from_or 32 (Z.of_nat (length (data b))) 0 = blen (data b)) as Htry.
  { unfold try_from_or. by rewrite (proj2 (Z.ltb_lt _ _)) by (unfold blen in Hd; lia). }
  rewrite Htry in *. rewrite <- !app_assoc in *. unfold payload at 1. rewrite <- !app_assoc.
  rewrite entry_at_written; [|done|done|done|done|lia|exact Hlen].
  set (pre' := pre ++ to_le_bytes 4 (kind b) ++ to_le_bytes 4 (blen (data b)) ++ to_le_bytes 8 (Z.of_nat off)).
  specialize (IH pre' (mid ++ payload b) off' Hf). rewrite El in IH. cbn [fst] in IH.
  assert (length pre' = length pre + 16)%nat as Hp by (unfold pre'; rewrite !length_app, !length_to_le_bytes; lia).
  replace (pre ++ _) with (pre' ++ hs ++ (mid ++ payload b) ++ flat_map payload bs)
    by (unfold pre', payload; by rewrite <- !app_assoc).
  rewrite <- Hp, IH; [done|unfold off'; lia| | |].
  - unfold off'. rewrite Nat2Z.inj_add, Z.add_mod, Hal, payload_aligned by lia. done.
  - unfold blen, off'. rewrite length_payload in *. lia.
  - unfold off'. rewrite !length_app in *. rewrite Hp. rewrite !length_to_le_bytes in Hlen. lia.
Qed.

Definition first_payload (bs : list PacBuffer) : nat := (8 + 16 * length bs)%nat.

Lemma to_bytes_parts p :
  to_bytes p = (to_le_bytes 4 (try_from_or 32 (blen (buffers p)) U32_MAX) ++ to_le_bytes 4 (version p))
               ++ fst (layout (buffers p) (Z.of_nat (first_payload (buffers p)))) ++ flat_map payload (buffers p).
Proof.
  unfold to_bytes, first_payload. replace (8 + 16 * blen (buffers p)) with (Z.of_nat (8 + 16 * length (buffers p))) by (unfold blen; lia).
  pose proof (layout_payload (buffers p) (Z.of_nat (8 + 16 * length (buffers p)))) as Hp.
  destruct (layout _ _) as [hs ps]. cbn [fst snd] in *. by rewrite Hp, <- app_assoc.
Qed.

Lemma length_to_bytes p : length (to_bytes p) = (first_payload (buffers p) + length (flat_map payload (buffers p)))%nat.
Proof.
  rewrite to_bytes_parts, !length_app, !length_to_le_bytes, length_layout. unfold first_payload. lia.
Qed.

(** What the KDC builds: version 0, and between 1 and 4096 buffers. *)
Definition pac_ok (p : Pac) : Prop :=
  version p = 0 /\ 1 <= blen (buffers p) <= MAX_BUFFERS /\ writable (buffers p).

Lemma parse_written p :
  pac_ok p -> parse (to_bytes p) = Ok (mkPac 0 (placed (buffers p) (first_payload (buffers p))) (to_bytes p)).
Proof.
  intros (Hv & Hn & Hf & Hb). unfold parse. unfold MAX_BUFFERS in Hn.
  assert (try_from_or 32 (blen (buffers p)) U32_MAX = blen (buffers p)) as Htry
    by (unfold try_from_or; by rewrite (proj2 (Z.ltb_lt _ _)) by lia).
  pose proof (length_to_bytes p) as Hlen. pose proof (to_bytes_parts p) as Hparts. rewrite Htry, Hv in Hparts.
  assert (u32_at (to_bytes p) 0 = blen (buffers p)) as ->.
  { rewrite Hparts, <- app_assoc. apply (u32_mid []); [done|]. unfold is_u32. lia. }
  assert (u32_at (to_bytes p) 4 = 0) as ->.
  { rewrite Hparts, <- app_assoc. by apply u32_mid; [rewrite length_to_le_bytes|]. }
  unfold MAX_BUFFERS. cbn [negb Z.eqb]. rewrite (proj2 (Z.leb_le 1 _)), (proj2 (Z.leb_le _ 4096)) by lia. cbn [andb negb].
  unfold blen at 1 2. rewrite Hlen. unfold first_payload in *.
  rewrite (proj2 (Z.ltb_ge _ 8)) by lia. rewrite (proj2 (Z.ltb_ge _ _)) by (unfold blen; lia).
  replace (Z.to_nat (blen (buffers p))) with (length (buffers p)) by (unfold blen; lia).
  pose proof (entries_written (buffers p) (to_le_bytes 4 (blen (buffers p)) ++ to_le_bytes 4 0) [] (8 + 16 * length (buffers p))
    (8 + 16 * blen (buffers p)) Hf) as He. cbn [app] in He. unfold first_payload in *.
  change (length (to_le_bytes 4 (blen (buffers p)) ++ to_le_bytes 4 0)) with 8%nat in He. rewrite <- Hparts in He. rewrite He; [done| | | |].
  - unfold blen. lia.
  - replace (Z.of_nat (8 + 16 * length (buffers p))) with ((1 + 2 * Z.of_nat (length (buffers p))) * 8) by lia. apply Z.mod_mul. lia.
  - unfold blen in *. lia.
  - rewrite app_nil_r, !length_app, length_layout, !length_to_le_bytes. lia.
Qed.

(** Placing a buffer leaves what is read from it. *)
Lemma placed_filter bs off k :
  map data (List.filter (fun b => kind b =? k) (placed bs off)) = map data (List.filter (fun b => kind b =? k) bs).
Proof.
  revert off. induction bs as [|b bs IH]; intros off; cbn [placed List.filter kind]; [done|].
  destruct (kind b =? k); cbn [map data]; by rewrite IH.
Qed.

Lemma unique_buffer_map p q k : map data (of_kind p k) = map data (of_kind q k) -> unique_buffer p k = unique_buffer q k.
Proof.
  unfold unique_buffer. destruct (of_kind p k) as [|b [|b' l]], (of_kind q k) as [|c [|c' l']]; cbn; try done. by intros [= ->].
Qed.

Lemma unique_buffer_placed v bs off w r k : unique_buffer (mkPac v (placed bs off) w) k = unique_buffer (mkPac r bs []) k.
Proof. apply unique_buffer_map. apply placed_filter. Qed.

(** ** Zeroing *)

(** The place of the one buffer of a kind. *)
Lemma of_kind_split v bs w k b :
  of_kind (mkPac v bs w) k = [b] ->
  exists bs1 bs2, bs = bs1 ++ b :: bs2 /\ kind b = k /\ Forall (fun c => kind c <> k) (bs1 ++ bs2).
Proof.
  unfold of_kind. cbn [buffers]. revert b. induction bs as [|c bs IH]; intros b; cbn [List.filter]; [done|].
  destruct (kind c =? k) eqn:E; to_prop.
  - intros [= -> Hn]. exists [], bs. split; [done|]. split; [done|]. cbn [app].
    apply list.Forall_forall. intros c Hc Hk. apply list_elem_of_In in Hc.
    assert (In c []) as []. rewrite <- Hn. apply filter_In. split; [done|]. lia.
  - intros Hb%IH. destruct Hb as (bs1 & bs2 & -> & Hk & Hf). exists (c :: bs1), bs2. split_and!; try done. by constructor.
Qed.

Lemma placed_app bs1 bs2 off : placed (bs1 ++ bs2) off = placed bs1 off ++ placed bs2 (off + length (flat_map payload bs1)).
Proof.
  revert off. induction bs1 as [|b bs1 IH]; intros off; cbn [placed app flat_map]; [cbn; by rewrite Nat.add_0_r|].
  rewrite IH, length_app, Nat.add_assoc. done.
Qed.

Lemma zero_payload b : (4 <= length (data b))%nat ->
  data (zeroed [kind b] b) = take 4 (data b) ++ replicate (length (data b) - 4) x00.
Proof. intros _. unfold zeroed. by rewrite bool_decide_true by (by left). Qed.

Lemma length_zero_signature d : length (zero_signature_payload d) = length d.
Proof. unfold zero_signature_payload. rewrite length_app, length_take, length_replicate. lia. Qed.

Lemma length_zeroed ks b : length (data (zeroed ks b)) = length (data b).
Proof. unfold zeroed. case_bool_decide; [apply length_zero_signature|done]. Qed.

Lemma kind_zeroed ks b : kind (zeroed ks b) = kind b.
Proof. unfold zeroed. by case_bool_decide. Qed.

Lemma shape_zeroed ks bs : shape (map (zeroed ks) bs) = shape bs.
Proof.
  unfold shape. rewrite map_map. apply map_ext. intros b. by rewrite kind_zeroed, length_zeroed.
Qed.

Lemma zero_signature_idem d : (4 <= length d)%nat -> zero_signature_payload (zero_signature_payload d) = zero_signature_payload d.
Proof.
  intros Hd. unfold zero_signature_payload. rewrite length_app, length_take, length_replicate.
  rewrite take_app_le by (rewrite length_take; lia). rewrite take_take. do 2 f_equal; lia.
Qed.

Lemma zeroed_step ks k b : (4 <= length (data b))%nat -> zeroed [k] (zeroed ks b) = zeroed (ks ++ [k]) b.
Proof.
  intros Hd. unfold zeroed. destruct (decide (kind b ∈ ks)) as [H1|H1], (decide (kind b = k)) as [H2|H2].
  - rewrite (bool_decide_true (kind b ∈ ks)) by done. cbn [kind data offset].
    rewrite !bool_decide_true by set_solver. by rewrite zero_signature_idem.
  - rewrite (bool_decide_true (kind b ∈ ks)) by done. cbn [kind data offset].
    rewrite bool_decide_false by set_solver. by rewrite bool_decide_true by set_solver.
  - rewrite (bool_decide_false (kind b ∈ ks)) by done. by rewrite !bool_decide_true by set_solver.
  - rewrite (bool_decide_false (kind b ∈ ks)) by done. by rewrite !bool_decide_false by set_solver.
Qed.

Lemma zeroed_other ks k b : kind b <> k -> zeroed (ks ++ [k]) b = zeroed ks b.
Proof.
  intros Hk. unfold zeroed. destruct (decide (kind b ∈ ks)) as [H1|H1].
  - by rewrite !bool_decide_true by set_solver.
  - by rewrite !bool_decide_false by set_solver.
Qed.

Lemma filter_kind_none bs k : Forall (fun c => kind c <> k) bs -> List.filter (fun b => kind b =? k) bs = [].
Proof. induction 1 as [|b bs Hb _ IH]; cbn [List.filter]; [done|]. by rewrite (proj2 (Z.eqb_neq _ _) Hb). Qed.

Lemma placed_other bs off k : Forall (fun c => kind c <> k) bs -> Forall (fun c => kind c <> k) (placed bs off).
Proof. intros Hf. revert off. induction Hf; intros off; cbn [placed]; by constructor. Qed.

Lemma length_payloads_zeroed ks bs : length (flat_map payload (map (zeroed ks) bs)) = length (flat_map payload bs).
Proof.
  induction bs as [|b bs IH]; cbn [map flat_map]; [done|]. by rewrite !length_app, IH, !length_payload, length_zeroed.
Qed.

(** Everything in front of the payloads depends on the shape of the buffers alone. *)
Definition head (v : Z) (bs : list PacBuffer) : bytes :=
  to_le_bytes 4 (try_from_or 32 (blen bs) U32_MAX) ++ to_le_bytes 4 v ++ fst (layout bs (Z.of_nat (first_payload bs))).

Lemma head_shape v bs bs' : shape bs = shape bs' -> head v bs = head v bs'.
Proof.
  intros Hs. assert (length bs = length bs') as Hl.
  { unfold shape in Hs. apply (f_equal length) in Hs. by rewrite !length_map in Hs. }
  unfold head, first_payload, blen. by rewrite Hl, (layout_shape _ _ _ Hs).
Qed.

Lemma length_pac_head v bs : length (head v bs) = first_payload bs.
Proof. unfold head. rewrite !length_app, !length_to_le_bytes, length_layout. unfold first_payload. lia. Qed.

Lemma to_bytes_split v bs1 b bs2 w :
  to_bytes (mkPac v (bs1 ++ b :: bs2) w)
  = (head v (bs1 ++ b :: bs2) ++ flat_map payload bs1) ++ data b ++ replicate (pad (length (data b))) x00 ++ flat_map payload bs2.
Proof.
  rewrite to_bytes_parts. cbn [buffers version]. rewrite flat_map_app. cbn [flat_map]. unfold head, payload at 2.
  by rewrite <- !app_assoc.
Qed.

(** The write that zeroes one signature. *)
Lemma write_zero v w bs1 b bs2 k :
  kind b = k -> (4 <= length (data b))%nat ->
  write_at (to_bytes (mkPac v (bs1 ++ b :: bs2) w)) (first_payload (bs1 ++ b :: bs2) + length (flat_map payload bs1) + 4)
    (replicate (length (data b) - 4) x00)
  = to_bytes (mkPac v (bs1 ++ zeroed [k] b :: bs2) w).
Proof.
  intros <- Hd. rewrite !to_bytes_split, length_zeroed, zero_payload by done.
  rewrite (head_shape v (bs1 ++ zeroed [kind b] b :: bs2) (bs1 ++ b :: bs2)).
  2: { unfold shape. rewrite !map_app. cbn [map]. by rewrite kind_zeroed, length_zeroed. }
  set (A := head v (bs1 ++ b :: bs2) ++ flat_map payload bs1). set (C := replicate (pad _) x00 ++ _).
  rewrite <- (take_drop 4 (data b)) at 1. rewrite <- !app_assoc, !(app_assoc A).
  replace (_ + _ + 4)%nat with (length (A ++ take 4 (data b))).
  2: { unfold A. rewrite !length_app, length_pac_head, length_take. lia. }
  apply write_at_app. rewrite length_replicate, length_drop. done.
Qed.

(** Zeroing signatures in the octets is zeroing them in the buffers. *)
Lemma zero_in_written v bs w r zs ks :
  (forall k, k ∈ ks -> exists b, of_kind (mkPac v bs []) k = [b] /\ (4 <= length (data b))%nat) ->
  zero_in (mkPac v (placed bs (first_payload bs)) w) (to_bytes (mkPac v (map (zeroed zs) bs) r)) ks
  = Ok (to_bytes (mkPac v (map (zeroed (zs ++ ks)) bs) r)).
Proof.
  revert zs. induction ks as [|k ks IH]; intros zs Hks; cbn [zero_in]; [by rewrite app_nil_r|].
  destruct (Hks k ltac:(by left)) as (b & Hb & Hd).
  destruct (of_kind_split _ _ _ _ _ Hb) as (bs1 & bs2 & E & Hk & Hf). rewrite Forall_app in Hf. destruct Hf as [Hf1 Hf2].
  set (off := (first_payload bs + length (flat_map payload bs1))%nat).
  assert (of_kind (mkPac v (placed bs (first_payload bs)) w) k = [mkBuffer k (data b) off]) as ->.
  { unfold of_kind. cbn [buffers]. rewrite E at 1. rewrite placed_app, List.filter_app. cbn [placed List.filter kind].
    rewrite (filter_kind_none (placed bs1 _)) by (by apply placed_other). rewrite Hk, Z.eqb_refl.
    rewrite filter_kind_none by (by apply placed_other). done. }
  cbn [data offset]. rewrite (proj2 (Nat.ltb_ge _ _)) by lia.
  assert (map (zeroed zs) bs = map (zeroed zs) bs1 ++ zeroed zs b :: map (zeroed zs) bs2) as Ez by (by rewrite E, map_app).
  assert (length (to_bytes (mkPac v (map (zeroed zs) bs) r)) = first_payload bs + length (flat_map payload bs))%nat as Hl.
  { rewrite length_to_bytes. cbn [buffers]. unfold first_payload. by rewrite length_map, length_payloads_zeroed. }
  rewrite Hl. assert (off + length (data b) <= first_payload bs + length (flat_map payload bs))%nat as Hle.
  { unfold off. rewrite E at 3. rewrite flat_map_app, length_app. cbn [flat_map]. rewrite length_app, length_payload. lia. }
  rewrite (proj2 (Nat.ltb_ge _ (off + length (data b)))) by lia. rewrite (proj2 (Nat.ltb_ge _ (off + 4))) by lia. cbn [orb].
  replace (off + length (data b) - (off + 4))%nat with (length (data (zeroed zs b)) - 4)%nat by (rewrite length_zeroed; lia).
  rewrite Ez. replace (off + 4)%nat with
    (first_payload (map (zeroed zs) bs1 ++ zeroed zs b :: map (zeroed zs) bs2) + length (flat_map payload (map (zeroed zs) bs1)) + 4)%nat.
  2: { unfold off. rewrite length_payloads_zeroed, <- Ez. unfold first_payload. by rewrite length_map. }
  rewrite (write_zero v r _ _ _ k); [|by rewrite kind_zeroed|by rewrite length_zeroed].
  rewrite zeroed_step by done.
  replace (map (zeroed zs) bs1 ++ zeroed (zs ++ [k]) b :: map (zeroed zs) bs2) with (map (zeroed (zs ++ [k])) bs).
  - rewrite IH by (intros k' Hk'; apply Hks; by right). by rewrite <- app_assoc.
  - rewrite E, map_app. cbn [map]. f_equal; [|f_equal]; apply map_ext_Forall; eapply Forall_impl; try done; intros c Hc; by apply zeroed_other.
Qed.


(** The octets a received PAC is verified over are those it was signed over. *)
Lemma received_zeroed_written p ks :
  pac_ok p -> (forall k, k ∈ ks -> exists b, of_kind (mkPac 0 (buffers p) []) k = [b] /\ (4 <= length (data b))%nat) ->
  exists q, parse (to_bytes p) = Ok q /\ received_zeroed q ks = Ok (bytes_zeroing p ks) /\
    forall k, unique_buffer q k = unique_buffer p k.
Proof.
  intros Hok Hks. rewrite (parse_written p Hok). destruct Hok as (Hv & Hn & _).
  eexists. split; [done|]. split.
  - unfold received_zeroed. cbn [raw]. destruct (to_bytes p) as [|b0 b] eqn:E.
    { apply (f_equal length) in E. rewrite length_to_bytes in E. unfold first_payload in E. cbn in E. lia. }
    rewrite <- E. unfold bytes_zeroing. destruct p as [v bs w]. cbn [version buffers raw] in *. subst v.
    pose proof (zero_in_written 0 bs (to_bytes (mkPac 0 bs w)) w [] ks Hks) as Hz.
    assert (map (zeroed []) bs = bs) as Hid; [|by rewrite Hid in Hz].
    rewrite <- (map_id bs) at 2. apply map_ext. intros c. unfold zeroed. rewrite bool_decide_false; [done|].
    by intros ?%elem_of_nil.
  - intros k. destruct p as [v bs w]. cbn [buffers]. apply unique_buffer_map. apply placed_filter.
Qed.

(** ** Client information is read back *)

(** A string of scalar values. *)
Definition is_str (s : list Z) : Prop := Forall (fun c => Utf8.is_scalar c = true) s.

Lemma from_utf16_app c us : Utf8.is_scalar c = true -> from_utf16 (Utf8.utf16_units c ++ us) = cons c <$> from_utf16 us.
Proof.
  unfold Utf8.is_scalar, Utf8.utf16_units. intros Hc. rewrite !andb_true_iff, negb_true_iff, andb_false_iff in Hc.
  destruct Hc as [[H0 H1] Hs]. to_prop. destruct (c <? 0x10000) eqn:E; to_prop.
  - cbn [app from_utf16]. destruct (0xd800 <=? c) eqn:E1; cbn [andb].
    + destruct Hs as [Hs|Hs]; [done|]. to_prop. rewrite !(proj2 (Z.leb_gt c _)) by lia. by rewrite andb_false_r.
    + to_prop. by rewrite (proj2 (Z.leb_gt 0xdc00 c)) by lia.
  - set (x := c - 0x10000). assert (0 <= x < 2 ^ 20) as Hx by (unfold x; lia).
    rewrite Z.shiftr_div_pow2 by lia. change 0x3ff with (Z.ones 10). rewrite Z.land_ones by lia.
    pose proof (Z.mod_pos_bound x (2 ^ 10) ltac:(lia)) as Hm.
    assert (0 <= x / 2 ^ 10 < 2 ^ 10) as Hd by (split; [apply Z.div_pos; lia|apply Z.div_lt_upper_bound; lia]).
    cbn [app from_utf16]. rewrite (proj2 (Z.leb_le 0xd800 _)), (proj2 (Z.leb_le _ 0xdbff)) by lia. cbn [andb].
    rewrite (proj2 (Z.leb_le 0xdc00 _)), (proj2 (Z.leb_le _ 0xdfff)) by lia. cbn [andb].
    replace (0x10000 + _ * 0x400 + _) with c; [done|]. pose proof (Z.div_mod x (2 ^ 10) ltac:(lia)). unfold x in *. lia.
Qed.

Lemma from_encode_utf16 s : is_str s -> from_utf16 (Utf8.encode_utf16 s) = Some s.
Proof.
  unfold Utf8.encode_utf16. induction 1 as [|c s Hc _ IH]; cbn [flat_map]; [done|]. by rewrite from_utf16_app, IH.
Qed.

Lemma utf16_units_u16 s : is_str s -> Forall is_u16 (Utf8.encode_utf16 s).
Proof.
  unfold Utf8.encode_utf16. induction 1 as [|c s Hc _ IH]; cbn [flat_map]; [done|]. apply Forall_app. split; [|done].
  unfold Utf8.is_scalar in Hc. unfold Utf8.utf16_units. rewrite !andb_true_iff in Hc. destruct Hc as [[H0 H1] _]. to_prop.
  destruct (c <? 0x10000) eqn:E; to_prop; [constructor; [unfold is_u16; lia|done]|].
  set (x := c - 0x10000). rewrite Z.shiftr_div_pow2 by lia. change 0x3ff with (Z.ones 10). rewrite Z.land_ones by lia.
  pose proof (Z.mod_pos_bound x (2 ^ 10) ltac:(lia)) as Hm.
  assert (0 <= x / 2 ^ 10 < 2 ^ 10) as Hd by (unfold x; split; [apply Z.div_pos; lia|apply Z.div_lt_upper_bound; lia]).
  repeat constructor; unfold is_u16; lia.
Qed.

Lemma le_units_written us : Forall is_u16 us -> le_units (flat_map (to_le_bytes 2) us) = us.
Proof.
  induction 1 as [|u us Hu _ IH]; [done|]. cbn [flat_map].
  change (to_le_bytes 2 u) with [byte.of_Z u; byte.of_Z (Z.shiftr u 8)]. cbn [app le_units]. rewrite IH. f_equal.
  change [byte.of_Z u; byte.of_Z (Z.shiftr u 8)] with (to_le_bytes 2 u). by apply from_to_le_bytes.
Qed.

Lemma length_utf16_le us : length (flat_map (to_le_bytes 2) us) = (2 * length us)%nat.
Proof. induction us as [|u us IH]; [done|]. cbn [flat_map]. rewrite length_app, length_to_le_bytes, IH, length_cons. lia. Qed.

(** A name of at most 32767 UTF-16 units is read back with the time. *)
Lemma client_info_written t s :
  is_u32 t -> is_str s -> 2 * blen (Utf8.encode_utf16 s) < 2 ^ 16 -> parse_client_info (client_info_buffer t s) = Some (t, s).
Proof.
  intros Ht Hs Hn. unfold client_info_buffer, utf16_le, blen in *. rewrite length_utf16_le.
  set (us := Utf8.encode_utf16 s) in *.
  assert (try_from_or 16 (Z.of_nat (2 * length us)) U16_MAX = Z.of_nat (2 * length us)) as ->
    by (unfold try_from_or; by rewrite (proj2 (Z.ltb_lt _ _)) by lia).
  rewrite Nat2Z.id, take_ge by (rewrite length_utf16_le; lia).
  assert (is_u64 (unix_to_nt t) /\ unix_to_nt t = t * 10000000 + NT_UNIX_EPOCH) as [Hu Hnt].
  { unfold unix_to_nt, is_u32, is_u64, NT_UNIX_EPOCH, U64_MAX in *. lia. }
  unfold parse_client_info. set (b := _ ++ _). assert (length b = 10 + 2 * length us)%nat as Hl
    by (unfold b; rewrite !length_app, !length_to_le_bytes, length_utf16_le; lia).
  rewrite (proj2 (Nat.ltb_ge _ _)) by lia.
  assert (slice b 0 8 = to_le_bytes 8 (unix_to_nt t)) as -> by (by apply (slice_mid [])).
  assert (slice b 8 10 = to_le_bytes 2 (Z.of_nat (2 * length us))) as -> by (apply slice_mid; [done|by rewrite length_app, !length_to_le_bytes]).
  rewrite !from_to_le_bytes by (unfold is_u64 in *; lia).
  rewrite Nat2Z.inj_mul, Z.mul_comm, Z.mod_mul by lia. cbn [Z.eqb negb orb]. unfold blen. rewrite Hl.
  rewrite (proj2 (Z.ltb_ge _ _)) by lia.
  assert (slice b 10 (10 + Z.to_nat (Z.of_nat (length us) * Z.of_nat 2)) = flat_map (to_le_bytes 2) us) as ->.
  { replace b with ((to_le_bytes 8 (unix_to_nt t) ++ to_le_bytes 2 (Z.of_nat (2 * length us))) ++ flat_map (to_le_bytes 2) us ++ [])
      by (unfold b; by rewrite app_nil_r, app_assoc).
    apply slice_mid; rewrite !length_app, !length_to_le_bytes; [done|].
    rewrite length_utf16_le. lia. }
  rewrite le_units_written by (done || by apply utf16_units_u16). unfold us. rewrite from_encode_utf16 by done.
  rewrite Hnt, Z.add_simpl_r. unfold is_u32 in Ht. rewrite Z.max_r, Z.div_mul by lia. by rewrite (proj2 (Z.ltb_lt _ _)) by lia.
Qed.

(** ** Delegation information is read back *)

Lemma read_u32_written v rest : is_u32 v -> read_u32 (to_le_bytes 4 v ++ rest) = Ok (v, rest).
Proof.
  intros Hv. unfold read_u32. rewrite length_app, length_to_le_bytes. cbn [Nat.ltb Nat.leb Nat.add].
  rewrite take_app_length', drop_app_length' by (by rewrite length_to_le_bytes). by rewrite from_to_le_bytes.
Qed.

Lemma skip_u16_written v rest : skip_u16 (to_le_bytes 2 v ++ rest) = Ok rest.
Proof.
  unfold skip_u16. rewrite length_app, length_to_le_bytes. cbn [Nat.ltb Nat.leb Nat.add].
  by rewrite drop_app_length' by (by rewrite length_to_le_bytes).
Qed.

(** A string whose units can be counted in 32 bits. *)
Definition wide_str (s : list Z) : Prop := is_str s /\ blen (Utf8.encode_utf16 s) < 2 ^ 32 - 1.

Lemma dec_wchar_written s rest : wide_str s -> dec_wchar (enc_wchar s ++ rest) = Ok (s, rest).
Proof.
  intros [Hs Hn]. unfold dec_wchar, enc_wchar. set (us := Utf8.encode_utf16 s) in *.
  assert (try_from_or 32 (blen us) 0 = blen us) as -> by (unfold try_from_or; by rewrite (proj2 (Z.ltb_lt _ _)) by lia).
  assert (0 <= blen us) by (unfold blen; lia). rewrite <- !app_assoc.
  rewrite !read_u32_written by (unfold is_u32; lia). set (tl := if blen us mod 2 =? 1 then _ else _).
  rewrite (proj2 (Z.ltb_ge _ _)) by (unfold blen; rewrite length_app, length_utf16_le; lia).
  replace (Z.to_nat (2 * blen us)) with (length (flat_map (to_le_bytes 2) us)) by (rewrite length_utf16_le; unfold blen; lia).
  rewrite take_app_length, drop_app_length, le_units_written by (by apply utf16_units_u16).
  assert (from_utf16 us = Some s) as -> by (by apply from_encode_utf16). unfold tl. destruct (blen us mod 2 =? 1); [by rewrite skip_u16_written|done].
Qed.

Lemma dec_wchars_written ss rest : Forall wide_str ss -> dec_wchars (length ss) (flat_map enc_wchar ss ++ rest) = Ok (ss, rest).
Proof.
  induction 1 as [|s ss Hs _ IH]; [done|]. cbn [flat_map length dec_wchars]. rewrite <- app_assoc, dec_wchar_written by done. by rewrite IH.
Qed.

Lemma length_service_headers ss ptr : length (service_headers ss ptr) = (8 * length ss)%nat.
Proof.
  revert ptr. induction ss as [|s ss IH]; intros ptr; cbn [service_headers]; [done|].
  rewrite !length_app, !length_to_le_bytes, IH, length_cons. lia.
Qed.

(** The strings are wide and the whole fits 32 bits of octets. *)
Definition delegation_ok (d : S4uDelegationInfo) : Prop :=
  wide_str (proxy_target d) /\ Forall wide_str (transited_services d) /\ blen (delegation_info_buffer d) < 2 ^ 32.

Lemma delegation_info_written d : delegation_ok d -> parse_delegation_info (delegation_info_buffer d) = Ok d.
Proof.
  intros (Hp & Hss & Hb). unfold delegation_info_buffer in *. cbv zeta in *. set (ss := transited_services d) in *.
  set (body := delegation_fields d ++ _) in *.
  assert (forall x, length (ndr_header x) = 16%nat) as Hh by (intros x; unfold ndr_header; by rewrite !length_app, !length_to_le_bytes).
  set (d' := ndr_header body ++ body) in *.
  assert (length d' = 16 + length body)%nat as Hl by (unfold d'; by rewrite length_app, Hh).
  unfold blen in Hb. rewrite Hl in Hb.
  assert (length (delegation_fields d) <= length body)%nat as Hle by (unfold body; rewrite length_app; lia).
  assert (8 * length ss <= length (delegation_fields d))%nat as Hss8.
  { unfold delegation_fields. fold ss. rewrite !length_app, length_service_headers. lia. }
  assert (try_from_or 32 (blen ss) 0 = blen ss) as Hn by (unfold try_from_or, blen; by rewrite (proj2 (Z.ltb_lt _ _)) by lia).
  unfold parse_delegation_info. rewrite (proj2 (Nat.ltb_ge _ _)) by lia.
  assert (take 4 d' = [x01; x10; x08; x00]) as -> by done. rewrite bool_decide_true by done. cbn [negb].
  assert (u32_at d' 8 = blen body) as ->.
  { unfold d', ndr_header. assert (try_from_or 32 (blen body) 0 = blen body) as ->
      by (unfold try_from_or, blen; by rewrite (proj2 (Z.ltb_lt _ _)) by lia).
    rewrite <- !app_assoc, app_assoc. apply u32_mid; [done|unfold is_u32, blen; lia]. }
  assert (blen body = blen d' - 16) as Hbl by (unfold blen; lia). rewrite Hbl, Z.eqb_refl. cbn [negb].
  assert (drop 16 d' = body) as -> by (apply drop_app_length'; by rewrite Hh).
  unfold body, delegation_fields. fold ss. rewrite Hn, <- !app_assoc.
  assert (is_u32 (blen ss)) as Hu by (unfold is_u32, blen; lia).
  rewrite read_u32_written by done. rewrite !skip_u16_written. rewrite !read_u32_written by done.
  rewrite dec_wchar_written by done. rewrite read_u32_written by done.
  rewrite (proj2 (Z.ltb_ge _ _)) by (apply Z.div_le_lower_bound; unfold blen; lia).
  replace (Z.to_nat (8 * blen ss)) with (length (service_headers ss (next_ptr (next_ptr (next_ptr 0)))))
    by (rewrite length_service_headers; unfold blen; lia).
  rewrite drop_app_length. replace (Z.to_nat (blen ss)) with (length ss) by (unfold blen; lia).
  rewrite dec_wchars_written by done. by destruct d.
Qed.

(** ** The kinds of a parsed container *)

Lemma u32_at_range b i : is_u32 (u32_at b i).
Proof.
  unfold u32_at, is_u32. pose proof (from_bytes_of_bound Little _ _ (eq_refl (length (slice b i (i + 4))))) as Hr.
  assert (length (slice b i (i + 4)) <= 4)%nat as Hl by (unfold slice; rewrite length_take; lia).
  assert (2 ^ (8 * Z.of_nat (length (slice b i (i + 4)))) <= 2 ^ 32) by (apply Z.pow_le_mono_r; lia).
  cbn [from_bytes_of] in Hr. lia.
Qed.

Lemma entries_kinds b hl n off bs : entries b hl n off = Ok bs -> Forall is_u32 (map kind bs).
Proof.
  revert off bs. induction n as [|n IH]; intros off bs; cbn [entries]; [by intros [= <-]|].
  unfold entry_at. destruct (negb _); [done|]. destruct (_ || _); [done|].
  destruct (entries b hl n (off + 16)) as [es|] eqn:E; [|done]. intros [= <-]. cbn [map kind].
  constructor; [apply u32_at_range|by eapply IH].
Qed.

Lemma parse_kinds b p : parse b = Ok p -> Forall is_u32 (map kind (buffers p)).
Proof.
  unfold parse. destruct (_ <? 8); [done|]. destruct (negb (_ =? 0)); [done|]. destruct (negb _); [done|].
  destruct (_ <? _); [done|]. destruct (entries _ _ _ _) as [es|] eqn:E; [|done]. intros [= <-]. by eapply entries_kinds.
Qed.

End Pac.
