(* ===== verification/Decimal.v ===== *)
(** * Decimal digits

    Decimal fields of text formats: the value of a string of ASCII digits, the
    fixed-width printer [{:0w}] and the printer [{}]. *)

From S2P Require Import Prelude.

Module Decimal.

(** [c.wrapping_sub(b'0')], a digit when at most 9. *)
Definition digit (c : byte) : option Z :=
  let d := wrapping_sub 8 (u8z c) 0x30 in if d <=? 9 then Some d else None.

Definition is_ascii_digit (c : byte) : bool := (0x30 <=? u8z c) && (u8z c <=? 0x39).

(** [try_fold(acc, |acc, c| ... acc * 10 + d)]. *)
Fixpoint digits_from (acc : Z) (s : bytes) : option Z :=
  match s with
  | [] => Some acc
  | c :: s => match digit c with Some d => digits_from (acc * 10 + d) s | None => None end
  end.

(** The number a string of digits denotes. *)
Definition dec_value (s : bytes) : Z := fold_left (fun acc c => acc * 10 + (u8z c - 0x30)) s 0.

(** [{:0w}]: the digits of [n], most significant first, padded to [w]. *)
Fixpoint dec_fixed (w : nat) (n : Z) : bytes :=
  match w with
  | O => []
  | S w => dec_fixed w (n / 10) ++ [z8 (0x30 + n mod 10)]
  end.

(** The digits of a number below [10 ^ fuel]. *)
Fixpoint width (fuel : nat) (n : Z) : nat :=
  match fuel with
  | O => 1
  | S fuel => if n <? 10 then 1 else S (width fuel (n / 10))
  end.

(** [{}] of a [u32] or a [u64], which has at most 20 digits. *)
Definition dec (n : Z) : bytes := dec_fixed (width 20 n) n.

(** [{}] of an [i32] or an [i64]. *)
Definition dec_signed (n : Z) : bytes := if n <? 0 then x2d :: dec (- n) else dec n.

Lemma is_ascii_digit_range c : is_ascii_digit c = true -> 0 <= u8z c - 0x30 <= 9.
Proof. unfold is_ascii_digit. intros H. to_prop. lia. Qed.

Lemma unsigned_digit d : 0 <= d <= 9 -> u8z (z8 (0x30 + d)) = 0x30 + d.
Proof. intros H. rewrite byte.unsigned_of_Z. apply Z.mod_small. lia. Qed.

Lemma is_ascii_digit_of d : 0 <= d <= 9 -> is_ascii_digit (z8 (0x30 + d)) = true.
Proof.
  intros H. unfold is_ascii_digit. rewrite unsigned_digit by done.
  apply andb_true_intro. split; apply Z.leb_le; lia.
Qed.

Lemma digit_is_digit c : is_ascii_digit c = true -> digit c = Some (u8z c - 0x30).
Proof.
  intros H. apply is_ascii_digit_range in H. unfold digit, wrapping_sub.
  rewrite Z.mod_small by lia. by rewrite (proj2 (Z.leb_le _ _)) by lia.
Qed.

Lemma digits_from_value s acc :
  forallb is_ascii_digit s = true ->
  digits_from acc s = Some (fold_left (fun acc c => acc * 10 + (u8z c - 0x30)) s acc).
Proof.
  revert acc. induction s as [|c s IH]; intros acc H; [done|].
  cbn in H. to_prop. cbn [digits_from fold_left]. rewrite digit_is_digit by done. by apply IH.
Qed.

Lemma length_dec_fixed w n : length (dec_fixed w n) = w.
Proof. revert n. induction w as [|w IH]; intros n; cbn [dec_fixed]; [done|]. rewrite length_app, IH. cbn. lia. Qed.

Lemma dec_fixed_digits w n : forallb is_ascii_digit (dec_fixed w n) = true.
Proof.
  revert n. induction w as [|w IH]; intros n; [done|]. cbn [dec_fixed].
  rewrite forallb_app, IH. cbn [forallb]. rewrite is_ascii_digit_of; [done|].
  pose proof (Z.mod_pos_bound n 10). lia.
Qed.

Lemma fold_dec_fixed w n acc :
  0 <= n -> fold_left (fun acc c => acc * 10 + (u8z c - 0x30)) (dec_fixed w n) acc
            = acc * 10 ^ Z.of_nat w + n mod 10 ^ Z.of_nat w.
Proof.
  revert n. induction w as [|w IH]; intros n Hn.
  - cbn [dec_fixed fold_left]. change (10 ^ Z.of_nat 0) with 1. rewrite Z.mod_1_r. lia.
  - cbn [dec_fixed]. rewrite fold_left_app, IH by (apply Z.div_pos; lia). cbn [fold_left].
    pose proof (Z.mod_pos_bound n 10 ltac:(lia)).
    rewrite unsigned_digit by lia. rewrite Nat2Z.inj_succ, Z.pow_succ_r by lia.
    rewrite (Z.rem_mul_r n 10 (10 ^ Z.of_nat w)) by lia. lia.
Qed.

Lemma digits_from_fixed w n acc :
  0 <= n < 10 ^ Z.of_nat w ->
  digits_from acc (dec_fixed w n) = Some (acc * 10 ^ Z.of_nat w + n).
Proof.
  intros Hn. rewrite digits_from_value by apply dec_fixed_digits.
  rewrite fold_dec_fixed by lia. by rewrite Z.mod_small by lia.
Qed.

Lemma dec_value_fixed w n : 0 <= n < 10 ^ Z.of_nat w -> dec_value (dec_fixed w n) = n.
Proof.
  intros Hn. unfold dec_value. rewrite fold_dec_fixed by lia. rewrite Z.mod_small by lia. lia.
Qed.

Lemma dec_value_nonneg s : forallb is_ascii_digit s = true -> 0 <= dec_value s.
Proof.
  unfold dec_value.
  enough (forall acc, 0 <= acc -> forallb is_ascii_digit s = true ->
    0 <= fold_left (fun acc c => acc * 10 + (u8z c - 0x30)) s acc) by (intros; auto with lia).
  induction s as [|c s IH]; intros acc Ha H; [done|].
  cbn in H. to_prop. cbn [fold_left]. apply IH; [|done].
  pose proof (is_ascii_digit_range c ltac:(done)). lia.
Qed.

Lemma width_spec fuel n : 0 <= n < 10 ^ Z.of_nat fuel -> 0 <= n < 10 ^ Z.of_nat (width fuel n).
Proof.
  revert n. induction fuel as [|fuel IH]; intros n Hn; cbn [width]; [cbn in *; lia|].
  destruct (n <? 10) eqn:E; to_prop; [cbn; lia|].
  rewrite Nat2Z.inj_succ, Z.pow_succ_r in Hn by lia. rewrite Nat2Z.inj_succ, Z.pow_succ_r by lia.
  assert (0 <= n / 10 < 10 ^ Z.of_nat fuel) as Hd by (split; [apply Z.div_pos|apply Z.div_lt_upper_bound]; lia).
  apply IH in Hd. pose proof (Z.div_mod n 10 ltac:(lia)). pose proof (Z.mod_pos_bound n 10 ltac:(lia)). lia.
Qed.

Lemma width_pos fuel n : (0 < width fuel n)%nat.
Proof. destruct fuel; cbn; [lia|]. destruct (n <? 10); lia. Qed.

Lemma dec_digits n : forallb is_ascii_digit (dec n) = true.
Proof. apply dec_fixed_digits. Qed.

Lemma dec_cons n : exists c r, dec n = c :: r /\ is_ascii_digit c = true.
Proof.
  pose proof (dec_digits n) as Hd. pose proof (length_dec_fixed (width 20 n) n) as Hl.
  unfold dec in *. pose proof (width_pos 20 n). destruct (dec_fixed _ n) as [|c r]; [cbn [length] in Hl; lia|].
  exists c, r. cbn in Hd. by apply andb_prop in Hd as [??].
Qed.

End Decimal.
