(* ===== verification/K5json.v ===== *)
(** * JSON

    The decoder and encoder of [krb5-types/src/k5json.rs].  The decoder keeps its
    place in the text and a count of the levels left; both stay as they are when
    it fails, which is seen when an array inside another fails.  It runs with
    fuel that is proved to be enough for every text. *)

From S2P Require Import Prelude StateErr Decimal.

Module K5json.
Import Decimal.

Definition text (s : string) : bytes := String.list_byte_of_string s.

Definition MAX_DEPTH : nat := 64.

Unset Elimination Schemes.

Inductive Value :=
  | Null
  | Bool (b : bool)
  | Number (n : Z)
  | String_ (s : bytes)
  | Array (l : list Value)
  | Object (l : list (bytes * Value)).

Set Elimination Schemes.

(** ** Values *)

Definition member (key : bytes) (v : Value) : option Value :=
  match v with
  | Object ms => snd <$> List.find (fun '(k, _) => bool_decide (k = key)) ms
  | _ => None
  end.

(** The place of the first member under a name. *)
Fixpoint position (key : bytes) (ms : list (bytes * Value)) : option nat :=
  match ms with
  | [] => None
  | (k, _) :: ms => if bool_decide (k = key) then Some O else S <$> position key ms
  end.

Definition set_member (ms : list (bytes * Value)) (key : bytes) (v : option Value) : list (bytes * Value) :=
  match position key ms, v with
  | Some i, None => delete i ms
  | Some i, Some v => <[i := (key, v)]> ms
  | None, Some v => ms ++ [(key, v)]
  | None, None => ms
  end.

Definition set (key : bytes) (v obj : Value) : Value :=
  match obj with
  | Object ms => Object (set_member ms key (Some v))
  | _ => obj
  end.

(** [s.split(|&b| b == 0).next()]: the text before the first NUL. *)
Fixpoint before_nul (s : bytes) : bytes :=
  match s with
  | [] => []
  | b :: s => if bool_decide (b = x00) then [] else b :: before_nul s
  end.

Definition as_cstr (v : Value) : option bytes :=
  match v with String_ s => Some (before_nul s) | _ => None end.

(** ** The decoder *)

(** [Bad] is the error of the source; [Fuel] is that of the model. *)
Inductive Stop := Bad | Fuel.

Record Decoder := mkDecoder { rest : bytes; depth : nat }.

Abbreviation D A := (SE Decoder Stop A).

Definition cur (d : Decoder) : byte := hd x00 (rest d).

Definition advance (n : nat) : D unit := assign (fun d => mkDecoder (drop n (rest d)) (depth d)).
Definition set_rest (r : bytes) : D unit := assign (fun d => mkDecoder r (depth d)).

Definition bad {A} : D A := lift (Err Bad).
Definition guard (b : bool) : D unit := if b then ret tt else bad.
Definition cur_is (c : byte) : D bool := reading (fun d => bool_decide (cur d = c)).

Definition is_ws (b : byte) : bool := bool_decide (b ∈ [x20; x09; x0d; x0a]).

Fixpoint drop_ws (s : bytes) : bytes :=
  match s with
  | b :: r => if is_ws b then drop_ws r else s
  | [] => []
  end.

Definition skip_ws : D bool :=
  do! assign (fun d => mkDecoder (drop_ws (rest d)) (depth d));
  reading (fun d => negb (bool_decide (cur d = x00))).

(** [if !self.skip_ws() { return Err(()) }]. *)
Definition more : D unit := let! m := skip_ws in guard m.

Definition eat (l : bytes) : D bool :=
  let! b := reading (fun d => bool_decide (take (length l) (rest d) = l)) in
  do! (if b then advance (length l) else ret tt);
  ret b.

Definition enter : D unit :=
  let! n := reading depth in
  do! assign (fun d => mkDecoder (rest d) (n - 1));
  guard (1 <? n)%nat.

Definition leave : D unit := assign (fun d => mkDecoder (rest d) (S (depth d))).

(** The digits at the place, [number] of them read: [checked_mul] and
    [checked_add] of a [u64]. *)
Fixpoint number_loop (number : Z) (s : bytes) : bytes * result Stop Z :=
  match s with
  | b :: r =>
      if is_ascii_digit b then
        let n := number * 10 + (u8z b - 0x30) in
        if U64_MAX <? n then (s, Err Bad) else number_loop n r
      else (s, Ok number)
  | [] => ([], Ok number)
  end.

Definition parse_number : D Z :=
  let! negative := cur_is x2d in
  do! (if negative then advance 1 else ret tt);
  let! c := reading cur in
  do! guard (is_ascii_digit c);
  let! s := reading rest in
  let '(s, r) := number_loop 0 s in
  do! set_rest s;
  let! number := lift r in
  do! guard (number <=? if negative then 2 ^ 63 else 2 ^ 63 - 1);
  ret (if negative then - number else number).

(** The end of a string: how many bytes there are before the closing quote. *)
Fixpoint scan (n : nat) (s : bytes) : bytes * result Stop nat :=
  match s with
  | [] => ([], Err Bad)
  | c :: r =>
      if bool_decide (c = x00) then (s, Err Bad)
      else if bool_decide (c = x5c) then
        match r with
        | [] => ([], Err Bad)
        | e :: r' => if bool_decide (e = x00) then (r, Err Bad) else scan (S (S n)) r'
        end
      else if bool_decide (c = x22) then (r, Ok n)
      else scan (S n) r
  end.

Definition is_hex_digit (c : byte) : bool := is_ascii_digit c || ((0x41 <=? u8z c) && (u8z c <=? 0x46)).

Definition hexval (c : byte) : Z := if is_ascii_digit c then u8z c - 0x30 else u8z c - 0x41 + 10.

Definition escape (c : byte) : option byte :=
  match c with
  | x22 => Some x22
  | x5c => Some x5c
  | x2f => Some x2f
  | x62 => Some x08
  | x66 => Some x0c
  | x6e => Some x0a
  | x72 => Some x0d
  | x74 => Some x09
  | _ => None
  end.

(** The text of a string of which [n] bytes are left, from its place in the input on. *)
Fixpoint unescape (fuel n : nat) (s : bytes) : result Stop bytes :=
  match n with
  | O => Ok []
  | _ =>
      match fuel with
      | O => Err Fuel
      | S fuel =>
          let c := hd x00 s in
          if negb (bool_decide (c = x5c)) then
            let? out := unescape fuel (n - 1) (drop 1 s) in
            Ok (c :: out)
          else
            let s := drop 1 s in
            let e := hd x00 s in
            let hex := map (fun i => nth i s x00) [1; 2; 3; 4]%nat in
            if bool_decide (e = x75) && forallb is_hex_digit hex then
              let code := fold_left (fun acc c => Z.lor (Z.shiftl acc 4) (hexval c)) hex 0 in
              if 255 <? code then Err Bad
              else
                let? out := unescape fuel (n - 1 - 5) (drop 5 s) in
                Ok (z8 code :: out)
            else
              match escape e with
              | None => Err Bad
              | Some b =>
                  let? out := unescape fuel (n - 1 - 1) (drop 1 s) in
                  Ok (b :: out)
              end
      end
  end.

Definition parse_string : D bytes :=
  let! q := cur_is x22 in
  do! guard q;
  do! advance 1;
  let! start := reading rest in
  let '(s, r) := scan 0 start in
  do! set_rest s;
  let! n := lift r in
  let! out := lift (unescape n n start) in
  ret (before_nul out).

(** The items of an object or an array up to its closing byte. *)
Fixpoint items {A} (fuel : nat) (close : byte) (item : A -> D A) (acc : A) : D A :=
  match fuel with
  | O => lift (Err Fuel)
  | S fuel =>
      let! acc := item acc in
      do! more;
      let! c := cur_is close in
      if c then ret acc
      else
        let! comma := cur_is x2c in
        do! guard comma;
        do! advance 1;
        do! more;
        items fuel close item acc
  end.

(** [parse_object] and [parse_array]: what is between [open] and [close]. *)
Definition group {A} (fuel : nat) (open close : byte) (item : A -> D A) (empty : A) : D A :=
  let! o := cur_is open in
  do! guard o;
  do! advance 1;
  do! more;
  let! c := cur_is close in
  let! acc := (if c then ret empty else items fuel close item empty) in
  do! advance 1;
  ret acc.

Definition parse_member (value : D (option Value)) (ms : list (bytes * Value)) : D (list (bytes * Value)) :=
  let! key := parse_string in
  let! m := skip_ws in
  let! colon := cur_is x3a in
  do! guard (m && colon);
  do! advance 1;
  do! more;
  let! v := value in
  ret (set_member ms key v).

Definition parse_item (value : D (option Value)) (l : list Value) : D (list Value) :=
  let! v := value in
  ret (l ++ [default Null v]).

(** [self.parse_array()], whose error is not passed on. *)
Definition caught {A} (m : D A) : D (option A) :=
  fun d => match m d with
           | (d, Ok a) => (d, Ok (Some a))
           | (d, Err Bad) => (d, Ok None)
           | (d, Err Fuel) => (d, Err Fuel)
           end.

Definition parse_word : D (option Value) :=
  let! n := eat (text "null") in
  if n then ret (Some Null) else
  let! t := eat (text "true") in
  if t then ret (Some (Bool true)) else
  let! f := eat (text "false") in
  if f then ret (Some (Bool false)) else bad.

Fixpoint parse_value (fuel : nat) : D (option Value) :=
  match fuel with
  | O => lift (Err Fuel)
  | S fuel =>
      do! more;
      let! c := reading cur in
      if bool_decide (c = x22) then let! s := parse_string in ret (Some (String_ s))
      else if bool_decide (c = x7b) then
        do! enter;
        let! ms := group fuel x7b x7d (parse_member (parse_value fuel)) [] in
        do! leave;
        ret (Some (Object ms))
      else if bool_decide (c = x5b) then
        do! enter;
        let! l := caught (group fuel x5b x5d (parse_item (parse_value fuel)) []) in
        do! leave;
        ret (Array <$> l)
      else if bool_decide (c = x2d) || is_ascii_digit c then let! n := parse_number in ret (Some (Number n))
      else parse_word
  end.

(** [decode] with so much fuel. *)
Definition decode_with (fuel : nat) (input : bytes) : result Stop Value :=
  let '(d, r) := parse_value fuel (mkDecoder (before_nul input) MAX_DEPTH) in
  let? v := r in
  let '(_, m) := skip_ws d in
  let? m := m in
  if m then Err Bad else match v with Some v => Ok v | None => Err Bad end.

Definition decode (input : bytes) : result Stop Value := decode_with (S (length input)) input.

(** ** The encoder *)

Definition hex_upper (n : Z) : byte := z8 (if n <? 10 then 0x30 + n else 0x37 + n).

Definition encode_char (b : byte) : bytes :=
  match b with
  | x22 => [x5c; x22]
  | x5c => [x5c; x5c]
  | x08 => [x5c; x62]
  | x0c => [x5c; x66]
  | x0a => [x5c; x6e]
  | x0d => [x5c; x72]
  | x09 => [x5c; x74]
  | _ => if (1 <=? u8z b) && (u8z b <=? 31) then [x5c; x75; x30; x30; hex_upper (u8z b / 16); hex_upper (u8z b mod 16)] else [b]
  end.

Definition encode_string (s : bytes) : bytes := x22 :: flat_map encode_char (before_nul s) ++ [x22].

(** Texts with a comma between each two. *)
Fixpoint commas (l : list bytes) : bytes :=
  match l with
  | [] => []
  | [x] => x
  | x :: l => x ++ x2c :: commas l
  end.

Fixpoint encode (v : Value) : bytes :=
  match v with
  | Null => text "null"
  | Bool b => if b then text "true" else text "false"
  | Number n => dec_signed n
  | String_ s => encode_string s
  | Array l => x5b :: commas (map encode l) ++ [x5d]
  | Object ms => x7b :: commas (map (fun '(k, v) => encode_string k ++ x3a :: encode v) ms) ++ [x7d]
  end.

(** ** Values and their induction *)

Section ValueInd.
Variable P : Value -> Prop.
Hypothesis Hnull : P Null.
Hypothesis Hbool : forall b, P (Bool b).
Hypothesis Hnum : forall n, P (Number n).
Hypothesis Hstr : forall s, P (String_ s).
Hypothesis Harr : forall l, Forall P l -> P (Array l).
Hypothesis Hobj : forall ms, Forall (fun m => P m.2) ms -> P (Object ms).

Fixpoint Value_ind (v : Value) : P v :=
  match v with
  | Null => Hnull
  | Bool b => Hbool b
  | Number n => Hnum n
  | String_ s => Hstr s
  | Array l =>
      Harr l ((fix go l : Forall P l :=
                 match l with [] => Forall_nil_2 P | x :: l => Forall_cons_2 P x l (Value_ind x) (go l) end) l)
  | Object ms =>
      Hobj ms ((fix go ms : Forall (fun m => P m.2) ms :=
                  match ms with [] => Forall_nil_2 _ | m :: ms => Forall_cons_2 _ m ms (Value_ind m.2) (go ms) end) ms)
  end.

End ValueInd.

(** How deep containers are nested. *)
Fixpoint levels (v : Value) : nat :=
  match v with
  | Array l => S (fold_right (fun v n => Nat.max (levels v) n) O l)
  | Object ms => S (fold_right (fun m n => Nat.max (levels m.2) n) O ms)
  | _ => O
  end.

Definition no_nul (s : bytes) : bool := forallb (fun b => negb (bool_decide (b = x00))) s.

Definition is_i64 (n : Z) : bool := (- 2 ^ 63 <=? n) && (n <? 2 ^ 63).

(** Strings that end at no NUL, numbers in range, and members each under a name of
    its own. *)
Fixpoint well_formed (v : Value) : bool :=
  match v with
  | Number n => is_i64 n
  | String_ s => no_nul s
  | Array l => forallb well_formed l
  | Object ms => forallb (fun m => no_nul m.1 && well_formed m.2) ms && bool_decide (NoDup (map fst ms))
  | _ => true
  end.

(** ** Fuel *)

(** On texts of at most [k] bytes the two do the same, never come to the end of
    their fuel, and do not go back. *)
Definition same {A} (k : nat) (m1 m2 : D A) : Prop :=
  forall d, (length (rest d) <= k)%nat ->
    m1 d = m2 d /\ (length (rest (m1 d).1) <= length (rest d))%nat /\ (m1 d).2 <> Err Fuel.

Create HintDb json.

Lemma same_bind {A B} k (m1 m2 : D A) (f g : A -> D B) :
  same k m1 m2 -> (forall a, same k (f a) (g a)) -> same k (bind m1 f) (bind m2 g).
Proof.
  intros Hm Hf d Hd. destruct (Hm d Hd) as (E & Hl & Hn). unfold bind. rewrite <- E.
  destruct (m1 d) as [d1 [a|e]]; cbn [fst snd] in *; [|by split; [|split; [|congruence]]].
  destruct (Hf a d1) as (E' & Hl' & Hn'); [lia|]. split; [done|]. split; [lia|done].
Qed.

Lemma same_ret {A} k (a : A) : same k (ret a) (ret a).
Proof. by intros d Hd. Qed.

Lemma same_bad {A} k : same k (bad : D A) bad.
Proof. by intros d Hd. Qed.

Lemma same_reading {A} k (f : Decoder -> A) : same k (reading f) (reading f).
Proof. by intros d Hd. Qed.

Lemma same_guard k b : same k (guard b) (guard b).
Proof. destruct b; [apply same_ret|apply same_bad]. Qed.

Lemma same_advance k n : same k (advance n) (advance n).
Proof. intros d Hd. split; [done|]. split; [|done]. cbn. rewrite length_drop. lia. Qed.

Lemma same_depth k (f : Decoder -> nat) : same k (assign (fun d => mkDecoder (rest d) (f d))) (assign (fun d => mkDecoder (rest d) (f d))).
Proof. by intros d Hd. Qed.

Lemma length_drop_ws s : (length (drop_ws s) <= length s)%nat.
Proof. induction s as [|b s IH]; [done|]. cbn [drop_ws]. destruct (is_ws b); cbn [length]; lia. Qed.

Lemma same_skip_ws k : same k skip_ws skip_ws.
Proof. apply same_bind; [|intros; apply same_reading]. intros d Hd. split; [done|]. split; [apply length_drop_ws|done]. Qed.

Lemma same_cur_is k c : same k (cur_is c) (cur_is c).
Proof. apply same_reading. Qed.

#[export] Hint Resolve same_cur_is same_bind same_ret same_bad same_reading same_guard same_advance same_depth same_skip_ws : json.

(** The steps that do the same by the database. *)
Ltac same_steps := repeat (apply same_bind; [solve [auto with json]|intros ?]).

Lemma same_more k : same k more more.
Proof. unfold more. auto with json. Qed.

Lemma same_eat k l : same k (eat l) (eat l).
Proof. unfold eat. apply same_bind; [auto with json|]. intros []; auto with json. Qed.

#[export] Hint Resolve same_more same_eat : json.

(** The rest a part of the decoder leaves is part of what it was given. *)
Lemma same_part {A B} k (f : bytes -> bytes * result Stop A) (g : bytes -> A -> D B) :
  (forall s, (length (f s).1 <= length s)%nat /\ (f s).2 <> Err Fuel) -> (forall s a, same k (g s a) (g s a)) ->
  same k (let! s := reading rest in let '(s', r) := f s in do! set_rest s'; let! n := lift r in g s n)
    (let! s := reading rest in let '(s', r) := f s in do! set_rest s'; let! n := lift r in g s n).
Proof.
  intros Hf Hg d Hd. destruct (Hf (rest d)) as [Hl Hn]. cbv [bind reading]. destruct (f (rest d)) as [s' r]. cbn [fst snd] in *.
  cbv [set_rest assign lift]. destruct r as [a|e]; cbn [fst snd rest].
  - destruct (Hg (rest d) a (mkDecoder s' (depth d))) as (_ & Hl' & Hn'); [cbn; lia|]. cbn [rest] in Hl'. split; [done|]. split; [lia|done].
  - split; [done|]. split; [done|congruence].
Qed.

Lemma number_loop_part n s : (length (number_loop n s).1 <= length s)%nat /\ (number_loop n s).2 <> Err Fuel.
Proof.
  revert n. induction s as [|b s IH]; intros n; [done|]. cbn [number_loop]. destruct (is_ascii_digit b); [|done].
  cbv zeta. destruct (U64_MAX <? _); [done|]. destruct (IH (n * 10 + (u8z b - 48))) as [??]. cbn [length]. split; [lia|done].
Qed.

Lemma scan_part n s : (length (scan n s).1 <= length s)%nat /\ (scan n s).2 <> Err Fuel.
Proof.
  remember (length s) as k eqn:Ek. revert n s Ek. induction k as [k IH] using lt_wf_ind. intros n [|c s] ->; [done|]. cbn [scan].
  destruct (bool_decide _); [done|]. destruct (bool_decide _); [destruct s as [|e s]; [by split; [cbn; lia|]|]; destruct (bool_decide _)|destruct (bool_decide _)].
  - cbn. split; [lia|done].
  - destruct (IH (length s) ltac:(cbn; lia) (S (S n)) s eq_refl). cbn [length]. split; [lia|done].
  - cbn. split; [lia|done].
  - destruct (IH (length s) ltac:(cbn; lia) (S n) s eq_refl). cbn [length]. split; [lia|done].
Qed.

Lemma unescape_fuel n k s : (k <= n)%nat -> unescape n k s <> Err Fuel.
Proof.
  revert k s. induction n as [|n IH]; intros [|k] s Hk; try done; [lia|]. cbn [unescape]. cbv zeta.
  destruct (negb _); [|destruct (_ && _); [destruct (255 <? _); [done|]|destruct (escape _); [|done]]].
  all: destruct (unescape n _ _) as [|e] eqn:E; [done|]; intros [= ->]; eapply IH; [|exact E]; lia.
Qed.

Lemma same_string k : same k parse_string parse_string.
Proof.
  unfold parse_string. do 3 (apply same_bind; [auto with json|]; intros ?). apply same_part; [apply scan_part|].
  intros s n d Hd. unfold lift, bind. pose proof (unescape_fuel n n s (le_n n)).
  destruct (unescape n n s) as [|e]; [done|]. split; [done|]. split; [done|]. cbn. by intros [= ->].
Qed.

Lemma same_number k : same k parse_number parse_number.
Proof.
  unfold parse_number. apply same_bind; [auto with json|]. intros neg. apply same_bind; [destruct neg; auto with json|]. intros _.
  do 2 (apply same_bind; [auto with json|]; intros ?). apply same_part; [apply number_loop_part|]. auto with json.
Qed.

Lemma same_word k : same k parse_word parse_word.
Proof. unfold parse_word. repeat (apply same_bind; [auto with json|]; intros []; auto with json). Qed.

#[export] Hint Resolve same_string same_number same_word : json.

(** A byte that is taken leaves less. *)
Lemma same_take {A} k c (f g : D A) :
  c <> x00 -> (forall k', k = S k' -> same k' f g) ->
  same k (let! b := cur_is c in do! guard b; do! advance 1; f) (let! b := cur_is c in do! guard b; do! advance 1; g).
Proof.
  intros Hc Hf [[|b s] n] Hd; unfold bind, cur_is, reading, cur; cbn [rest hd].
  { rewrite bool_decide_false by congruence. done. }
  destruct (bool_decide (b = c)); [|done]. cbn [guard ret advance assign rest depth drop].
  cbn in Hd. destruct k as [|k]; [lia|]. destruct (Hf k eq_refl (mkDecoder s n)) as (E & Hl & Hn); [cbn; lia|].
  cbn in *. rewrite drop_0. split; [done|]. split; [lia|done].
Qed.

Lemma same_items {A} k n m close (item1 item2 : A -> D A) acc :
  (k < n)%nat -> (k < m)%nat -> (forall a, same k (item1 a) (item2 a)) -> same k (items n close item1 acc) (items m close item2 acc).
Proof.
  revert n m acc. induction k as [k IH] using lt_wf_ind. intros [|n] [|m] acc Hn Hm Hi; [lia..|]. cbn [items].
  same_steps. case_match; [auto with json|]. apply same_take; [done|]. intros k' ->.
  apply same_bind; [auto with json|]. intros _. apply IH; [lia..|]. intros x d Hd. apply Hi. lia.
Qed.

Lemma same_group {A} k n m o c (item1 item2 : A -> D A) e :
  o <> x00 -> (k <= n)%nat -> (k <= m)%nat -> (forall k' a, (k' < k)%nat -> same k' (item1 a) (item2 a)) ->
  same k (group n o c item1 e) (group m o c item2 e).
Proof.
  intros Ho Hn Hm Hi. unfold group. apply same_take; [done|]. intros k' ->. same_steps.
  apply same_bind; [|auto with json]. case_match; [auto with json|]. apply same_items; [lia..|]. intros b. apply Hi. lia.
Qed.

Lemma same_caught {A} k (m1 m2 : D A) : same k m1 m2 -> same k (caught m1) (caught m2).
Proof.
  intros H d Hd. destruct (H d Hd) as (E & Hl & Hn). unfold caught. rewrite <- E. destruct (m1 d) as [d' [a|[]]]; by cbn in *.
Qed.

Lemma same_member k v1 v2 ms : same k v1 v2 -> same k (parse_member v1 ms) (parse_member v2 ms).
Proof. intros H. unfold parse_member. same_steps. auto with json. Qed.

Lemma same_item k v1 v2 l : same k v1 v2 -> same k (parse_item v1 l) (parse_item v2 l).
Proof. intros H. unfold parse_item. auto with json. Qed.

Lemma same_enter k : same k enter enter.
Proof. unfold enter. auto with json. Qed.

Lemma same_value k n m : (k < n)%nat -> (k < m)%nat -> same k (parse_value n) (parse_value m).
Proof.
  revert n m. induction k as [k IH] using lt_wf_ind. intros [|n] [|m] Hn Hm; [lia..|]. cbn [parse_value].
  same_steps. repeat case_match; auto with json.
  - apply same_bind; [apply same_enter|]. intros _. apply same_bind; [|unfold leave; auto with json].
    apply same_group; [done|lia..|]. intros k' ms Hk. apply same_member, IH; lia.
  - apply same_bind; [apply same_enter|]. intros _. apply same_bind; [|unfold leave; auto with json].
    apply same_caught, same_group; [done|lia..|]. intros k' l Hk. apply same_item, IH; lia.
Qed.

Lemma length_before_nul s : (length (before_nul s) <= length s)%nat.
Proof. induction s as [|b s IH]; [done|]. cbn [before_nul]. destruct (bool_decide _); cbn [length]; lia. Qed.

Lemma decode_fuel n input : (length input < n)%nat -> decode_with n input = decode input /\ decode input <> Err Fuel.
Proof.
  intros Hn. unfold decode, decode_with. set (d := mkDecoder _ _).
  destruct (same_value (length input) n (S (length input)) Hn (le_n _) d (length_before_nul input)) as (E & _ & Hf).
  rewrite E in *. split; [done|]. revert Hf. generalize (parse_value (S (length input)) d). intros [d' [v|e]] Hf; [|by intros [= ->]].
  cbv [skip_ws bind assign reading]. destruct (negb _), v; done.
Qed.

(** C33: The decoder ends on every text.  The fuel bounds how deep its calls nest
    and the turns of each of its loops; as much as the text has bytes, and one more,
    is never used up, however arrays and objects are nested, and more fuel changes
    nothing: what [decode] gives is what the loops without a bound give. *)
Theorem json_terminates n input : (length input < n)%nat -> decode_with n input = decode input /\ decode input <> Err Fuel.
Proof. exact (decode_fuel n input). Qed.

Lemma json_terminates_witness : decode_with 100 (text "[[1,]") = decode (text "[[1,]") /\ decode (text "[[1,]") <> Err Fuel.
Proof. apply (json_terminates 100 (text "[[1,]")). apply Nat.ltb_lt. reflexivity. Defined.

(** ** What is decoded *)

(** With at most [k] levels left there are no more after it, and what it gives
    has [P]. *)
Definition gives {A} (k : nat) (m : D A) (P : A -> Prop) : Prop :=
  forall d, (depth d <= k)%nat -> (depth (m d).1 <= depth d)%nat /\ forall a, (m d).2 = Ok a -> P a.

Lemma gives_bind {A B} k (m : D A) (f : A -> D B) P Q :
  gives k m P -> (forall a, P a -> gives k (f a) Q) -> gives k (bind m f) Q.
Proof.
  intros Hm Hf d Hd. destruct (Hm d Hd) as [Hl Ha]. unfold bind. destruct (m d) as [d1 [a|e]]; cbn [fst snd] in *; [|done].
  destruct (Hf a (Ha a eq_refl) d1) as [Hl' Hq]; [lia|]. split; [lia|done].
Qed.

Lemma gives_ret {A} k (a : A) (P : A -> Prop) : P a -> gives k (ret a) P.
Proof. intros H d Hd. split; [done|]. by intros b [= <-]. Qed.

(** Steps that leave the count of levels. *)
Lemma gives_flat {A} k (m : D A) : (forall d, depth (m d).1 = depth d) -> gives k m (fun _ => True).
Proof. intros H d Hd. rewrite H. by split. Qed.

Lemma gives_weak {A} k (m : D A) (P Q : A -> Prop) : gives k m P -> (forall a, P a -> Q a) -> gives k m Q.
Proof. intros H Hpq d Hd. destruct (H d Hd) as [? Ha]. split; [done|]. auto. Qed.

Lemma flat_bind {A B} (m : D A) (f : A -> D B) :
  (forall d, depth (m d).1 = depth d) -> (forall a d, depth (f a d).1 = depth d) -> forall d, depth (bind m f d).1 = depth d.
Proof. intros Hm Hf d. unfold bind. specialize (Hm d). destruct (m d) as [d' [a|]]; [|done]. cbn in Hm. by rewrite Hf. Qed.

Lemma flat_guard b d : depth (guard b d).1 = depth d.
Proof. by destruct b. Qed.

Lemma flat_more d : depth (more d).1 = depth d.
Proof. apply flat_bind; [done|]. intros b d'. apply flat_guard. Qed.

Lemma no_nul_before s : no_nul (before_nul s) = true.
Proof. induction s as [|b s IH]; [done|]. cbn [before_nul]. destruct (bool_decide (b = x00)) eqn:E; [done|]. cbn. by rewrite E. Qed.

Lemma flat_part {A B} (f : bytes -> bytes * result Stop A) (g : bytes -> A -> D B) :
  (forall s a d, depth (g s a d).1 = depth d) ->
  forall d, depth ((let! s := reading rest in let '(s', r) := f s in do! set_rest s'; let! n := lift r in g s n) d).1 = depth d.
Proof.
  intros Hg d. cbv [bind reading]. destruct (f (rest d)) as [s' [a|e]]; [|done]. cbv [set_rest assign lift]. by rewrite Hg.
Qed.

Lemma flat_string d : depth (parse_string d).1 = depth d.
Proof.
  unfold parse_string. apply flat_bind; [done|]. intros q. apply flat_bind; [apply flat_guard|]. intros _. apply flat_bind; [done|]. intros _.
  apply (flat_part (scan 0) (fun s n => let! out := lift (unescape n n s) in ret (before_nul out))).
  intros s n. apply flat_bind; [done|done].
Qed.

Lemma gives_string k : gives k parse_string (fun s => no_nul s = true).
Proof.
  intros d Hd. split; [by rewrite flat_string|]. intros s. unfold parse_string, bind, guard, advance, assign, cur_is, reading.
  destruct (bool_decide _); [|done]. cbn [ret]. destruct (scan 0 _) as [s' [n|]]; [|done]. cbv [set_rest assign lift].
  destruct (unescape n n _) as [out|]; [|done]. intros [= <-]. apply no_nul_before.
Qed.

Lemma number_nonneg s n s' r : 0 <= n -> number_loop n s = (s', Ok r) -> 0 <= r.
Proof.
  revert n. induction s as [|b s IH]; intros n Hn; cbn [number_loop]; [by intros [= _ <-]|].
  destruct (is_ascii_digit b) eqn:Eb; [|by intros [= _ <-]]. cbv zeta. destruct (U64_MAX <? _); [done|]. apply IH.
  apply is_ascii_digit_range in Eb. lia.
Qed.

Lemma gives_number k : gives k parse_number (fun n => is_i64 n = true).
Proof.
  intros d Hd. split.
  - assert (depth (parse_number d).1 = depth d) as ->; [|done]. unfold parse_number. apply flat_bind; [done|]. intros neg.
    apply flat_bind; [by destruct neg|]. intros _. apply flat_bind; [done|]. intros c. apply flat_bind; [apply flat_guard|]. intros _.
    apply (flat_part (number_loop 0) (fun _ n => do! guard (n <=? if neg then 2 ^ 63 else 2 ^ 63 - 1); ret (if neg then - n else n))).
    intros _ n. apply flat_bind; [apply flat_guard|done].
  - intros r. unfold parse_number, bind, cur_is, reading. set (neg := bool_decide _). destruct ((if neg then advance 1 else ret tt) d) as [d1 [u|]]; [|done].
    unfold guard at 1. destruct (is_ascii_digit _); [|done]. cbn [ret]. destruct (number_loop 0 _) as [s' [n|]] eqn:En; [|done].
    apply number_nonneg in En; [|done]. cbv [set_rest assign lift]. unfold guard. destruct (n <=? _) eqn:El; [|done]. cbn [ret snd].
    intros [= <-]. unfold is_i64. destruct neg; lia.
Qed.

Lemma gives_word k : gives k parse_word (fun v => forall x, v = Some x -> well_formed x = true /\ levels x = O).
Proof.
  assert (forall l d, depth (eat l d).1 = depth d) as He.
  { intros l. apply flat_bind; [done|]. intros b. apply flat_bind; [by destruct b|done]. }
  unfold parse_word. eapply gives_bind; [by apply gives_flat|]. intros [] _; [by apply gives_ret; intros x [= <-]|].
  eapply gives_bind; [by apply gives_flat|]. intros [] _; [by apply gives_ret; intros x [= <-]|].
  eapply gives_bind; [by apply gives_flat|]. intros [] _; [by apply gives_ret; intros x [= <-]|]. by intros d Hd.
Qed.

Lemma gives_items {A} k n close (item : A -> D A) acc (I : A -> Prop) :
  I acc -> (forall a, I a -> gives k (item a) I) -> gives k (items n close item acc) I.
Proof.
  intros Ha Hi. revert acc Ha. induction n as [|n IH]; intros acc Ha; cbn [items]; [by intros d Hd|].
  eapply gives_bind; [by apply Hi|]. intros b Hb. eapply gives_bind; [apply gives_flat, flat_more|]. intros _ _.
  eapply gives_bind; [by apply gives_flat|]. intros [] _; [by apply gives_ret|].
  eapply gives_bind; [by apply gives_flat|]. intros c _. eapply gives_bind; [apply gives_flat; intros; apply flat_guard|]. intros _ _.
  eapply gives_bind; [by apply gives_flat|]. intros _ _. eapply gives_bind; [apply gives_flat, flat_more|]. intros _ _. by apply IH.
Qed.

Lemma gives_group {A} k n o c (item : A -> D A) e (I : A -> Prop) :
  I e -> (forall a, I a -> gives k (item a) I) -> gives k (group n o c item e) I.
Proof.
  intros He Hi. unfold group. eapply gives_bind; [by apply gives_flat|]. intros b _.
  eapply gives_bind; [apply gives_flat; intros; apply flat_guard|]. intros _ _.
  eapply gives_bind; [by apply gives_flat|]. intros _ _. eapply gives_bind; [apply gives_flat, flat_more|]. intros _ _.
  eapply gives_bind; [by apply gives_flat|]. intros close _. eapply gives_bind; [|intros a Ha; eapply gives_bind; [by apply gives_flat|intros _ _; by apply gives_ret]].
  destruct close; [by apply gives_ret|by apply gives_items].
Qed.

(** What is read between entering a level and leaving it. *)
Lemma gives_level {A B} k (m : D A) (f : A -> B) (P : A -> Prop) (Q : B -> Prop) :
  (forall j, k = S j -> gives j m P) -> (forall a, (1 < k)%nat -> P a -> Q (f a)) ->
  gives k (do! enter; let! x := m in do! leave; ret (f x)) Q.
Proof.
  intros Hm Hf d Hd. unfold enter, bind, reading, assign. cbn [fst snd]. unfold guard.
  destruct (1 <? depth d)%nat eqn:E; to_prop; cbn [ret bad lift fst snd depth]; [|split; [lia|done]].
  destruct k as [|k]; [lia|]. destruct (Hm k eq_refl (mkDecoder (rest d) (depth d - 1))) as [Hl Hp]; [cbn; lia|].
  destruct (m _) as [d1 [a|e]]; cbn [fst snd depth] in *; [|split; [lia|done]].
  unfold leave, assign. cbn [fst snd depth ret]. split; [lia|]. intros b [= <-]. apply Hf; [lia|]. by apply Hp.
Qed.

Lemma position_spec key ms :
  match position key ms with
  | Some i => exists v, ms !! i = Some (key, v)
  | None => key ∉ map fst ms
  end.
Proof.
  induction ms as [|[k v] ms IH]; cbn [position map fst]; [apply not_elem_of_nil|]. case_bool_decide as E; [subst; by exists v|].
  destruct (position key ms) as [i|]; cbn; [exact IH|]. rewrite not_elem_of_cons. by split.
Qed.

Definition good_members (n : nat) (ms : list (bytes * Value)) : Prop :=
  Forall (fun m => no_nul m.1 = true /\ well_formed m.2 = true /\ (levels m.2 <= n)%nat) ms /\ NoDup (map fst ms).

Lemma good_set n ms key v :
  good_members n ms -> no_nul key = true -> (forall x, v = Some x -> well_formed x = true /\ (levels x <= n)%nat) ->
  good_members n (set_member ms key v).
Proof.
  intros [Hf Hn] Hk Hv. unfold set_member. pose proof (position_spec key ms) as Hp. destruct (position key ms) as [i|], v as [v|].
  - destruct Hp as [w Hw]. destruct (Hv v eq_refl). split; [by apply Forall_insert|].
    change (NoDup (fst <$> <[i:=(key, v)]> ms)). rewrite list_fmap_insert. cbn [fst]. rewrite list_insert_id; [done|].
    rewrite list_lookup_fmap, Hw. done.
  - split; [by apply Forall_delete|]. change (NoDup (fst <$> delete i ms)). rewrite list_fmap_delete. eapply sublist_NoDup; [exact Hn|apply sublist_delete].
  - destruct (Hv v eq_refl). split; [apply Forall_app; split; [done|by apply Forall_singleton]|]. rewrite map_app.
    apply list.NoDup_app. split; [done|]. split; [|apply NoDup_singleton]. intros x Hx ->%list_elem_of_singleton. done.
  - done.
Qed.

Lemma levels_list n l : Forall (fun v => (levels v <= n)%nat) l -> (fold_right (fun v n => Nat.max (levels v) n) O l <= n)%nat.
Proof. induction 1; cbn; lia. Qed.

Lemma levels_members n ms : Forall (fun m : bytes * Value => (levels m.2 <= n)%nat) ms -> (fold_right (fun m n => Nat.max (levels m.2) n) O ms <= n)%nat.
Proof. induction 1; cbn; lia. Qed.

Lemma gives_value n k :
  gives k (parse_value n) (fun v => forall x, v = Some x -> well_formed x = true /\ (levels x <= k - 1)%nat).
Proof.
  revert k. induction n as [|n IH]; intros k; cbn [parse_value]; [by intros d Hd|].
  eapply gives_bind; [apply gives_flat, flat_more|]. intros _ _. eapply gives_bind; [by apply gives_flat|]. intros c _.
  repeat case_match.
  - eapply gives_bind; [apply gives_string|]. intros s Hs. apply gives_ret. intros x [= <-]. cbn. split; [done|lia].
  - apply gives_level with (good_members (k - 2)).
    + intros j ->. apply gives_group; [split; constructor|]. intros ms Hms. unfold parse_member.
      eapply gives_bind; [apply gives_string|]. intros key Hkey.
      eapply gives_bind; [by apply gives_flat, flat_bind|]. intros m _. eapply gives_bind; [by apply gives_flat|]. intros colon _.
      eapply gives_bind; [apply gives_flat; intros; apply flat_guard|]. intros _ _.
      eapply gives_bind; [by apply gives_flat|]. intros _ _. eapply gives_bind; [apply gives_flat, flat_more|]. intros _ _.
      eapply gives_bind; [apply IH|]. intros v Hv. apply gives_ret, good_set; [done..|]. intros x Hx. destruct (Hv x Hx). split; [done|lia].
    + intros ms Hk [Hf Hn] x [= <-]. cbn [well_formed levels]. split.
      * apply andb_true_intro. split; [|by apply bool_decide_eq_true]. apply forallb_forall. intros m Hm.
        eapply List.Forall_forall in Hf; [|exact Hm]. destruct Hf as (-> & -> & _). done.
      * assert (fold_right (fun m n => Nat.max (levels m.2) n) 0%nat ms <= k - 2)%nat; [|lia]. apply levels_members.
        eapply List.Forall_impl; [|exact Hf]. by intros m (_ & _ & ?).
  - apply gives_level with (fun l => forall l', l = Some l' -> Forall (fun v => well_formed v = true /\ (levels v <= k - 2)%nat) l').
    + intros j ->. intros d Hd. unfold caught.
      edestruct (gives_group j n x5b x5d (parse_item (parse_value n)) [] (Forall (fun v => well_formed v = true /\ (levels v <= S j - 2)%nat)))
        as [Hl Hp]; [constructor| |exact Hd|].
      * intros l Hl. unfold parse_item. eapply gives_bind; [apply IH|]. intros v Hv. apply gives_ret. apply Forall_app. split; [done|].
        apply Forall_singleton. destruct v as [v|]; cbn; [|split; [done|lia]]. destruct (Hv v eq_refl). split; [done|lia].
      * destruct (group _ _ _ _ _ d) as [d' [l|[]]]; cbn in *; (split; [done|]); intros a [= <-]; [intros l' [= <-]; by apply Hp|done].
    + intros l Hk Hf x Hx. destruct l as [l|]; [|done]. injection Hx as <-. specialize (Hf l eq_refl). cbn [well_formed levels]. split.
      * apply forallb_forall. intros v Hv. eapply List.Forall_forall in Hf; [|exact Hv]. apply Hf.
      * assert (fold_right (fun v n => Nat.max (levels v) n) 0%nat l <= k - 2)%nat; [|lia]. apply levels_list.
        eapply List.Forall_impl; [|exact Hf]. by intros v [_ ?].
  - eapply gives_bind; [apply gives_number|]. intros m Hm. apply gives_ret. intros x [= <-]. cbn. split; [done|lia].
  - eapply gives_weak; [apply gives_word|]. intros v Hv x Hx. destruct (Hv x Hx) as [? ->]. split; [done|lia].
Qed.

Lemma decode_good input v : decode input = Ok v -> well_formed v = true /\ (levels v < MAX_DEPTH)%nat.
Proof.
  unfold decode, decode_with. destruct (gives_value (S (length input)) MAX_DEPTH (mkDecoder (before_nul input) MAX_DEPTH) (le_n _)) as [_ H].
  revert H. generalize (parse_value (S (length input)) (mkDecoder (before_nul input) MAX_DEPTH)). intros [d [r|e]] H; [|done].
  destruct (skip_ws d) as [d' [[]|]]; try done. destruct r as [r|]; [|done]. intros [= <-]. destruct (H (Some r) eq_refl r eq_refl).
  split; [done|]. unfold MAX_DEPTH in *. lia.
Qed.

(** ** What is encoded is decoded *)

(** A byte that is neither white space nor the end. *)
Definition solid (c : byte) : Prop := is_ws c = false /\ c <> x00.

(** A number can end here. *)
Definition ends (r : bytes) : Prop := is_ascii_digit (hd x00 r) = false.

Lemma more_solid c r dp : solid c -> more (mkDecoder (c :: r) dp) = (mkDecoder (c :: r) dp, Ok tt).
Proof.
  intros [Hw Hc]. unfold more, skip_ws, bind, assign, reading, cur. cbn [rest depth drop_ws]. rewrite Hw. cbn [hd rest].
  by rewrite bool_decide_false.
Qed.

(** The bytes are few enough to look at each. *)
Lemma scan_char b n r : b <> x00 -> scan n (encode_char b ++ r) = scan (length (encode_char b) + n) r.
Proof. by destruct b. Qed.

Lemma scan_string s n r : no_nul s = true -> scan n (flat_map encode_char s ++ x22 :: r) = (r, Ok (n + length (flat_map encode_char s))%nat).
Proof.
  revert n. induction s as [|b s IH]; intros n H; cbn [flat_map app]; [cbn; by rewrite Nat.add_0_r|].
  cbn [no_nul forallb] in H. to_prop. rewrite <- app_assoc, scan_char by done. rewrite IH by done. rewrite length_app. f_equal. f_equal. lia.
Qed.

Lemma unescape_char b n m r :
  b <> x00 -> unescape (S n) (length (encode_char b) + m) (encode_char b ++ r) = let? out := unescape n m r in Ok (b :: out).
Proof. intros Hb. destruct b; try done; cbn; by rewrite ?Nat.sub_0_r. Qed.

Lemma unescape_string s n r :
  no_nul s = true -> (length s <= n)%nat -> unescape n (length (flat_map encode_char s)) (flat_map encode_char s ++ r) = Ok s.
Proof.
  revert n. induction s as [|b s IH]; intros n H Hn; cbn [flat_map app]; [by destruct n|]. cbn [length] in Hn. destruct n as [|n]; [lia|].
  cbn [no_nul forallb] in H. to_prop. rewrite length_app, <- app_assoc, unescape_char by done. by rewrite IH by (done || lia).
Qed.

Lemma length_flat_encode s : (length s <= length (flat_map encode_char s))%nat.
Proof. induction s as [|b s IH]; [done|]. cbn [flat_map length]. rewrite length_app. assert (1 <= length (encode_char b))%nat by (destruct b; cbn; lia). lia. Qed.

Lemma before_nul_none s : no_nul s = true -> before_nul s = s.
Proof. induction s as [|b s IH]; [done|]. cbn. intros H. to_prop. rewrite bool_decide_false by done. by rewrite IH. Qed.

Lemma string_read s r dp : no_nul s = true -> parse_string (mkDecoder (encode_string s ++ r) dp) = (mkDecoder r dp, Ok s).
Proof.
  intros H. unfold encode_string. rewrite before_nul_none by done. cbn [app]. rewrite <- app_assoc. cbn [app].
  unfold parse_string, bind, cur_is, reading, cur, guard, advance, assign. cbn [rest hd depth drop ret].
  change (bool_decide (x22 = x22)) with true. cbn [ret rest depth drop]. rewrite drop_0, scan_string by done. cbn [set_rest assign lift Nat.add].
  pose proof (length_flat_encode s). rewrite unescape_string by (done || lia). unfold set_rest, assign, lift, ret. by rewrite before_nul_none.
Qed.

Lemma number_loop_digits ds acc r v :
  forallb is_ascii_digit ds = true -> 0 <= acc -> ends r -> fold_left (fun acc c => acc * 10 + (u8z c - 0x30)) ds acc = v -> v <= U64_MAX ->
  number_loop acc (ds ++ r) = (r, Ok v).
Proof.
  revert acc. induction ds as [|b ds IH]; intros acc Hd Ha Hr Ev Hv; cbn [fold_left app] in *.
  - subst v. unfold ends in Hr. destruct r as [|c r]; [done|]. cbn in Hr |- *. by rewrite Hr.
  - cbn [forallb] in Hd. apply andb_prop in Hd as [Hb Hd]. cbn [number_loop]. rewrite Hb.
    assert (0 <= acc * 10 + (u8z b - 48)) as Hp by (apply is_ascii_digit_range in Hb; lia).
    assert (acc * 10 + (u8z b - 48) <= v) as Hm.
    { subst v. clear -Hp Hd. revert Hp. generalize (acc * 10 + (u8z b - 48)). induction ds as [|c ds IH]; intros n Hn; cbn [fold_left]; [lia|].
      cbn [forallb] in Hd. apply andb_prop in Hd as [Hc Hd]. apply is_ascii_digit_range in Hc. etransitivity; [|apply IH; [done|lia]]. lia. }
    cbv zeta. rewrite (proj2 (Z.ltb_ge _ _)) by lia. by apply IH.
Qed.

Lemma number_read n r dp :
  is_i64 n = true -> ends r -> parse_number (mkDecoder (dec_signed n ++ r) dp) = (mkDecoder r dp, Ok n).
Proof.
  intros Hn Hr. unfold is_i64 in Hn. to_prop.
  assert (forall m, 0 <= m <= 2 ^ 63 -> number_loop 0 (dec m ++ r) = (r, Ok m) /\ is_ascii_digit (hd x00 (dec m ++ r)) = true /\ hd x00 (dec m ++ r) <> x2d) as Hm.
  { intros m Hm. pose proof (width_spec 20 m ltac:(cbn; lia)) as Hw. destruct (dec_cons m) as (c & t & E & Hc).
    split; [|rewrite E; cbn; split; [done|by intros ->]].
    assert (fold_left (fun acc c => acc * 10 + (u8z c - 0x30)) (dec m) 0 = m) as Ev.
    { unfold dec. rewrite fold_dec_fixed by lia. rewrite Z.mod_small by done. lia. }
    apply number_loop_digits; [apply dec_digits|done..|unfold U64_MAX; lia]. }
  unfold parse_number, bind, cur_is, reading, cur, dec_signed. destruct (Z.ltb_spec n 0).
  - destruct (Hm (- n)) as (El & Ed & _); [lia|]. cbn [app rest hd]. change (bool_decide (x2d = x2d)) with true. cbn [advance assign rest drop depth].
    unfold advance, assign. cbn [rest drop depth]. rewrite drop_0, Ed. cbn [guard ret].
    cbn [rest]. rewrite El. unfold set_rest, assign, lift.
    rewrite (proj2 (Z.leb_le _ _)) by lia. cbn. by rewrite Z.opp_involutive.
  - destruct (Hm n) as (El & Ed & Eh); [lia|]. cbn [rest]. rewrite bool_decide_false by done. cbn [ret rest]. rewrite Ed. cbn [guard ret].
    cbn [rest]. rewrite El. unfold set_rest, assign, lift. by rewrite (proj2 (Z.leb_le _ _)) by lia.
Qed.

Lemma length_commas {X} (enc : X -> bytes) x xs : x ∈ xs -> (length (enc x) <= length (commas (map enc xs)))%nat.
Proof.
  induction xs as [|y xs IH]; intros Hx; [by apply not_elem_of_nil in Hx|]. cbn [map commas].
  apply list_elem_of_In in Hx as [->|Hx%list_elem_of_In]; destruct (map enc xs) eqn:E; [done|rewrite length_app; lia| |].
  - destruct xs; [by apply not_elem_of_nil in Hx|done].
  - specialize (IH Hx). rewrite length_app. cbn [length]. lia.
Qed.

Lemma commas_count {X} (enc : X -> bytes) xs : (forall x, x ∈ xs -> enc x <> []) -> (length xs <= length (commas (map enc xs)))%nat.
Proof.
  induction xs as [|y xs IH]; intros Hx; [done|]. cbn [map commas length].
  assert (length (enc y) <> 0)%nat by (intros ?%nil_length_inv; by apply (Hx y); [left|]).
  destruct (map enc xs) eqn:E; [destruct xs; [cbn; lia|done]|]. rewrite length_app. cbn [length]. assert (forall x, x ∈ xs -> enc x <> []) as Hx' by (intros; apply Hx; by right).
  specialize (IH Hx'). lia.
Qed.

(** One step of a run. *)
Ltac runs H := erewrite bind_ok by (apply H; done); cbv beta.

Section Items.
Context {A X : Type} (enc : X -> bytes) (step : A -> X -> A) (item : A -> D A) (close : byte) (dp : nat).
Context (Hclose : solid close /\ close <> x2c /\ is_ascii_digit close = false).

Definition reads_item (x : X) : Prop :=
  (exists c t, enc x = c :: t /\ solid c /\ c <> close) /\
  forall a r, ends r -> item a (mkDecoder (enc x ++ r) dp) = (mkDecoder r dp, Ok (step a x)).

Lemma cur_is_hd c b r : cur_is c (mkDecoder (b :: r) dp) = (mkDecoder (b :: r) dp, Ok (bool_decide (b = c))).
Proof. done. Qed.

Lemma items_read n xs acc r :
  xs <> [] -> Forall reads_item xs -> (length xs <= n)%nat ->
  items n close item acc (mkDecoder (commas (map enc xs) ++ close :: r) dp) = (mkDecoder (close :: r) dp, Ok (fold_left step xs acc)).
Proof using Hclose.
  destruct Hclose as (Hs & Hc & Hd). revert xs acc. induction n as [|n IH]; intros [|x xs] acc Hn Hx Hl; cbn [length] in *; [done|lia|done|].
  apply Forall_cons_iff in Hx as [[_ Hx] Hxs]. cbn [items map fold_left]. destruct xs as [|y xs].
  - cbn [map commas fold_left]. runs Hx. runs more_solid.
    runs cur_is_hd. by rewrite bool_decide_true.
  - cbn [map commas]. rewrite <- app_assoc. cbn [app]. runs Hx.
    runs more_solid. runs cur_is_hd.
    rewrite bool_decide_false by congruence. runs cur_is_hd. rewrite bool_decide_true by done.
    unfold guard at 1. unfold bind at 1. cbn [ret]. unfold bind at 1, advance, assign. cbn [rest depth drop]. rewrite drop_0.
    pose proof Hxs as Hy. apply Forall_cons_iff in Hy as [[(c & t & Ey & Hsc & _) _] _].
    assert (exists t', commas (map enc (y :: xs)) = c :: t') as [t' Et].
    { cbn [map commas]. rewrite Ey. destruct (map enc xs); by eexists. }
    change (match map enc xs with [] => enc y | _ :: _ => enc y ++ x2c :: commas (map enc xs) end) with (commas (map enc (y :: xs))).
    rewrite Et. cbn [app]. runs (more_solid c). change (c :: t' ++ close :: r) with ((c :: t') ++ close :: r).
    rewrite <- Et. apply IH; [done..|cbn in *; lia].
Qed.

Lemma group_read n open xs e r :
  Forall reads_item xs -> (length xs <= n)%nat ->
  group n open close item e (mkDecoder (open :: commas (map enc xs) ++ close :: r) dp) = (mkDecoder r dp, Ok (fold_left step xs e)).
Proof using Hclose.
  intros Hx Hl. unfold group. runs cur_is_hd. rewrite bool_decide_true by done.
  unfold guard at 1. unfold bind at 1. cbn [ret]. unfold bind at 1, advance at 1, assign. cbn [rest depth drop]. rewrite drop_0.
  destruct xs as [|x xs].
  - cbn [map commas app fold_left]. destruct Hclose as (Hs & Hc & Hd). runs more_solid.
    runs cur_is_hd. rewrite bool_decide_true by done. cbn. by rewrite drop_0.
  - pose proof Hx as Hy. apply Forall_cons_iff in Hy as [[(c & t & Ey & Hsc & Hcc) _] _].
    assert (exists t', commas (map enc (x :: xs)) = c :: t') as [t' Et].
    { cbn [map commas]. rewrite Ey. destruct (map enc xs); by eexists. }
    rewrite Et. cbn [app]. runs (more_solid c). runs cur_is_hd. rewrite bool_decide_false by done.
    change (c :: t' ++ close :: r) with ((c :: t') ++ close :: r). rewrite <- Et.
    runs items_read. cbn. by rewrite drop_0.
Qed.

End Items.

Lemma digit_solid c : is_ascii_digit c = true -> solid c /\ c <> x5d /\ c <> x22 /\ c <> x7b /\ c <> x5b.
Proof. by destruct c. Qed.

Lemma encode_head v : exists c t, encode v = c :: t /\ solid c /\ c <> x5d.
Proof.
  destruct v as [|[]|n|s|l|ms]; try (by eexists _, _). unfold encode, dec_signed. destruct (n <? 0); [by eexists _, _|].
  destruct (dec_cons n) as (c & t & -> & Hc). exists c, t. split; [done|]. by destruct (digit_solid c Hc) as (? & ? & _).
Qed.

Lemma enter_level r dp : (1 < dp)%nat -> enter (mkDecoder r dp) = (mkDecoder r (dp - 1), Ok tt).
Proof. intros H. unfold enter, bind, reading, assign. cbn [rest depth]. by rewrite (proj2 (Nat.ltb_lt _ _)). Qed.

Lemma leave_level r dp : (1 < dp)%nat -> leave (mkDecoder r (dp - 1)) = (mkDecoder r dp, Ok tt).
Proof. intros H. unfold leave, assign. cbn [rest depth]. do 2 f_equal. lia. Qed.

Lemma fold_snoc (l acc : list Value) : fold_left (fun l x => l ++ [x]) l acc = acc ++ l.
Proof. revert acc. induction l as [|x l IH]; intros acc; cbn; [by rewrite app_nil_r|]. by rewrite IH, <- app_assoc. Qed.

Lemma fold_set ms acc :
  NoDup (map fst (acc ++ ms)) -> fold_left (fun acc m => set_member acc m.1 (Some m.2)) ms acc = acc ++ ms.
Proof.
  revert acc. induction ms as [|[k v] ms IH]; intros acc H; cbn [fold_left]; [by rewrite app_nil_r|].
  assert (set_member acc k (Some v) = acc ++ [(k, v)]) as E.
  { unfold set_member. pose proof (position_spec k acc) as Hp. destruct (position k acc) as [i|]; [|done]. destruct Hp as [w Hw].
    exfalso. rewrite map_app in H. apply list.NoDup_app in H as (_ & H & _). apply (H k); [|by left].
    apply list_elem_of_In, in_map_iff. exists (k, w). split; [done|]. by apply list_elem_of_In, list_elem_of_lookup_2 with i. }
  cbn [fst snd]. rewrite E, IH; by rewrite <- app_assoc.
Qed.

Lemma array_levels l n : (fold_right (fun v n => Nat.max (levels v) n) O l <= n)%nat -> Forall (fun v => (levels v <= n)%nat) l.
Proof. induction l; cbn; intros; constructor; [lia|apply IHl; lia]. Qed.

Lemma object_levels ms n : (fold_right (fun m n => Nat.max (levels m.2) n) O ms <= n)%nat -> Forall (fun m : bytes * Value => (levels m.2 <= n)%nat) ms.
Proof. induction ms; cbn; intros; constructor; [lia|apply IHms; lia]. Qed.

Definition read_back (v : Value) : Prop := forall n dp r,
  well_formed v = true -> (levels v < dp)%nat -> (length (encode v) < n)%nat -> ends r ->
  parse_value n (mkDecoder (encode v ++ r) dp) = (mkDecoder r dp, Ok (Some v)).

(** The first byte tells what follows. *)
Lemma value_start n c t dp :
  solid c -> parse_value (S n) (mkDecoder (c :: t) dp) =
    (if bool_decide (c = x22) then let! s := parse_string in ret (Some (String_ s))
     else if bool_decide (c = x7b) then
       do! enter; let! ms := group n x7b x7d (parse_member (parse_value n)) [] in do! leave; ret (Some (Object ms))
     else if bool_decide (c = x5b) then
       do! enter; let! l := caught (group n x5b x5d (parse_item (parse_value n)) []) in do! leave; ret (Array <$> l)
     else if bool_decide (c = x2d) || is_ascii_digit c then let! n := parse_number in ret (Some (Number n))
     else parse_word) (mkDecoder (c :: t) dp).
Proof. intros H. cbn [parse_value]. runs more_solid. done. Qed.

Lemma read_scalar v : levels v = O -> read_back v.
Proof.
  intros Hl [|n] dp r Hw _ Hn Hr; [lia|]. destruct v as [|[]|i|s|l|ms]; [| | | | |done..]; cbn [well_formed encode] in *.
  1-3: by cbn; rewrite ?drop_0.
  - assert (exists c t, dec_signed i ++ r = c :: t /\ solid c /\ bool_decide (c = x22) = false /\ bool_decide (c = x7b) = false /\ bool_decide (c = x5b) = false /\ (bool_decide (c = x2d) || is_ascii_digit c) = true) as (c & t & E & Hs & H1 & H2 & H3 & H4).
    { unfold dec_signed. destruct (i <? 0); [by eexists _, _|]. destruct (dec_cons i) as (c & t & -> & Hc). exists c, (t ++ r).
      destruct (digit_solid c Hc) as (? & _ & ? & ? & ?). rewrite Hc, orb_true_r. split; [done|]. split; [done|].
      by repeat (split; [by apply bool_decide_eq_false|]). }
    rewrite E, value_start by done. rewrite H1, H2, H3, H4, <- E. erewrite bind_ok by (by apply number_read). done.
  - change (encode_string s ++ r) with (x22 :: (flat_map encode_char (before_nul s) ++ [x22]) ++ r). rewrite value_start by done.
    rewrite bool_decide_true by done. change (x22 :: (flat_map encode_char (before_nul s) ++ [x22]) ++ r) with (encode_string s ++ r).
    erewrite bind_ok by (by apply string_read). done.
Qed.

Lemma read_array l : Forall read_back l -> read_back (Array l).
Proof.
  intros H [|n] dp r Hw Hl Hn Hr; [lia|]. cbn [encode well_formed levels] in *. cbn [app]. rewrite value_start by done.
  rewrite (bool_decide_false (x5b = x22)), (bool_decide_false (x5b = x7b)), (bool_decide_true (x5b = x5b)) by done.
  erewrite bind_ok by (apply enter_level; lia). cbv beta. rewrite <- app_assoc. cbn [app length] in *. rewrite length_app in Hn. cbn [length] in Hn.
  assert (Forall (fun v => (levels v <= dp - 2)%nat) l) as Hlv by (apply array_levels; lia).
  assert (length l <= n)%nat as Hc.
  { etransitivity; [apply (commas_count encode)|lia]. intros v _. destruct (encode_head v) as (c & t & -> & _). done. }
  assert (caught (group n x5b x5d (parse_item (parse_value n)) []) (mkDecoder (x5b :: commas (map encode l) ++ x5d :: r) (dp - 1)) =
    (mkDecoder r (dp - 1), Ok (Some l))) as E.
  { unfold caught. rewrite (group_read encode (fun l x => l ++ [x])); [by rewrite fold_snoc|done| |done].
    apply List.Forall_forall. intros v Hv. split; [apply encode_head|]. intros a r' Hr'. unfold parse_item.
    eapply List.Forall_forall in H; [|exact Hv]. eapply List.Forall_forall in Hlv; [|exact Hv]. eapply forallb_forall in Hw; [|exact Hv].
    pose proof (length_commas encode v l (proj2 (list_elem_of_In l v) Hv)).
    erewrite bind_ok by (apply H; [done|lia..|done]). done. }
  erewrite bind_ok by exact E. cbv beta. erewrite bind_ok by (apply leave_level; lia). done.
Qed.

Lemma member_read n dp m :
  no_nul m.1 = true -> read_back m.2 -> well_formed m.2 = true -> (levels m.2 < dp)%nat -> (length (encode m.2) < n)%nat ->
  reads_item (fun m => encode_string m.1 ++ x3a :: encode m.2) (fun ms m => set_member ms m.1 (Some m.2)) (parse_member (parse_value n)) x7d dp m.
Proof.
  intros Hk Hv Hw Hl Hn. split; [by eexists _, _|]. intros ms r Hr. unfold parse_member. rewrite <- app_assoc. cbn [app].
  erewrite bind_ok by (by apply string_read). cbv beta.
  assert (skip_ws (mkDecoder (x3a :: encode m.2 ++ r) dp) = (mkDecoder (x3a :: encode m.2 ++ r) dp, Ok true)) as E by done.
  erewrite bind_ok by exact E. cbv beta. runs cur_is_hd. rewrite bool_decide_true by done. cbn [andb].
  unfold guard at 1. unfold bind at 1. cbn [ret]. unfold bind at 1, advance, assign. cbn [rest depth drop]. rewrite drop_0.
  destruct (encode_head m.2) as (c & t & Et & Hs & _). pose proof (Hv n dp r Hw Hl Hn Hr) as Hp. rewrite Et in *. cbn [app] in *.
  runs (more_solid c). erewrite bind_ok by exact Hp. done.
Qed.

Lemma read_object ms : Forall (fun m => read_back m.2) ms -> read_back (Object ms).
Proof.
  intros H [|n] dp r Hw Hl Hn Hr; [lia|]. cbn [encode well_formed levels] in *. cbn [app]. rewrite value_start by done.
  rewrite (bool_decide_false (x7b = x22)), (bool_decide_true (x7b = x7b)) by done. apply andb_prop in Hw as [Hw Hd]. apply bool_decide_eq_true in Hd.
  erewrite bind_ok by (apply enter_level; lia). cbv beta.
  set (enc := fun m : bytes * Value => encode_string m.1 ++ x3a :: encode m.2).
  assert (map (fun '(k, v) => encode_string k ++ x3a :: encode v) ms = map enc ms) as Em by (apply map_ext; by intros [k v]).
  rewrite Em in *. rewrite <- app_assoc. cbn [app length] in *. rewrite length_app in Hn. cbn [length] in Hn.
  assert (Forall (fun m : bytes * Value => (levels m.2 <= dp - 2)%nat) ms) as Hlv by (apply object_levels; lia).
  assert (length ms <= n)%nat as Hc by (etransitivity; [apply (commas_count enc); done|lia]).
  assert (group n x7b x7d (parse_member (parse_value n)) [] (mkDecoder (x7b :: commas (map enc ms) ++ x7d :: r) (dp - 1)) =
    (mkDecoder r (dp - 1), Ok ms)) as E.
  { rewrite (group_read enc (fun ms m => set_member ms m.1 (Some m.2))); [by rewrite fold_set|done| |done].
    apply List.Forall_forall. intros m Hm. eapply List.Forall_forall in H; [|exact Hm]. eapply List.Forall_forall in Hlv; [|exact Hm].
    eapply forallb_forall in Hw; [|exact Hm]. apply andb_prop in Hw as [Hk Hw].
    pose proof (length_commas enc m ms (proj2 (list_elem_of_In ms m) Hm)) as Hle. unfold enc at 1 in Hle. rewrite length_app in Hle. cbn [length] in Hle.
    apply member_read; [done..|lia|lia]. }
  erewrite bind_ok by exact E. cbv beta. erewrite bind_ok by (apply leave_level; lia). done.
Qed.

Lemma value_read v : read_back v.
Proof.
  induction v using Value_ind; [by apply read_scalar..| |]; [by apply read_array|by apply read_object].
Qed.

Lemma encode_no_nul v : well_formed v = true -> no_nul (encode v) = true.
Proof.
  assert (forall s, no_nul s = true -> no_nul (flat_map encode_char s) = true) as Hs.
  { induction s as [|b s IH]; [done|]. cbn [no_nul forallb flat_map]. intros [Hb H]%andb_prop. unfold no_nul. rewrite forallb_app.
    apply andb_true_intro. split; [by destruct b|by apply IH]. }
  assert (forall s, no_nul s = true -> no_nul (encode_string s) = true) as He.
  { intros s H. unfold encode_string, no_nul. cbn [forallb]. rewrite forallb_app, before_nul_none by done. fold (no_nul (flat_map encode_char s)).
    by rewrite Hs. }
  assert (forall l, Forall (fun s => no_nul s = true) l -> no_nul (commas l) = true) as Hc.
  { induction 1 as [|x [|y l] Hx Hl IH]; [done|done|]. change (no_nul (x ++ x2c :: commas (y :: l)) = true). unfold no_nul. rewrite forallb_app. cbn [forallb].
    fold (no_nul x) (no_nul (commas (y :: l))). by rewrite Hx, IH. }
  induction v as [| [] | n | s | l IH | ms IH] using Value_ind; try done; cbn [well_formed encode]; intros Hw.
  - unfold no_nul, dec_signed. assert (forall m, forallb (fun b => negb (bool_decide (b = x00))) (dec m) = true) as Hd.
    { intros m. apply forallb_forall. intros b Hb. pose proof (dec_digits m) as Hd. eapply forallb_forall in Hd; [|exact Hb]. by destruct b. }
    destruct (n <? 0); [cbn [forallb]; by rewrite Hd|apply Hd].
  - by apply He.
  - unfold no_nul. cbn [forallb]. rewrite forallb_app. fold (no_nul (commas (map encode l))). rewrite Hc; [done|]. apply List.Forall_map, List.Forall_forall.
    intros v Hv. eapply List.Forall_forall in IH; [|exact Hv]. apply IH. by eapply forallb_forall in Hw; [|exact Hv].
  - apply andb_prop in Hw as [Hw _]. unfold no_nul. cbn [forallb]. rewrite forallb_app. match goal with |- context [forallb _ (commas ?l)] => fold (no_nul (commas l)) end.
    rewrite Hc; [done|]. apply List.Forall_map, List.Forall_forall. intros [k v] Hv. eapply List.Forall_forall in IH; [|exact Hv]. cbn [snd] in IH.
    eapply forallb_forall in Hw; [|exact Hv]. apply andb_prop in Hw as [Hk Hw]. unfold no_nul. rewrite forallb_app. cbn [forallb].
    fold (no_nul (encode_string k)) (no_nul (encode v)). rewrite He by done. by rewrite IH.
Qed.

(** C38: JSON round trips.  A value whose strings hold no NUL, whose numbers are in
    the signed 64-bit range, whose members have names of their own and which is
    nested at most 63 levels deep is decoded from its encoding; and every value
    that is decoded, from whatever text, is such a value. *)
Theorem json_roundtrip v :
  (well_formed v = true -> (levels v < MAX_DEPTH)%nat -> decode (encode v) = Ok v) /\
  (forall input, decode input = Ok v -> well_formed v = true /\ (levels v < MAX_DEPTH)%nat).
Proof.
  split; [|intros input; apply decode_good]. intros Hw Hl. unfold decode, decode_with. rewrite (before_nul_none (encode v)) by (by apply encode_no_nul).
  pose proof (value_read v (S (length (encode v))) MAX_DEPTH [] Hw Hl ltac:(lia) eq_refl) as E. rewrite app_nil_r in E. by rewrite E.
Qed.

End K5json.
