(* ===== verification/EncList.v ===== *)
(** * Enctype names and lists

    Models the parsers of [krb5-crypto/src/etype.rs]: enctype names, the
    [permitted_enctypes] list language with its families and signs, salt types
    and key/salt lists.  Strings are lists of chars. *)

From S2P Require Import Prelude Etype Name.

Module EncList.
Import Name.

(** ** What the parsers use of [str] and [char] *)

(** A string literal. *)
Definition lit (s : string) : ustr := map (fun b => u8z b) (String.list_byte_of_string s).

Definition is_ascii_whitespace (c : Z) : bool :=
  (c =? 0x20) || (c =? 0x09) || (c =? 0x0a) || (c =? 0x0c) || (c =? 0x0d).

(** [char::is_whitespace]: the Unicode White_Space property. *)
Definition is_whitespace (c : Z) : bool :=
  ((0x09 <=? c) && (c <=? 0x0d)) || (c =? 0x20) || (c =? 0x85) || (c =? 0xa0) || (c =? 0x1680)
  || ((0x2000 <=? c) && (c <=? 0x200a)) || (c =? 0x2028) || (c =? 0x2029) || (c =? 0x202f)
  || (c =? 0x205f) || (c =? 0x3000).

Fixpoint trim_start (s : ustr) : ustr :=
  match s with
  | [] => []
  | c :: s' => if is_whitespace c then trim_start s' else s
  end.

Definition trim (s : ustr) : ustr := rev (trim_start (rev (trim_start s))).

Definition lower_char (c : Z) : Z := if (0x41 <=? c) && (c <=? 0x5a) then c + 32 else c.
Definition to_ascii_lowercase (s : ustr) : ustr := map lower_char s.

(** [s.split(|c| ...)]: never empty. *)
Fixpoint split_by (sep : Z -> bool) (s : ustr) : list ustr :=
  match s with
  | [] => [[]]
  | c :: s =>
      if sep c then [] :: split_by sep s
      else match split_by sep s with
           | [] => [[c]]
           | cur :: rest => (c :: cur) :: rest
           end
  end.

(** [s.split_once(c)]. *)
Fixpoint split_once (sep : Z) (s : ustr) : option (ustr * ustr) :=
  match s with
  | [] => None
  | c :: s =>
      if c =? sep then Some ([], s)
      else match split_once sep s with Some (a, b) => Some (c :: a, b) | None => None end
  end.

Definition is_digit (c : Z) : bool := (0x30 <=? c) && (c <=? 0x39).

(** [s.parse::<i32>()], [None] for its errors. *)
Definition parse_i32 (s : ustr) : option Z :=
  let '(neg, digits) :=
    match s with
    | c :: s' => if c =? 0x2d then (true, s') else if c =? 0x2b then (false, s') else (false, s)
    | [] => (false, [])
    end in
  if bool_decide (digits = []) || negb (forallb is_digit digits) then None
  else
    let v := fold_left (fun acc c => acc * 10 + (c - 0x30)) digits 0 in
    let v := if neg then - v else v in
    if (- 2 ^ 31 <=? v) && (v <=? I32_MAX) then Some v else None.

(** ** Names *)

Definition to_mit_name (e : EncryptionType) : ustr :=
  match e with
  | Aes128CtsHmacSha196 => lit "aes128-cts-hmac-sha1-96"
  | Aes256CtsHmacSha196 => lit "aes256-cts-hmac-sha1-96"
  | Aes128CtsHmacSha256128 => lit "aes128-cts-hmac-sha256-128"
  | Aes256CtsHmacSha384192 => lit "aes256-cts-hmac-sha384-192"
  | Des3CbcSha1 => lit "des3-cbc-sha1"
  | Rc4Hmac => lit "arcfour-hmac"
  | Camellia128CtsCmac => lit "camellia128-cts-cmac"
  | Camellia256CtsCmac => lit "camellia256-cts-cmac"
  end.

(** The arms of the [match] of [from_mit_name], in order. *)
Definition MIT_NAMES : list (list ustr * EncryptionType) :=
  [([lit "aes128-cts-hmac-sha1-96"; lit "aes128-cts"; lit "aes128-sha1"], Aes128CtsHmacSha196);
   ([lit "aes256-cts-hmac-sha1-96"; lit "aes256-cts"; lit "aes256-sha1"], Aes256CtsHmacSha196);
   ([lit "aes128-cts-hmac-sha256-128"; lit "aes128-sha2"], Aes128CtsHmacSha256128);
   ([lit "aes256-cts-hmac-sha384-192"; lit "aes256-sha2"], Aes256CtsHmacSha384192);
   ([lit "des3-cbc-sha1"; lit "des3-cbc-sha1-kd"; lit "des3-hmac-sha1"], Des3CbcSha1);
   ([lit "arcfour-hmac"; lit "rc4-hmac"; lit "arcfour-hmac-md5"], Rc4Hmac);
   ([lit "camellia128-cts-cmac"; lit "camellia128-cts"], Camellia128CtsCmac);
   ([lit "camellia256-cts-cmac"; lit "camellia256-cts"], Camellia256CtsCmac)].

Definition from_mit_name (name : ustr) : result Error EncryptionType :=
  let n := trim name in
  match parse_i32 n with
  | Some num => EType.known num
  | None =>
      match List.find (fun arm => bool_decide (to_ascii_lowercase n ∈ fst arm)) MIT_NAMES with
      | Some arm => Ok (snd arm)
      | None => Err (UnsupportedEtype 0)
      end
  end.

Definition is_mit_weak (e : EncryptionType) : bool := false.

(** ** Enctype lists *)

Definition default_enctype_list : list EncryptionType :=
  [Aes256CtsHmacSha196; Aes128CtsHmacSha196; Aes256CtsHmacSha384192; Aes128CtsHmacSha256128;
   Des3CbcSha1; Rc4Hmac; Camellia128CtsCmac; Camellia256CtsCmac].

Definition is_separator (c : Z) : bool := is_ascii_whitespace c || (c =? 0x2c).

(** The sign and the rest of a token. *)
Definition strip_sign (token : ustr) : bool * ustr :=
  match token with
  | c :: r => if c =? 0x2b then (true, r) else if c =? 0x2d then (false, r) else (true, token)
  | [] => (true, [])
  end.

Definition family (rest : ustr) : option (list EncryptionType) :=
  let key := to_ascii_lowercase rest in
  if bool_decide (key = lit "default") then Some default_enctype_list
  else if bool_decide (key = lit "des3") then Some [Des3CbcSha1]
  else if bool_decide (key = lit "aes") then
    Some [Aes256CtsHmacSha196; Aes128CtsHmacSha196; Aes256CtsHmacSha384192; Aes128CtsHmacSha256128]
  else if bool_decide (key = lit "rc4") then Some [Rc4Hmac]
  else if bool_decide (key = lit "camellia") then Some [Camellia256CtsCmac; Camellia128CtsCmac]
  else match from_mit_name key with Ok e => Some [e] | Err _ => None end.

(** The inner loop: [for e in family]. *)
Definition apply_family (allow_weak add : bool) (out fam : list EncryptionType) : list EncryptionType :=
  fold_left (fun out e =>
    if negb allow_weak && is_mit_weak e then out
    else if add then (if bool_decide (e ∈ out) then out else out ++ [e])
    else List.filter (fun x => bool_decide (x <> e)) out) fam out.

(** What one token asks for: nothing when it is empty or names no enctype. *)
Definition token_action (token : ustr) : option (bool * list EncryptionType) :=
  let token := trim token in
  if bool_decide (token = []) then None
  else let '(add, rest) := strip_sign token in (fun fam => (add, fam)) <$> family rest.

Definition parse_enctype_list (profstr : ustr) (allow_weak : bool) : option (list EncryptionType) :=
  let out := fold_left (fun out token =>
    match token_action token with
    | Some (add, fam) => apply_family allow_weak add out fam
    | None => out
    end) (split_by is_separator profstr) [] in
  match out with [] => None | _ => Some out end.

(** ** Key and salt lists *)

Record KeySalt := mkKeySalt { ks_etype : EncryptionType; ks_salt : Z }.

#[global] Instance KeySalt_eq_dec : EqDecision KeySalt.
Proof. solve_decision. Defined.

Definition salttype_from_name (name : ustr) : option Z :=
  let n := to_ascii_lowercase name in
  if bool_decide (n = lit "normal") then Some 0
  else if bool_decide (n = lit "norealm") then Some 2
  else if bool_decide (n = lit "onlyrealm") then Some 3
  else if bool_decide (n = lit "special") then Some 4
  else None.

Definition keysalt_token (tok : ustr) : option KeySalt :=
  let tok := trim tok in
  if bool_decide (tok = []) then None
  else
    let '(et, salt) :=
      match split_once 0x3a tok with
      | Some (e, st) => (e, salttype_from_name st)
      | None => (tok, Some 0)
      end in
    match from_mit_name et, salt with
    | Ok e, Some salt => Some (mkKeySalt e salt)
    | _, _ => None
    end.

Definition parse_keysalts (s : ustr) : list KeySalt :=
  fold_left (fun out tok =>
    match keysalt_token tok with
    | Some ks => if bool_decide (ks ∈ out) then out else out ++ [ks]
    | None => out
    end) (split_by is_separator s) [].

(** ** What a list permits *)

Lemma apply_family_spec w add fam out e :
  e ∈ apply_family w add out fam <-> (if add then e ∈ out \/ e ∈ fam else e ∈ out /\ e ∉ fam).
Proof.
  unfold apply_family. revert out. induction fam as [|x fam IH]; intros out; cbn [fold_left].
  { pose proof (not_elem_of_nil e). destruct add; tauto. }
  rewrite IH. clear IH. unfold is_mit_weak. rewrite andb_false_r.
  pose proof (elem_of_cons fam e x) as Hc. destruct add.
  - case_bool_decide as Hx.
    + destruct (decide (e = x)) as [->|]; tauto.
    + pose proof (elem_of_app out [x] e) as Ha. rewrite list_elem_of_singleton in Ha. tauto.
  - assert (e ∈ List.filter (fun y => bool_decide (y <> x)) out <-> e ∈ out /\ e <> x) as Hf.
    { rewrite !list_elem_of_In, filter_In, bool_decide_eq_true. done. }
    tauto.
Qed.

Lemma apply_family_nodup w add fam out : NoDup out -> NoDup (apply_family w add out fam).
Proof.
  unfold apply_family. revert out. induction fam as [|x fam IH]; intros out Hnd; [done|].
  cbn [fold_left]. apply IH. unfold is_mit_weak. rewrite andb_false_r. destruct add.
  - case_bool_decide as Hx; [done|]. apply list.NoDup_app. split; [done|]. split.
    + intros y Hy Hy'. apply list_elem_of_singleton in Hy' as ->. done.
    + apply list.NoDup_singleton.
  - apply base.NoDup_ListNoDup, List.NoDup_filter, base.NoDup_ListNoDup. done.
Qed.

(** The tokens that name [e], each adding or removing it. *)
Definition mentions (e : EncryptionType) (s : ustr) : list (bool * list EncryptionType) :=
  List.filter (fun a => bool_decide (e ∈ snd a)) (omap token_action (split_by is_separator s)).

Lemma fold_actions w tokens out e :
  e ∈ fold_left (fun out token =>
    match token_action token with
    | Some (add, fam) => apply_family w add out fam
    | None => out
    end) tokens out <->
  match list.last (List.filter (fun a => bool_decide (e ∈ snd a)) (omap token_action tokens)) with
  | Some (add, _) => add = true
  | None => e ∈ out
  end.
Proof.
  revert out. induction tokens as [|t tokens IH]; intros out; [done|].
  cbn [fold_left omap list_omap]. rewrite IH. clear IH.
  destruct (token_action t) as [[add fam]|]; [|done].
  cbn [List.filter snd]. pose proof (apply_family_spec w add fam out e) as Ha.
  set (rest := List.filter _ (omap token_action tokens)).
  case_bool_decide as Hin.
  - rewrite last_cons. destruct (list.last rest) as [[add' fam']|]; [done|].
    rewrite Ha. destruct add; [tauto|]. split; [tauto|done].
  - destruct (list.last rest) as [[add' fam']|]; [done|]. rewrite Ha. destruct add; tauto.
Qed.

Lemma fold_actions_nodup w tokens out :
  NoDup out ->
  NoDup (fold_left (fun out token =>
    match token_action token with
    | Some (add, fam) => apply_family w add out fam
    | None => out
    end) tokens out).
Proof.
  revert out. induction tokens as [|t tokens IH]; intros out Hnd; [done|].
  cbn [fold_left]. apply IH. destruct (token_action t) as [[add fam]|]; [|done].
  by apply apply_family_nodup.
Qed.

(** a list of enctypes holds exactly the enctypes whose last mention adds
    them: later tokens override earlier ones, a family stands for its members,
    and a token that names nothing is skipped.  The list has no duplicates, it is
    absent only when nothing is left, and whether weak enctypes are allowed makes
    no difference to it. *)
Theorem enctype_list_last_word (s : ustr) (allow_weak : bool) :
  (forall e, e ∈ default [] (parse_enctype_list s allow_weak) <->
    exists fam, list.last (mentions e s) = Some (true, fam)) /\
  NoDup (default [] (parse_enctype_list s allow_weak)) /\
  parse_enctype_list s allow_weak <> Some [] /\
  parse_enctype_list s allow_weak = parse_enctype_list s (negb allow_weak).
Proof.
  assert (forall w, default [] (parse_enctype_list s w) = fold_left (fun out token =>
    match token_action token with
    | Some (add, fam) => apply_family w add out fam
    | None => out
    end) (split_by is_separator s) []) as Hp.
  { intros w. unfold parse_enctype_list. by destruct (fold_left _ _ _). }
  split_and!.
  - intros e. rewrite Hp, fold_actions. unfold mentions.
    destruct (list.last _) as [[add fam]|]; split.
    + intros ->. by exists fam.
    + intros [fam' H]. by simplify_eq.
    + intros H. by apply not_elem_of_nil in H.
    + by intros [fam' H].
  - rewrite Hp. apply fold_actions_nodup, NoDup_nil_2.
  - unfold parse_enctype_list. by destruct (fold_left _ _ _).
  - by destruct allow_weak.
Qed.

(** ** Key and salt lists read back *)

Definition salt_name (n : Z) : ustr :=
  if n =? 2 then lit "norealm" else if n =? 3 then lit "onlyrealm"
  else if n =? 4 then lit "special" else lit "normal".

Definition keysalt_text (k : KeySalt) : ustr :=
  to_mit_name (ks_etype k) ++ [0x3a] ++ salt_name (ks_salt k).

Definition known_salt (k : KeySalt) : Prop := ks_salt k ∈ [0; 2; 3; 4].

Lemma keysalt_text_token k :
  known_salt k ->
  keysalt_token (keysalt_text k) = Some k /\ forallb (fun c => negb (is_separator c)) (keysalt_text k) = true.
Proof.
  destruct k as [e n]. unfold known_salt. cbn [ks_salt]. intros Hn.
  rewrite !elem_of_cons in Hn.
  destruct Hn as [->|[->|[->|[->|Hn]]]]; [..|by apply not_elem_of_nil in Hn];
    destruct e; vm_compute; done.
Qed.

Lemma split_by_token sep t rest :
  forallb (fun c => negb (sep c)) t = true ->
  split_by sep (t ++ rest) = match split_by sep rest with [] => [t] | cur :: ts => (t ++ cur) :: ts end.
Proof.
  induction t as [|c t IH]; intros H.
  - cbn [app]. destruct rest as [|c rest]; [done|]. cbn [split_by].
    destruct (sep c); [done|]. by destruct (split_by sep rest).
  - cbn [forallb] in H. to_prop. cbn [app split_by].
    destruct (sep c); [done|]. rewrite IH by done. by destruct (split_by sep rest).
Qed.

(** a list of distinct key/salt pairs, printed as [enctype:salt] words with
    spaces between them, parses back to the same list in the same order; every
    enctype and each of the four salt types is covered. *)
Theorem keysalts_roundtrip (ks : list KeySalt) :
  NoDup ks -> Forall known_salt ks -> parse_keysalts (join 0x20 (map keysalt_text ks)) = ks.
Proof.
  intros Hnd Hks. unfold parse_keysalts.
  assert (forall out, Forall known_salt ks -> NoDup (out ++ ks) ->
    fold_left (fun out tok =>
      match keysalt_token tok with
      | Some k => if bool_decide (k ∈ out) then out else out ++ [k]
      | None => out
      end) (split_by is_separator (join 0x20 (map keysalt_text ks))) out = out ++ ks) as H.
  2: { by apply (H []). }
  clear. induction ks as [|k ks IH]; intros out Hks Hnd; [by rewrite app_nil_r|].
  apply list.Forall_cons in Hks as [Hk Hks]. destruct (keysalt_text_token k Hk) as [Ht Hs].
  assert (k ∉ out) as Hout.
  { apply list.NoDup_app in Hnd as (_ & Hd & _). intros Hin. apply (Hd k Hin), elem_of_cons. by left. }
  destruct ks as [|k' ks].
  - cbn [map join]. rewrite <- (app_nil_r (keysalt_text k)), split_by_token by done.
    cbn [split_by fold_left]. by rewrite app_nil_r, Ht, bool_decide_eq_false_2.
  - change (join 0x20 (map keysalt_text (k :: k' :: ks)))
      with (keysalt_text k ++ 0x20 :: join 0x20 (map keysalt_text (k' :: ks))).
    rewrite split_by_token by done. cbn [split_by]. change (is_separator 0x20) with true. cbn iota.
    rewrite app_nil_r. cbn [fold_left]. rewrite Ht, bool_decide_eq_false_2 by done.
    rewrite IH; [by rewrite <- app_assoc|done|by rewrite <- app_assoc].
Qed.

Lemma keysalts_roundtrip_witness :
  parse_keysalts (join 0x20 (map keysalt_text
    [mkKeySalt Aes256CtsHmacSha196 0; mkKeySalt Rc4Hmac 4; mkKeySalt Aes256CtsHmacSha196 2]))
  = [mkKeySalt Aes256CtsHmacSha196 0; mkKeySalt Rc4Hmac 4; mkKeySalt Aes256CtsHmacSha196 2].
Proof.
  apply keysalts_roundtrip; [apply (bool_decide_unpack _); vm_compute; done|].
  repeat constructor; apply (bool_decide_unpack _); vm_compute; done.
Defined.

(** DEFAULT -camellia des3 -des3 +RC4 *)
Example enctype_list_sample :
  parse_enctype_list (lit "DEFAULT -camellia,des3 -des3 +RC4 nonsense") false
  = Some [Aes256CtsHmacSha196; Aes128CtsHmacSha196; Aes256CtsHmacSha384192;
          Aes128CtsHmacSha256128; Rc4Hmac].
Proof. vm_compute. reflexivity. Qed.

End EncList.
