(* ===== verification/Time.v ===== *)
(** * Kerberos time

    Models the [KerberosTime] operations of [krb5-types/src/lib.rs]: the
    GeneralizedTime reader and the arithmetic on Unix seconds.  A
    [KerberosTime] is its whole Unix seconds, an [i64]: its constructors zero
    the fraction.  The range of representable dates belongs to the chrono
    crate, which is a class. *)

From S2P Require Import Prelude Decimal.

(** chrono's [checked_add_signed] of whole seconds, with the bound of
    [TimeDelta::try_seconds]; it adds, or refuses a result it cannot
    represent.  Every sum within 2^34 seconds of the epoch is representable:
    chrono's dates reach 262,000 years either way. *)
Class Chrono := {
  checked_add_signed : Z -> Z -> option Z;
}.

Class ChronoLaws `{Chrono} := {
  checked_add_value t d t' : checked_add_signed t d = Some t' -> t' = t + d;
  checked_add_near t d :
    0 <= t < 2 ^ 33 -> - 2 ^ 33 <= d <= 2 ^ 33 -> checked_add_signed t d = Some (t + d);
}.

(** A witness: dates up to 8,210,266,876,799 seconds either way. *)
Definition ToyChrono : Chrono := {|
  checked_add_signed t d :=
    if (- 8334601228800 <=? t + d) && (t + d <=? 8210266876799) then Some (t + d) else None
|}.

Lemma ToyChronoLaws : @ChronoLaws ToyChrono.
Proof.
  split; cbn [checked_add_signed ToyChrono].
  - intros t d t' Ht. case_match; by simplify_eq.
  - intros t d Ht Hd. rewrite (proj2 (Z.leb_le (- 8334601228800) _)) by lia.
    by rewrite (proj2 (Z.leb_le (t + d) _)) by lia.
Qed.

Module Time.

(** ** Arithmetic *)

(** [KerberosTime::unix_seconds], clamped to a [u32]. *)
Definition unix_seconds (t : Z) : Z := if Z.max t 0 <=? U32_MAX then Z.max t 0 else U32_MAX.

Definition from_unix_seconds (s : Z) : Z := s.

Definition add_seconds `{Chrono} (t seconds : Z) : option Z := checked_add_signed t seconds.

Definition add_hours `{Chrono} (t hours : Z) : option Z := checked_add_signed t (hours * 3600).

Definition I64_MIN : Z := - 2 ^ 63.
Definition I64_MAX : Z := 2 ^ 63 - 1.

(** [i64::saturating_sub] of the timestamps. *)
Definition delta_seconds (t other : Z) : Z := Z.max I64_MIN (Z.min I64_MAX (t - other)).

(** ** GeneralizedTime *)

(** The first day of month [m] of year [y], in days from 1970-01-01. *)
Definition days_from_civil (y m : Z) : Z :=
  let y := if m <=? 2 then y - 1 else y in
  let era := y / 400 in
  let yoe := y - era * 400 in
  let mp := Z.rem (m + 9) 12 in
  let doy := Z.quot (153 * mp + 2) 5 in
  let doe := yoe * 365 + Z.quot yoe 4 - Z.quot yoe 100 + doy in
  era * 146097 + doe - 719468.

Definition EPOCH_TEXT : bytes := String.list_byte_of_string "19700101000000Z".

Definition digits (s : bytes) (from to : nat) : option Z := Decimal.digits_from 0 (slice s from to).

Definition mit_generaltime (s : bytes) : option Z :=
  if negb (length s =? 15)%nat || negb (bool_decide (s !! 14%nat = Some x5a)) then None
  else if bool_decide (s = EPOCH_TEXT) then Some 0
  else
    year ← digits s 0 4;
    month ← digits s 4 6;
    let month := month - 1 in
    mday ← digits s 6 8;
    hour ← digits s 8 10;
    min ← digits s 10 12;
    sec ← digits s 12 14;
    let y := year + month / 12 in
    let m := month mod 12 + 1 in
    let days := days_from_civil y m + mday - 1 in
    let t := days * 86400 + hour * 3600 + min * 60 + sec in
    if t =? -1 then None else Some (t mod 2 ^ 32).

(** ** The Gregorian calendar, by counting days *)

Definition leap (y : Z) : bool :=
  (y mod 4 =? 0) && (negb (y mod 100 =? 0) || (y mod 400 =? 0)).

Definition month_length (y m : Z) : Z :=
  match m with
  | 2 => if leap y then 29 else 28
  | 4 | 6 | 9 | 11 => 30
  | _ => 31
  end.

(** The days of the first [k] months of year [y]. *)
Fixpoint days_before_month (y : Z) (k : nat) : Z :=
  match k with O => 0 | S k => days_before_month y k + month_length y (Z.of_nat (S k)) end.

Definition year_length (y : Z) : Z := days_before_month y 12.

(** The days of the years 0 .. n-1. *)
Fixpoint days_before_year (n : nat) : Z :=
  match n with O => 0 | S n => days_before_year n + year_length (Z.of_nat n) end.

(** Seconds from 1970-01-01 00:00:00 (day 719,528 of year 0) to a civil time. *)
Definition civil_seconds (y mo d h mi s : Z) : Z :=
  (days_before_year (Z.to_nat y) + days_before_month y (Z.to_nat (mo - 1)) + (d - 1) - 719528) * 86400
  + h * 3600 + mi * 60 + s.

(** The text [YYYYMMDDhhmmssZ]. *)
Definition generaltime_text (y mo d h mi s : Z) : bytes :=
  Decimal.dec_fixed 4 y ++ Decimal.dec_fixed 2 mo ++ Decimal.dec_fixed 2 d
  ++ Decimal.dec_fixed 2 h ++ Decimal.dec_fixed 2 mi ++ Decimal.dec_fixed 2 s ++ [x5a].

Lemma year_length_leap y : year_length y = if leap y then 366 else 365.
Proof.
  unfold year_length, days_before_month. unfold month_length.
  cbn [Z.of_nat Pos.of_succ_nat Pos.succ]. destruct (leap y); reflexivity.
Qed.

(** The first of March of year [y]: [days_from_civil] starts its years there. *)
Definition march_days (y : Z) : Z :=
  let yoe := y - y / 400 * 400 in
  y / 400 * 146097 + (yoe * 365 + Z.quot yoe 4 - Z.quot yoe 100) - 719468.

Lemma days_from_civil_march y m :
  days_from_civil y m
  = march_days (if m <=? 2 then y - 1 else y) + Z.quot (153 * Z.rem (m + 9) 12 + 2) 5.
Proof. unfold days_from_civil, march_days. cbv zeta. lia. Qed.

Lemma march_days_step y : march_days y = march_days (y - 1) + (if leap y then 366 else 365).
Proof.
  unfold march_days, leap. cbv zeta.
  destruct (y mod 4 =? 0) eqn:E4, (y mod 100 =? 0) eqn:E100, (y mod 400 =? 0) eqn:E400;
    cbn [andb orb negb]; to_prop; Z.to_euclidean_division_equations; lia.
Qed.

Lemma days_from_civil_january y :
  days_from_civil (y + 1) 1 = days_from_civil y 1 + year_length y.
Proof.
  rewrite year_length_leap, !days_from_civil_march. change (1 <=? 2) with true. cbn iota.
  replace (y + 1 - 1) with y by lia. rewrite (march_days_step y). lia.
Qed.

Lemma days_from_civil_month y (k : nat) :
  (k < 12)%nat -> days_from_civil y (Z.of_nat k + 1) = days_from_civil y 1 + days_before_month y k.
Proof.
  intros Hk. rewrite !days_from_civil_march. pose proof (march_days_step y) as Hs.
  do 12 (destruct k as [|k]; [unfold days_before_month, month_length;
    repeat match goal with
    | |- context [Z.of_nat ?n] => let z := eval vm_compute in (Z.of_nat n) in change (Z.of_nat n) with z
    | |- context [?m <=? 2] => let c := eval vm_compute in (m <=? 2) in change (m <=? 2) with c
    | |- context [Z.quot ?m 5] => let c := eval vm_compute in (Z.quot m 5) in change (Z.quot m 5) with c
    end; cbn iota; destruct (leap y); lia|]). lia.
Qed.

Lemma days_from_civil_year (n : nat) :
  days_from_civil (Z.of_nat n) 1 = days_before_year n - 719528.
Proof.
  induction n as [|n IH]; [done|].
  rewrite Nat2Z.inj_succ. unfold Z.succ. rewrite days_from_civil_january, IH.
  cbn [days_before_year]. lia.
Qed.

Lemma days_from_civil_counts y m :
  0 <= y -> 1 <= m <= 12 ->
  days_from_civil y m
  = days_before_year (Z.to_nat y) + days_before_month y (Z.to_nat (m - 1)) - 719528.
Proof.
  intros Hy Hm. replace m with (Z.of_nat (Z.to_nat (m - 1)) + 1) at 1 by lia.
  rewrite days_from_civil_month by lia.
  rewrite <- (Z2Nat.id y) at 1 by done. rewrite days_from_civil_year. lia.
Qed.

(** A field of fixed width reads back. *)
Lemma digits_at t a c w n i j :
  t = a ++ Decimal.dec_fixed w n ++ c -> length a = i -> j = (i + w)%nat ->
  0 <= n < 10 ^ Z.of_nat w -> digits t i j = Some n.
Proof.
  intros -> Ha -> Hn. unfold digits. rewrite slice_mid.
  - by rewrite Decimal.digits_from_fixed by done.
  - done.
  - by rewrite length_app, Decimal.length_dec_fixed, Ha.
Qed.

Lemma generaltime_fields y mo d h mi s :
  0 <= y < 10000 -> 0 <= mo < 100 -> 0 <= d < 100 -> 0 <= h < 100 -> 0 <= mi < 100 ->
  0 <= s < 100 ->
  let t := generaltime_text y mo d h mi s in
  digits t 0 4 = Some y /\ digits t 4 6 = Some mo /\ digits t 6 8 = Some d /\
  digits t 8 10 = Some h /\ digits t 10 12 = Some mi /\ digits t 12 14 = Some s.
Proof.
  intros Hy Hmo Hd Hh Hmi Hs t. unfold t, generaltime_text.
  set (a4 := Decimal.dec_fixed 4 y). set (a6 := a4 ++ Decimal.dec_fixed 2 mo).
  set (a8 := a6 ++ Decimal.dec_fixed 2 d). set (a10 := a8 ++ Decimal.dec_fixed 2 h).
  set (a12 := a10 ++ Decimal.dec_fixed 2 mi).
  assert (forall a w n, length (a ++ Decimal.dec_fixed w n) = (length a + w)%nat) as Hl
    by (intros; by rewrite length_app, Decimal.length_dec_fixed).
  assert (length a4 = 4%nat) by apply Decimal.length_dec_fixed.
  split_and!; [eapply (digits_at _ [])|eapply (digits_at _ a4)|eapply (digits_at _ a6)
              |eapply (digits_at _ a8)|eapply (digits_at _ a10)|eapply (digits_at _ a12)];
    try done; unfold a12, a10, a8, a6; rewrite ?Hl, <- ?app_assoc; try reflexivity; lia.
Qed.

Lemma length_generaltime y mo d h mi s : length (generaltime_text y mo d h mi s) = 15%nat.
Proof. unfold generaltime_text. by rewrite !length_app, !Decimal.length_dec_fixed. Qed.

Lemma generaltime_last y mo d h mi s : generaltime_text y mo d h mi s !! 14%nat = Some x5a.
Proof.
  unfold generaltime_text. do 6 (rewrite lookup_app_r; rewrite Decimal.length_dec_fixed; [|lia]).
  reflexivity.
Qed.

(** the GeneralizedTime reader agrees with the calendar.  The text of year
    0-9999, month 1-12 and any two-digit day, hour, minute and second reads as
    the number of seconds obtained by counting the days of the Gregorian years
    and months from the epoch, modulo 2^32; one second before the epoch, which
    MIT's [mktime] cannot tell from an error, is refused.  Text of another
    length, or not ending in Z, is refused. *)
Theorem generaltime_calendar (y mo d h mi s : Z) :
  0 <= y < 10000 -> 1 <= mo <= 12 -> 0 <= d < 100 -> 0 <= h < 100 -> 0 <= mi < 100 ->
  0 <= s < 100 ->
  mit_generaltime (generaltime_text y mo d h mi s)
  = (if civil_seconds y mo d h mi s =? -1 then None
     else Some (civil_seconds y mo d h mi s mod 2 ^ 32)) /\
  (forall t, length t <> 15%nat \/ t !! 14%nat <> Some x5a -> mit_generaltime t = None).
Proof.
  intros Hy Hmo Hd Hh Hmi Hs. split.
  - destruct (generaltime_fields y mo d h mi s) as (F1 & F2 & F3 & F4 & F5 & F6); try lia.
    unfold mit_generaltime. rewrite length_generaltime, generaltime_last.
    rewrite bool_decide_eq_true_2 by done. cbn [Nat.eqb negb orb].
    destruct (bool_decide (generaltime_text y mo d h mi s = EPOCH_TEXT)) eqn:E.
    + to_prop. rewrite E in F1, F2, F3, F4, F5, F6.
      vm_compute in F1, F2, F3, F4, F5, F6.
      injection F1 as <-. injection F2 as <-. injection F3 as <-.
      injection F4 as <-. injection F5 as <-. injection F6 as <-. vm_compute. reflexivity.
    + rewrite F1, F2, F3, F4, F5, F6. cbn [mbind option_bind].
      rewrite (Z.div_small (mo - 1)), (Z.mod_small (mo - 1)) by lia.
      rewrite Z.add_0_r, Z.sub_add, days_from_civil_counts by lia.
      replace (days_before_year _ + _ - _ + d - 1)
        with (days_before_year (Z.to_nat y) + days_before_month y (Z.to_nat (mo - 1)) + (d - 1)
              - 719528) by lia.
      reflexivity.
  - intros t Ht. unfold mit_generaltime.
    destruct (length t =? 15)%nat eqn:El; [|done]. to_prop.
    rewrite bool_decide_eq_false_2 by tauto. done.
Qed.

(** 2038-01-19 03:14:08, and leap day 2000 *)
Lemma generaltime_calendar_witness :
  mit_generaltime (generaltime_text 2038 1 19 3 14 8) = Some (2 ^ 31) /\
  mit_generaltime (generaltime_text 2000 2 29 0 0 0) = Some 951782400.
Proof.
  split.
  - rewrite (proj1 (generaltime_calendar 2038 1 19 3 14 8 ltac:(lia) ltac:(lia) ltac:(lia)
      ltac:(lia) ltac:(lia) ltac:(lia))). vm_compute. reflexivity.
  - rewrite (proj1 (generaltime_calendar 2000 2 29 0 0 0 ltac:(lia) ltac:(lia) ltac:(lia)
      ltac:(lia) ltac:(lia) ltac:(lia))). vm_compute. reflexivity.
Defined.

End Time.
