(* ===== verification/Kdc.v ===== *)
(** * The KDC's data

    Models the types the request policy reads: [TicketFlags]
    and [KdcOptions] of [krb5-types/src/lib.rs] with [constants.rs], and
    [Principal], [Policy], [NamedPolicy], the attribute flags, the key search and
    the [PrincipalRead] trait of [krb5-kdc].  A [String] that is only compared is
    its UTF-8 bytes; one that is parsed is its list of chars. *)

From S2P Require Import Prelude Etype Name.

(** ** Errors *)

(** [krb5_kdc::Error] without the texts that only the log shows (the [detail] of
    a protocol error, the message of a preauthentication module or of a failed
    decoding): a protocol error, the preauthentication demand, a module's error,
    a failed encoding or decoding, the errors of the administration functions, an
    error of the crypto library by its value ([CryptoErr]), and the rest. *)
Inductive KdcError :=
| Protocol (code : Z) (text : option string) (e_data : option bytes)
| PreauthRequired (e_data : bytes)
| PreauthModule (code : Z)
| Asn1
| AclDenied
| AclParse (message : list Z)
| AlreadyExists
| NotFound
| PasswordPolicy (text : string)
| PassTooSoon (until : Z)
| InvalidArgument (text : string)
| AliasRealm
| AliasUnsupported
| BadKeysalts
| Rng
| Db (text : string)
| Crypto (text : string)
| CryptoErr (e : Error)
| OtherKdcError.

#[global] Instance KdcError_eq_dec : EqDecision KdcError.
Proof. solve_decision. Defined.

Definition proto (code : Z) (status : string) : KdcError := Protocol code (Some status) None.

Module err.
Definition NAME_EXP : Z := 1.
Definition SERVICE_EXP : Z := 2.
Definition BAD_PVNO : Z := 3.
Definition C_PRINCIPAL_UNKNOWN : Z := 6.
Definition S_PRINCIPAL_UNKNOWN : Z := 7.
Definition CANNOT_POSTDATE : Z := 10.
Definition NEVER_VALID : Z := 11.
Definition POLICY : Z := 12.
Definition BADOPTION : Z := 13.
Definition ETYPE_NOSUPP : Z := 14.
Definition SUMTYPE_NOSUPP : Z := 15.
Definition PADATA_TYPE_NOSUPP : Z := 16.
Definition TRTYPE_NOSUPP : Z := 17.
Definition CLIENT_REVOKED : Z := 18.
Definition TGT_REVOKED : Z := 20.
Definition KEY_EXPIRED : Z := 23.
Definition PREAUTH_FAILED : Z := 24.
Definition PREAUTH_REQUIRED : Z := 25.
Definition SERVER_NOMATCH : Z := 26.
Definition MUST_USE_USER2USER : Z := 27.
Definition SVC_UNAVAILABLE : Z := 29.
Definition BAD_INTEGRITY : Z := 31.
Definition TKT_EXPIRED : Z := 32.
Definition TKT_NYV : Z := 33.
Definition NOT_US : Z := 35.
Definition BADMATCH : Z := 36.
Definition SKEW : Z := 37.
Definition BADADDR : Z := 38.
Definition MSG_TYPE : Z := 40.
Definition MODIFIED : Z := 41.
Definition ILL_CR_TKT : Z := 43.
Definition BADKEYVER : Z := 44.
Definition INAPP_CKSUM : Z := 50.
Definition GENERIC : Z := 60.
Definition CLIENT_NOT_TRUSTED : Z := 62.
Definition INVALID_SIG : Z := 64.
Definition DH_KEY_PARAMETERS_NOT_ACCEPTED : Z := 65.
Definition PREAUTH_EXPIRED : Z := 90.
Definition MORE_PREAUTH_DATA_REQUIRED : Z := 91.
Definition UNKNOWN_CRITICAL_FAST_OPTION : Z := 93.
Definition NO_TKT_IN_RLM : Z := 185.
Definition DISCARD : Z := -1750600189.
End err.

(** ** Flags *)

Module flag_bit.
Definition FORWARDABLE : nat := 1.
Definition FORWARDED : nat := 2.
Definition PROXIABLE : nat := 3.
Definition PROXY : nat := 4.
Definition MAY_POSTDATE : nat := 5.
Definition POSTDATED : nat := 6.
Definition INVALID : nat := 7.
Definition RENEWABLE : nat := 8.
Definition INITIAL : nat := 9.
Definition PRE_AUTHENT : nat := 10.
Definition HW_AUTHENT : nat := 11.
Definition TRANSITED_POLICY_CHECKED : nat := 12.
Definition OK_AS_DELEGATE : nat := 13.
Definition CNAME_IN_ADDL_TKT : nat := 14.
Definition CANONICALIZE : nat := 15.
Definition ENC_PA_REP : nat := 15.
Definition ANONYMOUS : nat := 16.
Definition DISABLE_TRANSITED_CHECK : nat := 26.
Definition RENEWABLE_OK : nat := 27.
Definition ENC_TKT_IN_SKEY : nat := 28.
Definition RENEW : nat := 30.
Definition VALIDATE : nat := 31.
End flag_bit.

(** [KerberosFlags], a bit string of any length: what [TicketFlags] and
    [KdcOptions] wrap. *)
Module Flags.

Definition none : list bool := replicate 32 false.

(** [n < len && bits[n]]. *)
Definition bit (f : list bool) (n : nat) : bool := default false (f !! n).

Definition with_bit (f : list bool) (n : nat) (on : bool) : list bool :=
  if (n <? length f)%nat then <[n := on]> f else f.

(** [flags_to_u32]: bit 0 is the most significant; bits past 32 are dropped. *)
Definition to_u32 (f : list bool) : Z :=
  foldl (fun v i => if bit f i then Z.lor v (Z.shiftl 1 (31 - Z.of_nat i)) else v)
        0 (seq 0 (Nat.min (length f) 32)).

Definition flag_mask (ns : list nat) : Z :=
  foldr (fun n m => Z.lor (Z.shiftl 1 (31 - Z.of_nat n)) m) 0 ns.

(** The options [as_invalid_bits] masks. *)
Definition AS_INVALID : list nat :=
  [flag_bit.FORWARDED; flag_bit.PROXY; flag_bit.RENEW; flag_bit.VALIDATE;
   flag_bit.ENC_TKT_IN_SKEY; flag_bit.CNAME_IN_ADDL_TKT].

Definition as_invalid_bits (o : list bool) : Z := Z.land (to_u32 o) (flag_mask AS_INVALID).

Lemma bit_with_bit f n m on :
  bit (with_bit f n on) m =
  if decide (n = m) then (if (n <? length f)%nat then on else bit f m) else bit f m.
Proof.
  unfold with_bit, bit. destruct (n <? length f)%nat eqn:E; [|by destruct (decide (n = m))].
  to_prop. destruct (decide (n = m)) as [->|Hne].
  - by rewrite list_lookup_insert_eq by lia.
  - by rewrite list_lookup_insert_ne by done.
Qed.

Lemma length_with_bit f n on : length (with_bit f n on) = length f.
Proof. unfold with_bit. case_match; [apply length_insert|done]. Qed.

Lemma bit_none n : bit none n = false.
Proof.
  unfold bit, none. destruct (decide (n < 32)%nat).
  - by rewrite lookup_replicate_2.
  - by rewrite lookup_ge_None_2 by (rewrite length_replicate; lia).
Qed.

Lemma testbit_to_u32_from f (L : list nat) v k :
  0 <= k -> Forall (fun i => (i < 32)%nat) L ->
  Z.testbit (foldl (fun v i => if bit f i then Z.lor v (Z.shiftl 1 (31 - Z.of_nat i)) else v) v L) k
  = Z.testbit v k || existsb (fun i => bit f i && (31 - Z.of_nat i =? k)) L.
Proof.
  intros Hk. revert v. induction L as [|i L IH]; intros v HL; [by rewrite orb_false_r|].
  apply list.Forall_cons in HL as [Hi HL]. cbn [foldl existsb]. rewrite IH by done.
  destruct (bit f i); [|done]. cbn [andb].
  rewrite Z.lor_spec, Z.shiftl_spec by done. rewrite <- orb_assoc. f_equal. f_equal.
  change 1 with (2 ^ 0). rewrite Z.pow2_bits_eqb by lia.
  apply eq_true_iff_eq. rewrite !Z.eqb_eq. lia.
Qed.

Lemma testbit_to_u32 f (i : nat) :
  (i < 32)%nat -> Z.testbit (to_u32 f) (31 - Z.of_nat i) = bit f i.
Proof.
  intros Hi. unfold to_u32. rewrite testbit_to_u32_from.
  3: { apply list.Forall_seq. lia. }
  2: lia.
  rewrite Z.bits_0. cbn [orb]. apply eq_true_iff_eq. rewrite existsb_exists. split.
  - intros (j & Hj & Hb). apply andb_true_iff in Hb as [Hb He]. to_prop.
    by replace i with j by lia.
  - intros Hb. exists i. rewrite Hb, Z.eqb_refl. split; [|done]. apply in_seq.
    unfold bit in Hb. destruct (f !! i) eqn:Hf; [|done]. apply lookup_lt_Some in Hf. lia.
Qed.

Lemma testbit_flag_mask ns (i : nat) :
  (i < 32)%nat -> Forall (fun i => (i < 32)%nat) ns ->
  Z.testbit (flag_mask ns) (31 - Z.of_nat i) = bool_decide (i ∈ ns).
Proof.
  intros Hi. induction ns as [|n ns IH]; intros HL.
  { rewrite bool_decide_eq_false_2 by apply not_elem_of_nil. apply Z.bits_0. }
  apply list.Forall_cons in HL as [Hn HL]. cbn [flag_mask foldr]. fold (flag_mask ns).
  rewrite Z.lor_spec, Z.shiftl_spec, IH by (done || lia).
  change 1 with (2 ^ 0). rewrite Z.pow2_bits_eqb by lia.
  apply eq_true_iff_eq.
  rewrite orb_true_iff, !bool_decide_eq_true, Z.eqb_eq, elem_of_cons. lia || intuition lia.
Qed.

(** [as_invalid_bits] is zero when none of those options is set. *)
Lemma as_invalid_bits_zero o :
  as_invalid_bits o = 0 <-> Forall (fun n => bit o n = false) AS_INVALID.
Proof.
  assert (Forall (fun i => (i < 32)%nat) AS_INVALID) as HA by (repeat constructor; cbn; lia).
  rewrite list.Forall_forall. split.
  - intros H n Hn. pose proof (proj1 (list.Forall_forall _ _) HA n Hn) as Hlt. cbn in Hlt.
    rewrite <- testbit_to_u32 by done.
    apply (f_equal (fun z => Z.testbit z (31 - Z.of_nat n))) in H.
    unfold as_invalid_bits in H. rewrite Z.land_spec, testbit_flag_mask, Z.bits_0 in H by done.
    rewrite bool_decide_eq_true_2, andb_true_r in H by done. done.
  - intros H. apply Z.bits_inj'. intros k Hk. unfold as_invalid_bits.
    rewrite Z.land_spec, Z.bits_0.
    destruct (decide (k < 32)) as [Hlt|Hge].
    + replace k with (31 - Z.of_nat (Z.to_nat (31 - k))) by lia.
      rewrite testbit_to_u32, testbit_flag_mask by (done || lia).
      case_bool_decide as Hd; [by rewrite (H _ Hd)|apply andb_false_r].
    + assert (Z.testbit (flag_mask AS_INVALID) k = false) as ->; [|apply andb_false_r].
      apply Z.bits_above_log2; [done|]. change (Z.log2 (flag_mask AS_INVALID)) with 29. lia.
Qed.

End Flags.

(** ** Principals *)

Definition KDB_DISALLOW_POSTDATED : Z := 0x1.
Definition KDB_DISALLOW_FORWARDABLE : Z := 0x2.
Definition KDB_DISALLOW_TGT_BASED : Z := 0x4.
Definition KDB_DISALLOW_RENEWABLE : Z := 0x8.
Definition KDB_DISALLOW_PROXIABLE : Z := 0x10.
Definition KDB_DISALLOW_DUP_SKEY : Z := 0x20.
Definition KDB_DISALLOW_ALL_TIX : Z := 0x40.
Definition KDB_REQUIRES_PRE_AUTH : Z := 0x80.
Definition KDB_REQUIRES_HW_AUTH : Z := 0x100.
Definition KDB_REQUIRES_PWCHANGE : Z := 0x200.
Definition KDB_DISALLOW_SVR : Z := 0x1000.
Definition KDB_PWCHANGE_SERVICE : Z := 0x2000.
Definition KDB_OK_AS_DELEGATE : Z := 0x100000.
Definition KDB_OK_TO_AUTH_AS_DELEGATE : Z := 0x200000.
Definition KDB_NO_AUTH_DATA_REQUIRED : Z := 0x400000.

Record TlData := mkTl { ty : Z; contents : bytes }.

Record KeyEntry := mkEntry {
  ke_etype : EncryptionType;
  key : Key.ProtocolKey;
  kvno : Z;
  salt_type : option Z;
  kdb_salt : option bytes;
}.

(** [KeyEntry::new]. *)
Definition new_entry (e : EncryptionType) (k : Key.ProtocolKey) (v : Z) : KeyEntry := mkEntry e k v None None.

(** One key of the password history as it is stored. *)
Record OsaKeyData := mkOsaKey {
  ok_ver : Z;
  ok_kvno : Z;
  ok_types : Z * Z;
  ok_contents : bytes * bytes;
}.

Record KadmData := mkKadm {
  aux_attributes : Z;
  old_key_next : Z;
  admin_history_kvno : Z;
  old_keys : list (list OsaKeyData);
}.

Definition INITIAL_HIST_KVNO : Z := 2.

Definition default_kadm : KadmData := mkKadm 0 0 INITIAL_HIST_KVNO [].

Record Principal := mkPrincipal {
  name : PrincipalName.PrincipalName;
  realm : bytes;
  keys : list KeyEntry;
  key_history : list KeyEntry;
  salt : bytes;
  max_life : Z;
  pw_expire : Z;
  attributes : Z;
  max_renewable_life : Z;
  expiration : Z;
  last_success : Z;
  last_failed : Z;
  fail_auth_count : Z;
  mkvno : Z;
  db_entry_len : Z;
  tl_data : list TlData;
  p_e_data : bytes;
  rid : Z;
  s4u_allowed_from : list bytes;
  s4u_allowed_to : list bytes;
  pw_policy : option Name.ustr;
  kadm : KadmData;
  string_attrs : list (Name.ustr * Name.ustr);
}.

#[global] Instance ProtocolKey_eq_dec : EqDecision Key.ProtocolKey.
Proof. solve_decision. Defined.
#[global] Instance TlData_eq_dec : EqDecision TlData.
Proof. solve_decision. Defined.
#[global] Instance KeyEntry_eq_dec : EqDecision KeyEntry.
Proof. solve_decision. Defined.
#[global] Instance OsaKeyData_eq_dec : EqDecision OsaKeyData.
Proof. solve_decision. Defined.
#[global] Instance KadmData_eq_dec : EqDecision KadmData.
Proof. solve_decision. Defined.
#[global] Instance Principal_eq_dec : EqDecision Principal.
Proof. solve_decision. Defined.

(** Assignments to the fields of a record. *)
Definition set_name (n : PrincipalName.PrincipalName) (r : bytes) (p : Principal) : Principal :=
  mkPrincipal n r (keys p) (key_history p) (salt p) (max_life p) (pw_expire p) (attributes p)
    (max_renewable_life p) (expiration p) (last_success p) (last_failed p) (fail_auth_count p)
    (mkvno p) (db_entry_len p) (tl_data p) (p_e_data p) (rid p) (s4u_allowed_from p)
    (s4u_allowed_to p) (pw_policy p) (kadm p) (string_attrs p).
Definition set_keys (v : list KeyEntry) (p : Principal) : Principal :=
  mkPrincipal (name p) (realm p) v (key_history p) (salt p) (max_life p) (pw_expire p)
    (attributes p) (max_renewable_life p) (expiration p) (last_success p) (last_failed p)
    (fail_auth_count p) (mkvno p) (db_entry_len p) (tl_data p) (p_e_data p) (rid p)
    (s4u_allowed_from p) (s4u_allowed_to p) (pw_policy p) (kadm p) (string_attrs p).
Definition set_key_history (v : list KeyEntry) (p : Principal) : Principal :=
  mkPrincipal (name p) (realm p) (keys p) v (salt p) (max_life p) (pw_expire p) (attributes p)
    (max_renewable_life p) (expiration p) (last_success p) (last_failed p) (fail_auth_count p)
    (mkvno p) (db_entry_len p) (tl_data p) (p_e_data p) (rid p) (s4u_allowed_from p)
    (s4u_allowed_to p) (pw_policy p) (kadm p) (string_attrs p).
Definition set_salt (v : bytes) (p : Principal) : Principal :=
  mkPrincipal (name p) (realm p) (keys p) (key_history p) v (max_life p) (pw_expire p)
    (attributes p) (max_renewable_life p) (expiration p) (last_success p) (last_failed p)
    (fail_auth_count p) (mkvno p) (db_entry_len p) (tl_data p) (p_e_data p) (rid p)
    (s4u_allowed_from p) (s4u_allowed_to p) (pw_policy p) (kadm p) (string_attrs p).
Definition set_max_life (v : Z) (p : Principal) : Principal :=
  mkPrincipal (name p) (realm p) (keys p) (key_history p) (salt p) v (pw_expire p) (attributes
    p) (max_renewable_life p) (expiration p) (last_success p) (last_failed p) (fail_auth_count
    p) (mkvno p) (db_entry_len p) (tl_data p) (p_e_data p) (rid p) (s4u_allowed_from p)
    (s4u_allowed_to p) (pw_policy p) (kadm p) (string_attrs p).
Definition set_pw_expire (v : Z) (p : Principal) : Principal :=
  mkPrincipal (name p) (realm p) (keys p) (key_history p) (salt p) (max_life p) v (attributes p)
    (max_renewable_life p) (expiration p) (last_success p) (last_failed p) (fail_auth_count p)
    (mkvno p) (db_entry_len p) (tl_data p) (p_e_data p) (rid p) (s4u_allowed_from p)
    (s4u_allowed_to p) (pw_policy p) (kadm p) (string_attrs p).
Definition set_attributes (v : Z) (p : Principal) : Principal :=
  mkPrincipal (name p) (realm p) (keys p) (key_history p) (salt p) (max_life p) (pw_expire p) v
    (max_renewable_life p) (expiration p) (last_success p) (last_failed p) (fail_auth_count p)
    (mkvno p) (db_entry_len p) (tl_data p) (p_e_data p) (rid p) (s4u_allowed_from p)
    (s4u_allowed_to p) (pw_policy p) (kadm p) (string_attrs p).
Definition set_max_renewable_life (v : Z) (p : Principal) : Principal :=
  mkPrincipal (name p) (realm p) (keys p) (key_history p) (salt p) (max_life p) (pw_expire p)
    (attributes p) v (expiration p) (last_success p) (last_failed p) (fail_auth_count p) (mkvno
    p) (db_entry_len p) (tl_data p) (p_e_data p) (rid p) (s4u_allowed_from p) (s4u_allowed_to p)
    (pw_policy p) (kadm p) (string_attrs p).
Definition set_expiration (v : Z) (p : Principal) : Principal :=
  mkPrincipal (name p) (realm p) (keys p) (key_history p) (salt p) (max_life p) (pw_expire p)
    (attributes p) (max_renewable_life p) v (last_success p) (last_failed p) (fail_auth_count p)
    (mkvno p) (db_entry_len p) (tl_data p) (p_e_data p) (rid p) (s4u_allowed_from p)
    (s4u_allowed_to p) (pw_policy p) (kadm p) (string_attrs p).
Definition set_fail_auth_count (v : Z) (p : Principal) : Principal :=
  mkPrincipal (name p) (realm p) (keys p) (key_history p) (salt p) (max_life p) (pw_expire p)
    (attributes p) (max_renewable_life p) (expiration p) (last_success p) (last_failed p) v
    (mkvno p) (db_entry_len p) (tl_data p) (p_e_data p) (rid p) (s4u_allowed_from p)
    (s4u_allowed_to p) (pw_policy p) (kadm p) (string_attrs p).
Definition set_tl_data (v : list TlData) (p : Principal) : Principal :=
  mkPrincipal (name p) (realm p) (keys p) (key_history p) (salt p) (max_life p) (pw_expire p)
    (attributes p) (max_renewable_life p) (expiration p) (last_success p) (last_failed p)
    (fail_auth_count p) (mkvno p) (db_entry_len p) v (p_e_data p) (rid p) (s4u_allowed_from p)
    (s4u_allowed_to p) (pw_policy p) (kadm p) (string_attrs p).
Definition set_rid (v : Z) (p : Principal) : Principal :=
  mkPrincipal (name p) (realm p) (keys p) (key_history p) (salt p) (max_life p) (pw_expire p)
    (attributes p) (max_renewable_life p) (expiration p) (last_success p) (last_failed p)
    (fail_auth_count p) (mkvno p) (db_entry_len p) (tl_data p) (p_e_data p) v (s4u_allowed_from
    p) (s4u_allowed_to p) (pw_policy p) (kadm p) (string_attrs p).
Definition set_s4u_allowed_from (v : list bytes) (p : Principal) : Principal :=
  mkPrincipal (name p) (realm p) (keys p) (key_history p) (salt p) (max_life p) (pw_expire p)
    (attributes p) (max_renewable_life p) (expiration p) (last_success p) (last_failed p)
    (fail_auth_count p) (mkvno p) (db_entry_len p) (tl_data p) (p_e_data p) (rid p) v
    (s4u_allowed_to p) (pw_policy p) (kadm p) (string_attrs p).
Definition set_s4u_allowed_to (v : list bytes) (p : Principal) : Principal :=
  mkPrincipal (name p) (realm p) (keys p) (key_history p) (salt p) (max_life p) (pw_expire p)
    (attributes p) (max_renewable_life p) (expiration p) (last_success p) (last_failed p)
    (fail_auth_count p) (mkvno p) (db_entry_len p) (tl_data p) (p_e_data p) (rid p)
    (s4u_allowed_from p) v (pw_policy p) (kadm p) (string_attrs p).
Definition set_pw_policy (v : option Name.ustr) (p : Principal) : Principal :=
  mkPrincipal (name p) (realm p) (keys p) (key_history p) (salt p) (max_life p) (pw_expire p)
    (attributes p) (max_renewable_life p) (expiration p) (last_success p) (last_failed p)
    (fail_auth_count p) (mkvno p) (db_entry_len p) (tl_data p) (p_e_data p) (rid p)
    (s4u_allowed_from p) (s4u_allowed_to p) v (kadm p) (string_attrs p).
Definition set_kadm (v : KadmData) (p : Principal) : Principal :=
  mkPrincipal (name p) (realm p) (keys p) (key_history p) (salt p) (max_life p) (pw_expire p)
    (attributes p) (max_renewable_life p) (expiration p) (last_success p) (last_failed p)
    (fail_auth_count p) (mkvno p) (db_entry_len p) (tl_data p) (p_e_data p) (rid p)
    (s4u_allowed_from p) (s4u_allowed_to p) (pw_policy p) v (string_attrs p).
Definition set_string_attrs (v : list (Name.ustr * Name.ustr)) (p : Principal) : Principal :=
  mkPrincipal (name p) (realm p) (keys p) (key_history p) (salt p) (max_life p) (pw_expire p)
    (attributes p) (max_renewable_life p) (expiration p) (last_success p) (last_failed p)
    (fail_auth_count p) (mkvno p) (db_entry_len p) (tl_data p) (p_e_data p) (rid p)
    (s4u_allowed_from p) (s4u_allowed_to p) (pw_policy p) (kadm p) v.

Definition attr (p : Principal) (b : Z) : bool := negb (Z.land (attributes p) b =? 0).

Record NamedPolicy := mkNamedPolicy {
  np_name : Name.ustr;
  min_length : Z;
  min_classes : Z;
  history : Z;
  max_fail : Z;
  pw_failcnt_interval : Z;
  pw_lockout_duration : Z;
  pw_min_life : Z;
  pw_max_life : Z;
  allowed_keysalts : option Name.ustr;
}.

#[global] Instance NamedPolicy_eq_dec : EqDecision NamedPolicy.
Proof. solve_decision. Defined.

(** The fields of [Policy] the modelled functions read. *)
Record Policy := mkPolicy {
  realm_max_life : Z;
  realm_max_renewable_life : Z;
  skew : Z;
  allow_weak_crypto : bool;
  allow_rc4 : bool;
  allow_des3 : bool;
  permitted_enctypes : option (list EncryptionType);
  restrict_anon : bool;
  disable_last_success : bool;
  disable_lockout : bool;
}.

(** The [PrincipalRead] trait, as far as the policy calls it. *)
Class PrincipalRead := {
  store_realm : bytes;
  policy : Policy;
  named_policy_for : Principal -> option NamedPolicy;
}.

(** ** The key search *)

Module Keys.

Inductive KeyLookup := NoMatchingKey | NoPermittedKey.

Definition etype_permitted (pol : Policy) (e : EncryptionType) : bool :=
  match permitted_enctypes pol with None => true | Some v => bool_decide (e ∈ v) end.

(** The greatest [kvno] of the keys. *)
Definition top_kvno (ks : list KeyEntry) : option Z :=
  match ks with
  | [] => None
  | k :: ks => Some (fold_left (fun m k => Z.max m (kvno k)) ks (kvno k))
  end.

Fixpoint search (permitted : EncryptionType -> bool) (etype : option EncryptionType) (v : Z)
    (saw_non_permitted : bool) (ks : list KeyEntry) : result KeyLookup KeyEntry :=
  match ks with
  | [] => Err (if saw_non_permitted then NoPermittedKey else NoMatchingKey)
  | k :: ks =>
      if negb (kvno k =? v)
         || match etype with Some e => bool_decide (ke_etype k <> e) | None => false end
      then search permitted etype v saw_non_permitted ks
      else if negb (permitted (ke_etype k)) then search permitted etype v true ks
      else Ok k
  end.

(** [Policy::find_enctype] on [Principal::find_enctype]. *)
Definition find_enctype (pol : Policy) (p : Principal) (etype : option EncryptionType) (v : Z)
    : result KeyLookup KeyEntry :=
  if match etype with Some e => negb (etype_permitted pol e) | None => false end
  then Err NoPermittedKey
  else match top_kvno (keys p) with
       | None => Err NoMatchingKey
       | Some top => search (etype_permitted pol) etype (if v =? 0 then top else v) false (keys p)
       end.

Lemma top_kvno_in ks v : top_kvno ks = Some v -> exists k, In k ks /\ kvno k = v.
Proof.
  destruct ks as [|k0 ks]; [done|]. cbn [top_kvno]. intros [= <-]. revert k0.
  induction ks as [|k ks IH]; intros k0; cbn [fold_left]; [exists k0; cbn; tauto|].
  destruct (Z.max_dec (kvno k0) (kvno k)) as [Hm|Hm]; rewrite Hm.
  - destruct (IH k0) as (k' & [->|Hk'] & E); [exists k'|exists k']; cbn; tauto.
  - destruct (IH k) as (k' & [->|Hk'] & E); [exists k'|exists k']; cbn; tauto.
Qed.

Lemma top_kvno_max ks v k : top_kvno ks = Some v -> In k ks -> kvno k <= v.
Proof.
  destruct ks as [|k0 ks]; [done|]. cbn [top_kvno]. intros [= <-].
  assert (forall l m, m <= fold_left (fun m k => Z.max m (kvno k)) l m /\
    forall k, In k l -> kvno k <= fold_left (fun m k => Z.max m (kvno k)) l m) as H.
  { induction l as [|k1 l IH]; intros m; cbn [fold_left In]; [split; [lia|done]|].
    destruct (IH (Z.max m (kvno k1))) as [H1 H2]. split; [lia|]. intros k' [->|Hk']; [lia|auto]. }
  intros [->|Hk]; [apply (proj1 (H ks (kvno k)))|by apply (proj2 (H ks (kvno k0)))].
Qed.

(** What the search promises of a key it returns. *)
Definition wanted (pol : Policy) (etype : option EncryptionType) (v : Z) (k : KeyEntry) : Prop :=
  kvno k = v /\ (forall e, etype = Some e -> ke_etype k = e) /\ etype_permitted pol (ke_etype k) = true.

Lemma search_spec pol etype v ks saw :
  match search (etype_permitted pol) etype v saw ks with
  | Ok k => k ∈ ks /\ wanted pol etype v k
  | Err _ => forall k, k ∈ ks -> ~ wanted pol etype v k
  end.
Proof.
  revert saw. induction ks as [|k ks IH]; intros saw; cbn [search].
  { intros k Hk. by apply not_elem_of_nil in Hk. }
  destruct (negb (kvno k =? v) || _) eqn:Eskip.
  - specialize (IH saw). destruct (search _ _ _ saw ks) as [k'|].
    + destruct IH. split; [by apply elem_of_cons; right|done].
    + intros k' Hk'. apply elem_of_cons in Hk' as [->|Hk']; [|by apply IH].
      intros (Hv & He & _). apply orb_true_iff in Eskip as [Ek|Ek].
      * to_prop. done.
      * destruct etype as [et|]; [|done]. to_prop. by rewrite (He et) in Ek.
  - apply orb_false_iff in Eskip as [Ek Ee]. to_prop.
    destruct (negb (etype_permitted pol (ke_etype k))) eqn:Ep.
    + specialize (IH true). destruct (search _ _ _ true ks) as [k'|].
      * destruct IH. split; [by apply elem_of_cons; right|done].
      * intros k' Hk'. apply elem_of_cons in Hk' as [->|Hk']; [|by apply IH].
        intros (_ & _ & Hp). by rewrite Hp in Ep.
    + to_prop. split; [by apply elem_of_cons; left|]. split; [done|]. split; [|done].
      intros e He. rewrite He in Ee. to_prop. by destruct (decide (ke_etype k = e)).
Qed.

End Keys.
