(* ===== verification/Lockout.v ===== *)
(** * Account lockout

    Models [krb5-kdc/src/lockout.rs]: the check made before a request is
    answered, and the audit of its outcome, which returns the update the store
    applies to the client's lockout record. *)

From S2P Require Import Prelude Etype Name Kdc.

Module Lockout.

Record Lockout := mkLockout { l_success : Z; l_failed : Z; l_count : Z }.

#[global] Instance Lockout_eq_dec : EqDecision Lockout.
Proof. solve_decision. Defined.

(** [Lockout::of] and [Lockout::set_on]. *)
Definition of_principal (p : Principal) : Lockout := mkLockout (last_success p) (last_failed p) (fail_auth_count p).

Definition set_on (l : Lockout) (p : Principal) : Principal :=
  mkPrincipal (name p) (realm p) (keys p) (key_history p) (salt p) (max_life p) (pw_expire p)
    (attributes p) (max_renewable_life p) (expiration p) (l_success l) (l_failed l) (l_count l)
    (mkvno p) (db_entry_len p) (tl_data p) (p_e_data p) (rid p) (s4u_allowed_from p)
    (s4u_allowed_to p) (pw_policy p) (kadm p) (string_attrs p).

Record LockoutUpdate := mkUpdate {
  zero_fail_count : bool;
  set_last_success : bool;
  set_last_failure : bool;
}.

Definition is_empty (u : LockoutUpdate) : bool :=
  negb (zero_fail_count u || set_last_success u || set_last_failure u).

Definition apply (u : LockoutUpdate) (base : Lockout) (stamp : Z) : Lockout :=
  let out := base in
  let out := if zero_fail_count u then mkLockout (l_success out) (l_failed out) 0 else out in
  let out := if set_last_success u then mkLockout stamp (l_failed out) (l_count out) else out in
  if set_last_failure u
  then mkLockout (l_success out) stamp (wrapping_add 32 (l_count out) 1)
  else out.

Definition ts_after (a b : Z) : bool := b <? a.
Definition ts_incr (ts delta : Z) : Z := wrapping_add 32 ts delta.

Definition TL_LAST_ADMIN_UNLOCK : Z := 0x0700.

Definition last_admin_unlock (p : Principal) : Z :=
  match List.find (fun t => ty t =? TL_LAST_ADMIN_UNLOCK) (tl_data p) with
  | Some t => if (length (contents t) =? 4)%nat then from_le_bytes (contents t) else 0
  | None => 0
  end.

Section Store.
Context `{PrincipalRead}.

Definition lookup_lockout_policy (p : Principal) : Z * Z * Z :=
  match named_policy_for p with
  | Some pol => (max_fail pol, pw_failcnt_interval pol, pw_lockout_duration pol)
  | None => (0, 0, 0)
  end.

Definition locked_check_p (stamp max_fail lockout_duration : Z) (p : Principal) : bool :=
  if negb (ts_after (last_failed p) (last_admin_unlock p)) then false
  else if (max_fail =? 0) || (fail_auth_count p <? max_fail) then false
  else if lockout_duration =? 0 then true
  else ts_after (ts_incr (last_failed p) lockout_duration) stamp.

Definition lockout_check_policy (p : Principal) (stamp : Z) : result KdcError unit :=
  if disable_lockout policy then Ok tt
  else
    let '(max_fail, _, lockout_duration) := lookup_lockout_policy p in
    if locked_check_p stamp max_fail lockout_duration p
    then Err (proto err.CLIENT_REVOKED "LOCKED_OUT")
    else Ok tt.

Definition as_outcome {A} (out : result KdcError A) : Z :=
  match out with
  | Ok _ => 0
  | Err (Protocol code _ _) => code
  | Err (PreauthRequired _) => err.PREAUTH_REQUIRED
  | Err _ => err.GENERIC
  end.

(** The update passed to [store.update_lockout], if any. *)
Definition lockout_audit (p : Principal) (stamp status : Z) : option LockoutUpdate :=
  if negb ((status =? 0) || (status =? err.PREAUTH_FAILED) || (status =? err.BAD_INTEGRITY))
  then None
  else
    let '(max_fail, failcnt_interval, lockout_duration) :=
      if disable_lockout policy then (0, 0, 0) else lookup_lockout_policy p in
    if locked_check_p stamp max_fail lockout_duration p then None
    else
      let update :=
        if (status =? 0) && negb (Z.land (attributes p) KDB_REQUIRES_PRE_AUTH =? 0) then
          mkUpdate (negb (disable_lockout policy) && negb (fail_auth_count p =? 0))
                   (negb (disable_last_success policy)) false
        else if negb (status =? 0) && negb (disable_lockout policy) then
          mkUpdate (negb (ts_after (last_failed p) (last_admin_unlock p))
                    || (negb (failcnt_interval =? 0)
                        && ts_after stamp (ts_incr (last_failed p) failcnt_interval)))
                   false true
        else mkUpdate false false false in
      if is_empty update then None else Some update.

(** One request of client [p] whose record is [l]: the record is merged into the
    entry, the lockout policy is checked, and the outcome is audited.  [verdict]
    is what the rest of the request would give; it is computed only when the
    check passes.  The flag says whether it was. *)
Definition request (p : Principal) (l : Lockout) (stamp : Z) (verdict : result KdcError unit)
    : Lockout * bool :=
  let q := set_on l p in
  let checked := lockout_check_policy q stamp in
  let out := match checked with Ok _ => verdict | Err e => Err e end in
  (match lockout_audit q stamp (as_outcome out) with
   | Some u => apply u l stamp
   | None => l
   end, is_ok checked).

(** A failed guess of the password: a failed preauthentication. *)
Definition is_guess (verdict : result KdcError unit) : bool :=
  (as_outcome verdict =? err.PREAUTH_FAILED) || (as_outcome verdict =? err.BAD_INTEGRITY).

(** A run: the guesses that were evaluated, and the record at the end. *)
Fixpoint run (p : Principal) (l : Lockout) (reqs : list (Z * result KdcError unit)) : Lockout * nat :=
  match reqs with
  | [] => (l, O)
  | (stamp, verdict) :: reqs =>
      let '(l, evaluated) := request p l stamp verdict in
      let '(l, n) := run p l reqs in
      (l, ((if evaluated && is_guess verdict then 1 else 0) + n)%nat)
  end.

Definition guesses (reqs : list (Z * result KdcError unit)) : nat :=
  length (List.filter (fun r => is_guess (snd r)) reqs).

End Store.

(** ** What a lockout policy allows

    A client [p] under a policy of [m] failures, a failure-count interval of [f]
    seconds (0 is none) and a lockout duration of [d] seconds (0 is until an
    administrator unlocks it). *)

Section Guessing.
Context `{PrincipalRead} (p : Principal) (m f d : Z).

(** The policy is found from the entry's policy name, which the record merge
    leaves alone; the policy of the realm has lockout on. *)
Definition lockout_on : Prop :=
  disable_lockout policy = false /\
  (forall l, lookup_lockout_policy (set_on l p) = (m, f, d)) /\ 0 < m.

Definition locked (l : Lockout) (stamp : Z) : bool := locked_check_p stamp m d (set_on l p).

Definition unlocked_at : Z := last_admin_unlock p.

(** Failures counted since the last administrative unlock, and the last of them. *)
Definition counted (l : Lockout) : Z := if unlocked_at <? l_failed l then l_count l else 0.
Definition last_counted (l : Lockout) : option Z := if counted l =? 0 then None else Some (l_failed l).

(** A guess at [stamp] is not too late for the failures up to [last] to count. *)
Definition in_time (last : option Z) (stamp : Z) : Prop :=
  match last with Some last => f = 0 \/ stamp <= (last + f) mod 2 ^ 32 | None => True end.

(** The record after an evaluated guess that is in time. *)
Definition failed (l : Lockout) (stamp : Z) : Lockout :=
  mkLockout (l_success l) stamp
    (wrapping_add 32 (if unlocked_at <? l_failed l then l_count l else 0) 1).

Context (Hon : lockout_on).

Lemma request_locked l stamp v : locked l stamp = true -> request p l stamp v = (l, false).
Proof using Hon.
  intros Hl. destruct Hon as (Hd & Hp & _). unfold request, lockout_check_policy.
  rewrite Hd. rewrite Hp.
  unfold locked in Hl. rewrite Hl. reflexivity.
Qed.

Lemma request_unlocked l stamp v :
  locked l stamp = false -> as_outcome v <> 0 -> (is_guess v = true -> in_time (last_counted l) stamp) ->
  request p l stamp v = ((if is_guess v then failed l stamp else l), true).
Proof using Hon.
  intros Hl Hv Ht. destruct Hon as (Hd & Hp & _). unfold request, lockout_check_policy.
  rewrite Hd. rewrite Hp.
  unfold locked in Hl. rewrite Hl. cbn [is_ok].
  unfold lockout_audit, is_guess in *. rewrite Hd, Hp, Hl.
  rewrite (proj2 (Z.eqb_neq (as_outcome v) 0)) by done. cbn [orb andb negb].
  destruct ((as_outcome v =? err.PREAUTH_FAILED) || (as_outcome v =? err.BAD_INTEGRITY)); [|done].
  cbn [negb]. unfold is_empty. cbn [zero_fail_count set_last_success set_last_failure].
  rewrite orb_true_r. cbn [negb]. unfold apply, failed, ts_after, ts_incr, wrapping_add.
  cbn [zero_fail_count set_last_success set_last_failure].
  change (last_failed (set_on l p)) with (l_failed l).
  change (last_admin_unlock (set_on l p)) with unlocked_at.
  specialize (Ht eq_refl). unfold last_counted, counted, in_time in Ht.
  destruct (unlocked_at <? l_failed l); [|done]. cbn [negb orb].
  destruct (Z.eqb_spec (l_count l) 0) as [E|]; [destruct (_ && _); cbn; by rewrite ?E|].
  destruct Ht as [-> | Hle]; [done|]. rewrite (proj2 (Z.ltb_ge _ _) Hle). by rewrite andb_false_r.
Qed.

Lemma locked_spec l stamp :
  locked l stamp
  = (unlocked_at <? l_failed l) && (m <=? l_count l)
    && ((d =? 0) || (stamp <? (l_failed l + d) mod 2 ^ 32)).
Proof using Hon.
  destruct Hon as (_ & _ & Hm). unfold locked, locked_check_p, ts_after, ts_incr, wrapping_add.
  change (last_failed (set_on l p)) with (l_failed l).
  change (last_admin_unlock (set_on l p)) with unlocked_at.
  change (fail_auth_count (set_on l p)) with (l_count l).
  destruct (unlocked_at <? l_failed l); [|done]. cbn [negb andb].
  rewrite (proj2 (Z.eqb_neq m 0)) by lia. cbn [orb].
  rewrite Z.leb_antisym. destruct (l_count l <? m); [done|]. cbn [negb andb].
  by destruct (d =? 0).
Qed.

Lemma failed_counted l stamp :
  unlocked_at < stamp -> 0 <= counted l < 2 ^ 32 - 1 ->
  counted (failed l stamp) = counted l + 1 /\ l_failed (failed l stamp) = stamp /\
  l_count (failed l stamp) = counted l + 1.
Proof using Type.
  intros Hs Hc. unfold failed, counted in *. cbn [l_failed l_count].
  rewrite (proj2 (Z.ltb_lt unlocked_at stamp)) by done.
  unfold wrapping_add. rewrite Z.mod_small by lia. done.
Qed.

(** No request of the run succeeds, and each is stamped after the last
    administrative unlock. *)
Definition no_success (reqs : list (Z * result KdcError unit)) : Prop :=
  Forall (fun r => as_outcome (snd r) <> 0 /\ unlocked_at < fst r) reqs.

(** The stamps do not go back, from [s] up to [T]. *)
Fixpoint stamped (s T : Z) (reqs : list (Z * result KdcError unit)) : Prop :=
  match reqs with
  | [] => True
  | (t, _) :: reqs => s <= t <= T /\ stamped t T reqs
  end.

Lemma run_cons l t v reqs :
  run p l ((t, v) :: reqs)
  = (fst (run p (fst (request p l t v)) reqs),
     ((if snd (request p l t v) && is_guess v then 1 else 0)
      + snd (run p (fst (request p l t v)) reqs))%nat).
Proof using Type.
  cbn [run]. destruct (request p l t v) as [l' e]. cbn [fst snd]. by destruct (run p l' reqs).
Qed.

(** Each guess is in time after the one before it, the first after [last]. *)
Fixpoint prompt (last : option Z) (reqs : list (Z * result KdcError unit)) : Prop :=
  match reqs with
  | [] => True
  | (t, v) :: reqs => (is_guess v = true -> in_time last t) /\ prompt (if is_guess v then Some t else last) reqs
  end.

(** A lock without a duration stays. *)
Lemma run_locked l reqs : d = 0 -> counted l = m -> run p l reqs = (l, O).
Proof using Hon.
  intros Hd Hc. assert (0 < m) by apply Hon. induction reqs as [|[t v] reqs IH]; [done|].
  rewrite run_cons, request_locked; [cbn [fst snd andb]; by rewrite IH|].
  rewrite locked_spec, Hd. unfold counted in Hc. destruct (unlocked_at <? l_failed l); [|lia].
  by rewrite Hc, (proj2 (Z.leb_le m m)) by lia.
Qed.

(** Permanent lockout: the evaluated guesses are the first [m - counted]. *)
Lemma run_permanent l reqs :
  d = 0 -> m < 2 ^ 32 -> no_success reqs -> prompt (last_counted l) reqs -> 0 <= counted l <= m ->
  Z.of_nat (snd (run p l reqs)) = Z.min (Z.of_nat (guesses reqs)) (m - counted l) /\
  counted (fst (run p l reqs)) = counted l + Z.of_nat (snd (run p l reqs)).
Proof using Hon.
  intros Hd Hm. assert (0 < m) by apply Hon.
  revert l. induction reqs as [|[t v] reqs IH]; intros l Hns Hpr Hc.
  { cbn [run fst snd guesses List.filter length]. lia. }
  destruct (decide (counted l = m)) as [Em|Em]; [rewrite run_locked by done; cbn [fst snd]; lia|].
  apply list.Forall_cons in Hns as [[Hv Ht] Hns]. cbn [fst snd] in Hv, Ht. destruct Hpr as [Hin Hpr].
  rewrite run_cons. cbn [fst snd]. unfold guesses. cbn [List.filter]. cbn [snd].
  fold (guesses reqs).
  assert (locked l t = false) as El.
  { rewrite locked_spec. unfold counted in *. destruct (unlocked_at <? l_failed l); [|done].
    by rewrite (proj2 (Z.leb_gt m (l_count l))) by lia. }
  rewrite request_unlocked by done. cbn [fst snd andb]. destruct (is_guess v).
  - destruct (failed_counted l t Ht) as (Hf & _); [lia|].
    destruct (IH (failed l t) Hns) as [IH1 IH2]; [|lia|].
    { unfold last_counted. rewrite Hf, (proj2 (Z.eqb_neq _ 0)) by lia. done. }
    cbn [length]. unfold guesses in *. lia.
  - destruct (IH l Hns Hpr Hc) as [IH1 IH2]. unfold guesses in *. lia.
Qed.

(** Timed lockout: after [m] guesses, at most one for each duration. *)
Lemma run_timed l reqs s T :
  f = 0 -> 0 < d -> 0 <= m -> 0 <= unlocked_at -> T + d < 2 ^ 32 -> l_failed l <= T -> s <= T ->
  counted l + blen reqs < 2 ^ 32 -> 0 <= counted l ->
  no_success reqs -> stamped s T reqs ->
  Z.of_nat (snd (run p l reqs))
  <= (if m <=? counted l then (T - l_failed l) / d else m - counted l + (T - s) / d).
Proof using Hon.
  intros Hf0 Hd Hm Hu HT. assert (0 < m) as Hm0 by apply Hon. revert l s.
  induction reqs as [|[t v] reqs IH]; intros l s Hlf Hs Hb Hc Hns Hst.
  { cbn [run snd]. destruct (m <=? counted l) eqn:E; to_prop; [apply Z.div_pos; lia|].
    pose proof (Z.div_pos (T - s) d). lia. }
  apply list.Forall_cons in Hns as [[Hv Ht] Hns]. cbn [fst snd] in Hv, Ht.
  destruct Hst as [Hst1 Hst]. unfold blen in *. rewrite length_cons in Hb.
  rewrite run_cons. cbn [fst snd].
  assert (stamped s T reqs) as Hst'.
  { destruct reqs as [|[t' v'] reqs]; [done|]. destruct Hst. split; [lia|done]. }
  destruct (locked l t) eqn:El.
  { rewrite request_locked by done. cbn [fst snd andb]. apply IH; (done || lia). }
  rewrite request_unlocked by (done || by intros _; unfold in_time; destruct (last_counted l); [left|]). cbn [fst snd andb].
  destruct (is_guess v); [|apply IH; (done || lia)].
  destruct (failed_counted l t Ht) as (Hf & Hf' & _); [lia|].
  specialize (IH (failed l t) t). rewrite Hf, Hf' in IH.
  specialize (IH ltac:(lia) ltac:(lia) ltac:(lia) ltac:(lia) Hns Hst).
  rewrite locked_spec, (proj2 (Z.eqb_neq d 0)) in El by lia. cbn [orb] in El.
  destruct (m <=? counted l) eqn:Em.
  - to_prop. rewrite (proj2 (Z.leb_le m _)) in IH by lia.
    assert (unlocked_at < l_failed l /\ m <= l_count l) as [Hfu Hmc].
    { unfold counted in Em. destruct (unlocked_at <? l_failed l) eqn:E; to_prop; lia. }
    rewrite (proj2 (Z.ltb_lt _ _) Hfu), (proj2 (Z.leb_le _ _) Hmc) in El. cbn [andb] in El.
    rewrite Z.mod_small in El by lia. to_prop.
    assert ((T - t) / d + 1 <= (T - l_failed l) / d); [|lia].
    rewrite <- Z.div_add by lia. apply Z.div_le_mono; lia.
  - to_prop. pose proof (Z.div_le_mono (T - t) (T - s) d ltac:(lia) ltac:(lia)).
    destruct (m <=? counted l + 1) eqn:E1; to_prop; lia.
Qed.

End Guessing.

(** ** Online guessing is bounded *)

(** C30: under a policy of [m] failures with no lockout duration, however many
    requests are made, exactly the first [m - k] guesses after [k] counted failures
    are evaluated, as long as no request succeeds and no administrator unlocks the
    account; once [m] failures are reached, every later request is refused as
    LOCKED_OUT.  The policy may have a failure-count interval of [f] seconds: then
    each guess comes within that interval of the one before it, the first within it
    of the last failure counted (a later one starts the count again); without an
    interval the requests may be stamped in any order, after the last unlock. *)
Theorem lockout_limits_guesses `{PrincipalRead} (p : Principal) (m f : Z) (l : Lockout)
    (reqs : list (Z * result KdcError unit)) :
  lockout_on p m f 0 -> m < 2 ^ 32 -> no_success p reqs -> prompt f (last_counted p l) reqs -> 0 <= counted p l <= m ->
  Z.of_nat (snd (run p l reqs)) = Z.min (Z.of_nat (guesses reqs)) (m - counted p l) /\
  (m - counted p l <= Z.of_nat (guesses reqs) ->
   forall stamp, lockout_check_policy (set_on (fst (run p l reqs)) p) stamp
                 = Err (proto err.CLIENT_REVOKED "LOCKED_OUT")).
Proof.
  intros Hon Hm Hns Hpr Hc. destruct (run_permanent p m f 0 Hon l reqs eq_refl Hm Hns Hpr Hc) as [H1 H2].
  split; [done|]. intros Hg stamp. set (l' := fst (run p l reqs)) in *.
  assert (counted p l' = m) as Hcm by lia.
  assert (locked p m 0 l' stamp = true) as Hl.
  { rewrite (locked_spec p m f 0 Hon). destruct Hon as (_ & _ & Hm0). unfold counted in Hcm.
    destruct (unlocked_at p <? l_failed l'); [|lia].
    by rewrite Hcm, (proj2 (Z.leb_le m m)) by lia. }
  destruct Hon as (Hd & Hp & _). unfold lockout_check_policy. rewrite Hd.
  rewrite Hp. unfold locked in Hl.
  cbn [max_fail pw_lockout_duration]. by rewrite Hl.
Qed.

(** Under a policy of [m] failures, no failure-count interval and a lockout of [d] seconds, the guesses
    evaluated between the stamps [s] and [T] number at most [m] and one more for
    each whole [d] seconds, whatever the requests are, as long as none succeeds,
    the clock does not go back, and no administrator unlocks the account.  The
    stamps stay [d] seconds clear of the 32-bit wrap. *)
Theorem lockout_rate `{PrincipalRead} (p : Principal) (m d s T : Z) (l : Lockout)
    (reqs : list (Z * result KdcError unit)) :
  lockout_on p m 0 d -> 0 < d -> 0 <= unlocked_at p -> counted p l = 0 -> l_failed l <= s ->
  s <= T -> T + d < 2 ^ 32 -> blen reqs < 2 ^ 32 ->
  no_success p reqs -> stamped s T reqs ->
  Z.of_nat (snd (run p l reqs)) <= m + (T - s) / d.
Proof.
  intros Hon Hd Hu Hc Hf Hs HT Hb Hns Hst. assert (0 < m) by apply Hon.
  pose proof (run_timed p m 0 d Hon l reqs s T eq_refl Hd ltac:(lia) Hu HT ltac:(lia) Hs
                ltac:(lia) ltac:(lia) Hns Hst) as Hr.
  rewrite Hc, (proj2 (Z.leb_gt m 0)) in Hr by lia. lia.
Qed.

Definition sample_principal : Principal :=
  mkPrincipal (PrincipalName.mkName 1 [[x75]]) [x52] [] [] [] 0 0 KDB_REQUIRES_PRE_AUTH 0 0 0 0
    0 1 38 [mkTl TL_LAST_ADMIN_UNLOCK [x64; x00; x00; x00]] [] 0 [] [] None default_kadm [].

Definition sample_read (d : Z) : PrincipalRead := {|
  store_realm := [x52];
  policy := mkPolicy 0 0 300 false false false None false false false;
  named_policy_for := fun _ => Some (mkNamedPolicy [] 0 0 0 2 0 d 0 0 None);
|}.

Definition sample_requests : list (Z * result KdcError unit) :=
  [(1000, Err (proto err.PREAUTH_FAILED "PREAUTH_FAILED"));
   (1000, Err (PreauthRequired []));
   (1001, Err (proto err.PREAUTH_FAILED "PREAUTH_FAILED"));
   (1020, Err (proto err.PREAUTH_FAILED "PREAUTH_FAILED"));
   (1031, Err (proto err.BAD_INTEGRITY "PREAUTH_FAILED"))].

(** The same policy with an interval of a minute. *)
Definition interval_read : PrincipalRead := {|
  store_realm := [x52];
  policy := mkPolicy 0 0 300 false false false None false false false;
  named_policy_for := fun _ => Some (mkNamedPolicy [] 0 0 0 2 60 0 0 0 None);
|}.

Lemma lockout_limits_guesses_witness :
  Z.of_nat (snd (@run interval_read sample_principal (mkLockout 0 0 0) sample_requests)) = 2.
Proof.
  rewrite (proj1 (@lockout_limits_guesses interval_read sample_principal 2 60 (mkLockout 0 0 0)
    sample_requests ltac:(done) ltac:(lia) ltac:(repeat constructor; done)
    ltac:(repeat split; intros; right; vm_compute; discriminate) ltac:(vm_compute; done))).
  vm_compute. reflexivity.
Defined.

Lemma lockout_rate_witness :
  Z.of_nat (snd (@run (sample_read 30) sample_principal (mkLockout 0 0 0) sample_requests))
  <= 2 + (1031 - 1000) / 30.
Proof.
  apply (@lockout_rate (sample_read 30) sample_principal 2 30 1000 1031 (mkLockout 0 0 0)
    sample_requests); try done; try (repeat constructor; done); vm_compute; done.
Defined.

(** The bound is reached: the third guess is evaluated when the lock ends. *)
Example lockout_rate_tight :
  snd (@run (sample_read 30) sample_principal (mkLockout 0 0 0) sample_requests) = 3%nat.
Proof. vm_compute. reflexivity. Qed.

End Lockout.
