(* ===== verification/LockoutFile.v ===== *)
(** * The lockout side file

    Models the records of [krb5-kdc/src/lockout/file.rs]: the line format with
    its CRC-32, the index of a file read whole, and the operations of
    [SideFile] on an open file, which update it in place.  The file is its
    bytes; positioned writes are [write_at].  Opening, locking and replacing
    the file on disk are the operating system's. *)

From S2P Require Import Prelude Decimal Utf8 Lockout.

Module LockoutFile.
Import Lockout.

Definition HEADER : bytes := String.list_byte_of_string "kerber-rust lockout 1" ++ [x0a].
Definition FIELD : nat := 10.
Definition VALUES : nat := 3 * FIELD + 2.
Definition SUM : nat := 8.
Definition HEAD : nat := VALUES + 1 + SUM.
Definition DELETED : byte := x23.

(** ** CRC-32 *)

Definition crc_bit (c : Z) : Z :=
  if Z.land c 1 =? 1 then Z.lxor 0xEDB88320 (Z.shiftr c 1) else Z.shiftr c 1.

Definition crc_table : list Z := map (fun n => Nat.iter 8 crc_bit (Z.of_nat n)) (seq 0 256).

Definition CRC_TABLE : list Z := Eval vm_compute in crc_table.

(** [CRC_TABLE[c.to_le_bytes()[0] ^ b] ^ (c >> 8)]. *)
Definition crc_step (c : Z) (b : byte) : Z :=
  Z.lxor (nth (Z.to_nat (Z.lxor (Z.land c 0xff) (u8z b))) CRC_TABLE 0) (Z.shiftr c 8).

Definition crc32 (b : bytes) : Z := Z.lxor (fold_left crc_step b U32_MAX) U32_MAX.

Definition checksum (values name : bytes) : Z := crc32 (values ++ [x20] ++ name).

(** ** Lines *)

(** One lowercase hexadecimal digit, and [{:0w x}]. *)
Definition hex_digit (d : Z) : byte := if d <? 10 then z8 (0x30 + d) else z8 (0x61 + (d - 10)).

Fixpoint hex_fixed (w : nat) (n : Z) : bytes :=
  match w with
  | O => []
  | S w => hex_fixed w (n / 16) ++ [hex_digit (n mod 16)]
  end.

Definition is_hex (b : byte) : bool :=
  Decimal.is_ascii_digit b || ((0x61 <=? u8z b) && (u8z b <=? 0x66)).

Definition hex_val (b : byte) : Z :=
  if Decimal.is_ascii_digit b then u8z b - 0x30 else u8z b - 0x61 + 10.

(** [u32::from_str_radix(_, 16)] of digits already checked. *)
Definition from_hex (s : bytes) : option Z :=
  let v := fold_left (fun acc b => acc * 16 + hex_val b) s 0 in
  if v <=? U32_MAX then Some v else None.

(** [for (o, b) in out.iter_mut().zip(text)]: the bytes of [text] over [out]. *)
Definition overlay (out text : bytes) : bytes := take (length out) text ++ drop (length text) out.

Definition values_text (l : Lockout) : bytes :=
  Decimal.dec_fixed FIELD (l_success l) ++ [x20] ++ Decimal.dec_fixed FIELD (l_failed l)
  ++ [x20] ++ Decimal.dec_fixed FIELD (l_count l).

Definition head (id : bytes) (l : Lockout) : bytes :=
  let values := values_text l in
  let text := values ++ [x20] ++ hex_fixed SUM (checksum values id) in
  overlay (replicate HEAD x30) text.

Definition record_line (id : bytes) (l : Lockout) : bytes := head id l ++ [x20] ++ id ++ [x0a].

Definition render (records : list (bytes * Lockout)) : bytes :=
  HEADER ++ concat (map (fun r => record_line (fst r) (snd r)) records).

(** [line.get(i..j)]. *)
Definition get_range (line : bytes) (i j : nat) : option bytes :=
  if (length line <? j)%nat then None else Some (slice line i j).

Definition field (line : bytes) (i : nat) : option Z :=
  let start := (i * (FIELD + 1))%nat in
  digits ← get_range line start (start + FIELD);
  if negb (forallb Decimal.is_ascii_digit digits) then None
  else let v := Decimal.dec_value digits in if v <=? U32_MAX then Some v else None.

Definition parse_line (line : bytes) : option (Lockout * bytes) :=
  if negb (forallb (fun at' => bool_decide (line !! at' = Some x20))
             [FIELD; (2 * FIELD + 1)%nat; VALUES; HEAD]) then None
  else
    sum ← get_range line (VALUES + 1) HEAD;
    if negb (forallb is_hex sum) then None
    else
      let name := drop (HEAD + 1) line in
      if bool_decide (name = []) then None
      else
        want ← from_hex sum;
        if negb (checksum (take VALUES line) name =? want) then None
        else
          s ← field line 0;
          f ← field line 1;
          c ← field line 2;
          match Utf8.from_utf8 name with
          | Some _ => Some (mkLockout s f c, name)
          | None => None
          end.

(** ** The index *)

Record Index := mkIndex {
  records : gmap bytes (nat * Lockout);
  dead : nat;
  len : nat;
  whole : bool;
  foreign : bool;
}.

(** [split_inclusive(|b| b == '\n')]. *)
Fixpoint split_inclusive (s : bytes) : list bytes :=
  match s with
  | [] => []
  | b :: s =>
      if bool_decide (b = x0a) then [b] :: split_inclusive s
      else match split_inclusive s with
           | [] => [[b]]
           | l :: ls => (b :: l) :: ls
           end
  end.

(** [line.strip_suffix(b"\n")]. *)
Definition strip_newline (line : bytes) : option bytes :=
  match list.last line with Some x0a => Some (removelast line) | _ => None end.

Definition index_line (st : gmap bytes (nat * Lockout) * nat) (at' : nat) (line : bytes)
    : gmap bytes (nat * Lockout) * nat :=
  let '(m, d) := st in
  match strip_newline line ≫= parse_line with
  | Some (l, name) =>
      (<[name := (at', l)]> m, match m !! name with Some _ => S d | None => d end)
  | None => (m, S d)
  end.

Fixpoint index_lines (st : gmap bytes (nat * Lockout) * nat) (off : nat) (lines : list bytes)
    : gmap bytes (nat * Lockout) * nat :=
  match lines with
  | [] => st
  | line :: lines => index_lines (index_line st off line) (off + length line) lines
  end.

Definition index_body (ix : Index) (body : bytes) (start : nat) : Index :=
  let '(m, d) := index_lines (records ix, dead ix) start (split_inclusive body) in
  mkIndex m d (len ix) (whole ix) (foreign ix).

(** [bytes.strip_prefix(HEADER)]. *)
Definition strip_header (b : bytes) : option bytes :=
  if bool_decide (take (length HEADER) b = HEADER) then Some (drop (length HEADER) b) else None.

Definition ends_line (b : bytes) : bool :=
  match list.last b with None => true | Some c => bool_decide (c = x0a) end.

Definition index (b : bytes) : Index :=
  match b with
  | [] => mkIndex ∅ 0 0 true false
  | _ =>
      match strip_header b with
      | None => mkIndex ∅ 0 (length b) (ends_line b) true
      | Some body => index_body (mkIndex ∅ 0 (length b) (ends_line b) false) body (length HEADER)
      end
  end.

(** ** The open file *)

Record SideFile := mkSide { file : bytes; ix : Index }.

Definition reindex (s : SideFile) : SideFile := mkSide (file s) (index (file s)).

Definition record_at (s : SideFile) (at' : nat) (id : bytes) : option Lockout :=
  let buf := take (HEAD + length id + 2) (drop at' (file s)) in
  match strip_newline buf ≫= parse_line with
  | Some (l, name) => if bool_decide (name = id) then Some l else None
  | None => None
  end.

Definition locate (s : SideFile) (id : bytes) : SideFile * option (nat * Lockout) :=
  match records (ix s) !! id with
  | None => (s, None)
  | Some (at', _) =>
      match record_at s at' id with
      | Some l => (s, Some (at', l))
      | None =>
          let s := reindex s in
          (s, match records (ix s) !! id with
              | Some (at', _) => (fun l => (at', l)) <$> record_at s at' id
              | None => None
              end)
      end
  end.

Definition set_records (i : Index) (m : gmap bytes (nat * Lockout)) : Index :=
  mkIndex m (dead i) (len i) (whole i) (foreign i).

Definition get (s : SideFile) (id : bytes) : SideFile * option Lockout :=
  let '(s, r) := locate s id in (s, snd <$> r).

Definition put (s : SideFile) (id : bytes) (l : Lockout) : SideFile :=
  let '(s, r) := locate s id in
  match r with
  | Some (at', have) =>
      let f := if bool_decide (have = l) then file s else write_at (file s) at' (head id l) in
      mkSide f (set_records (ix s) (<[id := (at', l)]> (records (ix s))))
  | None =>
      let '(f, at', d) :=
        if (len (ix s) =? 0)%nat then (write_at (file s) 0 HEADER, length HEADER, dead (ix s))
        else if negb (whole (ix s))
        then (write_at (file s) (len (ix s)) [x0a], S (len (ix s)), S (dead (ix s)))
        else (file s, len (ix s), dead (ix s)) in
      let line := record_line id l in
      mkSide (write_at f at' line)
        (mkIndex (<[id := (at', l)]> (records (ix s))) d (at' + length line) true (foreign (ix s)))
  end.

Definition delete (s : SideFile) (id : bytes) : SideFile :=
  let '(s, r) := locate s id in
  match r with
  | Some (at', _) =>
      mkSide (write_at (file s) at' [DELETED])
        (mkIndex (base.delete id (records (ix s))) (S (dead (ix s))) (len (ix s)) (whole (ix s))
           (foreign (ix s)))
  | None => s
  end.

(** [rewrite]: the new file is written, then opened. *)
Definition rewrite (recs : list (bytes * Lockout)) : SideFile :=
  mkSide (render recs) (index (render recs)).

(** [record] of an audited request: the update applied to the stored record, or
    to the entry's. *)
Definition record (s : SideFile) (id : bytes) (entry : Lockout) (stamp : Z) (u : LockoutUpdate)
    : SideFile :=
  let '(s, r) := get s id in put s id (apply u (default entry r) stamp).

(** ** The line format *)

Definition is_u32_lockout (l : Lockout) : Prop :=
  is_u32 (l_success l) /\ is_u32 (l_failed l) /\ is_u32 (l_count l).

(** A name the file can hold: not empty, UTF-8, on one line. *)
Definition good_id (id : bytes) : Prop :=
  id <> [] /\ Utf8.from_utf8 id <> None /\ x0a ∉ id.

Lemma crc_table_u32 : Forall is_u32 CRC_TABLE.
Proof.
  apply list.Forall_forall. intros x Hx. apply (bool_decide_unpack (is_u32 x)).
  revert x Hx. apply list.Forall_forall. apply (bool_decide_unpack _). vm_compute. done.
Qed.

Lemma lxor_bound a b n : 0 <= n -> 0 <= a < 2 ^ n -> 0 <= b < 2 ^ n -> 0 <= Z.lxor a b < 2 ^ n.
Proof.
  intros Hn Ha Hb. split; [apply Z.lxor_nonneg; lia|].
  rewrite <- (Z.mod_small a (2 ^ n)), <- (Z.mod_small b (2 ^ n)) by done.
  rewrite <- !Z.land_ones, Z.land_comm, (Z.land_comm b) by done.
  assert (Z.lxor (Z.land (Z.ones n) a) (Z.land (Z.ones n) b)
          = Z.land (Z.ones n) (Z.lxor a b)) as ->.
  { apply Z.bits_inj'. intros k Hk. rewrite Z.lxor_spec, !Z.land_spec, Z.lxor_spec.
    by destruct (Z.testbit (Z.ones n) k), (Z.testbit a k), (Z.testbit b k). }
  rewrite Z.land_comm, Z.land_ones by done. apply Z.mod_pos_bound. lia.
Qed.

Lemma crc_step_u32 c b : is_u32 c -> is_u32 (crc_step c b).
Proof.
  unfold is_u32. intros Hc. unfold crc_step. apply lxor_bound; [lia| |].
  - assert (is_u32 (nth (Z.to_nat (Z.lxor (Z.land c 0xff) (u8z b))) CRC_TABLE 0)); [|done].
    pose proof (byte.unsigned_range b). rewrite land_255.
    pose proof (Z.mod_pos_bound c 256 ltac:(lia)).
    pose proof (lxor_bound (c mod 256) (u8z b) 8 ltac:(lia) ltac:(lia) ltac:(lia)).
    apply (proj1 (List.Forall_forall _ _) crc_table_u32). apply nth_In.
    change (length CRC_TABLE) with 256%nat. lia.
  - rewrite shiftr_8. split; [apply Z.div_pos; lia|]. apply Z.div_lt_upper_bound; lia.
Qed.

Lemma crc32_u32 b : is_u32 (crc32 b).
Proof.
  unfold crc32. assert (forall c, is_u32 c -> is_u32 (fold_left crc_step b c)) as H.
  { induction b as [|x b IH]; intros c Hc; [done|]. apply IH. by apply crc_step_u32. }
  specialize (H U32_MAX ltac:(done)). unfold is_u32 in *. apply lxor_bound; [lia|done|].
  unfold U32_MAX. lia.
Qed.

Lemma hex_digit_val d : 0 <= d < 16 -> is_hex (hex_digit d) = true /\ hex_val (hex_digit d) = d.
Proof.
  intros Hd. assert (Forall (fun d => is_hex (hex_digit d) = true /\ hex_val (hex_digit d) = d)
    (map Z.of_nat (seq 0 16))) as H by (repeat constructor; vm_compute; done).
  rewrite list.Forall_forall in H. apply H. apply list_elem_of_In, in_map_iff.
  exists (Z.to_nat d). split; [lia|]. apply in_seq. lia.
Qed.

Lemma length_hex_fixed w n : length (hex_fixed w n) = w.
Proof.
  revert n. induction w as [|w IH]; intros n; cbn [hex_fixed]; [done|].
  rewrite length_app, IH. cbn. lia.
Qed.

Lemma hex_fixed_spec w n :
  0 <= n -> forallb is_hex (hex_fixed w n) = true /\
  fold_left (fun acc b => acc * 16 + hex_val b) (hex_fixed w n) 0 = n mod 16 ^ Z.of_nat w.
Proof.
  revert n. induction w as [|w IH]; intros n Hn; cbn [hex_fixed].
  { split; [done|]. change (16 ^ Z.of_nat 0) with 1. by rewrite Z.mod_1_r. }
  destruct (IH (n / 16)) as [IH1 IH2]; [apply Z.div_pos; lia|].
  destruct (hex_digit_val (n mod 16)) as [Hh Hv]; [apply Z.mod_pos_bound; lia|].
  rewrite forallb_app, fold_left_app, IH1, IH2. cbn [forallb fold_left]. rewrite Hh, Hv.
  split; [done|]. rewrite Nat2Z.inj_succ, Z.pow_succ_r by lia.
  rewrite (Z.rem_mul_r n 16) by lia. lia.
Qed.

Lemma from_hex_fixed n : is_u32 n -> from_hex (hex_fixed SUM n) = Some n.
Proof.
  unfold is_u32. intros Hn. unfold from_hex. rewrite (proj2 (hex_fixed_spec SUM n ltac:(lia))).
  change (16 ^ Z.of_nat SUM) with (2 ^ 32). rewrite Z.mod_small by done.
  unfold U32_MAX. by rewrite (proj2 (Z.leb_le n _)) by lia.
Qed.

Lemma length_values l : length (values_text l) = VALUES.
Proof. unfold values_text. by rewrite !length_app, !Decimal.length_dec_fixed. Qed.

Lemma head_text id l :
  head id l = values_text l ++ [x20] ++ hex_fixed SUM (checksum (values_text l) id).
Proof.
  unfold head, overlay. set (t := values_text l ++ _).
  assert (length t = HEAD) as Ht.
  { unfold t. by rewrite !length_app, length_values, length_hex_fixed. }
  rewrite length_replicate, <- Ht, take_ge by lia.
  rewrite drop_ge by (rewrite length_replicate; lia). apply app_nil_r.
Qed.

Lemma length_head id l : length (head id l) = HEAD.
Proof. rewrite head_text, !length_app, length_values, length_hex_fixed. done. Qed.

Lemma field_at line a c v i :
  line = a ++ Decimal.dec_fixed FIELD v ++ c -> length a = (i * (FIELD + 1))%nat -> is_u32 v ->
  field line i = Some v.
Proof.
  unfold is_u32. intros -> Ha Hv. unfold field, get_range.
  rewrite !length_app, Decimal.length_dec_fixed, <- Ha.
  rewrite (proj2 (Nat.ltb_ge _ _)) by lia.
  rewrite slice_mid by (rewrite ?length_app, ?Decimal.length_dec_fixed; done).
  cbn [mbind option_bind]. rewrite Decimal.dec_fixed_digits. cbn [negb].
  rewrite Decimal.dec_value_fixed by (change (10 ^ Z.of_nat FIELD) with 10000000000; lia).
  unfold U32_MAX. by rewrite (proj2 (Z.leb_le v _)) by lia.
Qed.

(** The parts of a written line. *)
Lemma record_parts id l :
  head id l ++ [x20] ++ id
  = Decimal.dec_fixed FIELD (l_success l) ++ [x20] ++ Decimal.dec_fixed FIELD (l_failed l)
    ++ [x20] ++ Decimal.dec_fixed FIELD (l_count l) ++ [x20]
    ++ hex_fixed SUM (checksum (values_text l) id) ++ [x20] ++ id.
Proof. rewrite head_text. unfold values_text. by rewrite <- !app_assoc. Qed.

Lemma record_spaces id l :
  forallb (fun at' => bool_decide ((head id l ++ [x20] ++ id) !! at' = Some x20))
    [FIELD; (2 * FIELD + 1)%nat; VALUES; HEAD] = true.
Proof.
  pose proof (record_parts id l) as El. set (line := head id l ++ [x20] ++ id) in *.
  assert (forall a c i, line = a ++ x20 :: c -> length a = i -> line !! i = Some x20) as Hat
    by (intros a c i -> <-; by rewrite lookup_app_r, Nat.sub_diag).
  set (d := Decimal.dec_fixed FIELD) in *.
  assert (forall v, length (d v) = 10%nat) as Hd by (intros; apply Decimal.length_dec_fixed).
  cbn [forallb]. rewrite !bool_decide_eq_true_2; [done|..].
  - eapply (Hat (head id l)); [done|apply length_head].
  - eapply (Hat (d (l_success l) ++ [x20] ++ d (l_failed l) ++ [x20] ++ d (l_count l)));
      [rewrite El, <- !app_assoc; done|by rewrite !length_app, !Hd].
  - eapply (Hat (d (l_success l) ++ [x20] ++ d (l_failed l)));
      [rewrite El, <- !app_assoc; done|by rewrite !length_app, !Hd].
  - eapply (Hat (d (l_success l))); [exact El|apply Hd].
Qed.

Lemma record_sum id l :
  get_range (head id l ++ [x20] ++ id) (VALUES + 1) HEAD
  = Some (hex_fixed SUM (checksum (values_text l) id)).
Proof.
  unfold get_range. rewrite head_text, !length_app, length_values, length_hex_fixed.
  rewrite (proj2 (Nat.ltb_ge _ _)) by (unfold HEAD, SUM; cbn; lia).
  rewrite <- !app_assoc, (app_assoc (values_text l)).
  by rewrite slice_mid by (by rewrite !length_app, length_values, ?length_hex_fixed).
Qed.

Lemma record_fields id l :
  is_u32_lockout l ->
  let line := head id l ++ [x20] ++ id in
  field line 0 = Some (l_success l) /\ field line 1 = Some (l_failed l) /\
  field line 2 = Some (l_count l).
Proof.
  intros (Hs & Hf & Hc) line. pose proof (record_parts id l) as El. fold line in El.
  assert (forall v, length (Decimal.dec_fixed FIELD v) = 10%nat) as Hd
    by (intros; apply Decimal.length_dec_fixed).
  split_and!.
  - by apply (field_at line [] _ (l_success l) 0 El).
  - eapply (field_at line (Decimal.dec_fixed FIELD (l_success l) ++ [x20]));
      [rewrite El, <- app_assoc; reflexivity|by rewrite length_app, Hd|done].
  - eapply (field_at line (Decimal.dec_fixed FIELD (l_success l) ++ [x20] ++
      Decimal.dec_fixed FIELD (l_failed l) ++ [x20]));
      [rewrite El, <- !app_assoc; reflexivity|by rewrite !length_app, !Hd|done].
Qed.

(** A line written reads back. *)
Lemma parse_record id l :
  is_u32_lockout l -> good_id id -> parse_line (head id l ++ [x20] ++ id) = Some (l, id).
Proof.
  intros Hl (Hne & Hutf & _). unfold parse_line.
  rewrite record_spaces, record_sum. cbn [negb mbind option_bind].
  assert (is_u32 (checksum (values_text l) id)) as Hck by apply crc32_u32.
  rewrite (proj1 (hex_fixed_spec SUM _ (proj1 Hck))). cbn [negb].
  assert (drop (HEAD + 1) (head id l ++ [x20] ++ id) = id) as ->.
  { rewrite app_assoc. apply drop_app_length'. by rewrite length_app, length_head. }
  rewrite bool_decide_eq_false_2 by done.
  rewrite from_hex_fixed by done. cbn [mbind option_bind].
  assert (take VALUES (head id l ++ [x20] ++ id) = values_text l) as ->.
  { rewrite head_text, <- !app_assoc. apply take_app_length'. symmetry. apply length_values. }
  rewrite Z.eqb_refl. cbn [negb].
  destruct (record_fields id l Hl) as (-> & -> & ->). cbn [mbind option_bind].
  destruct (Utf8.from_utf8 id); [|done]. by destruct l.
Qed.

Lemma parse_shape x l id :
  parse_line x = Some (l, id) -> x = take HEAD x ++ [x20] ++ id /\ length x = (HEAD + 1 + length id)%nat.
Proof.
  unfold parse_line. destruct (forallb _ [_; _; _; _]) eqn:Ha; [|done]. cbn [negb].
  intros H. assert (drop (HEAD + 1) x = id) as Hid by (unfold mbind, option_bind in H; case_matches).
  clear H. cbn [forallb] in Ha. to_prop. assert (x !! HEAD = Some x20) as Hx by done.
  pose proof (lookup_lt_Some _ _ _ Hx). rewrite <- Hid.
  split; [|rewrite length_drop; lia].
  rewrite <- (take_drop_middle x HEAD x20 Hx) at 1. by replace (HEAD + 1)%nat with (S HEAD) by lia.
Qed.

(** ** A file of lines *)

Definition nl (line : bytes) : bytes := line ++ [x0a].
Definition body (lines : list bytes) : bytes := concat (map nl lines).
Definition one_line (line : bytes) : Prop := x0a ∉ line.

(** The names of the records among the lines. *)
Definition ids (lines : list bytes) : list bytes := omap (fun x => snd <$> parse_line x) lines.

Lemma split_line l rest :
  one_line l -> split_inclusive (l ++ x0a :: rest) = (l ++ [x0a]) :: split_inclusive rest.
Proof.
  unfold one_line. induction l as [|b l IH]; intros H; [done|].
  apply not_elem_of_cons in H as [Hb Hl]. cbn [app split_inclusive].
  rewrite bool_decide_eq_false_2 by done. by rewrite IH.
Qed.

Lemma split_body lines : Forall one_line lines -> split_inclusive (body lines) = map nl lines.
Proof.
  induction 1 as [|l lines Hl _ IH]; [done|].
  unfold body in *. cbn [map concat]. unfold nl at 1. rewrite <- app_assoc. cbn [app].
  rewrite split_line by done. by rewrite IH.
Qed.

Lemma strip_newline_nl l : strip_newline (nl l) = Some l.
Proof. unfold strip_newline, nl. by rewrite last_snoc, removelast_last. Qed.

Lemma index_line_nl st at' x :
  index_line st at' (nl x) =
  match parse_line x with
  | Some (l, name) =>
      (<[name := (at', l)]> (fst st), match fst st !! name with Some _ => S (snd st) | None => snd st end)
  | None => (fst st, S (snd st))
  end.
Proof. destruct st. unfold index_line. by rewrite strip_newline_nl. Qed.

Lemma index_lines_app st off a b :
  index_lines st off (a ++ b) = index_lines (index_lines st off a) (off + length (concat a)) b.
Proof.
  revert st off. induction a as [|x a IH]; intros st off; cbn [app index_lines concat].
  - by rewrite Nat.add_0_r.
  - rewrite IH. rewrite length_app. by rewrite Nat.add_assoc.
Qed.

(** A record of another name does not meet the lines that follow it. *)
Lemma index_lines_insert lines id v m d off :
  id ∉ ids lines ->
  index_lines (<[id := v]> m, d) off (map nl lines)
  = (<[id := v]> (fst (index_lines (m, d) off (map nl lines))),
     snd (index_lines (m, d) off (map nl lines))).
Proof.
  revert m d off. induction lines as [|x lines IH]; intros m d off Hid; [done|].
  cbn [map index_lines]. rewrite !index_line_nl. cbn [fst snd].
  unfold ids in Hid. cbn [omap list_omap] in Hid.
  destruct (parse_line x) as [[l name]|]; cbn [fmap option_fmap option_map snd] in Hid.
  - apply not_elem_of_cons in Hid as [Hne Hid].
    rewrite insert_insert_ne by done. rewrite lookup_insert_ne by done. by rewrite IH.
  - by rewrite IH.
Qed.

Lemma index_lines_dead lines m d off :
  index_lines (m, S d) off (map nl lines)
  = (fst (index_lines (m, d) off (map nl lines)), S (snd (index_lines (m, d) off (map nl lines)))).
Proof.
  revert m d off. induction lines as [|x lines IH]; intros m d off; [done|].
  cbn [map index_lines]. rewrite !index_line_nl. cbn [fst snd].
  destruct (parse_line x) as [[l name]|]; [|by rewrite IH].
  destruct (m !! name); by rewrite IH.
Qed.

Lemma index_lines_lookup lines id m d off :
  id ∉ ids lines -> fst (index_lines (m, d) off (map nl lines)) !! id = m !! id.
Proof.
  revert m d off. induction lines as [|x lines IH]; intros m d off Hid; [done|].
  cbn [map index_lines]. rewrite index_line_nl. cbn [fst snd].
  unfold ids in Hid. cbn [omap list_omap] in Hid.
  destruct (parse_line x) as [[l name]|]; cbn [fmap option_fmap option_map snd] in Hid.
  - apply not_elem_of_cons in Hid as [Hne Hid]. rewrite IH by done. by apply lookup_insert_ne.
  - by rewrite IH.
Qed.

(** Every entry of the index is a record of the file, at its offset. *)
Lemma index_lines_found lines id m d off at' l :
  fst (index_lines (m, d) off (map nl lines)) !! id = Some (at', l) ->
  m !! id = Some (at', l) \/
  exists pre x post, lines = pre ++ x :: post /\ parse_line x = Some (l, id) /\
    at' = (off + length (body pre))%nat.
Proof.
  revert m d off. induction lines as [|x lines IH]; intros m d off H; [by left|].
  cbn [map index_lines] in H. rewrite index_line_nl in H. cbn [fst snd] in H.
  assert (forall m d, fst (index_lines (m, d) (off + length (nl x)) (map nl lines)) !! id
    = Some (at', l) -> m !! id = Some (at', l) \/ exists pre x0 post, x :: lines = pre ++ x0 :: post /\
      parse_line x0 = Some (l, id) /\ at' = (off + length (body pre))%nat) as Hrest.
  { intros m0 d0 H0. destruct (IH m0 d0 _ H0) as [?|(pre & y & post & -> & Hy & ->)]; [by left|].
    right. exists (x :: pre), y, post. split; [done|]. split; [done|].
    unfold body. cbn [map concat]. rewrite length_app. lia. }
  destruct (parse_line x) as [[l0 name]|] eqn:Ex; [|by eapply Hrest].
  apply Hrest in H as [H|H]; [|by right].
  destruct (decide (name = id)) as [->|Hne].
  - rewrite lookup_insert_eq in H. simplify_eq. right. exists [], x, lines. split; [done|].
    split; [done|]. cbn. lia.
  - left. by rewrite lookup_insert_ne in H.
Qed.

Definition layout (lines : list bytes) : bytes := HEADER ++ body lines.

Definition scan (lines : list bytes) : gmap bytes (nat * Lockout) * nat :=
  index_lines (∅, O) (length HEADER) (map nl lines).

Lemma body_app a b : body (a ++ b) = body a ++ body b.
Proof. unfold body. by rewrite map_app, concat_app. Qed.

Lemma ids_app a b : ids (a ++ b) = ids a ++ ids b.
Proof. apply omap_app. Qed.

Lemma layout_mid pre x post : layout (pre ++ x :: post) = (HEADER ++ body pre) ++ nl x ++ body post.
Proof. unfold layout. by rewrite body_app, <- app_assoc. Qed.

Lemma last_layout lines : list.last (layout lines) = Some x0a.
Proof.
  destruct (decide (lines = [])) as [->|Hne]; [done|].
  destruct (exists_last Hne) as (ls & x & ->).
  rewrite layout_mid. unfold nl, body. cbn [map concat]. by rewrite app_nil_r, app_assoc, last_snoc.
Qed.

(** A file of whole lines, indexed. *)
Lemma index_layout lines :
  Forall one_line lines ->
  index (layout lines) = mkIndex (fst (scan lines)) (snd (scan lines)) (length (layout lines)) true false.
Proof.
  intros H1. unfold index. assert (ends_line (layout lines) = true) as He
    by (unfold ends_line; by rewrite last_layout).
  assert (strip_header (layout lines) = Some (body lines)) as Hs.
  { unfold strip_header, layout. rewrite take_app_length, drop_app_length.
    by rewrite bool_decide_eq_true_2. }
  destruct (layout lines) as [|b t] eqn:El; [by unfold layout in El; destruct (body lines)|].
  rewrite <- El in *. rewrite Hs, He. unfold index_body. cbn [records dead len whole foreign].
  rewrite split_body by done. fold (scan lines). by destruct (scan lines).
Qed.

Lemma scan_mid pre x post :
  scan (pre ++ x :: post)
  = index_lines (index_line (scan pre) (length HEADER + length (body pre)) (nl x))
      (length HEADER + length (body pre) + length (nl x)) (map nl post).
Proof.
  unfold scan. rewrite map_app, index_lines_app. cbn [map index_lines]. reflexivity.
Qed.

(** The scan of a file with the record of [id] at one line. *)
Lemma scan_record pre x post l id :
  parse_line x = Some (l, id) -> id ∉ ids pre -> id ∉ ids post ->
  let at' := (length HEADER + length (body pre))%nat in
  let rest := index_lines (scan pre) (at' + length (nl x)) (map nl post) in
  scan (pre ++ x :: post) = (<[id := (at', l)]> (fst rest), snd rest) /\ fst rest !! id = None.
Proof.
  intros Hx Hpre Hpost at' rest. rewrite scan_mid, index_line_nl, Hx. fold at'.
  assert (fst (scan pre) !! id = None) as Hm.
  { unfold scan. rewrite index_lines_lookup by done. apply lookup_empty. }
  rewrite Hm, index_lines_insert by done. unfold rest. rewrite <- surjective_pairing.
  split; [done|]. rewrite (surjective_pairing (scan pre)), index_lines_lookup by done. exact Hm.
Qed.

Lemma scan_dead pre x post :
  parse_line x = None ->
  let at' := (length HEADER + length (body pre))%nat in
  let rest := index_lines (scan pre) (at' + length (nl x)) (map nl post) in
  scan (pre ++ x :: post) = (fst rest, S (snd rest)).
Proof.
  intros Hx at' rest. rewrite scan_mid, index_line_nl, Hx. fold at'.
  rewrite index_lines_dead, <- surjective_pairing. done.
Qed.

(** ** The open file and the map it holds *)

(** The index is what reading the file again would give, and the file is whole
    lines with no name twice. *)
Definition consistent (s : SideFile) : Prop :=
  ix s = index (file s) /\
  (file s = [] \/
   exists lines, Forall one_line lines /\ NoDup (ids lines) /\ file s = layout lines).

Definition map_of (s : SideFile) : gmap bytes Lockout := snd <$> records (ix s).

Lemma drop_layout pre x post :
  drop (length HEADER + length (body pre)) (layout (pre ++ x :: post)) = nl x ++ body post.
Proof. rewrite layout_mid. apply drop_app_length'. by rewrite length_app. Qed.

Lemma record_at_mid s pre x post l id :
  file s = layout (pre ++ x :: post) -> parse_line x = Some (l, id) ->
  record_at s (length HEADER + length (body pre)) id = Some l.
Proof.
  intros Hf Hx. unfold record_at. rewrite Hf, drop_layout.
  rewrite take_app_length' by (unfold nl; rewrite length_app, (proj2 (parse_shape x l id Hx)); cbn; lia).
  rewrite strip_newline_nl. cbn [mbind option_bind]. rewrite Hx.
  by rewrite bool_decide_eq_true_2.
Qed.

(** A name of the index, with the line that holds it. *)
Lemma consistent_split s id at' l :
  consistent s -> records (ix s) !! id = Some (at', l) ->
  exists pre x post, file s = layout (pre ++ x :: post) /\ Forall one_line (pre ++ x :: post) /\
    NoDup (ids (pre ++ x :: post)) /\ parse_line x = Some (l, id) /\
    at' = (length HEADER + length (body pre))%nat /\ (id ∉ ids pre) /\ (id ∉ ids post).
Proof.
  intros [Hix [He|(lines & H1 & Hnd & Hf)]] Hr; rewrite Hix in Hr.
  { rewrite He in Hr. cbn in Hr. by rewrite lookup_empty in Hr. }
  rewrite Hf, index_layout in Hr by done. cbn [records] in Hr. unfold scan in Hr.
  apply index_lines_found in Hr as [Hr|(pre & x & post & -> & Hx & ->)];
    [by rewrite lookup_empty in Hr|].
  exists pre, x, post. split_and!; try done.
  all: rewrite ids_app in Hnd; unfold ids in Hnd at 2; cbn [omap list_omap] in Hnd;
    rewrite Hx in Hnd; cbn [fmap option_fmap option_map snd] in Hnd;
    apply list.NoDup_app in Hnd as (_ & Hd & Hnd).
  - intros Hin. apply (Hd _ Hin). apply elem_of_cons. by left.
  - by apply list.NoDup_cons in Hnd as [? _].
Qed.

Lemma locate_consistent s id : consistent s -> locate s id = (s, records (ix s) !! id).
Proof.
  intros Hc. unfold locate. destruct (records (ix s) !! id) as [[at' l]|] eqn:Hr; [|done].
  destruct (consistent_split s id at' l Hc Hr) as (pre & x & post & Hf & _ & _ & Hx & -> & _).
  by rewrite (record_at_mid s pre x post l id Hf Hx).
Qed.

(** Overwriting the front of one line. *)
Lemma write_line pre x post a b :
  x = a ++ b ->
  forall c, length c = length a ->
  write_at (layout (pre ++ x :: post)) (length HEADER + length (body pre)) c
  = layout (pre ++ (c ++ b) :: post).
Proof.
  intros -> c Hc. rewrite !layout_mid. unfold write_at.
  rewrite take_app_length' by (by rewrite length_app).
  rewrite <- length_app, drop_app_add, Hc. unfold nl.
  rewrite <- !app_assoc, drop_app_length. done.
Qed.

Lemma parse_deleted y : parse_line (DELETED :: y) = None.
Proof.
  unfold parse_line, mbind, option_bind.
  assert (field (DELETED :: y) 0 = None) as ->; [|by repeat case_match].
  unfold field, get_range. change (0 * (FIELD + 1))%nat with 0%nat.
  destruct (length (DELETED :: y) <? 0 + FIELD)%nat; done.
Qed.

Lemma ids_cons x l id lines : parse_line x = Some (l, id) -> ids (x :: lines) = id :: ids lines.
Proof. intros Hx. unfold ids. cbn [omap list_omap]. by rewrite Hx. Qed.

Lemma ids_cons_dead x lines : parse_line x = None -> ids (x :: lines) = ids lines.
Proof. intros Hx. unfold ids. cbn [omap list_omap]. by rewrite Hx. Qed.

Lemma elem_of_dec_fixed w n b : b ∈ Decimal.dec_fixed w n -> Decimal.is_ascii_digit b = true.
Proof.
  intros H. pose proof (Decimal.dec_fixed_digits w n) as Hd.
  rewrite forallb_forall in Hd. by apply Hd, list_elem_of_In.
Qed.

Lemma one_line_record id l : good_id id -> one_line (head id l ++ [x20] ++ id).
Proof.
  intros (_ & _ & Hid) Hin. rewrite record_parts in Hin.
  assert (forall n, x0a ∉ Decimal.dec_fixed FIELD n) as Hd
    by (intros n Hn; by apply elem_of_dec_fixed in Hn).
  assert (x0a ∉ [x20]) as Hsp by (intros Hs; by apply list_elem_of_singleton in Hs).
  rewrite !elem_of_app in Hin.
  destruct Hin as [H|[H|[H|[H|[H|[H|[H|[H|H]]]]]]]];
    [exact (Hd _ H)|exact (Hsp H)|exact (Hd _ H)|exact (Hsp H)|exact (Hd _ H)|exact (Hsp H)|
     |exact (Hsp H)|exact (Hid H)].
  assert (is_u32 (checksum (values_text l) id)) as Hck by apply crc32_u32.
  pose proof (proj1 (hex_fixed_spec SUM _ (proj1 Hck))) as Hh.
  rewrite forallb_forall in Hh. by apply list_elem_of_In, Hh in H.
Qed.

Lemma index_lines_complete lines id m d off :
  is_Some (m !! id) \/ id ∈ ids lines -> is_Some (fst (index_lines (m, d) off (map nl lines)) !! id).
Proof.
  revert m d off. induction lines as [|x lines IH]; intros m d off H; cbn [map index_lines].
  { destruct H as [H|H]; [done|by apply not_elem_of_nil in H]. }
  rewrite index_line_nl. cbn [fst snd]. destruct (parse_line x) as [[l name]|] eqn:Ex; apply IH.
  - rewrite (ids_cons x l name) in H by done.
    destruct (decide (name = id)) as [->|Hne]; [left; by rewrite lookup_insert_eq|].
    rewrite lookup_insert_ne by done. destruct H as [H|H]; [by left|].
    apply elem_of_cons in H as [->|H]; [done|by right].
  - by rewrite ids_cons_dead in H.
Qed.

Lemma record_line_nl id l : record_line id l = nl (head id l ++ [x20] ++ id).
Proof. unfold record_line, nl. by rewrite <- !app_assoc. Qed.

Lemma consistent_layout lines :
  Forall one_line lines -> NoDup (ids lines) -> consistent (mkSide (layout lines) (index (layout lines))).
Proof. intros H1 H2. split; [done|]. right. by exists lines. Qed.

(** A record added at the end. *)
Lemma append_record lines id l :
  Forall one_line lines -> NoDup (ids lines) -> id ∉ ids lines -> good_id id -> is_u32_lockout l ->
  let at' := length (layout lines) in
  let new := layout (lines ++ [head id l ++ [x20] ++ id]) in
  write_at (layout lines) at' (record_line id l) = new /\
  index new = mkIndex (<[id := (at', l)]> (fst (scan lines))) (snd (scan lines))
                (at' + length (record_line id l)) true false /\
  consistent (mkSide new (index new)).
Proof.
  intros H1 Hnd Hid Hg Hl at' new. pose proof (parse_record id l Hl Hg) as Hp.
  assert (new = layout lines ++ record_line id l) as Hnew.
  { unfold new. rewrite layout_mid, record_line_nl. unfold layout, body at 2. by rewrite app_nil_r. }
  assert (Forall one_line (lines ++ [head id l ++ [x20] ++ id])) as H1'.
  { apply list.Forall_app. split; [done|]. constructor; [by apply one_line_record|constructor]. }
  split_and!.
  - unfold write_at, at'. rewrite take_ge, drop_ge, app_nil_r by lia. done.
  - unfold new. rewrite index_layout by done. fold new.
    destruct (scan_record lines _ [] l id Hp Hid) as [-> _]; [apply not_elem_of_nil|].
    cbn [map index_lines fst snd]. unfold at', layout at 1.
    rewrite Hnew, !length_app. done.
  - apply consistent_layout; [done|]. rewrite ids_app, (ids_cons _ l id) by done.
    apply list.NoDup_app. split; [done|]. split.
    + intros y Hy Hy'. apply elem_of_cons in Hy' as [->|Hy']; [done|by apply not_elem_of_nil in Hy'].
    + apply list.NoDup_singleton.
Qed.

(** The record of [id] replaced in place, or its line marked deleted. *)
Lemma overwrite_record pre x post id l l' :
  Forall one_line (pre ++ x :: post) -> NoDup (ids (pre ++ x :: post)) ->
  parse_line x = Some (l, id) -> id ∉ ids pre -> id ∉ ids post -> good_id id -> is_u32_lockout l' ->
  let at' := (length HEADER + length (body pre))%nat in
  let old := layout (pre ++ x :: post) in
  let new := write_at old at' (head id l') in
  index new = set_records (index old) (<[id := (at', l')]> (records (index old))) /\
  consistent (mkSide new (index new)).
Proof.
  intros H1 Hnd Hx Hpre Hpost Hg Hl at' old new. pose proof (parse_record id l' Hl Hg) as Hp.
  destruct (parse_shape x l id Hx) as [Hsh Hlen].
  assert (length (head id l') = length (take HEAD x)) as Hlh
    by (rewrite length_head, length_take; lia).
  assert (new = layout (pre ++ (head id l' ++ [x20] ++ id) :: post)) as Hnew
    by exact (write_line pre x post _ _ Hsh _ Hlh).
  assert (Forall one_line (pre ++ (head id l' ++ [x20] ++ id) :: post)) as H1'.
  { apply list.Forall_app in H1 as [Ha Hb]. apply list.Forall_cons in Hb as [_ Hb].
    apply list.Forall_app. split; [done|]. constructor; [by apply one_line_record|done]. }
  assert (length (nl x) = length (nl (head id l' ++ [x20] ++ id))) as Hll
    by (unfold nl; rewrite !length_app, length_head, Hlen; cbn [length]; lia).
  split.
  - rewrite Hnew, index_layout by done. unfold old. rewrite index_layout by done.
    destruct (scan_record pre x post l id Hx Hpre Hpost) as [-> _].
    destruct (scan_record pre _ post l' id Hp Hpre Hpost) as [-> _]. rewrite <- Hll.
    unfold set_records. cbn [records dead len whole foreign fst snd].
    rewrite insert_insert_eq, !layout_mid, !length_app, <- Hll. done.
  - rewrite Hnew. apply consistent_layout; [done|].
    rewrite ids_app, (ids_cons _ _ _ _ Hp). by rewrite ids_app, (ids_cons _ _ _ _ Hx) in Hnd.
Qed.

Lemma delete_record pre x post id l :
  Forall one_line (pre ++ x :: post) -> NoDup (ids (pre ++ x :: post)) ->
  parse_line x = Some (l, id) -> id ∉ ids pre -> id ∉ ids post ->
  let at' := (length HEADER + length (body pre))%nat in
  let old := layout (pre ++ x :: post) in
  let new := write_at old at' [DELETED] in
  index new = mkIndex (base.delete id (records (index old))) (S (dead (index old)))
                (len (index old)) (whole (index old)) (foreign (index old)) /\
  consistent (mkSide new (index new)).
Proof.
  intros H1 Hnd Hx Hpre Hpost at' old new.
  destruct (parse_shape x l id Hx) as [_ Hlen]. destruct x as [|b x]; [cbn in Hlen; lia|].
  assert (new = layout (pre ++ (DELETED :: x) :: post)) as Hnew
    by exact (write_line pre (b :: x) post [b] x eq_refl [DELETED] eq_refl).
  pose proof (parse_deleted x) as Hp.
  assert (Forall one_line (pre ++ (DELETED :: x) :: post)) as H1'.
  { apply list.Forall_app in H1 as [Ha Hb]. apply list.Forall_cons in Hb as [Hbx Hb].
    apply list.Forall_app. split; [done|]. constructor; [|done]. unfold one_line in *.
    rewrite not_elem_of_cons in *. split; [done|apply Hbx]. }
  split.
  - rewrite Hnew, index_layout by done. unfold old. rewrite index_layout by done.
    destruct (scan_record pre (b :: x) post l id Hx Hpre Hpost) as [-> Hnone].
    rewrite (scan_dead pre (DELETED :: x) post Hp).
    cbn [records dead len whole foreign fst snd].
    rewrite delete_insert_id by exact Hnone. by rewrite !layout_mid, !length_app.
  - rewrite Hnew. apply consistent_layout; [done|].
    rewrite ids_app, (ids_cons_dead _ _ Hp).
    rewrite ids_app, (ids_cons _ _ _ _ Hx) in Hnd. apply list.NoDup_app in Hnd as (Ha & Hd & Hb).
    apply list.NoDup_cons in Hb as [_ Hb]. apply list.NoDup_app. split; [done|]. split; [|done].
    intros y Hy Hy'. apply (Hd y Hy). apply elem_of_cons. by right.
Qed.

Lemma put_consistent s id l :
  consistent s -> good_id id -> is_u32_lockout l ->
  consistent (put s id l) /\ map_of (put s id l) = <[id := l]> (map_of s).
Proof.
  intros Hc Hg Hl. unfold put. rewrite locate_consistent by done.
  unfold map_of. destruct (records (ix s) !! id) as [[at' have]|] eqn:Hr.
  - destruct (consistent_split s id at' have Hc Hr) as (pre & x & post & Hf & H1 & Hnd & Hx & -> & Hpre & Hpost).
    pose proof (proj1 Hc) as Hix. cbn [ix records set_records].
    split; [|by rewrite fmap_insert].
    destruct (bool_decide (have = l)) eqn:E; to_prop.
    + subst have. rewrite insert_id by done.
      replace (set_records (ix s) (records (ix s))) with (ix s) by (by destruct (ix s)).
      by destruct s.
    + destruct (overwrite_record pre x post id have l H1 Hnd Hx Hpre Hpost Hg Hl) as [Hi Hn].
      rewrite <- Hf, <- Hix in Hi. rewrite <- Hi. by rewrite Hf.
  - destruct Hc as [Hix [He|(lines & H1 & Hnd & Hf)]].
    + destruct (append_record [] id l (List.Forall_nil _) NoDup_nil_2 (not_elem_of_nil id) Hg Hl)
        as (Hw & Hi & Hn).
      rewrite Hix, He. cbn [index len Nat.eqb dead whole foreign records ix].
      change (write_at [] 0 HEADER) with (layout []). change (length HEADER) with (length (layout [])).
      rewrite Hw. split; [|by rewrite fmap_insert].
      unfold scan in Hi. cbn [map index_lines fst snd] in Hi. rewrite <- Hi. exact Hn.
    + assert (id ∉ ids lines) as Hid.
      { intros Hin. rewrite Hix, Hf, index_layout in Hr by done. cbn [records] in Hr.
        destruct (index_lines_complete lines id ∅ 0 (length HEADER)) as [v Hv]; [by right|].
        unfold scan in Hr. by rewrite Hr in Hv. }
      destruct (append_record lines id l H1 Hnd Hid Hg Hl) as (Hw & Hi & Hn).
      rewrite Hix, Hf, index_layout by done. cbn [len whole dead foreign records ix negb].
      destruct (length (layout lines) =? 0)%nat eqn:E0; [to_prop; by destruct lines|].
      rewrite Hw. cbn [ix records]. split; [rewrite <- Hi; exact Hn|by rewrite fmap_insert].
Qed.

Lemma delete_consistent s id :
  consistent s ->
  consistent (delete s id) /\ map_of (delete s id) = base.delete id (map_of s).
Proof.
  intros Hc. unfold delete. rewrite locate_consistent by done.
  unfold map_of. destruct (records (ix s) !! id) as [[at' l]|] eqn:Hr.
  - destruct (consistent_split s id at' l Hc Hr) as (pre & x & post & Hf & H1 & Hnd & Hx & -> & Hpre & Hpost).
    destruct (delete_record pre x post id l H1 Hnd Hx Hpre Hpost) as [Hi Hn].
    rewrite <- Hf, <- (proj1 Hc) in Hi. rewrite <- Hi, Hf. split; [done|].
    rewrite <- Hf, Hi. cbn [ix records]. apply fmap_delete.
  - split; [done|]. rewrite delete_id; [done|]. by rewrite lookup_fmap, Hr.
Qed.

(** The lines [render] writes. *)
Definition record_lines (recs : list (bytes * Lockout)) : list bytes :=
  map (fun r => head (fst r) (snd r) ++ [x20] ++ fst r) recs.

Definition good_record (r : bytes * Lockout) : Prop := good_id (fst r) /\ is_u32_lockout (snd r).

Lemma render_layout recs : render recs = layout (record_lines recs).
Proof.
  unfold render, layout, body, record_lines. rewrite map_map.
  by rewrite (map_ext _ _ (fun r => record_line_nl (fst r) (snd r))).
Qed.

Lemma ids_record_lines recs : Forall good_record recs -> ids (record_lines recs) = map fst recs.
Proof.
  induction 1 as [|r recs [Hg Hl] _ IH]; [done|].
  change (record_lines (r :: recs)) with ((head (fst r) (snd r) ++ [x20] ++ fst r) :: record_lines recs).
  rewrite (ids_cons _ _ _ _ (parse_record _ _ Hl Hg)), IH. done.
Qed.

Lemma scan_record_lines recs off d :
  NoDup (map fst recs) -> Forall good_record recs ->
  snd <$> fst (index_lines (∅, d) off (map nl (record_lines recs))) = list_to_map recs.
Proof.
  revert off d. induction recs as [|[id l] recs IH]; intros off d Hnd Hok.
  { cbn. apply fmap_empty. }
  apply list.NoDup_cons in Hnd as [Hid Hnd]. apply list.Forall_cons in Hok as [[Hg Hl] Hok].
  change (record_lines ((id, l) :: recs)) with ((head id l ++ [x20] ++ id) :: record_lines recs).
  cbn [map index_lines list_to_map foldr fst snd uncurry].
  rewrite index_line_nl, (parse_record id l Hl Hg). cbn [fst snd]. rewrite lookup_empty.
  rewrite index_lines_insert by (by rewrite ids_record_lines). cbn [fst].
  by rewrite fmap_insert, IH.
Qed.

Lemma rewrite_consistent recs :
  NoDup (map fst recs) -> Forall good_record recs ->
  consistent (rewrite recs) /\ map_of (rewrite recs) = list_to_map recs.
Proof.
  intros Hnd Hok. unfold rewrite. rewrite render_layout.
  assert (Forall one_line (record_lines recs)) as H1.
  { apply List.Forall_map. eapply List.Forall_impl; [|exact Hok].
    intros r [Hg _]. by apply one_line_record. }
  split; [apply consistent_layout; [done|by rewrite ids_record_lines]|].
  unfold map_of. cbn [ix]. rewrite index_layout by done. by apply scan_record_lines.
Qed.

(** ** Refinement *)

(** What the KDC and the administration server do to the open file. *)
Inductive op :=
| Put (id : bytes) (l : Lockout)
| Delete (id : bytes)
| Record (id : bytes) (entry : Lockout) (stamp : Z) (u : LockoutUpdate).

Definition good_op (o : op) : Prop :=
  match o with
  | Put id l => good_id id /\ is_u32_lockout l
  | Delete id => True
  | Record id entry stamp u => good_id id /\ is_u32_lockout entry /\ is_u32 stamp
  end.

Definition step (s : SideFile) (o : op) : SideFile :=
  match o with
  | Put id l => put s id l
  | Delete id => delete s id
  | Record id entry stamp u => record s id entry stamp u
  end.

(** The same on a map from names to records. *)
Definition map_step (m : gmap bytes Lockout) (o : op) : gmap bytes Lockout :=
  match o with
  | Put id l => <[id := l]> m
  | Delete id => base.delete id m
  | Record id entry stamp u => <[id := apply u (default entry (m !! id)) stamp]> m
  end.

Lemma get_consistent s id : consistent s -> get s id = (s, map_of s !! id).
Proof.
  intros Hc. unfold get, map_of. rewrite locate_consistent by done. by rewrite lookup_fmap.
Qed.

Lemma apply_u32 u l stamp : is_u32_lockout l -> is_u32 stamp -> is_u32_lockout (apply u l stamp).
Proof.
  unfold is_u32_lockout, is_u32, apply, wrapping_add. intros (H1 & H2 & H3) Hs.
  destruct u as [[] [] []]; cbn [zero_fail_count set_last_success set_last_failure l_success l_failed l_count];
    split_and!; try lia; apply Z.mod_pos_bound; lia.
Qed.

(** The fields of a record read are [u32]s. *)
Lemma parse_u32 x l id : parse_line x = Some (l, id) -> is_u32_lockout l.
Proof.
  assert (forall i v, field x i = Some v -> is_u32 v) as Hf.
  { intros i v H. unfold field, mbind, option_bind in H. destruct (get_range _ _ _) as [b|]; [|done].
    destruct (forallb Decimal.is_ascii_digit b) eqn:Hd; [|done]. cbn [negb] in H.
    pose proof (Decimal.dec_value_nonneg b Hd). case_match; simplify_eq. to_prop.
    unfold is_u32, U32_MAX in *. lia. }
  unfold parse_line, mbind, option_bind. intros H.
  destruct (field x 0) eqn:F0, (field x 1) eqn:F1, (field x 2) eqn:F2; case_matches.
  split_and!; by eapply Hf.
Qed.

Lemma map_of_u32 s id l : consistent s -> map_of s !! id = Some l -> is_u32_lockout l.
Proof.
  intros Hc. unfold map_of. rewrite lookup_fmap.
  destruct (records (ix s) !! id) as [[at' l']|] eqn:Hr; [|done]. cbn. intros [= ->].
  destruct (consistent_split s id at' l Hc Hr) as (pre & x & post & _ & _ & _ & Hx & _).
  by eapply parse_u32.
Qed.

Lemma step_consistent s o :
  consistent s -> good_op o -> consistent (step s o) /\ map_of (step s o) = map_step (map_of s) o.
Proof.
  intros Hc. destruct o as [id l|id|id entry stamp u]; cbn [good_op step map_step].
  - intros [Hg Hl]. by apply put_consistent.
  - intros _. by apply delete_consistent.
  - intros (Hg & He & Hs). unfold record. rewrite get_consistent by done.
    apply put_consistent; [done|done|]. apply apply_u32; [|done].
    destruct (map_of s !! id) as [l|] eqn:Hm; [by eapply map_of_u32|done].
Qed.

(** C20: the side file implements a map from names to lockout records.  From a
    file written whole, after any sequence of updates in place, appends,
    deletions and audited requests, the open file's index holds exactly the map
    those operations give, a lookup through the file returns the map's record
    and changes nothing, and indexing the bytes of the file anew gives the same
    index: what the process believes is what a restart reads. *)
Theorem sidefile_refines (recs : list (bytes * Lockout)) (ops : list op) :
  NoDup (map fst recs) -> Forall good_record recs -> Forall good_op ops ->
  let s := fold_left step ops (rewrite recs) in
  let m := fold_left map_step ops (list_to_map recs) in
  map_of s = m /\ (forall id, get s id = (s, m !! id)) /\ reindex s = s.
Proof.
  intros Hnd Hok Hops.
  assert (forall s m, consistent s /\ map_of s = m -> Forall good_op ops ->
    consistent (fold_left step ops s) /\
    map_of (fold_left step ops s) = fold_left map_step ops m) as Hrun.
  { clear Hops. induction ops as [|o ops IH]; intros s m [Hc <-] Ho; [done|].
    apply list.Forall_cons in Ho as [Ho Hos]. cbn [fold_left]. apply IH; [|done].
    by apply step_consistent. }
  destruct (Hrun _ _ (rewrite_consistent recs Hnd Hok) Hops) as [Hc Hm].
  intros s m. fold s in Hc, Hm. fold m in Hm. split; [done|]. split.
  - intros id. by rewrite get_consistent, Hm.
  - unfold reindex. rewrite <- (proj1 Hc). by destruct s.
Qed.

Definition sample_id : bytes := String.list_byte_of_string "a@R".

Lemma sample_id_good : good_id sample_id.
Proof. split; [done|]. split; [done|]. apply (bool_decide_unpack _). vm_compute. done. Qed.

Lemma sidefile_refines_witness :
  let ops := [Put sample_id (mkLockout 1 2 3); Delete sample_id;
              Record sample_id (mkLockout 0 0 0) 7 (mkUpdate false false true)] in
  map_of (fold_left step ops (rewrite [])) = fold_left map_step ops ∅ /\
  fold_left map_step ops ∅ !! sample_id = Some (mkLockout 0 7 1).
Proof.
  split.
  - apply (sidefile_refines []); [apply NoDup_nil_2|constructor|].
    pose proof sample_id_good. repeat constructor; try done; apply sample_id_good.
  - vm_compute. reflexivity.
Defined.

(** A torn append that lacks only its newline is counted dead, but the newline
    the next append writes completes it.  The record then has two lines, and
    deleting it brings the older one back. *)
Example torn_append_returns :
  let torn := render [] ++ head sample_id (mkLockout 1 2 3) ++ [x20] ++ sample_id in
  let s := mkSide torn (index torn) in
  let s := delete (put s sample_id (mkLockout 4 5 6)) sample_id in
  map_of s !! sample_id = None /\
  map_of (reindex s) !! sample_id = Some (mkLockout 1 2 3).
Proof. vm_compute. split; reflexivity. Qed.

End LockoutFile.
