(* ===== verification/KdcPolicy.v ===== *)
(** * Request policy of the KDC

    Models [krb5-kdc/src/issue/kdc_util.rs] and [tgs_policy.rs]: the checks an
    AS or TGS request passes, and the times, flags and session enctype of the
    ticket it gets, with the part of [tgs_req.rs] that combines them.  The clock
    is an argument. *)

From S2P Require Import Prelude Etype Name EncList Time Kdc Lockout.

Module KdcPolicy.

(** The fields of [KdcReqBody] the policy reads. *)
Record KdcReqBody := mkBody {
  kdc_options : list bool;
  sname : option PrincipalName.PrincipalName;
  from : option Z;
  till : Z;
  rtime : option Z;
}.

(** The fields of [EncTicketPart]. *)
Record EncTicketPart := mkPart {
  flags : list bool;
  authtime : Z;
  starttime : option Z;
  endtime : Z;
  renew_till : option Z;
}.

Definition opt (b : KdcReqBody) (n : nat) : bool := Flags.bit (kdc_options b) n.

(** [client.is_some_and(|c| attr(c, bit))]. *)
Definition client_attr (c : option Principal) (b : Z) : bool :=
  match c with Some c => attr c b | None => false end.

(** [i64::try_from(life).unwrap_or(i64::MAX)] of a [u64]. *)
Definition as_i64 (life : Z) : Z := if life <=? Time.I64_MAX then life else Time.I64_MAX.

(** ** Times *)

(** [wrapping_sub(..).cast_signed()], with the saturation both callers make. *)
Definition lifetime (until start : Z) : Z :=
  let life := cast_signed 32 (wrapping_sub 32 until start) in
  if (start <? until) && (life <? 0) then I32_MAX else life.

Section Policy.
Context `{Chrono} `{PrincipalRead}.

Definition kdc_get_ticket_endtime (start_time : Z) (header_end : option Z) (till : Z)
    (client : option Principal) (server : Principal) : result KdcError Z :=
  let start := Time.unix_seconds start_time in
  let till_s := Time.unix_seconds till in
  let header_s := Time.unix_seconds <$> header_end in
  let until :=
    if till_s =? 0 then default U32_MAX header_s
    else match header_s with Some h => Z.min till_s h | None => till_s end in
  let life := lifetime until start in
  let life := match client with
              | Some c => if 0 <? max_life c then Z.min life (as_i64 (max_life c)) else life
              | None => life
              end in
  let life := if 0 <? max_life server then Z.min life (as_i64 (max_life server)) else life in
  let r := realm_max_life policy in
  let life := if 0 <? r then Z.min life (as_i64 r) else life in
  match Time.add_seconds start_time life with
  | Some e => Ok e
  | None => match Time.add_hours start_time 10 with
            | Some e => Ok e
            | None => Err (proto err.NEVER_VALID "UNKNOWN_REASON")
            end
  end.

(** The renew-till time and the flags with RENEWABLE set or cleared. *)
Definition kdc_get_ticket_renewtime (body : KdcReqBody) (header : option EncTicketPart)
    (client : option Principal) (server : Principal) (fl : list bool) (start_time end_time : Z)
    : option Z * list bool :=
  let fl := Flags.with_bit fl flag_bit.RENEWABLE false in
  if attr server KDB_DISALLOW_RENEWABLE || client_attr client KDB_DISALLOW_RENEWABLE then (None, fl)
  else if match header with Some h => negb (Flags.bit (flags h) flag_bit.RENEWABLE) | None => false end
  then (None, fl)
  else
    let want :=
      if opt body flag_bit.RENEWABLE then Some (default (Time.from_unix_seconds U32_MAX) (rtime body))
      else if opt body flag_bit.RENEWABLE_OK
              && (Time.unix_seconds end_time <? Time.unix_seconds (till body))
      then Some (till body)
      else None in
    match want with
    | None => (None, fl)
    | Some rt =>
        let rsec := Time.unix_seconds rt in
        let rsec := match header with
                    | Some h => match renew_till h with
                                | Some t => Z.min rsec (Time.unix_seconds t)
                                | None => rsec
                                end
                    | None => rsec
                    end in
        let max_rlife := Z.min (max_renewable_life server) (realm_max_renewable_life policy) in
        let max_rlife := match client with
                         | Some c => Z.min max_rlife (max_renewable_life c)
                         | None => max_rlife
                         end in
        let rsec := match Time.add_seconds start_time (as_i64 max_rlife) with
                    | Some cap => Z.min rsec (Time.unix_seconds cap)
                    | None => rsec
                    end in
        if negb (opt body flag_bit.RENEWABLE) && (rsec <=? Time.unix_seconds end_time)
        then (None, fl)
        else (Some (Time.from_unix_seconds rsec), Flags.with_bit fl flag_bit.RENEWABLE true)
    end.

Definition omit_start_if_auth (start auth : Z) : option Z :=
  let s := Time.unix_seconds start in
  if negb (s =? 0) && negb (s =? Time.unix_seconds auth) then Some start else None.

Definition check_header_times_rd_req (now : Z) (tkt : EncTicketPart) : result KdcError unit :=
  let start := default (authtime tkt) (starttime tkt) in
  if Time.delta_seconds now start <? - skew policy then Err (proto err.TKT_NYV "PROCESS_TGS")
  else if Time.delta_seconds (endtime tkt) now <? - skew policy
  then Err (proto err.TKT_EXPIRED "PROCESS_TGS")
  else Ok tt.

End Policy.

(** ** Flags *)

(** [if c { flags = flags.with_bit(n, on); }]. *)
Definition set_if (c : bool) (n : nat) (on : bool) (f : list bool) : list bool :=
  if c then Flags.with_bit f n on else f.

Definition get_ticket_flags (req : list bool) (client : option Principal) (server : Principal)
    (header : option (list bool)) : list bool :=
  let bit := Flags.bit in
  let set := set_if true in
  let early :=
    match header with
    | Some h =>
        if bit req flag_bit.VALIDATE || bit req flag_bit.RENEW
        then Some (set flag_bit.INVALID false h) else None
    | None => None
    end in
  match early with
  | Some f => f
  | None =>
      let f := Flags.none in
      let f := set flag_bit.FORWARDABLE (bit req flag_bit.FORWARDABLE) f in
      let f := set flag_bit.FORWARDED (bit req flag_bit.FORWARDED) f in
      let f := set flag_bit.PROXIABLE (bit req flag_bit.PROXIABLE) f in
      let f := set flag_bit.PROXY (bit req flag_bit.PROXY) f in
      let f := set flag_bit.MAY_POSTDATE (bit req flag_bit.MAY_POSTDATE) f in
      let f := set flag_bit.POSTDATED (bit req flag_bit.POSTDATED) f in
      let f := set flag_bit.ANONYMOUS (bit req flag_bit.ANONYMOUS) f in
      let f := set flag_bit.ENC_PA_REP true f in
      let f := set_if (bit req flag_bit.POSTDATED) flag_bit.INVALID true f in
      let f :=
        match header with
        | Some h =>
            let f := foldl (fun f n => set_if (bit h n) n true f) f
              [flag_bit.FORWARDED; flag_bit.PROXY; flag_bit.PRE_AUTHENT; flag_bit.HW_AUTHENT;
               flag_bit.ANONYMOUS] in
            let f := set_if (attr server KDB_OK_AS_DELEGATE) flag_bit.OK_AS_DELEGATE true f in
            let f := set_if (negb (bit h flag_bit.PROXIABLE)) flag_bit.PROXIABLE false f in
            let f := set_if (negb (bit h flag_bit.FORWARDABLE)) flag_bit.FORWARDABLE false f in
            set_if (negb (bit h flag_bit.ANONYMOUS)) flag_bit.ANONYMOUS false f
        | None => set flag_bit.INITIAL true f
        end in
      let f := set_if (attr server KDB_DISALLOW_PROXIABLE || client_attr client KDB_DISALLOW_PROXIABLE)
                 flag_bit.PROXIABLE false f in
      set_if (attr server KDB_DISALLOW_FORWARDABLE || client_attr client KDB_DISALLOW_FORWARDABLE)
        flag_bit.FORWARDABLE false f
  end.

Definition s4u2self_forwardable (server : Principal) (f : list bool) : list bool :=
  if attr server KDB_OK_TO_AUTH_AS_DELEGATE || bool_decide (s4u_allowed_to server = []) then f
  else Flags.with_bit f flag_bit.FORWARDABLE false.

(** ** The AS request *)

Definition anonymous_principal_name : PrincipalName.PrincipalName :=
  PrincipalName.mkName 11 [String.list_byte_of_string "WELLKNOWN"; String.list_byte_of_string "ANONYMOUS"].

Definition is_anonymous_principal (n : PrincipalName.PrincipalName) : bool :=
  PrincipalName.components_eq n anonymous_principal_name.

Section AsRequest.
Context `{PrincipalRead}.

Definition check_anon (client server : PrincipalName.PrincipalName) : result KdcError unit :=
  if restrict_anon policy && is_anonymous_principal client
     && negb (PrincipalName.is_local_tgs_principal server store_realm)
  then Err (proto err.POLICY "ANONYMOUS NOT ALLOWED")
  else Ok tt.

Definition check_db_times (client : option Principal) (server : Principal) (now : Z)
    : result KdcError unit :=
  let pwchange_svc := negb (Z.land (attributes server) KDB_PWCHANGE_SERVICE =? 0) in
  let? _ :=
    match client with
    | Some c =>
        if negb (expiration c =? 0) && (expiration c <? now)
        then Err (proto err.NAME_EXP "CLIENT EXPIRED")
        else if negb (pw_expire c =? 0) && (pw_expire c <? now) && negb pwchange_svc
        then Err (proto err.KEY_EXPIRED "CLIENT KEY EXPIRED")
        else Ok tt
    | None => Ok tt
    end in
  if negb (expiration server =? 0) && (expiration server <? now)
  then Err (proto err.SERVICE_EXP "SERVICE EXPIRED")
  else if client_attr client KDB_REQUIRES_PWCHANGE && negb pwchange_svc
  then Err (proto err.KEY_EXPIRED "REQUIRED PWCHANGE")
  else Ok tt.

Definition validate_as_request (client server : Principal) (body : KdcReqBody) (now : Z)
    : result KdcError unit :=
  let pwchange_svc := attr server KDB_PWCHANGE_SERVICE in
  if negb (Flags.as_invalid_bits (kdc_options body) =? 0)
  then Err (proto err.BADOPTION "INVALID AS OPTIONS")
  else if negb (expiration client =? 0) && (expiration client <? now)
  then Err (proto err.NAME_EXP "CLIENT EXPIRED")
  else if negb (pw_expire client =? 0) && (pw_expire client <? now) && negb pwchange_svc
  then Err (proto err.KEY_EXPIRED "CLIENT KEY EXPIRED")
  else if negb (expiration server =? 0) && (expiration server <? now)
  then Err (proto err.SERVICE_EXP "SERVICE EXPIRED")
  else if attr client KDB_REQUIRES_PWCHANGE && negb pwchange_svc
  then Err (proto err.KEY_EXPIRED "REQUIRED PWCHANGE")
  else if (opt body flag_bit.MAY_POSTDATE || opt body flag_bit.POSTDATED)
          && (attr client KDB_DISALLOW_POSTDATED || attr server KDB_DISALLOW_POSTDATED)
  then Err (proto err.CANNOT_POSTDATE "POSTDATE NOT ALLOWED")
  else if attr client KDB_DISALLOW_ALL_TIX
  then Err (proto err.CLIENT_REVOKED "CLIENT LOCKED OUT")
  else if attr server KDB_DISALLOW_ALL_TIX
  then Err (proto err.S_PRINCIPAL_UNKNOWN "SERVICE LOCKED OUT")
  else if attr server KDB_DISALLOW_SVR
  then Err (proto err.MUST_USE_USER2USER "SERVICE NOT ALLOWED")
  else
    let req_server := default (PrincipalName.krbtgt store_realm) (sname body) in
    let? _ := check_anon (name client) req_server in
    Lockout.lockout_check_policy client now.

End AsRequest.

(** ** The TGS request *)

Definition non_tgt_option (body : KdcReqBody) : bool :=
  opt body flag_bit.FORWARDED || opt body flag_bit.PROXY || opt body flag_bit.RENEW
  || opt body flag_bit.VALIDATE.

Definition check_tgs_constraints_skeleton (body : KdcReqBody)
    (header_sname : PrincipalName.PrincipalName) (header_realm : bytes) (enc_tkt : EncTicketPart)
    (req_sname : PrincipalName.PrincipalName) (req_realm : bytes) (renew validate : bool) (now : Z)
    : result KdcError unit :=
  let tkt := fun n => Flags.bit (flags enc_tkt) n in
  if opt body flag_bit.FORWARDED && negb (tkt flag_bit.FORWARDABLE)
  then Err (proto err.BADOPTION "TGT NOT FORWARDABLE")
  else if opt body flag_bit.PROXY && negb (tkt flag_bit.PROXIABLE)
  then Err (proto err.BADOPTION "TGT NOT PROXIABLE")
  else if (opt body flag_bit.MAY_POSTDATE || opt body flag_bit.POSTDATED)
          && negb (tkt flag_bit.MAY_POSTDATE)
  then Err (proto err.BADOPTION "TGT NOT POSTDATABLE")
  else if validate && negb (tkt flag_bit.INVALID)
  then Err (proto err.BADOPTION "VALIDATE VALID TICKET")
  else if renew && negb (tkt flag_bit.RENEWABLE)
  then Err (proto err.BADOPTION "TICKET NOT RENEWABLE")
  else if tkt flag_bit.INVALID && negb validate
  then Err (proto err.TKT_NYV "TICKET NOT VALID")
  else
    let? _ :=
      if validate then
        let start := default (authtime enc_tkt) (starttime enc_tkt) in
        if Time.delta_seconds now start <? 0 then Err (proto err.TKT_NYV "NOT_YET_VALID") else Ok tt
      else Ok tt in
    let? _ :=
      if renew then
        match renew_till enc_tkt with
        | Some t => if Time.unix_seconds t <=? Time.unix_seconds now
                    then Err (proto err.TKT_EXPIRED "TKT_EXPIRED") else Ok tt
        | None => Err (proto err.TKT_EXPIRED "TKT_EXPIRED")
        end
      else Ok tt in
    if non_tgt_option body then
      if negb (bool_decide (header_sname = req_sname)) || negb (bool_decide (header_realm = req_realm))
      then Err (proto err.SERVER_NOMATCH "SERVER DIDN'T MATCH TICKET FOR RENEW/FORWARD/ETC")
      else if opt body flag_bit.PROXY && PrincipalName.is_krbtgt req_sname
      then Err (proto err.BADOPTION "CAN'T PROXY TGT")
      else Ok tt
    else
      if negb (PrincipalName.is_krbtgt header_sname) then Err (proto err.NOT_US "BAD TGS SERVER NAME")
      else if negb (PrincipalName.is_krbtgt_for header_sname req_realm)
      then Err (proto err.NOT_US "BAD TGS SERVER INSTANCE")
      else Ok tt.

Definition check_tgs_policy_flags (server : Principal) (body : KdcReqBody) (header_is_tgt : bool)
    (tkt : EncTicketPart) (now : Z) : result KdcError unit :=
  if attr server KDB_DISALLOW_RENEWABLE && opt body flag_bit.RENEWABLE
  then Err (proto err.POLICY "NON-RENEWABLE TICKET")
  else if attr server KDB_DISALLOW_POSTDATED && opt body flag_bit.MAY_POSTDATE
  then Err (proto err.CANNOT_POSTDATE "NON-POSTDATABLE TICKET")
  else if attr server KDB_DISALLOW_DUP_SKEY && opt body flag_bit.ENC_TKT_IN_SKEY
  then Err (proto err.POLICY "DUP_SKEY DISALLOWED")
  else if attr server KDB_DISALLOW_ALL_TIX
  then Err (proto err.S_PRINCIPAL_UNKNOWN "SERVER LOCKED OUT")
  else if attr server KDB_DISALLOW_SVR && negb (opt body flag_bit.ENC_TKT_IN_SKEY)
  then Err (proto err.MUST_USE_USER2USER "SERVER NOT ALLOWED")
  else if attr server KDB_DISALLOW_TGT_BASED && header_is_tgt
  then Err (proto err.POLICY "TGT BASED NOT ALLOWED")
  else if attr server KDB_REQUIRES_HW_AUTH && negb (Flags.bit (flags tkt) flag_bit.HW_AUTHENT)
  then Err (proto err.GENERIC "NO HW PREAUTH")
  else if attr server KDB_REQUIRES_PRE_AUTH && negb (Flags.bit (flags tkt) flag_bit.PRE_AUTHENT)
  then Err (proto err.GENERIC "NO PREAUTH")
  else check_db_times None server now.

(** ** The session enctype *)

Definition dbentry_supports_enctype (pol : Policy) (server : Principal) (e : EncryptionType) : bool :=
  let listed :=
    match List.find (fun kv => bool_decide (fst kv = EncList.lit "session_enctypes"))
            (string_attrs server) with
    | Some (_, raw) =>
        if bool_decide (raw = []) then None else EncList.parse_enctype_list raw (allow_weak_crypto pol)
    | None => None
    end in
  match listed with
  | Some l => bool_decide (e ∈ l)
  | None => bool_decide (e = Aes256CtsHmacSha196) || is_ok (Keys.find_enctype pol server (Some e) 0)
  end.

Fixpoint select_session_keytype (server : Principal) (requested : list Z) (pol : Policy)
    : result KdcError EncryptionType :=
  match requested with
  | [] => Err (proto err.ETYPE_NOSUPP "BAD_ENCRYPTION_TYPE")
  | n :: requested =>
      match EType.known n with
      | Err _ => select_session_keytype server requested pol
      | Ok e =>
          if negb (Keys.etype_permitted pol e) then select_session_keytype server requested pol
          else if bool_decide (e = Des3CbcSha1) && negb (allow_des3 pol)
          then select_session_keytype server requested pol
          else if bool_decide (e = Rc4Hmac) && negb (allow_rc4 pol)
          then select_session_keytype server requested pol
          else if dbentry_supports_enctype pol server e then Ok e
          else select_session_keytype server requested pol
      end
  end.

(** ** The ticket a TGS request gets *)

(** What [tgs_req.rs] computes of the new ticket before the policy plugins. *)
Record TgsTimes := mkTimes {
  t_authtime : Z;
  t_starttime : Z;
  t_end : Z;
  t_renew_till : option Z;
  t_flags : list bool;
}.

Section TgsTimes.
Context `{Chrono} `{PrincipalRead}.

Definition mark_transited (set_transited_flag : bool) (f : list bool) : list bool :=
  if set_transited_flag then Flags.with_bit f flag_bit.TRANSITED_POLICY_CHECKED true else f.

(** The start of a ticket that is not validated: now, or the postdated time. *)
Definition request_start (body : KdcReqBody) (now : Z) : Z :=
  if opt body flag_bit.POSTDATED then default (Time.from_unix_seconds 0) (from body) else now.

Definition tgs_times (renew validate : bool) (body : KdcReqBody) (enc_tkt : EncTicketPart)
    (tgs_client : option Principal) (server : Principal) (subject_authtime now : Z)
    (set_transited_flag s4u2self_here : bool) : result KdcError TgsTimes :=
  let tflags := get_ticket_flags (kdc_options body) tgs_client server (Some (flags enc_tkt)) in
  let? t :=
    if renew then
      if negb (Flags.bit (flags enc_tkt) flag_bit.RENEWABLE)
      then Err (proto err.BADOPTION "TICKET NOT RENEWABLE")
      else
        let start := request_start body now in
        let old_start := default (authtime enc_tkt) (starttime enc_tkt) in
        let hlife := lifetime (Time.unix_seconds (endtime enc_tkt)) (Time.unix_seconds old_start) in
        let e := default start (Time.add_seconds start hlife) in
        let e := match renew_till enc_tkt with
                 | Some t => if Time.unix_seconds t <? Time.unix_seconds e then t else e
                 | None => e
                 end in
        let '(rt, f) := kdc_get_ticket_renewtime body (Some enc_tkt) tgs_client server tflags start e in
        Ok (mkTimes (authtime enc_tkt) start e rt (mark_transited set_transited_flag f))
    else if validate then
      Ok (mkTimes (authtime enc_tkt) (default (authtime enc_tkt) (starttime enc_tkt))
            (endtime enc_tkt) (renew_till enc_tkt) (mark_transited set_transited_flag tflags))
    else
      let start := request_start body now in
      let? e := kdc_get_ticket_endtime start (Some (endtime enc_tkt)) (till body) tgs_client server in
      let '(rt, f) := kdc_get_ticket_renewtime body (Some enc_tkt) tgs_client server
                        (mark_transited set_transited_flag tflags) start e in
      Ok (mkTimes subject_authtime start e rt f) in
  Ok (if s4u2self_here
      then mkTimes (t_authtime t) (t_starttime t) (t_end t) (t_renew_till t)
             (s4u2self_forwardable server (t_flags t))
      else t).

(** The ticket as the header of a later request. *)
Definition as_header (t : TgsTimes) : EncTicketPart :=
  mkPart (t_flags t) (t_authtime t) (Some (t_starttime t)) (t_end t) (t_renew_till t).

End TgsTimes.

(** ** Lifetimes *)

Lemma unix_seconds_u32 t : is_u32 (Time.unix_seconds t).
Proof. unfold Time.unix_seconds, is_u32, U32_MAX. case_match; to_prop; lia. Qed.

Lemma unix_seconds_id t : is_u32 t -> Time.unix_seconds t = t.
Proof.
  unfold Time.unix_seconds, is_u32, U32_MAX. intros H. rewrite Z.max_l by lia.
  by rewrite (proj2 (Z.leb_le t _)) by lia.
Qed.

Lemma unix_seconds_mono a b : a <= b -> Time.unix_seconds a <= Time.unix_seconds b.
Proof. unfold Time.unix_seconds, U32_MAX. intros H. repeat case_match; to_prop; lia. Qed.

(** With the times within 2^31 of each other one way, the lifetime is the
    difference, saturated. *)
Lemma lifetime_spec until start :
  is_u32 until -> is_u32 start -> start - 2 ^ 31 <= until ->
  lifetime until start = Z.min (until - start) I32_MAX.
Proof.
  unfold is_u32, lifetime, wrapping_sub, cast_signed, I32_MAX. intros Hu Hs Hg.
  change (2 ^ (32 - 1)) with (2 ^ 31).
  destruct (decide (start <= until)) as [Hle|Hgt].
  - rewrite Z.mod_small by lia. destruct (until - start <? 2 ^ 31) eqn:E; to_prop.
    + rewrite (proj2 (Z.ltb_ge (until - start) 0)) by lia. rewrite andb_false_r. lia.
    + rewrite (proj2 (Z.ltb_lt start until)) by lia.
      rewrite (proj2 (Z.ltb_lt (until - start - 2 ^ 32) 0)) by lia. cbn [andb]. lia.
  - replace ((until - start) mod 2 ^ 32) with (until - start + 2 ^ 32)
      by (apply (Z.mod_unique _ _ (-1)); lia).
    rewrite (proj2 (Z.ltb_ge (until - start + 2 ^ 32) (2 ^ 31))) by lia.
    rewrite (proj2 (Z.ltb_ge start until)) by lia. cbn [andb]. lia.
Qed.

(** The end a request asks for: the header's end caps the requested time. *)
Definition until_of (header_end : option Z) (till : Z) : Z :=
  if Time.unix_seconds till =? 0 then default U32_MAX (Time.unix_seconds <$> header_end)
  else match Time.unix_seconds <$> header_end with
       | Some h => Z.min (Time.unix_seconds till) h
       | None => Time.unix_seconds till
       end.

Lemma until_of_u32 header_end till : is_u32 (until_of header_end till).
Proof.
  unfold until_of. pose proof (unix_seconds_u32 till) as H1.
  destruct header_end as [h|]; cbn [fmap option_fmap option_map default from_option id].
  - pose proof (unix_seconds_u32 h) as H2. unfold is_u32 in *. case_match; lia.
  - case_match; [done|done].
Qed.

Lemma until_of_header h till : until_of (Some h) till <= Time.unix_seconds h.
Proof. unfold until_of. cbn [fmap option_fmap option_map default from_option id]. case_match; lia. Qed.

(** A positive configured lifetime caps the ticket's. *)
Definition cap (m life : Z) : Z := if 0 <? m then Z.min life (as_i64 m) else life.

Lemma cap_le m life : cap m life <= life.
Proof. unfold cap. case_match; lia. Qed.

Lemma cap_limit m life : 0 < m -> cap m life <= m.
Proof.
  intros Hm. unfold cap, as_i64. rewrite (proj2 (Z.ltb_lt 0 m)) by lia.
  case_match; to_prop; lia.
Qed.

Lemma cap_lower m life : Z.min life 0 <= cap m life.
Proof.
  unfold cap, as_i64, Time.I64_MAX. case_match; to_prop; [case_match; to_prop|]; lia.
Qed.

Section Endtime.
Context `{Chrono} `{!ChronoLaws} `{PrincipalRead}.

(** [kdc_get_ticket_endtime] as a chain of caps. *)
Lemma endtime_caps start header_end till client server :
  is_u32 start -> start - 2 ^ 31 <= until_of header_end till ->
  kdc_get_ticket_endtime start header_end till client server
  = Ok (start + cap (realm_max_life policy) (cap (max_life server)
      (match client with Some c => cap (max_life c) | None => fun l => l end
         (Z.min (until_of header_end till - start) I32_MAX)))).
Proof.
  intros Hs Hg. unfold kdc_get_ticket_endtime. rewrite (unix_seconds_id start) by done.
  fold (until_of header_end till). rewrite lifetime_spec by (done || apply until_of_u32).
  set (l0 := Z.min _ I32_MAX).
  assert (- 2 ^ 31 <= l0 < 2 ^ 31) as Hl0.
  { pose proof (until_of_u32 header_end till). unfold l0, is_u32, I32_MAX in *. lia. }
  set (l1 := match client with
             | Some c => if 0 <? max_life c then Z.min l0 (as_i64 (max_life c)) else l0
             | None => l0 end).
  replace (match client with Some c => cap (max_life c) | None => fun l => l end l0) with l1
    by (unfold l1, cap; by destruct client).
  assert (Z.min l0 0 <= l1 <= l0) as Hl1.
  { unfold l1. destruct client as [c|]; [|lia].
    pose proof (cap_le (max_life c) l0). pose proof (cap_lower (max_life c) l0). unfold cap in *. lia. }
  fold (cap (max_life server) l1). set (l2 := cap (max_life server) l1).
  fold (cap (realm_max_life policy) l2). set (l3 := cap (realm_max_life policy) l2).
  assert (- 2 ^ 31 <= l3 < 2 ^ 31) as Hl3.
  { pose proof (cap_le (max_life server) l1) as A1. pose proof (cap_lower (max_life server) l1) as A2.
    pose proof (cap_le (realm_max_life policy) l2) as A3.
    pose proof (cap_lower (realm_max_life policy) l2) as A4.
    fold l2 in A1, A2. fold l3 in A3, A4. lia. }
  unfold Time.add_seconds. unfold is_u32 in Hs. by rewrite checked_add_near by lia.
Qed.

Lemma lifetime_range until start : - 2 ^ 31 <= lifetime until start <= I32_MAX.
Proof.
  unfold lifetime, wrapping_sub, cast_signed, I32_MAX. change (2 ^ (32 - 1)) with (2 ^ 31).
  pose proof (Z.mod_pos_bound (until - start) (2 ^ 32) ltac:(done)).
  destruct (_ mod _ <? 2 ^ 31) eqn:E; to_prop; destruct (_ && _); lia.
Qed.

(** Whatever end is asked for, each positive lifetime limits the ticket. *)
Lemma endtime_limits start header_end till client server e :
  is_u32 start -> kdc_get_ticket_endtime start header_end till client server = Ok e ->
  (forall c, client = Some c -> 0 < max_life c -> e <= start + max_life c) /\
  (0 < max_life server -> e <= start + max_life server) /\
  (0 < realm_max_life policy -> e <= start + realm_max_life policy).
Proof.
  intros Hs. unfold kdc_get_ticket_endtime. rewrite (unix_seconds_id start) by done.
  pose proof (lifetime_range (until_of header_end till) start) as Hr. fold (until_of header_end till).
  set (l0 := lifetime _ start) in *.
  set (l1 := match client with
             | Some c => if 0 <? max_life c then Z.min l0 (as_i64 (max_life c)) else l0
             | None => l0 end).
  assert (Z.min l0 0 <= l1 <= l0 /\ forall c, client = Some c -> 0 < max_life c -> l1 <= max_life c) as [Hl1 Hc].
  { unfold l1. destruct client as [c|]; [|split; [lia|done]].
    pose proof (cap_le (max_life c) l0). pose proof (cap_lower (max_life c) l0). fold (cap (max_life c) l0).
    split; [lia|]. intros c' [= <-] Hm. by apply cap_limit. }
  fold (cap (max_life server) l1). set (l2 := cap (max_life server) l1).
  fold (cap (realm_max_life policy) l2). set (l3 := cap (realm_max_life policy) l2).
  pose proof (cap_le (max_life server) l1) as A1. pose proof (cap_lower (max_life server) l1) as A2.
  pose proof (cap_le (realm_max_life policy) l2) as A3. pose proof (cap_lower (realm_max_life policy) l2) as A4.
  fold l2 in A1, A2. fold l3 in A3, A4. unfold I32_MAX, is_u32 in *.
  unfold Time.add_seconds. rewrite checked_add_near by lia. intros [= <-].
  pose proof (fun Hm => cap_limit (max_life server) l1 Hm) as A5.
  pose proof (fun Hm => cap_limit (realm_max_life policy) l2 Hm) as A6. fold l2 in A5. fold l3 in A6.
  split_and!; [intros c Ec Hm; specialize (Hc c Ec Hm); lia|intros Hm; specialize (A5 Hm); lia|intros Hm; specialize (A6 Hm); lia].
Qed.

End Endtime.

(** ** Ticket flags *)

Definition len32 (f : list bool) : Prop := length f = 32%nat.

Lemma len32_none : len32 Flags.none.
Proof. done. Qed.

Lemma len32_set_if c n on f : len32 f -> len32 (set_if c n on f).
Proof. unfold len32, set_if. destruct c; [by rewrite Flags.length_with_bit|done]. Qed.

#[local] Hint Resolve len32_none len32_set_if : krb.

Lemma bit_set_if c f n on m :
  len32 f -> (n < 32)%nat ->
  Flags.bit (set_if c n on f) m = if (n =? m)%nat && c then on else Flags.bit f m.
Proof.
  unfold len32, set_if. intros Hl Hn. rewrite andb_comm. destruct c; cbn [andb]; [|done].
  rewrite Flags.bit_with_bit, Hl, (proj2 (Nat.ltb_lt n 32)) by done.
  destruct (Nat.eqb_spec n m); by case_decide.
Qed.

(** What each flag of an issued ticket means, for a request that neither
    validates nor renews. *)
Definition flag_spec (req : list bool) (client : option Principal) (server : Principal)
    (header : option (list bool)) (n : nat) : bool :=
  let disallowed := fun b => attr server b || client_attr client b in
  let held := fun n => match header with Some h => Flags.bit h n | None => true end in
  let copied := fun n => match header with Some h => Flags.bit h n | None => false end in
  if (n =? flag_bit.FORWARDABLE)%nat
  then Flags.bit req n && held n && negb (disallowed KDB_DISALLOW_FORWARDABLE)
  else if (n =? flag_bit.PROXIABLE)%nat
  then Flags.bit req n && held n && negb (disallowed KDB_DISALLOW_PROXIABLE)
  else if (n =? flag_bit.FORWARDED)%nat || (n =? flag_bit.PROXY)%nat
  then Flags.bit req n || copied n
  else if (n =? flag_bit.MAY_POSTDATE)%nat || (n =? flag_bit.POSTDATED)%nat then Flags.bit req n
  else if (n =? flag_bit.INVALID)%nat then Flags.bit req flag_bit.POSTDATED
  else if (n =? flag_bit.INITIAL)%nat then negb (bool_decide (is_Some header))
  else if (n =? flag_bit.PRE_AUTHENT)%nat || (n =? flag_bit.HW_AUTHENT)%nat then copied n
  else if (n =? flag_bit.OK_AS_DELEGATE)%nat
  then bool_decide (is_Some header) && attr server KDB_OK_AS_DELEGATE
  else if (n =? flag_bit.ENC_PA_REP)%nat then true
  else if (n =? flag_bit.ANONYMOUS)%nat
  then match header with Some h => Flags.bit h n | None => Flags.bit req n end
  else false.

Ltac unfold_flags :=
  unfold flag_bit.FORWARDABLE, flag_bit.FORWARDED, flag_bit.PROXIABLE, flag_bit.PROXY,
    flag_bit.MAY_POSTDATE, flag_bit.POSTDATED, flag_bit.INVALID, flag_bit.INITIAL,
    flag_bit.PRE_AUTHENT, flag_bit.HW_AUTHENT, flag_bit.OK_AS_DELEGATE, flag_bit.ENC_PA_REP, flag_bit.ANONYMOUS.

Ltac flag_lt := apply Nat.ltb_lt; reflexivity.

Lemma len32_ticket_flags req client server header :
  (forall h, header = Some h -> len32 h) -> len32 (get_ticket_flags req client server header).
Proof.
  intros Hh. unfold get_ticket_flags. cbv zeta.
  destruct header as [h|]; [specialize (Hh h eq_refl)|];
    [destruct (Flags.bit req flag_bit.VALIDATE || Flags.bit req flag_bit.RENEW)|];
    cbn [foldl]; auto 30 with krb.
Qed.

Lemma ticket_flags_bits req client server header n :
  match header with
  | Some _ => Flags.bit req flag_bit.VALIDATE || Flags.bit req flag_bit.RENEW = false
  | None => True
  end -> (n < 32)%nat ->
  Flags.bit (get_ticket_flags req client server header) n = flag_spec req client server header n.
Proof.
  intros Hreq Hn. unfold get_ticket_flags. cbv zeta.
  destruct header as [h|]; [rewrite Hreq|]; cbn [foldl];
    repeat (rewrite bit_set_if; [|solve [auto 30 with krb]|solve [flag_lt]]);
    rewrite Flags.bit_none; unfold flag_spec; unfold_flags; revert Hn;
    do 32 (destruct n as [|n]; [intros _; cbn -[Flags.bit attr client_attr]; try reflexivity;
      repeat match goal with |- context [Flags.bit ?f ?i] => destruct (Flags.bit f i) end;
      repeat match goal with |- context [attr ?p ?b] => destruct (attr p b) end;
      repeat match goal with |- context [client_attr ?p ?b] => destruct (client_attr p b) end;
      reflexivity|]); lia.
Qed.

(** every flag of an issued ticket.  A validated or renewed ticket keeps the
    header ticket's flags with INVALID cleared.  Otherwise a ticket is forwardable
    (or proxiable) only if that was asked for, the header ticket is, and neither
    the client's nor the server's entry forbids it; FORWARDED and PROXY are asked
    for or inherited; pre-authentication and anonymity of a TGS ticket come from
    the header ticket alone; INITIAL is set exactly in the AS exchange; a
    postdated ticket starts INVALID; OK-AS-DELEGATE follows the server's entry in
    the TGS exchange; and every other flag is clear. *)
Theorem ticket_flags_meaning (req : list bool) (client : option Principal) (server : Principal)
    (header : option (list bool)) (n : nat) :
  (n < 32)%nat -> (forall h, header = Some h -> length h = 32%nat) ->
  Flags.bit (get_ticket_flags req client server header) n =
  match header with
  | Some h =>
      if Flags.bit req flag_bit.VALIDATE || Flags.bit req flag_bit.RENEW
      then (if (n =? flag_bit.INVALID)%nat then false else Flags.bit h n)
      else flag_spec req client server header n
  | None => flag_spec req client server header n
  end.
Proof.
  intros Hn Hlen. destruct header as [h|]; [|by apply ticket_flags_bits].
  destruct (_ || _) eqn:Ev; [|by apply ticket_flags_bits].
  unfold get_ticket_flags. rewrite Ev. rewrite bit_set_if; [|by apply Hlen|flag_lt].
  rewrite andb_true_r, Nat.eqb_sym. done.
Qed.

Lemma ticket_flags_meaning_witness :
  let h := Flags.with_bit Flags.none flag_bit.PROXIABLE true in
  let req := Flags.with_bit h flag_bit.FORWARDABLE true in
  Flags.bit (get_ticket_flags req None Lockout.sample_principal (Some h)) flag_bit.FORWARDABLE = false /\
  Flags.bit (get_ticket_flags req None Lockout.sample_principal (Some h)) flag_bit.PROXIABLE = true.
Proof.
  intros h req. split.
  - rewrite (ticket_flags_meaning req None Lockout.sample_principal (Some h) flag_bit.FORWARDABLE);
      [reflexivity|flag_lt|intros ? [= <-]; reflexivity].
  - rewrite (ticket_flags_meaning req None Lockout.sample_principal (Some h) flag_bit.PROXIABLE);
      [reflexivity|flag_lt|intros ? [= <-]; reflexivity].
Defined.

(** ** Renewal *)

Section Renewal.
Context `{Chrono} `{!ChronoLaws} `{PrincipalRead}.

(** The renew-till time exists exactly when the ticket is flagged renewable, no
    other flag changes, and it is within what was asked, the header's own
    renew-till and each renewable lifetime. *)
Lemma renewtime_spec body header client server fl start e :
  len32 fl ->
  let '(rt, f) := kdc_get_ticket_renewtime body header client server fl start e in
  len32 f /\
  (forall n, Flags.bit f n = if (n =? flag_bit.RENEWABLE)%nat then bool_decide (is_Some rt)
                             else Flags.bit fl n) /\
  forall r, rt = Some r ->
    is_u32 r /\
    (forall h, header = Some h -> Flags.bit (flags h) flag_bit.RENEWABLE = true /\
       forall t, renew_till h = Some t -> r <= Time.unix_seconds t).
Proof.
  intros Hl. assert (forall on n, Flags.bit (Flags.with_bit fl flag_bit.RENEWABLE on) n
    = if (n =? flag_bit.RENEWABLE)%nat then on else Flags.bit fl n) as Hb.
  { intros on n. change (Flags.with_bit fl flag_bit.RENEWABLE on) with (set_if true flag_bit.RENEWABLE on fl).
    rewrite bit_set_if by (done || flag_lt). by rewrite andb_true_r, Nat.eqb_sym. }
  assert (forall on, Flags.with_bit (Flags.with_bit fl flag_bit.RENEWABLE false) flag_bit.RENEWABLE on
    = Flags.with_bit fl flag_bit.RENEWABLE on) as Hbb.
  { intros on. unfold Flags.with_bit. rewrite Hl. cbn [Nat.ltb Nat.leb flag_bit.RENEWABLE].
    rewrite length_insert, Hl. apply list_insert_insert_eq. }
  assert (forall on, len32 (Flags.with_bit fl flag_bit.RENEWABLE on)) as Hl'
    by (intros on; by apply (len32_set_if true)).
  unfold kdc_get_ticket_renewtime. cbv zeta.
  destruct (attr server KDB_DISALLOW_RENEWABLE || _); [by split_and!|].
  destruct (match header with Some h => _ | None => false end) eqn:Eh; [by split_and!|].
  destruct (if opt body flag_bit.RENEWABLE then _ else _) as [rt|]; [|by split_and!].
  set (r1 := match header with Some h => _ | None => _ end).
  set (r2 := match Time.add_seconds _ _ with Some c => _ | None => r1 end).
  destruct (negb (opt body flag_bit.RENEWABLE) && _); [by split_and!|].
  rewrite Hbb. split_and!; [done|intros n; by rewrite Hb|]. intros r [= <-].
  pose proof (unix_seconds_u32 rt) as Hrt.
  assert (is_u32 r1 /\ forall h t, header = Some h -> renew_till h = Some t -> r1 <= Time.unix_seconds t)
    as [Hu1 Hle1].
  { unfold r1. destruct header as [h|]; [|done]. destruct (renew_till h) as [t|] eqn:Et.
    - pose proof (unix_seconds_u32 t). unfold is_u32 in *. split; [lia|].
      intros h' t' [= <-] Ht'. rewrite Et in Ht'. injection Ht' as <-. lia.
    - split; [done|]. intros h' t' [= <-] Ht'. by rewrite Et in Ht'. }
  assert (is_u32 r2 /\ r2 <= r1) as [Hu2 Hle2].
  { unfold r2. destruct (Time.add_seconds _ _) as [c|]; [|done].
    pose proof (unix_seconds_u32 c). unfold is_u32 in *. lia. }
  split; [done|]. intros h Hh. rewrite Hh in Eh. to_prop. split; [done|].
  intros t Ht. specialize (Hle1 h t Hh Ht). unfold Time.from_unix_seconds. lia.
Qed.

End Renewal.

(** ** Chains of tickets *)

(** A header ticket as this KDC issues them: a renewable ticket has a renew-till
    time. *)
Definition header_ok (h : EncTicketPart) : Prop :=
  len32 (flags h) /\ (Flags.bit (flags h) flag_bit.RENEWABLE = true -> is_Some (renew_till h)).

(** The last second a ticket, or anything got from it, can be used. *)
Definition limit (h : EncTicketPart) : Z :=
  Z.max (Time.unix_seconds (endtime h))
        (match renew_till h with Some r => Time.unix_seconds r | None => 0 end).

Lemma bit_mark_transited st f n :
  len32 f -> n <> flag_bit.TRANSITED_POLICY_CHECKED ->
  Flags.bit (mark_transited st f) n = Flags.bit f n /\ len32 (mark_transited st f).
Proof.
  intros Hl Hn. unfold mark_transited.
  change (if st then Flags.with_bit f flag_bit.TRANSITED_POLICY_CHECKED true else f)
    with (set_if st flag_bit.TRANSITED_POLICY_CHECKED true f).
  split; [|by apply len32_set_if]. rewrite bit_set_if by (done || flag_lt).
  by rewrite (proj2 (Nat.eqb_neq _ _)) by done.
Qed.

Lemma bit_s4u2self_forwardable server f n :
  len32 f -> n <> flag_bit.FORWARDABLE ->
  Flags.bit (s4u2self_forwardable server f) n = Flags.bit f n /\ len32 (s4u2self_forwardable server f).
Proof.
  intros Hl Hn. unfold s4u2self_forwardable. destruct (_ || _); [done|].
  change (Flags.with_bit f flag_bit.FORWARDABLE false) with (set_if true flag_bit.FORWARDABLE false f).
  split; [|by apply len32_set_if]. rewrite bit_set_if by (done || flag_lt).
  by rewrite (proj2 (Nat.eqb_neq _ _)) by done.
Qed.

(** The flags of a header survive the policy with RENEWABLE only if it had it. *)
Lemma ticket_flags_renewable req client server h :
  len32 h -> Flags.bit (get_ticket_flags req client server (Some h)) flag_bit.RENEWABLE = true ->
  Flags.bit h flag_bit.RENEWABLE = true.
Proof.
  intros Hl. destruct (Flags.bit req flag_bit.VALIDATE || Flags.bit req flag_bit.RENEW) eqn:Ev.
  - unfold get_ticket_flags. rewrite Ev. rewrite bit_set_if by (done || flag_lt). done.
  - rewrite ticket_flags_bits by (done || flag_lt). done.
Qed.

Section Chain.
Context `{Chrono} `{!ChronoLaws} `{PrincipalRead}.

(** The ticket [h'] that a TGS request (a renewal, a validation or for a new ticket)
    with the body [body], made at [now] with the ticket [h], is answered with.  The
    clock and the requested start are times of the wire, 32 bits of seconds. *)
Inductive issued (renew validate : bool) (body : KdcReqBody) (now : Z) (h h' : EncTicketPart) : Prop :=
| tgs_issue client server subject_authtime st s4 t :
    is_u32 now -> (forall f, from body = Some f -> is_u32 f) ->
    tgs_times renew validate body h client server subject_authtime now st s4 = Ok t ->
    h' = as_header t -> issued renew validate body now h h'.

(** A new ticket would start more than 2^31 seconds after the end it may have.  The
    source subtracts the two as 32-bit numbers and takes the difference as signed,
    so that such an end counts as one after the start. *)
Definition wraps (renew validate : bool) (body : KdcReqBody) (now : Z) (h : EncTicketPart) : Prop :=
  renew = false /\ validate = false /\
  until_of (Some (endtime h)) (till body) < request_start body now - 2 ^ 31.

#[export] Instance wraps_dec renew validate body now h : Decision (wraps renew validate body now h).
Proof. unfold wraps. apply _. Defined.

(** A request, and one that wraps. *)
Definition tgs_step (h h' : EncTicketPart) : Prop :=
  exists renew validate body now, issued renew validate body now h h'.
Definition wrapping_step (h h' : EncTicketPart) : Prop :=
  exists renew validate body now, issued renew validate body now h h' /\ wraps renew validate body now h.

Lemma request_start_u32 body now :
  is_u32 now -> (forall f, from body = Some f -> is_u32 f) -> is_u32 (request_start body now).
Proof using Type.
  intros Hn Hf. unfold request_start. destruct (opt body flag_bit.POSTDATED); [|done].
  destruct (from body) as [f|]; [by apply Hf|done].
Qed.

(** A ticket with a renew-till within the header's, and flagged renewable only
    with it. *)
Definition within (h : EncTicketPart) (t : TgsTimes) : Prop :=
  len32 (t_flags t) /\
  (Flags.bit (t_flags t) flag_bit.RENEWABLE = true -> is_Some (t_renew_till t)) /\
  limit (as_header t) <= limit h.

Lemma within_renewed h body client server fl start e au st (g : list bool -> list bool) :
  header_ok h -> len32 fl ->
  (forall f, len32 f -> len32 (g f) /\
     Flags.bit (g f) flag_bit.RENEWABLE = Flags.bit f flag_bit.RENEWABLE) ->
  Time.unix_seconds e <= limit h ->
  let '(rt, f) := kdc_get_ticket_renewtime body (Some h) client server fl start e in
  within h (mkTimes au st e rt (g f)).
Proof using Type*.
  intros [Hl Hr] Hfl Hg He.
  pose proof (renewtime_spec body (Some h) client server fl start e Hfl) as Hs.
  destruct (kdc_get_ticket_renewtime _ _ _ _ _ _ _) as [rt f]. destruct Hs as (Hlf & Hb & Hrt).
  destruct (Hg f Hlf) as [Hg1 Hg2]. unfold within. cbn [t_flags t_renew_till].
  split_and!; [done|rewrite Hg2, Hb; cbn; intros Hd; by to_prop|].
  unfold limit, as_header. cbn [endtime renew_till t_end t_renew_till]. unfold limit in He.
  destruct rt as [r|]; [|pose proof (unix_seconds_u32 e); unfold is_u32 in *; lia].
  destruct (Hrt r eq_refl) as [Hu Hh]. destruct (Hh h eq_refl) as [Hren Hle].
  destruct (Hr Hren) as [t Ht]. rewrite Ht in *. specialize (Hle t eq_refl).
  rewrite (unix_seconds_id r) by done. lia.
Qed.

Lemma within_s4u2self h t server :
  within h t ->
  within h (mkTimes (t_authtime t) (t_starttime t) (t_end t) (t_renew_till t)
              (s4u2self_forwardable server (t_flags t))).
Proof using Type.
  intros (Hl & Hr & Hlim). unfold within, limit in *. cbn [t_flags t_renew_till as_header] in *.
  destruct (bit_s4u2self_forwardable server (t_flags t) flag_bit.RENEWABLE Hl) as [Hb Hl'];
    [done|]. by rewrite Hb.
Qed.

Lemma endtime_within start header_end till client server e :
  is_u32 start -> start - 2 ^ 31 <= until_of header_end till ->
  kdc_get_ticket_endtime start header_end till client server = Ok e ->
  e <= until_of header_end till.
Proof using Type*.
  intros Hs Hg. rewrite endtime_caps by done. intros [= <-].
  set (l0 := Z.min _ I32_MAX).
  pose proof (cap_le (realm_max_life policy) (cap (max_life server)
    (match client with Some c => cap (max_life c) | None => fun l => l end l0))).
  pose proof (cap_le (max_life server)
    (match client with Some c => cap (max_life c) | None => fun l => l end l0)).
  assert (match client with Some c => cap (max_life c) | None => fun l => l end l0 <= l0).
  { destruct client as [c|]; [apply cap_le|lia]. }
  unfold l0 in *. lia.
Qed.

Lemma tgs_times_within renew validate body h client server au now st s4 t :
  header_ok h -> is_u32 now -> (forall f, from body = Some f -> is_u32 f) ->
  ~ wraps renew validate body now h ->
  tgs_times renew validate body h client server au now st s4 = Ok t -> within h t.
Proof using Type*.
  intros Hok Hn Hf Hg. pose proof Hok as [Hl Hren]. unfold tgs_times.
  set (tf := get_ticket_flags _ _ _ _).
  assert (len32 tf) as Htf by (apply len32_ticket_flags; by intros ? [= <-]).
  assert (forall f, len32 f -> len32 (mark_transited st f) /\
    Flags.bit (mark_transited st f) flag_bit.RENEWABLE = Flags.bit f flag_bit.RENEWABLE) as Hmt.
  { intros f Hlf. by destruct (bit_mark_transited st f flag_bit.RENEWABLE Hlf). }
  intros Ht.
  assert (forall r : result KdcError TgsTimes, (forall t0, r = Ok t0 -> within h t0) ->
    (let? t0 := r in Ok (if s4 then mkTimes (t_authtime t0) (t_starttime t0) (t_end t0)
       (t_renew_till t0) (s4u2self_forwardable server (t_flags t0)) else t0)) = Ok t -> within h t)
    as Hfin.
  { intros [t0|] Ht0 Hr; [|done]. injection Hr as <-. specialize (Ht0 t0 eq_refl).
    destruct s4; [by apply within_s4u2self|done]. }
  revert Ht. apply Hfin. intros t0. destruct renew; [|destruct validate].
  - destruct (Flags.bit (flags h) flag_bit.RENEWABLE) eqn:Er; [|done]. cbn [negb].
    set (start := request_start body now). set (e := match renew_till h with Some t1 => _ | None => _ end).
    assert (Time.unix_seconds e <= limit h) as He.
    { destruct (Hren eq_refl) as [rt Hrt]. unfold e, limit. rewrite Hrt.
      destruct (Time.unix_seconds rt <? _) eqn:E; to_prop; lia. }
    pose proof (within_renewed h body client server tf start e (authtime h) start
                  (mark_transited st) Hok Htf Hmt He) as Hw.
    destruct (kdc_get_ticket_renewtime _ _ _ _ _ _ _) as [rt f]. by intros [= <-].
  - intros [= <-]. unfold within, limit. cbn [t_flags t_renew_till as_header endtime renew_till t_end].
    destruct (Hmt tf Htf) as [Hm1 Hm2]. rewrite Hm2. split_and!; [done| |lia].
    intros Hb. apply Hren. by eapply ticket_flags_renewable.
  - set (start := request_start body now).
    destruct (kdc_get_ticket_endtime _ _ _ _ _) as [e|] eqn:Ee; [|done].
    assert (Time.unix_seconds e <= limit h) as He.
    { apply endtime_within in Ee; [|by apply request_start_u32|unfold wraps in Hg; fold start in Hg; lia].
      apply unix_seconds_mono in Ee. rewrite (unix_seconds_id (until_of _ _)) in Ee by apply until_of_u32.
      pose proof (until_of_header (endtime h) (till body)). unfold limit. lia. }
    pose proof (within_renewed h body client server (mark_transited st tf) start e au start
                  (fun f => f) Hok (proj1 (Hmt tf Htf)) (fun f Hf => conj Hf eq_refl) He) as Hw.
    destruct (kdc_get_ticket_renewtime _ _ _ _ _ _ _) as [rt f]. by intros [= <-].
Qed.

(** C16: no chain of TGS requests outlives the ticket it started from, whatever the
    requests ask (new tickets, validation, renewal, S4U2Self), unless one of them asks
    for a ticket that starts more than 2^31 seconds (68 years) after the end it may
    have.  Up to the first such request every ticket got in turn from the one before
    ends, and is renewable, no later than the later of the first ticket's end and its
    renew-till time, and is flagged renewable only with a renew-till time.  (The
    exception is real: see [postdated_outlives].) *)
Theorem tgs_chain_never_outlives (h h' : EncTicketPart) :
  header_ok h -> rtc tgs_step h h' ->
  (limit h' <= limit h /\ header_ok h') \/
  exists h1 h2, rtc tgs_step h h1 /\ limit h1 <= limit h /\ header_ok h1 /\ wrapping_step h1 h2 /\ rtc tgs_step h2 h'.
Proof using Type*.
  intros Hok Hr. induction Hr as [h|h h1 h2 Hs Hr IH]; [left; split; [lia|done]|].
  pose proof Hs as (renew & validate & body & now & Hi).
  destruct (decide (wraps renew validate body now h)) as [Hw|Hw].
  { right. exists h, h1. split_and!; [done|lia|done| |done]. by exists renew, validate, body, now. }
  destruct Hi as [client server au st s4 t Hn Hf Ht ->].
  destruct (tgs_times_within _ _ _ _ _ _ _ _ _ _ _ Hok Hn Hf Hw Ht) as (Hl & Hren & Hlim).
  destruct IH as [[IH1 IH2]|(h3 & h4 & Hr3 & Hl3 & Hrest)]; [by split|left; split; [lia|done]|].
  right. exists h3, h4. split; [by eapply rtc_l|]. split; [lia|done].
Qed.

End Chain.

(** A renewable ticket from 1000 to 2000, renewable till 5000. *)
Definition sample_header : EncTicketPart :=
  mkPart (Flags.with_bit Flags.none flag_bit.RENEWABLE true) 1000 None 2000 (Some 5000).

(** Renewed at 1500, as asked with the RENEW and RENEWABLE options. *)
Definition sample_renew : KdcReqBody :=
  mkBody (Flags.with_bit (Flags.with_bit Flags.none flag_bit.RENEW true) flag_bit.RENEWABLE true)
    None None 0 None.

Definition sample_server : Principal :=
  mkPrincipal (PrincipalName.mkName 2 [[x68]; [x78]]) [x52] [] [] [] 0 0 0 100000 0 0 0 0 1 38
    [] [] 0 [] [] None default_kadm [].

Definition sample_policy : PrincipalRead := {|
  store_realm := [x52];
  policy := mkPolicy 86400 604800 300 false false false None false false false;
  named_policy_for := fun _ => None;
|}.

Lemma tgs_chain_never_outlives_witness :
  exists h', rtc (@tgs_step ToyChrono sample_policy) sample_header h' /\
    endtime h' = 2500 /\ renew_till h' = Some 5000 /\
    (limit h' <= limit sample_header /\ header_ok h' \/
     exists h1 h2, rtc (@tgs_step ToyChrono sample_policy) sample_header h1 /\ limit h1 <= limit sample_header /\
       header_ok h1 /\ @wrapping_step ToyChrono sample_policy h1 h2 /\ rtc (@tgs_step ToyChrono sample_policy) h2 h').
Proof.
  eexists (mkPart _ 1000 (Some 1500) 2500 (Some 5000)).
  assert (rtc (@tgs_step ToyChrono sample_policy) sample_header
    (mkPart (flags sample_header) 1000 (Some 1500) 2500 (Some 5000))) as Hr.
  { apply rtc_once. exists true, false, sample_renew, 1500. eapply (tgs_issue _ _ _ _ _ _ None sample_server 0 false false);
      [done|done|vm_compute; reflexivity|vm_compute; reflexivity]. }
  split; [exact Hr|]. split; [done|]. split; [done|].
  apply (@tgs_chain_never_outlives ToyChrono ToyChronoLaws sample_policy sample_header); [by split|exact Hr].
Defined.

(** A postdated request that starts in 2065 and asks for an end in 1970. *)
Definition sample_postdated : KdcReqBody :=
  mkBody (Flags.with_bit Flags.none flag_bit.POSTDATED true) None (Some 3000000000) 1 None.

(** The ticket it gets outlives the one it was asked for with. *)
Example postdated_outlives :
  exists h', @issued ToyChrono sample_policy false false sample_postdated 1500 sample_header h' /\
    endtime h' = 3000086400 /\ limit sample_header = 5000.
Proof.
  destruct (@tgs_times ToyChrono sample_policy false false sample_postdated sample_header None sample_server 0 1500
    false false) as [t|] eqn:Et; [|by vm_compute in Et].
  exists (as_header t). split; [by eapply tgs_issue; [| |exact Et|]; [|intros f [= <-]|]|].
  vm_compute in Et. injection Et as <-. by split.
Qed.

(** ** The session enctype *)

(** An enctype the realm lets a session key have. *)
Definition allowed_etype (pol : Policy) (e : EncryptionType) : Prop :=
  Keys.etype_permitted pol e = true /\ (e = Des3CbcSha1 -> allow_des3 pol = true) /\
  (e = Rc4Hmac -> allow_rc4 pol = true).

(** The enctypes of the server's session_enctypes attribute, if it names any. *)
Definition session_enctypes (pol : Policy) (server : Principal) : option (list EncryptionType) :=
  match List.find (fun kv => bool_decide (fst kv = EncList.lit "session_enctypes"))
          (string_attrs server) with
  | Some (_, raw) =>
      if bool_decide (raw = []) then None else EncList.parse_enctype_list raw (allow_weak_crypto pol)
  | None => None
  end.

(** The server has a key of enctype [e] at its newest version. *)
Definition has_current_key (server : Principal) (e : EncryptionType) : Prop :=
  exists k, k ∈ keys server /\ ke_etype k = e /\ forall k', k' ∈ keys server -> kvno k' <= kvno k.

Definition usable_etype (pol : Policy) (server : Principal) (e : EncryptionType) : Prop :=
  allowed_etype pol e /\
  match session_enctypes pol server with
  | Some l => e ∈ l
  | None => e = Aes256CtsHmacSha196 \/ has_current_key server e
  end.

Lemma top_kvno_spec ks :
  match Keys.top_kvno ks with
  | None => ks = []
  | Some top => (exists k, k ∈ ks /\ kvno k = top) /\ forall k, k ∈ ks -> kvno k <= top
  end.
Proof.
  unfold Keys.top_kvno. destruct ks as [|k0 ks]; [done|].
  assert (forall m, (fold_left (fun m k => Z.max m (kvno k)) ks m = m \/
     exists k, k ∈ ks /\ kvno k = fold_left (fun m k => Z.max m (kvno k)) ks m) /\
     m <= fold_left (fun m k => Z.max m (kvno k)) ks m /\
     forall k, k ∈ ks -> kvno k <= fold_left (fun m k => Z.max m (kvno k)) ks m) as H.
  { induction ks as [|k ks IH]; intros m.
    { cbn. split; [by left|]. split; [lia|]. intros k Hk. by apply not_elem_of_nil in Hk. }
    cbn [fold_left]. destruct (IH (Z.max m (kvno k))) as (Ha & Hb & Hc).
    set (F := fold_left _ ks _) in *. split; [|split; [lia|]].
    - destruct Ha as [Ha|(k' & Hk' & He)].
      + destruct (Z.max_spec m (kvno k)) as [[_ Hm]|[_ Hm]]; [|left; lia].
        right. exists k. split; [apply elem_of_cons; by left|lia].
      + right. exists k'. split; [apply elem_of_cons; by right|done].
    - intros k' Hk'. apply elem_of_cons in Hk' as [->|Hk']; [lia|by apply Hc]. }
  destruct (H (kvno k0)) as (Ha & Hb & Hc). split.
  - destruct Ha as [Ha|(k & Hk & He)].
    + exists k0. split; [apply elem_of_cons; by left|done].
    + exists k. split; [apply elem_of_cons; by right|done].
  - intros k Hk. apply elem_of_cons in Hk as [->|Hk]; [done|by apply Hc].
Qed.

Lemma find_current_key pol server e :
  Keys.etype_permitted pol e = true ->
  is_ok (Keys.find_enctype pol server (Some e) 0) = true <-> has_current_key server e.
Proof.
  intros Hp. unfold Keys.find_enctype, has_current_key. rewrite Hp. cbn [negb].
  pose proof (top_kvno_spec (keys server)) as Ht. destruct (Keys.top_kvno (keys server)) as [top|].
  2: { rewrite Ht. split; [done|]. intros (k & Hk & _). by apply not_elem_of_nil in Hk. }
  destruct Ht as [(kt & Hkt & Het) Hmax]. change (0 =? 0) with true. cbn iota.
  pose proof (Keys.search_spec pol (Some e) top (keys server) false) as Hs.
  destruct (Keys.search _ _ _ _ _) as [k|]; cbn [is_ok].
  - destruct Hs as [Hk (Hv & He & _)]. split; [intros _|done].
    exists k. split; [done|]. split; [by apply He|]. intros k' Hk'. rewrite Hv. by apply Hmax.
  - split; [done|]. intros (k & Hk & He & Hall). exfalso. apply (Hs k Hk). split; [|split].
    + pose proof (Hmax k Hk). pose proof (Hall kt Hkt). lia.
    + intros e' [= <-]. done.
    + by rewrite He.
Qed.

Lemma supports_usable pol server e :
  allowed_etype pol e ->
  dbentry_supports_enctype pol server e = true <-> usable_etype pol server e.
Proof.
  intros Ha. unfold dbentry_supports_enctype, usable_etype. fold (session_enctypes pol server).
  destruct (session_enctypes pol server) as [l|].
  - rewrite bool_decide_eq_true. tauto.
  - rewrite orb_true_iff, bool_decide_eq_true, find_current_key by apply Ha. tauto.
Qed.

(** the session enctype of a ticket is the first one in the client's order
    that the realm permits (3DES and RC4 only where each is allowed) and the
    server can take: one its session_enctypes attribute names, or without that
    AES-256 or an enctype it has a key of at its newest version.  The request is
    refused exactly when there is none. *)
Theorem session_keytype_choice (server : Principal) (requested : list Z) (pol : Policy) :
  match select_session_keytype server requested pol with
  | Ok e =>
      exists pre n post, requested = pre ++ n :: post /\ EType.known n = Ok e /\
        usable_etype pol server e /\
        forall m e', m ∈ pre -> EType.known m = Ok e' -> ~ usable_etype pol server e'
  | Err x =>
      x = proto err.ETYPE_NOSUPP "BAD_ENCRYPTION_TYPE" /\
      forall m e', m ∈ requested -> EType.known m = Ok e' -> ~ usable_etype pol server e'
  end.
Proof.
  induction requested as [|n requested IH].
  { split; [done|]. intros m e' Hm. by apply not_elem_of_nil in Hm. }
  assert ((forall e, EType.known n = Ok e -> ~ usable_etype pol server e) ->
    match select_session_keytype server requested pol with
    | Ok e => exists pre n0 post, n :: requested = pre ++ n0 :: post /\ EType.known n0 = Ok e /\
        usable_etype pol server e /\
        forall m e', m ∈ pre -> EType.known m = Ok e' -> ~ usable_etype pol server e'
    | Err x => x = proto err.ETYPE_NOSUPP "BAD_ENCRYPTION_TYPE" /\
        forall m e', m ∈ n :: requested -> EType.known m = Ok e' -> ~ usable_etype pol server e'
    end) as Hskip.
  { intros Hno. destruct (select_session_keytype server requested pol) as [e|x].
    - destruct IH as (pre & n0 & post & -> & Hk & Hu & Hpre). exists (n :: pre), n0, post.
      split_and!; try done. intros m e' Hm. apply elem_of_cons in Hm as [->|Hm]; [apply Hno|by apply Hpre].
    - destruct IH as [-> Hall]. split; [done|]. intros m e' Hm.
      apply elem_of_cons in Hm as [->|Hm]; [apply Hno|by apply Hall]. }
  cbn [select_session_keytype]. destruct (EType.known n) as [e|] eqn:En; [|by apply Hskip].
  destruct (Keys.etype_permitted pol e) eqn:Ep; cbn [negb].
  2: { apply Hskip. intros e' [= <-] [[Hp _] _]. by rewrite Hp in Ep. }
  destruct (bool_decide (e = Des3CbcSha1) && negb (allow_des3 pol)) eqn:Ed.
  { apply Hskip. intros e' [= <-] [(_ & Hd & _) _]. to_prop. by rewrite (Hd ltac:(done)) in *. }
  destruct (bool_decide (e = Rc4Hmac) && negb (allow_rc4 pol)) eqn:Er.
  { apply Hskip. intros e' [= <-] [(_ & _ & Hr) _]. to_prop. by rewrite (Hr ltac:(done)) in *. }
  assert (allowed_etype pol e) as Ha.
  { split; [done|]. split; intros ->; [destruct (allow_des3 pol)|destruct (allow_rc4 pol)]; done. }
  pose proof (supports_usable pol server e Ha) as Hsu.
  destruct (dbentry_supports_enctype pol server e).
  - exists [], n, requested. split_and!; [done|done|by apply Hsu|].
    intros m e' Hm. by apply not_elem_of_nil in Hm.
  - apply Hskip. intros e' [= <-] Hu. by apply Hsu in Hu.
Qed.

(** ** The AS request *)

(** A time of 0 is never. *)
Definition live (expiry now : Z) : Prop := expiry = 0 \/ now <= expiry.

Lemma live_spec expiry now : negb (expiry =? 0) && (expiry <? now) = false <-> live expiry now.
Proof.
  unfold live. rewrite andb_false_iff, negb_false_iff, Z.eqb_eq, Z.ltb_ge. done.
Qed.

(** What an AS request is accepted under. *)
Record as_acceptable `{PrincipalRead} (client server : Principal) (body : KdcReqBody) (now : Z)
    : Prop := {
  ok_options : forall n, n ∈ Flags.AS_INVALID -> opt body n = false;
  ok_client : live (expiration client) now;
  ok_server : live (expiration server) now;
  ok_password : attr server KDB_PWCHANGE_SERVICE = true \/
    (live (pw_expire client) now /\ attr client KDB_REQUIRES_PWCHANGE = false);
  ok_postdate : (opt body flag_bit.MAY_POSTDATE = false /\ opt body flag_bit.POSTDATED = false) \/
    (attr client KDB_DISALLOW_POSTDATED = false /\ attr server KDB_DISALLOW_POSTDATED = false);
  ok_entries : attr client KDB_DISALLOW_ALL_TIX = false /\ attr server KDB_DISALLOW_ALL_TIX = false /\
    attr server KDB_DISALLOW_SVR = false;
  ok_anonymous : restrict_anon policy = true ->
    PrincipalName.name_string (name client) = PrincipalName.name_string anonymous_principal_name ->
    PrincipalName.name_string (default (PrincipalName.krbtgt store_realm) (sname body))
    = [PrincipalName.KRBTGT; store_realm];
  ok_lockout : Lockout.lockout_check_policy client now = Ok tt;
}.

Lemma check_anon_spec `{PrincipalRead} c s :
  check_anon c s = Ok tt <->
  (restrict_anon policy = true ->
   PrincipalName.name_string c = PrincipalName.name_string anonymous_principal_name ->
   PrincipalName.name_string s = [PrincipalName.KRBTGT; store_realm]).
Proof.
  unfold check_anon, is_anonymous_principal, PrincipalName.components_eq,
    PrincipalName.is_local_tgs_principal.
  rewrite <- (PrincipalName.is_krbtgt_for_spec s).
  assert (PrincipalName.is_krbtgt_for s store_realm = true -> PrincipalName.is_krbtgt s = true) as Hk.
  { rewrite PrincipalName.is_krbtgt_for_spec. unfold PrincipalName.is_krbtgt. by intros ->. }
  destruct (restrict_anon policy); [|by split].
  case_bool_decide as Hc; [|by split].
  destruct (PrincipalName.is_krbtgt_for s store_realm); [rewrite Hk by done; by split|].
  rewrite andb_false_r. cbn. split; [done|]. intros Hx. by discriminate Hx.
Qed.

(** A guard returning an error, and a check before the rest. *)
Lemma guard_ok (b : bool) (e : KdcError) (k : result KdcError unit) :
  (if b then Err e else k) = Ok tt <-> b = false /\ k = Ok tt.
Proof. destruct b; [split; [done|by intros []]|tauto]. Qed.

Lemma seq_ok (r k : result KdcError unit) : (let? _ := r in k) = Ok tt <-> r = Ok tt /\ k = Ok tt.
Proof. destruct r as [[]|]; [tauto|]. split; [done|by intros []]. Qed.

(** A request that is accepted is not one of a locked client. *)
Lemma validate_as_locks `{PrincipalRead} client server body now :
  validate_as_request client server body now = Ok tt -> Lockout.lockout_check_policy client now = Ok tt.
Proof. unfold validate_as_request. rewrite !guard_ok, seq_ok. tauto. Qed.

(** an AS request is accepted by policy exactly when it sets none of the
    TGS-only options, neither principal has expired, the password is current (or
    the service is the password-changing one), postdating is not asked or not
    forbidden, both entries may be used, an anonymous client asks only for the
    local TGS where anonymity is restricted, and the client is not locked out. *)
Theorem validate_as_accepts `{PrincipalRead} (client server : Principal) (body : KdcReqBody) (now : Z) :
  validate_as_request client server body now = Ok tt <-> as_acceptable client server body now.
Proof.
  unfold validate_as_request. rewrite !guard_ok, seq_ok, check_anon_spec.
  rewrite negb_false_iff, Z.eqb_eq, Flags.as_invalid_bits_zero, list.Forall_forall.
  rewrite !andb_false_iff, !negb_false_iff, !orb_false_iff.
  split.
  - intros (Ho & Hc & Hp & Hs & Hq & Hd & H1 & H2 & H3 & Ha & Hl).
    constructor; rewrite <- ?live_spec, ?andb_false_iff, ?negb_false_iff; try done; tauto.
  - intros [Ho Hc Hs Hp Hd (H1 & H2 & H3) Ha Hl].
    rewrite <- live_spec, andb_false_iff, negb_false_iff in Hc, Hs, Hp. tauto.
Qed.

End KdcPolicy.
