(* ===== verification/Osa.v ===== *)
(** * The kadm5 record of a principal

    Models [krb5-kdc/src/osa.rs]: the XDR codec of [OsaPrincEnt], the ring of old
    keys in it, and the encryption of old keys under the history key.  The
    reader's cursor is the rest of the bytes.  [getrandom] is an argument: the
    draws for the keys of an entry, in order. *)

From S2P Require Import Prelude Reader Utf8 Etype Primitives Cts Derive Weak Ops Name Kdc.

Module Osa.

Definition OSA_ADB_PRINC_VERSION_1 : Z := 0x12345c01.
Definition KADM5_POLICY : Z := 0x800.
Definition TL_KADM_DATA : Z := 3.

Record OsaPrincEnt := mkOsa {
  o_policy : option Name.ustr;
  o_aux_attributes : Z;
  o_old_key_next : Z;
  o_admin_history_kvno : Z;
  o_old_keys : list (list OsaKeyData);
}.

Inductive OsaError :=
| Version (v : Z)
| Xdr (what : string).

Abbreviation res := (result OsaError).

(** ** Reading *)

Definition u32 (b : bytes) : res (Z * bytes) :=
  if (length b <? 4)%nat then Err (Xdr "short int") else Ok (from_be_bytes (take 4 b), drop 4 b).

Definition pad_len (n : nat) : nat := ((4 - n mod 4) mod 4)%nat.

(** The size is compared before it is used as an index. *)
Definition xdr_bytes (b : bytes) : res (bytes * bytes) :=
  let? (n, b) := u32 b in
  if blen b <? n then Err (Xdr "short opaque")
  else
    let n := Z.to_nat n in
    let s := take n b in
    let b := drop n b in
    if (length b <? pad_len n)%nat then Err (Xdr "short padding") else Ok (s, drop (pad_len n) b).

Definition nullstring (b : bytes) : res (option Name.ustr * bytes) :=
  let? (s, b) := xdr_bytes b in
  match rev s with
  | [] => Ok (None, b)
  | z :: body =>
      if bool_decide (z = x00) && negb (bool_decide (x00 ∈ body)) then
        let? p := ok_or (Utf8.from_utf8 (rev body)) (Xdr "policy utf-8") in
        Ok (Some p, b)
      else Err (Xdr "policy not a C string")
  end.

(** [x as i32] of an unsigned word. *)
Definition cast_signed (n : Z) : Z := if n <? 2 ^ 31 then n else n - 2 ^ 32.

Definition try_u16 (n : Z) (what : string) : res Z := if n <? 2 ^ 16 then Ok n else Err (Xdr what).
Definition try_i16 (n : Z) (what : string) : res Z :=
  if (- 2 ^ 15 <=? n) && (n <? 2 ^ 15) then Ok n else Err (Xdr what).

Definition decode_key (b : bytes) : res (OsaKeyData * bytes) :=
  let? (v, b) := u32 b in
  let? ver := try_u16 v "key_data_ver" in
  let? (v, b) := u32 b in
  let? kv := try_u16 v "key_data_kvno" in
  let? (v, b) := u32 b in
  let? t0 := try_i16 (cast_signed v) "type" in
  let? (v, b) := u32 b in
  let? t1 := try_i16 (cast_signed v) "type" in
  let? (l0, b) := u32 b in
  let? (l1, b) := u32 b in
  let? (c0, b) := xdr_bytes b in
  let? (c1, b) := xdr_bytes b in
  if negb (blen c0 =? l0) || negb (blen c1 =? l1) then Err (Xdr "key_data_length")
  else Ok (mkOsaKey ver kv (t0, t1) (c0, c1), b).

Definition decode_entry (b : bytes) : res (list OsaKeyData * bytes) :=
  let? (nk, b) := u32 b in times (Xdr "short int") (S (length b)) decode_key nk b.

(** The record, and the bytes after it. *)
Definition decode_rest (b : bytes) : res (OsaPrincEnt * bytes) :=
  let? (version, b) := u32 b in
  if negb (version =? OSA_ADB_PRINC_VERSION_1) then Err (Version version)
  else
    let? (pol, b) := nullstring b in
    let? (aux, b) := u32 b in
    let? (next, b) := u32 b in
    let? (hist, b) := u32 b in
    let? (n, b) := u32 b in
    let? (ks, b) := times (Xdr "short int") (S (length b)) decode_entry n b in
    Ok (mkOsa pol aux next hist ks, b).

Definition decode (b : bytes) : res OsaPrincEnt := let? (e, _) := decode_rest b in Ok e.

(** ** Writing *)

Definition put_u32 (v : Z) : bytes := to_be_bytes 4 v.

Definition put_bytes (b : bytes) : bytes :=
  put_u32 (try_from_or 32 (blen b) U32_MAX) ++ b ++ replicate (pad_len (length b)) x00.

Definition put_i16 (v : Z) : bytes := put_u32 (v mod 2 ^ 32).

Definition encode_key (k : OsaKeyData) : bytes :=
  put_u32 (ok_ver k) ++ put_u32 (ok_kvno k) ++ put_i16 (fst (ok_types k)) ++ put_i16 (snd (ok_types k)) ++
  put_u32 (try_from_or 32 (blen (fst (ok_contents k))) 0) ++
  put_u32 (try_from_or 32 (blen (snd (ok_contents k))) 0) ++
  put_bytes (fst (ok_contents k)) ++ put_bytes (snd (ok_contents k)).

Definition encode_entry (e : list OsaKeyData) : bytes :=
  put_u32 (try_from_or 32 (Z.of_nat (length e)) 0) ++ flat_map encode_key e.

Definition encode (o : OsaPrincEnt) : bytes :=
  put_u32 OSA_ADB_PRINC_VERSION_1 ++
  match o_policy o with
  | Some p => put_bytes (Utf8.as_bytes p ++ [x00])
  | None => put_u32 0
  end ++
  put_u32 (o_aux_attributes o) ++ put_u32 (o_old_key_next o) ++ put_u32 (o_admin_history_kvno o) ++
  put_u32 (try_from_or 32 (Z.of_nat (length (o_old_keys o))) 0) ++
  flat_map encode_entry (o_old_keys o).

Definition from_tl (tl : list TlData) : res (option OsaPrincEnt) :=
  match List.find (fun t => ty t =? TL_KADM_DATA) tl with
  | Some t => let? o := decode (contents t) in Ok (Some o)
  | None => Ok None
  end.

Definition bound_policy (o : OsaPrincEnt) : option Name.ustr :=
  if negb (Z.land (o_aux_attributes o) KADM5_POLICY =? 0) then
    match o_policy o with Some [] => None | p => p end
  else None.

(** ** The ring *)

Definition old_keys_oldest_first (next : Z) (ks : list (list OsaKeyData)) : list (list OsaKeyData) :=
  let n := length ks in
  match n with
  | O => []
  | _ =>
      let start := (Z.to_nat next mod n)%nat in
      map (fun i => nth ((start + i) mod n) ks []) (seq 0 n)
  end.

Section Crypto.
Context {Prim : Primitives}.

(** The [i]th key is wrapped with the [i]th draw. *)
Fixpoint history_entry (rnd : nat -> option bytes * option bytes) (keys : list KeyEntry)
    (hist_key : Key.ProtocolKey) : result Error (list OsaKeyData) :=
  match keys with
  | [] => Ok []
  | k :: keys =>
      let? enc := Ops.kdb_encrypt_key (fst (rnd O)) (snd (rnd O)) hist_key (Key.as_bytes (key k)) in
      let '(ver, salt_ty, slt) :=
        match salt_type k, kdb_salt k with
        | Some t, Some s => if 0 <? t then (2, t, s) else (1, 0, [])
        | _, _ => (1, 0, [])
        end in
      let e := EType.to_iana (ke_etype k) in
      let? l := history_entry (fun i => rnd (S i)) keys hist_key in
      Ok (mkOsaKey ver (try_from_or 16 (kvno k) U16_MAX)
            ((if (- 2 ^ 15 <=? e) && (e <? 2 ^ 15) then e else 0),
             (if (- 2 ^ 15 <=? salt_ty) && (salt_ty <? 2 ^ 15) then salt_ty else 0))
            (enc, slt) :: l)
  end.

(** [None] for a key that does not decrypt, which is skipped. *)
Definition decrypt_key (hist_key : Key.ProtocolKey) (k : OsaKeyData) : option KeyEntry :=
  match EType.known (fst (ok_types k)) with
  | Ok e =>
      match Ops.kdb_decrypt_key hist_key (fst (ok_contents k)) with
      | Ok raw =>
          match Key.from_bytes e raw with
          | Ok kk =>
              Some (if 2 <=? ok_ver k
                    then mkEntry e kk (ok_kvno k) (Some (snd (ok_types k))) (Some (snd (ok_contents k)))
                    else new_entry e kk (ok_kvno k))
          | Err _ => None
          end
      | Err _ => None
      end
  | Err _ => None
  end.

Definition decrypt_entry (entry : list OsaKeyData) (hist_key : Key.ProtocolKey) : list KeyEntry :=
  omap (decrypt_key hist_key) entry.

End Crypto.

(** ** The codec *)

Lemma u32_put v : is_u32 v -> reads u32 (put_u32 v) v.
Proof.
  intros Hv rest. unfold u32, put_u32. rewrite length_app, length_to_be_bytes.
  rewrite (proj2 (Nat.ltb_ge _ _)) by lia.
  rewrite take_app_length', drop_app_length' by (by rewrite length_to_be_bytes).
  by rewrite from_to_be_bytes by (unfold is_u32 in Hv; lia).
Qed.

Lemma u32_local : local u32.
Proof.
  intros b a r. unfold u32. destruct (Nat.ltb_spec (length b) 4); [done|]. intros [= <- <-].
  rewrite length_drop. split; [lia|]. intros x. rewrite length_app.
  rewrite (proj2 (Nat.ltb_ge _ _)) by lia. by rewrite take_app_le, drop_app_le by lia.
Qed.

Lemma xdr_bytes_put b : blen b < 2 ^ 32 -> reads xdr_bytes (put_bytes b) b.
Proof.
  intros Hb rest. unfold xdr_bytes, put_bytes, try_from_or. rewrite (proj2 (Z.ltb_lt _ _)) by done.
  rewrite <- app_assoc, u32_put by (unfold is_u32, blen in *; lia).
  unfold blen at 1 2. rewrite !length_app. rewrite (proj2 (Z.ltb_ge _ _)) by lia. unfold blen. rewrite Nat2Z.id.
  rewrite <- app_assoc, take_app_length, drop_app_length, length_app, length_replicate.
  rewrite (proj2 (Nat.ltb_ge _ _)) by lia. by rewrite drop_app_length' by (by rewrite length_replicate).
Qed.

Lemma xdr_bytes_local : local xdr_bytes.
Proof.
  intros b a r. unfold xdr_bytes. destruct (u32 b) as [[n b1]|] eqn:E; [|done].
  apply u32_local in E as [Hl E]. cbv beta iota zeta. destruct (Z.ltb_spec (blen b1) n); [done|].
  destruct (Nat.ltb_spec (length (drop (Z.to_nat n) b1)) (pad_len (Z.to_nat n))) as [|Hp]; [done|].
  intros [= <- <-]. rewrite !length_drop in *. unfold blen in *. split; [lia|].
  intros x. rewrite E. cbv beta iota zeta. unfold blen. rewrite !length_app, (proj2 (Z.ltb_ge _ _)) by lia.
  rewrite drop_app_le, take_app_le by lia. rewrite length_app, length_drop, (proj2 (Nat.ltb_ge _ _)) by lia.
  by rewrite drop_app_le by (rewrite length_drop; lia).
Qed.

#[local] Hint Resolve u32_local xdr_bytes_local : reader.

Lemma decode_key_local : local decode_key.
Proof. unfold decode_key. local_reader. Qed.

Lemma decode_entry_local : local decode_entry.
Proof. pose proof decode_key_local. unfold decode_entry. local_reader. Qed.

Lemma nullstring_local : local nullstring.
Proof.
  unfold nullstring. apply local_bind; [apply xdr_bytes_local|]. intros s. destruct (rev s) as [|z body]; local_reader.
Qed.

Lemma decode_rest_local : local decode_rest.
Proof. pose proof decode_entry_local. pose proof nullstring_local. unfold decode_rest. local_reader. Qed.

Definition wf_key (k : OsaKeyData) : Prop :=
  0 <= ok_ver k < 2 ^ 16 /\ 0 <= ok_kvno k < 2 ^ 16 /\ is_i16 (fst (ok_types k)) /\
  is_i16 (snd (ok_types k)) /\ blen (fst (ok_contents k)) < 2 ^ 32 /\ blen (snd (ok_contents k)) < 2 ^ 32.

Definition wf_policy (p : option Name.ustr) : Prop :=
  match p with
  | Some p => Forall (fun c => Utf8.is_scalar c = true) p /\ ~ In 0 p /\ blen (Utf8.as_bytes p) + 1 < 2 ^ 32
  | None => True
  end.

Definition wf_osa (o : OsaPrincEnt) : Prop :=
  wf_policy (o_policy o) /\ is_u32 (o_aux_attributes o) /\ is_u32 (o_old_key_next o) /\
  is_u32 (o_admin_history_kvno o) /\ Z.of_nat (length (o_old_keys o)) < 2 ^ 32 /\
  Forall (fun e => Z.of_nat (length e) < 2 ^ 32 /\ Forall wf_key e) (o_old_keys o).

Lemma try_i16_put v what rest :
  is_i16 v -> u32 (put_i16 v ++ rest) = Ok (v mod 2 ^ 32, rest) /\ try_i16 (cast_signed (v mod 2 ^ 32)) what = Ok v.
Proof.
  unfold is_i16. intros Hv. split; [apply u32_put; unfold is_u32; apply Z.mod_pos_bound; lia|].
  unfold try_i16, cast_signed. destruct (decide (0 <= v)).
  - rewrite Z.mod_small by lia. rewrite (proj2 (Z.ltb_lt _ (2 ^ 31))) by lia.
    by rewrite (proj2 (Z.leb_le _ _)), (proj2 (Z.ltb_lt _ _)) by lia.
  - rewrite <- (Z.mod_unique v (2 ^ 32) (-1) (v + 2 ^ 32)) by lia.
    rewrite (proj2 (Z.ltb_ge _ (2 ^ 31))) by lia. replace (v + 2 ^ 32 - 2 ^ 32) with v by lia.
    by rewrite (proj2 (Z.leb_le _ _)), (proj2 (Z.ltb_lt _ _)) by lia.
Qed.

Lemma decode_key_reads k : wf_key k -> reads decode_key (encode_key k) k.
Proof.
  destruct k as [ver kv [t0 t1] [c0 c1]]. intros (Hv & Hk & H0 & H1 & Hc0 & Hc1) rest. cbn in *.
  unfold decode_key, encode_key, try_from_or. cbn [ok_ver ok_kvno ok_types ok_contents fst snd].
  rewrite !(proj2 (Z.ltb_lt _ (2 ^ 32))) by done. rewrite <- !app_assoc.
  rewrite u32_put by (unfold is_u32; lia). unfold try_u16 at 1. rewrite (proj2 (Z.ltb_lt _ _)) by lia.
  rewrite u32_put by (unfold is_u32; lia). unfold try_u16. rewrite (proj2 (Z.ltb_lt _ _)) by lia.
  destruct (try_i16_put t0 "type" (put_i16 t1 ++ put_u32 (blen c0) ++ put_u32 (blen c1) ++
    put_bytes c0 ++ put_bytes c1 ++ rest) H0) as [-> ->].
  destruct (try_i16_put t1 "type" (put_u32 (blen c0) ++ put_u32 (blen c1) ++
    put_bytes c0 ++ put_bytes c1 ++ rest) H1) as [-> ->].
  rewrite !u32_put by (unfold is_u32, blen in *; lia). rewrite !xdr_bytes_put by done. by rewrite !Z.eqb_refl.
Qed.

Lemma decode_entry_reads e :
  Z.of_nat (length e) < 2 ^ 32 -> Forall wf_key e -> reads decode_entry (encode_entry e) e.
Proof.
  intros Hl He rest. unfold decode_entry, encode_entry, try_from_or. rewrite (proj2 (Z.ltb_lt _ _)) by done.
  rewrite <- app_assoc, u32_put by (unfold is_u32; lia). apply times_reads; [apply decode_key_local| |lia].
  eapply List.Forall_impl; [|exact He]. apply decode_key_reads.
Qed.

Lemma nullstring_reads p :
  wf_policy p ->
  reads nullstring (match p with Some p => put_bytes (Utf8.as_bytes p ++ [x00]) | None => put_u32 0 end) p.
Proof.
  intros Hp rest. unfold nullstring. destruct p as [p|]; [|by destruct rest].
  destruct Hp as (Hs & H0 & Hl). rewrite xdr_bytes_put by (unfold blen in *; rewrite length_app; cbn; lia).
  rewrite rev_app_distr. cbn [rev app]. rewrite bool_decide_eq_true_2, bool_decide_eq_false_2; [|..|done].
  - cbn. by rewrite rev_involutive, Utf8.from_utf8_as_bytes by done.
  - intros Hin%list_elem_of_In%in_rev. by apply H0, Utf8.as_bytes_nul.
Qed.

Lemma decode_rest_reads o : wf_osa o -> reads decode_rest (encode o) o.
Proof.
  destruct o as [pol aux next hist ks]. intros (Hp & Ha & Hn & Hh & Hl & Hks) rest. cbn in *.
  unfold decode_rest, encode, try_from_or. cbn [o_policy o_aux_attributes o_old_key_next o_admin_history_kvno o_old_keys].
  rewrite (proj2 (Z.ltb_lt _ _)) by done. rewrite <- !app_assoc, u32_put by done. cbn [negb Z.eqb OSA_ADB_PRINC_VERSION_1 Pos.eqb].
  rewrite nullstring_reads, !u32_put by (done || unfold is_u32; lia).
  rewrite times_reads; [done|apply decode_entry_local| |lia].
  eapply List.Forall_impl; [|exact Hks]. intros e [? ?]. by apply decode_entry_reads.
Qed.

(** The record that carries a principal's policy and password history
    survives the database.  A written record is read back as it was, whatever
    follows it; and no proper prefix of one is taken for a record. *)
Theorem osa_roundtrip o x :
  wf_osa o ->
  decode (encode o ++ x) = Ok o /\
  forall b y, encode o = b ++ y -> y <> [] -> is_ok (decode b) = false.
Proof.
  intros Ho. unfold decode. split; [by rewrite decode_rest_reads|]. intros b y Hb Hy.
  destruct (decode_rest b) as [[e r]|] eqn:E; [|done]. apply decode_rest_local in E as [_ E].
  specialize (E y). rewrite <- Hb in E. pose proof (decode_rest_reads o Ho []) as E'.
  rewrite app_nil_r, E in E'. injection E' as _ Hr. by apply app_nil in Hr as [_ ->].
Qed.

(** Two keys of an entry, one with a salt, and a policy. *)
Definition sample_osa : OsaPrincEnt :=
  mkOsa (Some [0x64; 0xe9]) KADM5_POLICY 1 2
    [[mkOsaKey 1 7 (18, 0) ([x01; x02; x03], []); mkOsaKey 2 7 (17, -1) ([x04], [x05; x06])]].

Lemma osa_roundtrip_witness :
  decode (encode sample_osa ++ [xff]) = Ok sample_osa /\
  forall b y, encode sample_osa = b ++ y -> y <> [] -> is_ok (decode b) = false.
Proof.
  apply (osa_roundtrip sample_osa [xff]). unfold wf_osa, wf_policy, wf_key, is_u32, is_i16.
  repeat split; try done; try (cbn; lia); try (repeat constructor; done).
Defined.


End Osa.
