(* ===== verification/History.v ===== *)
(** * Password history

    Models [krb5-kdc/src/store/history.rs]: the old keys of a principal, kept
    encrypted in the ring of its kadm5 record and in the clear in memory. *)

From stdpp Require Import sorting.
From S2P Require Import Prelude Etype Primitives Cts Derive Weak Ops Name Kdc Lockout Osa.

Module History.
Import Osa.

(** [Vec::dedup]: of equal neighbours the first stays. *)
Fixpoint dedup (l : list Z) : list Z :=
  match l with
  | x :: l =>
      match dedup l with
      | y :: l' => if x =? y then y :: l' else x :: y :: l'
      | [] => [x]
      end
  | [] => []
  end.

(** The [n] greatest of the numbers, greatest first. *)
Definition newest (n : nat) (kvnos : list Z) : list Z := take n (rev (dedup (merge_sort Z.le kvnos))).

Definition keep_newest (n : nat) (keys : list KeyEntry) : list KeyEntry :=
  let keep := newest n (map kvno keys) in
  filter (fun k => kvno k ∈ keep) keys.

Definition prune_key_history (keys : list KeyEntry) (depth : Z) : list KeyEntry :=
  if depth =? 0 then [] else keep_newest (Z.to_nat depth) keys.

Section History.
Context {Prim : Primitives}.

Definition resolve_history (p : Principal) (hist : option (Z * Key.ProtocolKey)) : Principal :=
  if bool_decide (old_keys (kadm p) = []) || negb (bool_decide (key_history p = [])) then p
  else
    match hist with
    | None => p
    | Some (v, hk) =>
        if negb (v =? admin_history_kvno (kadm p)) then p
        else
          set_key_history
            (flat_map (fun e => decrypt_entry e hk)
               (old_keys_oldest_first (old_key_next (kadm p)) (old_keys (kadm p)))) p
    end.

(** The keys of the greatest version. *)
Definition current_keys (old : list KeyEntry) : list KeyEntry :=
  let top := match Keys.top_kvno old with Some v => v | None => 0 end in
  filter (fun k => kvno k = top) old.

(** A new history key empties the ring. *)
Definition for_history_kvno (hist_kvno : Z) (p : Principal) : Principal :=
  if negb (admin_history_kvno (kadm p) =? hist_kvno)
  then set_kadm (mkKadm (aux_attributes (kadm p)) 0 hist_kvno []) (set_key_history [] p)
  else p.

Definition drop_front {A} (n : nat) (l : list A) : list A := drop (length l - n) l.

(** The principal is changed also when the encryption fails. *)
Definition record_history (rnd : nat -> option bytes * option bytes) (p : Principal) (old : list KeyEntry)
    (nhist hist_kvno : Z) (hist_key : Key.ProtocolKey) : Principal * result Error unit :=
  let p := for_history_kvno hist_kvno p in
  if nhist <=? 1 then (p, Ok tt)
  else
    let recent := current_keys old in
    match recent with
    | [] => (p, Ok tt)
    | _ =>
        match history_entry rnd recent hist_key with
        | Err e => (p, Err e)
        | Ok entry =>
            let keep := Z.to_nat (nhist - 1) in
            let k := kadm p in
            let entries := drop_front keep (old_keys_oldest_first (old_key_next k) (old_keys k) ++ [entry]) in
            let k := mkKadm (aux_attributes k) (Z.of_nat (length entries mod keep)) (admin_history_kvno k) entries in
            let hist := prune_key_history (key_history p ++ recent) (nhist - 1) in
            (set_kadm k (set_key_history hist p), Ok tt)
        end
    end.

End History.

(** ** The ring *)

Lemma nth_seq_id {A} (d : A) l : map (fun i => nth i l d) (seq 0 (length l)) = l.
Proof.
  induction l as [|x l IH]; [done|]. cbn [length seq map nth]. f_equal.
  rewrite <- seq_shift, map_map. exact IH.
Qed.

Lemma oldest_first_aligned next ks :
  ks = [] \/ (Z.to_nat next mod length ks = 0)%nat -> old_keys_oldest_first next ks = ks.
Proof.
  intros [-> | H]; [done|]. unfold old_keys_oldest_first. destruct ks as [|e ks]; [done|].
  transitivity (map (fun i => nth i (e :: ks) []) (seq 0 (length (e :: ks)))); [|apply nth_seq_id].
  cbn [length] in *. rewrite H. apply map_ext_in. intros i Hi%in_seq. f_equal. apply Nat.mod_small. lia.
Qed.

Lemma oldest_first_recorded keep entries :
  (length entries <= keep)%nat ->
  old_keys_oldest_first (Z.of_nat (length entries mod keep)) entries = entries.
Proof.
  intros Hk. apply oldest_first_aligned. destruct entries as [|e es]; [by left|]. right.
  rewrite Nat2Z.id. destruct (decide (length (e :: es) = keep)) as [<-|].
  - by rewrite Nat.Div0.mod_same, Nat.Div0.mod_0_l.
  - rewrite (Nat.mod_small _ keep) by lia. apply Nat.Div0.mod_same.
Qed.

Lemma length_drop_front {A} n (l : list A) : length (drop_front n l) = Nat.min n (length l).
Proof. unfold drop_front. rewrite length_drop. lia. Qed.

(** ** Pruning *)

(** Groups of keys with one version each, oldest first. *)
Definition versions (gs : list (list KeyEntry)) (vs : list Z) : Prop :=
  Forall2 (fun g v => g <> [] /\ Forall (fun k => kvno k = v) g) gs vs /\ StronglySorted Z.lt vs.

Lemma sort_id l : StronglySorted Z.le l -> merge_sort Z.le l = l.
Proof.
  intros Hl. apply (StronglySorted_unique Z.le).
  - apply StronglySorted_merge_sort; apply _.
  - done.
  - apply merge_sort_Permutation.
Qed.

Lemma dedup_const v (g : list KeyEntry) l :
  g <> [] -> Forall (fun k => kvno k = v) g -> (forall y, head (dedup l) = Some y -> v < y) ->
  dedup (map kvno g ++ l) = v :: dedup l.
Proof.
  intros Hne Hg Hl. induction Hg as [|k g Hk Hg IH]; [done|]. cbn [map app dedup]. rewrite Hk.
  destruct g as [|k' g].
  - cbn [map app]. destruct (dedup l) as [|y l'] eqn:E; [done|].
    rewrite (proj2 (Z.eqb_neq v y)); [done|]. specialize (Hl y eq_refl). lia.
  - rewrite IH by done. by rewrite Z.eqb_refl.
Qed.

Lemma versions_sorted gs vs :
  versions gs vs -> StronglySorted Z.le (map kvno (concat gs)) /\ dedup (map kvno (concat gs)) = vs.
Proof.
  intros [Hf Hs]. revert Hs. induction Hf as [|g v gs vs [Hne Hg] Hf IH]; intros Hs; [split; constructor|].
  apply StronglySorted_inv in Hs as [Hs Hv]. destruct (IH Hs) as [Hs' Hd]. cbn [concat].
  rewrite map_app. split.
  - assert (Forall (Z.le v) (map kvno (concat gs))) as Hle.
    { clear -Hf Hv. revert Hv. induction Hf as [|g' v' gs vs [_ Hg'] Hf IH]; intros Hv; [constructor|].
      apply list.Forall_cons in Hv as [Hv' Hv]. cbn [concat]. rewrite map_app. apply list.Forall_app. split; [|auto].
      apply List.Forall_map. eapply List.Forall_impl; [|exact Hg']. intros k ->. lia. }
    clear -Hg Hs' Hle. induction Hg as [|k g Hk Hg IH]; [done|]. cbn [map app]. constructor; [done|].
    rewrite Hk. apply list.Forall_app. split; [|done]. apply List.Forall_map.
    eapply List.Forall_impl; [|exact Hg]. intros k' ->. lia.
  - rewrite (dedup_const v); [by rewrite Hd|done|done|]. intros y Hy. rewrite Hd in Hy.
    destruct vs; [done|]. injection Hy as <-. by apply list.Forall_cons in Hv as [? _].
Qed.

Lemma filter_all {A} (P : A -> Prop) `{!forall x, Decision (P x)} l : Forall P l -> filter P l = l.
Proof. induction 1; [done|]. rewrite filter_cons_True by done. by f_equal. Qed.

Lemma filter_none {A} (P : A -> Prop) `{!forall x, Decision (P x)} l :
  Forall (fun x => ~ P x) l -> filter P l = [].
Proof. induction 1; [done|]. by rewrite filter_cons_False. Qed.

Lemma versions_filter (S : list Z) gs vs d :
  Forall2 (fun g v => g <> [] /\ Forall (fun k => kvno k = v) g) gs vs ->
  Forall (fun v => v ∉ S) (take d vs) -> Forall (fun v => v ∈ S) (drop d vs) ->
  filter (fun k => kvno k ∈ S) (concat gs) = concat (drop d gs).
Proof.
  intros Hf. revert d. induction Hf as [|g v gs vs [_ Hg] Hf IH]; intros d Ht Hd; [by rewrite drop_nil|].
  cbn [concat]. rewrite list.filter_app. destruct d as [|d]; cbn [take drop] in *.
  - apply list.Forall_cons in Hd as [Hv Hd]. rewrite (IH O), filter_all; [done| |done|done].
    eapply List.Forall_impl; [|exact Hg]. by intros k ->.
  - apply list.Forall_cons in Ht as [Hv Ht]. rewrite (IH d), filter_none by (done ||
      (eapply List.Forall_impl; [|exact Hg]; by intros k ->)). done.
Qed.

Lemma versions_prune n gs vs :
  versions gs vs -> keep_newest n (concat gs) = concat (drop_front n gs).
Proof.
  intros Hv. destruct (versions_sorted gs vs Hv) as [Hs Hd]. unfold keep_newest, newest.
  rewrite (sort_id _ Hs), Hd. destruct Hv as [Hf Hlt]. pose proof (Forall2_length Hf) as Hl.
  unfold drop_front. rewrite Hl.
  assert (forall v, v ∈ take n (rev vs) <-> v ∈ drop (length vs - n) vs) as Hk.
  { intros v. by rewrite firstn_rev, !list_elem_of_In, <- in_rev. }
  rewrite (list_filter_iff _ (fun k => kvno k ∈ drop (length vs - n) vs)) by (intros k; apply Hk).
  apply (versions_filter _ gs vs); [done| |by apply List.Forall_forall; intros v Hv; apply list_elem_of_In].
  apply List.Forall_forall. intros v Hv Hin. apply list_elem_of_In in Hin.
  rewrite <- (take_drop (length vs - n) vs) in Hlt.
  eapply StronglySorted_app_1_elem_of in Hlt; [|by apply list_elem_of_In|by apply list_elem_of_In]. lia.
Qed.


(** ** The history of a principal *)

Section Kept.
Context {Prim : Primitives} {Laws : PrimitiveLaws}.

(** A key the stored form can hold. *)
Definition storable (k : KeyEntry) : Prop :=
  0 <= kvno k < 2 ^ 16 /\ Key.wf (key k) /\ Key.etype (key k) = ke_etype k /\
  match salt_type k, kdb_salt k with
  | None, None => True
  | Some t, Some _ => 0 < t < 2 ^ 15
  | _, _ => False
  end.

Definition rng_works (rnd : nat -> option bytes * option bytes) : Prop :=
  forall i, exists c c8, rnd i = (Some c, Some c8) /\ length c = Cts.BLOCK /\ length c8 = 8%nat.

Lemma history_entry_ok rnd keys hk :
  rng_works rnd -> Ops.key_usable hk 0 -> Forall storable keys ->
  exists entry, history_entry rnd keys hk = Ok entry /\ decrypt_entry entry hk = keys.
Proof.
  intros Hr Hk Hs. revert rnd Hr. induction Hs as [|k keys (Hv & Hw & He & Hsalt) _ IH]; intros rnd Hr.
  { by exists []. }
  destruct (Hr O) as (c & c8 & Hr0 & Hc & Hc8). cbn [history_entry]. rewrite Hr0. cbn [fst snd].
  assert (blen (Key.as_bytes (key k)) <= 0x7fff) as Hl.
  { unfold Key.wf in Hw. unfold blen. rewrite Hw. destruct (Key.etype (key k)); cbn; lia. }
  destruct (Ops.kdb_wrap_unwrap hk c c8 _ Hk Hc Hc8 Hl) as (blob & -> & Hd).
  destruct (IH (fun i => rnd (S i))) as (entry & -> & Hent); [intros i; apply Hr|].
  assert (forall t s ver, decrypt_key hk (mkOsaKey ver (try_from_or 16 (kvno k) U16_MAX)
    (if (- 2 ^ 15 <=? EType.to_iana (ke_etype k)) && (EType.to_iana (ke_etype k) <? 2 ^ 15)
     then EType.to_iana (ke_etype k) else 0, t) (blob, s)) =
    Some (if 2 <=? ver then mkEntry (ke_etype k) (key k) (kvno k) (Some t) (Some s)
          else new_entry (ke_etype k) (key k) (kvno k))) as Hdk.
  { intros t s ver. unfold decrypt_key. cbn [ok_types ok_contents ok_ver ok_kvno fst snd].
    replace ((- 2 ^ 15 <=? EType.to_iana (ke_etype k)) && (EType.to_iana (ke_etype k) <? 2 ^ 15)) with true
      by (by destruct (ke_etype k)).
    rewrite EType.known_to_iana, Hd, <- He, Key.from_bytes_of_key by done.
    unfold try_from_or. rewrite (proj2 (Z.ltb_lt _ _)) by lia. done. }
  destruct k as [e kk v st ks]; cbn [salt_type kdb_salt] in *.
  destruct st as [t|], ks as [s|]; try done.
  - rewrite (proj2 (Z.ltb_lt 0 t)) by lia. eexists. split; [done|]. unfold decrypt_entry. cbn [omap list_omap].
    rewrite Hdk. cbn [Z.leb Z.compare Pos.compare Pos.compare_cont].
    replace ((- 2 ^ 15 <=? t) && (t <? 2 ^ 15)) with true by (symmetry; to_prop; lia).
    f_equal. exact Hent.
  - eexists. split; [done|]. unfold decrypt_entry. cbn [omap list_omap]. rewrite Hdk. cbn. f_equal. exact Hent.
Qed.

(** The ring and the memory hold the same old keys: groups [gs] of one version
    each, of versions [vs], oldest first. *)
Definition holds (hk : Key.ProtocolKey) (p : Principal) (gs : list (list KeyEntry)) (vs : list Z) : Prop :=
  map (fun e => decrypt_entry e hk) (old_keys_oldest_first (old_key_next (kadm p)) (old_keys (kadm p))) = gs /\
  key_history p = concat gs /\ versions gs vs.

Lemma current_versions old top :
  Keys.top_kvno old = Some top ->
  current_keys old <> [] /\ Forall (fun k => kvno k = top) (current_keys old).
Proof.
  intros Ht. unfold current_keys. rewrite Ht. split.
  - destruct (Keys.top_kvno_in old top Ht) as (k & Hk & Hkv). intros Hn.
    assert (k ∈ filter (fun k => kvno k = top) old) as Hin by (by apply list_elem_of_filter; split; [|apply list_elem_of_In]).
    rewrite Hn in Hin. by apply not_elem_of_nil in Hin.
  - apply List.Forall_forall. intros k Hk%list_elem_of_In. by apply list_elem_of_filter in Hk as [? _].
Qed.

Lemma drop_front_forall2 {A B} (R : A -> B -> Prop) n l l' :
  Forall2 R l l' -> Forall2 R (drop_front n l) (drop_front n l').
Proof. intros H. unfold drop_front. rewrite (Forall2_length H). by apply Forall2_drop. Qed.

Lemma drop_front_map {A B} (f : A -> B) n l : map f (drop_front n l) = drop_front n (map f l).
Proof. unfold drop_front. by rewrite length_map, skipn_map. Qed.

Lemma versions_snoc gs vs g v :
  versions gs vs -> g <> [] -> Forall (fun k => kvno k = v) g -> Forall (fun w => w < v) vs ->
  versions (gs ++ [g]) (vs ++ [v]).
Proof.
  intros [Hf Hs] Hne Hg Hv. split; [apply Forall2_app; [done|]; by repeat constructor|].
  apply StronglySorted_app. split_and!; [|done|by repeat constructor].
  intros x y Hx Hy%list_elem_of_singleton. subst. rewrite List.Forall_forall in Hv. by apply Hv, list_elem_of_In.
Qed.

Lemma versions_drop n gs vs : versions gs vs -> versions (drop_front n gs) (drop_front n vs).
Proof.
  intros [Hf Hs]. split; [by apply drop_front_forall2|]. unfold drop_front.
  rewrite <- (take_drop (length vs - n) vs) in Hs. by apply StronglySorted_app_1_r in Hs.
Qed.

Lemma record_history_holds rnd p old top nhist hk gs vs :
  rng_works rnd -> Ops.key_usable hk 0 -> 2 <= nhist ->
  Keys.top_kvno old = Some top -> Forall storable (current_keys old) ->
  holds hk p gs vs -> Forall (fun v => v < top) vs ->
  exists p', record_history rnd p old nhist (admin_history_kvno (kadm p)) hk = (p', Ok tt) /\
    let n := Z.to_nat (nhist - 1) in
    holds hk p' (drop_front n (gs ++ [current_keys old])) (drop_front n (vs ++ [top])) /\
    old_keys (kadm p') <> [] /\ admin_history_kvno (kadm p') = admin_history_kvno (kadm p).
Proof.
  intros Hr Hk Hn Ht Hs (Hring & Hmem & Hv) Hlt. set (n := Z.to_nat (nhist - 1)).
  destruct (current_versions old top Ht) as [Hne Hcur]. unfold record_history, for_history_kvno.
  rewrite Z.eqb_refl. cbn [negb]. rewrite (proj2 (Z.leb_gt _ _)) by lia.
  destruct (history_entry_ok rnd _ hk Hr Hk Hs) as (entry & He & Hd). rewrite He.
  destruct (current_keys old) as [|k0 ks] eqn:Ec; [done|]. rewrite <- Ec in *.
  eexists. split; [reflexivity|]. cbv zeta. unfold holds.
  cbn [kadm set_kadm set_key_history old_key_next old_keys key_history admin_history_kvno]. fold n.
  set (ring := old_keys_oldest_first _ _) in *.
  assert (length (drop_front n (ring ++ [entry])) <= n)%nat as Hl by (rewrite length_drop_front; lia).
  rewrite oldest_first_recorded by done. split_and!; [|..|done].
  - by rewrite drop_front_map, map_app, Hring; cbn [map]; rewrite Hd.
  - rewrite Hmem. unfold prune_key_history. rewrite (proj2 (Z.eqb_neq _ _)) by lia. fold n.
    rewrite <- (versions_prune n _ (vs ++ [top])) by (by apply versions_snoc).
    by rewrite concat_app; cbn [concat]; rewrite app_nil_r.
  - by apply versions_drop, versions_snoc.
  - intros Hnil. apply (f_equal length) in Hnil. rewrite length_drop_front, length_app in Hnil.
    cbn in Hnil. lia.
Qed.

(** C36: The password history is kept while key versions rise: where the keys a
    password change replaces have a version above those in the history, recording
    them appends them as the newest group, drops the oldest when the policy's depth
    is reached, keeps the encrypted ring and the memory in step, and what a reload
    decrypts from the ring is the history the memory had.  (When the version wraps
    from 65535 to 1 ring and memory part: see [history_after_wrap].) *)
Theorem history_kept rnd p old top nhist hk gs vs :
  rng_works rnd -> Ops.key_usable hk 0 -> 2 <= nhist ->
  Keys.top_kvno old = Some top -> Forall storable (current_keys old) ->
  holds hk p gs vs -> Forall (fun v => v < top) vs ->
  exists p', record_history rnd p old nhist (admin_history_kvno (kadm p)) hk = (p', Ok tt) /\
    holds hk p' (drop_front (Z.to_nat (nhist - 1)) (gs ++ [current_keys old]))
      (drop_front (Z.to_nat (nhist - 1)) (vs ++ [top])) /\
    resolve_history (set_key_history [] p') (Some (admin_history_kvno (kadm p), hk)) = p'.
Proof.
  intros Hr Hk Hn Ht Hs Hh Hlt.
  destruct (record_history_holds rnd p old top nhist hk gs vs Hr Hk Hn Ht Hs Hh Hlt)
    as (p' & E & Hh' & Hne & Hv). exists p'. split; [done|]. split; [done|].
  unfold resolve_history. cbn [kadm set_key_history key_history].
  rewrite bool_decide_eq_false_2 by done. cbn. rewrite Hv, Z.eqb_refl. cbn [negb].
  destruct Hh' as (Hring & Hmem & _). rewrite flat_map_concat_map, Hring, <- Hmem. by destruct p'.
Qed.

End Kept.

(** ** Samples *)

Definition toy_rnd (i : nat) : option bytes * option bytes :=
  (Some (replicate 16 (z8 (Z.of_nat i))), Some (replicate 8 x66)).

Definition sample_key (v : Z) : KeyEntry :=
  new_entry Aes128CtsHmacSha196 (Key.mk Aes128CtsHmacSha196 (replicate 16 (z8 v))) v.

Definition sample_princ : Principal := Lockout.sample_principal.

Lemma history_kept_witness :
  exists p', @record_history ToyPrimitives toy_rnd sample_princ [sample_key 1; sample_key 3] 3 2 Ops.sample_aes
    = (p', Ok tt) /\ key_history p' = [sample_key 3].
Proof.
  destruct (@history_kept ToyPrimitives toy_laws toy_rnd sample_princ [sample_key 1; sample_key 3] 3 3
    Ops.sample_aes [] []) as (p' & E & (_ & Hm & _) & _).
  - intros i. eexists _, _. split; [reflexivity|by split].
  - split; [reflexivity|]. discriminate.
  - lia.
  - reflexivity.
  - change (current_keys _) with [sample_key 3]. constructor; [|constructor]. cbv. intuition discriminate.
  - split; [reflexivity|]. split; [reflexivity|]. split; constructor.
  - constructor.
  - exists p'. split; [exact E|]. rewrite Hm. reflexivity.
Defined.

(** The ring drops the oldest group, the memory the one with the lowest version.
    They part when the version wraps from 65535 to 1: of the keys of versions
    65535 and 1, recorded in that order with a depth of two, the ring keeps the
    ones of version 1 and the memory the ones of version 65535. *)
Example history_after_wrap :
  let p1 := fst (@record_history ToyPrimitives toy_rnd sample_princ [sample_key 65535] 2 2 Ops.sample_aes) in
  let p2 := fst (@record_history ToyPrimitives toy_rnd p1 [sample_key 1] 2 2 Ops.sample_aes) in
  key_history p2 = [sample_key 65535] /\
  key_history (@resolve_history ToyPrimitives (set_key_history [] p2) (Some (2, Ops.sample_aes))) = [sample_key 1].
Proof. vm_compute. by split. Qed.

End History.
