(* ===== verification/PMap.v ===== *)
(** * The map of principals

    Models [PrincipalMap] of [krb5-kdc/src/store/iprop_ulog.rs]: the rows by
    identifier, the index of relative identifiers (RIDs), the rows as last
    logged, and the rows to put back when a change fails.  The order in which a
    [HashMap] is walked is not fixed: [undo_entries] takes the entries as a list,
    and what is proved of it holds for every order. *)

From S2P Require Import Prelude Utf8 Etype Name Kdc Lockout.

(** [PrincipalName::components_joined]. *)
Definition components_joined (n : PrincipalName.PrincipalName) : Name.ustr :=
  Name.join Name.SLASH (map Utf8.lossy_chars_of (PrincipalName.name_string n)).

Module PMap.

Abbreviation id := Name.ustr.

Inductive Undo :=
| Off
| On (before : gmap id (option Principal))
| Lost.

Record PrincipalMap := mkMap {
  rows : gmap id Principal;
  rids : gmap Z id;
  logged : gmap id (option Principal);
  records_log : bool;
  undo : Undo;
}.

Definition set_rows (r : gmap id Principal) (m : PrincipalMap) : PrincipalMap :=
  mkMap r (rids m) (logged m) (records_log m) (undo m).
Definition set_rids (r : gmap Z id) (m : PrincipalMap) : PrincipalMap :=
  mkMap (rows m) r (logged m) (records_log m) (undo m).
Definition set_undo (u : Undo) (m : PrincipalMap) : PrincipalMap :=
  mkMap (rows m) (rids m) (logged m) (records_log m) u.
Definition set_logged (l : gmap id (option Principal)) (m : PrincipalMap) : PrincipalMap :=
  mkMap (rows m) (rids m) l (records_log m) (undo m).

Definition KM : Name.ustr := [0x4b; 0x2f; 0x4d].
Definition is_km (p : Principal) : bool := bool_decide (components_joined (name p) = KM).

Definition get (m : PrincipalMap) (i : id) : option Principal := rows m !! i.

Definition keep (i : id) (m : PrincipalMap) : PrincipalMap :=
  let m :=
    if records_log m && negb (bool_decide (is_Some (logged m !! i)))
    then set_logged (<[i := rows m !! i]> (logged m)) m else m in
  match undo m with
  | On before =>
      match before !! i with
      | Some _ => m
      | None => set_undo (On (<[i := rows m !! i]> before)) m
      end
  | _ => m
  end.

(** The owner's entry goes when it is the owner's. *)
Definition forget (i : id) (old : option Principal) (m : PrincipalMap) : PrincipalMap :=
  match old with
  | Some p =>
      if negb (rid p =? 0) && bool_decide (rids m !! rid p = Some i)
      then set_rids (delete (rid p) (rids m)) m else m
  | None => m
  end.

Definition reindex (i : id) (old : option Principal) (m : PrincipalMap) : PrincipalMap :=
  let m := forget i old m in
  match rows m !! i with
  | Some p => if negb (is_km p) && negb (rid p =? 0) then set_rids (<[rid p := i]> (rids m)) m else m
  | None => m
  end.

(** [get_mut] followed by the assignments [f]; [false] when there is no row. *)
Definition get_mut (i : id) (f : Principal -> Principal) (m : PrincipalMap) : PrincipalMap * bool :=
  let m := keep i m in
  match rows m !! i with
  | Some p => (set_rows (<[i := f p]> (rows m)) m, true)
  | None => (m, false)
  end.

Definition insert_row (i : id) (p : Principal) (m : PrincipalMap) : PrincipalMap :=
  let old := rows m !! i in reindex i old (set_rows (<[i := p]> (rows m)) m).

Definition remove_row (i : id) (m : PrincipalMap) : PrincipalMap :=
  let old := rows m !! i in forget i old (set_rows (delete i (rows m)) m).

Definition insert (i : id) (p : Principal) (m : PrincipalMap) : PrincipalMap := insert_row i p (keep i m).

Definition remove (i : id) (m : PrincipalMap) : PrincipalMap * option Principal :=
  let m := keep i m in (remove_row i m, rows m !! i).

Definition rid_owner (m : PrincipalMap) (r : Z) : option id := if r =? 0 then None else rids m !! r.

Definition set_rid (i : id) (r : Z) (m : PrincipalMap) : PrincipalMap :=
  match rows m !! i with
  | None => m
  | Some p =>
      let m := set_rows (<[i := Kdc.set_rid r p]> (rows m)) m in
      let m := if negb (rid p =? 0) && bool_decide (rids m !! rid p = Some i)
               then set_rids (delete (rid p) (rids m)) m else m in
      if negb (r =? 0) then set_rids (<[r := i]> (rids m)) m else m
  end.

Definition lose_undo (m : PrincipalMap) : PrincipalMap :=
  match undo m with On _ => set_undo Lost m | _ => m end.

Definition insert_unlogged (i : id) (p : Principal) (m : PrincipalMap) : PrincipalMap :=
  insert_row i p (lose_undo m).

Definition remove_unlogged (i : id) (m : PrincipalMap) : PrincipalMap := remove_row i (lose_undo m).

Definition begin_change (m : PrincipalMap) : PrincipalMap :=
  set_undo (On ∅) (set_logged ∅ m).

Definition end_change (m : PrincipalMap) : PrincipalMap := set_undo Off m.

Definition undo_entry (m : PrincipalMap) (e : id * option Principal) : PrincipalMap :=
  match e with
  | (i, Some p) => insert_row i p m
  | (i, None) => remove_row i m
  end.

Definition undo_entries (m : PrincipalMap) (l : list (id * option Principal)) : PrincipalMap :=
  fold_left undo_entry l m.

Definition undo_change (m : PrincipalMap) : PrincipalMap * bool :=
  match undo m with
  | On before => (set_logged ∅ (undo_entries (set_undo Off m) (map_to_list before)), true)
  | _ => (set_undo Off m, false)
  end.

(** The row as last logged, and the one logged now. *)
Definition log (i : id) (now : option Principal) (m : PrincipalMap) : PrincipalMap * option Principal :=
  let before := match logged m !! i with Some b => b | None => rows m !! i end in
  (set_logged (<[i := now]> (logged m)) m, before).

(** ** The index *)

(** The row [i] has the RID [r], and it is one that is indexed. *)
Definition owns (rs : gmap id Principal) (i : id) (r : Z) : Prop :=
  r <> 0 /\ exists p, rs !! i = Some p /\ rid p = r /\ is_km p = false.

(** What the index says is so; and it says all there is to say of [i]. *)
Definition sound (m : PrincipalMap) : Prop := forall r i, rids m !! r = Some i -> owns (rows m) i r.
Definition complete (m : PrincipalMap) (i : id) : Prop :=
  forall r, owns (rows m) i r -> rids m !! r = Some i.

Definition exact (m : PrincipalMap) : Prop := forall r i, rids m !! r = Some i <-> owns (rows m) i r.

Lemma exact_parts m : exact m <-> sound m /\ forall i, complete m i.
Proof. unfold exact, sound, complete. split; [intros H; split; intros ??; apply H|]. intros [H1 H2] r i. by split; [apply H1|apply H2]. Qed.

Lemma rows_keep i m : rows (keep i m) = rows m.
Proof. unfold keep. repeat case_match; done. Qed.
Lemma rids_keep i m : rids (keep i m) = rids m.
Proof. unfold keep. repeat case_match; done. Qed.

Lemma rows_forget i old m : rows (forget i old m) = rows m.
Proof. unfold forget. repeat case_match; done. Qed.

Lemma rows_insert_row i p m : rows (insert_row i p m) = <[i := p]> (rows m).
Proof. unfold insert_row, reindex. rewrite rows_forget. repeat case_match; cbn; by rewrite rows_forget. Qed.

Lemma rows_remove_row i m : rows (remove_row i m) = delete i (rows m).
Proof. unfold remove_row. by rewrite rows_forget. Qed.

(** With a sound index, the entry that [forget] drops is the row's one. *)
Lemma rids_forget i m m' r :
  sound m -> rids m' = rids m ->
  rids (forget i (rows m !! i) m') !! r = if decide (rids m !! r = Some i) then None else rids m !! r.
Proof.
  intros Hs Hm. unfold forget. destruct (decide (rids m !! r = Some i)) as [Hr|Hr].
  - destruct (Hs _ _ Hr) as (H0 & p & Hp & Hrp & _). rewrite Hp, Hm, Hrp.
    rewrite bool_decide_eq_true_2, (proj2 (Z.eqb_neq r 0)) by done. apply lookup_delete_eq.
  - destruct (rows m !! i) as [p|]; [|by rewrite Hm]. case_match; [|by rewrite Hm].
    to_prop. cbn. rewrite Hm in *. rewrite lookup_delete_ne; [done|]. intros <-. by destruct Hr.
Qed.

Lemma rids_insert_row i p m r :
  sound m ->
  rids (insert_row i p m) !! r =
  if decide (r = rid p /\ r <> 0 /\ is_km p = false) then Some i
  else if decide (rids m !! r = Some i) then None else rids m !! r.
Proof.
  intros Hs. unfold insert_row, reindex. set (m1 := set_rows _ m).
  pose proof (rids_forget i m m1 r Hs eq_refl) as Hf. rewrite rows_forget. unfold m1 at 1. cbn [rows set_rows].
  rewrite lookup_insert_eq. destruct (decide (r = rid p /\ r <> 0 /\ is_km p = false)) as [(-> & H0 & Hk)|Hn].
  - rewrite Hk, (proj2 (Z.eqb_neq _ _)) by done. apply lookup_insert_eq.
  - rewrite <- Hf. destruct (negb (is_km p) && negb (rid p =? 0)) eqn:Ec; [|done]. to_prop. cbn. apply lookup_insert_ne. intros <-. by apply Hn.
Qed.

Lemma rids_remove_row i m r :
  sound m ->
  rids (remove_row i m) !! r = if decide (rids m !! r = Some i) then None else rids m !! r.
Proof. intros Hs. unfold remove_row. by apply rids_forget. Qed.

Lemma owns_other rs rs' i r : rs !! i = rs' !! i -> owns rs i r -> owns rs' i r.
Proof. intros E (H0 & p & Hp & H). split; [done|]. exists p. by rewrite <- E. Qed.

Lemma sound_insert_row i p m : sound m -> sound (insert_row i p m).
Proof.
  intros Hs r j. rewrite rids_insert_row, rows_insert_row by done. destruct (decide _) as [(-> & H0 & Hk)|Hn].
  - intros [= <-]. split; [done|]. exists p. by rewrite lookup_insert_eq.
  - destruct (decide _) as [|Hi]; [done|]. intros Hr. assert (i <> j) by congruence.
    apply (owns_other (rows m)); [by rewrite lookup_insert_ne|by apply Hs].
Qed.

Lemma sound_remove_row i m : sound m -> sound (remove_row i m).
Proof.
  intros Hs r j. rewrite rids_remove_row, rows_remove_row by done. destruct (decide _) as [|Hi]; [done|].
  intros Hr. assert (i <> j) by congruence. apply (owns_other (rows m)); [by rewrite lookup_delete_ne|by apply Hs].
Qed.

Lemma complete_insert_row i p m j :
  sound m -> (j <> i -> complete m j /\ (is_km p = false -> ~ owns (rows m) j (rid p))) ->
  complete (insert_row i p m) j.
Proof.
  intros Hs Hj r. rewrite rids_insert_row, rows_insert_row by done. intros (H0 & q & Hq & Hr & Hk).
  destruct (decide (j = i)) as [->|Hne].
  - rewrite lookup_insert_eq in Hq. injection Hq as <-. by rewrite decide_True.
  - rewrite lookup_insert_ne in Hq by done. destruct (Hj Hne) as [Hc Ho].
    assert (owns (rows m) j r) as Hown by (split; [done|by exists q]). rewrite decide_False.
    + pose proof (Hc r Hown) as E. rewrite E. by rewrite decide_False by congruence.
    + intros (-> & _ & Hkp). by apply Ho in Hown.
Qed.

Lemma complete_remove_row i m j : sound m -> (j <> i -> complete m j) -> complete (remove_row i m) j.
Proof.
  intros Hs Hj r. rewrite rids_remove_row, rows_remove_row by done. intros (H0 & q & Hq & Hr).
  destruct (decide (j = i)) as [->|Hne]; [by rewrite lookup_delete_eq in Hq|].
  rewrite lookup_delete_ne in Hq by done. assert (owns (rows m) j r) as Hown by (split; [done|by exists q]).
  rewrite (Hj Hne r Hown). by rewrite decide_False by congruence.
Qed.

Lemma exact_unique m m' : exact m -> exact m' -> rows m = rows m' -> rids m = rids m'.
Proof.
  intros H H' E. apply map_eq. intros r. apply option_eq. intros i. by rewrite (H r i), (H' r i), E.
Qed.

(** ** What a change does to the map *)

(** An assignment that leaves the name and the RID alone. *)
Definition same_identity (f : Principal -> Principal) : Prop :=
  forall p, name (f p) = name p /\ rid (f p) = rid p.

(** A row may go in when its RID is not another's. *)
Definition rid_free (m : PrincipalMap) (i : id) (p : Principal) : Prop :=
  is_km p = true \/ rid p = 0 \/ match rid_owner m (rid p) with Some o => o = i | None => True end.

Inductive map_step : PrincipalMap -> PrincipalMap -> Prop :=
| step_get_mut m i f : same_identity f -> map_step m (fst (get_mut i f m))
| step_insert m i p : rid_free m i p -> map_step m (insert i p m)
| step_remove m i : map_step m (fst (remove i m))
| step_log m i now : map_step m (fst (log i now m)).

Lemma exact_same_rows m m' : rows m' = rows m -> rids m' = rids m -> exact m -> exact m'.
Proof. unfold exact. by intros -> ->. Qed.

Lemma exact_keep i m : exact m -> exact (keep i m).
Proof. apply exact_same_rows; [apply rows_keep|apply rids_keep]. Qed.

Lemma owns_same_identity rs i f p j r :
  same_identity f -> rs !! i = Some p -> owns (<[i := f p]> rs) j r <-> owns rs j r.
Proof.
  intros Hf Hp. destruct (Hf p) as [Hn Hr]. assert (is_km (f p) = is_km p) as Hk by (unfold is_km; by rewrite Hn).
  unfold owns. destruct (decide (i = j)) as [->|Hne].
  - rewrite lookup_insert_eq, Hp. split; intros (H0 & q & [= <-] & Hq); (split; [done|]);
      [exists p; rewrite <- Hr, <- Hk|exists (f p); rewrite Hr, Hk]; by split.
  - by rewrite lookup_insert_ne.
Qed.

Lemma exact_step m m' : map_step m m' -> exact m -> exact m'.
Proof.
  intros Hst He. destruct Hst as [m i f Hf|m i p Hfree|m i|m i now].
  - unfold get_mut. apply (exact_keep i) in He. destruct (rows (keep i m) !! i) as [p|] eqn:Hp; [|done].
    intros r j. cbn [fst rids rows set_rows]. rewrite (owns_same_identity _ i f p) by done. apply He.
  - unfold insert. apply (exact_keep i) in He. pose proof He as [Hs Hc]%exact_parts. apply exact_parts. split.
    { by apply sound_insert_row. }
    intros j. apply complete_insert_row; [done|]. intros Hne. split; [apply Hc|]. intros Hk Ho.
    pose proof (proj2 (He _ _) Ho) as Hr. destruct Ho as [H0 _].
    destruct Hfree as [Hkm|[Hz|Hown]]; [congruence|done|]. unfold rid_owner in Hown.
    rewrite (proj2 (Z.eqb_neq _ _)), <- (rids_keep i), Hr in Hown by done. done.
  - unfold remove. apply (exact_keep i), exact_parts in He as [Hs Hc]. apply exact_parts.
    split; [by apply sound_remove_row|]. intros j. apply complete_remove_row; [done|]. intros _. apply Hc.
  - by apply (exact_same_rows m).
Qed.

(** The undo list has the rows as they were in [rs0], for all rows that changed. *)
Definition recorded (rs0 : gmap id Principal) (m : PrincipalMap) : Prop :=
  exists before, undo m = On before /\
    forall i, match before !! i with Some o => o = rs0 !! i | None => rows m !! i = rs0 !! i end.

Lemma recorded_keep rs0 i m :
  recorded rs0 m -> exists before, undo (keep i m) = On before /\ is_Some (before !! i) /\
    forall j, match before !! j with Some o => o = rs0 !! j | None => rows m !! j = rs0 !! j end.
Proof.
  intros (b & Hu & Hb). unfold keep. cbv zeta.
  set (m1 := if records_log m && negb (bool_decide (is_Some (logged m !! i)))
             then set_logged (<[i:=rows m !! i]> (logged m)) m else m).
  assert (undo m1 = On b /\ rows m1 = rows m) as [-> Hr] by (unfold m1; by case_match).
  destruct (b !! i) as [o|] eqn:Ei.
  - exists b. split_and!; [by unfold m1; case_match|by exists o|done].
  - eexists. split; [reflexivity|]. split; [by rewrite lookup_insert_eq|]. intros j.
    destruct (decide (i = j)) as [->|Hne]; [|rewrite lookup_insert_ne by done; apply Hb].
    rewrite lookup_insert_eq, Hr. specialize (Hb j). by rewrite Ei in Hb.
Qed.

(** A row the undo list has may change freely. *)
Lemma recorded_touch rs0 i m m' :
  recorded rs0 m -> undo m' = undo (keep i m) -> (forall j, j <> i -> rows m' !! j = rows m !! j) ->
  recorded rs0 m'.
Proof.
  intros Hr Hu Hm. destruct (recorded_keep rs0 i m Hr) as (b & Hb & [o Ho] & Hall).
  exists b. split; [by rewrite Hu|]. intros j. specialize (Hall j). destruct (b !! j) eqn:Ej; [done|].
  rewrite Hm; [done|]. congruence.
Qed.

Lemma undo_forget i old m : undo (forget i old m) = undo m.
Proof. unfold forget. by repeat case_match. Qed.

Lemma undo_insert_row i p m : undo (insert_row i p m) = undo m.
Proof. unfold insert_row, reindex. rewrite rows_forget. repeat case_match; cbn; by rewrite undo_forget. Qed.

Lemma recorded_step rs0 m m' : map_step m m' -> recorded rs0 m -> recorded rs0 m'.
Proof.
  intros Hst Hr. destruct Hst as [m i f Hf|m i p Hfree|m i|m i now].
  - apply (recorded_touch rs0 i m); [done|unfold get_mut; by case_match|]. intros j Hj. unfold get_mut.
    rewrite rows_keep. case_match; cbn; [rewrite lookup_insert_ne|]; by rewrite ?rows_keep.
  - apply (recorded_touch rs0 i m); [done|apply undo_insert_row|]. intros j Hj. unfold insert.
    rewrite rows_insert_row, rows_keep. by rewrite lookup_insert_ne.
  - apply (recorded_touch rs0 i m); [done|unfold remove, remove_row; cbn [fst]; by rewrite undo_forget|]. intros j Hj.
    unfold remove. cbn [fst]. rewrite rows_remove_row, rows_keep. by rewrite lookup_delete_ne.
  - destruct Hr as (b & Hb & Hall). by exists b.
Qed.

Lemma steps_keep rs0 m m' :
  rtc map_step m m' -> exact m -> recorded rs0 m -> exact m' /\ recorded rs0 m'.
Proof.
  induction 1 as [m|m m1 m2 H _ IH]; [done|]. intros He Hr.
  apply IH; [by apply (exact_step m)|by apply (recorded_step _ m)].
Qed.

(** ** Undoing a change *)

Lemma undo_entries_restore m0 l m :
  exact m0 -> NoDup l.*1 -> sound m ->
  (forall i o, (i, o) ∈ l -> o = rows m0 !! i) ->
  (forall j, j ∉ l.*1 -> rows m !! j = rows m0 !! j /\ complete m j) ->
  rows (undo_entries m l) = rows m0 /\ rids (undo_entries m l) = rids m0.
Proof.
  intros He. revert m. induction l as [|[i o] l IH]; intros m Hnd Hs Hl Hc.
  { assert (rows m = rows m0) as Hr by (apply map_eq; intros j; by apply Hc, not_elem_of_nil).
    split; [done|]. cbn. apply exact_unique; [|done..]. apply exact_parts. split; [done|].
    intros j. by apply Hc, not_elem_of_nil. }
  cbn in Hnd. apply list.NoDup_cons in Hnd as [Hi Hnd].
  assert (o = rows m0 !! i) as Ho by (apply Hl; constructor).
  cbn [undo_entries fold_left]. apply IH; [done|..].
  - destruct o; [by apply sound_insert_row|by apply sound_remove_row].
  - intros j o' Hj. apply Hl. by constructor.
  - intros j Hj. destruct o as [p|]; cbn [undo_entry].
    + rewrite rows_insert_row. destruct (decide (j = i)) as [->|Hne].
      * rewrite lookup_insert_eq. split; [done|]. by apply complete_insert_row.
      * destruct (Hc j) as [Hrow Hcj]; [cbn; by apply not_elem_of_cons|]. rewrite lookup_insert_ne by done.
        split; [done|]. apply complete_insert_row; [done|]. intros _. split; [done|]. intros Hk Hown.
        apply (owns_other _ (rows m0)) in Hown as Hown0; [|done]. apply He in Hown0. destruct Hown as [H0 _].
        assert (owns (rows m0) i (rid p)) as Hi0 by (split; [done|by exists p]). apply He in Hi0. congruence.
    + rewrite rows_remove_row. destruct (decide (j = i)) as [->|Hne].
      * rewrite lookup_delete_eq. split; [done|]. by apply complete_remove_row.
      * destruct (Hc j) as [Hrow Hcj]; [cbn; by apply not_elem_of_cons|]. rewrite lookup_delete_ne by done.
        split; [done|]. by apply complete_remove_row.
Qed.

Lemma undo_restores_rows m0 m before l :
  exact m0 -> exact m -> recorded (rows m0) m -> undo m = On before -> l ≡ₚ map_to_list before ->
  rows (undo_entries (set_undo Off m) l) = rows m0 /\ rids (undo_entries (set_undo Off m) l) = rids m0.
Proof.
  intros He0 [Hs Hc]%exact_parts (b & Hu & Hb) Hu' Hl. rewrite Hu in Hu'. injection Hu' as ->.
  assert (forall i, i ∈ l.*1 <-> is_Some (before !! i)) as Hdom.
  { intros i. rewrite Hl, list_elem_of_fmap. split.
    - intros ([j o] & -> & Hin). apply elem_of_map_to_list in Hin. by exists o.
    - intros [o Ho]. exists (i, o). split; [done|]. by apply elem_of_map_to_list. }
  apply undo_entries_restore; [done| |done|..].
  - rewrite Hl. apply NoDup_fst_map_to_list.
  - intros i o Hin. rewrite Hl, elem_of_map_to_list in Hin. specialize (Hb i). by rewrite Hin in Hb.
  - intros j Hj. split; [|apply Hc]. specialize (Hb j). destruct (before !! j) eqn:E; [|done].
    destruct Hj. apply Hdom. by eexists.
Qed.

(** A change of the database that fails leaves no trace in the map: after any
    sequence of insertions, removals, assignments and log entries, undoing it
    gives back every row and the whole index of RIDs as they were, in whatever
    order the recorded rows are put back; and along the way no two rows are ever
    indexed under one RID. *)
Theorem undo_restores m0 m before l :
  exact m0 -> rtc map_step (begin_change m0) m -> undo m = On before -> l ≡ₚ map_to_list before ->
  exact m /\
  rows (undo_entries (set_undo Off m) l) = rows m0 /\ rids (undo_entries (set_undo Off m) l) = rids m0.
Proof.
  intros He Hsteps Hu Hl.
  assert (exact m /\ recorded (rows m0) m) as [He' Hr].
  { apply (steps_keep _ (begin_change m0)); [done|by apply (exact_same_rows m0)|]. exists ∅. by split. }
  split; [done|]. by apply (undo_restores_rows m0 m before).
Qed.

(** A row is renamed, another created in its place, and the change undone, in
    both orders. *)
Definition sample_row (n : byte) (r : Z) : Principal :=
  set_name (PrincipalName.mkName 1 [[n]]) [x52] (Kdc.set_rid r Lockout.sample_principal).

Definition sample_map : PrincipalMap :=
  mkMap {[ [0x61] := sample_row x61 1000 ]} {[ 1000 := [0x61] ]} ∅ false Off.

Definition sample_changed : PrincipalMap :=
  insert [0x61] (sample_row x61 1001) (insert [0x62] (sample_row x62 1000) (fst (remove [0x61] (begin_change sample_map)))).

Lemma sample_exact : exact sample_map.
Proof.
  intros r i. cbn [rids rows sample_map]. rewrite lookup_singleton_Some. split.
  - intros [<- <-]. split; [done|]. exists (sample_row x61 1000). by rewrite lookup_singleton_eq.
  - intros (H0 & p & Hp & Hr & _). apply lookup_singleton_Some in Hp as [<- <-]. by subst.
Qed.

Lemma undo_restores_witness :
  let order := [([0x62], None); ([0x61], Some (sample_row x61 1000))] in
  rows (undo_entries (set_undo Off sample_changed) order) = rows sample_map /\
  rids (undo_entries (set_undo Off sample_changed) order) = {[ 1000 := [0x61] ]}.
Proof.
  intros order.
  destruct (undo_restores sample_map sample_changed (list_to_map order) order) as (_ & H & H').
  - exact sample_exact.
  - eapply rtc_l; [apply (step_remove _ [0x61])|]. eapply rtc_l; [|apply rtc_once].
    + apply (step_insert _ [0x62] (sample_row x62 1000)). right; right. vm_compute. exact I.
    + apply (step_insert _ [0x61] (sample_row x61 1001)). right; right. vm_compute. exact I.
  - vm_compute. reflexivity.
  - symmetry. apply map_to_list_to_map. apply (bool_decide_unpack _). vm_compute. exact I.
  - split; [exact H|exact H'].
Defined.

End PMap.
