(* ===== verification/Transit.v ===== *)
(** * Transited realms

    Models [TransitedEncoding] of [krb5-types/src/lib.rs] (RFC 4120's
    DOMAIN-X500-COMPRESS: appending a realm, the expansion the KDC uses when it
    appends and the one used to check a path), the path check of
    [krb5-types/src/transited.rs], and the step of [krb5-kdc]'s [tgs_req.rs] that
    records and checks the path of a cross-realm request.  A [String] is its
    UTF-8 bytes, and its chars are those of [Utf8.lossy]. *)

From S2P Require Import Prelude Utf8 Etype Name Kdc.

Module Transit.
Import Utf8.

Definition BACKSLASH : byte := x5c.
Definition COMMA : byte := x2c.
Definition SPACE : byte := x20.
Definition SLASH : byte := x2f.
Definition DOT : byte := x2e.

Inductive TransitError := FieldTooLong | TooManyFields | BadIntermediates.

#[global] Instance TransitError_eq_dec : EqDecision TransitError.
Proof. solve_decision. Defined.

Definition MAX_TRANSIT_REALMS : Z := 256.
Definition MAX_TRANSIT_HOPS : Z := 4096.
Definition MAX_TRANSIT_RAW : Z := 512.
Definition MAX_TRANSIT_JOINED : Z := 512.
Definition MAX_ADD_PATH_RAW : Z := 500.
Definition MAX_ADD_PATH_JOINED : Z := 499.
Definition MAX_ADD_PATH_TOTAL : Z := 500.

Record TransitedEncoding := mkTransited { tr_type : Z; contents : bytes }.

(** [str::starts_with] and [str::ends_with] with an ASCII char. *)
Definition starts_with (s : bytes) (b : byte) : bool :=
  match s with c :: _ => bool_decide (c = b) | [] => false end.
Definition ends_with (s : bytes) (b : byte) : bool :=
  match rev s with c :: _ => bool_decide (c = b) | [] => false end.

(** ** Encoding *)

Definition strip_trailing_nul (raw : bytes) : bytes :=
  match rev raw with x00 :: rest => rev rest | _ => raw end.

(** The backslashes that precede the last byte, last first. *)
Fixpoint backslashes (r : bytes) : nat :=
  match r with
  | c :: r => if bool_decide (c = BACKSLASH) then S (backslashes r) else O
  | [] => O
  end.

Definition drop_trailing_unescaped_comma (buf : bytes) : bytes :=
  match rev buf with
  | c :: r =>
      if bool_decide (c = COMMA) && Nat.even (backslashes r) then rev r else buf
  | [] => buf
  end.

Definition escape_char (c : bytes) : bytes :=
  if bool_decide (c = [BACKSLASH]) || bool_decide (c = [COMMA]) then BACKSLASH :: c else c.

Definition escape_transit_realm (realm : bytes) : bytes := flat_map escape_char (lossy realm).

Definition encode_append (raw realm : bytes) : bytes :=
  let contents := drop_trailing_unescaped_comma (strip_trailing_nul raw) in
  let contents :=
    match contents with
    | [] => []
    | _ => contents ++ [COMMA] ++ (if starts_with realm SLASH then [SPACE] else [])
    end in
  contents ++ escape_transit_realm realm.

Definition from_realms (realms : list bytes) : TransitedEncoding :=
  mkTransited 1 (fold_left encode_append realms []).

Definition empty : TransitedEncoding := from_realms [].

Definition push_hop (out : list bytes) (hop : bytes) : result TransitError (list bytes) :=
  if MAX_TRANSIT_HOPS <=? blen out then Err TooManyFields else Ok (out ++ [hop]).

(** ** The expansion made before a realm is appended *)

Definition add_path_join (last cur : bytes) : result TransitError bytes :=
  match cur with
  | x20 :: rest => if MAX_ADD_PATH_RAW <=? blen rest then Err FieldTooLong else Ok rest
  | _ =>
      if starts_with cur SLASH && starts_with last SLASH then
        if MAX_ADD_PATH_JOINED <=? blen last + blen cur then Err FieldTooLong else Ok (last ++ cur)
      else if ends_with cur DOT then
        if MAX_ADD_PATH_JOINED <=? blen cur + blen last then Err FieldTooLong else Ok (cur ++ last)
      else Ok cur
  end.

(** The new [out], [last] and [cur]. *)
Definition emit_add_path_field (out : list bytes) (last cur : bytes)
    : result TransitError (list bytes * bytes * bytes) :=
  match cur with
  | [] => Ok (out, last, cur)
  | _ =>
      let? this := add_path_join last cur in
      let? out := push_hop out this in
      Ok (out, this, [])
  end.

Fixpoint add_path_loop (cs : list bytes) (out : list bytes) (last cur : bytes) (escaped : bool)
    : result TransitError (list bytes * bytes * bytes) :=
  match cs with
  | [] => Ok (out, last, cur)
  | c :: cs =>
      if escaped then
        if MAX_ADD_PATH_RAW <=? blen (cur ++ c) then Err FieldTooLong
        else add_path_loop cs out last (cur ++ c) false
      else if bool_decide (c = [BACKSLASH]) then add_path_loop cs out last cur true
      else if bool_decide (c = [COMMA]) then
        let? (p, cur) := emit_add_path_field out last cur in
        add_path_loop cs (fst p) (snd p) cur false
      else if MAX_ADD_PATH_RAW <=? blen (cur ++ c) then Err FieldTooLong
      else add_path_loop cs out last (cur ++ c) false
  end.

Definition expand_add_path (raw : bytes) : result TransitError (list bytes) :=
  let raw := strip_trailing_nul raw in
  if MAX_ADD_PATH_TOTAL <=? blen (drop_trailing_unescaped_comma raw) then Err FieldTooLong
  else match raw with
  | [] => Ok []
  | _ =>
      let? (p, cur) := add_path_loop (lossy raw) [] [] [] false in
      let? (p, _) := emit_add_path_field (fst p) (snd p) cur in
      Ok (fst p)
  end.

Definition append_realm (t : TransitedEncoding) (realm crealm srealm : bytes)
    : result TransitError TransitedEncoding :=
  let? hops := expand_add_path (contents t) in
  if existsb (fun h => bool_decide (h = realm)) hops then Ok t
  else
    let c := encode_append (contents t) realm in
    if MAX_ADD_PATH_TOTAL <=? blen c then Err FieldTooLong else Ok (mkTransited 1 c).

Definition validate_add_path (t : TransitedEncoding) : result TransitError unit :=
  let? _ := expand_add_path (contents t) in Ok tt.

(** ** The expansion that is checked *)

Definition str_starts_with (s p : bytes) : bool := bool_decide (take (length p) s = p).
Definition str_ends_with (s p : bytes) : bool := bool_decide (drop (length s - length p) s = p).

(** Push the hop of each index that has one, in order. *)
Fixpoint push_hops (f : nat -> option bytes) (idx : list nat) (out : list bytes)
    : result TransitError (list bytes) :=
  match idx with
  | [] => Ok out
  | i :: idx =>
      match f i with
      | Some h => let? out := push_hop out h in push_hops f idx out
      | None => push_hops f idx out
      end
  end.

(** [long[..i]] at a slash, and [long[i..]] after a dot. *)
Definition x500_hop (long : bytes) (i : nat) : option bytes :=
  if bool_decide (long !! i = Some SLASH) then Some (take i long) else None.
Definition domain_hop (long : bytes) (i : nat) : option bytes :=
  if bool_decide (long !! (i - 1)%nat = Some DOT) then Some (drop i long) else None.

Definition process_intermediates (n1 n2 : bytes) (out : list bytes) : result TransitError (list bytes) :=
  let '(short, long) := if (length n2 <? length n1)%nat then (n2, n1) else (n1, n2) in
  if (length short =? length long)%nat then
    if bool_decide (short = long) then Ok out else Err BadIntermediates
  else match short with
  | [] => Err BadIntermediates
  | s0 :: _ =>
      if bool_decide (s0 = SLASH) then
        if negb (starts_with long SLASH) || negb (str_starts_with long short)
        then Err BadIntermediates
        else push_hops (x500_hop long)
               (seq (length short + 1) (length long - (length short + 1))) out
      else
        if starts_with long SLASH || negb (str_ends_with long short)
        then Err BadIntermediates
        else push_hops (domain_hop long)
               (rev (seq 1 (length long - length short - 1))) out
  end.

Definition maybe_join (last cur : bytes) : result TransitError (option bytes) :=
  match cur with
  | [] => Ok None
  | _ =>
      if MAX_TRANSIT_RAW <=? blen cur then Err FieldTooLong
      else
        let expanded :=
          if starts_with cur SLASH then last ++ cur
          else if ends_with cur DOT then cur ++ last
          else cur in
        if MAX_TRANSIT_JOINED <? blen expanded then Err FieldTooLong else Ok (Some expanded)
  end.

(** The new [out], [last] and [cur]. *)
Definition emit_joined (out : list bytes) (last cur : bytes) (intermediates : bool)
    : result TransitError (list bytes * bytes * bytes) :=
  let? this := maybe_join last cur in
  match this with
  | None => Ok (out, last, [])
  | Some this =>
      let? out := push_hop out this in
      let? out := if intermediates then process_intermediates this last out else Ok out in
      Ok (out, this, [])
  end.

(** The loop's variables. *)
Record Scan := mkScan {
  out : list bytes;
  last : bytes;
  cur : bytes;
  escaped : bool;
  intermediates : bool;
  at_start : bool;
}.

Definition scan_char (crealm : bytes) (s : Scan) (c : bytes) : result TransitError Scan :=
  if escaped s then
    Ok (mkScan (out s) (last s) (cur s ++ c) false (intermediates s) false)
  else if bool_decide (c = [BACKSLASH]) then
    Ok (mkScan (out s) (last s) (cur s) true (intermediates s) false)
  else if bool_decide (c = [COMMA]) then
    match cur s with
    | [] =>
        if at_start s then
          if MAX_TRANSIT_RAW <=? blen crealm then Err FieldTooLong
          else Ok (mkScan (out s) crealm [] false true false)
        else Ok (mkScan (out s) (last s) [] false true false)
    | _ =>
        let? (p, c) := emit_joined (out s) (last s) (cur s) (intermediates s) in
        Ok (mkScan (fst p) (snd p) c false false false)
    end
  else if bool_decide (c = [SPACE]) && bool_decide (cur s = []) then
    Ok (mkScan (out s) [] (cur s) false (intermediates s) false)
  else Ok (mkScan (out s) (last s) (cur s ++ c) false (intermediates s) false).

Fixpoint scan_chars (crealm : bytes) (s : Scan) (cs : list bytes) : result TransitError Scan :=
  match cs with
  | [] => Ok s
  | c :: cs => let? s := scan_char crealm s c in scan_chars crealm s cs
  end.

Definition commas (raw : bytes) : Z := blen (filter (fun b => b = COMMA) raw).

Definition expand_domain_x500 (raw crealm srealm : bytes) : result TransitError (list bytes) :=
  let raw := strip_trailing_nul raw in
  match raw with
  | [] => Ok []
  | _ =>
      if MAX_TRANSIT_REALMS <? commas raw then Err TooManyFields
      else
        let? s := scan_chars crealm (mkScan [] [] [] false false true) (lossy raw) in
        match cur s with
        | [] =>
            if MAX_TRANSIT_RAW <=? blen srealm then Err FieldTooLong
            else process_intermediates (last s) srealm (out s)
        | _ =>
            let? (p, _) := emit_joined (out s) (last s) (cur s) (intermediates s) in
            Ok (fst p)
        end
  end.

Definition realms_for (t : TransitedEncoding) (crealm srealm : bytes) : result TransitError (list bytes) :=
  expand_domain_x500 (contents t) crealm srealm.

(** ** The path between two realms *)

Abbreviation Capaths := (gmap bytes (gmap bytes (list bytes))).

(** [s.split('.')]: never empty. *)
Fixpoint split_dot (s : bytes) : list bytes :=
  match s with
  | [] => [[]]
  | c :: s =>
      if bool_decide (c = DOT) then [] :: split_dot s
      else match split_dot s with
           | [] => [[c]]
           | label :: rest => (c :: label) :: rest
           end
  end.

(** [v.join(".")] *)
Fixpoint join_dot (l : list bytes) : bytes :=
  match l with
  | [] => []
  | [x] => x
  | x :: l => x ++ [DOT] ++ join_dot l
  end.

(** The length of the common suffix: the lists come reversed. *)
Fixpoint common_len (c s : list bytes) : nat :=
  match c, s with
  | x :: c, y :: s => if bool_decide (x = y) then S (common_len c s) else O
  | _, _ => O
  end.

(** [c[k..].join(".")] for each [k]. *)
Definition tails (c : list bytes) : list bytes :=
  map (fun k => join_dot (drop k c)) (seq 0 (length c)).

Definition hierarchical_walk_realms (client server : bytes) : list bytes :=
  if (MAX_TRANSIT_RAW <=? blen client) || (MAX_TRANSIT_RAW <=? blen server) then []
  else if bool_decide (client = server) then []
  else
    let c := split_dot client in
    let s := split_dot server in
    match c, s with
    | [], _ | _, [] => []
    | _, _ =>
        let common := common_len (rev c) (rev s) in
        let ct := tails c in
        let st := tails s in
        let c_keep := if (common =? 0)%nat then length ct else (length ct - common + 1)%nat in
        let s_keep := if (common =? 0)%nat then length st else (length st - common)%nat in
        take c_keep ct ++ rev (take s_keep st)
    end.

Definition walk_realm_tree (capaths : Capaths) (client server : bytes) : list bytes :=
  if bool_decide (client = server) then []
  else match capaths !! client ≫= (fun m => m !! server) with
  | Some vals => client :: filter (fun v => v <> [DOT]) vals ++ [server]
  | None => hierarchical_walk_realms client server
  end.

Definition transit_allowed (capaths : Capaths) (crealm srealm : bytes) (hops : list bytes) : bool :=
  let path := walk_realm_tree capaths crealm srealm in
  let tgs_realms := take (length path - 1) path in
  forallb (fun h => bool_decide (h ∈ tgs_realms)) hops.

Definition ANONYMOUS_REALM : bytes := String.list_byte_of_string "WELLKNOWN:ANONYMOUS".

(** Of the ticket part: its flags, its client realm and its transited field. *)
Definition check_transited (flags : list bool) (part_crealm : bytes) (transited : TransitedEncoding)
    (srealm : bytes) (capaths : Capaths) : result Z unit :=
  let raw := contents transited in
  if Flags.bit flags flag_bit.TRANSITED_POLICY_CHECKED
     || match raw with [] => true | b :: _ => bool_decide (b = x00) end
  then Ok tt
  else
    let crealm := from_utf8_lossy part_crealm in
    if bool_decide (crealm = ANONYMOUS_REALM) then Ok tt
    else if bool_decide (crealm = srealm) then Err err.NO_TKT_IN_RLM
    else
      let? hops := map_err (fun _ => err.ILL_CR_TKT) (realms_for transited crealm srealm) in
      if transit_allowed capaths crealm srealm hops then Ok tt else Err err.ILL_CR_TKT.

(** ** The step of a TGS request *)

(** The transited field of the new ticket, and whether its path was checked. *)
Definition tgs_transit (transited : TransitedEncoding) (flags : list bool)
    (prev_hop tkt_client_realm req_realm : bytes)
    (is_crossrealm skip_transited renew validate reject_bad_transit : bool) (capaths : Capaths)
    : result KdcError (TransitedEncoding * bool) :=
  let? transited :=
    if is_crossrealm && negb (bool_decide (prev_hop = tkt_client_realm)) then
      if negb (tr_type transited =? 1) then Err (proto err.TRTYPE_NOSUPP "VALIDATE_TRANSIT_TYPE")
      else map_err (fun _ => proto err.ILL_CR_TKT "ADD_TO_TRANSITED_LIST")
             (append_realm transited prev_hop tkt_client_realm req_realm)
    else Ok transited in
  let transit_checked :=
    if skip_transited then false
    else if bool_decide (tkt_client_realm = ANONYMOUS_REALM) then true
    else match realms_for transited tkt_client_realm req_realm with
         | Ok h => transit_allowed capaths tkt_client_realm req_realm h
         | Err _ => false
         end in
  let inherited_t := (renew || validate) && Flags.bit flags flag_bit.TRANSITED_POLICY_CHECKED in
  let set_transited_flag := negb skip_transited && transit_checked in
  if negb (inherited_t || set_transited_flag) && reject_bad_transit
  then Err (proto err.POLICY "BAD_TRANSIT")
  else Ok (transited, set_transited_flag).

(** ** Encodings of realm lists

    The realms that an encoding can hold: a leading space, a trailing dot and a
    trailing NUL have meanings of their own. *)
Definition good_realm (r : bytes) : Prop :=
  is_str r /\ r <> [] /\ starts_with r SPACE = false /\ ends_with r DOT = false
  /\ ends_with r x00 = false.

Lemma ends_with_last s c b : ends_with (s ++ [c]) b = bool_decide (c = b).
Proof. unfold ends_with. by rewrite rev_app_distr. Qed.

(** The chars of an escaped realm. *)
Definition esc_chars (c : bytes) : list bytes :=
  if bool_decide (c = [BACKSLASH]) || bool_decide (c = [COMMA]) then [[BACKSLASH]; c] else [c].

Lemma lossy_escape cs rest :
  Forall is_char cs -> lossy (flat_map escape_char cs ++ rest) = flat_map esc_chars cs ++ lossy rest.
Proof.
  induction 1 as [|c cs Hc Hcs IH]; [done|]. simpl. rewrite <- !app_assoc.
  unfold escape_char at 1, esc_chars at 1.
  destruct (bool_decide (c = [BACKSLASH]) || bool_decide (c = [COMMA])).
  - change ((BACKSLASH :: c) ++ ?x) with ([BACKSLASH] ++ (c ++ x)).
    rewrite (is_char_ascii BACKSLASH ltac:(done)), (Hc _), IH. done.
  - by rewrite (Hc _), IH.
Qed.

Lemma escape_str cs : Forall is_char cs -> escape_transit_realm (concat cs) = flat_map escape_char cs.
Proof. intros H. unfold escape_transit_realm. by rewrite lossy_str. Qed.

(** A char other than the backslash, last, ends a run of backslashes. *)
Lemma backslashes_char c r :
  is_char c -> c <> [BACKSLASH] -> backslashes (rev c ++ r) = O.
Proof.
  intros Hc Hb. destruct (is_char_cases c Hc) as [(b & -> & _)|[Hn Hh]].
  - simpl. rewrite bool_decide_eq_false_2 by congruence. done.
  - destruct c as [|x l] using rev_ind; [done|]. rewrite rev_app_distr. simpl.
    apply list.Forall_app in Hh as [_ Hx]. inversion Hx as [|? ? Hx' _]; subst.
    rewrite bool_decide_eq_false_2; [done|]. intros ->. by apply Hx'.
Qed.

(** Escaping keeps the number of trailing backslashes even. *)
Definition even_tail (x : bytes) : Prop := Nat.even (backslashes (rev x)) = true.

Lemma even_tail_escape x cs : Forall is_char cs -> even_tail x -> even_tail (x ++ flat_map escape_char cs).
Proof.
  induction cs as [|c cs IH] using rev_ind; intros Hcs Hx; [by rewrite app_nil_r|].
  apply list.Forall_app in Hcs as [Hcs Hc]. inversion Hc as [|? ? Hc' _]; subst.
  rewrite flat_map_app. simpl. rewrite app_nil_r. unfold even_tail.
  rewrite app_assoc, rev_app_distr. unfold escape_char at 1.
  destruct (decide (c = [BACKSLASH])) as [->|Hb].
  { simpl. exact (IH Hcs Hx). }
  rewrite (bool_decide_eq_false_2 (c = [BACKSLASH])) by done. simpl.
  destruct (decide (c = [COMMA])) as [->|Hcm]; [done|].
  rewrite (bool_decide_eq_false_2 (c = [COMMA])) by done.
  by rewrite backslashes_char.
Qed.

(** What appending leaves as it is. *)
Definition closed (raw : bytes) : Prop :=
  strip_trailing_nul raw = raw /\ drop_trailing_unescaped_comma raw = raw.

Lemma closed_last raw c :
  c <> x00 -> (c = COMMA -> Nat.even (backslashes (rev raw)) = false) -> closed (raw ++ [c]).
Proof.
  intros H0 Hc. unfold closed, strip_trailing_nul, drop_trailing_unescaped_comma.
  rewrite rev_app_distr. simpl. split.
  - by destruct c.
  - destruct (decide (c = COMMA)) as [->|Hn].
    + by rewrite (Hc eq_refl).
    + by rewrite bool_decide_eq_false_2.
Qed.

Lemma closed_escape x r : good_realm r -> even_tail x -> closed (x ++ escape_transit_realm r).
Proof.
  intros ((cs & Hcs & ->) & Hne & _ & _ & Hz) Hx. rewrite escape_str by done.
  destruct cs as [|c cs] using rev_ind; [done|clear IHcs].
  apply list.Forall_app in Hcs as [Hcs Hc]. inversion Hc as [|? ? Hc' _]; subst.
  rewrite flat_map_app. simpl. rewrite app_nil_r, app_assoc.
  pose proof (even_tail_escape x cs Hcs Hx) as He. set (y := x ++ flat_map escape_char cs) in *.
  rewrite concat_app in Hz. simpl in Hz. rewrite app_nil_r in Hz. unfold escape_char.
  destruct (decide (c = [BACKSLASH])) as [->|Hb].
  { change (closed (y ++ [BACKSLASH] ++ [BACKSLASH])).
    rewrite app_assoc. by apply closed_last. }
  rewrite (bool_decide_eq_false_2 (c = [BACKSLASH])) by done. simpl.
  destruct (decide (c = [COMMA])) as [->|Hcm].
  { change (closed (y ++ [BACKSLASH] ++ [COMMA])).
    rewrite app_assoc. apply closed_last; [done|]. intros _. rewrite rev_app_distr.
    change (Nat.even (S (backslashes (rev y))) = false). rewrite Nat.even_succ. unfold even_tail in He. by rewrite <- Nat.negb_even, He. }
  rewrite (bool_decide_eq_false_2 (c = [COMMA])) by done.
  destruct (is_char_cases c Hc') as [(b & -> & _)|[Hn Hh]].
  - apply closed_last; [|congruence]. rewrite ends_with_last in Hz. intros ->. done.
  - destruct c as [|b c] using rev_ind; [done|clear IHc].
    apply list.Forall_app in Hh as [_ Hb']. inversion Hb' as [|? ? Hb'' _]; subst.
    rewrite app_assoc. apply closed_last; intros ->; by destruct Hb''.
Qed.

(** What stands before the last realm of an encoding. *)
Definition separator (r : bytes) : bytes := COMMA :: (if starts_with r SLASH then [SPACE] else []).
Definition prefix (raw r : bytes) : bytes :=
  match raw with [] => [] | _ => raw ++ separator r end.

Definition enc (rs : list bytes) : bytes := contents (from_realms rs).

Lemma encode_append_closed raw r :
  closed raw -> encode_append raw r = prefix raw r ++ escape_transit_realm r.
Proof.
  intros [Hn Hc]. unfold encode_append. rewrite Hn, Hc. unfold prefix, separator.
  destruct raw; [done|]. by destruct (starts_with r SLASH).
Qed.

Lemma even_tail_prefix raw r : even_tail (prefix raw r).
Proof.
  unfold even_tail, prefix, separator. destruct raw as [|b raw]; [done|].
  rewrite rev_app_distr. by destruct (starts_with r SLASH).
Qed.

Lemma enc_snoc rs r :
  Forall good_realm (rs ++ [r]) ->
  closed (enc rs) /\ enc (rs ++ [r]) = prefix (enc rs) r ++ escape_transit_realm r.
Proof.
  revert r. induction rs as [|r0 rs IH] using rev_ind; intros r H.
  - by split.
  - apply list.Forall_app in H as [Hrs Hr]. destruct (IH r0 Hrs) as [Hc He].
    assert (closed (enc (rs ++ [r0]))) as Hcl.
    { rewrite He. apply closed_escape; [|apply even_tail_prefix].
      apply list.Forall_app in Hrs as [_ Hr0]. by inversion Hr0. }
    split; [done|]. rewrite <- encode_append_closed by done.
    unfold enc, from_realms. cbn [contents]. by rewrite (fold_left_app _ (rs ++ [r0]) [r]).
Qed.

Lemma concat_esc_chars cs : concat (flat_map esc_chars cs) = flat_map escape_char cs.
Proof.
  induction cs as [|c cs IH]; [done|]. simpl. rewrite concat_app, IH.
  unfold esc_chars, escape_char. case_match; simpl; by rewrite ?app_nil_r.
Qed.

Lemma esc_chars_chars cs : Forall is_char cs -> Forall is_char (flat_map esc_chars cs).
Proof.
  induction 1 as [|c cs Hc Hcs IH]; [constructor|]. simpl. apply list.Forall_app. split; [|done].
  unfold esc_chars. case_match; repeat constructor; auto.
Qed.

Lemma is_str_app s t : is_str s -> is_str t -> is_str (s ++ t).
Proof.
  intros (cs & Hcs & ->) (ds & Hds & ->). exists (cs ++ ds).
  by rewrite concat_app, list.Forall_app.
Qed.

Lemma is_str_escape r : is_str r -> is_str (escape_transit_realm r).
Proof.
  intros (cs & Hcs & ->). rewrite escape_str by done. exists (flat_map esc_chars cs).
  split; [by apply esc_chars_chars|by rewrite concat_esc_chars].
Qed.

Lemma is_str_separator r : is_str (separator r).
Proof.
  exists (map (fun b => [b]) (separator r)). unfold separator.
  destruct (starts_with r SLASH); (split; [|done]); repeat constructor; by apply is_char_ascii.
Qed.

Lemma is_str_enc rs : Forall good_realm rs -> is_str (enc rs).
Proof.
  induction rs as [|r rs IH] using rev_ind; intros H; [by exists []|].
  destruct (enc_snoc rs r H) as [_ ->]. apply list.Forall_app in H as [Hrs Hr].
  inversion Hr as [|? ? Hg _]; subst. apply is_str_app; [|apply is_str_escape, Hg].
  unfold prefix. destruct (enc rs) eqn:He; [by exists []|]. rewrite <- He in *.
  apply is_str_app; [by apply IH|apply is_str_separator].
Qed.

Lemma lossy_app s t : is_str s -> lossy (s ++ t) = lossy s ++ lossy t.
Proof. intros (cs & Hcs & ->). by rewrite lossy_chars, lossy_str by done. Qed.

(** Realms take at least a byte each, and at least their own length. *)
Lemma blen_app {A} (a b : list A) : blen (a ++ b) = blen a + blen b.
Proof. unfold blen. rewrite length_app. lia. Qed.

Lemma escape_len r : is_str r -> blen r <= blen (escape_transit_realm r).
Proof.
  intros (cs & Hcs & ->). rewrite escape_str by done. clear Hcs.
  induction cs as [|c cs IH]; simpl; [done|]. rewrite !blen_app.
  enough (blen c <= blen (escape_char c)) by lia.
  unfold escape_char. case_match; unfold blen; simpl; lia.
Qed.

Lemma good_len r : good_realm r -> 0 < blen r.
Proof. intros (_ & Hn & _). destruct r; [done|]. unfold blen. simpl. lia. Qed.

Lemma enc_len rs r :
  Forall good_realm (rs ++ [r]) ->
  blen rs < blen (enc (rs ++ [r])) /\
  blen (enc (rs ++ [r])) = blen (prefix (enc rs) r) + blen (escape_transit_realm r) /\
  blen r <= blen (escape_transit_realm r) /\ blen (enc rs) <= blen (prefix (enc rs) r).
Proof.
  intros H. destruct (enc_snoc rs r H) as [_ He]. rewrite He, blen_app.
  assert (blen (enc rs) <= blen (prefix (enc rs) r)) as Hp.
  { unfold prefix. destruct (enc rs); [done|]. rewrite blen_app. unfold blen. lia. }
  revert r H He Hp. induction rs as [|r0 rs IH] using rev_ind; intros r H He Hp;
    pose proof H as [Hrs Hr]%list.Forall_app; inversion Hr as [|? ? Hg _]; subst;
    pose proof (escape_len r (proj1 Hg)); pose proof (good_len r Hg).
  - split_and!; try done. unfold blen in *. simpl. lia.
  - split_and!; try done.
    destruct (enc_snoc rs r0 Hrs) as [_ He0].
    specialize (IH r0 Hrs He0).
    assert (blen (enc rs) <= blen (prefix (enc rs) r0)) as Hp0.
    { unfold prefix. destruct (enc rs); [done|]. rewrite blen_app. unfold blen. lia. }
    destruct (IH Hp0) as (Hlt & _). rewrite <- blen_app, <- He0 in Hlt.
    rewrite (blen_app rs [r0]). change (blen [r0]) with 1. lia.
Qed.

(** ** Scanning an encoding *)

Lemma scan_chars_app cr s a b :
  scan_chars cr s (a ++ b) = let? s' := scan_chars cr s a in scan_chars cr s' b.
Proof.
  revert s. induction a as [|c a IH]; intros s; [done|]. simpl.
  destruct (scan_char cr s c); [apply IH|done].
Qed.

Lemma special_cases c :
  c = [BACKSLASH] \/ c = [COMMA] \/
  (c <> [BACKSLASH] /\ c <> [COMMA] /\ esc_chars c = [c]).
Proof.
  unfold esc_chars. destruct (decide (c = [BACKSLASH])); [auto|].
  destruct (decide (c = [COMMA])); [auto|]. right. right.
  by rewrite !bool_decide_eq_false_2 by done.
Qed.

(** An escaped char is added to the current field. *)
Lemma scan_esc_chars cr s c :
  escaped s = false -> cur s <> [] \/ c <> [SPACE] ->
  scan_chars cr s (esc_chars c)
  = Ok (mkScan (out s) (last s) (cur s ++ c) false (intermediates s) false).
Proof.
  intros He Hs. destruct s as [o l k e i a]. simpl in *. subst e.
  destruct (special_cases c) as [->|[->|(Hb & Hc & ->)]]; [reflexivity|reflexivity|].
  simpl. unfold scan_char. simpl.
  rewrite (bool_decide_eq_false_2 (c = _)), (bool_decide_eq_false_2 (c = [COMMA])) by done.
  destruct (bool_decide (c = [SPACE]) && bool_decide (k = [])) eqn:E; [|done].
  apply andb_true_iff in E as [E1%bool_decide_eq_true E2%bool_decide_eq_true].
  by destruct Hs.
Qed.

Lemma is_char_not_nil c : is_char c -> c <> [].
Proof. intros Hc ->. by destruct (is_char_cases [] Hc) as [(? & ? & _)|[? _]]. Qed.

Lemma scan_escaped cr s c cs :
  Forall is_char (c :: cs) -> escaped s = false -> cur s <> [] \/ c <> [SPACE] ->
  scan_chars cr s (flat_map esc_chars (c :: cs))
  = Ok (mkScan (out s) (last s) (cur s ++ concat (c :: cs)) false (intermediates s) false).
Proof.
  revert s c. induction cs as [|c' cs IH]; intros s c Hcs He Hs;
    inversion Hcs as [|? ? Hc Hcs']; subst; change (flat_map esc_chars (c :: ?x)) with
      (esc_chars c ++ flat_map esc_chars x); rewrite scan_chars_app, scan_esc_chars by done.
  - simpl. by rewrite app_nil_r.
  - rewrite IH; [|done|done|].
    + simpl. by rewrite <- app_assoc.
    + left. simpl. pose proof (is_char_not_nil c Hc). by destruct (cur s).
Qed.

(** A realm's chars, the first of them. *)
Lemma good_chars r :
  good_realm r -> exists c cs, Forall is_char (c :: cs) /\ r = concat (c :: cs) /\ c <> [SPACE].
Proof.
  intros ((cs & Hcs & ->) & Hn & Hs & _). destruct cs as [|c cs]; [done|].
  exists c, cs. split_and!; [done|done|]. by intros ->.
Qed.

Lemma scan_realm cr s r :
  good_realm r -> escaped s = false -> cur s = [] ->
  scan_chars cr s (lossy (escape_transit_realm r))
  = Ok (mkScan (out s) (last s) r false (intermediates s) false).
Proof.
  intros (c & cs & Hcs & -> & Hc)%good_chars He Hcur. rewrite escape_str by done.
  rewrite <- (app_nil_r (flat_map _ _)), lossy_escape by done. simpl lossy.
  rewrite app_nil_r, scan_escaped, Hcur by auto. done.
Qed.

Lemma maybe_join_good l r :
  good_realm r -> (starts_with r SLASH = true -> l = []) -> blen r < MAX_TRANSIT_RAW ->
  maybe_join l r = Ok (Some r).
Proof.
  intros (_ & Hn & _ & Hd & _) Hl Hb. unfold maybe_join. destruct r as [|b r]; [done|].
  set (x := b :: r) in *. rewrite (proj2 (Z.leb_gt _ _) Hb), Hd.
  assert ((if starts_with x SLASH then l ++ x else x) = x) as ->.
  { destruct (starts_with x SLASH); [by rewrite (Hl eq_refl)|done]. }
  rewrite (proj2 (Z.ltb_ge _ _)); [done|]. unfold MAX_TRANSIT_RAW, MAX_TRANSIT_JOINED in *. lia.
Qed.

Lemma push_hop_room o h : blen o < MAX_TRANSIT_HOPS -> push_hop o h = Ok (o ++ [h]).
Proof. intros H. unfold push_hop. by rewrite (proj2 (Z.leb_gt _ _) H). Qed.

Lemma emit_joined_good o l r :
  good_realm r -> (starts_with r SLASH = true -> l = []) -> blen r < MAX_TRANSIT_RAW ->
  blen o < MAX_TRANSIT_HOPS -> emit_joined o l r false = Ok (o ++ [r], r, []).
Proof. intros. unfold emit_joined. by rewrite maybe_join_good, push_hop_room by done. Qed.

(** Between realms, [last] is forgotten when the next one starts with a slash. *)
Lemma scan_separator cr o l r0 r a :
  good_realm r0 -> (starts_with r0 SLASH = true -> l = []) -> blen r0 < MAX_TRANSIT_RAW ->
  blen o < MAX_TRANSIT_HOPS ->
  scan_chars cr (mkScan o l r0 false false a) (lossy (separator r))
  = Ok (mkScan (o ++ [r0]) (if starts_with r SLASH then [] else r0) [] false false false).
Proof.
  intros Hg Hl Hb Ho. pose proof Hg as (_ & Hn & _). destruct r0 as [|b0 r0]; [done|].
  unfold separator. destruct (starts_with r SLASH);
    cbn [lossy scan_chars]; simpl; unfold scan_char at 1;
    cbn [escaped cur last out intermediates]; by rewrite emit_joined_good.
Qed.

(** After the chars of an encoding, its last realm is the current field. *)
Lemma scan_enc cr rs r :
  Forall good_realm (rs ++ [r]) -> blen (enc (rs ++ [r])) < MAX_ADD_PATH_TOTAL ->
  exists l, (starts_with r SLASH = true -> l = []) /\
  scan_chars cr (mkScan [] [] [] false false true) (lossy (enc (rs ++ [r])))
  = Ok (mkScan rs l r false false false).
Proof.
  revert r. induction rs as [|r0 rs IH] using rev_ind; intros r H Hb;
    pose proof (enc_snoc _ r H) as [_ He]; pose proof (enc_len _ r H) as (Hl1 & Hl2 & Hl3 & Hl4);
    pose proof H as [Hrs Hr]%list.Forall_app; inversion Hr as [|? ? Hg _]; subst.
  - exists []. split; [done|]. rewrite He. simpl. by rewrite scan_realm.
  - pose proof (enc_len _ r0 Hrs) as (Hm1 & Hm2 & Hm3 & _).
    pose proof (good_len r Hg).
    destruct (IH r0 Hrs) as (l & Hl & Hscan); [lia|].
    assert (good_realm r0) as Hg0 by (by apply list.Forall_app in Hrs as [_ Hr0]; inversion Hr0).
    assert (prefix (enc (rs ++ [r0])) r = enc (rs ++ [r0]) ++ separator r) as Hp.
    { unfold prefix. destruct (enc (rs ++ [r0])) eqn:E; [|done].
      pose proof (good_len r0 Hg0). unfold blen in *. simpl in *. lia. }
    exists (if starts_with r SLASH then [] else r0). split; [by intros ->|].
    rewrite He, Hp, !lossy_app by (repeat apply is_str_app;
      eauto using is_str_enc, is_str_separator).
    rewrite !scan_chars_app, Hscan, scan_separator; [|done|done| |].
    + by rewrite scan_realm.
    + unfold blen, MAX_TRANSIT_RAW, MAX_ADD_PATH_TOTAL in *. lia.
    + unfold blen, MAX_TRANSIT_HOPS, MAX_ADD_PATH_TOTAL in *. lia.
Qed.

(** The same for the expansion made when appending. *)
Lemma add_path_escaped cs rest o l k :
  blen (k ++ concat cs) < MAX_ADD_PATH_RAW ->
  add_path_loop (flat_map esc_chars cs ++ rest) o l k false
  = add_path_loop rest o l (k ++ concat cs) false.
Proof.
  revert k. induction cs as [|c cs IH]; intros k Hb; [by simpl; rewrite app_nil_r|].
  simpl in *. rewrite app_assoc in Hb. rewrite (app_assoc k), <- IH, <- app_assoc by done.
  rewrite blen_app in Hb. pose proof (Nat2Z.is_nonneg (length (concat cs))).
  assert ((MAX_ADD_PATH_RAW <=? blen (k ++ c)) = false) as Hk by (apply Z.leb_gt; unfold blen in *; lia).
  destruct (special_cases c) as [->|[->|(Hn1 & Hn2 & ->)]].
  - change (esc_chars [BACKSLASH]) with [[BACKSLASH]; [BACKSLASH]].
    cbn [app add_path_loop]. simpl bool_decide. cbn iota. by rewrite Hk.
  - change (esc_chars [COMMA]) with [[BACKSLASH]; [COMMA]].
    cbn [app add_path_loop]. simpl bool_decide. cbn iota. by rewrite Hk.
  - cbn [app add_path_loop].
    rewrite (bool_decide_eq_false_2 (c = _)), (bool_decide_eq_false_2 (c = [COMMA])), Hk by done.
    done.
Qed.

(** The field of the last realm of [rs ++ [r]]. *)
Definition field (rs : list bytes) (r : bytes) : bytes :=
  match rs with [] => r | _ => (if starts_with r SLASH then [SPACE] else []) ++ r end.

Lemma add_path_join_good rs l r :
  good_realm r -> (rs = [] -> l = []) -> blen (field rs r) < MAX_ADD_PATH_RAW ->
  add_path_join l (field rs r) = Ok r.
Proof.
  intros (_ & Hn & Hs & Hd & _) Hl Hb.
  assert ((starts_with r SLASH = true -> starts_with l SLASH = false) -> add_path_join l r = Ok r) as Hr.
  { intros Hsl. unfold add_path_join.
    replace (starts_with r SLASH && starts_with l SLASH) with false
      by (destruct (starts_with r SLASH); [by rewrite Hsl|done]).
    rewrite Hd. destruct r as [|b r]; [done|]. destruct b; try done. }
  unfold field in *. destruct rs as [|r0 rs]; [by apply Hr; rewrite Hl|].
  destruct (starts_with r SLASH) eqn:Hsl; [|by apply Hr].
  simpl. rewrite (proj2 (Z.leb_gt _ _)); [done|]. unfold blen in *. simpl in Hb. lia.
Qed.

Lemma emit_add_path_good rs l r :
  good_realm r -> (rs = [] -> l = []) -> blen (field rs r) < MAX_ADD_PATH_RAW ->
  blen rs < MAX_TRANSIT_HOPS -> emit_add_path_field rs l (field rs r) = Ok (rs ++ [r], r, []).
Proof.
  intros Hg Hl Hb Ho. unfold emit_add_path_field.
  destruct (field rs r) as [|b f] eqn:E.
  - destruct Hg as (_ & Hn & _). unfold field in E. destruct rs; [done|].
    by apply app_eq_nil in E as [_ ?].
  - rewrite <- E, add_path_join_good, push_hop_room by (rewrite ?E; done). done.
Qed.

Lemma field_len rs r :
  Forall good_realm (rs ++ [r]) -> blen (field rs r) <= blen (enc (rs ++ [r])).
Proof.
  intros H. destruct (enc_len rs r H) as (_ & -> & Hr & _). unfold field, prefix.
  destruct rs as [|r0 rs]; [unfold enc, blen in *; simpl; lia|].
  destruct (enc (r0 :: rs)) eqn:E.
  { destruct (exists_last (l:=r0 :: rs) ltac:(done)) as (rs' & r' & Er). rewrite Er in *.
    apply list.Forall_app in H as [H _]. pose proof (enc_len rs' r' H) as (Hlt & _).
    rewrite E in Hlt. unfold blen in *. simpl in *. lia. }
  rewrite !blen_app. unfold separator, blen in *. destruct (starts_with r SLASH); simpl; lia.
Qed.

Lemma add_path_realm r rest o l k :
  good_realm r -> blen (k ++ r) < MAX_ADD_PATH_RAW ->
  add_path_loop (lossy (escape_transit_realm r) ++ rest) o l k false
  = add_path_loop rest o l (k ++ r) false.
Proof.
  intros ((cs & Hcs & ->) & _) Hb. rewrite escape_str by done.
  rewrite <- (app_nil_r (flat_map escape_char cs)), lossy_escape by done. simpl lossy.
  by rewrite app_nil_r, add_path_escaped.
Qed.

Lemma add_path_enc rs r rest :
  Forall good_realm (rs ++ [r]) -> blen (enc (rs ++ [r])) < MAX_ADD_PATH_TOTAL ->
  exists l, (rs = [] -> l = []) /\
  add_path_loop (lossy (enc (rs ++ [r])) ++ rest) [] [] [] false
  = add_path_loop rest rs l (field rs r) false.
Proof.
  revert r rest. induction rs as [|r0 rs IH] using rev_ind; intros r rest H Hb;
    pose proof (enc_snoc _ r H) as [_ He]; pose proof (enc_len _ r H) as (Hl1 & Hl2 & Hl3 & Hl4);
    pose proof (field_len _ r H) as Hf;
    pose proof H as [Hrs Hr]%list.Forall_app; inversion Hr as [|? ? Hg _]; subst;
    pose proof (good_len r Hg); change MAX_ADD_PATH_TOTAL with MAX_ADD_PATH_RAW in *.
  - exists []. split; [done|]. rewrite He. simpl. apply (add_path_realm r rest [] [] []); [done|].
    simpl in *. lia.
  - pose proof (enc_len _ r0 Hrs) as (Hm1 & _). pose proof (field_len _ r0 Hrs) as Hf0.
    destruct (IH r0 (lossy (separator r ++ escape_transit_realm r) ++ rest) Hrs) as (l & Hl & Hloop);
      [lia|].
    assert (good_realm r0) as Hg0 by (by apply list.Forall_app in Hrs as [_ Hr0]; inversion Hr0).
    assert (prefix (enc (rs ++ [r0])) r = enc (rs ++ [r0]) ++ separator r) as Hp.
    { unfold prefix. destruct (enc (rs ++ [r0])) eqn:E; [|done].
      unfold blen in *. simpl in *. lia. }
    exists r0. split; [by destruct rs|].
    rewrite He, Hp, <- app_assoc, lossy_app, <- app_assoc, Hloop by (by apply is_str_enc).
    rewrite lossy_app, <- app_assoc by apply is_str_separator.
    assert (blen rs < MAX_TRANSIT_HOPS) by (unfold blen, MAX_TRANSIT_HOPS, MAX_ADD_PATH_RAW in *; lia).
    assert (field (rs ++ [r0]) r = (if starts_with r SLASH then [SPACE] else []) ++ r) as Hfr
      by (by destruct rs).
    rewrite Hfr in Hf |- *. unfold separator.
    destruct (starts_with r SLASH); cbn [lossy]; simpl;
      rewrite emit_add_path_good by (done || lia); simpl;
      apply (add_path_realm r); try done; simpl in *; lia.
Qed.

(** ** Round trips *)

Lemma strip_enc rs : Forall good_realm rs ->
  strip_trailing_nul (enc rs) = enc rs /\ drop_trailing_unescaped_comma (enc rs) = enc rs.
Proof.
  intros H. destruct rs as [|r rs] using rev_ind; [done|clear IHrs].
  destruct (enc_snoc rs r H) as [_ ->]. apply closed_escape, even_tail_prefix.
  apply list.Forall_app in H as [_ Hr]. by inversion Hr.
Qed.

Lemma enc_not_nil rs r : Forall good_realm (rs ++ [r]) -> enc (rs ++ [r]) <> [].
Proof.
  intros H E. pose proof (enc_len rs r H) as (Hl & _). rewrite E in Hl. unfold blen in Hl. simpl in Hl. lia.
Qed.

Lemma expand_add_path_enc rs :
  Forall good_realm rs -> blen (enc rs) < MAX_ADD_PATH_TOTAL -> expand_add_path (enc rs) = Ok rs.
Proof.
  intros H Hb. unfold expand_add_path. destruct (strip_enc rs H) as [-> ->].
  rewrite (proj2 (Z.leb_gt _ _) Hb).
  destruct rs as [|r rs] using rev_ind; [done|clear IHrs].
  destruct (add_path_enc rs r [] H Hb) as (l & Hl & Hloop). rewrite app_nil_r in Hloop.
  pose proof (enc_not_nil rs r H). pose proof (enc_len rs r H) as (Hlt & _).
  pose proof (field_len rs r H). destruct (enc (rs ++ [r])) eqn:E; [done|]. rewrite Hloop. simpl.
  apply list.Forall_app in H as [_ Hr]. inversion Hr as [|? ? Hg _]; subst.
  unfold MAX_ADD_PATH_TOTAL in *.
  rewrite emit_add_path_good; unfold MAX_ADD_PATH_RAW, MAX_TRANSIT_HOPS; (done || lia).
Qed.

Lemma realms_for_enc rs crealm srealm :
  Forall good_realm rs -> blen (enc rs) < MAX_ADD_PATH_TOTAL ->
  commas (enc rs) <= MAX_TRANSIT_REALMS -> realms_for (from_realms rs) crealm srealm = Ok rs.
Proof.
  intros H Hb Hc. unfold realms_for, expand_domain_x500. change (contents (from_realms rs)) with (enc rs).
  destruct (strip_enc rs H) as [-> _]. rewrite (proj2 (Z.ltb_ge _ _) Hc).
  destruct rs as [|r rs] using rev_ind; [done|clear IHrs].
  destruct (scan_enc crealm rs r H Hb) as (l & Hl & Hscan).
  pose proof (enc_not_nil rs r H). pose proof (enc_len rs r H) as (Hlt & Hsum & Hr' & Hpre).
  destruct (enc (rs ++ [r])) eqn:E; [done|]. rewrite Hscan. simpl.
  apply list.Forall_app in H as [_ Hr]. inversion Hr as [|? ? Hg _]; subst.
  assert (r <> []) by apply Hg. destruct r as [|b0 r]; [done|]. unfold MAX_ADD_PATH_TOTAL in *.
  rewrite emit_joined_good; [done|done|done| |];
    unfold MAX_TRANSIT_RAW, MAX_TRANSIT_HOPS, blen in *; lia.
Qed.

(** ** Realms as lists of labels *)

(** [a] is [r] or one of the realms above it in the hierarchy of names. *)
Definition above (a r : bytes) : Prop := a = r \/ exists x, r = x ++ [DOT] ++ a.

Lemma split_dot_cons s : exists l ls, split_dot s = l :: ls.
Proof.
  induction s as [|c s (l & ls & IH)]; simpl; [eauto|]. case_bool_decide; [eauto|].
  rewrite IH. eauto.
Qed.

Lemma join_dot_cons x l : l <> [] -> join_dot (x :: l) = x ++ [DOT] ++ join_dot l.
Proof. by destruct l. Qed.

Lemma join_split s : join_dot (split_dot s) = s.
Proof.
  induction s as [|c s IH]; [done|]. simpl. destruct (split_dot_cons s) as (l & ls & E).
  rewrite E in *. case_bool_decide as Hc.
  - rewrite join_dot_cons, IH by done. by rewrite Hc.
  - destruct ls; simpl in *; by rewrite IH.
Qed.

#[global] Instance split_dot_inj : Inj (=) (=) split_dot.
Proof. intros a b H. by rewrite <- (join_split a), H, join_split. Qed.

(** The labels of [h] are a suffix of those of [r] when [h] is above [r]. *)
Lemma split_dot_above x h : exists l, split_dot (x ++ [DOT] ++ h) = l ++ split_dot h /\ l <> [].
Proof.
  induction x as [|c x (l & IH & Hl)]; simpl in *.
  - by exists [[]].
  - case_bool_decide; [by exists ([] :: l); rewrite IH|].
    destruct l as [|l0 l]; [done|]. rewrite IH. simpl. by exists ((c :: l0) :: l).
Qed.

Lemma split_dot_tail r l h : split_dot r = l ++ split_dot h -> l <> [] -> exists x, r = x ++ [DOT] ++ h.
Proof.
  intros H Hl. exists (join_dot l). rewrite <- (join_split r), H. clear H.
  destruct (split_dot_cons h) as (a & b & E).
  induction l as [|x l IH]; [done|]. destruct l as [|y l].
  - rewrite <- (join_split h) at 2. rewrite E. done.
  - change ((x :: y :: l) ++ split_dot h) with (x :: ((y :: l) ++ split_dot h)).
    rewrite join_dot_cons, (IH ltac:(done)), (join_dot_cons x (y :: l)) by done.
    by rewrite <- !app_assoc.
Qed.

Lemma above_suffix h r : above h r <-> split_dot h `suffix_of` split_dot r.
Proof.
  split.
  - intros [->|[x ->]]; [done|]. destruct (split_dot_above x h) as (l & -> & _). by exists l.
  - intros [l Hl]. destruct l as [|y l].
    + left. by apply (inj split_dot).
    + right. by eapply split_dot_tail.
Qed.

(** The realms above [r], nearest first, are joins of the suffixes of its labels. *)
Lemma tails_lookup c k x : tails c !! k = Some x <-> (k < length c)%nat /\ x = join_dot (drop k c).
Proof.
  unfold tails. rewrite list_lookup_fmap, fmap_Some. setoid_rewrite lookup_seq. split.
  - by intros (j & [-> ?] & ->).
  - intros [? ->]. by exists k.
Qed.

Lemma length_tails c : length (tails c) = length c.
Proof. unfold tails. by rewrite length_map, length_seq. Qed.

Lemma split_drop r k :
  (k < length (split_dot r))%nat -> split_dot (join_dot (drop k (split_dot r))) = drop k (split_dot r).
Proof.
  revert k. induction r as [|c r IH]; intros k; simpl.
  { intros Hk. by destruct k; [|lia]. }
  destruct (split_dot_cons r) as (l & ls & E). case_bool_decide as Hc.
  - intros Hk. destruct k as [|k]; simpl in *.
    + rewrite E, <- E, join_split. simpl. done.
    + apply IH. lia.
  - rewrite E in *. intros Hk. destruct k as [|k].
    + specialize (IH 0%nat ltac:(simpl; lia)). simpl in IH |- *.
      destruct ls as [|l' ls]; simpl in *; rewrite bool_decide_eq_false_2 by done; by rewrite IH.
    + apply (IH (S k)). simpl in *. lia.
Qed.

Lemma elem_tails h r n :
  h ∈ take n (tails (split_dot r)) <->
  split_dot h `suffix_of` split_dot r /\ (length (split_dot r) < length (split_dot h) + n)%nat.
Proof.
  assert (0 < length (split_dot h))%nat by (destruct (split_dot_cons h) as (? & ? & ->); simpl; lia).
  rewrite list_elem_of_lookup. setoid_rewrite lookup_take_Some. setoid_rewrite tails_lookup. split.
  - intros (k & (Hk & ->) & Hn). rewrite split_drop by done. split; [apply suffix_drop|].
    rewrite length_drop. lia.
  - intros [[l Hl] Hn]. exists (length l). rewrite Hl, length_app in *.
    rewrite drop_app_length, join_split. split_and!; [lia|done|lia].
Qed.

(** ** The hierarchical path *)

Lemma common_len_le c s : (common_len c s <= length c)%nat /\ (common_len c s <= length s)%nat.
Proof.
  revert s. induction c as [|x c IH]; intros [|y s]; simpl; try lia.
  case_bool_decide; [|lia]. specialize (IH s). lia.
Qed.

Lemma common_len_take c s : take (common_len c s) c = take (common_len c s) s.
Proof.
  revert s. induction c as [|x c IH]; intros [|y s]; simpl; try done.
  case_bool_decide as E; [|done]. simpl. by rewrite E, IH.
Qed.

Lemma common_len_max p c s : p `prefix_of` c -> p `prefix_of` s -> (length p <= common_len c s)%nat.
Proof.
  revert c s. induction p as [|x p IH]; intros c s [c' ->] [s' Hs]; simpl; [lia|].
  subst s. simpl. rewrite bool_decide_eq_true_2 by done.
  apply le_n_S, IH; by eexists.
Qed.

(** A common suffix of two lists of labels, as long as there is. *)
Definition common (c s : list bytes) : nat := common_len (rev c) (rev s).

Lemma suffix_rev {A} (l c : list A) : l `suffix_of` c <-> rev l `prefix_of` rev c.
Proof. rewrite suffix_prefix_reverse. unfold reverse. by rewrite <- !rev_alt. Qed.

Lemma common_suffix c s l :
  l `suffix_of` c -> (length l <= common c s)%nat -> l `suffix_of` s.
Proof.
  intros [k Hk]%suffix_rev Hn. apply suffix_rev. unfold common in Hn.
  assert (take (length l) (rev s) = rev l) as E.
  { pose proof (common_len_take (rev c) (rev s)) as Ht.
    apply (f_equal (take (length l))) in Ht. rewrite !take_take, !Nat.min_l in Ht by lia.
    rewrite <- Ht, Hk. by rewrite take_app_le, take_ge by (rewrite length_rev; lia). }
  exists (drop (length l) (rev s)). by rewrite <- E, take_drop.
Qed.

Lemma common_comm c s : common c s = common s c.
Proof.
  unfold common. generalize (rev c) (rev s). intros a. induction a as [|x a IH]; intros [|y b]; try done.
  simpl. rewrite (bool_decide_ext (x = y) (y = x)) by done. by rewrite IH.
Qed.

Lemma common_max c s l : l `suffix_of` c -> l `suffix_of` s -> (length l <= common c s)%nat.
Proof.
  intros Hc%suffix_rev Hs%suffix_rev.
  rewrite <- (length_rev l). by apply common_len_max.
Qed.

Lemma common_exists c s : exists l, length l = common c s /\ l `suffix_of` c /\ l `suffix_of` s.
Proof.
  pose proof (common_len_le (rev c) (rev s)) as [Hc Hs]. rewrite !length_rev in *.
  exists (drop (length c - common c s) c). unfold common in *. rewrite length_drop.
  split_and!; [lia|apply suffix_drop|].
  eapply common_suffix; [apply suffix_drop|]. rewrite length_drop. unfold common. lia.
Qed.

(** The realms of the path: those above the client but not the server, those
    above the server but not the client, and the nearest above both. *)
Definition between (c s h : bytes) : Prop :=
  (above h c /\ ~ above h s) \/ (above h s /\ ~ above h c)
  \/ (above h c /\ above h s /\ forall a, above a c -> above a s -> above a h).

Lemma hier_walk_unfold client server :
  client <> server -> blen client < MAX_TRANSIT_RAW -> blen server < MAX_TRANSIT_RAW ->
  let c := split_dot client in let s := split_dot server in let n := common c s in
  hierarchical_walk_realms client server
  = take (if (n =? 0)%nat then length c else length c - n + 1)%nat (tails c)
    ++ rev (take (length s - n) (tails s)).
Proof.
  intros Hne Hc Hs. unfold hierarchical_walk_realms.
  rewrite (proj2 (Z.leb_gt _ _) Hc), (proj2 (Z.leb_gt _ _) Hs), bool_decide_eq_false_2 by done. simpl.
  destruct (split_dot_cons client) as (c0 & c & Ec). destruct (split_dot_cons server) as (s0 & s & Es).
  rewrite !length_tails, Ec, Es. fold (common (c0 :: c) (s0 :: s)).
  destruct (Nat.eqb_spec (common (c0 :: c) (s0 :: s)) 0) as [->|_]; [|done].
  by rewrite Nat.sub_0_r.
Qed.

Lemma elem_rev {A} (h : A) l : h ∈ rev l <-> h ∈ l.
Proof. by rewrite !list_elem_of_In, <- in_rev. Qed.

Lemma elem_walk client server h :
  client <> server -> blen client < MAX_TRANSIT_RAW -> blen server < MAX_TRANSIT_RAW ->
  let c := split_dot client in let s := split_dot server in let l := split_dot h in
  h ∈ hierarchical_walk_realms client server <->
  (l `suffix_of` c /\ (common c s <= length l)%nat) \/ (l `suffix_of` s /\ (common c s < length l)%nat).
Proof.
  intros Hne Hc Hs c s l. rewrite hier_walk_unfold by done. fold c s.
  rewrite elem_of_app, elem_rev. change (tails c) with (tails (split_dot client)).
  change (tails s) with (tails (split_dot server)). rewrite !elem_tails. fold c s l.
  pose proof (common_len_le (rev c) (rev s)) as [Hlc Hls]. rewrite !length_rev in *.
  fold (common c s) in *.
  assert (0 < length l)%nat by (unfold l; destruct (split_dot_cons h) as (? & ? & ->); simpl; lia).
  destruct (Nat.eqb_spec (common c s) 0) as [E|E];
    split; (intros [[Hx Hn]|[Hx Hn]]; [left|right]; split; [done|lia|done|lia]).
Qed.

Lemma walk_between client server h :
  client <> server -> blen client < MAX_TRANSIT_RAW -> blen server < MAX_TRANSIT_RAW ->
  h ∈ hierarchical_walk_realms client server <-> between client server h.
Proof.
  intros Hne Hc Hs. rewrite elem_walk by done. unfold between. setoid_rewrite above_suffix.
  set (c := split_dot client). set (s := split_dot server). set (l := split_dot h).
  split.
  - intros [[Hlc Hn]|[Hls Hn]].
    + destruct (decide (l `suffix_of` s)) as [Hls|]; [|auto]. right. right. split_and!; [done..|].
      intros a Hac Has. pose proof (common_max c s _ Hac Has).
      destruct (suffix_weak_total _ _ _ Hac Hlc) as [?|Hla]; [done|].
      rewrite (suffix_length_eq _ _ Hla) by lia. done.
    + right. left. split; [done|]. intros Hlc. pose proof (common_max c s l Hlc Hls). lia.
  - intros [[Hlc Hls]|[[Hls Hlc]|(Hlc & Hls & Hmax)]].
    + left. split; [done|]. destruct (decide (common c s <= length l)%nat); [done|].
      destruct Hls. apply (common_suffix c); [done|lia].
    + right. split; [done|]. destruct (decide (common c s < length l)%nat); [done|].
      destruct Hlc. apply (common_suffix s); [done|rewrite common_comm; lia].
    + left. split; [done|]. destruct (common_exists c s) as (g & Hg & Hgc & Hgs).
      rewrite <- Hg. destruct g as [|g0 g]; [simpl; lia|].
      assert (split_dot (join_dot (g0 :: g)) = g0 :: g) as Esplit.
      { destruct Hgc as [k Hk]. assert (g0 :: g = drop (length k) c) as -> by (by rewrite Hk, drop_app_length).
        apply split_drop. fold c. rewrite Hk, length_app. simpl. lia. }
      specialize (Hmax (join_dot (g0 :: g))). rewrite Esplit in Hmax.
      by apply suffix_length, Hmax.
Qed.

Lemma tails_head r : exists ts, tails (split_dot r) = r :: ts /\ r ∉ ts.
Proof.
  destruct (tails (split_dot r)) as [|x ts] eqn:E.
  { apply (f_equal length) in E. rewrite length_tails in E.
    destruct (split_dot_cons r) as (? & ? & E'). by rewrite E' in E. }
  assert (tails (split_dot r) !! 0%nat = Some x) as Hx by (by rewrite E).
  apply tails_lookup in Hx as [_ ->]. simpl. exists ts. rewrite drop_0, join_split. split; [done|].
  intros [k Hk]%list_elem_of_lookup.
  assert (tails (split_dot r) !! S k = Some r) as H by (by rewrite E).
  apply tails_lookup in H as [Hlt H]. apply (f_equal split_dot) in H.
  rewrite split_drop in H by done. apply (f_equal length) in H. rewrite length_drop in H. lia.
Qed.

(** The path ends at the server, which is nowhere else on it. *)
Lemma walk_last client server :
  client <> server -> blen client < MAX_TRANSIT_RAW -> blen server < MAX_TRANSIT_RAW ->
  exists p, hierarchical_walk_realms client server = p ++ [server] /\ server ∉ p.
Proof.
  intros Hne Hc Hs. rewrite hier_walk_unfold by done. cbv zeta.
  set (c := split_dot client). set (s := split_dot server).
  pose proof (common_len_le (rev c) (rev s)) as [Hlc Hls]. rewrite !length_rev in *.
  fold (common c s) in *. set (n := common c s) in *.
  assert (0 < length s)%nat by (unfold s; destruct (split_dot_cons server) as (? & ? & ->); simpl; lia).
  destruct (decide (n = length s)) as [En|Hn].
  - rewrite (proj2 (Nat.eqb_neq n 0)) by lia. rewrite <- En, Nat.sub_diag. simpl. rewrite app_nil_r.
    assert (drop (length c - n) c = s) as Ed.
    { apply suffix_length_eq; [|rewrite length_drop; lia].
      apply (common_suffix c); [apply suffix_drop|rewrite length_drop; fold n; lia]. }
    assert (tails c !! (length c - n)%nat = Some server) as Hl.
    { apply tails_lookup. rewrite Ed. unfold s. rewrite join_split. split; [lia|done]. }
    exists (take (length c - n) (tails c)). split.
    + rewrite Nat.add_1_r. by apply take_S_r.
    + unfold c. rewrite elem_tails. fold c s. intros [_ ?]. lia.
  - destruct (tails_head server) as (ts & Ets & Hts). fold s in Ets. rewrite Ets.
    destruct (length s - n)%nat as [|m] eqn:Em; [lia|]. simpl. rewrite app_assoc.
    eexists. split; [done|]. rewrite elem_of_app, elem_rev. intros [Hin|Hin%elem_of_take].
    + unfold c in Hin. apply elem_tails in Hin as [Hsuf _].
      pose proof (common_max c s s Hsuf ltac:(done)) as Hm. fold n in Hm. lia.
    + destruct Hin as (k & Hk & _). by apply Hts, (list_elem_of_lookup_2 _ k).
Qed.

(** What the check allows when no capath is configured. *)
Lemma transit_allowed_hier capaths client server hops :
  client <> server -> blen client < MAX_TRANSIT_RAW -> blen server < MAX_TRANSIT_RAW ->
  capaths !! client ≫= (fun m => m !! server) = None ->
  transit_allowed capaths client server hops = true <->
  Forall (fun h => h <> server /\ between client server h) hops.
Proof.
  intros Hne Hc Hs Hcap. unfold transit_allowed, walk_realm_tree.
  rewrite bool_decide_eq_false_2, Hcap by done.
  destruct (walk_last client server Hne Hc Hs) as (p & Hp & Hnot).
  rewrite Hp, length_app. simpl. rewrite Nat.add_sub, take_app_length.
  rewrite <- Is_true_true, forallb_True. apply Forall_iff. intros h.
  rewrite bool_decide_spec, <- walk_between, Hp, elem_of_app, list_elem_of_singleton by done.
  split; [|tauto]. intros Hh. split; [by intros ->|auto].
Qed.

(** A realm a ticket may have passed: one that the capath between the two realms
    lists, or the client's own; where none is configured, one between them in the
    hierarchy of names. *)
Definition passable (capaths : Capaths) (client server h : bytes) : Prop :=
  match capaths !! client ≫= (fun m => m !! server) with
  | Some vals => h = client \/ (h ∈ vals /\ h <> [DOT])
  | None => h <> server /\ between client server h
  end.

Lemma transit_allowed_passable capaths client server hops :
  client <> server -> blen client < MAX_TRANSIT_RAW -> blen server < MAX_TRANSIT_RAW ->
  transit_allowed capaths client server hops = true <-> Forall (passable capaths client server) hops.
Proof.
  intros Hne Hc Hs. unfold passable. destruct (_ ≫= _) as [vals|] eqn:E; [|by apply transit_allowed_hier].
  unfold transit_allowed, walk_realm_tree. rewrite bool_decide_eq_false_2, E by done.
  rewrite app_comm_cons, length_app, Nat.add_sub, take_app_length.
  rewrite <- Is_true_true, forallb_True. apply Forall_iff. intros h.
  rewrite bool_decide_spec, elem_of_cons, list_elem_of_filter. tauto.
Qed.

(** ** Claims *)

Definition add_realm (rs : list bytes) (r : bytes) : list bytes :=
  if decide (r ∈ rs) then rs else rs ++ [r].

Lemma add_realm_good rs r : Forall good_realm (rs ++ [r]) -> Forall good_realm (add_realm rs r).
Proof. unfold add_realm. case_decide; [|done]. by intros [? _]%list.Forall_app. Qed.

Lemma append_realm_enc rs r crealm srealm :
  Forall good_realm (rs ++ [r]) -> blen (enc rs) < MAX_ADD_PATH_TOTAL ->
  append_realm (from_realms rs) r crealm srealm
  = if blen (enc (add_realm rs r)) <? MAX_ADD_PATH_TOTAL
    then Ok (from_realms (add_realm rs r)) else Err FieldTooLong.
Proof.
  intros H Hb. unfold append_realm. change (contents (from_realms rs)) with (enc rs).
  pose proof H as [Hrs _]%list.Forall_app.
  rewrite expand_add_path_enc by done. unfold add_realm.
  assert (existsb (fun h => bool_decide (h = r)) rs = bool_decide (r ∈ rs)) as ->.
  { apply eq_true_iff_eq. rewrite existsb_exists, bool_decide_eq_true. split.
    - by intros (x & Hx%list_elem_of_In & ->%bool_decide_eq_true).
    - intros Hr%list_elem_of_In. exists r. by rewrite bool_decide_eq_true_2. }
  case_bool_decide as Hin.
  - rewrite decide_True by done. by rewrite (proj2 (Z.ltb_lt _ _) Hb).
  - rewrite decide_False by done. destruct (enc_snoc rs r H) as [Hcl He].
    rewrite encode_append_closed, <- He by done.
    destruct (Z.ltb_spec (blen (enc (rs ++ [r]))) MAX_ADD_PATH_TOTAL) as [Hlt|Hge].
    + rewrite (proj2 (Z.leb_gt _ _) Hlt). done.
    + by rewrite (proj2 (Z.leb_le _ _) Hge).
Qed.

(** C35: The transited field is an ordered set of realms.  Appending a realm to
    the encoding of [rs] gives the encoding of [rs] with that realm added once,
    at the end, or the length error when that does not fit in 500 bytes; and the
    expansion used by the path check reads the realms back in order.  The
    realms may contain commas and backslashes and may start with a slash, but
    not start with a space nor end with a dot or NUL. *)
Theorem append_realm_refines rs r crealm srealm :
  Forall good_realm (rs ++ [r]) -> blen (enc rs) < MAX_ADD_PATH_TOTAL ->
  append_realm (from_realms rs) r crealm srealm
  = (if blen (enc (add_realm rs r)) <? MAX_ADD_PATH_TOTAL
     then Ok (from_realms (add_realm rs r)) else Err FieldTooLong)
  /\ (blen (enc (add_realm rs r)) < MAX_ADD_PATH_TOTAL ->
      commas (enc (add_realm rs r)) <= MAX_TRANSIT_REALMS ->
      realms_for (from_realms (add_realm rs r)) crealm srealm = Ok (add_realm rs r)).
Proof.
  intros H Hb. split; [by apply append_realm_enc|].
  intros. apply realms_for_enc; [by apply add_realm_good|done..].
Qed.


(** The transit step of a TGS request.  A KDC that gets a cross-realm ticket
    whose field encodes [rs] from a realm other than the client's issues one
    whose field encodes [rs] with that realm added; it marks the path as checked
    exactly when it is not told to skip the check and either the client is
    anonymous or every realm of the new field is between the client's realm
    and its own; and with [reject_bad_transit] it refuses the request when the path
    is neither checked here nor, on renewal or validation, was checked before. *)
Theorem tgs_transit_step rs flags prev_hop client req_realm cross skip renew validate reject capaths :
  let rs' := if cross && negb (bool_decide (prev_hop = client)) then add_realm rs prev_hop else rs in
  Forall good_realm (rs ++ [prev_hop]) -> blen (enc rs) < MAX_ADD_PATH_TOTAL ->
  blen (enc rs') < MAX_ADD_PATH_TOTAL -> commas (enc rs') <= MAX_TRANSIT_REALMS ->
  client <> req_realm -> blen client < MAX_TRANSIT_RAW -> blen req_realm < MAX_TRANSIT_RAW ->
  capaths !! client ≫= (fun m => m !! req_realm) = None ->
  exists checked,
    (checked = true <-> skip = false /\
      (client = ANONYMOUS_REALM \/
       Forall (fun h => h <> req_realm /\ between client req_realm h) rs')) /\
    tgs_transit (from_realms rs) flags prev_hop client req_realm cross skip renew validate reject capaths
    = if reject && negb checked &&
         negb ((renew || validate) && Flags.bit flags flag_bit.TRANSITED_POLICY_CHECKED)
      then Err (proto err.POLICY "BAD_TRANSIT") else Ok (from_realms rs', checked).
Proof.
  intros rs' H Hb Hb' Hcm Hne Hc Hs Hcap.
  exists (negb skip && (bool_decide (client = ANONYMOUS_REALM) || transit_allowed capaths client req_realm rs')).
  assert (Forall good_realm rs') as Hg.
  { unfold rs'. case_match; [by apply add_realm_good|by apply list.Forall_app in H as [? _]]. }
  split.
  - rewrite andb_true_iff, orb_true_iff, negb_true_iff, bool_decide_eq_true.
    by rewrite transit_allowed_hier.
  - unfold tgs_transit. change (tr_type (from_realms rs) =? 1) with true.
    assert ((if cross && negb (bool_decide (prev_hop = client))
             then map_err (fun _ => proto err.ILL_CR_TKT "ADD_TO_TRANSITED_LIST")
                    (append_realm (from_realms rs) prev_hop client req_realm)
             else Ok (from_realms rs)) = Ok (from_realms rs')) as E.
    { unfold rs' in *. destruct (cross && negb (bool_decide (prev_hop = client))); [|done].
      rewrite append_realm_enc by done. by rewrite (proj2 (Z.ltb_lt _ _) Hb'). }
    cbn [negb]. rewrite E, realms_for_enc by done.
    destruct skip, reject, (bool_decide (client = ANONYMOUS_REALM)),
      (transit_allowed capaths client req_realm rs'),
      ((renew || validate) && Flags.bit flags flag_bit.TRANSITED_POLICY_CHECKED); done.
Qed.

(** The vectors of [krb5-types/src/tests.rs]. *)
Local Abbreviation lit := String.list_byte_of_string.

Definition realms_of (crealm srealm t : string) : result TransitError (list bytes) :=
  realms_for (mkTransited 1 (lit t)) (lit crealm) (lit srealm).

Example expand_vectors :
  realms_of "" "" "EX.COM,B." = Ok (map lit ["EX.COM"; "B.EX.COM"]%string) /\
  realms_of "ATHENA.MIT.EDU" "HACK.FOOBAR.COM" ",EDU,BLORT.COM,COM,"
  = Ok (map lit ["EDU"; "MIT.EDU"; "BLORT.COM"; "COM"; "FOOBAR.COM"]%string) /\
  realms_of "ATHENA.MIT.EDU" "EDU" "," = Ok [lit "MIT.EDU"] /\
  realms_of "x" "x" "/COM,/HP,/APOLLO, /COM/DEC"
  = Ok (map lit ["/COM"; "/COM/HP"; "/COM/HP/APOLLO"; "/COM/DEC"]%string) /\
  realms_of "ATHENA.MIT.EDU" "/COM/HP/APOLLO" ",EDU,/COM," = Err BadIntermediates /\
  realms_of "ATHENA.MIT.EDU" "/COM/HP/APOLLO" ",EDU, /COM,"
  = Ok (map lit ["EDU"; "MIT.EDU"; "/COM"; "/COM/HP"]%string) /\
  realms_of "XYZZY.ATHENA.MIT.EDU" "XYZZY.CS.CMU.EDU" ",EDU,"
  = Ok (map lit ["EDU"; "MIT.EDU"; "ATHENA.MIT.EDU"; "CMU.EDU"; "CS.CMU.EDU"]%string) /\
  realms_of "" "" "X.COM,C\." = Ok (map lit ["X.COM"; "C.X.COM"]%string) /\
  realms_for (mkTransited 1 (replicate 300 COMMA)) [] [] = Err TooManyFields.
Proof. vm_compute. by split_and!. Qed.

Lemma good_ascii r :
  forallb (fun b => u8z b <? 0x80) r = true ->
  negb (bool_decide (r = [])) && negb (starts_with r SPACE) && negb (ends_with r DOT)
  && negb (ends_with r x00) = true ->
  good_realm r.
Proof.
  intros Ha Hg. to_prop. unfold good_realm. split_and!; try done; by apply is_str_ascii.
Qed.

Local Ltac good := repeat constructor; apply good_ascii; reflexivity.

Definition sample_hops : list bytes := map lit ["EX.COM"; "/X,Y"]%string.

Lemma append_realm_refines_witness :
  append_realm (from_realms sample_hops) (lit "/X500") [] [] = Ok (from_realms (sample_hops ++ [lit "/X500"])) /\
  realms_for (from_realms (sample_hops ++ [lit "/X500"])) [] [] = Ok (sample_hops ++ [lit "/X500"]).
Proof.
  destruct (append_realm_refines sample_hops (lit "/X500") [] []) as [H1 H2];
    [unfold sample_hops; good|reflexivity|].
  split; [exact H1|]. apply H2; [reflexivity|vm_compute; discriminate].
Defined.


Lemma tgs_transit_step_witness :
  exists checked, tgs_transit (from_realms []) Flags.none (lit "EX.COM") (lit "A.EX.COM") (lit "C.EX.COM")
    true false false false true ∅
  = if true && negb checked && true then Err (proto err.POLICY "BAD_TRANSIT")
    else Ok (from_realms [lit "EX.COM"], checked).
Proof.
  destruct (tgs_transit_step [] Flags.none (lit "EX.COM") (lit "A.EX.COM") (lit "C.EX.COM")
              true false false false true ∅) as (checked & _ & H);
    [good|reflexivity|reflexivity|vm_compute; discriminate|discriminate|reflexivity|reflexivity|reflexivity|].
  exists checked. exact H.
Defined.

End Transit.
