(* ===== verification/Messages.v ===== *)
(** * The messages of the exchanges

    The ASN.1 types of [krb5-types/src/lib.rs], [fast.rs], [cammac.rs] and
    [s4u.rs] the KDC reads and writes, field by field, under the names of the
    source with a prefix where two types share a field name.  A [KerberosString]
    is its bytes, a [KerberosTime] its Unix seconds, an [i32] or [u32] a [Z], a
    [BitString] a list of bits.

    Their DER encoding is the work of the rasn crate and its derive macros; it is
    the class [Codec], with the law that what was encoded is read back when its
    numbers, times and strings are in the range of their types, whatever octets
    follow ([krb5_asn1::decode] accepts a remainder).  [ToyCodec] shows that the
    law can be met. *)

From S2P Require Import Prelude Etype Name Time Kdc Transit.

Abbreviation PrincipalName := PrincipalName.PrincipalName.
Abbreviation TransitedEncoding := Transit.TransitedEncoding.

(** ** Types *)

Record HostAddress := mkHost { addr_type : Z; address : bytes }.

Record AuthorizationDataValue := mkAd { ad_type : Z; ad_data : bytes }.
Abbreviation AuthorizationData := (list AuthorizationDataValue).

Record PaData := mkPa { padata_type : Z; padata_value : bytes }.
Abbreviation MethodData := (list PaData).

Record TypedData := mkTyped { data_type : Z; data_value : bytes }.

Record EncryptedData := mkEnc { ed_etype : Z; ed_kvno : option Z; cipher : bytes }.

Record EncryptionKey := mkKey { keytype : Z; keyvalue : bytes }.

Record Checksum := mkCksum { cksumtype : Z; checksum : bytes }.

Record Ticket := mkTicket { tkt_vno : Z; tkt_realm : bytes; tkt_sname : PrincipalName; tkt_enc_part : EncryptedData }.

Record KdcReqBody := mkBody {
  kdc_options : list bool;
  cname : option PrincipalName;
  body_realm : bytes;
  sname : option PrincipalName;
  from : option Z;
  till : Z;
  rtime : option Z;
  nonce : Z;
  body_etype : list Z;
  addresses : option (list HostAddress);
  enc_authorization_data : option EncryptedData;
  additional_tickets : option (list Ticket);
}.

Record KdcReq := mkReq { req_pvno : Z; req_msg_type : Z; padata : option MethodData; req_body : KdcReqBody }.

Definition MSG_AS_REQ : Z := 10.
Definition MSG_AS_REP : Z := 11.
Definition MSG_TGS_REQ : Z := 12.
Definition MSG_TGS_REP : Z := 13.
Definition MSG_ERROR : Z := 30.
Definition PVNO : Z := 5.

(** [AsReq] and [TgsReq] are [KdcReq] under another tag. *)
Record AsReq := mkAsReq { as_req : KdcReq }.
Record TgsReq := mkTgsReq { tgs_req : KdcReq }.

Record KdcRep := mkRep {
  rep_pvno : Z;
  rep_msg_type : Z;
  rep_padata : option MethodData;
  rep_crealm : bytes;
  rep_cname : PrincipalName;
  rep_ticket : Ticket;
  rep_enc_part : EncryptedData;
}.

Record AsRep := mkAsRep { as_rep : KdcRep }.
Record TgsRep := mkTgsRep { tgs_rep : KdcRep }.

Record ApReq := mkApReq {
  ap_pvno : Z;
  ap_msg_type : Z;
  ap_options : list bool;
  ap_ticket : Ticket;
  ap_authenticator : EncryptedData;
}.

Module ap_bit.
Definition USE_SESSION_KEY : nat := 1.
Definition MUTUAL_REQUIRED : nat := 2.
End ap_bit.

Record KrbError := mkKrbError {
  err_pvno : Z;
  err_msg_type : Z;
  err_ctime : option Z;
  err_cusec : option Z;
  err_stime : Z;
  err_susec : Z;
  error_code : Z;
  err_crealm : option bytes;
  err_cname : option PrincipalName;
  err_realm : bytes;
  err_sname : PrincipalName;
  e_text : option bytes;
  err_e_data : option bytes;
}.

Record PaEncTsEnc := mkTs { patimestamp : Z; pausec : option Z }.

Record EtypeInfo2Entry := mkInfo2 { info2_etype : Z; info2_salt : option bytes; s2kparams : option bytes }.
Record EtypeInfoEntry := mkInfo { info_etype : Z; info_salt : option bytes }.

Record PaPacRequest := mkPacRequest { include_pac : bool }.

(** [PaPacOptions]: its flags. *)
Record PaPacOptions := mkPacOptions { pac_options : list bool }.

Definition PAC_OPTIONS_RBCD : nat := 3.

Record LastReqValue := mkLastReq { lr_type : Z; lr_value : Z }.

(** [EncKdcRepPart], written as an [EncTgsRepPart] in both exchanges. *)
Record EncKdcRepPart := mkRepPart {
  rp_key : EncryptionKey;
  rp_last_req : list LastReqValue;
  rp_nonce : Z;
  rp_key_expiration : option Z;
  rp_flags : list bool;
  rp_authtime : Z;
  rp_starttime : option Z;
  rp_endtime : Z;
  rp_renew_till : option Z;
  rp_srealm : bytes;
  rp_sname : PrincipalName;
  rp_caddr : option (list HostAddress);
  rp_encrypted_pa_data : option MethodData;
}.

Record Authenticator := mkAuth {
  authenticator_vno : Z;
  auth_crealm : bytes;
  auth_cname : PrincipalName;
  auth_cksum : option Checksum;
  auth_cusec : Z;
  auth_ctime : Z;
  auth_subkey : option EncryptionKey;
  auth_seq_number : option Z;
  auth_authorization_data : option AuthorizationData;
}.

Record EncTicketPart := mkTktPart {
  tp_flags : list bool;
  tp_key : EncryptionKey;
  tp_crealm : bytes;
  tp_cname : PrincipalName;
  tp_transited : TransitedEncoding;
  tp_authtime : Z;
  tp_starttime : option Z;
  tp_endtime : Z;
  tp_renew_till : option Z;
  tp_caddr : option (list HostAddress);
  tp_authorization_data : option AuthorizationData;
}.

(** *** FAST *)

Definition ARMOR_AP_REQUEST : Z := 1.

Record KrbFastArmor := mkArmor { armor_type : Z; armor_value : bytes }.

(** The one alternative of [PaFxFast]. *)
Record KrbFastArmoredReq := mkArmored {
  armor : option KrbFastArmor;
  req_checksum : Checksum;
  enc_fast_req : EncryptedData;
}.

Record KrbFastReq := mkFastReq { freq_options : list bool; freq_padata : MethodData; freq_body : KdcReqBody }.

Record KrbFastFinished := mkFinished {
  fin_timestamp : Z;
  fin_usec : Z;
  fin_crealm : bytes;
  fin_cname : PrincipalName;
  ticket_checksum : Checksum;
}.

Record KrbFastResponse := mkFastResp {
  resp_padata : MethodData;
  strengthen_key : option EncryptionKey;
  finished : option KrbFastFinished;
  resp_nonce : Z;
}.

(** The one alternative of [PaFxFastRep]. *)
Record KrbFastArmoredRep := mkArmoredRep { enc_fast_rep : EncryptedData }.

Record SecureCookie := mkCookie { cookie_time : Z; cookie_data : MethodData }.

(** *** Containers of authorization data *)

Record VerifierMac := mkVerifier {
  ver_identifier : option PrincipalName;
  ver_kvno : option Z;
  ver_enctype : option Z;
  ver_mac : Checksum;
}.

Record Cammac := mkCammac {
  cammac_elements : AuthorizationData;
  kdc_verifier : option VerifierMac;
  svc_verifier : option VerifierMac;
  other_verifiers : option (list VerifierMac);
}.

Record AdKdcIssued := mkKdcIssued {
  issued_checksum : Checksum;
  i_realm : option bytes;
  i_sname : option PrincipalName;
  issued_elements : AuthorizationData;
}.

(** *** S4U *)

Record PaForUser := mkForUser {
  fu_user_name : PrincipalName;
  fu_user_realm : bytes;
  fu_cksum : Checksum;
  auth_package : bytes;
}.

Record S4uUserId := mkUserId {
  id_nonce : Z;
  id_user : option PrincipalName;
  id_realm : bytes;
  subject_cert : option bytes;
  id_options : option (list bool);
}.

Record PaS4uX509User := mkX509 { x509_user_id : S4uUserId; x509_cksum : Checksum }.

(** ** Encoding *)

(** Why a decoding failed: a protocol version other than 5, or anything else. *)
Inductive DecodeError := BadPvno | Malformed.

Class Codec (A : Type) := {
  encode : A -> result KdcError bytes;
  decode : bytes -> result DecodeError A;
}.

(** The values the wire can carry. *)
Class Wire (A : Type) := wire : A -> Prop.

(** What DER promises: what the wire can carry is read back, whatever follows it;
    and distinct values have distinct encodings, none of which is the beginning of
    another. *)
Class CodecLaws (A : Type) `{Codec A} `{Wire A} : Prop := {
  decode_encode x b rest : wire x -> encode x = Ok b -> decode (b ++ rest) = Ok x;
  encode_distinct x y b c r r' : encode x = Ok b -> encode y = Ok c -> b ++ r = c ++ r' -> x = y;
}.

(** Strings of the [GeneralString] alphabet. *)
Definition general_string (s : bytes) : Prop := Forall (fun b => u8z b < 0x80) s.

#[export] Instance Wire_option {A} `{Wire A} : Wire (option A) := fun o => match o with Some a => wire a | None => True end.
#[export] Instance Wire_list {A} `{Wire A} : Wire (list A) := Forall wire.
#[export] Instance Wire_bool : Wire bool := fun _ => True.
#[export] Instance Wire_HostAddress : Wire HostAddress := fun a => is_i32 (addr_type a).
#[export] Instance Wire_Ad : Wire AuthorizationDataValue := fun a => is_i32 (ad_type a).
#[export] Instance Wire_PaData : Wire PaData := fun p => is_i32 (padata_type p).
#[export] Instance Wire_TypedData : Wire TypedData := fun p => is_i32 (data_type p).
#[export] Instance Wire_EncryptedData : Wire EncryptedData := fun e =>
  is_i32 (ed_etype e) /\ match ed_kvno e with Some v => is_u32 v | None => True end.
#[export] Instance Wire_EncryptionKey : Wire EncryptionKey := fun k => is_i32 (keytype k).
#[export] Instance Wire_Checksum : Wire Checksum := fun c => is_i32 (cksumtype c).
#[export] Instance Wire_PrincipalName : Wire PrincipalName := fun n =>
  is_i32 (PrincipalName.name_type n) /\ Forall general_string (PrincipalName.name_string n).
#[export] Instance Wire_Ticket : Wire Ticket := fun t =>
  tkt_vno t = PVNO /\ general_string (tkt_realm t) /\ wire (tkt_sname t) /\ wire (tkt_enc_part t).
#[export] Instance Wire_Transited : Wire TransitedEncoding := fun t => is_i32 (Transit.tr_type t).

(** A time of the wire: GeneralizedTime is read into 32 bits. *)
Definition time_ok (t : Z) : Prop := is_u32 t.
Definition opt_time (o : option Z) : Prop := match o with Some t => time_ok t | None => True end.

#[export] Instance Wire_KdcReqBody : Wire KdcReqBody := fun b =>
  length (kdc_options b) = 32%nat /\ wire (cname b) /\ general_string (body_realm b) /\ wire (sname b) /\
  opt_time (from b) /\ time_ok (till b) /\ opt_time (rtime b) /\ is_u32 (nonce b) /\
  Forall is_i32 (body_etype b) /\ wire (addresses b) /\ wire (enc_authorization_data b) /\
  wire (additional_tickets b).
#[export] Instance Wire_EncTicketPart : Wire EncTicketPart := fun t =>
  length (tp_flags t) = 32%nat /\ wire (tp_key t) /\ general_string (tp_crealm t) /\ wire (tp_cname t) /\
  wire (tp_transited t) /\ time_ok (tp_authtime t) /\ opt_time (tp_starttime t) /\
  time_ok (tp_endtime t) /\ opt_time (tp_renew_till t) /\ wire (tp_caddr t) /\
  wire (tp_authorization_data t).
#[export] Instance Wire_EncKdcRepPart : Wire EncKdcRepPart := fun r =>
  wire (rp_key r) /\ Forall (fun l => is_i32 (lr_type l) /\ time_ok (lr_value l)) (rp_last_req r) /\
  is_u32 (rp_nonce r) /\ opt_time (rp_key_expiration r) /\ length (rp_flags r) = 32%nat /\
  time_ok (rp_authtime r) /\ opt_time (rp_starttime r) /\ time_ok (rp_endtime r) /\
  opt_time (rp_renew_till r) /\ general_string (rp_srealm r) /\ wire (rp_sname r) /\
  wire (rp_caddr r) /\ wire (rp_encrypted_pa_data r).
#[export] Instance Wire_PaEncTsEnc : Wire PaEncTsEnc := fun t =>
  time_ok (patimestamp t) /\ match pausec t with Some u => is_u32 u | None => True end.
#[export] Instance Wire_Authenticator : Wire Authenticator := fun a =>
  authenticator_vno a = PVNO /\ general_string (auth_crealm a) /\ wire (auth_cname a) /\ wire (auth_cksum a) /\
  is_u32 (auth_cusec a) /\ time_ok (auth_ctime a) /\ wire (auth_subkey a) /\
  match auth_seq_number a with Some n => is_u32 n | None => True end /\ wire (auth_authorization_data a).
#[export] Instance Wire_ApReq : Wire ApReq := fun a =>
  ap_pvno a = PVNO /\ ap_msg_type a = 14 /\ length (ap_options a) = 32%nat /\ wire (ap_ticket a) /\
  wire (ap_authenticator a).
#[export] Instance Wire_FastResponse : Wire KrbFastResponse := fun r =>
  wire (resp_padata r) /\ wire (strengthen_key r) /\
  match finished r with
  | Some f => time_ok (fin_timestamp f) /\ is_u32 (fin_usec f) /\ general_string (fin_crealm f) /\
              wire (fin_cname f) /\ wire (ticket_checksum f)
  | None => True
  end /\ is_u32 (resp_nonce r).
#[export] Instance Wire_ArmoredRep : Wire KrbFastArmoredRep := fun r => wire (enc_fast_rep r).
#[export] Instance Wire_Cookie : Wire SecureCookie := fun c => is_i32 (cookie_time c) /\ wire (cookie_data c).
#[export] Instance Wire_Cammac : Wire Cammac := fun c =>
  let ver v := wire (ver_identifier v) /\ match ver_kvno v with Some n => is_u32 n | None => True end /\
               match ver_enctype v with Some n => is_i32 n | None => True end /\ wire (ver_mac v) in
  wire (cammac_elements c) /\
  match kdc_verifier c with Some v => ver v | None => True end /\
  match svc_verifier c with Some v => ver v | None => True end /\
  match other_verifiers c with Some l => Forall ver l | None => True end.

(** The codecs of the messages, and rasn's [GeneralString::try_from] of a [&str]. *)
Class Codecs := {
  general_string_of : bytes -> option bytes;
  codec_padata :: Codec MethodData;
  codec_typed :: Codec (list TypedData);
  codec_authdata :: Codec AuthorizationData;
  codec_strings :: Codec (list Name.ustr);
  codec_enc :: Codec EncryptedData;
  codec_key :: Codec EncryptionKey;
  codec_checksum :: Codec Checksum;
  codec_ticket :: Codec Ticket;
  codec_body :: Codec KdcReqBody;
  codec_asreq :: Codec AsReq;
  codec_asrep :: Codec AsRep;
  codec_tgsrep :: Codec TgsRep;
  codec_apreq :: Codec ApReq;
  codec_error :: Codec KrbError;
  codec_ts :: Codec PaEncTsEnc;
  codec_info2 :: Codec (list EtypeInfo2Entry);
  codec_info :: Codec (list EtypeInfoEntry);
  codec_pacrequest :: Codec PaPacRequest;
  codec_pacoptions :: Codec PaPacOptions;
  codec_reppart :: Codec EncKdcRepPart;
  codec_auth :: Codec Authenticator;
  codec_tktpart :: Codec EncTicketPart;
  codec_armored :: Codec KrbFastArmoredReq;
  codec_fastreq :: Codec KrbFastReq;
  codec_fastresp :: Codec KrbFastResponse;
  codec_armoredrep :: Codec KrbFastArmoredRep;
  codec_cookie :: Codec SecureCookie;
  codec_cammac :: Codec Cammac;
  codec_kdcissued :: Codec AdKdcIssued;
  codec_etypes :: Codec (list Z);
  codec_foruser :: Codec PaForUser;
  codec_userid :: Codec S4uUserId;
  codec_x509 :: Codec PaS4uX509User;
}.

(** The round trips the theorems use. *)
Class CodecsLaws `{Codecs} : Prop := {
  law_tktpart :: CodecLaws EncTicketPart;
  law_reppart :: CodecLaws EncKdcRepPart;
  law_enc :: CodecLaws EncryptedData;
  law_ts :: CodecLaws PaEncTsEnc;
  law_key :: CodecLaws EncryptionKey;
  law_apreq :: CodecLaws ApReq;
  law_auth :: CodecLaws Authenticator;
  law_fastresp :: CodecLaws KrbFastResponse;
  law_armoredrep :: CodecLaws KrbFastArmoredRep;
  law_cookie :: CodecLaws SecureCookie;
  law_cammac :: CodecLaws Cammac;
  law_authdata :: CodecLaws AuthorizationData;
}.

(** A container of authorization data is not empty and longer than the data of any
    element in it, as every DER encoding is longer than its parts. *)
Class ContainerLaws `{Codecs} : Prop :=
  inner_shorter b (inner : AuthorizationData) :
    decode b = Ok inner -> b <> [] /\ Forall (fun a => (length (ad_data a) < length b)%nat) inner.
