(* ===== verification/ToyCodec.v ===== *)
(** * A concrete codec of the messages

    A self-delimiting format that meets the laws of [Messages.Codecs], for the
    examples: numbers in binary with one octet per digit, lists as marked
    elements.  It stands for no code of the repository. *)

From S2P Require Import Prelude Etype Name Kdc Transit Messages.

(** A writer and a reader that leaves what follows. *)
Class Toy (A : Type) := {
  put : A -> bytes;
  get : bytes -> option (A * bytes);
  get_put a rest : get (put a ++ rest) = Some (a, rest);
}.

Fixpoint put_pos (p : positive) : bytes :=
  match p with xH => [x00] | xO p => x01 :: put_pos p | xI p => x02 :: put_pos p end.

Fixpoint get_pos (b : bytes) : option (positive * bytes) :=
  match b with
  | x00 :: b => Some (xH, b)
  | x01 :: b => match get_pos b with Some (p, r) => Some (xO p, r) | None => None end
  | x02 :: b => match get_pos b with Some (p, r) => Some (xI p, r) | None => None end
  | _ => None
  end.

Lemma get_put_pos p rest : get_pos (put_pos p ++ rest) = Some (p, rest).
Proof. induction p as [p IH|p IH|]; cbn; by rewrite ?IH. Qed.

#[export, refine] Instance Toy_Z : Toy Z := {
  put z := match z with 0 => [x00] | Zpos p => x01 :: put_pos p | Zneg p => x02 :: put_pos p end;
  get b :=
    match b with
    | x00 :: b => Some (0, b)
    | x01 :: b => match get_pos b with Some (p, r) => Some (Zpos p, r) | None => None end
    | x02 :: b => match get_pos b with Some (p, r) => Some (Zneg p, r) | None => None end
    | _ => None
    end;
}.
Proof. intros [|p|p] rest; cbn; by rewrite ?get_put_pos. Defined.

#[export, refine] Instance Toy_byte : Toy byte := {
  put x := [x];
  get b := match b with x :: b => Some (x, b) | [] => None end;
}.
Proof. done. Defined.

#[export, refine] Instance Toy_bool : Toy bool := {
  put x := [if x then x01 else x00];
  get b := match b with x00 :: b => Some (false, b) | x01 :: b => Some (true, b) | _ => None end;
}.
Proof. by intros []. Defined.

#[export, refine] Instance Toy_option {A} `{Toy A} : Toy (option A) := {
  put o := match o with None => [x00] | Some a => x01 :: put a end;
  get b := match b with
           | x00 :: b => Some (None, b)
           | x01 :: b => match get b with Some (a, r) => Some (Some a, r) | None => None end
           | _ => None
           end;
}.
Proof. intros [a|] rest; cbn; [by rewrite get_put|done]. Defined.

#[export, refine] Instance Toy_prod {A B} `{Toy A} `{Toy B} : Toy (A * B) := {
  put p := put (fst p) ++ put (snd p);
  get b := match get b with
           | Some (a, r) => match get r with Some (x, r) => Some ((a, x), r) | None => None end
           | None => None
           end;
}.
Proof. intros [a x] rest. cbn [fst snd]. by rewrite <- app_assoc, !get_put. Defined.

Section ToyList.
Context {A} `{Toy A}.

Definition put_list (l : list A) : bytes := flat_map (fun a => x01 :: put a) l ++ [x00].

(** The fuel is the length of the input: every element takes an octet. *)
Fixpoint get_list (fuel : nat) (b : bytes) : option (list A * bytes) :=
  match fuel, b with
  | S _, x00 :: b => Some ([], b)
  | S n, x01 :: b =>
      match get b with
      | Some (a, r) => match get_list n r with Some (l, r) => Some (a :: l, r) | None => None end
      | None => None
      end
  | _, _ => None
  end.

Lemma get_put_list l rest n : (length l < n)%nat -> get_list n (put_list l ++ rest) = Some (l, rest).
Proof.
  revert n. induction l as [|a l IH]; intros [|n] Hn; cbn in Hn; try lia; [done|].
  unfold put_list. cbn. rewrite <- app_assoc, <- app_assoc, get_put, app_assoc.
  fold (put_list l). by rewrite IH by lia.
Qed.

Lemma length_put_list l : (length l < length (put_list l))%nat.
Proof.
  unfold put_list. rewrite length_app. cbn. enough (length l <= length (flat_map (fun a => x01 :: put a) l))%nat by lia.
  induction l as [|a l IH]; cbn; [lia|]. rewrite length_app. lia.
Qed.

#[export, refine] Instance Toy_list : Toy (list A) := {
  put := put_list;
  get b := get_list (S (length b)) b;
}.
Proof.
  intros l rest. apply get_put_list. rewrite length_app. pose proof (length_put_list l). lia.
Defined.

End ToyList.

Section ToyIso.
Context {A B} `{Toy B} (f : A -> B) (g : B -> A) (Hgf : forall a, g (f a) = a).

Definition toy_iso : Toy A.
Proof using H Hgf.
  refine {| put a := put (f a); get b := match get b with Some (x, r) => Some (g x, r) | None => None end |}.
  abstract (intros a rest; by rewrite get_put, Hgf).
Defined.

End ToyIso.

Definition toy_codec (A : Type) `{Toy A} : Codec A := {|
  encode a := Ok (put a);
  decode b := match get b with Some (a, _) => Ok a | None => Err Malformed end;
|}.

Lemma toy_codec_laws A `{Toy A} `{Wire A} : @CodecLaws A (toy_codec A) _.
Proof.
  split.
  - intros x b rest _ E. cbn in E. injection E as <-. cbn. by rewrite get_put.
  - intros x y b c r r' [= <-] [= <-] E. apply (f_equal get) in E. rewrite !get_put in E. by injection E.
Qed.

(** ** The messages *)

Ltac iso f g := exact (toy_iso f g (fun a => ltac:(by destruct a))).

#[export] Instance Toy_HostAddress : Toy HostAddress.
Proof. iso (fun a => (addr_type a, address a)) (fun p => mkHost p.1 p.2). Defined.
#[export] Instance Toy_Ad : Toy AuthorizationDataValue.
Proof. iso (fun a => (ad_type a, ad_data a)) (fun p => mkAd p.1 p.2). Defined.
#[export] Instance Toy_PaData : Toy PaData.
Proof. iso (fun a => (padata_type a, padata_value a)) (fun p => mkPa p.1 p.2). Defined.
#[export] Instance Toy_Typed : Toy TypedData.
Proof. iso (fun a => (data_type a, data_value a)) (fun p => mkTyped p.1 p.2). Defined.
#[export] Instance Toy_Enc : Toy EncryptedData.
Proof. iso (fun a => (ed_etype a, ed_kvno a, cipher a)) (fun p => mkEnc p.1.1 p.1.2 p.2). Defined.
#[export] Instance Toy_Key : Toy EncryptionKey.
Proof. iso (fun a => (keytype a, keyvalue a)) (fun p => mkKey p.1 p.2). Defined.
#[export] Instance Toy_Cksum : Toy Checksum.
Proof. iso (fun a => (cksumtype a, checksum a)) (fun p => mkCksum p.1 p.2). Defined.
#[export] Instance Toy_Name : Toy PrincipalName.
Proof.
  iso (fun a => (PrincipalName.name_type a, PrincipalName.name_string a))
      (fun p => PrincipalName.mkName p.1 p.2).
Defined.
#[export] Instance Toy_Ticket : Toy Ticket.
Proof.
  iso (fun a => (tkt_vno a, tkt_realm a, tkt_sname a, tkt_enc_part a))
      (fun p => mkTicket p.1.1.1 p.1.1.2 p.1.2 p.2).
Defined.
#[export] Instance Toy_Transited : Toy TransitedEncoding.
Proof. iso (fun a => (Transit.tr_type a, Transit.contents a)) (fun p => Transit.mkTransited p.1 p.2). Defined.
#[export] Instance Toy_Body : Toy KdcReqBody.
Proof.
  iso (fun a => ((kdc_options a, cname a, body_realm a, sname a), (from a, till a, rtime a, nonce a),
                 (body_etype a, addresses a, enc_authorization_data a, additional_tickets a)))
      (fun '((a, b, c, d), (e, f, g, h), (i, j, k, l)) => mkBody a b c d e f g h i j k l).
Defined.
#[export] Instance Toy_Req : Toy KdcReq.
Proof.
  iso (fun a => (req_pvno a, req_msg_type a, padata a, req_body a)) (fun p => mkReq p.1.1.1 p.1.1.2 p.1.2 p.2).
Defined.
#[export] Instance Toy_AsReq : Toy AsReq.
Proof. iso as_req mkAsReq. Defined.
#[export] Instance Toy_Rep : Toy KdcRep.
Proof.
  iso (fun a => ((rep_pvno a, rep_msg_type a, rep_padata a, rep_crealm a), (rep_cname a, rep_ticket a, rep_enc_part a)))
      (fun '((a, b, c, d), (e, f, g)) => mkRep a b c d e f g).
Defined.
#[export] Instance Toy_AsRep : Toy AsRep.
Proof. iso as_rep mkAsRep. Defined.
#[export] Instance Toy_TgsRep : Toy TgsRep.
Proof. iso tgs_rep mkTgsRep. Defined.
#[export] Instance Toy_ApReq : Toy ApReq.
Proof.
  iso (fun a => (ap_pvno a, ap_msg_type a, ap_options a, ap_ticket a, ap_authenticator a))
      (fun '(a, b, c, d, e) => mkApReq a b c d e).
Defined.
#[export] Instance Toy_Error : Toy KrbError.
Proof.
  iso (fun a => ((err_pvno a, err_msg_type a, err_ctime a, err_cusec a), (err_stime a, err_susec a, error_code a),
                 (err_crealm a, err_cname a, err_realm a), (err_sname a, e_text a, err_e_data a)))
      (fun '((a, b, c, d), (e, f, g), (h, i, j), (k, l, m)) => mkKrbError a b c d e f g h i j k l m).
Defined.
#[export] Instance Toy_Ts : Toy PaEncTsEnc.
Proof. iso (fun a => (patimestamp a, pausec a)) (fun p => mkTs p.1 p.2). Defined.
#[export] Instance Toy_Info2 : Toy EtypeInfo2Entry.
Proof. iso (fun a => (info2_etype a, info2_salt a, s2kparams a)) (fun p => mkInfo2 p.1.1 p.1.2 p.2). Defined.
#[export] Instance Toy_Info : Toy EtypeInfoEntry.
Proof. iso (fun a => (info_etype a, info_salt a)) (fun p => mkInfo p.1 p.2). Defined.
#[export] Instance Toy_PacRequest : Toy PaPacRequest.
Proof. iso include_pac mkPacRequest. Defined.
#[export] Instance Toy_PacOptions : Toy PaPacOptions.
Proof. iso pac_options mkPacOptions. Defined.
#[export] Instance Toy_LastReq : Toy LastReqValue.
Proof. iso (fun a => (lr_type a, lr_value a)) (fun p => mkLastReq p.1 p.2). Defined.
#[export] Instance Toy_RepPart : Toy EncKdcRepPart.
Proof.
  iso (fun a => ((rp_key a, rp_last_req a, rp_nonce a, rp_key_expiration a), (rp_flags a, rp_authtime a, rp_starttime a),
                 (rp_endtime a, rp_renew_till a, rp_srealm a), (rp_sname a, rp_caddr a, rp_encrypted_pa_data a)))
      (fun '((a, b, c, d), (e, f, g), (h, i, j), (k, l, m)) => mkRepPart a b c d e f g h i j k l m).
Defined.
#[export] Instance Toy_Auth : Toy Authenticator.
Proof.
  iso (fun a => ((authenticator_vno a, auth_crealm a, auth_cname a), (auth_cksum a, auth_cusec a, auth_ctime a),
                 (auth_subkey a, auth_seq_number a, auth_authorization_data a)))
      (fun '((a, b, c), (d, e, f), (g, h, i)) => mkAuth a b c d e f g h i).
Defined.
#[export] Instance Toy_TktPart : Toy EncTicketPart.
Proof.
  iso (fun a => ((tp_flags a, tp_key a, tp_crealm a, tp_cname a), (tp_transited a, tp_authtime a, tp_starttime a),
                 (tp_endtime a, tp_renew_till a), (tp_caddr a, tp_authorization_data a)))
      (fun '((a, b, c, d), (e, f, g), (h, i), (j, k)) => mkTktPart a b c d e f g h i j k).
Defined.
#[export] Instance Toy_Armor : Toy KrbFastArmor.
Proof. iso (fun a => (armor_type a, armor_value a)) (fun p => mkArmor p.1 p.2). Defined.
#[export] Instance Toy_Armored : Toy KrbFastArmoredReq.
Proof. iso (fun a => (armor a, req_checksum a, enc_fast_req a)) (fun p => mkArmored p.1.1 p.1.2 p.2). Defined.
#[export] Instance Toy_FastReq : Toy KrbFastReq.
Proof. iso (fun a => (freq_options a, freq_padata a, freq_body a)) (fun p => mkFastReq p.1.1 p.1.2 p.2). Defined.
#[export] Instance Toy_Finished : Toy KrbFastFinished.
Proof.
  iso (fun a => (fin_timestamp a, fin_usec a, fin_crealm a, fin_cname a, ticket_checksum a))
      (fun '(a, b, c, d, e) => mkFinished a b c d e).
Defined.
#[export] Instance Toy_FastResp : Toy KrbFastResponse.
Proof.
  iso (fun a => (resp_padata a, strengthen_key a, finished a, resp_nonce a)) (fun '(a, b, c, d) => mkFastResp a b c d).
Defined.
#[export] Instance Toy_ArmoredRep : Toy KrbFastArmoredRep.
Proof. iso enc_fast_rep mkArmoredRep. Defined.
#[export] Instance Toy_Cookie : Toy SecureCookie.
Proof. iso (fun a => (cookie_time a, cookie_data a)) (fun p => mkCookie p.1 p.2). Defined.
#[export] Instance Toy_Verifier : Toy VerifierMac.
Proof.
  iso (fun a => (ver_identifier a, ver_kvno a, ver_enctype a, ver_mac a)) (fun '(a, b, c, d) => mkVerifier a b c d).
Defined.
#[export] Instance Toy_Cammac : Toy Cammac.
Proof.
  iso (fun a => (cammac_elements a, kdc_verifier a, svc_verifier a, other_verifiers a))
      (fun '(a, b, c, d) => mkCammac a b c d).
Defined.
#[export] Instance Toy_KdcIssued : Toy AdKdcIssued.
Proof.
  iso (fun a => (issued_checksum a, i_realm a, i_sname a, issued_elements a)) (fun '(a, b, c, d) => mkKdcIssued a b c d).
Defined.

#[export] Instance Toy_ForUser : Toy PaForUser.
Proof.
  iso (fun a => (fu_user_name a, fu_user_realm a, fu_cksum a, auth_package a)) (fun '(a, b, c, d) => mkForUser a b c d).
Defined.
#[export] Instance Toy_UserId : Toy S4uUserId.
Proof.
  iso (fun a => (id_nonce a, id_user a, (id_realm a, subject_cert a, id_options a)))
      (fun '(a, b, (c, d, e)) => mkUserId a b c d e).
Defined.
#[export] Instance Toy_X509 : Toy PaS4uX509User.
Proof. iso (fun a => (x509_user_id a, x509_cksum a)) (fun p => mkX509 p.1 p.2). Defined.

Definition ToyCodecs : Codecs := {|
  general_string_of := Some;
  codec_padata := toy_codec _; codec_typed := toy_codec _; codec_authdata := toy_codec _;
  codec_strings := toy_codec _; codec_enc := toy_codec _; codec_key := toy_codec _;
  codec_checksum := toy_codec _; codec_ticket := toy_codec _; codec_body := toy_codec _;
  codec_asreq := toy_codec _; codec_asrep := toy_codec _; codec_tgsrep := toy_codec _;
  codec_apreq := toy_codec _; codec_error := toy_codec _; codec_ts := toy_codec _;
  codec_info2 := toy_codec _; codec_info := toy_codec _; codec_pacrequest := toy_codec _;
  codec_pacoptions := toy_codec _; codec_reppart := toy_codec _; codec_auth := toy_codec _;
  codec_tktpart := toy_codec _; codec_armored := toy_codec _; codec_fastreq := toy_codec _;
  codec_fastresp := toy_codec _; codec_armoredrep := toy_codec _; codec_cookie := toy_codec _;
  codec_cammac := toy_codec _; codec_kdcissued := toy_codec _; codec_etypes := toy_codec _; codec_foruser := toy_codec _; codec_userid := toy_codec _;
  codec_x509 := toy_codec _;
|}.

Lemma toy_codecs_laws : @CodecsLaws ToyCodecs.
Proof. split; apply toy_codec_laws. Qed.

(** ** Containers *)

Lemma get_pos_shorter b p r : get_pos b = Some (p, r) -> (length r < length b)%nat.
Proof.
  revert p r. induction b as [|x b IH]; intros p r; [done|]. destruct x; cbn; try done.
  - intros [= <- <-]. lia.
  - destruct (get_pos b) as [[q s]|]; [|done]. intros [= <- <-]. specialize (IH _ _ eq_refl). lia.
  - destruct (get_pos b) as [[q s]|]; [|done]. intros [= <- <-]. specialize (IH _ _ eq_refl). lia.
Qed.

Lemma get_Z_shorter b (z : Z) r : get b = Some (z, r) -> (length r < length b)%nat.
Proof.
  destruct b as [|x b]; [done|]. destruct x; cbn; try done.
  - intros [= <- <-]. lia.
  - destruct (get_pos b) as [[q s]|] eqn:E; [|done]. intros [= <- <-]. apply get_pos_shorter in E. lia.
  - destruct (get_pos b) as [[q s]|] eqn:E; [|done]. intros [= <- <-]. apply get_pos_shorter in E. lia.
Qed.

(** What is read of the input bounds a measure of the elements. *)
Lemma get_list_within {A} `{Toy A} (f : A -> nat) n b l r :
  (forall b a r, get b = Some (a, r) -> (f a + length r <= length b)%nat) ->
  get_list n b = Some (l, r) -> (list_sum (map f l) + length l + length r < length b)%nat.
Proof.
  intros Hf. revert b l r. induction n as [|n IH]; intros b l r; [done|]. destruct b as [|x b]; [done|].
  destruct x; cbn [get_list]; try done; [intros [= <- <-]; cbn; lia|].
  destruct (get b) as [[a s]|] eqn:Ea; [|done]. destruct (get_list n s) as [[l' r']|] eqn:El; [|done].
  intros [= <- <-]. apply Hf in Ea. apply IH in El. unfold list_sum in *. cbn [map fold_right length] in *. lia.
Qed.

Lemma get_Ad_within b (a : AuthorizationDataValue) r : get b = Some (a, r) -> (length (ad_data a) + length r <= length b)%nat.
Proof.
  change (get b) with
    (match match get (A := Z) b with
           | Some (z, s) => match get_list (A := byte) (S (length s)) s with Some (d, t) => Some ((z, d), t) | None => None end
           | None => None
           end with
     | Some (p, t) => Some (mkAd p.1 p.2, t)
     | None => None
     end).
  destruct (get (A := Z) b) as [[z s]|] eqn:Ez; [|done]. apply get_Z_shorter in Ez.
  destruct (get_list (S (length s)) s) as [[l t]|] eqn:El; [|done]. intros [= <- <-]. cbn.
  apply (get_list_within (fun _ => O)) in El; [lia|]. intros [|x b'] a' r'; [done|]. cbn. intros [= <- <-]. lia.
Qed.

Lemma list_sum_in l n : In n l -> (n <= list_sum l)%nat.
Proof. induction l as [|m l IH]; [done|]. intros [->|Hn]; unfold list_sum in *; cbn [fold_right]; [lia|]. specialize (IH Hn). lia. Qed.

Lemma toy_containers : @ContainerLaws ToyCodecs.
Proof.
  intros b inner. change (decode b) with
    (match get_list (A := AuthorizationDataValue) (S (length b)) b with Some (l, _) => Ok l | None => Err Malformed end).
  destruct (get_list (S (length b)) b) as [[l r]|] eqn:E; [|done]. intros [= <-].
  split; [by intros ->|]. apply (get_list_within (fun a => length (ad_data a))) in E; [|exact get_Ad_within].
  apply List.Forall_forall. intros a Ha.
  pose proof (list_sum_in _ _ (in_map (fun a => length (ad_data a)) _ _ Ha)). lia.
Qed.
