(* ===== verification/Ascii.v ===== *)
(** * ASCII classes

    What the sources use of Rust's [u8::is_ascii_*] predicates. *)

From S2P Require Import Prelude.

Module Ascii.

Definition within (lo hi : Z) (b : byte) : bool := (lo <=? u8z b) && (u8z b <=? hi).

Definition is_ascii_digit : byte -> bool := within 0x30 0x39.
Definition is_ascii_uppercase : byte -> bool := within 0x41 0x5a.
Definition is_ascii_lowercase : byte -> bool := within 0x61 0x7a.
Definition is_ascii_alphabetic (b : byte) : bool := is_ascii_uppercase b || is_ascii_lowercase b.
Definition is_ascii_alphanumeric (b : byte) : bool := is_ascii_alphabetic b || is_ascii_digit b.
Definition is_ascii_hexdigit (b : byte) : bool :=
  is_ascii_digit b || within 0x41 0x46 b || within 0x61 0x66 b.
Definition is_ascii_punctuation (b : byte) : bool :=
  within 0x21 0x2f b || within 0x3a 0x40 b || within 0x5b 0x60 b || within 0x7b 0x7e b.
Definition is_ascii_graphic : byte -> bool := within 0x21 0x7e.
Definition is_ascii_control (b : byte) : bool := (u8z b <? 0x20) || (u8z b =? 0x7f).
Definition is_ascii_whitespace (b : byte) : bool :=
  (u8z b =? 0x20) || (u8z b =? 0x09) || (u8z b =? 0x0a) || (u8z b =? 0x0c) || (u8z b =? 0x0d).

End Ascii.
