(* ===== verification/Pwqual.v ===== *)
(** * Password quality

    Models [krb5-kdc/src/store/pwqual.rs] and [pwqual_dict.rs]: the built-in
    modules, the word list with its binary search, and the run over the modules a
    realm has loaded; and the length and class rules of a policy
    ([store/password.rs]).  A module that an embedding program registers is its
    [check] function.  The locale's case folding is a parameter of the store. *)

From stdpp Require Import pretty sorting.
From S2P Require Import Prelude Ascii Etype Name EncList Kdc.

Module Pwqual.

(** ** The dictionary *)

Inductive CaseFold := FoldAscii | FoldLatin1.

Definition fold_byte (b : byte) (f : CaseFold) : byte :=
  let c := u8z b in
  match f with
  | FoldAscii => if (0x41 <=? c) && (c <=? 0x5a) then z8 (c + 32) else b
  | FoldLatin1 =>
      if ((0x41 <=? c) && (c <=? 0x5a)) || ((0xc0 <=? c) && (c <=? 0xd6)) || ((0xd8 <=? c) && (c <=? 0xde))
      then z8 (c + 32) else b
  end.

(** Up to the first NUL. *)
Fixpoint cstr_bytes (s : bytes) : bytes :=
  match s with
  | b :: s => if bool_decide (b = x00) then [] else b :: cstr_bytes s
  | [] => []
  end.

Definition word_at (block : bytes) (start : nat) : bytes := cstr_bytes (drop start block).

(** The bytes up to and with the last newline. *)
Fixpoint to_last_newline (s : bytes) : bytes :=
  match s with
  | b :: s =>
      match to_last_newline s with
      | [] => if bool_decide (b = x0a) then [b] else []
      | t => b :: t
      end
  | [] => []
  end.

Definition fold_block (f : CaseFold) (s : bytes) : bytes :=
  map (fun b => if bool_decide (b = x0a) then x00 else fold_byte b f) s.

Definition count_newlines (s : bytes) : nat := length (List.filter (fun b => bool_decide (b = x0a)) s).

(** The starts of [n] words from [pos] on. *)
Fixpoint spans (block : bytes) (n pos : nat) : list nat :=
  match n with
  | O => []
  | S n =>
      let start := Nat.min pos (length block) in
      start :: spans block n (start + length (word_at block start) + 1)
  end.

(** [[u8]::cmp]. *)
Fixpoint cmp (a b : bytes) : comparison :=
  match a, b with
  | [], [] => Eq
  | [], _ => Lt
  | _, [] => Gt
  | x :: a, y :: b => match Z.compare (u8z x) (u8z y) with Eq => cmp a b | c => c end
  end.

Definition word_le (block : bytes) (i j : nat) : Prop := cmp (word_at block i) (word_at block j) <> Gt.
#[global] Instance word_le_dec block i j : Decision (word_le block i j).
Proof. unfold word_le. apply not_dec. solve_decision. Defined.

(** [dedup_by] on equal words. *)
Fixpoint dedup_words (block : bytes) (l : list nat) : list nat :=
  match l with
  | i :: l =>
      match dedup_words block l with
      | j :: l' => if bool_decide (word_at block i = word_at block j) then i :: l' else i :: j :: l'
      | [] => [i]
      end
  | [] => []
  end.

Record PwqualDict := mkDict { block : bytes; words : list nat; fold : CaseFold }.

(** [None] when an offset does not fit 32 bits. *)
Definition from_bytes_folded (file : bytes) (f : CaseFold) : option PwqualDict :=
  let file := to_last_newline file in
  let b := fold_block f file in
  let s := spans b (count_newlines file) 0 in
  if existsb (fun i => U32_MAX <? Z.of_nat i) s then None
  else Some (mkDict b (dedup_words b (merge_sort (word_le b) s)) f).

(** [slice::binary_search_by]: [f] compares an element with the one sought. *)
Fixpoint search_loop {A} (fuel : nat) (f : A -> comparison) (d : A) (l : list A) (base size : nat) : nat :=
  match fuel with
  | O => base
  | S fuel =>
      if (size <=? 1)%nat then base
      else
        let half := (size / 2)%nat in
        let mid := (base + half)%nat in
        let base := match f (nth mid l d) with Gt => base | _ => mid end in
        search_loop fuel f d l base (size - half)
  end.

Definition binary_search {A} (f : A -> comparison) (d : A) (l : list A) : bool :=
  match l with
  | [] => false
  | _ =>
      let base := search_loop (length l) f d l 0 (length l) in
      match f (nth base l d) with Eq => true | _ => false end
  end.

Definition contains (d : PwqualDict) (password : bytes) : bool :=
  let password := map (fun b => fold_byte b (fold d)) (cstr_bytes password) in
  binary_search (fun start => cmp (word_at (block d) start) password) O (words d).

(** ** The modules *)

Definition eq_ignore_case (f : CaseFold) (left right : bytes) : bool :=
  let left := cstr_bytes left in
  let right := cstr_bytes right in
  bool_decide (map (fun b => fold_byte b f) left = map (fun b => fold_byte b f) right).

Definition PWQUAL_EMPTY : string := "Empty passwords are not allowed".
Definition PWQUAL_PRINC : string := "Password may not match principal name".
Definition PWQUAL_DICT : string := "Password is in the password dictionary".

Inductive Kind :=
| Dict
| Empty
| Hesiod
| Princ
| Plugin (check : bytes -> option Name.ustr -> bytes -> PrincipalName.PrincipalName -> result KdcError unit).

Record Quality := mkQuality { q_name : Name.ustr; kind : Kind }.

Definition refuse (text : string) : result KdcError unit := Err (PasswordPolicy text).

Definition dict_check (password : bytes) (policy_name : option Name.ustr) (dict : option PwqualDict)
    : result KdcError unit :=
  match policy_name, dict with
  | Some _, Some d => if contains d password then refuse PWQUAL_DICT else Ok tt
  | _, _ => Ok tt
  end.

Definition empty_check (password : bytes) : result KdcError unit :=
  match password with [] => refuse PWQUAL_EMPTY | _ => Ok tt end.

Definition princ_check (f : CaseFold) (password : bytes) (policy_name : option Name.ustr) (realm : bytes)
    (n : PrincipalName.PrincipalName) : result KdcError unit :=
  match policy_name with
  | None => Ok tt
  | Some _ =>
      if eq_ignore_case f realm password then refuse PWQUAL_DICT
      else if existsb (fun part => eq_ignore_case f part password) (PrincipalName.name_string n)
      then refuse PWQUAL_PRINC
      else Ok tt
  end.

Definition check_module (f : CaseFold) (dict : option PwqualDict) (password : bytes)
    (policy_name : option Name.ustr) (realm : bytes) (n : PrincipalName.PrincipalName) (m : Quality)
    : result KdcError unit :=
  match kind m with
  | Dict => dict_check password policy_name dict
  | Empty => empty_check password
  | Hesiod => Ok tt
  | Princ => princ_check f password policy_name realm n
  | Plugin check => check password policy_name realm n
  end.

Definition builtins : list Quality :=
  [mkQuality (EncList.lit "dict") Dict; mkQuality (EncList.lit "empty") Empty;
   mkQuality (EncList.lit "hesiod") Hesiod; mkQuality (EncList.lit "princ") Princ].

(** [left.iter().position(..)] and [left.remove(index)]. *)
Fixpoint take_first {A} (ok : A -> bool) (l : list A) : option (A * list A) :=
  match l with
  | [] => None
  | x :: l =>
      if ok x then Some (x, l)
      else match take_first ok l with Some (y, l) => Some (y, x :: l) | None => None end
  end.

(** Each wanted name takes the first remaining match. *)
Fixpoint pick {A} (nm : A -> Name.ustr) (wanted : list Name.ustr) (left : list A) : list A :=
  match wanted with
  | [] => []
  | w :: wanted =>
      match take_first (fun x => bool_decide (nm x = w)) left with
      | Some (x, rest) => x :: pick nm wanted rest
      | None => pick nm wanted left
      end
  end.

Record PluginRelations := mkRelations { disable : option (list Name.ustr); enable_only : option (list Name.ustr) }.

Definition filter_plugin_modules (relations : PluginRelations) (modules : list Name.ustr) : list Name.ustr :=
  let l :=
    match disable relations with
    | Some d => List.filter (fun n => negb (bool_decide (n ∈ d))) modules
    | None => modules
    end in
  match enable_only relations with None => l | Some enable => pick id enable l end.

(** [extra] is what the program has registered. *)
Definition selected (relations : PluginRelations) (extra : list Quality) : list Quality :=
  let modules := builtins ++ extra in
  pick q_name (filter_plugin_modules relations (map q_name modules)) modules.

(** The first refusal ends the run. *)
Fixpoint run (f : CaseFold) (dict : option PwqualDict) (password : bytes) (policy_name : option Name.ustr)
    (realm : bytes) (n : PrincipalName.PrincipalName) (modules : list Quality) : result KdcError unit :=
  match modules with
  | [] => Ok tt
  | m :: modules =>
      match check_module f dict password policy_name realm n m with
      | Ok _ => run f dict password policy_name realm n modules
      | Err e => Err e
      end
  end.

(** ** The rules of a policy *)

Definition class_of (c : byte) : nat :=
  if Ascii.is_ascii_lowercase c then 1
  else if Ascii.is_ascii_uppercase c then 0
  else if Ascii.is_ascii_digit c then 2
  else if Ascii.is_ascii_punctuation c then 3
  else 4.

Definition classes (password : bytes) : Z :=
  let has k := existsb (fun c => (class_of c =? k)%nat) password in
  Z.b2z (has 0%nat) + Z.b2z (has 1%nat) + Z.b2z (has 2%nat) + Z.b2z (has 3%nat) + Z.b2z (has 4%nat).

Definition check_against_policy (password : bytes) (pol : NamedPolicy) : result KdcError unit :=
  if (0 <? min_length pol) && (blen password <? min_length pol)
  then refuse (String.append "min_length " (pretty (min_length pol)))
  else if (0 <? min_classes pol) && (classes password <? min_classes pol)
  then refuse (String.append "min_classes " (pretty (min_classes pol)))
  else Ok tt.

(** ** The search finds what is there *)

(** Modules are picked from those there are. *)
Lemma take_first_inv {A} (ok : A -> bool) l y rest : take_first ok l = Some (y, rest) -> y ∈ l /\ (forall z, z ∈ rest -> z ∈ l).
Proof.
  revert y rest. induction l as [|x l IH]; intros y rest; cbn [take_first]; [done|].
  destruct (ok x); [intros [= -> ->]; split; [by left|by right]|].
  destruct (take_first ok l) as [[y' l']|]; [|done]. intros [= -> <-]. destruct (IH y l' eq_refl) as [Hy Hl].
  split; [by right|]. intros z [->|Hz]%elem_of_cons; [by left|right; auto].
Qed.

Lemma pick_subset {A} (nm : A -> Name.ustr) names l x : x ∈ pick nm names l -> x ∈ l.
Proof.
  revert l. induction names as [|w names IH]; intros l; cbn [pick]; [by intros ?%elem_of_nil|].
  destruct (take_first _ l) as [[y rest]|] eqn:E; [|apply IH]. apply take_first_inv in E as [Hy Hr].
  intros [->|Hx]%elem_of_cons; auto.
Qed.

Section Search.
Context {A : Type} (f : A -> comparison) (d : A) (l : list A).

(** The elements before the one sought, then the equal ones, then the rest. *)
Definition split_by : Prop :=
  forall i j, (i <= j < length l)%nat ->
    (f (nth i l d) = Gt -> f (nth j l d) = Gt) /\ (f (nth j l d) = Lt -> f (nth i l d) = Lt).

Lemma search_loop_finds fuel base size k :
  split_by -> (0 < size <= fuel)%nat -> (base + size <= length l)%nat ->
  (base <= k < base + size)%nat -> f (nth k l d) = Eq ->
  f (nth (search_loop fuel f d l base size) l d) = Eq.
Proof.
  intros Hs. revert base size k. induction fuel as [|fuel IH]; intros base size k Hf Hb Hk He; [lia|].
  cbn [search_loop]. destruct (Nat.leb_spec size 1) as [H1|H1]; [by replace base with k by lia|].
  pose proof (Nat.Div0.div_mod size 2) as Hd. pose proof (Nat.mod_upper_bound size 2 ltac:(lia)).
  set (half := (size / 2)%nat) in *. clearbody half.
  destruct (f (nth (base + half) l d)) eqn:Hm; cbv zeta.
  - apply (IH _ _ (base + half)%nat); [lia..|done].
  - destruct (decide (k < base + half)%nat).
    + destruct (Hs k (base + half)%nat ltac:(lia)) as [_ H2]. rewrite (H2 Hm) in He. done.
    + apply (IH _ _ k); [lia..|done].
  - destruct (decide (base + half <= k)%nat).
    + destruct (Hs (base + half)%nat k ltac:(lia)) as [H2 _]. rewrite (H2 Hm) in He. done.
    + apply (IH _ _ k); [lia..|done].
Qed.

Lemma search_loop_range fuel base size :
  (0 < size)%nat -> (base + size <= length l)%nat ->
  (search_loop fuel f d l base size < length l)%nat.
Proof.
  revert base size. induction fuel as [|fuel IH]; intros base size Hz Hb; cbn [search_loop]; [lia|].
  destruct (Nat.leb_spec size 1); [lia|].
  pose proof (Nat.Div0.div_mod size 2) as Hd. pose proof (Nat.mod_upper_bound size 2 ltac:(lia)).
  cbv zeta. apply IH; [lia|]. destruct (f _); lia.
Qed.

Lemma binary_search_spec : split_by -> binary_search f d l = true <-> exists x, x ∈ l /\ f x = Eq.
Proof.
  intros Hs. unfold binary_search. destruct l as [|a l'] eqn:El.
  { split; [done|]. intros (x & Hx & _). by apply not_elem_of_nil in Hx. }
  assert (0 < length l)%nat as Hn by (rewrite El; cbn; lia). rewrite <- El. clear El a l'.
  split.
  - intros H. exists (nth (search_loop (length l) f d l 0 (length l)) l d).
    split; [|by destruct (f _)]. apply list_elem_of_In, nth_In, search_loop_range; lia.
  - intros (x & Hx & He). apply list_elem_of_In, (In_nth _ _ d) in Hx as (k & Hk & <-).
    by rewrite (search_loop_finds _ _ _ k) by (done || lia).
Qed.

End Search.

(** ** The order on words *)

Lemma cmp_eq a b : cmp a b = Eq <-> a = b.
Proof.
  revert b. induction a as [|x a IH]; intros [|y b]; cbn; try done.
  destruct (Z.compare_spec (u8z x) (u8z y)) as [E|E|E]; [|split; [done|intros [= -> ->]; lia]..].
  apply byte.unsigned_inj in E as ->. rewrite IH. split; [by intros ->|by intros [= ->]].
Qed.

Lemma cmp_antisym a b : cmp b a = CompOpp (cmp a b).
Proof.
  revert b. induction a as [|x a IH]; intros [|y b]; cbn; try done.
  rewrite (Z.compare_antisym (u8z x) (u8z y)). destruct (u8z x ?= u8z y)%Z; cbn; auto.
Qed.

Lemma cmp_lt_trans a b c : cmp a b = Lt -> cmp b c = Lt -> cmp a c = Lt.
Proof.
  revert b c. induction a as [|x a IH]; intros [|y b] [|z c]; cbn; try done.
  destruct (Z.compare_spec (u8z x) (u8z y)) as [E|E|E]; try done;
    destruct (Z.compare_spec (u8z y) (u8z z)) as [F|F|F]; try done; intros H1 H2;
    destruct (Z.compare_spec (u8z x) (u8z z)); try lia; try done. by eapply IH.
Qed.

Lemma cmp_le_trans a b c : cmp a b <> Gt -> cmp b c <> Gt -> cmp a c <> Gt.
Proof.
  intros H1 H2. destruct (cmp a b) eqn:E; [|clear H1|done].
  - by apply cmp_eq in E as ->.
  - destruct (cmp b c) eqn:F; [| |done].
    + apply cmp_eq in F as <-. by rewrite E.
    + by rewrite (cmp_lt_trans _ _ _ E F).
Qed.

#[global] Instance word_le_trans b : Transitive (word_le b).
Proof. intros i j k. apply cmp_le_trans. Qed.

#[global] Instance word_le_total b : Total (word_le b).
Proof. intros i j. unfold word_le. rewrite (cmp_antisym (word_at b i)). destruct (cmp _ _); auto. Qed.

Lemma sorted_nth b l i j :
  StronglySorted (word_le b) l -> (i < j < length l)%nat -> word_le b (nth i l O) (nth j l O).
Proof.
  intros Hs. revert i j. induction Hs as [|x l Hs IH Hx]; intros i j Hij; cbn [length] in Hij; [lia|].
  destruct j as [|j]; [lia|]. destruct i as [|i]; cbn [nth].
  - eapply List.Forall_forall in Hx; [exact Hx|]. apply nth_In. lia.
  - apply IH. lia.
Qed.

Lemma sorted_split b l w :
  StronglySorted (word_le b) l -> split_by (fun i => cmp (word_at b i) w) O l.
Proof.
  intros Hs i j [Hij Hj]. destruct (decide (i = j)) as [->|Hne]; [done|].
  pose proof (sorted_nth b l i j Hs ltac:(lia)) as Hle. unfold word_le in Hle.
  set (u := word_at b (nth i l O)) in *. set (v := word_at b (nth j l O)) in *. clearbody u v.
  split; intros H.
  - destruct (cmp v w) eqn:E; try done; exfalso; apply (cmp_le_trans u v w); by rewrite ?E.
  - rewrite cmp_antisym in H |- *. destruct (cmp w u) eqn:E; try done; exfalso;
      apply (cmp_le_trans w u v); by rewrite ?E; destruct (cmp w v).
Qed.

Lemma dedup_words_head b l x : hd_error (dedup_words b (x :: l)) = Some x.
Proof. cbn. destruct (dedup_words b l); [done|]. by case_bool_decide. Qed.

Lemma dedup_words_sub b l x : x ∈ dedup_words b l -> x ∈ l.
Proof.
  revert x. induction l as [|y l IH]; intros x; [done|]. cbn. destruct (dedup_words b l) as [|z l'].
  - rewrite list_elem_of_singleton. intros ->. by left.
  - case_bool_decide; rewrite !elem_of_cons; intros [->|H']; [by left| |by left|];
      right; apply IH; rewrite elem_of_cons; [by right|done].
Qed.

Lemma dedup_words_words b l w :
  (exists x, x ∈ dedup_words b l /\ word_at b x = w) <-> (exists x, x ∈ l /\ word_at b x = w).
Proof.
  split; intros (x & Hx & <-).
  { exists x. split; [by apply dedup_words_sub in Hx|done]. }
  induction l as [|y l IH]; [by apply not_elem_of_nil in Hx|].
  apply elem_of_cons in Hx as [->|Hx].
  - exists y. split; [|done]. pose proof (dedup_words_head b l y) as Hh.
    destruct (dedup_words b (y :: l)); [done|]. injection Hh as ->. by left.
  - destruct (IH Hx) as (z & Hz & Hw). cbn. destruct (dedup_words b l) as [|u l']; [by apply not_elem_of_nil in Hz|].
    apply elem_of_cons in Hz. case_bool_decide as Hy.
    + destruct Hz as [->|Hz]; [exists y; split; [by left|congruence]|exists z; split; [by right|done]].
    + exists z. split; [|done]. rewrite !elem_of_cons. by right.
Qed.

Lemma dedup_words_sorted b l : StronglySorted (word_le b) l -> StronglySorted (word_le b) (dedup_words b l).
Proof.
  induction 1 as [|x l Hs IH Hx]; cbn; [constructor|].
  assert (Forall (word_le b x) (dedup_words b l)) as Hf.
  { apply list.Forall_forall. intros y Hy. apply dedup_words_sub in Hy. by eapply list.Forall_forall in Hx. }
  destruct (dedup_words b l) as [|y l']; [by repeat constructor|].
  apply StronglySorted_inv in IH as [IH1 IH2]. apply list.Forall_cons in Hf as [H1 H2].
  case_bool_decide; constructor; try done; by constructor.
Qed.

(** ** The words are the lines *)

(** The complete lines of a file. *)
Fixpoint lines (s : bytes) : list bytes :=
  match s with
  | [] => []
  | b :: s =>
      if bool_decide (b = x0a) then [] :: lines s
      else match lines s with [] => [] | l :: ls => (b :: l) :: ls end
  end.

Definition unlines (ls : list bytes) : bytes := concat (map (fun l => l ++ [x0a]) ls).

Lemma to_last_newline_lines s : to_last_newline s = unlines (lines s).
Proof.
  induction s as [|b s IH]; [done|]. cbn. rewrite IH. case_bool_decide as Hb.
  - subst b. unfold unlines. cbn. by destruct (concat _).
  - destruct (lines s) as [|l ls]; [done|]. unfold unlines. cbn. by destruct l.
Qed.

Lemma lines_chars s b : b ∈ concat (lines s) -> b ∈ s /\ b <> x0a.
Proof.
  induction s as [|c s IH]; cbn; [by intros ?%not_elem_of_nil|]. case_bool_decide as Hc; cbn.
  - intros [H1 H2]%IH. split; [by right|done].
  - destruct (lines s) as [|l ls]; cbn in *; [by intros ?%not_elem_of_nil|].
    intros [->|H]%elem_of_cons; [by split; [left|]|]. destruct (IH H). split; [by right|done].
Qed.

Lemma fold_byte_nonzero f b : b <> x00 -> fold_byte b f <> x00.
Proof. destruct f, b; vm_compute; congruence. Qed.

Definition fold_word (f : CaseFold) (w : bytes) : bytes := map (fun b => fold_byte b f) w.

Lemma fold_block_unlines f l ls :
  x0a ∉ l -> fold_block f (unlines (l :: ls)) = fold_word f l ++ x00 :: fold_block f (unlines ls).
Proof.
  intros Hl. unfold unlines, fold_block. cbn. rewrite <- app_assoc, map_app. cbn. f_equal.
  induction l as [|b l IH]; [done|]. cbn. apply not_elem_of_cons in Hl as [H1 H2].
  rewrite bool_decide_eq_false_2 by done. by rewrite IH.
Qed.

Lemma cstr_fold f l rest : x00 ∉ l -> cstr_bytes (fold_word f l ++ x00 :: rest) = fold_word f l.
Proof.
  induction l as [|b l IH]; intros Hl; cbn; [done|]. apply not_elem_of_cons in Hl as [H1 H2].
  rewrite bool_decide_eq_false_2 by (by apply fold_byte_nonzero). by rewrite <- (IH H2) at 2.
Qed.

Lemma spans_words f ls pre :
  Forall (fun l => (x0a ∉ l) /\ (x00 ∉ l)) ls ->
  map (word_at (pre ++ fold_block f (unlines ls)))
    (spans (pre ++ fold_block f (unlines ls)) (length ls) (length pre)) = map (fold_word f) ls.
Proof.
  intros Hls. revert pre. induction Hls as [|l ls [Hn Hz] Hls IH]; intros pre; [done|].
  rewrite fold_block_unlines by done. cbn [length spans map].
  rewrite Nat.min_l by (rewrite length_app; lia).
  assert (word_at (pre ++ fold_word f l ++ x00 :: fold_block f (unlines ls)) (length pre) = fold_word f l) as ->.
  { unfold word_at. by rewrite drop_app_length, cstr_fold. }
  f_equal. specialize (IH (pre ++ fold_word f l ++ [x00])).
  rewrite <- !app_assoc in IH. cbn [app] in IH.
  replace (length (pre ++ fold_word f l ++ [x00])) with (length pre + length (fold_word f l) + 1)%nat in IH
    by (rewrite !length_app; cbn; lia).
  exact IH.
Qed.

Lemma count_newlines_unlines ls :
  Forall (fun l => x0a ∉ l) ls -> count_newlines (unlines ls) = length ls.
Proof.
  unfold count_newlines, unlines. induction 1 as [|l ls Hl Hls IH]; [done|]. cbn [map concat length].
  rewrite <- app_assoc, List.filter_app, length_app. cbn [app List.filter].
  rewrite bool_decide_eq_true_2 by done. cbn [length]. rewrite IH.
  replace (List.filter _ l) with (@nil byte); [done|].
  clear IH. induction l as [|b l IH]; [done|]. apply not_elem_of_cons in Hl as [H1 H2]. cbn.
  rewrite bool_decide_eq_false_2 by done. by apply IH.
Qed.

Lemma lines_clean s : x00 ∉ s -> Forall (fun l => (x0a ∉ l) /\ (x00 ∉ l)) (lines s).
Proof.
  intros Hs. apply list.Forall_forall. intros l Hl.
  assert (forall b, b ∈ l -> b ∈ s /\ b <> x0a) as H.
  { intros b Hb. apply lines_chars, list_elem_of_In, in_concat. exists l. by rewrite <- !list_elem_of_In. }
  split; intros Hb; destruct (H _ Hb); by apply Hs.
Qed.

(** loading a word list that holds no NUL and looking a password up in it
    answers whether the password up to its first NUL is, letter case aside, one of
    the file's complete lines: sorting, dropping duplicates and the binary search
    over offsets into one block lose no word and find no other. *)
Theorem dictionary_refines file f d password :
  x00 ∉ file -> from_bytes_folded file f = Some d ->
  contains d password = true <-> exists l, l ∈ lines file /\ fold_word f l = fold_word f (cstr_bytes password).
Proof.
  intros Hz. unfold from_bytes_folded. destruct (existsb _ _); [done|]. intros [= <-].
  pose proof (lines_clean file Hz) as Hl. unfold contains. cbn [block words fold].
  rewrite to_last_newline_lines, count_newlines_unlines by (eapply List.Forall_impl; [|exact Hl]; by intros l [? _]).
  set (b := fold_block f (unlines (lines file))).
  pose proof (spans_words f (lines file) [] Hl) as Hw. cbn [app length] in Hw. fold b in Hw.
  rewrite binary_search_spec
    by (apply sorted_split, dedup_words_sorted, StronglySorted_merge_sort; apply _).
  setoid_rewrite cmp_eq. rewrite dedup_words_words. setoid_rewrite merge_sort_Permutation.
  transitivity (fold_word f (cstr_bytes password) ∈ map (fold_word f) (lines file)).
  - rewrite <- Hw. rewrite list_elem_of_fmap. firstorder.
  - rewrite list_elem_of_fmap. firstorder.
Qed.

Definition sample_words : bytes :=
  String.list_byte_of_string "Foo" ++ [x0a] ++ String.list_byte_of_string "bar" ++ [x0a] ++
  String.list_byte_of_string "foo" ++ [x0a] ++ String.list_byte_of_string "baz".

Definition sample_dict : PwqualDict := default (mkDict [] [] FoldAscii) (from_bytes_folded sample_words FoldAscii).

Lemma dictionary_refines_witness :
  contains sample_dict (String.list_byte_of_string "BAR") = true /\
  contains sample_dict (String.list_byte_of_string "baz") = false.
Proof.
  split.
  - apply (dictionary_refines sample_words FoldAscii sample_dict).
    + apply (bool_decide_unpack _). vm_compute. exact I.
    + vm_compute. reflexivity.
    + exists (String.list_byte_of_string "bar"). split; [|vm_compute; reflexivity].
      apply (bool_decide_unpack _). vm_compute. exact I.
  - vm_compute. reflexivity.
Defined.

End Pwqual.
