(* ===== verification/Glob.v ===== *)
(** * Name patterns of the administration server

    Models [krb5-admin/src/kadm5/glob.rs]: the check that a pattern is well
    formed, matching with its single point of backtracking, and the selection of
    principals and policies.  An index into the pattern or the text is the rest
    from there on. *)

From stdpp Require Import sorting.
From S2P Require Import Prelude Ascii.

Module Glob.
Import Ascii.

Definition STAR : byte := x2a.
Definition QUEST : byte := x3f.
Definition OPEN : byte := x5b.
Definition CLOSE : byte := x5d.
Definition CARET : byte := x5e.
Definition BACKSLASH : byte := x5c.
Definition COLON : byte := x3a.
Definition HYPHEN : byte := x2d.
Definition AT : byte := x40.

Definition head_is (s : bytes) (b : byte) : bool := bool_decide (head s = Some b).

(** ** Character classes *)

Definition lit (s : string) : bytes := String.list_byte_of_string s.

Definition posix_class_match (name : bytes) (c : byte) : bool :=
  if bool_decide (name = lit "digit") then is_ascii_digit c
  else if bool_decide (name = lit "alpha") then is_ascii_alphabetic c
  else if bool_decide (name = lit "alnum") then is_ascii_alphanumeric c
  else if bool_decide (name = lit "upper") then is_ascii_uppercase c
  else if bool_decide (name = lit "lower") then is_ascii_lowercase c
  else if bool_decide (name = lit "space") then is_ascii_whitespace c
  else if bool_decide (name = lit "blank") then bool_decide (c = x20) || bool_decide (c = x09)
  else if bool_decide (name = lit "punct") then is_ascii_punctuation c
  else if bool_decide (name = lit "xdigit") then is_ascii_hexdigit c
  else false.

(** The name up to the closing [:\]], and the rest from there; with no closing
    pair the scan stops at the last byte. *)
Fixpoint scan_name (s : bytes) : bytes * bytes :=
  match s with
  | a :: s1 =>
      match s1 with
      | b :: _ =>
          if bool_decide (a = COLON) && bool_decide (b = CLOSE) then ([], s)
          else let '(name, r) := scan_name s1 in (a :: name, r)
      | [] => ([], s)
      end
  | [] => ([], s)
  end.

(** One element of a class: whether it has [c], and the rest. *)
Definition class_element (r : bytes) (c : byte) : bool * bytes :=
  match r with
  | [] => (false, [])
  | x :: r1 =>
      if bool_decide (x = OPEN) && head_is r1 COLON then
        let '(name, k) := scan_name (drop 1 r1) in
        (posix_class_match name c, drop 2 k)
      else match r1 with
      | h :: z :: r3 =>
          if bool_decide (h = HYPHEN) && negb (bool_decide (z = CLOSE))
          then ((u8z x <=? u8z c) && (u8z c <=? u8z z), r3)
          else (bool_decide (x = c), r1)
      | _ => (bool_decide (x = c), r1)
      end
  end.

(** The elements up to the closing bracket, which may be the first of them. *)
Fixpoint class_loop (fuel : nat) (r : bytes) (first : bool) (c : byte) (matched : bool)
    : option (bool * bytes) :=
  match fuel with
  | O => None
  | S fuel =>
      match r with
      | [] => None
      | x :: r1 =>
          if bool_decide (x = CLOSE) && negb first then Some (matched, r1)
          else let '(m, r') := class_element r c in class_loop fuel r' false c (matched || m)
      end
  end.

(** The class at the head of [pat]: whether it has [c], and what follows it; none
    when it is not closed. *)
Definition glob_class (pat : bytes) (c : byte) : option (bool * bytes) :=
  let r := drop 1 pat in
  let negate := head_is r CARET in
  let r := if negate then drop 1 r else r in
  '(matched, rest) ← class_loop (S (length r)) r true c false;
  Some (xorb matched negate, rest).

(** ** Matching *)

(** What is left of the pattern when its head, not a star, takes [c]. *)
Definition take_byte (p : bytes) (c : byte) : option bytes :=
  match p with
  | [] => None
  | x :: p1 =>
      if bool_decide (x = QUEST) then Some p1
      else if bool_decide (x = OPEN) then
        match glob_class p c with
        | Some (true, rest) => Some rest
        | Some (false, _) => None
        | None => if bool_decide (x = c) then Some p1 else None
        end
      else match p1 with
      | y :: p2 =>
          if bool_decide (x = BACKSLASH) then if bool_decide (y = c) then Some p2 else None
          else if bool_decide (x = c) then Some p1 else None
      | [] => if bool_decide (x = c) then Some p1 else None
      end
  end.

(** The end of the text: only stars may be left. *)
Fixpoint all_stars (p : bytes) : bool :=
  match p with
  | [] => true
  | x :: p => bool_decide (x = STAR) && all_stars p
  end.

(** [star] is the pattern after the last star met, and the text from which it
    was last tried. *)
Fixpoint glob_loop (fuel : nat) (p t : bytes) (star : option (bytes * bytes)) : option bool :=
  match fuel with
  | O => None
  | S fuel =>
      match t with
      | [] => Some (all_stars p)
      | c :: t1 =>
          if head_is p STAR then glob_loop fuel (drop 1 p) t (Some (drop 1 p, t))
          else match take_byte p c with
          | Some p' => glob_loop fuel p' t1 star
          | None =>
              match star with
              | Some (sp, st) => glob_loop fuel sp (drop 1 st) (Some (sp, drop 1 st))
              | None => Some false
              end
          end
      end
  end.

Definition glob_fuel (p t : bytes) : nat := ((length p + 2) * (length t + 2) * (length p + 2))%nat.

Definition glob_is_match (pattern text : bytes) : option bool :=
  glob_loop (glob_fuel pattern text) pattern text None.

(** ** Well-formed patterns *)

(** After the first element of a bracket expression: the rest after its closing
    bracket. *)
Fixpoint bracket_end (fuel : nat) (r : bytes) : option bytes :=
  match fuel with
  | O => None
  | S fuel =>
      match r with
      | [] => None
      | x :: r1 =>
          if bool_decide (x = CLOSE) then Some r1
          else if bool_decide (x = OPEN) && head_is r1 COLON then
            let '(_, k) := scan_name (drop 1 r1) in
            if (length k <=? 1)%nat then None else bracket_end fuel (drop 2 k)
          else bracket_end fuel r1
      end
  end.

Fixpoint pattern_ok_loop (fuel : nat) (b : bytes) : bool :=
  match fuel with
  | O => false
  | S fuel =>
      match b with
      | [] => true
      | x :: b1 =>
          if bool_decide (x = BACKSLASH) then
            match b1 with [] => false | _ :: b2 => pattern_ok_loop fuel b2 end
          else if bool_decide (x = OPEN) then
            let j := if head_is b1 CARET then drop 1 b1 else b1 in
            let j := if head_is j CLOSE then drop 1 j else j in
            match bracket_end (S (length j)) j with
            | None => false
            | Some r => pattern_ok_loop fuel r
            end
          else pattern_ok_loop fuel b1
      end
  end.

Definition glob_pattern_ok (glob : bytes) : bool :=
  negb (bool_decide (list.last glob = Some BACKSLASH)) && pattern_ok_loop (S (length glob)) glob.

(** ** Selection *)

Definition glob_expand (glob : bytes) (append_realm : bool) : bytes :=
  if append_realm && negb (bool_decide (AT ∈ glob)) then glob ++ [AT; STAR] else glob.

Definition matches (pattern text : bytes) : bool := default false (glob_is_match pattern text).

Definition principals_matching (ids : list bytes) (expr : option bytes) : list bytes :=
  match expr with
  | Some g =>
      if bool_decide (g = [STAR]) then ids
      else filter (fun id => matches (glob_expand g true) id = true) ids
  | None => ids
  end.

(** The order of strings is that of their bytes. *)
Fixpoint str_leb (a b : bytes) : bool :=
  match a, b with
  | [], _ => true
  | _ :: _, [] => false
  | x :: a, y :: b => (u8z x <? u8z y) || ((u8z x =? u8z y) && str_leb a b)
  end.
Definition str_le (a b : bytes) : Prop := str_leb a b = true.

#[global] Instance str_le_dec : RelDecision str_le.
Proof. intros a b. unfold Decision, str_le. apply (decide (str_leb a b = true)). Defined.

Definition policies_matching (names : list bytes) (expr : option bytes) : list bytes :=
  let pat := match expr with
             | Some g => if bool_decide (g = [STAR]) then None else Some (glob_expand g false)
             | None => None
             end in
  merge_sort str_le
    (filter (fun n => from_option (fun p => matches p n) true pat = true) names).

Lemma str_le_total a b : str_le a b \/ str_le b a.
Proof.
  unfold str_le. revert b. induction a as [|x a IH]; intros [|y b]; simpl; auto.
  destruct (Z.ltb_spec (u8z x) (u8z y)), (Z.eqb_spec (u8z x) (u8z y)),
    (Z.ltb_spec (u8z y) (u8z x)), (Z.eqb_spec (u8z y) (u8z x)); simpl; auto; lia.
Qed.

(** ** The language of a pattern

    A star stands for any text; every other element takes one byte. *)
Inductive gmatch : bytes -> bytes -> Prop :=
| gm_end : gmatch [] []
| gm_star p t u : gmatch p u -> gmatch (STAR :: p) (t ++ u)
| gm_byte p p' c t :
    head_is p STAR = false -> take_byte p c = Some p' -> gmatch p' t -> gmatch p (c :: t).

Lemma scan_name_length s : (length (snd (scan_name s)) <= length s)%nat.
Proof.
  induction s as [|a s1 IH]; [done|]. destruct s1 as [|b s2]; [done|].
  change (scan_name (a :: b :: s2)) with
    (if bool_decide (a = COLON) && bool_decide (b = CLOSE) then ([], a :: b :: s2)
     else let '(name, r) := scan_name (b :: s2) in (a :: name, r)).
  case_match; [done|]. destruct (scan_name (b :: s2)). simpl in *. lia.
Qed.

(** Only the verdict of an element depends on the byte it is tried on. *)
Lemma class_element_rest r c c' : snd (class_element r c) = snd (class_element r c').
Proof.
  destruct r as [|x r1]; [done|]. unfold class_element.
  case_match; [by destruct (scan_name (drop 1 r1))|].
  destruct r1 as [|h [|z r3]]; [done..|]. by case_match.
Qed.

Lemma class_element_length r c : r <> [] -> (length (snd (class_element r c)) < length r)%nat.
Proof.
  intros Hr. destruct r as [|x r1]; [done|]. unfold class_element.
  case_match.
  - pose proof (scan_name_length (drop 1 r1)) as H'. destruct (scan_name (drop 1 r1)) as [name k].
    simpl in *. rewrite !length_drop in *. lia.
  - destruct r1 as [|h [|z r3]]; simpl; try lia. case_match; simpl; lia.
Qed.

Lemma class_loop_rest fuel r first c c' m m' :
  snd <$> class_loop fuel r first c m = snd <$> class_loop fuel r first c' m'.
Proof.
  revert r first m m'. induction fuel as [|fuel IH]; intros r first m m'; [done|].
  simpl. destruct r as [|x r1]; [done|]. case_match; [done|].
  pose proof (class_element_rest (x :: r1) c c') as E.
  destruct (class_element (x :: r1) c) as [a u], (class_element (x :: r1) c') as [a' u'].
  simpl in E. subst u'. apply IH.
Qed.

Lemma class_loop_length fuel r first c m v rest :
  class_loop fuel r first c m = Some (v, rest) -> (length rest < length r)%nat.
Proof.
  revert r first m. induction fuel as [|fuel IH]; intros r first m; [done|].
  simpl. destruct r as [|x r1]; [done|]. case_match; [intros [= <- <-]; simpl; lia|].
  pose proof (class_element_length (x :: r1) c ltac:(done)) as E.
  destruct (class_element (x :: r1) c) as [a u]. simpl in E. intros Hi%IH. simpl. lia.
Qed.

Lemma glob_class_rest p c c' : snd <$> glob_class p c = snd <$> glob_class p c'.
Proof.
  unfold glob_class. cbv zeta.
  set (r := if head_is (drop 1 p) CARET then drop 1 (drop 1 p) else drop 1 p).
  pose proof (class_loop_rest (S (length r)) r true c c' false false) as E.
  destruct (class_loop _ r true c false) as [[m k]|], (class_loop _ r true c' false) as [[m' k']|];
    simpl in *; congruence.
Qed.

Lemma glob_class_length p c v rest : glob_class p c = Some (v, rest) -> (length rest < length p)%nat.
Proof.
  unfold glob_class. cbv zeta.
  set (r := if head_is (drop 1 p) CARET then drop 1 (drop 1 p) else drop 1 p).
  assert (length r <= length p)%nat by (unfold r; case_match; rewrite ?length_drop; lia).
  destruct (class_loop _ r true c false) as [[m k]|] eqn:E; [|done].
  intros [= <- <-]. apply class_loop_length in E. lia.
Qed.

Lemma take_byte_length p c p' : take_byte p c = Some p' -> (length p' < length p)%nat.
Proof.
  unfold take_byte. destruct p as [|x p1]; [done|]. case_match; [intros [= <-]; simpl; lia|].
  case_match.
  - destruct (glob_class (x :: p1) c) as [[[] rest]|] eqn:E; [|done|].
    + intros [= <-]. by eapply glob_class_length.
    + case_match; [|done]. intros [= <-]. simpl. lia.
  - destruct p1 as [|y p2]; repeat case_match; try done; intros [= <-]; simpl; lia.
Qed.

(** What is left of the pattern does not depend on the byte taken. *)
Lemma take_byte_rest p c c' q q' : take_byte p c = Some q -> take_byte p c' = Some q' -> q = q'.
Proof.
  unfold take_byte. destruct p as [|x p1]; [done|]. case_match; [congruence|].
  case_match.
  - pose proof (glob_class_rest (x :: p1) c c') as E.
    destruct (glob_class (x :: p1) c) as [[[] r]|], (glob_class (x :: p1) c') as [[[] r']|];
      simpl in E; try done; try congruence; repeat case_match; congruence.
  - destruct p1 as [|y p2]; repeat case_match; congruence.
Qed.

(** ** Correctness of the loop *)

Lemma gmatch_star p t : gmatch (STAR :: p) t <-> exists k, (k <= length t)%nat /\ gmatch p (drop k t).
Proof.
  split.
  - inversion 1 as [|p' t' u Hu|q q' c t' Hh]; subst; [|done].
    exists (length t'). rewrite drop_app_length, length_app. split; [lia|done].
  - intros (k & _ & H). rewrite <- (take_drop k t). by constructor.
Qed.

Lemma gmatch_byte p c t :
  head_is p STAR = false -> gmatch p (c :: t) <-> exists p', take_byte p c = Some p' /\ gmatch p' t.
Proof.
  intros Hh. split.
  - inversion 1 as [|p' t' u Hu|q q' c' t' _ Ht Hm]; subst; [done|]. eauto.
  - intros (p' & Ht & Hm). by econstructor.
Qed.

Lemma gmatch_nil p : gmatch p [] <-> all_stars p = true.
Proof.
  split.
  - intros H. remember [] as t eqn:Et. induction H as [|p t' u Hu IH|]; [done| |done].
    apply app_eq_nil in Et as [_ ->]. simpl. auto.
  - induction p as [|x p IH]; [constructor|]. simpl.
    intros [->%bool_decide_eq_true Hp]%andb_true_iff. apply (gm_star p [] []). auto.
Qed.

(** [p] is reached from [sp] by taking [n] bytes, whichever they are. *)
Definition reached (sp p : bytes) (n : nat) : Prop :=
  forall u, gmatch sp u -> (n <= length u)%nat /\ gmatch p (drop n u).

Lemma reached_refl sp : reached sp sp 0.
Proof. intros u Hu. split; [lia|done]. Qed.

Lemma reached_step sp p p' c n :
  reached sp p n -> head_is p STAR = false -> take_byte p c = Some p' -> reached sp p' (S n).
Proof.
  intros Hr Hh Ht u Hu. destruct (Hr u Hu) as [Hn Hm].
  destruct (drop n u) as [|c' u'] eqn:E.
  { apply gmatch_nil in Hm. destruct p as [|x p]; [done|]. simpl in Hm.
    apply andb_true_iff in Hm as [->%bool_decide_eq_true _]. done. }
  assert (drop (S n) u = u') as Eu.
  { rewrite <- Nat.add_1_r, <- drop_drop, E. done. }
  assert (S n <= length u)%nat by (apply (f_equal length) in E; rewrite length_drop in E; simpl in E; lia).
  apply gmatch_byte in Hm as (q & Hq & Hm); [|done]. rewrite Eu. split; [done|].
  by rewrite (take_byte_rest p c c' p' q).
Qed.

(** The whole match is the rest from here, or one from a later point after the
    last star. *)
Definition state_ok (p t : bytes) (star : option (bytes * bytes)) (goal : Prop) : Prop :=
  match star with
  | None => goal <-> gmatch p t
  | Some (sp, st) =>
      (exists n, t = drop n st /\ (n <= length st)%nat /\ reached sp p n) /\
      (goal <-> gmatch p t \/ exists k, (1 <= k <= length st)%nat /\ gmatch sp (drop k st))
  end.

(** Trying a later point after an earlier star finds nothing more. *)
Lemma later_star p t sp st n :
  t = drop n st -> reached sp (STAR :: p) n ->
  (exists k, (1 <= k <= length st)%nat /\ gmatch sp (drop k st)) -> gmatch (STAR :: p) t.
Proof.
  intros -> Hr (k & Hk & Hm). destruct (Hr _ Hm) as [Hn Hs].
  apply gmatch_star in Hs as (j & Hj & Hp). apply gmatch_star.
  rewrite !length_drop in *. rewrite !drop_drop in *.
  exists (k + j)%nat. rewrite ?length_drop, drop_drop. split; [lia|].
  by replace (n + (k + j))%nat with (k + (n + j))%nat by lia.
Qed.

Lemma star_split p t :
  gmatch (STAR :: p) t <-> gmatch p t \/ exists k, (1 <= k <= length t)%nat /\ gmatch p (drop k t).
Proof.
  rewrite gmatch_star. split.
  - intros (k & Hk & Hm). destruct k as [|k]; [by left|]. right. exists (S k). split; [lia|done].
  - intros [Hm|(k & Hk & Hm)]; [by exists 0%nat; split; [lia|]|]. exists k. split; [lia|done].
Qed.

Lemma state_star p c t star goal :
  state_ok (STAR :: p) (c :: t) star goal -> state_ok p (c :: t) (Some (p, c :: t)) goal.
Proof.
  intros H. split; [by exists 0%nat; split_and!; [done|lia|apply reached_refl]|].
  rewrite <- star_split. destruct star as [[sp st]|]; [|done].
  destruct H as [(n & Et & _ & Hr) ->]. split; [|by left].
  intros [?|Hk]; [done|]. by eapply later_star.
Qed.

Lemma state_step p p' c t star goal :
  head_is p STAR = false -> take_byte p c = Some p' ->
  state_ok p (c :: t) star goal -> state_ok p' t star goal.
Proof.
  intros Hh Ht H. assert (gmatch p (c :: t) <-> gmatch p' t) as E.
  { rewrite gmatch_byte by done. rewrite Ht. split; [by intros (? & [= <-] & ?)|eauto]. }
  destruct star as [[sp st]|]; simpl in *; [|by rewrite <- E].
  destruct H as [(n & Et & Hn & Hr) ->]. rewrite E. split; [|done].
  exists (S n). split_and!.
  - rewrite <- Nat.add_1_r, <- drop_drop, <- Et. done.
  - apply (f_equal length) in Et. rewrite length_drop in Et. simpl in Et. lia.
  - by eapply reached_step.
Qed.

Lemma state_back p c t sp st goal :
  head_is p STAR = false -> take_byte p c = None ->
  state_ok p (c :: t) (Some (sp, st)) goal ->
  (0 < length st)%nat /\ state_ok sp (drop 1 st) (Some (sp, drop 1 st)) goal.
Proof.
  intros Hh Ht [(n & Et & Hn & Hr) Hg]. assert (0 < length st)%nat.
  { apply (f_equal length) in Et. rewrite length_drop in Et. simpl in Et. lia. }
  split; [done|]. split; [by exists 0%nat; split_and!; [done|lia|apply reached_refl]|].
  rewrite Hg, gmatch_byte, Ht by done. rewrite length_drop. split.
  - intros [(? & ? & _)|(k & Hk & Hm)]; [done|]. destruct (decide (k = 1%nat)) as [->|]; [by left|].
    right. exists (k - 1)%nat. rewrite drop_drop. split; [lia|].
    by replace (1 + (k - 1))%nat with k by lia.
  - intros [Hm|(k & Hk & Hm)]; right; [by exists 1%nat; split; [lia|]|].
    exists (1 + k)%nat. rewrite drop_drop in Hm. split; [lia|done].
Qed.

Lemma state_end p star goal : state_ok p [] star goal -> goal <-> all_stars p = true.
Proof.
  rewrite <- gmatch_nil. destruct star as [[sp st]|]; simpl; [|done].
  intros [(n & Et & Hn & Hr) ->]. split; [|by left]. intros [?|(k & Hk & Hm)]; [done|].
  destruct (Hr _ Hm) as [Hlen _]. apply (f_equal length) in Et.
  rewrite length_drop in *. simpl in Et. lia.
Qed.

(** ** Termination

    The pattern after the last star, then the text it is tried on, then the
    pattern at hand get shorter. *)
Definition measure (bp bt : nat) (p : bytes) (star : option (bytes * bytes)) : nat :=
  let '(a, b) := match star with
                 | Some (sp, st) => (length sp, length st)
                 | None => (S bp, bt)
                 end in
  (a * (bt + 2) * (bp + 2) + b * (bp + 2) + length p)%nat.

Definition bounded (bp bt : nat) (p t : bytes) (star : option (bytes * bytes)) : Prop :=
  (length p <= bp)%nat /\ (length t <= bt)%nat /\
  match star with
  | Some (sp, st) =>
      (length p <= length sp <= bp)%nat /\ (length t <= length st <= bt)%nat
  | None => True
  end.

Lemma glob_loop_spec bp bt fuel p t star goal :
  (measure bp bt p star < fuel)%nat -> bounded bp bt p t star -> state_ok p t star goal ->
  exists r, glob_loop fuel p t star = Some r /\ (goal <-> r = true).
Proof.
  revert p t star. induction fuel as [|fuel IH]; intros p t star Hf Hb Hs; [lia|].
  simpl. destruct t as [|c t1].
  { exists (all_stars p). split; [done|]. by eapply state_end. }
  destruct Hb as (Hbp & Hbt & Hbs). destruct (head_is p STAR) eqn:Hh.
  - destruct p as [|x p]; [done|]. apply bool_decide_eq_true in Hh as [= ->].
    change (drop 1 (STAR :: p)) with p.
    apply IH; [|unfold bounded; simpl in *; lia|by eapply state_star].
    unfold measure in *. destruct star as [[sp st]|]; simpl in *; nia.
  - destruct (take_byte p c) as [p'|] eqn:Ht.
    + pose proof (take_byte_length p c p' Ht). apply IH; [| |by eapply state_step].
      * unfold measure in *. destruct star as [[sp st]|]; lia.
      * unfold bounded in *. destruct star as [[sp st]|]; simpl in *; lia.
    + destruct star as [[sp st]|].
      * destruct (state_back p c t1 sp st goal Hh Ht Hs) as [Hlen Hs'].
        apply IH; [| |done].
        { unfold measure in *. rewrite length_drop. nia. }
        { unfold bounded. rewrite !length_drop. lia. }
      * exists false. split; [done|]. simpl in Hs. rewrite Hs, gmatch_byte, Ht by done.
        split; [by intros (? & ? & _)|done].
Qed.

Lemma glob_is_match_total pattern text :
  exists r, glob_is_match pattern text = Some r /\ (gmatch pattern text <-> r = true).
Proof.
  apply (glob_loop_spec (length pattern) (length text)); [|by split_and!|done].
  unfold measure, glob_fuel. nia.
Qed.

Lemma matches_spec pattern text : matches pattern text = true <-> gmatch pattern text.
Proof. unfold matches. by destruct (glob_is_match_total pattern text) as (r & -> & ->). Qed.

(** C37: The matching loop, which on a mismatch goes back only to the last star it
    met, always ends and decides the language of the pattern: a star stands for
    any text, a question mark for any byte, a bracket expression for one of its
    bytes, an escaped byte for itself.  A listing of principals has exactly the
    names in the language of the expression, with any realm when it names none;
    a listing of policies has exactly the names in the language of the expression,
    in order. *)
Theorem glob_selects pattern text ids g :
  (exists b, glob_is_match pattern text = Some b /\ (b = true <-> gmatch pattern text)) /\
  (forall id, id ∈ principals_matching ids (Some g) <->
     id ∈ ids /\ (g = [STAR] \/ gmatch (glob_expand g true) id)) /\
  (forall n, n ∈ policies_matching ids (Some g) <->
     n ∈ ids /\ (g = [STAR] \/ gmatch (glob_expand g false) n)) /\
  Sorted str_le (policies_matching ids (Some g)).
Proof.
  split_and!.
  - destruct (glob_is_match_total pattern text) as (b & H & E). by exists b.
  - intros id. unfold principals_matching. case_bool_decide as Hg; [tauto|].
    rewrite list_elem_of_filter, matches_spec. tauto.
  - intros n. unfold policies_matching. rewrite merge_sort_Permutation, list_elem_of_filter.
    case_bool_decide as Hg; simpl; rewrite ?matches_spec; tauto.
  - apply Sorted_merge_sort. intros a b. apply str_le_total.
Qed.

(** Classes, ranges and backtracking over two stars. *)
Example glob_samples :
  map (fun '(p, t) => matches (lit p) (lit t))
    [("*/admin@*", "jo/root/admin@R"); ("a*b*c", "aXbYbZ"); ("[a-c][^x]?", "bz1");
     ("[[:digit:]]*", "7x"); ("[]]", "]"); ("\*", "*"); ("[a", "[a"); ("x?", "x")]%string
  = [true; false; true; true; true; true; true; false].
Proof. reflexivity. Qed.

End Glob.
