(* ===== verification/Deltat.v ===== *)
(** * Durations

    Models [krb5-types/src/deltat.rs], the reader of lifetimes such as [3d 4h],
    [1:30:00] and [42-13:42:47].  The position in the text is the rest from there
    on; a failed alternative starts again from where it began, so an error
    carries no position. *)

From S2P Require Import Prelude Ascii Decimal.

Module Deltat.
Import Ascii.

Inductive DeltatError := DeltatErr.

#[global] Instance DeltatError_eq_dec : EqDecision DeltatError.
Proof. solve_decision. Defined.

Abbreviation res := (result DeltatError).

Definition MAX : Z := I32_MAX.
Definition MIN : Z := - 2 ^ 31.
Definition DAY : Z := 24 * 3600.
Definition HOUR : Z := 3600.
Definition MAX_DAY : Z := Z.quot MAX DAY.
Definition MIN_DAY : Z := Z.quot MIN DAY.
Definition MAX_HOUR : Z := Z.quot MAX HOUR.
Definition MIN_HOUR : Z := Z.quot MIN HOUR.
Definition MAX_MIN : Z := Z.quot MAX 60.
Definition MIN_MIN : Z := Z.quot MIN 60.

(** [checked_add], [checked_mul] and [try_from] at [i32]. *)
Definition chk (z : Z) : res Z := if (MIN <=? z) && (z <=? MAX) then Ok z else Err DeltatErr.

Definition is_ws (c : byte) : bool :=
  bool_decide (c = x20) || bool_decide (c = x09) || bool_decide (c = x0a).

Definition mylex_token (c : byte) : bool :=
  bool_decide (c ∈ [x2d; x3a; x64; x68; x6d; x73]) || is_ascii_digit c.

Fixpoint skip_ws (s : bytes) : bytes :=
  match s with
  | c :: s1 => if is_ws c then skip_ws s1 else s
  | [] => []
  end.

Definition digit_head (s : bytes) : bool :=
  match s with c :: _ => is_ascii_digit c | [] => false end.

Fixpoint num_loop (s : bytes) (n : Z) : res (Z * bytes) :=
  match s with
  | c :: s1 =>
      if is_ascii_digit c then
        let d := u8z c - 0x30 in
        if MAX / 10 <? n then Err DeltatErr
        else if MAX - d <? n * 10 then Err DeltatErr
        else num_loop s1 (n * 10 + d)
      else Ok (n, s)
  | [] => Ok (n, [])
  end.

Definition num (s : bytes) : res (Z * bytes) :=
  let s := skip_ws s in
  let '(neg, s) := match s with
                   | c :: s1 => if bool_decide (c = x2d) then (true, s1) else (false, s)
                   | [] => (false, s)
                   end in
  if negb (digit_head s) then Err DeltatErr
  else
    let? (n, s) := num_loop s 0 in
    let? v := chk n in
    if neg then let? v := chk (- v) in Ok (v, s) else Ok (v, s).

(** At most two digits: [count] of them have been read. *)
Fixpoint tok_num_loop (s : bytes) (n : Z) (count : nat) : res (Z * bytes) :=
  match s with
  | c :: s1 =>
      if is_ascii_digit c then
        let? n := chk (n * 10) in
        let? n := chk (n + (u8z c - 0x30)) in
        if (2 <? S count)%nat then Err DeltatErr else tok_num_loop s1 n (S count)
      else Ok (n, s)
  | [] => Ok (n, [])
  end.

Definition tok_num (s : bytes) : res (Z * bytes) :=
  if negb (digit_head s) then Err DeltatErr else tok_num_loop s 0 0.

(** The rest after [c], when it is next. *)
Definition eat (s : bytes) (c : byte) : option bytes :=
  match s with
  | x :: s1 => if bool_decide (x = c) then Some s1 else None
  | [] => None
  end.

Definition sum (a b : Z) : res Z := chk (a + b).

Definition dhms (d h m s : Z) : res Z :=
  if negb ((MIN_DAY <=? d) && (d <=? MAX_DAY)) || negb ((MIN_HOUR <=? h) && (h <=? MAX_HOUR))
     || negb ((MIN_MIN <=? m) && (m <=? MAX_MIN))
  then Err DeltatErr
  else
    let? out := chk (d * DAY) in
    let? x := chk (h * HOUR) in
    let? out := sum out x in
    let? x := chk (m * 60) in
    let? out := sum out x in
    sum out s.

Definition opt_s (s : bytes) : Z * bytes :=
  let s' := skip_ws s in
  match s' with
  | [] => (0, [])
  | _ =>
      match num s' with
      | Ok (n, r) => match eat r x73 with Some r => (n, r) | None => (0, skip_ws s) end
      | Err _ => (0, skip_ws s)
      end
  end.

Definition opt_ms (s : bytes) : res (Z * bytes) :=
  match num s with
  | Ok (n, r) =>
      match eat r x6d with
      | Some r =>
          let '(sec, r) := opt_s r in
          let? x := chk (n * 60) in
          let? v := sum x sec in Ok (v, r)
      | None => Ok (opt_s s)
      end
  | Err _ => Ok (opt_s s)
  end.

Definition opt_hms (s : bytes) : res (Z * bytes) :=
  match num s with
  | Ok (n, r) =>
      match eat r x68 with
      | Some r =>
          let? (ms, r) := opt_ms r in
          let? x := chk (n * HOUR) in
          let? v := sum x ms in Ok (v, r)
      | None => opt_ms s
      end
  | Err _ => opt_ms s
  end.

(** [HH:MM:SS] after a day count and a hyphen. *)
Definition clock (s : bytes) : option (Z * Z * Z * bytes) :=
  match tok_num s with
  | Ok (h, s) =>
      s ← eat s x3a;
      match tok_num s with
      | Ok (m, s) =>
          s ← eat s x3a;
          match tok_num s with
          | Ok (sec, s) => Some (h, m, sec, s)
          | Err _ => None
          end
      | Err _ => None
      end
  | Err _ => None
  end.

Definition with_rest (v : res Z) (r : bytes) : res (Z * bytes) := let? v := v in Ok (v, r).

Definition deltat (s : bytes) : res (Z * bytes) :=
  let? (n, s) := num s in
  match eat s x64 with
  | Some s =>
      let? (rest, s) := opt_hms s in
      if negb ((MIN_DAY <=? n) && (n <=? MAX_DAY)) then Err DeltatErr
      else
        let? x := chk (n * DAY) in
        with_rest (sum x rest) s
  | None =>
  match eat s x2d ≫= clock with
  | Some (h, m, sec, s) => with_rest (dhms n h m sec) s
  | None =>
  match eat s x68 with
  | Some s => let? (rest, s) := opt_ms s in with_rest (dhms 0 n 0 rest) s
  | None =>
  match eat s x6d with
  | Some s => let '(rest, s) := opt_s s in with_rest (dhms 0 0 n rest) s
  | None =>
  match eat s x73 with
  | Some s => with_rest (dhms 0 0 0 n) s
  | None =>
  match eat s x3a with
  | Some s =>
      let? (m, s) := tok_num s in
      match eat s x3a with
      | Some s => let? (sec, s) := tok_num s in with_rest (dhms 0 n m sec) s
      | None => with_rest (dhms 0 n m 0) s
      end
  | None => with_rest (dhms 0 0 0 n) s
  end end end end end end.

Definition parse (s : bytes) : res Z :=
  let? (v, r) := deltat s in
  match r with
  | c :: _ => if mylex_token c || is_ws c then Err DeltatErr else Ok v
  | [] => Ok v
  end.

(** The vectors of the source's tests. *)
Definition reads (s : string) : option Z :=
  match parse (String.list_byte_of_string s) with Ok v => Some v | Err _ => None end.

Example deltat_vectors :
  map reads ["3d"; "3dd"; "3d4m    42s"; "3d -1h"; "3d4h5m6s"; "3d4m5h"; "1m 12345s"; "42-13:42:47";
             "3: 4"; "13:0003"; "12:34"; "1:02:03"; "42x"; "1-2"; "2147483647s"; "2147483648s";
             "24855d"; "24856d"; "24855d 3h 14m 7s"; "24855d 3h 14m 8s"; "24855d 19500000000m"; "596524h"]%string
  = [Some 259200; None; Some 259482; Some 255600; Some 273906; None; Some 12405; Some 3678167;
     None; None; Some 45240; Some 3723; Some 42; None; Some 2147483647; None;
     Some 2147472000; None; Some 2147483647; None; None; None].
Proof. reflexivity. Qed.

(** ** Results are [i32] *)

Lemma chk_ok z v : chk z = Ok v -> v = z /\ is_i32 v.
Proof.
  unfold chk. case_match; [|done]. intros [= <-]. to_prop. unfold MIN, MAX, I32_MAX, is_i32 in *. lia.
Qed.

Lemma chk_range z : 0 <= z -> chk z = if z <=? MAX then Ok z else Err DeltatErr.
Proof.
  intros Hz. unfold chk. rewrite (proj2 (Z.leb_le MIN z)); [done|]. unfold MIN. lia.
Qed.

Lemma with_rest_ok v r x : with_rest v r = Ok x -> v = Ok (fst x).
Proof. unfold with_rest. destruct v; [|done]. by intros [= <-]. Qed.

Lemma dhms_i32 d h m s v : dhms d h m s = Ok v -> is_i32 v.
Proof.
  unfold dhms, sum. destruct (_ || _); [done|].
  destruct (chk (d * DAY)) as [a|]; [|done]. destruct (chk (h * HOUR)) as [a0|]; [|done].
  destruct (chk (a + a0)) as [a1|]; [|done]. destruct (chk (m * 60)) as [a2|]; [|done].
  destruct (chk (a1 + a2)); [|done]. intros H%chk_ok. apply H.
Qed.

Lemma deltat_i32 s v r : deltat s = Ok (v, r) -> is_i32 v.
Proof.
  unfold deltat. destruct (num s) as [[n s1]|]; [|done].
  destruct (eat s1 x64) as [b|].
  { destruct (opt_hms b) as [[x y]|]; [|done]. case_match; [done|].
    destruct (chk (n * DAY)) as [d|]; [|done]. intros H'%with_rest_ok. apply chk_ok in H'. apply H'. }
  destruct (eat s1 x2d ≫= clock) as [[[[h m] sec] s2]|]; [by intros H%with_rest_ok%dhms_i32|].
  destruct (eat s1 x68) as [b|].
  { destruct (opt_ms b) as [[x y]|]; [|done]. by intros H%with_rest_ok%dhms_i32. }
  destruct (eat s1 x6d) as [b|]; [destruct (opt_s b); by intros H%with_rest_ok%dhms_i32|].
  destruct (eat s1 x73) as [b|]; [by intros H%with_rest_ok%dhms_i32|].
  destruct (eat s1 x3a) as [b|]; [|by intros H%with_rest_ok%dhms_i32].
  destruct (tok_num b) as [[x y]|]; [|done].
  destruct (eat y x3a) as [b0|]; [|by intros H%with_rest_ok%dhms_i32].
  destruct (tok_num b0) as [[x' y']|]; [|done]. by intros H%with_rest_ok%dhms_i32.
Qed.

(** ** Numbers *)

Definition digits (s : bytes) : Prop := s <> [] /\ Forall (fun c => is_ascii_digit c = true) s.

Definition value (acc : Z) (s : bytes) : Z := fold_left (fun a c => a * 10 + (u8z c - 0x30)) s acc.

Lemma value_mono s acc : 0 <= acc -> Forall (fun c => is_ascii_digit c = true) s -> acc <= value acc s.
Proof.
  revert acc. induction s as [|c s IH]; intros acc Ha Hs; [done|].
  inversion Hs as [|? ? Hc Hs']; subst. unfold is_ascii_digit, within in Hc. to_prop. simpl.
  specialize (IH (acc * 10 + (u8z c - 48)) ltac:(lia) Hs'). unfold value in *. simpl. lia.
Qed.

Lemma num_loop_digits ds rest n :
  Forall (fun c => is_ascii_digit c = true) ds -> digit_head rest = false -> 0 <= n <= MAX ->
  num_loop (ds ++ rest) n
  = if value n ds <=? MAX then Ok (value n ds, rest) else Err DeltatErr.
Proof.
  revert n. induction ds as [|c ds IH]; intros n Hds Hr Hn.
  - simpl. rewrite (proj2 (Z.leb_le _ _)) by apply Hn.
    destruct rest as [|c r]; [done|]. simpl in *. by rewrite Hr.
  - inversion Hds as [|? ? Hc Hds']; subst. simpl. rewrite Hc.
    pose proof Hc as Hc'. unfold is_ascii_digit, within in Hc'. to_prop.
    pose proof (value_mono ds (n * 10 + (u8z c - 48)) ltac:(lia) Hds') as Hv.
    assert (MAX / 10 = 214748364) by done. assert (MAX = 2147483647) by done.
    change (fold_left _ ds _) with (value (n * 10 + (u8z c - 48)) ds).
    destruct (Z.ltb_spec (MAX / 10) n) as [Hb|Hb].
    { rewrite (proj2 (Z.leb_gt _ _)); [done|]. lia. }
    destruct (Z.ltb_spec (MAX - (u8z c - 48)) (n * 10)) as [Hb'|Hb'].
    { rewrite (proj2 (Z.leb_gt _ _)); [done|]. lia. }
    apply IH; [done|done|lia].
Qed.

Lemma digit_not_ws c : is_ascii_digit c = true -> is_ws c = false /\ c <> x2d.
Proof. by destruct c. Qed.

Lemma skip_ws_digits ds rest : digits ds -> skip_ws (ds ++ rest) = ds ++ rest.
Proof.
  intros [Hn Hd]. destruct ds as [|c ds]; [done|]. inversion Hd as [|? ? Hc _]; subst. simpl.
  by rewrite (proj1 (digit_not_ws c Hc)).
Qed.

Lemma digits_head ds rest : digits ds -> digit_head (ds ++ rest) = true.
Proof. intros [Hn Hd]. destruct ds; [done|]. by inversion Hd. Qed.

Lemma num_digits ds rest :
  digits ds -> digit_head rest = false ->
  num (ds ++ rest) = if value 0 ds <=? MAX then Ok (value 0 ds, rest) else Err DeltatErr.
Proof.
  intros Hds Hr. unfold num. rewrite skip_ws_digits by done.
  pose proof (digits_head ds rest Hds) as Hh. pose proof Hds as [Hn Hd].
  destruct ds as [|c ds]; [done|]. inversion Hd as [|? ? Hc _]; subst.
  assert ((match (c :: ds) ++ rest with
           | x :: s1 => if bool_decide (x = x2d) then (true, s1) else (false, (c :: ds) ++ rest)
           | [] => (false, (c :: ds) ++ rest) end) = (false, (c :: ds) ++ rest)) as ->.
  { simpl. by rewrite bool_decide_eq_false_2 by apply (digit_not_ws c Hc). }
  rewrite Hh, num_loop_digits by (done || (split; done)). simpl negb. cbn iota.
  destruct (Z.leb_spec (value 0 (c :: ds)) MAX) as [Hle|]; [|done].
  pose proof (value_mono (c :: ds) 0 ltac:(done) Hd).
  rewrite chk_range by done. by rewrite (proj2 (Z.leb_le _ _) Hle).
Qed.

(** ** Days, hours, minutes and seconds *)

(** The rest of a duration that stands for [total] seconds: its value when it
    fits, otherwise an error, or a number left over that [parse] refuses. *)
Definition outcome (r : res (Z * bytes)) (total : Z) : Prop :=
  if total <=? MAX then r = Ok (total, [])
  else match r with
       | Ok (_, rest) => digit_head rest = true
       | Err _ => True
       end.

Lemma outcome_over r total :
  MAX < total -> match r with Ok (_, rest) => digit_head rest = true | Err _ => True end -> outcome r total.
Proof. intros Ht H. unfold outcome. by rewrite (proj2 (Z.leb_gt _ _) Ht). Qed.

(** A unit of [k] seconds in front. *)
Lemma outcome_unit r n k t :
  0 <= n -> 0 < k -> 0 <= t -> outcome r t ->
  outcome (let? (ms, rest) := r in let? x := chk (n * k) in let? v := sum x ms in Ok (v, rest))
    (n * k + t).
Proof.
  intros Hn Hk Ht. unfold outcome.
  destruct (Z.leb_spec t MAX) as [Hle|Hgt].
  - intros ->. rewrite chk_range by nia.
    destruct (Z.leb_spec (n * k) MAX) as [H1|H1].
    + unfold sum. rewrite chk_range by nia. by destruct (Z.leb_spec (n * k + t) MAX).
    + rewrite (proj2 (Z.leb_gt _ _)) by lia. done.
  - intros H. rewrite (proj2 (Z.leb_gt _ _)) by nia.
    destruct r as [[ms rest]|]; [|done]. destruct (chk (n * k)); [|done].
    by destruct (sum a ms).
Qed.

Lemma value_nonneg ds : digits ds -> 0 <= value 0 ds.
Proof. intros [_ Hd]. by apply value_mono. Qed.

Lemma opt_s_digits ds rest :
  digits ds -> digit_head rest = false ->
  opt_s (ds ++ rest)
  = if value 0 ds <=? MAX then match eat rest x73 with Some r => (value 0 ds, r) | None => (0, ds ++ rest) end
    else (0, ds ++ rest).
Proof.
  intros Hds Hr. unfold opt_s. rewrite skip_ws_digits by done.
  pose proof (digits_head ds rest Hds). rewrite num_digits by done.
  destruct (ds ++ rest) as [|c l]; [done|]. by destruct (value 0 ds <=? MAX).
Qed.

Lemma seconds_outcome ss : digits ss -> outcome (Ok (opt_s (ss ++ [x73]))) (value 0 ss).
Proof.
  intros Hs. unfold outcome. rewrite opt_s_digits by done.
  destruct (Z.leb_spec (value 0 ss) MAX); [done|]. by apply digits_head.
Qed.

Lemma minutes_outcome ms ss :
  digits ms -> digits ss ->
  outcome (opt_ms (ms ++ [x6d] ++ ss ++ [x73])) (value 0 ms * 60 + value 0 ss).
Proof.
  intros Hm Hs. pose proof (value_nonneg ms Hm). pose proof (value_nonneg ss Hs).
  unfold opt_ms. rewrite num_digits by done.
  destruct (Z.leb_spec (value 0 ms) MAX) as [Hle|Hgt].
  - simpl eat. cbn iota.
    pose proof (outcome_unit _ (value 0 ms) 60 _ ltac:(done) ltac:(done) ltac:(done) (seconds_outcome ss Hs)) as Ho.
    destruct (opt_s (ss ++ [x73])) as [sec r]. exact Ho.
  - apply outcome_over; [lia|]. rewrite opt_s_digits by done. simpl.
    by destruct (value 0 ms <=? MAX); apply digits_head.
Qed.

Lemma hours_outcome hs ms ss :
  digits hs -> digits ms -> digits ss ->
  outcome (opt_hms (hs ++ [x68] ++ ms ++ [x6d] ++ ss ++ [x73]))
    (value 0 hs * HOUR + (value 0 ms * 60 + value 0 ss)).
Proof.
  intros Hh Hm Hs.
  pose proof (value_nonneg hs Hh). pose proof (value_nonneg ms Hm). pose proof (value_nonneg ss Hs).
  unfold opt_hms. rewrite num_digits by done.
  destruct (Z.leb_spec (value 0 hs) MAX) as [Hle|Hgt].
  - simpl eat. cbn iota.
    apply (outcome_unit _ (value 0 hs) HOUR); [done|done|lia|by apply minutes_outcome].
  - apply outcome_over; [unfold HOUR; lia|]. unfold opt_ms. rewrite num_digits by done.
    rewrite (proj2 (Z.leb_gt _ _) Hgt), opt_s_digits by done. simpl.
    by destruct (value 0 hs <=? MAX); apply digits_head.
Qed.

(** Reading durations.  Every value read is a 32-bit integer; and days,
    hours, minutes and seconds written with any digits are read as their total in
    seconds when that fits in 32 bits, and refused otherwise. *)
Theorem deltat_parse ds hs ms ss :
  digits ds -> digits hs -> digits ms -> digits ss ->
  let total := value 0 ds * DAY + (value 0 hs * HOUR + (value 0 ms * 60 + value 0 ss)) in
  parse (ds ++ [x64] ++ hs ++ [x68] ++ ms ++ [x6d] ++ ss ++ [x73])
  = (if total <=? MAX then Ok total else Err DeltatErr) /\
  forall s v, parse s = Ok v -> is_i32 v.
Proof.
  intros Hd Hh Hm Hs total. split.
  - pose proof (value_nonneg ds Hd). pose proof (value_nonneg hs Hh).
    pose proof (value_nonneg ms Hm). pose proof (value_nonneg ss Hs).
    pose proof (hours_outcome hs ms ss Hh Hm Hs) as Ho.
    apply (outcome_unit _ (value 0 ds) DAY) in Ho; [|done|done|unfold HOUR; lia].
    unfold parse, deltat. rewrite num_digits by done. fold total in Ho.
    destruct (Z.leb_spec (value 0 ds) MAX) as [Hle|Hgt].
    2: { rewrite (proj2 (Z.leb_gt _ _)); [done|]. unfold total, DAY, HOUR. lia. }
    simpl eat. cbn iota.
    destruct (opt_hms _) as [[rest r]|[]].
    2: { unfold outcome in Ho. by destruct (total <=? MAX). }
    assert ((value 0 ds <=? MAX_DAY) = false -> MAX < total) as Hday.
    { intros ?%Z.leb_gt. unfold MAX_DAY, total, DAY, HOUR, MAX, I32_MAX in *.
      change (Z.quot (2 ^ 31 - 1) (24 * 3600)) with 24855 in *. lia. }
    rewrite (proj2 (Z.leb_le MIN_DAY (value 0 ds))) by (change MIN_DAY with (-24855); lia).
    destruct (value 0 ds <=? MAX_DAY).
    2: { by rewrite (proj2 (Z.leb_gt _ _) (Hday eq_refl)). }
    simpl. unfold with_rest. unfold outcome in Ho.
    destruct (chk (value 0 ds * DAY)) as [x|[]]; [|by destruct (total <=? MAX)].
    destruct (sum x rest) as [y|[]]; [|by destruct (total <=? MAX)].
    destruct (total <=? MAX); [by injection Ho as -> ->|].
    destruct r as [|c r]; [done|]. simpl in Ho. unfold mylex_token. by rewrite Ho, orb_true_r.
  - intros s v. unfold parse. destruct (deltat s) as [[x r]|] eqn:E; [|done].
    apply deltat_i32 in E. destruct r; [by intros [= <-]|]. case_match; [done|]. by intros [= <-].
Qed.

Lemma deltat_parse_witness : parse (String.list_byte_of_string "24855d03h14m7s") = Ok 2147483647.
Proof.
  destruct (deltat_parse [x32; x34; x38; x35; x35] [x30; x33] [x31; x34] [x37]) as [H _];
    [split; [discriminate|]; repeat constructor..|].
  exact H.
Defined.

End Deltat.
