(* ===== verification/Acl.v ===== *)
(** * The access control list of the administration server

    Models [krb5-kdc/src/acl.rs]: the lines of the file, the parsing of a line
    with its operations, patterns and restrictions, the search for the entry that
    decides a request, and the restrictions imposed on an entry that is created
    or modified.  A parsed [String] is the list of its chars; log records are
    left out. *)

From stdpp Require Import pretty.
From S2P Require Import Prelude Utf8 Etype Name EncList Deltat Kdc.

Module Acl.
Import Name EncList.

(** ** Restrictions *)

Module kadm5_mask.
Definition PRINC_EXPIRE_TIME : Z := 0x2.
Definition PW_EXPIRATION : Z := 0x4.
Definition ATTRIBUTES : Z := 0x10.
Definition MAX_LIFE : Z := 0x20.
Definition POLICY : Z := 0x800.
Definition POLICY_CLR : Z := 0x1000.
Definition MAX_RLIFE : Z := 0x2000.
End kadm5_mask.

Record AdminEnt := mkEnt {
  mask : Z;
  attributes : Z;
  max_life : Z;
  max_renewable_life : Z;
  princ_expire_time : Z;
  pw_expiration : Z;
  kvno : Z;
  policy : option ustr;
}.

Record Restrictions := mkRestrictions {
  clear_policy : bool;
  rs_policy : option ustr;
  rs_max_life : option Z;
  rs_max_renewable_life : option Z;
  expire : option Z;
  pwexpire : option Z;
  require_attrs : Z;
  forbid_attrs : Z;
  attrs : bool;
}.

Definition no_restrictions : Restrictions :=
  mkRestrictions false None None None None None 0 U32_MAX false.

(** [!x] at [u32]. *)
Definition not32 (x : Z) : Z := Z.lxor x U32_MAX.

(** [u32::try_from(d).unwrap_or(u32::MAX)] and [now.saturating_add] of it. *)
Definition cap32 (d : Z) : Z := try_from_or 32 d U32_MAX.
Definition cap_at (now d : Z) : Z := Z.min U32_MAX (now + cap32 d).

(** The value under the cap stays when the mask has it. *)
Definition capped (m bit value cap : Z) : Z :=
  if (Z.land m bit =? 0) || (cap <? value) then cap else value.

Definition touches_attrs (r : Restrictions) : bool :=
  attrs r || negb (require_attrs r =? 0) || negb (forbid_attrs r =? U32_MAX).

Definition impose_attrs (r : Restrictions) (e : AdminEnt) : AdminEnt :=
  if touches_attrs r then
    mkEnt (Z.lor (mask e) kadm5_mask.ATTRIBUTES)
      (Z.land (Z.lor (attributes e) (require_attrs r)) (forbid_attrs r))
      (max_life e) (max_renewable_life e) (princ_expire_time e) (pw_expiration e) (kvno e) (policy e)
  else e.

Definition impose_policy (r : Restrictions) (e : AdminEnt) : AdminEnt :=
  if clear_policy r then
    mkEnt (Z.lor (Z.land (mask e) (not32 kadm5_mask.POLICY)) kadm5_mask.POLICY_CLR)
      (attributes e) (max_life e) (max_renewable_life e) (princ_expire_time e) (pw_expiration e)
      (kvno e) (policy e)
  else match rs_policy r with
  | Some pol =>
      mkEnt (Z.lor (mask e) kadm5_mask.POLICY) (attributes e) (max_life e) (max_renewable_life e)
        (princ_expire_time e) (pw_expiration e) (kvno e)
        (if negb (bool_decide (policy e = Some pol)) then Some pol else policy e)
  | None => e
  end.

Definition impose_expire (r : Restrictions) (now : Z) (e : AdminEnt) : AdminEnt :=
  match expire r with
  | Some d =>
      mkEnt (Z.lor (mask e) kadm5_mask.PRINC_EXPIRE_TIME) (attributes e) (max_life e)
        (max_renewable_life e)
        (capped (mask e) kadm5_mask.PRINC_EXPIRE_TIME (princ_expire_time e) (cap_at now d))
        (pw_expiration e) (kvno e) (policy e)
  | None => e
  end.

Definition impose_pwexpire (r : Restrictions) (now : Z) (e : AdminEnt) : AdminEnt :=
  match pwexpire r with
  | Some d =>
      mkEnt (Z.lor (mask e) kadm5_mask.PW_EXPIRATION) (attributes e) (max_life e)
        (max_renewable_life e) (princ_expire_time e)
        (capped (mask e) kadm5_mask.PW_EXPIRATION (pw_expiration e) (cap_at now d))
        (kvno e) (policy e)
  | None => e
  end.

Definition impose_max_life (r : Restrictions) (e : AdminEnt) : AdminEnt :=
  match rs_max_life r with
  | Some d =>
      mkEnt (Z.lor (mask e) kadm5_mask.MAX_LIFE) (attributes e)
        (capped (mask e) kadm5_mask.MAX_LIFE (max_life e) (cap32 d))
        (max_renewable_life e) (princ_expire_time e) (pw_expiration e) (kvno e) (policy e)
  | None => e
  end.

Definition impose_max_rlife (r : Restrictions) (e : AdminEnt) : AdminEnt :=
  match rs_max_renewable_life r with
  | Some d =>
      mkEnt (Z.lor (mask e) kadm5_mask.MAX_RLIFE) (attributes e) (max_life e)
        (capped (mask e) kadm5_mask.MAX_RLIFE (max_renewable_life e) (cap32 d))
        (princ_expire_time e) (pw_expiration e) (kvno e) (policy e)
  | None => e
  end.

Definition impose (r : Restrictions) (e : AdminEnt) (now : Z) : AdminEnt :=
  impose_max_rlife r (impose_max_life r (impose_pwexpire r now (impose_expire r now
    (impose_policy r (impose_attrs r e))))).

(** ** Flag names *)

Definition KDB_SUPPORT_DESMD5 : Z := 0x4000.
Definition KDB_NEW_PRINC : Z := 0x8000.
Definition KDB_NO_AUTH_DATA_REQUIRED : Z := 0x400000.
Definition KDB_LOCKDOWN_KEYS : Z := 0x800000.

(** A name, its flag, and whether the name clears it. *)
Definition FLAG_TABLE : list (string * Z * bool) :=
  [("allow_postdated", KDB_DISALLOW_POSTDATED, true);
   ("postdateable", KDB_DISALLOW_POSTDATED, true);
   ("disallow_postdated", KDB_DISALLOW_POSTDATED, false);
   ("allow_forwardable", KDB_DISALLOW_FORWARDABLE, true);
   ("forwardable", KDB_DISALLOW_FORWARDABLE, true);
   ("disallow_forwardable", KDB_DISALLOW_FORWARDABLE, false);
   ("allow_tgs_req", KDB_DISALLOW_TGT_BASED, true);
   ("tgt_based", KDB_DISALLOW_TGT_BASED, true);
   ("disallow_tgt_based", KDB_DISALLOW_TGT_BASED, false);
   ("allow_renewable", KDB_DISALLOW_RENEWABLE, true);
   ("renewable", KDB_DISALLOW_RENEWABLE, true);
   ("disallow_renewable", KDB_DISALLOW_RENEWABLE, false);
   ("allow_proxiable", KDB_DISALLOW_PROXIABLE, true);
   ("proxiable", KDB_DISALLOW_PROXIABLE, true);
   ("disallow_proxiable", KDB_DISALLOW_PROXIABLE, false);
   ("allow_dup_skey", KDB_DISALLOW_DUP_SKEY, true);
   ("dup_skey", KDB_DISALLOW_DUP_SKEY, true);
   ("disallow_dup_skey", KDB_DISALLOW_DUP_SKEY, false);
   ("allow_tickets", KDB_DISALLOW_ALL_TIX, true);
   ("allow_tix", KDB_DISALLOW_ALL_TIX, true);
   ("disallow_all_tix", KDB_DISALLOW_ALL_TIX, false);
   ("preauth", KDB_REQUIRES_PRE_AUTH, false);
   ("requires_pre_auth", KDB_REQUIRES_PRE_AUTH, false);
   ("requires_preauth", KDB_REQUIRES_PRE_AUTH, false);
   ("hwauth", KDB_REQUIRES_HW_AUTH, false);
   ("requires_hw_auth", KDB_REQUIRES_HW_AUTH, false);
   ("requires_hwauth", KDB_REQUIRES_HW_AUTH, false);
   ("needchange", KDB_REQUIRES_PWCHANGE, false);
   ("pwchange", KDB_REQUIRES_PWCHANGE, false);
   ("requires_pwchange", KDB_REQUIRES_PWCHANGE, false);
   ("allow_svr", KDB_DISALLOW_SVR, true);
   ("service", KDB_DISALLOW_SVR, true);
   ("disallow_svr", KDB_DISALLOW_SVR, false);
   ("password_changing_service", KDB_PWCHANGE_SERVICE, false);
   ("pwchange_service", KDB_PWCHANGE_SERVICE, false);
   ("pwservice", KDB_PWCHANGE_SERVICE, false);
   ("md5", KDB_SUPPORT_DESMD5, false);
   ("support_desmd5", KDB_SUPPORT_DESMD5, false);
   ("new_princ", KDB_NEW_PRINC, false);
   ("ok_as_delegate", KDB_OK_AS_DELEGATE, false);
   ("ok_to_auth_as_delegate", KDB_OK_TO_AUTH_AS_DELEGATE, false);
   ("no_auth_data_required", KDB_NO_AUTH_DATA_REQUIRED, false);
   ("lockdown_keys", KDB_LOCKDOWN_KEYS, false)]%string.

Definition is_hex_char (c : Z) : bool :=
  is_digit c || ((0x41 <=? c) && (c <=? 0x46)) || ((0x61 <=? c) && (c <=? 0x66)).
Definition hex_char_val (c : Z) : Z :=
  if is_digit c then c - 0x30 else if c <=? 0x46 then c - 0x41 + 10 else c - 0x61 + 10.

Fixpoint take_while (f : Z -> bool) (s : ustr) : ustr :=
  match s with
  | c :: s => if f c then c :: take_while f s else []
  | [] => []
  end.

(** [u64::from_str_radix] fails on no digits and on overflow. *)
Definition hex_flag32 (hex : ustr) : Z :=
  let digits := take_while is_hex_char hex in
  let v := fold_left (fun a c => a * 16 + hex_char_val c) digits 0 in
  let v := if bool_decide (digits = []) || (U64_MAX <? v) then 0 else v in
  Z.land v 0xffffffff.

Definition strip_prefix (p s : ustr) : option ustr :=
  if bool_decide (take (length p) s = p) then Some (drop (length p) s) else None.

Definition flag_name (body : ustr) : ustr :=
  map (fun c => lower_char (if c =? 0x2d then 0x5f else c)) body.

(** The flag of a word, and whether the word clears it. *)
Definition flag_word (s : ustr) : option (Z * bool) :=
  match List.find (fun '(n, _, _) => bool_decide (lit n = s)) FLAG_TABLE with
  | Some (_, flag, invert) => Some (flag, invert)
  | None => hex ← strip_prefix (lit "0x") s; Some (hex_flag32 hex, false)
  end.

Definition strip_sign (spec : ustr) : bool * ustr :=
  match spec with
  | c :: rest => if c =? 0x2d then (true, rest) else if c =? 0x2b then (false, rest) else (false, spec)
  | [] => (false, spec)
  end.

(** The new [toset] and [toclear]; none when the word is not a flag. *)
Definition flagspec_to_mask (spec : ustr) (toset toclear : Z) : option (Z * Z) :=
  let '(req_neg, body) := strip_sign spec in
  '(flag, invert) ← flag_word (flag_name body);
  Some (if xorb invert req_neg then (toset, Z.land toclear (not32 flag))
        else (Z.lor toset flag, toclear)).

(** The flags a word of [kadmin] sets and clears: it has a sign. *)
Definition kadmin_flagspec (spec : ustr) : option (Z * Z) :=
  match spec with
  | c :: body =>
      if negb ((c =? 0x2d) || (c =? 0x2b)) then None
      else match body with
      | [] => None
      | _ =>
          '(flag, invert) ← flag_word (flag_name body);
          Some (if xorb invert (c =? 0x2d) then (0, flag) else (flag, 0))
      end
  | [] => None
  end.

(** *** The default flags of new principals *)

Definition c_space (c : Z) : bool :=
  (c =? 0x20) || (c =? 0x09) || (c =? 0x0a) || (c =? 0x0b) || (c =? 0x0c) || (c =? 0x0d).

Fixpoint find_char (f : Z -> bool) (s : ustr) : option nat :=
  match s with
  | c :: s => if f c then Some O else S <$> find_char f s
  | [] => None
  end.

Fixpoint trim_start_matches (f : Z -> bool) (s : ustr) : ustr :=
  match s with
  | c :: s1 => if f c then trim_start_matches f s1 else s
  | [] => []
  end.

(** Trailing space of a reversed word, but never its first char. *)
Fixpoint trim_word (r : ustr) : ustr :=
  match r with
  | [] => []
  | c :: r1 =>
      match r1 with
      | [] => r
      | _ => if c_space c then trim_word r1 else r
      end
  end.

Definition cut_at (sp : ustr) : option nat :=
  match find_char (fun c => c =? 0x2c) sp with
  | Some i => Some i
  | None =>
      match find_char (fun c => c =? 0x20) sp with
      | Some i => Some i
      | None => find_char (fun c => c =? 0x09) sp
      end
  end.

(** The flags so far, and whether every word was a flag. *)
Fixpoint flags_spec_loop (fuel : nat) (sp : ustr) (flags : Z) : Z * bool :=
  match fuel with
  | O => (flags, false)
  | S fuel =>
      let '(word, rest) :=
        match cut_at sp with
        | Some i => (rev (trim_word (rev (take i sp))),
                     Some (trim_start_matches c_space (drop (S i) sp)))
        | None => (sp, None)
        end in
      match flagspec_to_mask word 0 U32_MAX with
      | None => (flags, false)
      | Some (toset, toclear) =>
          let flags := Z.land (Z.lor flags toset) toclear in
          match rest with
          | None => (flags, true)
          | Some rest => flags_spec_loop fuel rest flags
          end
      end
  end.

Definition principal_flags_spec (spec : ustr) : Z * bool :=
  flags_spec_loop (S (length spec)) spec 0.
Definition default_principal_flags (spec : ustr) : Z := fst (principal_flags_spec spec).

(** ** Lines *)

Definition NEWLINE : byte := x0a.
Definition HASH : byte := x23.
Definition READ : nat := 127.

Fixpoint read_len (w : bytes) : nat :=
  match w with
  | c :: w => if bool_decide (c = NEWLINE) then 1%nat else S (read_len w)
  | [] => O
  end.

Fixpoint before_nul (s : bytes) : bytes :=
  match s with
  | c :: s => if bool_decide (c = x00) then [] else c :: before_nul s
  | [] => []
  end.

Definition is_entry (buf : bytes) : bool :=
  match buf with b :: _ => negb (bool_decide (b = HASH)) | [] => false end.

Fixpoint lines_loop (fuel : nat) (rest : bytes) (lineno incr : Z) (buf : bytes)
    (out : list (Z * bytes)) : list (Z * bytes) :=
  match fuel with
  | O => out
  | S fuel =>
      match rest with
      | [] => if is_entry buf then out ++ [(lineno, buf)] else out
      | _ =>
          let n := read_len (take READ rest) in
          let buf := buf ++ before_nul (take n rest) in
          let rest := drop n rest in
          if negb (bool_decide (list.last buf = Some NEWLINE)) then
            lines_loop fuel rest lineno incr buf out
          else
            let incr := incr + 1 in
            let buf := removelast buf in
            if bool_decide (list.last buf = Some x5c) then
              lines_loop fuel rest lineno incr (removelast buf) out
            else if negb (is_entry buf) then lines_loop fuel rest (lineno + incr) 0 [] out
            else lines_loop fuel rest (lineno + incr) 0 [] (out ++ [(lineno, buf)])
      end
  end.

Definition acl_lines (b : bytes) : list (Z * bytes) := lines_loop (S (length b)) b 1 0 [] [].

(** ** Entries *)

Inductive AdminOp :=
| Create | Delete | Ktadd | ChangePassword | Inquire | Extract | Modify | SetKey | List_ | Propagate.

(** The operations a line grants. *)
Record Ops := mkOps {
  add : bool;
  delete : bool;
  inquire : bool;
  extract : bool;
  changepw : bool;
  modify : bool;
  setkey : bool;
  list_ : bool;
  propagate : bool;
}.

Definition no_ops : Ops := mkOps false false false false false false false false false.

Record PrincPat := mkPat { components : list ustr; realm : ustr }.

Record AclEntry := mkAcl {
  principal : ustr;
  ops : Ops;
  client : option PrincPat;
  target : option PrincPat;
  restrictions : option Restrictions;
}.

(** One letter: an upper-case letter revokes; neither [*] nor [x] touches
    [extract]. *)
Definition op_char (ch : Z) (o : Ops) : option Ops :=
  let rop := lower_char ch in
  let grant := rop =? ch in
  let '(mkOps a d i e c m s l p) := o in
  if rop =? 0x61 then Some (mkOps grant d i e c m s l p)
  else if rop =? 0x64 then Some (mkOps a grant i e c m s l p)
  else if rop =? 0x69 then Some (mkOps a d grant e c m s l p)
  else if rop =? 0x65 then Some (mkOps a d i grant c m s l p)
  else if rop =? 0x63 then Some (mkOps a d i e grant m s l p)
  else if rop =? 0x6d then Some (mkOps a d i e c grant s l p)
  else if rop =? 0x73 then Some (mkOps a d i e c m grant l p)
  else if rop =? 0x6c then Some (mkOps a d i e c m s grant p)
  else if rop =? 0x70 then Some (mkOps a d i e c m s l grant)
  else if (rop =? 0x2a) || (rop =? 0x78) then
    Some (mkOps grant grant grant e grant grant grant grant grant)
  else None.

(** All the letters, or the first that is none. *)
Fixpoint op_chars (s : ustr) (o : Ops) : result Z Ops :=
  match s with
  | [] => Ok o
  | ch :: s => match op_char ch o with Some o => op_chars s o | None => Err ch end
  end.

Definition acl_ws (c : Z) : bool := c_space c || (c =? 0x2c).

Definition trim_end_matches (f : Z -> bool) (s : ustr) : ustr :=
  rev (trim_start_matches f (rev s)).

(** The next field, and the rest. *)
Definition take_field (rest : ustr) : option ustr * ustr :=
  let rest := trim_start_matches acl_ws rest in
  match rest with
  | [] => (None, [])
  | _ =>
      let n := default (length rest) (find_char acl_ws rest) in
      (Some (take n rest), drop n rest)
  end.

Definition split_fields (line : ustr) : ustr * ustr * option ustr * option ustr :=
  let line := trim_end_matches c_space line in
  let '(client, rest) := take_field line in
  let '(ops, rest) := take_field rest in
  let '(target, rest) := take_field rest in
  let rest := trim_start_matches acl_ws rest in
  (default [] client, default [] ops, target, match rest with [] => None | _ => Some rest end).

Definition parse_princ_pat_in (s default_realm : ustr) : result KdcError PrincPat :=
  let err := AclParse (lit "Cannot parse principal '" ++ s ++ lit "'") in
  match s with
  | [] => Err err
  | _ =>
      let? (comps, r) := map_err (fun _ => err) (parse_name s default_realm) in
      Ok (mkPat comps r)
  end.

Definition parse_princ_pat (s : ustr) : result KdcError PrincPat := parse_princ_pat_in s [].

Definition parse_deltat (s : ustr) : option Z :=
  match Deltat.parse (Utf8.as_bytes s) with
  | Ok v => if v <? 0 then None else Some v
  | Err _ => None
  end.

Definition set_attrs (r : Restrictions) (toset toclear : Z) : Restrictions :=
  mkRestrictions (clear_policy r) (rs_policy r) (rs_max_life r) (rs_max_renewable_life r)
    (expire r) (pwexpire r) toset toclear true.

(** The option [token] with a duration. *)
Definition set_delta (r : Restrictions) (token : ustr) (delta : Z) : option Restrictions :=
  let '(mkRestrictions cp po ml mr ex pw ra fa at') := r in
  if bool_decide (token = lit "-expire") then Some (mkRestrictions cp po ml mr (Some delta) pw ra fa at')
  else if bool_decide (token = lit "-pwexpire") then Some (mkRestrictions cp po ml mr ex (Some delta) ra fa at')
  else if bool_decide (token = lit "-maxlife") then Some (mkRestrictions cp po (Some delta) mr ex pw ra fa at')
  else if bool_decide (token = lit "-maxrenewlife") then
    Some (mkRestrictions cp po ml (Some delta) ex pw ra fa at')
  else None.

Fixpoint restriction_tokens (tokens : list ustr) (r : Restrictions) : option Restrictions :=
  match tokens with
  | [] => Some r
  | token :: rest =>
      match flagspec_to_mask token (require_attrs r) (forbid_attrs r) with
      | Some (toset, toclear) => restriction_tokens rest (set_attrs r toset toclear)
      | None =>
          let '(mkRestrictions cp po ml mr ex pw ra fa at') := r in
          if bool_decide (token = lit "-clearpolicy") then
            restriction_tokens rest (mkRestrictions true po ml mr ex pw ra fa at')
          else match rest with
          | [] => None
          | arg :: rest =>
              if bool_decide (token = lit "-policy") then
                match po with
                | Some _ => None
                | None => restriction_tokens rest (mkRestrictions cp (Some arg) ml mr ex pw ra fa at')
                end
              else
                delta ← parse_deltat arg;
                r ← set_delta r token delta;
                restriction_tokens rest r
          end
      end
  end.

Definition parse_restrictions (s : ustr) : result KdcError Restrictions :=
  let tokens := filter (fun t => t <> []) (split_by acl_ws s) in
  ok_or (restriction_tokens tokens no_restrictions) (AclParse (lit "invalid restrictions: " ++ s)).

Definition opt_pat (s default_realm : ustr) (msg : ustr) : result (option ustr) (option PrincPat) :=
  if bool_decide (s = [0x2a]) then Ok None
  else
    let? p := map_err (fun _ => Some msg) (parse_princ_pat_in s default_realm) in
    Ok (Some p).

(** The error is the message, when there is one of its own. *)
Definition parse_line (line default_realm fname : ustr) : result (option ustr) AclEntry :=
  let '(client_s, ops_s, target_s, rs_s) := split_fields line in
  if bool_decide (client_s = []) || bool_decide (ops_s = []) then Err None
  else
    let? o := map_err (fun ch => Some (lit "Unrecognized ACL operation '" ++ [ch] ++ lit "' in " ++ line))
                (op_chars ops_s no_ops) in
    let? c := opt_pat client_s default_realm (lit "Cannot parse client principal '" ++ client_s ++ lit "'") in
    let? t := match target_s with
              | None => Ok None
              | Some t => opt_pat t default_realm (lit "Cannot parse target principal '" ++ t ++ lit "'")
              end in
    let? r := match rs_s with
              | None => Ok None
              | Some rs =>
                  let? r := map_err (fun _ => Some (match fname with
                                | [] => lit "invalid restrictions: " ++ rs
                                | _ => fname ++ lit ": invalid restrictions: " ++ rs
                                end)) (parse_restrictions rs) in
                  Ok (Some r)
              end in
    Ok (mkAcl client_s o c t r).

Record AclSyntaxError := mkSyntax { lineno : Z; line : bytes; message : option ustr }.

Fixpoint parse_lines (ls : list (Z * bytes)) (default_realm fname : ustr)
    : result AclSyntaxError (list AclEntry) :=
  match ls with
  | [] => Ok []
  | (n, l) :: ls =>
      match parse_line (Utf8.lossy_chars_of l) default_realm fname with
      | Ok e => let? es := parse_lines ls default_realm fname in Ok (e :: es)
      | Err msg => Err (mkSyntax n l msg)
      end
  end.

Definition parse_located (b : bytes) (default_realm fname : ustr) : result AclSyntaxError (list AclEntry) :=
  parse_lines (acl_lines b) default_realm fname.

(** The message that points at the line, with its first ten bytes. *)
Definition located (e : AclSyntaxError) (fname : ustr) : ustr :=
  let at_line := lit "syntax error at line " ++ lit (pretty (lineno e)) ++ lit " <"
                 ++ Utf8.lossy_chars_of (take 10 (line e)) ++ lit "...>" in
  match fname with
  | [] => at_line
  | _ => fname ++ lit ": " ++ at_line
  end.

Definition parse_bytes_with_realm (b : bytes) (default_realm : ustr) : result KdcError (list AclEntry) :=
  map_err (fun e => AclParse (default (located e []) (message e))) (parse_located b default_realm []).

(** ** Matching *)

Definition is_star (p : ustr) : bool := bool_decide (p = [0x2a]).

(** [*1] to [*9]: which component of the client. *)
Definition backref_index (p : ustr) : option nat :=
  match p with
  | [s; d] => if (s =? 0x2a) && (0x31 <=? d) && (d <=? 0x39) then Some (Z.to_nat (d - 0x31)) else None
  | _ => None
  end.

(** The verdict and the new back references; with no state there are none. *)
Definition match_data (pat actual : ustr) (targetflag : bool) (ws : option (list ustr))
    : bool * option (list ustr) :=
  if is_star pat then
    (true, match ws with
           | Some refs =>
               if negb targetflag && (length refs <? 9)%nat then Some (refs ++ [actual]) else ws
           | None => None
           end)
  else
    match ws, backref_index pat with
    | Some refs, Some n =>
        if targetflag then (bool_decide (refs !! n = Some actual), ws)
        else (bool_decide (pat = actual), ws)
    | _, _ => (bool_decide (pat = actual), ws)
    end.

Fixpoint match_components (pats actuals : list ustr) (targetflag : bool) (ws : option (list ustr))
    : bool * option (list ustr) :=
  match pats, actuals with
  | p :: pats, a :: actuals =>
      let '(ok, ws) := match_data p a targetflag ws in
      if ok then match_components pats actuals targetflag ws else (false, ws)
  | _, _ => (true, ws)
  end.

Definition match_princ (pat actual : PrincPat) (targetflag : bool) (ws : option (list ustr))
    : bool * option (list ustr) :=
  if negb (length (components pat) =? length (components actual))%nat then (false, ws)
  else if negb (fst (match_data (realm pat) (realm actual) targetflag None)) then (false, ws)
  else match_components (components pat) (components actual) targetflag ws.

(** Whether the entry decides a request of [actor] on [target]. *)
Definition entry_matches (e : AclEntry) (actor : PrincPat) (tgt : option PrincPat) : bool :=
  let '(ok, ws) := match client e with
                   | Some c => match_princ c actor false (Some [])
                   | None => (true, Some [])
                   end in
  if negb ok then false
  else match target e with
  | None => true
  | Some t =>
      match tgt with
      | None => false
      | Some actual => fst (match_princ t actual true ws)
      end
  end.

Definition find (acl : list AclEntry) (actor : ustr) (tgt : option ustr) : option AclEntry :=
  match parse_princ_pat actor with
  | Err _ => None
  | Ok actor =>
      let tgt := t ← tgt; match parse_princ_pat t with Ok p => Some p | Err _ => None end in
      List.find (fun e => entry_matches e actor tgt) acl
  end.

Definition granted (o : Ops) (op : AdminOp) : bool :=
  match op with
  | Create => add o
  | Delete => delete o
  | Inquire => inquire o
  | Ktadd | Extract => extract o
  | ChangePassword => changepw o
  | Modify => modify o
  | SetKey => setkey o
  | List_ => list_ o
  | Propagate => propagate o
  end.

Definition allows (acl : list AclEntry) (actor : ustr) (op : AdminOp) (tgt : option ustr) : bool :=
  match find acl actor tgt with
  | None => false
  | Some e => granted (ops e) op
  end.

Definition check (acl : list AclEntry) (actor : ustr) (op : AdminOp) (tgt : option ustr)
    : result KdcError unit :=
  if allows acl actor op tgt then Ok tt else Err AclDenied.

Definition restricted (acl : list AclEntry) (actor : ustr) (tgt : ustr) : bool :=
  match find acl actor (Some tgt) with
  | Some e => match restrictions e with Some _ => true | None => false end
  | None => false
  end.

Definition check_rename (acl : list AclEntry) (actor src dest : ustr) : result KdcError unit :=
  let? _ := check acl actor Delete (Some src) in
  let? _ := check acl actor Create (Some dest) in
  if restricted acl actor dest then Err AclDenied else Ok tt.

Definition check_addalias (acl : list AclEntry) (actor alias tgt : ustr) : result KdcError unit :=
  let? _ := check acl actor Create (Some alias) in
  if restricted acl actor alias then Err AclDenied
  else check acl actor Modify (Some tgt).

Definition restrictions_for (acl : list AclEntry) (actor : ustr) (tgt : option ustr) : option Restrictions :=
  e ← find acl actor tgt; restrictions e.

(** ** What a pattern means *)

Definition star_or_eq (p a : ustr) : Prop := p = [0x2a] \/ p = a.

(** The components a client pattern's stars stand for; at most nine are kept. *)
Fixpoint starred (pats actuals : list ustr) : list ustr :=
  match pats, actuals with
  | p :: pats, a :: actuals => if is_star p then a :: starred pats actuals else starred pats actuals
  | _, _ => []
  end.

Definition client_matches (c actor : PrincPat) : Prop :=
  star_or_eq (realm c) (realm actor) /\ Forall2 star_or_eq (components c) (components actor).

(** A component of a target pattern: a star, the client's component it refers
    to, or itself. *)
Definition target_component (refs : list ustr) (p a : ustr) : Prop :=
  p = [0x2a] \/
  match backref_index p with
  | Some n => refs !! n = Some a
  | None => p = a
  end.

Definition target_matches (refs : list ustr) (t actual : PrincPat) : Prop :=
  star_or_eq (realm t) (realm actual) /\
  Forall2 (target_component refs) (components t) (components actual).

Definition decides (e : AclEntry) (actor : PrincPat) (tgt : option PrincPat) : Prop :=
  match client e with Some c => client_matches c actor | None => True end /\
  match target e with
  | Some t =>
      let refs := match client e with
                  | Some c => take 9 (starred (components c) (components actor))
                  | None => []
                  end in
      exists actual, tgt = Some actual /\ target_matches refs t actual
  | None => True
  end.

Lemma match_data_plain p a tf : fst (match_data p a tf None) = true <-> star_or_eq p a.
Proof.
  unfold match_data, star_or_eq, is_star. case_bool_decide as H; simpl; [tauto|].
  rewrite bool_decide_eq_true. tauto.
Qed.


Lemma match_client_components pats actuals refs :
  (length refs <= 9)%nat -> length pats = length actuals ->
  (fst (match_components pats actuals false (Some refs)) = true <-> Forall2 star_or_eq pats actuals) /\
  (Forall2 star_or_eq pats actuals ->
   snd (match_components pats actuals false (Some refs)) = Some (take 9 (refs ++ starred pats actuals))).
Proof.
  revert actuals refs. induction pats as [|p pats IH]; intros [|a actuals] refs Hr Hl; simplify_eq/=.
  { rewrite app_nil_r, take_ge by done. split; [|done]. split; [constructor|done]. }
  unfold match_data. unfold is_star. case_bool_decide as Hp.
  - destruct (Nat.ltb_spec (length refs) 9) as [Hlt|Hge].
    + simpl. destruct (IH actuals (refs ++ [a])) as [IH1 IH2]; [rewrite length_app; simpl; lia|done|].
      rewrite IH1. split; [split; [constructor; [by left|done]|by inversion 1]|].
      inversion 1; subst. rewrite IH2 by done. by rewrite <- app_assoc.
    + simpl. destruct (IH actuals refs Hr Hl) as [IH1 IH2].
      rewrite IH1. split; [split; [constructor; [by left|done]|by inversion 1]|].
      inversion 1; subst. rewrite IH2 by done.
      by rewrite !take_app_le by lia.
  - assert (match_data p a false (Some refs) = (bool_decide (p = a), Some refs)) as E.
    { unfold match_data, is_star. rewrite bool_decide_eq_false_2 by done. by destruct (backref_index p). }
    unfold match_data, is_star in E. rewrite bool_decide_eq_false_2 in E by done. rewrite E.
    destruct (IH actuals refs Hr Hl) as [IH1 IH2]. case_bool_decide as Ha.
    + rewrite IH1. split; [split; [constructor; [by right|done]|by inversion 1]|].
      inversion 1; subst. by rewrite IH2.
    + simpl. split; [split; [done|]|]; inversion 1 as [|? ? ? ? [?|?]]; done.
Qed.

Lemma match_target_components pats actuals refs :
  length pats = length actuals ->
  fst (match_components pats actuals true (Some refs)) = true <->
  Forall2 (target_component refs) pats actuals.
Proof.
  revert actuals. induction pats as [|p pats IH]; intros [|a actuals] Hl; simplify_eq/=.
  { split; [constructor|done]. }
  unfold match_data, is_star.
  assert (forall ok, (fst (if ok : bool then match_components pats actuals true (Some refs)
            else (false, Some refs)) = true) <-> ok = true /\ Forall2 (target_component refs) pats actuals) as Hok.
  { intros [|]; rewrite <- ?IH by done; simpl; [tauto|]. split; [done|by intros [? _]]. }
  rewrite list.Forall2_cons. 
  assert (forall P, target_component refs p a /\ P <->
    (p = [0x2a] \/ match backref_index p with Some n => refs !! n = Some a | None => p = a end) /\ P)
    as -> by done.
  case_bool_decide as Hp.
  - simpl. rewrite IH by done. tauto.
  - destruct (backref_index p); rewrite Hok, bool_decide_eq_true; tauto.
Qed.

Lemma match_princ_length pat actual tf ws :
  match_princ pat actual tf ws
  = if decide (length (components pat) = length (components actual)) then
      if fst (match_data (realm pat) (realm actual) tf None)
      then match_components (components pat) (components actual) tf ws else (false, ws)
    else (false, ws).
Proof.
  unfold match_princ.
  destruct (Nat.eqb_spec (length (components pat)) (length (components actual))) as [E|E].
  - rewrite decide_True by done. by destruct (fst _).
  - by rewrite decide_False.
Qed.

Lemma match_princ_client c actor :
  (fst (match_princ c actor false (Some [])) = true <-> client_matches c actor) /\
  (client_matches c actor ->
   snd (match_princ c actor false (Some [])) = Some (take 9 (starred (components c) (components actor)))).
Proof.
  rewrite match_princ_length. unfold client_matches. rewrite <- (match_data_plain _ _ false).
  case_decide as E.
  - destruct (match_client_components (components c) (components actor) [] ltac:(simpl; lia) E) as [H1 H2].
    destruct (fst (match_data _ _ _ _)); [rewrite H1; tauto|]. simpl. split; [|by intros [? _]].
    split; [done|by intros [? _]].
  - simpl. split; [split; [done|]|]; intros [_ H%Forall2_length]; done.
Qed.

Lemma match_princ_target refs t actual :
  fst (match_princ t actual true (Some refs)) = true <-> target_matches refs t actual.
Proof.
  rewrite match_princ_length. unfold target_matches. rewrite <- (match_data_plain _ _ true).
  case_decide as E.
  - rewrite <- match_target_components by done.
    destruct (fst (match_data _ _ _ _)); simpl; [tauto|]. split; [done|by intros [? _]].
  - simpl. split; [done|]. intros [_ H%Forall2_length]; done.
Qed.

Lemma entry_matches_decides e actor tgt : entry_matches e actor tgt = true <-> decides e actor tgt.
Proof.
  unfold entry_matches, decides.
  assert (forall refs, match target e with
            | None => true
            | Some t => match tgt with None => false | Some a => fst (match_princ t a true (Some refs)) end
            end = true <->
          match target e with
          | Some t => exists actual, tgt = Some actual /\ target_matches refs t actual
          | None => True end) as Ht.
  { intros refs. destruct (target e) as [t|]; [|done]. destruct tgt as [a|].
    - rewrite match_princ_target. split; [eauto|]. by intros (? & [= <-] & ?).
    - split; [done|]. by intros (? & ? & _). }
  destruct (client e) as [c|]; [|by rewrite <- Ht; simpl; tauto].
  destruct (match_princ_client c actor) as [H1 H2].
  destruct (match_princ c actor false (Some [])) as [[|] ws]; simpl in *.
  - rewrite <- H1. specialize (H2 (proj1 H1 eq_refl)). subst ws. rewrite Ht. tauto.
  - split; [done|]. intros [H%H1 _]. done.
Qed.

Lemma find_first {A} (f : A -> bool) l x :
  List.find f l = Some x <->
  exists pre post, l = pre ++ x :: post /\ f x = true /\ Forall (fun y => f y = false) pre.
Proof.
  split.
  - induction l as [|y l IH]; simpl; [done|]. destruct (f y) eqn:E.
    + intros [= ->]. exists [], l. split_and!; [done|done|constructor].
    + intros (pre & post & -> & Hx & Hp)%IH. exists (y :: pre), post. split_and!; [done|done|by constructor].
  - intros (pre & post & -> & Hx & Hp). induction Hp as [|y pre Hy Hp IH]; simpl; [by rewrite Hx|].
    by rewrite Hy.
Qed.

(** C19: Access decisions.  An operation is allowed exactly when the actor's name
    parses and the first entry whose client pattern matches the actor and whose
    target pattern, if it has one, matches the target grants it.  A star in a
    pattern stands for one component or the realm, and [*n] in a target
    pattern for the component that the [n]th star of the client pattern matched. *)
Theorem acl_decides acl actor op tgt :
  allows acl actor op tgt = true <->
  exists a pre e post,
    parse_princ_pat actor = Ok a /\ acl = pre ++ e :: post /\
    let t := x ← tgt; match parse_princ_pat x with Ok p => Some p | Err _ => None end in
    Forall (fun e' => ~ decides e' a t) pre /\ decides e a t /\ granted (ops e) op = true.
Proof.
  unfold allows, find. destruct (parse_princ_pat actor) as [a|err].
  2: { split; [done|]. by intros (? & ? & ? & ? & ? & _). }
  set (t := x ← tgt; _).
  destruct (List.find _ acl) as [e|] eqn:E.
  - pose proof E as (pre & post & -> & He & Hp)%find_first. split.
    + intros Hg. exists a, pre, e, post. split_and!; [done|done| |by apply entry_matches_decides|done].
      eapply List.Forall_impl; [|exact Hp]. intros y Hy Hd%entry_matches_decides. congruence.
    + intros (a' & pre' & e' & post' & [= <-] & Hacl & Hp' & He' & Hg).
      assert (List.find (fun x => entry_matches x a t) (pre ++ e :: post) = Some e') as E'.
      { apply find_first. exists pre', post'. split_and!; [done|by apply entry_matches_decides|].
        eapply List.Forall_impl; [|exact Hp']. intros y Hy. simpl in Hy.
        rewrite <- entry_matches_decides in Hy. by destruct (entry_matches y a t). }
      rewrite E in E'. by injection E' as ->.
  - split; [done|]. intros (a' & pre & e & post & [= <-] & -> & _ & He & _).
    apply find_none with (x := e) in E; [|apply in_elt].
    apply entry_matches_decides in He. congruence.
Qed.

(** ** Operations *)

Definition letter (op : AdminOp) : Z :=
  match op with
  | Create => 0x61 | Delete => 0x64 | Inquire => 0x69 | Ktadd | Extract => 0x65
  | ChangePassword => 0x63 | Modify => 0x6d | SetKey => 0x73 | List_ => 0x6c | Propagate => 0x70
  end.

Definition everything (l : Z) : bool := (l =? 0x2a) || (l =? 0x78).

(** Whether a letter grants or revokes the operation, when it concerns it. *)
Definition concerns (op : AdminOp) (ch : Z) : option bool :=
  let l := lower_char ch in
  if (l =? letter op) || (everything l && negb (letter op =? letter Extract)) then Some (l =? ch)
  else None.

Lemma op_char_granted ch o o' op :
  op_char ch o = Some o' -> granted o' op = default (granted o op) (concerns op ch).
Proof.
  destruct o as [a d i e c m s l p]. unfold op_char, concerns. set (g := lower_char ch =? ch).
  generalize (lower_char ch). intros r. clearbody g.
  repeat match goal with
  | |- (if ?x =? ?k then Some _ else _) = Some _ -> _ =>
      destruct (Z.eqb_spec x k) as [->|?]; [intros [= <-]; by destruct op|]
  end.
  fold (everything r). destruct (everything r); [|done]. intros [= <-].
  rewrite (proj2 (Z.eqb_neq r (letter op))) by (by destruct op). by destruct op.
Qed.

(** The operations of a line.  Each operation is granted exactly when the last
    letter that concerns it does: its own letter in lower case grants and in
    upper case revokes; a star or [x] grants, and [X] revokes, every operation
    except the extraction of keys, which only its own letter concerns. *)
Theorem acl_ops_last_word s o op :
  op_chars s no_ops = Ok o -> granted o op = default false (list.last (omap (concerns op) s)).
Proof.
  assert (forall o0, op_chars s o0 = Ok o ->
            granted o op = default (granted o0 op) (list.last (omap (concerns op) s))) as H.
  { induction s as [|ch s IH]; intros o0; simpl; [by intros [= <-]|].
    destruct (op_char ch o0) as [o1|] eqn:E; [|done]. intros Hs%IH. rewrite Hs.
    apply (op_char_granted _ _ _ op) in E. rewrite E.
    destruct (concerns op ch) as [g|]; [|done]. rewrite list.last_cons. by destruct (list.last _). }
  intros Hs. rewrite (H no_ops Hs). by destruct op.
Qed.

Lemma acl_ops_last_word_witness :
  exists o, op_chars (lit "*De") no_ops = Ok o /\ granted o Delete = false /\ granted o Extract = true.
Proof.
  eexists. split; [reflexivity|].
  split; [rewrite (acl_ops_last_word (lit "*De") _ Delete) by reflexivity; reflexivity|].
  rewrite (acl_ops_last_word (lit "*De") _ Extract) by reflexivity. reflexivity.
Defined.

(** ** Restrictions *)

Definition has (m b : Z) : Prop := Z.land m b = b.

Lemma land_absorb m b : Z.land (Z.lor m b) b = b.
Proof. apply Z.bits_inj'. intros n _. rewrite Z.land_spec, Z.lor_spec. by destruct (Z.testbit m n), (Z.testbit b n). Qed.

Lemma land_mono m b c : has m b -> has (Z.lor m c) b.
Proof.
  unfold has. intros H. apply Z.bits_inj'. intros n Hn. apply (f_equal (fun z => Z.testbit z n)) in H.
  rewrite Z.land_spec in H. rewrite Z.land_spec, Z.lor_spec.
  by destruct (Z.testbit m n), (Z.testbit b n), (Z.testbit c n).
Qed.

(** What a cap on a field leaves. *)
Definition obeys (m bit value : Z) (cap : option Z) : Prop :=
  match cap with Some c => has m bit /\ value <= c | None => True end.

Lemma capped_le m bit v cap : capped m bit v cap <= cap.
Proof. unfold capped. destruct (_ =? 0); simpl; [lia|]. case_match; to_prop; lia. Qed.

Lemma capped_keeps m bit v cap : has m bit -> bit <> 0 -> capped m bit v cap = Z.min v cap.
Proof.
  unfold capped, has. intros -> Hb. rewrite (proj2 (Z.eqb_neq bit 0)) by done. simpl.
  case_match; to_prop; lia.
Qed.

(** What the restrictions ask of an entry. *)
Record imposed (r : Restrictions) (now : Z) (e : AdminEnt) : Prop := {
  i_expire : obeys (mask e) kadm5_mask.PRINC_EXPIRE_TIME (princ_expire_time e) (cap_at now <$> expire r);
  i_pwexpire : obeys (mask e) kadm5_mask.PW_EXPIRATION (pw_expiration e) (cap_at now <$> pwexpire r);
  i_max_life : obeys (mask e) kadm5_mask.MAX_LIFE (max_life e) (cap32 <$> rs_max_life r);
  i_max_rlife :
    obeys (mask e) kadm5_mask.MAX_RLIFE (max_renewable_life e) (cap32 <$> rs_max_renewable_life r);
  i_attrs : touches_attrs r = true ->
    has (mask e) kadm5_mask.ATTRIBUTES /\ has (forbid_attrs r) (attributes e) /\
    has (attributes e) (Z.land (require_attrs r) (forbid_attrs r));
  i_clear : clear_policy r = true ->
    has (mask e) kadm5_mask.POLICY_CLR /\ Z.land (mask e) kadm5_mask.POLICY = 0;
  i_policy : clear_policy r = false -> forall pol, rs_policy r = Some pol ->
    has (mask e) kadm5_mask.POLICY /\ policy e = Some pol;
}.

Lemma land_other m c b : Z.land c b = 0 -> Z.land (Z.lor m c) b = Z.land m b.
Proof. intros H. by rewrite Z.land_lor_distr_l, H, Z.lor_0_r. Qed.

Lemma has_absorb m b : has m b -> Z.lor m b = m.
Proof.
  intros H. apply Z.bits_inj'. intros n Hn. apply (f_equal (fun z => Z.testbit z n)) in H.
  rewrite Z.land_spec in H. rewrite Z.lor_spec. by destruct (Z.testbit m n), (Z.testbit b n).
Qed.

Lemma obeys_mono m b c v cap : obeys m b v cap -> obeys (Z.lor m c) b v cap.
Proof. destruct cap; [|done]. intros [? ?]. split; [by apply land_mono|done]. Qed.

(** The steps after a field is set only add to the mask, never the policy bit. *)
Definition grows (e e' : AdminEnt) : Prop :=
  exists c, mask e' = Z.lor (mask e) c /\ Z.land c kadm5_mask.POLICY = 0.

#[local] Instance grows_preorder : PreOrder grows.
Proof.
  split.
  - intros e. exists 0. by rewrite Z.lor_0_r.
  - intros e f g (c & Hc & Pc) (d & Hd & Pd). exists (Z.lor c d).
    by rewrite Hd, Hc, Z.lor_assoc, Z.land_lor_distr_l, Pc, Pd.
Qed.

Lemma grows_has e e' b : grows e e' -> has (mask e) b -> has (mask e') b.
Proof. intros (c & -> & _). apply land_mono. Qed.

Lemma grows_expire r now e : grows e (impose_expire r now e).
Proof. unfold impose_expire. case_match; [by eexists|done]. Qed.
Lemma grows_pwexpire r now e : grows e (impose_pwexpire r now e).
Proof. unfold impose_pwexpire. case_match; [by eexists|done]. Qed.
Lemma grows_max_life r e : grows e (impose_max_life r e).
Proof. unfold impose_max_life. case_match; [by eexists|done]. Qed.
Lemma grows_max_rlife r e : grows e (impose_max_rlife r e).
Proof. unfold impose_max_rlife. case_match; [by eexists|done]. Qed.

Ltac unchanged := unfold impose_max_rlife, impose_max_life, impose_pwexpire, impose_expire; repeat case_match; reflexivity.

Lemma tail_expire r now e :
  princ_expire_time (impose_max_rlife r (impose_max_life r (impose_pwexpire r now e))) = princ_expire_time e.
Proof. unchanged. Qed.
Lemma tail_pwexpire r e :
  pw_expiration (impose_max_rlife r (impose_max_life r e)) = pw_expiration e.
Proof. unchanged. Qed.
Lemma tail_max_life r e : max_life (impose_max_rlife r e) = max_life e.
Proof. unchanged. Qed.
Lemma tail_head r now e :
  let e' := impose_max_rlife r (impose_max_life r (impose_pwexpire r now (impose_expire r now e))) in
  attributes e' = attributes e /\ policy e' = policy e /\ kvno e' = kvno e.
Proof. split_and!; unchanged. Qed.

(** A field that a step caps, seen after the steps that follow. *)
Lemma obeys_after e e' b v cap m :
  mask e = Z.lor m b -> grows e e' -> obeys (mask e') b (capped m b v cap) (Some cap).
Proof.
  intros Hm Hg. split; [|apply capped_le]. eapply grows_has; [done|]. rewrite Hm. apply land_absorb.
Qed.

Lemma expire_obeyed r now f e' :
  grows (impose_expire r now f) e' -> princ_expire_time e' = princ_expire_time (impose_expire r now f) ->
  obeys (mask e') kadm5_mask.PRINC_EXPIRE_TIME (princ_expire_time e') (cap_at now <$> expire r).
Proof.
  unfold impose_expire. intros Hg ->. destruct (expire r); [|exact I]. eapply obeys_after; [|exact Hg]. reflexivity.
Qed.

Lemma pwexpire_obeyed r now f e' :
  grows (impose_pwexpire r now f) e' -> pw_expiration e' = pw_expiration (impose_pwexpire r now f) ->
  obeys (mask e') kadm5_mask.PW_EXPIRATION (pw_expiration e') (cap_at now <$> pwexpire r).
Proof.
  unfold impose_pwexpire. intros Hg ->. destruct (pwexpire r); [|exact I]. eapply obeys_after; [|exact Hg]. reflexivity.
Qed.

Lemma max_life_obeyed r f e' :
  grows (impose_max_life r f) e' -> max_life e' = max_life (impose_max_life r f) ->
  obeys (mask e') kadm5_mask.MAX_LIFE (max_life e') (cap32 <$> rs_max_life r).
Proof.
  unfold impose_max_life. intros Hg ->. destruct (rs_max_life r); [|exact I]. eapply obeys_after; [|exact Hg]. reflexivity.
Qed.

Lemma max_rlife_obeyed r f e' :
  grows (impose_max_rlife r f) e' -> max_renewable_life e' = max_renewable_life (impose_max_rlife r f) ->
  obeys (mask e') kadm5_mask.MAX_RLIFE (max_renewable_life e') (cap32 <$> rs_max_renewable_life r).
Proof.
  unfold impose_max_rlife. intros Hg ->. destruct (rs_max_renewable_life r); [|exact I]. eapply obeys_after; [|exact Hg]. reflexivity.
Qed.

Lemma head_imposed r e :
  let f := impose_policy r (impose_attrs r e) in
  (touches_attrs r = true ->
    has (mask f) kadm5_mask.ATTRIBUTES /\ has (forbid_attrs r) (attributes f) /\
    has (attributes f) (Z.land (require_attrs r) (forbid_attrs r))) /\
  (clear_policy r = true -> has (mask f) kadm5_mask.POLICY_CLR /\ Z.land (mask f) kadm5_mask.POLICY = 0) /\
  (clear_policy r = false -> forall pol, rs_policy r = Some pol ->
    has (mask f) kadm5_mask.POLICY /\ policy f = Some pol).
Proof.
  unfold impose_policy, impose_attrs. split_and!.
  - intros ->. cbn [mask attributes].
    assert (has (forbid_attrs r) (Z.land (Z.lor (attributes e) (require_attrs r)) (forbid_attrs r)) /\
            has (Z.land (Z.lor (attributes e) (require_attrs r)) (forbid_attrs r))
              (Z.land (require_attrs r) (forbid_attrs r))) as [H1 H2].
    { unfold has. split; apply Z.bits_inj'; intros n _; rewrite ?Z.land_spec, ?Z.lor_spec;
        by destruct (Z.testbit (attributes e) n), (Z.testbit (require_attrs r) n),
          (Z.testbit (forbid_attrs r) n). }
    destruct (clear_policy r); [|destruct (rs_policy r)]; cbn [mask attributes]; (split; [|done]).
    + apply land_mono. unfold has. rewrite <- Z.land_assoc.
      change (Z.land (not32 kadm5_mask.POLICY) kadm5_mask.ATTRIBUTES) with kadm5_mask.ATTRIBUTES.
      apply land_absorb.
    + apply land_mono, land_absorb.
    + apply land_absorb.
  - intros ->. cbn [mask]. split; [apply land_absorb|].
    rewrite land_other by done. by rewrite <- Z.land_assoc, Z.land_0_r.
  - intros -> pol ->. cbn [mask policy]. split; [apply land_absorb|]. by case_bool_decide.
Qed.

Lemma impose_imposed r e now : imposed r now (impose r e now).
Proof.
  unfold impose. pose proof (head_imposed r e) as (Ha & Hc & Hp).
  set (f := impose_policy r (impose_attrs r e)) in *.
  set (f1 := impose_expire r now f). set (f2 := impose_pwexpire r now f1).
  set (f3 := impose_max_life r f2). set (f4 := impose_max_rlife r f3).
  assert (grows f3 f4) as Hg3 by apply grows_max_rlife.
  assert (grows f2 f4) as Hg2 by (etrans; [apply grows_max_life|exact Hg3]).
  assert (grows f1 f4) as Hg1 by (etrans; [apply grows_pwexpire|exact Hg2]).
  assert (grows f f4) as Hg by (etrans; [apply grows_expire|exact Hg1]).
  destruct (tail_head r now f) as (Ea & Ep & _). fold f1 f2 f3 f4 in Ea, Ep.
  split.
  - exact (expire_obeyed r now f f4 Hg1 (tail_expire r now f1)).
  - exact (pwexpire_obeyed r now f1 f4 Hg2 (tail_pwexpire r f2)).
  - exact (max_life_obeyed r f2 f4 Hg3 (tail_max_life r f3)).
  - apply (max_rlife_obeyed r f3 f4); reflexivity.
  - intros Ht. rewrite Ea. destruct (Ha Ht) as (? & ? & ?). split_and!; [by eapply grows_has|done..].
  - intros Hcl. destruct (Hc Hcl) as [? HP]. split; [by eapply grows_has|].
    destruct Hg as (c & -> & Hc'). by rewrite land_other.
  - intros Hcl pol Hpol. rewrite Ep. destruct (Hp Hcl pol Hpol) as [? ?]. split; [by eapply grows_has|done].
Qed.

(** An entry that already complies is left as it is. *)
Lemma land_clear m b : is_u32 m -> Z.land m b = 0 -> Z.land m (not32 b) = m.
Proof.
  intros Hm H. unfold not32. apply Z.bits_inj'. intros n Hn. apply (f_equal (fun z => Z.testbit z n)) in H.
  rewrite Z.land_spec, Z.bits_0 in H. rewrite Z.land_spec, Z.lxor_spec.
  destruct (decide (n < 32)) as [Hs|Hs].
  - change U32_MAX with (Z.ones 32). rewrite Z.ones_spec_low by lia.
    by destruct (Z.testbit m n), (Z.testbit b n).
  - unfold is_u32 in Hm. rewrite <- (Z.mod_small m (2 ^ 32)) by lia.
    by rewrite Z.mod_pow2_bits_high by lia.
Qed.

Lemma capped_same m b v cap : b <> 0 -> obeys m b v (Some cap) -> capped m b v cap = v /\ Z.lor m b = m.
Proof.
  intros Hb [Hh Hv]. split; [|by apply has_absorb]. rewrite capped_keeps by done. lia.
Qed.

Lemma impose_attrs_same r now e : imposed r now e -> impose_attrs r e = e.
Proof.
  intros [_ _ _ _ H _ _]. unfold impose_attrs. destruct (touches_attrs r); [|done].
  destruct (H eq_refl) as (Hm & Hf & Hr). destruct e as [m a]; cbn in *. rewrite has_absorb by done.
  f_equal. apply Z.bits_inj'. intros n _. apply (f_equal (fun z => Z.testbit z n)) in Hf, Hr.
  rewrite !Z.land_spec in Hr. rewrite Z.land_spec in Hf. rewrite Z.land_spec, Z.lor_spec.
  by destruct (Z.testbit a n), (Z.testbit (require_attrs r) n), (Z.testbit (forbid_attrs r) n).
Qed.

Lemma impose_policy_same r now e : is_u32 (mask e) -> imposed r now e -> impose_policy r e = e.
Proof.
  intros Hu [_ _ _ _ _ Hc Hp]. unfold impose_policy. destruct (clear_policy r).
  - destruct (Hc eq_refl) as [H0 H1]. rewrite land_clear, has_absorb by done. by destruct e.
  - destruct (rs_policy r) as [pol|]; [|done]. destruct (Hp eq_refl pol eq_refl) as [H0 H1].
    rewrite has_absorb, bool_decide_eq_true_2 by done. by destruct e.
Qed.

Lemma impose_same r now e : is_u32 (mask e) -> imposed r now e -> impose r e now = e.
Proof.
  intros Hu Hi. unfold impose. rewrite (impose_attrs_same r now), (impose_policy_same r now) by done.
  destruct Hi as [H1 H2 H3 H4 _ _ _].
  assert (impose_expire r now e = e) as ->.
  { unfold impose_expire. destruct (expire r); [|done].
    apply capped_same in H1 as [-> ->]; [by destruct e|done]. }
  assert (impose_pwexpire r now e = e) as ->.
  { unfold impose_pwexpire. destruct (pwexpire r); [|done].
    apply capped_same in H2 as [-> ->]; [by destruct e|done]. }
  assert (impose_max_life r e = e) as ->.
  { unfold impose_max_life. destruct (rs_max_life r); [|done].
    apply capped_same in H3 as [-> ->]; [by destruct e|done]. }
  unfold impose_max_rlife. destruct (rs_max_renewable_life r); [|done].
  apply capped_same in H4 as [-> ->]; [by destruct e|done].
Qed.

(** The restrictions of an ACL line bind whatever the administrator asked
    for. After [impose], every limit they set (expiry, password expiry, ticket
    life, renewable life) is in the mask and not exceeded, the attributes lie
    within the allowed word and contain the required ones, and the policy is the
    one named, or is cleared and no longer selected. An entry that already
    complies is not changed. *)
Theorem restrictions_imposed r e now :
  imposed r now (impose r e now) /\
  (is_u32 (mask e) /\ imposed r now e -> impose r e now = e).
Proof. split; [apply impose_imposed|]. intros [? ?]. by apply impose_same. Qed.

(** ** Lines, byte by byte *)

(** The logical lines of a text, with the number of the line each starts on:
    a newline ends one, unless a backslash stands before it. *)
Fixpoint logical (b : bytes) (lineno incr : Z) (buf : bytes) : list (Z * bytes) :=
  match b with
  | [] => if is_entry buf then [(lineno, buf)] else []
  | c :: b =>
      if bool_decide (c = NEWLINE) then
        if bool_decide (list.last buf = Some x5c) then logical b lineno (incr + 1) (removelast buf)
        else (if is_entry buf then [(lineno, buf)] else []) ++ logical b (lineno + (incr + 1)) 0 []
      else logical b lineno incr (buf ++ [c])
  end.

Definition plain (c : byte) : Prop := c <> NEWLINE /\ c <> x00.

Lemma logical_plain w b lineno incr buf :
  Forall plain w -> logical (w ++ b) lineno incr buf = logical b lineno incr (buf ++ w).
Proof.
  intros Hw. revert buf. induction Hw as [|c w [Hc _] _ IH]; intros buf; [by rewrite app_nil_r|].
  cbn. rewrite bool_decide_eq_false_2 by done. by rewrite IH, <- app_assoc.
Qed.

(** A read takes plain bytes up to its size, or up to and with a newline. *)
Lemma read_len_spec w :
  Forall (fun c => c <> x00) w ->
  Forall plain w /\ read_len w = length w \/
  exists p q, w = p ++ NEWLINE :: q /\ Forall plain p /\ read_len w = S (length p).
Proof.
  induction 1 as [|c w Hc _ IH]; [by left|]. cbn. case_bool_decide as Hn.
  - right. exists [], w. by subst.
  - destruct IH as [[Hp ->]|(p & q & -> & Hp & ->)].
    + left. split; [by constructor|done].
    + right. exists (c :: p), q. split_and!; [done|by constructor|done].
Qed.

Lemma before_nul_id w : Forall (fun c => c <> x00) w -> before_nul w = w.
Proof. induction 1 as [|c w Hc _ IH]; [done|]. cbn. by rewrite bool_decide_eq_false_2, IH. Qed.

Lemma plain_no_nul w : Forall plain w -> Forall (fun c => c <> x00) w.
Proof. apply List.Forall_impl. by intros ? []. Qed.

Lemma last_plain w : Forall plain w -> list.last w <> Some NEWLINE.
Proof.
  intros Hw Hl. apply last_Some in Hl as [l' ->]. apply list.Forall_app in Hw as [_ Hw].
  by apply list.Forall_cons in Hw as [[? _] _].
Qed.

Lemma removelast_plain w : Forall plain w -> Forall plain (removelast w).
Proof.
  destruct w as [|c w]; [done|]. intros Hw.
  rewrite (app_removelast_last x00 (l := c :: w)) in Hw by done. by apply list.Forall_app in Hw as [? _].
Qed.

Lemma lines_loop_step fuel rest lineno incr buf out :
  rest <> [] ->
  lines_loop (S fuel) rest lineno incr buf out =
  let n := read_len (take READ rest) in
  let buf := buf ++ before_nul (take n rest) in
  let rest := drop n rest in
  if negb (bool_decide (list.last buf = Some NEWLINE)) then lines_loop fuel rest lineno incr buf out
  else
    let buf := removelast buf in
    if bool_decide (list.last buf = Some x5c) then
      lines_loop fuel rest lineno (incr + 1) (removelast buf) out
    else if negb (is_entry buf) then lines_loop fuel rest (lineno + (incr + 1)) 0 [] out
    else lines_loop fuel rest (lineno + (incr + 1)) 0 [] (out ++ [(lineno, buf)]).
Proof. by destruct rest. Qed.

Lemma lines_loop_logical fuel rest lineno incr buf out :
  (length rest < fuel)%nat -> Forall (fun c => c <> x00) rest -> Forall plain buf ->
  lines_loop fuel rest lineno incr buf out = out ++ logical rest lineno incr buf.
Proof.
  revert rest lineno incr buf out. induction fuel as [|fuel IH]; intros rest lineno incr buf out Hf Hr Hb; [lia|].
  destruct (decide (rest = [])) as [->|Hne]; [cbn; case_match; by rewrite ?app_nil_r|].
  rewrite lines_loop_step by done. cbv zeta.
  assert (0 < length rest)%nat as Hpos by (destruct rest; cbn; [done|lia]).
  pose proof (take_drop READ rest) as Et. set (w := take READ rest) in *. set (tl := drop READ rest) in *.
  assert (0 < length w)%nat as Hwpos by (unfold w; rewrite length_take; unfold READ; lia).
  clearbody w tl. rewrite <- Et in Hr. apply list.Forall_app in Hr as [Hw Htl].
  destruct (read_len_spec w Hw) as [[Hp ->]|(p & q & Ew & Hp & ->)].
  - rewrite <- Et, take_app_length, drop_app_length, before_nul_id by (by rewrite ?Et).
    rewrite bool_decide_eq_false_2 by (apply last_plain, list.Forall_app; done). cbn [negb].
    rewrite IH, logical_plain; [done|done| |done|by apply list.Forall_app].
    apply (f_equal length) in Et. rewrite length_app in Et. lia.
  - rewrite Ew, <- app_assoc in Et. cbn in Et.
    assert (rest = (p ++ [NEWLINE]) ++ q ++ tl) as -> by (by rewrite <- app_assoc).
    assert (S (length p) = length (p ++ [NEWLINE])) as -> by (rewrite length_app; cbn; lia).
    rewrite take_app_length, drop_app_length.
    rewrite before_nul_id by (apply list.Forall_app; split; [by apply plain_no_nul|by repeat constructor]).
    rewrite (app_assoc buf), last_snoc, bool_decide_eq_true_2, removelast_last by done. cbn [negb].
    rewrite Ew in Hw. apply list.Forall_app in Hw as [_ Hw]. apply list.Forall_cons in Hw as [_ Hq].
    rewrite !length_app in Hf. cbn in Hf.
    rewrite <- (app_assoc p), logical_plain by done. cbn [logical app].
    rewrite (bool_decide_eq_true_2 (NEWLINE = NEWLINE)) by done.
    assert (length (q ++ tl) < fuel)%nat as Hl by (rewrite length_app; lia).
    assert (Forall (fun c => c <> x00) (q ++ tl)) as Hn by (by apply list.Forall_app).
    case_bool_decide.
    + rewrite IH; [done..|]. apply removelast_plain. by apply list.Forall_app.
    + destruct (is_entry (buf ++ p)); cbn [negb app]; rewrite IH by done; by rewrite <- ?app_assoc.
Qed.

(** The ACL file is read in windows of 127 bytes, as C's [fgets] would, and
    the windows do not show: a text without NUL bytes gives exactly its logical
    lines, each with the number of the line it starts on, a newline behind a
    backslash joining two lines, comment and empty lines dropped. *)
Theorem acl_lines_logical b : Forall (fun c => c <> x00) b -> acl_lines b = logical b 1 0 [].
Proof. intros Hb. unfold acl_lines. by rewrite lines_loop_logical by (done || lia). Qed.

Definition two_lines : bytes :=
  String.list_byte_of_string "#c" ++ [NEWLINE] ++ String.list_byte_of_string "a \" ++ [NEWLINE] ++
  repeat x62 200 ++ [NEWLINE].

Lemma acl_lines_logical_witness :
  acl_lines two_lines = [(2, String.list_byte_of_string "a " ++ repeat x62 200)].
Proof.
  rewrite (acl_lines_logical two_lines); [vm_compute; reflexivity|].
  apply (bool_decide_unpack _). vm_compute. exact I.
Defined.

(** The flag words are consumed: the fuel of [principal_flags_spec] is enough. *)
Lemma find_char_lt f s i : find_char f s = Some i -> (i < length s)%nat.
Proof.
  revert i. induction s as [|c s IH]; intros i; cbn; [done|].
  destruct (f c); [intros [= <-]; lia|]. destruct (find_char f s) as [j|]; [|done].
  intros [= <-]. specialize (IH j eq_refl). lia.
Qed.

Lemma cut_at_lt s i : cut_at s = Some i -> (i < length s)%nat.
Proof. unfold cut_at. repeat case_match; intros; simplify_eq; by eapply find_char_lt. Qed.

Lemma trim_start_length f s : (length (trim_start_matches f s) <= length s)%nat.
Proof. induction s as [|c s IH]; cbn; [lia|]. case_match; cbn; lia. Qed.

Lemma flags_spec_fuel fuel fuel' sp flags :
  (length sp < fuel)%nat -> (length sp < fuel')%nat ->
  flags_spec_loop fuel sp flags = flags_spec_loop fuel' sp flags.
Proof.
  revert fuel' sp flags. induction fuel as [|fuel IH]; intros [|fuel'] sp flags H H'; [lia..|].
  cbn [flags_spec_loop]. destruct (cut_at sp) as [i|] eqn:E; [|done]. apply cut_at_lt in E.
  pose proof (trim_start_length c_space (drop (S i) sp)) as Hl. rewrite length_drop in Hl.
  repeat case_match; try done; apply IH; lia.
Qed.

(** Vectors of the source's tests. *)
Definition sample_acl : list AclEntry :=
  match parse_located (String.list_byte_of_string
    "admin@R *D
# a comment that goes on \
*/admin@R ci *1/host@R -maxlife 1h -clearpolicy
*/admin@R ci *1/host@R -maxlife 1h -clearpolicy
") [] [] with Ok es => es | Err _ => [] end.

Example acl_samples :
  map (fun '(a, op, t) => allows sample_acl (lit a) op (lit <$> t))
    [("admin@R", Create, None); ("admin@R", Delete, None); ("admin@R", Extract, None);
     ("jo/admin@R", ChangePassword, Some "jo/host@R"); ("jo/admin@R", ChangePassword, Some "al/host@R");
     ("jo/admin@R", Create, Some "jo/host@R"); ("nobody@R", Inquire, None)]%string
  = [true; false; false; true; false; false; false] /\
  map (fun e => (rs_max_life <$> restrictions e, clear_policy <$> restrictions e)) sample_acl
  = [(None, None); (Some (Some 3600), Some true)].
Proof. vm_compute. by split. Qed.

(** A line without operations is reported with its number and its first bytes. *)
Example acl_located :
  parse_bytes_with_realm (String.list_byte_of_string "#" ++ [NEWLINE] ++
    String.list_byte_of_string "administrator@R") [] =
  Err (AclParse (lit "syntax error at line 2 <administra...>")).
Proof. vm_compute. reflexivity. Qed.

End Acl.
