(* ===== verification/Store.v ===== *)
(** * The principal store

    The parts of a principal's record that the operations of file StoreOps use,
    from [krb5-kdc/src/store/principal.rs], [store/keys.rs], [store/password.rs],
    [kdb.rs] and [kdb_dump.rs]: identifiers and aliases, the TL data, key
    versions and salts. *)

From stdpp Require Import pretty.
From S2P Require Import Prelude Ascii Utf8 Etype Primitives Cts Derive Weak Ops Name EncList.
From S2P Require Import Kdc Lockout Osa History PMap Acl.

(** ** Names and identifiers *)

Definition realm_chars (realm : bytes) : Name.ustr := Utf8.lossy_chars_of realm.

(** [str::rsplit_once]. *)
Fixpoint rsplit_once (sep : Z) (s : Name.ustr) : option (Name.ustr * Name.ustr) :=
  match s with
  | [] => None
  | c :: s1 =>
      match rsplit_once sep s1 with
      | Some (a, b) => Some (c :: a, b)
      | None => if c =? sep then Some ([], s1) else None
      end
  end.

Definition lookup_principal_id (n : PrincipalName.PrincipalName) (realm : bytes) : Name.ustr :=
  if PrincipalName.name_type n =? PrincipalName.NT_ENTERPRISE then
    let raw := components_joined n in
    match rsplit_once Name.AT raw with
    | Some ((_ :: _) as user, suffix) =>
        if bool_decide (suffix = realm_chars realm) then user ++ [Name.AT] ++ realm_chars realm
        else Name.unparse_name [raw] (realm_chars realm)
    | _ => Name.unparse_name [raw] (realm_chars realm)
    end
  else Name.unparse_name (map Utf8.lossy_chars_of (PrincipalName.name_string n)) (realm_chars realm).

Definition lit_bytes (s : string) : bytes := String.list_byte_of_string s.

Definition infer_name_type (comps : list Name.ustr) : Z :=
  match comps with
  | [c0; _] =>
      if bool_decide (c0 = EncList.lit "krbtgt") then PrincipalName.NT_SRV_INST
      else if bool_decide (c0 = EncList.lit "WELLKNOWN") then PrincipalName.NT_WELLKNOWN
      else PrincipalName.NT_PRINCIPAL
  | c0 :: _ :: _ =>
      if bool_decide (c0 = EncList.lit "WELLKNOWN") then PrincipalName.NT_WELLKNOWN
      else PrincipalName.NT_PRINCIPAL
  | _ => PrincipalName.NT_PRINCIPAL
  end.

(** [PrincipalName::try_new]: every component is ASCII. *)
Definition try_new (nt : Z) (comps : list Name.ustr) : option PrincipalName.PrincipalName :=
  if forallb (forallb (fun c => c <? 0x80)) comps
  then Some (PrincipalName.mkName nt (map Utf8.as_bytes comps)) else None.

Definition principal_from_unparsed (s default_realm : Name.ustr)
    : option (PrincipalName.PrincipalName * bytes) :=
  match Name.parse_name s default_realm with
  | Ok (comps, realm) =>
      n ← try_new (infer_name_type comps) comps;
      Some (n, Utf8.as_bytes realm)
  | Err _ => None
  end.

Module Store.
Import PMap Osa.

Definition TL_DB_ARGS : Z := 0x7fff.
Definition TL_LAST_PWD_CHANGE : Z := 1.
Definition TL_MOD_PRINC : Z := 2.
Definition TL_STRING_ATTRS : Z := 0x0b.
Definition TL_ALIAS_TARGET : Z := 0x0c.
Definition TL_KERBER_POLICY : Z := 0x4B02.
Definition TL_KERBER_HIST : Z := 0x4B04.
Definition TL_CONSTRAINED_DELEGATION : Z := 0x400.
Definition TL_KERBER_S4U_FROM : Z := 0x4B06.
Definition KDB_V1_BASE_LENGTH : Z := 38.
Definition RID_ADMINISTRATOR : Z := 500.
Definition RID_KRBTGT : Z := 502.
Definition RID_FIRST_USER : Z := 1000.
Definition MAX_ALIAS_DEPTH : nat := 10.

Definition sat_add (a b : Z) : Z := Z.min U32_MAX (a + b).
Definition sat_sub (a b : Z) : Z := Z.max 0 (a - b).
Definition principal_id (p : Principal) : Name.ustr := lookup_principal_id (name p) (realm p).

(** ** Records *)

Definition from_keys (n : PrincipalName.PrincipalName) (r : bytes) (ks : list KeyEntry) (slt : bytes)
    (requires_preauth : bool) (life : Z) (locked : bool) (expire : Z) : Principal :=
  let a := if requires_preauth then KDB_REQUIRES_PRE_AUTH else 0 in
  let a := if locked then Z.lor a KDB_DISALLOW_ALL_TIX else a in
  mkPrincipal n r ks [] slt life expire a 0 0 0 0 0 1 KDB_V1_BASE_LENGTH [] [] 0 [] [] None default_kadm [].

Definition default_salt (n : PrincipalName.PrincipalName) (realm : bytes) : bytes :=
  realm ++ concat (PrincipalName.name_string n).

Definition alias_target (p : Principal) : option Name.ustr :=
  t ← List.find (fun t => ty t =? TL_ALIAS_TARGET) (tl_data p);
  match rev (contents t) with
  | z :: target => if bool_decide (z = x00) then Utf8.from_utf8 (rev target) else None
  | [] => None
  end.

(** Follows at most [n] aliases. *)
Fixpoint resolve_loop (n : nat) (realm : Name.ustr) (lookup : Name.ustr -> option Principal)
    (i : Name.ustr) (p : Principal) : option Name.ustr :=
  match alias_target p with
  | None => Some i
  | Some target =>
      match n with
      | O => None
      | S n =>
          '(nm, r) ← principal_from_unparsed target realm;
          let i := lookup_principal_id nm r in
          p ← lookup i;
          resolve_loop n realm lookup i p
      end
  end.

Definition resolve_alias_id (realm : Name.ustr) (lookup : Name.ustr -> option Principal) (i : Name.ustr)
    : option Name.ustr :=
  p ← lookup i; resolve_loop MAX_ALIAS_DEPTH realm lookup i p.

(** An argument for another database module is refused; the message here is
    without the argument. *)
Definition strip_db_args (tl : list TlData) : result KdcError (list TlData) :=
  match List.find (fun t => ty t =? TL_DB_ARGS) tl with
  | Some t =>
      Err (InvalidArgument (match rev (contents t) with
                            | x00 :: _ => "Unsupported argument for db2"
                            | _ => "Invalid argument"
                            end))
  | None => Ok tl
  end.

Fixpoint replace_tl (t : TlData) (tl : list TlData) : list TlData :=
  match tl with
  | x :: tl => if ty x =? ty t then mkTl (ty x) (contents t) :: tl else x :: replace_tl t tl
  | [] => []
  end.

Definition update_tl_data (t : TlData) (tl : list TlData) : list TlData :=
  if negb (ty t =? TL_DB_ARGS) && existsb (fun x => ty x =? ty t) tl then replace_tl t tl else t :: tl.

Definition retain_tl (f : Z -> bool) (tl : list TlData) : list TlData := List.filter (fun t => f (ty t)) tl.

Definition refresh_kadm_tl (p : Principal) : Principal :=
  let bound := match pw_policy p with Some (_ :: _) => true | _ => false end in
  let k := kadm p in
  let aux := if bound then Z.lor (aux_attributes k) KADM5_POLICY
             else Z.land (aux_attributes k) (Acl.not32 KADM5_POLICY) in
  let k := mkKadm aux (old_key_next k) (admin_history_kvno k) (old_keys k) in
  let rec := mkOsa (if bound then pw_policy p else None) aux (old_key_next k) (admin_history_kvno k) (old_keys k) in
  let tl := retain_tl (fun t => negb (t =? TL_KADM_DATA) && negb (t =? TL_KERBER_POLICY)
                                && negb (t =? TL_KERBER_HIST)) (tl_data p) in
  set_tl_data (tl ++ [mkTl TL_KADM_DATA (encode rec)]) (set_kadm k p).

Definition canonical_mod_actor (actor : Name.ustr) (realm : bytes) : bytes :=
  if bool_decide (Name.AT ∈ actor) then Utf8.as_bytes actor else Utf8.as_bytes actor ++ [x40] ++ realm.

Definition stamp_admin_tl (now : Z) (pwd_change : bool) (actor : Name.ustr) (p : Principal) : Principal :=
  let tl := tl_data p in
  let tl := if pwd_change then update_tl_data (mkTl TL_LAST_PWD_CHANGE (to_le_bytes 4 now)) tl else tl in
  set_tl_data
    (update_tl_data (mkTl TL_MOD_PRINC (to_le_bytes 4 now ++ canonical_mod_actor actor (realm p) ++ [x00])) tl) p.

(** The time of the last password change, or 0. *)
Definition last_pwd_unix (p : Principal) : Z :=
  match List.find (fun t => ty t =? TL_LAST_PWD_CHANGE) (tl_data p) with
  | Some t => if (length (contents t) <? 4)%nat then 0 else from_le_bytes (take 4 (contents t))
  | None => 0
  end.

Definition next_kvno (ks : list KeyEntry) : Z :=
  match Keys.top_kvno ks with
  | Some n => if 65535 <=? n then 1 else n + 1
  | None => 1
  end.

Definition cap_key_versions (ks : list KeyEntry) (n : Z) : list KeyEntry :=
  History.keep_newest (Z.to_nat n) ks.

(** The keys after a change that keeps old ones. *)
Definition keep_old (new old : list KeyEntry) (keepold : Z) : list KeyEntry :=
  if 0 <? keepold then
    if 1 <? keepold then cap_key_versions (new ++ old) keepold else new ++ old
  else new.

Definition set_kvno (v : Z) (k : KeyEntry) : KeyEntry := mkEntry (ke_etype k) (key k) v (salt_type k) (kdb_salt k).

(** ** Salts *)

Definition key_salt (k : KeyEntry) (n : PrincipalName.PrincipalName) (realm : bytes) : bytes :=
  match default 0 (salt_type k) with
  | 2 => concat (PrincipalName.name_string n)
  | 3 => realm
  | 4 => default [] (kdb_salt k)
  | _ => default_salt n realm
  end.

Definition salt_of_keys (ks : list KeyEntry) (n : PrincipalName.PrincipalName) (realm : bytes) : bytes :=
  match ks with k :: _ => key_salt k n realm | [] => default_salt n realm end.

Definition known_salt (t : option Z) : bool := bool_decide (default 0 t ∈ [0; 2; 3; 4]).

(** The salts a renamed principal needs are written into its keys. *)
Definition specialize_salts (p : Principal) : result KdcError Principal :=
  if existsb (fun k => negb (known_salt (salt_type k))) (keys p)
  then Err (InvalidArgument "Unsupported salt type")
  else
    let ks := map (fun k => mkEntry (ke_etype k) (key k) (kvno k) (Some 4)
                              (Some (key_salt k (name p) (realm p)))) (keys p) in
    let slt := match ks with
               | k :: _ => default (default_salt (name p) (realm p)) (kdb_salt k)
               | [] => default_salt (name p) (realm p)
               end in
    Ok (set_salt slt (set_keys ks p)).

(** [KeySalt]s the policy and the request leave. *)
Definition apply_keysalt_policy (allowed : option Name.ustr) (requested supported : list EncList.KeySalt)
    : result KdcError (list EncList.KeySalt) :=
  match allowed with
  | Some ((_ :: _) as a) =>
      let ak := EncList.parse_keysalts a in
      if existsb (fun ks => negb (bool_decide (ks ∈ ak))) requested then Err BadKeysalts
      else match requested with
           | [] => Ok ak
           | _ => Ok (List.filter (fun ks => bool_decide (ks ∈ requested)) ak)
           end
  | _ => Ok match requested with [] => supported | _ => requested end
  end.

End Store.
