(* ===== verification/Asn1Text.v ===== *)
(** * The texts of failed decodings

    Models [krb5-kdc/src/asn1_text.rs]: the tag reader and the message, with its
    code, for an encoding a preauthentication module could not decode.  The
    functions that classify rasn's own messages feed only the log. *)

From S2P Require Import Prelude Kdc.

Module Asn1Text.

(** The message constants, by name. *)
Inductive text := MISSING_FIELD | OVERFLOW | OVERRUN | BAD_ID | BAD_LENGTH | BAD_FORMAT | PARSE_ERROR | INDEF.

Definition ASN1_BASE : Z := 1859794432.

Definition asn1_code (t : text) : Z :=
  ASN1_BASE + match t with
              | MISSING_FIELD => 1
              | OVERFLOW => 4
              | OVERRUN => 5
              | BAD_ID => 6
              | BAD_LENGTH => 7
              | BAD_FORMAT => 8
              | INDEF => 11
              | PARSE_ERROR => 9
              end.

Definition UNIVERSAL : Z := 0x00.
Definition APPLICATION : Z := 0x40.
Definition CONTEXT : Z := 0x80.
Definition SEQUENCE : Z := 16.
Definition TAGNUM_MAX : Z := 0x7ffffffe.

Record Tlv := mkTlv { class : Z; constructed : bool; tagnum : Z; tlv_contents : bytes; tlv_rest : bytes }.

(** The loop over the octets of a long tag number. *)
Fixpoint long_tag (n : Z) (p : bytes) : result text (Z * bytes) :=
  match p with
  | [] => Err OVERRUN
  | b :: p =>
      if Z.shiftr TAGNUM_MAX 7 <? n then Err OVERFLOW
      else
        let n := Z.lor (Z.shiftl n 7) (Z.land (u8z b) 0x7f) in
        if Z.land (u8z b) 0x80 =? 0 then Ok (n, p) else long_tag n p
  end.

Definition get_tag (asn1 : bytes) : result text Tlv :=
  match asn1 with
  | [] => Err OVERRUN
  | o :: p =>
      let low := Z.land (u8z o) 0x1f in
      let? (n, p) :=
        (if low =? 0x1f then
           let? (n, p) := long_tag 0 p in
           if TAGNUM_MAX <? n then Err OVERFLOW else Ok (n, p)
         else Ok (low, p)) in
      match p with
      | [] => Err OVERRUN
      | l :: p =>
          let? (clen, p) :=
            (if Z.land (u8z l) 0x80 =? 0 then Ok (u8z l, p)
             else
               let llen := Z.to_nat (Z.land (u8z l) 0x7f) in
               if (length p <? llen)%nat then Err OVERRUN
               else if (8 <? llen)%nat then Err OVERFLOW
               else if (llen =? 0)%nat then Err INDEF
               else Ok (fold_left (fun c b => Z.lor (Z.shiftl c 8) (u8z b)) (take llen p) 0, drop llen p)) in
          if blen p <? clen then Err OVERRUN
          else Ok (mkTlv (Z.land (u8z o) 0xc0) (negb (Z.land (u8z o) 0x20 =? 0)) n
                     (take (Z.to_nat clen) p) (drop (Z.to_nat clen) p))
      end
  end.

Definition decode_failure_text (der : bytes) (first_field_explicit : bool) : text :=
  match get_tag der with
  | Err t => t
  | Ok outer =>
      if negb (class outer =? UNIVERSAL) || negb (constructed outer) || negb (tagnum outer =? SEQUENCE) then BAD_ID
      else if bool_decide (tlv_contents outer = []) then MISSING_FIELD
      else match get_tag (tlv_contents outer) with
           | Err t => t
           | Ok first =>
               let is_zero := (class first =? CONTEXT) && (tagnum first =? 0) in
               if is_zero && (negb first_field_explicit || constructed first) then OVERRUN else MISSING_FIELD
           end
  end.

Definition preauth_decode_failure (der : bytes) (first_field_explicit : bool) : KdcError :=
  PreauthModule (asn1_code (decode_failure_text der first_field_explicit)).

(** A failed decoding has a code of the ASN.1 table, which no protocol error has. *)
Lemma decode_failure_code der b :
  exists n, preauth_decode_failure der b = PreauthModule (ASN1_BASE + n) /\ 1 <= n <= 11.
Proof.
  unfold preauth_decode_failure, asn1_code. eexists. split; [reflexivity|].
  destruct (decode_failure_text der b); lia.
Qed.

End Asn1Text.
