(* ===== verification/Exchange.v ===== *)
(** * What both exchanges use

    The setting of [krb5-kdc/src/issue/]: the database and the configuration the
    KDC reads, its clock and its random numbers, and the small functions of
    [kdc_util.rs], [preauth.rs], [ad.rs] and [der.rs] both exchanges call.

    A handler is a computation of [StateErr] whose state counts the readings of
    the clock and of [getrandom] ([Run]), and keeps the client to be audited and the
    lockout updates the request makes; the readings themselves are an arbitrary class [World].  The
    logging calls have no effect on results and are left out, with the texts that
    only they show. *)

From S2P Require Import Prelude StateErr Etype Primitives Cts Utf8 Ops Prf Der Name EncList Time Kdc Lockout KdcPolicy Transit Pwqual Store Messages.

(** ** Constants of [constants.rs] *)

Module ku.
Definition PA_ENC_TIMESTAMP : Z := 1.
Definition TICKET : Z := 2.
Definition AS_REP_ENC_PART : Z := 3.
Definition TGS_REQ_AD_SESSKEY : Z := 4.
Definition TGS_REQ_AD_SUBKEY : Z := 5.
Definition TGS_REQ_AUTH_CKSUM : Z := 6.
Definition TGS_REQ_AUTHENTICATOR : Z := 7.
Definition TGS_REP_ENC_PART : Z := 8.
Definition TGS_REP_ENC_PART_SUBKEY : Z := 9.
Definition AP_REQ_AUTHENTICATOR : Z := 11.
Definition PA_FOR_USER : Z := 17.
Definition PA_S4U_X509_USER_REQUEST : Z := 26.
Definition PA_S4U_X509_USER_REPLY : Z := 27.
Definition PA_PKINIT_KX : Z := 44.
Definition FAST_REQ_CHKSUM : Z := 50.
Definition FAST_ENC : Z := 51.
Definition FAST_REP : Z := 52.
Definition FAST_FINISHED : Z := 53.
Definition ENC_CHALLENGE_CLIENT : Z := 54.
Definition ENC_CHALLENGE_KDC : Z := 55.
Definition AS_REQ : Z := 56.
Definition CAMMAC : Z := 64.
Definition PA_FX_COOKIE : Z := 513.
Definition PA_AS_FRESHNESS : Z := 514.
End ku.

Module pa.
Definition TGS_REQ : Z := 1.
Definition ENC_TIMESTAMP : Z := 2.
Definition PW_SALT : Z := 3.
Definition ETYPE_INFO : Z := 11.
Definition ETYPE_INFO2 : Z := 19.
Definition PAC_REQUEST : Z := 128.
Definition FOR_USER : Z := 129.
Definition FOR_X509_USER : Z := 130.
Definition FX_COOKIE : Z := 133.
Definition FX_FAST : Z := 136.
Definition FX_ERROR : Z := 137.
Definition ENCRYPTED_CHALLENGE : Z := 138.
Definition PKINIT_KX : Z := 147.
Definition REQ_ENC_PA_REP : Z := 149.
Definition AS_FRESHNESS : Z := 150.
Definition PAC_OPTIONS : Z := 167.
Definition AD_IF_RELEVANT : Z := 1.
Definition AD_KDC_ISSUED : Z := 4.
Definition AD_MANDATORY_FOR_KDC : Z := 8.
Definition AD_FX_ARMOR : Z := 71.
Definition AD_CAMMAC : Z := 96.
Definition AD_AUTH_INDICATOR : Z := 97.
Definition AD_WIN2K_PAC : Z := 128.
Definition AD_ETYPE_NEGOTIATION : Z := 129.
Definition AD_SIGNTICKET : Z := 512.
End pa.

(** ** The store *)

(** The fields of [Policy] the exchanges read, past those of [Kdc.Policy];
    [otp_loaded] is [otp.is_ok()], [pkinit_on] is [store.pkinit().is_some()]. *)
Record Settings := mkSettings {
  capaths : gmap bytes (gmap bytes (list bytes));
  reject_bad_transit : bool;
  disable_pac : bool;
  ad_identity : bool;
  host_based_services : Name.ustr;
  no_host_referral : Name.ustr;
  encrypted_challenge_indicator : option Name.ustr;
  pkinit_indicators : list Name.ustr;
  spake_preauth_indicators : list Name.ustr;
  kdcpreauth : Pwqual.PluginRelations;
  kdcpolicy : Pwqual.PluginRelations;
  otp_loaded : bool;
  pkinit_on : bool;
  domain_realm : gmap Name.ustr bytes;
}.

(** [PrincipalRead] with its lookups. *)
Class KdcStore := {
  kdc_read :: PrincipalRead;
  settings : Settings;
  fetch : Name.ustr -> result KdcError (option Principal);
}.

Section Store.
Context `{KdcStore}.

Definition fetch_name (n : PrincipalName) : result KdcError (option Principal) :=
  fetch (lookup_principal_id n store_realm).

Definition fetch_krbtgt : result KdcError (option Principal) :=
  fetch_name (PrincipalName.krbtgt store_realm).

(** [Policy::first_current_key] and [Policy::find_enctype]. *)
Definition first_current_key (p : Principal) : result Keys.KeyLookup KeyEntry :=
  Keys.find_enctype policy p None 0.

Definition permitted_list : list EncryptionType :=
  match permitted_enctypes policy with
  | Some l => l
  | None => default [] (EncList.parse_enctype_list (EncList.lit "DEFAULT") (allow_weak_crypto policy))
  end.

End Store.

(** *** The realm of a host *)

Definition is_digit_or_dot (c : Z) : bool := ((0x30 <=? c) && (c <=? 0x39)) || (c =? 0x2e).

Definition is_numeric_address (name : Name.ustr) : bool :=
  if existsb (Z.eqb 0x3a) name then true
  else if forallb is_digit_or_dot name then (length (List.filter (Z.eqb 0x2e) name) =? 3)%nat
  else false.

Definition to_ascii_lowercase (s : Name.ustr) : Name.ustr :=
  map (fun c => if (0x41 <=? c) && (c <=? 0x5a) then c + 32 else c) s.

Fixpoint drop_dots (s : Name.ustr) : Name.ustr :=
  match s with c :: r => if c =? 0x2e then drop_dots r else s | [] => [] end.

(** [str::trim_end_matches] of a dot. *)
Definition trim_end_dots (s : Name.ustr) : Name.ustr := rev (drop_dots (rev s)).

(** The loop on [split_once], which leaves what follows the next dot. *)
Fixpoint suffix_realm (m : gmap Name.ustr bytes) (rest : Name.ustr) : option bytes :=
  match rest with
  | [] => None
  | c :: suffix =>
      if c =? 0x2e then
        match m !! (0x2e :: suffix), m !! suffix with
        | Some r, _ | None, Some r => Some r
        | None, None => suffix_realm m suffix
        end
      else suffix_realm m suffix
  end.

Definition host_to_realm (m : gmap Name.ustr bytes) (host : Name.ustr) : option bytes :=
  if is_numeric_address host then None
  else
    let host := to_ascii_lowercase (trim_end_dots host) in
    match m !! host with Some r => Some r | None => suffix_realm m host end.

Definition realm_for_host `{KdcStore} (host : Name.ustr) : option bytes := host_to_realm (domain_realm settings) host.

(** [Principal::first_current_key], which does not look at what is permitted. *)
Definition principal_current_key (p : Principal) : option KeyEntry :=
  match Keys.top_kvno (keys p) with
  | Some v => List.find (fun k => kvno k =? v) (keys p)
  | None => None
  end.

(** ** Clock and random numbers *)

(** What the [i]-th reading gives: octets of [getrandom], or the seconds of the
    clock. *)
Class World := {
  rng : nat -> nat -> option bytes;
  clock : nat -> Z;
}.

Class WorldLaws `{World} : Prop :=
  rng_length i n b : rng i n = Some b -> length b = n.

(** The readings so far, the client whose request is audited ([&mut audited]), and
    the updates passed to [store.update_lockout]. *)
Record Run := mkRun {
  ticks : nat;
  audited : option Principal;
  lockouts : list (Principal * Z * Lockout.LockoutUpdate);
}.

Definition start : Run := mkRun 0 None [].
Definition step (n : nat) (s : Run) : Run := mkRun (n + ticks s) (audited s) (lockouts s).
Definition set_audited (c : option Principal) (s : Run) : Run := mkRun (ticks s) c (lockouts s).
Definition add_lockout (u : Principal * Z * Lockout.LockoutUpdate) (s : Run) : Run :=
  mkRun (ticks s) (audited s) (lockouts s ++ [u]).

Abbreviation M A := (SE Run KdcError A).

Section World.
Context `{World} {Prim : Primitives}.

(** [KerberosTime::now()] and [unix_now_u32()]. *)
Definition now : M Z := fun s => (step 1 s, Ok (clock (ticks s))).
Definition unix_now_u32 : M Z := fun s => (step 1 s, Ok (Time.unix_seconds (clock (ticks s)))).

Definition crypto {A} (r : result Error A) : M A := lift (map_err CryptoErr r).

(** [krb5_crypto::encrypt], which draws the confounder. *)
Definition encrypt (key : Key.ProtocolKey) (usage : Z) (plain : bytes) : M bytes := fun s =>
  (step 2 s, map_err CryptoErr (Ops.encrypt (rng (ticks s) Cts.BLOCK) (rng (S (ticks s)) 8) key usage plain)).

Definition random_key (e : EncryptionType) : M Key.ProtocolKey := fun s =>
  (step 1 s,
   map_err (fun x => match x with Etype.Rng => Kdc.Rng | x => CryptoErr x end)
     (Prf.random (rng (ticks s) (EType.keybytes e)) e)).

Definition encoded {A} `{Codec A} (a : A) : M bytes := lift (encode a).

(** [decode(..)?]. *)
Definition decoded {A} `{Codec A} (b : bytes) : result KdcError A := map_err (fun _ => Asn1) (decode b).

End World.

(** [m.map_err(f)]. *)
Definition on_err {A} (f : KdcError -> KdcError) (m : M A) : M A :=
  fun s => match m s with (s, Ok a) => (s, Ok a) | (s, Err e) => (s, Err (f e)) end.

(** [m.ok()] and the like: the error is dropped. *)
Definition attempt {A} (m : M A) : M (result KdcError A) := fun s => let (s, r) := m s in (s, Ok r).

(** ** Small functions *)

(** The fields of the request body the policy functions read, and those of a
    ticket part. *)
Definition policy_body (b : KdcReqBody) : KdcPolicy.KdcReqBody :=
  KdcPolicy.mkBody (kdc_options b) (sname b) (from b) (till b) (rtime b).
Definition policy_part (t : EncTicketPart) : KdcPolicy.EncTicketPart :=
  KdcPolicy.mkPart (tp_flags t) (tp_authtime t) (tp_starttime t) (tp_endtime t) (tp_renew_till t).

Definition opt (b : KdcReqBody) (n : nat) : bool := Flags.bit (kdc_options b) n.

Definition is_some {A} (o : option A) : bool := match o with Some _ => true | None => false end.

Definition from_iana_or_known (n : Z) : result Error EncryptionType :=
  match EType.from_iana n with Ok e => Ok e | Err _ => EType.known n end.

Definition protocol_key (k : EncryptionKey) : result Error Key.ProtocolKey :=
  let? e := from_iana_or_known (keytype k) in
  Key.from_bytes e (keyvalue k).

Definition encryption_key (k : Key.ProtocolKey) : EncryptionKey :=
  mkKey (EType.to_iana (Key.etype k)) (Key.as_bytes k).

Definition find_pa (ps : option MethodData) (t : Z) : option bytes :=
  match ps with
  | Some ps => padata_value <$> List.find (fun p => padata_type p =? t) ps
  | None => None
  end.

Definition is_ascii (s : bytes) : bool := forallb (fun b => u8z b <? 0x80) s.

Definition ks (s : bytes) : result KdcError bytes :=
  if is_ascii s then Ok s else Err (proto err.GENERIC "UNKNOWN_REASON").

Definition utf8_realm (r : bytes) : result KdcError bytes :=
  match Utf8.from_utf8 r with Some _ => Ok r | None => Err (proto err.GENERIC "UNKNOWN_REASON") end.

(** [errcode_to_protocol]. *)
Definition errcode_to_protocol (code : Z) : Z := if (0 <=? code) && (code <=? 128) then code else err.GENERIC.

(** [Error::des_key_code().is_some()]. *)
Definition is_des_key_error (e : KdcError) : bool :=
  match e with CryptoErr DesBadParity | CryptoErr DesWeakKey => true | _ => false end.

(** [Error::Crypto(_)]: an error of the crypto library that is none of the three
    with a variant of their own. *)
Definition is_crypto (e : KdcError) : bool :=
  match e with
  | Crypto _ => true
  | CryptoErr (BadEnctype _) | CryptoErr DesBadParity | CryptoErr DesWeakKey => false
  | CryptoErr _ => true
  | _ => false
  end.

Definition key_refused_at (status : string) (e : KdcError) : KdcError :=
  if is_des_key_error e then proto err.GENERIC status else e.

Definition with_status (status : string) (e : KdcError) : KdcError :=
  match e with Protocol code _ e_data => Protocol code (Some status) e_data | e => e end.

(** [crypto_at(encrypt(..), st)]. *)
Definition encrypt_at `{World} {Prim : Primitives} (status : string) (key : Key.ProtocolKey) (usage : Z) (plain : bytes) : M bytes :=
  on_err (key_refused_at status) (encrypt key usage plain).

(** ** DER *)

Definition take_der (input : bytes) : option (byte * bytes * bytes) :=
  match input with
  | [] => None
  | tag :: input =>
      match Der.read_len input with
      | Some (ln, hlen) =>
          let stop := (hlen + Z.to_nat ln)%nat in
          if (length input <? stop)%nat then None
          else Some (tag, slice input hlen stop, drop stop input)
      | None => None
      end
  end.

(** The content of the first element of [cur] with the tag: the loop of
    [kdc_req_body_der] and of [fast_req_body_der].  Every turn takes at least two
    octets, so the length is fuel enough. *)
Fixpoint find_tag (fuel : nat) (want : byte) (cur : bytes) : option bytes :=
  match fuel, cur with
  | _, [] => None
  | O, _ => None
  | S n, _ =>
      match take_der cur with
      | Some (tag, inner, rest) => if bool_decide (tag = want) then Some inner else find_tag n want rest
      | None => None
      end
  end.

Lemma take_der_rest cur tag inner rest : take_der cur = Some (tag, inner, rest) -> (length rest < length cur)%nat.
Proof.
  destruct cur as [|t cur]; [done|]. unfold take_der. destruct (Der.read_len cur) as [[ln h]|]; [|done].
  cbv zeta. destruct (length cur <? h + Z.to_nat ln)%nat; [done|]. intros [= _ _ <-]. rewrite length_drop. cbn. lia.
Qed.

(** The length is fuel enough. *)
Lemma find_tag_fuel n m want cur :
  (length cur <= n)%nat -> (length cur <= m)%nat -> find_tag n want cur = find_tag m want cur.
Proof.
  revert m cur. induction n as [|n IH]; intros m cur Hn Hm; [destruct cur; [by destruct m|cbn in Hn; lia]|].
  destruct cur as [|t cur]; [by destruct m|]. destruct m as [|m]; [cbn in Hm; lia|]. cbn [find_tag].
  destruct (take_der (t :: cur)) as [[[tag inner] rest]|] eqn:E; [|done]. apply take_der_rest in E.
  cbn [length] in *. case_bool_decide; [done|]. apply IH; lia.
Qed.

Definition kdc_req_body_der (raw : bytes) : option bytes :=
  match take_der raw with
  | None => None
  | Some (tag, app, _) =>
      if negb (bool_decide (tag = x6a)) && negb (bool_decide (tag = x6c)) then None
      else match take_der app with
           | None => None
           | Some (t, seq, _) =>
               let body := if bool_decide (t = x30) then seq else app in
               find_tag (length body) xa4 body
           end
  end.

Definition fast_req_body_der (plain : bytes) : option bytes :=
  match take_der plain with
  | Some (t, seq, _) => if negb (bool_decide (t = x30)) then None else find_tag (length seq) xa2 seq
  | None => None
  end.
