(* ===== verification/Runs.v ===== *)
(** * Reasoning about runs

    Lemmas and tactics for the computations of [Exchange]: the inversion of a run
    that succeeded, encryption and its opening, and the runs that leave the audit
    alone ([calm]). *)

From S2P Require Import Prelude StateErr Etype Primitives Cts Ops Prf Name Time Kdc Lockout Transit Store Messages Exchange.

(** ** Runs that succeeded *)

Lemma lift_inv {St Er A} (r : result Er A) (s s' : St) a : lift r s = (s', Ok a) -> s' = s /\ r = Ok a.
Proof. by intros [= -> ->]. Qed.

Lemma ret_inv {St Er A} (a b : A) (s s' : St) : ret (Er := Er) a s = (s', Ok b) -> s' = s /\ a = b.
Proof. by intros [= -> ->]. Qed.

Lemma map_err_inv {E F A} (f : E -> F) (r : result E A) a : map_err f r = Ok a -> r = Ok a.
Proof. destruct r; [|done]. by intros [= ->]. Qed.

Lemma ok_or_inv {E A} (o : option A) (e : E) a : ok_or o e = Ok a -> o = Some a.
Proof. destruct o; [|done]. by intros [= ->]. Qed.

Lemma result_inv {E A B} (r : result E A) (k : A -> result E B) b :
  (let? x := r in k x) = Ok b -> exists a, r = Ok a /\ k a = Ok b.
Proof. destruct r as [a|]; [|done]. intros H. by exists a. Qed.

Lemma on_err_inv {A} f (m : M A) s s' a : on_err f m s = (s', Ok a) -> m s = (s', Ok a).
Proof. unfold on_err. destruct (m s) as [s1 [b|e]]; [|done]. by intros [= -> ->]. Qed.

Lemma now_inv `{World} s s' t : now s = (s', Ok t) -> s' = step 1 s /\ t = clock (ticks s).
Proof. by intros [= <- <-]. Qed.

(** Invert the equations of a run that succeeded, as far as its shape goes. *)
Ltac inv_runs :=
  repeat match goal with
  | H : bind _ _ _ = (_, Ok _) |- _ =>
      let s := fresh "s" in let a := fresh "a" in let E := fresh "E" in
      apply bind_inv in H as (s & a & E & H); cbv beta in H
  | H : lift _ _ = (_, Ok _) |- _ => apply lift_inv in H as [? H]; subst
  | H : ret _ _ = (_, Ok _) |- _ => apply ret_inv in H as [? H]; simplify_eq/=
  | H : crypto _ _ = (_, Ok _) |- _ => unfold crypto in H
  | H : encoded _ _ = (_, Ok _) |- _ => unfold encoded in H
  | H : on_err _ _ _ = (_, Ok _) |- _ => apply on_err_inv in H
  | H : map_err _ _ = Ok _ |- _ => apply map_err_inv in H
  | H : ok_or _ _ = Ok _ |- _ => apply ok_or_inv in H
  | H : assign _ _ = (_, Ok _) |- _ => injection H as <- <-
  | x : unit |- _ => destruct x
  end; simplify_eq/=.

(** ** Encryption *)

Section Encryption.
Context `{World} {Prim : Primitives}.

Lemma encrypt_ok `{!WorldLaws} {Laws : PrimitiveLaws} k u p c s s' :
  Key.wf k -> encrypt k u p s = (s', Ok c) -> exists rest, Ops.decrypt k u c = Ok (p ++ rest).
Proof.
  intros Hk. unfold encrypt. intros [= _ E]. apply map_err_inv in E.
  exists (drop (length p) (Ops.padded (Key.etype k) p)).
  rewrite (Ops.encrypted_opens _ _ k u p c Hk ltac:(intros b; apply rng_length) ltac:(intros b; apply rng_length) E).
  f_equal. unfold Ops.padded. destruct (Key.etype k); by rewrite ?drop_app_length, ?drop_all, ?app_nil_r.
Qed.

(** The holder of [k] finds the encoding of [a] in the encrypted data (and padding
    after it), and reads [a] from it when the wire can carry [a].  At most one value
    is in it, also of those the wire cannot carry ([opens_unique]). *)
Definition opens {A} `{Codec A} `{Wire A} (k : Key.ProtocolKey) (u : Z) (ed : EncryptedData) (a : A) : Prop :=
  exists der pad, encode a = Ok der /\ Ops.decrypt_enc_data k u (ed_etype ed) (cipher ed) = Ok (der ++ pad) /\
    (wire a -> decode (der ++ pad) = Ok a).

(** No other value is in it. *)
Lemma opens_unique {A} `{CodecLaws A} k u ed a a' : opens k u ed a -> opens k u ed a' -> a = a'.
Proof.
  intros (der & pad & Ea & Ed & _) (der' & pad' & Ea' & Ed' & _). rewrite Ed in Ed'. injection Ed' as E.
  by eapply encode_distinct.
Qed.

Lemma encrypt_opens `{!WorldLaws} {Laws : PrimitiveLaws} {A} `{CodecLaws A} k u a der c v s s' :
  Key.wf k -> encode a = Ok der -> encrypt k u der s = (s', Ok c) ->
  opens k u (mkEnc (EType.to_iana (Key.etype k)) v c) a.
Proof.
  intros Hk Ha Hc. destruct (encrypt_ok k u der c s s' Hk Hc) as [rest Hd].
  exists der, rest. split; [done|]. unfold Ops.decrypt_enc_data, Ops.check_enc_data_etype. cbn [ed_etype cipher].
  rewrite Z.eqb_refl, andb_false_r. split; [done|]. intros Hw. by apply decode_encode.
Qed.

Lemma encrypt_at_inv st k u p c s s' : encrypt_at st k u p s = (s', Ok c) -> encrypt k u p s = (s', Ok c).
Proof. apply on_err_inv. Qed.

Lemma random_key_wf e k s s' : random_key e s = (s', Ok k) -> Key.wf k /\ Key.etype k = e.
Proof.
  unfold random_key. intros [= _ E]. apply map_err_inv, result_inv in E as (raw & _ & E).
  destruct (decide _); apply Key.from_bytes_wf in E as (? & ? & _); by split.
Qed.

Lemma cf2_wf k1 k2 p1 p2 k : Prf.krb_fx_cf2 k1 k2 p1 p2 = Ok k -> Key.wf k.
Proof.
  intros E. apply result_inv in E as (a & _ & E). apply result_inv in E as (b & _ & E). revert E.
  unfold Prf.from_random. destruct (negb _); [done|].
  destruct (decide _); intros E; by apply Key.from_bytes_wf in E as (? & _ & _).
Qed.

Lemma protocol_key_wf ek k : protocol_key ek = Ok k -> Key.wf k.
Proof. intros E. apply result_inv in E as (e & _ & E). by apply Key.from_bytes_wf in E as (? & _ & _). Qed.

End Encryption.

(** ** Runs that leave the audit alone *)

(** [s'] is a state after [s] in which the audit and the lockout updates are those of [s]. *)
Definition later (s s' : Run) : Prop :=
  (ticks s <= ticks s')%nat /\ audited s' = audited s /\ lockouts s' = lockouts s.

#[export] Instance later_preorder : PreOrder later.
Proof.
  split; [by intros s|]. intros s1 s2 s3 (? & ? & ?) (? & ? & ?). split_and!; [lia|congruence..].
Qed.

Definition calm {A} (m : Run -> Run * A) : Prop := forall s, later s (fst (m s)).

Lemma calm_run {A} (m : Run -> Run * A) s s' a : calm m -> m s = (s', a) -> later s s'.
Proof. intros Hm E. specialize (Hm s). by rewrite E in Hm. Qed.

Lemma later_step n s : later s (step n s).
Proof. split_and!; [cbn; lia|done..]. Qed.

Create HintDb calm.

Lemma calm_const {A} (a : A) : calm (fun s => (s, a)).
Proof. intros s. reflexivity. Qed.
Lemma calm_ret {A} (a : A) : calm (ret (Er := KdcError) a).
Proof. intros s. reflexivity. Qed.
Lemma calm_lift {A} (r : result KdcError A) : calm (lift r).
Proof. intros s. reflexivity. Qed.

Lemma calm_bind {A B} (m : M A) (k : A -> M B) : calm m -> (forall a, calm (k a)) -> calm (bind m k).
Proof.
  intros Hm Hk s. unfold bind. specialize (Hm s). destruct (m s) as [s1 [a|e]]; [|done].
  etransitivity; [exact Hm|apply Hk].
Qed.

Lemma calm_on_err {A} f (m : M A) : calm m -> calm (on_err f m).
Proof. intros Hm s. unfold on_err. specialize (Hm s). by destruct (m s) as [s1 [a|e]]. Qed.

(** A run that goes on with the result of another. *)
Lemma calm_then {A B} (m : Run -> Run * A) (k : Run -> A -> Run * B) s :
  calm m -> (forall s' a, later s' (fst (k s' a))) -> later s (fst (let (s', a) := m s in k s' a)).
Proof. intros Hm Hk. specialize (Hm s). destruct (m s) as [s1 a]. etransitivity; [exact Hm|apply Hk]. Qed.

Section CalmSteps.
Context `{World} {Prim : Primitives}.

Lemma calm_now : calm now.
Proof. intros s. apply later_step. Qed.
Lemma calm_unix_now : calm unix_now_u32.
Proof. intros s. apply later_step. Qed.
Lemma calm_encrypt k u p : calm (encrypt k u p).
Proof. intros s. apply later_step. Qed.
Lemma calm_random_key e : calm (random_key e).
Proof. intros s. apply later_step. Qed.
Lemma calm_crypto {A} (r : result Error A) : calm (crypto r).
Proof. apply calm_lift. Qed.
Lemma calm_encoded {A} `{Codec A} (a : A) : calm (encoded a).
Proof. apply calm_lift. Qed.
Lemma calm_encrypt_at st k u p : calm (encrypt_at st k u p).
Proof. apply calm_on_err, calm_encrypt. Qed.

End CalmSteps.

#[export] Hint Resolve calm_const calm_ret calm_lift calm_now calm_unix_now calm_encrypt calm_random_key
  calm_crypto calm_encoded calm_encrypt_at : calm.

(** Through the shape of a computation to its steps. *)
Ltac calm :=
  intros;
  repeat first
    [ progress auto with calm nocore
    | apply calm_bind; [|intros ?]
    | apply calm_on_err
    | match goal with |- calm (match ?x with _ => _ end) => destruct x end ].
