(* ===== verification/AuthData.v ===== *)
(** * Authorization data

    Models the part of [krb5-kdc/src/ad.rs] that handles authorization data but
    neither signs nor verifies PACs: what a request may put into a ticket, the search through nested
    containers, the authentication indicators and the CAMMAC container that
    protects them, and the placing of a PAC. *)

From S2P Require Import Prelude StateErr Etype Primitives Ops Prf Name EncList Kdc Lockout Pac Transit Messages Exchange.

(** A registered authorization-data module: from the request kind, the data so
    far, the reply session key and the issuer, the data after it (an error is
    logged and what was added stays).  The first argument numbers the call. *)
Definition KdcAuthdata : Type :=
  nat -> bool -> AuthorizationData -> option Key.ProtocolKey -> option (PrincipalName * bytes) -> AuthorizationData.

Class AuthdataModules := authdata_modules : list KdcAuthdata.

(** [HandlePac] and the variants of [TicketPac]. *)
Record HandlePac := mkHandlePac {
  hp_subject : option bytes;
  hp_s4u : bool;
  hp_issuing_referral : bool;
  hp_delegation : option (PrincipalName * Name.ustr);
  hp_altcprinc : option (PrincipalName * bytes);
}.

Inductive TicketPac :=
| PacMit (req : HandlePac)
| PacAd (logon_override subject_pac : option bytes) (s4u_client_info : option Name.ustr)
    (identity : option (PrincipalName * bytes)).

Record PacTicket := mkPacTicket {
  pt_server : Key.ProtocolKey;
  pt_kdc : Key.ProtocolKey;
  enc_tkt_der : bytes;
  is_service_tkt : bool;
}.

Section AuthData.
Context `{KdcStore} `{Codecs} {Prim : Primitives}.

(** ** What a client may ask for *)

Definition is_kdc_issued_type (t : Z) : bool :=
  bool_decide (t ∈ [pa.AD_SIGNTICKET; pa.AD_KDC_ISSUED; pa.AD_WIN2K_PAC; pa.AD_CAMMAC; pa.AD_AUTH_INDICATOR]).

Definition is_kdc_issued_authdatum (ad : AuthorizationDataValue) : bool :=
  if ad_type ad =? pa.AD_IF_RELEVANT then
    match decode (A := AuthorizationData) (ad_data ad) with
    | Ok inner => existsb (fun e => is_kdc_issued_type (ad_type e)) inner
    | Err _ => false
    end
  else is_kdc_issued_type (ad_type ad).

Definition has_mandatory_for_kdc (ad : AuthorizationData) : bool :=
  existsb (fun e => ad_type e =? pa.AD_MANDATORY_FOR_KDC) ad.

Definition add_filtered_authdata (dst src : AuthorizationData) : AuthorizationData :=
  dst ++ List.filter (fun e => negb (is_kdc_issued_authdatum e)) src.

Definition map_ad_fail (e : KdcError) : KdcError :=
  if is_des_key_error e then e
  else if is_crypto e then proto err.BAD_INTEGRITY "HANDLE_AUTHDATA"
  else match e with
       | Protocol _ _ _ => with_status "HANDLE_AUTHDATA" e
       | _ => proto err.GENERIC "HANDLE_AUTHDATA"
       end.

(** [authdata_failed], without its log line. *)
Definition authdata_failed (e : KdcError) : KdcError :=
  if is_des_key_error e then proto err.GENERIC "HANDLE_AUTHDATA" else e.

Definition copy_request_authdata (enc : EncryptedData) (session client_key : Key.ProtocolKey)
    (dest : AuthorizationData) : result KdcError AuthorizationData :=
  let? plain :=
    map_err CryptoErr
      (match Ops.decrypt_enc_data session ku.TGS_REQ_AD_SESSKEY (ed_etype enc) (cipher enc) with
       | Ok p => Ok p
       | Err _ => Ops.decrypt_enc_data client_key ku.TGS_REQ_AD_SUBKEY (ed_etype enc) (cipher enc)
       end) in
  let? ad := decoded plain in
  if has_mandatory_for_kdc ad then Err (proto err.POLICY "HANDLE_AUTHDATA")
  else Ok (add_filtered_authdata dest ad).

Definition copy_tgt_authdata (tgt_ad dest : AuthorizationData) : result KdcError AuthorizationData :=
  if has_mandatory_for_kdc tgt_ad then Err (proto err.POLICY "HANDLE_AUTHDATA")
  else Ok (add_filtered_authdata dest tgt_ad).

(** The loop over the modules. *)
Fixpoint run_authdata (ms : list KdcAuthdata) (is_tgs : bool) (reply_session : option Key.ProtocolKey)
    (issuer : option (PrincipalName * bytes)) (out : AuthorizationData) : M AuthorizationData :=
  match ms with
  | [] => ret out
  | m :: ms => fun s => run_authdata ms is_tgs reply_session issuer (m (ticks s) is_tgs out reply_session issuer) (step 1 s)
  end.

Definition handle_authdata `{AuthdataModules} (is_tgs anonymous : bool) (body_enc_ad : option EncryptedData)
    (session client_key : option Key.ProtocolKey) (tgt_ad : option AuthorizationData)
    (reply_session : option Key.ProtocolKey) (issuer : option (PrincipalName * bytes))
    : M (option AuthorizationData) :=
  let! out :=
    match is_tgs, body_enc_ad with
    | true, Some enc =>
        let! session := lift (ok_or session (proto err.GENERIC "HANDLE_AUTHDATA")) in
        let! client_key := lift (ok_or client_key (proto err.GENERIC "HANDLE_AUTHDATA")) in
        on_err map_ad_fail (lift (copy_request_authdata enc session client_key []))
    | _, _ => ret []
    end in
  let! out := (if anonymous then ret out else run_authdata authdata_modules is_tgs reply_session issuer out) in
  let! out := match is_tgs, tgt_ad with
              | true, Some tgt => lift (copy_tgt_authdata tgt out)
              | _, _ => ret out
              end in
  ret (match out with [] => None | _ => Some out end).

(** ** Indicators *)

Definition REQUIRE_AUTH : Name.ustr := EncList.lit "require_auth".

Definition authind_add (indicators : list Name.ustr) (ind : Name.ustr) : list Name.ustr :=
  if bool_decide (ind ∈ indicators) then indicators else indicators ++ [ind].

Definition SPACE : Z := 0x20.

Definition check_indicators (server : Principal) (indicators : list Name.ustr) : result KdcError unit :=
  match List.find (fun '(k, _) => bool_decide (k = REQUIRE_AUTH)) (string_attrs server) with
  | None => Ok tt
  | Some (_, req) =>
      if existsb (fun tok => negb (bool_decide (tok = [])) && bool_decide (tok ∈ indicators)) (Name.split SPACE req)
      then Ok tt
      else Err (proto err.POLICY "HIGHER_AUTHENTICATION_REQUIRED")
  end.

(** ** The search *)

Definition MAX_FOUND : nat := 256.

(** [find_authdata_1]; [None] is a search out of fuel.  The error is the code. *)
Fixpoint find_authdata_1 (fuel : nat) (want : Z) (from_ap_req : bool) (in_ad : AuthorizationData)
    (out : AuthorizationData) : option (result Z AuthorizationData) :=
  match fuel with
  | O => None
  | S n =>
      (fix loop (l : AuthorizationData) (out : AuthorizationData) :=
         match l with
         | [] => Some (Ok out)
         | ad :: l =>
             if ad_type ad =? pa.AD_IF_RELEVANT then
               match decode (A := AuthorizationData) (ad_data ad) with
               | Err _ => Some (Err err.GENERIC)
               | Ok inner =>
                   match find_authdata_1 n want from_ap_req inner out with
                   | Some (Ok out) => loop l out
                   | r => r
                   end
               end
             else if from_ap_req && is_kdc_issued_type (ad_type ad) then loop l out
             else if ad_type ad =? want then
               if (length out =? MAX_FOUND)%nat then Some (Err err.GENERIC) else loop l (out ++ [ad])
             else loop l out
         end) in_ad out
  end.

(** More than any nesting of the data needs: a container is shorter than the data
    it is in. *)
Definition ad_fuel (ad : AuthorizationData) : nat := S (list_max (map (fun a => length (ad_data a)) ad)).

Definition find_authdata (ticket_ad ap_req_ad : option AuthorizationData) (want : Z)
    : option (result Z AuthorizationData) :=
  match (match ticket_ad with Some ad => find_authdata_1 (ad_fuel ad) want false ad [] | None => Some (Ok []) end) with
  | Some (Ok out) =>
      match ap_req_ad with Some ad => find_authdata_1 (ad_fuel ad) want true ad out | None => Some (Ok out) end
  | r => r
  end.

(** The search as the callers see it. *)
Definition find_ad (ticket_ad ap_req_ad : option AuthorizationData) (want : Z) : result Z AuthorizationData :=
  match find_authdata ticket_ad ap_req_ad want with Some r => r | None => Err err.GENERIC end.

(** ** CAMMAC *)

Definition wrap_if_relevant (inner : AuthorizationData) : result KdcError AuthorizationData :=
  let? wrapped := encode inner in
  Ok [mkAd pa.AD_IF_RELEVANT wrapped].

Definition cammac_checksum (key : Key.ProtocolKey) (message : bytes) : result KdcError Checksum :=
  let? mac := map_err CryptoErr (Ops.checksum key ku.CAMMAC message) in
  Ok (mkCksum (EType.checksum_type (Key.etype key)) mac).

Definition set_authdata (ad : option AuthorizationData) (p : EncTicketPart) : EncTicketPart :=
  mkTktPart (tp_flags p) (tp_key p) (tp_crealm p) (tp_cname p) (tp_transited p) (tp_authtime p)
    (tp_starttime p) (tp_endtime p) (tp_renew_till p) (tp_caddr p) ad.

Definition encode_kdcver_encpart (enc_tkt : EncTicketPart) (contents : AuthorizationData)
    : result KdcError bytes :=
  encode (set_authdata (Some contents) enc_tkt).

Definition tgt_kvno (tgt : Principal) : Z :=
  match principal_current_key tgt with Some k => kvno k | None => 0 end.

Definition cammac_create (enc_tkt : EncTicketPart) (server_key : Key.ProtocolKey) (tgt : Principal)
    (tgt_key : Key.ProtocolKey) (contents : AuthorizationData) : result KdcError AuthorizationData :=
  let? der_enctkt := encode_kdcver_encpart enc_tkt contents in
  let? kdc_cksum := cammac_checksum tgt_key der_enctkt in
  let v := tgt_kvno tgt in
  let kdc_ver := mkVerifier None (if v =? 0 then None else Some v) None kdc_cksum in
  let? der_authdata := encode contents in
  let? svc_cksum := cammac_checksum server_key der_authdata in
  let svc_ver := mkVerifier None None None svc_cksum in
  let? der := encode (mkCammac contents (Some kdc_ver) (Some svc_ver) None) in
  wrap_if_relevant [mkAd pa.AD_CAMMAC der].

Definition cammac_check_kdcver (c : Cammac) (enc_tkt : EncTicketPart) (tgt : Principal)
    (tgt_key : Key.ProtocolKey) : bool :=
  match kdc_verifier c with
  | None => false
  | Some ver =>
      let want_kvno := default 0 (ver_kvno ver) in
      match (if (want_kvno =? 0) || (want_kvno =? tgt_kvno tgt) then Some (tgt_key, None)
             else match Keys.find_enctype policy tgt None want_kvno with
                  | Ok k => Some (key k, Some (EType.to_iana (ke_etype k)))
                  | Err _ => None
                  end) with
      | None => false
      | Some (k, hist_etype) =>
          let ver_enctype := default 0 (Messages.ver_enctype ver) in
          if negb (ver_enctype =? 0) && negb (default 0 hist_etype =? ver_enctype) then false
          else match encode_kdcver_encpart enc_tkt (cammac_elements c) with
               | Err _ => false
               | Ok der =>
                   is_ok (Ops.verify_checksum_keyed k ku.CAMMAC der (cksumtype (ver_mac ver)) (checksum (ver_mac ver)))
               end
      end
  end.

(** [indicators.extend(strings)] for each element that decodes. *)
Definition authind_extract (authdata : AuthorizationData) (indicators : list Name.ustr)
    : result KdcError (list Name.ustr) :=
  let? found := map_err (fun code => proto code "GET_AUTH_INDICATORS")
                  (find_ad (Some authdata) None pa.AD_AUTH_INDICATOR) in
  Ok (fold_left (fun inds el => match decode (A := list Name.ustr) (ad_data el) with
                                | Ok strings => inds ++ strings
                                | Err _ => inds
                                end) found indicators).

Fixpoint extract_cammacs (cs : AuthorizationData) (enc_tkt : EncTicketPart) (tgt : Principal)
    (tgt_key : Key.ProtocolKey) (indicators : list Name.ustr) : result KdcError (list Name.ustr) :=
  match cs with
  | [] => Ok indicators
  | el :: cs =>
      match decode (A := Cammac) (ad_data el) with
      | Err _ => Err (proto err.GENERIC "GET_AUTH_INDICATORS")
      | Ok c =>
          let? indicators :=
            (if cammac_check_kdcver c enc_tkt tgt tgt_key
             then map_err (with_status "GET_AUTH_INDICATORS") (authind_extract (cammac_elements c) indicators)
             else Ok indicators) in
          extract_cammacs cs enc_tkt tgt tgt_key indicators
      end
  end.

Definition get_auth_indicators (enc_tkt : EncTicketPart) (local_tgt : Principal)
    (local_tgt_key : Key.ProtocolKey) : result KdcError (list Name.ustr) :=
  match tp_authorization_data enc_tkt with
  | None => Ok []
  | Some ad =>
      let? cammacs := map_err (fun code => proto code "GET_AUTH_INDICATORS") (find_ad (Some ad) None pa.AD_CAMMAC) in
      extract_cammacs cammacs enc_tkt local_tgt local_tgt_key []
  end.

Definition add_auth_indicators (extra : AuthorizationData) (indicators : list Name.ustr)
    (server_key : Key.ProtocolKey) (krbtgt : Principal) (krbtgt_key : Key.ProtocolKey)
    (enc_tkt : EncTicketPart) : result KdcError AuthorizationData :=
  match indicators with
  | [] => Ok extra
  | _ =>
      let? der := encode indicators in
      let? wrapped := cammac_create enc_tkt server_key krbtgt krbtgt_key [mkAd pa.AD_AUTH_INDICATOR der] in
      Ok (extra ++ wrapped)
  end.

(** ** Placing a PAC *)

Definition wrap_win2k_pac (pac_bytes : bytes) : result KdcError AuthorizationData :=
  let? wrapped := encode [mkAd pa.AD_WIN2K_PAC pac_bytes] in
  Ok [mkAd pa.AD_IF_RELEVANT wrapped].

Definition should_have_ticket_signature (sname : PrincipalName) : bool :=
  let changepw := bool_decide (PrincipalName.name_string sname = [Store.lit_bytes "kadmin"; Store.lit_bytes "changepw"]) in
  negb (PrincipalName.is_krbtgt sname || changepw).

Definition pac_has_ad_data (subject_pac : option bytes) (initial : bool) : bool :=
  if initial then ad_identity settings
  else match subject_pac with
       | Some raw => match Pac.parse raw with
                     | Ok pac => is_some (Pac.buffer pac PAC_LOGON_INFO)
                     | Err _ => false
                     end
       | None => false
       end.

Definition pac_privsvr_key (server : Principal) (tgt_key : Key.ProtocolKey) : result KdcError Key.ProtocolKey :=
  match List.find (fun '(k, _) => bool_decide (k = EncList.lit "pac_privsvr_enctype")) (string_attrs server) with
  | None => Ok tgt_key
  | Some (_, val) =>
      match EncList.from_mit_name val with
      | Err _ => Err (proto err.GENERIC "HEADER_PAC")
      | Ok et =>
          if bool_decide (Key.etype tgt_key = et) then Ok tgt_key
          else map_err (fun _ => proto err.GENERIC "HEADER_PAC")
                 (Prf.derive_prfplus_enctype tgt_key (Store.lit_bytes "pac_privsvr") et)
      end
  end.

(** ** The fuel of the searches *)

Lemma ad_fuel_enough (ad : AuthorizationData) : Forall (fun a => (length (ad_data a) < ad_fuel ad)%nat) ad.
Proof.
  apply list.Forall_forall. intros a Ha. unfold ad_fuel.
  pose proof (proj1 (list_max_le (map (fun a => length (ad_data a)) ad) _) (le_n _)) as Hm.
  rewrite List.Forall_forall in Hm. specialize (Hm (length (ad_data a))). rewrite in_map_iff in Hm.
  enough (length (ad_data a) <= list_max (map (fun a => length (ad_data a)) ad))%nat by lia.
  apply Hm. exists a. split; [done|by apply list_elem_of_In].
Qed.

Lemma find_authdata_1_total `{!ContainerLaws} fuel want ap (ad out : AuthorizationData) :
  Forall (fun a => (length (ad_data a) < fuel)%nat) ad -> (0 < fuel)%nat -> exists r, find_authdata_1 fuel want ap ad out = Some r.
Proof.
  revert ad out. induction fuel as [|n IH]; intros ad out Hs Hf; [lia|]. clear Hf. cbn [find_authdata_1].
  revert out. induction Hs as [|a ad Ha _ IHl]; intros out; [by eexists|].
  destruct (ad_type a =? pa.AD_IF_RELEVANT).
  - destruct (decode (ad_data a)) as [inner|e] eqn:Ed; [|by eexists]. apply inner_shorter in Ed.
    destruct Ed as [Hne Ed]. assert (0 < length (ad_data a))%nat as Hlen by (by destruct (ad_data a); [|cbn; lia]).
    destruct (IH inner out) as [[out'|e] Hr]; [|lia|rewrite Hr; apply IHl|rewrite Hr; by eexists].
    eapply List.Forall_impl; [|exact Ed]. cbn. lia.
  - destruct (ap && _); [apply IHl|]. destruct (_ =? want); [|apply IHl]. destruct (_ =? _)%nat; [by eexists|apply IHl].
Qed.

(** The search ends: [find_authdata] has fuel enough for any data. *)
Lemma find_authdata_total `{!ContainerLaws} ticket_ad ap_req_ad want : exists r, find_authdata ticket_ad ap_req_ad want = Some r.
Proof.
  assert (forall (ad out : AuthorizationData) ap, exists r, find_authdata_1 (ad_fuel ad) want ap ad out = Some r) as Hs.
  { intros ad out ap. apply find_authdata_1_total; [apply ad_fuel_enough|unfold ad_fuel; lia]. }
  unfold find_authdata. destruct ticket_ad as [ad|].
  - destruct (Hs ad [] false) as [[out|e] ->]; [|by eexists]. destruct ap_req_ad; [apply Hs|by eexists].
  - destruct ap_req_ad; [apply Hs|by eexists].
Qed.

End AuthData.
