(* ===== verification/PacSign.v ===== *)
(** * Signing and verifying PACs

    Models the PAC functions of [krb5-kdc/src/ad.rs]: the PAC of a new ticket and
    its signatures, the verification of the PAC of a presented one, and what the
    TGS exchange reads from a PAC: the client and the delegation record.

    The logon information of a domain, an NDR structure, with the identity it is
    made from is the class [LogonCode]: the theorems hold for every behaviour of
    it. *)

From S2P Require Import Prelude StateErr Utf8 Etype Primitives Ops Prf Name EncList Time Kdc Lockout PMap Pac Transit Store Messages Exchange AuthData.

(** [store.pac_identity], the identity in a logon-information buffer
    ([parse_kerb_validation_info], with the realm of the ticket's client), the
    buffers made from an identity, and the filter on foreign logon information. *)
Class LogonCode := {
  PacIdentity : Type;
  pac_identity : PrincipalName -> bytes -> PacIdentity;
  logon_identity : bytes -> bytes -> option PacIdentity;
  logon_info_of : PacIdentity -> bytes;
  upn_dns_of : PacIdentity -> bytes;
  requester_sid_of : PacIdentity -> bytes;
  filter_cross_realm_logon : bytes -> result KdcError bytes;
}.

Definition KERB_NON_KERB_CKSUM_SALT : Z := 17.

Definition HEADER_PAC (code : Z) : KdcError := proto code "HEADER_PAC".

(** [PrincipalName::unparse_no_realm] and [unparse_with_realm]. *)
Definition component_strings (n : PrincipalName) : list Name.ustr := map Utf8.lossy_chars_of (PrincipalName.name_string n).
Definition unparse_no_realm (n : PrincipalName) : Name.ustr := Name.unparse_components_no_realm (component_strings n).
Definition unparse_chars (n : PrincipalName) (realm : Name.ustr) : Name.ustr := Name.unparse_name (component_strings n) realm.

Definition is_pac_signature (kind : Z) : bool :=
  bool_decide (kind ∈ [PAC_SERVER_CHECKSUM; PAC_PRIVSVR_CHECKSUM; PAC_TICKET_CHECKSUM; PAC_FULL_CHECKSUM]).

Definition set_data (d : bytes) (b : Pac.PacBuffer) : Pac.PacBuffer := Pac.mkBuffer (Pac.kind b) d (Pac.offset b).

Definition set_sig (p : Pac.Pac) (kind cksumtype : Z) (mac : bytes) : Pac.Pac :=
  Pac.mkPac (Pac.version p)
    (map (fun b => if Pac.kind b =? kind then set_data (Pac.signature_buffer cksumtype mac) b else b) (Pac.buffers p))
    (Pac.raw p).

(** [match buffers.iter_mut().find(..) { Some(b) => b.data = d, None => missing }]. *)
Fixpoint replace_first (kind : Z) (d : bytes) (bs : list Pac.PacBuffer) : option (list Pac.PacBuffer) :=
  match bs with
  | [] => None
  | b :: bs => if Pac.kind b =? kind then Some (set_data d b :: bs) else cons b <$> replace_first kind d bs
  end.

Definition attributes_info_buffer : bytes := to_le_bytes 4 2 ++ to_le_bytes 4 1.

Definition map_pac_err (e : Pac.PacError) : KdcError :=
  match e with Pac.Integrity => HEADER_PAC err.MODIFIED | _ => HEADER_PAC err.GENERIC end.

Definition handle_authdata_error : KdcError := proto err.GENERIC "HANDLE_AUTHDATA".

Section PacSign.
Context `{KdcStore} `{Codecs} `{LogonCode} {Prim : Primitives} {Laws : PrimitiveLaws}.

Definition pac_checksum (k : Key.ProtocolKey) (d : bytes) : result KdcError bytes :=
  map_err CryptoErr (Ops.checksum k KERB_NON_KERB_CKSUM_SALT d).

Definition sig_type (k : Key.ProtocolKey) : Z := EType.checksum_type (Key.etype k).

(** ** Signing *)

(** The buffers of an AD-shaped PAC, before its signatures. *)
Definition ad_buffers (cname : PrincipalName) (authtime : Z) (identity : PacIdentity) (logon_override : option bytes)
    (subject_pac : option bytes) (s4u_client_info : option Name.ustr) : result KdcError (list Pac.PacBuffer) :=
  match subject_pac with
  | Some raw =>
      let? parsed := map_err map_pac_err (Pac.parse raw) in
      let bs := map (fun b => Pac.new_buffer (Pac.kind b) (Pac.data b))
                  (List.filter (fun b => negb (is_pac_signature (Pac.kind b))) (Pac.buffers parsed)) in
      let bs := match logon_override with
                | Some logon => default (Pac.new_buffer PAC_LOGON_INFO logon :: bs) (replace_first PAC_LOGON_INFO logon bs)
                | None => bs
                end in
      Ok (match s4u_client_info with
          | Some name => let info := Pac.client_info_buffer authtime name in
                         default (bs ++ [Pac.new_buffer PAC_CLIENT_INFO info]) (replace_first PAC_CLIENT_INFO info bs)
          | None => bs
          end)
  | None =>
      Ok [Pac.new_buffer PAC_LOGON_INFO (default (logon_info_of identity) logon_override);
          Pac.new_buffer PAC_CLIENT_INFO
            (Pac.client_info_buffer authtime (default (components_joined cname) s4u_client_info));
          Pac.new_buffer PAC_UPN_DNS_INFO (upn_dns_of identity);
          Pac.new_buffer PAC_ATTRIBUTES_INFO attributes_info_buffer;
          Pac.new_buffer PAC_REQUESTER_SID (requester_sid_of identity)]
  end.

Definition zeros_for (k : Key.ProtocolKey) : bytes := replicate (EType.hmac_output_len (Key.etype k)) x00.

(** The PAC as [sign_reply_pac_inner] first builds it, with blank signatures. *)
Definition ad_unsigned (cname : PrincipalName) (authtime : Z) (ticket : PacTicket) (identity : PacIdentity)
    (logon_override subject_pac : option bytes) (s4u_client_info : option Name.ustr) : result KdcError Pac.Pac :=
  let server := pt_server ticket in
  let kdc := pt_kdc ticket in
  let? bs := ad_buffers cname authtime identity logon_override subject_pac s4u_client_info in
  let kdc_sig := Pac.signature_buffer (sig_type kdc) (zeros_for kdc) in
  Ok (Pac.built 0 (bs
    ++ (if is_service_tkt ticket then [Pac.new_buffer PAC_TICKET_CHECKSUM kdc_sig; Pac.new_buffer PAC_FULL_CHECKSUM kdc_sig]
        else [])
    ++ [Pac.new_buffer PAC_SERVER_CHECKSUM (Pac.signature_buffer (sig_type server) (zeros_for server));
        Pac.new_buffer PAC_PRIVSVR_CHECKSUM kdc_sig])).

Definition sign_reply_pac_inner (cname : PrincipalName) (authtime : Z) (ticket : PacTicket) (identity : PacIdentity)
    (logon_override subject_pac : option bytes) (s4u_client_info : option Name.ustr) : result KdcError bytes :=
  let server := pt_server ticket in
  let kdc := pt_kdc ticket in
  let? pac := ad_unsigned cname authtime ticket identity logon_override subject_pac s4u_client_info in
  let? pac :=
    (if is_service_tkt ticket then
       let? ticket_mac := pac_checksum kdc (enc_tkt_der ticket) in
       let pac := set_sig pac PAC_TICKET_CHECKSUM (sig_type kdc) ticket_mac in
       let? full_mac := pac_checksum kdc (Pac.bytes_for_full_checksum pac) in
       Ok (set_sig pac PAC_FULL_CHECKSUM (sig_type kdc) full_mac)
     else Ok pac) in
  let? server_mac := pac_checksum server (Pac.bytes_for_checksum pac) in
  let pac := set_sig pac PAC_SERVER_CHECKSUM (sig_type server) server_mac in
  let? server_buf := map_err map_pac_err (Pac.server_checksum pac) in
  match server_buf with
  | None => Err (HEADER_PAC err.GENERIC)
  | Some server_buf =>
      if (length server_buf <? 4)%nat then Err (HEADER_PAC err.GENERIC)
      else
        let? kdc_mac := pac_checksum kdc (drop 4 server_buf) in
        Ok (Pac.to_bytes (set_sig pac PAC_PRIVSVR_CHECKSUM (sig_type kdc) kdc_mac))
  end.

Definition zeroed_signature (cksumtype : Z) : result KdcError bytes :=
  match Ops.checksum_output_size cksumtype with
  | Some len => Ok (Pac.signature_buffer cksumtype (replicate len x00))
  | None => Err (Crypto EmptyString)
  end.

Definition client_info_name (n : PrincipalName) (realm : option bytes) : Name.ustr :=
  match realm with
  | None => unparse_no_realm n
  | Some r => if PrincipalName.name_type n =? PrincipalName.NT_ENTERPRISE
              then components_joined n ++ [Name.AT] ++ realm_chars r
              else unparse_chars n (realm_chars r)
  end.

Definition delegation_info_for (subject : option Pac.Pac) (proxy_target : PrincipalName) (transited : Name.ustr)
    : result KdcError bytes :=
  let? found := match subject with
                | Some s => map_err (fun _ => handle_authdata_error) (Pac.unique_buffer s PAC_DELEGATION_INFO)
                | None => Ok None
                end in
  let? di := match found with
             | Some b => map_err (fun _ => handle_authdata_error) (Pac.parse_delegation_info b)
             | None => Ok (Pac.mkDelegation [] [])
             end in
  Ok (Pac.delegation_info_buffer (Pac.mkDelegation (components_joined proxy_target)
                                    (Pac.transited_services di ++ [transited]))).

(** The delegation record and the client information of a MIT-shaped PAC: the
    buffers in front of the ticket checksum, and the name for the one after it. *)
Definition mit_buffers (req : HandlePac) (client : PrincipalName)
    : result KdcError (list Pac.PacBuffer * option Name.ustr) :=
  let? subject := match hp_subject req with
                  | Some raw => match Pac.parse raw with Ok p => Ok (Some p) | Err _ => Err handle_authdata_error end
                  | None => Ok None
                  end in
  let? bs :=
    match hp_delegation req with
    | Some (target, transited) =>
        let? di := delegation_info_for subject target transited in
        Ok [Pac.new_buffer PAC_DELEGATION_INFO di]
    | None =>
        match subject with
        | Some s => let? di := map_err (fun _ => handle_authdata_error) (Pac.unique_buffer s PAC_DELEGATION_INFO) in
                    Ok (match di with Some di => [Pac.new_buffer PAC_DELEGATION_INFO di] | None => [] end)
        | None => Ok []
        end
    end in
  if hp_s4u req && hp_issuing_referral req then
    match hp_altcprinc req with
    | Some (n, r) => Ok (bs, Some (client_info_name n (Some r)))
    | None => Err handle_authdata_error
    end
  else
    match subject, hp_s4u req with
    | None, _ | _, true => Ok (bs, Some (client_info_name client None))
    | Some s, false =>
        match Pac.unique_buffer s PAC_CLIENT_INFO with
        | Ok (Some info) => Ok (bs ++ [Pac.new_buffer PAC_CLIENT_INFO info], None)
        | _ => Err handle_authdata_error
        end
    end.

(** The PAC as [mit_ticket_pac] first builds it, with blank signatures but for
    the ticket's. *)
Definition mit_unsigned (req : HandlePac) (client : PrincipalName) (authtime : Z) (ticket : PacTicket)
    : result KdcError Pac.Pac :=
  let kdc := pt_kdc ticket in
  let? (bs, client_name) := mit_buffers req client in
  let? bs := (if is_service_tkt ticket then
                let? mac := pac_checksum kdc (enc_tkt_der ticket) in
                Ok (bs ++ [Pac.new_buffer PAC_TICKET_CHECKSUM (Pac.signature_buffer (sig_type kdc) mac)])
              else Ok bs) in
  let bs := match client_name with
            | Some n => bs ++ [Pac.new_buffer PAC_CLIENT_INFO (Pac.client_info_buffer authtime n)]
            | None => bs
            end in
  let? server_zeros := zeroed_signature (sig_type (pt_server ticket)) in
  let? kdc_zeros := zeroed_signature (sig_type kdc) in
  Ok (Pac.built 0 (bs ++ [Pac.new_buffer PAC_SERVER_CHECKSUM server_zeros; Pac.new_buffer PAC_PRIVSVR_CHECKSUM kdc_zeros]
            ++ (if is_service_tkt ticket then [Pac.new_buffer PAC_FULL_CHECKSUM kdc_zeros] else []))).

Definition mit_ticket_pac (req : HandlePac) (client : PrincipalName) (authtime : Z) (ticket : PacTicket)
    : result KdcError bytes :=
  let server := pt_server ticket in
  let kdc := pt_kdc ticket in
  let? pac := mit_unsigned req client authtime ticket in
  let? pac := (if is_service_tkt ticket then
                 let? full_mac := pac_checksum kdc (Pac.to_bytes pac) in
                 Ok (set_sig pac PAC_FULL_CHECKSUM (sig_type kdc) full_mac)
               else Ok pac) in
  let? server_mac := pac_checksum server (Pac.to_bytes pac) in
  let pac := set_sig pac PAC_SERVER_CHECKSUM (sig_type server) server_mac in
  let? kdc_mac := pac_checksum kdc server_mac in
  Ok (Pac.to_bytes (set_sig pac PAC_PRIVSVR_CHECKSUM (sig_type kdc) kdc_mac)).

(** The PAC of [mint_ticket]. *)
Definition ticket_pac (pac : TicketPac) (cname : PrincipalName) (crealm : bytes) (authtime : Z) (ticket : PacTicket)
    : result KdcError bytes :=
  match pac with
  | PacMit req => map_err authdata_failed (mit_ticket_pac req cname authtime ticket)
  | PacAd logon_override subject_pac s4u_client_info identity =>
      let? ident :=
        match logon_override with
        | Some b => ok_or (logon_identity b crealm) (proto err.BAD_INTEGRITY "HANDLE_AUTHDATA")
        | None => Ok (match identity with Some (n, r) => pac_identity n r | None => pac_identity cname crealm end)
        end in
      map_err authdata_failed
        (sign_reply_pac_inner cname authtime ticket ident logon_override subject_pac s4u_client_info)
  end.

(** ** Verifying *)

(** The checksum in a signature buffer; the source returns the octets compared. *)
Definition verify_pac_sig (k : Key.ProtocolKey) (d : bytes) (buf : option bytes) (buffer_type : Z)
    : result KdcError bytes :=
  match buf with
  | None => Err (HEADER_PAC err.GENERIC)
  | Some buf =>
      if (length buf <? 4)%nat then Err (HEADER_PAC err.GENERIC)
      else
        let cksumtype := cast_signed 32 (from_le_bytes (take 4 buf)) in
        if (buffer_type =? PAC_SERVER_CHECKSUM) && (cksumtype =? 14) then Err (HEADER_PAC err.SUMTYPE_NOSUPP)
        else if negb (cksumtype_is_keyed cksumtype) then Err (HEADER_PAC err.GENERIC)
        else
          match Ops.checksum_output_size cksumtype with
          | None => Err (HEADER_PAC err.GENERIC)
          | Some want =>
              if (length buf - 4 <? want)%nat then Err (HEADER_PAC err.GENERIC)
              else
                let mac := slice buf 4 (4 + want) in
                match Ops.verify_checksum_type k KERB_NON_KERB_CKSUM_SALT d cksumtype mac with
                | Ok _ => Ok mac
                | Err Integrity => Err (HEADER_PAC err.MODIFIED)
                | Err (UnsupportedChecksum _) => Err (HEADER_PAC err.ETYPE_NOSUPP)
                | Err _ => Err (HEADER_PAC err.GENERIC)
                end
          end
  end.

Definition verified (r : result KdcError bytes) : result KdcError unit := match r with Ok _ => Ok tt | Err e => Err e end.

(** The result of the server checksum is the result of the function only without a
    KDC key: with one it is overwritten. *)
Definition verify_pac_checksums (pac : Pac.Pac) (server : Key.ProtocolKey) (kdc : option Key.ProtocolKey)
    (expect_full : bool) : result KdcError unit :=
  let? copy := map_err map_pac_err (Pac.received_zeroed pac [PAC_SERVER_CHECKSUM; PAC_PRIVSVR_CHECKSUM]) in
  let? server_sig := map_err map_pac_err (Pac.server_checksum pac) in
  let last := verified (verify_pac_sig server copy server_sig PAC_SERVER_CHECKSUM) in
  match kdc with
  | None => last
  | Some kdc =>
      let? _ :=
        (if expect_full then
           let? copy := map_err map_pac_err
             (Pac.received_zeroed pac [PAC_SERVER_CHECKSUM; PAC_PRIVSVR_CHECKSUM; PAC_FULL_CHECKSUM]) in
           let? full_sig := map_err map_pac_err (Pac.full_checksum pac) in
           verified (verify_pac_sig kdc copy full_sig PAC_FULL_CHECKSUM)
         else Ok tt) in
      let? server_buf := map_err map_pac_err (Pac.server_checksum pac) in
      match server_buf with
      | None => Err (HEADER_PAC err.GENERIC)
      | Some server_buf =>
          if (length server_buf <? 4)%nat then Err (HEADER_PAC err.GENERIC)
          else
            let? kdc_sig := map_err map_pac_err (Pac.kdc_checksum pac) in
            verified (verify_pac_sig kdc (drop 4 server_buf) kdc_sig PAC_PRIVSVR_CHECKSUM)
      end
  end.

Definition verify_pac_signatures (pac_bytes : bytes) (server : Key.ProtocolKey) (kdc : option Key.ProtocolKey)
    (enc_tkt_der : option bytes) (is_service_tkt : bool) : result KdcError unit :=
  let? pac := map_err (fun _ => HEADER_PAC err.BAD_INTEGRITY) (Pac.parse pac_bytes) in
  let? _ := match kdc, enc_tkt_der, is_service_tkt with
            | Some kdc, Some der, true =>
                let? buf := map_err map_pac_err (Pac.ticket_checksum pac) in
                verified (verify_pac_sig kdc der buf PAC_TICKET_CHECKSUM)
            | _, _, _ => Ok tt
            end in
  verify_pac_checksums pac server kdc is_service_tkt.

(** ** What is signed verifies *)

Lemma of_kind_set_sig p k t mac j :
  Pac.of_kind (set_sig p k t mac) j =
  if j =? k then map (set_data (Pac.signature_buffer t mac)) (Pac.of_kind p k) else Pac.of_kind p j.
Proof.
  unfold Pac.of_kind, set_sig. cbn [Pac.buffers].
  induction (Pac.buffers p) as [|b bs IH]; [cbn; by destruct (j =? k)|].
  cbn [map List.filter]. destruct (Z.eqb_spec (Pac.kind b) k) as [Ek|Ek]; cbn [Pac.kind set_data].
  - rewrite Ek, IH. rewrite (Z.eqb_sym k j). by destruct (Z.eqb_spec j k).
  - destruct (Z.eqb_spec (Pac.kind b) j) as [Ej|Ej]; rewrite IH; [|done].
    by destruct (Z.eqb_spec j k); [congruence|].
Qed.

Lemma unique_set_sig p k t mac d :
  Pac.unique_buffer p k = Ok (Some d) -> Pac.unique_buffer (set_sig p k t mac) k = Ok (Some (Pac.signature_buffer t mac)).
Proof.
  unfold Pac.unique_buffer. rewrite of_kind_set_sig, Z.eqb_refl.
  by destruct (Pac.of_kind p k) as [|b [|]].
Qed.

Lemma unique_set_sig_other p k t mac j : j <> k -> Pac.unique_buffer (set_sig p k t mac) j = Pac.unique_buffer p j.
Proof. intros Hj. unfold Pac.unique_buffer. by rewrite of_kind_set_sig, (proj2 (Z.eqb_neq _ _)). Qed.

(** The one buffer of a kind. *)
Lemma unique_is p k d b : Pac.unique_buffer p k = Ok (Some d) -> b ∈ Pac.buffers p -> Pac.kind b = k -> Pac.data b = d.
Proof.
  intros Hu Hb Hk. assert (b ∈ Pac.of_kind p k) as Hin.
  { apply list_elem_of_In, filter_In. split; [by apply list_elem_of_In|by apply Z.eqb_eq]. }
  unfold Pac.unique_buffer in Hu. destruct (Pac.of_kind p k) as [|c [|]]; [done| |done].
  apply list_elem_of_singleton in Hin as ->. by injection Hu.
Qed.

(** Replacing the checksum of a signature by one of the same size. *)
Definition resigned (p : Pac.Pac) (k t : Z) (mac : bytes) : Prop :=
  exists old, Pac.unique_buffer p k = Ok (Some (Pac.signature_buffer t old)) /\ length old = length mac.

Lemma take_type t mac : take 4 (Pac.signature_buffer t mac) = to_le_bytes 4 t.
Proof. unfold Pac.signature_buffer. apply take_app_length'. by rewrite length_to_le_bytes. Qed.

Lemma drop_type t mac : drop 4 (Pac.signature_buffer t mac) = mac.
Proof. unfold Pac.signature_buffer. apply drop_app_length'. by rewrite length_to_le_bytes. Qed.

Lemma length_signature t mac : length (Pac.signature_buffer t mac) = (4 + length mac)%nat.
Proof. unfold Pac.signature_buffer. by rewrite length_app, length_to_le_bytes. Qed.

Lemma zero_signature t mac :
  Pac.zero_signature_payload (Pac.signature_buffer t mac) = Pac.signature_buffer t (replicate (length mac) x00).
Proof.
  unfold Pac.zero_signature_payload. rewrite take_type, length_signature.
  by replace (4 + length mac - 4)%nat with (length mac) by lia.
Qed.

Lemma zeroing_set_sig p k t mac ks :
  k ∈ ks -> resigned p k t mac -> Pac.bytes_zeroing (set_sig p k t mac) ks = Pac.bytes_zeroing p ks.
Proof.
  intros Hk (old & Hu & Hl). unfold Pac.bytes_zeroing, set_sig. cbn [Pac.version Pac.buffers Pac.raw]. f_equal. f_equal.
  rewrite map_map. apply map_ext_in. intros b Hb%list_elem_of_In.
  destruct (Z.eqb_spec (Pac.kind b) k) as [E|E]; [|done].
  pose proof (unique_is _ _ _ _ Hu Hb E) as Hd. unfold Pac.zeroed. cbn [Pac.kind set_data Pac.data Pac.offset].
  rewrite E, bool_decide_true by done. by rewrite Hd, !zero_signature, Hl.
Qed.

Lemma shape_set_sig p k t mac : resigned p k t mac -> Pac.shape (Pac.buffers (set_sig p k t mac)) = Pac.shape (Pac.buffers p).
Proof.
  intros (old & Hu & Hl). unfold Pac.shape, set_sig. cbn [Pac.buffers]. rewrite map_map. apply map_ext_in.
  intros b Hb%list_elem_of_In. destruct (Z.eqb_spec (Pac.kind b) k) as [E|E]; [|done].
  pose proof (unique_is _ _ _ _ Hu Hb E) as Hd. cbn [Pac.kind set_data Pac.data].
  by rewrite Hd, !length_signature, Hl.
Qed.

(** A PAC whose signatures of the kinds [ks] are zero is signed as it stands. *)
Lemma zeroing_blank p ks :
  (forall k, k ∈ ks -> exists t n, Pac.unique_buffer p k = Ok (Some (Pac.signature_buffer t (replicate n x00)))) ->
  Pac.bytes_zeroing p ks = Pac.to_bytes p.
Proof.
  intros Hks. unfold Pac.bytes_zeroing. destruct p as [v bs w]. cbn [Pac.version Pac.buffers Pac.raw] in *. f_equal. f_equal.
  rewrite <- (map_id bs) at 2. apply map_ext_in. intros b Hb%list_elem_of_In. unfold Pac.zeroed.
  case_bool_decide as Hk; [|done]. destruct (Hks _ Hk) as (t & n & Hu).
  pose proof (unique_is _ _ _ _ Hu Hb eq_refl) as Hd. destruct b as [kd d off]. cbn [Pac.kind Pac.data Pac.offset] in *.
  by rewrite Hd, zero_signature, length_replicate.
Qed.

Lemma type_read e : cast_signed 32 (from_le_bytes (to_le_bytes 4 (EType.checksum_type e))) = EType.checksum_type e.
Proof. by destruct e. Qed.

Lemma verify_made k d mac bt :
  Key.wf k -> pac_checksum k d = Ok mac -> verify_pac_sig k d (Some (Pac.signature_buffer (sig_type k) mac)) bt = Ok mac.
Proof.
  intros Hwf E. unfold pac_checksum in E. destruct (Ops.checksum k _ d) as [m|] eqn:Em; [|done]. injection E as ->.
  destruct (Ops.checksum_made _ _ _ _ Hwf Em) as [Hs Hv]. unfold verify_pac_sig. rewrite length_signature.
  rewrite take_type. unfold sig_type. rewrite type_read, Hs.
  assert (slice (Pac.signature_buffer (EType.checksum_type (Key.etype k)) mac) 4 (4 + length mac) = mac) as ->.
  { unfold slice. rewrite drop_type. replace (4 + length mac - 4)%nat with (length mac) by lia. by rewrite take_ge. }
  replace (4 + length mac - 4)%nat with (length mac) by lia. rewrite Nat.ltb_irrefl, Hv.
  by destruct bt as [|bt|], (Key.etype k); cbn; rewrite ?andb_false_r.
Qed.

(** The four signatures, each over what the code verifies it over. *)
Record signed (p : Pac.Pac) (server kdc : Key.ProtocolKey) (der : option bytes) (svc : bool) : Prop := {
  server_signed : exists mac, Pac.unique_buffer p PAC_SERVER_CHECKSUM = Ok (Some (Pac.signature_buffer (sig_type server) mac)) /\
    pac_checksum server (Pac.bytes_zeroing p [PAC_SERVER_CHECKSUM; PAC_PRIVSVR_CHECKSUM]) = Ok mac /\
    exists kmac, Pac.unique_buffer p PAC_PRIVSVR_CHECKSUM = Ok (Some (Pac.signature_buffer (sig_type kdc) kmac)) /\
      pac_checksum kdc mac = Ok kmac;
  ticket_signed : forall d, svc = true -> der = Some d -> exists mac,
    Pac.unique_buffer p PAC_TICKET_CHECKSUM = Ok (Some (Pac.signature_buffer (sig_type kdc) mac)) /\ pac_checksum kdc d = Ok mac;
  full_signed : svc = true -> exists mac,
    Pac.unique_buffer p PAC_FULL_CHECKSUM = Ok (Some (Pac.signature_buffer (sig_type kdc) mac)) /\
    pac_checksum kdc (Pac.bytes_zeroing p [PAC_SERVER_CHECKSUM; PAC_PRIVSVR_CHECKSUM; PAC_FULL_CHECKSUM]) = Ok mac;
}.

Lemma unique_of_kind p k t mac : Pac.unique_buffer p k = Ok (Some (Pac.signature_buffer t mac)) ->
  exists b, Pac.of_kind (Pac.mkPac 0 (Pac.buffers p) []) k = [b] /\ (4 <= length (Pac.data b))%nat.
Proof.
  unfold Pac.unique_buffer. change (Pac.of_kind (Pac.mkPac 0 (Pac.buffers p) []) k) with (Pac.of_kind p k).
  destruct (Pac.of_kind p k) as [|b [|]]; intros [= E]. exists b. split; [done|]. rewrite E, length_signature. lia.
Qed.

Lemma signed_verifies p server kdc der svc :
  Key.wf server -> Key.wf kdc -> Pac.pac_ok p -> signed p server kdc der svc ->
  verify_pac_signatures (Pac.to_bytes p) server (Some kdc) der svc = Ok tt /\
  verify_pac_signatures (Pac.to_bytes p) server None None false = Ok tt.
Proof.
  intros Hs Hk Hok [(mac & Hm & Em & kmac & Hkm & Ekm) Ht Hf].
  pose proof (unique_of_kind _ _ _ _ Hm) as U6. pose proof (unique_of_kind _ _ _ _ Hkm) as U7.
  destruct (Pac.received_zeroed_written p [PAC_SERVER_CHECKSUM; PAC_PRIVSVR_CHECKSUM] Hok) as (q & Hq & Hz & Hu).
  { intros k Hin. repeat (apply elem_of_cons in Hin as [->|Hin]; [done|]). by apply elem_of_nil in Hin. }
  unfold verify_pac_signatures. rewrite Hq. cbn [map_err]. unfold verify_pac_checksums, Pac.server_checksum, Pac.kdc_checksum.
  rewrite Hz, !Hu, Hm, Hkm. cbn [map_err]. rewrite (verify_made _ _ _ _ Hs Em). split; [|done].
  assert (match der with Some d => if svc then let? buf := map_err map_pac_err (Pac.ticket_checksum q) in
            verified (verify_pac_sig kdc d buf PAC_TICKET_CHECKSUM) else Ok tt | None => Ok tt end = Ok tt) as Htk.
  { destruct der as [d|]; [|done]. destruct svc; [|done]. destruct (Ht d eq_refl eq_refl) as (tm & Htm & Etm).
    unfold Pac.ticket_checksum. rewrite Hu, Htm. cbn [map_err]. by rewrite (verify_made _ _ _ _ Hk Etm). }
  rewrite length_signature, drop_type. cbn [Nat.ltb Nat.leb Nat.add]. rewrite (verify_made _ _ _ _ Hk Ekm).
  destruct svc; [|by destruct der]. destruct (Hf eq_refl) as (fm & Hfm & Efm).
  destruct (Pac.received_zeroed_written p [PAC_SERVER_CHECKSUM; PAC_PRIVSVR_CHECKSUM; PAC_FULL_CHECKSUM] Hok) as (q' & Hq' & Hz' & _).
  { pose proof (unique_of_kind _ _ _ _ Hfm) as U19. intros k Hin.
    repeat (apply elem_of_cons in Hin as [->|Hin]; [done|]). by apply elem_of_nil in Hin. }
  rewrite Hq in Hq'. injection Hq' as <-. unfold Pac.full_checksum. rewrite Hz', Hu, Hfm. cbn [map_err].
  rewrite (verify_made _ _ _ _ Hk Efm). destruct der; [by rewrite Htk|done].
Qed.

Definition blank (p : Pac.Pac) (k : Z) (key : Key.ProtocolKey) : Prop :=
  Pac.unique_buffer p k = Ok (Some (Pac.signature_buffer (sig_type key) (zeros_for key))).

Lemma output_size e : Ops.checksum_output_size (EType.checksum_type e) = Some (EType.hmac_output_len e).
Proof. by destruct e. Qed.

Lemma blank_resigned p k key d mac : Key.wf key -> blank p k key -> pac_checksum key d = Ok mac -> resigned p k (sig_type key) mac.
Proof.
  intros Hwf Hb E. exists (zeros_for key). split; [done|]. unfold pac_checksum in E.
  destruct (Ops.checksum key _ d) as [m|] eqn:Em; [|done]. injection E as ->.
  destruct (Ops.checksum_made _ _ _ _ Hwf Em) as [Hs _]. rewrite output_size in Hs. injection Hs as <-.
  apply length_replicate.
Qed.

Lemma blanks_to_bytes p ks : (forall k, k ∈ ks -> exists key, blank p k key) -> Pac.bytes_zeroing p ks = Pac.to_bytes p.
Proof. intros Hks. apply zeroing_blank. intros k Hk. destruct (Hks k Hk) as [key Hb]. by eexists _, _. Qed.

(** The last two steps of both ways of signing. *)
Lemma sign_chain p server kdc der svc smac kmac :
  Key.wf server -> Key.wf kdc -> blank p PAC_SERVER_CHECKSUM server -> blank p PAC_PRIVSVR_CHECKSUM kdc ->
  pac_checksum server (Pac.bytes_zeroing p [PAC_SERVER_CHECKSUM; PAC_PRIVSVR_CHECKSUM]) = Ok smac ->
  pac_checksum kdc smac = Ok kmac ->
  (forall d, svc = true -> der = Some d -> exists mac,
    Pac.unique_buffer p PAC_TICKET_CHECKSUM = Ok (Some (Pac.signature_buffer (sig_type kdc) mac)) /\ pac_checksum kdc d = Ok mac) ->
  (svc = true -> exists mac,
    Pac.unique_buffer p PAC_FULL_CHECKSUM = Ok (Some (Pac.signature_buffer (sig_type kdc) mac)) /\
    pac_checksum kdc (Pac.bytes_zeroing p [PAC_SERVER_CHECKSUM; PAC_PRIVSVR_CHECKSUM; PAC_FULL_CHECKSUM]) = Ok mac) ->
  let q := set_sig (set_sig p PAC_SERVER_CHECKSUM (sig_type server) smac) PAC_PRIVSVR_CHECKSUM (sig_type kdc) kmac in
  signed q server kdc der svc /\ Pac.shape (Pac.buffers q) = Pac.shape (Pac.buffers p).
Proof.
  intros Hs Hk B6 B7 E6 E7 Ht Hf q.
  pose proof (blank_resigned _ _ _ _ _ Hs B6 E6) as R6. set (p1 := set_sig p _ _ _) in q.
  assert (blank p1 PAC_PRIVSVR_CHECKSUM kdc) as B7' by (unfold blank, p1; by rewrite unique_set_sig_other).
  pose proof (blank_resigned _ _ _ _ _ Hk B7' E7) as R7.
  assert (forall ks, PAC_SERVER_CHECKSUM ∈ ks -> PAC_PRIVSVR_CHECKSUM ∈ ks -> Pac.bytes_zeroing q ks = Pac.bytes_zeroing p ks) as Hz.
  { intros ks H6 H7. unfold q. rewrite zeroing_set_sig by done. by apply zeroing_set_sig. }
  assert (forall k, k <> PAC_SERVER_CHECKSUM -> k <> PAC_PRIVSVR_CHECKSUM -> Pac.unique_buffer q k = Pac.unique_buffer p k) as Hu.
  { intros k N6 N7. unfold q, p1. by rewrite !unique_set_sig_other. }
  split; [split|unfold q; rewrite shape_set_sig by done; by apply shape_set_sig].
  - exists smac. unfold q at 1. rewrite unique_set_sig_other by done. unfold p1.
    rewrite (unique_set_sig _ _ _ _ _ B6). split; [done|]. rewrite Hz by (by repeat constructor). split; [done|].
    exists kmac. split; [exact (unique_set_sig _ _ _ _ _ B7')|done].
  - intros d Hsv Hd. rewrite Hu by done. by apply Ht.
  - intros Hsv. rewrite Hu by done. rewrite Hz by (by repeat constructor). auto.
Qed.

(** The step before them, for a service ticket. *)
Lemma full_chain p kdc fmac :
  Key.wf kdc -> blank p PAC_FULL_CHECKSUM kdc ->
  pac_checksum kdc (Pac.bytes_zeroing p [PAC_SERVER_CHECKSUM; PAC_PRIVSVR_CHECKSUM; PAC_FULL_CHECKSUM]) = Ok fmac ->
  let q := set_sig p PAC_FULL_CHECKSUM (sig_type kdc) fmac in
  Pac.unique_buffer q PAC_FULL_CHECKSUM = Ok (Some (Pac.signature_buffer (sig_type kdc) fmac)) /\
  pac_checksum kdc (Pac.bytes_zeroing q [PAC_SERVER_CHECKSUM; PAC_PRIVSVR_CHECKSUM; PAC_FULL_CHECKSUM]) = Ok fmac /\
  Pac.shape (Pac.buffers q) = Pac.shape (Pac.buffers p).
Proof.
  intros Hk B E q. pose proof (blank_resigned _ _ _ _ _ Hk B E) as R. unfold q.
  rewrite (unique_set_sig _ _ _ _ _ B), shape_set_sig by done.
  rewrite zeroing_set_sig by (done || by repeat constructor). done.
Qed.

Lemma kinds_forall (P : Z -> Prop) bs b : Forall P (map Pac.kind bs) -> b ∈ bs -> P (Pac.kind b).
Proof.
  intros Hf Hb. apply (proj1 (list.Forall_forall _ _) Hf). apply list_elem_of_In, in_map. by apply list_elem_of_In.
Qed.

Lemma fits p :
  Pac.version p = 0 -> Forall is_u32 (map Pac.kind (Pac.buffers p)) -> Pac.buffers p <> [] ->
  blen (Pac.to_bytes p) <= 65536 -> Pac.pac_ok p.
Proof.
  intros Hv Hk Hne Hl. unfold blen in Hl. rewrite Pac.length_to_bytes in Hl. unfold Pac.first_payload in Hl.
  split; [done|]. split; [destruct (Pac.buffers p); [done|]; unfold blen, MAX_BUFFERS in *; cbn [length] in *; lia|].
  split; [|unfold blen; lia]. apply list.Forall_forall. intros b Hb. split.
  { exact (kinds_forall _ _ _ Hk Hb). }
  apply list_elem_of_split in Hb as (b1 & b2 & E). rewrite E, flat_map_app in Hl. cbn [flat_map] in Hl.
  rewrite !length_app, Pac.length_payload in Hl. unfold blen. lia.
Qed.

Lemma kinds_of_shape bs bs' : Pac.shape bs = Pac.shape bs' -> map Pac.kind bs = map Pac.kind bs'.
Proof.
  intros E. assert (forall l, map Pac.kind l = map fst (Pac.shape l)) as Hf.
  { intros l. unfold Pac.shape. by rewrite map_map. }
  by rewrite !Hf, E.
Qed.

(** Buffers of 32-bit kinds, none of them a signature. *)
Definition plain (bs : list Pac.PacBuffer) : Prop :=
  Forall (fun k => is_pac_signature k = false /\ is_u32 k) (map Pac.kind bs).

Lemma filter_plain bs k : plain bs -> is_pac_signature k = true -> List.filter (fun b => Pac.kind b =? k) bs = [].
Proof.
  intros Hp Hk. apply Pac.filter_kind_none. apply list.Forall_forall. intros b Hb Eb.
  destruct (kinds_forall _ _ _ Hp Hb) as [Hs _]. congruence.
Qed.

Lemma plain_u32 bs : plain bs -> Forall is_u32 (map Pac.kind bs).
Proof. apply Forall_impl. tauto. Qed.

Lemma mit_buffers_plain req client bs name : mit_buffers req client = Ok (bs, name) -> plain bs.
Proof.
  unfold mit_buffers, plain. intros E.
  assert (forall l, l ⊆ [PAC_DELEGATION_INFO; PAC_CLIENT_INFO] -> map Pac.kind bs = l ->
    Forall (fun k => is_pac_signature k = false /\ is_u32 k) (map Pac.kind bs)) as Hk.
  { intros l Hl El. rewrite El. apply list.Forall_forall. intros k Hin%Hl.
    repeat (apply elem_of_cons in Hin as [->|Hin]; [done|]). by apply elem_of_nil in Hin. }
  repeat (case_match; simplify_eq/=; try done); (eapply Hk; [|reflexivity]; cbn; set_solver).
Qed.

(** A PAC with blank signatures, the steps of signing it, and the result. *)
Record frame (p : Pac.Pac) (server kdc : Key.ProtocolKey) (der : bytes) (svc : bool) : Prop := {
  frame_version : Pac.version p = 0;
  frame_kinds : Forall is_u32 (map Pac.kind (Pac.buffers p));
  frame_server : blank p PAC_SERVER_CHECKSUM server;
  frame_kdc : blank p PAC_PRIVSVR_CHECKSUM kdc;
  frame_service : svc = true -> blank p PAC_FULL_CHECKSUM kdc /\ exists mac,
    Pac.unique_buffer p PAC_TICKET_CHECKSUM = Ok (Some (Pac.signature_buffer (sig_type kdc) mac)) /\ pac_checksum kdc der = Ok mac;
}.

Definition full_step (p q : Pac.Pac) (kdc : Key.ProtocolKey) (svc : bool) : Prop :=
  if svc then exists mac,
    pac_checksum kdc (Pac.bytes_zeroing p [PAC_SERVER_CHECKSUM; PAC_PRIVSVR_CHECKSUM; PAC_FULL_CHECKSUM]) = Ok mac /\
    q = set_sig p PAC_FULL_CHECKSUM (sig_type kdc) mac
  else q = p.

Lemma blank_after_full p q kdc svc k key : full_step p q kdc svc -> k <> PAC_FULL_CHECKSUM -> blank p k key -> blank q k key.
Proof. destruct svc; [intros (mac & _ & ->)|intros ->; done]. intros Hk. unfold blank. by rewrite unique_set_sig_other. Qed.

Lemma frame_verifies p p1 server kdc der svc smac kmac :
  Key.wf server -> Key.wf kdc -> frame p server kdc der svc -> full_step p p1 kdc svc ->
  pac_checksum server (Pac.bytes_zeroing p1 [PAC_SERVER_CHECKSUM; PAC_PRIVSVR_CHECKSUM]) = Ok smac ->
  pac_checksum kdc smac = Ok kmac ->
  let q := set_sig (set_sig p1 PAC_SERVER_CHECKSUM (sig_type server) smac) PAC_PRIVSVR_CHECKSUM (sig_type kdc) kmac in
  blen (Pac.to_bytes q) <= 65536 ->
  verify_pac_signatures (Pac.to_bytes q) server (Some kdc) (Some der) svc = Ok tt /\
  verify_pac_signatures (Pac.to_bytes q) server None None false = Ok tt.
Proof.
  intros Hs Hk [Fv Fk F6 F7 Fsvc] Hfull E6 E7 q Hl.
  destruct (sign_chain p1 server kdc (Some der) svc smac kmac) as [Hsig Hsh]; try done.
  - by eapply blank_after_full.
  - by eapply blank_after_full.
  - intros d -> [= <-]. destruct Hfull as (fm & _ & ->). destruct (Fsvc eq_refl) as (_ & tm & Hu & Ht).
    exists tm. by rewrite unique_set_sig_other.
  - intros ->. destruct Hfull as (fm & Ef & ->). destruct (Fsvc eq_refl) as (B19 & _).
    destruct (full_chain p kdc fm Hk B19 Ef) as (Hu & Hz & _). by exists fm.
  - fold q in Hsig, Hsh. apply signed_verifies; [done..| |done].
    assert (map Pac.kind (Pac.buffers p1) = map Pac.kind (Pac.buffers p)) as Hk1.
    { destruct svc; [|by rewrite Hfull]. destruct Hfull as (fm & Ef & ->). destruct (Fsvc eq_refl) as (B19 & _).
      apply kinds_of_shape. by destruct (full_chain p kdc fm Hk B19 Ef) as (_ & _ & ?). }
    apply kinds_of_shape in Hsh. rewrite Hk1 in Hsh. apply fits; [|by rewrite Hsh| |done].
    + destruct svc; [destruct Hfull as (fm & _ & Hp1)|pose proof Hfull as Hp1]; unfold q; by rewrite Hp1.
    + intros E. rewrite E in Hsh. unfold blank, Pac.unique_buffer, Pac.of_kind in F6.
      destruct (Pac.buffers p); [discriminate F6|discriminate Hsh].
Qed.

Lemma zeroed_signature_own k : zeroed_signature (sig_type k) = Ok (Pac.signature_buffer (sig_type k) (zeros_for k)).
Proof. unfold zeroed_signature, sig_type, zeros_for. by rewrite output_size. Qed.

(** The signature buffers among others. *)
Lemma unique_in_frame bs1 bs2 k d : plain bs1 ->
  List.filter (fun b => Pac.kind b =? k) bs2 = [Pac.new_buffer k d] -> is_pac_signature k = true ->
  Pac.unique_buffer (Pac.built 0 (bs1 ++ bs2)) k = Ok (Some d).
Proof.
  intros Hp E Hk. unfold Pac.unique_buffer, Pac.of_kind. cbn [Pac.buffers Pac.built].
  by rewrite List.filter_app, E, filter_plain.
Qed.

Lemma plain_app bs1 bs2 : plain bs1 -> plain bs2 -> plain (bs1 ++ bs2).
Proof. unfold plain. rewrite map_app. by apply Forall_app_2. Qed.

Lemma kinds_in_frame bs1 bs2 : plain bs1 -> Forall is_u32 (map Pac.kind bs2) ->
  Forall is_u32 (map Pac.kind (Pac.buffers (Pac.built 0 (bs1 ++ bs2)))).
Proof. intros Hp Hu. cbn [Pac.buffers Pac.built]. rewrite map_app. apply Forall_app_2; [by apply plain_u32|done]. Qed.

(** Decides which buffer of a frame has a signature kind. *)
Ltac in_frame := apply unique_in_frame; [by repeat first [done|apply plain_app|repeat constructor]|reflexivity|reflexivity].

Lemma mit_frame req client authtime ticket p :
  mit_unsigned req client authtime ticket = Ok p ->
  frame p (pt_server ticket) (pt_kdc ticket) (enc_tkt_der ticket) (is_service_tkt ticket).
Proof.
  destruct ticket as [server kdc der svc]. unfold mit_unsigned. cbn [pt_server pt_kdc enc_tkt_der is_service_tkt].
  destruct (mit_buffers req client) as [[bs name]|] eqn:Eb; [|done]. apply mit_buffers_plain in Eb.
  rewrite !zeroed_signature_own. destruct svc.
  - destruct (pac_checksum kdc der) as [mac|] eqn:Em; [|done]. intros [= <-].
    destruct name; rewrite <- !app_assoc;
      (split; [done|apply kinds_in_frame; [done|by repeat constructor]|by in_frame..|]);
      (intros _; split; [by in_frame|]; exists mac; split; [by in_frame|done]).
  - intros [= <-]. destruct name; rewrite <- ?app_assoc;
      (split; [done|apply kinds_in_frame; [done|by repeat constructor]|by in_frame..|done]).
Qed.

(** A ticket PAC of the MIT shape verifies, with the KDC's key and without it. *)
Lemma mit_pac_verifies req client authtime ticket b :
  Key.wf (pt_server ticket) -> Key.wf (pt_kdc ticket) ->
  mit_ticket_pac req client authtime ticket = Ok b -> blen b <= 65536 ->
  verify_pac_signatures b (pt_server ticket) (Some (pt_kdc ticket)) (Some (enc_tkt_der ticket)) (is_service_tkt ticket) = Ok tt /\
  verify_pac_signatures b (pt_server ticket) None None false = Ok tt.
Proof.
  intros Hs Hk. unfold mit_ticket_pac. destruct (mit_unsigned _ _ _ _) as [p|] eqn:Ep; [|done]. apply mit_frame in Ep as F.
  assert (forall k, k ∈ [PAC_SERVER_CHECKSUM; PAC_PRIVSVR_CHECKSUM] -> exists key, blank p k key) as B.
  { destruct F. intros k Hin. repeat (apply elem_of_cons in Hin as [->|Hin]; [by eexists|]). by apply elem_of_nil in Hin. }
  destruct (if is_service_tkt ticket then _ else _) as [p1|] eqn:E1; [|done].
  assert (full_step p p1 (pt_kdc ticket) (is_service_tkt ticket)) as Hf.
  { revert E1. unfold full_step. destruct (is_service_tkt ticket) eqn:Esv; [|by intros [= <-]].
    destruct (pac_checksum _ (Pac.to_bytes p)) as [fm|] eqn:Ef; [|done]. intros [= <-]. exists fm. split; [|done].
    rewrite blanks_to_bytes; [done|]. intros k Hin.
    apply (elem_of_app [_; _] [_]) in Hin as [Hin|Hin]; [by apply B|]. apply list_elem_of_singleton in Hin as ->.
    destruct F as [_ _ _ _ F]. eexists. by apply F. }
  destruct (pac_checksum (pt_server ticket) (Pac.to_bytes p1)) as [sm|] eqn:E6; [|done].
  destruct (pac_checksum (pt_kdc ticket) sm) as [km|] eqn:E7; [|done]. intros [= <-] Hl.
  eapply frame_verifies; try done. rewrite blanks_to_bytes; [done|].
  intros k Hin. destruct (B k Hin) as [key Hb]. exists key. eapply blank_after_full; [done| |done].
  intros ->. by repeat (apply elem_of_cons in Hin as [[=]|Hin]); apply elem_of_nil in Hin.
Qed.

Lemma replace_first_kinds k d bs bs' : replace_first k d bs = Some bs' -> map Pac.kind bs' = map Pac.kind bs.
Proof.
  revert bs'. induction bs as [|b bs IH]; intros bs'; cbn [replace_first]; [done|].
  destruct (Pac.kind b =? k); [by intros [= <-]|]. destruct (replace_first k d bs) as [l|] eqn:E; [|done].
  intros [= <-]. cbn [map]. by rewrite (IH l).
Qed.

Lemma plain_kinds bs bs' : map Pac.kind bs' = map Pac.kind bs -> plain bs -> plain bs'.
Proof. unfold plain. by intros ->. Qed.

Lemma copied_plain raw p : Pac.parse raw = Ok p ->
  plain (map (fun b => Pac.new_buffer (Pac.kind b) (Pac.data b))
    (List.filter (fun b => negb (is_pac_signature (Pac.kind b))) (Pac.buffers p))).
Proof.
  intros E%Pac.parse_kinds. unfold plain. rewrite map_map. cbn [Pac.kind Pac.new_buffer].
  induction (Pac.buffers p) as [|b bs IH]; [constructor|]. cbn [map] in E. apply list.Forall_cons in E as [Hk E].
  cbn [List.filter]. destruct (is_pac_signature (Pac.kind b)) eqn:Es; cbn [negb map]; [auto|constructor; auto].
Qed.

Lemma ad_buffers_plain cname authtime ident logon subject info bs :
  ad_buffers cname authtime ident logon subject info = Ok bs -> plain bs.
Proof.
  unfold ad_buffers. destruct subject as [raw|]; [|intros [= <-]; unfold plain; cbn; by repeat constructor].
  destruct (Pac.parse raw) as [p|] eqn:Ep; [|done]. cbn [map_err]. intros [= <-]. pose proof (copied_plain raw p Ep) as Hc.
  revert Hc. set (l0 := map _ (List.filter _ _)). clearbody l0. intros Hc.
  set (l := match logon with Some _ => _ | None => _ end). assert (plain l) as Hl.
  { subst l. destruct logon as [x|]; [|done]. destruct (replace_first _ _ l0) as [l1|] eqn:E1.
    - by eapply plain_kinds; [eapply replace_first_kinds|].
    - apply (plain_app [_]); [by repeat constructor|done]. }
  destruct info as [n|]; [|done]. destruct (replace_first _ _ l) as [l1|] eqn:E1.
  - by eapply plain_kinds; [eapply replace_first_kinds|].
  - apply plain_app; [done|by repeat constructor].
Qed.

(** After the ticket signature is set. *)
Lemma ad_frame cname authtime ticket ident logon subject info p mac :
  ad_unsigned cname authtime ticket ident logon subject info = Ok p ->
  (is_service_tkt ticket = true -> pac_checksum (pt_kdc ticket) (enc_tkt_der ticket) = Ok mac) ->
  frame (if is_service_tkt ticket then set_sig p PAC_TICKET_CHECKSUM (sig_type (pt_kdc ticket)) mac else p)
    (pt_server ticket) (pt_kdc ticket) (enc_tkt_der ticket) (is_service_tkt ticket).
Proof.
  destruct ticket as [server kdc der svc]. unfold ad_unsigned. cbn [pt_server pt_kdc enc_tkt_der is_service_tkt].
  destruct (ad_buffers _ _ _ _ _ _) as [bs|] eqn:Eb; [|done]. apply ad_buffers_plain in Eb. intros [= <-] Hm.
  destruct svc.
  - set (p := Pac.built 0 _). assert (forall k, k <> PAC_TICKET_CHECKSUM -> forall key, blank p k key ->
      blank (set_sig p PAC_TICKET_CHECKSUM (sig_type kdc) mac) k key) as Hb.
    { intros k Hk key. unfold blank. by rewrite unique_set_sig_other. }
    split; [done| |apply Hb; [done|by in_frame]..|].
    + assert (map Pac.kind (Pac.buffers (set_sig p PAC_TICKET_CHECKSUM (sig_type kdc) mac)) = map Pac.kind (Pac.buffers p)) as ->.
      { unfold set_sig. cbn [Pac.buffers]. rewrite map_map. apply map_ext. intros b. by destruct (_ =? _). }
      apply kinds_in_frame; [done|by repeat constructor].
    + intros _. split; [apply Hb; [done|by in_frame]|]. exists mac. split; [|auto].
      eapply unique_set_sig. by in_frame.
  - split; [done|apply kinds_in_frame; [done|by repeat constructor]|by in_frame..|done].
Qed.

(** The same for the shape with a domain's logon information. *)
Lemma ad_pac_verifies cname authtime ticket ident logon subject info b :
  Key.wf (pt_server ticket) -> Key.wf (pt_kdc ticket) ->
  sign_reply_pac_inner cname authtime ticket ident logon subject info = Ok b -> blen b <= 65536 ->
  verify_pac_signatures b (pt_server ticket) (Some (pt_kdc ticket)) (Some (enc_tkt_der ticket)) (is_service_tkt ticket) = Ok tt /\
  verify_pac_signatures b (pt_server ticket) None None false = Ok tt.
Proof.
  intros Hs Hk. unfold sign_reply_pac_inner. destruct (ad_unsigned _ _ _ _ _ _ _) as [p|] eqn:Ep; [|done].
  pose proof (fun mac => ad_frame _ _ _ _ _ _ _ _ mac Ep) as F. clear Ep.
  destruct (if is_service_tkt ticket then _ else _) as [p1|] eqn:E1; [|done].
  assert (exists p0, frame p0 (pt_server ticket) (pt_kdc ticket) (enc_tkt_der ticket) (is_service_tkt ticket) /\
    full_step p0 p1 (pt_kdc ticket) (is_service_tkt ticket)) as (p0 & Fr & Hf).
  { revert F E1. destruct (is_service_tkt ticket); [|intros F [= <-]; exists p; split; [by apply (F [])|done]].
    destruct (pac_checksum _ (enc_tkt_der ticket)) as [tm|]; [|done]. intros F.
    destruct (pac_checksum _ (Pac.bytes_for_full_checksum _)) as [fm|] eqn:Ef; [|done]. intros [= <-].
    eexists. split; [by apply (F tm)|]. by exists fm. }
  clear E1 F. destruct (pac_checksum (pt_server ticket) _) as [sm|] eqn:E6; [|done].
  unfold Pac.server_checksum. erewrite unique_set_sig by (eapply blank_after_full; [exact Hf|done|apply Fr]).
  cbn [map_err]. rewrite length_signature, drop_type. cbn [Nat.ltb Nat.leb Nat.add].
  destruct (pac_checksum (pt_kdc ticket) sm) as [km|] eqn:E7; [|done]. intros [= <-] Hl.
  by eapply frame_verifies.
Qed.

(** C17: every PAC the KDC puts into a ticket, in the MIT shape or with a domain's
    logon information, new or copied from a presented one, passes the KDC's own
    verification of the ticket it was made for, with the ticket-granting key and
    without it.  The one condition is the container's limit of 4096 buffers, which
    64 KiB cannot exceed. *)
Theorem ticket_pac_verifies pac cname crealm authtime ticket b :
  Key.wf (pt_server ticket) -> Key.wf (pt_kdc ticket) ->
  ticket_pac pac cname crealm authtime ticket = Ok b -> blen b <= 65536 ->
  verify_pac_signatures b (pt_server ticket) (Some (pt_kdc ticket)) (Some (enc_tkt_der ticket)) (is_service_tkt ticket) = Ok tt /\
  verify_pac_signatures b (pt_server ticket) None None false = Ok tt.
Proof.
  intros Hs Hk. unfold ticket_pac. destruct pac as [req|logon subject info ident].
  - destruct (mit_ticket_pac _ _ _ _) as [b'|] eqn:E; [|done]. intros [= <-]. by eapply mit_pac_verifies.
  - destruct (match logon with Some _ => _ | None => _ end) as [i|]; [|done].
    destruct (sign_reply_pac_inner _ _ _ _ _ _ _) as [b'|] eqn:E; [|done]. intros [= <-]. by eapply ad_pac_verifies.
Qed.

End PacSign.

(** A [LogonCode]: no logon information. *)
Definition NoLogon : LogonCode := {|
  PacIdentity := unit;
  pac_identity _ _ := tt;
  logon_identity _ _ := None;
  logon_info_of _ := [];
  upn_dns_of _ := [];
  requester_sid_of _ := [];
  filter_cross_realm_logon _ := Err Asn1;
|}.

Definition sample_pac_ticket : PacTicket := mkPacTicket Ops.sample_aes Ops.sample_aes [x30; x00] true.

Definition sample_pac : TicketPac := PacMit (mkHandlePac None false false None None).
Definition sample_pac_client : PrincipalName := PrincipalName.mkName 1 [[x61]].

Lemma ticket_pac_verifies_witness :
  exists b, @ticket_pac NoLogon ToyPrimitives sample_pac sample_pac_client [x52] 1700000000 sample_pac_ticket = Ok b /\
    @verify_pac_signatures ToyPrimitives b Ops.sample_aes (Some Ops.sample_aes) (Some [x30; x00]) true = Ok tt.
Proof.
  assert (match @ticket_pac NoLogon ToyPrimitives sample_pac sample_pac_client [x52] 1700000000 sample_pac_ticket with
          | Ok c => blen c <=? 65536 | Err _ => false end = true) as Hl by (vm_compute; reflexivity).
  destruct (@ticket_pac _ _ _ _ _ _ _) as [b|] eqn:E; [|discriminate Hl].
  exists b. split; [reflexivity|].
  apply (@ticket_pac_verifies NoLogon ToyPrimitives toy_laws sample_pac sample_pac_client [x52] 1700000000 sample_pac_ticket b);
    [reflexivity..|exact E|by apply Z.leb_le].
Defined.
