(* ===== verification/PacVerify.v ===== *)
(** * The PAC of a presented ticket

    Models what [krb5-kdc/src/ad.rs] and [issue/tgs_req.rs] read from the PAC of a
    presented ticket, after [PacSign]: the PAC itself, the ticket checksum, the
    verification under the current and the previous ticket-granting keys, and the
    client and the delegation record it names. *)

From S2P Require Import Prelude StateErr Utf8 Etype Primitives Ops Prf Name EncList Time Kdc Lockout KdcPolicy PMap Pac Transit Store Messages Exchange AuthData PacSign.

(** [utf8], which takes an invalid string as empty. *)
Definition utf8_or_empty (r : bytes) : bytes := if is_some (Utf8.from_utf8 r) then r else [].

(** [format!("{name}@{realm}")]. *)
Definition at_realm (name realm : Name.ustr) : Name.ustr := name ++ [Name.AT] ++ realm.

Definition NT_MS_PRINCIPAL : Z := -128.

(** ** Client and delegation record *)

Definition pac_client_info_eq (pac : Pac.Pac) (authtime : Z) (name : Name.ustr) (realm : option Name.ustr) : bool :=
  match Pac.unique_buffer pac PAC_CLIENT_INFO with
  | Ok (Some buf) =>
      match Pac.parse_client_info buf with
      | Some (got_time, got_name) =>
          let want := match realm with Some r => at_realm name r | None => name end in
          (got_time =? authtime) && bool_decide (got_name = want)
      | None => false
      end
  | _ => false
  end.

Definition pac_client_matches (pac : Pac.Pac) (enc_tkt : EncTicketPart) : bool :=
  pac_client_info_eq pac (Time.unix_seconds (tp_authtime enc_tkt)) (components_joined (tp_cname enc_tkt)) None.

Definition pac_princ_with_realm (pac : Pac.Pac) : option (Name.ParsedName * Z) :=
  match Pac.unique_buffer pac PAC_CLIENT_INFO with
  | Ok (Some buf) =>
      match Pac.parse_client_info buf with
      | Some (authtime, name) =>
          let n := length (List.filter (Z.eqb Name.AT) name) in
          if negb (n =? 1)%nat && negb (n =? 2)%nat then None
          else match Name.parse_name_ex name [] (n =? 2)%nat with
               | Ok parsed => if Name.has_realm parsed then Some (parsed, authtime) else None
               | Err _ => None
               end
      | None => None
      end
  | _ => None
  end.

Definition verify_deleg_pac (pac : Pac.Pac) (enc_tkt : EncTicketPart) (target : option PrincipalName) : bool :=
  match pac_princ_with_realm pac with
  | None => false
  | Some (_, authtime) =>
      if negb (authtime =? Time.unix_seconds (tp_authtime enc_tkt)) then false
      else
        match Pac.unique_buffer pac PAC_DELEGATION_INFO with
        | Ok (Some buf) =>
            match Pac.parse_delegation_info buf with
            | Ok di =>
                if match target with
                   | Some server => negb (bool_decide (Pac.proxy_target di = components_joined server))
                   | None => false
                   end then false
                else
                  match rev (Pac.transited_services di) with
                  | hop :: _ =>
                      bool_decide (hop = unparse_chars (tp_cname enc_tkt) (realm_chars (utf8_or_empty (tp_crealm enc_tkt))))
                  | [] => false
                  end
            | Err _ => false
            end
        | _ => false
        end
  end.

Definition check_normal_tgs_pac (enc_tkt : EncTicketPart) (pac : option bytes) (server : Principal)
    (is_crossrealm : bool) : result KdcError unit :=
  match pac with
  | None => Ok tt
  | Some raw =>
      let? parsed := map_err map_pac_err (Pac.parse raw) in
      if pac_client_matches parsed enc_tkt then Ok tt
      else if is_crossrealm && PrincipalName.is_cross_tgs_principal (name server) (realm server)
              && verify_deleg_pac parsed enc_tkt None then Ok tt
      else Err (HEADER_PAC err.BADOPTION)
  end.

Definition rbcd_pac_client (pac : bytes) : result KdcError (PrincipalName * bytes) :=
  let refused := proto err.BADOPTION "RBCD_PAC_PRINC" in
  let? parsed := map_err (fun _ => refused) (Pac.parse pac) in
  let? (n, _) := ok_or (pac_princ_with_realm parsed) refused in
  let? princ := ok_or (try_new NT_MS_PRINCIPAL (Name.components n)) refused in
  Ok (princ, Utf8.as_bytes (Name.realm n)).

(** An AD-shaped PAC with the delegation record of one more hop; the signatures
    it still carries are dropped when it is signed. *)
Definition update_delegation_info (subject_pac : bytes) (proxy_target : PrincipalName) (transited : Name.ustr)
    : result KdcError bytes :=
  let? parsed := map_err map_pac_err (Pac.parse subject_pac) in
  let? buf := delegation_info_for (Some parsed) proxy_target transited in
  Ok (Pac.to_bytes (Pac.built 0
        (List.filter (fun b => negb (Pac.kind b =? PAC_DELEGATION_INFO)) (Pac.buffers parsed)
         ++ [Pac.new_buffer PAC_DELEGATION_INFO buf]))).

Section PacVerify.
Context `{KdcStore} `{Codecs} {Prim : Primitives}.

(** ** The PAC and the ticket checksum *)

(** The PAC in its place zeroed.  A container is longer than what it contains, so
    the length of the data bounds the depth of the containers. *)
Fixpoint authorization_with_zeroed_pac (fuel : nat) (ad : AuthorizationData) : AuthorizationData :=
  map (fun el =>
         if ad_type el =? pa.AD_WIN2K_PAC then mkAd (ad_type el) [x00]
         else if ad_type el =? pa.AD_IF_RELEVANT then
           match fuel with
           | O => el
           | S fuel =>
               match decode (A := AuthorizationData) (ad_data el) with
               | Ok inner => match encode (authorization_with_zeroed_pac fuel inner) with
                             | Ok b => mkAd (ad_type el) b
                             | Err _ => el
                             end
               | Err _ => el
               end
           end
         else el) ad.

Definition ticket_checksum_der (part : EncTicketPart) : result KdcError bytes :=
  encode (match tp_authorization_data part with
          | Some ad => set_authdata (Some (authorization_with_zeroed_pac (ad_fuel ad) ad)) part
          | None => part
          end).

Definition is_pac (el : AuthorizationDataValue) : bool := ad_type el =? pa.AD_WIN2K_PAC.

Fixpoint find_pac (ad : AuthorizationData) : option bytes :=
  match ad with
  | [] => None
  | el :: ad =>
      if is_pac el then Some (ad_data el)
      else
        match (if ad_type el =? pa.AD_IF_RELEVANT then
                 match decode (A := AuthorizationData) (ad_data el) with
                 | Ok inner => List.find is_pac inner
                 | Err _ => None
                 end
               else None) with
        | Some i => Some (ad_data i)
        | None => find_pac ad
        end
  end.

Definition pac_from_ticket_part (part : EncTicketPart) : option bytes := tp_authorization_data part ≫= find_pac.

(** ** Verification *)

Definition pac_verify_retryable (r : result KdcError unit) : bool :=
  match r with
  | Err (Protocol code _ _) => (code =? err.MODIFIED) || (code =? err.ETYPE_NOSUPP)
  | _ => false
  end.

Definition wire_unsupported_pac_cksum (e : KdcError) : KdcError :=
  match e with
  | Protocol code text e_data => if code =? err.ETYPE_NOSUPP then Protocol err.GENERIC text e_data else e
  | e => e
  end.

Definition try_verify_pac (pac : bytes) (server_key : Key.ProtocolKey) (header_server : Principal)
    (tgt_key : Key.ProtocolKey) (enc_der : bytes) : result KdcError unit :=
  let? privsvr := pac_privsvr_key header_server tgt_key in
  verify_pac_signatures pac server_key (Some privsvr) (Some enc_der) (should_have_ticket_signature (name header_server)).

(** The key of an earlier version, from the entry's keys or its history. *)
Definition tgt_key_at (tgt : Principal) (v : Z) : option KeyEntry :=
  match Keys.find_enctype policy tgt None v with
  | Ok k => Some k
  | Err _ => List.find (fun k => (kvno k =? v) && Keys.etype_permitted policy (ke_etype k)) (key_history tgt)
  end.

(** The loop over at most [tries] earlier versions. *)
Fixpoint try_old_keys (tries : nat) (pac : bytes) (ticket_key : Key.ProtocolKey) (header_server tgt : Principal)
    (der : bytes) (v : Z) : result KdcError (option bytes) :=
  match tries with
  | O => Err (HEADER_PAC err.MODIFIED)
  | S tries =>
      if v <=? 0 then Err (HEADER_PAC err.MODIFIED)
      else
        match tgt_key_at tgt v with
        | None => Err (HEADER_PAC err.MODIFIED)
        | Some old =>
            if is_ok (try_verify_pac pac ticket_key header_server (key old) der) then Ok (Some pac)
            else try_old_keys tries pac ticket_key header_server tgt der (Z.max 0 (v - 1))
        end
  end.

Definition get_verified_pac (part : EncTicketPart) (ticket_key : Key.ProtocolKey) (header_server : Principal)
    (local_tgt : option Principal) : result KdcError (option bytes) :=
  match pac_from_ticket_part part with
  | None => Ok None
  | Some pac =>
      if PrincipalName.is_krbtgt (name header_server) then
        let? _ := map_err wire_unsupported_pac_cksum (verify_pac_signatures pac ticket_key None None false) in
        Ok (Some pac)
      else
        let? tgt := ok_or local_tgt (HEADER_PAC err.GENERIC) in
        let? cur := map_err (fun _ => HEADER_PAC err.GENERIC) (first_current_key tgt) in
        let? der := ticket_checksum_der part in
        let first := try_verify_pac pac ticket_key header_server (key cur) der in
        if negb (pac_verify_retryable first) then
          let? _ := first in
          Ok (Some pac)
        else
          try_old_keys 2 pac ticket_key header_server tgt der (Z.max 0 (tgt_kvno tgt - 1))
  end.

(** The fuel is enough: more gives the same data. *)
Lemma zeroed_pac_fuel `{!ContainerLaws} n m (ad : AuthorizationData) :
  Forall (fun a => (length (ad_data a) < n)%nat) ad -> (n <= m)%nat ->
  authorization_with_zeroed_pac m ad = authorization_with_zeroed_pac n ad.
Proof.
  revert m ad. induction n as [|n IH]; intros m ad Hs Hm.
  - destruct ad as [|a ad]; [by destruct m|]. inversion Hs; lia.
  - destruct m as [|m]; [lia|]. cbn [authorization_with_zeroed_pac]. apply map_ext_in. intros a Ha%list_elem_of_In.
    rewrite list.Forall_forall in Hs. specialize (Hs a Ha). destruct (_ =? pa.AD_WIN2K_PAC); [done|].
    destruct (_ =? _); [|done]. destruct (decode (ad_data a)) as [inner|] eqn:Ed; [|done].
    apply inner_shorter in Ed as [_ Ed]. rewrite (IH m inner); [done| |lia].
    eapply List.Forall_impl; [|exact Ed]. cbn. lia.
Qed.

End PacVerify.
