(* ===== verification/S4u.v ===== *)
(** * Service-for-user

    Models the S4U part of [krb5-kdc/src/ad.rs], [krb5-types/src/s4u.rs] and the
    policy of [issue/tgs_policy.rs] on it: the user a service names for itself
    (S4U2Self), the evidence ticket it presents for delegation (S4U2Proxy), and
    who may delegate to whom. *)

From S2P Require Import Prelude StateErr Utf8 Etype Primitives Ops Name EncList Time Kdc Lockout KdcPolicy PMap Pac Transit Store Messages Exchange AuthData PacSign PacVerify.

Definition S4U_OPTS_USE_REPLY_KEY_USAGE : nat := 2.

Definition use_reply_key_usage (id : S4uUserId) : bool :=
  match id_options id with Some f => Flags.bit f S4U_OPTS_USE_REPLY_KEY_USAGE | None => false end.

Definition s4u_reply_key_usage_flags : list bool := Flags.with_bit Flags.none S4U_OPTS_USE_REPLY_KEY_USAGE true.

Definition pa_for_user_cksum_data (user : PrincipalName) (realm package : bytes) : bytes :=
  to_le_bytes 4 (PrincipalName.name_type user) ++ concat (PrincipalName.name_string user) ++ realm ++ package.

Record S4u2Self := mkS4u {
  s4u_user : PrincipalName;
  s4u_realm : bytes;
  s4u_local : option Principal;
  s4u_x509 : option PaS4uX509User;
}.

Record SecondTicket := mkSecond { st_part : EncTicketPart; st_server : Principal; st_pac : option bytes }.

Definition map_s4u_cksum (e : Error) : KdcError :=
  match e with
  | InappChecksum => proto err.INAPP_CKSUM "INVALID_S4U2SELF_CHECKSUM"
  | Integrity => proto err.MODIFIED "INVALID_S4U2SELF_CHECKSUM"
  | _ => proto err.GENERIC "INVALID_S4U2SELF_CHECKSUM"
  end.

Definition etype_requires_info2 (e : EncryptionType) : bool := negb (bool_decide (e ∈ [Des3CbcSha1; Rc4Hmac])).

(** [is_none_or(|x| x.is_empty())] of the user's name and of the certificate. *)
Definition empty_user (id : S4uUserId) : bool :=
  match id_user id with Some n => bool_decide (PrincipalName.name_string n = []) | None => true end.
Definition empty_cert (id : S4uUserId) : bool := match subject_cert id with Some (_ :: _) => false | _ => true end.

Section S4u.
Context `{KdcStore} `{Codecs} {Prim : Primitives}.

(** ** S4U2Self *)

Definition verify_for_user_checksum (tgt_session : Key.ProtocolKey) (p : PaForUser) : result KdcError unit :=
  if negb (cksumtype_is_keyed (cksumtype (fu_cksum p))) then Err (proto err.INAPP_CKSUM "INVALID_S4U2SELF_CHECKSUM")
  else
    let data := pa_for_user_cksum_data (fu_user_name p) (utf8_or_empty (fu_user_realm p)) (utf8_or_empty (auth_package p)) in
    map_err map_s4u_cksum
      (Ops.verify_checksum_keyed tgt_session ku.PA_FOR_USER data (cksumtype (fu_cksum p)) (checksum (fu_cksum p))).

Definition x509_cksum_key (tgt_session : Key.ProtocolKey) (tgs_subkey : option EncryptionKey)
    : result KdcError Key.ProtocolKey :=
  match tgs_subkey with
  | Some sub => map_err CryptoErr (protocol_key sub)
  | None => Ok tgt_session
  end.

(** The octets of the user identifier as they were sent: the first element with
    tag [0xa0] of the sequence. *)
Definition userid_der_from_pa (raw : bytes) : option bytes :=
  match take_der raw with
  | Some (_, seq, _) => find_tag (length seq) xa0 seq
  | None => None
  end.

Definition process_s4u_x509_user (raw : bytes) (tgt_session : Key.ProtocolKey) (tgs_subkey : option EncryptionKey)
    (n : Z) : result KdcError PaS4uX509User :=
  let? req := map_err (fun _ => proto err.GENERIC "DECODE_PA_S4U_X509_USER") (decode (A := PaS4uX509User) raw) in
  let? k := x509_cksum_key tgt_session tgs_subkey in
  let ck := x509_cksum req in
  let id := x509_user_id req in
  if etype_requires_info2 (Key.etype k) && negb (cksumtype_is_keyed (cksumtype ck))
  then Err (proto err.INAPP_CKSUM "INVALID_S4U2SELF_CHECKSUM")
  else if negb (cast_unsigned 32 (id_nonce id) =? n) then Err (proto err.MODIFIED "INVALID_S4U2SELF_CHECKSUM")
  else
    let verify data := Ops.verify_checksum_keyed k ku.PA_S4U_X509_USER_REQUEST data (cksumtype ck) (checksum ck) in
    let sent := match userid_der_from_pa raw with Some scratch => is_ok (verify scratch) | None => false end in
    let? _ := (if sent then Ok tt
               else let? data := encode id in map_err map_s4u_cksum (verify data)) in
    if empty_user id && empty_cert id then Err (proto err.C_PRINCIPAL_UNKNOWN "INVALID_S4U2SELF_REQUEST")
    else Ok req.

Definition s4u_from_userid (id : S4uUserId) (x509 : option PaS4uX509User) : result KdcError S4u2Self :=
  let r := utf8_or_empty (id_realm id) in
  let user := default (PrincipalName.mkName PrincipalName.NT_UNKNOWN []) (id_user id) in
  let? local :=
    (if bool_decide (r = store_realm) then
       if negb (empty_cert id) then Err (proto err.GENERIC "LOOKING_UP_S4U2SELF_PRINCIPAL")
       else
         let? p := fetch_name user in
         let? p := ok_or p (proto err.C_PRINCIPAL_UNKNOWN "UNKNOWN_S4U2SELF_PRINCIPAL") in
         let p := set_pw_expire 0 p in
         Ok (Some (set_attributes (Z.ldiff (attributes p) KDB_REQUIRES_PWCHANGE) p))
     else Ok None) in
  Ok (mkS4u user r local x509).

Definition process_s4u2self_req (tgt_session : Key.ProtocolKey) (tgs_subkey : option EncryptionKey)
    (ps : option MethodData) (n : Z) : result KdcError (option S4u2Self) :=
  match find_pa ps pa.FOR_X509_USER with
  | Some raw =>
      let? x509 := process_s4u_x509_user raw tgt_session tgs_subkey n in
      let? s4u := s4u_from_userid (x509_user_id x509) (Some x509) in
      Ok (Some s4u)
  | None =>
      match find_pa ps pa.FOR_USER with
      | Some raw =>
          let? p := map_err (fun _ => proto err.GENERIC "DECODE_PA_FOR_USER") (decode (A := PaForUser) raw) in
          let? _ := verify_for_user_checksum tgt_session p in
          let? s4u := s4u_from_userid (mkUserId 0 (Some (fu_user_name p)) (fu_user_realm p) None None) None in
          Ok (Some s4u)
      | None => Ok None
      end
  end.

Definition make_s4u2self_rep (req : PaS4uX509User) (tgt_session : Key.ProtocolKey) (tgs_subkey : option EncryptionKey)
    : result KdcError (PaData * option PaData) :=
  let? k := x509_cksum_key tgt_session tgs_subkey in
  let id := x509_user_id req in
  let user_id := mkUserId (id_nonce id) (id_user id) (id_realm id) None
                   (if use_reply_key_usage id then Some s4u_reply_key_usage_flags else None) in
  let? der_id := encode user_id in
  let usage := if use_reply_key_usage user_id then ku.PA_S4U_X509_USER_REPLY else ku.PA_S4U_X509_USER_REQUEST in
  let? mic := map_err CryptoErr (Ops.checksum k usage der_id) in
  let? der := encode (mkX509 user_id (mkCksum (cksumtype (x509_cksum req)) mic)) in
  Ok (mkPa pa.FOR_X509_USER der,
      if etype_requires_info2 (Key.etype k) then None
      else Some (mkPa pa.FOR_X509_USER (checksum (x509_cksum req) ++ mic))).

Definition s4u2self_as_invalid_options (body : KdcReqBody) : bool :=
  opt body flag_bit.FORWARDED || opt body flag_bit.PROXY || opt body flag_bit.VALIDATE
  || opt body flag_bit.RENEW || opt body flag_bit.ENC_TKT_IN_SKEY || opt body flag_bit.CNAME_IN_ADDL_TKT.

(** The principal without name or keys that stands for the server. *)
Definition no_server : Principal
  := Store.from_keys (PrincipalName.mkName PrincipalName.NT_UNKNOWN []) [] [] [] false 0 false 0.

Definition check_tgs_s4u2self `{World} (body : KdcReqBody) (s4u : S4u2Self) (header_cross is_referral : bool)
    (enc_tkt : EncTicketPart) (header_pac : option bytes) : M unit :=
  if s4u2self_as_invalid_options body then lift (Err (proto err.BADOPTION "INVALID S4U2SELF OPTIONS"))
  else if negb header_cross && is_referral then lift (Err (proto err.S_PRINCIPAL_UNKNOWN "LOOKING_UP_SERVER"))
  else if is_some (s4u_local s4u) && header_cross && negb is_referral
  then lift (Err (proto err.C_PRINCIPAL_UNKNOWN "NOT_CROSS_REALM_REQUEST"))
  else if negb (is_some (s4u_local s4u)) && negb header_cross then lift (Err (proto err.POLICY "S4U2SELF_CLIENT_NOT_OURS"))
  else if negb (is_some (s4u_local s4u)) && bool_decide (PrincipalName.name_string (s4u_user s4u) = [])
  then lift (Err (proto err.POLICY "INVALID_XREALM_S4U2SELF_REQUEST"))
  else
    let! raw := lift (ok_or header_pac (proto err.TGT_REVOKED "S4U2SELF_NO_PAC")) in
    let! parsed := lift (map_err (fun _ => proto err.BADOPTION "S4U2SELF_LOCAL_PAC_CLIENT") (Pac.parse raw)) in
    let authtime := Time.unix_seconds (tp_authtime enc_tkt) in
    match s4u_local s4u with
    | Some client =>
        if negb (pac_client_info_eq parsed authtime (components_joined (tp_cname enc_tkt)) None)
        then lift (Err (proto err.BADOPTION "S4U2SELF_LOCAL_PAC_CLIENT"))
        else let! t := unix_now_u32 in lift (KdcPolicy.validate_as_request client no_server (policy_body body) t)
    | None =>
        if negb (pac_client_info_eq parsed authtime (components_joined (s4u_user s4u)) (Some (realm_chars (s4u_realm s4u))))
        then lift (Err (proto err.BADOPTION "S4U2SELF_FOREIGN_PAC_CLIENT"))
        else ret tt
    end.

(** ** S4U2Proxy *)

Definition non_tgt_or_u2u (body : KdcReqBody) : bool :=
  opt body flag_bit.FORWARDED || opt body flag_bit.PROXY || opt body flag_bit.RENEW
  || opt body flag_bit.VALIDATE || opt body flag_bit.ENC_TKT_IN_SKEY.

Definition is_client_db_alias (entry : Principal) (princ : PrincipalName) : bool :=
  match fetch_name princ with
  | Ok (Some p) => bool_decide (name p = name entry) && bool_decide (realm p = realm entry)
  | _ => false
  end.

(** The second component of a name, where it is a string. *)
Definition second_component (n : PrincipalName) : bytes :=
  match PrincipalName.name_string n !! 1%nat with Some i => utf8_or_empty i | None => [] end.

Definition check_tgs_s4u2proxy (body : KdcReqBody) (header : EncTicketPart) (header_pac : option bytes)
    (stkt : option SecondTicket) (dest_realm : bytes) (is_crossrealm is_referral : bool) : result KdcError unit :=
  let? st := ok_or stkt (proto err.BADOPTION "NO_2ND_TKT") in
  if negb (Flags.bit (tp_flags (st_part st)) flag_bit.FORWARDABLE)
  then Err (proto err.BADOPTION "EVIDENCE_TKT_NOT_FORWARDABLE")
  else if non_tgt_or_u2u body then Err (proto err.BADOPTION "INVALID_S4U2PROXY_OPTIONS")
  else if match sname body with Some n => PrincipalName.is_krbtgt n | None => false end
  then Err (proto err.POLICY "NOT_ALLOWED_TO_DELEGATE")
  else
    let? hpac := ok_or header_pac (proto err.TGT_REVOKED "S4U2PROXY_NO_HEADER_PAC") in
    let? header_parsed := map_err (fun _ => proto err.BADOPTION "S4U2PROXY_HEADER_PAC") (Pac.parse hpac) in
    if negb (pac_client_matches header_parsed header) then Err (proto err.BADOPTION "S4U2PROXY_HEADER_PAC")
    else
      let? spac := ok_or (st_pac st) (proto err.MODIFIED "S4U2PROXY_NO_STKT_PAC") in
      let? st_parsed := map_err (fun _ => proto err.BADOPTION "S4U2PROXY_LOCAL_STKT_PAC") (Pac.parse spac) in
      if is_crossrealm then
        if is_referral
           || negb (PrincipalName.is_cross_tgs_principal (name (st_server st)) (realm (st_server st)))
           || negb (bool_decide (second_component (name (st_server st)) = dest_realm))
           || negb (bool_decide (tp_cname (st_part st) = tp_cname header))
           || negb (bool_decide (utf8_or_empty (tp_crealm (st_part st)) = utf8_or_empty (tp_crealm header)))
        then Err (proto err.BADOPTION "XREALM_EVIDENCE_TICKET_MISMATCH")
        else if negb (verify_deleg_pac st_parsed (st_part st) (sname body))
        then Err (proto err.BADOPTION "S4U2PROXY_CROSS_STKT_PAC")
        else Ok tt
      else if negb (is_client_db_alias (st_server st) (tp_cname header))
      then Err (proto err.SERVER_NOMATCH "EVIDENCE_TICKET_MISMATCH")
      else if negb (pac_client_matches st_parsed (st_part st))
      then Err (proto err.BADOPTION "S4U2PROXY_LOCAL_STKT_PAC")
      else Ok tt.

Definition pa_pac_rbcd (ps : option MethodData) : result KdcError bool :=
  match find_pa ps pa.PAC_OPTIONS with
  | None => Ok false
  | Some raw =>
      let? opts := map_err (fun _ => proto err.BADOPTION "INVALID_S4U2PROXY_OPTIONS") (decode (A := PaPacOptions) raw) in
      Ok (Flags.bit (pac_options opts) PAC_OPTIONS_RBCD)
  end.

(** [PrincipalRead::allowed_to_delegate] and [allowed_from]. *)
Definition allowed_to_delegate (server : Principal) (proxy : PrincipalName) : bool :=
  existsb (fun entry =>
             match principal_from_unparsed (Utf8.lossy_chars_of entry) (realm_chars store_realm) with
             | Some (n, r) => PrincipalName.principal_compare n r proxy store_realm
             | None => false
             end) (s4u_allowed_to server).

Definition allowed_from (resource : Principal) (client : PrincipalName) (client_realm : bytes) : bool :=
  bool_decide (Utf8.as_bytes (unparse_chars client (realm_chars client_realm)) ∈ s4u_allowed_from resource).

Definition check_s4u2proxy_policy (ps : option MethodData) (dest impersonator_name : PrincipalName)
    (impersonator_realm : bytes) (impersonator resource : Principal) (is_crossrealm is_referral : bool)
    : result KdcError unit :=
  let? support_rbcd := pa_pac_rbcd ps in
  if is_referral then
    if negb support_rbcd then Err (proto err.BADOPTION "UNSUPPORTED_S4U2PROXY_REQUEST") else Ok tt
  else if support_rbcd && allowed_from resource impersonator_name impersonator_realm then Ok tt
  else if negb is_crossrealm && allowed_to_delegate impersonator dest then Ok tt
  else Err (proto err.BADOPTION (if support_rbcd || negb is_crossrealm then "NOT_ALLOWED_TO_DELEGATE"
                                 else "UNSUPPORTED_S4U2PROXY_REQUEST")).

(** ** User-to-user *)

Definition check_tgs_u2u (stkt : option SecondTicket) (dest : Principal) : result KdcError unit :=
  let? st := ok_or stkt (proto err.BADOPTION "NO_2ND_TKT") in
  if negb (PrincipalName.is_local_tgs_principal (name (st_server st)) (realm (st_server st)))
     || negb (PrincipalName.is_krbtgt_for (name (st_server st)) (realm dest))
  then Err (proto err.POLICY "2ND_TKT_NOT_TGS")
  else
    let? crealm := utf8_realm (tp_crealm (st_part st)) in
    let? client := fetch (lookup_principal_id (tp_cname (st_part st)) crealm) in
    let? client := ok_or client (proto err.SERVER_NOMATCH "2ND_TKT_MISMATCH") in
    if negb (bool_decide (name client = name dest)) || negb (bool_decide (realm client = realm dest))
    then Err (proto err.SERVER_NOMATCH "2ND_TKT_MISMATCH")
    else Ok tt.

End S4u.
