(* ===== verification/Fast.v ===== *)
(** * FAST

    Models the FAST part of [krb5-kdc/src/preauth.rs] (the armored request, its
    armor ticket, the armored reply), [ktkdb_get_entry] of [store/keys.rs] and
    [negotiate_ap_req_etypes] of [krb5-protocol/src/auth_con.rs]. *)

From S2P Require Import Prelude StateErr Etype Primitives Utf8 Ops Prf Name Time Kdc Lockout Pac Transit Store Messages Exchange AuthData.

(** ** Keys of the database as a keytab *)

Inductive KtkdbError := KtNotFound | KvnoNotFound | KtNoPermittedKey | KtBadEnctype.

Fixpoint is_prefix (p l : bytes) : bool :=
  match p, l with
  | [], _ => true
  | x :: p, y :: l => bool_decide (x = y) && is_prefix p l
  | _, [] => false
  end.

Definition is_xrealm_tgt (n : PrincipalName) (realm : bytes) : bool :=
  match PrincipalName.name_string n with
  | [c0; c1] => is_prefix c0 PrincipalName.KRBTGT && negb (bool_decide (c1 = realm))
  | _ => false
  end.

Definition enctype_class (e : Z) : option Z :=
  match e with
  | 6 | 16 => Some 1
  | 23 | 24 => Some 2
  | 17 => Some 3
  | 18 => Some 4
  | 19 => Some 5
  | 20 => Some 6
  | 25 => Some 7
  | 26 => Some 8
  | _ => None
  end.

(** [negotiate_ap_req_etypes]: the enctype both sides use, or a refusal. *)
Section Negotiate.
Context `{Codecs}.

Fixpoint decode_etype_list_loop (ad : AuthorizationData) : option (option (list Z)) :=
  match ad with
  | [] => Some None
  | el :: ad =>
      let found :=
        if ad_type el =? pa.AD_IF_RELEVANT then
          match decode (A := AuthorizationData) (ad_data el) with
          | Ok inner => List.find (fun e => ad_type e =? pa.AD_ETYPE_NEGOTIATION) inner
          | Err _ => None
          end
        else if ad_type el =? pa.AD_ETYPE_NEGOTIATION then Some el
        else None in
      match found with
      | Some e => match decode (A := list Z) (ad_data e) with Ok l => Some (Some l) | Err _ => None end
      | None => decode_etype_list_loop ad
      end
  end.

Definition decode_etype_list (a : Authenticator) : option (option (list Z)) :=
  match auth_authorization_data a with None => Some None | Some ad => decode_etype_list_loop ad end.

Definition negotiate_etype (desired : list Z) (mandatory : nat) (permitted : list EncryptionType)
    : option EncryptionType :=
  if forallb (fun d => existsb (fun p => EType.to_iana p =? d) permitted) (drop mandatory desired)
  then List.find (fun p => bool_decide (EType.to_iana p ∈ desired)) permitted
  else None.

Definition negotiate_ap_req_etypes (a : Authenticator) (session_etype : Z) (permitted : list EncryptionType)
    : option EncryptionType :=
  match decode_etype_list a with
  | None => None
  | Some l =>
      let rfc4537 := default [] l in
      let desired := rfc4537 ++ match auth_subkey a with Some sk => [keytype sk] | None => [] end ++ [session_etype] in
      negotiate_etype desired (length rfc4537) permitted
  end.

End Negotiate.

(** ** The armored request *)

Record FastOk := mkFast {
  armor_key : Key.ProtocolKey;
  inner_padata : MethodData;
  inner_body : bytes;
  fast_nonce : Z;
  fast_options : list bool;
}.

Definition proto_fast (code : Z) : KdcError := proto code "FIND_FAST".

Definition map_fast_unwrap (e : KdcError) : KdcError :=
  if is_crypto e then proto_fast err.BAD_INTEGRITY
  else match e with Protocol _ _ _ => e | _ => proto_fast err.GENERIC end.

(** [crypto_refusal] and [mit_refusal]: the code of the pair. *)
Definition crypto_refusal (e : Error) : Z := match e with Integrity => err.BAD_INTEGRITY | _ => err.GENERIC end.
Definition mit_refusal (code : Z) : Z := errcode_to_protocol code.

Section Fast.
Context `{KdcStore} `{World} `{Codecs} {Prim : Primitives}.

Definition ktkdb_get_entry (principal : option Principal) (n : PrincipalName) (realm : bytes) (v e : Z)
    : result KtkdbError KeyEntry :=
  match principal with
  | None => Err KtNotFound
  | Some p =>
      if attr p (Z.lor KDB_DISALLOW_SVR KDB_DISALLOW_ALL_TIX) then Err KtNotFound
      else
        let? want :=
          (if is_xrealm_tgt n realm then
             match EType.known e with Ok e => Ok (Some e) | Err _ => Err KtNoPermittedKey end
           else Ok None) in
        match Keys.find_enctype policy p want v with
        | Err Keys.NoMatchingKey => Err KvnoNotFound
        | Err Keys.NoPermittedKey => Err KtNoPermittedKey
        | Ok k =>
            if 0 <? e then
              match enctype_class e, enctype_class (EType.to_iana (ke_etype k)) with
              | Some a, Some b => if a =? b then Ok k else Err KtNoPermittedKey
              | _, _ => Err KtBadEnctype
              end
            else Ok k
        end
  end.

Definition ktkdb_code (e : KtkdbError) : Z :=
  match e with KtNotFound => err.NOT_US | KvnoNotFound => err.BADKEYVER | _ => err.GENERIC end.

Definition check_transited (enc_tkt : EncTicketPart) (srealm : bytes) : result Z unit :=
  map_err mit_refusal
    (Transit.check_transited (tp_flags enc_tkt) (tp_crealm enc_tkt) (tp_transited enc_tkt) srealm (capaths settings)).

(** The CAMMACs of an armor ticket: the elements of those that verify. *)
Fixpoint verified_cammacs (cs : AuthorizationData) (key : Key.ProtocolKey) (verified : AuthorizationData)
    : result Z AuthorizationData :=
  match cs with
  | [] => Ok verified
  | el :: cs =>
      let? c := map_err (fun _ => err.GENERIC) (decode (A := Cammac) (ad_data el)) in
      match svc_verifier c with
      | None => Err err.GENERIC
      | Some ver =>
          let? der := map_err (fun _ => err.GENERIC) (encode (cammac_elements c)) in
          match Ops.verify_checksum_type key ku.CAMMAC der (cksumtype (ver_mac ver)) (checksum (ver_mac ver)) with
          | Ok _ => verified_cammacs cs key (verified ++ cammac_elements c)
          | Err (UnsupportedChecksum _) | Err BadChecksumSize => Err err.GENERIC
          | Err _ => verified_cammacs cs key verified
          end
      end
  end.

Definition armor_authdata_verify (enc_tkt : EncTicketPart) (key : Key.ProtocolKey) : result Z unit :=
  let ad := tp_authorization_data enc_tkt in
  let? issued := find_ad ad None pa.AD_KDC_ISSUED in
  let? _ := match issued with
            | first :: _ => if is_ok (decode (A := AdKdcIssued) (ad_data first)) then Ok tt else Err err.GENERIC
            | [] => Ok tt
            end in
  let? cammacs := find_ad ad None pa.AD_CAMMAC in
  let? verified := verified_cammacs cammacs key [] in
  let? pacs := find_ad ad None pa.AD_WIN2K_PAC in
  let? _ := match pacs with
            | pac :: _ => if is_ok (Pac.parse (ad_data pac)) then Ok tt else Err err.GENERIC
            | [] => Ok tt
            end in
  let? inds := find_ad (Some verified) None pa.AD_AUTH_INDICATOR in
  if forallb (fun el => is_ok (decode (A := list Name.ustr) (ad_data el))) inds then Ok tt else Err err.GENERIC.

(** The refusals of [armor_rd_req] are pairs of a code and a text, which
    [armor_ap_request] makes errors with [proto_fast]. *)
Definition refuse {A} (r : result Z A) : M A := lift (map_err proto_fast r).

Definition flag_set (f : list bool) (n : nat) : bool := Flags.bit f n.

(** The server, the session key and the subkey of an armor AP-REQ. *)
Definition armor_rd_req (ap_raw : bytes) : M (PrincipalName * Key.ProtocolKey * option EncryptionKey) :=
  do! refuse (match ap_raw with
              | b :: _ => if Z.land (u8z b) 0xdf =? 0x4e then Ok tt else Err err.MSG_TYPE
              | [] => Err err.MSG_TYPE
              end);
  let! ap := refuse (map_err (fun e => match e with BadPvno => err.BAD_PVNO | Malformed => err.GENERIC end)
                       (decode (A := ApReq) ap_raw)) in
  let ticket := ap_ticket ap in
  let enc := tkt_enc_part ticket in
  let! realm := refuse (match Utf8.from_utf8 (tkt_realm ticket) with
                        | Some _ => if bool_decide (tkt_realm ticket = store_realm) then Ok (tkt_realm ticket)
                                    else Err err.NOT_US
                        | None => Err err.NOT_US
                        end) in
  let! p := refuse (map_err (fun _ => err.GENERIC) (fetch_name (tkt_sname ticket))) in
  let! k := refuse (map_err ktkdb_code
                      (ktkdb_get_entry p (tkt_sname ticket) realm (default 0 (ed_kvno enc)) (ed_etype enc))) in
  let! plain := refuse (map_err crypto_refusal
                          (Ops.decrypt_enc_data (key k) ku.TICKET (ed_etype enc) (cipher enc))) in
  let! enc_tkt := refuse (map_err (fun _ => err.GENERIC) (decode (A := EncTicketPart) plain)) in
  let! session := refuse (map_err crypto_refusal (protocol_key (tp_key enc_tkt))) in
  let a := ap_authenticator ap in
  let! auth_plain := refuse (map_err crypto_refusal
                               (Ops.decrypt_enc_data session ku.AP_REQ_AUTHENTICATOR (ed_etype a) (cipher a))) in
  let! authenticator := refuse (map_err (fun _ => err.GENERIC) (decode (A := Authenticator) auth_plain)) in
  do! refuse (if negb (bool_decide (auth_crealm authenticator = tp_crealm enc_tkt))
                 || negb (PrincipalName.components_eq (auth_cname authenticator) (tp_cname enc_tkt))
              then Err err.BADMATCH else Ok tt);
  do! refuse (check_transited enc_tkt realm);
  let! t := now in
  let now := Time.unix_seconds t in
  let st := default (tp_authtime enc_tkt) (tp_starttime enc_tkt) in
  do! refuse (if now + skew policy <? Time.unix_seconds st then Err err.TKT_NYV else Ok tt);
  do! refuse (if Time.unix_seconds (tp_endtime enc_tkt) + skew policy <? now then Err err.TKT_EXPIRED else Ok tt);
  do! refuse (if skew policy <? Z.abs (now - Time.unix_seconds (auth_ctime authenticator)) then Err err.SKEW else Ok tt);
  do! refuse (if flag_set (tp_flags enc_tkt) flag_bit.INVALID then Err err.GENERIC else Ok tt);
  do! refuse (armor_authdata_verify enc_tkt (key k));
  do! refuse (match negotiate_ap_req_etypes authenticator (keytype (tp_key enc_tkt)) permitted_list with
              | Some _ => Ok tt
              | None => Err err.GENERIC
              end);
  ret (tkt_sname ticket, session, auth_subkey authenticator).

(** The armor key of a subkey and the session key of its ticket. *)
Definition subkey_armor (sub : EncryptionKey) (session : Key.ProtocolKey) : M Key.ProtocolKey :=
  let! subk := refuse (map_err crypto_refusal (protocol_key sub)) in
  refuse (map_err crypto_refusal
            (Prf.krb_fx_cf2 subk session (Store.lit_bytes "subkeyarmor") (Store.lit_bytes "ticketarmor"))).

Definition armor_ap_request (ap_raw : bytes) : M Key.ProtocolKey :=
  let! (sname, session, subkey) := armor_rd_req ap_raw in
  if negb (PrincipalName.is_krbtgt_for sname store_realm) then lift (Err (proto_fast err.SERVER_NOMATCH))
  else match subkey with
       | None => lift (Err (proto_fast err.POLICY))
       | Some sub => subkey_armor sub session
       end.

Definition verify_fast_req_checksum (k : Key.ProtocolKey) (ck_data : bytes) (ck : Checksum)
    : result KdcError unit :=
  match Ops.verify_checksum_type k ku.FAST_REQ_CHKSUM ck_data (cksumtype ck) (checksum ck) with
  | Err (UnsupportedChecksum _) | Err BadChecksumSize => Err (proto_fast err.GENERIC)
  | Err _ => Err (proto_fast err.MODIFIED)
  | Ok _ => if negb (cksumtype_is_keyed (cksumtype ck)) then Err (proto_fast err.POLICY) else Ok tt
  end.

(** The critical options are bits 0 to 15; only bit 1, hide-client-names, is known. *)
Definition unknown_critical (opts : list bool) : bool :=
  existsb (fun i => negb (i =? 1)%nat && default false (opts !! i)) (seq 0 (Nat.min (length opts) 16)).

Definition kdc_find_fast (ps : option MethodData) (checksummed_data : bytes) (tgs_subkey : option EncryptionKey)
    (tgs_session : option Key.ProtocolKey) : M (option FastOk) :=
  match find_pa ps pa.FX_FAST with
  | None => ret None
  | Some raw =>
      let! armored := lift (map_err (fun _ => proto_fast err.GENERIC) (decode (A := KrbFastArmoredReq) raw)) in
      let! k := match armor armored with
                | Some a =>
                    if armor_type a =? ARMOR_AP_REQUEST then
                      match tgs_subkey with
                      | Some _ => lift (Err (proto_fast err.PREAUTH_FAILED))
                      | None => let! k := armor_ap_request (armor_value a) in ret (Some k)
                      end
                    else lift (Err (proto_fast err.PREAUTH_FAILED))
                | None => ret None
                end in
      let! k := match k, tgs_subkey, tgs_session with
                | Some k, _, _ => ret k
                | None, Some sub, Some session => subkey_armor sub session
                | None, _, _ => lift (Err (proto_fast err.PREAUTH_FAILED))
                end in
      let enc := enc_fast_req armored in
      let! plain := refuse (map_err crypto_refusal (Ops.decrypt_enc_data k ku.FAST_ENC (ed_etype enc) (cipher enc))) in
      let! inner := refuse (map_err (fun _ => err.GENERIC) (decode (A := KrbFastReq) plain)) in
      do! lift (verify_fast_req_checksum k checksummed_data (req_checksum armored));
      if unknown_critical (freq_options inner) then lift (Err (proto_fast err.UNKNOWN_CRITICAL_FAST_OPTION))
      else
        let! body := match fast_req_body_der plain with Some b => ret b | None => encoded (freq_body inner) end in
        ret (Some (mkFast k (freq_padata inner) body (nonce (freq_body inner)) (freq_options inner)))
  end.

Definition unwrap_fast_as (ps : option MethodData) (body_der : bytes) : M (option FastOk) :=
  on_err map_fast_unwrap (kdc_find_fast ps body_der None None).

Definition unwrap_fast (req : AsReq) (body_der : bytes) : M (option FastOk) :=
  unwrap_fast_as (padata (as_req req)) body_der.

Definition unwrap_fast_tgs (ps : option MethodData) (pa_tgs_raw : bytes) (subkey : option EncryptionKey)
    (session : Key.ProtocolKey) : M (option FastOk) :=
  on_err map_fast_unwrap (kdc_find_fast ps pa_tgs_raw subkey (Some session)).

Definition FAST_HIDE_CLIENT_NAMES_BIT : nat := 1.

Definition fast_hides_client (opts : list bool) : bool := default false (opts !! FAST_HIDE_CLIENT_NAMES_BIT).

(** ** The armored reply *)

Definition wrap_fast_rep (k : Key.ProtocolKey) (ps : MethodData) (strengthen : option Key.ProtocolKey) (n : Z)
    (fin : option KrbFastFinished) : M PaData :=
  let resp := mkFastResp ps (encryption_key <$> strengthen) fin n in
  let! der := encoded resp in
  let! c := encrypt k ku.FAST_REP der in
  let! v := encoded (mkArmoredRep (mkEnc (EType.to_iana (Key.etype k)) None c)) in
  ret (mkPa pa.FX_FAST v).

Definition fast_finished (k : Key.ProtocolKey) (ticket : Ticket) (client : PrincipalName) (crealm : bytes)
    : M KrbFastFinished :=
  let! tder := encoded ticket in
  let! mic := crypto (Ops.checksum k ku.FAST_FINISHED tder) in
  let! t := now in
  let! crealm := lift (ks crealm) in
  ret (mkFinished t 0 crealm client (mkCksum (EType.checksum_type (Key.etype k)) mic)).

End Fast.
