(* ===== verification/Preauth.v ===== *)
(** * Pre-authentication

    Models the preauthentication framework of [krb5-kdc/src/plugins.rs] and
    [preauth.rs] with the encrypted timestamp and the encrypted challenge of
    [issue/as_req.rs]: the modules and their selection, the filter on their
    errors, the hints sent with a refusal, cookies and freshness tokens.

    The modules are values of the trait [KdcPreauth].  FAST, encrypted timestamp
    and encrypted challenge are modelled whole; PKINIT, SPAKE and OTP up to the
    call of [process_pkinit], [process_spake] and [process_otp], which with the
    modules a program registers are the class [PreauthCode]: the theorems hold
    for every behaviour of theirs.  A one-time password that is verified outside
    the request ([otp_park]) is not modelled. *)

From S2P Require Import Prelude StateErr Etype Primitives Utf8 Ops Prf Name EncList Time Kdc Lockout KdcPolicy Transit Pwqual Store Asn1Text Messages Exchange AuthData Fast.

Record PreauthHint := mkHint { hint_padata : MethodData; hint_cookie : MethodData }.

Inductive PreauthAction :=
| ActPkinit (key : Key.ProtocolKey) (pa : PaData) (signed : bool)
| ActChallenge (e_data : bytes)
| ActSpakeDone (key : Key.ProtocolKey)
| ActEncTsOk
| ActOtp (key : Key.ProtocolKey) (indicators : list Name.ustr).

Record PreauthRock := mkRock {
  rock_client : Principal;
  rock_padata : option MethodData;
  rock_ikey : option Key.ProtocolKey;
  rock_etype : option EncryptionType;
  rock_armor_key : option Key.ProtocolKey;
  rock_as_req_der : bytes;
  rock_body_der : bytes;
  rock_cname : PrincipalName;
}.

(** A step that cannot fail. *)
Abbreviation Total A := (Run -> Run * A).
Definition total {A} (f : Total A) : M A := fun s => let (s, a) := f s in (s, Ok a).

(** The trait: [edata_with_armor] from the client, the armor key, the requested
    enctypes and the client key. *)
Record KdcPreauth := mkPreauth {
  m_name : Name.ustr;
  m_hardware : bool;
  m_edata : Principal -> option Key.ProtocolKey -> list Z -> option Key.ProtocolKey -> Total PreauthHint;
  process_as : PreauthRock -> M (option PreauthAction);
}.

Inductive SpakeStep := SpakeChallenge (e_data : bytes) | SpakeKey (key : Key.ProtocolKey).

Class PreauthCode := {
  process_pkinit : Principal -> option MethodData -> EncryptionType -> bytes -> bytes -> PrincipalName ->
    M (option (Key.ProtocolKey * PaData * bool));
  spake_ready : bool;
  spake_edata : option Key.ProtocolKey -> Total PreauthHint;
  process_spake : Principal -> option MethodData -> Key.ProtocolKey -> bytes -> M (option SpakeStep);
  otp_edata : Principal -> option Key.ProtocolKey -> Total PreauthHint;
  process_otp : PreauthRock -> M (option PreauthAction);
  registered_preauth : list KdcPreauth;
}.

Definition no_hint : PreauthHint := mkHint [] [].

Section Preauth.
Context `{KdcStore} `{World} `{Codecs} {Prim : Primitives}.

Definition have_client_keys (client : Principal) (requested : list Z) : bool :=
  existsb (fun n => match EType.known n with
                    | Ok et => is_ok (Keys.find_enctype policy client (Some et) 0)
                    | Err _ => false
                    end) requested.

(** ** Encrypted timestamp *)

Definition extract_enc_timestamp (ps : option MethodData) : option bytes := find_pa ps pa.ENC_TIMESTAMP.

(** The skew check both timestamps end with. *)
Definition check_patime (ts : PaEncTsEnc) : M unit :=
  let! t := now in
  if skew policy <? Z.abs (Time.unix_seconds t - Time.unix_seconds (patimestamp ts))
  then lift (Err (proto err.SKEW "PREAUTH_FAILED"))
  else ret tt.

(** The encrypted data is decoded again, as in the source. *)
Definition verify_enc_timestamp (k : Key.ProtocolKey) (blob : bytes) : M unit :=
  let! enc := lift (decoded (A := EncryptedData) blob) in
  let! plain := crypto (Ops.decrypt_enc_data k ku.PA_ENC_TIMESTAMP (ed_etype enc) (cipher enc)) in
  let! ts := lift (map_err (fun _ => Asn1Text.preauth_decode_failure plain true) (decode (A := PaEncTsEnc) plain)) in
  check_patime ts.

Definition KDB_NO_PERMITTED_KEY : Z := -1780008418.

(** The loop over the keys: a key that does not decrypt is passed over. *)
Fixpoint try_keys (kes : list KeyEntry) (blob : bytes) : M (option PreauthAction) :=
  match kes with
  | [] => lift (Err (proto err.PREAUTH_FAILED "PREAUTH_FAILED"))
  | k :: kes => fun s =>
      match verify_enc_timestamp (key k) blob s with
      | (s, Ok _) => (s, Ok (Some ActEncTsOk))
      | (s, Err (Crypto _)) | (s, Err (CryptoErr _)) => try_keys kes blob s
      | (s, Err e) => (s, Err e)
      end
  end.

Definition enc_ts_process (rock : PreauthRock) : M (option PreauthAction) :=
  match extract_enc_timestamp (rock_padata rock) with
  | None => ret None
  | Some blob =>
      match decode (A := EncryptedData) blob with
      | Err _ => lift (Err (Asn1Text.preauth_decode_failure blob true))
      | Ok enc =>
          match (match EType.known (ed_etype enc) with
                 | Ok et => if Keys.etype_permitted policy et then Some et else None
                 | Err _ => None
                 end) with
          | None => lift (Err (PreauthModule KDB_NO_PERMITTED_KEY))
          | Some pa_et =>
              let top := Keys.top_kvno (keys (rock_client rock)) in
              try_keys (List.filter (fun k => bool_decide (Some (kvno k) = top) && bool_decide (ke_etype k = pa_et))
                          (keys (rock_client rock))) blob
          end
      end
  end.

Definition EncTsMod : KdcPreauth := {|
  m_name := EncList.lit "encrypted_timestamp";
  m_hardware := false;
  m_edata client armor requested _ s :=
    (s, if is_some armor then no_hint
        else if negb (have_client_keys client requested) then no_hint
        else mkHint [mkPa pa.ENC_TIMESTAMP []] []);
  process_as := enc_ts_process;
|}.

(** ** Encrypted challenge *)

Definition EncChallengeMod : KdcPreauth := {|
  m_name := EncList.lit "encrypted_challenge";
  m_hardware := false;
  m_edata client armor requested _ s :=
    (s, if is_some armor then
          if negb (have_client_keys client requested) then no_hint
          else mkHint [mkPa pa.ENCRYPTED_CHALLENGE []] []
        else no_hint);
  process_as _ := ret None;
|}.

Definition verify_encrypted_challenge (long_term armor_key : Key.ProtocolKey) (blob : bytes) : M unit :=
  let! enc := lift (map_err (fun _ => Asn1Text.preauth_decode_failure blob true) (decode (A := EncryptedData) blob)) in
  let! chal := crypto (Prf.krb_fx_cf2 armor_key long_term (Store.lit_bytes "clientchallengearmor")
                         (Store.lit_bytes "challengelongterm")) in
  let! plain := lift (map_err (fun _ => PreauthModule err.PREAUTH_FAILED)
                        (Ops.decrypt_enc_data chal ku.ENC_CHALLENGE_CLIENT (ed_etype enc) (cipher enc))) in
  let! ts := lift (map_err (fun _ => Asn1Text.preauth_decode_failure plain true) (decode (A := PaEncTsEnc) plain)) in
  check_patime ts.

Definition kdc_encrypted_challenge (armor_key long_term : Key.ProtocolKey) : M PaData :=
  let! chal := crypto (Prf.krb_fx_cf2 armor_key long_term (Store.lit_bytes "kdcchallengearmor")
                         (Store.lit_bytes "challengelongterm")) in
  let! t := now in
  let! der := encoded (mkTs t None) in
  let! c := encrypt chal ku.ENC_CHALLENGE_KDC der in
  let! v := encoded (mkEnc (EType.to_iana (Key.etype chal)) None c) in
  ret (mkPa pa.ENCRYPTED_CHALLENGE v).

(** ** The other modules *)

Context `{PreauthCode}.

Definition FastMod : KdcPreauth := {|
  m_name := EncList.lit "fast";
  m_hardware := false;
  m_edata _ _ _ _ s := (s, mkHint [mkPa pa.FX_FAST []] []);
  process_as _ := ret None;
|}.

Definition PK_AS_REQ : Z := 16.
Definition SPAKE : Z := 151.

Definition PkinitMod : KdcPreauth := {|
  m_name := EncList.lit "pkinit";
  m_hardware := true;
  m_edata client _ _ _ s :=
    (s, if negb (pkinit_on settings) then no_hint
        else mkHint (mkPa PK_AS_REQ [] ::
                     (if attr client KDB_REQUIRES_HW_AUTH then [] else [mkPa pa.PKINIT_KX []])) []);
  process_as rock :=
    if negb (pkinit_on settings) then ret None
    else match rock_etype rock with
         | None => match find_pa (rock_padata rock) PK_AS_REQ with
                   | Some _ => lift (Err (proto err.ETYPE_NOSUPP "CANT_FIND_CLIENT_KEY"))
                   | None => ret None
                   end
         | Some et =>
             let! done := process_pkinit (rock_client rock) (rock_padata rock) et (rock_as_req_der rock)
                            (rock_body_der rock) (rock_cname rock) in
             ret ((fun '(k, p, signed) => ActPkinit k p signed) <$> done)
         end;
|}.

Definition SpakeMod : KdcPreauth := {|
  m_name := EncList.lit "spake";
  m_hardware := false;
  m_edata _ _ _ ikey := spake_edata ikey;
  process_as rock :=
    match rock_ikey rock with
    | None => match spake_ready, find_pa (rock_padata rock) SPAKE with
              | true, Some _ => lift (Err (proto err.ETYPE_NOSUPP "PREAUTH_FAILED"))
              | _, _ => ret None
              end
    | Some ikey =>
        let! r := process_spake (rock_client rock) (rock_padata rock) ikey (rock_body_der rock) in
        ret ((fun st => match st with SpakeChallenge e => ActChallenge e | SpakeKey k => ActSpakeDone k end) <$> r)
    end;
|}.

Definition OtpMod : KdcPreauth := {|
  m_name := EncList.lit "otp";
  m_hardware := false;
  m_edata client armor _ _ := otp_edata client armor;
  process_as := process_otp;
|}.

(** ** Selection *)

Definition preauth_modules : list KdcPreauth :=
  [FastMod; PkinitMod; OtpMod; SpakeMod; EncChallengeMod; EncTsMod] ++ registered_preauth.

Definition is_fast (m : KdcPreauth) : bool := bool_decide (m_name m = EncList.lit "fast").

Definition selected_preauth : list KdcPreauth :=
  let fast := List.filter is_fast preauth_modules in
  let named := List.filter (fun m => negb (is_fast m)
                                     && (negb (bool_decide (m_name m = EncList.lit "otp")) || otp_loaded settings))
                 preauth_modules in
  fast ++ Pwqual.pick m_name (Pwqual.filter_plugin_modules (kdcpreauth settings) (map m_name named)) named.

Definition kdcpreauth_loaded (n : Name.ustr) : bool := existsb (fun m => bool_decide (m_name m = n)) selected_preauth.

(** ** Errors of the modules *)

Definition PASS_THROUGH : list Z :=
  [err.BAD_INTEGRITY; err.SKEW; err.PREAUTH_REQUIRED; err.ETYPE_NOSUPP; err.CLIENT_NOT_TRUSTED; err.INVALID_SIG;
   err.DH_KEY_PARAMETERS_NOT_ACCEPTED; 70; 71; 72; 73; 75; 77; 78; 79; 80; 81; 66; 63; 74; 100;
   err.MORE_PREAUTH_DATA_REQUIRED; err.DISCARD].

Definition wire_of (code : Z) : Z :=
  if (code =? err.PREAUTH_FAILED) || bool_decide (code ∈ PASS_THROUGH) then code else err.PREAUTH_FAILED.

Definition filter_preauth_error (e : KdcError) : KdcError :=
  match e with
  | PreauthRequired _ => e
  | PreauthModule code => Protocol (wire_of code) (Some "PREAUTH_FAILED"%string) None
  | Protocol code _ e_data => Protocol (wire_of code) (Some "PREAUTH_FAILED"%string) e_data
  | _ => Protocol err.PREAUTH_FAILED (Some "PREAUTH_FAILED"%string) None
  end.

Definition is_return_padata (e : KdcError) : bool :=
  match e with Protocol _ (Some t) _ => String.eqb t "KDC_RETURN_PADATA" | _ => false end.

Definition finish_verify_padata (e : KdcError) : KdcError :=
  if is_return_padata e then e else filter_preauth_error e.

(** The modules in turn, to the first that acts or fails. *)
Fixpoint run_modules (ms : list KdcPreauth) (rock : PreauthRock) : M (option PreauthAction) :=
  match ms with
  | [] => ret None
  | m :: ms => fun s =>
      match process_as m rock s with
      | (s, Ok (Some a)) => (s, Ok (Some a))
      | (s, Ok None) => run_modules ms rock s
      | (s, Err e) => (s, Err (finish_verify_padata e))
      end
  end.

Definition run_as_preauth (rock : PreauthRock) : M (option PreauthAction) := run_modules selected_preauth rock.

End Preauth.
