(* ===== verification/Hints.v ===== *)
(** * Cookies, freshness tokens and preauthentication hints

    Models the rest of [krb5-kdc/src/preauth.rs] an AS reply needs and the hint
    functions of [issue/as_req.rs]: the cookie the client echoes, the freshness
    token of PKINIT, the conversions of the error data, and the method data sent
    with a refusal. *)

From S2P Require Import Prelude StateErr Etype Primitives Utf8 Ops Prf Name EncList Time Kdc Lockout KdcPolicy Transit Store Messages Exchange AuthData Fast Preauth.

(** [PrincipalName::unparse_with_realm], as the bytes of the string. *)
Definition unparse_with_realm (n : PrincipalName) (realm : bytes) : bytes :=
  Utf8.as_bytes (Name.unparse_name (map Utf8.lossy_chars_of (PrincipalName.name_string n)) (realm_chars realm)).

Definition COOKIE_LIFETIME : Z := 600.
Definition COOKIE_MAGIC : bytes := lit_bytes "MIT1".
Definition FRESHNESS_LIFETIME : Z := 600.

(** [i32::try_from(n).unwrap_or(0)] and [i32::saturating_sub]. *)
Definition i32_or_zero (n : Z) : Z := if n <=? I32_MAX then n else 0.
Definition i32_sat_sub (a b : Z) : Z := Z.max (- 2 ^ 31) (Z.min I32_MAX (a - b)).

Section Hints.
Context `{KdcStore} `{World} `{Codecs} {Prim : Primitives}.

(** ** Freshness tokens *)

Definition mint_freshness_token (k : Key.ProtocolKey) (v t : Z) : result KdcError bytes :=
  let ts := to_be_bytes 4 t in
  let? mac := map_err CryptoErr (Ops.checksum k ku.PA_AS_FRESHNESS ts) in
  Ok (ts ++ to_be_bytes 4 v ++ mac).

Definition mint_freshness_token_now : M bytes :=
  let! tgt := lift fetch_krbtgt in
  let! tgt := lift (ok_or tgt (proto err.PREAUTH_FAILED "PREAUTH_FAILED")) in
  let! k := lift (map_err (fun _ => proto err.PREAUTH_FAILED "PREAUTH_FAILED") (first_current_key tgt)) in
  let! t := now in
  lift (mint_freshness_token (key k) (kvno k) (Time.unix_seconds t)).

Definition check_freshness_token (token : bytes) (t : Z) : result KdcError unit :=
  let expired := proto err.PREAUTH_EXPIRED "PREAUTH_FAILED" in
  if (length token <=? 8)%nat then Err expired
  else
    let ts := from_be_bytes (slice token 0 4) in
    let v := from_be_bytes (slice token 4 8) in
    let mac := drop 8 token in
    if ts + FRESHNESS_LIFETIME <? t then Err expired
    else match fetch_krbtgt with
         | Ok (Some tgt) =>
             match Keys.find_enctype policy tgt None v with
             | Err _ => Err expired
             | Ok k =>
                 match Ops.verify_checksum_type (key k) ku.PA_AS_FRESHNESS (to_be_bytes 4 ts) 0 mac with
                 | Ok _ => Ok tt
                 | Err _ => Err expired
                 end
             end
         | _ => Err expired
         end.

(** ** Cookies *)

Definition derive_cookie_key (tgt_key : Key.ProtocolKey) (client : PrincipalName) (realm : bytes)
    : result KdcError Key.ProtocolKey :=
  map_err CryptoErr (Prf.derive_prfplus tgt_key (lit_bytes "COOKIE" ++ unparse_with_realm client realm)).

Definition make_cookie_at (client : PrincipalName) (contents : MethodData) (t : Z) : M bytes :=
  match contents, fetch_krbtgt with
  | _ :: _, Ok (Some krbtgt_p) =>
      match first_current_key krbtgt_p with
      | Ok krbtgt =>
          let! k := lift (derive_cookie_key (key krbtgt) client store_realm) in
          let! der := encoded (mkCookie t contents) in
          let! c := encrypt k ku.PA_FX_COOKIE der in
          ret (COOKIE_MAGIC ++ to_be_bytes 4 (kvno krbtgt) ++ c)
      | Err _ => ret (lit_bytes "MIT")
      end
  | _, _ => ret (lit_bytes "MIT")
  end.

Definition make_cookie (client : PrincipalName) (contents : MethodData) : M bytes :=
  let! t := now in
  make_cookie_at client contents (i32_or_zero (Time.unix_seconds t)).

(** [None] where the source returns the empty list before it reads the clock. *)
Definition read_cookie (client : PrincipalName) (blob : bytes) : option SecureCookie :=
  if (length blob <=? 8)%nat || negb (bool_decide (take 4 blob = COOKIE_MAGIC)) then None
  else
    let v := from_be_bytes (slice blob 4 8) in
    match fetch_krbtgt with
    | Ok (Some krbtgt_p) =>
        match Keys.find_enctype policy krbtgt_p None v with
        | Err _ => None
        | Ok ke =>
            match derive_cookie_key (key ke) client store_realm with
            | Err _ => None
            | Ok k =>
                match Ops.decrypt k ku.PA_FX_COOKIE (drop 8 blob) with
                | Err _ => None
                | Ok plain => match decode (A := SecureCookie) plain with Ok c => Some c | Err _ => None end
                end
            end
        end
    | _ => None
    end.

Definition open_cookie (client : PrincipalName) (blob : bytes) : Total MethodData := fun s =>
  match read_cookie client blob with
  | None => (s, [])
  | Some c =>
      (step 1 s,
       let t := i32_or_zero (Time.unix_seconds (clock (ticks s))) in
       if COOKIE_LIFETIME <? i32_sat_sub t (cookie_time c) then [] else cookie_data c)
  end.

(** ** Error data *)

Definition unwrap_or {A} (d : A) (r : result KdcError A) : A := match r with Ok a => a | Err _ => d end.

Definition encode_typed (method : MethodData) : bytes :=
  unwrap_or [] (encode (map (fun p => mkTyped (padata_type p) (padata_value p)) method)).

Definition untyped (t : list TypedData) : MethodData := map (fun e => mkPa (data_type e) (data_value e)) t.

Definition decode_edata_padata (ed : bytes) : MethodData :=
  match decode (A := MethodData) ed with
  | Ok ((_ :: _) as m) => m
  | _ => match decode (A := list TypedData) ed with Ok t => untyped t | Err _ => [] end
  end.

Definition is_cookie (p : PaData) : bool := padata_type p =? pa.FX_COOKIE.

Fixpoint pa_cookie_last (method : MethodData) : MethodData :=
  match method with
  | [] => []
  | p :: method => if is_cookie p then method ++ [p] else p :: pa_cookie_last method
  end.

Definition with_fx_cookie (client : option PrincipalName) (method : MethodData) : Total MethodData := fun s =>
  if existsb is_cookie method then (s, method)
  else match client with
       | None => (s, method)
       | Some c => match make_cookie c [] s with
                   | (s, Ok cookie) => (s, method ++ [mkPa pa.FX_COOKIE cookie])
                   | (s, Err _) => (s, method)
                   end
       end.

Definition prepare_as_edata (client : option PrincipalName) (ed : bytes) : Total bytes := fun s =>
  match decode (A := MethodData) ed with
  | Ok m =>
      match m with
      | [p] => if padata_type p =? pa.FX_FAST then (s, ed)
               else let (s, m) := with_fx_cookie client m s in (s, unwrap_or ed (encode m))
      | [] => (s, ed)
      | _ => let (s, m) := with_fx_cookie client m s in (s, unwrap_or ed (encode m))
      end
  | Err _ =>
      match decode (A := list TypedData) ed with
      | Ok t =>
          let method := untyped t in
          let (s, method') := with_fx_cookie client method s in
          (s, if (length method' =? length method)%nat then ed else encode_typed method')
      | Err _ => (s, ed)
      end
  end.

(** ** Hints *)

Definition key_salt_string (client : Principal) (k : KeyEntry) : option bytes :=
  general_string_of (Utf8.from_utf8_lossy (Store.key_salt k (name client) (realm client))).

Definition enctype_requires_etype_info_2 (e : Z) : bool :=
  match EType.known e with
  | Ok e => negb (bool_decide (e ∈ [Des3CbcSha1; Rc4Hmac]))
  | Err _ => false
  end.

(** [if let Ok(der) = encode(..) { out.push(..) }]. *)
Definition pushed (t : Z) (der : result KdcError bytes) : MethodData :=
  match der with Ok der => [mkPa t der] | Err _ => [] end.

Definition etype_info_padata (client : Principal) (k : KeyEntry) (requested : list Z) : MethodData :=
  let slt := key_salt_string client k in
  let e := EType.to_iana (ke_etype k) in
  (if negb (existsb enctype_requires_etype_info_2 requested)
   then pushed pa.ETYPE_INFO (encode [mkInfo e slt]) else [])
  ++ pushed pa.ETYPE_INFO2 (encode [mkInfo2 e slt None]).

Definition as_rep_key_info (client : Principal) (k : KeyEntry) (requested : list Z) : MethodData :=
  etype_info_padata client k requested
  ++ (if negb (existsb enctype_requires_etype_info_2 requested)
      then [mkPa pa.PW_SALT (Store.key_salt k (name client) (realm client))] else []).

Context `{PreauthCode}.

(** The loop of [advertise_preauth]. *)
Fixpoint advertise_loop (ms : list KdcPreauth) (client : Principal) (armor : option Key.ProtocolKey)
    (requested : list Z) (ikey : option Key.ProtocolKey) (out : PreauthHint) : Total PreauthHint :=
  match ms with
  | [] => fun s => (s, out)
  | m :: ms => fun s =>
      if is_fast m || (attr client KDB_REQUIRES_HW_AUTH && negb (m_hardware m))
      then advertise_loop ms client armor requested ikey out s
      else
        let (s, hint) := m_edata m client armor requested ikey s in
        let cookie := fold_left (fun cs c => if existsb (fun p => padata_type p =? padata_type c) cs then cs
                                             else cs ++ [c]) (hint_cookie hint) (hint_cookie out) in
        advertise_loop ms client armor requested ikey (mkHint (hint_padata out ++ hint_padata hint) cookie) s
  end.

Definition advertise_preauth (client : Principal) (armor : option Key.ProtocolKey) (requested : list Z)
    (ikey : option Key.ProtocolKey) : Total PreauthHint :=
  advertise_loop selected_preauth client armor requested ikey (mkHint [mkPa pa.FX_FAST []] []).

Definition preauth_hint_edata (client : Principal) (ckey : option KeyEntry) (requested : list Z)
    (armor : option Key.ProtocolKey) (request_padata : option MethodData) : Total bytes := fun s =>
  let (s, hint) := advertise_preauth client armor requested (key <$> ckey) s in
  let method := hint_padata hint in
  let method :=
    match ckey with
    | None => method
    | Some k =>
        let at_ := match method with p :: _ => if padata_type p =? pa.FX_FAST then 1%nat else 0%nat | [] => 0%nat end in
        take at_ method ++ etype_info_padata client k requested ++ drop at_ method
    end in
  let (s, method) :=
    if pkinit_on settings && existsb (fun p => padata_type p =? pa.AS_FRESHNESS) (default [] request_padata) then
      match mint_freshness_token_now s with
      | (s, Ok tok) => (s, method ++ [mkPa pa.AS_FRESHNESS tok])
      | (s, Err _) => (s, method)
      end
    else (s, method) in
  let (s, method) :=
    match make_cookie (name client) (hint_cookie hint) s with
    | (s, Ok c) => (s, method ++ [mkPa pa.FX_COOKIE c])
    | (s, Err _) => (s, method)
    end in
  (s, unwrap_or [] (encode method)).

(** [Err(preauth_required(..))]. *)
Definition preauth_required {A} (client : Principal) (ckey : option KeyEntry) (requested : list Z)
    (armor : option Key.ProtocolKey) (request_padata : option MethodData) : M A := fun s =>
  let (s, ed) := preauth_hint_edata client ckey requested armor request_padata s in
  (s, Err (PreauthRequired ed)).

(** [m.map_err(|e| attach_preauth_hint(.., e, ..))]. *)
Definition attach_preauth_hint {A} (client : Principal) (ckey : option KeyEntry) (requested : list Z)
    (armor : option Key.ProtocolKey) (request_padata : option MethodData) (m : M A) : M A := fun s =>
  match m s with
  | (s, Ok a) => (s, Ok a)
  | (s, Err (Protocol code text None)) =>
      if (code =? err.PREAUTH_FAILED) || (code =? err.PREAUTH_EXPIRED) then
        let (s, ed) := preauth_hint_edata client ckey requested armor request_padata s in
        (s, Err (Protocol err.PREAUTH_FAILED text (Some ed)))
      else (s, Err (Protocol code text None))
  | (s, Err e) => (s, Err e)
  end.

End Hints.
