(* ===== verification/Reply.v ===== *)
(** * Tickets, replies and errors

    Models [krb5-kdc/src/issue/reply.rs] with the helpers of [kdc_util.rs] and
    [fast_util.rs] it uses, and the policy modules of [plugins.rs]: the minting
    of a ticket, the encrypted part of a reply, the KRB-ERROR, and the error
    inside a FAST tunnel. *)

From S2P Require Import Prelude StateErr Etype Primitives Utf8 Ops Prf Name EncList Time Kdc Lockout KdcPolicy Transit Pwqual Store Messages Exchange AuthData PacSign Fast Preauth Hints.

(** ** Policy modules *)

Record PolicyAdjustment := mkAdjust { adj_lifetime : Z; adj_renew_lifetime : Z }.

(** The trait [KdcPolicy].  A refusal carries the status word the module set; the
    first argument numbers the call. *)
Record PolicyModule := mkPolicyModule {
  kp_name : Name.ustr;
  check_as : nat -> KdcReqBody -> Principal -> Principal -> list Name.ustr ->
    result (option string * KdcError) PolicyAdjustment;
  check_tgs : nat -> KdcReqBody -> Principal -> EncTicketPart -> list Name.ustr ->
    result (option string * KdcError) PolicyAdjustment;
}.

Class PolicyModules := { sole_policy : option PolicyModule; policies : list PolicyModule }.

Section Policy.
Context `{Chrono} `{KdcStore} `{PolicyModules}.

Definition apply_policy_times (t : Z) (stop : Z) (renew_till : option Z) (adj : PolicyAdjustment) : Z * option Z :=
  let stop :=
    if adj_lifetime adj =? 0 then stop
    else match Time.add_seconds t (adj_lifetime adj) with
         | Some cap => if Time.unix_seconds cap <? Time.unix_seconds stop then cap else stop
         | None => stop
         end in
  let renew_till :=
    if adj_renew_lifetime adj =? 0 then renew_till
    else match Time.add_seconds t (adj_renew_lifetime adj), renew_till with
         | Some cap, Some r => Some (if Time.unix_seconds cap <? Time.unix_seconds r then cap else r)
         | _, _ => renew_till
         end in
  (stop, renew_till).

Definition selected_kdcpolicies (modules : list PolicyModule) : list PolicyModule :=
  Pwqual.pick kp_name (Pwqual.filter_plugin_modules (kdcpolicy settings) (map kp_name modules)) modules.

Definition active_kdcpolicies : list PolicyModule :=
  match sole_policy with Some m => [m] | None => selected_kdcpolicies policies end.

(** The loop of [enforce_kdcpolicy_as] and [enforce_kdcpolicy_tgs]; [ask] calls a
    module. *)
Fixpoint enforce (ask : nat -> PolicyModule -> result (option string * KdcError) PolicyAdjustment)
    (ms : list PolicyModule) (t : Z) (stop : Z) (renew_till : option Z) : M (Z * option Z) :=
  match ms with
  | [] => ret (stop, renew_till)
  | m :: ms => fun s =>
      match ask (ticks s) m with
      | Ok adj => let (stop, renew_till) := apply_policy_times t stop renew_till adj in
                  enforce ask ms t stop renew_till (step 1 s)
      | Err (Some word, e) => (step 1 s, Err (with_status word e))
      | Err (None, e) => (step 1 s, Err e)
      end
  end.

Definition enforce_kdcpolicy_as (request : KdcReqBody) (client server : Principal) (indicators : list Name.ustr)
    (t stop : Z) (renew_till : option Z) : M (Z * option Z) :=
  enforce (fun i m => check_as m i request client server indicators) active_kdcpolicies t stop renew_till.

Definition enforce_kdcpolicy_tgs (request : KdcReqBody) (server : Principal) (ticket : EncTicketPart)
    (indicators : list Name.ustr) (t stop : Z) (renew_till : option Z) : M (Z * option Z) :=
  enforce (fun i m => check_tgs m i request server ticket indicators) active_kdcpolicies t stop renew_till.

End Policy.

(** ** Tickets *)

Record MintTicket := mkMint {
  mt_service_key : Key.ProtocolKey;
  mt_kvno : Z;
  mt_service_etype : EncryptionType;
  mt_session : Key.ProtocolKey;
  mt_srealm : bytes;
  mt_sname : PrincipalName;
  mt_crealm : bytes;
  mt_cname : PrincipalName;
  mt_authtime : Z;
  mt_endtime : Z;
  mt_flags : list bool;
  mt_kdc_key : Key.ProtocolKey;
  mt_transited : TransitedEncoding;
  mt_renew_till : option Z;
  mt_pac : option TicketPac;
  mt_starttime : Z;
  mt_caddr : option (list HostAddress);
  mt_extra_ad : option AuthorizationData;
  mt_indicators : list Name.ustr;
  mt_krbtgt : Principal;
  mt_krbtgt_key : Key.ProtocolKey;
  mt_no_auth_data : bool;
}.

Section Reply.
Context `{KdcStore} `{World} `{Codecs} `{LogonCode} {Prim : Primitives}.

(** The part before its authorization data. *)
Definition base_part (p : MintTicket) (crealm : bytes) : EncTicketPart :=
  mkTktPart (mt_flags p) (encryption_key (mt_session p)) crealm (mt_cname p) (mt_transited p) (mt_authtime p)
    (KdcPolicy.omit_start_if_auth (mt_starttime p) (mt_authtime p)) (mt_endtime p) (mt_renew_till p)
    (mt_caddr p) None.

(** The part with its authorization data: the indicators, then the PAC in front. *)
Definition ticket_part (p : MintTicket) : result KdcError EncTicketPart :=
  let? crealm := ks (mt_crealm p) in
  let part := base_part p crealm in
  let extra := default [] (mt_extra_ad p) in
  let? extra :=
    (if mt_no_auth_data p then Ok extra
     else map_err authdata_failed
            (add_auth_indicators extra (mt_indicators p) (mt_service_key p) (mt_krbtgt p) (mt_krbtgt_key p) part)) in
  match mt_pac p with
  | Some pac =>
      let? placeholder := wrap_win2k_pac [x00] in
      let? checksum_der := encode (set_authdata (Some (placeholder ++ extra)) part) in
      let ticket := mkPacTicket (mt_service_key p) (mt_kdc_key p) checksum_der
                      (should_have_ticket_signature (mt_sname p)) in
      let? pac := ticket_pac pac (mt_cname p) (mt_crealm p) (Time.unix_seconds (mt_authtime p)) ticket in
      let? signed := wrap_win2k_pac pac in
      Ok (set_authdata (Some (signed ++ extra)) part)
  | None => Ok (match extra with [] => part | _ => set_authdata (Some extra) part end)
  end.

Definition mint_ticket (p : MintTicket) : M Ticket :=
  let! part := lift (ticket_part p) in
  let! der := encoded part in
  let! c := encrypt_at "UNKNOWN_REASON" (mt_service_key p) ku.TICKET der in
  let! srealm := lift (ks (mt_srealm p)) in
  ret (mkTicket PVNO srealm (mt_sname p)
         (mkEnc (EType.to_iana (mt_service_etype p)) (if mt_kvno p =? 0 then None else Some (mt_kvno p)) c)).

(** ** The encrypted part of a reply *)

Definition enc_rep_part (session : Key.ProtocolKey) (n authtime starttime stop : Z) (realm : bytes)
    (sname : PrincipalName) (fl : list bool) (renew_till : option Z) (encrypted_pa_data : option MethodData)
    (caddr : option (list HostAddress)) (key_expiration : option Z) : result KdcError EncKdcRepPart :=
  let? realm := ks realm in
  Ok (mkRepPart (encryption_key session) [mkLastReq 0 0] n key_expiration fl authtime
        (KdcPolicy.omit_start_if_auth starttime authtime) stop renew_till realm sname caddr encrypted_pa_data).

Definition enc_pa_rep_padata (reply_key : Key.ProtocolKey) (req_pkt : bytes) : result KdcError MethodData :=
  let? mic := map_err CryptoErr (Ops.checksum reply_key ku.AS_REQ req_pkt) in
  let? v := encode (mkCksum (EType.checksum_type (Key.etype reply_key)) mic) in
  Ok [mkPa pa.REQ_ENC_PA_REP v; mkPa pa.FX_FAST []].

Definition rbcd : PaPacOptions := mkPacOptions (Flags.with_bit Flags.none PAC_OPTIONS_RBCD true).

Definition return_enc_padata (raw : option bytes) (ps : option MethodData) (reply_key : Key.ProtocolKey)
    (want_enc_pa : bool) (extra : option PaData) : result KdcError (option MethodData) :=
  let out := match extra with Some p => [p] | None => [] end in
  let? out :=
    match want_enc_pa, raw with
    | true, Some pkt =>
        let? l := map_err (key_refused_at "KDC_RETURN_ENC_PADATA") (enc_pa_rep_padata reply_key pkt) in
        Ok (out ++ l)
    | _, _ => Ok out
    end in
  let? out :=
    match find_pa ps pa.PAC_OPTIONS with
    | Some raw_po =>
        match decode (A := PaPacOptions) raw_po with
        | Ok opts => if Flags.bit (pac_options opts) PAC_OPTIONS_RBCD then
                       let? v := encode rbcd in Ok (out ++ [mkPa pa.PAC_OPTIONS v])
                     else Ok out
        | Err _ => Ok out
        end
    | None => Ok out
    end in
  Ok (match out with [] => None | _ => Some out end).

Definition include_pac_p (ps : option MethodData) : bool :=
  match find_pa ps pa.PAC_REQUEST with
  | None => true
  | Some raw => match decode (A := PaPacRequest) raw with Ok p => include_pac p | Err _ => true end
  end.

Definition include_pac_for_reply (server : Principal) (ps : option MethodData)
    (is_as_req subject_had_pac anonymous : bool) : bool :=
  if attr server KDB_NO_AUTH_DATA_REQUIRED then false
  else if disable_pac settings || anonymous then false
  else if is_as_req then include_pac_p ps
  else subject_had_pac.

(** ** The KRB-ERROR *)

Definition ascii_opt (s : bytes) : option bytes := if is_ascii s then Some s else None.

(** [PrincipalName::try_new(NT_SRV_INST, ["krbtgt", r])]. *)
Definition try_krbtgt (r : bytes) : option PrincipalName :=
  if is_ascii r then Some (PrincipalName.krbtgt r) else None.

Definition NOT_VALID : bytes := lit_bytes "TICKET NOT VALID".

(** Both fallbacks of the source succeed: the constant is ASCII. *)
Definition encode_krb_error (code : Z) (text : option string) (e_data : option bytes) (body : option KdcReqBody)
    (hide_client : bool) : Total bytes := fun s =>
  let realm_s := match body with
                 | Some b => match Utf8.from_utf8 (body_realm b), body_realm b with
                             | Some _, (_ :: _) as r => r
                             | _, _ => store_realm
                             end
                 | None => store_realm
                 end in
  let realm := default NOT_VALID (ascii_opt realm_s) in
  let sname := match body with
               | Some b => match sname b with
                           | Some n => n
                           | None => default (PrincipalName.krbtgt NOT_VALID) (try_krbtgt realm_s)
                           end
               | None => default (PrincipalName.krbtgt NOT_VALID) (try_krbtgt realm_s)
               end in
  let cname := match body with Some b => cname b | None => None end in
  let '(cname, crealm) :=
    match cname with
    | None => (None, None)
    | Some n => if hide_client then (Some KdcPolicy.anonymous_principal_name, ascii_opt Transit.ANONYMOUS_REALM)
                else (Some n, Some realm)
    end in
  (step 1 s,
   unwrap_or [] (encode (mkKrbError PVNO MSG_ERROR None None (clock (ticks s)) 0 (errcode_to_protocol code)
     crealm cname realm sname (text ≫= (fun t => ascii_opt (lit_bytes t))) e_data))).

(** ** Errors inside the tunnel *)

(** The code, status and error data that go into the tunnel. *)
Definition tunnel_error (e : KdcError) : Z * option string * bytes * option MethodData :=
  match e with
  | PreauthRequired ed =>
      let method := match decode (A := MethodData) ed with Ok m => m | Err _ => [] end in
      (err.PREAUTH_REQUIRED, None, unwrap_or [] (encode method), Some method)
  | Protocol code text ed => (code, text, default [] ed, None)
  | Asn1 => (err.GENERIC, Some "UNKNOWN_REASON"%string, [], None)
  | e => if is_crypto e then (err.PREAUTH_FAILED, Some "PREAUTH_FAILED"%string, [], None)
         else (err.GENERIC, Some "UNKNOWN_REASON"%string, [], None)
  end.

(** [m.map_err(|e| wrap_as_fast(store, fast, e, body))]. *)
Definition wrap_as_fast {A} (fast : option FastOk) (body : KdcReqBody) (m : M A) : M A := fun s =>
  match m s with
  | (s, Ok a) => (s, Ok a)
  | (s, Err e) =>
      match fast with
      | None => (s, Err e)
      | Some f =>
          let '(code, text, inner_ed, as_preauth) := tunnel_error e in
          let ps := match as_preauth with Some m => m | None => decode_edata_padata inner_ed end in
          let (s, ps) := with_fx_cookie (cname body) ps s in
          let (s, inner_err) := encode_krb_error code text None (Some body) false s in
          match wrap_fast_rep (armor_key f) (ps ++ [mkPa pa.FX_ERROR inner_err]) None (fast_nonce f) None s with
          | (s, Ok p) =>
              match encode [p] with
              | Ok outer => (s, Err (if code =? err.PREAUTH_REQUIRED then PreauthRequired outer
                                     else Protocol code text (Some outer)))
              | Err e => (s, Err e)
              end
          | (s, Err e) => (s, Err e)
          end
      end
  end.

End Reply.
