(* ===== verification/Steady.v ===== *)
(** * What the shared functions leave alone

    None of the functions the exchanges share touches the audit or the lockout
    updates: each is [calm].  The modules that are not modelled are assumed to be,
    and to hand out keys of the length their enctype says ([PreauthLaws]); the
    store, to hold such keys ([StoreLaws]). *)

From S2P Require Import Prelude StateErr Etype Primitives Ops Prf Name Time Kdc Lockout KdcPolicy Transit Pwqual Store Messages Exchange Runs AuthData PacSign Fast Preauth Hints Reply.

(** The key of an entry is of the entry's enctype and of its length: [KeyEntry]s
    are built from a [ProtocolKey], whose constructors check it. *)
Definition entry_wf (k : KeyEntry) : Prop := Key.wf (key k) /\ Key.etype (key k) = ke_etype k.

Class StoreLaws `{KdcStore} : Prop :=
  stored_wf i p : fetch i = Ok (Some p) -> Forall entry_wf (keys p).

Definition action_wf (a : PreauthAction) : Prop :=
  match a with
  | ActPkinit k _ _ | ActSpakeDone k | ActOtp k _ => Key.wf k
  | ActChallenge _ | ActEncTsOk => True
  end.

Class PreauthLaws `{PreauthCode} : Prop := {
  pkinit_calm c ps e a b n : calm (process_pkinit c ps e a b n);
  pkinit_wf c ps e a b n s s' k p sg : process_pkinit c ps e a b n s = (s', Ok (Some (k, p, sg))) -> Key.wf k;
  spake_edata_calm k : calm (spake_edata k);
  spake_calm c ps k b : calm (process_spake c ps k b);
  spake_wf c ps k b s s' k' : process_spake c ps k b s = (s', Ok (Some (SpakeKey k'))) -> Key.wf k';
  otp_edata_calm c k : calm (otp_edata c k);
  otp_calm rock : calm (process_otp rock);
  otp_wf rock s s' a : process_otp rock s = (s', Ok (Some a)) -> action_wf a;
  registered_laws m : m ∈ registered_preauth ->
    (forall c k l k', calm (m_edata m c k l k')) /\ (forall rock, calm (process_as m rock)) /\
    (forall rock s s' a, process_as m rock s = (s', Ok (Some a)) -> action_wf a);
}.

Section Steady.
Context `{Chrono} `{KdcStore} `{World} `{Codecs} `{LogonCode} {Prim : Primitives}.

(** ** Authorization data *)

Lemma calm_run_authdata ms tgs rs iss out : calm (run_authdata ms tgs rs iss out).
Proof.
  revert out. induction ms as [|m ms IH]; intros out; cbn [run_authdata]; [apply calm_ret|].
  intros s. etransitivity; [apply (later_step 1)|apply IH].
Qed.
#[local] Hint Resolve calm_run_authdata : calm.

Lemma calm_handle_authdata `{AuthdataModules} tgs anon enc se ck ad rs iss :
  calm (handle_authdata tgs anon enc se ck ad rs iss).
Proof. unfold handle_authdata. calm. Qed.

(** ** FAST *)

Lemma calm_refuse {A} (r : result Z A) : calm (refuse r).
Proof. apply calm_lift. Qed.
#[local] Hint Resolve calm_refuse : calm.

Lemma calm_armor_rd_req b : calm (armor_rd_req b).
Proof. unfold armor_rd_req. calm. Qed.
#[local] Hint Resolve calm_armor_rd_req : calm.

Lemma calm_subkey_armor sub se : calm (subkey_armor sub se).
Proof. unfold subkey_armor. calm. Qed.
#[local] Hint Resolve calm_subkey_armor : calm.

Lemma calm_armor_ap_request b : calm (armor_ap_request b).
Proof. unfold armor_ap_request. calm. Qed.
#[local] Hint Resolve calm_armor_ap_request : calm.

Lemma calm_kdc_find_fast ps d sub se : calm (kdc_find_fast ps d sub se).
Proof. unfold kdc_find_fast. calm. Qed.
#[local] Hint Resolve calm_kdc_find_fast : calm.

Lemma calm_unwrap_fast req d : calm (unwrap_fast req d).
Proof. unfold unwrap_fast, unwrap_fast_as. calm. Qed.
Lemma calm_unwrap_fast_tgs ps d sub se : calm (unwrap_fast_tgs ps d sub se).
Proof. unfold unwrap_fast_tgs. calm. Qed.

Lemma calm_wrap_fast_rep k ps st n fin : calm (wrap_fast_rep k ps st n fin).
Proof. unfold wrap_fast_rep. calm. Qed.
Lemma calm_fast_finished k t c r : calm (fast_finished k t c r).
Proof. unfold fast_finished. calm. Qed.

(** ** Preauthentication *)

Lemma calm_check_patime ts : calm (check_patime ts).
Proof. unfold check_patime. calm. Qed.
#[local] Hint Resolve calm_check_patime : calm.

Lemma calm_verify_enc_timestamp k b : calm (verify_enc_timestamp k b).
Proof. unfold verify_enc_timestamp. calm. Qed.
#[local] Hint Resolve calm_verify_enc_timestamp : calm.

Lemma calm_try_keys ks b : calm (try_keys ks b).
Proof.
  induction ks as [|k ks IH]; cbn [try_keys]; [apply calm_lift|]. intros s.
  pose proof (calm_verify_enc_timestamp (key k) b s) as Hv.
  destruct (verify_enc_timestamp (key k) b s) as [s1 [r|e]]; [done|]. cbn [fst] in Hv.
  destruct e; try done; (etransitivity; [exact Hv|apply IH]).
Qed.
#[local] Hint Resolve calm_try_keys : calm.

Lemma calm_enc_ts_process rock : calm (enc_ts_process rock).
Proof. unfold enc_ts_process. calm. Qed.

Lemma calm_verify_encrypted_challenge k a b : calm (verify_encrypted_challenge k a b).
Proof. unfold verify_encrypted_challenge. calm. Qed.
Lemma calm_kdc_encrypted_challenge a k : calm (kdc_encrypted_challenge a k).
Proof. unfold kdc_encrypted_challenge. calm. Qed.

(** ** Cookies and tokens *)

Lemma calm_mint_freshness_token_now : calm mint_freshness_token_now.
Proof. unfold mint_freshness_token_now. calm. Qed.

Lemma calm_make_cookie c ps : calm (make_cookie c ps).
Proof. unfold make_cookie, make_cookie_at. calm. Qed.

Lemma calm_with_fx_cookie c ps : calm (with_fx_cookie c ps).
Proof.
  unfold with_fx_cookie. intros s. destruct (existsb _ ps); [done|]. destruct c as [c|]; [|done].
  pose proof (calm_make_cookie c [] s) as Hc. by destruct (make_cookie c [] s) as [s1 [k|e]].
Qed.

(** ** Tickets and errors *)

Lemma calm_enforce ask ms t stop renew : calm (enforce ask ms t stop renew).
Proof.
  revert stop renew. induction ms as [|m ms IH]; intros stop renew; cbn [enforce]; [apply calm_ret|].
  intros s. destruct (ask (ticks s) m) as [adj|[[w|] e]]; try apply later_step.
  destruct (apply_policy_times _ _ _ _) as [st rn]. etransitivity; [apply (later_step 1)|apply IH].
Qed.

Lemma calm_mint_ticket p : calm (mint_ticket p).
Proof. unfold mint_ticket. calm. Qed.

Lemma calm_encode_krb_error code text ed body hide : calm (encode_krb_error code text ed body hide).
Proof. intros s. unfold encode_krb_error. destruct (match _ with Some _ => _ | None => _ end) as [c r]. apply later_step. Qed.

Lemma ks_inv b r : ks b = Ok r -> r = b.
Proof. unfold ks. destruct (is_ascii b); [by intros [= ->]|done]. Qed.

(** The part of a minted ticket, up to its authorization data. *)
Lemma ticket_part_inv p tp :
  ticket_part p = Ok tp -> exists ad, tp = set_authdata ad (base_part p (mt_crealm p)).
Proof.
  unfold ticket_part. intros (cr & ->%ks_inv & E)%result_inv. apply result_inv in E as (extra & _ & E).
  destruct (mt_pac p) as [pac|].
  - do 4 (apply result_inv in E as (? & _ & E)). injection E as <-. by eexists.
  - injection E as <-. destruct extra; [by exists None|by eexists].
Qed.

Lemma mint_ticket_opens `{!WorldLaws} {Laws : PrimitiveLaws} `{!CodecsLaws} p t s s' :
  Key.wf (mt_service_key p) -> Key.etype (mt_service_key p) = mt_service_etype p ->
  mint_ticket p s = (s', Ok t) ->
  exists ad, opens (mt_service_key p) ku.TICKET (tkt_enc_part t) (set_authdata ad (base_part p (mt_crealm p))) /\
    tkt_realm t = mt_srealm p /\ tkt_sname t = mt_sname p.
Proof.
  intros Hk He. unfold mint_ticket. intros E. inv_runs.
  apply ticket_part_inv in E0 as [ad ->]. apply ks_inv in E3 as ->. apply encrypt_at_inv in E2.
  exists ad. split; [|done]. rewrite <- He. by eapply encrypt_opens.
Qed.

Lemma subkey_armor_wf sub se k s s' : subkey_armor sub se s = (s', Ok k) -> Key.wf k.
Proof. unfold subkey_armor, refuse. intros E. inv_runs. by eapply cf2_wf. Qed.

Lemma armor_ap_request_wf b k s s' : armor_ap_request b s = (s', Ok k) -> Key.wf k.
Proof.
  unfold armor_ap_request. intros E. apply bind_inv in E as (s1 & [[n se] sub] & _ & E).
  destruct (negb _); [by inv_runs|]. destruct sub; [by eapply subkey_armor_wf|by inv_runs].
Qed.

(** The armor key of an unwrapped request is well formed. *)
Lemma find_fast_wf ps d sub se f s s' : kdc_find_fast ps d sub se s = (s', Ok (Some f)) -> Key.wf (armor_key f).
Proof.
  unfold kdc_find_fast. destruct (find_pa ps pa.FX_FAST) as [raw|]; [|intros E; by inv_runs].
  intros E. apply bind_inv in E as (s1 & armored & _ & E). apply bind_inv in E as (s2 & k0 & E0 & E).
  apply bind_inv in E as (s3 & k & Ek & E). assert (Key.wf k) as Hk.
  { destruct k0 as [k0|].
    - inv_runs. destruct (armor armored) as [arm|]; [|by inv_runs]. destruct (_ =? _); [|by inv_runs].
      destruct sub; inv_runs. by eapply armor_ap_request_wf.
    - destruct sub; [|by inv_runs]. destruct se; [|by inv_runs]. by eapply subkey_armor_wf. }
  do 3 apply bind_inv in E as (? & ? & _ & E). destruct (unknown_critical _); [by inv_runs|].
  apply bind_inv in E as (? & ? & _ & E). by inv_runs.
Qed.

(** ** The modules *)

(** A key that opens the timestamp was found, and the modules before it did not
    turn back the clock. *)
Lemma try_keys_inv ks b s s' a :
  try_keys ks b s = (s', Ok a) ->
  a = Some ActEncTsOk /\
  exists k s1, k ∈ ks /\ later s s1 /\ verify_enc_timestamp (key k) b s1 = (s', Ok tt).
Proof.
  revert s. induction ks as [|k ks IH]; intros s; cbn [try_keys]; [by intros [=]|].
  pose proof (calm_verify_enc_timestamp (key k) b s) as Hv.
  destruct (verify_enc_timestamp (key k) b s) as [s1 [[]|e]] eqn:E; cbn [fst] in Hv.
  - intros [= -> <-]. split; [done|]. exists k, s. split; [by left|]. by split.
  - intros Ht. assert (try_keys ks b s1 = (s', Ok a)) as Ht' by (by destruct e).
    destruct (IH s1 Ht') as (Ha & k' & s2 & Hk & Hl & E2). split; [done|].
    exists k', s2. split; [by right|]. split; [by etransitivity|done].
Qed.

Lemma enc_ts_process_inv rock s s' a :
  enc_ts_process rock s = (s', Ok (Some a)) ->
  a = ActEncTsOk /\
  exists b enc k s1, find_pa (rock_padata rock) pa.ENC_TIMESTAMP = Some b /\ decode b = Ok enc /\
    k ∈ keys (rock_client rock) /\ Some (kvno k) = Keys.top_kvno (keys (rock_client rock)) /\
    EType.known (ed_etype enc) = Ok (ke_etype k) /\ Keys.etype_permitted policy (ke_etype k) = true /\
    later s s1 /\ verify_enc_timestamp (key k) b s1 = (s', Ok tt).
Proof.
  unfold enc_ts_process, extract_enc_timestamp. destruct (find_pa _ _) as [b|]; [|by intros [=]].
  destruct (decode b) as [enc|] eqn:Eb; [|by intros [=]].
  destruct (EType.known (ed_etype enc)) as [et|] eqn:Ek; [|by intros [=]].
  destruct (Keys.etype_permitted policy et) eqn:Ep; [|by intros [=]].
  intros E. apply try_keys_inv in E as ([= ->] & k & s1 & Hk & Hl & Hv). split; [done|].
  exists b, enc, k, s1. apply list_elem_of_In, filter_In in Hk as [Hk Hf].
  to_prop. subst et. rewrite <- list_elem_of_In in Hk. by split_and!.
Qed.

Context `{!PreauthCode}.

Lemma selected_preauth_sub m : m ∈ selected_preauth -> m ∈ preauth_modules.
Proof.
  unfold selected_preauth. intros [Hm|Hm]%elem_of_app; [|apply Pwqual.pick_subset in Hm];
    by apply list_elem_of_In, filter_In, proj1, list_elem_of_In in Hm.
Qed.

Context `{!PreauthLaws}.

(** What every module promises. *)
Definition module_ok (m : KdcPreauth) : Prop :=
  (forall c k l k', calm (m_edata m c k l k')) /\ (forall rock, calm (process_as m rock)) /\
  (forall rock s s' a, process_as m rock s = (s', Ok (Some a)) -> action_wf a).

Lemma quiet_module_ok m :
  (forall rock, process_as m rock = ret None) -> (forall c k l k', calm (m_edata m c k l k')) -> module_ok m.
Proof. intros Hp He. split_and!; [done|intros; rewrite Hp; apply calm_ret|]. intros rock s s' a. rewrite Hp. by intros [=]. Qed.

Lemma EncTsMod_ok : module_ok EncTsMod.
Proof.
  split_and!; cbn [m_edata process_as EncTsMod]; intros; [apply calm_const|apply calm_enc_ts_process|].
  by match goal with E : _ = (_, _) |- _ => apply enc_ts_process_inv in E as [-> _] end.
Qed.

Lemma PkinitMod_ok : module_ok PkinitMod.
Proof.
  pose proof pkinit_calm. split_and!; cbn [m_edata process_as PkinitMod]; [intros; apply calm_const|calm|].
  intros rock s s' a. destruct (negb _); [by intros [=]|]. destruct (rock_etype rock) as [et|].
  - intros E. inv_runs. destruct a0 as [[[k p] sg]|]; [|done]. simplify_eq/=. by eapply pkinit_wf.
  - destruct (find_pa _ _); by intros [=].
Qed.

Lemma SpakeMod_ok : module_ok SpakeMod.
Proof.
  pose proof spake_calm. split_and!; cbn [m_edata process_as SpakeMod]; [intros; apply spake_edata_calm|calm|].
  intros rock s s' a. destruct (rock_ikey rock) as [k|].
  - intros E. inv_runs. destruct a0 as [[e|k']|]; simplify_eq/=; [done|]. by eapply spake_wf.
  - destruct spake_ready; [|by intros [=]]. destruct (find_pa _ _); by intros [=].
Qed.

Lemma OtpMod_ok : module_ok OtpMod.
Proof. split_and!; cbn; intros; [apply otp_edata_calm|apply otp_calm|by eapply otp_wf]. Qed.

Lemma modules_ok : Forall module_ok selected_preauth.
Proof.
  apply list.Forall_forall. intros m Hin%selected_preauth_sub.
  unfold preauth_modules in Hin. rewrite elem_of_app in Hin. destruct Hin as [Hin|Hin].
  - repeat (apply elem_of_cons in Hin as [->|Hin];
      [first [apply EncTsMod_ok|apply PkinitMod_ok|apply SpakeMod_ok|apply OtpMod_ok
             |apply quiet_module_ok; [done|intros; apply calm_const]]|]).
    by apply elem_of_nil in Hin.
  - by apply registered_laws.
Qed.

Lemma run_modules_calm ms rock : Forall module_ok ms -> calm (run_modules ms rock).
Proof.
  induction 1 as [|m ms (_ & Hm & _) _ IH]; cbn [run_modules]; [apply calm_ret|]. intros s.
  specialize (Hm rock s). destruct (process_as m rock s) as [s1 [[a|]|e]]; [done| |done].
  etransitivity; [exact Hm|apply IH].
Qed.

(** The module that acted. *)
Lemma run_modules_inv ms rock s s' a :
  Forall module_ok ms -> run_modules ms rock s = (s', Ok (Some a)) ->
  exists m s1, m ∈ ms /\ later s s1 /\ process_as m rock s1 = (s', Ok (Some a)).
Proof.
  intros Hok. revert s. induction Hok as [|m ms (_ & Hm & _) _ IH]; intros s; cbn [run_modules]; [by intros [=]|].
  specialize (Hm rock s). destruct (process_as m rock s) as [s1 [[a'|]|e]] eqn:E; [|intros Hr|by intros [=]].
  - intros [= -> ->]. exists m, s. split; [by left|]. by split.
  - destruct (IH s1 Hr) as (m' & s2 & Hin & Hl & E2). exists m', s2. split; [by right|].
    split; [by etransitivity|done].
Qed.

Lemma calm_run_as_preauth rock : calm (run_as_preauth rock).
Proof. apply run_modules_calm, modules_ok. Qed.

Lemma run_as_preauth_inv rock s s' a :
  run_as_preauth rock s = (s', Ok (Some a)) ->
  action_wf a /\ exists m s1, m ∈ selected_preauth /\ later s s1 /\ process_as m rock s1 = (s', Ok (Some a)).
Proof.
  intros E. apply run_modules_inv in E as (m & s1 & Hm & Hl & E); [|apply modules_ok].
  split; [|by exists m, s1]. pose proof modules_ok as Hok. rewrite list.Forall_forall in Hok.
  destruct (Hok m Hm) as (_ & _ & Hw). by eapply Hw.
Qed.

Lemma calm_advertise_loop ms c arm req ik out : Forall module_ok ms -> calm (advertise_loop ms c arm req ik out).
Proof.
  intros Hok. revert out. induction Hok as [|m ms (He & _ & _) _ IH]; intros out; cbn [advertise_loop]; [apply calm_const|].
  intros s. destruct (is_fast m || _); [apply IH|]. apply calm_then; [apply He|]. intros s' h. apply IH.
Qed.

Lemma calm_preauth_hint_edata c ck req arm ps : calm (preauth_hint_edata c ck req arm ps).
Proof.
  intros s. unfold preauth_hint_edata. apply calm_then; [apply calm_advertise_loop, modules_ok|]. intros s1 h.
  set (method := match ck with Some _ => _ | None => _ end). clearbody method.
  assert (forall s2 me, later s2 (fst (let (s, method) :=
      match make_cookie (name c) (hint_cookie h) s2 with
      | (s, Ok c) => (s, me ++ [mkPa pa.FX_COOKIE c])
      | (s, Err _) => (s, me)
      end in (s, unwrap_or [] (encode method))))) as Htail.
  { intros s2 me. pose proof (calm_make_cookie (name c) (hint_cookie h) s2) as Hm.
    by destruct (make_cookie (name c) (hint_cookie h) s2) as [s3 [t|e]]. }
  destruct (pkinit_on settings && _); [|apply Htail].
  pose proof (calm_mint_freshness_token_now s1) as Hm.
  destruct (mint_freshness_token_now s1) as [s2 [t|e]]; (etransitivity; [exact Hm|apply Htail]).
Qed.

Lemma calm_preauth_required {A} c ck req arm ps : calm (preauth_required (A := A) c ck req arm ps).
Proof. intros s. apply calm_then; [apply calm_preauth_hint_edata|]. by intros s1 ed. Qed.

Lemma calm_attach_preauth_hint {A} c ck req arm ps (m : M A) : calm m -> calm (attach_preauth_hint c ck req arm ps m).
Proof.
  intros Hm s. unfold attach_preauth_hint. specialize (Hm s). destruct (m s) as [s1 [a|e]]; [done|]. cbn [fst] in Hm.
  destruct e; try done. destruct e_data; [done|]. destruct (_ || _); [|done].
  pose proof (calm_preauth_hint_edata c ck req arm ps s1) as Hh.
  destruct (preauth_hint_edata c ck req arm ps s1) as [s2 ed]. by etransitivity.
Qed.

Lemma attach_preauth_hint_inv {A} c ck req arm ps (m : M A) s s' a :
  attach_preauth_hint c ck req arm ps m s = (s', Ok a) -> m s = (s', Ok a).
Proof.
  unfold attach_preauth_hint. destruct (m s) as [s1 [b|e]]; [by intros [= -> ->]|].
  destruct e; try by intros [=]. destruct e_data; [by intros [=]|]. destruct (_ || _); [|by intros [=]].
  destruct (preauth_hint_edata _ _ _ _ _ _). by intros [=].
Qed.

End Steady.

#[export] Hint Resolve calm_handle_authdata calm_refuse calm_armor_rd_req calm_subkey_armor calm_armor_ap_request
  calm_kdc_find_fast calm_unwrap_fast calm_unwrap_fast_tgs calm_wrap_fast_rep calm_fast_finished
  calm_verify_encrypted_challenge calm_kdc_encrypted_challenge calm_with_fx_cookie calm_enforce calm_mint_ticket
  calm_encode_krb_error calm_run_as_preauth calm_preauth_hint_edata calm_preauth_required calm_attach_preauth_hint : calm.
