(* ===== verification/Sample.v ===== *)
(** * A sample realm

    Concrete instances of the classes the exchanges are parameterised by, for the
    examples: a realm [R] with a ticket-granting service, a service [h/s] and two
    clients, [u], which must preauthenticate, and [v], which need not; a stopped
    clock; constant random octets; the toy primitives and the toy codec; no PAC,
    and no preauthentication but the timestamp and the challenge. *)

From S2P Require Import Prelude StateErr Etype Primitives Name EncList Time Kdc Pwqual Store Messages ToyCodec Exchange Runs AuthData PacSign Fast Preauth Hints Reply Steady.

Module Sample.

Definition R : bytes := lit_bytes "R".
Definition key_of (b : byte) : Key.ProtocolKey := Key.mk Aes256CtsHmacSha196 (replicate 32 b).
Definition nm (t : Z) (l : list string) : PrincipalName := PrincipalName.mkName t (map lit_bytes l).

Definition entry (n : PrincipalName) (b : byte) (preauth : bool) : Principal :=
  Store.from_keys n R [new_entry Aes256CtsHmacSha196 (key_of b) 1] [] preauth 36000 false 0.

Definition u : PrincipalName := nm 1 ["u"%string].
Definition v : PrincipalName := nm 1 ["v"%string].
Definition service : PrincipalName := nm 3 ["h"; "s"]%string.

Definition entries : list Principal :=
  [entry (PrincipalName.krbtgt R) x21 false; entry service x22 false; entry u x23 true; entry v x24 false].

Definition settings : Settings :=
  mkSettings ∅ true true false [] [] None [] [] (Pwqual.mkRelations None None) (Pwqual.mkRelations None None) false false ∅.

Definition read : PrincipalRead := {|
  store_realm := R;
  policy := mkPolicy 86400 604800 300 false false false None false false false;
  named_policy_for _ := None;
|}.

Definition store : KdcStore := {|
  kdc_read := read;
  Exchange.settings := settings;
  fetch i := Ok (List.find (fun p => bool_decide (Store.principal_id p = i)) entries);
|}.

Definition NOW : Z := 1700000000.

Definition world : World := {| rng i n := Some (replicate n (z8 (Z.of_nat i))); clock _ := NOW |}.

Lemma world_laws : @WorldLaws world.
Proof. intros i n b [= <-]. apply length_replicate. Qed.

Definition modules : AuthdataModules := [].

Definition preauth : PreauthCode := {|
  process_pkinit _ _ _ _ _ _ := ret None;
  spake_ready := false;
  spake_edata _ s := (s, no_hint);
  process_spake _ _ _ _ := ret None;
  otp_edata _ _ s := (s, no_hint);
  process_otp _ := ret None;
  registered_preauth := [];
|}.

Definition policy_modules : PolicyModules := {| sole_policy := None; policies := [] |}.

Lemma store_laws : @StoreLaws store.
Proof.
  intros i p [= E]. repeat (destruct (bool_decide _) in E; [injection E as <-; by repeat constructor|]). done.
Qed.

Lemma preauth_laws : @PreauthLaws preauth.
Proof.
  split; cbn; intros; try done; try apply calm_ret; try apply calm_const. by apply elem_of_nil in H.
Qed.

#[export] Existing Instances ToyCodecs ToyPrimitives ToyChrono store world NoLogon modules preauth policy_modules.

End Sample.
