(* ===== verification/AsExchange.v ===== *)
(** * The AS exchange

    Models [krb5-kdc/src/issue/as_req.rs] with [as_reply] of [reply.rs]: the
    lookup of client and server, preauthentication, the ticket and the reply, the
    lockout audit of the outcome, and the octets that answer the request. *)

From S2P Require Import Prelude StateErr Etype Primitives Utf8 Ops Prf Name EncList Time Kdc Lockout KdcPolicy Transit Pwqual Store Messages Exchange AuthData PacSign Fast Preauth Hints Reply.

Record IssuedAs := mkIssuedAs { ias_rep : AsRep; ias_session : Key.ProtocolKey; ias_rep_key : Key.ProtocolKey }.

Record AsLookup := mkLookup {
  al_client : Principal;
  al_cname : PrincipalName;
  al_sname : PrincipalName;
  al_server : Principal;
  al_session_etype : EncryptionType;
  al_work_padata : option MethodData;
  al_req_cname : PrincipalName;
  al_ckey : option KeyEntry;
}.

(** What preauthentication has decided: the reply key, padata for the reply,
    whether the client is authenticated, whether a module replaced the reply key,
    and the indicators. *)
Record Verdict := mkVerdict {
  v_rep_key : option Key.ProtocolKey;
  v_extra : MethodData;
  v_skip_timestamp : bool;
  v_replaced : bool;
  v_indicators : list Name.ustr;
}.

(** [AsPreauth]: the lookup, with the name of the ticket, and the verdict. *)
Record AsPreauth := mkAsPre { ap_lookup : AsLookup; ap_cname : PrincipalName; ap_verdict : Verdict; ap_anonymous : bool }.

Definition requires_preauth (p : Principal) : bool := attr p KDB_REQUIRES_PRE_AUTH.

Definition get_key_exp (client : Principal) : option Z :=
  let exp := expiration client in
  let pw := pw_expire client in
  let ts := if exp =? 0 then pw else if pw =? 0 then exp else Z.min exp pw in
  if ts =? 0 then None else Some (Time.from_unix_seconds ts).

(** The audit copy of an anonymous client requires preauthentication. *)
Definition audit_entry (client : Principal) (body : KdcReqBody) (req_cname : PrincipalName) : Principal :=
  if opt body flag_bit.ANONYMOUS && KdcPolicy.is_anonymous_principal req_cname
  then set_attributes (Z.lor (attributes client) KDB_REQUIRES_PRE_AUTH) client
  else client.

Section As.
Context `{Chrono} `{KdcStore} `{World} `{Codecs} `{LogonCode} `{AuthdataModules} `{PreauthCode} `{PolicyModules} {Prim : Primitives}.

(** ** Lookup *)

Definition lookup_as_princ (n : PrincipalName) (looking_up : string) : result KdcError (option Principal) :=
  map_err (fun e => match e with
                    | Protocol code _ _ => if code =? err.SVC_UNAVAILABLE then proto err.SVC_UNAVAILABLE looking_up
                                           else proto err.GENERIC looking_up
                    | _ => proto err.GENERIC looking_up
                    end) (fetch_name n).

Fixpoint select_client_key (princ : Principal) (requested : list Z) : option KeyEntry :=
  match requested with
  | [] => None
  | n :: requested =>
      match EType.known n with
      | Ok e => match Keys.find_enctype policy princ (Some e) 0 with
                | Ok k => Some k
                | Err _ => select_client_key princ requested
                end
      | Err _ => select_client_key princ requested
      end
  end.

Definition lookup_client (req : AsReq) (body : KdcReqBody) (fast : option FastOk) (kdc_time : Z) : M AsLookup :=
  let! r := lift (utf8_realm (body_realm body)) in
  if negb (bool_decide (r = store_realm)) then lift (Err (proto err.C_PRINCIPAL_UNKNOWN "CLIENT_NOT_FOUND"))
  else
    let! req_cname := lift (ok_or (cname body) (proto err.C_PRINCIPAL_UNKNOWN "NULL_CLIENT")) in
    let! client := lift (lookup_as_princ req_cname "LOOKING_UP_CLIENT") in
    let! client := lift (ok_or client (proto err.C_PRINCIPAL_UNKNOWN "CLIENT_NOT_FOUND")) in
    do! assign (set_audited (Some (audit_entry client body req_cname)));
    let cname := if (PrincipalName.name_type req_cname =? PrincipalName.NT_ENTERPRISE) || opt body flag_bit.CANONICALIZE
                 then name client else req_cname in
    let sname := default (PrincipalName.krbtgt store_realm) (sname body) in
    let! server := lift (lookup_as_princ sname "LOOKING_UP_SERVER") in
    let! server := lift (ok_or server (proto err.S_PRINCIPAL_UNKNOWN "SERVER_NOT_FOUND")) in
    do! lift (KdcPolicy.validate_as_request client server (policy_body body) kdc_time);
    let! session_etype := lift (KdcPolicy.select_session_keytype server (body_etype body) policy) in
    let work_padata := match fast with Some f => Some (inner_padata f) | None => padata (as_req req) end in
    ret (mkLookup client cname sname server session_etype work_padata req_cname
           (select_client_key client (body_etype body))).

(** ** Preauthentication *)

Definition ENOENT : Z := 2.

Definition EC_MODULE : Name.ustr := EncList.lit "encrypted_challenge".

(** What the [match] on the action of the modules makes of it. *)
Definition apply_action (l : AsLookup) (a : option PreauthAction) : result KdcError Verdict :=
  let v := mkVerdict (key <$> al_ckey l) [] false false [] in
  match a with
  | Some (ActPkinit k p signed) =>
      Ok (mkVerdict (Some k) [p] true true
            (if signed then fold_left authind_add (pkinit_indicators settings) [] else []))
  | Some (ActChallenge e_data) =>
      let method := decode_edata_padata e_data in
      let method :=
        match al_ckey l with
        | Some ckey =>
            if negb (is_some (find_pa (al_work_padata l) pa.FX_COOKIE))
               && negb (existsb (fun p => padata_type p =? pa.ETYPE_INFO2) method)
            then method ++ pushed pa.ETYPE_INFO2
                             (encode [mkInfo2 (EType.to_iana (ke_etype ckey)) (key_salt_string (al_client l) ckey) None])
            else method
        | None => method
        end in
      Err (Protocol err.MORE_PREAUTH_DATA_REQUIRED (Some "PREAUTH_FAILED"%string)
             (Some (unwrap_or e_data (encode (pa_cookie_last method)))))
  | Some (ActOtp k indicators) => Ok (mkVerdict (Some k) [] true false (fold_left authind_add indicators []))
  | Some (ActSpakeDone k) =>
      Ok (mkVerdict (Some k) [] true false (fold_left authind_add (spake_preauth_indicators settings) []))
  | Some ActEncTsOk => Ok (mkVerdict (v_rep_key v) [] true false [])
  | None => Ok v
  end.

(** The encrypted challenge of an armored request no module has answered. *)
Definition encrypted_challenge (l : AsLookup) (fast : option FastOk) (v : Verdict) : M Verdict :=
  match kdcpreauth_loaded EC_MODULE && negb (v_skip_timestamp v), fast with
  | true, Some f =>
      match find_pa (Some (inner_padata f)) pa.ENCRYPTED_CHALLENGE with
      | Some ((_ :: _) as blob) =>
          match al_ckey l with
          | None => lift (Err (finish_verify_padata (PreauthModule ENOENT)))
          | Some ckey =>
              do! on_err finish_verify_padata (verify_encrypted_challenge (key ckey) (armor_key f) blob);
              let! p := kdc_encrypted_challenge (armor_key f) (key ckey) in
              ret (mkVerdict (v_rep_key v) (v_extra v ++ [p]) true (v_replaced v)
                     (match encrypted_challenge_indicator settings with
                      | Some ai => authind_add (v_indicators v) ai
                      | None => v_indicators v
                      end))
          end
      | _ => ret v
      end
  | _, _ => ret v
  end.

(** The DER of the request body, as it came or encoded again. *)
Definition body_octets (raw : option bytes) (body : KdcReqBody) : M bytes :=
  match raw ≫= kdc_req_body_der with Some b => ret b | None => encoded body end.

Definition finish_preauth (req : AsReq) (raw : option bytes) (body : KdcReqBody) (fast : option FastOk)
    (l : AsLookup) : M AsPreauth :=
  let client := al_client l in
  let ckey := al_ckey l in
  let work_padata := al_work_padata l in
  let arm := armor_key <$> fast in
  let! body_der := body_octets raw body in
  let pa_body := match fast with Some f => inner_body f | None => body_der end in
  if kdcpreauth_loaded EC_MODULE && negb (is_some fast)
     && existsb (fun p => padata_type p =? pa.ENCRYPTED_CHALLENGE) (default [] work_padata)
  then attach_preauth_hint client ckey (body_etype body) None work_padata
         (lift (Err (finish_verify_padata (PreauthModule ENOENT))))
  else
    let anonymous_as := opt body flag_bit.ANONYMOUS in
    if anonymous_as && negb (KdcPolicy.is_anonymous_principal (al_req_cname l))
    then lift (Err (proto err.BADOPTION "VALIDATE_ANONYMOUS_PRINCIPAL"))
    else
      let cname := if anonymous_as then KdcPolicy.anonymous_principal_name else al_cname l in
      let! as_req_der := match raw with Some r => ret r | None => encoded req end in
      let! a := attach_preauth_hint client ckey (body_etype body) arm work_padata
                  (run_as_preauth (mkRock client work_padata (key <$> ckey) (ke_etype <$> ckey) arm as_req_der
                                     pa_body cname)) in
      let! v := lift (apply_action l a) in
      let! v := encrypted_challenge l fast v in
      if (requires_preauth client || anonymous_as) && negb (v_skip_timestamp v)
      then preauth_required client ckey (body_etype body) arm work_padata
      else if attr client KDB_REQUIRES_HW_AUTH then fun s =>
        let (s, ed) := preauth_hint_edata client ckey (body_etype body) arm work_padata s in
        (s, Err (Protocol err.PREAUTH_REQUIRED (Some "NEEDED_HW_PREAUTH"%string) (Some ed)))
      else ret (mkAsPre l cname v anonymous_as).

(** ** The ticket and the reply *)

Definition pa_pkinit_kx (reply_key contrib : Key.ProtocolKey) : M PaData :=
  let! plain := encoded (encryption_key contrib) in
  let! c := encrypt reply_key ku.PA_PKINIT_KX plain in
  let! v := encoded (mkEnc (EType.to_iana (Key.etype reply_key)) None c) in
  ret (mkPa pa.PKINIT_KX v).

(** The session key and the padata that contributes to it. *)
Definition as_session_key (e : EncryptionType) (rep_key : Key.ProtocolKey) (anonymous : bool)
    : M (Key.ProtocolKey * MethodData) :=
  let! session := random_key e in
  if anonymous then
    let! p := pa_pkinit_kx rep_key session in
    let! session := crypto (Prf.krb_fx_cf2 session rep_key (lit_bytes "PKINIT") (lit_bytes "KEYEXCHANGE")) in
    ret (session, [p])
  else ret (session, []).

(** The times and flags of the ticket: start, end, renew-till, flags. *)
Record AsTerms := mkTerms { at_start : Z; at_end : Z; at_renew : option Z; at_flags : list bool }.

Definition as_terms (body : KdcReqBody) (pre : AsPreauth) (t : Z) : M AsTerms :=
  let client := al_client (ap_lookup pre) in
  let server := al_server (ap_lookup pre) in
  let starttime := if opt body flag_bit.POSTDATED then default (Time.from_unix_seconds 0) (from body) else t in
  let fl := KdcPolicy.get_ticket_flags (kdc_options body) (Some client) server None in
  let fl := Flags.with_bit fl flag_bit.PRE_AUTHENT (v_skip_timestamp (ap_verdict pre)) in
  let fl := Flags.with_bit fl flag_bit.HW_AUTHENT false in
  let! stop := lift (KdcPolicy.kdc_get_ticket_endtime starttime None (till body) (Some client) server) in
  let '(renew, fl) :=
    KdcPolicy.kdc_get_ticket_renewtime (policy_body body) None (Some client) server fl starttime stop in
  let! (stop, renew) := enforce_kdcpolicy_as body client server (v_indicators (ap_verdict pre)) t stop renew in
  ret (mkTerms starttime stop renew fl).

Definition ticket_name (body : KdcReqBody) (l : AsLookup) : PrincipalName :=
  if opt body flag_bit.CANONICALIZE && PrincipalName.is_krbtgt (al_sname l) && PrincipalName.is_krbtgt (name (al_server l))
  then name (al_server l) else al_sname l.

Definition issue_crealm (anonymous : bool) : bytes := if anonymous then Transit.ANONYMOUS_REALM else store_realm.

Definition as_ticket (req : AsReq) (body : KdcReqBody) (pre : AsPreauth) (skey : KeyEntry)
    (session : Key.ProtocolKey) (t : Z) (terms : AsTerms) : M Ticket :=
  let l := ap_lookup pre in
  let server := al_server l in
  let inds := v_indicators (ap_verdict pre) in
  let anon := Flags.bit (at_flags terms) flag_bit.ANONYMOUS in
  let with_pac := include_pac_for_reply server (padata (as_req req)) true true anon in
  let! krbtgt_p := lift fetch_krbtgt in
  let! krbtgt_p := lift (ok_or krbtgt_p (proto err.GENERIC "GET_LOCAL_TGT")) in
  let! krbtgt_key := lift (map_err (fun _ => proto err.GENERIC "GET_LOCAL_TGT") (first_current_key krbtgt_p)) in
  let! pac_kdc := lift (pac_privsvr_key server (if PrincipalName.is_krbtgt_for (al_sname l) store_realm
                                               then key skey else key krbtgt_key)) in
  let! extra_ad := on_err authdata_failed (handle_authdata false anon None None None None None None) in
  do! lift (check_indicators server inds);
  mint_ticket {|
    mt_service_key := key skey; mt_kvno := kvno skey; mt_service_etype := ke_etype skey; mt_session := session;
    mt_srealm := store_realm; mt_sname := ticket_name body l; mt_crealm := issue_crealm (ap_anonymous pre);
    mt_cname := ap_cname pre; mt_authtime := t; mt_endtime := at_end terms; mt_flags := at_flags terms;
    mt_kdc_key := pac_kdc; mt_transited := Transit.empty; mt_renew_till := at_renew terms;
    mt_pac := (if with_pac then
                 Some (if pac_has_ad_data None true then PacAd None None None None
                       else PacMit (mkHandlePac None false false None None))
               else None);
    mt_starttime := at_start terms; mt_caddr := addresses body; mt_extra_ad := extra_ad; mt_indicators := inds;
    mt_krbtgt := krbtgt_p; mt_krbtgt_key := key krbtgt_key;
    mt_no_auth_data := attr server KDB_NO_AUTH_DATA_REQUIRED |}.

(** The reply key and the padata of the reply: with FAST the key is strengthened
    and the padata goes into the tunnel. *)
Definition as_reply_key (fast : option FastOk) (rep_key : Key.ProtocolKey) (ticket : Ticket)
    (client : PrincipalName) (crealm : bytes) (outer : MethodData) : M (Key.ProtocolKey * MethodData) :=
  match fast with
  | None => ret (rep_key, outer)
  | Some f =>
      let! sk := random_key (Key.etype rep_key) in
      let! reply_key := crypto (Prf.krb_fx_cf2 sk rep_key (lit_bytes "strengthenkey") (lit_bytes "replykey")) in
      let! fin := fast_finished (armor_key f) ticket client crealm in
      let! p := wrap_fast_rep (armor_key f) outer (Some sk) (fast_nonce f) (Some fin) in
      ret (reply_key, [p])
  end.

Definition finish_process_as_req (req : AsReq) (raw : option bytes) (body : KdcReqBody) (fast : option FastOk)
    (pre : AsPreauth) (kdc_time : Z) : M IssuedAs :=
  let l := ap_lookup pre in
  let v := ap_verdict pre in
  let! skey := lift (map_err (fun _ => proto err.GENERIC "FINDING_SERVER_KEY") (first_current_key (al_server l))) in
  let! rep_key := lift (ok_or (v_rep_key v) (proto err.ETYPE_NOSUPP "CANT_FIND_CLIENT_KEY")) in
  let! (session, kx) := as_session_key (al_session_etype l) rep_key (ap_anonymous pre) in
  let t := Time.from_unix_seconds kdc_time in
  let want_enc_pa := is_some (find_pa (padata (as_req req)) pa.REQ_ENC_PA_REP)
                     || match fast with Some f => is_some (find_pa (Some (inner_padata f)) pa.REQ_ENC_PA_REP)
                        | None => false end in
  let! terms := as_terms body pre t in
  let! ticket := as_ticket req body pre skey session t terms in
  let outer := v_extra v ++ kx
               ++ match v_replaced v, al_ckey l with
                  | false, Some k => as_rep_key_info (al_client l) k (body_etype body)
                  | _, _ => []
                  end in
  let crealm := issue_crealm (ap_anonymous pre) in
  let! (reply_key, outer) := as_reply_key fast rep_key ticket (ap_cname pre) crealm outer in
  let! enc_pa := lift (return_enc_padata raw (al_work_padata l) reply_key want_enc_pa None) in
  let! part := lift (enc_rep_part session (match fast with Some f => fast_nonce f | None => nonce body end)
                       t (at_start terms) (at_end terms) store_realm (ticket_name body l) (at_flags terms)
                       (at_renew terms) enc_pa (addresses body) (get_key_exp (al_client l))) in
  let! enc_der := encoded part in
  let! c := encrypt_at "UNKNOWN_REASON" reply_key ku.AS_REP_ENC_PART enc_der in
  let! (rcrealm, rcname) :=
    match fast with
    | Some f => if fast_hides_client (fast_options f)
                then let! r := lift (ks Transit.ANONYMOUS_REALM) in ret (r, KdcPolicy.anonymous_principal_name)
                else let! r := lift (ks crealm) in ret (r, ap_cname pre)
    | None => let! r := lift (ks crealm) in ret (r, ap_cname pre)
    end in
  ret (mkIssuedAs
         (mkAsRep (mkRep PVNO MSG_AS_REP (match outer with [] => None | _ => Some outer end) rcrealm rcname ticket
                     (mkEnc (EType.to_iana (Key.etype reply_key)) None c)))
         session reply_key).

(** ** The handler *)

Definition issue_as_steps (req : AsReq) (raw : option bytes) (body : KdcReqBody) (fast : option FastOk)
    (kdc_time : Z) : M IssuedAs :=
  let! l := lookup_client req body fast kdc_time in
  let! pre := finish_preauth req raw body fast l in
  finish_process_as_req req raw body fast pre kdc_time.

Definition issue_as_body (req : AsReq) (raw : option bytes) (body : KdcReqBody) (fast : option FastOk)
    : M IssuedAs :=
  let! kdc_time := unix_now_u32 in
  do! assign (set_audited None);
  fun s =>
    let (s, out) := issue_as_steps req raw body fast kdc_time s in
    (match audited s with
     | Some client => match Lockout.lockout_audit client kdc_time (Lockout.as_outcome out) with
                      | Some u => add_lockout (client, kdc_time, u) s
                      | None => s
                      end
     | None => s
     end, out).

Definition issue_as_from (req : AsReq) (raw : option bytes) : M IssuedAs :=
  let outer := req_body (as_req req) in
  let! fast_body := body_octets raw outer in
  if negb (req_msg_type (as_req req) =? MSG_AS_REQ) then lift (Err (proto err.GENERIC "VALIDATE_MESSAGE_TYPE"))
  else
    let! fast := unwrap_fast req fast_body in
    let! body := match fast with Some f => lift (decoded (A := KdcReqBody) (inner_body f)) | None => ret outer end in
    wrap_as_fast fast body (issue_as_body req raw body fast).

(** [peek_as_hides_client]. *)
Definition peek_as_hides_client (req : AsReq) (raw : bytes) : Total bool := fun s =>
  match (match kdc_req_body_der raw with Some b => Ok b | None => encode (req_body (as_req req)) end) with
  | Err _ => (s, false)
  | Ok body =>
      match unwrap_fast req body s with
      | (s, Ok (Some f)) => (s, fast_hides_client (fast_options f))
      | (s, _) => (s, false)
      end
  end.

(** The answer of [as_reply]; its second component is for the log. *)
Definition as_reply (req : AsReq) (raw : bytes) : M bytes := fun s =>
  let (s, hide) := peek_as_hides_client req raw s in
  let body := req_body (as_req req) in
  let krb_error code text ed s : Run * result KdcError bytes :=
    let (s, b) := encode_krb_error code text ed (Some body) hide s in (s, Ok b) in
  match issue_as_from req (Some raw) s with
  | (s, Ok issued) => (s, encode (ias_rep issued))
  | (s, Err (PreauthRequired ed)) =>
      let (s, ed) := prepare_as_edata (cname body) ed s in
      krb_error err.PREAUTH_REQUIRED (Some "NEEDED_PREAUTH"%string) (Some ed) s
  | (s, Err (Protocol code text ed)) =>
      if code =? err.DISCARD then (s, Ok [])
      else match ed with
           | Some ed => let (s, ed) := prepare_as_edata (cname body) ed s in krb_error code text (Some ed) s
           | None => krb_error code text None s
           end
  | (s, Err e) =>
      if is_crypto e then krb_error err.PREAUTH_FAILED (Some "PREAUTH_FAILED"%string) None s
      else krb_error err.GENERIC (Some "UNKNOWN_REASON"%string) None s
  end.

End As.
