(* ===== verification/AsCorrect.v ===== *)
(** * Correctness of the AS exchange

    What a successful run of [issue_as_from] establishes: the ticket and the
    reply agree and are opened by the keys of the service and of the client; a
    client is called preauthenticated only on evidence; no ticket outlives the
    lifetimes of client, service and realm; and the run makes the one lockout
    update its outcome calls for. *)

From S2P Require Import Prelude StateErr Etype Primitives Ops Prf Name Time Kdc Lockout KdcPolicy Transit Pwqual Store Messages ToyCodec Exchange Runs AuthData PacSign Fast Preauth Hints Reply Steady Sample AsExchange.

Section AsCorrect.
Context `{Chrono} `{KdcStore} `{World} `{Codecs} `{LogonCode} `{AuthdataModules} `{PreauthCode} `{PolicyModules} {Prim : Primitives}.

(** ** The lookup *)

Lemma find_enctype_inv pol p e v k :
  Keys.find_enctype pol p e v = Ok k ->
  k ∈ keys p /\ Keys.etype_permitted pol (ke_etype k) = true /\
  (v = 0 -> Some (kvno k) = Keys.top_kvno (keys p)).
Proof.
  unfold Keys.find_enctype. destruct (match e with Some e => _ | None => false end); [done|].
  destruct (Keys.top_kvno (keys p)) as [top|] eqn:Et; [|done]. intros E.
  pose proof (Keys.search_spec pol e (if v =? 0 then top else v) (keys p) false) as Hs.
  rewrite E in Hs. destruct Hs as [Hin (Hv & _ & Hp)]. split_and!; try done.
  intros ->. rewrite Hv. done.
Qed.

Lemma select_client_key_inv p req k :
  select_client_key p req = Some k ->
  k ∈ keys p /\ Keys.etype_permitted policy (ke_etype k) = true /\ Some (kvno k) = Keys.top_kvno (keys p).
Proof.
  induction req as [|n req IH]; cbn [select_client_key]; [done|].
  destruct (EType.known n) as [e|]; [|done]. destruct (Keys.find_enctype policy p (Some e) 0) as [k'|] eqn:E; [|done].
  intros [= ->]. apply find_enctype_inv in E as (? & ? & Ht). split_and!; try done. by apply Ht.
Qed.

(** What the lookup has found. *)
Record looked_up (req : AsReq) (body : KdcReqBody) (fast : option FastOk) (t : Z) (l : AsLookup) : Prop := {
  lu_realm : body_realm body = store_realm;
  lu_cname : cname body = Some (al_req_cname l);
  lu_client : fetch_name (al_req_cname l) = Ok (Some (al_client l));
  lu_sname : al_sname l = default (PrincipalName.krbtgt store_realm) (sname body);
  lu_server : fetch_name (al_sname l) = Ok (Some (al_server l));
  lu_valid : KdcPolicy.validate_as_request (al_client l) (al_server l) (policy_body body) t = Ok tt;
  lu_name : al_cname l = if (PrincipalName.name_type (al_req_cname l) =? PrincipalName.NT_ENTERPRISE)
                            || opt body flag_bit.CANONICALIZE
                         then name (al_client l) else al_req_cname l;
  lu_padata : al_work_padata l = match fast with Some f => Some (inner_padata f) | None => padata (as_req req) end;
  lu_key : al_ckey l = select_client_key (al_client l) (body_etype body);
}.

Lemma lookup_client_inv req body fast t l s s' :
  lookup_client req body fast t s = (s', Ok l) ->
  looked_up req body fast t l /\ s' = set_audited (Some (audit_entry (al_client l) body (al_req_cname l))) s.
Proof.
  unfold lookup_client. intros E. inv_runs. destruct (negb _) eqn:Er; [by inv_runs|]. inv_runs.
  repeat match goal with E : lookup_as_princ _ _ = Ok _ |- _ => apply map_err_inv in E end.
  to_prop. unfold utf8_realm in *. case_match; simplify_eq. by split.
Qed.

(** ** Preauthentication *)

(** The time stamp is within the skew of a reading of the clock between the two states. *)
Definition fresh (s s' : Run) (ts : PaEncTsEnc) : Prop :=
  exists i, (ticks s <= i < ticks s')%nat /\
    Z.abs (Time.unix_seconds (clock i) - Time.unix_seconds (patimestamp ts)) <= skew policy.

(** A current key of the client, of a permitted enctype. *)
Definition current_key (client : Principal) (k : KeyEntry) : Prop :=
  k ∈ keys client /\ Some (kvno k) = Keys.top_kvno (keys client) /\ Keys.etype_permitted policy (ke_etype k) = true.

(** The modules whose verdict is taken as it comes. *)
Definition trusted_modules : list KdcPreauth := [PkinitMod; OtpMod; SpakeMod] ++ registered_preauth.

(** What shows that the client takes part in the exchange: a fresh time stamp
    encrypted in its key, one encrypted in its key combined with the armor key of
    the tunnel, or the verdict of another module while the request was served. *)
Inductive authenticated (s s' : Run) (client : Principal) (ps : option MethodData) (fast : option FastOk) : Prop :=
| by_timestamp b enc k plain ts :
    find_pa ps pa.ENC_TIMESTAMP = Some b -> decode b = Ok enc -> current_key client k ->
    Ops.decrypt_enc_data (key k) ku.PA_ENC_TIMESTAMP (ed_etype enc) (cipher enc) = Ok plain ->
    decode plain = Ok ts -> fresh s s' ts -> authenticated s s' client ps fast
| by_challenge f b enc k chal plain ts :
    fast = Some f -> find_pa ps pa.ENCRYPTED_CHALLENGE = Some b -> decode b = Ok enc -> current_key client k ->
    Prf.krb_fx_cf2 (armor_key f) (key k) (lit_bytes "clientchallengearmor") (lit_bytes "challengelongterm") = Ok chal ->
    Ops.decrypt_enc_data chal ku.ENC_CHALLENGE_CLIENT (ed_etype enc) (cipher enc) = Ok plain ->
    decode plain = Ok ts -> fresh s s' ts -> authenticated s s' client ps fast
| by_module m rock a s1 s2 :
    m ∈ trusted_modules -> m ∈ selected_preauth -> rock_client rock = client -> rock_padata rock = ps ->
    (ticks s <= ticks s1)%nat -> (ticks s2 <= ticks s')%nat ->
    process_as m rock s1 = (s2, Ok (Some a)) -> (forall ed, a <> ActChallenge ed) ->
    authenticated s s' client ps fast.

Lemma check_patime_inv ts s s' :
  check_patime ts s = (s', Ok tt) ->
  s' = step 1 s /\ Z.abs (Time.unix_seconds (clock (ticks s)) - Time.unix_seconds (patimestamp ts)) <= skew policy.
Proof.
  unfold check_patime. intros E. inv_runs. apply now_inv in E0 as [-> ->].
  destruct (skew policy <? _) eqn:Es; inv_runs. to_prop. done.
Qed.

(** A reading taken between two states is fresh for every pair around them. *)
Lemma checked_fresh ts s0 s s' s1 :
  check_patime ts s = (s', Ok tt) -> later s0 s -> later s' s1 -> fresh s0 s1 ts.
Proof.
  intros [-> Hs]%check_patime_inv (Hb & _) (Ha & _). exists (ticks s). cbn in Ha. split; [lia|done].
Qed.

Lemma verify_enc_timestamp_inv k b s s' :
  verify_enc_timestamp k b s = (s', Ok tt) ->
  exists enc plain ts, decode b = Ok enc /\
    Ops.decrypt_enc_data k ku.PA_ENC_TIMESTAMP (ed_etype enc) (cipher enc) = Ok plain /\
    decode plain = Ok ts /\ check_patime ts s = (s', Ok tt).
Proof.
  unfold verify_enc_timestamp, decoded. intros E. inv_runs. eauto 10.
Qed.

Lemma verify_encrypted_challenge_inv k arm b s s' :
  verify_encrypted_challenge k arm b s = (s', Ok tt) ->
  exists enc chal plain ts, decode b = Ok enc /\
    Prf.krb_fx_cf2 arm k (lit_bytes "clientchallengearmor") (lit_bytes "challengelongterm") = Ok chal /\
    Ops.decrypt_enc_data chal ku.ENC_CHALLENGE_CLIENT (ed_etype enc) (cipher enc) = Ok plain /\
    decode plain = Ok ts /\ check_patime ts s = (s', Ok tt).
Proof.
  unfold verify_encrypted_challenge. intros E. inv_runs. eauto 10.
Qed.

Lemma acting_module m rock s s' a :
  m ∈ preauth_modules -> process_as m rock s = (s', Ok (Some a)) -> m = EncTsMod \/ m ∈ trusted_modules.
Proof.
  unfold preauth_modules, trusted_modules. rewrite !elem_of_app.
  intros [Hm|Hm] E; [|by right; right].
  repeat (apply elem_of_cons in Hm as [->|Hm]); try (right; left; set_solver); try (by left); done.
Qed.

Context `{!PreauthLaws} `{!StoreLaws}.

(** What the modules have shown, when one of them has authenticated the client. *)
Lemma run_as_preauth_evidence rock fast s0 s s' s1 a :
  later s0 s -> later s' s1 -> run_as_preauth rock s = (s', Ok (Some a)) -> (forall ed, a <> ActChallenge ed) ->
  authenticated s0 s1 (rock_client rock) (rock_padata rock) fast.
Proof.
  intros Hl0 Hl1 E Ha. apply run_as_preauth_inv in E as (_ & m & s2 & Hm & Hl & E).
  destruct (acting_module m rock s2 s' a (selected_preauth_sub m Hm) E) as [->|Ht].
  2:{ destruct Hl0, Hl, Hl1. eapply by_module; [done|done|done|done| | |done|done]; lia. }
  apply enc_ts_process_inv in E as (-> & b & enc & k & s3 & Hb & Henc & Hk & Htop & _ & Hp & Hl3 & Hv).
  apply verify_enc_timestamp_inv in Hv as (enc' & plain & ts & Henc' & Hd & Hts & Hc).
  eapply by_timestamp; [done|done|by split_and!| |done|].
  - by simplify_eq.
  - eapply checked_fresh; [done| |done]. etransitivity; [done|]. by etransitivity.
Qed.

(** The key a reply starts from: the client's, or the one a module has agreed on. *)
Definition action_key (a : PreauthAction) : option Key.ProtocolKey :=
  match a with ActPkinit k _ _ | ActSpakeDone k | ActOtp k _ => Some k | ActChallenge _ | ActEncTsOk => None end.

Definition long_term (client : Principal) (ckey : option KeyEntry) (k : Key.ProtocolKey) : Prop :=
  key <$> ckey = Some k \/
  exists m rock a s s', m ∈ trusted_modules /\ m ∈ selected_preauth /\ rock_client rock = client /\
    process_as m rock s = (s', Ok (Some a)) /\ action_key a = Some k.

Lemma run_as_preauth_key rock ckey s s' a k :
  run_as_preauth rock s = (s', Ok a) -> a ≫= action_key = Some k -> long_term (rock_client rock) ckey k.
Proof.
  intros E Hk. destruct a as [a|]; [|done]. cbn in Hk. apply run_as_preauth_inv in E as (_ & m & s2 & Hm & _ & E).
  destruct (acting_module m rock s2 s' a (selected_preauth_sub m Hm) E) as [->|Ht]; [|right; by exists m, rock, a, s2, s'].
  by apply enc_ts_process_inv in E as [-> _].
Qed.

(** The verdict after the modules: it is one of authentication only on evidence,
    and its key is well formed. *)
Definition verdict_ok (s s' : Run) (l : AsLookup) (fast : option FastOk) (v : Verdict) : Prop :=
  (v_skip_timestamp v = true -> authenticated s s' (al_client l) (al_work_padata l) fast) /\
  (forall k, v_rep_key v = Some k -> Key.wf k /\ long_term (al_client l) (al_ckey l) k).

Lemma apply_action_inv l a v :
  (forall k, al_ckey l = Some k -> Key.wf (key k)) -> (forall a', a = Some a' -> action_wf a') ->
  apply_action l a = Ok v ->
  (forall k, v_rep_key v = Some k -> Key.wf k /\ (key <$> al_ckey l = Some k \/ a ≫= action_key = Some k)) /\
  (v_skip_timestamp v = true -> exists a', a = Some a' /\ forall ed, a' <> ActChallenge ed).
Proof.
  intros Hck Ha. assert (forall k, key <$> al_ckey l = Some k -> Key.wf k) as Hck'.
  { intros k. destruct (al_ckey l) as [k0|]; [|done]. intros [= <-]. by apply Hck. }
  destruct a as [a|]; cbn [apply_action]; [|intros [= <-]; by split; [auto|]].
  specialize (Ha a eq_refl).
  destruct a; intros E; simplify_eq/=; split; try (intros ? [= <-]; by auto); auto; by eauto.
Qed.

Lemma encrypted_challenge_inv l fast v v' s s' s0 s1 :
  (forall k, al_ckey l = Some k -> current_key (al_client l) k) ->
  (forall f, fast = Some f -> al_work_padata l = Some (inner_padata f)) ->
  later s0 s -> later s' s1 -> verdict_ok s0 s1 l fast v ->
  encrypted_challenge l fast v s = (s', Ok v') -> verdict_ok s0 s1 l fast v'.
Proof.
  intros Hck Hps Hl0 Hl1 [Hv Hk]. unfold encrypted_challenge.
  destruct (kdcpreauth_loaded EC_MODULE && _); [|intros E; by inv_runs].
  destruct fast as [f|]; [|intros E; by inv_runs].
  destruct (find_pa (Some (inner_padata f)) pa.ENCRYPTED_CHALLENGE) as [[|b0 b]|] eqn:Ef; [intros E; by inv_runs| |intros E; by inv_runs].
  destruct (al_ckey l) as [k|] eqn:Eck; intros E; inv_runs.
  split; cbn [v_skip_timestamp v_rep_key]; [intros _|by rewrite Eck].
  pose proof (calm_run _ _ _ _ (calm_kdc_encrypted_challenge _ _) E1) as Hl2.
  apply verify_encrypted_challenge_inv in E0 as (enc & chal & plain & ts & Henc & Hcf & Hd & Hts & Hc).
  eapply (by_challenge _ _ _ _ _ f); [done| |done|by apply Hck|done|done|done|].
  - by rewrite (Hps f eq_refl).
  - eapply checked_fresh; [done|done|]. by etransitivity.
Qed.

(** What preauthentication leaves behind. *)
Record preauthenticated (s s' : Run) (body : KdcReqBody) (fast : option FastOk) (l : AsLookup) (pre : AsPreauth) : Prop := {
  pr_lookup : ap_lookup pre = l;
  pr_anonymous : ap_anonymous pre = opt body flag_bit.ANONYMOUS;
  pr_anonymous_name : ap_anonymous pre = true -> KdcPolicy.is_anonymous_principal (al_req_cname l) = true;
  pr_cname : ap_cname pre = if ap_anonymous pre then KdcPolicy.anonymous_principal_name else al_cname l;
  pr_required : requires_preauth (al_client l) || ap_anonymous pre = true -> v_skip_timestamp (ap_verdict pre) = true;
  pr_hardware : attr (al_client l) KDB_REQUIRES_HW_AUTH = false;
  pr_verdict : verdict_ok s s' l fast (ap_verdict pre);
}.

Lemma body_octets_calm raw body : calm (body_octets raw body).
Proof. unfold body_octets. calm. Qed.

Lemma encrypted_challenge_calm l fast v : calm (encrypted_challenge l fast v).
Proof. unfold encrypted_challenge. calm. Qed.
#[local] Hint Resolve body_octets_calm encrypted_challenge_calm : calm.

Lemma finish_preauth_calm req raw body fast l : calm (finish_preauth req raw body fast l).
Proof.
  unfold finish_preauth. calm. intros s. apply calm_then; [apply calm_preauth_hint_edata|]. by intros s1 ed.
Qed.

Lemma finish_preauth_inv req raw body fast t l pre s s' s0 s1 :
  looked_up req body fast t l -> later s0 s -> later s' s1 ->
  finish_preauth req raw body fast l s = (s', Ok pre) -> preauthenticated s0 s1 body fast l pre.
Proof.
  intros Hlu Hl0 Hl1. assert (forall k, al_ckey l = Some k -> Key.wf (key k) /\ current_key (al_client l) k) as Hck.
  { intros k. rewrite (lu_key _ _ _ _ _ Hlu). intros (Hk & Hp & Ht)%select_client_key_inv.
    pose proof (stored_wf _ _ (lu_client _ _ _ _ _ Hlu)) as Hw. rewrite list.Forall_forall in Hw.
    destruct (Hw k Hk). by split. }
  unfold finish_preauth. intros E. apply bind_inv in E as (s2 & bd & Eb & E).
  destruct (_ && _ && _) eqn:Ec; [apply attach_preauth_hint_inv in E; by inv_runs|].
  destruct (opt body flag_bit.ANONYMOUS && _) eqn:Ea; [by inv_runs|].
  apply bind_inv in E as (s3 & der & Ed & E). apply bind_inv in E as (s4 & a & Ep & E).
  apply attach_preauth_hint_inv in Ep.
  apply bind_inv in E as (s5 & v & [-> Ev]%lift_inv & E). apply bind_inv in E as (s6 & v' & Ech & E).
  assert (later s0 s3) as Hl3.
  { etransitivity; [done|]. etransitivity; [exact (calm_run _ _ _ _ (body_octets_calm _ _) Eb)|].
    destruct raw; inv_runs; reflexivity. }
  destruct ((requires_preauth (al_client l) || _) && _) eqn:Er.
  { unfold preauth_required in E. destruct (preauth_hint_edata _ _ _ _ _ _). by simplify_eq. }
  destruct (attr (al_client l) KDB_REQUIRES_HW_AUTH) eqn:Eh.
  { destruct (preauth_hint_edata _ _ _ _ _ _). by simplify_eq. }
  inv_runs. pose proof (calm_run _ _ _ _ (encrypted_challenge_calm _ _ _) Ech) as Hl6.
  assert (verdict_ok s0 s1 l fast v) as Hv.
  { apply apply_action_inv in Ev as [Hw Hs].
    - split.
      + intros (a' & -> & Hna)%Hs.
        eapply (run_as_preauth_evidence _ fast s0 s3 s4 s1) in Ep; [done|done| |done]. by etransitivity.
      + intros k [Hk [Hb|Hb]]%Hw; (split; [done|]); [by left|by apply (run_as_preauth_key _ _ _ _ _ _ Ep Hb)].
    - intros k Hk. by apply Hck.
    - intros a' ->. by apply run_as_preauth_inv in Ep as [Hw _]. }
  split; cbn [ap_lookup ap_anonymous ap_cname ap_verdict]; try done.
  - intros Hn. rewrite Hn in Ea. cbn [andb] in Ea. by apply negb_false_iff in Ea.
  - intros Hn. rewrite Hn in Er. cbn [andb] in Er. by apply negb_false_iff in Er.
  - eapply encrypted_challenge_inv; [| |exact (transitivity Hl3 (calm_run _ _ _ _ (calm_run_as_preauth _) Ep))| | |done]; try done.
    + intros k Hk. by apply Hck.
    + intros f ->. apply (lu_padata _ _ _ _ _ Hlu).
Qed.

(** ** The ticket and the reply *)

Lemma as_terms_calm body pre t : calm (as_terms body pre t).
Proof. unfold as_terms, enforce_kdcpolicy_as. calm. Qed.
Lemma as_session_key_calm e k an : calm (as_session_key e k an).
Proof. unfold as_session_key, pa_pkinit_kx. calm. Qed.
Lemma as_ticket_calm req body pre skey se t terms : calm (as_ticket req body pre skey se t terms).
Proof. unfold as_ticket. calm. Qed.
Lemma as_reply_key_calm fast k tk c r o : calm (as_reply_key fast k tk c r o).
Proof. unfold as_reply_key. calm. Qed.
#[local] Hint Resolve as_terms_calm as_session_key_calm as_ticket_calm as_reply_key_calm : calm.

Lemma finish_process_calm req raw body fast pre t : calm (finish_process_as_req req raw body fast pre t).
Proof. unfold finish_process_as_req. calm. Qed.

Context `{!WorldLaws} {Laws : PrimitiveLaws} `{!CodecsLaws}.

Lemma as_ticket_inv req body pre skey session t terms tk s s' :
  entry_wf skey -> as_ticket req body pre skey session t terms s = (s', Ok tk) ->
  exists ad, opens (key skey) ku.TICKET (tkt_enc_part tk)
      (mkTktPart (at_flags terms) (encryption_key session) (issue_crealm (ap_anonymous pre)) (ap_cname pre)
         Transit.empty t (KdcPolicy.omit_start_if_auth (at_start terms) t) (at_end terms) (at_renew terms)
         (addresses body) ad) /\
    tkt_realm tk = store_realm /\ tkt_sname tk = ticket_name body (ap_lookup pre).
Proof.
  intros [Hk He]. unfold as_ticket. intros E. inv_runs.
  apply mint_ticket_opens in E; [|done..]. destruct E as (ad & Ho & Hr & Hs). by exists ad.
Qed.

(** The key of the reply: the key [k] itself, or, in a tunnel, [k] strengthened
    by the key the armored response carries. *)
Definition reply_key_from (fast : option FastOk) (ps : option MethodData) (k reply : Key.ProtocolKey) : Prop :=
  match fast with
  | None => reply = k
  | Some f => exists v ed resp sk,
      ps = Some [mkPa pa.FX_FAST v] /\ encode (mkArmoredRep ed) = Ok v /\
      opens (armor_key f) ku.FAST_REP ed resp /\ resp_nonce resp = fast_nonce f /\
      strengthen_key resp = Some (encryption_key sk) /\
      Prf.krb_fx_cf2 sk k (lit_bytes "strengthenkey") (lit_bytes "replykey") = Ok reply
  end.

Lemma as_reply_key_inv fast k tk c r outer outer' reply s s' :
  (forall f, fast = Some f -> Key.wf (armor_key f)) -> Key.wf k ->
  as_reply_key fast k tk c r outer s = (s', Ok (reply, outer')) ->
  Key.wf reply /\ reply_key_from fast (match outer' with [] => None | _ => Some outer' end) k reply.
Proof.
  intros Hf Hk. unfold as_reply_key, reply_key_from. destruct fast as [f|]; [|intros E; by inv_runs].
  specialize (Hf f eq_refl). unfold wrap_fast_rep. intros E. inv_runs.
  split; [by eapply cf2_wf|]. eexists _, _, _, _. split; [done|]. split; [done|].
  split; [by eapply encrypt_opens|]. by split_and!.
Qed.

(** The tunnel hides the client's name from the outside of the reply. *)
Definition hides (fast : option FastOk) : bool :=
  match fast with Some f => fast_hides_client (fast_options f) | None => false end.

(** What client and service have in common after the exchange: [tp] is in the
    ticket, under the key of the service, [rp] in the reply, under the client's. *)
Record agreement (body : KdcReqBody) (fast : option FastOk) (pre : AsPreauth) (t : Z) (issued : IssuedAs)
    (skey : KeyEntry) (tp : EncTicketPart) (rp : EncKdcRepPart) : Prop := {
  ag_skey : first_current_key (al_server (ap_lookup pre)) = Ok skey;
  ag_ticket : opens (key skey) ku.TICKET (tkt_enc_part (rep_ticket (as_rep (ias_rep issued)))) tp;
  ag_reply : opens (ias_rep_key issued) ku.AS_REP_ENC_PART (rep_enc_part (as_rep (ias_rep issued))) rp;
  ag_key : exists k, v_rep_key (ap_verdict pre) = Some k /\
    reply_key_from fast (rep_padata (as_rep (ias_rep issued))) k (ias_rep_key issued);
  ag_session : tp_key tp = rp_key rp /\ rp_key rp = encryption_key (ias_session issued);
  ag_flags : tp_flags tp = rp_flags rp;
  ag_authtime : tp_authtime tp = t /\ rp_authtime rp = t;
  ag_starttime : tp_starttime tp = rp_starttime rp;
  ag_endtime : tp_endtime tp = rp_endtime rp;
  ag_renew : tp_renew_till tp = rp_renew_till rp;
  ag_caddr : tp_caddr tp = addresses body /\ rp_caddr rp = addresses body;
  ag_nonce : rp_nonce rp = match fast with Some f => fast_nonce f | None => nonce body end;
  ag_service : tkt_realm (rep_ticket (as_rep (ias_rep issued))) = rp_srealm rp /\ rp_srealm rp = store_realm /\
    tkt_sname (rep_ticket (as_rep (ias_rep issued))) = rp_sname rp /\ rp_sname rp = ticket_name body (ap_lookup pre);
  ag_client : tp_cname tp = ap_cname pre /\ tp_crealm tp = issue_crealm (ap_anonymous pre);
  ag_outer : rep_cname (as_rep (ias_rep issued)) = if hides fast then KdcPolicy.anonymous_principal_name else ap_cname pre;
  ag_transited : tp_transited tp = Transit.empty;
  ag_terms : exists s s' terms, as_terms body pre t s = (s', Ok terms) /\ tp_flags tp = at_flags terms /\
    tp_endtime tp = at_end terms /\ tp_renew_till tp = at_renew terms /\
    tp_starttime tp = KdcPolicy.omit_start_if_auth (at_start terms) t;
}.

Lemma enc_rep_part_inv se n au st e r sn fl rn ps ca ke rp :
  enc_rep_part se n au st e r sn fl rn ps ca ke = Ok rp ->
  rp = mkRepPart (encryption_key se) [mkLastReq 0 0] n ke fl au (KdcPolicy.omit_start_if_auth st au) e rn r sn ca ps.
Proof. unfold enc_rep_part. intros (r' & ->%ks_inv & E)%result_inv. by injection E as <-. Qed.

Lemma first_current_key_wf p k : Forall entry_wf (keys p) -> first_current_key p = Ok k -> entry_wf k.
Proof. unfold first_current_key. intros Hw (Hk & _ & _)%find_enctype_inv. rewrite list.Forall_forall in Hw. by apply Hw. Qed.

Lemma finish_process_agree req raw body fast pre t issued s s' s0 s1 l :
  preauthenticated s0 s1 body fast l pre -> Forall entry_wf (keys (al_server l)) ->
  (forall f, fast = Some f -> Key.wf (armor_key f)) ->
  finish_process_as_req req raw body fast pre t s = (s', Ok issued) ->
  exists skey tp rp, agreement body fast pre t issued skey tp rp.
Proof.
  intros Hpre Hw Hf. unfold finish_process_as_req. intros E.
  apply bind_inv in E as (s2 & skey & [-> Esk%map_err_inv]%lift_inv & E).
  apply bind_inv in E as (s3 & k & [-> Ek%ok_or_inv]%lift_inv & E).
  apply bind_inv in E as (s4 & [session kx] & _ & E). apply bind_inv in E as (s5 & terms & Eterms & E).
  apply bind_inv in E as (s6 & tk & Etk & E). apply bind_inv in E as (s7 & [reply outer] & Erk & E).
  apply bind_inv in E as (s8 & enc_pa & _ & E). apply bind_inv in E as (s9 & part & [_ Epart]%lift_inv & E).
  apply bind_inv in E as (s10 & der & [-> Eder]%lift_inv & E).
  apply bind_inv in E as (s11 & c & Ec%encrypt_at_inv & E). apply bind_inv in E as (s12 & [rcr rcn] & Ern & E).
  apply ret_inv in E as [_ <-]. apply enc_rep_part_inv in Epart as ->.
  pose proof (pr_lookup _ _ _ _ _ _ Hpre) as Hl. rewrite <- Hl in Hw.
  apply as_ticket_inv in Etk as (ad & Hop & Hr & Hs); [|by eapply first_current_key_wf].
  destruct (pr_verdict _ _ _ _ _ _ Hpre) as [_ Hk]. destruct (Hk k Ek) as [Hkw _].
  apply as_reply_key_inv in Erk as [Hrw Hrk]; [|done..].
  eexists skey, _, _. split; cbn; try first [done|by eapply encrypt_opens|by exists k|by exists s4, s5, terms].
  destruct fast as [f|]; cbn [hides]; [destruct (fast_hides_client _)|]; by inv_runs.
Qed.

(** ** The handler *)

(** The request that is answered: the outer one, or the one in the tunnel. *)
Definition request_of (req : AsReq) (raw : option bytes) (s : Run) (fast : option FastOk) (body : KdcReqBody) : Prop :=
  exists s1 s2 b, body_octets raw (req_body (as_req req)) s = (s1, Ok b) /\ unwrap_fast req b s1 = (s2, Ok fast) /\
    match fast with Some f => decode (inner_body f) = Ok body | None => body = req_body (as_req req) end.

Lemma authenticated_mono s0 s s' s1 c ps fast :
  (ticks s0 <= ticks s)%nat -> (ticks s' <= ticks s1)%nat -> authenticated s s' c ps fast -> authenticated s0 s1 c ps fast.
Proof.
  intros Hb He. assert (forall ts, fresh s s' ts -> fresh s0 s1 ts) as Hf.
  { intros ts (i & Hi & Hs). exists i. split; [lia|done]. }
  intros [b enc k plain ts ? ? ? ? ? ?|f b enc k chal plain ts ? ? ? ? ? ? ? ?|m rock a s2 s3 ? ? ? ? ? ? ? ?].
  - eapply by_timestamp; eauto.
  - eapply by_challenge; eauto.
  - eapply by_module; [done|done|done|done| | |done|done]; lia.
Qed.

Lemma preauthenticated_mono s0 s s' s1 body fast l pre :
  (ticks s0 <= ticks s)%nat -> (ticks s' <= ticks s1)%nat ->
  preauthenticated s s' body fast l pre -> preauthenticated s0 s1 body fast l pre.
Proof.
  intros Hb He [? ? ? ? ? ? [Ha ?]]. split; try done. split; [|done]. intros Hs. eapply authenticated_mono; eauto.
Qed.

(** Everything a ticket was issued on. *)
Definition issued_on (req : AsReq) (s s' : Run) (fast : option FastOk) (body : KdcReqBody) (t : Z)
    (pre : AsPreauth) (issued : IssuedAs) (skey : KeyEntry) (tp : EncTicketPart) (rp : EncKdcRepPart) : Prop :=
  looked_up req body fast t (ap_lookup pre) /\ preauthenticated s s' body fast (ap_lookup pre) pre /\
  agreement body fast pre t issued skey tp rp.

Lemma issue_as_steps_inv req raw body fast t issued s s' :
  (forall f, fast = Some f -> Key.wf (armor_key f)) ->
  issue_as_steps req raw body fast t s = (s', Ok issued) ->
  (ticks s <= ticks s')%nat /\ exists pre skey tp rp, issued_on req s s' fast body t pre issued skey tp rp.
Proof.
  intros Hf. unfold issue_as_steps. intros E. apply bind_inv in E as (s1 & l & El & E).
  apply lookup_client_inv in El as [Hlu ->]. apply bind_inv in E as (s2 & pre & Ep & E).
  pose proof (calm_run _ _ _ _ (finish_process_calm _ _ _ _ _ _) E) as Hl.
  pose proof (calm_run _ _ _ _ (finish_preauth_calm _ _ _ _ _) Ep) as Hlp.
  split; [destruct Hl as [Hl _], Hlp as [Hlp _]; cbn in Hlp; lia|].
  eapply finish_preauth_inv in Ep; [|exact Hlu|reflexivity|exact Hl].
  pose proof (stored_wf _ _ (lu_server _ _ _ _ _ Hlu)) as Hw.
  destruct (finish_process_agree _ _ _ _ _ _ _ _ _ _ _ _ Ep Hw Hf E) as (skey & tp & rp & Ha).
  exists pre, skey, tp, rp. destruct (pr_lookup _ _ _ _ _ _ Ep). split; [done|]. split; [|done].
  by eapply preauthenticated_mono in Ep.
Qed.

(** The clock is read once for the times of the ticket. *)
Lemma issue_as_body_inv req raw body fast issued s s' :
  (forall f, fast = Some f -> Key.wf (armor_key f)) ->
  issue_as_body req raw body fast s = (s', Ok issued) ->
  (ticks s < ticks s')%nat /\ exists pre skey tp rp,
    issued_on req s s' fast body (Time.unix_seconds (clock (ticks s))) pre issued skey tp rp.
Proof.
  intros Hf. unfold issue_as_body, unix_now_u32, assign, bind.
  destruct (issue_as_steps _ _ _ _ _ _) as [s1 [i|e]] eqn:E; [|done]. intros [= Hs ->].
  destruct (issue_as_steps_inv _ _ _ _ _ _ _ _ Hf E) as [Ht (pre & skey & tp & rp & Hlu & Hp & Ha)].
  assert (ticks s' = ticks s1) as Hs'.
  { rewrite <- Hs. destruct (audited s1) as [c|]; [|done]. by destruct (Lockout.lockout_audit _ _ _). }
  cbn in Ht. split; [lia|]. exists pre, skey, tp, rp. split_and!; [done| |done].
  eapply preauthenticated_mono; [| |exact Hp]; [cbn; lia|lia].
Qed.

Lemma unwrap_fast_wf req b f s s' : unwrap_fast req b s = (s', Ok (Some f)) -> Key.wf (armor_key f).
Proof. intros E%on_err_inv. by eapply find_fast_wf. Qed.

Lemma wrap_as_fast_inv {A} fast body (m : M A) a s s' : wrap_as_fast fast body m s = (s', Ok a) -> m s = (s', Ok a).
Proof.
  unfold wrap_as_fast. destruct (m s) as [s1 [b|e]]; [by intros [= -> ->]|]. destruct fast as [f|]; [|done].
  destruct (tunnel_error e) as [[[code text] ied] pre]. destruct (with_fx_cookie _ _ _) as [s2 ps].
  destruct (encode_krb_error _ _ _ _ _ _) as [s3 ie]. destruct (wrap_fast_rep _ _ _ _ _ _) as [s4 [p|e']]; [|done].
  by destruct (encode _).
Qed.

Lemma issue_as_from_inv req raw issued s s' :
  issue_as_from req raw s = (s', Ok issued) ->
  exists fast body i pre skey tp rp, request_of req raw s fast body /\ (ticks s <= i < ticks s')%nat /\
    issued_on req s s' fast body (Time.unix_seconds (clock i)) pre issued skey tp rp.
Proof.
  unfold issue_as_from. intros E. apply bind_inv in E as (s1 & b & Eb & E).
  destruct (negb _); [by inv_runs|]. apply bind_inv in E as (s2 & fast & Ef & E).
  apply bind_inv in E as (s3 & body & Ebody & E). apply wrap_as_fast_inv in E.
  assert (s3 = s2 /\ match fast with Some f => decode (inner_body f) = Ok body | None => body = req_body (as_req req) end)
    as [-> Hbody] by (unfold decoded in *; destruct fast; by inv_runs).
  pose proof (calm_run _ _ _ _ (body_octets_calm _ _) Eb) as [Hl1 _].
  pose proof (calm_run _ _ _ _ (calm_unwrap_fast _ _) Ef) as [Hl2 _].
  assert (forall f, fast = Some f -> Key.wf (armor_key f)) as Hf by (intros f ->; by eapply unwrap_fast_wf).
  destruct (issue_as_body_inv _ _ _ _ _ _ _ Hf E) as [Ht (pre & skey & tp & rp & Hlu & Hp & Ha)].
  exists fast, body, (ticks s2), pre, skey, tp, rp. split; [by exists s1, s2, b|]. split; [lia|].
  split_and!; [done| |done]. eapply preauthenticated_mono; [| |exact Hp]; lia.
Qed.

(** ** Times and flags *)

Lemma enforce_shortens ask ms t stop renew stop' renew' s s' :
  enforce ask ms t stop renew s = (s', Ok (stop', renew')) -> Time.unix_seconds stop' <= Time.unix_seconds stop.
Proof.
  revert stop renew s. induction ms as [|m ms IH]; intros stop renew s; cbn [enforce].
  { intros E. by inv_runs. }
  destruct (ask (ticks s) m) as [adj|[[w|] e]]; [|done..].
  destruct (apply_policy_times t stop renew adj) as [st rn] eqn:E. intros Hle%IH.
  enough (Time.unix_seconds st <= Time.unix_seconds stop) by lia.
  unfold apply_policy_times in E. injection E as <- _. destruct (_ =? 0); [done|].
  destruct (Time.add_seconds t (adj_lifetime adj)); [|done]. destruct (_ <? _) eqn:El; to_prop; lia.
Qed.

(** The start of a ticket without a start time is the time of authentication. *)
Definition start_of (tp : EncTicketPart) : Z := default (tp_authtime tp) (tp_starttime tp).

Lemma as_terms_inv `{!ChronoLaws} body pre t terms s s' :
  as_terms body pre t s = (s', Ok terms) ->
  Flags.bit (at_flags terms) flag_bit.PRE_AUTHENT = v_skip_timestamp (ap_verdict pre) /\
  (is_u32 t -> (forall f, from body = Some f -> is_u32 f) ->
   let start := default t (KdcPolicy.omit_start_if_auth (at_start terms) t) in
   let stop := Time.unix_seconds (at_end terms) in
   is_u32 start /\
   (0 < max_life (al_client (ap_lookup pre)) -> stop <= start + max_life (al_client (ap_lookup pre))) /\
   (0 < max_life (al_server (ap_lookup pre)) -> stop <= start + max_life (al_server (ap_lookup pre))) /\
   (0 < realm_max_life policy -> stop <= start + realm_max_life policy)).
Proof.
  unfold as_terms. intros E. apply bind_inv in E as (s1 & stop0 & [-> Ee]%lift_inv & E).
  set (fl := Flags.with_bit _ flag_bit.HW_AUTHENT false) in E.
  set (start0 := if opt body flag_bit.POSTDATED then _ else _) in *.
  assert (KdcPolicy.len32 fl /\ Flags.bit fl flag_bit.PRE_AUTHENT = v_skip_timestamp (ap_verdict pre)) as [Hfl Hbit].
  { pose proof (KdcPolicy.len32_ticket_flags (kdc_options body) (Some (al_client (ap_lookup pre)))
                  (al_server (ap_lookup pre)) None) as Hl. unfold KdcPolicy.len32 in *.
    specialize (Hl ltac:(done)). unfold fl. rewrite !Flags.length_with_bit, !Flags.bit_with_bit, Flags.length_with_bit, Hl.
    done. }
  destruct (KdcPolicy.kdc_get_ticket_renewtime _ _ _ _ _ _ _) as [rn fl'] eqn:Er.
  apply bind_inv in E as (s2 & [stop rn'] & En%enforce_shortens & E). apply ret_inv in E as [_ <-].
  cbn [at_flags at_start at_end]. split.
  - pose proof (KdcPolicy.renewtime_spec (policy_body body) None (Some (al_client (ap_lookup pre)))
      (al_server (ap_lookup pre)) fl start0 stop0 Hfl) as Hr. rewrite Er in Hr. destruct Hr as (_ & Hb & _).
    by rewrite Hb, Hbit.
  - intros Ht Hfrom. assert (is_u32 start0) as Hs0.
    { unfold start0. destruct (opt body _); [|done]. destruct (from body) as [f|] eqn:Ef; [by apply Hfrom|done]. }
    destruct (KdcPolicy.endtime_limits _ _ _ _ _ _ Hs0 Ee) as (Hc & Hsv & Hr). specialize (Hc _ eq_refl).
    unfold KdcPolicy.omit_start_if_auth. rewrite !KdcPolicy.unix_seconds_id by done.
    assert (Time.unix_seconds stop0 <= Z.max 0 stop0) as Hclamp by (unfold Time.unix_seconds; case_match; to_prop; lia).
    set (start := default t _).
    assert (is_u32 start /\ start0 <= start) as [Hu Hle].
    { unfold start, is_u32 in *. destruct (negb (start0 =? 0) && negb (start0 =? t)) eqn:Eo; cbn; [done|].
      apply andb_false_iff in Eo as [Eo|Eo]; to_prop; lia. }
    cbv zeta. split; [done|]. unfold is_u32 in Hu.
    split_and!; intros Hm; [specialize (Hc Hm)|specialize (Hsv Hm)|specialize (Hr Hm)]; lia.
Qed.

(** The same session key, flags, times and addresses. *)
Definition same_terms (tp : EncTicketPart) (rp : EncKdcRepPart) : Prop :=
  tp_key tp = rp_key rp /\ tp_flags tp = rp_flags rp /\ tp_authtime tp = rp_authtime rp /\
  tp_starttime tp = rp_starttime rp /\ tp_endtime tp = rp_endtime rp /\ tp_renew_till tp = rp_renew_till rp /\
  tp_caddr tp = rp_caddr rp.

(** The client and the server of the request, and the key the server's tickets are in. *)
Definition parties (body : KdcReqBody) (n : PrincipalName) (client server : Principal) (skey : KeyEntry) : Prop :=
  body_realm body = store_realm /\ cname body = Some n /\ fetch_name n = Ok (Some client) /\
  fetch_name (default (PrincipalName.krbtgt store_realm) (sname body)) = Ok (Some server) /\
  first_current_key server = Ok skey.

Lemma issued_parties req s s' fast body t pre issued skey tp rp :
  issued_on req s s' fast body t pre issued skey tp rp ->
  parties body (al_req_cname (ap_lookup pre)) (al_client (ap_lookup pre)) (al_server (ap_lookup pre)) skey.
Proof.
  intros ([] & _ & []). unfold parties. by rewrite <- lu_sname0.
Qed.

Abbreviation the_ticket issued := (rep_ticket (as_rep (ias_rep issued))).


(** C2: a ticket of the AS exchange is flagged as preauthenticated only when the
    client has shown, in this request, that it holds its key: by a time stamp
    encrypted in a current key of the client and within the clock skew of a
    reading of the clock taken while the request was served, by one encrypted in
    that key combined with the armor key of the FAST tunnel, or to another
    preauthentication module.  A client that requires preauthentication, or an
    anonymous one, gets only such tickets, and one that requires a hardware
    device gets none. *)
Theorem as_preauthenticated `{!ChronoLaws} req raw issued s s' :
  issue_as_from req raw s = (s', Ok issued) ->
  exists fast body n client server skey tp,
    request_of req raw s fast body /\ parties body n client server skey /\
    opens (key skey) ku.TICKET (tkt_enc_part (the_ticket issued)) tp /\
    attr client KDB_REQUIRES_HW_AUTH = false /\
    (requires_preauth client || opt body flag_bit.ANONYMOUS = true ->
     Flags.bit (tp_flags tp) flag_bit.PRE_AUTHENT = true) /\
    (Flags.bit (tp_flags tp) flag_bit.PRE_AUTHENT = true ->
     authenticated s s' client (match fast with Some f => Some (inner_padata f) | None => padata (as_req req) end) fast).
Proof.
  intros (fast & body & i & pre & skey & tp & rp & Hreq & _ & Hon)%issue_as_from_inv.
  pose proof (issued_parties _ _ _ _ _ _ _ _ _ _ _ Hon) as Hpar.
  destruct Hon as ([] & [_ Han _ _ Hrq Hhw [Hev _]] & []).
  exists fast, body, (al_req_cname (ap_lookup pre)), (al_client (ap_lookup pre)), (al_server (ap_lookup pre)), skey, tp.
  destruct ag_terms0 as (s1 & s2 & terms & [Ht _]%as_terms_inv & Hfl & _). rewrite <- Hfl in Ht.
  rewrite Ht, <- Han, <- lu_padata0. by split_and!.
Qed.

(** C23: no ticket of the AS exchange outlives a positive maximum life of its
    client, of its service or of the realm, counted from its start, whatever end
    the request asks for and whatever the policy modules decide.  (A start time
    in the request is a time of the wire, 32 bits of seconds.) *)
Theorem as_lifetime `{!ChronoLaws} req raw issued s s' :
  issue_as_from req raw s = (s', Ok issued) ->
  exists fast body n client server skey tp,
    request_of req raw s fast body /\ parties body n client server skey /\
    opens (key skey) ku.TICKET (tkt_enc_part (the_ticket issued)) tp /\
    ((forall f, from body = Some f -> is_u32 f) ->
     (0 < max_life client -> Time.unix_seconds (tp_endtime tp) <= start_of tp + max_life client) /\
     (0 < max_life server -> Time.unix_seconds (tp_endtime tp) <= start_of tp + max_life server) /\
     (0 < realm_max_life policy -> Time.unix_seconds (tp_endtime tp) <= start_of tp + realm_max_life policy)).
Proof.
  intros (fast & body & i & pre & skey & tp & rp & Hreq & _ & Hon)%issue_as_from_inv.
  pose proof (issued_parties _ _ _ _ _ _ _ _ _ _ _ Hon) as Hpar. destruct Hon as (_ & _ & []).
  exists fast, body, (al_req_cname (ap_lookup pre)), (al_client (ap_lookup pre)), (al_server (ap_lookup pre)), skey, tp.
  destruct ag_terms0 as (s1 & s2 & terms & [_ Ht]%as_terms_inv & _ & He & _ & Hst).
  split_and!; try done. intros Hfrom. unfold start_of. rewrite He, Hst, (proj1 ag_authtime0).
  by apply Ht; [apply KdcPolicy.unix_seconds_u32|].
Qed.

(** ** The audit *)

(** The client the lookup finds, with the name it was asked for under. *)
Definition found_client (body : KdcReqBody) : option (PrincipalName * Principal) :=
  match utf8_realm (body_realm body), cname body with
  | Ok r, Some n => if bool_decide (r = store_realm) then
                      match fetch_name n with Ok (Some c) => Some (n, c) | _ => None end
                    else None
  | _, _ => None
  end.

Definition audited_client (body : KdcReqBody) : option Principal :=
  (fun '(n, c) => audit_entry c body n) <$> found_client body.

Lemma lookup_client_audits req body fast t s :
  fst (lookup_client req body fast t s)
  = match audited_client body with Some p => set_audited (Some p) s | None => s end.
Proof.
  unfold lookup_client, audited_client, found_client, lookup_as_princ, bind, lift, ret, assign.
  destruct (utf8_realm (body_realm body)) as [r|]; [|done]. case_bool_decide; [|by destruct (cname body)]. cbn [negb].
  destruct (cname body) as [n|]; [|done]. cbn [ok_or].
  destruct (fetch_name n) as [[c|]|e]; [|done|done]. cbn [map_err ok_or fmap option_fmap option_map].
  destruct (fetch_name (default _ (sname body))) as [[sv|]|]; [|done|done]. cbn [map_err ok_or].
  destruct (KdcPolicy.validate_as_request _ _ _ _); [|done].
  by destruct (KdcPolicy.select_session_keytype _ _ _).
Qed.

Lemma issue_as_steps_audits req raw body fast t s s' out :
  audited s = None -> issue_as_steps req raw body fast t s = (s', out) ->
  audited s' = audited_client body /\ lockouts s' = lockouts s.
Proof.
  intros Hn. unfold issue_as_steps, bind. pose proof (lookup_client_audits req body fast t s) as Ha.
  destruct (lookup_client req body fast t s) as [s1 [l|e]]; cbn [fst] in Ha; subst s1.
  2: { intros [= <- _]. by destruct (audited_client body). }
  set (s1 := match audited_client body with Some p => _ | None => s end).
  assert (audited s1 = audited_client body /\ lockouts s1 = lockouts s) as [<- <-].
  { unfold s1. by destruct (audited_client body). }
  pose proof (finish_preauth_calm req raw body fast l s1) as Hp.
  destruct (finish_preauth req raw body fast l s1) as [s2 [pre|e]]; cbn [fst] in Hp; [|intros [= <- _]; by destruct Hp as (_ & ? & ?)].
  pose proof (finish_process_calm req raw body fast pre t s2) as Hq. intros E. rewrite E in Hq.
  by destruct (transitivity Hp Hq) as (_ & ? & ?).
Qed.

(** A locked client is turned away whatever the preauthentication data are. *)
Lemma lookup_client_locked body t n c e :
  found_client body = Some (n, c) -> Lockout.lockout_check_policy c t = Err e ->
  exists e', forall req fast s, snd (lookup_client req body fast t s) = Err e'.
Proof.
  unfold lookup_client, found_client, lookup_as_princ, bind, lift, ret, assign.
  destruct (utf8_realm (body_realm body)) as [r|]; [|done]. destruct (cname body) as [n'|]; [|done].
  case_bool_decide; [|done]. destruct (fetch_name n') as [[c'|]|] eqn:Ec; [|done|done]. intros [= -> ->] Hlock.
  cbn [negb ok_or]. rewrite Ec. cbn [map_err ok_or].
  destruct (fetch_name (default _ (sname body))) as [[sv|]|e']; [|by eexists|by eexists]. cbn [map_err ok_or].
  destruct (KdcPolicy.validate_as_request c sv (policy_body body) t) as [[]|e'] eqn:Ev; [|by eexists].
  apply KdcPolicy.validate_as_locks in Ev. congruence.
Qed.

Definition forget {A} (r : result KdcError A) : result KdcError unit := match r with Ok _ => Ok tt | Err e => Err e end.

(** The updates a run has added, applied to the record of [p]. *)
Definition record_after (s s' : Run) (l : Lockout.Lockout) : Lockout.Lockout :=
  fold_left (fun l '(_, t, u) => Lockout.apply u l t) (drop (length (lockouts s)) (lockouts s')) l.

(** The audit of [issue_as_body], on a client whose record is the stored one, is
    that of [Lockout.request]: a locked client's outcome is not counted by either. *)
Lemma audit_refines p t (out : result KdcError unit) :
  match Lockout.lockout_audit p t (Lockout.as_outcome out) with
  | Some u => Lockout.apply u (Lockout.of_principal p) t
  | None => Lockout.of_principal p
  end = fst (Lockout.request p (Lockout.of_principal p) t out).
Proof.
  unfold Lockout.request. replace (Lockout.set_on (Lockout.of_principal p) p) with p by (by destruct p). cbn [fst].
  destruct (Lockout.lockout_check_policy p t) as [[]|e] eqn:El; [done|].
  unfold Lockout.lockout_check_policy in El. unfold Lockout.lockout_audit.
  destruct (disable_lockout policy); [done|]. destruct (Lockout.lookup_lockout_policy p) as [[mf fi] ld].
  destruct (Lockout.locked_check_p t mf ld p); [|done]. by destruct (negb _), (negb _).
Qed.

(** C22: the AS exchange counts failures as the lockout policy says.  The updates
    a request makes are those of [Lockout.request], the step the lockout theorems
    are about, for the client the lookup found and the outcome of the request;
    a request whose client is not found makes none.  And while a client is
    locked out every request for it has one answer, whatever preauthentication
    data or armor it comes with: no password guess is evaluated. *)
Theorem as_refines_lockout req raw body fast s s' out :
  issue_as_body req raw body fast s = (s', out) ->
  let t := Time.unix_seconds (clock (ticks s)) in
  match found_client body with
  | None => lockouts s' = lockouts s
  | Some (n, c) =>
      let p := audit_entry c body n in
      (exists us, lockouts s' = lockouts s ++ us /\ Forall (fun '(q, t', _) => q = p /\ t' = t) us) /\
      record_after s s' (Lockout.of_principal p) = fst (Lockout.request p (Lockout.of_principal p) t (forget out)) /\
      forall e, Lockout.lockout_check_policy c t = Err e ->
        exists e', forall req' raw' fast', snd (issue_as_body req' raw' body fast' s) = Err e'
  end.
Proof.
  unfold issue_as_body, unix_now_u32, assign, bind. set (t := Time.unix_seconds (clock (ticks s))).
  set (s0 := set_audited None (step 1 s)).
  destruct (issue_as_steps req raw body fast t s0) as [s1 out1] eqn:E. intros [= <- ->]. cbv zeta.
  apply issue_as_steps_audits in E as [Ha Hl]; [|done]. rewrite Ha. unfold audited_client.
  change (lockouts s0) with (lockouts s) in Hl. destruct (found_client body) as [[n c]|] eqn:Ef; [|done].
  cbn [fmap option_fmap option_map]. set (p := audit_entry c body n).
  assert (Lockout.as_outcome out = Lockout.as_outcome (forget out)) as Hout by (by destruct out).
  split_and!.
  - destruct (Lockout.lockout_audit _ _ _) as [u|]; [exists [(p, t, u)]|exists []]; cbn [lockouts add_lockout];
      rewrite Hl, ?app_nil_r; (split; [done|]); by repeat constructor.
  - rewrite <- audit_refines, Hout. unfold record_after.
    destruct (Lockout.lockout_audit _ _ _); cbn [lockouts add_lockout]; rewrite Hl; [by rewrite drop_app_length|].
    by rewrite drop_all.
  - intros e He. destruct (lookup_client_locked body t n c e Ef He) as [e' Hlock]. exists e'. intros req' raw' fast'.
    specialize (Hlock req' fast' s0). unfold issue_as_steps, bind.
    destruct (lookup_client req' body fast' t s0) as [s2 [l|e2]]; [done|]. by injection Hlock as ->.
Qed.

End AsCorrect.

(** ** Examples *)

Section Examples.
Import Sample.

Definition body_for (c : PrincipalName) : KdcReqBody :=
  mkBody Flags.none (Some c) R (Some service) None (NOW + 3600) None 77 [18] None None None.

Definition ask (c : PrincipalName) (ps : option MethodData) : AsReq := mkAsReq (mkReq PVNO MSG_AS_REQ ps (body_for c)).

(** An encrypted time stamp in a key; that of [u] is [x23]. *)
Definition stamped (b : byte) : option MethodData :=
  match encode (mkTs NOW None) with
  | Ok ts => match encrypt (key_of b) ku.PA_ENC_TIMESTAMP ts start with
             | (_, Ok c) => match encode (mkEnc 18 None c) with Ok e => Some [mkPa pa.ENC_TIMESTAMP e] | Err _ => None end
             | _ => None
             end
  | Err _ => None
  end.

#[local] Existing Instances world_laws store_laws preauth_laws toy_laws toy_codecs_laws ToyChronoLaws.


Lemma as_preauthenticated_witness :
  exists s' issued, issue_as_from (ask u (stamped x23)) None start = (s', Ok issued) /\
    exists client fast, authenticated start s' client (stamped x23) fast.
Proof.
  destruct (issue_as_from (ask u (stamped x23)) None start) as [s' [issued|e]] eqn:E; [|by vm_compute in E].
  exists s', issued. split; [done|].
  destruct (as_preauthenticated _ _ _ _ _ E) as (fast & body & n & c & sv & skey & tp & (s1 & s2 & b & Hb & Hf & Hbody) & Hpar & _ & _ & Hreq & Hev).
  assert (fast = None) as -> by (cbn in Hb; injection Hb as <- <-; vm_compute in Hf; congruence).
  exists c, None. apply Hev, Hreq. subst body. destruct Hpar as (_ & [= <-] & Hc & _). vm_compute in Hc. injection Hc as <-. done.
Defined.

Lemma as_lifetime_witness :
  exists s' issued, issue_as_from (ask v None) None start = (s', Ok issued) /\
    exists skey (tp : EncTicketPart), opens (key skey) ku.TICKET (tkt_enc_part (rep_ticket (as_rep (ias_rep issued)))) tp /\
      Time.unix_seconds (tp_endtime tp) <= start_of tp + 86400.
Proof.
  destruct (issue_as_from (ask v None) None start) as [s' [issued|e]] eqn:E; [|by vm_compute in E].
  exists s', issued. split; [done|].
  destruct (as_lifetime _ _ _ _ _ E) as (fast & body & n & c & sv & skey & tp & (s1 & s2 & b & Hb & Hf & Hbody) & _ & Ht & Hlim).
  assert (fast = None) as -> by (cbn in Hb; injection Hb as <- <-; vm_compute in Hf; congruence).
  exists skey, tp. split; [done|]. subst body. by apply Hlim.
Defined.

(** A time stamp in another key is a counted failure. *)
Lemma as_refines_lockout_witness :
  exists s' out, issue_as_body (ask u (stamped x24)) None (body_for u) None start = (s', out) /\
    record_after start s' (Lockout.of_principal (entry u x23 true)) = Lockout.mkLockout 0 NOW 1.
Proof.
  destruct (issue_as_body (ask u (stamped x24)) None (body_for u) None start) as [s' out] eqn:E.
  exists s', out. split; [done|]. pose proof (as_refines_lockout _ _ _ _ _ _ _ E) as Hr.
  destruct (found_client (body_for u)) as [[n c]|] eqn:Ef; [|by vm_compute in Ef].
  vm_compute in Ef. injection Ef as <- <-. destruct Hr as (_ & Hr & _). etransitivity; [exact Hr|].
  apply (f_equal snd) in E. vm_compute in E. subst out. vm_compute. reflexivity.
Defined.

End Examples.
