(* ===== verification/TgsHeader.v ===== *)
(** * The header of a TGS request

    Models [krb5-kdc/src/issue/kdc_util.rs] up to the accepted header and the
    lookups of [tgs_req.rs] before the checks: the presented ticket and its key,
    the authenticator with its checksum over the request body, the server and the
    referral to another realm, and the second ticket. *)

From S2P Require Import Prelude StateErr Etype Primitives Utf8 Ops Prf Name EncList Time Kdc Lockout KdcPolicy PMap Pac Transit Pwqual Store Messages Exchange AuthData PacSign PacVerify S4u Fast Preauth Hints Reply.

Record HeaderTgt := mkHeader {
  h_ap : ApReq;
  h_enc_tkt : EncTicketPart;
  h_tgt_key : Key.ProtocolKey;
  h_session : Key.ProtocolKey;
  h_authenticator : Authenticator;
  h_realm : bytes;
  h_server : Principal;
}.

Definition process_tgs (code : Z) : KdcError := proto code "PROCESS_TGS".

Definition ADDRTYPE_NETBIOS : Z := 0x14.

Definition HostAddress_eqb (a b : HostAddress) : bool :=
  (addr_type a =? addr_type b) && bool_decide (address a = address b).

Definition address_search (addr : HostAddress) (list : option (list HostAddress)) : bool :=
  match list with
  | None => true
  | Some l =>
      match l with
      | [a] => (addr_type a =? ADDRTYPE_NETBIOS) || HostAddress_eqb a addr
      | _ => existsb (fun a => HostAddress_eqb a addr) l
      end
  end.

(** [sort_unstable_by(|a, b| b.cmp(a))] with [dedup]: the versions, highest first. *)
Fixpoint insert_desc (v : Z) (l : list Z) : list Z :=
  match l with
  | [] => [v]
  | w :: ws => if v =? w then l else if w <? v then v :: l else w :: insert_desc v ws
  end.

Definition kvnos_desc (p : Principal) : list Z := foldr (fun k l => insert_desc (kvno k) l) [] (keys p).

Definition crypto_err {A} (r : result Error A) : result KdcError A := map_err CryptoErr r.

Section TgsHeader.
Context `{KdcStore} `{World} `{Codecs} {Prim : Primitives}.

Fixpoint find_at (p : Principal) (search : option EncryptionType) (vs : list Z) : option KeyEntry :=
  match vs with
  | [] => None
  | v :: vs => match Keys.find_enctype policy p search v with Ok k => Some k | Err _ => find_at p search vs end
  end.

Definition find_server_key (p : Principal) (search : option EncryptionType) (v : Z)
    : result KdcError (Key.ProtocolKey * Z) :=
  let found := if v =? 0 then find_at p search (kvnos_desc p)
               else match Keys.find_enctype policy p search v with Ok k => Some k | Err _ => None end in
  let? k := ok_or found (process_tgs err.GENERIC) in
  if match search with Some want => negb (bool_decide (want = ke_etype k)) | None => false end
  then Err (process_tgs err.GENERIC)
  else Ok (key k, kvno k).

(** One attempt of the loop: the ticket part with its key, or the refusal; and the
    version that was tried. *)
Definition try_tgt (ap : ApReq) (p : Principal) (tkt_etype : EncryptionType) (search : option EncryptionType) (v : Z)
    : result KdcError (EncTicketPart * Key.ProtocolKey) * Z :=
  match find_server_key p search v with
  | Ok (k, found) =>
      (if Keys.etype_permitted policy tkt_etype then
         match Ops.decrypt_enc_data k ku.TICKET (ed_etype (tkt_enc_part (ap_ticket ap))) (cipher (tkt_enc_part (ap_ticket ap))) with
         | Ok plain => match decode (A := EncTicketPart) plain with
                       | Ok part => Ok (part, k)
                       | Err _ => Err (process_tgs err.GENERIC)
                       end
         | Err DesBadParity | Err DesWeakKey => Err (process_tgs err.GENERIC)
         | Err _ => Err (process_tgs err.BAD_INTEGRITY)
         end
       else Err (process_tgs err.GENERIC), found)
  | Err e => (Err e, v)
  end.

(** The loop: a ticket without a key version is tried with up to three. *)
Fixpoint try_tgts (tries : nat) (ap : ApReq) (p : Principal) (tkt_etype : EncryptionType)
    (search : option EncryptionType) (v : Z) : result KdcError (EncTicketPart * Key.ProtocolKey) :=
  let (r, found) := try_tgt ap p tkt_etype search v in
  match r with
  | Ok x => Ok x
  | Err e =>
      if negb (default 0 (ed_kvno (tkt_enc_part (ap_ticket ap))) =? 0) || (found <=? 1) then Err e
      else match tries with
           | O => Err e
           | S tries => try_tgts tries ap p tkt_etype search (found - 1)
           end
  end.

Definition decrypt_presented_tgt (ap : ApReq) (tkt_etype : EncryptionType)
    : result KdcError (EncTicketPart * Key.ProtocolKey * Principal) :=
  let t := ap_ticket ap in
  let? ticket_realm := utf8_realm (tkt_realm t) in
  let? p := fetch (lookup_principal_id (tkt_sname t) ticket_realm) in
  let? p := ok_or p (process_tgs err.S_PRINCIPAL_UNKNOWN) in
  if attr p KDB_DISALLOW_ALL_TIX || attr p KDB_DISALLOW_SVR then Err (process_tgs err.S_PRINCIPAL_UNKNOWN)
  else
    let local_tgs := PrincipalName.is_local_tgs_principal (tkt_sname t) ticket_realm in
    let search := if local_tgs then None else Some tkt_etype in
    let? (part, k) := try_tgts 2 ap p tkt_etype search (default 0 (ed_kvno (tkt_enc_part t))) in
    Ok (part, k, p).

(** The checksum of the authenticator over the request body. *)
Definition check_body_checksum (session : Key.ProtocolKey) (a : Authenticator) (body_der : bytes) : result KdcError unit :=
  match auth_cksum a with
  | None => Err (process_tgs err.INAPP_CKSUM)
  | Some ck =>
      if negb (cksumtype_is_known (cksumtype ck)) then Err (process_tgs err.SUMTYPE_NOSUPP)
      else if negb (cksumtype_is_coll_proof (cksumtype ck)) then Err (process_tgs err.INAPP_CKSUM)
      else
        map_err (fun e => match e with
                          | UnsupportedChecksum _ | BadChecksumSize => process_tgs err.GENERIC
                          | _ => process_tgs err.BAD_INTEGRITY
                          end)
          (Ops.verify_checksum_type session ku.TGS_REQ_AUTH_CKSUM body_der (cksumtype ck) (checksum ck))
  end.

Definition process_tgs_header (ap_raw body_der : bytes) (sender : option HostAddress) : M HeaderTgt :=
  let! ap := lift (map_err (fun e => match e with BadPvno => process_tgs err.BAD_PVNO | Malformed => process_tgs err.GENERIC end)
                     (decode (A := ApReq) ap_raw)) in
  if Flags.bit (ap_options ap) ap_bit.USE_SESSION_KEY || Flags.bit (ap_options ap) ap_bit.MUTUAL_REQUIRED
  then lift (Err (process_tgs err.POLICY))
  else
    let! header_realm := lift (utf8_realm (tkt_realm (ap_ticket ap))) in
    let! tkt_etype := crypto (from_iana_or_known (ed_etype (tkt_enc_part (ap_ticket ap)))) in
    let! (enc_tkt, tgt_key, header_server) := lift (decrypt_presented_tgt ap tkt_etype) in
    let! session := crypto (protocol_key (tp_key enc_tkt)) in
    let a := ap_authenticator ap in
    let! auth_plain := crypto (Ops.decrypt_enc_data session ku.TGS_REQ_AUTHENTICATOR (ed_etype a) (cipher a)) in
    let! authenticator := lift (map_err (fun _ => process_tgs err.GENERIC) (decode (A := Authenticator) auth_plain)) in
    let! auth_realm := lift (utf8_realm (auth_crealm authenticator)) in
    let! tkt_crealm := lift (utf8_realm (tp_crealm enc_tkt)) in
    do! lift (if negb (PrincipalName.principal_compare (auth_cname authenticator) auth_realm (tp_cname enc_tkt) tkt_crealm)
              then Err (process_tgs err.BADMATCH) else Ok tt);
    do! lift (match sender with
              | Some remote => if negb (address_search remote (tp_caddr enc_tkt)) then Err (process_tgs err.BADADDR) else Ok tt
              | None => Ok tt
              end);
    do! lift (map_err process_tgs (check_transited enc_tkt header_realm));
    let! t := now in
    do! lift (KdcPolicy.check_header_times_rd_req t (policy_part enc_tkt));
    do! lift (match negotiate_ap_req_etypes authenticator (keytype (tp_key enc_tkt)) permitted_list with
              | Some _ => Ok tt
              | None => Err (process_tgs err.GENERIC)
              end);
    let! fx := lift (map_err process_tgs
                       (find_ad (tp_authorization_data enc_tkt) (auth_authorization_data authenticator) pa.AD_FX_ARMOR)) in
    do! lift (match fx with [] => Ok tt | _ => Err (process_tgs err.POLICY) end);
    do! lift (check_body_checksum session authenticator body_der);
    ret (mkHeader ap enc_tkt tgt_key session authenticator header_realm header_server).

(** ** The server *)

Definition lookup_svc_princ (n : PrincipalName) : result KdcError (option Principal) :=
  match fetch_name n with
  | Ok v => Ok v
  | Err (Protocol code _ e_data) =>
      Err (if code =? err.SVC_UNAVAILABLE then Protocol code (Some "LOOKING_UP_SERVER"%string) e_data
           else proto err.S_PRINCIPAL_UNKNOWN "LOOKING_UP_SERVER")
  | Err _ => Err (proto err.S_PRINCIPAL_UNKNOWN "LOOKING_UP_SERVER")
  end.

(** [list.split(|c| c.is_ascii_whitespace() || c == ',').any(|t| t == item)]. *)
Definition is_list_separator (c : Z) : bool := bool_decide (c ∈ [0x20; 0x09; 0x0a; 0x0c; 0x0d; 0x2c]).

Fixpoint split_list (s : Name.ustr) : list Name.ustr :=
  match s with
  | [] => [[]]
  | c :: s => if is_list_separator c then [] :: split_list s
              else match split_list s with t :: ts => (c :: t) :: ts | [] => [[c]] end
  end.

Definition in_list (l item : Name.ustr) : bool :=
  match l with [] => false | _ => bool_decide (item ∈ split_list l) end.

Definition ANY : Name.ustr := EncList.lit "*".

Definition component_chars (n : PrincipalName) (i : nat) : Name.ustr :=
  default [] (Utf8.lossy_chars_of <$> PrincipalName.name_string n !! i).

Definition is_referral_req (body : KdcReqBody) (n : PrincipalName) : bool :=
  if negb (opt body flag_bit.CANONICALIZE) || opt body flag_bit.ENC_TKT_IN_SKEY
     || negb (length (PrincipalName.name_string n) =? 2)%nat
  then false
  else
    let stype := component_chars n 0 in
    let hostbased := host_based_services settings in
    let no_ref := no_host_referral settings in
    let allowed :=
      if PrincipalName.name_type n =? PrincipalName.NT_UNKNOWN then in_list hostbased stype || in_list hostbased ANY
      else (PrincipalName.name_type n =? PrincipalName.NT_SRV_HST) || (PrincipalName.name_type n =? PrincipalName.NT_SRV_INST) in
    allowed && (negb (in_list no_ref stype) && negb (in_list no_ref ANY)).

(** The realm is from the configuration, whose names are strings. *)
Definition find_referral_tgs (body : KdcReqBody) (n : PrincipalName) (req_realm : bytes) : result KdcError PrincipalName :=
  let refused := proto err.S_PRINCIPAL_UNKNOWN "LOOKING_UP_SERVER" in
  if negb (is_referral_req body n) then Err refused
  else
    let host := component_chars n 1 in
    if negb (existsb (Z.eqb 0x2e) host) || is_numeric_address host then Err refused
    else
      let? other := ok_or (realm_for_host host) refused in
      if bool_decide (other = []) || bool_decide (other = req_realm) then Err refused
      else Ok (PrincipalName.krbtgt other).

(** The loop over the hops, nearest to the far realm first. *)
Fixpoint first_hop (hops : list bytes) : result KdcError Principal :=
  match hops with
  | [] => Err (proto err.S_PRINCIPAL_UNKNOWN "UNKNOWN_SERVER")
  | inst :: hops =>
      let? hop := ok_or (try_krbtgt inst) (proto err.S_PRINCIPAL_UNKNOWN "UNKNOWN_SERVER") in
      let? p := lookup_svc_princ hop in
      match p with Some p => Ok p | None => first_hop hops end
  end.

Definition find_alternate_tgs (n : PrincipalName) : result KdcError Principal :=
  let far := match PrincipalName.name_string n !! 1%nat with Some s => Utf8.from_utf8_lossy s | None => [] end in
  first_hop (rev (drop 1 (Transit.walk_realm_tree (capaths settings) store_realm far))).

Definition no_referral_option (body : KdcReqBody) : bool := non_tgt_or_u2u body.

Definition search_sprinc (requested : PrincipalName) (req_realm : bytes) (body : KdcReqBody) : result KdcError Principal :=
  let? found := lookup_svc_princ requested in
  match found with
  | Some p => Ok p
  | None =>
      if no_referral_option body then Err (proto err.S_PRINCIPAL_UNKNOWN "LOOKING_UP_SERVER")
      else if PrincipalName.is_cross_tgs_principal requested req_realm then find_alternate_tgs requested
      else
        let? reftgs := find_referral_tgs body requested req_realm in
        let? found := lookup_svc_princ reftgs in
        match found with Some p => Ok p | None => find_alternate_tgs reftgs end
  end.

Definition tgs_issuing_referral (requested : PrincipalName) (req_realm : bytes) (resolved : Principal) : bool :=
  PrincipalName.is_cross_tgs_principal (name resolved) (realm resolved)
  && negb (PrincipalName.principal_compare (name resolved) (realm resolved) requested req_realm).

Definition tgs_header_is_crossrealm (header_server_realm sprinc_realm : bytes) : bool :=
  negb (bool_decide (header_server_realm = sprinc_realm)).

(** ** The second ticket *)

Definition decrypt_2ndtkt (req : TgsReq) (local_tgt : option Principal) : result KdcError (option SecondTicket) :=
  let body := req_body (tgs_req req) in
  if negb (opt body flag_bit.CNAME_IN_ADDL_TKT) && negb (opt body flag_bit.ENC_TKT_IN_SKEY) then Ok None
  else
    match additional_tickets body with
    | Some (extra :: _) =>
        let enc := tkt_enc_part extra in
        let? stkt_realm := utf8_realm (tkt_realm extra) in
        let? server := fetch (lookup_principal_id (tkt_sname extra) stkt_realm) in
        let? server := ok_or server (proto err.S_PRINCIPAL_UNKNOWN "2ND_TKT_SERVER") in
        if attr server KDB_DISALLOW_ALL_TIX || attr server KDB_DISALLOW_SVR
        then Err (proto err.S_PRINCIPAL_UNKNOWN "2ND_TKT_SERVER")
        else
          let? tkt_etype := map_err (fun _ => proto err.GENERIC "2ND_TKT_SERVER") (from_iana_or_known (ed_etype enc)) in
          let? (k, _) := map_err (with_status "2ND_TKT_SERVER")
                           (find_server_key server (Some tkt_etype) (default 0 (ed_kvno enc))) in
          let? plain := map_err (fun _ => proto err.BAD_INTEGRITY "2ND_TKT_DECRYPT")
                          (Ops.decrypt_enc_data k ku.TICKET (ed_etype enc) (cipher enc)) in
          let? part := map_err (fun _ => proto err.BAD_INTEGRITY "2ND_TKT_DECRYPT") (decode (A := EncTicketPart) plain) in
          if PrincipalName.is_krbtgt (tkt_sname extra) then
            let? pac := map_err (with_status "2ND_TKT_PAC") (get_verified_pac part k server None) in
            Ok (Some (mkSecond part server pac))
          else
            let? tgt := ok_or local_tgt (proto err.GENERIC "GET_LOCAL_TGT") in
            let? pac := map_err (with_status "2ND_TKT_PAC") (get_verified_pac part k server (Some tgt)) in
            Ok (Some (mkSecond part server pac))
    | _ => Ok None
    end.

Definition get_2ndtkt_enctype (body : KdcReqBody) (st : SecondTicket) : result KdcError (option EncryptionType) :=
  let n := keytype (tp_key (st_part st)) in
  let? e := map_err (fun _ => proto err.ETYPE_NOSUPP "BAD_ETYPE_IN_2ND_TKT") (EType.known n) in
  Ok (if bool_decide (n ∈ body_etype body) then Some e else None).

Definition u2u_from_stkt (st : SecondTicket) : result KdcError (Key.ProtocolKey * Z * EncryptionType) :=
  let? k := crypto_err (protocol_key (tp_key (st_part st))) in
  Ok (k, 0, Key.etype k).

(** The client of the header, for the error of a refused request. *)
Definition tgs_header_client (req : TgsReq) : option PrincipalName :=
  raw ← find_pa (padata (tgs_req req)) pa.TGS_REQ;
  match decode (A := ApReq) raw with
  | Ok ap =>
      if Flags.bit (ap_options ap) ap_bit.USE_SESSION_KEY || Flags.bit (ap_options ap) ap_bit.MUTUAL_REQUIRED then None
      else
        match from_iana_or_known (ed_etype (tkt_enc_part (ap_ticket ap))) with
        | Ok e => match decrypt_presented_tgt ap e with
                  | Ok (enc_tkt, _, _) => Some (tp_cname enc_tkt)
                  | Err _ => None
                  end
        | Err _ => None
        end
  | Err _ => None
  end.

End TgsHeader.
