(* ===== verification/TgsExchange.v ===== *)
(** * The TGS exchange

    Models [krb5-kdc/src/issue/tgs_req.rs]: what a request carries, the checks in
    their order, the times and flags of the new ticket, and the reply.  The fields
    the source passes from one function to the next are the records [TgsGather],
    [Subject] and [TgsChecked]; log lines are left out. *)

From S2P Require Import Prelude StateErr Etype Primitives Utf8 Ops Prf Name EncList Time Kdc Lockout KdcPolicy PMap Pac Transit Pwqual Store Messages Exchange AuthData PacSign PacVerify S4u Fast Preauth Hints Reply AsExchange TgsHeader.

Record IssuedTgs := mkIssuedTgs { it_rep : TgsRep; it_session_key : Key.ProtocolKey }.

Record TgsGather := mkGather {
  g_padata : option MethodData;
  g_ap : ApReq;
  g_enc_tkt : EncTicketPart;
  g_session : Key.ProtocolKey;
  g_authenticator : Authenticator;
  g_header_realm : bytes;
  g_renew : bool;
  g_validate : bool;
  g_sname : PrincipalName;
  g_req_realm : bytes;
  g_header_pac : option bytes;
  g_server : Principal;
}.

(** Whose ticket it is: the client it will name, the S4U user behind it, the PAC
    and the authentication time it continues. *)
Record Subject := mkSubject {
  sb_server : Principal;
  sb_cname : PrincipalName;
  sb_crealm : bytes;
  sb_self : bool;
  sb_self_referral : bool;
  sb_local : option Principal;
  sb_x509 : option PaS4uX509User;
  sb_proxy : bool;
  sb_s4u_subject : option (PrincipalName * bytes);
  sb_authtime : Z;
  sb_pac : option bytes;
  sb_logon : option bytes;
}.

Record TgsChecked := mkChecked {
  c_gather : TgsGather;
  c_subject : Subject;
  c_indicators : list Name.ustr;
  c_session_etype : EncryptionType;
  c_set_transited_flag : bool;
  c_stkt : option SecondTicket;
  c_is_crossrealm : bool;
  c_is_referral : bool;
  c_tkt_key : Key.ProtocolKey;
  c_tkt_kvno : Z;
  c_tkt_etype : EncryptionType;
  c_transited : TransitedEncoding;
}.

(** The terms of the new ticket, after the policy modules. *)
Record TgsTerms := mkTgsTerms {
  tt_session : Key.ProtocolKey;
  tt_authtime : Z;
  tt_starttime : Z;
  tt_end : Z;
  tt_flags : list bool;
  tt_renew_till : option Z;
}.

Definition SUPPORTED : list nat :=
  [flag_bit.FORWARDABLE; flag_bit.FORWARDED; flag_bit.PROXIABLE; flag_bit.PROXY; flag_bit.RENEWABLE;
   flag_bit.CNAME_IN_ADDL_TKT; flag_bit.CANONICALIZE; flag_bit.DISABLE_TRANSITED_CHECK; flag_bit.RENEWABLE_OK;
   flag_bit.ENC_TKT_IN_SKEY; flag_bit.RENEW; flag_bit.MAY_POSTDATE; flag_bit.POSTDATED; flag_bit.VALIDATE].

Definition unsupported_bits (o : list bool) : Z := Z.ldiff (Flags.to_u32 o) (Flags.flag_mask SUPPORTED).

Definition tgs_ticket_caddr (body : KdcReqBody) (renew validate : bool) (header : EncTicketPart)
    : option (list HostAddress) :=
  if renew || validate then tp_caddr header
  else if opt body flag_bit.FORWARDED || opt body flag_bit.PROXY then addresses body
  else tp_caddr header.

Definition tgs_reply_caddr (body : KdcReqBody) (renew validate : bool) : option (list HostAddress) :=
  let rewrite := opt body flag_bit.FORWARDED || opt body flag_bit.PROXY in
  if renew || validate || negb rewrite then None else addresses body.

Section TgsExchange.
Context `{KdcStore} `{World} `{Codecs} `{LogonCode} `{AuthdataModules} `{PolicyModules} `{Chrono} {Prim : Primitives}.

(** ** What the request carries *)

Definition gather_tgs_req_info (req : TgsReq) (body : KdcReqBody) (tgs_fast : option FastOk) (h : HeaderTgt)
    : result KdcError TgsGather :=
  if negb (unsupported_bits (kdc_options body) =? 0) then Err (proto err.BADOPTION "UNKNOWN_REASON")
  else
    let ps := match tgs_fast with Some f => Some (inner_padata f) | None => padata (tgs_req req) end in
    let renew := opt body flag_bit.RENEW in
    let validate := opt body flag_bit.VALIDATE in
    if renew && validate then Err (proto err.BADOPTION "TICKET NOT RENEWABLE")
    else
      let? sn := ok_or (sname body) (proto err.S_PRINCIPAL_UNKNOWN "NULL_SERVER") in
      let? req_realm := utf8_realm (body_realm body) in
      if negb (bool_decide (req_realm = store_realm)) then Err (proto err.GENERIC "GET_LOCAL_TGT")
      else
        let? local_tgt := fetch_krbtgt in
        let? header_pac := get_verified_pac (h_enc_tkt h) (h_tgt_key h) (h_server h) local_tgt in
        let? server := search_sprinc sn req_realm body in
        Ok (mkGather ps (h_ap h) (h_enc_tkt h) (h_session h) (h_authenticator h) (h_realm h) renew validate sn req_realm
              header_pac server).

(** ** The subject *)

Definition carried_logon (ap : ApReq) (subject_pac : option bytes) : result KdcError (option bytes) :=
  let logon := raw ← subject_pac;
               match Pac.parse raw with
               | Ok p => match Pac.unique_buffer p PAC_LOGON_INFO with Ok l => l | Err _ => None end
               | Err _ => None
               end in
  match logon with
  | None => Ok None
  | Some logon =>
      let? r := utf8_realm (tkt_realm (ap_ticket ap)) in
      if bool_decide (r = store_realm) then Ok (Some logon)
      else let? l := filter_cross_realm_logon logon in Ok (Some l)
  end.

Definition is_self (enc_tkt : EncTicketPart) (crealm : bytes) (header_client : option Principal) (server : Principal) : bool :=
  bool_decide (crealm = store_realm)
  && match header_client with
     | Some c => bool_decide (realm c = realm server) && bool_decide (name c = name server)
     | None => false
     end.

(** The block of an S4U2Self request. *)
Definition self_subject (body : KdcReqBody) (g : TgsGather) : M Subject :=
  let enc_tkt := g_enc_tkt g in
  let! header_client := lift (fetch_name (tp_cname enc_tkt)) in
  let! crealm := lift (utf8_realm (tp_crealm enc_tkt)) in
  let! s4u := lift (process_s4u2self_req (g_session g) (auth_subkey (g_authenticator g)) (g_padata g) (nonce body)) in
  match s4u with
  | None => ret (mkSubject (g_server g) (tp_cname enc_tkt) crealm false false None None false None (tp_authtime enc_tkt)
                   (g_header_pac g) None)
  | Some s4u =>
      let! header_realm := lift (utf8_realm (tkt_realm (ap_ticket (g_ap g)))) in
      let header_cross := negb (bool_decide (header_realm = store_realm)) in
      let is_referral := tgs_issuing_referral (g_sname g) (g_req_realm g) (g_server g) in
      if negb is_referral && negb (is_self enc_tkt crealm header_client (g_server g))
      then lift (Err (proto err.BADMATCH "INVALID_S4U2SELF_REQUEST_SERVER_MISMATCH"))
      else
        do! check_tgs_s4u2self body s4u header_cross is_referral enc_tkt (g_header_pac g);
        let server := set_attributes (Z.ldiff (attributes (g_server g)) KDB_NO_AUTH_DATA_REQUIRED) (g_server g) in
        ret (mkSubject server
               (if is_referral then tp_cname enc_tkt else s4u_user s4u)
               (if is_referral then crealm else s4u_realm s4u)
               true is_referral (s4u_local s4u) (s4u_x509 s4u) false (Some (s4u_user s4u, s4u_realm s4u))
               (tp_authtime enc_tkt) (g_header_pac g) None)
  end.

(** The block of an S4U2Proxy request: the client of the evidence ticket, from
    its PAC when it crossed realms. *)
Definition proxy_subject (body : KdcReqBody) (g : TgsGather) (sb : Subject) (stkt : option SecondTicket)
    (is_crossrealm is_referral : bool) : result KdcError Subject :=
  let? st := ok_or stkt (proto err.GENERIC "UNKNOWN_REASON") in
  let? cross :=
    (if is_crossrealm then
       let? pac := ok_or (st_pac st) (proto err.BADOPTION "RBCD_PAC_PRINC") in
       let? c := rbcd_pac_client pac in
       Ok (Some c)
     else Ok None) in
  let? _ := check_tgs_s4u2proxy body (g_enc_tkt g) (g_header_pac g) (Some st) (realm (sb_server sb)) is_crossrealm is_referral in
  let? (cn, cr) := match cross with
                   | Some c => Ok c
                   | None => let? crealm := utf8_realm (tp_crealm (st_part st)) in Ok (tp_cname (st_part st), crealm)
                   end in
  Ok (mkSubject (sb_server sb)
        (if is_referral then sb_cname sb else cn) (if is_referral then sb_crealm sb else cr)
        (sb_self sb) (sb_self_referral sb) (sb_local sb) (sb_x509 sb) true (Some (cn, cr))
        (tp_authtime (st_part st)) (st_pac st) (sb_logon sb)).

Definition with_logon (sb : Subject) (logon : option bytes) : Subject :=
  mkSubject (sb_server sb) (sb_cname sb) (sb_crealm sb) (sb_self sb) (sb_self_referral sb) (sb_local sb) (sb_x509 sb)
    (sb_proxy sb) (sb_s4u_subject sb) (sb_authtime sb) (sb_pac sb) logon.

Definition tgs_subject (body : KdcReqBody) (g : TgsGather) (sb : Subject) (stkt : option SecondTicket)
    (is_crossrealm is_referral : bool) : result KdcError Subject :=
  if opt body flag_bit.CNAME_IN_ADDL_TKT then proxy_subject body g sb stkt is_crossrealm is_referral
  else if negb (sb_self sb) then
    let? _ := check_normal_tgs_pac (g_enc_tkt g) (g_header_pac g) (sb_server sb) is_crossrealm in
    let? logon := carried_logon (g_ap g) (g_header_pac g) in
    Ok (with_logon sb logon)
  else if negb (is_some (sb_local sb)) then
    let? logon := carried_logon (g_ap g) (g_header_pac g) in
    Ok (with_logon sb logon)
  else Ok sb.

(** ** The checks *)

(** The key of the new ticket with its version, and the session enctype. *)
Definition tgs_keys (body : KdcReqBody) (server : Principal) (stkt : option SecondTicket)
    : result KdcError (EncryptionType * Key.ProtocolKey * Z * EncryptionType) :=
  if opt body flag_bit.ENC_TKT_IN_SKEY then
    let? st := ok_or stkt (proto err.BADOPTION "NO_2ND_TKT") in
    let? offered := get_2ndtkt_enctype body st in
    let? (k, v, e) := u2u_from_stkt st in
    let? session_etype := match offered with
                          | Some e => Ok e
                          | None => KdcPolicy.select_session_keytype server (body_etype body) policy
                          end in
    Ok (session_etype, k, v, e)
  else
    let? session_etype := KdcPolicy.select_session_keytype server (body_etype body) policy in
    let? skey := map_err (fun _ => proto err.GENERIC "FINDING_SERVER_KEY") (first_current_key server) in
    Ok (session_etype, key skey, kvno skey, ke_etype skey).

(** The indicators of the request's subject: of the second ticket where there is
    one. *)
Definition tgs_indicators (g : TgsGather) (sb : Subject) (stkt : option SecondTicket) (local_tgt : option Principal)
    : result KdcError (list Name.ustr) :=
  let? tgt := ok_or local_tgt (proto err.GENERIC "GET_LOCAL_TGT") in
  let? tgt_key := map_err (fun _ => proto err.GENERIC "GET_LOCAL_TGT") (first_current_key tgt) in
  if sb_self sb then Ok []
  else
    let part := match stkt with Some st => st_part st | None => g_enc_tkt g end in
    let? inds := get_auth_indicators part tgt (key tgt_key) in
    let? _ := check_indicators (sb_server sb) inds in
    Ok inds.

Definition check_tgs_req (req : TgsReq) (body : KdcReqBody) (g : TgsGather) : M TgsChecked :=
  let enc_tkt := g_enc_tkt g in
  let! t := now in
  do! lift (KdcPolicy.check_tgs_constraints_skeleton (policy_body body) (tkt_sname (ap_ticket (g_ap g))) (g_header_realm g)
              (policy_part enc_tkt) (g_sname g) (g_req_realm g) (g_renew g) (g_validate g) t);
  let! sb := self_subject body g in
  let is_referral := tgs_issuing_referral (g_sname g) (g_req_realm g) (sb_server sb) in
  let is_crossrealm := tgs_header_is_crossrealm (g_header_realm g) (realm (sb_server sb)) in
  let! local_tgt := lift fetch_krbtgt in
  let! stkt := lift (decrypt_2ndtkt req local_tgt) in
  let! header_crealm := lift (utf8_realm (tp_crealm enc_tkt)) in
  do! lift (if bool_decide (header_crealm = store_realm) && is_crossrealm && negb (sb_self sb)
            then Err (proto err.POLICY "INVALID LINEAGE") else Ok tt);
  do! lift (if opt body flag_bit.ENC_TKT_IN_SKEY then check_tgs_u2u stkt (sb_server sb) else Ok tt);
  let! sb := lift (tgs_subject body g sb stkt is_crossrealm is_referral) in
  let server := sb_server sb in
  let! t := unix_now_u32 in
  do! lift (KdcPolicy.check_tgs_policy_flags server (policy_body body) (PrincipalName.is_krbtgt (tkt_sname (ap_ticket (g_ap g))))
              (policy_part enc_tkt) t);
  let! indicators := lift (tgs_indicators g sb stkt local_tgt) in
  do! lift (if sb_proxy sb then
              let? st := ok_or stkt (proto err.GENERIC "UNKNOWN_REASON") in
              check_s4u2proxy_policy (g_padata g) (g_sname g) (tp_cname enc_tkt) header_crealm (st_server st) server
                is_crossrealm is_referral
            else Ok tt);
  do! lift (KdcPolicy.check_anon (tp_cname enc_tkt) (name server));
  let! (session_etype, tkt_key, tkt_kvno, tkt_etype) := lift (tgs_keys body server stkt) in
  let tkt_client_realm := if sb_self sb || sb_proxy sb then sb_crealm sb else header_crealm in
  let! (transited, set_transited_flag) :=
    lift (Transit.tgs_transit (tp_transited enc_tkt) (tp_flags enc_tkt) (g_header_realm g) tkt_client_realm (g_req_realm g)
            is_crossrealm (opt body flag_bit.DISABLE_TRANSITED_CHECK) (g_renew g) (g_validate g)
            (reject_bad_transit settings) (capaths settings)) in
  ret (mkChecked g sb indicators session_etype set_transited_flag stkt is_crossrealm is_referral tkt_key tkt_kvno tkt_etype
         transited).

(** ** Times, flags and policy modules *)

(** The database entry whose attributes and lifetimes apply. *)
Definition tgs_client (c : TgsChecked) : result KdcError (option Principal) :=
  let sb := c_subject c in
  let part := match c_stkt c with Some st => st_part st | None => g_enc_tkt (c_gather c) end in
  let? subject_crealm := utf8_realm (tp_crealm part) in
  if sb_self sb then Ok (sb_local sb)
  else if attr (sb_server sb) KDB_NO_AUTH_DATA_REQUIRED then Ok None
  else if bool_decide (subject_crealm = store_realm) then fetch_name (tp_cname part)
  else Ok None.

Definition tgs_flags_times_policy (body : KdcReqBody) (c : TgsChecked) : M TgsTerms :=
  let g := c_gather c in
  let sb := c_subject c in
  let! session := random_key (c_session_etype c) in
  let! t := now in
  let! client := lift (tgs_client c) in
  let! times := lift (KdcPolicy.tgs_times (g_renew g) (g_validate g) (policy_body body) (policy_part (g_enc_tkt g)) client
                        (sb_server sb) (sb_authtime sb) t (c_set_transited_flag c) (sb_self sb && negb (sb_self_referral sb))) in
  let! (stop, renew_till) :=
    enforce_kdcpolicy_tgs body (sb_server sb) (g_enc_tkt g) (c_indicators c) t (KdcPolicy.t_end times)
      (KdcPolicy.t_renew_till times) in
  ret (mkTgsTerms session (KdcPolicy.t_authtime times) (KdcPolicy.t_starttime times) stop (KdcPolicy.t_flags times) renew_till).

(** ** The ticket and the reply *)

(** The PAC the ticket gets. *)
Definition tgs_pac (c : TgsChecked) (include_pac initial ad_data : bool) (hop : option Name.ustr)
    (s4u_client_info : option Name.ustr) : result KdcError (option TicketPac) :=
  let sb := c_subject c in
  let sn := g_sname (c_gather c) in
  let? updated := match ad_data, hop, sb_pac sb with
                  | true, Some hop, Some raw => let? b := update_delegation_info raw sn hop in Ok (Some b)
                  | _, _, _ => Ok None
                  end in
  Ok (if negb include_pac then None
      else if ad_data then
        Some (PacAd (sb_logon sb)
                (if initial then None else match updated with Some b => Some b | None => sb_pac sb end)
                s4u_client_info
                (if initial then sb_s4u_subject sb else None))
      else
        Some (PacMit (mkHandlePac (sb_pac sb) (sb_self sb || sb_proxy sb) (c_is_referral c)
                        ((fun hop => (sn, hop)) <$> hop) (sb_s4u_subject sb)))).

(** The key of the client: the subkey of the authenticator, or the session key. *)
Definition tgs_client_key (g : TgsGather) : result KdcError Key.ProtocolKey :=
  match auth_subkey (g_authenticator g) with
  | Some sub => crypto_err (protocol_key sub)
  | None => Ok (g_session g)
  end.

(** The name in the PAC of an S4U ticket. *)
Definition s4u_client_name (c : TgsChecked) : option Name.ustr :=
  let sb := c_subject c in
  if sb_self sb || sb_proxy sb then
    Some (match c_is_referral c, sb_s4u_subject sb with
          | true, Some (n, r) => at_realm (components_joined n) (realm_chars r)
          | _, _ => components_joined (sb_cname sb)
          end)
  else None.

Definition tgs_ticket_name (c : TgsChecked) : PrincipalName :=
  let g := c_gather c in
  if g_renew g || g_validate g then tkt_sname (ap_ticket (g_ap g))
  else if c_is_referral c then name (sb_server (c_subject c))
  else g_sname g.

Definition tgs_ticket (body : KdcReqBody) (c : TgsChecked) (t : TgsTerms) : M Ticket :=
  let g := c_gather c in
  let sb := c_subject c in
  let server := sb_server sb in
  let! krbtgt_p := lift fetch_krbtgt in
  let! krbtgt_p := lift (ok_or krbtgt_p (proto err.GENERIC "GET_LOCAL_TGT")) in
  let! krbtgt_key := lift (map_err (fun _ => proto err.GENERIC "GET_LOCAL_TGT") (first_current_key krbtgt_p)) in
  let anon := Flags.bit (tt_flags t) flag_bit.ANONYMOUS in
  let with_pac := include_pac_for_reply server (g_padata g) false (is_some (sb_pac sb)) anon in
  let initial := sb_self sb && is_some (sb_local sb) in
  let ad_data := with_pac && pac_has_ad_data (sb_pac sb) initial in
  let! pac_kdc :=
    lift (pac_privsvr_key server
            (if ad_data && PrincipalName.is_krbtgt (name server) && negb (PrincipalName.is_krbtgt_for (name server) store_realm)
             then c_tkt_key c else key krbtgt_key)) in
  let hop := if sb_proxy sb && negb (c_is_crossrealm c)
             then (fun st => unparse_chars (name (st_server st)) (realm_chars (realm (st_server st)))) <$> c_stkt c
             else None in
  let! client_key := lift (tgs_client_key g) in
  let! extra_ad := on_err authdata_failed
    (handle_authdata true anon (enc_authorization_data body) (Some (g_session g)) (Some client_key)
       (tp_authorization_data (g_enc_tkt g)) (Some (tt_session t)) (Some (name krbtgt_p, store_realm))) in
  let! pac := lift (tgs_pac c with_pac initial ad_data hop (s4u_client_name c)) in
  mint_ticket {|
    mt_service_key := c_tkt_key c; mt_kvno := c_tkt_kvno c; mt_service_etype := c_tkt_etype c; mt_session := tt_session t;
    mt_srealm := store_realm; mt_sname := tgs_ticket_name c; mt_crealm := sb_crealm sb; mt_cname := sb_cname sb;
    mt_authtime := tt_authtime t; mt_endtime := tt_end t; mt_flags := tt_flags t; mt_kdc_key := pac_kdc;
    mt_transited := c_transited c; mt_renew_till := tt_renew_till t; mt_pac := pac; mt_starttime := tt_starttime t;
    mt_caddr := tgs_ticket_caddr body (g_renew g) (g_validate g) (g_enc_tkt g); mt_extra_ad := extra_ad;
    mt_indicators := c_indicators c; mt_krbtgt := krbtgt_p; mt_krbtgt_key := key krbtgt_key;
    mt_no_auth_data := attr server KDB_NO_AUTH_DATA_REQUIRED |}.

(** The key the reply is encrypted under with its usage, and the key that
    strengthens it inside FAST. *)
Definition tgs_reply_key (g : TgsGather) (tgs_fast : option FastOk) : M (Key.ProtocolKey * Z * option Key.ProtocolKey) :=
  let! k := lift (tgs_client_key g) in
  let usage := if is_some (auth_subkey (g_authenticator g)) then ku.TGS_REP_ENC_PART_SUBKEY else ku.TGS_REP_ENC_PART in
  match tgs_fast with
  | None => ret (k, usage, None)
  | Some _ =>
      let! sk := random_key (Key.etype k) in
      let! k := crypto (Prf.krb_fx_cf2 sk k (lit_bytes "strengthenkey") (lit_bytes "replykey")) in
      ret (k, usage, Some sk)
  end.

Definition tgs_issue_ticket (req : TgsReq) (raw : option bytes) (body : KdcReqBody) (tgs_fast : option FastOk)
    (c : TgsChecked) (t : TgsTerms) : M IssuedTgs :=
  let g := c_gather c in
  let sb := c_subject c in
  let! ticket := tgs_ticket body c t in
  let! (rep_pa, s4u_enc_pa) :=
    match sb_x509 sb with
    | Some x509 =>
        let! (p, e) := lift (make_s4u2self_rep x509 (g_session g) (auth_subkey (g_authenticator g))) in
        ret (Some p, e)
    | None => ret (None, None)
    end in
  let! (enc_key, enc_usage, strengthen) := tgs_reply_key g tgs_fast in
  let want_enc_pa := is_some (find_pa (padata (tgs_req req)) pa.REQ_ENC_PA_REP)
                     || match tgs_fast with Some f => is_some (find_pa (Some (inner_padata f)) pa.REQ_ENC_PA_REP)
                        | None => false end in
  let! enc_pa := lift (return_enc_padata raw (g_padata g) enc_key want_enc_pa s4u_enc_pa) in
  let! part := lift (enc_rep_part (tt_session t) (match tgs_fast with Some f => fast_nonce f | None => nonce body end)
                       (tt_authtime t) (tt_starttime t) (tt_end t) store_realm (tgs_ticket_name c) (tt_flags t)
                       (tt_renew_till t) enc_pa (tgs_reply_caddr body (g_renew g) (g_validate g)) None) in
  let! enc_der := encoded part in
  let! ct := encrypt_at "UNKNOWN_REASON" enc_key enc_usage enc_der in
  let inner := match rep_pa with Some p => [p] | None => [] end in
  let! ps :=
    match tgs_fast with
    | Some f =>
        let! fin := fast_finished (armor_key f) ticket (sb_cname sb) (sb_crealm sb) in
        let! p := wrap_fast_rep (armor_key f) inner strengthen (fast_nonce f) (Some fin) in
        ret (Some [p])
    | None => ret (match rep_pa with Some p => Some [p] | None => None end)
    end in
  let! (rcrealm, rcname) :=
    if match tgs_fast with Some f => fast_hides_client (fast_options f) | None => false end
    then let! r := lift (ks Transit.ANONYMOUS_REALM) in ret (r, KdcPolicy.anonymous_principal_name)
    else let! r := lift (ks (sb_crealm sb)) in ret (r, sb_cname sb) in
  ret (mkIssuedTgs
         (mkTgsRep (mkRep PVNO MSG_TGS_REP ps rcrealm rcname ticket (mkEnc (EType.to_iana (Key.etype enc_key)) None ct)))
         (tt_session t)).

(** ** The handler *)

Definition issue_tgs_body (req : TgsReq) (raw : option bytes) (body : KdcReqBody) (tgs_fast : option FastOk)
    (h : HeaderTgt) : M IssuedTgs :=
  let! g := lift (gather_tgs_req_info req body tgs_fast h) in
  let! c := check_tgs_req req body g in
  let! t := tgs_flags_times_policy body c in
  tgs_issue_ticket req raw body tgs_fast c t.

Definition issue_tgs_from (req : TgsReq) (raw : option bytes) (sender : option HostAddress) : M IssuedTgs :=
  let outer := req_body (tgs_req req) in
  let! body_der := body_octets raw outer in
  if negb (req_msg_type (tgs_req req) =? MSG_TGS_REQ) then lift (Err (proto err.GENERIC "UNKNOWN_REASON"))
  else
    let ps := padata (tgs_req req) in
    let! pa_tgs := lift (ok_or (find_pa ps pa.TGS_REQ) (proto err.PADATA_TYPE_NOSUPP "PROCESS_TGS")) in
    let! h := process_tgs_header pa_tgs body_der sender in
    let! tgs_fast := unwrap_fast_tgs ps pa_tgs (auth_subkey (h_authenticator h)) (h_session h) in
    let! body := match tgs_fast with
                 | Some f => lift (decoded (A := KdcReqBody) (inner_body f))
                 | None => ret outer
                 end in
    wrap_as_fast tgs_fast body (issue_tgs_body req raw body tgs_fast h).

Definition issue_tgs (req : TgsReq) : M IssuedTgs := issue_tgs_from req None None.

(** Whether the request's tunnel hides the client, for the error of a refused one. *)
Definition peek_tgs_hides_client (req : TgsReq) (raw : bytes) (sender : option HostAddress) : Total bool := fun s =>
  match (match kdc_req_body_der raw with Some b => Ok b | None => encode (req_body (tgs_req req)) end) with
  | Err _ => (s, false)
  | Ok body =>
      match find_pa (padata (tgs_req req)) pa.TGS_REQ with
      | None => (s, false)
      | Some pa_tgs =>
          match process_tgs_header pa_tgs body sender s with
          | (s, Err _) => (s, false)
          | (s, Ok h) =>
              match unwrap_fast_tgs (padata (tgs_req req)) pa_tgs (auth_subkey (h_authenticator h)) (h_session h) s with
              | (s, Ok (Some f)) => (s, fast_hides_client (fast_options f))
              | (s, _) => (s, false)
              end
          end
      end
  end.

Definition set_cname (n : option PrincipalName) (b : KdcReqBody) : KdcReqBody :=
  mkBody (kdc_options b) n (body_realm b) (sname b) (from b) (till b) (rtime b) (nonce b) (body_etype b) (addresses b)
    (enc_authorization_data b) (additional_tickets b).

(** The answer of [tgs_reply]; its second component is for the log. *)
Definition tgs_reply (req : TgsReq) (raw : bytes) (sender : option HostAddress) : M bytes := fun s =>
  let body := set_cname (if req_msg_type (tgs_req req) =? MSG_TGS_REQ then tgs_header_client req else None)
                (req_body (tgs_req req)) in
  let (s, hide) := peek_tgs_hides_client req raw sender s in
  let krb_error code text ed s : Run * result KdcError bytes :=
    let (s, b) := encode_krb_error code text ed (Some body) hide s in (s, Ok b) in
  match issue_tgs_from req (Some raw) sender s with
  | (s, Ok issued) => (s, encode (it_rep issued))
  | (s, Err (Protocol code text ed)) => krb_error code text ed s
  | (s, Err e) => krb_error (if is_crypto e then err.BAD_INTEGRITY else err.GENERIC) (Some "PROCESS_TGS"%string) None s
  end.

End TgsExchange.
