(* ===== verification/TgsCorrect.v ===== *)
(** * Correctness of the TGS exchange

    What a successful run of [issue_tgs_from] establishes: the header ticket and
    its authenticator are genuine and cover the request; client and service agree
    on the new ticket; the ticket outlives neither the header nor its renewal; and
    a ticket that names another client than the header's is one the header's
    client may have, for itself or by delegation. *)

From S2P Require Import Prelude StateErr Etype Primitives Utf8 Ops Prf Name EncList Time Kdc Lockout KdcPolicy PMap Pac Transit Pwqual Store Messages ToyCodec Exchange Runs AuthData PacSign PacVerify S4u Fast Preauth Hints Reply Steady Sample AsExchange AsCorrect TgsHeader TgsExchange.

Section TgsCorrect.
Context `{Chrono} `{KdcStore} `{World} `{Codecs} `{LogonCode} `{AuthdataModules} `{PolicyModules} {Prim : Primitives}.

(** ** The header *)

Lemma utf8_realm_inv b r : utf8_realm b = Ok r -> r = b.
Proof. unfold utf8_realm. case_match; [by intros [= ->]|done]. Qed.

Lemma find_at_inv p e vs k : find_at p e vs = Some k -> k ∈ keys p /\ Keys.etype_permitted policy (ke_etype k) = true.
Proof.
  induction vs as [|v vs IH]; cbn [find_at]; [done|].
  destruct (Keys.find_enctype policy p e v) as [k'|] eqn:E; [|done]. intros [= ->].
  apply find_enctype_inv in E as (? & ? & _). by split.
Qed.

(** A key of the entry, of a permitted enctype. *)
Definition entry_key (p : Principal) (k : Key.ProtocolKey) : Prop :=
  exists ke, ke ∈ keys p /\ key ke = k /\ Keys.etype_permitted policy (ke_etype ke) = true.

Lemma find_server_key_inv p e v k v' : find_server_key p e v = Ok (k, v') -> entry_key p k.
Proof.
  unfold find_server_key. intros (ke & Eo%ok_or_inv & E)%result_inv.
  destruct (match e with Some want => _ | None => false end); [done|]. injection E as <- _. exists ke.
  destruct (v =? 0); [apply find_at_inv in Eo as [? ?]; by split_and!|].
  destruct (Keys.find_enctype policy p e v) as [k'|] eqn:Ef; [|done]. injection Eo as ->.
  apply find_enctype_inv in Ef as (? & ? & _). by split_and!.
Qed.

(** The holder of [k] has read [a] from the encrypted data. *)
Definition read {A} `{Codec A} (k : Key.ProtocolKey) (u : Z) (ed : EncryptedData) (a : A) : Prop :=
  exists plain, Ops.decrypt_enc_data k u (ed_etype ed) (cipher ed) = Ok plain /\ decode plain = Ok a.

Lemma try_tgts_inv n ap p e se v part k :
  try_tgts n ap p e se v = Ok (part, k) -> entry_key p k /\ read k ku.TICKET (tkt_enc_part (ap_ticket ap)) part.
Proof.
  revert v. induction n as [|n IH]; intros v; cbn [try_tgts]; unfold try_tgt;
    (destruct (find_server_key p se v) as [[k' v']|] eqn:Ek;
     [|destruct (_ || _); first [done|apply IH]]);
    (destruct (Keys.etype_permitted policy e); [|destruct (_ || _); first [done|apply IH]]);
    (destruct (Ops.decrypt_enc_data _ _ _ _) as [plain|[]] eqn:Ed;
     try (destruct (_ || _); first [done|apply IH]));
    (destruct (decode plain) as [part'|] eqn:Edec; [|destruct (_ || _); first [done|apply IH]]);
    intros [= -> ->]; (split; [by eapply find_server_key_inv|by exists plain]).
Qed.

(** What an accepted header shows: the ticket is one of a service of this
    database, the authenticator is by the holder of its session key and for its
    client, and its checksum covers the request. *)
Record accepted (s s' : Run) (ap_raw body_der : bytes) (sender : option HostAddress) (h : HeaderTgt) : Prop := {
  ac_ap : decode ap_raw = Ok (h_ap h);
  ac_realm : h_realm h = tkt_realm (ap_ticket (h_ap h));
  ac_server : fetch (lookup_principal_id (tkt_sname (ap_ticket (h_ap h))) (h_realm h)) = Ok (Some (h_server h));
  ac_enabled : attr (h_server h) KDB_DISALLOW_ALL_TIX = false /\ attr (h_server h) KDB_DISALLOW_SVR = false;
  ac_key : entry_key (h_server h) (h_tgt_key h);
  ac_ticket : read (h_tgt_key h) ku.TICKET (tkt_enc_part (ap_ticket (h_ap h))) (h_enc_tkt h);
  ac_session : protocol_key (tp_key (h_enc_tkt h)) = Ok (h_session h);
  ac_authenticator : read (h_session h) ku.TGS_REQ_AUTHENTICATOR (ap_authenticator (h_ap h)) (h_authenticator h);
  ac_client : auth_crealm (h_authenticator h) = tp_crealm (h_enc_tkt h) /\
    PrincipalName.name_string (auth_cname (h_authenticator h)) = PrincipalName.name_string (tp_cname (h_enc_tkt h));
  ac_body : exists ck, auth_cksum (h_authenticator h) = Some ck /\
    Ops.verify_checksum_type (h_session h) ku.TGS_REQ_AUTH_CKSUM body_der (cksumtype ck) (checksum ck) = Ok tt;
  ac_sender : forall a, sender = Some a -> address_search a (tp_caddr (h_enc_tkt h)) = true;
  ac_transit : check_transited (h_enc_tkt h) (h_realm h) = Ok tt;
  ac_live : exists i, (ticks s <= i < ticks s')%nat /\
    KdcPolicy.check_header_times_rd_req (clock i) (policy_part (h_enc_tkt h)) = Ok tt;
  ac_no_armor : find_ad (tp_authorization_data (h_enc_tkt h)) (auth_authorization_data (h_authenticator h)) pa.AD_FX_ARMOR = Ok [];
}.

Lemma decrypt_presented_inv ap e part k p :
  decrypt_presented_tgt ap e = Ok (part, k, p) ->
  fetch (lookup_principal_id (tkt_sname (ap_ticket ap)) (tkt_realm (ap_ticket ap))) = Ok (Some p) /\
  attr p KDB_DISALLOW_ALL_TIX = false /\ attr p KDB_DISALLOW_SVR = false /\
  entry_key p k /\ read k ku.TICKET (tkt_enc_part (ap_ticket ap)) part.
Proof.
  unfold decrypt_presented_tgt. intros (r & ->%utf8_realm_inv & E)%result_inv.
  apply result_inv in E as (po & Ef & E). apply result_inv in E as (p' & ->%ok_or_inv & E).
  destruct (attr p' KDB_DISALLOW_ALL_TIX || attr p' KDB_DISALLOW_SVR) eqn:Ea; [done|].
  apply orb_false_iff in Ea as [Ea1 Ea2]. apply result_inv in E as ([part' k'] & Et%try_tgts_inv & E).
  injection E as -> -> ->. by destruct Et.
Qed.

Lemma check_body_checksum_inv k a b :
  check_body_checksum k a b = Ok tt -> exists ck, auth_cksum a = Some ck /\
    Ops.verify_checksum_type k ku.TGS_REQ_AUTH_CKSUM b (cksumtype ck) (checksum ck) = Ok tt.
Proof.
  unfold check_body_checksum. destruct (auth_cksum a) as [ck|]; [|done].
  repeat (destruct (negb _); [done|]). intros E%map_err_inv. by exists ck.
Qed.

Lemma process_tgs_header_inv ap_raw body_der sender h s s' :
  process_tgs_header ap_raw body_der sender s = (s', Ok h) -> accepted s s' ap_raw body_der sender h /\ later s s'.
Proof.
  unfold process_tgs_header. intros E. apply bind_inv in E as (s1 & ap & [-> Eap%map_err_inv]%lift_inv & E).
  destruct (_ || _); [by inv_runs|].
  apply bind_inv in E as (s2 & r & [-> ->%utf8_realm_inv]%lift_inv & E).
  apply bind_inv in E as (s3 & e & [-> _]%lift_inv & E).
  apply bind_inv in E as (s4 & [[part k] p] & [-> Ed]%lift_inv & E).
  apply decrypt_presented_inv in Ed as (Hf & Ha1 & Ha2 & Hk & Ht).
  apply bind_inv in E as (s5 & se & [-> Es%map_err_inv]%lift_inv & E).
  apply bind_inv in E as (s6 & plain & [-> Ep%map_err_inv]%lift_inv & E).
  apply bind_inv in E as (s7 & a & [-> Ea%map_err_inv]%lift_inv & E).
  apply bind_inv in E as (s8 & ar & [-> ->%utf8_realm_inv]%lift_inv & E).
  apply bind_inv in E as (s9 & cr & [-> ->%utf8_realm_inv]%lift_inv & E).
  apply bind_inv in E as (s10 & [] & [-> Ec]%lift_inv & E). apply bind_inv in E as (s11 & [] & [-> Esd]%lift_inv & E).
  apply bind_inv in E as (s12 & [] & [-> Etr%map_err_inv]%lift_inv & E).
  apply bind_inv in E as (s13 & t & [-> ->]%now_inv & E). apply bind_inv in E as (s14 & [] & [-> El]%lift_inv & E).
  apply bind_inv in E as (s15 & [] & [-> _]%lift_inv & E). apply bind_inv in E as (s16 & fx & [-> Efx%map_err_inv]%lift_inv & E).
  apply bind_inv in E as (s17 & [] & [-> Enf]%lift_inv & E). apply bind_inv in E as (s18 & [] & [-> Eck]%lift_inv & E).
  apply ret_inv in E as [-> <-]. split; [|apply (later_step 1)].
  split; cbn [h_ap h_enc_tkt h_tgt_key h_session h_authenticator h_realm h_server]; try done.
  - by exists plain.
  - destruct (negb _) eqn:En in Ec; [done|]. apply negb_false_iff in En. unfold PrincipalName.principal_compare, PrincipalName.components_eq in En.
    by to_prop.
  - by apply check_body_checksum_inv.
  - intros x ->. destruct (address_search x _); [done|discriminate Esd].
  - exists (ticks s). split; [cbn; lia|done].
  - destruct fx; [done|discriminate Enf].
Qed.

(** ** What the request carries *)

Record gathered (req : TgsReq) (body : KdcReqBody) (fast : option FastOk) (h : HeaderTgt) (g : TgsGather) : Prop := {
  ga_header : g_ap g = h_ap h /\ g_enc_tkt g = h_enc_tkt h /\ g_session g = h_session h /\
    g_authenticator g = h_authenticator h /\ g_header_realm g = h_realm h;
  ga_padata : g_padata g = match fast with Some f => Some (inner_padata f) | None => padata (tgs_req req) end;
  ga_options : g_renew g = opt body flag_bit.RENEW /\ g_validate g = opt body flag_bit.VALIDATE;
  ga_sname : sname body = Some (g_sname g);
  ga_realm : body_realm body = store_realm /\ g_req_realm g = store_realm;
  ga_pac : exists tgt, fetch_krbtgt = Ok tgt /\
    get_verified_pac (h_enc_tkt h) (h_tgt_key h) (h_server h) tgt = Ok (g_header_pac g);
  ga_server : search_sprinc (g_sname g) store_realm body = Ok (g_server g);
}.

Lemma gather_inv req body fast h g : gather_tgs_req_info req body fast h = Ok g -> gathered req body fast h g.
Proof.
  unfold gather_tgs_req_info. destruct (negb _); [done|]. destruct (_ && _); [done|].
  intros (sn & Esn%ok_or_inv & E)%result_inv. apply result_inv in E as (r & ->%utf8_realm_inv & E).
  destruct (negb (bool_decide (body_realm body = store_realm))) eqn:Er; [done|]. to_prop.
  apply result_inv in E as (tgt & Et & E). apply result_inv in E as (pac & Ep & E).
  apply result_inv in E as (sv & Es & E). injection E as <-.
  rewrite Er in Es. split; cbn; try done. by exists tgt.
Qed.

(** ** The subject *)

(** The service that asks for a ticket to itself. *)
Definition own_service (part : EncTicketPart) (server : Principal) : Prop :=
  tp_crealm part = store_realm /\
  exists c, fetch_name (tp_cname part) = Ok (Some c) /\ name c = name server /\ realm c = realm server.

Lemma is_self_spec part c server :
  fetch_name (tp_cname part) = Ok c -> is_self part (tp_crealm part) c server = true -> own_service part server.
Proof.
  intros Hf. unfold is_self, own_service. destruct c as [c|]; [|by rewrite andb_false_r]. intros. to_prop.
  split; [done|]. by exists c.
Qed.

(** The PAC of the header is of the client that presents it, or, for a user of
    another realm, of that user. *)
Definition self_pac (g : TgsGather) (s4u : S4u2Self) : Prop :=
  exists raw pac, g_header_pac g = Some raw /\ Pac.parse raw = Ok pac /\
    match s4u_local s4u with
    | Some _ => pac_client_matches pac (g_enc_tkt g) = true
    | None => pac_client_info_eq pac (Time.unix_seconds (tp_authtime (g_enc_tkt g))) (components_joined (s4u_user s4u))
                (Some (realm_chars (s4u_realm s4u))) = true
    end.

Lemma check_tgs_s4u2self_inv body s4u cross ref g s s' :
  check_tgs_s4u2self body s4u cross ref (g_enc_tkt g) (g_header_pac g) s = (s', Ok tt) -> self_pac g s4u /\ later s s'.
Proof.
  unfold check_tgs_s4u2self.
  destruct (s4u2self_as_invalid_options body); [intros E; by inv_runs|].
  repeat (destruct (_ && _); [intros E; by inv_runs|]).
  intros E. apply bind_inv in E as (s1 & raw & [-> Er%ok_or_inv]%lift_inv & E).
  apply bind_inv in E as (s2 & pac & [-> Ep%map_err_inv]%lift_inv & E). unfold self_pac, pac_client_matches.
  destruct (s4u_local s4u) as [c|].
  - destruct (pac_client_info_eq _ _ _ _) eqn:Ei; [|by inv_runs]. cbn [negb] in E.
    apply bind_inv in E as (s3 & t & Et & [-> _]%lift_inv). split; [by exists raw, pac|].
    injection Et as <- _. apply (later_step 1).
  - destruct (pac_client_info_eq _ _ _ _) eqn:Ei; [|by inv_runs]. cbn [negb] in E.
    apply ret_inv in E as [-> _]. split; [by exists raw, pac|reflexivity].
Qed.

(** The entry the ticket is made for: that of the server, in an S4U2Self request
    with the attribute that keeps PACs out of its tickets cleared. *)
Definition server_of (g : TgsGather) (p : Principal) : Prop :=
  p = g_server g \/ p = set_attributes (Z.ldiff (attributes (g_server g)) KDB_NO_AUTH_DATA_REQUIRED) (g_server g).

Lemma server_of_same g p :
  server_of g p -> name p = name (g_server g) /\ realm p = realm (g_server g) /\ keys p = keys (g_server g).
Proof. by intros [->| ->]. Qed.

(** What names the ticket's client before delegation is looked at. *)
Record self_named (body : KdcReqBody) (g : TgsGather) (sb : Subject) : Prop := {
  sn_server : server_of g (sb_server sb);
  sn_proxy : sb_proxy sb = false;
  sn_authtime : sb_authtime sb = tp_authtime (g_enc_tkt g);
  sn_pac : sb_pac sb = g_header_pac g;
  sn_own : sb_self sb = false -> sb_cname sb = tp_cname (g_enc_tkt g) /\ sb_crealm sb = tp_crealm (g_enc_tkt g);
  sn_self : sb_self sb = true -> exists s4u,
    process_s4u2self_req (g_session g) (auth_subkey (g_authenticator g)) (g_padata g) (nonce body) = Ok (Some s4u) /\
    self_pac g s4u /\
    if tgs_issuing_referral (g_sname g) (g_req_realm g) (g_server g)
    then sb_cname sb = tp_cname (g_enc_tkt g) /\ sb_crealm sb = tp_crealm (g_enc_tkt g)
    else sb_cname sb = s4u_user s4u /\ sb_crealm sb = s4u_realm s4u /\ own_service (g_enc_tkt g) (g_server g);
}.

Lemma self_subject_inv body g sb s s' :
  self_subject body g s = (s', Ok sb) -> self_named body g sb /\ later s s'.
Proof.
  unfold self_subject. intros E. apply bind_inv in E as (s1 & hc & [-> Ehc]%lift_inv & E).
  apply bind_inv in E as (s2 & cr & [-> ->%utf8_realm_inv]%lift_inv & E).
  apply bind_inv in E as (s3 & o & [-> Es]%lift_inv & E). destruct o as [s4u|].
  2:{ apply ret_inv in E as [-> <-]. split; [split; try done; by left|reflexivity]. }
  apply bind_inv in E as (s4 & hr & [-> _]%lift_inv & E).
  destruct (negb (tgs_issuing_referral _ _ _) && _) eqn:Eself; [by inv_runs|].
  apply bind_inv in E as (s5 & [] & [Hp Hl]%check_tgs_s4u2self_inv & E). apply ret_inv in E as [-> <-].
  split; [|done]. split; cbn; try done; [by right|]. intros _. exists s4u. split; [done|]. split; [done|].
  destruct (tgs_issuing_referral _ _ _); [done|]. cbn [negb andb] in Eself. split_and!; try done.
  eapply is_self_spec; [done|]. by apply negb_false_iff.
Qed.

(** ** The second ticket *)

(** A second ticket that was opened: under a key of its service in this database,
    with a PAC that was verified. *)
Record evidence (req : TgsReq) (st : SecondTicket) : Prop := {
  ev_ticket : exists extra more k tgt, additional_tickets (req_body (tgs_req req)) = Some (extra :: more) /\
    fetch (lookup_principal_id (tkt_sname extra) (tkt_realm extra)) = Ok (Some (st_server st)) /\
    entry_key (st_server st) k /\ read k ku.TICKET (tkt_enc_part extra) (st_part st) /\
    fetch_krbtgt = Ok tgt /\ (PrincipalName.is_krbtgt (tkt_sname extra) || is_some tgt = true) /\
    get_verified_pac (st_part st) k (st_server st) (if PrincipalName.is_krbtgt (tkt_sname extra) then None else tgt)
      = Ok (st_pac st);
  ev_enabled : attr (st_server st) KDB_DISALLOW_ALL_TIX = false /\ attr (st_server st) KDB_DISALLOW_SVR = false;
}.

Lemma decrypt_2ndtkt_inv req tgt st : fetch_krbtgt = Ok tgt -> decrypt_2ndtkt req tgt = Ok (Some st) -> evidence req st.
Proof.
  intros Htgt. unfold decrypt_2ndtkt. destruct (_ && _); [done|].
  destruct (additional_tickets _) as [[|extra more]|] eqn:Ex; [done| |done].
  intros (r & ->%utf8_realm_inv & E)%result_inv. apply result_inv in E as (o & Ef & E).
  apply result_inv in E as (sv & ->%ok_or_inv & E).
  destruct (attr sv KDB_DISALLOW_ALL_TIX || attr sv KDB_DISALLOW_SVR) eqn:Ea; [done|].
  apply orb_false_iff in Ea as [Ea1 Ea2]. apply result_inv in E as (e & _ & E).
  apply result_inv in E as ([k v] & Ek%map_err_inv%find_server_key_inv & E).
  apply result_inv in E as (plain & Ep%map_err_inv & E). apply result_inv in E as (part & Epart%map_err_inv & E).
  destruct (PrincipalName.is_krbtgt (tkt_sname extra)) eqn:Eis.
  - apply result_inv in E as (pac & Epac%map_err_inv & E). injection E as <-. split; [|done].
    exists extra, more, k, tgt. cbn. rewrite Eis. split_and!; try done. by exists plain.
  - apply result_inv in E as (t & ->%ok_or_inv & E). apply result_inv in E as (pac & Epac%map_err_inv & E). injection E as <-.
    split; [|done]. exists extra, more, k, (Some t). cbn. rewrite Eis. split_and!; try done. by exists plain.
Qed.

(** ** Delegation *)

(** The delegation a request asks for: [st] is the evidence, [cn] and [cr] the
    client on whose behalf the header's client acts.  Within the realm the
    evidence is a ticket to the service whose local entry has the header client's
    name, and the client is the evidence's; from another realm the evidence is a
    referral the header's client was given, and its verified PAC names the client
    and the request's target. *)
Record delegated (body : KdcReqBody) (g : TgsGather) (cross ref : bool) (st : SecondTicket)
    (cn : PrincipalName) (cr : bytes) : Prop := {
  dl_forwardable : Flags.bit (tp_flags (st_part st)) flag_bit.FORWARDABLE = true;
  dl_options : non_tgt_or_u2u body = false;
  dl_target : PrincipalName.is_krbtgt (g_sname g) = false;
  dl_header : exists raw pac, g_header_pac g = Some raw /\ Pac.parse raw = Ok pac /\
    pac_client_matches pac (g_enc_tkt g) = true;
  dl_client : exists raw pac, st_pac st = Some raw /\ Pac.parse raw = Ok pac /\
    if cross then
      rbcd_pac_client raw = Ok (cn, cr) /\ ref = false /\ tp_cname (st_part st) = tp_cname (g_enc_tkt g) /\
      PrincipalName.is_cross_tgs_principal (name (st_server st)) (realm (st_server st)) = true /\
      verify_deleg_pac pac (st_part st) (Some (g_sname g)) = true
    else
      cn = tp_cname (st_part st) /\ cr = tp_crealm (st_part st) /\ pac_client_matches pac (st_part st) = true /\
      exists c, fetch_name (tp_cname (g_enc_tkt g)) = Ok (Some c) /\ name c = name (st_server st) /\ realm c = realm (st_server st);
}.

Lemma is_client_db_alias_spec p n : is_client_db_alias p n = true ->
  exists c, fetch_name n = Ok (Some c) /\ name c = name p /\ realm c = realm p.
Proof. unfold is_client_db_alias. destruct (fetch_name n) as [[c|]|]; [|done..]. intros. to_prop. by exists c. Qed.

Lemma proxy_subject_inv body g sb stkt cross ref sb' :
  sname body = Some (g_sname g) -> proxy_subject body g sb stkt cross ref = Ok sb' ->
  exists st cn cr, stkt = Some st /\ delegated body g cross ref st cn cr /\
    sb' = mkSubject (sb_server sb) (if ref then sb_cname sb else cn) (if ref then sb_crealm sb else cr)
            (sb_self sb) (sb_self_referral sb) (sb_local sb) (sb_x509 sb) true (Some (cn, cr))
            (tp_authtime (st_part st)) (st_pac st) (sb_logon sb).
Proof.
  intros Hsn. unfold proxy_subject. intros (st & ->%ok_or_inv & E)%result_inv.
  apply result_inv in E as (c & Ec & E). apply result_inv in E as ([] & Ep & E).
  apply result_inv in E as ([cn cr] & Ecn & E). injection E as <-. exists st, cn, cr. split; [done|]. split; [|done].
  unfold check_tgs_s4u2proxy in Ep. cbn [ok_or] in Ep.
  destruct (Flags.bit _ flag_bit.FORWARDABLE) eqn:Ef; [|done]. destruct (non_tgt_or_u2u body) eqn:Eo; [done|].
  rewrite Hsn in Ep. destruct (PrincipalName.is_krbtgt (g_sname g)) eqn:Et; [done|].
  apply result_inv in Ep as (hraw & Eh%ok_or_inv & Ep). apply result_inv in Ep as (hpac & Ehp%map_err_inv & Ep).
  destruct (pac_client_matches hpac (g_enc_tkt g)) eqn:Ehc; [|done].
  apply result_inv in Ep as (sraw & Es%ok_or_inv & Ep). apply result_inv in Ep as (spac & Esp%map_err_inv & Ep).
  cbn [negb] in Ep. split; [done..|by exists hraw, hpac|]. exists sraw, spac. split; [done|]. split; [done|].
  destruct cross.
  - apply result_inv in Ec as (raw & Er%ok_or_inv & Ec). apply result_inv in Ec as (c' & Erb & [= <-]).
    injection Ecn as ->. simplify_eq. destruct ref; [done|]. cbn [orb] in Ep.
    destruct (PrincipalName.is_cross_tgs_principal _ _) eqn:Ex; [|done]. cbn [negb orb] in Ep.
    destruct (_ || _) eqn:Em in Ep; [done|]. destruct (verify_deleg_pac _ _ _) eqn:Ed; [|done].
    to_prop. split_and!; try done.
  - injection Ec as <-. apply result_inv in Ecn as (cr' & ->%utf8_realm_inv & [= <- <-]).
    destruct (is_client_db_alias _ _) eqn:Ea; [|done]. cbn [negb] in Ep.
    destruct (pac_client_matches spac (st_part st)) eqn:Em; [|done]. split_and!; try done.
    by apply is_client_db_alias_spec.
Qed.

(** Who may delegate: the target names the service of the evidence among those it
    accepts, or, within the realm, that service's entry names the target. *)
Definition may_delegate (g : TgsGather) (server : Principal) (cross : bool) (st : SecondTicket) : Prop :=
  allowed_from server (tp_cname (g_enc_tkt g)) (tp_crealm (g_enc_tkt g)) = true \/
  cross = false /\ allowed_to_delegate (st_server st) (g_sname g) = true.

Lemma check_s4u2proxy_policy_inv ps dest n r imp res cross :
  check_s4u2proxy_policy ps dest n r imp res cross false = Ok tt ->
  allowed_from res n r = true \/ cross = false /\ allowed_to_delegate imp dest = true.
Proof.
  unfold check_s4u2proxy_policy. intros (rb & _ & E)%result_inv.
  destruct rb, (allowed_from res n r); cbn [andb] in E; auto;
    (destruct cross, (allowed_to_delegate imp dest); cbn [negb andb] in E; [done..|by auto|done]).
Qed.

(** ** The server *)

Lemma lookup_svc_inv n p : lookup_svc_princ n = Ok (Some p) -> fetch_name n = Ok (Some p).
Proof. unfold lookup_svc_princ. destruct (fetch_name n) as [v|[]]; by try intros [= ->]. Qed.

Lemma first_hop_inv hops p : first_hop hops = Ok p -> exists n, PrincipalName.is_krbtgt n = true /\ fetch_name n = Ok (Some p).
Proof.
  induction hops as [|i hops IH]; cbn [first_hop]; [done|]. intros (n & En%ok_or_inv & E)%result_inv.
  apply result_inv in E as (o & Eo & E). destruct o as [p'|]; [|by apply IH]. injection E as ->. exists n.
  split; [|by apply lookup_svc_inv]. unfold try_krbtgt in En. destruct (is_ascii i); [|done]. by injection En as <-.
Qed.

(** The entry a ticket is issued for: the one of the name that was asked for, or
    the ticket-granting service of a realm nearer to it. *)
Lemma search_sprinc_inv n r body p :
  search_sprinc n r body = Ok p ->
  fetch_name n = Ok (Some p) \/
  non_tgt_or_u2u body = false /\ exists n', PrincipalName.is_krbtgt n' = true /\ fetch_name n' = Ok (Some p).
Proof.
  unfold search_sprinc, no_referral_option. intros (o & Eo & E)%result_inv.
  destruct o as [p'|]; [injection E as ->; left; by apply lookup_svc_inv|]. right.
  destruct (non_tgt_or_u2u body); [done|]. split; [done|].
  destruct (PrincipalName.is_cross_tgs_principal n r); [by eapply first_hop_inv|].
  apply result_inv in E as (rt & Er & E). apply result_inv in E as (o & Eo' & E).
  destruct o as [p'|]; [|by eapply first_hop_inv]. injection E as ->. exists rt. split; [|by apply lookup_svc_inv].
  unfold find_referral_tgs in Er. destruct (negb _); [done|]. destruct (_ || _); [done|].
  apply result_inv in Er as (other & _ & Er). destruct (_ || _); [done|]. by injection Er as <-.
Qed.

Lemma search_sprinc_fetch n r body p : search_sprinc n r body = Ok p -> exists i, fetch i = Ok (Some p).
Proof. intros [E|(_ & n' & _ & E)]%search_sprinc_inv; by eexists. Qed.

(** ** The checks *)

(** Whose name the ticket carries: the header's client; the user a service named
    for itself; or the client of the evidence, whose service may delegate. *)
Definition named (req : TgsReq) (body : KdcReqBody) (g : TgsGather) (c : TgsChecked) : Prop :=
  let sb := c_subject c in
  (sb_cname sb = tp_cname (g_enc_tkt g) /\ sb_crealm sb = tp_crealm (g_enc_tkt g)) \/
  (exists s4u, process_s4u2self_req (g_session g) (auth_subkey (g_authenticator g)) (g_padata g) (nonce body) = Ok (Some s4u) /\
    self_pac g s4u /\ sb_cname sb = s4u_user s4u /\ sb_crealm sb = s4u_realm s4u /\ own_service (g_enc_tkt g) (g_server g)) \/
  (exists st, evidence req st /\ delegated body g (c_is_crossrealm c) false st (sb_cname sb) (sb_crealm sb) /\
    may_delegate g (sb_server sb) (c_is_crossrealm c) st).

(** The key of the ticket: the server's current key, or, user to user, the session
    key of the server's own ticket. *)
Definition ticket_key (req : TgsReq) (body : KdcReqBody) (server : Principal) (k : Key.ProtocolKey) : Prop :=
  if opt body flag_bit.ENC_TKT_IN_SKEY then
    exists st, evidence req st /\ check_tgs_u2u (Some st) server = Ok tt /\ protocol_key (tp_key (st_part st)) = Ok k
  else exists ke, first_current_key server = Ok ke /\ key ke = k.

Record tgs_checked (req : TgsReq) (body : KdcReqBody) (g : TgsGather) (c : TgsChecked) (s s' : Run) : Prop := {
  tc_gather : c_gather c = g;
  tc_server : server_of g (sb_server (c_subject c));
  tc_crossrealm : c_is_crossrealm c = tgs_header_is_crossrealm (g_header_realm g) (realm (g_server g));
  tc_referral : c_is_referral c = tgs_issuing_referral (g_sname g) (g_req_realm g) (g_server g);
  tc_skeleton : exists i, (ticks s <= i < ticks s')%nat /\
    KdcPolicy.check_tgs_constraints_skeleton (policy_body body) (tkt_sname (ap_ticket (g_ap g))) (g_header_realm g)
      (policy_part (g_enc_tkt g)) (g_sname g) (g_req_realm g) (g_renew g) (g_validate g) (clock i) = Ok tt;
  tc_named : named req body g c;
  tc_key : ticket_key req body (sb_server (c_subject c)) (c_tkt_key c);
  tc_key_etype : Forall entry_wf (keys (g_server g)) -> Key.wf (c_tkt_key c) /\ Key.etype (c_tkt_key c) = c_tkt_etype c;
  tc_transit : Transit.tgs_transit (tp_transited (g_enc_tkt g)) (tp_flags (g_enc_tkt g)) (g_header_realm g)
      (sb_crealm (c_subject c)) (g_req_realm g) (c_is_crossrealm c) (opt body flag_bit.DISABLE_TRANSITED_CHECK) (g_renew g) (g_validate g)
      (reject_bad_transit settings) (capaths settings) = Ok (c_transited c, c_set_transited_flag c);
}.

Lemma tgs_keys_inv req body server stkt e k v ke :
  (forall st, stkt = Some st -> evidence req st) ->
  (opt body flag_bit.ENC_TKT_IN_SKEY = true -> check_tgs_u2u stkt server = Ok tt) ->
  tgs_keys body server stkt = Ok (e, k, v, ke) ->
  ticket_key req body server k /\ (Forall entry_wf (keys server) -> Key.wf k /\ Key.etype k = ke).
Proof.
  intros Hev Hu. unfold tgs_keys, ticket_key. destruct (opt body flag_bit.ENC_TKT_IN_SKEY).
  - intros (st & ->%ok_or_inv & E)%result_inv. apply result_inv in E as (off & _ & E).
    apply result_inv in E as ([[k' v'] e'] & Ek & E). apply result_inv in E as (se & _ & E). injection E as <- <- <- <-.
    apply result_inv in Ek as (k0 & Ek%map_err_inv & [= <- <- <-]).
    split; [exists st; split; [by apply Hev|]; by split; [apply Hu|]|]. intros _. split; [by eapply protocol_key_wf|done].
  - intros (se & _ & E)%result_inv. apply result_inv in E as (sk & Ek%map_err_inv & E). injection E as <- <- <- <-.
    split; [by exists sk|]. intros Hw. by destruct (first_current_key_wf _ _ Hw Ek).
Qed.

Lemma tgs_subject_inv req body g sb stkt cross ref sb' :
  sname body = Some (g_sname g) -> self_named body g sb -> (forall st, stkt = Some st -> evidence req st) ->
  ref = tgs_issuing_referral (g_sname g) (g_req_realm g) (g_server g) ->
  tgs_subject body g sb stkt cross ref = Ok sb' ->
  sb_server sb' = sb_server sb /\
  ((sb_proxy sb' = false /\ sb_cname sb' = sb_cname sb /\ sb_crealm sb' = sb_crealm sb /\ sb_self sb' = sb_self sb) \/
   (sb_proxy sb' = true /\ exists st cn cr, stkt = Some st /\ delegated body g cross ref st cn cr /\
      sb_cname sb' = (if ref then tp_cname (g_enc_tkt g) else cn) /\
      sb_crealm sb' = (if ref then tp_crealm (g_enc_tkt g) else cr))).
Proof.
  intros Hsn Hself Hev Href. unfold tgs_subject. destruct (opt body flag_bit.CNAME_IN_ADDL_TKT).
  - intros (st & cn & cr & -> & Hd & ->)%proxy_subject_inv; [|done]. split; [done|]. right. split; [done|].
    exists st, cn, cr. split; [done|]. split; [done|]. cbn [sb_cname sb_crealm]. destruct ref; [|done].
    destruct (sb_self sb) eqn:Es; [|by apply (sn_own _ _ _ Hself)].
    destruct (sn_self _ _ _ Hself Es) as (s4u & _ & _ & Hn). by rewrite <- Href in Hn.
  - pose proof (sn_proxy _ _ _ Hself) as Hp. destruct (negb (sb_self sb)).
    + intros (u & _ & E)%result_inv. apply result_inv in E as (l & _ & E). injection E as <-. by split; [|left].
    + destruct (negb _); [|intros [= <-]; by split; [|left]].
      intros (l & _ & E)%result_inv. injection E as <-. by split; [|left].
Qed.

Lemma check_tgs_req_inv req body g c s s' :
  sname body = Some (g_sname g) -> check_tgs_req req body g s = (s', Ok c) -> tgs_checked req body g c s s' /\ later s s'.
Proof.
  intros Hsn. unfold check_tgs_req. intros E.
  apply bind_inv in E as (s1 & t & [-> ->]%now_inv & E). apply bind_inv in E as (s2 & [] & [-> Esk]%lift_inv & E).
  apply bind_inv in E as (s3 & sb & Esb & E). apply self_subject_inv in Esb as [Hself Hl3].
  apply bind_inv in E as (s4 & tgt & [-> Etg]%lift_inv & E). apply bind_inv in E as (s5 & stkt & [-> Est]%lift_inv & E).
  assert (forall st, stkt = Some st -> evidence req st) as Hev by (intros st ->; by eapply decrypt_2ndtkt_inv).
  apply bind_inv in E as (s6 & hcr & [-> ->%utf8_realm_inv]%lift_inv & E). apply bind_inv in E as (s7 & [] & [-> _]%lift_inv & E).
  apply bind_inv in E as (s8 & [] & [-> Eu]%lift_inv & E). apply bind_inv in E as (s9 & sb' & [-> Esb']%lift_inv & E).
  apply bind_inv in E as (s10 & t & Et & E). injection Et as <- _. apply bind_inv in E as (s11 & [] & [-> _]%lift_inv & E).
  apply bind_inv in E as (s12 & inds & [-> _]%lift_inv & E). apply bind_inv in E as (s13 & [] & [-> Epol]%lift_inv & E).
  apply bind_inv in E as (s14 & [] & [-> _]%lift_inv & E).
  apply bind_inv in E as (s15 & [[[se k] v] ke] & [-> Ek]%lift_inv & E).
  apply bind_inv in E as (s16 & [tr st] & [-> Etr]%lift_inv & E). apply ret_inv in E as [-> <-].
  pose proof (sn_server _ _ _ Hself) as Hsvr. destruct (server_of_same _ _ Hsvr) as (Hn & Hr & Hks).
  assert (tgs_issuing_referral (g_sname g) (g_req_realm g) (sb_server sb)
    = tgs_issuing_referral (g_sname g) (g_req_realm g) (g_server g)) as Href by (unfold tgs_issuing_referral; by rewrite Hn, Hr).
  rewrite Href in *. eapply tgs_subject_inv in Esb' as [Hsv Hsb]; [|done..].
  assert (later s (step 1 s3)) as Hl.
  { etransitivity; [apply (later_step 1)|]. etransitivity; [exact Hl3|apply (later_step 1)]. }
  split; [|exact Hl]. rewrite Hsv in *.
  apply (tgs_keys_inv req) in Ek as [Hk Hkw]; [|done|intros Hs; by rewrite Hs in Eu].
  split; cbn [c_gather c_subject c_is_referral c_tkt_key c_tkt_etype c_transited c_set_transited_flag c_is_crossrealm];
    rewrite ?Hsv; try done.
  - by rewrite Hr.
  - exists (ticks s). split; [|done]. destruct Hl3 as [Hl3 _]. cbn in *. lia.
  - unfold named. cbn [c_subject c_is_crossrealm]. destruct Hsb as [(Hp & -> & -> & Hse)|(Hp & st0 & cn & cr & -> & Hd & Hcn & Hcr)].
    + destruct (sb_self sb) eqn:Es; [|left; by apply (sn_own _ _ _ Hself)].
      destruct (sn_self _ _ _ Hself Es) as (s4u & Hps & Hpac & Hnm).
      destruct (tgs_issuing_referral _ _ _); [by left|]. right; left. exists s4u. by destruct Hnm as (? & ? & ?).
    + destruct (tgs_issuing_referral _ _ _) eqn:Er; [by left|]. right; right. exists st0. rewrite Hcn, Hcr.
      split; [by apply Hev|]. split; [done|]. rewrite Hp in Epol. cbn [ok_or] in Epol.
      unfold may_delegate. rewrite Hsv. by eapply check_s4u2proxy_policy_inv.
  - rewrite <- Hks. done.
  - destruct (sb_self sb' || sb_proxy sb') eqn:Eo; [done|]. apply orb_false_iff in Eo as [Es Ep].
    destruct Hsb as [(_ & _ & -> & Hse)|(Hp & _)]; [|congruence].
    rewrite Es in Hse. by destruct (sn_own _ _ _ Hself (eq_sym Hse)) as [_ ->].
Qed.

(** ** Times and flags *)

(** The end of the renewal, where there is one. *)
Definition renew_seconds (r : option Z) : Z := match r with Some r => Time.unix_seconds r | None => 0 end.

Lemma enforce_renew ask ms t stop renew stop' renew' s s' :
  enforce ask ms t stop renew s = (s', Ok (stop', renew')) ->
  is_some renew' = is_some renew /\ renew_seconds renew' <= renew_seconds renew.
Proof.
  revert stop renew s. induction ms as [|m ms IH]; intros stop renew s; cbn [enforce].
  { intros E. by inv_runs. }
  destruct (ask (ticks s) m) as [adj|[[w|] e]]; [|done..].
  destruct (apply_policy_times t stop renew adj) as [st rn] eqn:E. intros [Hs Hle]%IH.
  enough (is_some rn = is_some renew /\ renew_seconds rn <= renew_seconds renew) as [? ?] by (split; [congruence|lia]).
  unfold apply_policy_times in E. injection E as _ <-. destruct (_ =? 0); [done|].
  destruct (Time.add_seconds t (adj_renew_lifetime adj)) as [cap|], renew as [r|]; try done. cbn.
  split; [done|]. destruct (_ <? _) eqn:El; to_prop; lia.
Qed.

(** The terms of the new ticket: those [tgs_times] computes, shortened at most. *)
Record termed (body : KdcReqBody) (c : TgsChecked) (t : TgsTerms) (s s' : Run) : Prop := {
  te_session : Key.wf (tt_session t) /\ Key.etype (tt_session t) = c_session_etype c;
  te_times : exists i client times, (ticks s <= i < ticks s')%nat /\
    KdcPolicy.tgs_times (g_renew (c_gather c)) (g_validate (c_gather c)) (policy_body body)
      (policy_part (g_enc_tkt (c_gather c))) client (sb_server (c_subject c)) (sb_authtime (c_subject c)) (clock i)
      (c_set_transited_flag c) (sb_self (c_subject c) && negb (sb_self_referral (c_subject c))) = Ok times /\
    tt_authtime t = KdcPolicy.t_authtime times /\ tt_starttime t = KdcPolicy.t_starttime times /\
    tt_flags t = KdcPolicy.t_flags times /\
    Time.unix_seconds (tt_end t) <= Time.unix_seconds (KdcPolicy.t_end times) /\
    is_some (tt_renew_till t) = is_some (KdcPolicy.t_renew_till times) /\
    renew_seconds (tt_renew_till t) <= renew_seconds (KdcPolicy.t_renew_till times);
}.

Lemma tgs_terms_inv body c t s s' :
  tgs_flags_times_policy body c s = (s', Ok t) -> termed body c t s s' /\ later s s'.
Proof.
  unfold tgs_flags_times_policy. intros E. apply bind_inv in E as (s1 & se & Ese & E).
  pose proof (calm_run _ _ _ _ (calm_random_key _) Ese) as Hl1. apply random_key_wf in Ese.
  apply bind_inv in E as (s2 & t0 & [-> ->]%now_inv & E). apply bind_inv in E as (s3 & client & [-> _]%lift_inv & E).
  apply bind_inv in E as (s4 & times & [-> Et]%lift_inv & E). apply bind_inv in E as (s5 & [stop rn] & En & E).
  apply ret_inv in E as [-> <-]. unfold enforce_kdcpolicy_tgs in En.
  pose proof (calm_run _ _ _ _ (calm_enforce _ _ _ _ _) En) as Hl2.
  pose proof (enforce_renew _ _ _ _ _ _ _ _ _ En) as [Hr1 Hr2]. apply enforce_shortens in En.
  split; [split; [done|]|].
  - exists (ticks s1), client, times. cbn [tt_authtime tt_starttime tt_flags tt_end tt_renew_till].
    split_and!; try done; destruct Hl1 as [Hl1 _], Hl2 as [Hl2 _]; cbn in *; lia.
  - etransitivity; [exact Hl1|]. etransitivity; [apply (later_step 1)|exact Hl2].
Qed.

(** ** The ticket and the reply *)

Context `{!WorldLaws} {Laws : PrimitiveLaws} `{!CodecsLaws}.

Lemma tgs_ticket_inv body c t tk s s' :
  Key.wf (c_tkt_key c) -> Key.etype (c_tkt_key c) = c_tkt_etype c -> tgs_ticket body c t s = (s', Ok tk) ->
  (exists ad, opens (c_tkt_key c) ku.TICKET (tkt_enc_part tk)
      (mkTktPart (tt_flags t) (encryption_key (tt_session t)) (sb_crealm (c_subject c)) (sb_cname (c_subject c))
         (c_transited c) (tt_authtime t) (KdcPolicy.omit_start_if_auth (tt_starttime t) (tt_authtime t)) (tt_end t)
         (tt_renew_till t) (tgs_ticket_caddr body (g_renew (c_gather c)) (g_validate (c_gather c)) (g_enc_tkt (c_gather c))) ad) /\
    tkt_realm tk = store_realm /\ tkt_sname tk = tgs_ticket_name c).
Proof.
  intros Hk He. unfold tgs_ticket. intros E. do 7 (apply bind_inv in E as (? & ? & _ & E)).
  apply mint_ticket_opens in E; [|done..]. destruct E as (ad & Ho & Hr & Hs). by exists ad.
Qed.

(** The client's key, and how the reply's comes from it. *)
Definition client_key (h : HeaderTgt) (k : Key.ProtocolKey) : Prop :=
  match auth_subkey (h_authenticator h) with Some sub => protocol_key sub = Ok k | None => k = h_session h end.

Definition reply_usage (h : HeaderTgt) : Z :=
  if is_some (auth_subkey (h_authenticator h)) then ku.TGS_REP_ENC_PART_SUBKEY else ku.TGS_REP_ENC_PART.

Lemma tgs_client_key_inv h g k :
  g_session g = h_session h -> g_authenticator g = h_authenticator h -> Key.wf (h_session h) ->
  tgs_client_key g = Ok k -> client_key h k /\ Key.wf k.
Proof.
  intros Hs Ha Hw. unfold tgs_client_key, client_key. rewrite Ha, Hs. destruct (auth_subkey _) as [sub|].
  - intros E%map_err_inv. split; [done|by eapply protocol_key_wf].
  - by intros [= <-].
Qed.

Definition tgs_ticket_of (issued : IssuedTgs) : Ticket := rep_ticket (tgs_rep (it_rep issued)).

(** What client and service have in common after the exchange. *)
Record tgs_agreed (body : KdcReqBody) (fast : option FastOk) (h : HeaderTgt) (c : TgsChecked) (t : TgsTerms)
    (issued : IssuedTgs) (k reply : Key.ProtocolKey) (tp : EncTicketPart) (rp : EncKdcRepPart) : Prop := {
  tg_ticket : opens (c_tkt_key c) ku.TICKET (tkt_enc_part (tgs_ticket_of issued)) tp;
  tg_key : client_key h k /\ reply_key_from fast (rep_padata (tgs_rep (it_rep issued))) k reply;
  tg_reply : opens reply (reply_usage h) (rep_enc_part (tgs_rep (it_rep issued))) rp;
  tg_session : tp_key tp = rp_key rp /\ rp_key rp = encryption_key (it_session_key issued);
  tg_terms : tp_flags tp = rp_flags rp /\ tp_authtime tp = rp_authtime rp /\ tp_starttime tp = rp_starttime rp /\
    tp_endtime tp = rp_endtime rp /\ tp_renew_till tp = rp_renew_till rp;
  tg_times : tp_flags tp = tt_flags t /\ tp_authtime tp = tt_authtime t /\ tp_endtime tp = tt_end t /\
    tp_renew_till tp = tt_renew_till t /\ tp_starttime tp = KdcPolicy.omit_start_if_auth (tt_starttime t) (tt_authtime t);
  tg_nonce : rp_nonce rp = match fast with Some f => fast_nonce f | None => nonce body end;
  tg_service : tkt_realm (tgs_ticket_of issued) = rp_srealm rp /\ rp_srealm rp = store_realm /\
    tkt_sname (tgs_ticket_of issued) = rp_sname rp /\ rp_sname rp = tgs_ticket_name c;
  tg_client : tp_cname tp = sb_cname (c_subject c) /\ tp_crealm tp = sb_crealm (c_subject c);
  tg_transited : tp_transited tp = c_transited c;
  tg_caddr : tp_caddr tp = tgs_ticket_caddr body (g_renew (c_gather c)) (g_validate (c_gather c)) (g_enc_tkt (c_gather c));
}.

(** The strengthening key and the reply key, before the tunnel is closed. *)
Definition strengthened (fast : option FastOk) (k reply : Key.ProtocolKey) (sk : option Key.ProtocolKey) : Prop :=
  match fast with
  | None => reply = k /\ sk = None
  | Some _ => exists sk', sk = Some sk' /\
      Prf.krb_fx_cf2 sk' k (lit_bytes "strengthenkey") (lit_bytes "replykey") = Ok reply
  end.

Lemma tgs_reply_key_inv h g fast reply u sk s s' :
  g_session g = h_session h -> g_authenticator g = h_authenticator h -> Key.wf (h_session h) ->
  tgs_reply_key g fast s = (s', Ok (reply, u, sk)) ->
  exists k, client_key h k /\ strengthened fast k reply sk /\ Key.wf reply /\ u = reply_usage h.
Proof.
  intros Hs Ha Hw. unfold tgs_reply_key. intros E. apply bind_inv in E as (s1 & k & [-> Ek]%lift_inv & E).
  apply (tgs_client_key_inv h) in Ek as [Hk Hkw]; [|done..]. exists k. unfold strengthened, reply_usage. rewrite <- Ha.
  destruct fast as [f|].
  - inv_runs. split_and!; [done|by eexists|by eapply cf2_wf|done].
  - apply ret_inv in E as [-> [= <- <- <-]]. by split_and!.
Qed.

(** The padata of the reply: in a tunnel, the armored response. *)
Lemma tgs_padata_inv fast inner sk n tk cn cr ps k reply s s' :
  (forall f, fast = Some f -> Key.wf (armor_key f)) -> strengthened fast k reply sk ->
  match fast with
  | Some f =>
      let! fin := fast_finished (armor_key f) tk cn cr in
      let! p := wrap_fast_rep (armor_key f) inner sk (fast_nonce f) (Some fin) in
      ret (Some [p])
  | None => ret n
  end s = (s', Ok ps) -> reply_key_from fast ps k reply.
Proof.
  intros Hf Hsk. unfold reply_key_from, strengthened in *. destruct fast as [f|]; [|by destruct Hsk].
  specialize (Hf f eq_refl). destruct Hsk as (sk' & -> & Hcf). unfold wrap_fast_rep. intros E. inv_runs.
  eexists _, _, _, sk'. split; [done|]. split; [done|]. split; [by eapply encrypt_opens|]. by split_and!.
Qed.

Lemma tgs_issue_inv req raw body fast h c t issued s s' :
  g_session (c_gather c) = h_session h -> g_authenticator (c_gather c) = h_authenticator h -> Key.wf (h_session h) ->
  Key.wf (c_tkt_key c) -> Key.etype (c_tkt_key c) = c_tkt_etype c ->
  (forall f, fast = Some f -> Key.wf (armor_key f)) ->
  tgs_issue_ticket req raw body fast c t s = (s', Ok issued) ->
  exists k reply tp rp, tgs_agreed body fast h c t issued k reply tp rp.
Proof.
  intros Hs Ha Hw Hkw Hke Hf. unfold tgs_issue_ticket. intros E.
  apply bind_inv in E as (s1 & tk & Etk & E). apply tgs_ticket_inv in Etk as (ad & Hop & Hr & Hsn); [|done..].
  apply bind_inv in E as (s2 & [rpa epa] & _ & E). apply bind_inv in E as (s3 & [[reply u] sk] & Erk & E).
  apply (tgs_reply_key_inv h) in Erk as (k & Hk & Hst & Hrw & ->); [|done..].
  apply bind_inv in E as (s4 & enc_pa & _ & E). apply bind_inv in E as (s5 & part & [-> Epart]%lift_inv & E).
  apply enc_rep_part_inv in Epart as ->. apply bind_inv in E as (s6 & der & [-> Eder]%lift_inv & E).
  apply bind_inv in E as (s7 & ct & Ec%encrypt_at_inv & E). apply bind_inv in E as (s8 & ps & Eps & E).
  eapply tgs_padata_inv in Eps; [|done..]. apply bind_inv in E as (s9 & [rcr rcn] & _ & E). apply ret_inv in E as [_ <-].
  eexists k, reply, _, _. split; cbn; try first [done|by eapply encrypt_opens|exact Hop].
Qed.

Lemma tgs_checked_mono req body g c s s' r r' :
  tgs_checked req body g c s s' -> (ticks r <= ticks s)%nat -> (ticks s' <= ticks r')%nat -> tgs_checked req body g c r r'.
Proof. intros [] ??. split; try done. destruct tc_skeleton0 as (i & Hi & ?). exists i. split; [lia|done]. Qed.

Lemma termed_mono body c t s s' r r' :
  termed body c t s s' -> (ticks r <= ticks s)%nat -> (ticks s' <= ticks r')%nat -> termed body c t r r'.
Proof. intros [] ??. split; try done. destruct te_times0 as (i & cl & ts & Hi & ?). exists i, cl, ts. split; [lia|done]. Qed.

Lemma calm_issue_ticket req raw body fast c t : calm (tgs_issue_ticket req raw body fast c t).
Proof. unfold tgs_issue_ticket, tgs_ticket, tgs_reply_key. calm. Qed.

(** ** The handler *)

(** The request that is answered: the outer one, or the one in the tunnel; and
    the octets the authenticator's checksum covers. *)
Record tgs_request (req : TgsReq) (raw : option bytes) (sender : option HostAddress) (s s' : Run) (fast : option FastOk)
    (body : KdcReqBody) (h : HeaderTgt) : Prop := {
  tq_header : exists s1 s2 ap_raw body_der, body_octets raw (req_body (tgs_req req)) s = (s1, Ok body_der) /\
    find_pa (padata (tgs_req req)) pa.TGS_REQ = Some ap_raw /\ accepted s1 s2 ap_raw body_der sender h /\
    (ticks s <= ticks s1)%nat /\ (ticks s2 <= ticks s')%nat /\
    exists s3, unwrap_fast_tgs (padata (tgs_req req)) ap_raw (auth_subkey (h_authenticator h)) (h_session h) s2 = (s3, Ok fast);
  tq_body : match fast with Some f => decode (inner_body f) = Ok body | None => body = req_body (tgs_req req) end;
}.

Context `{!StoreLaws}.

(** Everything a ticket of the exchange was issued on. *)
Record tgs_issued (req : TgsReq) (raw : option bytes) (sender : option HostAddress) (s s' : Run) (issued : IssuedTgs)
    (fast : option FastOk) (body : KdcReqBody) (h : HeaderTgt) (c : TgsChecked) (t : TgsTerms)
    (k reply : Key.ProtocolKey) (tp : EncTicketPart) (rp : EncKdcRepPart) : Prop := {
  ti_request : tgs_request req raw sender s s' fast body h;
  ti_gathered : gathered req body fast h (c_gather c);
  ti_checked : tgs_checked req body (c_gather c) c s s';
  ti_termed : termed body c t s s';
  ti_agreed : tgs_agreed body fast h c t issued k reply tp rp;
}.

Lemma issue_tgs_from_inv req raw sender issued s s' :
  issue_tgs_from req raw sender s = (s', Ok issued) ->
  exists fast body h c t k reply tp rp, tgs_issued req raw sender s s' issued fast body h c t k reply tp rp.
Proof.
  unfold issue_tgs_from. intros E. apply bind_inv in E as (s1 & bd & Ebd & E).
  destruct (negb _); [by inv_runs|]. apply bind_inv in E as (s1' & ap_raw & [-> Eap%ok_or_inv]%lift_inv & E).
  apply bind_inv in E as (s2 & h & Eh & E). apply process_tgs_header_inv in Eh as [Hacc Hl2].
  apply bind_inv in E as (s3 & fast & Ef & E). apply bind_inv in E as (s4 & body & Eb & E). apply wrap_as_fast_inv in E.
  assert (s4 = s3 /\ match fast with Some f => decode (inner_body f) = Ok body | None => body = req_body (tgs_req req) end)
    as [-> Hbody] by (unfold decoded in *; destruct fast; by inv_runs).
  unfold issue_tgs_body in E. apply bind_inv in E as (s4 & g & [-> Eg%gather_inv]%lift_inv & E).
  apply bind_inv in E as (s5 & c & Ec & E). apply bind_inv in E as (s6 & t & Et & E).
  apply check_tgs_req_inv in Ec as [Hc Hl5]; [|apply Eg]. apply tgs_terms_inv in Et as [Ht Hl6].
  assert (Key.wf (h_session h)) as Hsw by (eapply protocol_key_wf, ac_session; exact Hacc).
  assert (Forall entry_wf (keys (g_server g))) as Hsv.
  { destruct (search_sprinc_fetch _ _ _ _ (ga_server _ _ _ _ _ Eg)) as [i Hi]. by eapply stored_wf. }
  destruct (tc_key_etype _ _ _ _ _ _ Hc Hsv) as [Hkw Hke].
  pose proof (tc_gather _ _ _ _ _ _ Hc) as Hg. destruct (ga_header _ _ _ _ _ Eg) as (_ & _ & Hs & Ha & _).
  assert (forall f, fast = Some f -> Key.wf (armor_key f)) as Hf.
  { intros f ->. unfold unwrap_fast_tgs in Ef. apply on_err_inv in Ef. by eapply find_fast_wf. }
  pose proof (calm_run _ _ _ _ (calm_issue_ticket _ _ _ _ _ _) E) as Hl7.
  pose proof (calm_run _ _ _ _ (body_octets_calm _ _) Ebd) as Hl1.
  pose proof (calm_run _ _ _ _ (calm_unwrap_fast_tgs _ _ _ _) Ef) as Hl3.
  subst g. eapply (tgs_issue_inv _ _ _ _ h) in E; [|done..]. destruct E as (k & reply & tp & rp & Hag).
  exists fast, body, h, c, t, k, reply, tp, rp. split; try done.
  - split; [|done]. exists s1, s2, ap_raw, bd. destruct Hl1 as [? _], Hl3 as [? _], Hl5 as [? _], Hl6 as [? _], Hl7 as [? _].
    split_and!; [done..|lia|lia|by exists s3].
  - eapply tgs_checked_mono; [exact Hc| |]; destruct Hl1 as [? _], Hl2 as [? _], Hl3 as [? _], Hl6 as [? _], Hl7 as [? _]; lia.
  - eapply termed_mono; [exact Ht| |]; destruct Hl1 as [? _], Hl2 as [? _], Hl3 as [? _], Hl5 as [? _], Hl7 as [? _]; lia.
Qed.

(** ** The properties of the exchange *)

(** C6: when the TGS exchange issues a ticket, client and service agree.  The
    ticket opens in the key of the service found for the request (or, user to
    user, in the session key of the service's own ticket); the reply opens in the
    subkey of the authenticator, or the session key of the ticket presented, in a
    FAST tunnel strengthened by the key in the armored response; the two carry
    the same session key, and the same flags and times, those computed for the
    request; the reply repeats the nonce and names the service of the ticket; the ticket names the client the request was
    granted for, the transited realms computed for it and the addresses due. *)
Theorem tgs_agreement req raw sender issued s s' :
  issue_tgs_from req raw sender s = (s', Ok issued) ->
  exists fast body h c t k reply tp rp,
    tgs_request req raw sender s s' fast body h /\ gathered req body fast h (c_gather c) /\
    tgs_checked req body (c_gather c) c s s' /\ termed body c t s s' /\
    tgs_agreed body fast h c t issued k reply tp rp.
Proof.
  intros (fast & body & h & c & t & k & reply & tp & rp & [])%issue_tgs_from_inv.
  by exists fast, body, h, c, t, k, reply, tp, rp.
Qed.

(** C1: a ticket of the TGS exchange names only a client the requester may act
    for.  The requester has presented a ticket of a service of this realm, in time
    and unarmored, with an authenticator under its session key, by its client and
    over this request.  The ticket opens in the key the request was checked for (the
    service's, or user to user the session key of the service's own ticket), and the
    client in it is the client of the ticket presented; or, by S4U2Self, a user named
    under a checksum in the requester's key, where the ticket asked for is for the
    requester itself and the PAC presented is the requester's own; or, by S4U2Proxy,
    the client of a forwardable evidence ticket for the requester, which the KDC's
    policy lets delegate to the service.  (The requester is matched by name alone
    against the service of the evidence ticket, which is looked up in the local
    database; the second ticket is the one of the outer body, also in a tunnel.) *)
Theorem tgs_entitled req raw sender issued s s' :
  issue_tgs_from req raw sender s = (s', Ok issued) ->
  exists fast body h c tp,
    tgs_request req raw sender s s' fast body h /\ gathered req body fast h (c_gather c) /\
    tgs_checked req body (c_gather c) c s s' /\
    opens (c_tkt_key c) ku.TICKET (tkt_enc_part (tgs_ticket_of issued)) tp /\
    tp_cname tp = sb_cname (c_subject c) /\ tp_crealm tp = sb_crealm (c_subject c) /\ named req body (c_gather c) c.
Proof.
  intros (fast & body & h & c & t & k & reply & tp & rp & [])%issue_tgs_from_inv.
  exists fast, body, h, c, tp. destruct ti_agreed0. destruct tg_client0. split_and!; try done. apply ti_checked0.
Qed.

(** C15: no ticket of the TGS exchange outlives the ticket it was got with: neither
    its end nor its renew-till time is later than the later of the header's, for
    every request (renewals, validations, S4U) and whatever the policy modules
    decide; and it is again a well-formed header, one that is renewable only with a
    renew-till time.  The one exception is a request for a new ticket that would
    start, by a clock reading of this exchange, more than 2^31 seconds (68 years)
    after the end it may have.  The ticket presented is a well-formed header, and
    the clock and the start asked for are times of 32 bits. *)
Theorem tgs_bounded `{!ChronoLaws} req raw sender issued s s' :
  issue_tgs_from req raw sender s = (s', Ok issued) ->
  exists fast body h c tp i,
    tgs_request req raw sender s s' fast body h /\ gathered req body fast h (c_gather c) /\
    tgs_checked req body (c_gather c) c s s' /\
    opens (c_tkt_key c) ku.TICKET (tkt_enc_part (tgs_ticket_of issued)) tp /\ (ticks s <= i < ticks s')%nat /\
    (KdcPolicy.header_ok (policy_part (h_enc_tkt h)) -> is_u32 (clock i) -> (forall f, from body = Some f -> is_u32 f) ->
     (KdcPolicy.limit (policy_part tp) <= KdcPolicy.limit (policy_part (h_enc_tkt h)) /\ KdcPolicy.header_ok (policy_part tp)) \/
     KdcPolicy.wraps (g_renew (c_gather c)) (g_validate (c_gather c)) (policy_body body) (clock i) (policy_part (h_enc_tkt h))).
Proof.
  intros (fast & body & h & c & t & k & reply & tp & rp & [Hq Hga Hc Htm Hag])%issue_tgs_from_inv.
  destruct Htm as [_ (i & cl & times & Hi & Etimes & Ea & Es & Efl & Hle & Hsome & Hren)].
  pose proof (tg_ticket _ _ _ _ _ _ _ _ _ _ Hag) as Hop.
  exists fast, body, h, c, tp, i. do 5 (split; [done|]). intros Hok Hn Hf.
  destruct (tg_times _ _ _ _ _ _ _ _ _ _ Hag) as (Tf & Ta & Te & Tr & _).
  destruct (ga_header _ _ _ _ _ Hga) as (_ & Hg & _). rewrite Hg in Etimes.
  destruct (decide (KdcPolicy.wraps (g_renew (c_gather c)) (g_validate (c_gather c)) (policy_body body) (clock i)
    (policy_part (h_enc_tkt h)))) as [Hw|Hw]; [by right|left].
  apply KdcPolicy.tgs_times_within in Etimes as (Hl & Hr & Hlim); [|done..].
  unfold KdcPolicy.limit, KdcPolicy.header_ok, policy_part, KdcPolicy.as_header, renew_seconds in *. cbn in *.
  rewrite Te, Tr, Tf, Efl. split; [lia|]. split; [done|]. intros Hb. apply Hr in Hb as [r Hb]. rewrite Hb in Hsome.
  by destruct (tt_renew_till t).
Qed.

End TgsCorrect.

(** ** Examples *)

Section Examples.
Import Sample.

(** A request for [h/s] with the ticket-granting ticket of [v]. *)
Definition tgt_body : KdcReqBody :=
  mkBody Flags.none (Some v) R (Some (PrincipalName.krbtgt R)) None (NOW + 3600) None 76 [18] None None None.
Definition tgt_ask : AsReq := mkAsReq (mkReq PVNO MSG_AS_REQ None tgt_body).
Definition service_body : KdcReqBody :=
  mkBody Flags.none None R (Some service) None (NOW + 7200) None 77 [18] None None None.

(** The client's side: an authenticator over the body under the session key of
    the ticket. *)
Definition present (session : Key.ProtocolKey) (tk : Ticket) (body : KdcReqBody) (s : Run) : option TgsReq :=
  match encode body with
  | Ok der =>
      match Ops.checksum session ku.TGS_REQ_AUTH_CKSUM der with
      | Ok mac =>
          match encode (mkAuth 5 R v (Some (mkCksum (EType.checksum_type (Key.etype session)) mac)) 0 NOW None None None) with
          | Ok a =>
              match encrypt session ku.TGS_REQ_AUTHENTICATOR a s with
              | (_, Ok c) =>
                  match encode (mkApReq PVNO 14 Flags.none tk (mkEnc 18 None c)) with
                  | Ok ap => Some (mkTgsReq (mkReq PVNO MSG_TGS_REQ (Some [mkPa pa.TGS_REQ ap]) body))
                  | Err _ => None
                  end
              | _ => None
              end
          | Err _ => None
          end
      | Err _ => None
      end
  | Err _ => None
  end.

Definition service_ask : TgsReq :=
  Eval vm_compute in
  match issue_as_from tgt_ask None start with
  | (s, Ok issued) => default (mkTgsReq (as_req tgt_ask))
      (present (ias_session issued) (rep_ticket (as_rep (ias_rep issued))) service_body s)
  | _ => mkTgsReq (as_req tgt_ask)
  end.

#[local] Existing Instances world_laws store_laws toy_laws toy_codecs_laws ToyChronoLaws.

Lemma sample_plain s' fast body h :
  tgs_request service_ask None None start s' fast body h ->
  fast = None /\ body = service_body /\ tp_crealm (h_enc_tkt h) = R /\ tp_cname (h_enc_tkt h) = v /\
  policy_part (h_enc_tkt h) = 
    KdcPolicy.mkPart (Flags.with_bit (Flags.with_bit Flags.none flag_bit.INITIAL true) flag_bit.ENC_PA_REP true) NOW None (NOW + 3600) None.
Proof.
  intros [(s1 & s2 & ap_raw & bd & Hbd & Hap & Hacc & _ & _ & s3 & Hf) Hb].
  injection Hap as <-. destruct h as [ap et k se au hr hs], Hacc as [Eap Er Esv _ Ek Et _ _ _ _ _ _ _ _]. cbn in Eap, Er, Esv, Ek, Et |- *.
  assert (fast = None) as -> by (vm_compute in Hf; congruence). split; [done|]. split; [done|].
  vm_compute in Eap. injection Eap as <-. cbn in Er, Esv, Et. subst hr. vm_compute in Esv. injection Esv as <-.
  destruct Ek as (ke & Hke%list_elem_of_singleton & Ek & _). subst ke. cbn [key] in Ek. subst k.
  destruct Et as (plain & Hd & Et). vm_compute in Hd. injection Hd as <-. vm_compute in Et. injection Et as <-.
  vm_compute. by split_and!.
Qed.

Lemma tgs_agreement_witness :
  exists s' issued, issue_tgs_from service_ask None None start = (s', Ok issued) /\
    exists fast h c t k reply tp rp, tgs_agreed service_body fast h c t issued k reply tp rp.
Proof.
  destruct (issue_tgs_from service_ask None None start) as [s' [issued|e]] eqn:E; [|by vm_compute in E].
  exists s', issued. split; [done|].
  destruct (tgs_agreement _ _ _ _ _ _ E) as (fast & body & h & c & t & k & reply & tp & rp & Hq & _ & _ & _ & Ha).
  apply sample_plain in Hq as (-> & -> & _). by exists None, h, c, t, k, reply, tp, rp.
Defined.

(** The new ticket names the client of the ticket presented. *)
Lemma tgs_entitled_witness :
  exists s' issued, issue_tgs_from service_ask None None start = (s', Ok issued) /\
    exists k tp, opens k ku.TICKET (tkt_enc_part (tgs_ticket_of issued)) tp /\ tp_crealm tp = R /\ tp_cname tp = v.
Proof.
  destruct (issue_tgs_from service_ask None None start) as [s' [issued|e]] eqn:E; [|by vm_compute in E].
  exists s', issued. split; [done|].
  destruct (tgs_entitled _ _ _ _ _ _ E) as (fast & body & h & c & tp & Hq & Hg & _ & Ht & Hcn & Hcr & Hn).
  apply sample_plain in Hq as (-> & -> & Hr & Hc & _). exists (c_tkt_key c), tp.
  destruct Hg as [(_ & Hg & _ & _ & _) Hpa _ _ _ _ _]. rewrite Hcn, Hcr, <- Hr, <- Hc, <- Hg. split; [done|]. clear E.
  destruct Hn as [[-> ->]|[(s4u & Hs & _)|(st & Hev & _)]]; [by split| |].
  - unfold process_s4u2self_req in Hs. rewrite Hpa in Hs. discriminate Hs.
  - destruct Hev as [(extra & more & k & tgt & Hx & _) _]. done.
Defined.

Lemma tgs_bounded_witness :
  exists s' issued, issue_tgs_from service_ask None None start = (s', Ok issued) /\
    exists k tp, opens k ku.TICKET (tkt_enc_part (tgs_ticket_of issued)) tp /\ KdcPolicy.limit (policy_part tp) <= NOW + 3600.
Proof.
  destruct (issue_tgs_from service_ask None None start) as [s' [issued|e]] eqn:E; [|by vm_compute in E].
  exists s', issued. split; [done|].
  destruct (tgs_bounded _ _ _ _ _ _ E) as (fast & body & h & c & tp & i & Hq & _ & _ & Ht & _ & Hl).
  apply sample_plain in Hq as (-> & -> & _ & _ & Hp). rewrite Hp in Hl.
  exists (c_tkt_key c), tp. split; [done|]. clear E.
  assert (is_u32 (clock i)) as Hn by (vm_compute; by split).
  destruct (Hl ltac:(split; [reflexivity|intros Hb; discriminate Hb]) Hn ltac:(discriminate)) as [[Hl' _]|(_ & _ & Hw)].
  - exact Hl'.
  - exfalso. revert Hw. vm_compute. discriminate.
Defined.

End Examples.
