(* ===== verification/Iprop.v ===== *)
(** * Updates of incremental propagation

    Models [krb5-kdc/src/store/iprop_xdr.rs]: the XDR form of an update of one
    principal, its writer, its reader and the walk that only finds where its
    fields are.  The cursor of [XdrIn] is the rest of the bytes; a position is the
    length before it.  The closure that wraps a key under the master key draws
    random bytes: it gets the number of keys wrapped before.  The text of an error
    that comes from another crate is not kept. *)

From stdpp Require Import pretty.
From S2P Require Import Prelude Reader Utf8 Etype Primitives Cts Derive Weak Ops Name EncList Kdc Lockout.
From S2P Require Import Osa History PMap Acl Store.

Module Iprop.
Import Osa.

Inductive XdrError := Short | Invalid (what : string).

Record UlogTime := mkTime { seconds : Z; useconds : Z }.

#[export] Instance UlogTime_eq_dec : EqDecision UlogTime.
Proof. solve_decision. Defined.

Definition time_zero : UlogTime := mkTime 0 0.

Abbreviation res := (result XdrError).

(** ** Attributes and values *)

Definition AT_ATTRFLAGS : Z := 0.
Definition AT_MAX_LIFE : Z := 1.
Definition AT_MAX_RENEW_LIFE : Z := 2.
Definition AT_EXP : Z := 3.
Definition AT_PW_EXP : Z := 4.
Definition AT_LAST_SUCCESS : Z := 5.
Definition AT_LAST_FAILED : Z := 6.
Definition AT_FAIL_AUTH_COUNT : Z := 7.
Definition AT_PRINC : Z := 8.
Definition AT_KEYDATA : Z := 9.
Definition AT_TL_DATA : Z := 10.
Definition AT_LEN : Z := 11.
Definition AT_MOD_PRINC : Z := 12.
Definition AT_MOD_TIME : Z := 13.
Definition AT_MOD_WHERE : Z := 14.
Definition AT_PW_LAST_CHANGE : Z := 15.
Definition AT_PW_POLICY : Z := 16.
Definition AT_PW_POLICY_SWITCH : Z := 17.
Definition AT_PW_HIST_KVNO : Z := 18.
Definition AT_PW_HIST : Z := 19.

Inductive KdbeVal :=
| AttrFlags (n : Z) | MaxLife (n : Z) | MaxRenewLife (n : Z) | Exp (n : Z) | PwExp (n : Z)
| LastSuccess (n : Z) | LastFailed (n : Z) | FailAuthCount (n : Z)
| Princ (n : PrincipalName.PrincipalName) (r : bytes)
| KeyData (ks : list KeyEntry)
| TlDatas (tl : list TlData)
| Len (n : Z)
| ModPrinc (n : PrincipalName.PrincipalName) (r : bytes)
| ModTime (n : Z)
| ModWhere (b : bytes)
| PwLastChange (n : Z)
| PwPolicy (b : bytes)
| PwPolicySwitch (on : bool)
| PwHistKvno (n : Z)
| PwHist (h : list (list OsaKeyData))
| Extension (at_ : Z) (b : bytes).

Definition attr (v : KdbeVal) : Z :=
  match v with
  | AttrFlags _ => AT_ATTRFLAGS | MaxLife _ => AT_MAX_LIFE | MaxRenewLife _ => AT_MAX_RENEW_LIFE
  | Exp _ => AT_EXP | PwExp _ => AT_PW_EXP | LastSuccess _ => AT_LAST_SUCCESS | LastFailed _ => AT_LAST_FAILED
  | FailAuthCount _ => AT_FAIL_AUTH_COUNT | Princ _ _ => AT_PRINC | KeyData _ => AT_KEYDATA
  | TlDatas _ => AT_TL_DATA | Len _ => AT_LEN | ModPrinc _ _ => AT_MOD_PRINC | ModTime _ => AT_MOD_TIME
  | ModWhere _ => AT_MOD_WHERE | PwLastChange _ => AT_PW_LAST_CHANGE | PwPolicy _ => AT_PW_POLICY
  | PwPolicySwitch _ => AT_PW_POLICY_SWITCH | PwHistKvno _ => AT_PW_HIST_KVNO | PwHist _ => AT_PW_HIST
  | Extension at_ _ => at_
  end.

(** ** Writing *)

Definition out_u32 (v : Z) : bytes := to_be_bytes 4 v.
Definition out_count (n : nat) : bytes := out_u32 (try_from_or 32 (Z.of_nat n) U32_MAX).
Definition out_opaque (b : bytes) : bytes := out_count (length b) ++ b ++ replicate (pad_len (length b)) x00.

(** [i32::cast_unsigned]. *)
Definition cast_unsigned (n : Z) : Z := n mod 2 ^ 32.

Definition out_key (k : KeyEntry) (enc : bytes) : bytes :=
  let etype := let e := EType.to_iana (ke_etype k) in if 0 <=? e then e else 0 in
  match salt_type k, kdb_salt k with
  | Some t, Some s =>
      out_u32 2 ++ out_u32 (kvno k) ++ out_u32 2 ++ out_u32 etype ++ out_u32 (cast_unsigned t) ++
      out_u32 2 ++ out_opaque enc ++ out_opaque s
  | _, _ => out_u32 1 ++ out_u32 (kvno k) ++ out_u32 1 ++ out_u32 etype ++ out_u32 1 ++ out_opaque enc
  end.

Definition out_key_raw (k : OsaKeyData) : bytes :=
  let slots := Z.to_nat (Z.min (Z.max (ok_ver k) 1) 2) in
  let ts := [fst (ok_types k); snd (ok_types k)] in
  let cs := [fst (ok_contents k); snd (ok_contents k)] in
  out_u32 (ok_ver k) ++ out_u32 (ok_kvno k) ++
  out_count slots ++ flat_map (fun t => out_u32 (cast_unsigned t)) (take slots ts) ++
  out_count slots ++ flat_map out_opaque (take slots cs).

Definition encode_keydata_raw (ks : list OsaKeyData) : bytes :=
  out_count (length ks) ++ flat_map out_key_raw ks.

(** MIT's [KV5M_DATA] before every component. *)
Definition out_comp (c : bytes) : bytes := out_u32 (cast_unsigned (-1760647422)) ++ out_opaque c.

Definition encode_princ (n : PrincipalName.PrincipalName) (r : bytes) : bytes :=
  out_opaque r ++ out_count (length (PrincipalName.name_string n)) ++
  flat_map out_comp (PrincipalName.name_string n) ++ out_u32 (cast_unsigned (PrincipalName.name_type n)).

Definition out_tl (t : TlData) : bytes := out_u32 (cast_unsigned (ty t)) ++ out_opaque (contents t).

Section Encode.
Context {E : Type} (wrap : nat -> bytes -> result E bytes).

(** The keys wrapped before are counted. *)
Fixpoint out_keys (i : nat) (ks : list KeyEntry) : result E (nat * bytes) :=
  match ks with
  | [] => Ok (i, [])
  | k :: ks =>
      let? enc := wrap i (Key.as_bytes (key k)) in
      let? (j, out) := out_keys (S i) ks in
      Ok (j, out_key k enc ++ out)
  end.

Definition encode_keydata (i : nat) (ks : list KeyEntry) : result E (nat * bytes) :=
  let? (j, out) := out_keys i ks in Ok (j, out_count (length ks) ++ out).

Definition encode_body (i : nat) (v : KdbeVal) : result E (nat * bytes) :=
  match v with
  | AttrFlags n | MaxLife n | MaxRenewLife n | Exp n | PwExp n | LastSuccess n | LastFailed n
  | FailAuthCount n | Len n | ModTime n | PwLastChange n | PwHistKvno n => Ok (i, out_u32 n)
  | Princ n r | ModPrinc n r => Ok (i, encode_princ n r)
  | KeyData ks => encode_keydata i ks
  | TlDatas tl => Ok (i, out_count (length tl) ++ flat_map out_tl tl)
  | ModWhere b | PwPolicy b | Extension _ b => Ok (i, out_opaque b)
  | PwPolicySwitch on => Ok (i, out_u32 (Z.b2z on))
  | PwHist h => Ok (i, out_count (length h) ++ flat_map encode_keydata_raw h)
  end.

Fixpoint encode_vals (i : nat) (vals : list KdbeVal) : result E (nat * bytes) :=
  match vals with
  | [] => Ok (i, [])
  | v :: vals =>
      let? (j, e) := encode_body i v in
      let? (k, out) := encode_vals j vals in
      Ok (k, out_u32 (attr v) ++ e ++ out)
  end.

Definition encode_kdbe (vals : list KdbeVal) : result E bytes :=
  let? (_, out) := encode_vals 0 vals in Ok (out_count (length vals) ++ out).

End Encode.

Definition encode_incr_update (nm : bytes) (sno : Z) (t : UlogTime) (kdbe : bytes) (deleted commit : bool) : bytes :=
  out_opaque nm ++ out_u32 sno ++ out_u32 (seconds t) ++ out_u32 (useconds t) ++ kdbe ++
  out_u32 (Z.b2z deleted) ++ out_u32 (Z.b2z commit) ++ out_u32 0 ++ out_u32 0.

(** The closure of [ready_notes]: [draw i] is what the random source gives for the
    [i]th key. *)
Definition wrap_key {Prim : Primitives} (draw : nat -> option bytes * option bytes) (mkey : option Key.ProtocolKey)
    (i : nat) (raw : bytes) : result KdcError bytes :=
  match mkey with
  | Some m => map_err CryptoErr (Ops.kdb_encrypt_key (fst (draw i)) (snd (draw i)) m raw)
  | None => Err (Crypto "no master key")
  end.

(** ** Reading *)

(** [XdrIn::take]. *)
Definition xtake (n : Z) (b : bytes) : res (bytes * bytes) :=
  if blen b <? n then Err Short else Ok (take (Z.to_nat n) b, drop (Z.to_nat n) b).

Definition in_u32 (b : bytes) : res (Z * bytes) := let? (s, b) := xtake 4 b in Ok (from_be_bytes s, b).

Definition in_bool (b : bytes) : res (bool * bytes) := let? (n, b) := in_u32 b in Ok (negb (n =? 0), b).

Definition in_opaque (b : bytes) : res (bytes * bytes) :=
  let? (n, b) := in_u32 b in
  let? (s, b) := xtake n b in
  let? (_, b) := xtake (Z.of_nat (pad_len (Z.to_nat n))) b in
  Ok (s, b).

Definition in_count (min : Z) (b : bytes) : res (Z * bytes) :=
  let? (n, b) := in_u32 b in
  if blen b <? n * Z.max min 1 then Err Short else Ok (n, b).

(** [let n = r.count(min)?; for _ in 0..n { .. }], collecting what a turn reads. *)
Definition counted {A} (min : Z) (rd : bytes -> res (A * bytes)) (b : bytes) : res (list A * bytes) :=
  let? (n, b) := in_count min b in repeat_n (Z.to_nat n) rd b.

Definition skip_key (b : bytes) : res (unit * bytes) :=
  let? (_, b) := in_u32 b in
  let? (_, b) := in_u32 b in
  let? (_, b) := counted 4 in_u32 b in
  let? (_, b) := counted 4 in_opaque b in
  Ok (tt, b).

Definition skip_comp (b : bytes) : res (unit * bytes) :=
  let? (_, b) := in_u32 b in
  let? (_, b) := in_opaque b in
  Ok (tt, b).

Definition skip_princ (b : bytes) : res (unit * bytes) :=
  let? (_, b) := in_opaque b in
  let? (_, b) := counted 8 skip_comp b in
  let? (_, b) := in_u32 b in
  Ok (tt, b).

Definition word_attr (at_ : Z) : bool :=
  bool_decide (at_ ∈ [AT_ATTRFLAGS; AT_MAX_LIFE; AT_MAX_RENEW_LIFE; AT_EXP; AT_PW_EXP; AT_LAST_SUCCESS;
    AT_LAST_FAILED; AT_FAIL_AUTH_COUNT; AT_LEN; AT_MOD_TIME; AT_PW_LAST_CHANGE; AT_PW_POLICY_SWITCH;
    AT_PW_HIST_KVNO]).

Definition skip_body (at_ : Z) (b : bytes) : res (unit * bytes) :=
  if word_attr at_ then let? (_, b) := in_u32 b in Ok (tt, b)
  else if (at_ =? AT_PRINC) || (at_ =? AT_MOD_PRINC) then skip_princ b
  else if at_ =? AT_KEYDATA then let? (_, b) := counted 16 skip_key b in Ok (tt, b)
  else if at_ =? AT_TL_DATA then let? (_, b) := counted 8 skip_comp b in Ok (tt, b)
  else if at_ =? AT_PW_HIST then let? (_, b) := counted 4 (counted 16 skip_key) b in Ok (tt, b)
  else let? (_, b) := in_opaque b in Ok (tt, b).

(** [1u32.checked_shl(at).unwrap_or(0)]. *)
Definition attr_word (at_ : Z) : Z := if at_ <? 32 then Z.shiftl 1 at_ else 0.

(** One value, giving its attribute's bit. *)
Definition skip_val (b : bytes) : res (Z * bytes) :=
  let? (at_, b) := in_u32 b in
  let? (_, b) := skip_body at_ b in
  Ok (attr_word at_, b).

Record IncrLayout := mkLayout {
  l_name : bytes;
  l_sno : Z;
  l_time : UlogTime;
  l_deleted : bool;
  l_commit : bool;
  l_commit_at : Z;
  l_attrs : Z;
  l_nvals : Z;
  l_len : Z;
}.

Definition walk_incr_update (b : bytes) : res IncrLayout :=
  let? (nm, r) := in_opaque b in
  let? _ := ok_or (Utf8.from_utf8 nm) (Invalid "update name is not UTF-8") in
  let? (sno, r) := in_u32 r in
  let? (sec, r) := in_u32 r in
  let? (usec, r) := in_u32 r in
  let? (bits, r) := counted 8 skip_val r in
  let? (deleted, r) := in_bool r in
  let commit_at := blen b - blen r in
  let? (commit, r) := in_bool r in
  let? (_, r) := counted 4 in_opaque r in
  let? (_, r) := in_opaque r in
  match r with
  | [] => Ok (mkLayout nm sno (mkTime sec usec) deleted commit commit_at (fold_left Z.lor bits 0)
                (Z.of_nat (length bits)) (blen b))
  | _ => Err (Invalid "bytes past the update")
  end.

(** [i16::try_from(..).unwrap_or(0)]. *)
Definition i16_or_zero (n : Z) : Z := if (- 2 ^ 15 <=? n) && (n <? 2 ^ 15) then n else 0.

(** Two slots, filled from the front. *)
Definition two {A} (d : A) (l : list A) : A * A := (nth 0 l d, nth 1 l d).

Definition decode_key_raw (b : bytes) : res (OsaKeyData * bytes) :=
  let? (ver, b) := in_u32 b in
  let? (kv, b) := in_u32 b in
  let? _ := if kv <? 2 ^ 16 then Ok tt else Err (Invalid "iprop key data kvno") in
  let? (ts, b) := counted 4 in_u32 b in
  let? (cs, b) := counted 4 in_opaque b in
  Ok (mkOsaKey (try_from_or 16 ver U16_MAX) kv (two 0 (map (fun t => i16_or_zero (cast_signed t)) ts)) (two [] cs), b).

Definition decode_keydata_raw : bytes -> res (list OsaKeyData * bytes) := counted 16 decode_key_raw.

Definition decode_comp (b : bytes) : res (Name.ustr * bytes) :=
  let? (_, b) := in_u32 b in
  let? (c, b) := in_opaque b in
  Ok (Utf8.lossy_chars_of c, b).

Definition decode_princ (b : bytes) : res ((PrincipalName.PrincipalName * bytes) * bytes) :=
  let? (r, b) := in_opaque b in
  let? (comps, b) := counted 8 decode_comp b in
  let? (nt, b) := in_u32 b in
  let? n := ok_or (try_new (cast_signed nt) comps) (Invalid "name") in
  Ok ((n, Utf8.from_utf8_lossy r), b).

Definition decode_tl (b : bytes) : res (TlData * bytes) :=
  let? (t, b) := in_u32 b in
  let? (c, b) := in_opaque b in
  Ok (mkTl (cast_signed t) c, b).

Section Decode.
Context {Prim : Primitives} (mkey : option Key.ProtocolKey).

(** The entry of one key; [None] for one that is passed over. *)
Definition read_key (ver kv : Z) (ets : list Z) (cs : list bytes) : res (option KeyEntry) :=
  if 2 <? ver then Err (Invalid ("iprop key data version " +:+ pretty ver))
  else if U16_MAX <? kv then Err (Invalid ("iprop key data kvno " +:+ pretty kv))
  else
    match head ets with
    | None => Ok None
    | Some et =>
        match (match EType.from_iana et with Ok e => Ok e | Err _ => EType.known et end), head cs with
        | Ok etype, Some raw_enc =>
            let? raw := match mkey with
                        | Some m => map_err (fun _ => Invalid "key") (Ops.kdb_decrypt_key m raw_enc)
                        | None => Ok raw_enc
                        end in
            Ok (match Key.from_bytes etype raw with
                | Ok k =>
                    Some (if 2 <=? ver then mkEntry etype k kv (nth_error ets 1) (nth_error cs 1)
                          else mkEntry etype k kv None None)
                | Err _ => None
                end)
        | _, _ => Ok None
        end
    end.

Definition decode_key_entry (b : bytes) : res (option KeyEntry * bytes) :=
  let? (ver, b) := in_u32 b in
  let? (kv, b) := in_u32 b in
  let? (ets, b) := counted 4 in_u32 b in
  let? (cs, b) := counted 4 in_opaque b in
  let? k := read_key ver kv (map cast_signed ets) cs in
  Ok (k, b).

Definition decode_keydata (b : bytes) : res (list KeyEntry * bytes) :=
  let? (ks, b) := counted 16 decode_key_entry b in Ok (omap (fun k => k) ks, b).

(** A value after its tag. *)
Definition word (f : Z -> KdbeVal) (b : bytes) : res (KdbeVal * bytes) := let? (n, b) := in_u32 b in Ok (f n, b).
Definition blob (f : bytes -> KdbeVal) (b : bytes) : res (KdbeVal * bytes) := let? (s, b) := in_opaque b in Ok (f s, b).

Definition decode_body (tag : Z) (b : bytes) : res (KdbeVal * bytes) :=
  if tag =? AT_ATTRFLAGS then word AttrFlags b
  else if tag =? AT_MAX_LIFE then word MaxLife b
  else if tag =? AT_MAX_RENEW_LIFE then word MaxRenewLife b
  else if tag =? AT_EXP then word Exp b
  else if tag =? AT_PW_EXP then word PwExp b
  else if tag =? AT_LAST_SUCCESS then word LastSuccess b
  else if tag =? AT_LAST_FAILED then word LastFailed b
  else if tag =? AT_FAIL_AUTH_COUNT then word FailAuthCount b
  else if tag =? AT_PRINC then let? ((n, r), b) := decode_princ b in Ok (Princ n r, b)
  else if tag =? AT_KEYDATA then let? (ks, b) := decode_keydata b in Ok (KeyData ks, b)
  else if tag =? AT_TL_DATA then let? (tl, b) := counted 8 decode_tl b in Ok (TlDatas tl, b)
  else if tag =? AT_LEN then word Len b
  else if tag =? AT_MOD_PRINC then let? ((n, r), b) := decode_princ b in Ok (ModPrinc n r, b)
  else if tag =? AT_MOD_TIME then word ModTime b
  else if tag =? AT_MOD_WHERE then blob ModWhere b
  else if tag =? AT_PW_LAST_CHANGE then word PwLastChange b
  else if tag =? AT_PW_POLICY then blob PwPolicy b
  else if tag =? AT_PW_POLICY_SWITCH then let? (on, b) := in_bool b in Ok (PwPolicySwitch on, b)
  else if tag =? AT_PW_HIST_KVNO then word PwHistKvno b
  else if tag =? AT_PW_HIST then let? (h, b) := counted 4 decode_keydata_raw b in Ok (PwHist h, b)
  else blob (Extension tag) b.

Definition decode_val (b : bytes) : res (KdbeVal * bytes) := let? (tag, b) := in_u32 b in decode_body tag b.

Definition decode_kdbe : bytes -> res (list KdbeVal * bytes) := counted 8 decode_val.

Record IpropUpdate := mkUpdate {
  u_sno : Z;
  u_time : Z;
  u_name : Name.ustr;
  u_deleted : bool;
  u_commit : bool;
  u_vals : list KdbeVal;
  u_raw : bytes;
}.

Definition decode_incr_update (b : bytes) : res (IpropUpdate * Z) :=
  let? (nm, r) := in_opaque b in
  let? (sno, r) := in_u32 r in
  let? (time, r) := in_u32 r in
  let? (_, r) := in_u32 r in
  let? (vals, r) := decode_kdbe r in
  let? (deleted, r) := in_bool r in
  let? (commit, r) := in_bool r in
  let? (_, r) := counted 4 in_opaque r in
  let? (_, r) := in_opaque r in
  let len := blen b - blen r in
  Ok (mkUpdate sno time (Utf8.lossy_chars_of nm) deleted commit vals (take (Z.to_nat len) b), len).

Definition decode_kdbe_bytes (b : bytes) : res (list KdbeVal) :=
  let? (vals, r) := decode_kdbe b in
  match r with [] => Ok vals | _ => Err (Invalid "bytes past the values") end.

End Decode.

(** ** Readers look at nothing past what they take *)

Lemma xtake_wlocal n : 0 <= n -> wlocal (xtake n).
Proof.
  intros Hn b a r. unfold xtake, blen. destruct (Z.ltb_spec (Z.of_nat (length b)) n); [done|]. intros [= <- <-].
  rewrite length_drop. split; [lia|]. intros x. rewrite length_app. rewrite (proj2 (Z.ltb_ge _ _)) by lia.
  by rewrite take_app_le, drop_app_le by lia.
Qed.

Lemma in_u32_local : local in_u32.
Proof.
  intros b a r. unfold in_u32. destruct (xtake 4 b) as [[s b1]|] eqn:E; [|done]. intros [= <- <-].
  pose proof E as [Hl Hx]%xtake_wlocal; [|lia]. split; [|intros x; by rewrite Hx].
  unfold xtake, blen in E. destruct (Z.ltb_spec (Z.of_nat (length b)) 4); [done|]. injection E as <- <-.
  rewrite length_drop. lia.
Qed.

Lemma in_u32_bound b n r : in_u32 b = Ok (n, r) -> is_u32 n.
Proof.
  unfold in_u32, xtake. destruct (Z.ltb_spec (blen b) 4); [done|]. intros [= <- _].
  pose proof (from_be_bound (take (Z.to_nat 4) b)) as Hb. unfold is_u32, blen in *.
  rewrite length_take in Hb. replace (Z.of_nat (Z.to_nat 4 `min` length b)) with 4 in Hb by lia. lia.
Qed.

#[local] Hint Resolve in_u32_local : reader.

Lemma in_opaque_local : local in_opaque.
Proof.
  intros b a r. unfold in_opaque. destruct (in_u32 b) as [[n b1]|] eqn:E; [|done].
  pose proof (in_u32_bound _ _ _ E) as Hn. apply in_u32_local in E as [Hl E].
  destruct (xtake n b1) as [[s b2]|] eqn:E2; [|done]. apply xtake_wlocal in E2 as [Hl2 E2]; [|unfold is_u32 in Hn; lia].
  destruct (xtake _ b2) as [[p b3]|] eqn:E3; [|done]. apply xtake_wlocal in E3 as [Hl3 E3]; [|lia].
  intros [= <- <-]. split; [lia|]. intros x. by rewrite E, E2, E3.
Qed.

Lemma in_bool_local : local in_bool.
Proof. unfold in_bool. local_reader. Qed.

Lemma in_count_local min : local (in_count min).
Proof.
  intros b a r. unfold in_count. destruct (in_u32 b) as [[n b1]|] eqn:E; [|done]. apply in_u32_local in E as [Hl E].
  destruct (Z.ltb_spec (blen b1) (n * Z.max min 1)); [done|]. intros [= <- <-]. split; [done|]. intros x.
  rewrite E. unfold blen in *. rewrite length_app. by rewrite (proj2 (Z.ltb_ge _ _)) by lia.
Qed.

#[local] Hint Resolve in_opaque_local in_bool_local in_count_local : reader.

Lemma counted_local {A} min (rd : bytes -> res (A * bytes)) : wlocal rd -> local (counted min rd).
Proof. intros Hrd. unfold counted. local_reader. Qed.

#[local] Hint Resolve counted_local : reader.

Lemma skip_key_local : local skip_key.
Proof. unfold skip_key. local_reader. Qed.

Lemma skip_comp_local : local skip_comp.
Proof. unfold skip_comp. local_reader. Qed.

#[local] Hint Resolve skip_key_local skip_comp_local : reader.

Lemma skip_val_local : local skip_val.
Proof. unfold skip_val, skip_body, skip_princ. local_reader. Qed.

#[local] Hint Resolve skip_val_local : reader.

(** ** Reading back what was written *)

Lemma in_u32_out v : is_u32 v -> reads in_u32 (out_u32 v) v.
Proof.
  intros Hv rest. unfold in_u32, xtake, out_u32, blen. rewrite length_app, length_to_be_bytes.
  rewrite (proj2 (Z.ltb_ge _ _)) by lia.
  rewrite take_app_length', drop_app_length' by (by rewrite length_to_be_bytes).
  by rewrite from_to_be_bytes by (unfold is_u32 in Hv; lia).
Qed.

Lemma xtake_app n (a rest : bytes) : Z.of_nat (length a) = n -> xtake n (a ++ rest) = Ok (a, rest).
Proof.
  intros <-. unfold xtake, blen. rewrite length_app, (proj2 (Z.ltb_ge _ _)) by lia. rewrite Nat2Z.id.
  by rewrite take_app_length, drop_app_length.
Qed.

Lemma out_count_small n : Z.of_nat n < 2 ^ 32 -> out_count n = out_u32 (Z.of_nat n).
Proof. intros Hn. unfold out_count, try_from_or. by rewrite (proj2 (Z.ltb_lt _ _)) by done. Qed.

Lemma in_opaque_out b : blen b < 2 ^ 32 -> reads in_opaque (out_opaque b) b.
Proof.
  intros Hb rest. unfold in_opaque, out_opaque. unfold blen in Hb.
  rewrite <- !app_assoc, out_count_small by done. rewrite in_u32_out by (unfold is_u32; lia).
  rewrite xtake_app by done. rewrite Nat2Z.id. by rewrite xtake_app by (by rewrite length_replicate).
Qed.

Lemma in_bool_out (v : bool) : reads in_bool (out_u32 (Z.b2z v)) v.
Proof. intros rest. unfold in_bool. rewrite in_u32_out by (destruct v; unfold is_u32; cbn; lia). by destruct v. Qed.

Lemma concat_length_ge (m : Z) (es : list bytes) :
  Forall (fun e => m <= blen e) es -> m * Z.of_nat (length es) <= blen (concat es).
Proof.
  intros H. unfold blen. induction H as [|e es He _ IH]; cbn [concat length]; [cbn; lia|].
  rewrite length_app. unfold blen in He. lia.
Qed.

Lemma counted_reads {A} min (rd : bytes -> res (A * bytes)) es xs :
  Z.of_nat (length es) < 2 ^ 32 -> Forall (fun e => Z.max min 1 <= blen e) es -> Forall2 (reads rd) es xs ->
  reads (counted min rd) (out_count (length es) ++ concat es) xs.
Proof.
  intros Hl Hm Hr rest. unfold counted, in_count. rewrite <- app_assoc, out_count_small by done.
  rewrite in_u32_out by (unfold is_u32; lia). apply concat_length_ge in Hm. unfold blen in *.
  rewrite length_app, (proj2 (Z.ltb_ge _ _)) by lia. rewrite Nat2Z.id. by apply repeat_n_reads.
Qed.

Lemma flat_map_le {A} (f : A -> bytes) x l : In x l -> blen (f x) <= blen (flat_map f l).
Proof.
  unfold blen. induction l as [|y l IH]; cbn [flat_map In]; [done|]. rewrite length_app. intros [->|Hx]; [lia|].
  specialize (IH Hx). lia.
Qed.

(** An encoded list of an encoding that is short enough to be sent. *)
Lemma counted_small {A B} min (rd : bytes -> res (B * bytes)) (f : A -> bytes) (g : A -> B) l :
  blen (flat_map f l) < 2 ^ 32 -> (forall x, In x l -> Z.max min 1 <= blen (f x)) ->
  (forall x, In x l -> blen (f x) < 2 ^ 32 -> reads rd (f x) (g x)) ->
  reads (counted min rd) (out_count (length l) ++ flat_map f l) (map g l).
Proof.
  intros Hl Hm Hr. assert (Forall (fun e => Z.max min 1 <= blen e) (map f l)) as Hm'.
  { apply List.Forall_map, List.Forall_forall, Hm. }
  assert (Forall2 (reads rd) (map f l) (map g l)) as Hr'.
  { apply Forall2_fmap, Forall_Forall2_diag, List.Forall_forall. intros x Hx. apply Hr; [done|].
    pose proof (flat_map_le f x l Hx). lia. }
  rewrite flat_map_concat_map in *. rewrite <- (length_map f l). apply counted_reads; [|done..].
  pose proof (concat_length_ge _ _ Hm'). unfold blen in *. lia.
Qed.

Lemma counted_same {A} min (rd : bytes -> res (A * bytes)) (f : A -> bytes) l :
  blen (flat_map f l) < 2 ^ 32 -> (forall x, In x l -> Z.max min 1 <= blen (f x)) ->
  (forall x, In x l -> blen (f x) < 2 ^ 32 -> reads rd (f x) x) ->
  reads (counted min rd) (out_count (length l) ++ flat_map f l) l.
Proof. intros Hl Hm Hr. rewrite <- (map_id l) at 3. by apply counted_small. Qed.

Lemma length_out_u32 v : length (out_u32 v) = 4%nat.
Proof. apply length_to_be_bytes. Qed.

Lemma length_out_count n : length (out_count n) = 4%nat.
Proof. apply length_to_be_bytes. Qed.

Lemma length_out_opaque b : length (out_opaque b) = (4 + length b + pad_len (length b))%nat.
Proof. unfold out_opaque. rewrite !length_app, length_out_count, length_replicate. lia. Qed.

(** Lengths of encodings, in the goal and in the hypotheses on lengths. *)
Ltac lens :=
  unfold blen, is_u32, is_i32 in *;
  repeat first [rewrite length_app in * | rewrite length_out_u32 in * | rewrite length_out_count in *
               | rewrite length_out_opaque in *]; try lia.

Lemma cast_unsigned_u32 n : is_u32 (cast_unsigned n).
Proof. unfold is_u32, cast_unsigned. apply Z.mod_pos_bound. lia. Qed.

Lemma cast_signed_unsigned n : is_i32 n -> cast_signed (cast_unsigned n) = n.
Proof.
  unfold is_i32, cast_signed, cast_unsigned. intros Hn. destruct (decide (0 <= n)).
  - rewrite Z.mod_small by lia. by rewrite (proj2 (Z.ltb_lt _ _)) by lia.
  - rewrite <- (Z.mod_unique n (2 ^ 32) (-1) (n + 2 ^ 32)) by lia. rewrite (proj2 (Z.ltb_ge _ _)) by lia. lia.
Qed.

(** ** Values that survive *)

Definition wf_name (n : PrincipalName.PrincipalName) (r : bytes) : Prop :=
  is_i32 (PrincipalName.name_type n) /\ Forall Utf8.ascii (PrincipalName.name_string n) /\ Utf8.is_str r.

Definition sendable (k : KeyEntry) : Prop :=
  0 <= kvno k < 2 ^ 16 /\ Key.wf (key k) /\ Key.etype (key k) = ke_etype k /\
  match salt_type k, kdb_salt k with
  | None, None => True
  | Some t, Some _ => is_i32 t
  | _, _ => False
  end.

(** A slot that is not written is empty. *)
Definition wf_raw (k : OsaKeyData) : Prop :=
  0 <= ok_ver k < 2 ^ 16 /\ 0 <= ok_kvno k < 2 ^ 16 /\ is_i16 (fst (ok_types k)) /\ is_i16 (snd (ok_types k)) /\
  (ok_ver k < 2 -> snd (ok_types k) = 0 /\ snd (ok_contents k) = []).

Definition wf_val (v : KdbeVal) : Prop :=
  match v with
  | AttrFlags n | MaxLife n | MaxRenewLife n | Exp n | PwExp n | LastSuccess n | LastFailed n
  | FailAuthCount n | Len n | ModTime n | PwLastChange n | PwHistKvno n => is_u32 n
  | Princ n r | ModPrinc n r => wf_name n r
  | KeyData ks => Forall sendable ks
  | TlDatas tl => Forall (fun t => is_i32 (ty t)) tl
  | ModWhere _ | PwPolicy _ | PwPolicySwitch _ => True
  | PwHist h => Forall (Forall wf_raw) h
  | Extension at_ _ => 20 <= at_ < 2 ^ 32
  end.

Lemma decode_comp_out c : Utf8.ascii c -> blen (out_comp c) < 2 ^ 32 -> reads decode_comp (out_comp c) (Utf8.chars c).
Proof.
  intros Hc Hl rest. unfold decode_comp, out_comp in *. rewrite <- app_assoc, in_u32_out by apply cast_unsigned_u32.
  rewrite in_opaque_out by lens. by rewrite Utf8.lossy_ascii.
Qed.

Lemma skip_comp_out c v : blen (out_u32 v ++ out_opaque c) < 2 ^ 32 -> is_u32 v ->
  reads skip_comp (out_u32 v ++ out_opaque c) tt.
Proof. intros Hl Hv rest. unfold skip_comp. by rewrite <- app_assoc, in_u32_out, in_opaque_out by lens. Qed.

Lemma try_new_ascii nt comps :
  Forall Utf8.ascii comps -> try_new nt (map Utf8.chars comps) = Some (PrincipalName.mkName nt comps).
Proof.
  intros Hc. unfold try_new. replace (forallb _ _) with true.
  - do 2 f_equal. rewrite map_map. induction Hc as [|c l Hc _ IH]; cbn; [done|]. by rewrite Utf8.as_bytes_chars, IH.
  - symmetry. apply forallb_forall. intros x Hx%in_map_iff. destruct Hx as (c & <- & Hx).
    apply forallb_forall. intros y Hy%in_map_iff. destruct Hy as (z & <- & Hz).
    apply Z.ltb_lt. rewrite List.Forall_forall in Hc. specialize (Hc _ Hx). unfold Utf8.ascii in Hc.
    rewrite List.Forall_forall in Hc. by apply Hc.
Qed.

Lemma comp_len c : 8 <= blen (out_comp c).
Proof. unfold out_comp. lens. Qed.

Lemma decode_princ_out n r :
  wf_name n r -> blen (encode_princ n r) < 2 ^ 32 -> reads decode_princ (encode_princ n r) (n, r).
Proof.
  intros (Ht & Hc & Hr) Hl rest. unfold decode_princ, encode_princ in *.
  assert (blen r < 2 ^ 32 /\ blen (flat_map out_comp (PrincipalName.name_string n)) < 2 ^ 32) as [Hl1 Hl2]
    by (split; lens).
  rewrite List.Forall_forall in Hc. rewrite <- !app_assoc, in_opaque_out by done. rewrite (app_assoc (out_count _)).
  rewrite (counted_small 8 decode_comp out_comp Utf8.chars); [|done|intros c _; apply comp_len|].
  2: { intros c Hin Hcl. apply decode_comp_out; [by apply Hc|done]. }
  rewrite in_u32_out by apply cast_unsigned_u32. rewrite try_new_ascii by (by apply List.Forall_forall).
  cbn [ok_or]. rewrite cast_signed_unsigned, Utf8.from_utf8_lossy_str by done. by destruct n.
Qed.

Lemma skip_princ_out n r : blen (encode_princ n r) < 2 ^ 32 -> reads skip_princ (encode_princ n r) tt.
Proof.
  intros Hl rest. unfold skip_princ, encode_princ in *.
  assert (blen r < 2 ^ 32 /\ blen (flat_map out_comp (PrincipalName.name_string n)) < 2 ^ 32) as [Hl1 Hl2]
    by (split; lens).
  rewrite <- !app_assoc, in_opaque_out by done. rewrite (app_assoc (out_count _)).
  rewrite (counted_small 8 skip_comp out_comp (fun _ => tt)); [|done|intros c _; apply comp_len|].
  2: { intros c Hin Hcl. by apply skip_comp_out, cast_unsigned_u32. }
  by rewrite in_u32_out by apply cast_unsigned_u32.
Qed.

Lemma i16_kept t : is_i16 t -> i16_or_zero (cast_signed (cast_unsigned t)) = t.
Proof.
  unfold is_i16. intros Ht. rewrite cast_signed_unsigned by (unfold is_i32; lia). unfold i16_or_zero.
  by rewrite (proj2 (Z.leb_le _ _)), (proj2 (Z.ltb_lt _ _)) by lia.
Qed.

(** A key as it is written: its version, number, types and contents. *)
Definition key_bytes (ver kv : Z) (ts : list Z) (cs : list bytes) : bytes :=
  out_u32 ver ++ out_u32 kv ++ out_count (length ts) ++ flat_map out_u32 ts ++
  out_count (length cs) ++ flat_map out_opaque cs.

Lemma key_bytes_read {A} (check : Z -> res unit) ver kv ts cs (rd : Z -> Z -> list Z -> list bytes -> bytes -> res (A * bytes)) rest :
  is_u32 ver -> is_u32 kv -> check kv = Ok tt -> Forall is_u32 ts -> blen (key_bytes ver kv ts cs) < 2 ^ 32 ->
  (let? (v, b) := in_u32 (key_bytes ver kv ts cs ++ rest) in
   let? (k, b) := in_u32 b in
   let? _ := check k in
   let? (t, b) := counted 4 in_u32 b in
   let? (c, b) := counted 4 in_opaque b in rd v k t c b) = rd ver kv ts cs rest.
Proof.
  intros Hv Hk Hc Ht Hl. unfold key_bytes in *. assert (blen (flat_map out_u32 ts) < 2 ^ 32 /\ blen (flat_map out_opaque cs) < 2 ^ 32)
    as [Hl1 Hl2] by (split; lens).
  rewrite <- !app_assoc, !in_u32_out by done. rewrite Hc, (app_assoc (out_count (length ts))).
  rewrite (counted_same 4 in_u32 out_u32); [|done|intros x _; lens|].
  2: { intros x Hx _. apply in_u32_out. rewrite List.Forall_forall in Ht. by apply Ht. }
  rewrite (app_assoc (out_count (length cs))).
  rewrite (counted_same 4 in_opaque out_opaque); [done|done|intros x _; lens|].
  intros x Hx Hxl. apply in_opaque_out. lens.
Qed.

Lemma skip_key_bytes ver kv ts cs :
  is_u32 ver -> is_u32 kv -> Forall is_u32 ts -> blen (key_bytes ver kv ts cs) < 2 ^ 32 ->
  reads skip_key (key_bytes ver kv ts cs) tt.
Proof.
  intros Hv Hk Ht Hl rest. by apply (key_bytes_read (fun _ => Ok tt) ver kv ts cs (fun _ _ _ _ b => Ok (tt, b))).
Qed.

Lemma out_key_raw_bytes k :
  exists ts cs, out_key_raw k = key_bytes (ok_ver k) (ok_kvno k) ts cs /\ Forall is_u32 ts /\
    (wf_raw k -> two 0 (map (fun t => i16_or_zero (cast_signed t)) ts) = ok_types k /\ two [] cs = ok_contents k).
Proof.
  destruct k as [ver kv [t0 t1] [c0 c1]]. unfold out_key_raw, wf_raw. cbn [ok_ver ok_kvno ok_types ok_contents fst snd].
  destruct (decide (ver < 2)).
  - replace (Z.to_nat _) with 1%nat by lia. exists [cast_unsigned t0], [c0]. split_and!; [done| |].
    + repeat constructor; apply cast_unsigned_u32.
    + intros (_ & _ & H0 & _ & H). destruct H as [-> ->]; [done|]. cbn. by rewrite i16_kept.
  - replace (Z.to_nat _) with 2%nat by lia. exists [cast_unsigned t0; cast_unsigned t1], [c0; c1]. split_and!; [done| |].
    + repeat constructor; apply cast_unsigned_u32.
    + intros (_ & _ & H0 & H1 & _). cbn. by rewrite !i16_kept.
Qed.

Lemma decode_key_raw_out k :
  wf_raw k -> blen (out_key_raw k) < 2 ^ 32 -> reads decode_key_raw (out_key_raw k) k.
Proof.
  intros Hw Hl rest. destruct (out_key_raw_bytes k) as (ts & cs & E & Ht & Hk). destruct (Hk Hw) as [Hts Hcs].
  destruct Hw as (Hv & Hn & _). rewrite E in *. unfold decode_key_raw.
  rewrite (key_bytes_read (fun kv => if kv <? 2 ^ 16 then Ok tt else Err (Invalid "iprop key data kvno")) _ _ ts cs
    (fun ver kv ts cs b => Ok (mkOsaKey (try_from_or 16 ver U16_MAX) kv
       (two 0 (map (fun t => i16_or_zero (cast_signed t)) ts)) (two [] cs), b))); [|unfold is_u32; lia..| |done|done].
  - rewrite Hts, Hcs. unfold try_from_or. rewrite (proj2 (Z.ltb_lt _ _)) by lia. by destruct k.
  - by rewrite (proj2 (Z.ltb_lt _ _)) by lia.
Qed.

Lemma skip_key_raw_out k :
  wf_raw k -> blen (out_key_raw k) < 2 ^ 32 -> reads skip_key (out_key_raw k) tt.
Proof.
  intros Hw Hl. destruct (out_key_raw_bytes k) as (ts & cs & E & Ht & _). destruct Hw as (Hv & Hn & _).
  rewrite E in *. apply skip_key_bytes; [unfold is_u32; lia..|done|done].
Qed.

Lemma key_raw_len k : 16 <= blen (out_key_raw k).
Proof. destruct (out_key_raw_bytes k) as (ts & cs & -> & _ & _). unfold key_bytes. lens. Qed.

(** A step of a reader that succeeds, with more input after it. *)
Ltac read_step :=
  match goal with
  | |- context [match ?rd ?r with Ok _ => _ | Err _ => _ end = Ok _] =>
      let H := fresh "Hx" in
      destruct (rd r) as [[? ?]|] eqn:H; [|done];
      first [apply in_opaque_local in H as [_ H] | apply in_u32_local in H as [_ H]
            | apply in_bool_local in H as [_ H] | apply (counted_local _ _ (local_weak _ skip_val_local)) in H as [_ H]
            | apply (counted_local _ _ (local_weak _ in_opaque_local)) in H as [_ H]]
  end.

(** No update is the beginning of another. *)
Lemma walk_prefix b l x :
  walk_incr_update b = Ok l -> x <> [] -> walk_incr_update (b ++ x) = Err (Invalid "bytes past the update").
Proof.
  intros Hw Hx0. revert Hw. unfold walk_incr_update at 1. read_step. destruct (ok_or _ _) eqn:Hu; [|done].
  do 8 read_step. match goal with |- context [match ?r with [] => _ | _ => _ end] => destruct r; [|done] end. intros _.
  unfold walk_incr_update. rewrite Hx, Hu, Hx1, Hx2, Hx3, Hx4, Hx5, Hx6, Hx7, Hx8. by destruct x.
Qed.

(** ** Whole updates *)

Section Wrapped.
Context {Prim : Primitives} {E : Type} (wrap : nat -> bytes -> result E bytes) (mkey : Key.ProtocolKey).

(** What is wrapped unwraps under the master key. *)
Context (Hwrap : forall i raw enc, wrap i raw = Ok enc -> blen raw <= 0x7fff -> Ops.kdb_decrypt_key mkey enc = Ok raw).

Lemma iana_read e :
  match EType.from_iana (EType.to_iana e) with Ok e => Ok e | Err _ => EType.known (EType.to_iana e) end = Ok e.
Proof using. by destruct e. Qed.

Lemma out_key_bytes k i enc :
  sendable k -> wrap i (Key.as_bytes (key k)) = Ok enc ->
  exists ver ts cs, out_key k enc = key_bytes ver (kvno k) ts cs /\ is_u32 ver /\ Forall is_u32 ts /\
    read_key (Some mkey) ver (kvno k) (map cast_signed ts) cs = Ok (Some k).
Proof using Hwrap.
  destruct k as [e kk kv st sl]. intros (Hv & Hw & He & Hs) Hk. cbn in Hv, Hw, He, Hs, Hk.
  apply Hwrap in Hk; [|unfold Key.wf, blen in *; rewrite Hw; destruct (Key.etype kk); cbn; lia].
  assert (is_i32 (EType.to_iana e) /\ 0 <= EType.to_iana e) as [He1 He2] by (destruct e; cbn; unfold is_i32; lia).
  assert (is_u32 (EType.to_iana e) /\ cast_signed (EType.to_iana e) = EType.to_iana e) as [He3 He4].
  { unfold is_i32, is_u32, cast_signed in *. rewrite (proj2 (Z.ltb_lt _ _)) by lia. lia. }
  assert ((U16_MAX <? kv) = false) as Hkv by (unfold U16_MAX; lia).
  unfold out_key. cbn [ke_etype key kvno salt_type kdb_salt]. rewrite (proj2 (Z.leb_le _ _)) by done. subst e.
  destruct st as [t|], sl as [s|]; try done.
  - exists 2, [EType.to_iana (Key.etype kk); cast_unsigned t], [enc; s]. split_and!.
    + unfold key_bytes. cbn [length flat_map]. by rewrite !app_nil_r, <- !app_assoc.
    + unfold is_u32; lia.
    + repeat constructor; [apply He3..|apply cast_unsigned_u32|apply cast_unsigned_u32].
    + unfold read_key. cbn [map head]. rewrite Hkv, He4, iana_read, Hk. cbn [map_err].
      rewrite Key.from_bytes_of_key by done. cbn.
      by rewrite cast_signed_unsigned.
  - exists 1, [EType.to_iana (Key.etype kk)], [enc]. split_and!.
    + unfold key_bytes. cbn [length flat_map]. by rewrite !app_nil_r.
    + unfold is_u32; lia.
    + repeat constructor; apply He3.
    + unfold read_key. cbn [map head]. rewrite Hkv, He4, iana_read, Hk. cbn [map_err]. by rewrite Key.from_bytes_of_key.
Qed.

Lemma key_out k i enc :
  sendable k -> wrap i (Key.as_bytes (key k)) = Ok enc ->
  16 <= blen (out_key k enc) /\
  (blen (out_key k enc) < 2 ^ 32 ->
   reads (decode_key_entry (Some mkey)) (out_key k enc) (Some k) /\ reads skip_key (out_key k enc) tt).
Proof using Hwrap.
  intros Hs Hk. destruct (out_key_bytes k i enc Hs Hk) as (ver & ts & cs & -> & Hv & Ht & Hr).
  assert (is_u32 (kvno k)) by (destruct Hs; unfold is_u32; lia).
  split; [unfold key_bytes; lens|]. intros Hl. split; [|by apply skip_key_bytes]. intros rest. unfold decode_key_entry.
  rewrite (key_bytes_read (fun _ => Ok tt) ver (kvno k) ts cs (fun ver kv ets cs b =>
    let? k := read_key (Some mkey) ver kv (map cast_signed ets) cs in Ok (k, b))) by done.
  by rewrite Hr.
Qed.

Lemma out_keys_out i ks j out :
  Forall sendable ks -> out_keys wrap i ks = Ok (j, out) ->
  exists es, out = concat es /\ length es = length ks /\ Forall (fun e => 16 <= blen e) es /\
    Forall2 (fun e k => blen e < 2 ^ 32 ->
      reads (decode_key_entry (Some mkey)) e (Some k) /\ reads skip_key e tt) es ks.
Proof using Hwrap.
  intros Hs. revert i j out. induction Hs as [|k ks Hk _ IH]; intros i j out E1; cbn [out_keys] in E1.
  { injection E1 as <- <-. exists []. by repeat constructor. }
  destruct (wrap i _) as [enc|] eqn:Ew; [|done]. destruct (out_keys wrap (S i) ks) as [[j' out']|] eqn:Er; [|done].
  injection E1 as <- <-. destruct (IH _ _ _ Er) as (es & -> & Hl & Hm & Hr). exists (out_key k enc :: es).
  destruct (key_out k i enc Hk Ew). split_and!; [done|by cbn; rewrite Hl|by constructor|by constructor].
Qed.

Lemma keydata_out i ks j out :
  Forall sendable ks -> encode_keydata wrap i ks = Ok (j, out) -> blen out < 2 ^ 32 ->
  reads (decode_keydata (Some mkey)) out ks /\
  reads (counted 16 skip_key) out (map (fun _ => tt) ks).
Proof using Hwrap.
  intros Hs. unfold encode_keydata. destruct (out_keys wrap i ks) as [[j' o]|] eqn:E1; [|done]. intros Ho Hl.
  assert (out = out_count (length ks) ++ o) as -> by congruence.
  destruct (out_keys_out _ _ _ _ Hs E1) as (es & -> & Hlen & Hm & Hr).
  assert (Forall (fun e => blen e < 2 ^ 32) es) as Hsm.
  { apply List.Forall_forall. intros e He. assert (blen e <= blen (concat es)).
    { rewrite <- (map_id es), <- flat_map_concat_map. by apply (flat_map_le (fun e => e)). }
    lens. }
  assert (Z.of_nat (length es) < 2 ^ 32) as Hn by (pose proof (concat_length_ge _ _ Hm); lens).
  rewrite <- Hlen. split.
  - intros rest. unfold decode_keydata. rewrite (counted_reads 16 _ es (map Some ks)); [|done|done|].
    + do 2 f_equal. clear. induction ks as [|k ks IH]; cbn; [done|by f_equal].
    + apply Forall2_fmap_r. clear - Hr Hsm. induction Hr as [|e k es ks Hk _ IH]; inversion_clear Hsm; constructor; [by apply Hk|by apply IH].
  - apply counted_reads; [done|done|]. apply Forall2_fmap_r. clear - Hr Hsm.
    induction Hr as [|e k es ks Hk _ IH]; inversion_clear Hsm; constructor; [by apply Hk|by apply IH].
Qed.

(** Reading a value back and passing over it. *)
Definition reads_val (v : KdbeVal) (e : bytes) : Prop :=
  reads (decode_body (Some mkey) (attr v)) e v /\ reads (skip_body (attr v)) e tt.

Lemma tl_out t : is_i32 (ty t) -> blen (out_tl t) < 2 ^ 32 -> reads decode_tl (out_tl t) t.
Proof using.
  intros Ht Hl rest. unfold decode_tl, out_tl in *. rewrite <- app_assoc, in_u32_out by apply cast_unsigned_u32.
  rewrite in_opaque_out by lens. rewrite cast_signed_unsigned by done. by destruct t.
Qed.

Lemma tls_out tl :
  Forall (fun t => is_i32 (ty t)) tl -> blen (flat_map out_tl tl) < 2 ^ 32 ->
  reads (counted 8 decode_tl) (out_count (length tl) ++ flat_map out_tl tl) tl /\
  reads (counted 8 skip_comp) (out_count (length tl) ++ flat_map out_tl tl) (map (fun _ => tt) tl).
Proof using.
  intros Ht Hl. rewrite List.Forall_forall in Ht. split.
  - apply counted_same; [done|intros t _; unfold out_tl; lens|]. intros t Hin Htl. apply tl_out; [by apply Ht|done].
  - apply counted_small; [done|intros t _; unfold out_tl; lens|]. intros t Hin Htl.
    apply (skip_comp_out (contents t) (cast_unsigned (ty t))); [exact Htl|apply cast_unsigned_u32].
Qed.

Lemma raws_out ks :
  Forall wf_raw ks -> blen (encode_keydata_raw ks) < 2 ^ 32 ->
  reads decode_keydata_raw (encode_keydata_raw ks) ks /\
  reads (counted 16 skip_key) (encode_keydata_raw ks) (map (fun _ => tt) ks).
Proof using.
  intros Hk Hl. rewrite List.Forall_forall in Hk. unfold encode_keydata_raw, decode_keydata_raw in *.
  assert (blen (flat_map out_key_raw ks) < 2 ^ 32) by lens. split.
  - apply counted_same; [done|intros k _; apply key_raw_len|]. intros k Hin Hkl. apply decode_key_raw_out; [by apply Hk|done].
  - apply counted_small; [done|intros k _; apply key_raw_len|]. intros k Hin Hkl. apply skip_key_raw_out; [by apply Hk|done].
Qed.

Lemma hist_out h :
  Forall (Forall wf_raw) h -> blen (flat_map encode_keydata_raw h) < 2 ^ 32 ->
  reads (counted 4 decode_keydata_raw) (out_count (length h) ++ flat_map encode_keydata_raw h) h /\
  reads (counted 4 (counted 16 skip_key)) (out_count (length h) ++ flat_map encode_keydata_raw h)
    (map (fun e => map (fun _ => tt) e) h).
Proof using.
  intros Hh Hl. rewrite List.Forall_forall in Hh. split.
  - apply counted_same; [done|intros e _; unfold encode_keydata_raw; lens|]. intros e Hin Hel. apply raws_out; [by apply Hh|exact Hel].
  - apply counted_small; [done|intros e _; unfold encode_keydata_raw; lens|]. intros e Hin Hel. apply raws_out; [by apply Hh|exact Hel].
Qed.

Lemma word_attr_ext t : 20 <= t -> word_attr t = false.
Proof using. intros Ht. apply bool_decide_eq_false_2. repeat (rewrite not_elem_of_cons; split; [vm_compute; lia|]). apply not_elem_of_nil. Qed.

Lemma ext_body t b : 20 <= t ->
  decode_body (Some mkey) t b = blob (Extension t) b /\
  skip_body t b = (let? (_, b) := in_opaque b in Ok (tt, b)).
Proof using.
  intros Ht. split.
  - unfold decode_body. repeat (rewrite (proj2 (Z.eqb_neq t _)) by (vm_compute; lia)). done.
  - unfold skip_body. rewrite word_attr_ext by done.
    repeat (rewrite (proj2 (Z.eqb_neq t _)) by (vm_compute; lia)). done.
Qed.

Lemma word_out (f : Z -> KdbeVal) n :
  is_u32 n -> (forall b, decode_body (Some mkey) (attr (f n)) b = word f b) -> word_attr (attr (f n)) = true ->
  reads_val (f n) (out_u32 n).
Proof using.
  intros Hn Hd Hs. split; intros rest.
  - rewrite Hd. unfold word. by rewrite in_u32_out.
  - unfold skip_body. rewrite Hs. by rewrite in_u32_out.
Qed.

Lemma blob_out (f : bytes -> KdbeVal) s :
  blen s < 2 ^ 32 -> (forall b, decode_body (Some mkey) (attr (f s)) b = blob f b) ->
  (forall b, skip_body (attr (f s)) b = (let? (_, b) := in_opaque b in Ok (tt, b))) ->
  reads_val (f s) (out_opaque s).
Proof using.
  intros Hn Hd Hs. split; intros rest; [rewrite Hd; unfold blob|rewrite Hs]; by rewrite in_opaque_out.
Qed.

(** A value that is read by one reader and passed over by another. *)
Lemma part_out {A B} (rd : bytes -> res (A * bytes)) (sk : bytes -> res (B * bytes)) v e x y (f : A -> KdbeVal) :
  reads rd e x -> reads sk e y -> f x = v ->
  (forall b, decode_body (Some mkey) (attr v) b = (let? (x, b) := rd b in Ok (f x, b))) ->
  (forall b, skip_body (attr v) b = (let? (_, b) := sk b in Ok (tt, b))) -> reads_val v e.
Proof using.
  intros Hr Hs <- Hd Hk. split; intros rest; [rewrite Hd, Hr|rewrite Hk, Hs]; done.
Qed.

Lemma princ_out (f : PrincipalName.PrincipalName * bytes -> KdbeVal) n r :
  wf_name n r -> blen (encode_princ n r) < 2 ^ 32 ->
  (forall b, decode_body (Some mkey) (attr (f (n, r))) b = (let? (x, b) := decode_princ b in Ok (f x, b))) ->
  (forall b, skip_body (attr (f (n, r))) b = skip_princ b) -> reads_val (f (n, r)) (encode_princ n r).
Proof using.
  intros Hw Hl Hd Hs. split; intros rest; [rewrite Hd, decode_princ_out by done; done|].
  rewrite Hs. by apply skip_princ_out.
Qed.

Lemma body_out i v j e :
  wf_val v -> encode_body wrap i v = Ok (j, e) -> blen e < 2 ^ 32 -> reads_val v e.
Proof using Hwrap.
  intros Hw He Hl. destruct v as [n|n|n|n|n|n|n|n|n r|ks|tl|n|n r|n|s|n|s|on|n|h|t s]; cbn [encode_body wf_val] in *;
    try (injection He as <- <-; by apply word_out).
  - assert (e = encode_princ n r) as -> by congruence.
    apply (princ_out (fun x => Princ (fst x) (snd x))); [done|done| |done].
    intros b. cbv [decode_body attr]. cbn [Z.eqb]. by destruct (decode_princ b) as [[[]]|].
  - apply keydata_out in He as [Hr Hs]; [|done|done]. by apply (part_out _ _ _ _ _ _ KeyData Hr Hs).
  - assert (e = out_count (length tl) ++ flat_map out_tl tl) as -> by congruence.
    destruct (tls_out tl) as [Hr Hs]; [done|lens|]. by apply (part_out _ _ _ _ _ _ TlDatas Hr Hs).
  - assert (e = encode_princ n r) as -> by congruence.
    apply (princ_out (fun x => ModPrinc (fst x) (snd x))); [done|done| |done].
    intros b. cbv [decode_body attr]. cbn [Z.eqb]. by destruct (decode_princ b) as [[[]]|].
  - assert (e = out_opaque s) as -> by congruence. apply blob_out; [lens|done..].
  - assert (e = out_opaque s) as -> by congruence. apply blob_out; [lens|done..].
  - assert (e = out_u32 (Z.b2z on)) as -> by congruence. split; intros rest.
    + change (decode_body _ _ ?c) with (let? (on, b) := in_bool c in Ok (PwPolicySwitch on, b)). by rewrite in_bool_out.
    + change (skip_body _ ?c) with (let? (_, b) := in_u32 c in Ok (tt, b)).
      by rewrite in_u32_out by (destruct on; unfold is_u32; cbn; lia).
  - assert (e = out_count (length h) ++ flat_map encode_keydata_raw h) as -> by congruence.
    destruct (hist_out h) as [Hr Hs]; [done|lens|]. by apply (part_out _ _ _ _ _ _ PwHist Hr Hs).
  - assert (e = out_opaque s) as -> by congruence. apply (blob_out (Extension t)); [lens| |];
      intros b; apply (ext_body t); lia.
Qed.

Lemma body_len i v j e : encode_body wrap i v = Ok (j, e) -> 4 <= blen e.
Proof using.
  unfold encode_body, encode_princ, encode_keydata. intros He.
  destruct v; try (match type of He with Ok (_, ?x) = _ => assert (e = x) as -> by congruence end; lens).
  destruct (out_keys _ _ _) as [[k o]|]; [|done]. assert (e = out_count (length ks) ++ o) as -> by congruence. lens.
Qed.

Lemma vals_out i vals j out :
  Forall wf_val vals -> encode_vals wrap i vals = Ok (j, out) -> blen out < 2 ^ 32 ->
  exists es, out = concat es /\ length es = length vals /\ Forall (fun e => 8 <= blen e) es /\
    Forall2 (reads (decode_val (Some mkey))) es vals /\
    Forall2 (reads skip_val) es (map (fun v => attr_word (attr v)) vals).
Proof using Hwrap.
  intros Hw. revert i j out. induction Hw as [|v vals Hv _ IH]; intros i j out E1 Hl; cbn [encode_vals] in E1.
  { injection E1 as <- <-. exists []. by repeat constructor. }
  destruct (encode_body wrap i v) as [[j' e]|] eqn:Eb; [|done].
  destruct (encode_vals wrap j' vals) as [[k o]|] eqn:Ev; [|done].
  assert (out = (out_u32 (attr v) ++ e) ++ o) as -> by (rewrite <- app_assoc; congruence).
  destruct (IH _ _ _ Ev) as (es & -> & Hlen & Hm & Hr & Hs); [lens|].
  destruct (body_out _ _ _ _ Hv Eb) as [Hd Hk]; [lens|].
  assert (is_u32 (attr v)) as Ha.
  { destruct v; cbn [attr wf_val] in *; unfold is_u32; first [lia | vm_compute; intuition discriminate]. }
  exists ((out_u32 (attr v) ++ e) :: es). split_and!; [done|by cbn; rewrite Hlen| | |].
  - constructor; [|done]. pose proof (body_len _ _ _ _ Eb). lens.
  - constructor; [|done]. intros rest. unfold decode_val. by rewrite <- app_assoc, in_u32_out, Hd.
  - constructor; [|done]. intros rest. unfold skip_val. by rewrite <- app_assoc, in_u32_out, Hk.
Qed.

Lemma kdbe_out vals kdbe :
  Forall wf_val vals -> encode_kdbe wrap vals = Ok kdbe -> blen kdbe < 2 ^ 32 ->
  reads (decode_kdbe (Some mkey)) kdbe vals /\
  reads (counted 8 skip_val) kdbe (map (fun v => attr_word (attr v)) vals).
Proof using Hwrap.
  intros Hw. unfold encode_kdbe. destruct (encode_vals wrap 0 vals) as [[j out]|] eqn:Ev; [|done]. intros Hk Hl.
  assert (kdbe = out_count (length vals) ++ out) as -> by congruence.
  destruct (vals_out _ _ _ _ Hw Ev) as (es & -> & Hlen & Hm & Hr & Hs); [lens|]. rewrite <- Hlen.
  assert (Z.of_nat (length es) < 2 ^ 32) as Hn by (pose proof (concat_length_ge _ _ Hm); lens).
  split; by apply counted_reads.
Qed.

Section Update.
Context (vals : list KdbeVal) (kdbe : bytes) (nm : Name.ustr) (sno : Z) (t : UlogTime) (deleted commit : bool).
Context (Hvals : Forall wf_val vals) (Hkdbe : encode_kdbe wrap vals = Ok kdbe).
Context (Hnm : Forall (fun c => Utf8.is_scalar c = true) nm).
Context (Hsno : is_u32 sno) (Hsec : is_u32 (seconds t)) (Husec : is_u32 (useconds t)).

#[local] Abbreviation b := (encode_incr_update (Utf8.as_bytes nm) sno t kdbe deleted commit).

Context (Hlen : blen b < 2 ^ 32).

Lemma update_parts : blen (Utf8.as_bytes nm) < 2 ^ 32 /\ blen kdbe < 2 ^ 32.
Proof using Hlen. unfold encode_incr_update in Hlen. split; lens. Qed.

(** The KDCs seen and the futures are empty. *)
Lemma tail_read rest : counted 4 in_opaque (out_u32 0 ++ out_u32 0 ++ rest) = Ok ([], out_u32 0 ++ rest).
Proof using.
  unfold counted, in_count. rewrite in_u32_out by (unfold is_u32; lia). rewrite (proj2 (Z.ltb_ge _ _)); [done|].
  unfold blen. lia.
Qed.

Lemma decode_out x :
  decode_incr_update (Some mkey) (b ++ x) = Ok (mkUpdate sno (seconds t) nm deleted commit vals b, blen b).
Proof using Hwrap Hvals Hkdbe Hnm Hsno Hsec Husec Hlen.
  destruct update_parts as [Hl1 Hl2]. destruct (kdbe_out _ _ Hvals Hkdbe Hl2) as [Hr _].
  unfold decode_incr_update.
  unfold encode_incr_update at 1. rewrite <- !app_assoc, in_opaque_out by done. rewrite !in_u32_out by done.
  rewrite Hr, !in_bool_out, tail_read. change (out_u32 0 ++ x) with (out_opaque [] ++ x).
  rewrite in_opaque_out by done. cbv beta iota zeta. rewrite Utf8.lossy_chars_as_bytes by done.
  replace (blen (b ++ x) - blen x) with (blen b) by (unfold blen; rewrite length_app; lia).
  unfold blen. rewrite Nat2Z.id. by rewrite take_app_length.
Qed.

Definition update_layout : IncrLayout :=
  mkLayout (Utf8.as_bytes nm) sno t deleted commit (blen b - 12)
    (fold_left Z.lor (map (fun v => attr_word (attr v)) vals) 0) (Z.of_nat (length vals)) (blen b).

Lemma walk_out x :
  walk_incr_update (b ++ x) =
  match x with [] => Ok update_layout | _ => Err (Invalid "bytes past the update") end.
Proof using Hwrap Hvals Hkdbe Hnm Hsno Hsec Husec Hlen.
  destruct update_parts as [Hl1 Hl2]. destruct (kdbe_out _ _ Hvals Hkdbe Hl2) as [_ Hr].
  unfold walk_incr_update. set (len := blen (b ++ x)).
  unfold encode_incr_update at 1. rewrite <- !app_assoc, in_opaque_out by done.
  rewrite Utf8.from_utf8_as_bytes by done. cbn [ok_or]. rewrite !in_u32_out by done.
  rewrite Hr, !in_bool_out, tail_read. change (out_u32 0 ++ x) with (out_opaque [] ++ x).
  rewrite in_opaque_out by done. destruct x; [|done]. cbv beta iota zeta. unfold update_layout. rewrite length_map.
  subst len. rewrite app_nil_r. by destruct t.
Qed.

End Update.

End Wrapped.

Section Codec.
Context {Prim : Primitives} {laws : PrimitiveLaws}.

Lemma wrap_key_ok draw mkey i raw :
  History.rng_works draw -> Ops.key_usable mkey 0 -> blen raw <= 0x7fff ->
  exists enc, wrap_key draw (Some mkey) i raw = Ok enc.
Proof.
  intros Hd Hk Hl. destruct (Hd i) as (c & c8 & E & Hc & Hc8). unfold wrap_key. rewrite E. cbn [fst snd].
  destruct (Ops.kdb_wrap_unwrap mkey c c8 raw Hk Hc Hc8 Hl) as (blob & -> & _). by eexists.
Qed.

Lemma wrap_key_unwraps draw mkey :
  History.rng_works draw -> Ops.key_usable mkey 0 ->
  forall i raw enc, wrap_key draw (Some mkey) i raw = Ok enc -> blen raw <= 0x7fff ->
  Ops.kdb_decrypt_key mkey enc = Ok raw.
Proof.
  intros Hd Hk i raw enc E Hl. destruct (Hd i) as (c & c8 & Ed & Hc & Hc8). unfold wrap_key in E. rewrite Ed in E.
  cbn [fst snd] in E. destruct (Ops.kdb_wrap_unwrap mkey c c8 raw Hk Hc Hc8 Hl) as (blob & Eb & Hu).
  rewrite Eb in E. cbn in E. by injection E as <-.
Qed.

Lemma encode_kdbe_ok {E} (wrap : nat -> bytes -> result E bytes) vals :
  (forall i raw, blen raw <= 0x7fff -> exists enc, wrap i raw = Ok enc) -> Forall wf_val vals ->
  exists kdbe, encode_kdbe wrap vals = Ok kdbe.
Proof.
  intros Hw Hv. assert (forall ks i, Forall sendable ks -> exists j o, out_keys wrap i ks = Ok (j, o)) as Hk.
  { induction ks as [|k ks IH]; intros i Hks; cbn [out_keys]; [by do 2 eexists|]. inversion_clear Hks as [|? ? (_ & Hkw & _) Hks'].
    destruct (Hw i (Key.as_bytes (key k))) as [enc ->].
    { unfold Key.wf in Hkw. unfold blen. rewrite Hkw. destruct (Key.etype (key k)); cbn; lia. }
    destruct (IH (S i) Hks') as (j & o & ->). by do 2 eexists. }
  assert (forall i, exists j o, encode_vals wrap i vals = Ok (j, o)) as H.
  { induction Hv as [|v vals Hv _ IH]; intros i; cbn [encode_vals]; [by do 2 eexists|].
    assert (exists j e, encode_body wrap i v = Ok (j, e)) as (j & e & ->).
    { destruct v; cbn [encode_body]; try (by do 2 eexists). unfold encode_keydata.
      destruct (Hk ks i Hv) as (j & o & ->). by do 2 eexists. }
    destruct (IH j) as (k & o & ->). by do 2 eexists. }
  unfold encode_kdbe. destruct (H 0%nat) as (j & o & ->). by eexists.
Qed.

(** C40: What the primary logs is what a replica gets.  The values of an update,
    its keys wrapped under the master key, are read back as they were, with the
    name, serial, time and marks, whatever follows; the walk over the same bytes
    finds the same fields, and the place of the commit mark; and neither a proper
    prefix of an update nor an update with bytes after it is walked. *)
Theorem update_roundtrip draw mkey vals nm sno t deleted commit :
  History.rng_works draw -> Ops.key_usable mkey 0 -> Forall wf_val vals ->
  Forall (fun c => Utf8.is_scalar c = true) nm -> is_u32 sno -> is_u32 (seconds t) -> is_u32 (useconds t) ->
  exists kdbe, encode_kdbe (wrap_key draw (Some mkey)) vals = Ok kdbe /\
    let b := encode_incr_update (Utf8.as_bytes nm) sno t kdbe deleted commit in
    blen b < 2 ^ 32 ->
    (forall x, decode_incr_update (Some mkey) (b ++ x) =
       Ok (mkUpdate sno (seconds t) nm deleted commit vals b, blen b)) /\
    walk_incr_update b = Ok (update_layout vals kdbe nm sno t deleted commit) /\
    (forall x, x <> [] -> walk_incr_update (b ++ x) = Err (Invalid "bytes past the update")) /\
    (forall p y, b = p ++ y -> y <> [] -> is_ok (walk_incr_update p) = false).
Proof.
  intros Hd Hk Hv Hn Hs Hsec Husec.
  destruct (encode_kdbe_ok (wrap_key draw (Some mkey)) vals) as (kdbe & E); [|done|].
  { intros i raw Hl. by apply wrap_key_ok. }
  exists kdbe. split; [exact E|]. intros b Hl.
  pose proof (wrap_key_unwraps draw mkey Hd Hk) as Hu.
  pose proof (walk_out _ _ Hu vals kdbe nm sno t deleted commit Hv E Hn Hs Hsec Husec Hl) as Hw.
  assert (walk_incr_update b = Ok (update_layout vals kdbe nm sno t deleted commit)) as Hb.
  { rewrite <- (app_nil_r b). apply (Hw []). }
  split_and!; [|exact Hb|intros x; by apply (walk_prefix b _ x Hb)|].
  - intros x. by apply (decode_out _ _ Hu).
  - intros p y E1 Hy. destruct (walk_incr_update p) as [l|] eqn:Ep; [|done].
    pose proof (walk_prefix p l y Ep Hy) as Hp. rewrite <- E1, Hb in Hp. done.
Qed.

End Codec.

(** A key with its salt, an old key, a name and TL data. *)
Definition sample_vals : list KdbeVal :=
  [AttrFlags 0x80; KeyData [History.sample_key 3]; Princ (PrincipalName.mkName 1 [lit_bytes "a/b"]) (lit_bytes "R");
   TlDatas [mkTl (-2) [x01; x02; x03]]; PwHist [[mkOsaKey 1 7 (18, 0) ([x01], [])]]; Extension 40 [x05]].

Lemma update_roundtrip_witness :
  exists kdbe, @encode_kdbe KdcError (@wrap_key ToyPrimitives History.toy_rnd (Some Ops.sample_aes)) sample_vals = Ok kdbe /\
    l_commit_at (update_layout sample_vals kdbe (EncList.lit "a@R") 7 (mkTime 1 2) false false) = 232.
Proof.
  edestruct (@update_roundtrip ToyPrimitives toy_laws History.toy_rnd Ops.sample_aes sample_vals (EncList.lit "a@R")
    7 (mkTime 1 2) false false) as (kdbe & E & _); [| | | |unfold is_u32; cbn; lia..|].
  - intros i. eexists _, _. split; [reflexivity|by split].
  - split; [reflexivity|]. discriminate.
  - repeat constructor; cbn; unfold is_u32, is_i16, is_i32, Utf8.ascii; cbn; try lia; try (repeat constructor; cbn; lia).
    apply (Utf8.is_str_ascii (lit_bytes "R")). reflexivity.
  - repeat constructor.
  - exists kdbe. split; [exact E|]. vm_compute in E. injection E as <-. vm_compute. reflexivity.
Defined.

End Iprop.
