(* ===== verification/Ulog.v ===== *)
(** * The update log

    Models [krb5-kdc/src/ulog.rs]: the log file of incremental propagation, a
    header and a ring of blocks, one update in each.  The file is its bytes; past
    its end it reads as zeros.  Every call of the operating system and of the clock
    takes a tick of the environment: [fault i = Some k] says that the [i]th call
    fails, and if it is a write that [k] of its bytes are written all the same, so
    that a crash is a run in which every call from some tick on fails.  The working
    header, a local variable or the field of a batch, is part of the state, since
    what was assigned to it before an error stays.  Locks are calls that may fail;
    the threads that hold them are not modelled.  The byte order is the machine's. *)

From S2P Require Import Prelude Reader StateErr Utf8 Etype Primitives Cts Derive Weak Ops Name EncList Kdc Lockout.
From S2P Require Import Osa History PMap Acl Store Iprop.

Module Ulog.
Import Iprop.

Definition KDB_ULOG_HDR_MAGIC : Z := 0x06662323.
Definition KDB_ULOG_MAGIC : Z := 0x06661212.
Definition KDB_VERSION : Z := 1.
Definition KDB_STABLE : Z := 1.
Definition KDB_UNSTABLE : Z := 2.
Definition ULOG_BLOCK : Z := 2048.
Definition MAXLOGLEN : Z := 0x10000000.
Definition HDR_LEN : Z := 40.
Definition ENT_HDR_LEN : Z := 28.
Definition ENT_DATA_AT : Z := 24.
Definition STATE_AT : Z := 36.

Definition IPROP_OK : Z := 0.
Definition IPROP_ERROR : Z := 1.
Definition IPROP_FULL_RESYNC : Z := 2.
Definition IPROP_NIL : Z := 4.

Inductive UlogError := Io | Corrupt | Conv | UError.

Record UlogLast := mkLast { la_sno : Z; la_time : UlogTime }.

#[export] Instance UlogLast_eq_dec : EqDecision UlogLast.
Proof. solve_decision. Defined.

Record UlogHeader := mkHeader {
  hmagic : Z;
  db_version_num : Z;
  num : Z;
  first_time : UlogTime;
  last_time : UlogTime;
  first_sno : Z;
  last_sno : Z;
  state : Z;
  block : Z;
}.

Definition header_zero : UlogHeader := mkHeader 0 0 0 time_zero time_zero 0 0 0 0.

Definition set_state_of (v : Z) (h : UlogHeader) : UlogHeader :=
  mkHeader (hmagic h) (db_version_num h) (num h) (first_time h) (last_time h) (first_sno h) (last_sno h) v (block h).
Definition set_block (v : Z) (h : UlogHeader) : UlogHeader :=
  mkHeader (hmagic h) (db_version_num h) (num h) (first_time h) (last_time h) (first_sno h) (last_sno h) (state h) v.
Definition set_last_of (sno : Z) (t : UlogTime) (h : UlogHeader) : UlogHeader :=
  mkHeader (hmagic h) (db_version_num h) (num h) (first_time h) t (first_sno h) sno (state h) (block h).
Definition set_first_of (n sno : Z) (t : UlogTime) (h : UlogHeader) : UlogHeader :=
  mkHeader (hmagic h) (db_version_num h) n t (last_time h) sno (last_sno h) (state h) (block h).

Record EntHeader := mkEnt {
  umagic : Z;
  e_sno : Z;
  e_time : UlogTime;
  e_commit : bool;
  e_size : Z;
}.

(** The file, the calls made so far, and the header and mark of a batch. *)
Record UState := mkU { u_file : bytes; u_tick : nat; u_hdr : UlogHeader; u_appended : bool }.

Definition set_file (v : bytes) (s : UState) : UState := mkU v (u_tick s) (u_hdr s) (u_appended s).
Definition set_hdr (v : UlogHeader) (s : UState) : UState := mkU (u_file s) (u_tick s) v (u_appended s).
Definition set_appended (v : bool) (s : UState) : UState := mkU (u_file s) (u_tick s) (u_hdr s) v.
Definition ticked (s : UState) : UState := mkU (u_file s) (S (u_tick s)) (u_hdr s) (u_appended s).

Definition zeros (n : nat) : bytes := replicate n x00.

(** [n] bytes at [at_] of a file. *)
Definition read_bytes (file : bytes) (n at_ : nat) : bytes :=
  let s := take n (drop at_ file) in s ++ zeros (n - length s).

(** The file with [buf] at [at_]. *)
Definition write_bytes (file buf : bytes) (at_ : nat) : bytes :=
  match buf with
  | [] => file
  | _ => take at_ file ++ zeros (at_ - length file) ++ buf ++ drop (at_ + length buf) file
  end.

Record UlogUpdates := mkUpdates { up_status : Z; up_last : UlogLast; up_updates : list bytes }.

Definition no_updates (status : Z) : UlogUpdates := mkUpdates status (mkLast 0 time_zero) [].

Inductive Ready :=
  | ReadyPut (name : bytes) (deleted : bool) (kdbe : bytes)
  | ReadyReset
  | ReadyReplay (raw : bytes).

Definition is_replay (r : Ready) : bool := match r with ReadyReplay _ => true | _ => false end.

(** When the write of the database had not been made, had failed, had been made. *)
Inductive LoggedWrite (E : Type) :=
  | Before (e : UlogError)
  | WriteErr (e : E)
  | After (e : UlogError).
#[global] Arguments Before {E}.
#[global] Arguments WriteErr {E}.
#[global] Arguments After {E}.

#[export] Instance Ready_eq_dec : EqDecision Ready.
Proof. solve_decision. Defined.

Section Log.
Context (en : endian) (clock : nat -> UlogTime) (fault : nat -> option nat) (entries : Z).

Definition U : Type -> Type := SE UState UlogError.

(** ** The file *)

Definition read_at (n at_ : Z) : U bytes := fun s =>
  (ticked s, match fault (u_tick s) with
             | Some _ => Err Io
             | None => Ok (read_bytes (u_file s) (Z.to_nat n) (Z.to_nat at_))
             end).

Definition write_at (buf : bytes) (at_ : Z) : U unit := fun s =>
  match fault (u_tick s) with
  | Some k => (set_file (write_bytes (u_file s) (take k buf) (Z.to_nat at_)) (ticked s), Err Io)
  | None => (set_file (write_bytes (u_file s) buf (Z.to_nat at_)) (ticked s), Ok tt)
  end.

(** A call that changes nothing: taking a lock, syncing. *)
Definition call : U unit := fun s => (ticked s, match fault (u_tick s) with Some _ => Err Io | None => Ok tt end).

Definition lock : U unit := call.
Definition sync : U unit := call.

Definition len : U Z := do! call; reading (fun s => blen (u_file s)).

(** [f.set_len(0)]. *)
Definition truncate : U unit := do! call; assign (set_file []).

Definition now : U UlogTime := fun s => (ticked s, Ok (clock (u_tick s))).

(** ** Headers *)

Definition ne32 (b : bytes) (at_ : nat) : Z := from_bytes_of en (take 4 (drop at_ b)).
Definition ne16 (b : bytes) (at_ : nat) : Z := from_bytes_of en (take 2 (drop at_ b)).
Definition to_ne32 (z : Z) : bytes := to_bytes_of en 4 z.
Definition to_ne16 (z : Z) : bytes := to_bytes_of en 2 z.

Definition decode_header (b : bytes) : UlogHeader :=
  mkHeader (ne32 b 0) (ne16 b 4) (ne32 b 8) (mkTime (ne32 b 12) (ne32 b 16)) (mkTime (ne32 b 20) (ne32 b 24))
    (ne32 b 28) (ne32 b 32) (ne16 b 36) (ne16 b 38).

Definition encode_time (t : UlogTime) : bytes := to_ne32 (seconds t) ++ to_ne32 (useconds t).

Definition encode_header (h : UlogHeader) : bytes :=
  to_ne32 (hmagic h) ++ to_ne16 (db_version_num h) ++ zeros 2 ++ to_ne32 (num h) ++ encode_time (first_time h) ++
  encode_time (last_time h) ++ to_ne32 (first_sno h) ++ to_ne32 (last_sno h) ++ to_ne16 (state h) ++ to_ne16 (block h).

Definition decode_ent (b : bytes) : EntHeader :=
  mkEnt (ne32 b 0) (ne32 b 4) (mkTime (ne32 b 8) (ne32 b 12)) (negb (ne32 b 16 =? 0)) (ne32 b 20).

Definition encode_ent (e : EntHeader) : bytes :=
  to_ne32 (umagic e) ++ to_ne32 (e_sno e) ++ encode_time (e_time e) ++ to_ne32 (Z.b2z (e_commit e)) ++
  to_ne32 (e_size e) ++ zeros 4.

Definition header : U UlogHeader := let! b := read_at HDR_LEN 0 in ret (decode_header b).

Definition write_header (h : UlogHeader) : U unit := write_at (encode_header h) 0.

Definition sync_header (h : UlogHeader) : U unit := do! write_header h; sync.

Definition ent_at (index block : Z) : Z := HDR_LEN + index * block.

Definition ent_header (index block : Z) : U EntHeader :=
  let! b := read_at ENT_HDR_LEN (ent_at index block) in ret (decode_ent b).

(** [sno.wrapping_sub(1) % self.entries]. *)
Definition slot (sno : Z) : Z := ((sno - 1) mod 2 ^ 32) mod entries.

Definition check_sno (h : UlogHeader) (sno : Z) (t : UlogTime) : U bool :=
  let! e := ent_header (slot sno) (block h) in ret ((e_sno e =? sno) && bool_decide (e_time e = t)).

Definition sno_status (h : UlogHeader) (last : UlogLast) : U Z :=
  if (la_sno last =? last_sno h) && bool_decide (la_time last = last_time h) then ret IPROP_NIL
  else if (num h =? 0) || (last_sno h <? la_sno last) || (la_sno last <? first_sno h) then ret IPROP_FULL_RESYNC
  else
    let! ok := check_sno h (la_sno last) (la_time last) in
    ret (if ok then IPROP_OK else IPROP_FULL_RESYNC).

(** ** Writing *)

Definition set_dummy (h : UlogHeader) (sno : Z) (t : UlogTime) : U UlogHeader :=
  do! write_at (encode_ent (mkEnt KDB_ULOG_MAGIC sno t false 0)) (ent_at (slot sno) (block h));
  do! sync;
  ret (set_first_of 1 sno t (set_last_of sno t h)).

Definition new_header : UlogHeader :=
  mkHeader KDB_ULOG_HDR_MAGIC KDB_VERSION 0 time_zero time_zero 0 0 0 ULOG_BLOCK.

Definition reset : U UlogHeader :=
  let! t := now in
  let! h := set_dummy new_header 1 t in
  let h := set_state_of KDB_STABLE h in
  do! sync_header h;
  ret h.

Definition CHUNK : Z := 65536.

(** The file grows by whole chunks, so the loop ends after [(size - at) / CHUNK + 1] turns. *)
Fixpoint extend_loop (fuel : nat) (size at_ : Z) : U unit :=
  match fuel with
  | O => ret tt
  | S fuel =>
      if at_ <? size then
        let n := Z.min (size - at_) CHUNK in
        do! write_at (zeros (Z.to_nat n)) at_;
        extend_loop fuel size (at_ + n)
      else ret tt
  end.

Definition extend_to (block : Z) : U unit :=
  let size := HDR_LEN + entries * block in
  if MAXLOGLEN <? size then lift (Err Io)
  else
    let! at_ := len in
    extend_loop (Z.to_nat ((size - at_) / CHUNK + 1)) size at_.

(** Blocks are moved from the last to the first, each to its place in a ring of
    bigger ones. *)
Fixpoint move_blocks (i : nat) (old new : Z) : U unit :=
  match i with
  | O => ret tt
  | S i =>
      let! b := read_at old (ent_at (Z.of_nat i) old) in
      do! write_at (b ++ zeros (Z.to_nat (new - old))) (ent_at (Z.of_nat i) new);
      move_blocks i old new
  end.

Definition resize (recsize : Z) : U unit :=
  let! h := reading u_hdr in
  let new := (recsize / ULOG_BLOCK + 1) * ULOG_BLOCK in
  if (U16_MAX <? new) || (MAXLOGLEN <? HDR_LEN + entries * new) then lift (Err UError)
  else
    do! extend_to new;
    do! move_blocks (Z.to_nat entries) (block h) new;
    do! assign (fun s => set_hdr (set_block new (u_hdr s)) s);
    let! h := reading u_hdr in sync_header h.

Definition set_state (st : Z) : U unit :=
  do! assign (fun s => set_hdr (set_state_of st (u_hdr s)) s);
  write_at (to_ne16 st) STATE_AT.

Definition walked {A} (r : result XdrError A) : U A :=
  lift (match r with Ok a => Ok a | Err _ => Err Conv end).

(** [block[at..at + buf.len()].copy_from_slice(buf)]. *)
Definition splice (b : bytes) (at_ : nat) (buf : bytes) : bytes :=
  take at_ b ++ buf ++ drop (at_ + length buf) b.

Definition put_entry (update : bytes) : U unit :=
  let! l := walked (walk_incr_update update) in
  if U32_MAX <? blen update then lift (Err UError)
  else
    let recsize := ENT_HDR_LEN + blen update in
    let! h := reading u_hdr in
    do! (if block h <? recsize then resize recsize else ret tt);
    let! h := reading u_hdr in
    let ent := encode_ent (mkEnt KDB_ULOG_MAGIC (l_sno l) (l_time l) true (blen update)) in
    let b := splice (zeros (Z.to_nat (block h))) 0 ent in
    let b := splice b (Z.to_nat ENT_DATA_AT) update in
    do! write_at b (ent_at (slot (l_sno l)) (block h));
    do! assign (fun s => set_hdr (set_last_of (l_sno l) (l_time l) (u_hdr s)) s);
    let! h := reading u_hdr in
    if num h =? 0 then assign (set_hdr (set_first_of 1 (l_sno l) (l_time l) h))
    else if num h <? entries then assign (set_hdr (set_first_of (num h + 1) (first_sno h) (first_time h) h))
    else
      let! next := ent_header (l_sno l mod entries) (block h) in
      assign (set_hdr (set_first_of (num h) (e_sno next) (e_time next) h)).

(** [self.backing.sync()?; hdr.state = KDB_STABLE; self.sync_header(hdr)]. *)
Definition settle : U unit :=
  do! sync;
  do! assign (fun s => set_hdr (set_state_of KDB_STABLE (u_hdr s)) s);
  let! h := reading u_hdr in sync_header h.

Definition store_update (update : bytes) : U unit :=
  do! set_state KDB_UNSTABLE;
  do! put_entry update;
  settle.

(** [let mut hdr = self.header()?]. *)
Definition load_header : U unit := let! h := header in assign (set_hdr h).

(** [hdr = self.reset()?]. *)
Definition reload : U unit := let! h := reset in assign (set_hdr h).

Definition when (c : UlogHeader -> bool) (m : U unit) : U unit :=
  let! h := reading u_hdr in if c h then m else ret tt.

Definition unstable (h : UlogHeader) : bool := negb (state h =? KDB_STABLE).

(** The next serial and the update under it. *)
Definition next_update (nm : bytes) (deleted : bool) (kdbe : bytes) : U (UlogLast * bytes) :=
  let! h := reading u_hdr in
  let! t := now in
  let sno := (last_sno h + 1) mod 2 ^ 32 in
  ret (mkLast sno t, encode_incr_update nm sno t kdbe deleted false).

Definition add_update (nm : bytes) (deleted : bool) (kdbe : bytes) : U UlogLast :=
  do! lock;
  do! load_header;
  do! when (fun h => unstable h || (last_sno h =? U32_MAX)) reload;
  let! (last, update) := next_update nm deleted kdbe in
  do! store_update update;
  ret last.

(** The update does not follow the log. *)
Definition out_of_turn (sno : Z) (h : UlogHeader) : bool :=
  negb (num h =? 0) && negb (sno =? (last_sno h + 1) mod 2 ^ 32).

Definition replay_update (update : bytes) : U unit :=
  let! l := walked (walk_incr_update update) in
  do! lock;
  do! load_header;
  do! when (fun h => unstable h || out_of_turn (l_sno l) h) reload;
  store_update update.

Definition init_header : U unit := do! lock; let! _ := reset in ret tt.

(** ** Batches *)

Definition begin : U unit :=
  do! lock;
  do! load_header;
  do! when unstable reload;
  do! set_state KDB_UNSTABLE;
  assign (set_appended false).

Definition restart : U unit := do! reload; set_state KDB_UNSTABLE.

Definition batch_add_update (nm : bytes) (deleted : bool) (kdbe : bytes) : U UlogLast :=
  do! assign (set_appended true);
  do! when (fun h => last_sno h =? U32_MAX) restart;
  let! (last, update) := next_update nm deleted kdbe in
  do! put_entry update;
  ret last.

Definition batch_replay_update (update : bytes) : U unit :=
  let! l := walked (walk_incr_update update) in
  do! assign (set_appended true);
  do! when (out_of_turn (l_sno l)) restart;
  put_entry update.

Definition batch_init_header : U unit := do! assign (set_appended true); restart.

Definition stage : U unit := let! h := reading u_hdr in write_header h.

Definition finish : U unit := settle.

Definition abandon : U unit :=
  let! appended := reading u_appended in
  if appended : bool then (let! _ := reset in ret tt) else set_state KDB_STABLE.

(** ** Writes of the database under the log *)

Definition stage_note (r : Ready) : U unit :=
  match r with
  | ReadyPut name deleted kdbe => let! _ := batch_add_update name deleted kdbe in ret tt
  | ReadyReset => batch_init_header
  | ReadyReplay raw => batch_replay_update raw
  end.

Definition stage_notes (ready : list Ready) : U unit := do! each stage_note ready; stage.

(** [m.map_err(f)]. *)
Definition map_err {A E} (f : UlogError -> E) (m : U A) : SE UState E A := fun s =>
  match m s with (s, Ok a) => (s, Ok a) | (s, Err e) => (s, Err (f e)) end.

(** [let _ = m]. *)
Definition ignore {A E} (m : U A) : SE UState E unit := fun s => (fst (m s), Ok tt).

Section Write.
Context {E : Type}.

Definition write_failed (logs : bool) (ready : list Ready) : SE UState (LoggedWrite E) unit :=
  if existsb is_replay ready && logs then ignore init_header else ret tt.

(** [write] is what the write of the database returns, if it is called; the value
    says whether there is a batch. *)
Definition write_staged (logs : bool) (ready : list Ready) (write : result E unit) : SE UState (LoggedWrite E) bool :=
  let! batch :=
    if logs && negb (bool_decide (ready = [])) then
      do! map_err Before begin;
      (fun s => match stage_notes ready s with
                | (s, Ok _) => (s, Ok true)
                | (s, Err e) => (do! ignore abandon; lift (Err (Before e))) s
                end)
    else ret false in
  match write with
  | Err e =>
      do! (if batch : bool then ignore abandon else ret tt);
      do! write_failed logs ready;
      lift (Err (WriteErr e))
  | Ok _ => ret batch
  end.

Definition finish_staged (batch : bool) : U unit := if batch then finish else ret tt.

Definition write_logged (logs : bool) (ready : list Ready) (write : result E unit) : SE UState (LoggedWrite E) unit :=
  let! batch := write_staged logs ready write in
  map_err After (finish_staged batch).

End Write.

(** ** Reading *)

Fixpoint gather (n : nat) (h : UlogHeader) (sno : Z) : U (list bytes) :=
  match n with
  | O => ret []
  | S n =>
      let at_ := ent_at (sno mod entries) (block h) in
      let! e := ent_header (sno mod entries) (block h) in
      if negb (e_sno e =? (sno + 1) mod 2 ^ 32) then lift (Err Corrupt)
      else if Z.max 0 (block h - ENT_DATA_AT) <? e_size e then lift (Err Conv)
      else
        let! update := (fun s => match read_at (e_size e) (at_ + ENT_DATA_AT) s with
                                 | (s, Ok b) => (s, Ok b)
                                 | (s, Err _) => (s, Err Conv)
                                 end) in
        let! l := walked (walk_incr_update update) in
        let update := splice update (Z.to_nat (l_commit_at l)) (out_u32 (Z.b2z (e_commit e))) in
        let! rest := gather n h (sno + 1) in
        ret (update :: rest)
  end.

Definition get_entries (last : UlogLast) : U UlogUpdates :=
  do! lock;
  do! load_header;
  do! when unstable (do! lock; do! load_header; when unstable reload);
  let! h := reading u_hdr in
  let! status := sno_status h last in
  if negb (status =? IPROP_OK) then ret (no_updates status)
  else
    let! updates := gather (Z.to_nat (last_sno h - la_sno last)) h (la_sno last) in
    ret (mkUpdates IPROP_OK (mkLast (last_sno h) (last_time h)) updates).

Definition sno_status_of (last : UlogLast) : U Z := fun s =>
  match (do! lock; let! h := header in sno_status h last) s with
  | (s, Ok st) => (s, Ok st)
  | (s, Err _) => (s, Ok IPROP_ERROR)
  end.

Definition get_last : U UlogLast :=
  do! lock;
  let! h := header in
  ret (mkLast (last_sno h) (last_time h)).

Definition set_last (last : UlogLast) : U unit :=
  do! lock;
  let! h := header in
  let! h := set_dummy h (la_sno last) (la_time last) in
  sync_header h.

(** ** Opening *)

Definition bad_ends (h : UlogHeader) : U bool :=
  let! ok := check_sno h (first_sno h) (first_time h) in
  if negb ok then ret true
  else
    let! ok := check_sno h (last_sno h) (last_time h) in
    ret (negb ok).

Definition starts_ulog (b : bytes) : bool := bool_decide (take 5 b = lit_bytes "ulog ").

Definition check_mapped : U unit :=
  do! lock;
  let! n := len in
  let! head := if n <? HDR_LEN then ret (zeros 40) else read_at HDR_LEN 0 in
  do! assign (set_hdr (decode_header head));
  do! when (fun h => negb (hmagic h =? KDB_ULOG_HDR_MAGIC))
        (let! h := reading u_hdr in
         do! (if hmagic h =? 0 then ret tt
              else if negb (starts_ulog head) then lift (Err Corrupt) else truncate);
         reload);
  let! h := reading u_hdr in
  let! bad := if unstable h then ret true
              else if num h =? 0 then ret false
              else if entries <? num h then ret true
              else bad_ends h in
  do! (if bad : bool then reload else ret tt);
  let! h := reading u_hdr in
  if negb (num h =? entries) then extend_to (block h) else ret tt.

(** [Ulog::map] of a file that is there, or is not; [entries] is what it was given,
    at least one. *)
Definition map_file (missing : bool) : U unit :=
  if MAXLOGLEN <? HDR_LEN + entries * ULOG_BLOCK then lift (Err Io)
  else
    do! call;
    do! (if missing then extend_to ULOG_BLOCK else ret tt);
    check_mapped.

End Log.

(** ** Reading and writing bytes *)

Definition byte_at (f : bytes) (i : nat) : byte := default x00 (f !! i).

Lemma byte_at_app f g i : byte_at (f ++ g) i = if (i <? length f)%nat then byte_at f i else byte_at g (i - length f).
Proof.
  unfold byte_at. destruct (Nat.ltb_spec i (length f)); [by rewrite lookup_app_l|by rewrite lookup_app_r].
Qed.

Lemma byte_at_zeros n i : byte_at (zeros n) i = x00.
Proof.
  unfold byte_at, zeros. destruct (decide (i < n)%nat); [by rewrite lookup_replicate_2|].
  by rewrite lookup_ge_None_2 by (rewrite length_replicate; lia).
Qed.

Lemma byte_at_past f i : (length f <= i)%nat -> byte_at f i = x00.
Proof. intros Hi. unfold byte_at. by rewrite lookup_ge_None_2. Qed.

Lemma byte_at_take f n i : (i < n)%nat -> byte_at (take n f) i = byte_at f i.
Proof. intros Hi. unfold byte_at. by rewrite lookup_take_lt. Qed.

Lemma byte_at_drop f n i : byte_at (drop n f) i = byte_at f (n + i).
Proof. unfold byte_at. by rewrite lookup_drop. Qed.

Lemma length_read f n a : length (read_bytes f n a) = n.
Proof. unfold read_bytes, zeros. rewrite length_app, length_replicate, length_take. lia. Qed.

Lemma byte_at_read f n a i : (i < n)%nat -> byte_at (read_bytes f n a) i = byte_at f (a + i).
Proof.
  intros Hi. unfold read_bytes. rewrite byte_at_app, byte_at_zeros, length_take, length_drop.
  destruct (Nat.ltb_spec i (n `min` (length f - a))); [by rewrite byte_at_take, byte_at_drop|].
  by rewrite byte_at_past by lia.
Qed.

Lemma bytes_ext f g : length f = length g -> (forall i, (i < length f)%nat -> byte_at f i = byte_at g i) -> f = g.
Proof.
  intros Hl H. apply list_eq_same_length with (length f); [done|done|]. intros i x y Hi Hx Hy.
  specialize (H i Hi). unfold byte_at in H. by rewrite Hx, Hy in H.
Qed.

Lemma read_ext f g n a :
  (forall i, (a <= i < a + n)%nat -> byte_at f i = byte_at g i) -> read_bytes f n a = read_bytes g n a.
Proof.
  intros H. apply bytes_ext; [by rewrite !length_read|]. rewrite length_read. intros i Hi.
  rewrite !byte_at_read by done. apply H. lia.
Qed.

(** A read within a read. *)
Lemma read_read f n a m k : (k + m <= n)%nat -> take m (drop k (read_bytes f n a)) = read_bytes f m (a + k).
Proof.
  intros H. apply bytes_ext; [rewrite length_take, length_drop, !length_read; lia|].
  rewrite length_take, length_drop, length_read. intros i Hi.
  rewrite byte_at_take, byte_at_drop, !byte_at_read by lia. f_equal. lia.
Qed.

Lemma byte_at_write f buf a i :
  byte_at (write_bytes f buf a) i =
  if (a <=? i)%nat && (i <? a + length buf)%nat then byte_at buf (i - a) else byte_at f i.
Proof.
  unfold write_bytes. destruct buf as [|x buf].
  { cbn [length]. destruct (Nat.leb_spec a i), (Nat.ltb_spec i (a + 0)); try done; lia. }
  set (b := x :: buf). rewrite !byte_at_app, byte_at_zeros, length_take, byte_at_drop. unfold zeros.
  rewrite length_replicate.
  destruct (Nat.ltb_spec i (a `min` length f)), (Nat.ltb_spec (i - a `min` length f) (a - length f)),
    (Nat.ltb_spec (i - a `min` length f - (a - length f)) (length b)),
    (Nat.leb_spec a i), (Nat.ltb_spec i (a + length b)); cbn [andb]; try lia.
  all: try (by rewrite byte_at_take by lia).
  all: try (by rewrite byte_at_past by lia).
  all: f_equal; lia.
Qed.

Lemma write_in f buf a i : (i < length buf)%nat -> byte_at (write_bytes f buf a) (a + i) = byte_at buf i.
Proof.
  intros Hi. rewrite byte_at_write, (proj2 (Nat.leb_le _ _)), (proj2 (Nat.ltb_lt _ _)) by lia. cbn [andb]. f_equal. lia.
Qed.

Lemma write_out f buf a i : (i < a \/ a + length buf <= i)%nat -> byte_at (write_bytes f buf a) i = byte_at f i.
Proof.
  intros Hi. rewrite byte_at_write. destruct (Nat.leb_spec a i), (Nat.ltb_spec i (a + length buf)); cbn; try done; lia.
Qed.

Lemma read_write_in f buf a n k :
  (k + n <= length buf)%nat -> read_bytes (write_bytes f buf a) n (a + k) = take n (drop k buf).
Proof.
  intros H. apply bytes_ext; [rewrite length_read, length_take, length_drop; lia|]. rewrite length_read. intros i Hi.
  rewrite byte_at_read, byte_at_take, byte_at_drop by done. rewrite <- Nat.add_assoc. apply write_in. lia.
Qed.

Lemma read_write_same f buf a : read_bytes (write_bytes f buf a) (length buf) a = buf.
Proof.
  pose proof (read_write_in f buf a (length buf) 0) as H. rewrite Nat.add_0_r in H.
  rewrite H by lia. by rewrite drop_0, take_ge.
Qed.

Lemma read_write_out f buf a n b :
  (b + n <= a \/ a + length buf <= b)%nat -> read_bytes (write_bytes f buf a) n b = read_bytes f n b.
Proof. intros H. apply read_ext. intros i Hi. apply write_out. lia. Qed.

(** ** Headers *)

Definition is_u16 (z : Z) : Prop := 0 <= z < 2 ^ 16.
Definition wf_time (t : UlogTime) : Prop := is_u32 (seconds t) /\ is_u32 (useconds t).

Definition wf_header (h : UlogHeader) : Prop :=
  is_u32 (hmagic h) /\ is_u16 (db_version_num h) /\ is_u32 (num h) /\ wf_time (first_time h) /\ wf_time (last_time h) /\
  is_u32 (first_sno h) /\ is_u32 (last_sno h) /\ is_u16 (state h) /\ is_u16 (block h).

Section Codec.
Context (en : endian).

Lemma length_ne32 z : length (to_ne32 en z) = 4%nat.
Proof. apply length_to_bytes_of. Qed.

Lemma length_ne16 z : length (to_ne16 en z) = 2%nat.
Proof. apply length_to_bytes_of. Qed.

Lemma length_zeros n : length (zeros n) = n.
Proof. apply length_replicate. Qed.

Lemma length_encode_time t : length (encode_time en t) = 8%nat.
Proof. unfold encode_time. by rewrite length_app, !length_ne32. Qed.

Lemma ne32_skip a r i : (length a <= i)%nat -> ne32 en (a ++ r) i = ne32 en r (i - length a).
Proof. intros H. unfold ne32. by rewrite drop_app_ge. Qed.

Lemma ne16_skip a r i : (length a <= i)%nat -> ne16 en (a ++ r) i = ne16 en r (i - length a).
Proof. intros H. unfold ne16. by rewrite drop_app_ge. Qed.

Lemma ne32_here z r : is_u32 z -> ne32 en (to_ne32 en z ++ r) 0 = z.
Proof.
  intros H. unfold ne32. rewrite drop_0, take_app_length' by (by rewrite length_ne32).
  apply from_to_bytes_of. exact H.
Qed.

Lemma ne16_here z r : is_u16 z -> ne16 en (to_ne16 en z ++ r) 0 = z.
Proof.
  intros H. unfold ne16. rewrite drop_0, take_app_length' by (by rewrite length_ne16).
  apply from_to_bytes_of. exact H.
Qed.

(** Find a field of a header written field by field. *)
Ltac field :=
  repeat first
    [ rewrite ne32_here by assumption | rewrite ne16_here by assumption
    | rewrite ne32_skip by (rewrite ?length_ne32, ?length_ne16, ?length_zeros; lia)
    | rewrite ne16_skip by (rewrite ?length_ne32, ?length_ne16, ?length_zeros; lia)
    | progress rewrite ?length_ne32, ?length_ne16, ?length_zeros | progress cbn [Nat.sub] ].

Lemma decode_encode_header h : wf_header h -> decode_header en (encode_header en h) = h.
Proof.
  destruct h as [m v n [fs fu] [ls lu] f l st b]. intros (Hm & Hv & Hn & [Hfs Hfu] & [Hls Hlu] & Hf & Hl & Hst & Hb).
  cbn in *. unfold decode_header, encode_header, encode_time. cbn [hmagic db_version_num num first_time last_time first_sno
    last_sno state block seconds useconds]. rewrite <- !app_assoc.
  rewrite <- (app_nil_r (to_ne16 en b)). f_equal; try f_equal; field; reflexivity.
Qed.

Lemma length_encode_header h : length (encode_header en h) = 40%nat.
Proof. unfold encode_header. rewrite !length_app, !length_encode_time, !length_ne32, !length_ne16. reflexivity. Qed.

Definition wf_ent (e : EntHeader) : Prop :=
  is_u32 (umagic e) /\ is_u32 (e_sno e) /\ wf_time (e_time e) /\ is_u32 (e_size e).

(** The bytes of an entry's header before its data. *)
Definition ent_fields (e : EntHeader) : bytes :=
  to_ne32 en (umagic e) ++ to_ne32 en (e_sno e) ++ encode_time en (e_time e) ++ to_ne32 en (Z.b2z (e_commit e)) ++
  to_ne32 en (e_size e).

Lemma length_ent_fields e : length (ent_fields e) = 24%nat.
Proof. unfold ent_fields. by rewrite !length_app, length_encode_time, !length_ne32. Qed.

Lemma encode_ent_fields e : encode_ent en e = ent_fields e ++ zeros 4.
Proof. unfold encode_ent, ent_fields. by rewrite <- !app_assoc. Qed.

Lemma length_encode_ent e : length (encode_ent en e) = 28%nat.
Proof. by rewrite encode_ent_fields, length_app, length_ent_fields. Qed.

Lemma decode_ent_fields e r : wf_ent e -> decode_ent en (ent_fields e ++ r) = e.
Proof.
  destruct e as [m sn [ts tu] c sz]. intros (Hm & Hs & [Hts Htu] & Hz). cbn in *.
  assert (is_u32 (Z.b2z c)) by (destruct c; unfold is_u32; cbn; lia).
  unfold decode_ent, ent_fields, encode_time. cbn [umagic e_sno e_time e_commit e_size seconds useconds].
  rewrite <- !app_assoc. f_equal; try f_equal; field; try reflexivity. by destruct c.
Qed.

(** ** Views of the file *)

Definition header_of (f : bytes) : UlogHeader := decode_header en (read_bytes f 40 0).
Definition ent_of (f : bytes) (i B : Z) : EntHeader := decode_ent en (read_bytes f 28 (Z.to_nat (ent_at i B))).

Lemma header_of_write f h : wf_header h -> header_of (write_bytes f (encode_header en h) 0) = h.
Proof.
  intros Hh. unfold header_of. rewrite <- (length_encode_header h). rewrite read_write_same. by apply decode_encode_header.
Qed.

Lemma header_of_ext f g : (forall i, (i < 40)%nat -> byte_at f i = byte_at g i) -> header_of f = header_of g.
Proof. intros H. unfold header_of. f_equal. apply read_ext. intros i Hi. apply H. lia. Qed.

Lemma ent_of_ext f g i B :
  (forall k, (Z.to_nat (ent_at i B) <= k < Z.to_nat (ent_at i B) + 28)%nat -> byte_at f k = byte_at g k) ->
  ent_of f i B = ent_of g i B.
Proof. intros H. unfold ent_of. f_equal. by apply read_ext. Qed.

End Codec.

End Ulog.
