(* ===== verification/UlogRing.v ===== *)
(** * The update log as a log

    What the operations of [Ulog] do when no call of the operating system fails:
    the file is a ring of blocks that holds a log, a list of updates under
    consecutive serials whose oldest are dropped when it is full. *)

From S2P Require Import Prelude Reader StateErr Utf8 Etype Primitives Cts Derive Weak Ops Name EncList Kdc Lockout.
From S2P Require Import Osa History PMap Acl Store Iprop Ulog.

Module UlogRing.
Import Iprop Ulog.

(** ** Runs without a fault *)

Section Quiet.
Context (en : endian) (clock : nat -> UlogTime) (fault : nat -> option nat) (entries : Z).
Context (Hquiet : forall i, fault i = None).

(** [m] ends in the file [f], the header [h] and the mark [p], and gives [a]. *)
Definition does {A} (m : U A) (s : UState) (f : bytes) (h : UlogHeader) (p : bool) (a : A) : Prop :=
  exists t, m s = (mkU f t h p, Ok a).

Lemma does_bind {A B} (m : U A) (k : A -> U B) s f h p a f' h' p' b :
  does m s f h p a -> (forall t, does (k a) (mkU f t h p) f' h' p' b) -> does (bind m k) s f' h' p' b.
Proof using. intros [t Hm] Hk. destruct (Hk t) as [t' Hk']. exists t'. by rewrite (bind_ok _ _ _ _ _ Hm). Qed.

(** [m] fails there. *)
Definition fails {A} (m : U A) (s : UState) (f : bytes) (h : UlogHeader) (p : bool) (e : UlogError) : Prop :=
  exists t, m s = (mkU f t h p, Err e).

Lemma fails_here {A B} (m : U A) (k : A -> U B) s f h p e : fails m s f h p e -> fails (bind m k) s f h p e.
Proof using. intros [t Hm]. exists t. by apply bind_err. Qed.

Lemma fails_bind {A B} (m : U A) (k : A -> U B) s f h p a f' h' p' e :
  does m s f h p a -> (forall t, fails (k a) (mkU f t h p) f' h' p' e) -> fails (bind m k) s f' h' p' e.
Proof using. intros [t Hm] Hk. destruct (Hk t) as [t' Hk']. exists t'. by rewrite (bind_ok _ _ _ _ _ Hm). Qed.

Lemma fails_lift {A} (e : UlogError) f t h p : fails (A := A) (lift (Err e)) (mkU f t h p) f h p e.
Proof using. by exists t. Qed.

Lemma does_ret {A} (a : A) f t h p : does (ret a) (mkU f t h p) f h p a.
Proof using. by exists t. Qed.

Lemma does_reading {A} (g : UState -> A) f t h p a :
  (forall t, g (mkU f t h p) = a) -> does (reading g) (mkU f t h p) f h p a.
Proof using. intros H. exists t. unfold reading. by rewrite H. Qed.

Lemma does_get f t h p : does (reading u_hdr) (mkU f t h p) f h p h.
Proof using. by exists t. Qed.

Lemma does_hdr g f t h p : does (assign (fun s => set_hdr (g (u_hdr s)) s)) (mkU f t h p) f (g h) p tt.
Proof using. by exists t. Qed.

Lemma does_set_hdr f t h p h' : does (assign (set_hdr h')) (mkU f t h p) f h' p tt.
Proof using. by exists t. Qed.

Lemma does_appended f t h p p' : does (assign (set_appended p')) (mkU f t h p) f h p' tt.
Proof using. by exists t. Qed.

Lemma does_call f t h p : does (call fault) (mkU f t h p) f h p tt.
Proof using Hquiet. exists (S t). unfold call. cbn. by rewrite Hquiet. Qed.

Lemma does_read n a f t h p :
  does (read_at fault n a) (mkU f t h p) f h p (read_bytes f (Z.to_nat n) (Z.to_nat a)).
Proof using Hquiet. exists (S t). unfold read_at. cbn [u_tick]. by rewrite Hquiet. Qed.

Lemma does_write b a f t h p : does (write_at fault b a) (mkU f t h p) (write_bytes f b (Z.to_nat a)) h p tt.
Proof using Hquiet. exists (S t). unfold write_at. cbn [u_tick]. by rewrite Hquiet. Qed.

Lemma does_len f t h p : does (len fault) (mkU f t h p) f h p (blen f).
Proof using Hquiet. eapply does_bind; [apply does_call|]. intros t'. by apply does_reading. Qed.

Lemma does_ent_header i B f t h p : does (ent_header en fault i B) (mkU f t h p) f h p (ent_of en f i B).
Proof using Hquiet. eapply does_bind; [apply does_read|]. intros t'. apply does_ret. Qed.

Lemma does_header f t h p : does (header en fault) (mkU f t h p) f h p (header_of en f).
Proof using Hquiet. eapply does_bind; [apply does_read|]. intros t'. apply does_ret. Qed.

Lemma does_load_header f t h p : does (load_header en fault) (mkU f t h p) f (header_of en f) p tt.
Proof using Hquiet. eapply does_bind; [apply does_header|]. intros t'. apply does_set_hdr. Qed.

Lemma does_sync_header h' f t h p :
  does (sync_header en fault h') (mkU f t h p) (write_bytes f (encode_header en h') 0) h p tt.
Proof using Hquiet. eapply does_bind; [apply does_write|]. intros t'. apply does_call. Qed.

(** A file that reads the same. *)
Definition same_bytes (f g : bytes) : Prop := forall i, byte_at f i = byte_at g i.

Lemma write_zeros_end f n : same_bytes (write_bytes f (zeros n) (length f)) f.
Proof using.
  intros i. rewrite byte_at_write. destruct (Nat.leb_spec (length f) i); cbn [andb]; [|done].
  rewrite byte_at_zeros, (byte_at_past f) by done. by destruct (_ <? _)%nat.
Qed.

Lemma length_write f b a : b <> [] -> length (write_bytes f b a) = Nat.max (length f) (a + length b).
Proof using.
  intros Hb. unfold write_bytes. destruct b as [|x b]; [done|]. unfold zeros.
  rewrite !length_app, length_take, length_replicate, length_drop. lia.
Qed.

(** What the loop that extends the file writes. *)
Fixpoint grow (fuel : nat) (size : Z) (f : bytes) : bytes :=
  match fuel with
  | O => f
  | S fuel =>
      if blen f <? size
      then grow fuel size (write_bytes f (zeros (Z.to_nat (Z.min (size - blen f) CHUNK))) (length f))
      else f
  end.

Lemma blen_grown f n : 0 < n -> blen (write_bytes f (zeros (Z.to_nat n)) (length f)) = blen f + n.
Proof using.
  intros Hn. unfold blen. rewrite length_write, length_zeros; [lia|].
  intros Hz. apply (f_equal length) in Hz. rewrite length_zeros in Hz. cbn in Hz. lia.
Qed.

Lemma does_extend_loop fuel size f t h p :
  does (extend_loop fault fuel size (blen f)) (mkU f t h p) (grow fuel size f) h p tt.
Proof using Hquiet.
  revert f t. induction fuel as [|fuel IH]; intros f t; cbn [extend_loop grow]; [apply does_ret|].
  destruct (Z.ltb_spec (blen f) size) as [Hlt|Hge]; [|apply does_ret].
  set (n := Z.min (size - blen f) CHUNK). assert (0 < n) as Hn by (unfold CHUNK in *; lia).
  eapply does_bind; [apply does_write|]. intros t'. replace (Z.to_nat (blen f)) with (length f) by (unfold blen; lia).
  rewrite <- (blen_grown f n Hn). apply IH.
Qed.

Lemma grow_same fuel size f : same_bytes (grow fuel size f) f.
Proof using.
  revert f. induction fuel as [|fuel IH]; intros f; cbn [grow]; [done|]. destruct (_ <? _); [|done].
  intros i. rewrite IH. apply write_zeros_end.
Qed.

(** The loop ends with the file as long as asked. *)
Lemma grow_length fuel size f : size - blen f <= Z.of_nat fuel * CHUNK -> blen (grow fuel size f) = Z.max size (blen f).
Proof using.
  revert f. induction fuel as [|fuel IH]; intros f Hf; cbn [grow]; [unfold CHUNK in *; lia|].
  destruct (Z.ltb_spec (blen f) size) as [Hlt|Hge]; [|lia]. unfold CHUNK in *.
  rewrite IH; rewrite blen_grown by lia; lia.
Qed.

Lemma does_extend_to B f t h p :
  HDR_LEN + entries * B <= MAXLOGLEN ->
  exists f', does (extend_to fault entries B) (mkU f t h p) f' h p tt /\ same_bytes f' f /\
    blen f' = Z.max (HDR_LEN + entries * B) (blen f).
Proof using Hquiet.
  intros Hm. set (size := HDR_LEN + entries * B) in *.
  exists (grow (Z.to_nat ((size - blen f) / CHUNK + 1)) size f). split; [|split].
  - unfold extend_to. fold size. rewrite (proj2 (Z.ltb_ge _ _)) by done.
    eapply does_bind; [apply does_len|]. intros t'. apply does_extend_loop.
  - apply grow_same.
  - apply grow_length. destruct (decide (size <= blen f)); [unfold CHUNK; lia|].
    pose proof (Z.mul_div_le (size - blen f) CHUNK). pose proof (Z.mul_succ_div_gt (size - blen f) CHUNK).
    unfold CHUNK in *. lia.
Qed.

(** The file after the blocks below [n] are moved. *)
Fixpoint moved (n : nat) (old new : Z) (f : bytes) : bytes :=
  match n with
  | O => f
  | S n =>
      moved n old new
        (write_bytes f (read_bytes f (Z.to_nat old) (Z.to_nat (ent_at (Z.of_nat n) old)) ++ zeros (Z.to_nat (new - old)))
           (Z.to_nat (ent_at (Z.of_nat n) new)))
  end.

Lemma does_move_blocks n old new f t h p :
  does (move_blocks fault n old new) (mkU f t h p) (moved n old new f) h p tt.
Proof using Hquiet.
  revert f t. induction n as [|n IH]; intros f t; cbn [move_blocks moved]; [apply does_ret|].
  eapply does_bind; [apply does_read|]. intros t1. eapply does_bind; [apply does_write|]. intros t2. apply IH.
Qed.

Lemma moved_out n old new f i :
  0 <= old <= new -> (i < 40 \/ Z.to_nat (ent_at (Z.of_nat n) new) <= i)%nat ->
  byte_at (moved n old new f) i = byte_at f i.
Proof using.
  intros Ho. revert f. induction n as [|n IH]; intros f Hi; cbn [moved]; [done|].
  unfold ent_at, HDR_LEN in *. rewrite IH by nia. apply write_out.
  rewrite length_app, length_read, length_zeros. nia.
Qed.

(** Every block is in its new place. *)
Lemma moved_in n old new f i k :
  0 <= old <= new -> 0 <= i < Z.of_nat n -> 0 <= k < old ->
  byte_at (moved n old new f) (Z.to_nat (ent_at i new + k)) = byte_at f (Z.to_nat (ent_at i old + k)).
Proof using.
  intros Ho. revert f. induction n as [|n IH]; intros f Hi Hk; cbn [moved]; [lia|]. unfold ent_at, HDR_LEN in *.
  destruct (decide (i = Z.of_nat n)) as [->|].
  - rewrite moved_out by (unfold ent_at, HDR_LEN in *; nia).
    replace (Z.to_nat (40 + Z.of_nat n * new + k)) with (Z.to_nat (40 + Z.of_nat n * new) + Z.to_nat k)%nat by nia.
    rewrite write_in by (rewrite length_app, length_read, length_zeros; lia).
    rewrite byte_at_app, length_read, (proj2 (Nat.ltb_lt _ _)) by lia. rewrite byte_at_read by lia. f_equal. nia.
  - rewrite IH by lia. apply write_out. left. nia.
Qed.

Context (Hent : 1 <= entries) (Hmax : HDR_LEN + entries * ULOG_BLOCK <= MAXLOGLEN).
Context (Hclock : forall i, wf_time (clock i)).

(** ** What a file holds *)

(** A log: the serial of its oldest entry, and each entry's time and update; a
    dummy, which only the oldest may be, has none. *)
Record Log := mkLog { lg_first : Z; lg_items : list (UlogTime * option bytes) }.

Definition lg_last (l : Log) : Z := lg_first l + Z.of_nat (length (lg_items l)) - 1.

(** An update that can be logged under [sno] and [t]. *)
Definition update_for (u : bytes) (sno : Z) (t : UlogTime) : Prop :=
  exists w, walk_incr_update u = Ok w /\ l_sno w = sno /\ l_time w = t.

Definition wf_items (l : Log) : Prop :=
  forall i t u, lg_items l !! i = Some (t, u) -> wf_time t /\
    match u with Some u => update_for u (lg_first l + Z.of_nat i) t | None => i = O end.

Record wf_log (l : Log) : Prop := {
  wl_some : lg_items l <> [];
  wl_first : 1 <= lg_first l;
  wl_last : lg_last l < 2 ^ 32;
  wl_bound : Z.of_nat (length (lg_items l)) <= entries;
  wl_items : wf_items l;
}.

(** The block of [sno] in a ring of blocks of [B] bytes has this entry. *)
Definition holds (f : bytes) (B sno : Z) (t : UlogTime) (u : option bytes) : Prop :=
  let i := slot entries sno in
  e_sno (ent_of en f i B) = sno /\ e_time (ent_of en f i B) = t /\
  match u with
  | Some u =>
      e_commit (ent_of en f i B) = true /\ e_size (ent_of en f i B) = blen u /\ ENT_HDR_LEN + blen u <= B /\
      read_bytes f (length u) (Z.to_nat (ent_at i B + ENT_DATA_AT)) = u
  | None => True
  end.

Definition slots (f : bytes) (B : Z) (l : Log) : Prop :=
  forall i t u, lg_items l !! i = Some (t, u) -> holds f B (lg_first l + Z.of_nat i) t u.

(** A size of blocks: a multiple of the smallest that the header and the file have room for. *)
Definition block_ok (B : Z) : Prop :=
  (ULOG_BLOCK <= B < 2 ^ 16 /\ B mod ULOG_BLOCK = 0) /\ HDR_LEN + entries * B <= MAXLOGLEN.

(** A header that describes the log. *)
Record describes (h : UlogHeader) (B : Z) (l : Log) : Prop := {
  de_wf : wf_header h;
  de_magic : hmagic h = KDB_ULOG_HDR_MAGIC;
  de_num : num h = Z.of_nat (length (lg_items l));
  de_first : first_sno h = lg_first l;
  de_ftime : fmap fst (head (lg_items l)) = Some (first_time h);
  de_last : last_sno h = lg_last l;
  de_ltime : fmap fst (list.last (lg_items l)) = Some (last_time h);
  de_block : block h = B;
}.

(** A log at rest. *)
Definition stable (f : bytes) (l : Log) : Prop :=
  exists B, block_ok B /\ wf_log l /\ describes (header_of en f) B l /\ state (header_of en f) = KDB_STABLE /\ slots f B l /\
    HDR_LEN <= blen f.

Lemma slot_small sno : 1 <= sno < 2 ^ 32 -> slot entries sno = (sno - 1) mod entries.
Proof using. intros H. unfold slot. by rewrite (Z.mod_small (sno - 1)) by lia. Qed.

Lemma slot_range sno : 0 <= slot entries sno < entries.
Proof using Hent. unfold slot. apply Z.mod_pos_bound. lia. Qed.

Lemma slot_neq a b :
  1 <= a < 2 ^ 32 -> 1 <= b < 2 ^ 32 -> a <> b -> Z.abs (a - b) < entries -> slot entries a <> slot entries b.
Proof using Hent.
  intros Ha Hb Hn Hd. rewrite !slot_small by done. intros E.
  pose proof (Z.div_mod (a - 1) entries ltac:(lia)). pose proof (Z.div_mod (b - 1) entries ltac:(lia)).
  set (qa := (a - 1) / entries) in *. set (qb := (b - 1) / entries) in *. rewrite E in *.
  assert (a - b = entries * (qa - qb)) by lia. destruct (decide (qa = qb)); [lia|]. nia.
Qed.

(** A block has its own bytes. *)
Lemma block_apart i j B k :
  0 <= i < entries -> 0 <= j < entries -> i <> j -> 0 <= B -> ent_at i B <= k < ent_at i B + B ->
  k < ent_at j B \/ ent_at j B + B <= k.
Proof using.
  intros Hi Hj Hn HB Hk. unfold ent_at in *. destruct (decide (i < j)); [left; nia|right; nia].
Qed.

Lemma holds_ext f g B C sno t u :
  ENT_HDR_LEN <= B <= C ->
  (forall k, 0 <= k < B -> byte_at g (Z.to_nat (ent_at (slot entries sno) C + k)) =
    byte_at f (Z.to_nat (ent_at (slot entries sno) B + k))) ->
  holds f B sno t u -> holds g C sno t u.
Proof using Hent.
  intros HB Hk. pose proof (slot_range sno) as Hs. unfold holds. set (i := slot entries sno) in *.
  assert (0 <= ent_at i B /\ 0 <= ent_at i C) as [H0 H1] by (unfold ent_at, HDR_LEN, ENT_HDR_LEN in *; nia).
  assert (ent_of en g i C = ent_of en f i B) as ->.
  { unfold ent_of. f_equal. apply bytes_ext; [by rewrite !length_read|]. rewrite length_read. intros k Hk28.
    rewrite !byte_at_read by done. unfold ENT_HDR_LEN in *. specialize (Hk (Z.of_nat k) ltac:(lia)).
    rewrite !Z2Nat.inj_add, !Nat2Z.id in Hk by lia. exact Hk. }
  intros (Hsn & Ht & Hu). split; [done|]. split; [done|]. destruct u as [u|]; [|done].
  destruct Hu as (Hc & Hz & Hl & Hr). split_and!; [done|done|lia|]. rewrite <- Hr at 2.
  apply bytes_ext; [by rewrite !length_read|]. rewrite length_read. intros k Hkl. rewrite !byte_at_read by done.
  unfold ENT_DATA_AT, ENT_HDR_LEN, blen in *. specialize (Hk (24 + Z.of_nat k) ltac:(lia)).
  rewrite !Z2Nat.inj_add in Hk by lia. rewrite !Z2Nat.inj_add by lia. rewrite !Nat2Z.id in Hk.
  rewrite <- !Nat.add_assoc. exact Hk.
Qed.

Lemma slots_ext f g B l :
  block_ok B -> (forall k, (40 <= k)%nat -> byte_at g k = byte_at f k) -> slots f B l -> slots g B l.
Proof using Hent.
  intros [HB _] Hk Hs i t u Hi. apply (holds_ext f g B B); [unfold ENT_HDR_LEN, ULOG_BLOCK in *; lia| |by apply Hs].
  intros k Hkb. apply Hk. pose proof (slot_range (lg_first l + Z.of_nat i)). unfold ent_at, HDR_LEN, ULOG_BLOCK in *. nia.
Qed.

Lemma slots_moved f f' B C l :
  block_ok B -> B <= C -> same_bytes f' f -> slots f B l -> slots (moved (Z.to_nat entries) B C f') C l.
Proof using Hent.
  intros [HB _] HC Hf Hs i t u Hi. apply (holds_ext f _ B C); [unfold ENT_HDR_LEN, ULOG_BLOCK in *; lia| |by apply Hs].
  intros k Hk. rewrite moved_in; [apply Hf|unfold ULOG_BLOCK in *; lia| |done].
  rewrite Z2Nat.id by lia. apply slot_range.
Qed.

(** A block with an update. *)
Definition entry_block (B : Z) (e : EntHeader) (u : bytes) : bytes :=
  splice (splice (zeros (Z.to_nat B)) 0 (encode_ent en e)) (Z.to_nat ENT_DATA_AT) u.

Lemma entry_block_parts B e u :
  ENT_HDR_LEN + blen u <= B ->
  exists z, entry_block B e u = ent_fields en e ++ u ++ z /\ length (entry_block B e u) = Z.to_nat B.
Proof using.
  intros HB. unfold entry_block, splice, ENT_DATA_AT, ENT_HDR_LEN, blen in *. rewrite take_0, length_encode_ent.
  cbn [app Nat.add]. eexists. split.
  - change (Z.to_nat 24) with 24%nat. rewrite encode_ent_fields, <- app_assoc.
    rewrite take_app_length' by (by rewrite length_ent_fields). reflexivity.
  - change (Z.to_nat 24) with 24%nat. rewrite encode_ent_fields, <- app_assoc.
    rewrite take_app_length' by (by rewrite length_ent_fields).
    rewrite !length_app, length_drop, !length_app, length_ent_fields, length_drop, !length_zeros. lia.
Qed.

Lemma holds_written f B sno t u :
  ENT_HDR_LEN + blen u <= B -> B < 2 ^ 16 -> is_u32 sno -> wf_time t ->
  holds (write_bytes f (entry_block B (mkEnt KDB_ULOG_MAGIC sno t true (blen u)) u)
           (Z.to_nat (ent_at (slot entries sno) B))) B sno t (Some u).
Proof using Hent.
  intros Hl HB Hs Ht. set (e := mkEnt _ _ _ _ _). destruct (entry_block_parts B e u Hl) as (z & E & Hlen).
  assert (0 <= ent_at (slot entries sno) B) as Hp.
  { pose proof (slot_range sno). unfold ent_at, HDR_LEN, ENT_HDR_LEN, blen in *. nia. }
  assert (ent_of en (write_bytes f (entry_block B e u) (Z.to_nat (ent_at (slot entries sno) B)))
    (slot entries sno) B = e) as He.
  { unfold ent_of. rewrite <- (Nat.add_0_r (Z.to_nat (ent_at (slot entries sno) B))) at 2.
    rewrite read_write_in by (rewrite Hlen; unfold ENT_HDR_LEN, blen in *; lia). rewrite drop_0, E.
    rewrite take_app_ge by (rewrite length_ent_fields; lia). apply decode_ent_fields.
    unfold wf_ent, e, is_u32, KDB_ULOG_MAGIC, ENT_HDR_LEN, blen in *. cbn. split_and!; try lia; apply Ht. }
  unfold holds. rewrite He. cbn [e e_sno e_time e_commit e_size]. split_and!; try done.
  rewrite Z2Nat.inj_add by (unfold ENT_DATA_AT; lia). rewrite read_write_in.
  - rewrite E. change (Z.to_nat ENT_DATA_AT) with 24%nat. rewrite drop_app_length' by (by rewrite length_ent_fields).
    by rewrite take_app_length.
  - rewrite Hlen. unfold ENT_DATA_AT, ENT_HDR_LEN, blen in *. lia.
Qed.

(** ** Adding an entry *)

Definition push (l : Log) (t : UlogTime) (u : bytes) : Log :=
  let items := lg_items l ++ [(t, Some u)] in
  if Z.of_nat (length (lg_items l)) <? entries then mkLog (lg_first l) items
  else mkLog (lg_first l + 1) (drop 1 items).

Lemma push_last l t u : lg_items l <> [] -> lg_last (push l t u) = lg_last l + 1.
Proof using.
  intros Hn. unfold lg_last, push. destruct (_ <? _); cbn [lg_first lg_items]; rewrite ?length_drop, length_app; cbn [length]; [lia|].
  destruct (lg_items l); [done|]. cbn [length]. lia.
Qed.

(** The entries of the log after a push: old ones, under their serials, and the new one. *)
Lemma push_lookup l t u i t' u' :
  Z.of_nat (length (lg_items l)) <= entries ->
  lg_items (push l t u) !! i = Some (t', u') ->
  (exists j, lg_items l !! j = Some (t', u') /\ lg_first (push l t u) + Z.of_nat i = lg_first l + Z.of_nat j /\
     lg_last l + 1 - (lg_first l + Z.of_nat j) < entries /\ (j = O -> i = O)) \/
  (t' = t /\ u' = Some u /\ lg_first (push l t u) + Z.of_nat i = lg_last l + 1).
Proof using.
  intros Hb. unfold push, lg_last. destruct (Z.ltb_spec (Z.of_nat (length (lg_items l))) entries) as [Hlt|Hge]; cbn [lg_first lg_items].
  - destruct (decide (i < length (lg_items l))%nat) as [Hi|Hi].
    + rewrite lookup_app_l by done. intros E. left. exists i. split_and!; [done|done|lia|done].
    + rewrite lookup_app_r by lia. intros E. right.
      destruct (i - length (lg_items l))%nat eqn:Ei; [|done]. injection E as <- <-. split_and!; [done|done|lia].
  - rewrite lookup_drop. destruct (decide (1 + i < length (lg_items l))%nat) as [Hi|Hi].
    + rewrite lookup_app_l by done. intros E. left. exists (1 + i)%nat. split_and!; [done|lia|lia|lia].
    + rewrite lookup_app_r by lia. intros E. right.
      destruct (1 + i - length (lg_items l))%nat eqn:Ei; [|done]. injection E as <- <-. split_and!; [done|done|lia].
Qed.

Lemma push_length l t u :
  lg_items l <> [] -> Z.of_nat (length (lg_items l)) <= entries ->
  Z.of_nat (length (lg_items (push l t u))) = Z.min (Z.of_nat (length (lg_items l)) + 1) entries.
Proof using Hent.
  intros Hn Hl. unfold push. destruct (Z.ltb_spec (Z.of_nat (length (lg_items l))) entries); cbn [lg_items];
    rewrite ?length_drop, length_app; cbn [length]; lia.
Qed.

Lemma push_wf l t u :
  wf_log l -> lg_last l + 1 < 2 ^ 32 -> wf_time t -> update_for u (lg_last l + 1) t -> wf_log (push l t u).
Proof using Hent.
  intros [Hn Hf Hl Hb Hi] H32 Ht Hu. pose proof (push_length l t u Hn Hb) as Hpl. constructor; [..|].
  - intros E. rewrite E in Hpl. cbn in Hpl. lia.
  - unfold push. destruct (_ <? _); cbn [lg_first]; lia.
  - by rewrite push_last.
  - lia.
  - intros i t' u' E. apply (push_lookup _ _ _ _ _ _ Hb) in E as [(j & Ej & Es & _ & Hj)|(-> & -> & Es)].
    + destruct (Hi _ _ _ Ej) as [Hwt Hwu]. split; [done|]. rewrite Es. destruct u'; [done|]. by apply Hj.
    + split; [done|]. by rewrite Es.
Qed.

Lemma push_slots f B l t u :
  block_ok B -> wf_log l -> lg_last l + 1 < 2 ^ 32 -> wf_time t -> ENT_HDR_LEN + blen u <= B -> slots f B l ->
  slots (write_bytes f (entry_block B (mkEnt KDB_ULOG_MAGIC (lg_last l + 1) t true (blen u)) u)
           (Z.to_nat (ent_at (slot entries (lg_last l + 1)) B))) B (push l t u).
Proof using Hent.
  intros [HB HBm] Hw H32 Ht Hl Hs i t' u' E. set (e := mkEnt _ _ _ _ _).
  pose proof (wl_first _ Hw) as Hf1. assert (0 < Z.of_nat (length (lg_items l))) as Hpos.
  { pose proof (wl_some _ Hw). destruct (lg_items l); [done|]. cbn; lia. }
  assert (is_u32 (lg_last l + 1)) as Hu32 by (unfold is_u32, lg_last in *; lia).
  apply (push_lookup _ _ _ _ _ _ (wl_bound _ Hw)) in E as [(j & Ej & Es & Hd & _)|(-> & -> & Es)]; rewrite Es; [|by apply holds_written; try lia].
  pose proof (lookup_lt_Some _ _ _ Ej) as Hj. set (sno := lg_first l + Z.of_nat j) in *.
  assert (1 <= sno <= lg_last l) as Hsn by (unfold sno, lg_last in *; lia).
  apply (holds_ext f _ B B); [unfold ENT_HDR_LEN, ULOG_BLOCK in *; lia| |by apply Hs].
  intros k Hk. apply write_out. destruct (entry_block_parts B e u Hl) as (_ & _ & ->).
  pose proof (slot_range sno) as R1. pose proof (slot_range (lg_last l + 1)) as R2.
  assert (slot entries sno <> slot entries (lg_last l + 1)) as Hne by (apply slot_neq; unfold is_u32 in *; lia).
  destruct (block_apart _ _ B (ent_at (slot entries sno) B + k) R1 R2 Hne); unfold ent_at, HDR_LEN, ULOG_BLOCK in *; [nia..|].
  right. nia.
Qed.

(** ** The ring at work *)

(** The log under a working header: what is on the disk but the header. *)
Definition ring (f : bytes) (h : UlogHeader) (B : Z) (l : Log) : Prop :=
  block_ok B /\ wf_log l /\ describes h B l /\ slots f B l.

Lemma ring_ext f g h B l :
  (forall k, (40 <= k)%nat -> byte_at g k = byte_at f k) -> ring f h B l -> ring g h B l.
Proof using Hent. intros Hk (HB & Hw & Hd & Hs). split_and!; [done..|]. by apply (slots_ext f). Qed.

Lemma ring_header f h h' B l : ring f h B l -> ring (write_bytes f (encode_header en h') 0) h B l.
Proof using Hent. apply ring_ext. intros k Hk. apply write_out. rewrite length_encode_header. lia. Qed.

Lemma ring_state f h B l st : is_u16 st -> ring f h B l -> ring f (set_state_of st h) B l.
Proof using.
  intros Hst (HB & Hw & [Hwf Hm Hn Hf Hft Hl Hlt Hb] & Hs). split_and!; [done..| |done].
  constructor; cbn; [|done..]. unfold wf_header in *. cbn. tauto.
Qed.

Definition block_for (recsize : Z) : Z := (recsize / ULOG_BLOCK + 1) * ULOG_BLOCK.

Lemma block_for_gt r : r < block_for r.
Proof using. unfold block_for, ULOG_BLOCK. pose proof (Z.div_mod r 2048 ltac:(lia)). pose proof (Z.mod_pos_bound r 2048 ltac:(lia)). lia. Qed.

(** An update that no block can hold. *)
Definition too_big (u : bytes) : bool :=
  let B := block_for (ENT_HDR_LEN + blen u) in (U16_MAX <? B) || (MAXLOGLEN <? HDR_LEN + entries * B).

(** A resize keeps the log. *)
Lemma resize_ring r f h p B l :
  ring f h B l -> B < r -> block_for r <= U16_MAX -> HDR_LEN + entries * block_for r <= MAXLOGLEN ->
  exists f', (forall t, does (resize en fault entries r) (mkU f t h p) f' (set_block (block_for r) h) p tt) /\
    ring f' (set_block (block_for r) h) (block_for r) l.
Proof using Hquiet Hent.
  intros (HB & Hw & Hd & Hs) Hr H16 Hm. pose proof (block_for_gt r) as Hgt. set (C := block_for r) in *.
  destruct HB as [HB1 HB2]. assert (block_ok C) as HC.
  { assert (C mod ULOG_BLOCK = 0) by (apply Z.mod_mul; done). unfold block_ok, U16_MAX in *. lia. }
  set (f1 := grow (Z.to_nat ((HDR_LEN + entries * C - blen f) / CHUNK + 1)) (HDR_LEN + entries * C) f).
  pose (f2 := moved (Z.to_nat entries) B C f1).
  assert (ring f2 (set_block C h) C l) as Hring.
  { split_and!; [done..| |].
    - destruct Hd as [Hwf Hmg Hn Hf Hft Hl Hlt Hb]. constructor; cbn; [|done..].
      unfold wf_header in *. cbn. destruct HC as [? _]. unfold is_u16, ULOG_BLOCK in *. intuition lia.
    - apply slots_moved with (f := f); [done|lia|apply grow_same|done]. }
  exists (write_bytes f2 (encode_header en (set_block C h)) 0). split; [|by apply ring_header].
  intros t. unfold resize. eapply does_bind; [apply does_get|]. intros t1. fold (block_for r). fold C.
  rewrite (proj2 (Z.ltb_ge U16_MAX C)), (proj2 (Z.ltb_ge MAXLOGLEN (HDR_LEN + entries * C))) by done. cbn [orb].
  eapply does_bind.
  { unfold extend_to. rewrite (proj2 (Z.ltb_ge MAXLOGLEN (HDR_LEN + entries * C))) by done.
    eapply does_bind; [apply does_len|]. intros t2. apply does_extend_loop. }
  intros t2. rewrite (de_block _ _ _ Hd). eapply does_bind; [apply does_move_blocks|]. intros t3.
  eapply does_bind; [apply (does_hdr (set_block C))|]. intros t4. eapply does_bind; [apply does_get|]. intros t5.
  apply does_sync_header.
Qed.

(** Room for an update is made, or the update fits no block. *)
Definition room (h : UlogHeader) (u : bytes) : U unit :=
  if block h <? ENT_HDR_LEN + blen u then resize en fault entries (ENT_HDR_LEN + blen u) else ret tt.

Lemma make_room u f h p B l :
  ring f h B l ->
  (exists f' h' B', (forall t, does (room h u) (mkU f t h p) f' h' p tt) /\ ring f' h' B' l /\ ENT_HDR_LEN + blen u <= B' /\ state h' = state h) \/
  (too_big u = true /\ forall t, fails (room h u) (mkU f t h p) f h p UError).
Proof using Hquiet Hent.
  intros Hr. unfold room. set (r := ENT_HDR_LEN + blen u). assert (block h = B) as -> by apply Hr.
  destruct (Z.ltb_spec B r) as [Hlt|Hge].
  - unfold too_big. fold r. destruct ((U16_MAX <? block_for r) || (MAXLOGLEN <? HDR_LEN + entries * block_for r)) eqn:Ebig.
    + right. split; [done|]. intros t. eapply fails_bind; [apply does_get|]. intros t1. cbv beta zeta. fold (block_for r). rewrite Ebig. apply fails_lift.
    + left. apply orb_false_iff in Ebig as [E1 E2]. apply Z.ltb_ge in E1, E2.
      destruct (resize_ring r f h p B l Hr Hlt E1 E2) as (f' & Hd & Hr'). exists f', (set_block (block_for r) h), (block_for r).
      split_and!; [done..| |done]. pose proof (block_for_gt r). lia.
  - left. exists f, h, B. split_and!; [intros t; apply does_ret|done..].
Qed.

Lemma push_end l t u : lg_items l <> [] -> list.last (lg_items (push l t u)) = Some (t, Some u).
Proof using.
  intros Hn. unfold push. destruct (_ <? _); cbn [lg_items]; [apply last_snoc|].
  destruct (lg_items l) as [|x r]; [done|]. cbn [app drop]. apply last_snoc.
Qed.

(** The header after the entry is written. *)
Definition advanced (h : UlogHeader) (f : bytes) (sno : Z) (t : UlogTime) : UlogHeader :=
  let h := set_last_of sno t h in
  if num h <? entries then set_first_of (num h + 1) (first_sno h) (first_time h) h
  else let next := ent_of en f (sno mod entries) (block h) in set_first_of (num h) (e_sno next) (e_time next) h.

Lemma describes_push f h B l t u :
  block_ok B -> wf_log l -> describes h B l -> lg_last l + 1 < 2 ^ 32 -> wf_time t -> update_for u (lg_last l + 1) t ->
  slots f B (push l t u) -> describes (advanced h f (lg_last l + 1) t) B (push l t u).
Proof using Hent.
  intros HB Hw [Hwf Hm Hn Hf Hft Hl Hlt Hb] H32 Ht Hu Hs.
  pose proof (wl_some _ Hw) as Hne. pose proof (wl_first _ Hw) as H1. pose proof (wl_bound _ Hw) as Hbd.
  pose proof (push_last l t u Hne) as Hpl. pose proof (push_end l t u Hne) as Hpe.
  pose proof (push_length l t u Hne Hbd) as Hlen. pose proof (push_wf l t u Hw H32 Ht Hu) as Hpw.
  assert (is_u32 (lg_last l + 1)) as Hu32.
  { unfold is_u32, lg_last in *. destruct (lg_items l); [done|]. cbn [length] in *. lia. }
  unfold advanced. cbn [set_last_of num first_sno first_time block]. rewrite Hn.
  destruct (Z.ltb_spec (Z.of_nat (length (lg_items l))) entries) as [Hlt'|Hge].
  - constructor; cbn; [|done| | | |by rewrite Hpl|by rewrite Hpe|done].
    + unfold wf_header, is_u32 in *. cbn. pose proof (wl_last _ Hw). unfold lg_last in *. intuition lia.
    + rewrite Hlen. lia.
    + unfold push. by rewrite (proj2 (Z.ltb_lt _ _)).
    + unfold push. rewrite (proj2 (Z.ltb_lt _ _)) by done. cbn [lg_items]. by destruct (lg_items l).
  - destruct (lg_items (push l t u)) as [|[t0 u0] r] eqn:Ei; [by destruct (wl_some _ Hpw)|].
    assert (lg_items (push l t u) !! 0%nat = Some (t0, u0)) as E0 by by rewrite Ei.
    destruct (Hs _ _ _ E0) as (He & Het & _). rewrite Z.add_0_r in He, Het.
    assert (lg_first (push l t u) = lg_first l + 1) as Hpf.
    { unfold push. by rewrite (proj2 (Z.ltb_ge _ _)). }
    assert (slot entries (lg_first (push l t u)) = (lg_last l + 1) mod entries) as Hsl.
    { pose proof (wl_last _ Hpw). pose proof (wl_first _ Hpw). rewrite slot_small.
      - rewrite Hpf. unfold lg_last. replace (lg_first l + Z.of_nat (length (lg_items l)) - 1 + 1)
          with (lg_first l + 1 - 1 + 1 * entries) by lia. by rewrite Z.mod_add by lia.
      - unfold lg_last in H. rewrite Ei in H. cbn [length] in H. lia. }
    rewrite Hsl in He, Het. rewrite Hb, He, Het.
    destruct (wl_items _ Hpw _ _ _ E0) as [Hwt _].
    constructor; cbn; [|done| |done|by rewrite Ei|by rewrite Hpl|by rewrite Ei, Hpe|done].
    + unfold wf_header, is_u32 in *. cbn. pose proof (wl_last _ Hw). unfold lg_last in *. intuition lia.
    + rewrite Ei. cbn [length] in *. lia.
Qed.

Lemma does_advance f t h p sno tm :
  1 <= num h ->
  does (let! h := reading u_hdr in
        if num h =? 0 then assign (set_hdr (set_first_of 1 sno tm h))
        else if num h <? entries then assign (set_hdr (set_first_of (num h + 1) (first_sno h) (first_time h) h))
        else
          let! next := ent_header en fault (sno mod entries) (block h) in
          assign (set_hdr (set_first_of (num h) (e_sno next) (e_time next) h)))
    (mkU f t (set_last_of sno tm h) p) f (advanced h f sno tm) p tt.
Proof using Hquiet.
  intros Hn. eapply does_bind; [apply does_get|]. intros t1. unfold advanced.
  cbn [set_last_of num]. rewrite (proj2 (Z.eqb_neq (num h) 0)) by lia.
  destruct (num h <? entries); [apply does_set_hdr|]. eapply does_bind; [apply does_ent_header|]. intros t2.
  apply does_set_hdr.
Qed.

Lemma put_entry_ok u f h p B l tm :
  ring f h B l -> lg_last l + 1 < 2 ^ 32 -> wf_time tm -> update_for u (lg_last l + 1) tm -> blen u <= U32_MAX ->
  (exists f' h' B', (forall t, does (put_entry en fault entries u) (mkU f t h p) f' h' p tt) /\ ring f' h' B' (push l tm u) /\ state h' = state h) \/
  (too_big u = true /\ forall t, fails (put_entry en fault entries u) (mkU f t h p) f h p UError).
Proof using Hquiet Hent.
  intros Hr H32 Ht Hu Hlen. assert (1 <= num h) as Hnum.
  { destruct Hr as (_ & Hw & Hd & _). rewrite (de_num _ _ _ Hd). pose proof (wl_some _ Hw). destruct (lg_items l); [done|]. cbn. lia. }
  pose proof Hu as (w & Hw & Hsn & Htm). unfold put_entry. rewrite Hw.
  rewrite (proj2 (Z.ltb_ge U32_MAX (blen u))) by done.
  destruct (make_room u f h p B l Hr) as [(f1 & h1 & B1 & Hd & Hr1 & Hfit & Hst)|(Hbig & He)].
  - left. destruct Hr1 as (HB1 & Hwf & Hde & Hs).
    set (e := mkEnt KDB_ULOG_MAGIC (lg_last l + 1) tm true (blen u)).
    set (f2 := write_bytes f1 (entry_block B1 e u) (Z.to_nat (ent_at (slot entries (lg_last l + 1)) B1))).
    assert (slots f2 B1 (push l tm u)) as Hs2 by by apply push_slots.
    exists f2, (advanced h1 f2 (lg_last l + 1) tm), B1. split; [|split].
    + intros t. eapply does_bind; [apply does_ret|]. intros t0. rewrite Hsn, Htm.
      eapply does_bind; [apply does_get|]. intros t1. eapply does_bind; [apply Hd|]. intros t2.
      eapply does_bind; [apply does_get|]. intros t3. rewrite (de_block _ _ _ Hde).
      eapply does_bind; [apply does_write|]. intros t4.
      eapply does_bind; [apply (does_hdr (set_last_of _ _))|]. intros t5. apply does_advance.
      rewrite (de_num _ _ _ Hde). pose proof (wl_some _ Hwf). destruct (lg_items l); [done|]. cbn. lia.
    + split_and!; [done| |by apply describes_push|done]. by apply push_wf.
    + rewrite <- Hst. unfold advanced. by destruct (_ <? _).
  - right. split; [done|]. intros t. eapply fails_bind; [apply does_ret|]. intros t1.
    eapply fails_bind; [apply does_get|]. intros t2. apply fails_here, He.
Qed.

(** ** Starting over *)

(** A log of one dummy. *)
Definition dummy (sno : Z) (t : UlogTime) : Log := mkLog sno [(t, None)].

Lemma dummy_wf sno t : 1 <= sno < 2 ^ 32 -> wf_time t -> wf_log (dummy sno t).
Proof using Hent.
  intros Hs Ht. constructor; unfold lg_last; cbn; [done|lia..|].
  intros i t' u Hi. apply list_lookup_singleton_Some in Hi as [-> [= <- <-]]. done.
Qed.

Definition dummy_header (h : UlogHeader) (sno : Z) (t : UlogTime) : UlogHeader :=
  set_first_of 1 sno t (set_last_of sno t h).

Lemma does_set_dummy h0 sno tm f t h p :
  does (set_dummy en fault entries h0 sno tm) (mkU f t h p)
    (write_bytes f (encode_ent en (mkEnt KDB_ULOG_MAGIC sno tm false 0)) (Z.to_nat (ent_at (slot entries sno) (block h0))))
    h p (dummy_header h0 sno tm).
Proof using Hquiet.
  eapply does_bind; [apply does_write|]. intros t1. eapply does_bind; [apply does_call|]. intros t2. apply does_ret.
Qed.

Lemma dummy_ring h0 sno tm f :
  wf_header h0 -> hmagic h0 = KDB_ULOG_HDR_MAGIC -> block_ok (block h0) -> 1 <= sno < 2 ^ 32 -> wf_time tm ->
  ring (write_bytes f (encode_ent en (mkEnt KDB_ULOG_MAGIC sno tm false 0)) (Z.to_nat (ent_at (slot entries sno) (block h0))))
    (dummy_header h0 sno tm) (block h0) (dummy sno tm).
Proof using Hent.
  intros Hh Hm HB Hs Ht. split_and!; [done|by apply dummy_wf| |].
  - constructor; cbn; try done; [|unfold lg_last; cbn; lia]. unfold wf_header, is_u32 in *. cbn. intuition lia.
  - intros i t u Hi. apply list_lookup_singleton_Some in Hi as [-> [= <- <-]]. cbn [lg_first dummy]. rewrite Z.add_0_r.
    unfold holds. assert (0 <= ent_at (slot entries sno) (block h0)).
    { pose proof (slot_range sno). destruct HB. unfold ent_at, HDR_LEN, ULOG_BLOCK in *. nia. }
    set (e := mkEnt KDB_ULOG_MAGIC sno tm false 0).
    assert (forall at_, decode_ent en (read_bytes (write_bytes f (encode_ent en e) at_) 28 at_) = e) as He.
    { intros at_. rewrite <- (length_encode_ent en e), read_write_same, encode_ent_fields. apply decode_ent_fields.
      unfold wf_ent, e, is_u32, KDB_ULOG_MAGIC. cbn. split_and!; try lia; apply Ht. }
    unfold ent_of. by rewrite He.
Qed.

Lemma write_header_len f h : HDR_LEN <= blen (write_bytes f (encode_header en h) 0).
Proof using.
  unfold HDR_LEN, blen. rewrite length_write, length_encode_header; [lia|].
  intros Hz. apply (f_equal length) in Hz. rewrite length_encode_header in Hz. done.
Qed.

Lemma ring_stable f h B l :
  ring f h B l -> state h = KDB_STABLE -> stable (write_bytes f (encode_header en h) 0) l.
Proof using Hent.
  intros Hr Hst. pose proof (ring_header f h h B l Hr) as (HB & Hw & Hd & Hs).
  exists B. rewrite header_of_write by apply Hd. pose proof (write_header_len f h). by split_and!.
Qed.

Lemma stable_ring f l : stable f l -> exists B, ring f (header_of en f) B l /\ state (header_of en f) = KDB_STABLE.
Proof using. intros (B & HB & Hw & Hd & Hst & Hs & _). by exists B. Qed.

(** What [reset] leaves. *)
Lemma reset_ok f t h p :
  exists f' tm h', does (reset en clock fault entries) (mkU f t h p) f' h p h' /\ wf_time tm /\
    header_of en f' = h' /\ stable f' (dummy 1 tm).
Proof using Hquiet Hent Hmax Hclock.
  set (tm := clock t). set (h' := set_state_of KDB_STABLE (dummy_header new_header 1 tm)).
  assert (wf_header new_header) as Hnh.
  { unfold wf_header, new_header, wf_time, is_u32, is_u16, time_zero, KDB_ULOG_HDR_MAGIC, KDB_VERSION, ULOG_BLOCK. cbn. lia. }
  assert (block_ok (block new_header)) as HB by (cbn; unfold block_ok, ULOG_BLOCK in *; split; [done|lia]).
  pose proof (dummy_ring new_header 1 tm f Hnh eq_refl HB ltac:(lia) (Hclock t)) as Hr.
  apply (ring_state _ _ _ _ KDB_STABLE) in Hr; [|unfold is_u16, KDB_STABLE; lia].
  eexists _, tm, h'. split_and!; [|apply Hclock| |exact (ring_stable _ _ _ _ Hr eq_refl)].
  - unfold reset, now. eapply does_bind; [by eexists|]. intros t1. eapply does_bind; [apply does_set_dummy|]. intros t2.
    eapply does_bind; [apply does_sync_header|]. intros t3. apply does_ret.
  - apply header_of_write, Hr.
Qed.

Lemma reload_ok f t h p :
  exists f' tm, does (reload en clock fault entries) (mkU f t h p) f' (header_of en f') p tt /\ wf_time tm /\
    stable f' (dummy 1 tm).
Proof using Hquiet Hent Hmax Hclock.
  destruct (reset_ok f t h p) as (f' & tm & h' & Hd & Ht & <- & Hs). exists f', tm. split_and!; [|done..].
  eapply does_bind; [exact Hd|]. intros t1. apply does_set_hdr.
Qed.

(** ** The state mark *)

Lemma header_of_state f st :
  is_u16 st -> header_of en (write_bytes f (to_ne16 en st) (Z.to_nat STATE_AT)) = set_state_of st (header_of en f).
Proof using.
  intros Hst. change (Z.to_nat STATE_AT) with 36%nat. unfold header_of, decode_header, set_state_of, ne32, ne16.
  rewrite !read_read by lia. cbn [hmagic db_version_num num first_time last_time first_sno last_sno state block Nat.add].
  assert (forall n a, (a + n <= 36 \/ 38 <= a)%nat ->
    read_bytes (write_bytes f (to_ne16 en st) 36) n a = read_bytes f n a) as Hout.
  { intros n a Ha. apply read_write_out. rewrite length_ne16. lia. }
  f_equal; [by rewrite ?Hout by lia..| |by rewrite ?Hout by lia].
  replace 2%nat with (length (to_ne16 en st)) by apply length_ne16. rewrite read_write_same.
  unfold to_ne16. apply from_to_bytes_of. exact Hst.
Qed.

Lemma does_set_state st f t h p :
  does (set_state en fault st) (mkU f t h p) (write_bytes f (to_ne16 en st) (Z.to_nat STATE_AT)) (set_state_of st h) p tt.
Proof using Hquiet. eapply does_bind; [apply (does_hdr (set_state_of st))|]. intros t1. apply does_write. Qed.

Lemma ring_mark f h B l st : ring f h B l -> ring (write_bytes f (to_ne16 en st) (Z.to_nat STATE_AT)) h B l.
Proof using Hent. apply ring_ext. intros k Hk. apply write_out. rewrite length_ne16. change (Z.to_nat STATE_AT) with 36%nat. lia. Qed.

(** A log to be started over. *)
Definition unsettled (f : bytes) : Prop :=
  hmagic (header_of en f) = KDB_ULOG_HDR_MAGIC /\ state (header_of en f) <> KDB_STABLE /\ HDR_LEN <= blen f.

(** The log of a file, if it has one. *)
Definition rep (f : bytes) (a : option Log) : Prop := match a with Some l => stable f l | None => unsettled f end.

Lemma mark_unsettled f l : stable f l -> unsettled (write_bytes f (to_ne16 en KDB_UNSTABLE) (Z.to_nat STATE_AT)).
Proof using.
  intros (B & _ & _ & Hd & _ & _ & Hl). unfold unsettled. rewrite header_of_state by (unfold is_u16, KDB_UNSTABLE; lia).
  split_and!; [apply Hd|done|]. unfold HDR_LEN, blen in *. rewrite length_write; [lia|].
  intros Hz. apply (f_equal length) in Hz. by rewrite length_ne16 in Hz.
Qed.

(** The file with its header written as stable. *)
Definition settled (f : bytes) (h : UlogHeader) : bytes := write_bytes f (encode_header en (set_state_of KDB_STABLE h)) 0.

Lemma does_settle f t h p : does (settle en fault) (mkU f t h p) (settled f h) (set_state_of KDB_STABLE h) p tt.
Proof using Hquiet.
  eapply does_bind; [apply does_call|]. intros t1.
  eapply does_bind; [apply (does_hdr (set_state_of KDB_STABLE))|]. intros t2. eapply does_bind; [apply does_get|]. intros t3.
  apply does_sync_header.
Qed.

Lemma settled_stable f h B l : ring f h B l -> stable (settled f h) l.
Proof using Hent.
  intros Hr. apply (ring_state _ _ _ _ KDB_STABLE) in Hr; [|unfold is_u16, KDB_STABLE; lia].
  exact (ring_stable _ _ _ _ Hr eq_refl).
Qed.

(** ** Operations of the log *)

(** The log an operation starts from: the one there is, or a new one. *)
Definition base (c : Log -> bool) (a : option Log) (tm : UlogTime) : Log :=
  match a with Some l => if c l then dummy 1 tm else l | None => dummy 1 tm end.

(** [c] holds of the headers of the logs that [c'] picks, and of those to be started over. *)
Definition picks (c : UlogHeader -> bool) (c' : Log -> bool) : Prop :=
  forall h, (forall B l, describes h B l -> wf_log l -> state h = KDB_STABLE -> c h = c' l) /\
    (state h <> KDB_STABLE -> c h = true).

Lemma picks_or (c : UlogHeader -> bool) (c' : Log -> bool) :
  (forall h B l, describes h B l -> wf_log l -> c h = c' l) -> picks (fun h => unstable h || c h) c'.
Proof using.
  intros Hc h. unfold unstable. split.
  - intros B l Hd Hw ->. exact (Hc _ _ _ Hd Hw).
  - intros Hst. by rewrite (proj2 (Z.eqb_neq _ _) Hst).
Qed.

Definition never (_ : Log) : bool := false.

Lemma picks_never : picks unstable never.
Proof using.
  intros h. unfold unstable. split; [by intros B l _ _ ->|]. intros Hst. by rewrite (proj2 (Z.eqb_neq _ _) Hst).
Qed.

Lemma base_ok c c' f t h p a :
  picks c c' -> rep f a ->
  exists f' tm, does (do! load_header en fault; when c (reload en clock fault entries))
    (mkU f t h p) f' (header_of en f') p tt /\ wf_time tm /\ stable f' (base c' a tm).
Proof using Hquiet Hent Hmax Hclock.
  intros Hc Hr. assert (exists t1, load_header en fault (mkU f t h p) = (mkU f t1 (header_of en f) p, Ok tt)) as [t1 E]
    by apply does_load_header.
  unfold does. rewrite (bind_ok _ _ _ _ _ E). unfold when.
  rewrite (bind_ok _ _ _ (mkU f t1 (header_of en f) p) (header_of en f)) by done.
  destruct (Hc (header_of en f)) as [Hc1 Hc2]. destruct a as [l|]; cbn [rep] in Hr.
  - destruct (stable_ring f l Hr) as (B & (_ & Hw & Hd & _) & Hst). rewrite (Hc1 _ _ Hd Hw Hst). cbn [base].
    destruct (c' l); [exact (reload_ok f t1 _ p)|]. exists f, (clock 0). split_and!; [by exists t1|apply Hclock|done].
  - destruct Hr as (_ & Hst & _). rewrite (Hc2 Hst). exact (reload_ok f t1 _ p).
Qed.

Lemma store_update_ok u f p l tm :
  stable f l -> lg_last l + 1 < 2 ^ 32 -> wf_time tm -> update_for u (lg_last l + 1) tm -> blen u <= U32_MAX ->
  exists f' h',
  ((forall t, does (store_update en fault entries u) (mkU f t (header_of en f) p) f' h' p tt) /\ stable f' (push l tm u)) \/
  (too_big u = true /\
   (forall t, fails (store_update en fault entries u) (mkU f t (header_of en f) p) f' h' p UError) /\ unsettled f').
Proof using Hquiet Hent.
  intros Hs H32 Ht Hu Hl. destruct (stable_ring f l Hs) as (B & Hr & _).
  apply (ring_mark _ _ _ _ KDB_UNSTABLE), (ring_state _ _ _ _ KDB_UNSTABLE) in Hr; [|unfold is_u16, KDB_UNSTABLE; lia].
  destruct (put_entry_ok u _ _ p _ _ tm Hr H32 Ht Hu Hl) as [(f1 & h1 & B1 & Hd & Hr1 & _)|(Hbig & Hf)].
  - exists (settled f1 h1), (set_state_of KDB_STABLE h1). left. split; [|by apply (settled_stable f1 h1 B1)].
    intros t. eapply does_bind; [apply does_set_state|]. intros t1. eapply does_bind; [apply Hd|]. intros t2.
    apply does_settle.
  - eexists _, _. right. split_and!; [done| |by eapply mark_unsettled].
    intros t. eapply fails_bind; [apply does_set_state|]. intros t1. apply fails_here, Hf.
Qed.

(** A change that can be logged, whatever its serial and time. *)
Definition carried (nm : bytes) (deleted : bool) (kdbe : bytes) : Prop :=
  forall sno tm, is_u32 sno -> wf_time tm ->
  update_for (encode_incr_update nm sno tm kdbe deleted false) sno tm /\
  blen (encode_incr_update nm sno tm kdbe deleted false) <= U32_MAX.

Definition full (l : Log) : bool := lg_last l =? U32_MAX.

Lemma stable_wf f l : stable f l -> wf_log l.
Proof using. by intros (B & _ & Hw & _). Qed.

Lemma last_range l : wf_log l -> 1 <= lg_last l < 2 ^ 32.
Proof using.
  intros Hw. pose proof (wl_some _ Hw). pose proof (wl_first _ Hw). pose proof (wl_last _ Hw). split; [|done].
  unfold lg_last. destruct (lg_items l); [done|]. cbn [length]. lia.
Qed.

Lemma base_full a tm f : stable f (base full a tm) -> lg_last (base full a tm) + 1 < 2 ^ 32.
Proof using.
  intros Hs. pose proof (last_range _ (stable_wf _ _ Hs)) as Hr. destruct a as [l|]; cbn [base] in *; [|reflexivity].
  destruct (full l) eqn:Ef; [reflexivity|]. unfold full, U32_MAX in Ef. apply Z.eqb_neq in Ef. lia.
Qed.

Lemma next_update_ok nm deleted kdbe f t h p B l :
  describes h B l -> lg_last l + 1 < 2 ^ 32 -> 1 <= lg_last l ->
  exists tm, wf_time tm /\
    does (next_update clock nm deleted kdbe) (mkU f t h p) f h p
      (mkLast (lg_last l + 1) tm, encode_incr_update nm (lg_last l + 1) tm kdbe deleted false).
Proof using Hclock.
  intros Hd H32 H1. exists (clock t). split; [apply Hclock|]. exists (S t). unfold next_update, bind, reading, now. cbn [u_hdr u_tick].
  rewrite (de_last _ _ _ Hd), Z.mod_small by lia. reflexivity.
Qed.

(** What adding [u] under [tm] comes to. *)
Definition logged {A} (l : Log) (tm : UlogTime) (u : bytes) (v : A) (r : result UlogError A) (a : option Log) : Prop :=
  (r = Ok v /\ a = Some (push l tm u)) \/ (too_big u = true /\ r = Err UError /\ a = None).

Lemma store_logged {A} (v : A) u f t p l tm :
  stable f l -> lg_last l + 1 < 2 ^ 32 -> wf_time tm -> update_for u (lg_last l + 1) tm -> blen u <= U32_MAX ->
  exists f' t' h' r a,
    (do! store_update en fault entries u; ret v) (mkU f t (header_of en f) p) = (mkU f' t' h' p, r) /\
    rep f' a /\ logged l tm u v r a.
Proof using Hquiet Hent.
  intros Hs H32 Ht Hu Hl. destruct (store_update_ok u f p l tm Hs H32 Ht Hu Hl) as (f' & h' & [[Hd Hs']|(Hbig & Hf & Hun)]).
  - destruct (Hd t) as [t' E]. exists f', t', h', (Ok v), (Some (push l tm u)). split_and!; [|done|by left].
    by rewrite (bind_ok _ _ _ _ _ E).
  - destruct (Hf t) as [t' E]. exists f', t', h', (Err UError), None. split_and!; [|done|by right].
    by rewrite (bind_err _ _ _ _ _ E).
Qed.

Lemma describes_stable f l : stable f l -> exists B, describes (header_of en f) B l.
Proof using. intros (B & _ & _ & Hd & _). by exists B. Qed.

(** The update [sno] does not follow the log. *)
Definition elsewhere (sno : Z) (l : Log) : bool := negb (sno =? (lg_last l + 1) mod 2 ^ 32).

(** What a note does to a log, or to a file without one. *)
Definition noted (n : Ready) (a : option Log) (r : result UlogError UlogLast) (a' : option Log) : Prop :=
  exists tm0 tm, wf_time tm0 /\ wf_time tm /\
  match n with
  | ReadyPut nm deleted kdbe =>
      let l := base full a tm0 in let sno := lg_last l + 1 in
      logged l tm (encode_incr_update nm sno tm kdbe deleted false) (mkLast sno tm) r a'
  | ReadyReset => r = Ok (mkLast 1 tm) /\ a' = Some (dummy 1 tm)
  | ReadyReplay u =>
      exists sno, update_for u sno tm /\
      let l := base (elsewhere sno) a tm0 in sno = lg_last l + 1 /\ logged l tm u (mkLast sno tm) r a'
  end.

Definition serial (a : option Log) : Z := match a with Some l => lg_last l | None => 1 end.

(** A note that can be taken after the serial [s]: an update is replayed only in
    its turn, or as the first of a new log. *)
Definition takes (n : Ready) (s : Z) : Prop :=
  match n with
  | ReadyPut nm deleted kdbe => carried nm deleted kdbe
  | ReadyReset => True
  | ReadyReplay u =>
      blen u <= U32_MAX /\
      exists sno tm, update_for u sno tm /\ wf_time tm /\ sno < 2 ^ 32 /\ (sno = s + 1 \/ sno = 2)
  end.

Lemma elsewhere_turn sno a tm :
  (forall l, a = Some l -> wf_log l) -> sno < 2 ^ 32 -> (sno = serial a + 1 \/ sno = 2) ->
  lg_last (base (elsewhere sno) a tm) + 1 = sno.
Proof using.
  intros Hw Hs Ht. destruct a as [l|]; cbn [base serial] in *; [|change (lg_last (dummy 1 tm)) with 1; lia].
  pose proof (last_range _ (Hw l eq_refl)) as Hr. unfold elsewhere.
  destruct (Z.eqb_spec sno ((lg_last l + 1) mod 2 ^ 32)) as [E|E]; cbn [negb].
  - destruct (decide (lg_last l + 1 = 2 ^ 32)) as [E2|]; [rewrite E2, Z.mod_same in E by lia; lia|].
    rewrite Z.mod_small in E by lia. lia.
  - destruct Ht as [->| ->]; [|done]. rewrite Z.mod_small in E by lia. lia.
Qed.

Lemma rep_wf f a : rep f a -> forall l, a = Some l -> wf_log l.
Proof using. intros Hr l ->. exact (stable_wf _ _ Hr). Qed.

Lemma picks_full : picks (fun h => unstable h || (last_sno h =? U32_MAX)) full.
Proof using. apply picks_or. intros h B l Hd _. by rewrite (de_last _ _ _ Hd). Qed.

Lemma turn_elsewhere sno h B l : describes h B l -> wf_log l -> out_of_turn sno h = elsewhere sno l.
Proof using.
  intros Hd Hw. unfold out_of_turn. rewrite (de_last _ _ _ Hd), (de_num _ _ _ Hd).
  pose proof (wl_some _ Hw). by destruct (lg_items l).
Qed.

Lemma picks_elsewhere sno : picks (fun h => unstable h || out_of_turn sno h) (elsewhere sno).
Proof using. apply picks_or, turn_elsewhere. Qed.

Lemma add_update_ok nm deleted kdbe f t h p a :
  rep f a -> carried nm deleted kdbe ->
  exists f' t' h' r a',
    add_update en clock fault entries nm deleted kdbe (mkU f t h p) = (mkU f' t' h' p, r) /\ rep f' a' /\
    noted (ReadyPut nm deleted kdbe) a r a'.
Proof using Hquiet Hent Hmax Hclock.
  intros Hr Hc. destruct (does_call f t h p) as [t0 E0].
  unfold add_update, lock. rewrite (bind_ok _ _ _ _ _ E0).
  destruct (base_ok _ _ f t0 h p a picks_full Hr) as (f1 & tm0 & [t1 E1] & Ht0 & Hs).
  set (l := base full a tm0) in *. pose proof (base_full _ _ _ Hs) as H32. fold l in H32.
  pose proof (last_range _ (stable_wf _ _ Hs)) as Hlr. destruct (describes_stable _ _ Hs) as [B Hd].
  destruct (next_update_ok nm deleted kdbe f1 t1 _ p B l Hd H32 ltac:(lia)) as (tm & Ht & t2 & E2).
  destruct (Hc (lg_last l + 1) tm ltac:(unfold is_u32; lia) Ht) as [Hu Hl].
  destruct (store_logged (mkLast (lg_last l + 1) tm) _ f1 t2 p l tm Hs H32 Ht Hu Hl) as (f' & t' & h' & r & a' & E & Hr' & Hlog).
  exists f', t', h', r, a'. split_and!; [|done|by exists tm0, tm]. rewrite <- E.
  rewrite (bind_ok2 _ _ _ _ _ _ E1). rewrite (bind_ok _ _ _ _ _ E2). reflexivity.
Qed.

Definition unit_of {A} (r : result UlogError A) : result UlogError unit := match r with Ok _ => Ok tt | Err e => Err e end.

Lemma drop_value {A} (m : U A) s s' r : m s = (s', r) -> (do! m; ret tt) s = (s', unit_of r).
Proof using. unfold bind. intros ->. by destruct r. Qed.

Lemma keep_value {A} (m : U unit) (v : A) s s' r : (do! m; ret v) s = (s', r) -> m s = (s', unit_of r).
Proof using. unfold bind. destruct (m s) as [s1 [[]|e]]; by intros [= -> <-]. Qed.

Lemma replay_update_ok u f t h p a :
  rep f a -> takes (ReadyReplay u) (serial a) ->
  exists f' t' h' r a',
    replay_update en clock fault entries u (mkU f t h p) = (mkU f' t' h' p, unit_of r) /\ rep f' a' /\
    noted (ReadyReplay u) a r a'.
Proof using Hquiet Hent Hmax Hclock.
  intros Hr (Hl & sno & tm & (w & Hw & Hsn & Htm) & Ht & H32 & Hturn). unfold replay_update, lock. rewrite Hw.
  rewrite (bind_ok _ _ _ (mkU f t h p) w) by done. destruct (does_call f t h p) as [t0 E0].
  rewrite (bind_ok _ _ _ _ _ E0), Hsn.
  destruct (base_ok _ _ f t0 h p a (picks_elsewhere sno) Hr) as (f1 & tm0 & [t1 E1] & Ht0 & Hs).
  pose proof (elsewhere_turn sno a tm0 (rep_wf _ _ Hr) H32 Hturn) as Et. set (l := base _ _ _) in *.
  assert (update_for u sno tm) as Hu by by exists w. rewrite <- Et in Hu, H32.
  destruct (store_logged (mkLast sno tm) u f1 t1 p l tm Hs H32 Ht Hu Hl) as (f' & t' & h' & r & a' & E & Hr' & Hlog).
  exists f', t', h', r, a'. split_and!; [|done|exists tm0, tm; split_and!; [done..|exists sno; rewrite Et in Hu; by split_and!]].
  rewrite (bind_ok2 _ _ _ _ _ _ E1). by apply keep_value in E.
Qed.

Lemma init_header_ok f t h p :
  exists f' t' r a, init_header en clock fault entries (mkU f t h p) = (mkU f' t' h p, unit_of r) /\ rep f' a /\
    forall b, noted ReadyReset b r a.
Proof using Hquiet Hent Hmax Hclock.
  destruct (does_call f t h p) as [t0 E0]. destruct (reset_ok f t0 h p) as (f' & tm & h' & [t1 E1] & Ht & _ & Hs).
  exists f', t1, (Ok (mkLast 1 tm)), (Some (dummy 1 tm)). split_and!; [|done|by exists tm, tm].
  unfold init_header, lock. by rewrite (bind_ok _ _ _ _ _ E0), (bind_ok _ _ _ _ _ E1).
Qed.

(** ** Batches *)

Definition working (f : bytes) (h : UlogHeader) (l : Log) : Prop := exists B, ring f h B l.

Lemma working_wf f h l : working f h l -> wf_log l.
Proof using. by intros (B & _ & Hw & _). Qed.

Lemma mark_working f h l st : is_u16 st -> working f h l ->
  working (write_bytes f (to_ne16 en st) (Z.to_nat STATE_AT)) (set_state_of st h) l.
Proof using Hent. intros Hst [B Hr]. exists B. by apply ring_mark, ring_state. Qed.

Lemma restart_ok f t h p :
  exists f' h' tm, does (restart en clock fault entries) (mkU f t h p) f' h' p tt /\ wf_time tm /\
    working f' h' (dummy 1 tm).
Proof using Hquiet Hent Hmax Hclock.
  destruct (reload_ok f t h p) as (f' & tm & Hd & Ht & Hs). destruct (stable_ring _ _ Hs) as (B & Hr & _).
  eexists _, _, tm. split_and!; [|done|].
  - eapply does_bind; [exact Hd|]. intros t1. apply does_set_state.
  - apply mark_working; [unfold is_u16, KDB_UNSTABLE; lia|by exists B].
Qed.

Lemma batch_base (c : UlogHeader -> bool) (c' : Log -> bool) f t h p l :
  (forall h B l, describes h B l -> wf_log l -> c h = c' l) -> working f h l ->
  exists f' h' tm, does (when c (restart en clock fault entries)) (mkU f t h p) f' h' p tt /\ wf_time tm /\
    working f' h' (base c' (Some l) tm).
Proof using Hquiet Hent Hmax Hclock.
  intros Hc (B & Hr). unfold does, when. rewrite (bind_ok _ _ _ (mkU f t h p) h) by done.
  pose proof Hr as (_ & Hw & Hd & _). rewrite (Hc _ _ _ Hd Hw). cbn [base].
  destruct (c' l); [exact (restart_ok f t h p)|]. exists f, h, (clock 0). split_and!; [by exists t|apply Hclock|by exists B].
Qed.

Lemma put_logged {A} (v : A) u f t h p l tm :
  working f h l -> lg_last l + 1 < 2 ^ 32 -> wf_time tm -> update_for u (lg_last l + 1) tm -> blen u <= U32_MAX ->
  exists f' t' h' r a,
    (do! put_entry en fault entries u; ret v) (mkU f t h p) = (mkU f' t' h' p, r) /\
    (forall l', a = Some l' -> working f' h' l') /\ logged l tm u v r a.
Proof using Hquiet Hent.
  intros (B & Hr) H32 Ht Hu Hl. destruct (put_entry_ok u f h p B l tm Hr H32 Ht Hu Hl) as [(f' & h' & B' & Hd & Hr' & _)|(Hbig & Hf)].
  - destruct (Hd t) as [t' E]. exists f', t', h', (Ok v), (Some (push l tm u)). split_and!; [| |by left].
    + by rewrite (bind_ok _ _ _ _ _ E).
    + intros l' [= <-]. by exists B'.
  - destruct (Hf t) as [t' E]. exists f, t', h, (Err UError), None. split_and!; [|done|by right].
    by rewrite (bind_err _ _ _ _ _ E).
Qed.

Lemma base_full_lt l tm : wf_log l -> lg_last (base full (Some l) tm) + 1 < 2 ^ 32.
Proof using.
  intros Hw. pose proof (last_range _ Hw). cbn [base]. destruct (full l) eqn:Ef; [reflexivity|].
  unfold full, U32_MAX in Ef. apply Z.eqb_neq in Ef. lia.
Qed.

Lemma stage_note_ok n f t h p l :
  working f h l -> takes n (lg_last l) ->
  exists f' t' h' r a,
    stage_note en clock fault entries n (mkU f t h p) = (mkU f' t' h' true, unit_of r) /\
    (forall l', a = Some l' -> working f' h' l') /\ noted n (Some l) r a.
Proof using Hquiet Hent Hmax Hclock.
  intros Hw Hn. destruct n as [nm deleted kdbe| |u]; cbn [takes stage_note] in *.
  - destruct (batch_base (fun h => last_sno h =? U32_MAX) full f t h true l) as (f1 & h1 & tm0 & [t1 E1] & Ht0 & Hw1); [|done|].
    { intros h0 B l0 Hd _. by rewrite (de_last _ _ _ Hd). }
    pose proof (base_full_lt l tm0 (working_wf _ _ _ Hw)) as H32. set (l1 := base _ _ _) in *.
    pose proof (last_range _ (working_wf _ _ _ Hw1)) as Hlr. pose proof Hw1 as (B & _ & _ & Hd & _).
    destruct (next_update_ok nm deleted kdbe f1 t1 h1 true B l1 Hd H32 ltac:(lia)) as (tm & Ht & t2 & E2).
    destruct (Hn (lg_last l1 + 1) tm ltac:(unfold is_u32; lia) Ht) as [Hu Hl].
    destruct (put_logged (mkLast (lg_last l1 + 1) tm) _ f1 t2 h1 true l1 tm Hw1 H32 Ht Hu Hl) as (f' & t' & h' & r & a & E & Hr & Hlog).
    exists f', t', h', r, a. split_and!; [|done|by exists tm0, tm].
    apply drop_value. rewrite <- E. unfold batch_add_update.
    rewrite (bind_ok _ _ (mkU f t h p) (mkU f t h true) tt) by done. by rewrite (bind_ok _ _ _ _ _ E1), (bind_ok _ _ _ _ _ E2).
  - destruct (restart_ok f t h true) as (f' & h' & tm & [t' E] & Ht & Hw').
    exists f', t', h', (Ok (mkLast 1 tm)), (Some (dummy 1 tm)). split_and!; [exact E|by intros l' [= <-]|by exists tm, tm].
  - destruct Hn as (Hl & sno & tm & (w & Hwk & Hsn & Htm) & Ht & H32 & Hturn).
    destruct (batch_base (out_of_turn sno) (elsewhere sno) f t h true l) as (f1 & h1 & tm0 & [t1 E1] & Ht0 & Hw1); [|done|].
    { apply turn_elsewhere. }
    assert (lg_last (base (elsewhere sno) (Some l) tm0) + 1 = sno) as Et.
    { apply elsewhere_turn; [|done..]. intros l0 [= <-]. by apply (working_wf f h). }
    assert (update_for u sno tm) as Hu by by exists w. pose proof Hu as Hu'. rewrite <- Et in Hu', H32.
    destruct (put_logged (mkLast sno tm) u f1 t1 h1 true _ tm Hw1 H32 Ht Hu' Hl) as (f' & t' & h' & r & a & E & Hr & Hlog).
    exists f', t', h', r, a. split_and!; [|done|exists tm0, tm; split_and!; [done..|by exists sno]].
    unfold batch_replay_update. rewrite Hwk, (bind_ok _ _ (mkU f t h p) (mkU f t h p) w) by done.
    rewrite Hsn, (bind_ok _ _ (mkU f t h p) (mkU f t h true) tt), (bind_ok _ _ _ _ _ E1) by done. by apply keep_value in E.
Qed.

(** The serial after a note. *)
Definition next_serial (n : Ready) (s : Z) : Z :=
  match n with
  | ReadyPut _ _ _ => if s =? U32_MAX then 2 else s + 1
  | ReadyReset => 1
  | ReadyReplay u => match walk_incr_update u with Ok w => l_sno w | Err _ => s end
  end.

Fixpoint takes_all (ready : list Ready) (s : Z) : Prop :=
  match ready with
  | [] => True
  | n :: ready => takes n s /\ takes_all ready (next_serial n s)
  end.

(** What the notes of a batch do to a log. *)
Fixpoint taken (ready : list Ready) (l : Log) (r : result UlogError unit) (a : option Log) : Prop :=
  match ready with
  | [] => r = Ok tt /\ a = Some l
  | n :: ready =>
      exists r1 a1, noted n (Some l) r1 a1 /\
      match a1 with Some l1 => taken ready l1 r a | None => r = unit_of r1 /\ a = None end
  end.

Lemma noted_serial n l r l' :
  wf_log l -> noted n (Some l) r (Some l') -> is_ok r = true /\ lg_last l' = next_serial n (lg_last l).
Proof using.
  intros Hw (tm0 & tm & _ & _ & Hn). destruct n as [nm deleted kdbe| |u]; cbn [next_serial].
  - destruct Hn as [[-> [= ->]]|(_ & _ & [=])]. split; [done|]. cbn [base]. destruct (full l) eqn:E; unfold full in E; rewrite E.
    + by rewrite push_last.
    + by rewrite push_last by apply Hw.
  - destruct Hn as [-> [= ->]]. done.
  - destruct Hn as (sno & (w & -> & Hsn & _) & Es & [[-> [= ->]]|(_ & _ & [=])]). split; [done|]. rewrite Hsn.
    rewrite push_last; [done|]. cbn [base]. destruct (elsewhere sno l); [done|apply Hw].
Qed.

Lemma noted_none n l r : noted n (Some l) r None -> r = Err UError.
Proof using.
  intros (tm0 & tm & _ & _ & Hn). destruct n; cbn in Hn.
  - by destruct Hn as [[_ [=]]|(_ & -> & _)].
  - by destruct Hn as [_ [=]].
  - by destruct Hn as (sno & _ & _ & [[_ [=]]|(_ & -> & _)]).
Qed.

Lemma each_notes_ok ready f t h p l :
  working f h l -> takes_all ready (lg_last l) ->
  exists f' t' h' r a,
    each (stage_note en clock fault entries) ready (mkU f t h p) =
      (mkU f' t' h' (match ready with [] => p | _ => true end), r) /\
    (forall l', a = Some l' -> r = Ok tt /\ working f' h' l') /\ (a = None -> r = Err UError) /\ taken ready l r a.
Proof using Hquiet Hent Hmax Hclock.
  revert f t h p l. induction ready as [|n ready IH]; intros f t h p l Hw Ht; cbn [each taken].
  - exists f, t, h, (Ok tt), (Some l). split_and!; [done|by intros l' [= <-]|done..].
  - destruct Ht as [Hn Ht]. destruct (stage_note_ok n f t h p l Hw Hn) as (f1 & t1 & h1 & r1 & a1 & E1 & Hw1 & Hno).
    destruct a1 as [l1|].
    + destruct (noted_serial _ _ _ _ (working_wf _ _ _ Hw) Hno) as [Hok Hse]. destruct r1 as [v|]; [|done]. cbn [unit_of] in E1.
      rewrite <- Hse in Ht. destruct (IH f1 t1 h1 true l1 (Hw1 l1 eq_refl) Ht) as (f' & t' & h' & r & a & E & Hl & Hn' & Htk).
      exists f', t', h', r, a. split_and!; [|done|done|by exists (Ok v), (Some l1)].
      rewrite (bind_ok _ _ _ _ _ E1). rewrite E. by destruct ready.
    + pose proof (noted_none _ _ _ Hno) as ->. exists f1, t1, h1, (Err UError), None.
      split_and!; [|done|done|by exists (Err UError), None]. exact (bind_err _ _ _ _ _ E1).
Qed.

Lemma stage_notes_ok ready f t h p l :
  working f h l -> takes_all ready (lg_last l) -> ready <> [] ->
  exists f' t' h' r a, stage_notes en clock fault entries ready (mkU f t h p) = (mkU f' t' h' true, r) /\
    (forall l', a = Some l' -> r = Ok tt /\ working f' h' l') /\ (a = None -> r = Err UError) /\ taken ready l r a.
Proof using Hquiet Hent Hmax Hclock.
  intros Hw Ht Hne. destruct (each_notes_ok ready f t h p l Hw Ht) as (f1 & t1 & h1 & r & a & E & Hl & Hn & Htk).
  destruct ready as [|n ready]; [done|]. destruct a as [l'|].
  - destruct (Hl l' eq_refl) as [-> [B Hr]]. destruct (does_write (encode_header en h1) 0 f1 t1 h1 true) as [t2 E2].
    eexists _, t2, h1, (Ok tt), (Some l'). split_and!; [| |done|done].
    + unfold stage_notes. rewrite (bind_ok _ _ _ _ _ E). exact E2.
    + intros l0 [= <-]. split; [done|]. exists B. by apply ring_header.
  - pose proof (Hn eq_refl) as ->. exists f1, t1, h1, (Err UError), None. split_and!; [exact (bind_err _ _ _ _ _ E)|done..].
Qed.

Lemma begin_ok f t h p a :
  rep f a -> exists f' h' tm, does (begin en clock fault entries) (mkU f t h p) f' h' false tt /\ wf_time tm /\
    working f' h' (base never a tm).
Proof using Hquiet Hent Hmax Hclock.
  intros Hr. destruct (does_call f t h p) as [t0 E0].
  destruct (base_ok _ _ f t0 h p a picks_never Hr) as (f1 & tm & [t1 E1] & Ht & Hs).
  destruct (stable_ring _ _ Hs) as (B & Hri & _). destruct (does_set_state KDB_UNSTABLE f1 t1 (header_of en f1) p) as [t2 E2].
  eexists _, _, tm. split_and!; [exists t2|done|].
  - unfold begin, lock. rewrite (bind_ok _ _ _ _ _ E0), (bind_ok2 _ _ _ _ _ _ E1), (bind_ok _ _ _ _ _ E2). reflexivity.
  - apply mark_working; [unfold is_u16, KDB_UNSTABLE; lia|by exists B].
Qed.

(** What a logged write of the database does: nothing without notes; otherwise the
    log has the notes if the write was made, and is started over if not. *)
Definition written {E} (logs : bool) (ready : list Ready) (write : result E unit) (a : option Log)
    (r : result (LoggedWrite E) unit) (a' : option Log) : Prop :=
  if logs && negb (bool_decide (ready = [])) then
    exists tm0 tm r1 a1, wf_time tm0 /\ wf_time tm /\ taken ready (base never a tm0) r1 a1 /\
    match a1, write with
    | None, _ => r = Err (Before UError) /\ a' = Some (dummy 1 tm)
    | Some l, Ok _ => r = Ok tt /\ a' = Some l
    | Some l, Err e => r = Err (WriteErr e) /\ a' = Some (dummy 1 tm)
    end
  else a' = a /\ r = match write with Ok _ => Ok tt | Err e => Err (WriteErr e) end.

Lemma base_never_serial a tm : lg_last (base never a tm) = serial a.
Proof using. by destruct a. Qed.

Lemma abandon_ok f t h : exists f' t' tm, abandon en clock fault entries (mkU f t h true) = (mkU f' t' h true, Ok tt) /\
  wf_time tm /\ stable f' (dummy 1 tm).
Proof using Hquiet Hent Hmax Hclock.
  destruct (reset_ok f t h true) as (f' & tm & h' & [t' E] & Ht & _ & Hs). exists f', t', tm. split_and!; [|done..].
  unfold abandon. rewrite (bind_ok _ _ (mkU f t h true) (mkU f t h true) true) by done. by rewrite (bind_ok _ _ _ _ _ E).
Qed.

Lemma write_failed_ok {E} ready f t h p tm0 :
  wf_time tm0 -> stable f (dummy 1 tm0) -> exists f' t' tm,
  write_failed en clock fault entries true ready (mkU f t h p) = (mkU f' t' h p, @Ok (LoggedWrite E) unit tt) /\
  wf_time tm /\ stable f' (dummy 1 tm).
Proof using Hquiet Hent Hmax Hclock.
  intros Ht Hs. unfold write_failed. destruct (existsb is_replay ready); cbn [andb]; [|by exists f, t, tm0].
  destruct (init_header_ok f t h p) as (f' & t' & r & a & Ei & Hr & Hn). unfold ignore. rewrite Ei.
  destruct (Hn None) as (_ & tm & _ & Ht' & _ & ->). by exists f', t', tm.
Qed.

Lemma write_logged_ok {E} logs ready (write : result E unit) f t h p a :
  rep f a -> takes_all ready (serial a) ->
  exists f' t' h' p' r a',
    write_logged en clock fault entries logs ready write (mkU f t h p) = (mkU f' t' h' p', r) /\ rep f' a' /\
    written logs ready write a r a'.
Proof using Hquiet Hent Hmax Hclock.
  intros Hr Ht. unfold written. destruct (logs && negb (bool_decide (ready = []))) eqn:Eb.
  2:{ eexists f, t, h, p, _, a. split_and!; [|done..]. unfold write_logged, write_staged, bind, ret. rewrite Eb.
      destruct write as [[]|e]; [done|]. unfold write_failed.
      assert (existsb is_replay ready && logs = false) as ->; [|done].
      destruct logs; [|apply andb_false_r]. apply negb_false_iff, bool_decide_eq_true in Eb. by rewrite Eb. }
  pose proof Eb as Eb'. apply andb_true_iff in Eb' as [-> Hne]. apply negb_true_iff, bool_decide_eq_false in Hne.
  destruct (begin_ok f t h p a Hr) as (f1 & h1 & tm0 & [t1 E1] & Ht0 & Hw1). rewrite <- (base_never_serial a tm0) in Ht.
  destruct (stage_notes_ok ready f1 t1 h1 false _ Hw1 Ht Hne) as (f2 & t2 & h2 & r1 & a1 & E2 & Hl & Hn & Htk).
  destruct (abandon_ok f2 t2 h2) as (f3 & t3 & tm3 & E3 & Ht3 & Hs3).
  unfold write_logged, write_staged. rewrite Eb. unfold bind, map_err, ignore, ret, lift. rewrite E1, E2.
  destruct a1 as [l|].
  - destruct (Hl l eq_refl) as [-> [B Hri]]. destruct write as [[]|e].
    + destruct (does_settle f2 t2 h2 true) as [t4 E4]. unfold finish_staged, finish. rewrite E4.
      eexists _, _, _, _, _, (Some l). split_and!; [done|by apply (settled_stable f2 h2 B)|].
      by exists tm0, tm0, (Ok tt), (Some l).
    + rewrite E3. cbn [fst]. destruct (@write_failed_ok E ready f3 t3 h2 true tm3 Ht3 Hs3) as (f4 & t4 & tm4 & -> & Ht4 & Hs4).
      eexists _, _, _, _, _, (Some (dummy 1 tm4)). split_and!; [done..|]. by exists tm0, tm4, (Ok tt), (Some l).
  - pose proof (Hn eq_refl) as ->. rewrite E3. cbn [fst].
    eexists _, _, _, _, _, (Some (dummy 1 tm3)). split_and!; [done..|]. by exists tm0, tm3, (Err UError), None.
Qed.

(** ** Reading the log *)

(** The last serial and time. *)
Definition lg_end (l : Log) : UlogLast :=
  mkLast (lg_last l) (match list.last (lg_items l) with Some (t, _) => t | None => time_zero end).

Definition status (l : Log) (last : UlogLast) : Z :=
  if bool_decide (last = lg_end l) then IPROP_NIL
  else if (la_sno last <? lg_first l) || (lg_last l <? la_sno last) then IPROP_FULL_RESYNC
  else
    match lg_items l !! Z.to_nat (la_sno last - lg_first l) with
    | Some (t, _) => if bool_decide (t = la_time last) then IPROP_OK else IPROP_FULL_RESYNC
    | None => IPROP_FULL_RESYNC
    end.

(** The update with its commit mark set. *)
Definition committed (u : bytes) : bytes :=
  match walk_incr_update u with Ok w => splice u (Z.to_nat (l_commit_at w)) (out_u32 1) | Err _ => u end.

Definition updates_after (l : Log) (sno : Z) : list bytes :=
  map (fun it => committed (default [] (snd it))) (drop (Z.to_nat (sno + 1 - lg_first l)) (lg_items l)).

(** What a replica is told that has the log up to [last]. *)
Definition answer (l : Log) (last : UlogLast) : UlogUpdates :=
  if status l last =? IPROP_OK then mkUpdates IPROP_OK (lg_end l) (updates_after l (la_sno last))
  else no_updates (status l last).

Lemma describes_end h B l : describes h B l -> wf_log l -> lg_end l = mkLast (last_sno h) (last_time h).
Proof using.
  intros Hd Hw. unfold lg_end. rewrite (de_last _ _ _ Hd). pose proof (de_ltime _ _ _ Hd) as Hl.
  destruct (list.last (lg_items l)) as [[t u]|]; [|done]. cbn in Hl. by injection Hl as <-.
Qed.

Lemma does_sno_status f t h h' p B l last :
  ring f h B l -> does (sno_status en fault entries h last) (mkU f t h' p) f h' p (status l last).
Proof using Hquiet Hent.
  intros (HB & Hw & Hd & Hs). unfold sno_status, status. rewrite (describes_end _ _ _ Hd Hw).
  destruct last as [sno tm]. cbn [la_sno la_time].
  assert (bool_decide (mkLast sno tm = mkLast (last_sno h) (last_time h)) = (sno =? last_sno h) && bool_decide (tm = last_time h)) as ->.
  { destruct (Z.eqb_spec sno (last_sno h)) as [->|]; cbn [andb].
    - apply bool_decide_ext. split; [by intros [= ->]|by intros ->].
    - apply bool_decide_eq_false_2. congruence. }
  destruct (_ && _); [apply does_ret|]. rewrite (de_num _ _ _ Hd), (de_last _ _ _ Hd), (de_first _ _ _ Hd).
  assert ((Z.of_nat (length (lg_items l)) =? 0) = false) as ->.
  { pose proof (wl_some _ Hw). by destruct (lg_items l). }
  cbn [orb]. rewrite (orb_comm (lg_last l <? sno)). destruct ((sno <? lg_first l) || (lg_last l <? sno)) eqn:Er; [apply does_ret|].
  apply orb_false_iff in Er as [E1 E2]. apply Z.ltb_ge in E1, E2. unfold check_sno.
  set (i := Z.to_nat (sno - lg_first l)). assert (sno = lg_first l + Z.of_nat i) as Ei by (unfold i; lia).
  destruct (lg_items l !! i) as [[t' u]|] eqn:El.
  - destruct (Hs _ _ _ El) as (He & Ht & _). rewrite <- Ei in He, Ht.
    eapply does_bind; [eapply does_bind; [rewrite (de_block _ _ _ Hd); apply does_ent_header|intros; apply does_ret]|].
    intros t1. rewrite He, Z.eqb_refl, Ht. cbn [andb]. apply does_ret.
  - apply lookup_ge_None in El. unfold lg_last in E2. lia.
Qed.

Lemma does_gather n f t h p B l i :
  ring f h B l -> (1 <= i)%nat -> (i + n = length (lg_items l))%nat ->
  does (gather en fault entries n h (lg_first l + Z.of_nat i - 1)) (mkU f t h p) f h p
    (map (fun it => committed (default [] (snd it))) (drop i (lg_items l))).
Proof using Hquiet Hent.
  intros Hr. pose proof Hr as (HB & Hw & Hd & Hs). revert t i. induction n as [|n IH]; intros t i Hi Hn; cbn [gather].
  - rewrite drop_ge by lia. apply does_ret.
  - destruct (lookup_lt_is_Some_2 (lg_items l) i ltac:(lia)) as [[tm u] El].
    destruct (wl_items _ Hw _ _ _ El) as [_ Hu]. destruct u as [u|]; [|lia]. destruct Hu as (w & Hwk & _ & _).
    destruct (Hs _ _ _ El) as (He & _ & Hc & Hz & Hfit & Hrd).
    pose proof (wl_first _ Hw) as H1. pose proof (wl_last _ Hw) as H2. unfold lg_last in H2.
    assert (slot entries (lg_first l + Z.of_nat i) = (lg_first l + Z.of_nat i - 1) mod entries) as Esl by (apply slot_small; lia).
    rewrite Esl in *. replace (lg_first l + Z.of_nat i - 1 + 1) with (lg_first l + Z.of_nat i) by lia. rewrite (de_block _ _ _ Hd).
    eapply does_bind; [apply does_ent_header|]. intros t1. rewrite He, Hz, Hc, Z.mod_small, Z.eqb_refl by lia. cbn [negb].
    rewrite (proj2 (Z.ltb_ge _ _)) by (unfold ENT_DATA_AT, ENT_HDR_LEN in *; lia).
    eapply does_bind.
    { edestruct (does_read (blen u) (ent_at ((lg_first l + Z.of_nat i - 1) mod entries) B + ENT_DATA_AT) f t1 h p) as [t2 E2].
      exists t2. rewrite E2. reflexivity. }
    intros t2. replace (Z.to_nat (blen u)) with (length u) by (unfold blen; lia). rewrite Hrd.
    eapply does_bind; [rewrite Hwk; apply does_ret|]. intros t3.
    eapply does_bind.
    { replace (lg_first l + Z.of_nat i) with (lg_first l + Z.of_nat (S i) - 1) by lia. apply (IH t3 (S i)); lia. }
    intros t4. rewrite (drop_S _ _ _ El). cbn [map snd default].
    assert (committed (id u) = splice u (Z.to_nat (l_commit_at w)) (out_u32 1)) as -> by (unfold committed, id; by rewrite Hwk).
    apply does_ret.
Qed.

Lemma status_ok_range l last : status l last = IPROP_OK -> lg_first l <= la_sno last <= lg_last l.
Proof using.
  unfold status. destruct (bool_decide _); [done|]. destruct (_ || _) eqn:E; [done|]. apply orb_false_iff in E as [E1 E2].
  intros _. apply Z.ltb_ge in E1, E2. lia.
Qed.

Lemma answer_ok last f t p l :
  stable f l ->
  does (let! h := reading u_hdr in
        let! status := sno_status en fault entries h last in
        if negb (status =? IPROP_OK) then ret (no_updates status)
        else
          let! updates := gather en fault entries (Z.to_nat (last_sno h - la_sno last)) h (la_sno last) in
          ret (mkUpdates IPROP_OK (mkLast (last_sno h) (last_time h)) updates))
    (mkU f t (header_of en f) p) f (header_of en f) p (answer l last).
Proof using Hquiet Hent.
  intros Hs. destruct (stable_ring _ _ Hs) as (B & Hr & _). pose proof Hr as (_ & Hw & Hd & _).
  eapply does_bind; [apply does_get|]. intros t1. eapply does_bind; [by apply (does_sno_status _ _ _ _ _ B l)|]. intros t2.
  unfold answer. destruct (Z.eqb_spec (status l last) IPROP_OK) as [E|E]; cbn [negb]; [|apply does_ret].
  pose proof (status_ok_range _ _ E) as Hrg. rewrite (describes_end _ _ _ Hd Hw).
  eapply does_bind; [|intros t3; apply does_ret]. rewrite (de_last _ _ _ Hd). unfold updates_after.
  set (i := Z.to_nat (la_sno last + 1 - lg_first l)).
  replace (la_sno last) with (lg_first l + Z.of_nat i - 1) by (unfold i; lia).
  apply (does_gather _ _ _ _ _ B); [done|unfold i; lia|unfold i, lg_last in *; lia].
Qed.

Lemma get_entries_ok last f t h p a :
  rep f a -> exists f' t' tm,
    get_entries en clock fault entries last (mkU f t h p) = (mkU f' t' (header_of en f') p, Ok (answer (base never a tm) last)) /\
    wf_time tm /\ stable f' (base never a tm).
Proof using Hquiet Hent Hmax Hclock.
  intros Hr. unfold get_entries, lock. destruct (does_call f t h p) as [t0 E0]. rewrite (bind_ok _ _ _ _ _ E0).
  destruct (does_load_header f t0 h p) as [t1 E1]. rewrite (bind_ok _ _ _ _ _ E1).
  assert (exists f' t' tm, when unstable (do! call fault; do! load_header en fault; when unstable (reload en clock fault entries))
    (mkU f t1 (header_of en f) p) = (mkU f' t' (header_of en f') p, Ok tt) /\ wf_time tm /\ stable f' (base never a tm))
    as (f' & t2 & tm & E2 & Ht & Hs).
  { unfold when at 1. rewrite (bind_ok _ _ _ (mkU f t1 (header_of en f) p) (header_of en f)) by done. unfold unstable at 1.
    destruct a as [l|]; cbn [rep] in Hr.
    - destruct (stable_ring _ _ Hr) as (B & _ & ->). by exists f, t1, (clock 0).
    - rewrite (proj2 (Z.eqb_neq _ _) (proj1 (proj2 Hr))). cbn [negb]. destruct (does_call f t1 (header_of en f) p) as [t2 E2].
      rewrite (bind_ok _ _ _ _ _ E2).
      destruct (base_ok _ _ f t2 (header_of en f) p None picks_never Hr) as (f' & tm & [t3 E3] & Ht & Hs). by exists f', t3, tm. }
  rewrite (bind_ok _ _ _ _ _ E2). destruct (answer_ok last f' t2 p _ Hs) as [t3 E3]. exists f', t3, tm. by rewrite E3.
Qed.

Lemma get_last_ok f t h p : exists t', get_last en fault (mkU f t h p) =
  (mkU f t' h p, Ok (mkLast (last_sno (header_of en f)) (last_time (header_of en f)))).
Proof using Hquiet.
  destruct (does_call f t h p) as [t0 E0]. destruct (does_header f t0 h p) as [t1 E1]. exists t1.
  unfold get_last, lock. by rewrite (bind_ok _ _ _ _ _ E0), (bind_ok _ _ _ _ _ E1).
Qed.

Lemma stable_end f l : stable f l -> mkLast (last_sno (header_of en f)) (last_time (header_of en f)) = lg_end l.
Proof using. intros (B & _ & Hw & Hd & _). symmetry. exact (describes_end _ _ _ Hd Hw). Qed.

Lemma sno_status_of_ok last f t h p l : stable f l ->
  exists t', sno_status_of en fault entries last (mkU f t h p) = (mkU f t' h p, Ok (status l last)).
Proof using Hquiet Hent.
  intros Hs. destruct (stable_ring _ _ Hs) as (B & Hr & _).
  destruct (does_call f t h p) as [t0 E0]. destruct (does_header f t0 h p) as [t1 E1].
  destruct (does_sno_status f t1 _ h p B l last Hr) as [t2 E2]. exists t2.
  unfold sno_status_of, lock. by rewrite (bind_ok _ _ _ _ _ E0), (bind_ok _ _ _ _ _ E1), E2.
Qed.

(** ** Setting the last serial, and opening *)

Lemma header_of_wf f : wf_header (header_of en f).
Proof using.
  assert (forall n, is_u32 (ne32 en (read_bytes f 40 0) n)) as H4.
  { intros n. unfold ne32, is_u32. pose proof (from_bytes_of_bound en (take 4 (drop n (read_bytes f 40 0))) _ eq_refl) as Hb.
    rewrite length_take in Hb. split; [lia|]. eapply Z.lt_le_trans; [apply Hb|]. apply Z.pow_le_mono_r; lia. }
  assert (forall n, is_u16 (ne16 en (read_bytes f 40 0) n)) as H2.
  { intros n. unfold ne16, is_u16. pose proof (from_bytes_of_bound en (take 2 (drop n (read_bytes f 40 0))) _ eq_refl) as Hb.
    rewrite length_take in Hb. split; [lia|]. eapply Z.lt_le_trans; [apply Hb|]. apply Z.pow_le_mono_r; lia. }
  unfold wf_header, header_of, decode_header, wf_time. cbn. auto 20.
Qed.

Lemma set_last_ok last f t h p a :
  rep f a -> 1 <= la_sno last < 2 ^ 32 -> wf_time (la_time last) ->
  exists f' t', set_last en fault entries last (mkU f t h p) = (mkU f' t' h p, Ok tt) /\
    rep f' (match a with Some _ => Some (dummy (la_sno last) (la_time last)) | None => None end).
Proof using Hquiet Hent.
  intros Hr Hs Ht. destruct last as [sno tm]. cbn [la_sno la_time] in *. set (h0 := header_of en f).
  destruct (does_call f t h p) as [t0 E0]. destruct (does_header f t0 h p) as [t1 E1].
  destruct (does_set_dummy h0 sno tm f t1 h p) as [t2 E2].
  edestruct (does_sync_header (dummy_header h0 sno tm)) as [t3 E3]. eexists _, t3. split.
  { unfold set_last, lock. rewrite (bind_ok _ _ _ _ _ E0), (bind_ok _ _ _ _ _ E1), (bind_ok _ _ _ _ _ E2). exact E3. }
  destruct a as [l|]; cbn [rep] in *.
  - destruct (stable_ring _ _ Hr) as (B & (HB & Hw & Hd & _) & Hst). fold h0 in Hd, Hst.
    apply (ring_stable _ _ (block h0)); [|exact Hst]. apply dummy_ring; [apply Hd..| |done|done]. by rewrite (de_block _ _ _ Hd).
  - destruct Hr as (Hm & Hst & _). unfold unsettled.
    rewrite header_of_write; [split_and!; [done..|apply write_header_len]|].
    pose proof (header_of_wf f) as Hwf. fold h0 in Hwf. unfold wf_header, dummy_header, is_u32 in *. cbn. intuition lia.
Qed.

Lemma same_stable f g l : same_bytes g f -> blen f <= blen g -> stable f l -> stable g l.
Proof using Hent.
  intros Hg Hlen (B & HB & Hw & Hd & Hst & Hs & Hl). exists B.
  rewrite (header_of_ext en g f) by (intros; apply Hg). split_and!; [done..| |lia].
  apply (slots_ext f); [done| |done]. intros k _. apply Hg.
Qed.

(** The end of opening: the file has room for a log that is not full. *)
Lemma does_room_for f t p l :
  stable f l ->
  exists f', does (let! h := reading u_hdr in if negb (num h =? entries) then extend_to fault entries (block h) else ret tt)
    (mkU f t (header_of en f) p) f' (header_of en f) p tt /\ stable f' l.
Proof using Hquiet Hent.
  intros Hs. destruct (stable_ring _ _ Hs) as (B & ([_ HB] & _ & Hd & _) & _). unfold does.
  rewrite (bind_ok _ _ _ (mkU f t (header_of en f) p) (header_of en f)) by done.
  destruct (num _ =? entries); cbn [negb]; [exists f; split; [by exists t|done]|]. rewrite (de_block _ _ _ Hd).
  destruct (does_extend_to B f t (header_of en f) p HB) as (f' & Hx & Hsame & Hlen). exists f'. split; [exact Hx|].
  apply (same_stable f); [done|lia|done].
Qed.

Lemma does_bad_ends f t h h' p B l :
  ring f h B l -> does (bad_ends en fault entries h) (mkU f t h' p) f h' p false.
Proof using Hquiet Hent.
  intros (HB & Hw & Hd & Hs). destruct Hd as [_ _ _ Hf Hft Hl Hlt Hb].
  assert (forall sno tm, (exists i u, lg_items l !! i = Some (tm, u) /\ sno = lg_first l + Z.of_nat i) ->
    forall t, does (check_sno en fault entries h sno tm) (mkU f t h' p) f h' p true) as Hck.
  { intros sno tm (i & u & El & ->) t1. destruct (Hs _ _ _ El) as (He & Ht & _).
    eapply does_bind; [apply does_ent_header|]. intros t2. rewrite Hb, He, Ht, Z.eqb_refl, bool_decide_eq_true_2 by done. apply does_ret. }
  unfold bad_ends. eapply does_bind; [apply Hck|intros t1; cbn [negb]; eapply does_bind; [apply Hck|intros t2; apply does_ret]].
  - destruct (lg_items l) as [|[tm u] r]; [done|]. cbn in Hft. injection Hft as <-. exists 0%nat, u. rewrite Hf. split; [done|lia].
  - destruct (list.last (lg_items l)) as [[tm u]|] eqn:El; [|done]. cbn in Hlt. injection Hlt as <-.
    rewrite last_lookup in El. exists (pred (length (lg_items l))), u. split; [done|]. rewrite Hl. unfold lg_last.
    pose proof (wl_some _ Hw). destruct (lg_items l); [done|]. cbn [length]. lia.
Qed.

(** The check of the header: whether the log is to be started over. *)
Definition bad_header (h : UlogHeader) : U bool :=
  if unstable h then ret true
  else if num h =? 0 then ret false
  else if entries <? num h then ret true
  else bad_ends en fault entries h.

Lemma check_mapped_by f t h p (P : Log -> Prop) :
  hmagic (header_of en f) = KDB_ULOG_HDR_MAGIC -> HDR_LEN <= blen f ->
  (forall t, exists f' t' l,
     (let! bad := bad_header (header_of en f) in if bad : bool then reload en clock fault entries else ret tt)
       (mkU f t (header_of en f) p) = (mkU f' t' (header_of en f') p, Ok tt) /\ stable f' l /\ P l) ->
  exists f' t' h' l, check_mapped en clock fault entries (mkU f t h p) = (mkU f' t' h' p, Ok tt) /\ stable f' l /\ P l.
Proof using Hquiet Hent.
  intros Hm Hl Hb. destruct (does_call f t h p) as [t0 E0]. destruct (does_len f t0 h p) as [t1 E1].
  destruct (does_read HDR_LEN 0 f t1 h p) as [t2 E2]. destruct (Hb t2) as (f1 & t3 & l & E3 & Hs & HP).
  destruct (does_room_for f1 t3 p _ Hs) as (f2 & [t4 E4] & Hs2). exists f2, t4, (header_of en f1), l. split_and!; [|done..].
  unfold check_mapped, lock. rewrite (bind_ok _ _ _ _ _ E0), (bind_ok _ _ _ _ _ E1).
  rewrite (proj2 (Z.ltb_ge _ _)), (bind_ok _ _ _ _ _ E2) by done.
  rewrite (bind_ok _ _ _ (mkU f t2 (header_of en f) p) tt) by done.
  rewrite (bind_ok _ _ _ (mkU f t2 (header_of en f) p) tt).
  2:{ unfold when. rewrite (bind_ok _ _ _ (mkU f t2 (header_of en f) p) (header_of en f)) by done. by rewrite Hm. }
  rewrite (bind_ok _ _ _ (mkU f t2 (header_of en f) p) (header_of en f)) by done.
  unfold bad_header in E3. rewrite (bind_ok2 _ _ _ _ _ _ E3). exact E4.
Qed.

Lemma bad_header_false f t p l : stable f l ->
  exists t', bad_header (header_of en f) (mkU f t (header_of en f) p) = (mkU f t' (header_of en f) p, Ok false).
Proof using Hquiet Hent.
  intros Hs. destruct (stable_ring _ _ Hs) as (B & Hri & Hst). unfold bad_header, unstable. rewrite Hst.
  change (negb (KDB_STABLE =? KDB_STABLE)) with false. cbv iota. pose proof Hri as (_ & Hw & Hd & _). rewrite (de_num _ _ _ Hd).
  assert ((Z.of_nat (length (lg_items l)) =? 0) = false) as -> by (pose proof (wl_some _ Hw); by destruct (lg_items l)).
  rewrite (proj2 (Z.ltb_ge _ _)) by apply Hw. exact (does_bad_ends f t _ (header_of en f) p B l Hri).
Qed.

(** A file is opened as its log, or as a new one. *)
Lemma check_mapped_ok f t h p a :
  rep f a -> exists f' t' h' tm, check_mapped en clock fault entries (mkU f t h p) = (mkU f' t' h' p, Ok tt) /\
    wf_time tm /\ stable f' (base never a tm).
Proof using Hquiet Hent Hmax Hclock.
  intros Hr. assert (hmagic (header_of en f) = KDB_ULOG_HDR_MAGIC /\ HDR_LEN <= blen f) as [Hm Hl].
  { destruct a as [l|]; [destruct Hr as (B & _ & _ & Hd & _ & _ & Hl); by split; [apply Hd|]|].
    by destruct Hr as (Hm & _ & Hl). }
  destruct (check_mapped_by f t h p (fun l => exists tm, wf_time tm /\ l = base never a tm) Hm Hl)
    as (f' & t' & h' & l & E & Hs & tm & Ht & ->); [|by exists f', t', h', tm].
  intros t2. destruct a as [l|]; cbn [rep base] in *.
  - destruct (bad_header_false f t2 p l Hr) as [t3 E3]. exists f, t3, l. rewrite (bind_ok _ _ _ _ _ E3).
    split_and!; [done..|]. exists (clock 0). split; [apply Hclock|done].
  - destruct Hr as (_ & Hst & _). unfold bad_header, unstable. rewrite (proj2 (Z.eqb_neq _ _) Hst). cbn [negb].
    rewrite (bind_ok _ _ _ (mkU f t2 (header_of en f) p) true) by done.
    destruct (reload_ok f t2 (header_of en f) p) as (f' & tm & [t3 E3] & Ht & Hs). exists f', t3, (dummy 1 tm). eauto 6.
Qed.

(** A new file is opened as a new log. *)
Lemma map_new_ok t h p : exists f' t' h' tm,
  map_file en clock fault entries true (mkU [] t h p) = (mkU f' t' h' p, Ok tt) /\ wf_time tm /\ stable f' (dummy 1 tm).
Proof using Hquiet Hent Hmax Hclock.
  unfold map_file. rewrite (proj2 (Z.ltb_ge _ _)) by done. destruct (does_call [] t h p) as [t0 E0]. rewrite (bind_ok _ _ _ _ _ E0).
  destruct (does_extend_to ULOG_BLOCK [] t0 h p Hmax) as (f & [t1 E1] & Hsame & Hlen). rewrite (bind_ok _ _ _ _ _ E1).
  assert (HDR_LEN <= blen f) as Hl by (rewrite Hlen; unfold HDR_LEN, ULOG_BLOCK in *; lia).
  assert (read_bytes f 40 0 = zeros 40) as Hz.
  { transitivity (read_bytes [] 40 0); [|reflexivity]. apply read_ext. intros i _. apply Hsame. }
  destruct (does_call f t1 h p) as [t2 E2]. destruct (does_len f t2 h p) as [t3 E3]. destruct (does_read HDR_LEN 0 f t3 h p) as [t4 E4].
  change (Z.to_nat HDR_LEN) with 40%nat in E4. change (Z.to_nat 0) with 0%nat in E4. rewrite Hz in E4.
  assert (decode_header en (zeros 40) = header_zero) as Hh0 by (by destruct en).
  destruct (reload_ok f t4 header_zero p) as (f1 & tm & [t5 E5] & Ht & Hs).
  destruct (stable_ring _ _ Hs) as (B & Hr & Hst). pose proof Hr as (_ & Hw & Hd & _).
  destruct (does_bad_ends f1 t5 _ (header_of en f1) p B _ Hr) as [t6 E6].
  destruct (does_room_for f1 t6 p _ Hs) as (f2 & [t7 E7] & Hs2). exists f2, t7, (header_of en f1), tm. split_and!; [|done..].
  unfold check_mapped, lock. rewrite (bind_ok _ _ _ _ _ E2), (bind_ok _ _ _ _ _ E3).
  rewrite (proj2 (Z.ltb_ge _ _)), (bind_ok _ _ _ _ _ E4) by done. rewrite Hh0.
  rewrite (bind_ok _ _ _ (mkU f t4 header_zero p) tt) by done. unfold when. rewrite (bind_ok _ _ _ (mkU f1 t5 (header_of en f1) p) tt).
  2:{ rewrite (bind_ok _ _ _ (mkU f t4 header_zero p) header_zero) by done. cbn [header_zero hmagic].
      change (negb (0 =? KDB_ULOG_HDR_MAGIC)) with true. cbv iota.
      rewrite (bind_ok _ _ _ (mkU f t4 header_zero p) header_zero) by done. exact E5. }
  rewrite (bind_ok _ _ _ (mkU f1 t5 (header_of en f1) p) (header_of en f1)) by done. unfold unstable. rewrite Hst.
  change (negb (KDB_STABLE =? KDB_STABLE)) with false. cbv iota. rewrite (de_num _ _ _ Hd).
  rewrite (proj2 (Z.ltb_ge entries _)) by apply Hw. change (Z.of_nat (length (lg_items (dummy 1 tm))) =? 0) with false. cbv iota.
  rewrite (bind_ok _ _ _ _ _ E6). exact E7.
Qed.

(** ** The log as an abstract machine *)

Inductive Op :=
  | OAdd (nm : bytes) (deleted : bool) (kdbe : bytes)
  | OReplay (update : bytes)
  | OInit
  | OWrite (logs : bool) (ready : list Ready) (write : result unit unit)
  | OEntries (last : UlogLast)
  | OStatus (last : UlogLast)
  | OLast
  | OSetLast (last : UlogLast)
  | OOpen.

Inductive Reply :=
  | RLast (r : result UlogError UlogLast)
  | RUnit (r : result UlogError unit)
  | RWrite (r : result (LoggedWrite unit) unit)
  | REntries (r : result UlogError UlogUpdates)
  | RStatus (r : result UlogError Z).

Definition replied {A Er} (wrap : result Er A -> Reply) (m : SE UState Er A) (s : UState) : UState * Reply :=
  match m s with (s, r) => (s, wrap r) end.

Definition step (o : Op) : UState -> UState * Reply :=
  match o with
  | OAdd nm deleted kdbe => replied RLast (add_update en clock fault entries nm deleted kdbe)
  | OReplay u => replied RUnit (replay_update en clock fault entries u)
  | OInit => replied RUnit (init_header en clock fault entries)
  | OWrite logs ready write => replied RWrite (write_logged en clock fault entries logs ready write)
  | OEntries last => replied REntries (get_entries en clock fault entries last)
  | OStatus last => replied RStatus (sno_status_of en fault entries last)
  | OLast => replied RLast (get_last en fault)
  | OSetLast last => replied RUnit (set_last en fault entries last)
  | OOpen => replied RUnit (check_mapped en clock fault entries)
  end.

Fixpoint run (ops : list Op) (s : UState) : list Reply :=
  match ops with
  | [] => []
  | o :: ops => let '(s, r) := step o s in r :: run ops s
  end.

(** When the abstract machine says what an operation does: a change to log is one
    the reader of updates can walk, and an update that is replayed comes in its turn
    or begins a new log; the status is asked of a log that has been begun; and the
    last entry is set to a serial from 1 on. *)
Definition allowed (o : Op) (a : option Log) : Prop :=
  match o with
  | OAdd nm deleted kdbe => takes (ReadyPut nm deleted kdbe) (serial a)
  | OReplay u => takes (ReadyReplay u) (serial a)
  | OWrite _ ready _ => takes_all ready (serial a)
  | OStatus _ => a <> None
  | OSetLast last => 1 <= la_sno last < 2 ^ 32 /\ wf_time (la_time last)
  | OInit | OEntries _ | OLast | OOpen => True
  end.

(** What it does: the reply, and the log after it. *)
Definition spec (o : Op) (a : option Log) (r : Reply) (a' : option Log) : Prop :=
  match o with
  | OAdd nm deleted kdbe => exists x, r = RLast x /\ noted (ReadyPut nm deleted kdbe) a x a'
  | OReplay u => exists x, r = RUnit (unit_of x) /\ noted (ReadyReplay u) a x a'
  | OInit => exists x, r = RUnit (unit_of x) /\ noted ReadyReset a x a'
  | OWrite logs ready write => exists x, r = RWrite x /\ written logs ready write a x a'
  | OEntries last => exists tm, wf_time tm /\ let l := base never a tm in r = REntries (Ok (answer l last)) /\ a' = Some l
  | OStatus last => exists l, a = Some l /\ r = RStatus (Ok (status l last)) /\ a' = a
  | OLast => (exists last, r = RLast (Ok last) /\ forall l, a = Some l -> last = lg_end l) /\ a' = a
  | OSetLast last => r = RUnit (Ok tt) /\ a' = match a with Some _ => Some (dummy (la_sno last) (la_time last)) | None => None end
  | OOpen => exists tm, wf_time tm /\ r = RUnit (Ok tt) /\ a' = Some (base never a tm)
  end.

(** The replies of a run are those of the abstract machine, as long as it says
    what the operations do. *)
Fixpoint follows (ops : list Op) (a : option Log) (replies : list Reply) : Prop :=
  match ops, replies with
  | [], [] => True
  | o :: ops, r :: replies => allowed o a -> exists a', spec o a r a' /\ follows ops a' replies
  | _, _ => False
  end.

Lemma step_ok o f t h p a :
  rep f a -> allowed o a ->
  exists f' t' h' p' r a', step o (mkU f t h p) = (mkU f' t' h' p', r) /\ rep f' a' /\ spec o a r a'.
Proof using Hquiet Hent Hmax Hclock.
  intros Hr Ho. destruct o as [nm d k|u| |logs ready w|last|last| |last|]; cbn [allowed step spec] in *; unfold replied.
  - destruct (add_update_ok nm d k f t h p a Hr Ho) as (f' & t' & h' & r & a' & -> & Hr' & Hn). eauto 12.
  - destruct (replay_update_ok u f t h p a Hr Ho) as (f' & t' & h' & r & a' & -> & Hr' & Hn). eauto 12.
  - destruct (init_header_ok f t h p) as (f' & t' & r & a' & -> & Hr' & Hn). eauto 12.
  - destruct (write_logged_ok logs ready w f t h p a Hr Ho) as (f' & t' & h' & p' & r & a' & -> & Hr' & Hn). eauto 12.
  - destruct (get_entries_ok last f t h p a Hr) as (f' & t' & tm & -> & Ht & Hs).
    eexists _, _, _, _, _, (Some _). split_and!; [done|exact Hs|]. by exists tm.
  - destruct a as [l|]; [|done]. destruct (sno_status_of_ok last f t h p l Hr) as (t' & ->).
    eexists _, _, _, _, _, (Some l). split_and!; [done|exact Hr|]. by exists l.
  - destruct (get_last_ok f t h p) as (t' & ->). eexists _, _, _, _, _, a. split_and!; [done|exact Hr| |done].
    eexists. split; [done|]. intros l ->. by apply stable_end.
  - destruct Ho as [Hs Ht]. destruct (set_last_ok last f t h p a Hr Hs Ht) as (f' & t' & -> & Hr'). eauto 12.
  - destruct (check_mapped_ok f t h p a Hr) as (f' & t' & h' & tm & -> & Ht & Hs).
    eexists _, _, _, _, _, (Some _). split_and!; [done|exact Hs|]. by exists tm.
Qed.

(** C10: The update log is a log.  Whatever operations are made on a file that holds
    a log, or one to be started over, when no call of the operating system fails
    their replies are those of a list of updates under consecutive serials: an
    addition, by itself or in the batch of a write of the database, is the next
    serial; past the log's size the oldest are dropped; after the last serial, a
    failure or an update too big for a block the log starts over; and a replica is
    given exactly the updates after the serial and time it asks from, marked as
    committed, is told it has them all, or to resynchronise.  The ring of blocks,
    their resizing and the serials' wrap are not to be seen.  This is said up to
    the first operation that is not [allowed]: in particular updates are replayed in
    serial order (the next one, or serial 2, which begins the log anew), the log's
    size is at least 1 and its file within the limit of its length. *)
Theorem ulog_refines ops f t h p a : rep f a -> follows ops a (run ops (mkU f t h p)).
Proof using Hquiet Hent Hmax Hclock.
  revert f t h p a. induction ops as [|o ops IH]; intros f t h p a Hr; cbn [run follows]; [done|].
  destruct (step o (mkU f t h p)) as [s r] eqn:E. intros Ho.
  destruct (step_ok o f t h p a Hr Ho) as (f' & t' & h' & p' & r' & a' & E' & Hr' & Hs). rewrite E in E'. injection E' as -> ->.
  exists a'. split; [done|]. by apply IH.
Qed.

End Quiet.

(** ** Changes and what replicas are given *)

Lemma blen_update nm sno t kdbe deleted commit :
  blen (encode_incr_update nm sno t kdbe deleted commit) = blen (out_opaque nm) + blen kdbe + 28.
Proof. unfold encode_incr_update, blen. rewrite !length_app, !length_out_u32. lia. Qed.

Section Carried.
Context {Prim : Primitives} {E : Type} (wrap : nat -> bytes -> result E bytes) (mkey : Key.ProtocolKey).
Context (Hwrap : forall i raw enc, wrap i raw = Ok enc -> blen raw <= 0x7fff -> Ops.kdb_decrypt_key mkey enc = Ok raw).
Context (vals : list KdbeVal) (kdbe : bytes) (nm : Name.ustr) (deleted : bool).
Context (Hvals : Forall wf_val vals) (Hkdbe : encode_kdbe wrap vals = Ok kdbe).
Context (Hnm : Forall (fun c => Utf8.is_scalar c = true) nm).
Context (Hlen : blen (out_opaque (Utf8.as_bytes nm)) + blen kdbe + 28 < 2 ^ 32).

Lemma walk_carried sno t commit :
  is_u32 sno -> wf_time t -> walk_incr_update (encode_incr_update (Utf8.as_bytes nm) sno t kdbe deleted commit) =
    Ok (update_layout vals kdbe nm sno t deleted commit).
Proof using Hwrap Hvals Hkdbe Hnm Hlen.
  intros Hs [Ht Hu]. rewrite <- (app_nil_r (encode_incr_update _ _ _ _ _ _)).
  apply (walk_out _ _ Hwrap vals kdbe nm sno t deleted commit Hvals Hkdbe Hnm Hs Ht Hu). by rewrite blen_update.
Qed.

(** The changes of a database can be logged. *)
Lemma carried_change : carried (Utf8.as_bytes nm) deleted kdbe.
Proof using Hwrap Hvals Hkdbe Hnm Hlen.
  intros sno t Hs Ht. split; [|rewrite blen_update; unfold U32_MAX; lia].
  eexists. split; [by apply walk_carried|done].
Qed.

(** A replica is given the update as it was logged, with its commit mark set. *)
Lemma committed_change sno t :
  is_u32 sno -> wf_time t ->
  committed (encode_incr_update (Utf8.as_bytes nm) sno t kdbe deleted false) =
    encode_incr_update (Utf8.as_bytes nm) sno t kdbe deleted true.
Proof using Hwrap Hvals Hkdbe Hnm Hlen.
  intros Hs Ht. unfold committed. rewrite walk_carried by done. cbn [update_layout l_commit_at]. rewrite blen_update.
  unfold splice, encode_incr_update. rewrite length_out_u32.
  set (a := out_opaque (Utf8.as_bytes nm)). rewrite !app_assoc.
  set (x := (((((a ++ out_u32 sno) ++ out_u32 (seconds t)) ++ out_u32 (useconds t)) ++ kdbe) ++ out_u32 (Z.b2z deleted))).
  assert (Z.to_nat (blen a + blen kdbe + 28 - 12) = length x) as Hx.
  { unfold x, blen. rewrite !length_app, !length_out_u32. lia. }
  rewrite Hx, <- !app_assoc, take_app_length. f_equal. f_equal.
  rewrite drop_app_ge by lia. replace (length x + 4 - length x)%nat with 4%nat by lia.
  rewrite drop_app_length' by (by rewrite length_out_u32). reflexivity.
Qed.

End Carried.

(** A log of two entries to which three changes are made. *)
Definition sample_clock (i : nat) : UlogTime := mkTime (Z.of_nat i mod 2 ^ 32) 7.
Definition no_fault (_ : nat) : option nat := None.
Definition sample_kdbe : bytes := out_u32 1 ++ out_u32 0 ++ out_u32 0x80.
Definition sample_ops : list Op :=
  [OAdd (lit_bytes "a@R") false sample_kdbe; OWrite true [ReadyPut (lit_bytes "b@R") true (out_u32 0); ReadyPut (lit_bytes "c@R") false sample_kdbe] (Ok tt);
   OLast; OEntries (mkLast 3 (sample_clock 25)); OOpen; OEntries (mkLast 2 (sample_clock 13))].

Definition sample_start : UState := fst (map_file Little sample_clock no_fault 2 true (mkU [] 0 header_zero false)).

Lemma ulog_refines_witness :
  exists tm, follows 2 sample_ops (Some (dummy 1 tm)) (run Little sample_clock no_fault 2 sample_ops sample_start) /\
    carried (lit_bytes "a@R") false sample_kdbe /\
    run Little sample_clock no_fault 2 sample_ops sample_start !! 3%nat =
      Some (REntries (Ok (mkUpdates IPROP_OK (mkLast 4 (sample_clock 28))
        [encode_incr_update (lit_bytes "c@R") 4 (sample_clock 28) sample_kdbe false true]))).
Proof.
  assert (forall i, wf_time (sample_clock i)) as Hc.
  { intros i. unfold wf_time, sample_clock, is_u32. cbn [seconds useconds]. pose proof (Z.mod_pos_bound (Z.of_nat i) (2 ^ 32)). lia. }
  destruct (map_new_ok Little sample_clock no_fault 2 (fun _ => eq_refl) ltac:(done) ltac:(done) Hc 0 header_zero false)
    as (f & t & h & tm & E & Ht & Hs).
  exists tm. split_and!.
  - unfold sample_start. rewrite E. cbn [fst].
    exact (ulog_refines Little sample_clock no_fault 2 (fun _ => eq_refl) ltac:(done) ltac:(done) Hc sample_ops f t h false (Some (dummy 1 tm)) Hs).
  - refine (@carried_change ToyPrimitives unit (fun _ _ => Err tt) Ops.sample_aes _ [AttrFlags 0x80] sample_kdbe (EncList.lit "a@R") false _ _ _ _).
    + done.
    + repeat constructor; cbn; unfold is_u32; lia.
    + reflexivity.
    + repeat constructor.
    + reflexivity.
  - vm_compute. reflexivity.
Defined.

(** An update that is replayed out of its turn, serial 10 on a new log, is taken,
    but to a replica at the serial and time the log was begun anew with, the log is
    then corrupt: the blocks between were never written. *)
Definition early_replay : list Op :=
  [OReplay (encode_incr_update (lit_bytes "a@R") 10 (sample_clock 3) sample_kdbe false true);
   OEntries (mkLast 1 (sample_clock 16))].

Example replay_out_of_turn :
  run Little sample_clock no_fault 16 early_replay (fst (map_file Little sample_clock no_fault 16 true (mkU [] 0 header_zero false))) =
    [RUnit (Ok tt); REntries (Err Corrupt)].
Proof. vm_compute. reflexivity. Qed.

End UlogRing.
