(* ===== verification/UlogCrash.v ===== *)
(** * The update log across failures

    What a write of the database under the log leaves on the disk when calls of the
    operating system fail, or when all of them do from some point on, as in a crash:
    the file is opened afterwards as the log before the write, as the log after it,
    or as a new one, and never as the log before a write that was made. *)

From S2P Require Import Prelude Reader StateErr Utf8 Etype Primitives Cts Derive Weak Ops Name EncList Kdc Lockout.
From S2P Require Import Osa History PMap Acl Store Iprop Ulog UlogRing.

Module UlogCrash.
Import Iprop Ulog UlogRing.

(** ** Runs that end well *)

(** When [m] gives a value, [m'] does the same. *)
Definition honest {A} (m m' : U A) : Prop := forall s s' a, m s = (s', Ok a) -> m' s = (s', Ok a).

Create HintDb honest.

Lemma honest_refl {A} (m : U A) : honest m m.
Proof. intros s s' a H. exact H. Qed.

Lemma honest_bind {A B} (m m' : U A) (k k' : A -> U B) :
  honest m m' -> (forall a, honest (k a) (k' a)) -> honest (bind m k) (bind m' k').
Proof. intros Hm Hk s s' b H. apply bind_inv in H as (s1 & a & E1 & E2). rewrite (bind_ok _ _ _ _ _ (Hm _ _ _ E1)). by apply Hk. Qed.

Lemma honest_if {A} (b : bool) (m m' n n' : U A) : honest m m' -> honest n n' -> honest (if b then m else n) (if b then m' else n').
Proof. by destruct b. Qed.

Lemma honest_each {A} (g g' : A -> U unit) l : (forall a, honest (g a) (g' a)) -> honest (each g l) (each g' l).
Proof. intros Hg. induction l as [|a l IH]; cbn [each]; [apply honest_refl|]. by apply honest_bind. Qed.

Ltac honest :=
  repeat first
    [ apply honest_refl | solve [auto 1 with honest] | apply honest_bind; [|intros ?] | apply honest_if
    | match goal with |- honest (let '_ := ?x in _) _ => destruct x end ].

Section Honest.
Context (en : endian) (clock : nat -> UlogTime) (fault : nat -> option nat) (entries : Z).

Lemma honest_read n a : honest (read_at fault n a) (read_at no_fault n a).
Proof. intros s s' b. unfold read_at. by destruct (fault (u_tick s)). Qed.

Lemma honest_write b a : honest (write_at fault b a) (write_at no_fault b a).
Proof. intros s s' []. unfold write_at. by destruct (fault (u_tick s)). Qed.

Lemma honest_call : honest (call fault) (call no_fault).
Proof. intros s s' []. unfold call. by destruct (fault (u_tick s)). Qed.

#[local] Hint Resolve honest_read honest_write honest_call : honest.

Lemma honest_sync_header h : honest (sync_header en fault h) (sync_header en no_fault h).
Proof. unfold sync_header, write_header, sync. honest. Qed.

Lemma honest_ent_header i B : honest (ent_header en fault i B) (ent_header en no_fault i B).
Proof. unfold ent_header. honest. Qed.

Lemma honest_load_header : honest (load_header en fault) (load_header en no_fault).
Proof. unfold load_header, header. honest. Qed.

#[local] Hint Resolve honest_sync_header honest_ent_header honest_load_header : honest.

Lemma honest_reset : honest (reset en clock fault entries) (reset en clock no_fault entries).
Proof. unfold reset, set_dummy, sync. honest. Qed.

Lemma honest_extend_loop fuel size at_ : honest (extend_loop fault fuel size at_) (extend_loop no_fault fuel size at_).
Proof. revert at_. induction fuel as [|fuel IH]; intros at_; cbn [extend_loop]; honest. Qed.

Lemma honest_move_blocks n old new : honest (move_blocks fault n old new) (move_blocks no_fault n old new).
Proof. induction n as [|n IH]; cbn [move_blocks]; honest. Qed.

#[local] Hint Resolve honest_reset honest_extend_loop honest_move_blocks : honest.

Lemma honest_resize r : honest (resize en fault entries r) (resize en no_fault entries r).
Proof. unfold resize, extend_to, len. honest. Qed.

Lemma honest_set_state st : honest (set_state en fault st) (set_state en no_fault st).
Proof. unfold set_state. honest. Qed.

#[local] Hint Resolve honest_resize honest_set_state : honest.

Lemma honest_put_entry u : honest (put_entry en fault entries u) (put_entry en no_fault entries u).
Proof. unfold put_entry. honest. Qed.

Lemma honest_restart : honest (restart en clock fault entries) (restart en clock no_fault entries).
Proof. unfold restart, reload. honest. Qed.

#[local] Hint Resolve honest_put_entry honest_restart : honest.

Lemma honest_stage_note n : honest (stage_note en clock fault entries n) (stage_note en clock no_fault entries n).
Proof.
  destruct n; cbn [stage_note]; unfold batch_add_update, batch_init_header, batch_replay_update, when; honest.
Qed.

#[local] Hint Resolve honest_stage_note : honest.

Lemma honest_stage_notes ready : honest (stage_notes en clock fault entries ready) (stage_notes en clock no_fault entries ready).
Proof. unfold stage_notes, stage, write_header. apply honest_bind; [apply honest_each; honest|intros []; honest]. Qed.

Lemma honest_begin : honest (begin en clock fault entries) (begin en clock no_fault entries).
Proof. unfold begin, when, reload, lock. honest. Qed.

Lemma honest_settle : honest (settle en fault) (settle en no_fault).
Proof. unfold settle, sync. honest. Qed.

End Honest.

(** ** Torn writes *)

(** The first [k] bytes of [new] over [old]. *)
Definition mix (k : nat) (new old : bytes) : bytes := take k new ++ drop k old.

Lemma mix_same k b : mix k b b = b.
Proof. apply take_drop. Qed.

Lemma mix_app k a b a' b' : length a = length a' -> mix k (a ++ b) (a' ++ b') = mix k a a' ++ mix (k - length a) b b'.
Proof.
  intros Hl. unfold mix. rewrite take_app, drop_app, <- Hl. destruct (decide (k <= length a)%nat) as [Hk|Hk].
  - replace (k - length a)%nat with 0%nat by lia. by rewrite take_0, drop_0, !app_nil_r, <- !app_assoc.
  - rewrite (drop_ge a' k) by lia. by rewrite app_nil_r, <- !app_assoc.
Qed.

Lemma mix_all k new old : length new = length old -> (length new <= k)%nat -> mix k new old = new.
Proof. intros Hl Hk. unfold mix. by rewrite take_ge, drop_ge, app_nil_r by lia. Qed.

Lemma length_mix k new old : length new = length old -> length (mix k new old) = length old.
Proof. intros Hl. unfold mix. rewrite length_app, length_take, length_drop. lia. Qed.

(** What a failed write of [b] leaves there. *)
Lemma read_torn f b k a :
  read_bytes (write_bytes f (take k b) a) (length b) a = mix k b (read_bytes f (length b) a).
Proof.
  apply bytes_ext; [by rewrite length_read, length_mix by (by rewrite length_read); rewrite length_read|].
  rewrite length_read. intros i Hi. rewrite byte_at_read by done. unfold mix. rewrite byte_at_app, length_take.
  rewrite byte_at_write, length_take, byte_at_drop.
  destruct (Nat.ltb_spec i (k `min` length b)).
  - replace (a <=? a + i)%nat with true by (symmetry; apply Nat.leb_le; lia). cbn [andb].
    rewrite (proj2 (Nat.ltb_lt (a + i) (a + k `min` length b))) by lia. f_equal. lia.
  - rewrite (proj2 (Nat.ltb_ge (a + i) (a + k `min` length b))) by lia. rewrite andb_false_r, byte_at_read by lia. f_equal. lia.
Qed.

Section Top.
Context (en : endian).

(** The bytes of a header: its magic, its body, its state and its block size. *)
Definition top (z : bytes) (st B : Z) : bytes := to_ne32 en KDB_ULOG_HDR_MAGIC ++ z ++ to_ne16 en st ++ to_ne16 en B.

Definition body (h : UlogHeader) : bytes :=
  to_ne16 en (db_version_num h) ++ zeros 2 ++ to_ne32 en (num h) ++ (encode_time en (first_time h) ++ encode_time en (last_time h)) ++
  to_ne32 en (first_sno h) ++ to_ne32 en (last_sno h).

Lemma length_body h : length (body h) = 32%nat.
Proof. unfold body. rewrite !length_app, !length_encode_time, !length_ne32, !length_ne16. reflexivity. Qed.

Lemma encode_top h : hmagic h = KDB_ULOG_HDR_MAGIC -> encode_header en h = top (body h) (state h) (block h).
Proof. intros Hm. unfold encode_header, top, body. by rewrite Hm, <- !app_assoc. Qed.

(** Two words that differ in one byte. *)
Definition near (x y : Z) : Prop :=
  exists a b c, (to_ne16 en x = [a; b] /\ to_ne16 en y = [a; c]) \/ (to_ne16 en x = [a; b] /\ to_ne16 en y = [c; b]).

Lemma mix_near k x y : near x y ->
  mix k (to_ne16 en x) (to_ne16 en y) = to_ne16 en y \/ (mix k (to_ne16 en x) (to_ne16 en y) = to_ne16 en x /\ (1 <= k)%nat).
Proof.
  intros (a & b & c & [[-> ->]|[-> ->]]); (destruct k as [|[|k]]; [by left| |right; split; [by destruct k|lia]]).
  - by left.
  - right. split; [done|lia].
Qed.

Lemma ne16_bytes z : to_ne16 en z = match en with Little => [byte.of_Z z; byte.of_Z (Z.shiftr z 8)] | Big => [byte.of_Z (Z.shiftr z 8); byte.of_Z z] end.
Proof. by destruct en. Qed.

Lemma near_narrow x y : 0 <= x < 256 -> 0 <= y < 256 -> near x y.
Proof.
  intros Hx Hy. assert (Z.shiftr x 8 = 0 /\ Z.shiftr y 8 = 0) as [E1 E2].
  { rewrite !Z.shiftr_div_pow2 by lia. split; apply Z.div_small; lia. }
  unfold near. rewrite !ne16_bytes, E1, E2. destruct en; eauto 8.
Qed.

Lemma near_high x y : x mod 256 = 0 -> y mod 256 = 0 -> near x y.
Proof.
  intros Hx Hy. assert (byte.of_Z x = byte.of_Z y) as E.
  { apply byte.unsigned_inj. rewrite !byte.unsigned_of_Z. unfold byte.wrap. change (2 ^ 8) with 256. by rewrite Hx, Hy. }
  unfold near. rewrite !ne16_bytes, E. destruct en; eauto 8.
Qed.

Lemma mix_top k z' st' B' z st B :
  length z' = 32%nat -> length z = 32%nat -> near st' st -> near B' B ->
  exists st'' B'', mix k (top z' st' B') (top z st B) = top (mix (k - 4) z' z) st'' B'' /\
    (B'' = B \/ B'' = B') /\ (st'' = st \/ (st'' = st' /\ mix (k - 4) z' z = z')).
Proof.
  intros Hz' Hz Hs HB. unfold top.
  rewrite mix_app, mix_same, mix_app, mix_app by (rewrite ?length_ne32, ?length_ne16; congruence).
  rewrite length_ne32, Hz', length_ne16.
  destruct (mix_near (k - 4 - 32 - 2) B' B HB) as [EB|[EB _]], (mix_near (k - 4 - 32) st' st Hs) as [ES|[ES Hk]]; rewrite EB, ES;
    first [exists st, B; by auto | exists st, B'; by auto | idtac].
  - exists st', B. split_and!; [done|by left|]. right. split; [done|]. apply mix_all; lia.
  - exists st', B'. split_and!; [done|by right|]. right. split; [done|]. apply mix_all; lia.
Qed.

(** The fields of a header's bytes. *)
Lemma top_fields z st B : length z = 32%nat -> is_u16 st -> is_u16 B ->
  hmagic (decode_header en (top z st B)) = KDB_ULOG_HDR_MAGIC /\ state (decode_header en (top z st B)) = st /\
  block (decode_header en (top z st B)) = B.
Proof.
  intros Hz Hs HB. unfold decode_header, top. cbn [hmagic state block]. split_and!.
  - apply ne32_here. unfold is_u32, KDB_ULOG_HDR_MAGIC. lia.
  - rewrite ne16_skip by (rewrite length_ne32; lia). rewrite length_ne32. cbn [Nat.sub].
    rewrite ne16_skip by lia. rewrite Hz. by apply ne16_here.
  - rewrite ne16_skip by (rewrite length_ne32; lia). rewrite length_ne32. cbn [Nat.sub].
    rewrite ne16_skip by lia. rewrite Hz. cbn [Nat.sub]. rewrite ne16_skip by (rewrite length_ne16; lia). rewrite length_ne16.
    cbn [Nat.sub]. rewrite <- (app_nil_r (to_ne16 en B)). by apply ne16_here.
Qed.

Lemma decode_top h st B : wf_header h -> is_u16 st -> is_u16 B -> hmagic h = KDB_ULOG_HDR_MAGIC ->
  decode_header en (top (body h) st B) = set_state_of st (set_block B h).
Proof.
  intros Hw Hs HB Hm. rewrite <- (decode_encode_header en (set_state_of st (set_block B h))).
  - by rewrite encode_top.
  - unfold wf_header in *. cbn. tauto.
Qed.

(** Every header with the magic is such bytes. *)
Lemma top_split f : hmagic (header_of en f) = KDB_ULOG_HDR_MAGIC ->
  exists z, length z = 32%nat /\ read_bytes f 40 0 = top z (state (header_of en f)) (block (header_of en f)).
Proof.
  unfold header_of, decode_header. cbn [hmagic state block]. set (b := read_bytes f 40 0). intros Hm.
  assert (length b = 40%nat) as Hb by apply length_read.
  exists (take 32 (drop 4 b)). split; [rewrite length_take, length_drop; lia|].
  unfold top, ne16, ne32 in *. unfold to_ne32, to_ne16. rewrite <- Hm.
  rewrite !to_from_bytes_of by (rewrite length_take, length_drop; lia). rewrite drop_0.
  rewrite (take_ge (drop 38 b)) by (rewrite length_drop; lia).
  rewrite <- (take_drop 4 b) at 1. f_equal. rewrite <- (take_drop 32 (drop 4 b)) at 1. f_equal. rewrite drop_drop.
  rewrite <- (take_drop 2 (drop (4 + 32) b)) at 1. f_equal. by rewrite drop_drop.
Qed.

End Top.

(** ** Files that are opened as a new log *)

Section Crash.
Context (en : endian) (clock : nat -> UlogTime) (fault : nat -> option nat) (entries : Z).
Context (Hent : 1 <= entries) (Hmax : HDR_LEN + entries * ULOG_BLOCK <= MAXLOGLEN).
Context (Hclock : forall i, wf_time (clock i)).

(** The file is marked as unstable. *)
Definition marked (f : bytes) : Prop :=
  HDR_LEN <= blen f /\
  exists z B, length z = 32%nat /\ block_ok entries B /\ read_bytes f 40 0 = top en z KDB_UNSTABLE B.

(** The header is that of a new log, whatever its times and its blocks. *)
Definition new_body (v ts : bytes) : bytes := v ++ to_ne32 en 1 ++ ts ++ to_ne32 en 1 ++ to_ne32 en 1.

Definition blank (f : bytes) : Prop :=
  HDR_LEN <= blen f /\
  exists v ts B, length v = 4%nat /\ length ts = 16%nat /\ block_ok entries B /\
    read_bytes f 40 0 = top en (new_body v ts) KDB_STABLE B.

Definition renewed (f : bytes) : Prop := marked f \/ blank f.

Lemma length_new_body v ts : length v = 4%nat -> length ts = 16%nat -> length (new_body v ts) = 32%nat.
Proof using. intros Hv Ht. unfold new_body. rewrite !length_app, !length_ne32. lia. Qed.

Lemma block_ok_u16 B : block_ok entries B -> is_u16 B /\ B mod 256 = 0.
Proof using.
  intros [[H1 H2] _]. unfold is_u16, ULOG_BLOCK in *. split; [lia|]. pose proof (Z.div_mod B 2048 ltac:(lia)) as E. rewrite H2, Z.add_0_r in E.
  rewrite E. replace (2048 * (B / 2048)) with (8 * (B / 2048) * 256) by lia. apply Z.mod_mul. lia.
Qed.

Lemma near_blocks B C : block_ok entries B -> block_ok entries C -> near en B C.
Proof using. intros HB HC. apply near_high; by apply block_ok_u16. Qed.

Lemma near_states x y : (x = KDB_STABLE \/ x = KDB_UNSTABLE) -> (y = KDB_STABLE \/ y = KDB_UNSTABLE) -> near en x y.
Proof using. unfold KDB_STABLE, KDB_UNSTABLE. intros Hx Hy. apply near_narrow; lia. Qed.

Lemma marked_unsettled f : marked f -> unsettled en f.
Proof using.
  intros (Hl & z & B & Hz & HB & E). unfold unsettled, header_of. rewrite E.
  destruct (top_fields en z KDB_UNSTABLE B Hz) as (-> & -> & _); [unfold is_u16, KDB_UNSTABLE; lia|by apply block_ok_u16|done].
Qed.

(** Writes behind the header. *)
Lemma length_write_ge f b a : (length f <= length (write_bytes f b a))%nat.
Proof using. destruct b as [|x b]; [done|]. rewrite length_write by done. lia. Qed.

Lemma read_write_high f b a : (40 <= a)%nat -> read_bytes (write_bytes f b a) 40 0 = read_bytes f 40 0.
Proof using. intros Ha. apply read_ext. intros i Hi. apply write_out. lia. Qed.

Lemma marked_high f b a : (40 <= a)%nat -> marked f -> marked (write_bytes f b a).
Proof using.
  intros Ha (Hl & H). split; [|by rewrite read_write_high]. unfold blen in *. pose proof (length_write_ge f b a). lia.
Qed.

Lemma renewed_high f b a : (40 <= a)%nat -> renewed f -> renewed (write_bytes f b a).
Proof using.
  intros Ha [H|(Hl & H)]; [left; by apply marked_high|right]. split; [|by rewrite read_write_high].
  unfold blen in *. pose proof (length_write_ge f b a). lia.
Qed.

(** A header under way. *)
Definition fine (h : UlogHeader) : Prop :=
  hmagic h = KDB_ULOG_HDR_MAGIC /\ state h = KDB_UNSTABLE /\ block_ok entries (block h).

Lemma read_torn_header f h k :
  read_bytes (write_bytes f (take k (encode_header en h)) 0) 40 0 = mix k (encode_header en h) (read_bytes f 40 0).
Proof using. rewrite <- (length_encode_header en h). apply read_torn. Qed.

Lemma torn_len f b a : HDR_LEN <= blen f -> HDR_LEN <= blen (write_bytes f b a).
Proof using. unfold blen. pose proof (length_write_ge f b a). lia. Qed.

Lemma marked_header f h k : marked f -> fine h -> marked (write_bytes f (take k (encode_header en h)) 0).
Proof using.
  intros (Hl & z & B & Hz & HB & E) (Hm & Hst & HC). split; [by apply torn_len|]. rewrite read_torn_header, E, encode_top, Hst by done.
  destruct (mix_top en k (body en h) KDB_UNSTABLE (block h) z KDB_UNSTABLE B) as (st & B'' & -> & HB'' & Hs).
  { apply length_body. } { done. } { apply near_states; by right. } { by apply near_blocks. }
  eexists _, B''. split_and!; [by rewrite length_mix by (by rewrite length_body)|by destruct HB'' as [-> | ->]|].
  by destruct Hs as [-> |[-> _]].
Qed.

(** The header [reset] writes. *)
Definition new_top (tm : UlogTime) : UlogHeader := set_state_of KDB_STABLE (dummy_header new_header 1 tm).

Lemma new_top_body tm : body en (new_top tm) =
  new_body (to_ne16 en KDB_VERSION ++ zeros 2) (encode_time en tm ++ encode_time en tm).
Proof using. unfold body, new_body. cbn. by rewrite <- !app_assoc. Qed.

Lemma block_least : block_ok entries ULOG_BLOCK.
Proof using Hmax. unfold block_ok, ULOG_BLOCK in *. split; [done|lia]. Qed.

Lemma renewed_header f tm k : renewed f -> renewed (write_bytes f (take k (encode_header en (new_top tm))) 0).
Proof using Hmax.
  assert (length (body en (new_top tm)) = 32%nat) as Hbd by apply length_body. pose proof block_least as Hbl.
  set (v' := to_ne16 en KDB_VERSION ++ zeros 2). set (ts' := encode_time en tm ++ encode_time en tm).
  assert (length v' = 4%nat) as Hv' by (unfold v'; by rewrite length_app, length_ne16).
  assert (length ts' = 16%nat) as Hts' by (unfold ts'; by rewrite length_app, length_encode_time).
  pose proof (new_top_body tm : body en (new_top tm) = new_body v' ts') as Ebd. rewrite Ebd in Hbd.
  intros [(Hl & z & B & Hz & HB & E)|(Hl & v & ts & B & Hv & Hts & HB & E)]; unfold renewed, marked, blank;
    rewrite read_torn_header, E, encode_top by done; rewrite Ebd; cbn [new_top set_state_of state block].
  - destruct (mix_top en k (new_body v' ts') KDB_STABLE ULOG_BLOCK z KDB_UNSTABLE B) as (st & B'' & Em & HB'' & Hs);
      [done|done|apply near_states; by auto|by apply near_blocks|]. change (block (dummy_header new_header 1 tm)) with ULOG_BLOCK. rewrite Em.
    assert (block_ok entries B'') as HBo by (by destruct HB'' as [-> | ->]). destruct Hs as [-> |[-> ->]].
    + left. split; [by apply torn_len|]. eexists _, B''. split_and!; [|done|done]. by rewrite length_mix by congruence.
    + right. split; [by apply torn_len|]. by exists v', ts', B''.
  - right. split; [by apply torn_len|].
    destruct (mix_top en k (new_body v' ts') KDB_STABLE ULOG_BLOCK (new_body v ts) KDB_STABLE B) as (st & B'' & Em & HB'' & Hs);
      [done|by apply length_new_body|apply near_states; by auto|by apply near_blocks|].
    change (block (dummy_header new_header 1 tm)) with ULOG_BLOCK. rewrite Em.
    assert (exists v'' ts'', mix (k - 4) (new_body v' ts') (new_body v ts) = new_body v'' ts'' /\ length v'' = 4%nat /\ length ts'' = 16%nat)
      as (v'' & ts'' & -> & Hv'' & Hts'').
    { eexists _, _. unfold new_body. rewrite mix_app by congruence. rewrite mix_app, mix_same by by rewrite !length_ne32.
      rewrite mix_app by congruence. rewrite mix_same. split; [reflexivity|]. rewrite !length_mix by congruence. done. }
    exists v'', ts'', B''. split_and!; [done..|by destruct HB'' as [-> | ->]|]. by destruct Hs as [-> |[-> _]].
Qed.

(** Marks. *)
Lemma read_torn_mark f st k z st0 B :
  length z = 32%nat -> read_bytes f 40 0 = top en z st0 B ->
  read_bytes (write_bytes f (take k (to_ne16 en st)) (Z.to_nat STATE_AT)) 40 0 =
    to_ne32 en KDB_ULOG_HDR_MAGIC ++ z ++ mix k (to_ne16 en st) (to_ne16 en st0) ++ to_ne16 en B.
Proof using.
  intros Hz E. change (Z.to_nat STATE_AT) with 36%nat. set (g := write_bytes f (take k (to_ne16 en st)) 36).
  assert (forall a n, (a + n <= 36 \/ 38 <= a)%nat -> read_bytes g n a = read_bytes f n a) as Hout.
  { intros a n Ha. apply read_write_out. rewrite length_take, length_ne16. lia. }
  assert (read_bytes g 2 36 = mix k (to_ne16 en st) (read_bytes f 2 36)) as Hmid.
  { rewrite <- (length_ne16 en st) at 1 3. apply read_torn. }
  assert (forall f, read_bytes f 40 0 = read_bytes f 36 0 ++ read_bytes f 2 36 ++ read_bytes f 2 38) as Hsp.
  { intros f0. pose proof (length_read f0 40 0) as Hl.
    change (read_bytes f0 36 0) with (read_bytes f0 36 (0 + 0)). rewrite <- (read_read f0 40 0 36 0), drop_0 by lia.
    change (read_bytes f0 2 36) with (read_bytes f0 2 (0 + 36)). rewrite <- (read_read f0 40 0 2 36) by lia.
    change (read_bytes f0 2 38) with (read_bytes f0 2 (0 + 38)). rewrite <- (read_read f0 40 0 2 38) by lia.
    set (b := read_bytes f0 40 0) in *. rewrite (take_ge (drop 38 b)) by (rewrite length_drop; lia).
    rewrite <- (take_drop 36 b) at 1. f_equal. rewrite <- (take_drop 2 (drop 36 b)) at 1. by rewrite drop_drop. }
  rewrite (Hsp g), Hmid, !Hout by lia. rewrite (Hsp f) in E. unfold top in E. rewrite (app_assoc (to_ne32 _ _) z) in E.
  apply app_inj_1 in E as [E1 E2]; [|by rewrite length_read, length_app, length_ne32, Hz].
  apply app_inj_1 in E2 as [E2 E3]; [|by rewrite length_read, length_ne16]. by rewrite E1, E2, E3, <- app_assoc.
Qed.

Lemma torn_mark f st k z st0 B :
  length z = 32%nat -> near en st st0 -> read_bytes f 40 0 = top en z st0 B ->
  exists st', (st' = st0 \/ st' = st) /\
    read_bytes (write_bytes f (take k (to_ne16 en st)) (Z.to_nat STATE_AT)) 40 0 = top en z st' B.
Proof using.
  intros Hz Hn E. rewrite (read_torn_mark _ _ _ _ _ _ Hz E).
  destruct (mix_near en k st st0 Hn) as [-> |[-> _]]; [by exists st0; auto|by exists st; auto].
Qed.

Lemma renewed_mark f k : renewed f -> renewed (write_bytes f (take k (to_ne16 en KDB_UNSTABLE)) (Z.to_nat STATE_AT)).
Proof using.
  intros [(Hl & z & B & Hz & HB & E)|(Hl & v & ts & B & Hv & Hts & HB & E)].
  - destruct (torn_mark f KDB_UNSTABLE k z KDB_UNSTABLE B Hz) as (st & Hs & E'); [apply near_states; by auto|done|].
    left. split; [by apply torn_len|]. exists z, B. split_and!; [done..|]. by destruct Hs as [-> | ->].
  - destruct (torn_mark f KDB_UNSTABLE k (new_body v ts) KDB_STABLE B) as (st & [-> | ->] & E');
      [by apply length_new_body|apply near_states; by auto|done|right|left]; (split; [by apply torn_len|]); eauto 10 using length_new_body.
Qed.

Lemma renewed_marked f : renewed f -> marked (write_bytes f (to_ne16 en KDB_UNSTABLE) (Z.to_nat STATE_AT)).
Proof using.
  intros H. assert (exists z st0 B, length z = 32%nat /\ block_ok entries B /\ read_bytes f 40 0 = top en z st0 B /\ HDR_LEN <= blen f)
    as (z & st0 & B & Hz & HB & E & Hl).
  { destruct H as [(Hl & z & B & Hz & HB & E)|(Hl & v & ts & B & Hv & Hts & HB & E)]; eauto 12 using length_new_body. }
  split; [by apply torn_len|]. exists z, B. split_and!; [done..|].
  pose proof (read_torn_mark f KDB_UNSTABLE 2 z st0 B Hz E) as Er. rewrite take_ge in Er by (rewrite length_ne16; lia).
  rewrite Er, mix_all; [done|by rewrite !length_ne16|by rewrite length_ne16].
Qed.

(** Such a file is opened as a new log. *)
Lemma blank_fields f : blank f ->
  let h := header_of en f in
  hmagic h = KDB_ULOG_HDR_MAGIC /\ state h = KDB_STABLE /\ num h = 1 /\ first_sno h = 1 /\ last_sno h = 1 /\ block_ok entries (block h).
Proof using.
  intros (Hl & v & ts & B & Hv & Hts & HB & E). unfold header_of. rewrite E.
  assert (is_u32 1) as H1 by (unfold is_u32; lia).
  destruct (top_fields en (new_body v ts) KDB_STABLE B) as (Hm & Hst & Hb);
    [by apply length_new_body|unfold is_u16, KDB_STABLE; lia|by apply block_ok_u16|].
  cbv zeta. rewrite Hm, Hst, Hb. split_and!; [done|done| | | |done]; unfold decode_header, top, new_body; cbn [num first_sno last_sno];
    rewrite ne32_skip, length_ne32 by (rewrite length_ne32; lia); cbn [Nat.sub]; rewrite <- !app_assoc;
    rewrite ne32_skip, Hv by lia; cbn [Nat.sub]; [by apply ne32_here|..];
    rewrite ne32_skip, length_ne32 by (rewrite length_ne32; lia); cbn [Nat.sub]; rewrite ne32_skip, Hts by lia; cbn [Nat.sub]; [by apply ne32_here|].
  rewrite ne32_skip, length_ne32 by (rewrite length_ne32; lia). by apply ne32_here.
Qed.

Definition is_new (l : Log) : Prop := exists tm, wf_time tm /\ l = dummy 1 tm.

Lemma renewed_opens f t h p : renewed f ->
  exists f' t' h' l, check_mapped en clock no_fault entries (mkU f t h p) = (mkU f' t' h' p, Ok tt) /\ stable en entries f' l /\ is_new l.
Proof using Hent Hmax Hclock.
  intros [Hf|Hf].
  { destruct (check_mapped_ok en clock no_fault entries (fun _ => eq_refl) Hent Hmax Hclock f t h p None (marked_unsettled f Hf))
      as (f' & t' & h' & tm & E & Ht & Hs). exists f', t', h', (dummy 1 tm). split_and!; [done..|by exists tm]. }
  destruct (blank_fields f Hf) as (Hm & Hst & Hn & Hf1 & Hl1 & HB). pose proof Hf as [Hlen _]. set (h0 := header_of en f) in *.
  apply (check_mapped_by en clock no_fault entries (fun _ => eq_refl) Hent f t h p is_new Hm Hlen). intros t2. fold h0.
  assert (exists t3 b, bad_header en no_fault entries h0 (mkU f t2 h0 p) = (mkU f t3 h0 p, Ok b) /\
    (b = true \/ (e_sno (ent_of en f (slot entries 1) (block h0)) = 1 /\
      e_time (ent_of en f (slot entries 1) (block h0)) = first_time h0 /\ first_time h0 = last_time h0))) as (t3 & b & E3 & Hb).
  { unfold bad_header, unstable. rewrite Hst, Hn. change (negb (KDB_STABLE =? KDB_STABLE)) with false. cbv iota.
    change (1 =? 0) with false. cbv iota. rewrite (proj2 (Z.ltb_ge entries 1)) by lia. unfold bad_ends, check_sno. rewrite Hf1, Hl1.
    destruct (does_ent_header en no_fault (fun _ => eq_refl) (slot entries 1) (block h0) f t2 h0 p) as [t3 E3].
    set (e := ent_of en f (slot entries 1) (block h0)) in *.
    destruct (does_ent_header en no_fault (fun _ => eq_refl) (slot entries 1) (block h0) f t3 h0 p) as [t4 E4]. fold e in E4.
    unfold bind at 1 2. rewrite E3. cbn [ret].
    destruct (Z.eqb_spec (e_sno e) 1) as [Es|]; cbn [andb negb]; [|by exists t3, true; auto].
    destruct (bool_decide_reflect (e_time e = first_time h0)) as [Et|]; cbn [negb]; [|by exists t3, true; auto].
    unfold bind. rewrite E4. cbn [ret]. exists t4. eexists. split; [reflexivity|].
    destruct (bool_decide_reflect (e_time e = last_time h0)) as [Et2|]; cbn [andb negb]; [|by rewrite andb_false_r; left].
    right. split_and!; [done..|congruence]. }
  rewrite (bind_ok _ _ _ _ _ E3). destruct Hb as [-> |(He & Het & Hfl)].
  - destruct (reload_ok en clock no_fault entries (fun _ => eq_refl) Hent Hmax Hclock f t3 h0 p) as (f' & tm & [t4 E4] & Ht & Hs).
    exists f', t4, (dummy 1 tm). split_and!; [done..|by exists tm].
  - pose proof (header_of_wf en f) as Hwf. fold h0 in Hwf. assert (wf_time (first_time h0)) as Hwt by apply Hwf.
    assert (stable en entries f (dummy 1 (first_time h0))) as Hs.
    { exists (block h0). fold h0. split_and!; [done|by apply dummy_wf|..|done| |done].
      - constructor; fold h0; try done. change (Some (first_time h0) = Some (last_time h0)). by rewrite Hfl.
      - intros i t' u Hi. apply list_lookup_singleton_Some in Hi as [-> [= <- <-]]. by split_and!. }
    destruct (bad_header_false en no_fault entries (fun _ => eq_refl) Hent f t2 p _ Hs) as [t4 E4]. fold h0 in E4. rewrite E4 in E3.
    injection E3 as <- <-. exists f, t4, (dummy 1 (first_time h0)). split_and!; [done..|]. by exists (first_time h0).
Qed.

(** ** What the disk holds during a batch *)

(** From a file and a header in [P], [m] ends well in [Q] or fails in [R]. *)
Definition ends {A} (P : bytes -> UlogHeader -> Prop) (m : U A) (Q : A -> bytes -> UlogHeader -> Prop) (R : bytes -> Prop) : Prop :=
  forall f t h p, P f h ->
  match m (mkU f t h p) with (s, Ok a) => Q a (u_file s) (u_hdr s) | (s, Err _) => R (u_file s) end.

Lemma ends_bind {A B} P (m : U A) Q (k : A -> U B) Q' R :
  ends P m Q R -> (forall a, ends (Q a) (k a) Q' R) -> ends P (bind m k) Q' R.
Proof using.
  intros Hm Hk f t h p HP. specialize (Hm f t h p HP). unfold bind.
  destruct (m (mkU f t h p)) as [[f1 t1 h1 p1] [a|e]]; [|done]. exact (Hk a f1 t1 h1 p1 Hm).
Qed.

Lemma ends_weak {A} (P P' : bytes -> UlogHeader -> Prop) (m : U A) (Q Q' : A -> bytes -> UlogHeader -> Prop) (R R' : bytes -> Prop) :
  (forall f h, P' f h -> P f h) -> (forall a f h, Q a f h -> Q' a f h) -> (forall f, R f -> R' f) -> ends P m Q R -> ends P' m Q' R'.
Proof using.
  intros HP HQ HR Hm f t h p H. specialize (Hm f t h p (HP _ _ H)). destruct (m (mkU f t h p)) as [s [a|e]]; auto.
Qed.

Lemma ends_ret {A} P (a : A) R : ends P (ret a) (fun b f h => b = a /\ P f h) R.
Proof using. intros f t h p H. done. Qed.

Lemma ends_skip P R : ends P (ret tt) (fun _ => P) R.
Proof using. intros f t h p H. done. Qed.

Lemma ends_err {A} P (e : UlogError) Q : ends P (lift (A := A) (Err e)) Q (fun f => exists h, P f h).
Proof using. intros f t h p H. by exists h. Qed.

Lemma ends_get P R : ends P (reading u_hdr) (fun h0 f h => h0 = h /\ P f h) R.
Proof using. intros f t h p H. done. Qed.

Lemma ends_hdr P (g : UlogHeader -> UlogHeader) R :
  ends P (assign (fun s => set_hdr (g (u_hdr s)) s)) (fun _ f h => exists h0, h = g h0 /\ P f h0) R.
Proof using. intros f t h p H. by exists h. Qed.

Lemma ends_set_hdr P h1 R : ends P (assign (set_hdr h1)) (fun _ f h => h = h1 /\ exists h0, P f h0) R.
Proof using. intros f t h p H. split; [done|by exists h]. Qed.

Lemma ends_appended P v R : ends P (assign (set_appended v)) (fun _ => P) R.
Proof using. intros f t h p H. done. Qed.

Lemma ends_call (P : bytes -> UlogHeader -> Prop) (R : bytes -> Prop) :
  (forall f h, P f h -> R f) -> ends P (call fault) (fun _ => P) R.
Proof using. intros HR f t h p H. unfold call. cbn. destruct (fault t); [exact (HR _ _ H)|done]. Qed.

Lemma ends_read (P : bytes -> UlogHeader -> Prop) (R : bytes -> Prop) n a :
  (forall f h, P f h -> R f) -> ends P (read_at fault n a) (fun _ => P) R.
Proof using. intros HR f t h p H. unfold read_at. cbn [u_tick]. destruct (fault t); [exact (HR _ _ H)|done]. Qed.

Lemma ends_now P R : ends P (now clock) (fun tm f h => wf_time tm /\ P f h) R.
Proof using Hclock. intros f t h p H. split; [apply Hclock|done]. Qed.

Lemma ends_write (P : bytes -> UlogHeader -> Prop) b a Q R :
  (forall f h, P f h -> Q tt (write_bytes f b (Z.to_nat a)) h) ->
  (forall f h k, P f h -> R (write_bytes f (take k b) (Z.to_nat a))) -> ends P (write_at fault b a) Q R.
Proof using.
  intros HQ HR f t h p H. unfold write_at. cbn [u_tick]. destruct (fault t) as [k|]; [exact (HR _ _ _ H)|exact (HQ _ _ H)].
Qed.

(** During a batch: the mark on the disk, and a header under way. *)
Definition busy (f : bytes) (h : UlogHeader) : Prop := marked f /\ fine h.
Definition fresh (f : bytes) (_ : UlogHeader) : Prop := renewed f.

Lemma ent_high i B : 0 <= i -> 0 <= B -> (40 <= Z.to_nat (ent_at i B))%nat.
Proof using. intros Hi HB. unfold ent_at, HDR_LEN. nia. Qed.

(** Facts about values. *)
Lemma ends_pure {A} (X : Prop) P (m : U A) Q R : (X -> ends P m Q R) -> ends (fun f h => X /\ P f h) m Q R.
Proof using. intros H f t h p [HX HP]. by apply H. Qed.

Lemma fresh_call : ends fresh (call fault) (fun _ => fresh) renewed.
Proof using. by apply ends_call. Qed.

Lemma fresh_write b a : (40 <= Z.to_nat a)%nat -> ends fresh (write_at fault b a) (fun _ => fresh) renewed.
Proof using. intros Ha. apply ends_write; intros; by apply renewed_high. Qed.

Lemma fresh_header tm : ends fresh (sync_header en fault (new_top tm)) (fun _ => fresh) renewed.
Proof using Hmax.
  eapply ends_bind with (Q := fun _ => fresh); [|intros []; apply fresh_call]. apply ends_write; intros f h; [intros H|intros k H; by apply (renewed_header f tm k)].
  rewrite <- (take_ge (encode_header en _) 40) by (by rewrite length_encode_header). by apply (renewed_header f tm 40).
Qed.

Lemma ends_reset :
  ends fresh (reset en clock fault entries) (fun h' f _ => (exists tm, wf_time tm /\ h' = new_top tm) /\ renewed f) renewed.
Proof using Hent Hmax Hclock.
  unfold reset. eapply ends_bind; [apply ends_now|]. intros tm. apply ends_pure. intros Ht. unfold set_dummy.
  assert (0 <= slot entries 1) as Hs by (apply slot_range; done).
  eapply ends_bind; [eapply ends_bind; [apply fresh_write; by apply ent_high|]|].
  { intros []. eapply ends_bind; [apply fresh_call|]. intros []. apply ends_ret. }
  intros h'. apply ends_pure. intros ->. eapply ends_bind; [apply (fresh_header tm)|]. intros [].
  eapply ends_weak; [| | |apply ends_ret]; [done| |done]. intros h' f h [-> H]. split; [by exists tm|done].
Qed.

Lemma fine_new_top tm : fine (set_state_of KDB_UNSTABLE (new_top tm)).
Proof using Hmax. split_and!; [done..|]. apply block_least. Qed.

Lemma ends_restart : ends fresh (restart en clock fault entries) (fun _ => busy) renewed.
Proof using Hent Hmax Hclock.
  unfold restart. eapply ends_bind with (Q := fun _ f h => (exists tm, h = new_top tm) /\ renewed f).
  - eapply ends_bind; [apply ends_reset|]. intros h'. apply ends_pure. intros (tm & _ & ->).
    eapply ends_weak; [| | |apply (ends_set_hdr fresh)]; [by intros| |by intros; eassumption]. intros [] f h [-> [h0 H]]. split; [by exists tm|exact H].
  - intros []. unfold set_state. eapply ends_bind; [apply (ends_hdr _ (set_state_of KDB_UNSTABLE))|]. intros [].
    apply ends_write.
    + intros f h (h0 & -> & (tm & ->) & H). split; [by apply renewed_marked|apply fine_new_top].
    + intros f h k (h0 & _ & _ & H). by apply renewed_mark.
Qed.

Lemma busy_renewed f h : busy f h -> renewed f.
Proof using. intros [H _]. by left. Qed.

Lemma busy_call : ends busy (call fault) (fun _ => busy) renewed.
Proof using. apply ends_call, busy_renewed. Qed.

Lemma busy_read n a : ends busy (read_at fault n a) (fun _ => busy) renewed.
Proof using. apply ends_read, busy_renewed. Qed.

Lemma busy_write b a : (40 <= Z.to_nat a)%nat -> ends busy (write_at fault b a) (fun _ => busy) renewed.
Proof using.
  intros Ha. apply ends_write; intros f h; [intros [H Hh]|intros k [H Hh]; left]; [split; [|done]|]; by apply marked_high.
Qed.

Lemma busy_header h : fine h -> ends busy (sync_header en fault h) (fun _ => busy) renewed.
Proof using.
  intros Hh. eapply ends_bind with (Q := fun _ => busy); [|intros []; apply busy_call]. apply ends_write; intros f h0; [intros [H H0]|intros k [H H0]; left; by apply marked_header].
  split; [|done]. rewrite <- (take_ge (encode_header en h) 40) by (by rewrite length_encode_header). by apply marked_header.
Qed.

Lemma busy_extend_loop fuel size at_ : 40 <= at_ -> ends busy (extend_loop fault fuel size at_) (fun _ => busy) renewed.
Proof using.
  revert at_. induction fuel as [|fuel IH]; intros at_ Ha; cbn [extend_loop]; [apply ends_skip|].
  destruct (Z.ltb_spec at_ size); [|apply ends_skip]. eapply ends_bind; [apply busy_write; lia|]. intros [].
  apply IH. unfold CHUNK. lia.
Qed.

Lemma busy_move n old new : 0 <= new -> ends busy (move_blocks fault n old new) (fun _ => busy) renewed.
Proof using.
  intros Hn. induction n as [|n IH]; cbn [move_blocks]; [apply ends_skip|].
  eapply ends_bind; [apply busy_read|]. intros b. eapply ends_bind with (Q := fun _ => busy); [|intros []; exact IH]. apply busy_write, ent_high; lia.
Qed.

Lemma busy_err {A} (e : UlogError) Q : ends busy (lift (A := A) (Err e)) Q renewed.
Proof using. intros f t h p H. exact (busy_renewed _ _ H). Qed.

Lemma busy_get : ends busy (reading u_hdr) (fun h0 f h => fine h0 /\ busy f h) renewed.
Proof using. intros f t h p H. split; [apply H|exact H]. Qed.

Lemma busy_hdr g : (forall h, fine h -> fine (g h)) -> ends busy (assign (fun s => set_hdr (g (u_hdr s)) s)) (fun _ => busy) renewed.
Proof using. intros Hg f t h p [H Hh]. split; [done|by apply Hg]. Qed.

Lemma busy_set_hdr h1 : fine h1 -> ends busy (assign (set_hdr h1)) (fun _ => busy) renewed.
Proof using. intros Hh1 f t h p [H Hh]. by split. Qed.

Lemma busy_extend_to B : ends busy (extend_to fault entries B) (fun _ => busy) renewed.
Proof using.
  unfold extend_to. destruct (_ <? _); [apply busy_err|]. eapply ends_bind with (Q := fun n f h => 40 <= n /\ busy f h).
  - unfold len. eapply ends_bind; [apply busy_call|]. intros [] f t h p H. split; [apply H|done].
  - intros n. apply ends_pure. intros Hn. by apply busy_extend_loop.
Qed.

Lemma busy_resize r : 0 <= r -> ends busy (resize en fault entries r) (fun _ => busy) renewed.
Proof using.
  intros Hr. unfold resize. eapply ends_bind; [apply busy_get|]. intros h0. apply ends_pure. intros Hh0. cbv beta zeta.
  fold (block_for r). destruct (_ || _) eqn:Eb; [apply busy_err|]. apply orb_false_iff in Eb as [E1 E2]. apply Z.ltb_ge in E1, E2.
  assert (block_ok entries (block_for r)) as HB.
  { assert (block_for r mod ULOG_BLOCK = 0) by (apply Z.mod_mul; done). assert (ULOG_BLOCK <= block_for r).
    { unfold block_for, ULOG_BLOCK. pose proof (Z.div_pos r 2048 Hr ltac:(lia)). lia. }
    unfold block_ok, U16_MAX in *. split; [split; [lia|done]|lia]. }
  assert (0 <= block_for r) by (destruct HB as [[? _] _]; unfold ULOG_BLOCK in *; lia).
  eapply ends_bind; [apply busy_extend_to|]. intros []. eapply ends_bind; [by apply busy_move|]. intros [].
  eapply ends_bind; [apply (busy_hdr (set_block (block_for r))); intros h (? & ? & _); by split_and!|]. intros [].
  eapply ends_bind; [apply busy_get|]. intros h1. apply ends_pure. intros Hh1. by apply busy_header.
Qed.

Lemma busy_ent_header i B : ends busy (ent_header en fault i B) (fun _ => busy) renewed.
Proof using. eapply ends_bind; [apply busy_read|]. intros b f t h p H. exact H. Qed.

Lemma fine_last sno tm h : fine h -> fine (set_last_of sno tm h).
Proof using. done. Qed.

Lemma fine_first n sno tm h : fine h -> fine (set_first_of n sno tm h).
Proof using. done. Qed.

Lemma busy_walked {A} (r : result XdrError A) : ends busy (walked r) (fun _ => busy) renewed.
Proof using. destruct r; [intros f t h p H; exact H|apply busy_err]. Qed.

Lemma busy_put_entry u : ends busy (put_entry en fault entries u) (fun _ => busy) renewed.
Proof using Hent.
  unfold put_entry. eapply ends_bind; [apply busy_walked|]. intros w. destruct (_ <? _); [apply busy_err|].
  eapply ends_bind; [apply busy_get|]. intros h0. apply ends_pure. intros _.
  eapply ends_bind with (Q := fun _ => busy).
  { destruct (_ <? _); [|apply ends_skip]. apply busy_resize. unfold ENT_HDR_LEN, blen. lia. }
  intros []. eapply ends_bind; [apply busy_get|]. intros h1. apply ends_pure. intros (_ & _ & [[HB _] _]).
  eapply ends_bind.
  { apply busy_write, ent_high; [apply slot_range; done|unfold ULOG_BLOCK in HB; lia]. }
  intros []. eapply ends_bind; [apply (busy_hdr (set_last_of _ _)), fine_last|]. intros [].
  eapply ends_bind; [apply busy_get|]. intros h2. apply ends_pure. intros Hh2.
  destruct (_ =? _); [by apply busy_set_hdr, fine_first|]. destruct (_ <? _); [by apply busy_set_hdr, fine_first|].
  eapply ends_bind; [apply busy_ent_header|]. intros e. by apply busy_set_hdr, fine_first.
Qed.

Lemma busy_when c : ends busy (when c (restart en clock fault entries)) (fun _ => busy) renewed.
Proof using Hent Hmax Hclock.
  unfold when. eapply ends_bind; [apply busy_get|]. intros h0. apply ends_pure. intros _. destruct (c h0); [|apply ends_skip].
  eapply ends_weak; [| | |apply ends_restart]; [|done|done]. intros f h H. exact (busy_renewed _ _ H).
Qed.

Lemma busy_next_update nm deleted kdbe : ends busy (next_update clock nm deleted kdbe) (fun _ => busy) renewed.
Proof using. intros f t h p H. exact H. Qed.

Lemma busy_note n : ends busy (stage_note en clock fault entries n) (fun _ => busy) renewed.
Proof using Hent Hmax Hclock.
  destruct n as [nm deleted kdbe| |u]; cbn [stage_note].
  - eapply ends_bind with (Q := fun _ => busy); [|intros x f t h p H; exact H]. unfold batch_add_update.
    eapply ends_bind; [apply ends_appended|]. intros []. eapply ends_bind; [apply busy_when|]. intros [].
    eapply ends_bind; [apply busy_next_update|]. intros [x update]. eapply ends_bind; [apply busy_put_entry|].
    intros [] f t h p H. exact H.
  - eapply ends_bind; [apply ends_appended|]. intros [].
    eapply ends_weak; [| | |apply ends_restart]; [|done|done]. intros f h H. exact (busy_renewed _ _ H).
  - unfold batch_replay_update. eapply ends_bind; [apply busy_walked|]. intros w. eapply ends_bind; [apply ends_appended|]. intros [].
    eapply ends_bind; [apply busy_when|]. intros []. apply busy_put_entry.
Qed.

Lemma busy_notes ready : ends busy (each (stage_note en clock fault entries) ready) (fun _ => busy) renewed.
Proof using Hent Hmax Hclock.
  induction ready as [|n ready IH]; cbn [each]; [apply ends_skip|]. eapply ends_bind; [apply busy_note|]. by intros [].
Qed.

(** ** The parts of a logged write *)

Lemma same_top f g :
  read_bytes f 40 0 = read_bytes g 40 0 -> (forall i, (40 <= i)%nat -> byte_at f i = byte_at g i) -> same_bytes f g.
Proof using.
  intros E H i. destruct (decide (i < 40)%nat) as [Hi|Hi]; [|apply H; lia].
  pose proof (byte_at_read f 40 0 i Hi) as E1. pose proof (byte_at_read g 40 0 i Hi) as E2. cbn [Nat.add] in E1, E2. congruence.
Qed.

(** A torn mark on a stable log. *)
Lemma stable_mark f l k : stable en entries f l ->
  let g := write_bytes f (take k (to_ne16 en KDB_UNSTABLE)) (Z.to_nat STATE_AT) in stable en entries g l \/ marked g.
Proof using Hent.
  intros Hs g. pose proof Hs as (B & HB & _ & Hd & Hst & _ & Hl).
  destruct (top_split en f (de_magic _ _ _ Hd)) as (z & Hz & E). rewrite Hst, (de_block _ _ _ Hd) in E.
  destruct (torn_mark f KDB_UNSTABLE k z KDB_STABLE B Hz) as (st & Hst' & E'); [apply near_states; by auto|done|]. fold g in E'.
  assert (HDR_LEN <= blen g) as Hlg by by apply torn_len.
  destruct Hst' as [-> | ->]; [left|right; split; [done|by exists z, B]].
  apply (same_stable en entries Hent f g); [|unfold blen, g; pose proof (length_write_ge f (take k (to_ne16 en KDB_UNSTABLE)) (Z.to_nat STATE_AT)); lia|done].
  apply same_top; [congruence|]. intros i Hi.
  apply write_out. rewrite length_take, length_ne16. change (Z.to_nat STATE_AT) with 36%nat. lia.
Qed.

Lemma stable_marked f l : stable en entries f l -> marked (write_bytes f (to_ne16 en KDB_UNSTABLE) (Z.to_nat STATE_AT)).
Proof using.
  intros Hs. pose proof Hs as (B & HB & _ & Hd & Hst & _ & Hl).
  destruct (top_split en f (de_magic _ _ _ Hd)) as (z & Hz & E). rewrite Hst, (de_block _ _ _ Hd) in E.
  split; [by apply torn_len|]. exists z, B. split_and!; [done..|].
  pose proof (read_torn_mark f KDB_UNSTABLE 2 z _ B Hz E) as Er. rewrite take_ge in Er by (rewrite length_ne16; lia).
  rewrite Er, mix_all; [done|by rewrite !length_ne16|by rewrite length_ne16].
Qed.

Definition before (l : Log) (f : bytes) : Prop := stable en entries f l \/ renewed f.

Lemma ends_begin l :
  ends (fun f _ => stable en entries f l) (begin en clock fault entries) (fun _ => busy) (before l).
Proof using Hent.
  unfold begin, lock. eapply ends_bind; [apply ends_call; by left|].
  intros []. eapply ends_bind with (Q := fun _ f h => h = header_of en f /\ stable en entries f l).
  { intros f t h p H. unfold load_header, header, bind, read_at. cbn [u_tick]. destruct (fault t); [by left|done]. }
  intros []. eapply ends_bind with (Q := fun _ f h => h = header_of en f /\ stable en entries f l).
  { intros f t h p [-> H]. destruct (stable_ring en entries f l H) as (B & _ & Hst). unfold when, bind, reading, unstable. cbn [u_hdr].
    rewrite Hst. done. }
  intros []. eapply ends_bind with (Q := fun _ => busy); [|intros []; apply ends_appended]. unfold set_state.
  eapply ends_bind; [apply (ends_hdr _ (set_state_of KDB_UNSTABLE))|]. intros []. apply ends_write.
  - intros f h (h0 & -> & -> & H). split; [by apply (stable_marked f l)|].
    destruct (stable_ring en entries f l H) as (B & (HB & _ & Hd & _) & _). split_and!; [apply Hd|done|]. cbn [set_state_of block].
    by rewrite (de_block _ _ _ Hd).
  - intros f h k (h0 & -> & -> & H). destruct (stable_mark f l k H); [by left|by right; left].
Qed.

(** The header under way is on the disk. *)
Definition staged (f : bytes) (h : UlogHeader) : Prop :=
  HDR_LEN <= blen f /\ fine h /\ read_bytes f 40 0 = encode_header en h.

Lemma ends_stage : ends busy (stage en fault) (fun _ => staged) renewed.
Proof using.
  unfold stage. intros f t h p [H Hh]. unfold bind, reading, write_header, write_at. cbn [u_hdr u_tick u_file ticked set_file].
  destruct (fault t) as [k|]; [left; by apply marked_header|]. split_and!; [apply write_header_len|apply Hh..|].
  rewrite <- (length_encode_header en h). apply read_write_same.
Qed.

Lemma staged_marked f h : staged f h -> marked f.
Proof using.
  intros (Hl & (Hm & Hst & HB) & E). split; [done|]. exists (body en h), (block h).
  split_and!; [apply length_body|done|]. by rewrite E, encode_top, Hst.
Qed.

(** The write that settles it leaves the new log or the mark. *)
Lemma staged_settled f h l k :
  staged f h -> working en entries f h l ->
  let g := write_bytes f (take k (encode_header en (set_state_of KDB_STABLE h))) 0 in
  stable en entries g l \/ marked g.
Proof using Hent.
  intros (Hl & (Hm & Hst & HB) & E) [B Hr] g. assert (HDR_LEN <= blen g) as Hlg by by apply torn_len.
  assert (read_bytes g 40 0 = mix k (encode_header en (set_state_of KDB_STABLE h)) (encode_header en h)) as Eg.
  { unfold g. by rewrite read_torn_header, E. }
  rewrite (encode_top en h) in Eg by done. rewrite Hst in Eg. rewrite (encode_top en (set_state_of KDB_STABLE h)) in Eg by done.
  change (body en (set_state_of KDB_STABLE h)) with (body en h) in Eg.
  change (block (set_state_of KDB_STABLE h)) with (block h) in Eg. change (state (set_state_of KDB_STABLE h)) with KDB_STABLE in Eg.
  destruct (mix_top en k (body en h) KDB_STABLE (block h) (body en h) KDB_UNSTABLE (block h)) as (st & B' & Em & HB' & Hs);
    [apply length_body|apply length_body|apply near_states; by auto|by apply near_blocks|].
  rewrite Em, mix_same in Eg. assert (B' = block h) as -> by (by destruct HB').
  destruct Hs as [-> |[-> _]]; [right; split; [done|]; eexists _, _; split_and!; [apply length_body|exact HB|done]|left].
  pose proof (settled_stable en entries Hent f h B l Hr) as Hs.
  apply (same_stable en entries Hent (settled en f h) g); [| |done].
  - apply same_top.
    + rewrite Eg. unfold settled. rewrite <- (length_encode_header en (set_state_of KDB_STABLE h)), read_write_same.
      by rewrite encode_top.
    + intros i Hi. unfold g, settled. rewrite !write_out; [done|rewrite length_encode_header; lia|rewrite length_take, length_encode_header; lia].
  - unfold settled, blen. rewrite length_write, length_encode_header; [|intros Hz; apply (f_equal length) in Hz; by rewrite length_encode_header in Hz].
    unfold HDR_LEN, blen in *. pose proof (length_write_ge f (take k (encode_header en (set_state_of KDB_STABLE h))) 0). fold g in H. lia.
Qed.

Lemma ends_finish l :
  ends (fun f h => staged f h /\ working en entries f h l) (settle en fault) (fun _ f _ => stable en entries f l) (before l).
Proof using Hent.
  unfold settle, sync. eapply ends_bind; [apply ends_call|].
  { intros f h [H _]. right; left. exact (staged_marked _ _ H). }
  intros [] f t h p [Hst Hw]. pose proof (fun k => staged_settled f h l k Hst Hw) as Ht. cbv zeta in Ht.
  unfold assign, reading, sync_header, write_header, write_at, sync, call.
  repeat (unfold bind at 1; cbn [u_hdr u_tick u_file ticked set_file set_hdr]).
  destruct (fault t) as [k|]; [destruct (Ht k); [by left|by right; left]|]. cbn [u_tick u_file ticked set_file set_hdr].
  destruct Hw as [B Hr]. pose proof (settled_stable en entries Hent f h B l Hr) as Hs.
  destruct (fault (S t)); [left|]; exact Hs.
Qed.

(** ** The mark of a batch that has written *)

Definition keeps {A} (m : U A) : Prop := forall s, u_appended (fst (m s)) = u_appended s.

Lemma keeps_bind {A B} (m : U A) (k : A -> U B) : keeps m -> (forall a, keeps (k a)) -> keeps (bind m k).
Proof using. intros Hm Hk s. specialize (Hm s). unfold bind. destruct (m s) as [s1 [a|e]]; [|done]. cbn [fst] in Hm. by rewrite Hk. Qed.

Lemma keeps_write b a : keeps (write_at fault b a).
Proof using. intros s. unfold write_at. by destruct (fault (u_tick s)). Qed.

Ltac keeps :=
  repeat first
    [ solve [intros ?; reflexivity] | apply keeps_write | assumption
    | match goal with |- keeps (bind _ _) => apply keeps_bind; [|intros ?] end
    | match goal with |- keeps (if ?b then _ else _) => destruct b end
    | match goal with |- keeps (match ?x with _ => _ end) => destruct x end ].

Lemma keeps_extend_loop fuel size at_ : keeps (extend_loop fault fuel size at_).
Proof using. revert at_. induction fuel as [|fuel IH]; intros at_; cbn [extend_loop]; keeps. apply IH. Qed.

Lemma keeps_move n old new : keeps (move_blocks fault n old new).
Proof using. induction n as [|n IH]; cbn [move_blocks]; keeps. Qed.

Lemma keeps_resize r : keeps (resize en fault entries r).
Proof using.
  unfold resize, extend_to, sync_header, write_header, sync, len. keeps; [apply keeps_extend_loop|apply keeps_move].
Qed.

Lemma keeps_put_entry u : keeps (put_entry en fault entries u).
Proof using. unfold put_entry, ent_header, walked. keeps. apply keeps_resize. Qed.

Lemma keeps_restart : keeps (restart en clock fault entries).
Proof using. unfold restart, reload, reset, set_dummy, set_state, sync_header, write_header, sync. keeps. Qed.

(** A note that can be taken sets it. *)
Lemma note_appends n s : (u_appended s = true \/ exists sno, takes n sno) -> u_appended (fst (stage_note en clock fault entries n s)) = true.
Proof using.
  intros Hn. pose proof keeps_restart as Hr. destruct n as [nm deleted kdbe| |u]; cbn [stage_note].
  - unfold batch_add_update, bind at 1 2, assign. cbn [fst].
    assert (forall m : U UlogLast, keeps m -> u_appended (fst (let (s1, r) := m (set_appended true s) in
      match r with Ok a => ret tt s1 | Err e => (s1, Err e) end)) = true) as H; [|apply H].
    { intros m Hm. specialize (Hm (set_appended true s)). by destruct (m _) as [s1 [a|e]]. }
    unfold when, next_update. keeps. apply keeps_put_entry.
  - unfold batch_init_header, bind, assign. by rewrite Hr.
  - unfold batch_replay_update, bind at 1, walked, lift. destruct (walk_incr_update u) eqn:Ew.
    + unfold bind at 1, assign. assert (keeps (do! when (out_of_turn (l_sno a)) (restart en clock fault entries); put_entry en fault entries u)) as H.
      { unfold when. keeps. apply keeps_put_entry. } by rewrite H.
    + destruct Hn as [Hn|(sno & _ & sno' & tm & (w & Hw & _) & _)]; [done|congruence].
Qed.

Lemma notes_append ready s sno : ready <> [] -> takes_all ready sno -> u_appended (fst (each (stage_note en clock fault entries) ready s)) = true.
Proof using.
  intros Hne Ht. assert (forall ready s, u_appended s = true -> u_appended (fst (each (stage_note en clock fault entries) ready s)) = true) as Hk.
  { clear. induction ready as [|n ready IH]; intros s Hs; cbn [each]; [done|]. unfold bind at 1.
    pose proof (note_appends n s (or_introl Hs)) as Hn. destruct (stage_note _ _ _ _ n s) as [s1 [[]|e]]; [by apply IH|done]. }
  destruct ready as [|n ready]; [done|]. cbn [each]. unfold bind at 1.
  pose proof (note_appends n s (or_intror (ex_intro _ sno (proj1 Ht)))) as Hn.
  destruct (stage_note _ _ _ _ n s) as [s1 [[]|e]]; [by apply Hk|done].
Qed.

Lemma stage_appended ready s sno :
  ready <> [] -> takes_all ready sno -> u_appended (fst (stage_notes en clock fault entries ready s)) = true.
Proof using.
  intros Hne Ht. pose proof (notes_append ready s sno Hne Ht) as Hn. unfold stage_notes, bind.
  destruct (each _ ready s) as [s1 [[]|e]]; [|done]. cbn [fst] in Hn.
  assert (keeps (stage en fault)) as Hk by (unfold stage, write_header; keeps). by rewrite Hk.
Qed.

(** ** The whole write *)

Lemma reset_new s : renewed (u_file s) -> renewed (u_file (fst (reset en clock fault entries s))).
Proof using Hent Hmax Hclock.
  destruct s as [f t h p]. intros H. pose proof (ends_reset f t h p H) as Hr.
  by destruct (reset _ _ _ _ (mkU f t h p)) as [s [a|e]]; [apply Hr|].
Qed.

Lemma abandon_new s : u_appended s = true -> renewed (u_file s) -> renewed (u_file (fst (abandon en clock fault entries s))).
Proof using Hent Hmax Hclock.
  intros Hp Hn. unfold abandon, bind at 1, reading. rewrite Hp. pose proof (reset_new s Hn) as Hr. unfold bind.
  by destruct (reset _ _ _ _ s) as [s1 [a|e]].
Qed.

Lemma write_failed_new {E} ready s : renewed (u_file s) ->
  exists s', write_failed en clock fault entries true ready s = (s', @Ok (LoggedWrite E) unit tt) /\ renewed (u_file s').
Proof using Hent Hmax Hclock.
  intros Hn. unfold write_failed. destruct (_ && true); [|by exists s]. eexists. split; [reflexivity|].
  unfold init_header, lock, call, bind. destruct (fault (u_tick s)); [done|].
  pose proof (reset_new (ticked s) Hn) as Hr. by destruct (reset _ _ _ _ (ticked s)) as [s1 [a|e]].
Qed.

(** How a file is opened. *)
Definition opens (s : UState) (P : Log -> Prop) : Prop :=
  exists s' l, check_mapped en clock no_fault entries s = (s', Ok tt) /\ stable en entries (u_file s') l /\ P l.

Lemma opens_new s P : renewed (u_file s) -> (forall l, is_new l -> P l) -> opens s P.
Proof using Hent Hmax Hclock.
  destruct s as [f t h p]. intros Hn HP. destruct (renewed_opens f t h p Hn) as (f' & t' & h' & l & E & Hs & Hl).
  eexists _, l. split_and!; [exact E|exact Hs|by apply HP].
Qed.

Lemma opens_stable s l P : stable en entries (u_file s) l -> P l -> opens s P.
Proof using Hent Hmax Hclock.
  destruct s as [f t h p]. intros Hs HP.
  destruct (check_mapped_ok en clock no_fault entries (fun _ => eq_refl) Hent Hmax Hclock f t h p (Some l) Hs)
    as (f' & t' & h' & tm & E & _ & Hs'). eexists _, l. split_and!; [exact E|exact Hs'|done].
Qed.

Lemma opens_before s l P : before l (u_file s) -> P l -> (forall l, is_new l -> P l) -> opens s P.
Proof using Hent Hmax Hclock. intros [H|H] Hl Hn; [by apply (opens_stable s l)|by apply opens_new]. Qed.

(** The notes are staged, or nothing is left of the log. *)
Lemma staged_or_new ready f t h l :
  working en entries f h l -> busy f h -> ready <> [] -> takes_all ready (lg_last l) ->
  match stage_notes en clock fault entries ready (mkU f t h false) with
  | (s, Ok _) => u_appended s = true /\ staged (u_file s) (u_hdr s) /\
      exists l', working en entries (u_file s) (u_hdr s) l' /\ taken entries ready l (Ok tt) (Some l')
  | (s, Err _) => u_appended s = true /\ renewed (u_file s)
  end.
Proof using Hent Hmax Hclock.
  intros Hw Hb Hne Ht. pose proof (stage_appended ready (mkU f t h false) _ Hne Ht) as Hp.
  assert (ends busy (stage_notes en clock fault entries ready) (fun _ => staged) renewed) as He.
  { eapply ends_bind; [apply busy_notes|]. intros []. apply ends_stage. }
  specialize (He f t h false Hb). destruct (stage_notes en clock fault entries ready (mkU f t h false)) as [s [[]|e]] eqn:Es; [|done].
  split_and!; [done..|]. apply honest_stage_notes in Es.
  destruct (stage_notes_ok en clock no_fault entries (fun _ => eq_refl) Hent Hmax Hclock ready f t h false l Hw Ht Hne)
    as (f' & t' & h' & r & a & E & Hl & Hn & Htk).
  rewrite Es in E. injection E as -> <-. destruct a as [l'|]; [|by specialize (Hn eq_refl)]. exists l'. split; [by apply Hl|done].
Qed.

(** C9: A change of the database is never missing from the log.  Whatever calls of
    the operating system fail, and however much of a failing write reaches the disk,
    in a write of the database under the log - from the marking of the log to its
    settling, or in the steps that give it up - the file is opened afterwards without
    error: as a new log, from which every replica resynchronises in full; as the log
    before the write, only if the database was not written; or as the log with the
    changes, only if it was.  A success means the latter. *)
Theorem log_never_lags {E} ready (write : result E unit) f t h p l :
  stable en entries f l -> ready <> [] -> takes_all ready (lg_last l) ->
  let '(s, r) := write_logged en clock fault entries true ready write (mkU f t h p) in
  opens s (fun l' =>
    match r with
    | Ok _ => write = Ok tt /\ taken entries ready l (Ok tt) (Some l')
    | Err (After _) => write = Ok tt /\ (taken entries ready l (Ok tt) (Some l') \/ is_new l')
    | Err (WriteErr e) => write = Err e /\ is_new l'
    | Err (Before _) => l' = l \/ is_new l'
    end).
Proof using Hent Hmax Hclock.
  intros Hs Hne Ht. unfold write_logged, write_staged. rewrite bool_decide_eq_false_2 by done. cbn [andb negb].
  unfold bind, map_err, ignore, lift, ret. pose proof (ends_begin l f t h p Hs) as Hb.
  destruct (begin en clock fault entries (mkU f t h p)) as [s1 [[]|e]] eqn:Eb; [|by apply (opens_before s1 l); auto].
  apply honest_begin in Eb.
  destruct (begin_ok en clock no_fault entries (fun _ => eq_refl) Hent Hmax Hclock f t h p (Some l) Hs)
    as (f1 & h1 & tm & [t1 E1] & _ & Hw). rewrite Eb in E1. injection E1 as ->. cbn [u_file u_hdr base never] in Hb, Hw.
  pose proof (staged_or_new ready f1 t1 h1 l Hw Hb Hne Ht) as Hst.
  destruct (stage_notes en clock fault entries ready (mkU f1 t1 h1 false)) as [[f2 t2 h2 p2] [[]|e]].
  - destruct Hst as (Hp & Hsd & l' & Hw' & Htk). cbn [u_file u_hdr] in *. destruct write as [[]|e].
    + pose proof (ends_finish l' f2 t2 h2 p2 (conj Hsd Hw')) as Hf. unfold finish_staged, finish.
      destruct (settle en fault (mkU f2 t2 h2 p2)) as [s3 [[]|e]]; [by apply (opens_stable s3 l')|]. apply (opens_before s3 l'); auto.
    + pose proof (abandon_new (mkU f2 t2 h2 p2) Hp (or_introl (staged_marked _ _ Hsd))) as Ha.
      destruct (@write_failed_new E ready _ Ha) as (s4 & -> & Hn). apply opens_new; auto.
  - destruct Hst as [Hp Hn]. apply opens_new; [by apply abandon_new|auto].
Qed.

End Crash.

(** The write that settles the log is cut short after its state. *)
Definition torn (i : nat) : option nat := if (i =? 21)%nat then Some 37%nat else None.
Definition sample_ready : list Ready := [ReadyPut (lit_bytes "a@R") false sample_kdbe].
Definition sample_write : UState * result (LoggedWrite unit) unit :=
  write_logged Little sample_clock torn 2 true sample_ready (Ok tt) sample_start.

Lemma log_never_lags_witness :
  exists tm, snd sample_write = Err (After Io) /\
    opens Little sample_clock 2 (fst sample_write)
      (fun l => @Ok unit unit tt = Ok tt /\ (taken 2 sample_ready (dummy 1 tm) (Ok tt) (Some l) \/ is_new l)).
Proof.
  assert (forall i, wf_time (sample_clock i)) as Hc.
  { intros i. unfold wf_time, sample_clock, is_u32. cbn [seconds useconds]. pose proof (Z.mod_pos_bound (Z.of_nat i) (2 ^ 32)). lia. }
  assert (snd sample_write = Err (After Io)) as Hr by (vm_compute; reflexivity).
  destruct (map_new_ok Little sample_clock no_fault 2 (fun _ => eq_refl) ltac:(done) ltac:(done) Hc 0 header_zero false)
    as (f & t & h & tm & E & Ht & Hs).
  assert (takes_all sample_ready (lg_last (dummy 1 tm))) as Htk.
  { split; [|done]. refine (@carried_change ToyPrimitives unit (fun _ _ => Err tt) Ops.sample_aes _ [AttrFlags 0x80] sample_kdbe (EncList.lit "a@R") false _ _ _ _).
    - done.
    - repeat constructor; cbn; unfold is_u32; lia.
    - reflexivity.
    - repeat constructor.
    - reflexivity. }
  pose proof (log_never_lags Little sample_clock torn 2 ltac:(done) ltac:(done) Hc sample_ready (@Ok unit unit tt) f t h false
    (dummy 1 tm) Hs ltac:(done) Htk) as H.
  assert (sample_start = mkU f t h false) as Est by (unfold sample_start; rewrite E; reflexivity).
  assert (sample_write = write_logged Little sample_clock torn 2 true sample_ready (Ok tt) (mkU f t h false)) as Ew
    by (rewrite <- Est; reflexivity).
  rewrite <- Ew in H. exists tm. split; [exact Hr|]. revert H Hr. clear Ew. generalize sample_write.
  intros [s r]. cbn [fst snd]. intros H Hr. rewrite Hr in H. exact H.
Defined.

End UlogCrash.
