(* ===== verification/StoreOps.v ===== *)
(** * Operations of the principal store

    The state of [PrincipalStore] ([krb5-kdc/src/store.rs]) and its operations
    ([store/principal.rs], [password.rs], [keys.rs], [alias.rs], [policy.rs],
    [rid.rs], [history.rs], [kadm5_hook.rs], [iprop_ulog.rs]).

    An operation takes the store and gives the store after it with a result.  The
    clock, the random draws, the registered modules and what writing the database
    and the update log answer are the class [StoreEnv]; the clock stands still
    during one operation.  A log note holds the rows before and after it, from
    which the code computes the mask of changed attributes. *)

From S2P Require Import Prelude StateErr Ascii Utf8 Etype Primitives Cts Derive Weak Ops Name EncList.
From S2P Require Import Kdc Lockout Osa History PMap Pwqual Acl Store.

Module StoreOps.
Import PMap Store.

(** ** The state *)

(** The fields of [Policy] (store/policy.rs) the operations read. *)
Record Policy := mkPolicy {
  po_max_life : Z;
  po_max_renewable_life : Z;
  po_requires_preauth : bool;
  po_default_flags : option Z;
  po_default_expiration : Z;
  po_supported : list EncList.KeySalt;
  po_pwqual : Pwqual.PluginRelations;
  po_kadm5_hook : Pwqual.PluginRelations;
  po_ad_identity : bool;
}.

Inductive IpropRole := Primary | Replica.

Inductive LogNote :=
| NPut (i : id) (deleted : bool) (before after : option Principal)
| NReset
| NReplay (raw : bytes).

Inductive HookStage := Precommit | Postcommit.

(** A call of the hook modules, with its arguments. *)
Inductive Post :=
| PChpass (princ : PrincipalName.PrincipalName) (r : bytes) (keepold : Z) (password : option bytes)
    (etypes : list EncryptionType)
| PCreate (princ : PrincipalName.PrincipalName) (r : bytes) (mask : Z) (password : option bytes)
    (etypes : list EncryptionType)
| PModify (princ : PrincipalName.PrincipalName) (r : bytes) (mask : Z)
| PRename (old : PrincipalName.PrincipalName) (old_realm : bytes) (new : PrincipalName.PrincipalName)
    (new_realm : bytes)
| PRemove (princ : PrincipalName.PrincipalName) (r : bytes)
| PAlias (alias : PrincipalName.PrincipalName) (alias_realm : bytes) (target : PrincipalName.PrincipalName)
    (target_realm : bytes).

Definition always (c : Post) : bool := match c with PCreate _ _ _ _ _ => true | _ => false end.

Record Hook := mkHook { h_name : Name.ustr; h_call : HookStage -> Post -> result KdcError unit }.

(** [s_db]: there is a database; [s_draws]: the random draws so far; [s_calls]:
    the calls made of the hook modules, newest last. *)
Record Store := mkStore {
  s_realm : bytes;
  s_map : PrincipalMap;
  s_policy : Policy;
  s_dict : option Pwqual.PwqualDict;
  s_db : bool;
  s_changed : bool;
  s_through : bool;
  s_sid : list Z;
  s_next_rid : Z;
  s_policies : gmap Name.ustr NamedPolicy;
  s_lockout : gmap id Lockout.Lockout;
  s_log : option IpropRole;
  s_pending : list LogNote;
  s_held : bool;
  s_post : option (list Post);
  s_draws : nat;
  s_calls : list (HookStage * Post);
}.

Definition set_map (v : PrincipalMap) (s : Store) : Store :=
  mkStore (s_realm s) v (s_policy s) (s_dict s) (s_db s) (s_changed s) (s_through s) (s_sid s) (s_next_rid s)
    (s_policies s) (s_lockout s) (s_log s) (s_pending s) (s_held s) (s_post s) (s_draws s) (s_calls s).
Definition set_changed (v : bool) (s : Store) : Store :=
  mkStore (s_realm s) (s_map s) (s_policy s) (s_dict s) (s_db s) v (s_through s) (s_sid s) (s_next_rid s)
    (s_policies s) (s_lockout s) (s_log s) (s_pending s) (s_held s) (s_post s) (s_draws s) (s_calls s).
Definition set_through (v : bool) (s : Store) : Store :=
  mkStore (s_realm s) (s_map s) (s_policy s) (s_dict s) (s_db s) (s_changed s) v (s_sid s) (s_next_rid s)
    (s_policies s) (s_lockout s) (s_log s) (s_pending s) (s_held s) (s_post s) (s_draws s) (s_calls s).
Definition set_identity (sid : list Z) (next : Z) (s : Store) : Store :=
  mkStore (s_realm s) (s_map s) (s_policy s) (s_dict s) (s_db s) (s_changed s) (s_through s) sid next
    (s_policies s) (s_lockout s) (s_log s) (s_pending s) (s_held s) (s_post s) (s_draws s) (s_calls s).
Definition set_policies (v : gmap Name.ustr NamedPolicy) (s : Store) : Store :=
  mkStore (s_realm s) (s_map s) (s_policy s) (s_dict s) (s_db s) (s_changed s) (s_through s) (s_sid s)
    (s_next_rid s) v (s_lockout s) (s_log s) (s_pending s) (s_held s) (s_post s) (s_draws s) (s_calls s).
Definition set_lockout (v : gmap id Lockout.Lockout) (s : Store) : Store :=
  mkStore (s_realm s) (s_map s) (s_policy s) (s_dict s) (s_db s) (s_changed s) (s_through s) (s_sid s)
    (s_next_rid s) (s_policies s) v (s_log s) (s_pending s) (s_held s) (s_post s) (s_draws s) (s_calls s).
Definition set_pending (v : list LogNote) (s : Store) : Store :=
  mkStore (s_realm s) (s_map s) (s_policy s) (s_dict s) (s_db s) (s_changed s) (s_through s) (s_sid s)
    (s_next_rid s) (s_policies s) (s_lockout s) (s_log s) v (s_held s) (s_post s) (s_draws s) (s_calls s).
Definition set_held (v : bool) (s : Store) : Store :=
  mkStore (s_realm s) (s_map s) (s_policy s) (s_dict s) (s_db s) (s_changed s) (s_through s) (s_sid s)
    (s_next_rid s) (s_policies s) (s_lockout s) (s_log s) (s_pending s) v (s_post s) (s_draws s) (s_calls s).
Definition set_post (v : option (list Post)) (s : Store) : Store :=
  mkStore (s_realm s) (s_map s) (s_policy s) (s_dict s) (s_db s) (s_changed s) (s_through s) (s_sid s)
    (s_next_rid s) (s_policies s) (s_lockout s) (s_log s) (s_pending s) (s_held s) v (s_draws s) (s_calls s).
Definition set_draws (v : nat) (s : Store) : Store :=
  mkStore (s_realm s) (s_map s) (s_policy s) (s_dict s) (s_db s) (s_changed s) (s_through s) (s_sid s)
    (s_next_rid s) (s_policies s) (s_lockout s) (s_log s) (s_pending s) (s_held s) (s_post s) v (s_calls s).
Definition set_calls (v : list (HookStage * Post)) (s : Store) : Store :=
  mkStore (s_realm s) (s_map s) (s_policy s) (s_dict s) (s_db s) (s_changed s) (s_through s) (s_sid s)
    (s_next_rid s) (s_policies s) (s_lockout s) (s_log s) (s_pending s) (s_held s) (s_post s) (s_draws s) v.

(** [random_key n e], [random_8 n], [wrap_draw n]: the [n]th draw.
    [log_write]: what writing the notes to the log answers; [write_database]:
    what writing the store to the database, with its notes to the log, answers. *)
Class StoreEnv := {
  unix_now : Z;
  random_key : nat -> EncryptionType -> result KdcError Key.ProtocolKey;
  random_8 : nat -> result KdcError bytes;
  wrap_draw : nat -> nat -> option bytes * option bytes;
  log_write : list LogNote -> result KdcError unit;
  write_database : Store -> result KdcError unit;
  hooks : list Hook;
  registered : list Pwqual.Quality;
  case_fold : Pwqual.CaseFold;
}.

(** ** Running with the store *)

Definition M : Type -> Type := SE Store KdcError.

Definition ok_or_not_found {A} (o : option A) : M A := lift (match o with Some a => Ok a | None => Err NotFound end).

Section Ops.
Context {Prim : Primitives} `{StoreEnv}.

(** ** Saving, logging and hooks *)

Definition inside_change : M unit := fun s =>
  (s, if s_db s && negb (s_held s) then Err (Db "a change outside the database's exclusive lock") else Ok tt).

Definition log_pending : M unit := fun s =>
  (set_pending [] s, match s_log s with Some _ => log_write (s_pending s) | None => Ok tt end).

Definition save_if_configured : M unit := fun s =>
  let s := set_changed true s in if s_db s then inside_change s else log_pending s.

Definition save_through : M unit :=
  do! inside_change;
  fun s => let s := set_through true s in (set_pending [] s, write_database s).

Definition push_note (n : LogNote) (s : Store) : Store := set_pending (s_pending s ++ [n]) s.

Definition note_ulog (i : id) (deleted : bool) (princ : option Principal) : M unit := assign (fun s =>
  match s_log s with
  | None => s
  | Some _ =>
      let now := if deleted then None else princ in
      let '(m, before) := log i now (s_map s) in
      push_note (NPut i deleted before princ) (set_map m s)
  end).

Definition note_ulog_reset : M unit := assign (push_note NReset).

Definition selected_hooks (s : Store) : list Hook :=
  Pwqual.pick h_name (Pwqual.filter_plugin_modules (po_kadm5_hook (s_policy s)) (map h_name hooks)) hooks.

(** The first refusal ends a walk before the write; after it they are only logged. *)
Fixpoint walk (stage : HookStage) (c : Post) (l : list Hook) : result KdcError unit :=
  match l with
  | [] => Ok tt
  | h :: l =>
      match h_call h stage c, stage with
      | Err e, Precommit => Err e
      | _, _ => walk stage c l
      end
  end.

Definition hook (stage : HookStage) (c : Post) : M unit := fun s =>
  (set_calls (s_calls s ++ [(stage, c)]) s, walk stage c (selected_hooks s)).

Definition run_post (c : Post) (s : Store) : Store := fst (hook Postcommit c s).

Definition postcommit (c : Post) : M unit := assign (fun s =>
  match s_post s with Some q => set_post (Some (q ++ [c])) s | None => run_post c s end).

(** ** Rows *)

Definition resolve_id (s : Store) (i : id) : option id :=
  resolve_alias_id (realm_chars (s_realm s)) (PMap.get (s_map s)) i.

Definition get (s : Store) (i : id) : option Principal := i ← resolve_id s i; PMap.get (s_map s) i.

Definition get_in_realm (s : Store) (n : PrincipalName.PrincipalName) (r : bytes) : option Principal :=
  get s (lookup_principal_id n r).

Definition canonical_id (n : PrincipalName.PrincipalName) (r : bytes) : M id :=
  let! o := reading (fun s => resolve_id s (lookup_principal_id n r)) in ok_or_not_found o.

Definition raw (i : id) : M Principal :=
  let! o := reading (fun s => PMap.get (s_map s) i) in ok_or_not_found o.

(** [get_mut(id).ok_or(NotFound)?] and the assignments [f]. *)
Definition update (i : id) (f : Principal -> Principal) : M unit := fun s =>
  let '(m, found) := get_mut i f (s_map s) in (set_map m s, if found then Ok tt else Err NotFound).

(** The assignments up to the first error stay. *)
Definition update_try (i : id) (f : Principal -> Principal * result KdcError unit) : M unit := fun s =>
  let '(m, found) := get_mut i (fun p => fst (f p)) (s_map s) in
  (set_map m s,
   match PMap.get (s_map s) i with Some p => snd (f p) | None => Err NotFound end).

Definition snap (i : id) : M (option Principal) := reading (fun s => PMap.get (s_map s) i).

(** ** RIDs *)

Definition to_lower (c : Z) : Z := if (0x41 <=? c) && (c <=? 0x5a) then c + 32 else c.
Definition eq_ignore_ascii_case (a b : Name.ustr) : bool := bool_decide (map to_lower a = map to_lower b).

Definition alloc_rid (n : PrincipalName.PrincipalName) (s : Store) : Store * Z :=
  if (PrincipalName.name_type n =? PrincipalName.NT_PRINCIPAL)
     && eq_ignore_ascii_case (components_joined n) (EncList.lit "Administrator")
     && bool_decide (rid_owner (s_map s) RID_ADMINISTRATOR = None)
  then (s, RID_ADMINISTRATOR)
  else (set_identity (s_sid s) (sat_add (s_next_rid s) 1) s, s_next_rid s).

Definition bump_next_rid (r : Z) (s : Store) : Store :=
  if (RID_FIRST_USER <=? r) && (s_next_rid s <=? r) then set_identity (s_sid s) (sat_add r 1) s else s.

Definition settle_rid (p : Principal) (s : Store) : Store * Principal :=
  let '(s, p) :=
    if (rid p =? 0) && bool_decide (alias_target p = None) then
      if PrincipalName.is_krbtgt_for (name p) (s_realm s) && bool_decide (realm p = s_realm s)
      then (s, Kdc.set_rid RID_KRBTGT p)
      else let '(s, r) := alloc_rid (name p) s in (s, Kdc.set_rid r p)
    else (s, p) in
  (bump_next_rid (rid p) s, p).

Definition put_principal (p : Principal) : M unit :=
  let! tl := lift (strip_db_args (tl_data p)) in
  fun s =>
    let '(s, p) := settle_rid (set_tl_data tl p) s in
    let i := principal_id p in
    if negb (is_km p)
       && match rid_owner (s_map s) (rid p) with Some o => negb (bool_decide (o = i)) | None => false end
    then (s, Err (InvalidArgument "duplicate RID"))
    else (do! note_ulog i false (Some p); assign (fun s => set_map (PMap.insert i p (s_map s)) s)) s.

(** ** The lockout file *)

Definition zero_fail_count_in_file (p : Principal) (s : Store) : Store :=
  let i := principal_id p in
  let base := default (Lockout.of_principal p) (s_lockout s !! i) in
  set_lockout (<[i := Lockout.apply (Lockout.mkUpdate true false false) base unix_now]> (s_lockout s)) s.

Definition rename_lockout_in_file (old_id : id) (new : Principal) (s : Store) : Store :=
  match s_lockout s !! old_id with
  | Some v => set_lockout (delete old_id (<[principal_id new := v]> (s_lockout s))) s
  | None => s
  end.

(** ** Keys *)

Definition draw : M nat := fun s => (set_draws (S (s_draws s)) s, Ok (s_draws s)).

Definition make_random_key (e : EncryptionType) : M Key.ProtocolKey :=
  let! n := draw in lift (random_key n e).

(** Each byte gives two characters. *)
Definition salt_chars (rnd : bytes) : bytes :=
  flat_map (fun b => [z8 (Z.lor 0x40 (Z.shiftr (u8z b) 4)); z8 (Z.lor 0x40 (Z.land (u8z b) 0x0f))]) rnd.

Definition random_salt : M bytes := let! n := draw in let! rnd := lift (random_8 n) in ret (salt_chars rnd).

Definition has_etype (e : EncryptionType) (ks : list KeyEntry) : bool :=
  existsb (fun k => bool_decide (ke_etype k = e)) ks.

Fixpoint random_keys_loop (keysalts : list EncList.KeySalt) (v : Z) (ks : list KeyEntry) : M (list KeyEntry) :=
  match keysalts with
  | [] => ret ks
  | x :: keysalts =>
      if has_etype (EncList.ks_etype x) ks then random_keys_loop keysalts v ks
      else
        let! k := make_random_key (EncList.ks_etype x) in
        random_keys_loop keysalts v (ks ++ [new_entry (EncList.ks_etype x) k v])
  end.

Definition random_keys (keysalts : list EncList.KeySalt) (v : Z) : M (list KeyEntry) :=
  random_keys_loop keysalts v [].

Definition salt_for (t : Z) (n : PrincipalName.PrincipalName) (r : bytes) : M bytes :=
  match t with
  | 0 => ret (default_salt n r)
  | 2 => ret (concat (PrincipalName.name_string n))
  | 3 => ret r
  | 4 => random_salt
  | _ => lift (Err (InvalidArgument "Unsupported salt type"))
  end.

Definition crypto {A} (r : result Error A) : result KdcError A :=
  match r with Ok a => Ok a | Err e => Err (CryptoErr e) end.

Fixpoint keys_from_password_loop (keysalts : list EncList.KeySalt) (password : bytes)
    (n : PrincipalName.PrincipalName) (r : bytes) (v : Z) (ks : list KeyEntry) : M (list KeyEntry) :=
  match keysalts with
  | [] => ret ks
  | x :: keysalts =>
      let e := EncList.ks_etype x in
      if has_etype e ks then keys_from_password_loop keysalts password n r v ks
      else
        let! slt := salt_for (EncList.ks_salt x) n r in
        let! k := lift (crypto (Ops.string_to_key_inner e password slt None)) in
        let k := if 0 <? EncList.ks_salt x then mkEntry e k v (Some (EncList.ks_salt x)) (Some slt)
                 else new_entry e k v in
        keys_from_password_loop keysalts password n r v (ks ++ [k])
  end.

Definition keys_from_password (keysalts : list EncList.KeySalt) (password : bytes)
    (n : PrincipalName.PrincipalName) (r : bytes) (v : Z) : M (list KeyEntry) :=
  keys_from_password_loop keysalts password n r v [].

Definition default_supported_enctypes : list EncryptionType := [Aes256CtsHmacSha196; Aes128CtsHmacSha196].

Definition password_keysalts (p : Policy) : list EncList.KeySalt :=
  match po_supported p with
  | [] => map (fun e => EncList.mkKeySalt e 0) default_supported_enctypes
  | l => l
  end.

(** ** Password checks *)

Definition c_password (password : bytes) : bytes := Pwqual.cstr_bytes password.

Definition quality (s : Store) (n : PrincipalName.PrincipalName) (r : bytes) (bound : option Name.ustr)
    (password : bytes) : result KdcError unit :=
  Pwqual.run case_fold (s_dict s) password bound r n (Pwqual.selected (po_pwqual (s_policy s)) registered).

Definition check_new_password_in (s : Store) (n : PrincipalName.PrincipalName) (r : bytes)
    (policy : option Name.ustr) (password : bytes) : result KdcError unit :=
  let password := c_password password in
  let bound := nm ← policy; pol ← s_policies s !! nm; Some (nm, pol) in
  let? _ := match bound with Some (_, pol) => Pwqual.check_against_policy password pol | None => Ok tt end in
  quality s n r (fst <$> bound) password.

Definition named_policy_for (s : Store) (p : Principal) : option NamedPolicy :=
  nm ← pw_policy p; s_policies s !! nm.

(** The password gives this key. *)
Definition same_key (password slt : bytes) (k : KeyEntry) : bool :=
  match Ops.string_to_key_inner (ke_etype k) password slt None with
  | Ok nk => bool_decide (Key.as_bytes nk = Key.as_bytes (key k))
  | Err _ => false
  end.

Definition check_password_quality_in (s : Store) (n : PrincipalName.PrincipalName) (r : bytes)
    (password : bytes) : result KdcError unit :=
  let password := c_password password in
  match get_in_realm s n r with
  | None => Ok tt
  | Some p =>
      let pol := named_policy_for s p in
      let? _ := match pol with Some pol => Pwqual.check_against_policy password pol | None => Ok tt end in
      let? _ := quality s n r (match pol with Some _ => pw_policy p | None => None end) password in
      match pol with
      | None => Ok tt
      | Some pol =>
          if history pol =? 0 then Ok tt
          else
            let extra := Z.to_nat (sat_sub (history pol) 1) in
            if existsb (same_key password (salt p)) (keys p ++ History.keep_newest extra (key_history p))
            then Err (PasswordPolicy "history") else Ok tt
      end
  end.

Definition check_min_life_in (s : Store) (n : PrincipalName.PrincipalName) (r : bytes) : result KdcError unit :=
  match get_in_realm s n r with
  | None => Err NotFound
  | Some p =>
      if negb (Z.land (attributes p) KDB_REQUIRES_PWCHANGE =? 0) then Ok tt
      else
        match named_policy_for s p with
        | None => Ok tt
        | Some pol =>
            if pw_min_life pol =? 0 then Ok tt
            else
              let last := last_pwd_unix p in
              if sat_sub unix_now last <? pw_min_life pol then Err (PassTooSoon (sat_add last (pw_min_life pol)))
              else Ok tt
        end
  end.

(** ** Creating, removing and renaming *)

Definition KVNO_MASK : Z := 0x100.
Definition has (mask bit : Z) : bool := negb (Z.land mask bit =? 0).

Definition kadmin_history : PrincipalName.PrincipalName :=
  PrincipalName.mkName PrincipalName.NT_PRINCIPAL [lit_bytes "kadmin"; lit_bytes "history"].

Definition is_history (s : Store) (n : PrincipalName.PrincipalName) (r : bytes) : bool :=
  bool_decide (r = s_realm s) && bool_decide (components_joined n = EncList.lit "kadmin/history").

Definition protected : KdcError := InvalidArgument "Cannot change protected principal".

Inductive CreateKeys :=
| CPassword (password : bytes)
| CRandom
| CExplicit (ks : list KeyEntry).

Record CreateInputs := mkCreate {
  ci_name : PrincipalName.PrincipalName;
  ci_realm : bytes;
  ci_id : id;
  ci_policy_name : option Name.ustr;
  ci_policy : option NamedPolicy;
  ci_keysalts : list EncList.KeySalt;
  ci_kvno : Z;
  ci_now : Z;
}.

Definition create_inputs (n : PrincipalName.PrincipalName) (r : bytes) (password : option bytes)
    (explicit : option (list KeyEntry)) (etypes : list EncList.KeySalt) (ent : Acl.AdminEnt) (s : Store)
    : result KdcError CreateInputs :=
  let i := lookup_principal_id n r in
  match get s i with
  | Some _ => Err AlreadyExists
  | None =>
      let policy_name := if has (Acl.mask ent) Acl.kadm5_mask.POLICY then Acl.policy ent else None in
      let policy := nm ← policy_name; s_policies s !! nm in
      let? _ := match password with
                | Some pw => check_new_password_in s n r policy_name pw
                | None => Ok tt
                end in
      let? keysalts :=
        match explicit with
        | Some given => Ok (map (fun k => EncList.mkKeySalt (ke_etype k) 0) given)
        | None => apply_keysalt_policy (p ← policy; allowed_keysalts p) etypes (password_keysalts (s_policy s))
        end in
      let? v := if has (Acl.mask ent) KVNO_MASK then
                  if 65535 <? Acl.kvno ent then Err (InvalidArgument "invalid kvno") else Ok (Acl.kvno ent)
                else Ok 1 in
      Ok (mkCreate n r i policy_name policy keysalts v unix_now)
  end.

Definition default_create_attributes (p : Policy) (password_keyed : bool) : Z :=
  match po_default_flags p with
  | Some f => f
  | None => if password_keyed && po_requires_preauth p then KDB_REQUIRES_PRE_AUTH else 0
  end.

Definition created_row (c : CreateInputs) (ks : list KeyEntry) (password : option bytes) (ent : Acl.AdminEnt)
    (actor : Name.ustr) (po : Policy) : Principal :=
  let m := Acl.mask ent in
  let a := if has m Acl.kadm5_mask.ATTRIBUTES then Acl.attributes ent
           else default_create_attributes po (bool_decide (is_Some password)) in
  let p := from_keys (ci_name c) (ci_realm c) ks (salt_of_keys ks (ci_name c) (ci_realm c))
             (has a KDB_REQUIRES_PRE_AUTH) 0 (has a KDB_DISALLOW_ALL_TIX) 0 in
  let p := set_attributes a p in
  let p := set_max_life (if has m Acl.kadm5_mask.MAX_LIFE then Acl.max_life ent else po_max_life po) p in
  let p := set_max_renewable_life (if has m Acl.kadm5_mask.MAX_RLIFE then Acl.max_renewable_life ent
                                   else po_max_renewable_life po) p in
  let p := set_expiration (if has m Acl.kadm5_mask.PRINC_EXPIRE_TIME then Acl.princ_expire_time ent
                           else po_default_expiration po) p in
  let p := set_pw_expire
             (if has m Acl.kadm5_mask.PW_EXPIRATION then Acl.pw_expiration ent
              else match ci_policy c with
                   | Some pol => if negb (pw_max_life pol =? 0) then sat_add (ci_now c) (pw_max_life pol) else 0
                   | None => 0
                   end) p in
  let p := match ci_policy_name c with
           | Some pol => refresh_kadm_tl (set_pw_policy (Some pol) p)
           | None => p
           end in
  stamp_admin_tl unix_now true actor p.

Definition create_finish (c : CreateInputs) (ks : list KeyEntry) (password : option bytes)
    (ent : Acl.AdminEnt) (actor : Name.ustr) : M unit :=
  let! p := reading (fun s => created_row c ks password ent actor (s_policy s)) in
  let call := PCreate (ci_name c) (ci_realm c) (Acl.mask ent) password (map EncList.ks_etype (ci_keysalts c)) in
  do! hook Precommit call;
  do! put_principal p;
  do! save_if_configured;
  postcommit call.

Definition create_principal_3_in (n : PrincipalName.PrincipalName) (r : bytes) (ck : CreateKeys)
    (etypes : list EncList.KeySalt) (ent : Acl.AdminEnt) (actor : Name.ustr) : M unit :=
  do! inside_change;
  let password := match ck with CPassword p => Some (c_password p) | _ => None end in
  let explicit := match ck with CExplicit k => Some k | _ => None end in
  let! r0 := reading (create_inputs n r password explicit etypes ent) in
  let! c := lift r0 in
  let! ks :=
    match explicit, password with
    | Some given, _ => ret (if has (Acl.mask ent) KVNO_MASK then map (set_kvno (ci_kvno c)) given else given)
    | None, Some pw => keys_from_password (ci_keysalts c) pw n r (ci_kvno c)
    | None, None => random_keys (ci_keysalts c) (ci_kvno c)
    end in
  create_finish c ks password ent actor.

Definition remove_id_inner (i : id) : M unit :=
  do! inside_change;
  let! p := raw i in
  let! own := reading s_realm in
  if bool_decide (realm p = own) && bool_decide (components_joined (name p) = KM) then lift (Err protected)
  else
    do! hook Precommit (PRemove (name p) (realm p));
    do! assign (fun s => set_map (fst (PMap.remove i (s_map s))) s);
    do! note_ulog i true None;
    do! save_if_configured;
    postcommit (PRemove (name p) (realm p)).

Definition remove_in (n : PrincipalName.PrincipalName) (r : bytes) : M unit :=
  remove_id_inner (lookup_principal_id n r).

Definition delete_in (acl : list Acl.AclEntry) (actor : Name.ustr) (n : PrincipalName.PrincipalName) (r : bytes)
    : M unit :=
  let i := lookup_principal_id n r in
  do! lift (Acl.check acl actor Acl.Delete (Some i));
  remove_id_inner i.

(** [map.remove(id).ok_or(NotFound)?]. *)
Definition take_row (i : id) : M Principal := fun s =>
  let '(m, p) := PMap.remove i (s_map s) in
  (set_map m s, match p with Some p => Ok p | None => Err NotFound end).

Definition specialize (p : Principal) : Principal * result KdcError unit :=
  match specialize_salts p with Ok q => (q, Ok tt) | Err e => (p, Err e) end.

(** The row [p] has its new name. *)
Definition put_renamed (old_id : id) (p : Principal) (actor : Name.ustr) : M unit :=
  do! assign (rename_lockout_in_file old_id p);
  do! note_ulog (principal_id p) false (Some p);
  do! note_ulog old_id true None;
  let p := stamp_admin_tl unix_now false actor p in
  do! note_ulog (principal_id p) false (Some p);
  assign (fun s => set_map (PMap.insert (principal_id p) p (s_map s)) s).

Definition rename_unchecked (old : PrincipalName.PrincipalName) (old_realm : bytes)
    (new : PrincipalName.PrincipalName) (new_realm : bytes) (actor : Name.ustr) : M unit :=
  do! inside_change;
  let old_id := lookup_principal_id old old_realm in
  let new_id := lookup_principal_id new new_realm in
  let! there := reading (fun s => get s new_id) in
  match there with
  | Some _ => lift (Err AlreadyExists)
  | None =>
      let! p := raw old_id in
      match alias_target p with
      | Some _ => lift (Err AliasUnsupported)
      | None =>
          do! hook Precommit (PRename old old_realm new new_realm);
          do! update_try old_id specialize;
          let! p := take_row old_id in
          do! put_renamed old_id (set_name new new_realm p) actor;
          do! save_if_configured;
          postcommit (PRename old old_realm new new_realm)
      end
  end.

Definition rename_in (acl : list Acl.AclEntry) (actor : Name.ustr) (old : PrincipalName.PrincipalName)
    (old_realm : bytes) (new : PrincipalName.PrincipalName) (new_realm : bytes) : M unit :=
  do! lift (Acl.check_rename acl actor (lookup_principal_id old old_realm) (lookup_principal_id new new_realm));
  rename_unchecked old old_realm new new_realm actor.

Definition empty_kadm_data : bytes := to_be_bytes 4 0x12345c01 ++ repeat x00 20.

Definition alias_row (alias : PrincipalName.PrincipalName) (alias_realm : bytes)
    (target : PrincipalName.PrincipalName) (target_realm : bytes) (actor : Name.ustr) : Principal :=
  let p := from_keys alias alias_realm [] [] false 0 true 0 in
  let p := stamp_admin_tl unix_now false actor p in
  let tl := update_tl_data (mkTl Osa.TL_KADM_DATA empty_kadm_data) (tl_data p) in
  let text := Name.unparse_name (map Utf8.lossy_chars_of (PrincipalName.name_string target))
                (realm_chars target_realm) in
  set_tl_data (tl ++ [mkTl TL_ALIAS_TARGET (Utf8.as_bytes text ++ [x00])]) p.

Definition create_alias_in (alias : PrincipalName.PrincipalName) (alias_realm : bytes)
    (target : PrincipalName.PrincipalName) (target_realm : bytes) (actor : Name.ustr) : M unit :=
  do! inside_change;
  if negb (bool_decide (alias_realm = target_realm)) then lift (Err AliasRealm)
  else
    let i := lookup_principal_id alias alias_realm in
    let! there := reading (fun s => get s i) in
    match there with
    | Some _ => lift (Err AlreadyExists)
    | None =>
        do! hook Precommit (PAlias alias alias_realm target target_realm);
        let p := alias_row alias alias_realm target target_realm actor in
        do! note_ulog i false (Some p);
        do! assign (fun s => set_map (PMap.insert i p (s_map s)) s);
        do! save_if_configured;
        postcommit (PAlias alias alias_realm target target_realm)
    end.

(** ** Modifying *)

(** What most operations end with. *)
Definition note_and_save (i : id) : M unit :=
  let! p := snap i in
  do! note_ulog i false p;
  save_if_configured.

Definition stamped (actor : Name.ustr) (f : Principal -> Principal) (p : Principal) : Principal :=
  stamp_admin_tl unix_now false actor (f p).

Definition set_locked (on : bool) (p : Principal) : Principal :=
  set_attributes (if on then Z.lor (attributes p) KDB_DISALLOW_ALL_TIX
                  else Z.land (attributes p) (Acl.not32 KDB_DISALLOW_ALL_TIX)) p.

Definition set_status (n : PrincipalName.PrincipalName) (locked : bool) (pw_exp : Z) (actor : Name.ustr) : M unit :=
  do! inside_change;
  let! r := reading s_realm in
  let! i := canonical_id n r in
  do! update i (stamped actor (fun p => set_pw_expire pw_exp (set_locked locked p)));
  note_and_save i.

(** The fail count in the file goes to zero when there is a row. *)
Definition zero_in_file (i : id) : M unit :=
  assign (fun s => match PMap.get (s_map s) i with Some p => zero_fail_count_in_file p s | None => s end).

Definition admin_unlock_in (n : PrincipalName.PrincipalName) (r : bytes) (actor : Name.ustr) : M unit :=
  do! inside_change;
  let! i := canonical_id n r in
  do! update i (stamped actor (fun p =>
        let p := set_fail_auth_count 0 p in
        set_tl_data (retain_tl (fun t => negb (t =? Lockout.TL_LAST_ADMIN_UNLOCK)) (tl_data p)
                     ++ [mkTl Lockout.TL_LAST_ADMIN_UNLOCK (to_le_bytes 4 unix_now)]) p));
  do! zero_in_file i;
  note_and_save i.

Definition clear_fail_auth_count_in (n : PrincipalName.PrincipalName) (r : bytes) (actor : Name.ustr) : M unit :=
  do! inside_change;
  let! i := canonical_id n r in
  do! update i (stamped actor (set_fail_auth_count 0));
  do! zero_in_file i;
  note_and_save i.

Definition set_kvno_in (n : PrincipalName.PrincipalName) (r : bytes) (v : Z) (actor : Name.ustr) : M unit :=
  do! inside_change;
  if 65535 <? v then lift (Err (InvalidArgument "invalid kvno"))
  else
    let! i := canonical_id n r in
    do! update i (stamped actor (fun p => set_keys (map (set_kvno v) (keys p)) p));
    note_and_save i.

Definition nul_name (t : TlData) : option bytes :=
  match rev (contents t) with
  | z :: rest =>
      let raw := rev rest in
      if bool_decide (z = x00) && negb (bool_decide (x00 ∈ raw)) && negb (bool_decide (raw = []))
         && bool_decide (is_Some (Utf8.from_utf8 raw))
      then Some raw else None
  | [] => None
  end.

Definition nul_tl_names (tl : list TlData) (t : Z) : list bytes :=
  omap nul_name (List.filter (fun x => ty x =? t) tl).

Definition is_s4u_name_tl (t : TlData) : bool :=
  ((ty t =? TL_CONSTRAINED_DELEGATION) || (ty t =? TL_KERBER_S4U_FROM)) && bool_decide (is_Some (nul_name t)).

Definition absorb_s4u_tl (p : Principal) : Principal :=
  let tl := tl_data p in
  let p := if existsb (fun t => is_s4u_name_tl t && (ty t =? TL_CONSTRAINED_DELEGATION)) tl
           then set_s4u_allowed_to (nul_tl_names tl TL_CONSTRAINED_DELEGATION) p else p in
  let p := if existsb (fun t => is_s4u_name_tl t && (ty t =? TL_KERBER_S4U_FROM)) tl
           then set_s4u_allowed_from (nul_tl_names tl TL_KERBER_S4U_FROM) p else p in
  set_tl_data (List.filter (fun t => negb (is_s4u_name_tl t)) tl) p.

Definition merge_one (p : Principal) (t : TlData) : Principal :=
  let p := if negb (ty t =? TL_DB_ARGS)
           then set_tl_data (retain_tl (fun x => negb (x =? ty t)) (tl_data p)) p else p in
  let p := if ty t =? TL_CONSTRAINED_DELEGATION then set_s4u_allowed_to [] p
           else if ty t =? TL_KERBER_S4U_FROM then set_s4u_allowed_from [] p else p in
  set_tl_data (tl_data p ++ [t]) p.

Definition merge_tl_data_in (n : PrincipalName.PrincipalName) (r : bytes) (tls : list TlData) (actor : Name.ustr)
    : M unit :=
  let! i := canonical_id n r in
  let! p := raw i in
  let p := absorb_s4u_tl (fold_left merge_one tls p) in
  let! tl := lift (strip_db_args (tl_data p)) in
  let p := stamp_admin_tl unix_now false actor (set_tl_data tl p) in
  do! inside_change;
  do! put_principal p;
  save_if_configured.

Definition record_s4u_to (n : PrincipalName.PrincipalName) (to : bytes) (actor : Name.ustr) : M unit :=
  do! inside_change;
  let! r := reading s_realm in
  let i := lookup_principal_id n r in
  let listed p := bool_decide (to ∈ s4u_allowed_to p) in
  let! before := snap i in
  do! update i (fun p => if listed p then p
                         else stamped actor (fun p => set_s4u_allowed_to (s4u_allowed_to p ++ [to]) p) p);
  match before with
  | Some p => if listed p then ret tt else note_and_save i
  | None => ret tt
  end.

Definition apply_pw_max_life_in (n : PrincipalName.PrincipalName) (r : bytes) : M unit :=
  let! i := canonical_id n r in
  let! p := raw i in
  let! pol := reading (fun s => named_policy_for s p) in
  let life := match pol with Some pol => pw_max_life pol | None => 0 end in
  update i (fun p => set_pw_expire (if life =? 0 then 0 else sat_add (last_pwd_unix p) life) p).

Record AdminFields := mkFields {
  af_attributes : option Z;
  af_max_life : option Z;
  af_expiration : option Z;
  af_pw_expire : option Z;
  af_policy : option Name.ustr;
  af_clear_policy : bool;
  af_max_renewable_life : option Z;
}.

Definition fields_mask (f : AdminFields) : Z :=
  let on {A} (o : option A) bit := match o with Some _ => bit | None => 0 end in
  let m := on (af_attributes f) Acl.kadm5_mask.ATTRIBUTES in
  let m := Z.lor m (on (af_max_life f) Acl.kadm5_mask.MAX_LIFE) in
  let m := Z.lor m (on (af_expiration f) Acl.kadm5_mask.PRINC_EXPIRE_TIME) in
  let m := Z.lor m (on (af_pw_expire f) Acl.kadm5_mask.PW_EXPIRATION) in
  let m := Z.lor m (if af_clear_policy f then Acl.kadm5_mask.POLICY_CLR
                    else on (af_policy f) Acl.kadm5_mask.POLICY) in
  Z.lor m (on (af_max_renewable_life f) Acl.kadm5_mask.MAX_RLIFE).

Definition set_opt {A} (set : A -> Principal -> Principal) (o : option A) (p : Principal) : Principal :=
  match o with Some a => set a p | None => p end.

Definition with_fields (f : AdminFields) (p : Principal) : Principal :=
  let p := set_opt set_attributes (af_attributes f) p in
  let p := set_opt set_max_life (af_max_life f) p in
  let p := set_opt set_max_renewable_life (af_max_renewable_life f) p in
  let p := set_opt set_expiration (af_expiration f) p in
  let p := set_opt set_pw_expire (af_pw_expire f) p in
  if af_clear_policy f then refresh_kadm_tl (set_pw_expire 0 (set_pw_policy None p))
  else match af_policy f with
       | Some pol => refresh_kadm_tl (set_pw_policy (Some pol) p)
       | None => p
       end.

Definition apply_admin_fields_in (n : PrincipalName.PrincipalName) (r : bytes) (f : AdminFields) (actor : Name.ustr)
    : M unit :=
  do! inside_change;
  let! i := canonical_id n r in
  do! hook Precommit (PModify n r (fields_mask f));
  do! update i (stamped actor (with_fields f));
  do! (if bool_decide (is_Some (af_policy f)) && negb (af_clear_policy f) && bool_decide (af_pw_expire f = None)
       then apply_pw_max_life_in n r else ret tt);
  do! note_and_save i;
  postcommit (PModify n r (fields_mask f)).

Definition no_ent : Acl.AdminEnt := Acl.mkEnt 0 0 0 0 0 0 0 None.

Definition restrict_row (ent : Acl.AdminEnt) (p : Principal) : Principal :=
  let m := Acl.mask ent in
  let p := if has m Acl.kadm5_mask.ATTRIBUTES then set_attributes (Acl.attributes ent) p else p in
  let p := if has m Acl.kadm5_mask.MAX_LIFE then set_max_life (Acl.max_life ent) p else p in
  let p := if has m Acl.kadm5_mask.MAX_RLIFE then set_max_renewable_life (Acl.max_renewable_life ent) p else p in
  let p := if has m Acl.kadm5_mask.PRINC_EXPIRE_TIME then set_expiration (Acl.princ_expire_time ent) p else p in
  let p := if has m Acl.kadm5_mask.PW_EXPIRATION then set_pw_expire (Acl.pw_expiration ent) p else p in
  if has m Acl.kadm5_mask.POLICY_CLR then refresh_kadm_tl (set_pw_policy None p)
  else if has m Acl.kadm5_mask.POLICY then refresh_kadm_tl (set_pw_policy (Acl.policy ent) p) else p.

Definition apply_acl_restrictions (i : id) (rs : Acl.Restrictions) : M unit :=
  do! inside_change;
  do! update i (restrict_row (Acl.impose rs no_ent unix_now));
  note_and_save i.

Definition impose_acl_restrictions_in (n : PrincipalName.PrincipalName) (r : bytes) (rs : Acl.Restrictions) : M unit :=
  do! inside_change;
  let! i := canonical_id n r in
  do! apply_acl_restrictions i rs;
  save_if_configured.

Definition encode_string_attrs (l : list (Name.ustr * Name.ustr)) : bytes :=
  flat_map (fun '(k, v) => Utf8.as_bytes k ++ [x00] ++ Utf8.as_bytes v ++ [x00]) l.

Definition set_string_in (n : PrincipalName.PrincipalName) (r : bytes) (k : Name.ustr) (v : option Name.ustr)
    (actor : Name.ustr) : M unit :=
  do! inside_change;
  let! i := canonical_id n r in
  do! update i (stamped actor (fun p =>
        let l := List.filter (fun '(k', _) => negb (bool_decide (k' = k))) (string_attrs p)
                 ++ match v with Some v => [(k, v)] | None => [] end in
        let p := set_string_attrs l p in
        set_tl_data (update_tl_data (mkTl TL_STRING_ATTRS (encode_string_attrs l)) (tl_data p)) p));
  note_and_save i.

Definition set_principal_policy_in (n : PrincipalName.PrincipalName) (r : bytes) (policy : option Name.ustr)
    (actor : Name.ustr) : M unit :=
  do! inside_change;
  let! i := canonical_id n r in
  do! update i (stamped actor (fun p => refresh_kadm_tl (set_pw_policy policy p)));
  do! apply_pw_max_life_in n r;
  note_and_save i.

Definition put_policy_body (pol : NamedPolicy) : M unit :=
  do! note_ulog_reset;
  do! assign (fun s => set_policies (<[np_name pol := pol]> (s_policies s)) s);
  save_if_configured.

Definition delete_policy_body (nm : Name.ustr) : M unit :=
  let! o := reading (fun s => s_policies s !! nm) in
  let! _ := ok_or_not_found o in
  do! assign (fun s => set_policies (delete nm (s_policies s)) s);
  do! note_ulog_reset;
  save_if_configured.

(** ** Passwords and keys *)

(** [max_by_key]: the last of the greatest. *)
Definition max_key (ks : list KeyEntry) : option KeyEntry :=
  fold_left (fun acc k => match acc with
                          | Some a => if kvno a <=? kvno k then Some k else acc
                          | None => Some k
                          end) ks None.

Definition history_key (s : Store) : option (Z * Key.ProtocolKey) :=
  p ← get_in_realm s kadmin_history (s_realm s);
  k ← max_key (keys p);
  Some (kvno k, key k).

Definition default_master_etype : EncryptionType := Aes256CtsHmacSha196.

(** The id [K/M@realm]. *)
Definition km_id (r : bytes) : id := KM ++ [Name.AT] ++ realm_chars r.

Definition ensure_history_principal (actor : Name.ustr) : M (Z * Key.ProtocolKey) :=
  let! o := reading history_key in
  match o with
  | Some h => ret h
  | None =>
      let! r := reading s_realm in
      let! km := reading (fun s => get s (km_id r)) in
      let e := match km with
               | Some p => match keys p with k :: _ => ke_etype k | [] => default_master_etype end
               | None => default_master_etype
               end in
      let! k1 := make_random_key e in
      let p := from_keys kadmin_history r [new_entry e k1 1] (default_salt kadmin_history r) false 64 false 0 in
      let! renew := reading (fun s => po_max_renewable_life (s_policy s)) in
      let p := stamp_admin_tl unix_now true actor (refresh_kadm_tl (set_max_renewable_life renew p)) in
      let i := principal_id p in
      do! put_principal p;
      let! k2 := make_random_key e in
      let! p := raw i in
      let p := stamp_admin_tl unix_now true actor (set_keys [new_entry e k2 INITIAL_HIST_KVNO] p) in
      do! put_principal p;
      do! save_through;
      ret (INITIAL_HIST_KVNO, k2)
  end.

Record ChpassInputs := mkChpass {
  ch_name : PrincipalName.PrincipalName;
  ch_realm : bytes;
  ch_id : id;
  ch_policy : option NamedPolicy;
  ch_keysalts : list EncList.KeySalt;
}.

Definition chpass_inputs (n : PrincipalName.PrincipalName) (r : bytes) (etypes : list EncList.KeySalt)
    : M ChpassInputs :=
  let! prot := reading (fun s => is_history s n r) in
  if prot : bool then lift (Err protected)
  else
    let! i := canonical_id n r in
    let! p := raw i in
    let! policy := reading (fun s => named_policy_for s p) in
    let! supported := reading (fun s => password_keysalts (s_policy s)) in
    let! keysalts := lift (apply_keysalt_policy (pol ← policy; allowed_keysalts pol) etypes supported) in
    ret (mkChpass n r i policy keysalts).

Record PasswordPlan := mkPlan { pl_inputs : ChpassInputs; pl_record : Principal; pl_kvno : Z; pl_password : bytes }.

Definition chpass_plan (c : ChpassInputs) (password : bytes) : M PasswordPlan :=
  let! checked := reading (fun s => check_password_quality_in s (ch_name c) (ch_realm c) password) in
  do! lift checked;
  let! p := raw (ch_id c) in
  ret (mkPlan c p (next_kvno (keys p)) password).

Definition derive (p : PasswordPlan) : M (list KeyEntry) :=
  keys_from_password (ch_keysalts (pl_inputs p)) (pl_password p) (name (pl_record p)) (realm (pl_record p))
    (pl_kvno p).

(** The principal with its new keys; the history is written under the draws [rnd]. *)
Definition with_new_password (rnd : nat -> option bytes * option bytes) (new_keys : list KeyEntry)
    (hist : option (Z * (Z * Key.ProtocolKey))) (keepold : Z) (actor : Name.ustr) (p : Principal)
    : Principal * result KdcError unit :=
  let old := keys p in
  let p := set_keys new_keys p in
  let '(p, r) :=
    match hist with
    | Some (nhist, (v, hk)) =>
        match History.record_history rnd p old nhist v hk with
        | (p, Ok _) => (refresh_kadm_tl p, Ok tt)
        | (p, Err e) => (p, Err (CryptoErr e))
        end
    | None => (p, Ok tt)
    end in
  match r with
  | Err e => (p, Err e)
  | Ok _ =>
      let p := set_keys (keep_old (keys p) old keepold) p in
      let p := set_attributes (Z.land (attributes p) (Acl.not32 KDB_REQUIRES_PWCHANGE)) p in
      (stamp_admin_tl unix_now true actor (set_fail_auth_count 0 p), Ok tt)
  end.

Definition replace_password_keys (i : id) (new_keys : list KeyEntry) (hist : option (Z * (Z * Key.ProtocolKey)))
    (keepold : Z) (actor : Name.ustr) : M unit :=
  let! n := draw in update_try i (with_new_password (wrap_draw n) new_keys hist keepold actor).

Definition commit_password (pl : PasswordPlan) (ks : list KeyEntry) (keepold : Z) (actor : Name.ustr) : M unit :=
  let c := pl_inputs pl in
  let! hist := match ch_policy c with
               | Some pol => let! h := ensure_history_principal actor in ret (Some (history pol, h))
               | None => ret None
               end in
  let call := PChpass (ch_name c) (ch_realm c) keepold (Some (pl_password pl)) (map EncList.ks_etype (ch_keysalts c)) in
  do! hook Precommit call;
  do! replace_password_keys (ch_id c) ks hist keepold actor;
  do! update (ch_id c) (fun p => set_salt (salt_of_keys (keys p) (name p) (realm p)) p);
  do! apply_pw_max_life_in (ch_name c) (ch_realm c);
  do! zero_in_file (ch_id c);
  do! note_and_save (ch_id c);
  postcommit call.

Definition set_password_etypes_keepold_n_in (n : PrincipalName.PrincipalName) (r : bytes) (password : bytes)
    (keepold : Z) (actor : Name.ustr) (etypes : list EncList.KeySalt) : M unit :=
  do! inside_change;
  let! c := chpass_inputs n r etypes in
  do! match ch_policy c with
      | Some _ => let! _ := ensure_history_principal actor in ret tt
      | None => ret tt
      end;
  let! pl := chpass_plan c (c_password password) in
  let! ks := derive pl in
  commit_password pl ks keepold actor.

(** [None]: the history principal is missing, and only a change can make it. *)
Definition plan_password (n : PrincipalName.PrincipalName) (r : bytes) (password : bytes)
    (etypes : list EncList.KeySalt) : M (option PasswordPlan) :=
  let! c := chpass_inputs n r etypes in
  let! h := reading history_key in
  match ch_policy c, h with
  | Some _, None => ret None
  | _, _ => let! pl := chpass_plan c (c_password password) in ret (Some pl)
  end.

Definition same_entry (x y : KeyEntry) : bool :=
  bool_decide (ke_etype x = ke_etype y) && (kvno x =? kvno y) && bool_decide (salt_type x = salt_type y)
  && bool_decide (kdb_salt x = kdb_salt y) && bool_decide (Key.as_bytes (key x) = Key.as_bytes (key y)).

Fixpoint same_keys (a b : list KeyEntry) : bool :=
  match a, b with
  | [], [] => true
  | x :: a, y :: b => same_entry x y && same_keys a b
  | _, _ => false
  end.

(** Every other field is compared as it is. *)
Definition same_record (a b : Principal) : bool :=
  same_keys (keys a) (keys b) && same_keys (key_history a) (key_history b)
  && bool_decide (set_keys [] (set_key_history [] a) = set_keys [] (set_key_history [] b)).

(** What the plan was made from is still there. *)
Definition still_same (pl : PasswordPlan) (s : Store) : bool :=
  let c := pl_inputs pl in
  bool_decide (resolve_id s (lookup_principal_id (ch_name c) (ch_realm c)) = Some (ch_id c))
  && match PMap.get (s_map s) (ch_id c) with
     | Some p => same_record p (pl_record pl) && bool_decide (named_policy_for s p = ch_policy c)
     | None => false
     end
  && match ch_policy c, history_key s with Some _, None => false | _, _ => true end.

(** [false]: the plan no longer holds, and nothing is done. *)
Definition apply_password (pl : PasswordPlan) (ks : list KeyEntry) (keepold : Z) (actor : Name.ustr) : M bool :=
  do! inside_change;
  let! same := reading (still_same pl) in
  if same : bool then do! commit_password pl ks keepold actor; ret true else ret false.

Definition chrand_etypes_keepold_in (n : PrincipalName.PrincipalName) (r : bytes) (etypes : list EncList.KeySalt)
    (keepold : Z) (actor : Name.ustr) : M (list KeyEntry) :=
  do! inside_change;
  let! hist := reading (fun s => is_history s n r) in
  if hist && (0 <? keepold) then lift (Err protected)
  else
    let! i := canonical_id n r in
    let! p := raw i in
    let! allowed := reading (fun s => pol ← named_policy_for s p; allowed_keysalts pol) in
    let! supported := reading (fun s => password_keysalts (s_policy s)) in
    let! ks := lift (apply_keysalt_policy allowed etypes supported) in
    let ks := if hist : bool then take 1 ks else ks in
    let! new_keys := random_keys ks (next_kvno (keys p)) in
    let call := PChpass n r keepold None (map ke_etype new_keys) in
    do! hook Precommit call;
    do! update i (fun p =>
          let p := set_keys (keep_old new_keys (keys p) keepold) p in
          let p := set_attributes (Z.land (attributes p) (Acl.not32 KDB_REQUIRES_PWCHANGE)) p in
          stamp_admin_tl unix_now true actor (set_fail_auth_count 0 p));
    do! apply_pw_max_life_in n r;
    do! zero_in_file i;
    do! note_and_save i;
    do! postcommit call;
    ret new_keys.

Definition purgekeys_in (n : PrincipalName.PrincipalName) (r : bytes) (keepkvno : Z) (actor : Name.ustr) : M unit :=
  do! inside_change;
  let! i := canonical_id n r in
  do! update i (stamped actor (fun p =>
        let keep := if keepkvno <=? 0 then match Keys.top_kvno (keys p) with Some v => v | None => 0 end
                    else keepkvno in
        set_keys (List.filter (fun k => keep <=? kvno k) (keys p)) p));
  note_and_save i.

Definition entry_salt (k : KeyEntry) : Z := match salt_type k with Some t => if 0 <? t then t else 0 | None => 0 end.

Fixpoint repeats_type (ks : list KeyEntry) : bool :=
  match ks with
  | [] => false
  | a :: ks =>
      existsb (fun b => bool_decide (ke_etype a = ke_etype b) && (entry_salt a =? entry_salt b)) ks || repeats_type ks
  end.

Definition set_keys_in (n : PrincipalName.PrincipalName) (r : bytes) (ks : list KeyEntry) (keepold : Z)
    (actor : Name.ustr) : M unit :=
  do! inside_change;
  let! prot := reading (fun s => is_history s n r) in
  match ks with
  | [] => lift (Err (InvalidArgument "Invalid argument"))
  | k0 :: _ =>
      if prot : bool then lift (Err protected)
      else if existsb (fun k => negb (kvno k =? kvno k0)) ks then lift (Err (Crypto "setkey kvno"))
      else
        let! i := canonical_id n r in
        let! p := raw i in
        let! v :=
          (if kvno k0 =? 0 then ret (next_kvno (keys p))
           else if (65535 <? kvno k0) || ((0 <? keepold) && existsb (fun k => kvno k =? kvno k0) (keys p))
           then lift (Err (Crypto "setkey kvno")) else ret (kvno k0)) in
        let! pol := reading (fun s => named_policy_for s p) in
        do! lift (apply_keysalt_policy (pol ← pol; allowed_keysalts pol)
                    (map (fun k => EncList.mkKeySalt (ke_etype k) (entry_salt k)) ks) []);
        if repeats_type ks then lift (Err (InvalidArgument "Multiple values for single or folded enctype"))
        else
          do! update i (fun p =>
                let p := set_keys (keep_old (map (set_kvno v) ks) (keys p) keepold) p in
                let p := set_attributes (Z.land (attributes p) (Acl.not32 KDB_REQUIRES_PWCHANGE)) p in
                stamp_admin_tl unix_now true actor (set_fail_auth_count 0 p));
          do! apply_pw_max_life_in n r;
          do! zero_in_file i;
          note_and_save i
  end.

(** ** The operations together *)

(** One administrative operation with its arguments. *)
Inductive Request :=
| RCreate (n : PrincipalName.PrincipalName) (r : bytes) (ck : CreateKeys) (etypes : list EncList.KeySalt)
    (ent : Acl.AdminEnt)
| RRemove (n : PrincipalName.PrincipalName) (r : bytes)
| RRename (old : PrincipalName.PrincipalName) (old_realm : bytes) (new : PrincipalName.PrincipalName)
    (new_realm : bytes)
| RAlias (alias : PrincipalName.PrincipalName) (alias_realm : bytes) (target : PrincipalName.PrincipalName)
    (target_realm : bytes)
| RStatus (n : PrincipalName.PrincipalName) (locked : bool) (pw_exp : Z)
| RUnlock (n : PrincipalName.PrincipalName) (r : bytes)
| RClearFail (n : PrincipalName.PrincipalName) (r : bytes)
| RKvno (n : PrincipalName.PrincipalName) (r : bytes) (v : Z)
| RTlData (n : PrincipalName.PrincipalName) (r : bytes) (tls : list TlData)
| RS4uTo (n : PrincipalName.PrincipalName) (to : bytes)
| RModify (n : PrincipalName.PrincipalName) (r : bytes) (f : AdminFields)
| RRestrict (n : PrincipalName.PrincipalName) (r : bytes) (rs : Acl.Restrictions)
| RString (n : PrincipalName.PrincipalName) (r : bytes) (k : Name.ustr) (v : option Name.ustr)
| RPolicy (n : PrincipalName.PrincipalName) (r : bytes) (policy : option Name.ustr)
| RPassword (n : PrincipalName.PrincipalName) (r : bytes) (password : bytes) (keepold : Z)
    (etypes : list EncList.KeySalt)
| RChrand (n : PrincipalName.PrincipalName) (r : bytes) (etypes : list EncList.KeySalt) (keepold : Z)
| RPurge (n : PrincipalName.PrincipalName) (r : bytes) (keepkvno : Z)
| RSetKeys (n : PrincipalName.PrincipalName) (r : bytes) (ks : list KeyEntry) (keepold : Z)
| RPutPolicy (pol : NamedPolicy)
| RDeletePolicy (nm : Name.ustr).

Definition run (q : Request) (actor : Name.ustr) : M unit :=
  match q with
  | RCreate n r ck etypes ent => create_principal_3_in n r ck etypes ent actor
  | RRemove n r => remove_in n r
  | RRename old old_realm new new_realm => rename_unchecked old old_realm new new_realm actor
  | RAlias alias alias_realm target target_realm => create_alias_in alias alias_realm target target_realm actor
  | RStatus n locked pw_exp => set_status n locked pw_exp actor
  | RUnlock n r => admin_unlock_in n r actor
  | RClearFail n r => clear_fail_auth_count_in n r actor
  | RKvno n r v => set_kvno_in n r v actor
  | RTlData n r tls => merge_tl_data_in n r tls actor
  | RS4uTo n to => record_s4u_to n to actor
  | RModify n r f => apply_admin_fields_in n r f actor
  | RRestrict n r rs => impose_acl_restrictions_in n r rs
  | RString n r k v => set_string_in n r k v actor
  | RPolicy n r policy => set_principal_policy_in n r policy actor
  | RPassword n r password keepold etypes => set_password_etypes_keepold_n_in n r password keepold actor etypes
  | RChrand n r etypes keepold => let! _ := chrand_etypes_keepold_in n r etypes keepold actor in ret tt
  | RPurge n r keepkvno => purgekeys_in n r keepkvno actor
  | RSetKeys n r ks keepold => set_keys_in n r ks keepold actor
  | RPutPolicy pol => put_policy_body pol
  | RDeletePolicy nm => delete_policy_body nm
  end.

(** ** A change of the database *)

Record Before := mkBefore { b_policies : gmap Name.ustr NamedPolicy; b_next_rid : Z; b_sid : list Z }.

Definition before_of (s : Store) : Before := mkBefore (s_policies s) (s_next_rid s) (s_sid s).

Definition restore (b : Before) (s : Store) : Store * bool :=
  let '(m, ok) := undo_change (s_map s) in
  let s := set_map m s in
  if ok : bool
  then (set_pending [] (set_policies (b_policies b) (set_identity (b_sid b) (b_next_rid b) s)), true)
  else (s, false).

(** [K/M] and [kadmin/history] in what was appended have the file read anew. *)
Inductive Freshness :=
| Same
| Grown (taken : list (result id Principal))
| Other.

(** What the files answer during one change: the lock, how the database compares
    with the store, the database as read before and after, and the answers to
    writing it with its log entries and to marking these final. *)
Record Disk := mkDisk {
  d_lock : result KdcError unit;
  d_fresh : Freshness;
  d_loaded : result KdcError Store;
  d_write : Store -> result KdcError unit;
  d_loaded_back : result KdcError Store;
  d_finish : Store -> result KdcError unit;
}.

(** The loaded store takes over what is not in the database. *)
Definition reread (loaded : result KdcError Store) (s : Store) : Store * result KdcError unit :=
  match loaded with
  | Err e => (s, Err e)
  | Ok l =>
      let m := s_map l in
      let m := mkMap (rows m) (rids m) (logged m) (bool_decide (is_Some (s_log s))) (undo m) in
      (mkStore (s_realm l) m (s_policy s) (s_dict s) (s_db l) (s_changed l) (s_through l)
         (if po_ad_identity (s_policy s) then s_sid s else s_sid l) (s_next_rid l) (s_policies l) (s_lockout s)
         (s_log s) (s_pending l) (s_held s) (s_post s) (s_draws s) (s_calls s), Ok tt)
  end.

Definition read_back (loaded : result KdcError Store) (s : Store) : Store := fst (reread loaded s).

Definition debug_insert (p : Principal) (s : Store) : Store :=
  let '(s, p) := settle_rid p s in set_map (insert_unlogged (principal_id p) p (s_map s)) s.

Definition debug_remove (i : id) (s : Store) : Store := set_map (remove_unlogged i (s_map s)) s.

Definition resolve_history_of (ids : list id) (s : Store) : Store :=
  let hist := history_key s in
  set_map (set_rows (fold_left (fun rs i => alter (fun p => History.resolve_history p hist) i rs) ids
                       (rows (s_map s))) (s_map s)) s.

Definition apply_appended (taken : list (result id Principal)) (s : Store) : Store :=
  let s := fold_left (fun s op => match op with Ok p => debug_insert p s | Err i => debug_remove i s end) taken s in
  resolve_history_of (omap (fun op => match op with Ok p => Some (principal_id p) | Err _ => None end) taken) s.

Definition refresh_for_change (d : Disk) (s : Store) : Store * result KdcError unit :=
  if bool_decide (s_pending s = []) then
    match d_fresh d with
    | Same => (s, Ok tt)
    | Grown taken => (apply_appended taken s, Ok tt)
    | Other => reread (d_loaded d) s
    end
  else reread (d_loaded d) s.

Definition change_locked {T} (d : Disk) (f : M T) (s : Store) : Store * result KdcError (result KdcError T) :=
  if s_held s || negb (s_db s) then let '(s, out) := f s in (s, Ok out)
  else
    match d_lock d with
    | Err e => (s, Err e)
    | Ok _ =>
        match refresh_for_change d s with
        | (s, Err e) => (s, Err e)
        | (s, Ok _) =>
            let before := before_of s in
            let s := set_map (begin_change (s_map s)) (set_through false (set_changed false s)) in
            let '(s, done) := f (set_held true s) in
            let s := set_held false s in
            match done with
            | Ok v =>
                if s_changed s then
                  let written := d_write d s in
                  let finish := d_finish d s in
                  let s := set_pending [] s in
                  match written with
                  | Ok _ =>
                      (set_map (end_change (s_map s)) s,
                       match finish with Ok _ => Ok (Ok v) | Err e => Err e end)
                  | Err e => (read_back (d_loaded_back d) s, Err e)
                  end
                else (set_map (end_change (s_map s)) s, Ok (Ok v))
            | Err e =>
                if s_through s then (read_back (d_loaded_back d) s, Ok (Err e))
                else
                  match restore before s with
                  | (s, true) => (s, Ok (Err e))
                  | (s, false) => (read_back (d_loaded_back d) s, Ok (Err e))
                  end
            end
        end
    end.

Definition run_posts (committed : bool) (calls : list Post) (s : Store) : Store :=
  fold_left (fun s c => if committed || always c then run_post c s else s) calls s.

Definition change {T} (d : Disk) (f : M T) (s : Store) : Store * result KdcError (result KdcError T) :=
  match s_post s with
  | Some _ => let '(s, out) := f s in (s, Ok out)
  | None =>
      let '(s, out) := change_locked d f (set_post (Some []) s) in
      let calls := match s_post s with Some q => q | None => [] end in
      let committed := match out with Ok (Ok _) => true | _ => false end in
      (run_posts committed calls (set_post None s), out)
  end.

End Ops.
End StoreOps.
