(* ===== verification/StoreInv.v ===== *)
(** * What the store's operations keep

    The operations of file StoreOps as steps on the store, the invariant they
    keep, and what a change of the database that fails leaves behind. *)

From S2P Require Import Prelude StateErr Ascii Utf8 Etype Primitives Cts Derive Weak Ops Name EncList.
From S2P Require Import Kdc Lockout Osa History PMap Pwqual Acl Store StoreOps.

Module StoreInv.
Import PMap Store StoreOps.

(** ** The invariant *)

(** Every row is under its own name. *)
Definition keyed (rs : gmap id Principal) : Prop := forall i p, rs !! i = Some p -> principal_id p = i.

(** The RIDs of users are below the next one. *)
Definition below (m : PrincipalMap) (next : Z) : Prop :=
  forall r i, rids m !! r = Some i -> RID_FIRST_USER <= r -> r < next \/ next = U32_MAX.

Record inv (s : Store) : Prop := {
  inv_keyed : keyed (rows (s_map s));
  inv_exact : exact (s_map s);
  inv_below : below (s_map s) (s_next_rid s);
  inv_next : RID_FIRST_USER <= s_next_rid s <= U32_MAX;
}.

(** ** Steps *)

Definition same_row (f : Principal -> Principal) : Prop :=
  forall p, name (f p) = name p /\ realm (f p) = realm p /\ rid (f p) = rid p.

(** [p] may be put at its place: its RID is its own or nobody's. *)
Definition fits (s : Store) (p : Principal) : Prop :=
  is_km p = true \/ rid p = 0 \/
  (match rid_owner (s_map s) (rid p) with Some o => o = principal_id p | None => True end /\
   (RID_FIRST_USER <= rid p -> rid p < s_next_rid s \/ s_next_rid s = U32_MAX)).

Definition prefix_opt (a b : option (list Post)) : Prop :=
  match a, b with
  | Some q, Some q' => q `prefix_of` q'
  | None, None => True
  | _, _ => False
  end.

Inductive step : Store -> Store -> Prop :=
| st_update s i f : same_row f -> step s (set_map (fst (get_mut i f (s_map s))) s)
| st_insert s p : fits s p -> step s (set_map (PMap.insert (principal_id p) p (s_map s)) s)
| st_remove s i : step s (set_map (fst (PMap.remove i (s_map s))) s)
| st_log s i now : step s (set_map (fst (log i now (s_map s))) s)
| st_other s s' :
    s_map s' = s_map s -> s_realm s' = s_realm s -> s_policy s' = s_policy s -> s_db s' = s_db s ->
    s_log s' = s_log s -> s_held s' = s_held s -> s_sid s' = s_sid s ->
    s_next_rid s <= s_next_rid s' <= U32_MAX -> prefix_opt (s_post s) (s_post s') -> step s s'.

Abbreviation steps := (rtc step).

Lemma keyed_update rs i f p : same_row f -> keyed rs -> rs !! i = Some p -> keyed (<[i := f p]> rs).
Proof.
  intros Hf Hk Hp j q. destruct (decide (i = j)) as [->|Hne].
  - rewrite lookup_insert_eq. intros [= <-]. rewrite <- (Hk j p Hp). unfold principal_id.
    by destruct (Hf p) as (-> & -> & _).
  - rewrite lookup_insert_ne by done. apply Hk.
Qed.

Lemma keyed_step s s' : step s s' -> keyed (rows (s_map s)) -> keyed (rows (s_map s')).
Proof.
  intros Hst Hk. destruct Hst as [s i f Hf|s p _|s i|s i now|s s' Hm]; cbn [s_map set_map].
  - unfold get_mut. rewrite rows_keep. destruct (rows (s_map s) !! i) as [p|] eqn:Hp; cbn [fst rows set_rows].
    + by apply keyed_update.
    + by rewrite rows_keep.
  - unfold PMap.insert. rewrite rows_insert_row, rows_keep. intros j q.
    destruct (decide (principal_id p = j)) as [<-|Hne].
    + rewrite lookup_insert_eq. by intros [= <-].
    + rewrite lookup_insert_ne by done. apply Hk.
  - unfold PMap.remove. cbn [fst]. rewrite rows_remove_row, rows_keep. intros j q Hq.
    apply lookup_delete_Some in Hq as [_ Hq]. by apply Hk.
  - done.
  - by rewrite Hm.
Qed.

Lemma step_map s s' : step s s' -> rtc map_step (s_map s) (s_map s').
Proof.
  intros Hst. destruct Hst as [s i f Hf|s p Hfit|s i|s i now|s s' Hm]; cbn [s_map set_map].
  - apply rtc_once, step_get_mut. intros p. destruct (Hf p) as (H1 & _ & H3). by split.
  - apply rtc_once, step_insert. unfold rid_free. destruct Hfit as [H|[H|[H _]]]; [by left|by right; left|].
    right; right. by destruct (rid_owner _ _).
  - apply rtc_once, step_remove.
  - apply rtc_once, step_log.
  - by rewrite Hm.
Qed.

Lemma below_step s s' :
  step s s' -> exact (s_map s) -> below (s_map s) (s_next_rid s) -> below (s_map s') (s_next_rid s').
Proof.
  intros Hst He Hb. destruct Hst as [s i f Hf|s p Hfit|s i|s i now|s s' Hm]; cbn [s_map set_map s_next_rid].
  - intros r j. unfold get_mut. destruct (rows _ !! i); cbn [fst rids set_rows]; rewrite rids_keep; apply Hb.
  - intros r j. unfold PMap.insert. rewrite rids_insert_row, rids_keep
      by (by apply exact_parts, exact_keep).
    case_decide as Hr; [|case_decide; [done|apply Hb]]. intros _. destruct Hr as (-> & H0 & Hk).
    destruct Hfit as [Hf|[Hf|[_ Hf]]]; [congruence|done|done].
  - intros r j. unfold PMap.remove. cbn [fst].
    rewrite rids_remove_row, rids_keep by (by apply exact_parts, exact_keep).
    case_decide; [done|apply Hb].
  - done.
  - rewrite Hm. intros r i Hr Hle. destruct (Hb r i Hr Hle) as [Hlt|Hmax]; [left|right]; lia.
Qed.

Lemma inv_step s s' : step s s' -> inv s -> inv s'.
Proof.
  intros Hst [Hk He Hb Hn]. split.
  - by apply (keyed_step s).
  - pose proof (step_map _ _ Hst) as Hm. clear - He Hm.
    induction Hm as [m|m m1 m2 H _ IH]; [done|]. apply IH. by apply (exact_step m).
  - by apply (below_step s).
  - destruct Hst; cbn; lia.
Qed.

Lemma inv_steps s s' : steps s s' -> inv s -> inv s'.
Proof. induction 1 as [|s s1 s2 H _ IH]; [done|]. intros Hi. by apply IH, (inv_step s). Qed.

Lemma steps_map s s' : steps s s' -> rtc map_step (s_map s) (s_map s').
Proof. induction 1 as [|s s1 s2 H _ IH]; [done|]. etrans; [by apply step_map|done]. Qed.

(** What no operation changes, and what only grows. *)
Record frame (s s' : Store) : Prop := {
  fr_realm : s_realm s' = s_realm s;
  fr_policy : s_policy s' = s_policy s;
  fr_db : s_db s' = s_db s;
  fr_log : s_log s' = s_log s;
  fr_held : s_held s' = s_held s;
  fr_sid : s_sid s' = s_sid s;
  fr_next : s_next_rid s <= s_next_rid s';
  fr_post : prefix_opt (s_post s) (s_post s');
}.

Lemma prefix_opt_refl o : prefix_opt o o.
Proof. destruct o as [q|]; cbn; [reflexivity|done]. Qed.

Lemma prefix_opt_trans a b c : prefix_opt a b -> prefix_opt b c -> prefix_opt a c.
Proof. destruct a, b, c; cbn; try done. intros. by etrans. Qed.

Lemma frame_steps s s' : steps s s' -> frame s s'.
Proof.
  induction 1 as [s|s s1 s2 H _ IH]; [split; try done; apply prefix_opt_refl|].
  assert (frame s s1) as H1.
  { destruct H; split; cbn; try done; try lia; apply prefix_opt_refl. }
  destruct H1, IH. split; try congruence; try lia; by eapply prefix_opt_trans.
Qed.

(** ** Operations are steps *)

Definition stepping {A} (m : M A) : Prop := forall s, inv s -> steps s (fst (m s)).

Lemma stepping_ret {A} (a : A) : stepping (ret a).
Proof. by intros s _. Qed.

Lemma stepping_lift {A} (r : result KdcError A) : stepping (lift r).
Proof. by intros s _. Qed.

Lemma stepping_reading {A} (f : Store -> A) : stepping (reading f).
Proof. by intros s _. Qed.

Lemma stepping_bind {A B} (m : M A) (k : A -> M B) :
  stepping m -> (forall a, stepping (k a)) -> stepping (bind m k).
Proof.
  intros Hm Hk s Hs. unfold bind. specialize (Hm s Hs). destruct (m s) as [s1 [a|e]]; [|done].
  etrans; [exact Hm|]. apply Hk. by eapply inv_steps.
Qed.

Lemma step_same_map s s' :
  s_map s' = s_map s -> s_realm s' = s_realm s -> s_policy s' = s_policy s -> s_db s' = s_db s ->
  s_log s' = s_log s -> s_held s' = s_held s -> s_sid s' = s_sid s -> s_next_rid s' = s_next_rid s ->
  s_post s' = s_post s -> inv s -> steps s s'.
Proof.
  intros ??????? Hn Hp [_ _ _ Hr]. apply rtc_once, st_other; try done; [lia|]. rewrite Hp. apply prefix_opt_refl.
Qed.

Create HintDb stepping.
#[export] Hint Resolve stepping_ret stepping_lift stepping_reading : stepping.

(** Splits a program into the operations it is made of. *)
Ltac stepping_all :=
  repeat first
    [ progress eauto with stepping nocore
    | apply stepping_bind; [|intros ?]
    | match goal with
      | |- stepping (match ?x with _ => _ end) => destruct x eqn:?
      end ].

Section Stepping.
Context {Prim : Primitives} `{StoreEnv}.

Lemma stepping_inside_change : stepping inside_change.
Proof. by intros s _. Qed.

Lemma stepping_log_pending : stepping log_pending.
Proof. intros s Hs. by apply step_same_map. Qed.

Lemma stepping_save_if_configured : stepping save_if_configured.
Proof.
  intros s Hs. unfold save_if_configured. cbv zeta. destruct (s_db _); by apply step_same_map.
Qed.

Lemma stepping_save_through : stepping save_through.
Proof.
  unfold save_through. apply stepping_bind; [apply stepping_inside_change|]. intros _ s Hs. by apply step_same_map.
Qed.

Lemma stepping_note_ulog i d p : stepping (note_ulog i d p).
Proof.
  intros s Hs. unfold note_ulog, assign. cbn [fst]. destruct (s_log s) as [role|] eqn:Hl; [|done].
  eapply rtc_l; [apply (st_log s i (if d then None else p))|].
  unfold log, push_note. cbn [fst]. apply step_same_map; try done.
  eapply inv_step; [apply (st_log s i (if d then None else p))|done].
Qed.

Lemma stepping_note_ulog_reset : stepping note_ulog_reset.
Proof. intros s Hs. by apply step_same_map. Qed.

Lemma stepping_hook st c : stepping (hook st c).
Proof. intros s Hs. by apply step_same_map. Qed.

Lemma stepping_postcommit c : stepping (postcommit c).
Proof.
  intros s Hs. unfold postcommit, assign. cbn [fst]. destruct (s_post s) as [q|] eqn:Hq.
  - pose proof (inv_next _ Hs). apply rtc_once, st_other; try done; [cbn; lia|].
    rewrite Hq. cbn. by apply prefix_app_r.
  - by apply stepping_hook.
Qed.

Lemma stepping_draw : stepping draw.
Proof. intros s Hs. by apply step_same_map. Qed.

Lemma stepping_update i f : same_row f -> stepping (update i f).
Proof.
  intros Hf s Hs. unfold update. pose proof (st_update s i f Hf) as Hst. destruct (get_mut i f (s_map s)) as [m b].
  by apply rtc_once.
Qed.

Lemma stepping_update_try i f : same_row (fun p => fst (f p)) -> stepping (update_try i f).
Proof.
  intros Hf s Hs. unfold update_try. pose proof (st_update s i _ Hf) as Hst.
  destruct (get_mut i _ (s_map s)) as [m b]. by apply rtc_once.
Qed.

Lemma stepping_policies f : stepping (assign (fun s => set_policies (f s) s)).
Proof. intros s Hs. by apply step_same_map. Qed.

Lemma stepping_zero_in_file i : stepping (zero_in_file i).
Proof. intros s Hs. unfold zero_in_file, assign. cbn [fst]. case_match; [by apply step_same_map|done]. Qed.

End Stepping.

#[export] Hint Resolve stepping_inside_change stepping_save_if_configured stepping_save_through
  stepping_note_ulog stepping_note_ulog_reset stepping_hook stepping_postcommit stepping_draw
  stepping_policies stepping_zero_in_file : stepping.

Section Rows.
Context {Prim : Primitives} `{StoreEnv}.

Lemma settle_rid_ok p s s' q :
  inv s -> settle_rid p s = (s', q) ->
  steps s s' /\ name q = name p /\ realm q = realm p /\ s_map s' = s_map s /\
  (RID_FIRST_USER <= rid q -> rid q < s_next_rid s' \/ s_next_rid s' = U32_MAX).
Proof.
  intros Hs. unfold settle_rid.
  assert (forall s1 q1, steps s s1 -> s_map s1 = s_map s -> name q1 = name p -> realm q1 = realm p ->
    (bump_next_rid (rid q1) s1, q1) = (s', q) ->
    steps s s' /\ name q = name p /\ realm q = realm p /\ s_map s' = s_map s /\
    (RID_FIRST_USER <= rid q -> rid q < s_next_rid s' \/ s_next_rid s' = U32_MAX)) as Hbump.
  { intros s1 q1 H1 Hm Hn Hr [= <- <-]. pose proof (inv_next _ (inv_steps _ _ H1 Hs)) as Hnx.
    unfold bump_next_rid. destruct ((_ <=? _) && _) eqn:Eb; to_prop.
    - unfold RID_FIRST_USER, sat_add in *. split_and!; cbn; try done; try lia. etrans; [exact H1|].
      apply rtc_once, st_other; cbn; try done; [unfold sat_add; lia|apply prefix_opt_refl].
    - split_and!; try done. intros Hle. rewrite andb_false_iff in Eb. to_prop. lia. }
  destruct (_ && _); [|apply Hbump; done]. destruct (_ && _); [by apply Hbump|].
  unfold alloc_rid. destruct (_ && _); [by apply Hbump|]. apply Hbump; try done.
  pose proof (inv_next _ Hs). apply rtc_once, st_other; cbn; try done; [unfold sat_add; lia|apply prefix_opt_refl].
Qed.

Lemma stepping_insert p s : inv s -> fits s p -> steps s (set_map (PMap.insert (principal_id p) p (s_map s)) s).
Proof. intros Hs Hf. by apply rtc_once, st_insert. Qed.

Lemma note_ulog_rids i d p s :
  rids (s_map (fst (note_ulog i d p s))) = rids (s_map s) /\ s_next_rid (fst (note_ulog i d p s)) = s_next_rid s.
Proof. unfold note_ulog, assign. cbn [fst]. by destruct (s_log s). Qed.

Lemma fits_same s s' p :
  rids (s_map s') = rids (s_map s) -> s_next_rid s' = s_next_rid s -> fits s p -> fits s' p.
Proof. unfold fits, rid_owner. by intros -> ->. Qed.

(** Noting a row in the log and putting it in. *)
Lemma stepping_note_insert p s :
  inv s -> fits s p ->
  steps s (fst ((do! note_ulog (principal_id p) false (Some p);
                 assign (fun s => set_map (PMap.insert (principal_id p) p (s_map s)) s)) s)).
Proof.
  intros Hs Hf. unfold bind. pose proof (stepping_note_ulog (principal_id p) false (Some p) s Hs) as H1.
  destruct (note_ulog_rids (principal_id p) false (Some p) s) as [Hr Hn].
  destruct (note_ulog _ _ _ s) as [s1 [u|e]]; cbn [fst] in *; [|done].
  etrans; [exact H1|]. apply stepping_insert; [by eapply inv_steps|by apply (fits_same s)].
Qed.

Lemma stepping_put_principal p : stepping (put_principal p).
Proof.
  unfold put_principal. apply stepping_bind; [auto with stepping|]. intros tl s Hs.
  destruct (settle_rid (set_tl_data tl p) s) as [s1 q] eqn:Eq.
  destruct (settle_rid_ok _ _ _ _ Hs Eq) as (H1 & _ & _ & _ & Hb). cbv zeta.
  destruct (_ && _) eqn:Ed; [done|]. etrans; [exact H1|].
  apply stepping_note_insert; [by eapply inv_steps|]. unfold fits.
  apply andb_false_iff in Ed as [Ed|Ed]; [left; by destruct (is_km q)|right; right].
  split; [|done]. destruct (rid_owner _ _); [|done]. to_prop. done.
Qed.

Lemma stepping_make_random_key e : stepping (make_random_key e).
Proof. unfold make_random_key. stepping_all. Qed.

Lemma stepping_random_keys ks v : stepping (random_keys ks v).
Proof.
  unfold random_keys. generalize (@nil KeyEntry). induction ks as [|x ks IH]; intros l; cbn; stepping_all.
Qed.

Lemma stepping_salt_for t n r : stepping (salt_for t n r).
Proof. unfold salt_for, random_salt. stepping_all. Qed.

Lemma stepping_keys_from_password ks pw n r v : stepping (keys_from_password ks pw n r v).
Proof.
  unfold keys_from_password. generalize (@nil KeyEntry).
  induction ks as [|x ks IH]; intros l; cbn; stepping_all. all: apply stepping_salt_for.
Qed.

Lemma stepping_canonical_id n r : stepping (canonical_id n r).
Proof. unfold canonical_id, ok_or_not_found. stepping_all. Qed.

Lemma stepping_raw i : stepping (raw i).
Proof. unfold raw, ok_or_not_found. stepping_all. Qed.

Lemma stepping_note_and_save i : stepping (note_and_save i).
Proof. unfold note_and_save, snap. stepping_all. Qed.

End Rows.

#[export] Hint Resolve stepping_put_principal stepping_make_random_key stepping_random_keys stepping_salt_for
  stepping_keys_from_password stepping_canonical_id stepping_raw stepping_note_and_save : stepping.

(** ** Assignments that keep a row's name and RID *)

Lemma same_row_comp f g : same_row f -> same_row g -> same_row (fun p => f (g p)).
Proof. intros Hf Hg p. destruct (Hf (g p)) as (-> & -> & ->). apply Hg. Qed.

Lemma same_row_stamp now b actor : same_row (stamp_admin_tl now b actor).
Proof. by intros p. Qed.

Lemma same_row_refresh : same_row refresh_kadm_tl.
Proof. by intros p. Qed.

Lemma same_row_stamped `{StoreEnv} actor f : same_row f -> same_row (stamped actor f).
Proof. intros Hf. apply (same_row_comp (stamp_admin_tl unix_now false actor) f); [apply same_row_stamp|done]. Qed.

Lemma same_row_set_opt {A} (set : A -> Principal -> Principal) o :
  (forall a, same_row (set a)) -> same_row (set_opt set o).
Proof. intros Hs. destruct o; [apply Hs|by intros p]. Qed.

Lemma same_row_with_fields f : same_row (with_fields f).
Proof.
  intros p. unfold with_fields. cbv zeta. set (p1 := set_opt set_pw_expire _ _).
  assert (name p1 = name p /\ realm p1 = realm p /\ rid p1 = rid p) as Hp1.
  { unfold p1. destruct (af_attributes f), (af_max_life f), (af_max_renewable_life f), (af_expiration f),
      (af_pw_expire f); done. }
  clearbody p1. destruct (af_clear_policy f); [done|]. by destruct (af_policy f).
Qed.

Lemma same_row_restrict ent : same_row (restrict_row ent).
Proof.
  intros p. unfold restrict_row. cbv zeta. destruct (has (Acl.mask ent) _); destruct (has (Acl.mask ent) _);
    destruct (has (Acl.mask ent) _); destruct (has (Acl.mask ent) _); destruct (has (Acl.mask ent) _);
    destruct (has (Acl.mask ent) _); try done; by destruct (has (Acl.mask ent) _).
Qed.

Lemma same_row_specialize : same_row (fun p => fst (specialize p)).
Proof. intros p. unfold specialize, specialize_salts. by destruct (existsb _ _). Qed.

Lemma same_row_record_history `{Primitives} rnd p old n v hk :
  let q := fst (History.record_history rnd p old n v hk) in
  name q = name p /\ realm q = realm p /\ rid q = rid p.
Proof.
  cbv zeta. unfold History.record_history. set (p1 := History.for_history_kvno v p).
  assert (name p1 = name p /\ realm p1 = realm p /\ rid p1 = rid p) as Hp1
    by (unfold p1, History.for_history_kvno; by case_match).
  clearbody p1. case_match; [done|]. case_match; [done|]. by case_match.
Qed.

Lemma same_row_with_new_password `{Primitives} `{StoreEnv} rnd ks hist keepold actor :
  same_row (fun p => fst (with_new_password rnd ks hist keepold actor p)).
Proof.
  intros p. unfold with_new_password. cbv zeta. destruct hist as [[nh [v hk]]|]; [|done].
  pose proof (same_row_record_history rnd (set_keys ks p) (keys p) nh v hk) as Hh. cbv zeta in Hh.
  destruct (History.record_history rnd (set_keys ks p) (keys p) nh v hk) as [q [u|e]]; done.
Qed.

Section Requests.
Context {Prim : Primitives} `{StoreEnv}.

Lemma stepping_apply_pw_max_life n r : stepping (apply_pw_max_life_in n r).
Proof. unfold apply_pw_max_life_in. stepping_all. by apply stepping_update. Qed.

#[local] Hint Resolve stepping_apply_pw_max_life : stepping.

Lemma stepping_create_finish c ks pw ent actor : stepping (create_finish c ks pw ent actor).
Proof. unfold create_finish. stepping_all. Qed.

Lemma stepping_create n r ck es ent actor : stepping (create_principal_3_in n r ck es ent actor).
Proof. unfold create_principal_3_in. cbv zeta. stepping_all; apply stepping_create_finish. Qed.

Lemma stepping_remove i : stepping (remove_id_inner i).
Proof.
  unfold remove_id_inner. stepping_all. intros s Hs. apply rtc_once, st_remove.
Qed.

Lemma stepping_alias a ar t tr actor : stepping (create_alias_in a ar t tr actor).
Proof.
  unfold create_alias_in. stepping_all. cbv zeta.
  intros s Hs. change (lookup_principal_id a ar) with (principal_id (alias_row a ar t tr actor)).
  apply stepping_insert; [done|]. right; left. done.
Qed.

Lemma stepping_status n l e actor : stepping (set_status n l e actor).
Proof. unfold set_status. stepping_all. apply stepping_update, same_row_stamped. by destruct l. Qed.

Lemma stepping_unlock n r actor : stepping (admin_unlock_in n r actor).
Proof. unfold admin_unlock_in. stepping_all. by apply stepping_update, same_row_stamped. Qed.

Lemma stepping_clear_fail n r actor : stepping (clear_fail_auth_count_in n r actor).
Proof. unfold clear_fail_auth_count_in. stepping_all. by apply stepping_update, same_row_stamped. Qed.

Lemma stepping_kvno n r v actor : stepping (set_kvno_in n r v actor).
Proof. unfold set_kvno_in. stepping_all. by apply stepping_update, same_row_stamped. Qed.

Lemma stepping_merge n r tls actor : stepping (merge_tl_data_in n r tls actor).
Proof. unfold merge_tl_data_in. stepping_all. Qed.

Lemma stepping_s4u n t actor : stepping (record_s4u_to n t actor).
Proof.
  unfold record_s4u_to, snap. stepping_all. apply stepping_update. intros p. by case_match.
Qed.

Lemma stepping_modify n r f actor : stepping (apply_admin_fields_in n r f actor).
Proof.
  unfold apply_admin_fields_in. stepping_all. apply stepping_update, same_row_stamped, same_row_with_fields.
Qed.

Lemma stepping_restrict n r rs : stepping (impose_acl_restrictions_in n r rs).
Proof.
  unfold impose_acl_restrictions_in, apply_acl_restrictions. stepping_all.
  apply stepping_update, same_row_restrict.
Qed.

Lemma stepping_string n r k v actor : stepping (set_string_in n r k v actor).
Proof. unfold set_string_in. stepping_all. by apply stepping_update, same_row_stamped. Qed.

Lemma stepping_policy n r pol actor : stepping (set_principal_policy_in n r pol actor).
Proof.
  unfold set_principal_policy_in. stepping_all. by apply stepping_update, same_row_stamped.
Qed.

Lemma stepping_ensure_history actor : stepping (ensure_history_principal actor).
Proof. unfold ensure_history_principal. stepping_all. Qed.

#[local] Hint Resolve stepping_ensure_history : stepping.

Lemma stepping_password n r pw keepold actor es :
  stepping (set_password_etypes_keepold_n_in n r pw keepold actor es).
Proof.
  unfold set_password_etypes_keepold_n_in, chpass_inputs, chpass_plan, derive, commit_password, replace_password_keys.
  stepping_all.
  - apply stepping_update_try, same_row_with_new_password.
  - by apply stepping_update.
Qed.

Lemma stepping_chrand n r es keepold actor : stepping (chrand_etypes_keepold_in n r es keepold actor).
Proof.
  unfold chrand_etypes_keepold_in. stepping_all; by apply stepping_update.
Qed.

Lemma stepping_purge n r v actor : stepping (purgekeys_in n r v actor).
Proof. unfold purgekeys_in. stepping_all. by apply stepping_update, same_row_stamped. Qed.

Lemma stepping_set_keys n r ks keepold actor : stepping (set_keys_in n r ks keepold actor).
Proof.
  unfold set_keys_in. stepping_all; by apply stepping_update.
Qed.

Lemma stepping_put_policy pol : stepping (put_policy_body pol).
Proof. unfold put_policy_body. stepping_all. Qed.

Lemma stepping_delete_policy nm : stepping (delete_policy_body nm).
Proof. unfold delete_policy_body, ok_or_not_found. stepping_all. Qed.

(** Once its row is out, nobody has its RID. *)
Lemma fits_removed s i p q :
  inv s -> rows (s_map s) !! i = Some p -> is_km p = false -> rid q = rid p ->
  fits (set_map (fst (PMap.remove i (s_map s))) s) q.
Proof.
  intros [_ He Hb _] Hp Hk Hq. right. destruct (decide (rid q = 0)) as [Hz|Hz]; [by left|right].
  assert (rids (s_map s) !! rid q = Some i) as Hr.
  { apply He. split; [done|]. exists p. by rewrite Hq. }
  split; [|intros Hle; by apply (Hb _ i)].
  unfold rid_owner. rewrite (proj2 (Z.eqb_neq _ _) Hz). cbn [s_map set_map]. unfold PMap.remove. cbn [fst].
  rewrite rids_remove_row, rids_keep by (by apply exact_parts, exact_keep). by rewrite decide_True.
Qed.

Lemma fits_note i d o q s : fits s q -> fits (fst (note_ulog i d o s)) q.
Proof. destruct (note_ulog_rids i d o s) as [Hr Hn]. by apply fits_same. Qed.

Lemma steps_put_renamed i p actor s :
  inv s -> fits s (stamp_admin_tl unix_now false actor p) -> steps s (fst (put_renamed i p actor s)).
Proof.
  intros Hs Hf. unfold put_renamed. unfold bind at 1. cbn [assign].
  set (s1 := rename_lockout_in_file i p s).
  assert (steps s s1 /\ fits s1 (stamp_admin_tl unix_now false actor p)) as [H1 Hf1].
  { unfold s1, rename_lockout_in_file. case_match; [|done]. split; [by apply step_same_map|by apply (fits_same s)]. }
  assert (inv s1) as Hs1 by (by eapply inv_steps). etrans; [exact H1|]. clear H1. clearbody s1.
  pose proof (stepping_note_ulog (principal_id p) false (Some p) s1 Hs1) as H2.
  apply (fits_note (principal_id p) false (Some p)) in Hf1. unfold bind at 1.
  change (note_ulog (principal_id p) false (Some p) s1)
    with (fst (note_ulog (principal_id p) false (Some p) s1), @Ok KdcError unit tt).
  set (s2 := fst (note_ulog _ _ _ s1)) in *. assert (inv s2) as Hs2 by (by eapply inv_steps).
  etrans; [exact H2|]. clear H2. clearbody s2.
  pose proof (stepping_note_ulog i true None s2 Hs2) as H3.
  apply (fits_note i true None) in Hf1. unfold bind at 1.
  change (note_ulog i true None s2) with (fst (note_ulog i true None s2), @Ok KdcError unit tt).
  set (s3 := fst (note_ulog _ _ _ s2)) in *. assert (inv s3) as Hs3 by (by eapply inv_steps).
  etrans; [exact H3|]. clear H3. clearbody s3. by apply stepping_note_insert.
Qed.

Lemma stepping_rename old old_realm new new_realm actor s :
  inv s ->
  (forall p, rows (s_map s) !! lookup_principal_id old old_realm = Some p -> is_km p = false) ->
  steps s (fst (rename_unchecked old old_realm new new_realm actor s)).
Proof.
  intros Hs Hkm. unfold rename_unchecked, inside_change. set (i := lookup_principal_id old old_realm) in *.
  unfold bind at 1. destruct (_ && _); [done|]. cbv zeta. unfold bind at 1. cbn [reading].
  destruct (get s _); [done|]. unfold raw, ok_or_not_found, PMap.get, reading, lift. unfold bind at 1 2.
  destruct (rows (s_map s) !! i) as [p|] eqn:Hp; [|done]. destruct (alias_target p); [done|].
  unfold bind at 1. pose proof (stepping_hook Precommit (PRename old old_realm new new_realm) s Hs) as H1.
  unfold hook in *. cbn [fst] in H1. destruct (walk _ _ _); [|done]. set (s1 := set_calls _ s) in *.
  assert (inv s1) as Hs1 by (by eapply inv_steps). etrans; [exact H1|]. clear H1.
  unfold bind at 1. pose proof (stepping_update_try i specialize same_row_specialize s1 Hs1) as H2.
  unfold update_try, get_mut, PMap.get in *. rewrite rows_keep in *. change (s_map s1) with (s_map s) in *.
  rewrite Hp in *. cbn [fst] in H2. destruct (snd (specialize p)); [|done].
  set (s2 := set_map _ s1) in *. assert (inv s2) as Hs2 by (by eapply inv_steps). etrans; [exact H2|]. clear H2.
  assert (rows (s_map s2) !! i = Some (fst (specialize p))) as Hp2 by apply lookup_insert_eq.
  set (p2 := fst (specialize p)) in *.
  assert (is_km p2 = false) as Hk2.
  { rewrite <- (Hkm p eq_refl). unfold is_km, p2. by destruct (same_row_specialize p) as (-> & _). }
  clearbody p2 s2. clear s1 Hs1 Hs Hp Hkm p.
  unfold bind at 1, take_row, PMap.remove. rewrite rows_keep, Hp2. cbn [fst].
  pose proof (fits_removed s2 i p2 (stamp_admin_tl unix_now false actor (set_name new new_realm p2)) Hs2 Hp2 Hk2 eq_refl)
    as Hfit.
  pose proof (st_remove s2 i) as H3. unfold PMap.remove in Hfit, H3. cbn [fst] in Hfit, H3.
  set (s3 := set_map _ s2) in *. assert (inv s3) as Hs3 by (by eapply inv_step).
  etrans; [by apply rtc_once|]. clear H3. clearbody s3.
  pose proof (steps_put_renamed i (set_name new new_realm p2) actor s3 Hs3 Hfit) as H4.
  unfold bind at 1. destruct (put_renamed _ _ _ s3) as [s4 [u|e]]; [|done]. etrans; [exact H4|].
  eapply (stepping_bind save_if_configured); auto with stepping. by eapply inv_steps.
Qed.

(** The request does not rename the row of the master key, K/M, which has no place
    in the index of RIDs.  (The source does not check this: see
    [km_renamed_shares_rid].) *)
Definition spares_km (q : Request) (s : Store) : Prop :=
  match q with
  | RRename old old_realm _ _ =>
      forall p, rows (s_map s) !! lookup_principal_id old old_realm = Some p -> is_km p = false
  | _ => True
  end.

Lemma run_steps q actor s : inv s -> spares_km q s -> steps s (fst (run q actor s)).
Proof.
  intros Hs Ha. destruct q; cbn [run].
  - by apply stepping_create.
  - by apply stepping_remove.
  - by apply stepping_rename.
  - by apply stepping_alias.
  - by apply stepping_status.
  - by apply stepping_unlock.
  - by apply stepping_clear_fail.
  - by apply stepping_kvno.
  - by apply stepping_merge.
  - by apply stepping_s4u.
  - by apply stepping_modify.
  - by apply stepping_restrict.
  - by apply stepping_string.
  - by apply stepping_policy.
  - by apply stepping_password.
  - apply stepping_bind; [apply stepping_chrand|auto with stepping|done].
  - by apply stepping_purge.
  - by apply stepping_set_keys.
  - by apply stepping_put_policy.
  - by apply stepping_delete_policy.
Qed.

(** Requests one after another, each whatever the one before answered. *)
Fixpoint run_all (l : list (Request * Name.ustr)) (s : Store) : Store :=
  match l with
  | [] => s
  | (q, actor) :: l => run_all l (fst (run q actor s))
  end.

Fixpoint all_spare_km (l : list (Request * Name.ustr)) (s : Store) : Prop :=
  match l with
  | [] => True
  | (q, actor) :: l => spares_km q s /\ all_spare_km l (fst (run q actor s))
  end.

(** No RID has two owners. *)
Definition rids_unique (rs : gmap id Principal) : Prop :=
  forall i j p q, rs !! i = Some p -> rs !! j = Some q -> is_km p = false -> is_km q = false ->
    rid p = rid q -> rid p <> 0 -> i = j.

Lemma exact_unique_rids m : exact m -> rids_unique (rows m).
Proof.
  intros He i j p q Hi Hj Hp Hq Hr Hz.
  assert (rids m !! rid p = Some i) as H1 by (apply He; split; [done|by exists p]).
  assert (rids m !! rid p = Some j) as H2 by (apply He; split; [done|by exists q]). congruence.
Qed.


(** ** Changes of the database *)

(** The store as the request sees it. *)
Definition begun (s : Store) : Store :=
  set_held true (set_map (begin_change (s_map s)) (set_through false (set_changed false s))).

Lemma inv_begun s : inv s -> inv (begun s).
Proof. intros [Hk He Hb Hn]. by split. Qed.

Lemma recorded_begun s : recorded (rows (s_map s)) (s_map (begun s)).
Proof. exists ∅. by split. Qed.

Lemma steps_recorded s0 s s' :
  steps s s' -> inv s -> recorded s0 (s_map s) -> recorded s0 (s_map s').
Proof.
  intros Hst Hs Hr. by apply (steps_keep s0 _ _ (steps_map _ _ Hst) (inv_exact _ Hs)).
Qed.

Lemma run_posts_calls committed calls s :
  run_posts committed calls s =
  set_calls (s_calls s ++ map (pair Postcommit) (List.filter (fun c => committed || always c) calls)) s.
Proof.
  revert s. unfold run_posts. induction calls as [|c calls IH]; intros s; cbn [fold_left List.filter map].
  { rewrite app_nil_r. by destruct s. }
  destruct (committed || always c); [|apply IH]. rewrite IH. unfold run_post, hook. cbn [fst]. cbn.
  by rewrite <- app_assoc.
Qed.

(** The rows, RIDs, policies and counters of a store. *)
Definition same_data (s s' : Store) : Prop :=
  rows (s_map s') = rows (s_map s) /\ rids (s_map s') = rids (s_map s) /\
  s_policies s' = s_policies s /\ s_next_rid s' = s_next_rid s /\ s_sid s' = s_sid s.

Lemma restore_same s1 s2 :
  inv s1 -> steps (begun s1) s2 ->
  exists s3, restore (before_of s1) (set_held false s2) = (s3, true) /\ same_data s1 s3 /\
    s_pending s3 = [] /\ s_post s3 = s_post s2 /\ s_calls s3 = s_calls s2.
Proof.
  intros Hs Hst. pose proof (inv_steps _ _ Hst (inv_begun _ Hs)) as Hs2.
  pose proof (steps_recorded _ _ _ Hst (inv_begun _ Hs) (recorded_begun s1)) as Hr.
  destruct Hr as (b & Hu & Hb).
  destruct (undo_restores_rows (s_map s1) (s_map s2) b (map_to_list b)) as [H1 H2];
    [apply Hs|apply Hs2|by exists b|done|done|].
  unfold restore, undo_change. cbn [s_map set_held]. rewrite Hu. eexists. split; [reflexivity|].
  split_and!; try done.
Qed.

Lemma read_back_ghost l s : s_post (read_back l s) = s_post s /\ s_calls (read_back l s) = s_calls s.
Proof. unfold read_back, reread. by destruct l. Qed.

Lemma read_back_same l s s' :
  s' = set_held false s \/ s' = set_pending [] (set_held false s) -> same_data (read_back l s) (read_back l s').
Proof. intros [-> | ->]; unfold read_back, reread; by destruct l. Qed.

Definition committed {T} (out : result KdcError (result KdcError T)) : bool :=
  match out with Ok (Ok _) => true | _ => false end.

Lemma same_data_calls calls s s' : same_data s s' -> same_data s (set_calls calls s').
Proof. done. Qed.

(** What a change comes to, from the store [s1] read under the lock and the store
    [s2] and answer its request came to. *)
Definition outcome {T} (d : Disk) (s1 s2 : Store) (answer : result KdcError T) (s' : Store)
    (out : result KdcError (result KdcError T)) : Prop :=
  s_calls s' = s_calls s2 ++
    map (pair Postcommit) (List.filter (fun c => committed out || always c) (default [] (s_post s2))) /\
  match answer with
  | Err e =>
      out = Ok (Err e) /\
      if s_through s2 then same_data (read_back (d_loaded_back d) s2) s' else same_data s1 s' /\ s_pending s' = []
  | Ok v =>
      if s_changed s2 then
        match d_write d (set_held false s2) with
        | Ok _ =>
            same_data s2 s' /\ s_pending s' = [] /\
            out = match d_finish d (set_held false s2) with Ok _ => Ok (Ok v) | Err e => Err e end
        | Err e => out = Err e /\ same_data (read_back (d_loaded_back d) s2) s'
        end
      else out = Ok (Ok v) /\ same_data s2 s'
  end.

Lemma change_outcome {T} d (f : M T) s s1 s2 answer :
  s_db s = true -> s_held s = false -> s_post s = None -> d_lock d = Ok tt ->
  refresh_for_change d (set_post (Some []) s) = (s1, Ok tt) -> inv s1 ->
  f (begun s1) = (s2, answer) -> steps (begun s1) s2 ->
  outcome d s1 s2 answer (fst (change d f s)) (snd (change d f s)).
Proof.
  intros Hdb Hheld Hpost Hlock Href Hs Hf Hst. unfold change. rewrite Hpost. unfold change_locked.
  cbn [s_held s_db set_post]. rewrite Hheld, Hdb. cbn [orb negb]. rewrite Hlock, Href.
  fold (begun s1). rewrite Hf. cbn [s_changed s_through set_held].
  unfold outcome. destruct answer as [v|e].
  - destruct (s_changed s2); [|cbn [fst snd]; rewrite run_posts_calls; cbn; by destruct (s_post s2)].
    destruct (d_write d (set_held false s2)) as [u|e].
    + destruct (d_finish d (set_held false s2)); cbn [fst snd]; rewrite run_posts_calls; cbn; by destruct (s_post s2).
    + set (s3 := set_pending [] (set_held false s2)).
      destruct (read_back_ghost (d_loaded_back d) s3) as [Hp Hc]. cbn [fst snd]. rewrite run_posts_calls. cbn.
      rewrite Hp, Hc. cbn. split; [by destruct (s_post s2)|]. split; [done|]. apply same_data_calls, read_back_same. by right.
  - destruct (restore_same s1 s2 Hs Hst) as (s3 & Hr & Hsame & Hpend & Hp3 & Hc3).
    destruct (s_through s2) eqn:Et; [|rewrite Hr]; cbn [fst snd committed orb].
    + destruct (read_back_ghost (d_loaded_back d) (set_held false s2)) as [Hp Hc].
      rewrite run_posts_calls. cbn. rewrite Hp, Hc. cbn. split; [by destruct (s_post s2)|]. split; [done|].
      apply same_data_calls, read_back_same. by left.
    + rewrite run_posts_calls. cbn. rewrite Hp3, Hc3. by destruct (s_post s2).
Qed.

(** C7: A change of the database is all or nothing, for every request but the
    renaming of the master key's row (K/M).  When the request succeeds and is
    written, the rows, the index of RIDs, the policies and the counters are the
    request's.  When it fails they are those read under the lock, and nothing waits
    to be logged.  When it fails after it has written through (a password change
    that had to make [kadmin/history]), and when the database cannot be written,
    they are those of the database as it is read back.  (Where that cannot be read
    either they stay the request's.)  The hooks that run after a commit are those
    the request queued, in their order, and when it did not commit only those of
    creations. *)
Theorem change_atomic d q actor s s1 :
  s_db s = true -> s_held s = false -> s_post s = None -> d_lock d = Ok tt ->
  refresh_for_change d (set_post (Some []) s) = (s1, Ok tt) -> inv s1 -> spares_km q s1 ->
  let ran := run q actor (begun s1) in
  outcome d s1 (fst ran) (snd ran) (fst (change d (run q actor) s)) (snd (change d (run q actor) s)) /\
  inv (fst ran).
Proof.
  intros Hdb Hheld Hpost Hlock Href Hs Ha ran.
  assert (steps (begun s1) (fst ran)) as Hst by (apply run_steps; [by apply inv_begun|by destruct q]).
  split; [|by apply (inv_steps _ _ Hst), inv_begun].
  apply change_outcome; try done. by destruct ran eqn:E.
Qed.

End Requests.

(** ** Samples *)

Definition sample_env : StoreEnv := {|
  unix_now := 1000000;
  random_key n e := Ok (Key.mk e (replicate (EType.key_len e) (z8 (Z.of_nat n))));
  random_8 n := Ok (replicate 8 (z8 (Z.of_nat n)));
  wrap_draw _ := History.toy_rnd;
  log_write _ := Ok tt;
  write_database _ := Ok tt;
  hooks := [];
  registered := [];
  case_fold := Pwqual.FoldAscii;
|}.

Definition no_relations : Pwqual.PluginRelations := Pwqual.mkRelations None None.

Definition sample_store : Store :=
  mkStore (lit_bytes "R") (mkMap ∅ ∅ ∅ true Off) (mkPolicy 86400 0 true None 0 [] no_relations no_relations false)
    None true false false [] RID_FIRST_USER ∅ ∅ (Some Primary) [] false None 0 [].

Definition user (n : string) : PrincipalName.PrincipalName :=
  PrincipalName.mkName PrincipalName.NT_PRINCIPAL [lit_bytes n].

Lemma inv_sample s :
  s_map s = s_map sample_store -> s_next_rid s = RID_FIRST_USER -> inv s.
Proof.
  intros Hm Hn. split; rewrite ?Hm, ?Hn; [done| |done|done]. cbn. intros r i. split; [done|].
  intros (_ & p & Hp & _). done.
Qed.

Definition create (n : string) : Request := RCreate (user n) (lit_bytes "R") CRandom [] no_ent.

Definition sample_requests : list (Request * Name.ustr) :=
  [(create "ann", []); (create "bob", []); (create "ann", []);
   (RRename (user "ann") (lit_bytes "R") (user "cid") (lit_bytes "R"), []);
   (create "ann", []); (RRemove (user "bob") (lit_bytes "R"), [])].

(** The store inside a change. *)
Definition plain_store : Store := set_held true sample_store.


Definition sample_disk : Disk :=
  mkDisk (Ok tt) Same (Err NotFound) (fun _ => Ok tt) (Err NotFound) (fun _ => Ok tt).

Lemma change_atomic_witness :
  let s1 := set_post (Some []) sample_store in
  let ran := @run ToyPrimitives sample_env (create "ann") [] (begun s1) in
  let after := @change ToyPrimitives sample_env unit sample_disk (@run ToyPrimitives sample_env (create "ann") []) sample_store in
  outcome sample_disk s1 (fst ran) (snd ran) (fst after) (snd after) /\
  snd after = Ok (Ok tt) /\ is_Some (rows (s_map (fst after)) !! EncList.lit "ann@R").
Proof.
  intros s1 ran after. split; [|vm_compute; split; [reflexivity|eauto]].
  apply (@change_atomic ToyPrimitives sample_env sample_disk (create "ann") [] sample_store s1);
    first [reflexivity|exact I|by apply inv_sample].
Defined.

(** The row that is renamed to K/M gives up its RID, the next Administrator takes
    it, and renamed back the row has it still: two rows share the RID. *)
Definition km_requests : list (Request * Name.ustr) :=
  [(create "Administrator", []);
   (RRename (user "Administrator") (lit_bytes "R") (PrincipalName.mkName PrincipalName.NT_PRINCIPAL [lit_bytes "K"; lit_bytes "M"]) (lit_bytes "R"), []);
   (create "Administrator", []);
   (RRename (PrincipalName.mkName PrincipalName.NT_PRINCIPAL [lit_bytes "K"; lit_bytes "M"]) (lit_bytes "R") (user "foo") (lit_bytes "R"), [])].

Example km_renamed_shares_rid :
  let rs := rows (s_map (@run_all ToyPrimitives sample_env km_requests plain_store)) in
  rid <$> rs !! EncList.lit "Administrator@R" = Some 500 /\ rid <$> rs !! EncList.lit "foo@R" = Some 500.
Proof. vm_compute. split; reflexivity. Qed.

End StoreInv.
