(* ===== verification/StorePw.v ===== *)
(** * Changing a password

    What a password change of file StoreOps does when nothing stands in its way,
    and that the password just set is refused while the policy keeps a history. *)

From stdpp Require Import sorting.
From S2P Require Import Prelude StateErr Ascii Utf8 Etype Primitives Cts Derive Weak Ops Name EncList.
From S2P Require Import Kdc Lockout Osa History PMap Pwqual Acl Store StoreOps StoreInv.

Module StorePw.
Import PMap Store StoreOps.

(** ** Resolving through a changed row *)

Lemma resolve_loop_end n rl lookup i p j :
  resolve_loop n rl lookup i p = Some j -> lookup i = Some p ->
  exists q, lookup j = Some q /\ alias_target q = None.
Proof.
  revert i p. induction n as [|n IH]; intros i p; cbn [resolve_loop];
    destruct (alias_target p) as [t|] eqn:Ha; try done.
  - intros [= <-] Hi. by exists p.
  - destruct (principal_from_unparsed t rl) as [[nm r]|]; [|done]. cbn.
    destruct (lookup (lookup_principal_id nm r)) as [q|] eqn:Hq; [|done]. cbn. intros H _. by eapply IH.
  - intros [= <-] Hi. by exists p.
Qed.

Lemma resolve_loop_stable n rl lookup lookup' i p j q' :
  (forall k, k <> j -> lookup' k = lookup k) -> lookup' j = Some q' -> alias_target q' = None ->
  lookup i = Some p -> resolve_loop n rl lookup i p = Some j ->
  exists p', lookup' i = Some p' /\ resolve_loop n rl lookup' i p' = Some j.
Proof.
  intros Ho Hj Hq'. revert i p. induction n as [|n IH]; intros i p Hi Hr; cbn [resolve_loop] in *;
    (destruct (decide (i = j)) as [->|Hne]; [exists q'; by rewrite Hq'|exists p; rewrite Ho by done; split; [done|]]);
    destruct (alias_target p) as [t|]; try done.
  destruct (principal_from_unparsed t rl) as [[nm r]|]; [|done]. cbn in *.
  destruct (lookup (lookup_principal_id nm r)) as [q|] eqn:Hq; [|done]. cbn in Hr.
  destruct (IH _ _ Hq Hr) as (p' & Hp' & Hr'). by rewrite Hp'.
Qed.

Lemma resolve_alias_id_stable rl lookup lookup' k j q' :
  (forall k, k <> j -> lookup' k = lookup k) -> lookup' j = Some q' -> alias_target q' = None ->
  resolve_alias_id rl lookup k = Some j -> resolve_alias_id rl lookup' k = Some j.
Proof.
  intros Ho Hj Hq'. unfold resolve_alias_id. destruct (lookup k) as [p|] eqn:Hk; [|done]. cbn [mbind option_bind]. intros Hr.
  destruct (resolve_loop_stable _ _ _ _ _ _ _ _ Ho Hj Hq' Hk Hr) as (p' & -> & Hr'). exact Hr'.
Qed.

(** ** Records of tagged data *)

Lemma find_replace_tl t x tl :
  ty x <> t -> List.find (fun y => ty y =? t) (replace_tl x tl) = List.find (fun y => ty y =? t) tl.
Proof.
  intros Hx. induction tl as [|y tl IH]; [done|]. cbn. destruct (Z.eqb_spec (ty y) (ty x)) as [E|E]; cbn.
  - by rewrite (proj2 (Z.eqb_neq (ty y) t)) by congruence.
  - by rewrite IH.
Qed.

Lemma find_update_tl t x tl :
  ty x <> t -> List.find (fun y => ty y =? t) (update_tl_data x tl) = List.find (fun y => ty y =? t) tl.
Proof.
  intros Hx. unfold update_tl_data. destruct (_ && _); [by apply find_replace_tl|]. cbn.
  by rewrite (proj2 (Z.eqb_neq (ty x) t)).
Qed.

Lemma find_update_same x tl :
  (ty x =? TL_DB_ARGS) = false ->
  List.find (fun y => ty y =? ty x) (update_tl_data x tl) = Some x.
Proof.
  intros Hx. unfold update_tl_data. rewrite Hx. cbn [negb andb].
  destruct (existsb _ tl) eqn:E; [|cbn; by rewrite Z.eqb_refl].
  induction tl as [|y tl IH]; [done|]. cbn in *. destruct (Z.eqb_spec (ty y) (ty x)) as [Ey|Ey]; cbn.
  - rewrite Ey, Z.eqb_refl. by destruct x.
  - rewrite (proj2 (Z.eqb_neq _ _) Ey). by apply IH.
Qed.

Lemma find_retain_tl t f tl :
  f t = true -> List.find (fun y => ty y =? t) (retain_tl f tl) = List.find (fun y => ty y =? t) tl.
Proof.
  intros Hf. unfold retain_tl. induction tl as [|y tl IH]; [done|]. cbn.
  destruct (Z.eqb_spec (ty y) t) as [E|E].
  - rewrite E, Hf. cbn. by rewrite E, Z.eqb_refl.
  - destruct (f (ty y)); [cbn; by rewrite (proj2 (Z.eqb_neq _ _) E)|done].
Qed.

Lemma find_app_other t l x :
  ty x <> t -> List.find (fun y => ty y =? t) (l ++ [x]) = List.find (fun y => ty y =? t) l.
Proof.
  intros Hx. induction l as [|y l IH]; cbn; [by rewrite (proj2 (Z.eqb_neq _ _) Hx)|]. by rewrite IH.
Qed.

Lemma alias_target_tl p q :
  List.find (fun y => ty y =? TL_ALIAS_TARGET) (tl_data q) = List.find (fun y => ty y =? TL_ALIAS_TARGET) (tl_data p) ->
  alias_target q = alias_target p.
Proof. unfold alias_target. by intros ->. Qed.

Lemma alias_target_stamp now b actor p : alias_target (stamp_admin_tl now b actor p) = alias_target p.
Proof.
  apply alias_target_tl. unfold stamp_admin_tl. cbn [tl_data set_tl_data].
  rewrite find_update_tl by done. destruct b; [by rewrite find_update_tl|done].
Qed.

Lemma alias_target_refresh p : alias_target (refresh_kadm_tl p) = alias_target p.
Proof.
  apply alias_target_tl. unfold refresh_kadm_tl. cbn [tl_data set_tl_data].
  rewrite find_app_other by done. by rewrite find_retain_tl.
Qed.

Lemma last_pwd_stamp now actor p :
  0 <= now < 2 ^ 32 -> last_pwd_unix (stamp_admin_tl now true actor p) = now.
Proof.
  intros Hn. unfold last_pwd_unix, stamp_admin_tl. cbn [tl_data set_tl_data]. rewrite find_update_tl by done.
  change TL_LAST_PWD_CHANGE with (ty (mkTl TL_LAST_PWD_CHANGE (to_le_bytes 4 now))) at 1.
  rewrite find_update_same by done. cbn [contents]. rewrite length_to_le_bytes. cbn [Nat.ltb Nat.leb].
  rewrite take_ge by (by rewrite length_to_le_bytes). by apply from_to_le_bytes.
Qed.

(** ** Keys that are kept *)

Lemma dedup_last l : list.last (History.dedup l) = list.last l.
Proof.
  induction l as [|x l IH]; [done|]. cbn [History.dedup]. destruct (History.dedup l) as [|y l'] eqn:E.
  - destruct l as [|z l]; [done|]. exfalso. cbn [History.dedup] in E. by repeat case_match.
  - destruct l as [|z l]; [done|]. change (list.last (x :: z :: l)) with (list.last (z :: l)). rewrite <- IH.
    destruct (Z.eqb_spec x y); [by subst|done].
Qed.

Lemma newest_max n l v : (0 < n)%nat -> v ∈ l -> (forall x, x ∈ l -> x <= v) -> v ∈ History.newest n l.
Proof.
  intros Hn Hv Hmax. unfold History.newest. set (ls := merge_sort Z.le l).
  assert (StronglySorted Z.le ls) as Hs by (apply StronglySorted_merge_sort; apply _).
  assert (ls ≡ₚ l) as Hp by apply merge_sort_Permutation. clearbody ls.
  destruct (list.last ls) as [x|] eqn:El.
  - assert (x = v) as ->.
    { assert (x ∈ ls) as Hx by (by eapply list.last_Some_elem_of). pose proof (Hmax x ltac:(by rewrite <- Hp)).
      apply list.last_Some in El as [ls' ->]. rewrite <- Hp in Hv. apply elem_of_app in Hv as [Hv|Hv].
      - eapply StronglySorted_app_1_elem_of in Hs; [|exact Hv|by apply list_elem_of_singleton]. lia.
      - by apply list_elem_of_singleton in Hv. }
    rewrite <- dedup_last in El. apply list.last_Some in El as [d ->]. rewrite rev_app_distr. cbn.
    destruct n; [lia|]. by left.
  - apply list.last_None in El as ->. rewrite <- Hp in Hv. by apply not_elem_of_nil in Hv.
Qed.

Lemma keep_old_head k new old keepold v :
  Forall (fun k => kvno k = v) (k :: new) -> (forall x, x ∈ old -> kvno x < v) ->
  exists rest, keep_old (k :: new) old keepold = k :: rest.
Proof.
  intros Hv Hold. unfold keep_old. destruct (0 <? keepold); [|by eexists]. destruct (1 <? keepold) eqn:Ek; [|by eexists].
  to_prop. unfold cap_key_versions, History.keep_newest. cbn [app]. rewrite list.filter_cons_True; [by eexists|].
  apply newest_max; [lia|by left|]. intros x Hx. apply list_elem_of_fmap in Hx as (y & -> & Hy).
  apply list.Forall_cons in Hv as [<- Hv]. apply elem_of_cons in Hy as [->|Hy]; [lia|].
  apply elem_of_app in Hy as [Hy|Hy]; [|specialize (Hold _ Hy); lia].
  eapply list.Forall_forall in Hv; [|exact Hy]. cbn in Hv. lia.
Qed.

Lemma next_kvno_above ks x :
  (forall k, k ∈ ks -> kvno k < 65535) -> x ∈ ks -> kvno x < next_kvno ks.
Proof.
  intros Hlt Hx. unfold next_kvno. destruct (Keys.top_kvno ks) as [t|] eqn:Et.
  - apply list_elem_of_In in Hx. pose proof (Keys.top_kvno_max _ _ _ Et Hx).
    destruct (Keys.top_kvno_in _ _ Et) as (y & Hy%list_elem_of_In & Hyt). specialize (Hlt y Hy). destruct (Z.leb_spec 65535 t); lia.
  - destruct ks; [by apply not_elem_of_nil in Hx|done].
Qed.

Section Password.
Context {Prim : Primitives} `{StoreEnv}.

(** ** Keys from a password *)

Definition derived (pw : bytes) (n : PrincipalName.PrincipalName) (r : bytes) (v : Z) (k : KeyEntry) : Prop :=
  kvno k = v /\ Ops.string_to_key_inner (ke_etype k) pw (key_salt k n r) None = Ok (key k).

Lemma set_draws_id s : set_draws (s_draws s) s = s.
Proof. by destruct s. Qed.

Lemma salt_for_draws t n r s : fst (salt_for t n r s) = set_draws (s_draws (fst (salt_for t n r s))) s.
Proof.
  unfold salt_for. assert (forall o : result KdcError bytes, fst (s, o) = set_draws (s_draws (fst (s, o))) s) as Hs.
  { intros o. cbn [fst]. by rewrite set_draws_id. }
  repeat (case_match; try apply Hs). unfold random_salt, bind, draw, lift, ret. by destruct (random_8 _).
Qed.

Lemma salt_for_is t n r s slt :
  snd (salt_for t n r s) = Ok slt ->
  forall e k v, key_salt (if 0 <? t then mkEntry e k v (Some t) (Some slt) else new_entry e k v) n r = slt.
Proof.
  unfold salt_for. intros E e k v.
  repeat (match type of E with snd (match ?x with _ => _ end _) = _ => destruct x end; try discriminate E;
          try (by injection E as <-); try done).
Qed.

Lemma keys_loop_spec kss pw n r v ks s :
  let '(s', out) := keys_from_password_loop kss pw n r v ks s in
  s' = set_draws (s_draws s') s /\
  (forall l, out = Ok l -> exists new, l = ks ++ new /\ Forall (derived pw n r v) new /\ (kss <> [] -> l <> [])).
Proof.
  revert ks s. induction kss as [|x kss IH]; intros ks s; cbn [keys_from_password_loop].
  { unfold ret. split; [by rewrite set_draws_id|]. intros l [= <-]. exists []. by rewrite app_nil_r. }
  destruct (has_etype (EncList.ks_etype x) ks) eqn:He.
  { specialize (IH ks s). destruct (keys_from_password_loop _ _ _ _ _ _ _) as [s' out].
    destruct IH as [IH1 IH2]. split; [done|]. intros l Hl. destruct (IH2 l Hl) as (new & -> & Hnew & _).
    exists new. split_and!; [done..|]. intros _. by destruct ks. }
  unfold bind at 1. pose proof (salt_for_draws (EncList.ks_salt x) n r s) as Hd.
  pose proof (salt_for_is (EncList.ks_salt x) n r s) as Hi.
  destruct (salt_for _ n r s) as [s1 [slt|e]]; cbn [fst snd] in *; [|by split].
  unfold bind, lift. destruct (Ops.string_to_key_inner _ pw slt None) as [k|e] eqn:Ek; cbn [crypto]; [|by split].
  set (k' := if 0 <? _ then _ else _). specialize (IH (ks ++ [k']) s1).
  destruct (keys_from_password_loop _ _ _ _ _ _ _) as [s' out]. destruct IH as [IH1 IH2].
  split; [rewrite IH1, Hd; by destruct s|]. intros l Hl. destruct (IH2 l Hl) as (new & -> & Hnew & _).
  exists (k' :: new). rewrite <- app_assoc. split_and!; [done| |by destruct ks].
  constructor; [|done]. specialize (Hi slt eq_refl (EncList.ks_etype x) k v). fold k' in Hi.
  split; [unfold k'; by case_match|]. rewrite Hi. unfold k'. by case_match.
Qed.

(** ** Running the change *)

(** [s'] is [s] but for the row [i], which is [p], and for what no check reads. *)
Record at_row (s s' : Store) (i : id) (p : Principal) : Prop := {
  ar_rows : rows (s_map s') = <[i := p]> (rows (s_map s));
  ar_policies : s_policies s' = s_policies s;
  ar_realm : s_realm s' = s_realm s;
  ar_policy : s_policy s' = s_policy s;
  ar_dict : s_dict s' = s_dict s;
  ar_db : s_db s' = s_db s;
  ar_held : s_held s' = s_held s;
}.

Lemma at_row_lookup s s' i p : at_row s s' i p -> rows (s_map s') !! i = Some p.
Proof. intros Ha. rewrite (ar_rows _ _ _ _ Ha). apply lookup_insert_eq. Qed.

Lemma at_row_trans s s1 s2 i p q : at_row s s1 i p -> at_row s1 s2 i q -> at_row s s2 i q.
Proof.
  intros [E1 ? ? ? ? ? ?] [E2 ? ? ? ? ? ?]. split; try congruence. rewrite E2, E1. apply insert_insert_eq.
Qed.

(** A step that leaves the rows. *)
Definition quiet (s s' : Store) : Prop :=
  rows (s_map s') = rows (s_map s) /\ s_policies s' = s_policies s /\ s_realm s' = s_realm s /\
  s_policy s' = s_policy s /\ s_dict s' = s_dict s /\ s_db s' = s_db s /\ s_held s' = s_held s.

Lemma at_row_quiet s s1 s2 i p : at_row s s1 i p -> quiet s1 s2 -> at_row s s2 i p.
Proof. intros [] (? & ? & ? & ? & ? & ? & ?). split; congruence. Qed.

Lemma quiet_at_row s s1 s2 i p : quiet s s1 -> at_row s1 s2 i p -> at_row s s2 i p.
Proof. intros (? & ? & ? & ? & ? & ? & ?) []. split; congruence. Qed.

Lemma update_at i f s p :
  rows (s_map s) !! i = Some p -> exists s', update i f s = (s', Ok tt) /\ at_row s s' i (f p).
Proof.
  intros Hp. unfold update, get_mut. rewrite rows_keep, Hp. eexists. split; [reflexivity|]. split; cbn; done.
Qed.

Lemma update_try_at i f s p :
  rows (s_map s) !! i = Some p -> snd (f p) = Ok tt ->
  exists s', update_try i f s = (s', Ok tt) /\ at_row s s' i (fst (f p)).
Proof.
  intros Hp Hf. unfold update_try, get_mut, PMap.get. rewrite rows_keep, Hp, Hf.
  eexists. split; [reflexivity|]. split; cbn; done.
Qed.

Lemma resolve_at s s' i p k :
  at_row s s' i p -> alias_target p = None -> resolve_id s k = Some i -> resolve_id s' k = Some i.
Proof.
  intros Ha Hp. unfold resolve_id. rewrite (ar_realm _ _ _ _ Ha).
  apply (resolve_alias_id_stable _ _ _ _ _ p); [|by apply (at_row_lookup s)|done].
  intros j Hj. unfold PMap.get. rewrite (ar_rows _ _ _ _ Ha). by apply lookup_insert_ne.
Qed.

Lemma canonical_id_ok n r s i : resolve_id s (lookup_principal_id n r) = Some i -> canonical_id n r s = (s, Ok i).
Proof. unfold canonical_id, bind, reading, ok_or_not_found, lift. by intros ->. Qed.

Lemma raw_ok i s p : rows (s_map s) !! i = Some p -> raw i s = (s, Ok p).
Proof. unfold raw, bind, reading, ok_or_not_found, lift, PMap.get. by intros ->. Qed.

Lemma inside_change_ok s : s_held s = true -> inside_change s = (s, Ok tt).
Proof. unfold inside_change. intros ->. by rewrite andb_false_r. Qed.

Lemma apply_pw_max_life_ok n r s i p :
  resolve_id s (lookup_principal_id n r) = Some i -> rows (s_map s) !! i = Some p ->
  let life := match named_policy_for s p with Some pol => pw_max_life pol | None => 0 end in
  exists s', apply_pw_max_life_in n r s = (s', Ok tt) /\
    at_row s s' i (set_pw_expire (if life =? 0 then 0 else sat_add (last_pwd_unix p) life) p).
Proof.
  intros Hi Hp life. unfold apply_pw_max_life_in.
  rewrite (bind_ok _ _ _ _ _ (canonical_id_ok _ _ _ _ Hi)), (bind_ok _ _ _ _ _ (raw_ok _ _ _ Hp)).
  unfold bind, reading. fold life.
  exact (update_at i (fun p => set_pw_expire (if life =? 0 then 0 else sat_add (last_pwd_unix p) life) p) s p Hp).
Qed.

Lemma note_and_save_ok i s :
  s_db s = true -> s_held s = true -> exists s', note_and_save i s = (s', Ok tt) /\ quiet s s'.
Proof.
  intros Hd Hh. unfold note_and_save, snap, bind, reading, note_ulog, assign, save_if_configured, inside_change.
  cbv zeta. destruct (s_log s) as [role|]; cbn [s_db s_held set_changed]; cbn; rewrite Hd; cbn; rewrite ?Hd, Hh; cbn;
    (eexists; split; [reflexivity|]); unfold quiet; cbn; auto 10.
Qed.

Lemma zero_in_file_quiet i s : exists s', zero_in_file i s = (s', Ok tt) /\ quiet s s'.
Proof.
  unfold zero_in_file, assign. eexists. split; [reflexivity|]. case_match; unfold quiet; cbn; auto 10.
Qed.

Lemma postcommit_quiet c s : exists s', postcommit c s = (s', Ok tt) /\ quiet s s'.
Proof.
  unfold postcommit, assign. eexists. split; [reflexivity|]. case_match; unfold quiet; cbn; auto 10.
Qed.

(** ** The effect *)

(** [p'] is [p] with the password set. *)
Record password_set (pw : bytes) (ks : list KeyEntry) (keepold life : Z) (p p' : Principal) : Prop := {
  ps_keys : keys p' = keep_old ks (keys p) keepold;
  ps_derived : Forall (derived pw (name p) (realm p) (next_kvno (keys p))) ks;
  ps_salt : salt p' = salt_of_keys (keys p') (name p) (realm p);
  ps_name : name p' = name p /\ realm p' = realm p /\ rid p' = rid p;
  ps_policy : pw_policy p' = pw_policy p;
  ps_change : Z.land (attributes p') KDB_REQUIRES_PWCHANGE = 0;
  ps_fail : fail_auth_count p' = 0;
  ps_last : last_pwd_unix p' = unix_now;
  ps_expire : pw_expire p' = if life =? 0 then 0 else sat_add unix_now life;
  ps_alias : alias_target p' = alias_target p;
}.

Lemma record_history_kept rnd p old n v hk :
  let q := fst (History.record_history rnd p old n v hk) in
  keys q = keys p /\ pw_policy q = pw_policy p /\ tl_data q = tl_data p /\ attributes q = attributes p.
Proof.
  cbv zeta. unfold History.record_history. set (p1 := History.for_history_kvno v p).
  assert (keys p1 = keys p /\ pw_policy p1 = pw_policy p /\ tl_data p1 = tl_data p /\ attributes p1 = attributes p) as Hp1
    by (unfold p1, History.for_history_kvno; by case_match).
  clearbody p1. case_match; [done|]. case_match; [done|]. by case_match.
Qed.

Lemma with_new_password_set rnd ks pol v hk keepold actor p :
  snd (History.record_history rnd (set_keys ks p) (keys p) (history pol) v hk) = Ok tt ->
  exists q, with_new_password rnd ks (Some (history pol, (v, hk))) keepold actor p = (q, Ok tt) /\
    keys q = keep_old ks (keys p) keepold /\ (name q = name p /\ realm q = realm p /\ rid q = rid p) /\
    pw_policy q = pw_policy p /\ Z.land (attributes q) KDB_REQUIRES_PWCHANGE = 0 /\ fail_auth_count q = 0 /\
    (0 <= unix_now < 2 ^ 32 -> last_pwd_unix q = unix_now) /\ alias_target q = alias_target p.
Proof.
  intros Hr. unfold with_new_password. cbv zeta.
  pose proof (StoreInv.same_row_record_history rnd (set_keys ks p) (keys p) (history pol) v hk) as Hs.
  pose proof (record_history_kept rnd (set_keys ks p) (keys p) (history pol) v hk) as Hk. cbv zeta in Hs, Hk.
  destruct (History.record_history _ _ _ _ _ _) as [q [[]|e]]; [|done]. cbn [fst snd] in *.
  destruct Hs as (Hn & Hrl & Hrid). destruct Hk as (Hks & Hpol & Htl & Hat).
  eexists. split; [reflexivity|]. split_and!; try done.
  - cbn. by rewrite Hks.
  - cbn. rewrite <- Z.land_assoc. change (Z.land (Acl.not32 KDB_REQUIRES_PWCHANGE) KDB_REQUIRES_PWCHANGE) with 0.
    apply Z.land_0_r.
  - intros Hnow. by rewrite last_pwd_stamp.
  - rewrite alias_target_stamp. apply alias_target_tl. cbn [tl_data set_fail_auth_count set_attributes set_keys].
    unfold refresh_kadm_tl. cbn [tl_data set_tl_data set_kadm]. rewrite find_app_other by done.
    rewrite find_retain_tl by done. by rewrite Htl.
Qed.

(** Nothing stands in the way of the change. *)
Record ready (n : PrincipalName.PrincipalName) (r pw : bytes) (keepold : Z) (etypes kss : list EncList.KeySalt)
    (s sd : Store) (i : id) (p : Principal) (pol : NamedPolicy) (h : Z * Key.ProtocolKey) (ks : list KeyEntry)
    : Prop := {
  re_db : s_db s = true;
  re_held : s_held s = true;
  re_other : is_history s n r = false;
  re_id : resolve_id s (lookup_principal_id n r) = Some i;
  re_row : rows (s_map s) !! i = Some p;
  re_pol : named_policy_for s p = Some pol;
  re_hist : history_key s = Some h;
  re_kss : apply_keysalt_policy (allowed_keysalts pol) etypes (password_keysalts (s_policy s)) = Ok kss;
  re_quality : check_password_quality_in s n r (c_password pw) = Ok tt;
  re_keys : keys_from_password kss (c_password pw) (name p) (realm p) (next_kvno (keys p)) s = (sd, Ok ks);
  re_hooks :
    walk Precommit (PChpass n r keepold (Some (c_password pw)) (map EncList.ks_etype kss)) (selected_hooks s) = Ok tt;
  re_record :
    snd (History.record_history (wrap_draw (s_draws sd)) (set_keys ks p) (keys p) (history pol) (fst h) (snd h)) = Ok tt;
  re_now : 0 <= unix_now < 2 ^ 32;
}.

Lemma hook_ok st c s :
  walk st c (selected_hooks s) = Ok tt -> hook st c s = (set_calls (s_calls s ++ [(st, c)]) s, Ok tt).
Proof. unfold hook. by intros ->. Qed.

Lemma quiet_trans s s1 s2 : quiet s s1 -> quiet s1 s2 -> quiet s s2.
Proof. intros (? & ? & ? & ? & ? & ? & ?) (? & ? & ? & ? & ? & ? & ?). unfold quiet. split_and!; congruence. Qed.

Lemma quiet_calls c s : quiet s (set_calls c s).
Proof. unfold quiet. cbn. auto 10. Qed.

Lemma quiet_draws n s : quiet s (set_draws n s).
Proof. unfold quiet. cbn. auto 10. Qed.

(** The keys and the salt are replaced. *)
Lemma keys_replaced s s0 i p ks pol v hk keepold actor :
  quiet s s0 -> rows (s_map s) !! i = Some p ->
  snd (History.record_history (wrap_draw (s_draws s0)) (set_keys ks p) (keys p) (history pol) v hk) = Ok tt ->
  exists s1 s2 q, replace_password_keys i ks (Some (history pol, (v, hk))) keepold actor s0 = (s1, Ok tt) /\
    update i (fun p => set_salt (salt_of_keys (keys p) (name p) (realm p)) p) s1 = (s2, Ok tt) /\
    at_row s s2 i q /\ keys q = keep_old ks (keys p) keepold /\
    (name q = name p /\ realm q = realm p /\ rid q = rid p) /\ salt q = salt_of_keys (keys q) (name p) (realm p) /\
    pw_policy q = pw_policy p /\ Z.land (attributes q) KDB_REQUIRES_PWCHANGE = 0 /\ fail_auth_count q = 0 /\
    (0 <= unix_now < 2 ^ 32 -> last_pwd_unix q = unix_now) /\ alias_target q = alias_target p.
Proof.
  intros Hq Hrow Hrec. assert (quiet s (set_draws (S (s_draws s0)) s0)) as Q1
    by (eapply quiet_trans; [exact Hq|apply quiet_draws]).
  destruct (with_new_password_set (wrap_draw (s_draws s0)) ks pol v hk keepold actor p Hrec)
    as (q & Eq & Hkeys & Hname & Hpp & Hat & Hf & Hl & Ha).
  destruct (update_try_at i (with_new_password (wrap_draw (s_draws s0)) ks (Some (history pol, (v, hk))) keepold actor)
    (set_draws (S (s_draws s0)) s0) p) as (s2 & E2 & A2); [by rewrite (proj1 Q1)|by rewrite Eq|].
  rewrite Eq in A2. cbn [fst] in A2. apply (quiet_at_row _ _ _ _ _ Q1) in A2.
  destruct (update_at i (fun p => set_salt (salt_of_keys (keys p) (name p) (realm p)) p) s2 q) as (s3 & E3 & A3);
    [by apply (at_row_lookup s)|]. apply (at_row_trans _ _ _ _ _ _ A2) in A3.
  exists s2, s3, (set_salt (salt_of_keys (keys q) (name q) (realm q)) q).
  destruct Hname as (Hn & Hr & Hrid). split_and!; try done. cbn. by rewrite Hn, Hr.
Qed.

Lemma resolved_no_alias s k i p :
  resolve_id s k = Some i -> rows (s_map s) !! i = Some p -> alias_target p = None.
Proof.
  intros Hid Hp. unfold resolve_id, resolve_alias_id in Hid. destruct (PMap.get _ _) as [p0|] eqn:E0; [|done].
  cbn [mbind option_bind] in Hid. apply resolve_loop_end in Hid as (p1 & Hp1 & Hp1'); [|done].
  unfold PMap.get in Hp1. congruence.
Qed.

Lemma keys_from_password_ok kss pw n r v s sd ks :
  keys_from_password kss pw n r v s = (sd, Ok ks) ->
  sd = set_draws (s_draws sd) s /\ Forall (derived pw n r v) ks /\ (kss <> [] -> ks <> []).
Proof.
  intros E. pose proof (keys_loop_spec kss pw n r v [] s) as Hk. fold (keys_from_password kss pw n r v) in Hk.
  rewrite E in Hk. destruct Hk as [Hsd Hks]. destruct (Hks ks eq_refl) as (new & Hnew & Hder & Hne).
  cbn [app] in Hnew. by subst new.
Qed.

Lemma ensure_history_there actor s h : history_key s = Some h -> ensure_history_principal actor s = (s, Ok h).
Proof. unfold ensure_history_principal, bind at 1, reading at 1. by intros ->. Qed.

(** From the plan on. *)
Lemma commit_password_ok n r pw keepold actor etypes kss s sd i p pol h ks rec :
  ready n r pw keepold etypes kss s sd i p pol h ks ->
  exists s' p',
    commit_password (mkPlan (mkChpass n r i (Some pol) kss) rec (next_kvno (keys p)) (c_password pw)) ks keepold actor sd
      = (s', Ok tt) /\
    at_row s s' i p' /\ password_set (c_password pw) ks keepold (pw_max_life pol) p p'.
Proof.
  intros [Hdb Hheld _ Hid Hrow Hpol Hhist _ _ Hkeys Hhooks Hrec Hnow].
  apply keys_from_password_ok in Hkeys as (Hsd & Hder & _).
  unfold commit_password. cbn [pl_inputs ch_policy ch_name ch_realm ch_id ch_keysalts pl_password].
  assert (ensure_history_principal actor sd = (sd, Ok h)) as Hens
    by (apply ensure_history_there; by rewrite Hsd).
  rewrite (bind_ok _ _ _ sd (Some (history pol, h))) by (unfold bind; by rewrite Hens).
  cbv zeta. rewrite (bind_ok _ _ _ _ _ (hook_ok Precommit (PChpass n r keepold (Some (c_password pw))
    (map EncList.ks_etype kss)) sd ltac:(by rewrite Hsd))).
  set (s1 := set_calls _ sd). destruct h as [v hk].
  destruct (keys_replaced s s1 i p ks pol v hk keepold actor)
    as (s2 & s3 & q3 & E2 & E3 & A3 & Hk & (Hn & Hrl & Hrid) & Hslt & Hpp & Hat & Hf & Hl & Ha); [|done|done|].
  { apply (quiet_trans s sd); [rewrite Hsd; apply quiet_draws|apply quiet_calls]. }
  rewrite (bind_ok _ _ _ _ _ E2), (bind_ok _ _ _ _ _ E3).
  assert (named_policy_for s3 q3 = Some pol) as Hpol3
    by (unfold named_policy_for in *; by rewrite (ar_policies _ _ _ _ A3), Hpp).
  destruct (apply_pw_max_life_ok n r s3 i q3) as (s4 & E4 & A4); [|by apply (at_row_lookup s)|].
  { apply (resolve_at s s3 i q3); [done| |done]. rewrite Ha. by eapply resolved_no_alias. }
  rewrite Hpol3 in A4. rewrite (bind_ok _ _ _ _ _ E4). apply (at_row_trans _ _ _ _ _ _ A3) in A4.
  destruct (zero_in_file_quiet i s4) as (s5 & E5 & Q5). rewrite (bind_ok _ _ _ _ _ E5).
  apply (fun A => at_row_quiet _ _ _ _ _ A Q5) in A4.
  destruct (note_and_save_ok i s5) as (s6 & E6 & Q6);
    [by rewrite (ar_db _ _ _ _ A4)|by rewrite (ar_held _ _ _ _ A4)|]. rewrite (bind_ok _ _ _ _ _ E6).
  apply (fun A => at_row_quiet _ _ _ _ _ A Q6) in A4.
  destruct (postcommit_quiet (PChpass n r keepold (Some (c_password pw)) (map EncList.ks_etype kss)) s6)
    as (s7 & E7 & Q7). apply (fun A => at_row_quiet _ _ _ _ _ A Q7) in A4.
  eexists s7, _. split; [exact E7|]. split; [exact A4|]. split; cbn; try done; [by apply Hl|].
  by rewrite (Hl Hnow).
Qed.

Lemma cstr_idem b : Pwqual.cstr_bytes (Pwqual.cstr_bytes b) = Pwqual.cstr_bytes b.
Proof.
  induction b as [|x b IH]; [done|]. cbn. destruct (bool_decide (x = x00)) eqn:E; [done|]. cbn. by rewrite E, IH.
Qed.

(** What a plan that was made says of its store. *)
Record planned (n : PrincipalName.PrincipalName) (r pw : bytes) (etypes : list EncList.KeySalt) (s : Store)
    (pl : PasswordPlan) : Prop := {
  pn_name : ch_name (pl_inputs pl) = n;
  pn_realm : ch_realm (pl_inputs pl) = r;
  pn_other : is_history s n r = false;
  pn_id : resolve_id s (lookup_principal_id n r) = Some (ch_id (pl_inputs pl));
  pn_row : rows (s_map s) !! ch_id (pl_inputs pl) = Some (pl_record pl);
  pn_pol : named_policy_for s (pl_record pl) = ch_policy (pl_inputs pl);
  pn_kss : apply_keysalt_policy (pol ← ch_policy (pl_inputs pl); allowed_keysalts pol) etypes
             (password_keysalts (s_policy s)) = Ok (ch_keysalts (pl_inputs pl));
  pn_quality : check_password_quality_in s n r (c_password pw) = Ok tt;
  pn_kvno : pl_kvno pl = next_kvno (keys (pl_record pl));
  pn_password : pl_password pl = c_password pw;
}.

(** A direct change, up to its keys, is the plan. *)
Lemma direct_planned n r pw keepold actor etypes s pl :
  planned n r pw etypes s pl -> (ch_policy (pl_inputs pl) = None \/ is_Some (history_key s)) -> s_held s = true ->
  set_password_etypes_keepold_n_in n r pw keepold actor etypes s =
  (let! ks := derive pl in commit_password pl ks keepold actor) s.
Proof.
  destruct pl as [[n' r' i pol kss] p v pw']. intros [Hn Hrl Ho Hi Hrow Hpol Hkss Hq Hv Hpw] Hh Hheld.
  cbn [pl_inputs ch_name ch_realm ch_id ch_policy ch_keysalts pl_record pl_kvno pl_password] in *.
  subst n' r' v pw'.
  unfold set_password_etypes_keepold_n_in. rewrite (bind_ok _ _ _ _ _ (inside_change_ok s Hheld)).
  assert (chpass_inputs n r etypes s = (s, Ok (mkChpass n r i pol kss))) as Hin.
  { unfold chpass_inputs. unfold bind at 1, reading at 1. rewrite Ho.
    rewrite (bind_ok _ _ _ _ _ (canonical_id_ok _ _ _ _ Hi)), (bind_ok _ _ _ _ _ (raw_ok _ _ _ Hrow)).
    unfold bind, reading, lift, ret. rewrite Hpol. by rewrite Hkss. }
  rewrite (bind_ok _ _ _ _ _ Hin). cbn [ch_policy].
  rewrite (bind_ok _ _ _ s tt).
  2: { destruct pol; [|done]. destruct Hh as [|[h Hh]]; [done|]. unfold bind. by rewrite (ensure_history_there _ _ h). }
  rewrite (bind_ok (chpass_plan _ _) _ _ s (mkPlan (mkChpass n r i pol kss) p (next_kvno (keys p)) (c_password pw))); [done|].
  unfold chpass_plan. cbn [ch_name ch_realm ch_id]. unfold bind at 1, reading at 1. rewrite Hq.
  unfold bind at 1, lift at 1. by rewrite (bind_ok _ _ _ _ _ (raw_ok _ _ _ Hrow)).
Qed.

Lemma set_password_ok n r pw keepold actor etypes kss s sd i p pol h ks :
  ready n r pw keepold etypes kss s sd i p pol h ks ->
  exists s' p', set_password_etypes_keepold_n_in n r pw keepold actor etypes s = (s', Ok tt) /\
    at_row s s' i p' /\ password_set (c_password pw) ks keepold (pw_max_life pol) p p'.
Proof.
  intros Hr. destruct (commit_password_ok n r pw keepold actor etypes kss s sd i p pol h ks p Hr) as (s' & p' & E & Hs).
  exists s', p'. split; [|done]. destruct Hr as [Hdb Hheld Hoth Hid Hrow Hpol Hhist Hkss Hqual Hkeys _ _ _].
  rewrite (direct_planned _ _ _ _ _ _ _
    (mkPlan (mkChpass n r i (Some pol) kss) p (next_kvno (keys p)) (c_password pw))); [|by split|by right|done].
  unfold derive. cbn [pl_inputs ch_keysalts pl_password pl_record pl_kvno].
  rewrite (bind_ok _ _ _ _ _ Hkeys). exact E.
Qed.

(** ** The history *)

Lemma derived_same_key pw n r v k : derived pw n r v k -> same_key pw (key_salt k n r) k = true.
Proof. intros [_ E]. unfold same_key. rewrite E. by apply bool_decide_eq_true_2. Qed.

(** The first key kept is the password's. *)
Lemma reuse_found pw ks keepold life p p' :
  password_set pw ks keepold life p p' -> ks <> [] -> (forall k, k ∈ keys p -> kvno k < 65535) ->
  existsb (same_key pw (salt p')) (keys p') = true.
Proof.
  intros Hs Hne Hlt. destruct ks as [|k ks]; [done|].
  destruct (keep_old_head k ks (keys p) keepold (next_kvno (keys p))) as [rest Hk].
  { eapply List.Forall_impl; [|apply (ps_derived _ _ _ _ _ _ Hs)]. by intros x [? _]. }
  { intros x Hx. by apply next_kvno_above. }
  pose proof (ps_keys _ _ _ _ _ _ Hs) as Hks. rewrite (ps_salt _ _ _ _ _ _ Hs), Hks, Hk. cbn.
  rewrite (derived_same_key _ _ _ (next_kvno (keys p))); [done|].
  by apply (list.Forall_cons_1 _ _ _ (ps_derived _ _ _ _ _ _ Hs)).
Qed.

Lemma quality_same s s' n r bound pw :
  s_dict s' = s_dict s -> s_policy s' = s_policy s -> quality s' n r bound pw = quality s n r bound pw.
Proof. unfold quality. by intros -> ->. Qed.

Lemma checks_passed s n r pw p pol :
  get_in_realm s n r = Some p -> named_policy_for s p = Some pol ->
  check_password_quality_in s n r pw = Ok tt ->
  Pwqual.check_against_policy (c_password pw) pol = Ok tt /\ quality s n r (pw_policy p) (c_password pw) = Ok tt.
Proof.
  intros Hg Hp. unfold check_password_quality_in. rewrite Hg, Hp.
  destruct (Pwqual.check_against_policy _ _) as [[]|]; [|done].
  by destruct (quality _ _ _ _ _) as [[]|].
Qed.

(** C27: When the principal, its policy and the history principal are there, the
    password passes its checks, the hooks agree and the keys can be made, a
    password change succeeds: exactly the principal's row changes; its keys are the
    ones derived from the password under the next version, before the old ones
    that [keepold] keeps; the need to change the password and the count of failed
    attempts are cleared; and it expires as the policy says, counted from now.
    While the policy keeps a history, and the version has not wrapped around, the
    very same password is then refused. *)
Theorem password_changed n r pw keepold actor etypes kss s sd i p pol h ks :
  ready n r pw keepold etypes kss s sd i p pol h ks ->
  exists s' p', set_password_etypes_keepold_n_in n r pw keepold actor etypes s = (s', Ok tt) /\
    rows (s_map s') = <[i := p']> (rows (s_map s)) /\
    password_set (c_password pw) ks keepold (pw_max_life pol) p p' /\
    (kss <> [] -> history pol <> 0 -> (forall k, k ∈ keys p -> kvno k < 65535) ->
     check_password_quality_in s' n r pw = Err (PasswordPolicy "history")).
Proof.
  intros Hr. destruct (set_password_ok n r pw keepold actor etypes kss s sd i p pol h ks Hr) as (s' & p' & E & A & Hs).
  exists s', p'. split; [exact E|]. split; [apply A|]. split; [exact Hs|]. intros Hkss Hh Hlt.
  destruct Hr as [_ _ _ Hid Hrow Hpol _ _ Hqual Hkeys _ _ _].
  apply keys_from_password_ok in Hkeys as (_ & _ & Hne).
  assert (get_in_realm s n r = Some p) as Hg by (unfold get_in_realm, get; rewrite Hid; exact Hrow).
  assert (get_in_realm s' n r = Some p') as Hg'.
  { unfold get_in_realm, get. rewrite (resolve_at s s' i p' _ A); [by apply (at_row_lookup s)| |done].
    rewrite (ps_alias _ _ _ _ _ _ Hs). by eapply resolved_no_alias. }
  destruct (checks_passed s n r _ p pol Hg Hpol Hqual) as [H1 H2]. unfold c_password in H1, H2. rewrite cstr_idem in H1, H2.
  unfold check_password_quality_in. rewrite Hg'. unfold named_policy_for in *.
  rewrite (ar_policies _ _ _ _ A), (ps_policy _ _ _ _ _ _ Hs), Hpol. fold (c_password pw) in *. rewrite H1.
  rewrite (quality_same s) by apply A. rewrite H2. rewrite (proj2 (Z.eqb_neq _ _) Hh).
  rewrite existsb_app. by rewrite (reuse_found _ _ _ _ _ _ Hs (Hne Hkss) Hlt).
Qed.

(** ** Planned outside the lock *)

(** A key is of its entry's type. *)
Definition typed (p : Principal) : Prop :=
  Forall (fun k => Key.etype (key k) = ke_etype k) (keys p ++ key_history p).

Lemma same_keys_eq a b :
  Forall (fun k => Key.etype (key k) = ke_etype k) a -> Forall (fun k => Key.etype (key k) = ke_etype k) b ->
  same_keys a b = true -> a = b.
Proof.
  intros Ha. revert b. induction Ha as [|x a Hx Ha IH]; intros [|y b] Hb; cbn; try done.
  apply list.Forall_cons in Hb as [Hy Hb]. unfold same_entry. intros E. to_prop. rewrite (IH b) by done. f_equal.
  destruct x as [e [e1 k1] v t l], y as [f [f1 k2] w u m]. cbn in *. destruct_and?. to_prop. by subst.
Qed.

Lemma same_record_eq a b : typed a -> typed b -> same_record a b = true -> a = b.
Proof.
  intros [Ha1 Ha2]%list.Forall_app [Hb1 Hb2]%list.Forall_app. unfold same_record. intros E.
  apply andb_true_iff in E as [[E1 E2]%andb_true_iff E3]. apply same_keys_eq in E1, E2; [|done..].
  apply bool_decide_eq_true in E3. destruct a, b. unfold set_keys, set_key_history in E3. cbn in *.
  injection E3. intros. by subst.
Qed.

Lemma keys_loop_no_draw kss pw n r v ks :
  Forall (fun x => EncList.ks_salt x <> 4) kss ->
  exists o, forall s, keys_from_password_loop kss pw n r v ks s = (s, o).
Proof.
  intros Hs. revert ks. induction Hs as [|x kss Hx Hs IH]; intros ks; cbn [keys_from_password_loop]; [by eexists|].
  destruct (has_etype _ _); [apply IH|].
  assert (exists o, forall s, salt_for (EncList.ks_salt x) n r s = (s, o)) as [[slt|e] Ho].
  { unfold salt_for. repeat (case_match; try done); by eexists. }
  - destruct (Ops.string_to_key_inner (EncList.ks_etype x) pw slt None) as [k|e] eqn:Ek.
    + destruct (IH (ks ++ [if 0 <? EncList.ks_salt x
        then mkEntry (EncList.ks_etype x) k v (Some (EncList.ks_salt x)) (Some slt)
        else new_entry (EncList.ks_etype x) k v])) as [o Hi]. exists o. intros s. unfold bind. rewrite Ho. unfold lift. rewrite Ek.
      apply Hi.
    + eexists. intros s. unfold bind. rewrite Ho. unfold lift. by rewrite Ek.
  - eexists. intros s. unfold bind. by rewrite Ho.
Qed.

Lemma plan_password_planned n r pw etypes s s' pl :
  plan_password n r pw etypes s = (s', Ok (Some pl)) -> planned n r pw etypes s pl.
Proof.
  unfold plan_password, chpass_inputs, chpass_plan, canonical_id, raw, ok_or_not_found, bind, reading, lift, ret, PMap.get.
  destruct (is_history s n r) eqn:Eo; [done|]. destruct (resolve_id s _) as [i|] eqn:Ei; [|done].
  destruct (rows (s_map s) !! i) as [p|] eqn:Ep; [|done].
  destruct (apply_keysalt_policy _ _ _) as [kss|] eqn:Ek; [|done]. cbn [ch_policy ch_name ch_realm ch_id].
  intros E. assert (check_password_quality_in s n r (c_password pw) = Ok tt /\
    pl = mkPlan (mkChpass n r i (named_policy_for s p) kss) p (next_kvno (keys p)) (c_password pw)) as [Eq ->].
  { destruct (named_policy_for s p), (history_key s); try discriminate E;
      destruct (check_password_quality_in s n r (c_password pw)) as [[]|]; try discriminate E; rewrite Ep in E;
      by injection E as _ <-. }
  by split.
Qed.

(** The same configuration. *)
Definition same_config (s s2 : Store) : Prop :=
  s_realm s2 = s_realm s /\ s_policy s2 = s_policy s /\ s_dict s2 = s_dict s.

Lemma quality_check_same n r pw s s2 p :
  same_config s s2 -> get_in_realm s n r = Some p -> get_in_realm s2 n r = Some p ->
  named_policy_for s2 p = named_policy_for s p ->
  check_password_quality_in s2 n r pw = check_password_quality_in s n r pw.
Proof.
  intros (_ & Hp & Hd) H1 H2 Hn. unfold check_password_quality_in. rewrite H1, H2, Hn.
  by destruct (named_policy_for s p); rewrite (quality_same s).
Qed.

(** The plan made in [s] holds in [s2] as well. *)
Lemma planned_later n r pw etypes s s2 pl :
  planned n r pw etypes s pl -> same_config s s2 -> typed (pl_record pl) ->
  (forall p, rows (s_map s2) !! ch_id (pl_inputs pl) = Some p -> typed p) ->
  still_same pl s2 = true ->
  planned n r pw etypes s2 pl /\ (ch_policy (pl_inputs pl) = None \/ is_Some (history_key s2)).
Proof.
  intros [Hn Hrl Ho Hi Hrow Hpol Hkss Hq Hv Hpw] Hc Ht1 Ht2. unfold still_same. cbv zeta. rewrite Hn, Hrl.
  intros [[E1 E2]%andb_true_iff E3]%andb_true_iff. apply bool_decide_eq_true in E1. unfold PMap.get in E2.
  destruct (rows (s_map s2) !! _) as [p|] eqn:Ep; [|done]. apply andb_true_iff in E2 as [E2 E4].
  apply same_record_eq in E2; [|by apply Ht2|done]. subst p. apply bool_decide_eq_true in E4.
  destruct Hc as (Hc1 & Hc2 & Hc3). split.
  - split; try done.
    + unfold is_history. by rewrite Hc1.
    + by rewrite Hc2.
    + rewrite <- Hq. apply (quality_check_same _ _ _ _ _ (pl_record pl)); [done| | |congruence].
      * unfold get_in_realm, get. by rewrite Hi.
      * unfold get_in_realm, get. by rewrite E1.
  - destruct (ch_policy _), (history_key s2); [by right|done|by left|by left].
Qed.

(** C28: A password change whose keys were derived outside the lock, from a plan
    made in another state of the store, either does nothing at all, because the
    principal, its policy or the history principal is no longer what the plan was
    made from, or does exactly what the whole change would have done inside the
    lock: no change made in between is lost.  None of the keys asked for has the
    salt type that is drawn at random (4), which gives other keys each time. *)
Theorem staged_is_direct n r pw etypes keepold actor s s1 s2 pl ks sd :
  plan_password n r pw etypes s = (s1, Ok (Some pl)) -> derive pl s = (sd, Ok ks) ->
  Forall (fun x => EncList.ks_salt x <> 4) (ch_keysalts (pl_inputs pl)) ->
  same_config s s2 -> s_held s2 = true -> typed (pl_record pl) ->
  (forall p, rows (s_map s2) !! ch_id (pl_inputs pl) = Some p -> typed p) ->
  match apply_password pl ks keepold actor s2 with
  | (s', Ok true) => set_password_etypes_keepold_n_in n r pw keepold actor etypes s2 = (s', Ok tt)
  | (s', Ok false) => s' = s2 /\ still_same pl s2 = false
  | (s', Err e) => set_password_etypes_keepold_n_in n r pw keepold actor etypes s2 = (s', Err e)
  end.
Proof.
  intros Hpl Hks Hsalts Hc Hheld Ht1 Ht2. apply plan_password_planned in Hpl.
  unfold apply_password. rewrite (bind_ok _ _ _ _ _ (inside_change_ok s2 Hheld)).
  unfold bind at 1, reading at 1. destruct (still_same pl s2) eqn:Es; [|done].
  destruct (planned_later _ _ _ _ _ _ _ Hpl Hc Ht1 Ht2 Es) as [Hpl2 Hh].
  rewrite (direct_planned _ _ _ _ _ _ _ _ Hpl2 Hh Hheld).
  unfold derive, keys_from_password in Hks |- *.
  destruct (keys_loop_no_draw (ch_keysalts (pl_inputs pl)) (pl_password pl) (name (pl_record pl)) (realm (pl_record pl))
    (pl_kvno pl) [] Hsalts) as [o Ho]. rewrite Ho in Hks. injection Hks as _ ->.
  rewrite (bind_ok _ _ _ _ _ (Ho s2)). unfold bind at 1.
  by destruct (commit_password pl ks keepold actor s2) as [s' [[]|e]].
Qed.

(** ** Unlocking *)

Lemma find_renewed t l x :
  ty x = t -> List.find (fun y => ty y =? t) (retain_tl (fun y => negb (y =? t)) l ++ [x]) = Some x.
Proof.
  intros Hx. unfold retain_tl. induction l as [|y l IH]; cbn; [by rewrite Hx, Z.eqb_refl|].
  destruct (Z.eqb_spec (ty y) t); cbn; [done|]. by rewrite (proj2 (Z.eqb_neq (ty y) t)).
Qed.

Lemma zero_in_file_record i s p :
  rows (s_map s) !! i = Some p -> exists s' l, zero_in_file i s = (s', Ok tt) /\ quiet s s' /\
    s_lockout s' !! principal_id p = Some l /\ Lockout.l_count l = 0.
Proof.
  intros Hp. unfold zero_in_file, assign, PMap.get. rewrite Hp. eexists _, _. split; [reflexivity|].
  split; [unfold quiet; cbn; auto 10|]. cbn. by rewrite lookup_insert_eq.
Qed.

Lemma note_and_save_lockout i s : s_lockout (fst (note_and_save i s)) = s_lockout s.
Proof.
  unfold note_and_save, snap, bind, reading, note_ulog, assign, save_if_configured, inside_change, log_pending. cbv zeta.
  destruct (s_log s); cbn; destruct (s_db s); done.
Qed.

(** An administrator can always let a locked principal in again: unlocking
    succeeds, puts its count of failures back to zero in the entry and in the
    lockout file, and from then on no failure from before the unlocking keeps the
    principal out, whatever its policy, the failures recorded and the time of the
    request are. *)
Theorem unlock_opens n r actor s i p :
  s_db s = true -> s_held s = true -> resolve_id s (lookup_principal_id n r) = Some i ->
  rows (s_map s) !! i = Some p -> 0 <= unix_now < 2 ^ 32 ->
  exists s' p' l', admin_unlock_in n r actor s = (s', Ok tt) /\ rows (s_map s') = <[i := p']> (rows (s_map s)) /\
    s_lockout s' !! principal_id p = Some l' /\ Lockout.l_count l' = 0 /\ fail_auth_count p' = 0 /\
    forall (R : PrincipalRead) l stamp, Lockout.l_failed l <= unix_now ->
      Lockout.lockout_check_policy (Lockout.set_on l p') stamp = Ok tt.
Proof.
  intros Hdb Hheld Hid Hrow Hnow. unfold admin_unlock_in. rewrite (bind_ok _ _ _ _ _ (inside_change_ok s Hheld)).
  rewrite (bind_ok _ _ _ _ _ (canonical_id_ok _ _ _ _ Hid)).
  match goal with |- context [update i ?f] => destruct (update_at i f s p Hrow) as (s1 & E1 & A1); set (q := f p) in * end.
  rewrite (bind_ok _ _ _ _ _ E1). destruct (zero_in_file_record i s1 q) as (s2 & l & E2 & Q2 & Hl & Hc);
    [by apply (at_row_lookup s)|]. rewrite (bind_ok _ _ _ _ _ E2). pose proof (at_row_quiet _ _ _ _ _ A1 Q2) as A2.
  destruct (note_and_save_ok i s2) as (s3 & E3 & Q3);
    [by rewrite (ar_db _ _ _ _ A2)|by rewrite (ar_held _ _ _ _ A2)|].
  pose proof (note_and_save_lockout i s2) as Hlk. rewrite E3 in Hlk. cbn [fst] in Hlk.
  exists s3, q, l. split; [exact E3|]. split; [apply (at_row_quiet _ _ _ _ _ A2 Q3)|].
  split; [by rewrite Hlk|]. split; [done|]. split; [done|]. intros R l0 stamp Hle.
  assert (Lockout.last_admin_unlock q = unix_now) as Hu.
  { unfold Lockout.last_admin_unlock, q, stamped, stamp_admin_tl. cbn [tl_data set_tl_data].
    rewrite find_update_tl by done. rewrite find_renewed by done. cbn [contents]. rewrite length_to_le_bytes.
    by apply from_to_le_bytes. }
  unfold Lockout.lockout_check_policy. destruct (disable_lockout policy); [done|].
  destruct (Lockout.lookup_lockout_policy _) as [[mf iv] du]. unfold Lockout.locked_check_p, Lockout.ts_after.
  change (Lockout.last_admin_unlock (Lockout.set_on l0 q)) with (Lockout.last_admin_unlock q). rewrite Hu.
  change (last_failed (Lockout.set_on l0 q)) with (Lockout.l_failed l0). by rewrite (proj2 (Z.ltb_ge _ _) Hle).
Qed.

End Password.

(** ** Samples *)

Import StoreInv.

(** The versions are capped by number: when 65535 is followed by 1, a change that
    keeps two versions drops the keys it has just made. *)
Example keepold_after_wrap :
  let old := [History.sample_key 65535; History.sample_key 65534] in
  let v := next_kvno old in
  v = 1 /\ keep_old [set_kvno v (History.sample_key 7)] old 2 = old.
Proof. vm_compute. split; reflexivity. Qed.

Definition sample_policy : NamedPolicy :=
  mkNamedPolicy (EncList.lit "p") 3 0 2 0 0 0 0 500 None.

(** [ann] has the policy, and the password has been changed once. *)
Definition with_ann : Store :=
  @run_all ToyPrimitives sample_env
    [(RPutPolicy sample_policy, []);
     (RCreate (user "ann") (lit_bytes "R") (CPassword (lit_bytes "first")) []
        (Acl.mkEnt Acl.kadm5_mask.POLICY 0 0 0 0 0 0 (Some (EncList.lit "p"))), []);
     (RPassword (user "ann") (lit_bytes "R") (lit_bytes "second") 0 [], [])] plain_store.

Definition ann_id : id := EncList.lit "ann@R".
Definition ann : Principal := default Lockout.sample_principal (rows (s_map with_ann) !! ann_id).
Definition ann_keysalts : list EncList.KeySalt :=
  [EncList.mkKeySalt Aes256CtsHmacSha196 0; EncList.mkKeySalt Aes128CtsHmacSha196 0].
Definition ann_derive : Store * result KdcError (list KeyEntry) :=
  @keys_from_password ToyPrimitives sample_env ann_keysalts (lit_bytes "third") (name ann) (realm ann)
    (next_kvno (keys ann)) with_ann.
Definition ann_keys : list KeyEntry := match snd ann_derive with Ok ks => ks | Err _ => [] end.
Definition hist_key : Z * Key.ProtocolKey := default (0, Key.mk Rc4Hmac []) (history_key with_ann).

Lemma password_changed_witness :
  exists s', @set_password_etypes_keepold_n_in ToyPrimitives sample_env (user "ann") (lit_bytes "R")
      (lit_bytes "third") 1 [] [] with_ann = (s', Ok tt) /\
    @check_password_quality_in ToyPrimitives sample_env s' (user "ann") (lit_bytes "R") (lit_bytes "third")
      = Err (PasswordPolicy "history").
Proof.
  destruct (@password_changed ToyPrimitives sample_env (user "ann") (lit_bytes "R") (lit_bytes "third") 1 [] []
    ann_keysalts with_ann (fst ann_derive) ann_id ann sample_policy hist_key ann_keys) as (s' & p' & E & _ & _ & Hu).
  - split; try (vm_compute; reflexivity). vm_compute. by split.
  - exists s'. split; [exact E|]. apply Hu; [done|done|]. apply list.Forall_forall, (bool_decide_unpack _). vm_compute. exact I.
Defined.

Definition no_plan : PasswordPlan := mkPlan (mkChpass (user "") [] [] None []) ann 0 [].
Definition ann_plan : PasswordPlan :=
  match snd (@plan_password ToyPrimitives sample_env (user "ann") (lit_bytes "R") (lit_bytes "third") [] with_ann) with
  | Ok (Some pl) => pl
  | _ => no_plan
  end.

Definition ann_applied : Store := fst (@apply_password ToyPrimitives sample_env ann_plan ann_keys 1 [] with_ann).

(** Planned and applied in the same store, and once more after that change. *)
Lemma staged_is_direct_witness :
  @set_password_etypes_keepold_n_in ToyPrimitives sample_env (user "ann") (lit_bytes "R") (lit_bytes "third") 1 [] []
    with_ann = (ann_applied, Ok tt) /\
  snd (@apply_password ToyPrimitives sample_env ann_plan ann_keys 1 [] ann_applied) = Ok false.
Proof.
  split; [|vm_compute; reflexivity].
  assert (@apply_password ToyPrimitives sample_env ann_plan ann_keys 1 [] with_ann = (ann_applied, Ok true)) as E
    by (vm_compute; reflexivity).
  generalize (@staged_is_direct ToyPrimitives sample_env (user "ann") (lit_bytes "R") (lit_bytes "third") [] 1 []
    with_ann with_ann with_ann ann_plan ann_keys (fst ann_derive)). rewrite E. intros Hd. apply Hd.
  - vm_compute. reflexivity.
  - vm_compute. reflexivity.
  - apply (bool_decide_unpack _). vm_compute. exact I.
  - split; [|split]; reflexivity.
  - vm_compute. reflexivity.
  - apply (bool_decide_unpack _). vm_compute. exact I.
  - intros p Hp. vm_compute in Hp. injection Hp as <-. apply (bool_decide_unpack _). vm_compute. exact I.
Defined.

Lemma unlock_opens_witness :
  exists s' p', @admin_unlock_in sample_env (user "ann") (lit_bytes "R") [] with_ann = (s', Ok tt) /\
    rows (s_map s') !! ann_id = Some p' /\
    @Lockout.lockout_check_policy (Lockout.sample_read 0) (Lockout.set_on (Lockout.mkLockout 0 999999 50) p') 1000001
      = Ok tt.
Proof.
  destruct (@unlock_opens sample_env (user "ann") (lit_bytes "R") [] with_ann ann_id ann)
    as (s' & p' & l' & E & Hr & _ & _ & _ & Hu); try (vm_compute; reflexivity).
  - vm_compute. by split.
  - exists s', p'. split; [exact E|]. split; [rewrite Hr; apply lookup_insert_eq|]. apply Hu. vm_compute. done.
Defined.

End StorePw.
