(* ===== verification/StoreAlias.v ===== *)
(** * Aliases

    That an alias made by [create_alias_in] (store/alias.rs) stands for its
    target: what is written in its record is read back as the target's name. *)

From S2P Require Import Prelude StateErr Ascii Utf8 Etype Primitives Cts Derive Weak Ops Name EncList.
From S2P Require Import Kdc Lockout Osa History PMap Pwqual Acl Store StoreOps StoreInv.
From S2P Require Import StorePw.

Module StoreAlias.
Import PMap Store StoreOps StoreInv StorePw.

Lemma scalar_quote c : Utf8.is_scalar c = true -> Forall (fun c => Utf8.is_scalar c = true) (Name.quote_char c).
Proof. intros Hc. unfold Name.quote_char. repeat case_match; by repeat constructor. Qed.

Definition scalar (s : Name.ustr) : Prop := Forall (fun c => Utf8.is_scalar c = true) s.

Lemma scalar_quoted s : scalar s -> scalar (flat_map Name.quote_char s).
Proof. induction 1 as [|c s Hc _ IH]; cbn; [constructor|]. apply list.Forall_app. split; [by apply scalar_quote|done]. Qed.

Lemma scalar_unparsed comps r : Forall scalar comps -> scalar r -> scalar (Name.unparse_name comps r).
Proof.
  intros Hc Hr. unfold Name.unparse_name, Name.unparse_components. apply list.Forall_app. split.
  - assert (Forall scalar (map Name.quote_component comps)) as Hq.
    { apply List.Forall_map. eapply List.Forall_impl; [|exact Hc]. intros c. apply scalar_quoted. }
    induction Hq as [|q qs Hq Hqs IH]; [constructor|]. destruct qs as [|q' qs]; [done|].
    change (Name.join Name.SLASH (q :: q' :: qs)) with (q ++ [Name.SLASH] ++ Name.join Name.SLASH (q' :: qs)).
    apply list.Forall_app. split; [done|]. constructor; [done|]. exact IH.
  - constructor; [done|]. by apply scalar_quoted.
Qed.

(** ** The name in the record *)

Section Target.
Context (t : PrincipalName.PrincipalName) (r : bytes).
Context (Hne : PrincipalName.name_string t <> []).
Context (Htype : PrincipalName.name_type t <> PrincipalName.NT_ENTERPRISE).
Context (Hcomps : Forall Utf8.ascii (PrincipalName.name_string t)) (Hr : Utf8.ascii r).

Definition target_text : Name.ustr :=
  Name.unparse_name (map Utf8.lossy_chars_of (PrincipalName.name_string t)) (realm_chars r).

Lemma comps_chars : map Utf8.lossy_chars_of (PrincipalName.name_string t) = map Utf8.chars (PrincipalName.name_string t).
Proof using Hcomps. clear Hne. induction Hcomps as [|c cs Hc Hcs IH]; cbn; [done|]. f_equal; [by apply Utf8.lossy_ascii|]. apply IH. by inversion Hcomps. Qed.

Lemma target_scalar : scalar target_text.
Proof using Hcomps Hr.
  unfold target_text, realm_chars. rewrite comps_chars, Utf8.lossy_ascii by done. apply scalar_unparsed; [|by apply Utf8.scalar_chars].
  apply List.Forall_map. eapply List.Forall_impl; [|exact Hcomps]. intros c. apply Utf8.scalar_chars.
Qed.

Lemma infer_not_enterprise comps : infer_name_type comps <> PrincipalName.NT_ENTERPRISE.
Proof. unfold infer_name_type. by repeat case_match. Qed.

(** The text in the record names the target. *)
Lemma target_read d :
  exists nm, principal_from_unparsed target_text d = Some (nm, r) /\ lookup_principal_id nm r = lookup_principal_id t r.
Proof using All.
  unfold principal_from_unparsed, Name.parse_name, Name.parse_name_ex, target_text.
  rewrite Name.parse_unparsed by (by destruct (PrincipalName.name_string t)). cbn [default Name.components Name.realm].
  unfold try_new. rewrite comps_chars. set (cs := PrincipalName.name_string t) in *.
  assert (forallb (forallb (fun c => c <? 0x80)) (map Utf8.chars cs) = true) as ->.
  { apply forallb_forall. intros x Hx. apply in_map_iff in Hx as (c & <- & Hc).
    apply forallb_forall. intros z Hz. apply in_map_iff in Hz as (y & <- & Hy).
    eapply List.Forall_forall in Hcomps; [|exact Hc]. eapply List.Forall_forall in Hcomps; [|exact Hy]. by apply Z.ltb_lt. }
  cbn [mbind option_bind]. unfold realm_chars, Datatypes.id. rewrite (Utf8.lossy_ascii r Hr), (Utf8.as_bytes_chars r Hr). eexists.
  split; [reflexivity|]. unfold lookup_principal_id. cbn [PrincipalName.name_type PrincipalName.name_string].
  rewrite (proj2 (Z.eqb_neq _ _) (infer_not_enterprise _)), (proj2 (Z.eqb_neq _ _) Htype).
  assert (map Utf8.as_bytes (map Utf8.chars cs) = cs) as ->; [|done].
  rewrite map_map. transitivity (map Datatypes.id cs); [|apply map_id]. apply map_ext_in. intros c Hc.
  eapply List.Forall_forall in Hcomps; [|exact Hc]. by apply Utf8.as_bytes_chars.
Qed.

End Target.

Section Alias.
Context {Prim : Primitives} `{StoreEnv}.

Lemma alias_row_target a ar t tr actor :
  Forall Utf8.ascii (PrincipalName.name_string t) -> Utf8.ascii tr ->
  alias_target (alias_row a ar t tr actor) = Some (target_text t tr).
Proof.
  intros Hc Hr. unfold alias_target. cbn [tl_data alias_row set_tl_data].
  assert (forall l x, List.find (fun y => ty y =? TL_ALIAS_TARGET) l = None -> ty x = TL_ALIAS_TARGET ->
    List.find (fun y => ty y =? TL_ALIAS_TARGET) (l ++ [x]) = Some x) as Hl.
  { intros l x. induction l as [|y l IH]; cbn; [by intros _ ->|]. by destruct (ty y =? _). }
  rewrite Hl; [|rewrite find_update_tl by done; by vm_compute|done]. cbn [mbind option_bind contents].
  rewrite rev_app_distr. cbn [rev app]. rewrite bool_decide_eq_true_2, rev_involutive by done.
  by apply Utf8.from_utf8_as_bytes, target_scalar.
Qed.

Lemma create_alias_ok a r t actor s :
  s_db s = true -> s_held s = true -> get s (lookup_principal_id a r) = None ->
  walk Precommit (PAlias a r t r) (selected_hooks s) = Ok tt ->
  exists s', create_alias_in a r t r actor s = (s', Ok tt) /\
    at_row s s' (lookup_principal_id a r) (alias_row a r t r actor).
Proof.
  intros Hdb Hheld Hg Hh. unfold create_alias_in. rewrite (bind_ok _ _ _ _ _ (inside_change_ok s Hheld)).
  rewrite bool_decide_eq_true_2 by done. cbn [negb]. unfold bind at 1, reading at 1. rewrite Hg.
  rewrite (bind_ok _ _ _ _ _ (hook_ok _ _ _ Hh)). cbv zeta.
  set (s1 := set_calls _ s). set (i := lookup_principal_id a r). set (p := alias_row a r t r actor).
  assert (exists s2, note_ulog i false (Some p) s1 = (s2, Ok tt) /\ quiet s s2) as (s2 & E2 & Q2).
  { unfold note_ulog, assign. eexists. split; [reflexivity|]. case_match; unfold quiet; cbn; auto 10. }
  rewrite (bind_ok _ _ _ _ _ E2). unfold bind at 1, assign at 1.
  set (s3 := set_map _ s2). assert (at_row s s3 i p) as A3.
  { apply (quiet_at_row s s2); [done|]. split; try done. cbn. unfold PMap.insert. by rewrite rows_insert_row, rows_keep. }
  unfold bind at 1, save_if_configured, inside_change. cbn [s_db s_held set_changed].
  rewrite (ar_db _ _ _ _ A3), (ar_held _ _ _ _ A3), Hdb, Hheld. cbn [negb andb].
  destruct (postcommit_quiet (PAlias a r t r) (set_changed true s3)) as (s4 & E4 & Q4). exists s4.
  split; [exact E4|]. apply (at_row_quiet _ _ _ _ _ A3). by apply (quiet_trans _ (set_changed true s3)).
Qed.

(** An alias stands for its target.  Where the alias's name is free and the
    hooks agree, making it succeeds; looking the alias up then gives the target's
    own entry, as looking up the target does; and no other row has changed.  Names
    are ASCII, as they are in a ticket, and may hold any separator; the target is
    an entry that is no alias itself. *)
Theorem alias_stands_for a r t actor s p :
  s_db s = true -> s_held s = true -> get s (lookup_principal_id a r) = None ->
  walk Precommit (PAlias a r t r) (selected_hooks s) = Ok tt ->
  PrincipalName.name_string t <> [] -> PrincipalName.name_type t <> PrincipalName.NT_ENTERPRISE ->
  Forall Utf8.ascii (PrincipalName.name_string t) -> Utf8.ascii r ->
  rows (s_map s) !! lookup_principal_id t r = Some p -> alias_target p = None ->
  exists s', create_alias_in a r t r actor s = (s', Ok tt) /\
    get_in_realm s' a r = Some p /\ get_in_realm s' t r = Some p /\
    forall j, j <> lookup_principal_id a r -> rows (s_map s') !! j = rows (s_map s) !! j.
Proof.
  intros Hdb Hheld Hg Hh Hne Hty Hc Hr Hp Ha.
  destruct (create_alias_ok a r t actor s Hdb Hheld Hg Hh) as (s' & E & A). exists s'. split; [exact E|].
  assert (lookup_principal_id t r <> lookup_principal_id a r) as Hneq.
  { intros Heq. unfold get, resolve_id, resolve_alias_id, PMap.get in Hg. rewrite <- Heq, Hp in Hg.
    cbn [mbind option_bind] in Hg. unfold MAX_ALIAS_DEPTH in Hg. cbn [resolve_loop] in Hg. rewrite Ha in Hg.
    cbn [mbind option_bind] in Hg. by rewrite Hp in Hg. }
  assert (forall j, j <> lookup_principal_id a r -> rows (s_map s') !! j = rows (s_map s) !! j) as Hoth.
  { intros j Hj. rewrite (ar_rows _ _ _ _ A). by apply lookup_insert_ne. }
  pose proof (at_row_lookup _ _ _ _ A) as Hrow. pose proof (Hoth _ Hneq) as Ht. rewrite Hp in Ht.
  destruct (target_read t r Hne Hty Hc Hr (realm_chars (s_realm s'))) as (nm & Hnm & Hid).
  unfold get_in_realm, get, resolve_id, resolve_alias_id, PMap.get, MAX_ALIAS_DEPTH. rewrite Hrow, Ht.
  cbn [mbind option_bind]. split_and!; [| |exact Hoth].
  - cbn [resolve_loop]. rewrite alias_row_target by done. rewrite Hnm. cbn [mbind option_bind].
    rewrite Hid, Ht. cbn [mbind option_bind]. rewrite Ha. cbn [mbind option_bind]. exact Ht.
  - cbn [resolve_loop]. rewrite Ha. cbn [mbind option_bind]. exact Ht.
Qed.

End Alias.

(** The target's name has a separator in it. *)
Definition odd : PrincipalName.PrincipalName := PrincipalName.mkName PrincipalName.NT_PRINCIPAL [lit_bytes "a/b"; lit_bytes "c@d"].
Definition with_odd : Store :=
  fst (@run ToyPrimitives sample_env (RCreate odd (lit_bytes "R") CRandom [] no_ent) [] plain_store).
Definition odd_row : Principal :=
  default Lockout.sample_principal (rows (s_map with_odd) !! lookup_principal_id odd (lit_bytes "R")).

Lemma alias_stands_for_witness :
  exists s', @create_alias_in sample_env (user "al") (lit_bytes "R") odd (lit_bytes "R") [] with_odd = (s', Ok tt) /\
    get_in_realm s' (user "al") (lit_bytes "R") = Some odd_row.
Proof.
  assert (Forall Utf8.ascii (PrincipalName.name_string odd)) as Hc by (apply (bool_decide_unpack _); vm_compute; exact I).
  assert (Utf8.ascii (lit_bytes "R")) as Hr by (apply (bool_decide_unpack _); vm_compute; exact I).
  edestruct (fun h1 h2 h3 h4 h5 h6 h7 h8 =>
    @alias_stands_for sample_env (user "al") (lit_bytes "R") odd [] with_odd odd_row h1 h2 h3 h4 h5 h6 Hc Hr h7 h8)
    as (s' & E & Hg & _); [..|exists s'; split; [exact E|exact Hg]];
    first [vm_compute; reflexivity | vm_compute; discriminate].
Defined.

End StoreAlias.
