(* ===== verification/DumpText.v ===== *)
(** * The text of a database

    Models the text format of [krb5-kdc/src/kdb_dump.rs]: a header line, one line
    for each principal and policy, and changes appended after them in batches
    framed by a [begin] line and an [end] line with a checksum.  The text is its
    bytes, which are those of a [&str]; a line's fields are between tabs.  What a
    line means to the store is in [Dump]. *)

From S2P Require Import Prelude Reader Utf8 Etype Decimal Name EncList Kdc Lockout LockoutFile Ascii.

Module DumpText.

Inductive DumpError :=
  | Format (line : option Z) (msg : string)
  | Crypto
  | Io.

Abbreviation res := (result DumpError).

Record DumpKeySlot := mkSlot { sl_ty : Z; sl_contents : bytes }.

Record DumpKeyData := mkKey { dk_ver : Z; dk_kvno : Z; slots : list DumpKeySlot }.

Record DumpPrincipal := mkDump {
  db_len : Z;
  d_name : bytes;
  d_attributes : Z;
  d_max_life : Z;
  d_max_renewable_life : Z;
  d_expiration : Z;
  d_pw_expiration : Z;
  d_last_success : Z;
  d_last_failed : Z;
  d_fail_auth_count : Z;
  d_tl_data : list TlData;
  d_keys : list DumpKeyData;
  d_e_data : bytes;
}.

Definition TAB : byte := x09.
Definition LF : byte := x0a.

Definition text (s : string) : bytes := String.list_byte_of_string s.

(** ** Numbers and strings *)

(** [{}] of numbers. *)
Abbreviation dec := Decimal.dec.
Abbreviation dec_i32 := Decimal.dec_signed.

Definition digits (max : Z) (s : bytes) : option Z :=
  match s with
  | [] => None
  | _ => n ← Decimal.digits_from 0 s; if n <=? max then Some n else None
  end.

(** [str::parse] of an unsigned integer, and of an [i32]. *)
Definition parse_unsigned (max : Z) (s : bytes) : option Z :=
  match s with
  | x2b :: r => digits max r
  | _ => digits max s
  end.

Definition parse_i32 (s : bytes) : option Z :=
  match s with
  | x2b :: r => digits I32_MAX r
  | x2d :: r => n ← digits (I32_MAX + 1) r; Some (- n)
  | _ => digits I32_MAX s
  end.

(** [str::split] by a character. *)
Fixpoint split (sep : byte) (s : bytes) : list bytes :=
  match s with
  | [] => [[]]
  | c :: s =>
      if bool_decide (c = sep) then [] :: split sep s
      else match split sep s with [] => [[c]] | w :: ws => (c :: w) :: ws end
  end.

Definition strip_prefix (p s : bytes) : option bytes :=
  if bool_decide (take (length p) s = p) then Some (drop (length p) s) else None.

(** [s.strip_suffix(c).unwrap_or(s)]. *)
Definition without_last (c : byte) (s : bytes) : bytes :=
  if bool_decide (list.last s = Some c) then removelast s else s.

Definition hex_byte (b : byte) : bytes := LockoutFile.hex_fixed 2 (u8z b).

Definition encode_hex (b : bytes) : bytes := match b with [] => text "-1" | _ => flat_map hex_byte b end.

(** [u8::from_str_radix(_, 16)] of a hexadecimal digit. *)
Definition hex_digit_val (b : byte) : Z :=
  if Decimal.is_ascii_digit b then u8z b - 0x30
  else if (0x61 <=? u8z b) && (u8z b <=? 0x66) then u8z b - 0x61 + 10
  else u8z b - 0x41 + 10.

Fixpoint hex_pairs (s : bytes) : bytes :=
  match s with
  | a :: b :: s => z8 (hex_digit_val a * 16 + hex_digit_val b) :: hex_pairs s
  | _ => []
  end.

Definition decode_hex (s : bytes) : option bytes :=
  if negb (Nat.even (length s)) || negb (forallb Ascii.is_ascii_hexdigit s) then None else Some (hex_pairs s).

(** ** Principals *)

Definition with_tab (b : bytes) : bytes := b ++ [TAB].

Definition slot_text (s : DumpKeySlot) : bytes :=
  with_tab (dec_i32 (sl_ty s)) ++ with_tab (dec (blen (sl_contents s))) ++ with_tab (encode_hex (sl_contents s)).

Definition key_text (k : DumpKeyData) : bytes :=
  with_tab (dec_i32 (dk_ver k)) ++ with_tab (dec (dk_kvno k)) ++ flat_map slot_text (slots k).

Definition tl_text (t : TlData) : bytes :=
  [TAB] ++ dec_i32 (ty t) ++ [TAB] ++ dec (blen (contents t)) ++ [TAB] ++ encode_hex (contents t).

Definition record (p : DumpPrincipal) : bytes :=
  text "princ" ++
  flat_map (fun f => [TAB] ++ f)
    [dec (db_len p); dec (blen (d_name p)); dec (Z.of_nat (length (d_tl_data p))); dec (Z.of_nat (length (d_keys p)));
     dec (blen (d_e_data p)); d_name p; dec (d_attributes p); dec (d_max_life p); dec (d_max_renewable_life p);
     dec (d_expiration p); dec (d_pw_expiration p); dec (d_last_success p); dec (d_last_failed p); dec (d_fail_auth_count p)] ++
  flat_map tl_text (d_tl_data p) ++ [TAB] ++ flat_map key_text (d_keys p) ++ encode_hex (d_e_data p) ++ text ";".

(** The cursor: the fields that are left. *)
Section Cursor.
Context (line : Z).

Definition cursor_err (msg : string) : DumpError := Format (Some line) msg.

Definition c_take (f : list bytes) : res (bytes * list bytes) :=
  match f with
  | s :: f => Ok (s, f)
  | [] => Err (cursor_err "truncated princ record")
  end.

Definition c_u32 (f : list bytes) : res (Z * list bytes) :=
  let? (s, f) := c_take f in
  match parse_unsigned U32_MAX s with Some n => Ok (n, f) | None => Err (cursor_err "not an integer") end.

(** A [u32] fits a [usize]. *)
Definition c_usize (f : list bytes) : res (Z * list bytes) := c_u32 f.

Definition c_i32 (f : list bytes) : res (Z * list bytes) :=
  let? (s, f) := c_take f in
  match parse_i32 s with Some n => Ok (n, f) | None => Err (cursor_err "not an integer") end.

Definition c_hex (len : Z) (f : list bytes) : res (bytes * list bytes) :=
  let? (s, f) := c_take f in
  if len =? 0 then
    if bool_decide (s = text "-1") then Ok ([], f) else Err (cursor_err "empty blob must be -1")
  else
    match decode_hex s with
    | Some b => if blen b =? len then Ok (b, f) else Err (cursor_err "hex decoded")
    | None => Err (cursor_err "bad hex")
    end.

Definition c_finish (f : list bytes) : res unit :=
  match f with [] => Ok tt | _ => Err (cursor_err "extra fields after princ record") end.

(** [r.map_err(|_| bad(msg))]. *)
Definition or_bad {A} (msg : string) (r : res A) : res A := match r with Ok a => Ok a | Err _ => Err (cursor_err msg) end.

Definition typed_len (f : list bytes) : res (Z * Z * list bytes) :=
  let? (t, f) := c_i32 f in
  let? (n, f) := c_usize f in
  Ok (t, n, f).

(** A type, a length and that many bytes, with the messages of the two parts. *)
Definition typed_blob (head body : string) (f : list bytes) : res (Z * bytes * list bytes) :=
  let? (t, n, f) := or_bad head (typed_len f) in
  let? (b, f) := or_bad body (c_hex n f) in
  Ok (t, b, f).

Definition parse_tl (f : list bytes) : res (TlData * list bytes) :=
  let? (t, b, f) := typed_blob "cannot read tagged data type and length" "cannot read tagged data contents" f in
  Ok (mkTl t b, f).

Definition parse_slot (f : list bytes) : res (DumpKeySlot * list bytes) :=
  let? (t, b, f) := typed_blob "cannot read key type and length" "cannot read key data" f in
  Ok (mkSlot t b, f).

Definition parse_key (f : list bytes) : res (DumpKeyData * list bytes) :=
  let? (ver, kv, f) := or_bad "cannot read key size and version"
    (let? (ver, f) := c_i32 f in let? (kv, f) := c_u32 f in Ok (ver, kv, f)) in
  if negb ((1 <=? ver) && (ver <=? 2)) then Err (cursor_err "unsupported key_data_ver version")
  else if U16_MAX <? kv then Err (cursor_err "invalid kvno")
  else
    let? (sl, f) := repeat_n (Z.to_nat ver) parse_slot f in
    Ok (mkKey ver kv sl, f).

Definition parse_sizes (f : list bytes) : res (Z * Z * Z * Z * Z * list bytes) :=
  let? (a, f) := c_u32 f in
  let? (b, f) := c_usize f in
  let? (c, f) := c_usize f in
  let? (d, f) := c_usize f in
  let? (e, f) := c_usize f in
  Ok (a, b, c, d, e, f).

Definition parse_attrs : list bytes -> res (list Z * list bytes) := repeat_n 8 c_u32.

(** [c.take().ok().filter(|n| n.len() == namelen)]. *)
Definition parse_name (namelen : Z) (f : list bytes) : res (bytes * list bytes) :=
  match c_take f with
  | Ok (n, f) => if blen n =? namelen then Ok (n, f) else Err (cursor_err "cannot read name string")
  | Err _ => Err (cursor_err "cannot read name string")
  end.

(** The fields of a line: the last without its semicolon, and not at all if it is
    then empty. *)
Definition fields (rest : bytes) : list bytes :=
  let raw := split TAB rest in
  let raw := match rev raw with w :: ws => rev (without_last x3b w :: ws) | [] => [] end in
  match rev raw with [] :: ws => rev ws | _ => raw end.

Definition parse_princ_line (rest : bytes) : res DumpPrincipal :=
  let f := fields rest in
  let? (len, namelen, n_tl, n_key, e_len, f) := or_bad "cannot match size tokens" (parse_sizes f) in
  let? (nm, f) := parse_name namelen f in
  let? (attrs, f) := or_bad "cannot read principal attributes" (parse_attrs f) in
  let? (tl, f) := times (cursor_err "cannot read tagged data type and length") (S (length f)) parse_tl n_tl f in
  let? (ks, f) := times (cursor_err "cannot read key size and version") (S (length f)) parse_key n_key f in
  let? (e, f) := or_bad "cannot read extra data" (c_hex e_len f) in
  let? _ := c_finish f in
  match attrs with
  | [a; ml; mrl; ex; pw; ls; lf; fc] => Ok (mkDump len nm a ml mrl ex pw ls lf fc tl ks e)
  | _ => Err (cursor_err "cannot read principal attributes")
  end.

End Cursor.

(** ** Lines *)

Record Line := mkLine { l_text : bytes; l_no : Z; l_start : nat; l_end : nat; l_whole : bool }.

(** The lines, and whether each ends in a newline. *)
Fixpoint raw_lines (s : bytes) : list (bytes * bool) :=
  match s with
  | [] => []
  | c :: s =>
      if bool_decide (c = LF) then ([], true) :: raw_lines s
      else match raw_lines s with [] => [([c], false)] | (w, b) :: ws => (c :: w, b) :: ws end
  end.

Fixpoint number (no : Z) (at_ : nat) (raw : list (bytes * bool)) : list Line :=
  match raw with
  | [] => []
  | (w, whole) :: raw =>
      let end_ := (at_ + length w + Nat.b2n whole)%nat in
      mkLine (without_last x0d w) no at_ end_ whole :: number (no + 1) end_ raw
  end.

Definition text_lines (s : bytes) : list Line := number 1 0 (raw_lines s).

(** ** Appended changes *)

Definition JOURNAL_BEGIN : bytes := text "begin".
Definition JOURNAL_END : bytes := text "end" ++ [TAB].
Definition JOURNAL_DEL : bytes := text "del" ++ [TAB].

(** [u32::from_str_radix(_, 16)]. *)
Definition from_hex_digits (s : bytes) : option Z :=
  match s with
  | [] => None
  | _ =>
      if negb (forallb Ascii.is_ascii_hexdigit s) then None
      else
        let v := fold_left (fun acc b => acc * 16 + hex_digit_val b) s 0 in
        if v <=? U32_MAX then Some v else None
  end.

Definition parse_hex_u32 (s : bytes) : option Z :=
  match s with x2b :: r => from_hex_digits r | _ => from_hex_digits s end.

(** The records up to the batch's last line, if its checksum is that of the bytes
    between the first line and it; and the lines after it. *)
Fixpoint read_batch (t : bytes) (begin_end : nat) (records lines : list Line) : option (list Line * nat) * list Line :=
  match lines with
  | [] => (None, [])
  | l :: lines =>
      if negb (l_whole l) then (None, lines)
      else
        match strip_prefix JOURNAL_END (l_text l) with
        | Some crc =>
            let body := slice t begin_end (l_start l) in
            (if bool_decide (parse_hex_u32 crc = Some (LockoutFile.crc32 body)) then Some (records, l_end l) else None, lines)
        | None => read_batch t begin_end (records ++ [l]) lines
        end
  end.

Definition is_begin (l : Line) : bool := bool_decide (l_text l = JOURNAL_BEGIN).

(** ** The security identifier *)

Record RpcSid := mkSid { revision : byte; identifier_authority : bytes; sub_authority : list Z }.

Definition TL_KERBER_SID : Z := 0x4B01.

Definition find_tl (t : Z) (tl : list TlData) : option TlData := List.find (fun x => ty x =? t) tl.

Definition u32_at (b : bytes) (i : nat) : Z := from_le_bytes (slice b i (i + 4)).

Definition parse_sid_tl (tl : list TlData) : res (option RpcSid * Z) :=
  match find_tl TL_KERBER_SID tl with
  | None => Ok (None, 0)
  | Some t =>
      let c := contents t in
      if (blen c <? 13) || negb (bool_decide (c !! 0%nat = Some x01)) then Err (Format None "corrupt 0x4B01 SID tl_data")
      else
        let n := u8z (nth 6 c x00) in
        if blen c <? 13 + n * 4 then Err (Format None "truncated 0x4B01 SID tl_data")
        else
          let sub := map (fun k => u32_at c (13 + 4 * k)) (seq 0 (Z.to_nat n)) in
          Ok (Some (mkSid (nth 5 c x00) (slice c 7 13) sub), u32_at c 1)
  end.

(** ** Reading a file *)

Record Fold := mkFold {
  f_princs : list (option DumpPrincipal);
  princ_at : gmap bytes nat;
  f_policies : list (option bytes);
  policy_at : gmap bytes nat;
  f_records : Z;
  max_rid : Z;
}.

Definition empty_fold : Fold := mkFold [] ∅ [] ∅ 0 0.

Definition put_last {A} (items : list (option A)) (at_ : gmap bytes nat) (name : bytes) (v : A)
    : list (option A) * gmap bytes nat :=
  match at_ !! name with
  | Some i => (<[i := Some v]> items, at_)
  | None => (items ++ [Some v], <[name := length items]> at_)
  end.

Definition POLICY : bytes := text "policy" ++ [TAB].
Definition PRINC : bytes := text "princ" ++ [TAB].

(** [rest.split('\t').next()]. *)
Definition first_field (rest : bytes) : bytes := hd [] (split TAB rest).

Definition put_policy (rest : bytes) (f : Fold) : Fold :=
  let '(items, at_) := put_last (f_policies f) (policy_at f) (first_field rest) rest in
  mkFold (f_princs f) (princ_at f) items at_ (f_records f) (max_rid f).

Definition put_princ (p : DumpPrincipal) (rid : Z) (f : Fold) : Fold :=
  let '(items, at_) := put_last (f_princs f) (princ_at f) (d_name p) p in
  mkFold items at_ (f_policies f) (policy_at f) (f_records f + 1) (Z.max (max_rid f) rid).

Definition del_princ (name : bytes) (f : Fold) : Fold :=
  match princ_at f !! name with
  | Some i => mkFold (<[i := None]> (f_princs f)) (delete name (princ_at f)) (f_policies f) (policy_at f) (f_records f + 1) (max_rid f)
  | None => mkFold (f_princs f) (princ_at f) (f_policies f) (policy_at f) (f_records f + 1) (max_rid f)
  end.

Definition fold_record (f : Fold) (l : Line) : res Fold :=
  let t := l_text l in
  if bool_decide (t = []) then Ok f
  else
    match strip_prefix POLICY t, strip_prefix PRINC t, strip_prefix JOURNAL_DEL t with
    | Some rest, _, _ => Ok (put_policy rest f)
    | None, Some rest, _ =>
        let? p := parse_princ_line (l_no l) rest in
        let? (_, rid) := parse_sid_tl (d_tl_data p) in
        Ok (put_princ p rid f)
    | None, None, Some name => Ok (del_princ name f)
    | None, None, None => Err (Format (Some (l_no l)) "unknown record type")
    end.

Fixpoint fold_records (f : Fold) (lines : list Line) : res Fold :=
  match lines with
  | [] => Ok f
  | l :: lines => let? f := fold_record f l in fold_records f lines
  end.

(** The loop over the lines: each turn takes one at least, so their number is fuel
    enough; it gives the fold and the length that was applied. *)
Fixpoint parse_lines (fuel : nat) (t : bytes) (lines : list Line) (f : Fold) (applied : nat) : res (Fold * nat) :=
  match fuel, lines with
  | O, _ | _, [] => Ok (f, applied)
  | S fuel, l :: lines =>
      if negb (is_begin l) then
        let? f := fold_record f l in
        parse_lines fuel t lines f applied
      else
        match read_batch t (l_end l) [] lines with
        | (Some (records, end_), lines) =>
            let? f := fold_records f records in
            parse_lines fuel t lines f end_
        | (None, lines) =>
            if existsb is_begin lines then Err (Format (Some (l_no l)) "appended change does not check")
            else Ok (f, l_start l)
        end
  end.

Definition KDB_DUMP_VERSION : Z := 7.
Definition KDB_DUMP_VERSION_R18 : Z := 6.

(** [str::trim]. *)
Definition trim (s : bytes) : bytes :=
  match Utf8.from_utf8 s with Some cs => Utf8.as_bytes (EncList.trim cs) | None => s end.

Definition parse_header (line : bytes) : res Z :=
  if bool_decide (is_Some (strip_prefix (text "ipropx ") line)) || bool_decide (is_Some (strip_prefix (text "iprop ") line))
  then Ok KDB_DUMP_VERSION
  else
    match strip_prefix (text "kdb5_util load_dump version ") line with
    | None => Err (Format None "bad dump header")
    | Some rest =>
        match parse_unsigned U32_MAX (trim rest) with
        | None => Err (Format None "bad dump version")
        | Some v =>
            if negb (v =? KDB_DUMP_VERSION) && negb (v =? KDB_DUMP_VERSION_R18)
            then Err (Format None "unsupported dump version") else Ok v
        end
    end.

Record DumpFile := mkFile {
  version : Z;
  princs : list DumpPrincipal;
  policies : list bytes;
  records : Z;
  applied_len : nat;
  seen_rid : Z;
}.

Definition parse_dump (t : bytes) : res DumpFile :=
  match text_lines t with
  | [] => Err (Format None "empty dump")
  | h :: lines =>
      let? v := parse_header (l_text h) in
      let? (f, applied) := parse_lines (length lines) t lines empty_fold (length t) in
      Ok (mkFile v (omap id (f_princs f)) (omap id (f_policies f)) (f_records f) applied (max_rid f))
  end.

Inductive JournalOp :=
  | JPut (p : DumpPrincipal)
  | JDel (name : bytes).

(** What a line of an appended change does; a line that is none of them is for a
    whole reading of the file to refuse. *)
Definition journal_op (l : Line) : res (option (list JournalOp)) :=
  match strip_prefix PRINC (l_text l), strip_prefix JOURNAL_DEL (l_text l) with
  | Some rest, _ => let? p := parse_princ_line (l_no l) rest in Ok (Some [JPut p])
  | None, Some name => Ok (Some [JDel name])
  | None, None => Ok (if bool_decide (l_text l = []) then Some [] else None)
  end.

Fixpoint journal_ops (lines : list Line) : res (option (list JournalOp)) :=
  match lines with
  | [] => Ok (Some [])
  | l :: lines =>
      let? o := journal_op l in
      match o with
      | None => Ok None
      | Some ops => let? o := journal_ops lines in Ok (ops' ← o; Some (ops ++ ops'))
      end
  end.

Fixpoint journal_tail (fuel : nat) (t : bytes) (lines : list Line) (ops : list JournalOp) (used : nat)
    : res (option (list JournalOp * nat)) :=
  match fuel, lines with
  | O, _ | _, [] => Ok (Some (ops, used))
  | S fuel, l :: lines =>
      if negb (is_begin l) then Ok None
      else
        match read_batch t (l_end l) [] lines with
        | (None, lines) => if existsb is_begin lines then Ok None else Ok (Some (ops, used))
        | (Some (records, end_), lines) =>
            let? o := journal_ops records in
            match o with
            | None => Ok None
            | Some ops' => journal_tail fuel t lines (ops ++ ops') end_
            end
        end
  end.

Definition parse_journal_tail (t : bytes) : res (option (list JournalOp * nat)) :=
  let lines := text_lines t in journal_tail (length lines) t lines [] 0.

(** A batch with the given lines. *)
Definition frame (body : bytes) : bytes :=
  JOURNAL_BEGIN ++ [LF] ++ body ++ JOURNAL_END ++ LockoutFile.hex_fixed 8 (LockoutFile.crc32 body) ++ [LF].

(** ** Reading a printed record back *)

Lemma digits_dec max n : 0 <= n <= max -> n < 10 ^ 20 -> digits max (dec n) = Some n.
Proof.
  intros Hn Hb. unfold digits. destruct (Decimal.dec_cons n) as (c & r & E & _). rewrite E, <- E. unfold Decimal.dec.
  rewrite Decimal.digits_from_fixed by (apply Decimal.width_spec; cbn; lia). cbn [mbind option_bind].
  rewrite Z.mul_0_l, Z.add_0_l. by rewrite (proj2 (Z.leb_le _ _)) by lia.
Qed.

Lemma parse_unsigned_dec max n : 0 <= n <= max -> n < 10 ^ 20 -> parse_unsigned max (dec n) = Some n.
Proof.
  intros Hn Hb. rewrite <- (digits_dec max n) by done. destruct (Decimal.dec_cons n) as (c & r & -> & Hc).
  by destruct c.
Qed.

Lemma parse_i32_dec n : is_i32 n -> parse_i32 (dec_i32 n) = Some n.
Proof.
  unfold is_i32. intros Hn. unfold Decimal.dec_signed. destruct (n <? 0) eqn:E; to_prop.
  - cbn [parse_i32]. rewrite digits_dec by (unfold I32_MAX; lia). cbn. f_equal. lia.
  - rewrite <- (digits_dec I32_MAX n) by (unfold I32_MAX; lia). destruct (Decimal.dec_cons n) as (c & r & -> & Hc).
    by destruct c.
Qed.

(** The characters of numbers and hexadecimal strings. *)
Definition plain (b : byte) : bool := LockoutFile.is_hex b || bool_decide (b = x2d).

Lemma plain_digits s : forallb Decimal.is_ascii_digit s = true -> forallb plain s = true.
Proof.
  intros H. apply forallb_forall. intros b Hb. apply forallb_forall with (x := b) in H; [|done].
  unfold plain, LockoutFile.is_hex. by rewrite H.
Qed.

Lemma plain_dec n : forallb plain (dec n) = true.
Proof. apply plain_digits, Decimal.dec_digits. Qed.

Lemma plain_dec_i32 n : forallb plain (dec_i32 n) = true.
Proof. unfold Decimal.dec_signed. destruct (n <? 0); cbn [forallb]; [apply andb_true_intro; split; [done|]|]; apply plain_dec. Qed.

Lemma hex_byte_cases b : exists x y, hex_byte b = [x; y] /\ LockoutFile.is_hex x = true /\ LockoutFile.is_hex y = true /\
  z8 (hex_digit_val x * 16 + hex_digit_val y) = b.
Proof.
  set (P := fun b => match hex_byte b with
    | [x; y] => LockoutFile.is_hex x && LockoutFile.is_hex y && bool_decide (z8 (hex_digit_val x * 16 + hex_digit_val y) = b)
    | _ => false end).
  assert (P b = true) as H by (by destruct b; vm_compute). unfold P in H.
  destruct (hex_byte b) as [|x [|y []]]; try done. exists x, y. to_prop. by repeat split.
Qed.

Lemma encode_hex_hex b : b <> [] ->
  forallb LockoutFile.is_hex (encode_hex b) = true /\ length (encode_hex b) = (2 * length b)%nat /\ hex_pairs (encode_hex b) = b.
Proof.
  intros Hb. destruct b as [|c r]; [done|]. unfold encode_hex. clear Hb. generalize (c :: r). clear c r.
  intros l. induction l as [|c l (IH1 & IH2 & IH3)]; [done|]. cbn [flat_map].
  destruct (hex_byte_cases c) as (x & y & -> & Hx & Hy & Hc). cbn [app forallb length hex_pairs].
  rewrite Hx, Hy, Hc, IH1, IH2, IH3. cbn [andb length]. repeat split. lia.
Qed.

Lemma is_hex_hexdigit b : LockoutFile.is_hex b = true -> Ascii.is_ascii_hexdigit b = true.
Proof. by destruct b. Qed.

Lemma decode_encode_hex b : b <> [] -> decode_hex (encode_hex b) = Some b.
Proof.
  intros Hb. destruct (encode_hex_hex b Hb) as (Hh & Hl & Hp). unfold decode_hex. rewrite Hl, Hp.
  rewrite (proj2 (Nat.even_spec _)) by (by exists (length b)). cbn [negb orb].
  replace (forallb _ (encode_hex b)) with true; [done|]. symmetry. apply forallb_forall. intros c Hc.
  apply is_hex_hexdigit. by apply forallb_forall with (x := c) in Hh.
Qed.

Lemma plain_hex s : forallb LockoutFile.is_hex s = true -> forallb plain s = true.
Proof.
  intros H. apply forallb_forall. intros b Hb. apply forallb_forall with (x := b) in H; [|done].
  unfold plain. by rewrite H.
Qed.

Lemma plain_encode_hex b : forallb plain (encode_hex b) = true.
Proof. destruct b as [|c r]; [done|]. apply plain_hex, encode_hex_hex. done. Qed.

Lemma plain_free c s : forallb plain s = true -> plain c = false -> ~ In c s.
Proof. intros H Hc Hin. apply forallb_forall with (x := c) in H; [congruence|done]. Qed.

(** The fields of a record. *)
Definition tabbed (fs : list bytes) : bytes := flat_map (fun f => [TAB] ++ f) fs.

Definition slot_fields (s : DumpKeySlot) : list bytes :=
  [dec_i32 (sl_ty s); dec (blen (sl_contents s)); encode_hex (sl_contents s)].

Definition key_fields (k : DumpKeyData) : list bytes :=
  dec_i32 (dk_ver k) :: dec (dk_kvno k) :: flat_map slot_fields (slots k).

Definition tl_fields (t : TlData) : list bytes := [dec_i32 (ty t); dec (blen (contents t)); encode_hex (contents t)].

Definition size_fields (p : DumpPrincipal) : list bytes :=
  [dec (db_len p); dec (blen (d_name p)); dec (Z.of_nat (length (d_tl_data p))); dec (Z.of_nat (length (d_keys p)));
   dec (blen (d_e_data p))].

Definition attrs (p : DumpPrincipal) : list Z :=
  [d_attributes p; d_max_life p; d_max_renewable_life p; d_expiration p; d_pw_expiration p; d_last_success p;
   d_last_failed p; d_fail_auth_count p].

Definition body_fields (p : DumpPrincipal) : list bytes :=
  size_fields p ++ [d_name p] ++ map dec (attrs p) ++ flat_map tl_fields (d_tl_data p) ++ flat_map key_fields (d_keys p).

Lemma with_tabs fs x : [TAB] ++ flat_map with_tab fs ++ x = tabbed (fs ++ [x]).
Proof.
  unfold tabbed, with_tab. rewrite flat_map_app. cbn [flat_map]. rewrite app_nil_r.
  induction fs as [|f fs IH]; [done|]. cbn [flat_map]. rewrite <- !app_assoc. cbn [app] in *.
  f_equal. f_equal. by rewrite <- IH.
Qed.

Lemma flat_map_flat_map {A B C} (f : B -> list C) (g : A -> list B) l :
  flat_map f (flat_map g l) = flat_map (fun x => flat_map f (g x)) l.
Proof. induction l as [|x l IH]; [done|]. cbn [flat_map]. by rewrite flat_map_app, IH. Qed.

Lemma record_tabbed p : record p = text "princ" ++ tabbed (body_fields p ++ [encode_hex (d_e_data p) ++ text ";"]).
Proof.
  assert (flat_map key_text (d_keys p) = flat_map with_tab (flat_map key_fields (d_keys p))) as Ek.
  { rewrite flat_map_flat_map. apply flat_map_ext. intros k. unfold key_text, key_fields. cbn [flat_map].
    f_equal. f_equal. rewrite flat_map_flat_map. apply flat_map_ext. intros s. cbn [flat_map slot_fields].
    by rewrite app_nil_r. }
  assert (flat_map tl_text (d_tl_data p) = tabbed (flat_map tl_fields (d_tl_data p))) as Et.
  { unfold tabbed. rewrite flat_map_flat_map. apply flat_map_ext. intros t. cbn [flat_map tl_fields].
    rewrite app_nil_r. unfold tl_text. by rewrite <- !app_assoc. }
  unfold record. f_equal. rewrite Ek, Et, with_tabs. unfold body_fields, tabbed. rewrite !flat_map_app.
  cbn [flat_map size_fields attrs map]. rewrite !app_nil_r. by rewrite <- !app_assoc.
Qed.

Lemma split_one c s rest : ~ In c s -> split c (s ++ c :: rest) = s :: split c rest.
Proof.
  induction s as [|x s IH]; cbn [app split]; intros Hs.
  { by rewrite bool_decide_true. }
  rewrite bool_decide_false by (intros ->; apply Hs; by left). rewrite IH; [done|]. intros ?. apply Hs. by right.
Qed.

Lemma split_end c s : ~ In c s -> split c s = [s].
Proof.
  induction s as [|x s IH]; cbn [split]; intros Hs; [done|].
  rewrite bool_decide_false by (intros ->; apply Hs; by left). rewrite IH; [done|]. intros ?. apply Hs. by right.
Qed.

Lemma split_tabbed f fs : Forall (fun f => ~ In TAB f) (f :: fs) -> split TAB (f ++ tabbed fs) = f :: fs.
Proof.
  revert f. induction fs as [|g fs IH]; intros f [Hf Hfs]%Forall_cons_iff.
  - cbn. rewrite app_nil_r. by apply split_end.
  - cbn [tabbed flat_map]. rewrite <- (app_assoc [TAB]). cbn [app]. rewrite split_one by done. by rewrite IH.
Qed.

Lemma without_last_snoc c s : without_last c (s ++ [c]) = s.
Proof. unfold without_last. rewrite last_snoc, bool_decide_true by done. apply removelast_last. Qed.

Lemma fields_tabbed f fs e :
  Forall (fun f => ~ In TAB f) (f :: fs ++ [e]) -> e <> [] -> fields (f ++ tabbed (fs ++ [e ++ text ";"])) = f :: fs ++ [e].
Proof.
  intros Hf He. unfold fields. rewrite split_tabbed.
  - change (f :: fs ++ [e ++ text ";"]) with ((f :: fs) ++ [e ++ text ";"]). rewrite rev_app_distr. cbn [rev app].
    change (text ";") with [x3b]. rewrite without_last_snoc. rewrite !rev_app_distr. cbn [rev app].
    rewrite !rev_app_distr, !rev_involutive. cbn [rev app]. by destruct e.
  - apply Forall_cons_iff in Hf as [Hf Hfs]. apply Forall_app in Hfs as [Hfs Hl].
    apply Forall_cons_iff. split; [done|]. apply Forall_app. split; [done|]. apply Forall_singleton.
    apply Forall_cons_iff in Hl as [Hl _]. rewrite in_app_iff. intros [Hi|[[=]|[]]]; exact (Hl Hi).
Qed.

(** A record that can be written: its numbers fit their fields, and its name has no
    tab in it. *)
Definition wf_tl (t : TlData) : Prop := is_i32 (ty t) /\ is_u32 (blen (contents t)).

Definition wf_slot (s : DumpKeySlot) : Prop := is_i32 (sl_ty s) /\ is_u32 (blen (sl_contents s)).

Definition wf_key (k : DumpKeyData) : Prop :=
  (dk_ver k = 1 \/ dk_ver k = 2) /\ Z.of_nat (length (slots k)) = dk_ver k /\ 0 <= dk_kvno k <= U16_MAX /\ Forall wf_slot (slots k).

(** Its numbers fit. *)
Record fits (p : DumpPrincipal) : Prop := {
  wf_len : is_u32 (db_len p);
  wf_name_len : is_u32 (blen (d_name p));
  wf_attrs : Forall is_u32 (attrs p);
  wf_n_tl : is_u32 (Z.of_nat (length (d_tl_data p)));
  wf_tls : Forall wf_tl (d_tl_data p);
  wf_n_keys : is_u32 (Z.of_nat (length (d_keys p)));
  wf_keys : Forall wf_key (d_keys p);
  wf_e : is_u32 (blen (d_e_data p));
}.

Definition wf_dump (p : DumpPrincipal) : Prop := fits p /\ ~ In TAB (d_name p).

Section Reads.
Context (line : Z).

Lemma c_take_local : local (c_take line).
Proof. intros [|s f] a r E; [done|]. injection E as <- <-. split; [cbn; lia|done]. Qed.

Lemma c_u32_local : local (c_u32 line).
Proof. unfold c_u32. apply local_bind; [apply c_take_local|]. intros s. by destruct (parse_unsigned _ s); local_reader. Qed.

Lemma c_i32_local : local (c_i32 line).
Proof. unfold c_i32. apply local_bind; [apply c_take_local|]. intros s. by destruct (parse_i32 s); local_reader. Qed.

Lemma c_hex_local n : local (c_hex line n).
Proof.
  unfold c_hex. apply local_bind; [apply c_take_local|]. intros s. apply wlocal_if.
  - by destruct (bool_decide _); local_reader.
  - destruct (decode_hex s) as [b|]; [|local_reader]. by destruct (blen b =? n); local_reader.
Qed.

Lemma or_bad_local {A} msg (rd : list bytes -> res (A * list bytes)) : local rd -> local (fun f => or_bad line msg (rd f)).
Proof.
  intros H f a r E. unfold or_bad in *. destruct (rd f) as [x|] eqn:Er; [|done]. injection E as ->.
  apply H in Er as [Hl Er]. split; [done|]. intros x. by rewrite Er.
Qed.

Lemma reads_bind {A B} (rd : list bytes -> res (A * list bytes)) (k : A -> list bytes -> res (B * list bytes)) e x e' y :
  reads rd e x -> reads (k x) e' y -> reads (fun f => let? (a, f) := rd f in k a f) (e ++ e') y.
Proof. intros H H' rest. by rewrite <- app_assoc, H, H'. Qed.

Lemma c_u32_reads n : is_u32 n -> reads (c_u32 line) [dec n] n.
Proof.
  unfold is_u32. intros Hn rest. cbn [app]. unfold c_u32. cbn [c_take].
  by rewrite parse_unsigned_dec by (unfold U32_MAX; lia).
Qed.

Lemma c_i32_reads n : is_i32 n -> reads (c_i32 line) [dec_i32 n] n.
Proof. intros Hn rest. cbn [app]. unfold c_i32. cbn [c_take]. by rewrite parse_i32_dec. Qed.

Lemma c_hex_reads b : reads (c_hex line (blen b)) [encode_hex b] b.
Proof.
  intros rest. cbn [app]. unfold c_hex. cbn [c_take]. destruct b as [|c r]; [done|].
  rewrite decode_encode_hex by done. rewrite Z.eqb_refl. by destruct (blen (c :: r) =? 0) eqn:E; to_prop.
Qed.

Lemma or_bad_reads {A} msg (rd : list bytes -> res (A * list bytes)) e x :
  reads rd e x -> reads (fun f => or_bad line msg (rd f)) e x.
Proof. intros H rest. by rewrite H. Qed.

Lemma typed_len_reads t n : is_i32 t -> is_u32 n -> reads (typed_len line) [dec_i32 t; dec n] (t, n).
Proof.
  intros Ht Hn rest. unfold typed_len, c_usize. change ([dec_i32 t; dec n] ++ rest) with ([dec_i32 t] ++ [dec n] ++ rest).
  by rewrite c_i32_reads, c_u32_reads.
Qed.

Lemma typed_len_local : local (typed_len line).
Proof.
  unfold typed_len. apply local_bind; [apply c_i32_local|]. intros t.
  apply wlocal_bind; [apply local_weak, c_u32_local|]. local_reader.
Qed.

Lemma typed_blob_reads h c t b :
  is_i32 t -> is_u32 (blen b) -> reads (typed_blob line h c) [dec_i32 t; dec (blen b); encode_hex b] (t, b).
Proof.
  intros Ht Hn rest. unfold typed_blob.
  change ([dec_i32 t; dec (blen b); encode_hex b] ++ rest) with ([dec_i32 t; dec (blen b)] ++ [encode_hex b] ++ rest).
  rewrite typed_len_reads by done. cbn [or_bad]. by rewrite c_hex_reads.
Qed.

Lemma typed_blob_local h c : local (typed_blob line h c).
Proof.
  unfold typed_blob. intros b a r. destruct (typed_len line b) as [[[t n] f]|] eqn:E; [|done]. cbn [or_bad].
  apply typed_len_local in E as [Hl E]. destruct (c_hex line n f) as [[d f']|] eqn:Ec; [|done]. cbn [or_bad].
  apply c_hex_local in Ec as [Hl' Ec]. intros [= <- <-]. split; [lia|]. intros x. rewrite E. cbn [or_bad]. by rewrite Ec.
Qed.

Lemma parse_tl_reads t : wf_tl t -> reads (parse_tl line) (tl_fields t) t.
Proof. intros [Ht Hn] rest. unfold parse_tl, tl_fields. rewrite typed_blob_reads by done. by destruct t. Qed.

Lemma parse_tl_local : local (parse_tl line).
Proof. apply local_bind; [apply typed_blob_local|]. intros [t b]. apply wlocal_ret. Qed.

Lemma parse_slot_reads s : wf_slot s -> reads (parse_slot line) (slot_fields s) s.
Proof. intros [Ht Hn] rest. unfold parse_slot, slot_fields. rewrite typed_blob_reads by done. by destruct s. Qed.

Lemma parse_slot_local : local (parse_slot line).
Proof. apply local_bind; [apply typed_blob_local|]. intros [t b]. apply wlocal_ret. Qed.

Lemma parse_key_reads k : wf_key k -> reads (parse_key line) (key_fields k) k.
Proof.
  intros (Hv & Hl & Hk & Hs) rest. unfold parse_key, key_fields.
  change ((dec_i32 (dk_ver k) :: dec (dk_kvno k) :: flat_map slot_fields (slots k)) ++ rest)
    with ([dec_i32 (dk_ver k)] ++ [dec (dk_kvno k)] ++ flat_map slot_fields (slots k) ++ rest).
  rewrite c_i32_reads by (unfold is_i32; lia). rewrite c_u32_reads by (unfold is_u32, U16_MAX in *; lia). cbn [or_bad].
  replace (negb _) with false by (destruct Hv as [->| ->]; done).
  rewrite (proj2 (Z.ltb_ge _ _)) by lia. rewrite <- Hl, Nat2Z.id.
  rewrite flat_map_concat_map, <- (length_map slot_fields).
  rewrite (repeat_n_reads (parse_slot line) (map slot_fields (slots k)) (slots k)).
  - rewrite length_map, Hl. by destruct k.
  - clear -Hs. induction Hs; constructor; [by apply parse_slot_reads|done].
Qed.

Lemma parse_key_local : local (parse_key line).
Proof.
  unfold parse_key. intros b a r.
  destruct (c_i32 line b) as [[v f]|] eqn:E; [|done]. apply c_i32_local in E as [Hl E].
  destruct (c_u32 line f) as [[kv f']|] eqn:Eu; [|done]. apply c_u32_local in Eu as [Hl' Eu]. cbn [or_bad].
  destruct (negb _) eqn:Ev; [done|]. destruct (U16_MAX <? kv) eqn:Ek; [done|].
  destruct (repeat_n _ _ f') as [[sl f2]|] eqn:Er; [|done].
  pose proof (wlocal_repeat_n (Z.to_nat v) _ (local_weak _ parse_slot_local) _ _ _ Er) as [Hl2 Er'].
  intros [= <- <-]. split; [lia|]. intros x. rewrite E. rewrite Eu. cbn [or_bad]. by rewrite Ev, Ek, Er'.
Qed.

End Reads.

Lemma in_plain_fields (fs : list bytes) c : Forall (fun f => forallb plain f = true) fs -> plain c = false -> Forall (fun f => ~ In c f) fs.
Proof. intros H Hc. eapply Forall_impl; [|exact H]. intros f Hf. by apply plain_free. Qed.

Lemma plain_slot_fields s : Forall (fun f => forallb plain f = true) (slot_fields s).
Proof. repeat constructor; [apply plain_dec_i32|apply plain_dec|apply plain_encode_hex]. Qed.

Lemma plain_tl_fields t : Forall (fun f => forallb plain f = true) (tl_fields t).
Proof. repeat constructor; [apply plain_dec_i32|apply plain_dec|apply plain_encode_hex]. Qed.

Lemma Forall_flat_map_all {A B} (P : B -> Prop) (f : A -> list B) l : (forall x, Forall P (f x)) -> Forall P (flat_map f l).
Proof. intros H. induction l; cbn [flat_map]; [constructor|]. by apply Forall_app. Qed.

Lemma plain_key_fields k : Forall (fun f => forallb plain f = true) (key_fields k).
Proof.
  unfold key_fields. constructor; [apply plain_dec_i32|]. constructor; [apply plain_dec|].
  apply Forall_flat_map_all, plain_slot_fields.
Qed.

(** Every field but the name is plain. *)
Lemma body_free p c : plain c = false -> ~ In c (d_name p) -> Forall (fun f => ~ In c f) (body_fields p ++ [encode_hex (d_e_data p)]).
Proof.
  intros Hc Hn. unfold body_fields. rewrite !Forall_app. repeat split.
  - apply in_plain_fields; [|done]. unfold size_fields. repeat constructor; apply plain_dec.
  - by repeat constructor.
  - apply in_plain_fields; [|done]. unfold attrs. repeat constructor; apply plain_dec.
  - apply in_plain_fields; [|done]. apply Forall_flat_map_all, plain_tl_fields.
  - apply in_plain_fields; [|done]. apply Forall_flat_map_all, plain_key_fields.
  - apply in_plain_fields; [|done]. repeat constructor. apply plain_encode_hex.
Qed.

Lemma encode_hex_nonempty b : encode_hex b <> [].
Proof. destruct b as [|c r]; [done|]. cbn [encode_hex flat_map]. by destruct (hex_byte_cases c) as (x & y & -> & _). Qed.

Definition rest_of (p : DumpPrincipal) : bytes :=
  match body_fields p with f :: fs => f ++ tabbed (fs ++ [encode_hex (d_e_data p) ++ text ";"]) | [] => [] end.

Lemma body_cons p : exists f fs, body_fields p = f :: fs.
Proof. unfold body_fields, size_fields. by do 2 eexists. Qed.

Lemma record_rest p : record p = PRINC ++ rest_of p.
Proof.
  rewrite record_tabbed. unfold rest_of, PRINC. destruct (body_cons p) as (f & fs & ->). cbn [app tabbed flat_map].
  by rewrite <- !app_assoc.
Qed.

Lemma fields_rest p : ~ In TAB (d_name p) -> fields (rest_of p) = body_fields p ++ [encode_hex (d_e_data p)].
Proof.
  intros Hn. pose proof (body_free p TAB eq_refl Hn) as Hf. unfold rest_of.
  destruct (body_cons p) as (f & fs & E). rewrite E in *. apply fields_tabbed; [done|apply encode_hex_nonempty].
Qed.

Lemma strip_prefix_app p s : strip_prefix p (p ++ s) = Some s.
Proof. unfold strip_prefix. by rewrite take_app_length, bool_decide_true, drop_app_length. Qed.

Lemma parse_rest line p : wf_dump p -> parse_princ_line line (rest_of p) = Ok p.
Proof.
  intros [W Hn]. unfold parse_princ_line. rewrite fields_rest by done. unfold body_fields. rewrite <- !app_assoc.
  assert (forall rest, parse_sizes line (size_fields p ++ rest) =
    Ok (db_len p, blen (d_name p), Z.of_nat (length (d_tl_data p)), Z.of_nat (length (d_keys p)), blen (d_e_data p), rest)) as Es.
  { intros rest. unfold parse_sizes, c_usize, size_fields. destruct W. cbn [app].
    repeat match goal with |- context [c_u32 line (dec ?n :: ?r)] =>
      change (dec n :: r) with ([dec n] ++ r); rewrite (c_u32_reads line n) by done; cbv beta iota end. done. }
  rewrite Es. cbn [or_bad]. unfold parse_name. cbn [c_take app]. rewrite Z.eqb_refl.
  assert (forall rest, parse_attrs line (map dec (attrs p) ++ rest) = Ok (attrs p, rest)) as Ea.
  { intros rest. unfold parse_attrs. replace (map dec (attrs p)) with (concat (map (fun n => [dec n]) (attrs p))) by done.
    change 8%nat with (length (map (fun n => [dec n]) (attrs p))). apply (repeat_n_reads (c_u32 line)).
    pose proof (wf_attrs p W) as Ha. clear -Ha. induction Ha; constructor; [by apply c_u32_reads|done]. }
  rewrite Ea. cbn [or_bad].
  rewrite (times_reads (parse_tl line)); [|apply parse_tl_local|eapply Forall_impl; [apply parse_tl_reads|apply (wf_tls p W)]|lia].
  rewrite (times_reads (parse_key line)); [|apply parse_key_local|eapply Forall_impl; [apply parse_key_reads|apply (wf_keys p W)]|lia].
  rewrite <- (app_nil_r [encode_hex (d_e_data p)]). rewrite c_hex_reads. cbn [or_bad c_finish]. by destruct p.
Qed.

(** A principal's record is read back as it was written: what a principal of
    the database is printed as, with its sizes, attributes, tagged data, keys and
    extra data, is a line that reads as a [princ] record, and the record read from
    it is the principal printed. *)
Theorem record_roundtrip (line : Z) (p : DumpPrincipal) :
  wf_dump p -> exists rest, strip_prefix PRINC (record p) = Some rest /\ parse_princ_line line rest = Ok p.
Proof.
  intros W. exists (rest_of p). split; [by rewrite record_rest, strip_prefix_app|by apply parse_rest].
Qed.

(** The same, to be computed. *)
Definition u32b (n : Z) : bool := (0 <=? n) && (n <? 2 ^ 32).
Definition i32b (n : Z) : bool := (- 2 ^ 31 <=? n) && (n <? 2 ^ 31).

Definition wf_keyb (k : DumpKeyData) : bool :=
  ((dk_ver k =? 1) || (dk_ver k =? 2)) && (Z.of_nat (length (slots k)) =? dk_ver k) && (0 <=? dk_kvno k) && (dk_kvno k <=? U16_MAX) &&
  forallb (fun s => i32b (sl_ty s) && u32b (blen (sl_contents s))) (slots k).

Definition wf_dumpb (p : DumpPrincipal) : bool :=
  forallb u32b (db_len p :: blen (d_name p) :: attrs p ++ [Z.of_nat (length (d_tl_data p)); Z.of_nat (length (d_keys p)); blen (d_e_data p)]) &&
  forallb (fun c => negb (bool_decide (c = TAB))) (d_name p) &&
  forallb (fun t => i32b (ty t) && u32b (blen (contents t))) (d_tl_data p) && forallb wf_keyb (d_keys p).

Lemma forallb_Forall_iff {A} (P : A -> Prop) (f : A -> bool) l : (forall x, f x = true -> P x) -> forallb f l = true -> Forall P l.
Proof. intros H Hl. apply List.Forall_forall. intros x Hx. apply H. by apply forallb_forall with (x := x) in Hl. Qed.

Lemma u32b_spec n : u32b n = true -> is_u32 n.
Proof. unfold u32b, is_u32. lia. Qed.

Lemma i32b_spec n : i32b n = true -> is_i32 n.
Proof. unfold i32b, is_i32. lia. Qed.

Lemma wf_keyb_spec k : wf_keyb k = true -> wf_key k.
Proof.
  unfold wf_keyb, wf_key. intros H. apply andb_prop in H as [H Hs]. split; [lia|]. split; [lia|]. split; [lia|].
  eapply forallb_Forall_iff; [|exact Hs]. intros s [H1 H2]%andb_prop. split; [by apply i32b_spec|by apply u32b_spec].
Qed.

Lemma wf_dumpb_spec p : wf_dumpb p = true -> wf_dump p.
Proof.
  unfold wf_dumpb. intros [[[Hn Hname]%andb_prop Ht]%andb_prop Hk]%andb_prop.
  apply (forallb_Forall_iff is_u32) in Hn; [|apply u32b_spec].
  apply Forall_cons_iff in Hn as [H1 Hn]. apply Forall_cons_iff in Hn as [H2 Hn]. apply Forall_app in Hn as [Ha Hn].
  apply Forall_cons_iff in Hn as [H3 Hn]. apply Forall_cons_iff in Hn as [H4 Hn]. apply Forall_cons_iff in Hn as [H5 _].
  split; [split; try done|].
  - eapply forallb_Forall_iff; [|exact Ht]. intros t [? ?]%andb_prop. split; [by apply i32b_spec|by apply u32b_spec].
  - eapply forallb_Forall_iff; [|exact Hk]. apply wf_keyb_spec.
  - intros Hi. apply forallb_forall with (x := TAB) in Hname; [|done]. by rewrite bool_decide_true in Hname.
Qed.

Definition sample_dump : DumpPrincipal :=
  mkDump 38 (text "alice@EXAMPLE.COM") 128 86400 0 0 1700000000 0 0 0
    [mkTl 1 [x01; x02; x03; x04]; mkTl (-1) []]
    [mkKey 1 2 [mkSlot 18 [xde; xad; xbe; xef]]; mkKey 2 1 [mkSlot 17 [x00]; mkSlot 1 []]] [].

Lemma record_roundtrip_witness :
  exists rest, strip_prefix PRINC (record sample_dump) = Some rest /\ parse_princ_line 3 rest = Ok sample_dump.
Proof. apply record_roundtrip. by apply wf_dumpb_spec. Defined.

End DumpText.
