(* ===== verification/Journal.v ===== *)
(** * Appended changes

    A change to the database is appended to its file ([append_change] of
    [krb5-kdc/src/persist.rs]) as a batch of records with a checksum, and read
    back either with the whole file ([parse_dump] of [krb5-kdc/src/kdb_dump.rs])
    or by a process that has read the file up to there ([parse_journal_tail]).
    The two give the same database; and a batch that was torn by a crash, after its
    first word and between characters, is not seen at all, and is cut off by the
    next change. *)

From S2P Require Import Prelude Reader Utf8 Etype Decimal Name EncList Kdc Lockout LockoutFile Ascii DumpText.

Module Journal.
Import DumpText.

(** ** Lines of a text in two parts *)

Definition ended (t : bytes) : Prop := t = [] \/ list.last t = Some LF.

Lemma ended_cons c t : ended (c :: t) -> ended t /\ (t = [] -> c = LF).
Proof.
  intros [?|H]; [done|]. destruct t as [|d t]; [|split; [by right|done]].
  cbn in H. split; [by left|]. intros _. congruence.
Qed.

Lemma raw_lines_nil t : raw_lines t = [] -> t = [].
Proof. destruct t as [|c t]; [done|]. cbn. destruct (bool_decide _); [done|]. by destruct (raw_lines t) as [|[??] ?]. Qed.

Lemma raw_lines_app t x : ended t -> raw_lines (t ++ x) = raw_lines t ++ raw_lines x.
Proof.
  induction t as [|c t IH]; intros Ht; [done|]. apply ended_cons in Ht as [Ht Hc]. cbn [app raw_lines].
  rewrite IH by done. case_bool_decide; [done|]. destruct (raw_lines t) as [|[w b] ws] eqn:E; [|done].
  apply raw_lines_nil in E. by rewrite (Hc E) in *.
Qed.

Definition size (r : bytes * bool) : nat := length r.1 + Nat.b2n r.2.

Lemma raw_lines_size t : Forall (fun r => (0 < size r)%nat) (raw_lines t) /\ sum_list_with size (raw_lines t) = length t.
Proof.
  induction t as [|c t [IH1 IH2]]; [done|]. cbn [raw_lines]. case_bool_decide.
  { split; [constructor; [cbn; lia|done]|]. cbn. lia. }
  destruct (raw_lines t) as [|[w b] ws].
  { split; [repeat constructor|]. cbn in *. lia. }
  inversion_clear IH1. split; [constructor; [cbn; lia|done]|]. cbn in *. lia.
Qed.

(** The lines take up the text from [at_] to [stop]. *)
Fixpoint laid (at_ : nat) (lines : list Line) (stop : nat) : Prop :=
  match lines with
  | [] => at_ = stop
  | l :: lines => l_start l = at_ /\ (at_ < l_end l)%nat /\ laid (l_end l) lines stop
  end.

Lemma number_laid raw no at_ :
  Forall (fun r => (0 < size r)%nat) raw -> laid at_ (number no at_ raw) (at_ + sum_list_with size raw).
Proof.
  revert no at_. induction raw as [|[w b] raw IH]; intros no at_ H; [cbn; lia|]. inversion_clear H.
  cbn [number laid l_start l_end]. unfold size in H0. cbn [fst snd] in H0. split; [done|]. split; [lia|].
  cbn [sum_list_with]. unfold size at 1. cbn [fst snd]. rewrite !Nat.add_assoc. by apply IH.
Qed.

Lemma text_lines_laid t : laid 0 (text_lines t) (length t).
Proof. destruct (raw_lines_size t) as [H <-]. by apply number_laid. Qed.

Lemma laid_le at_ lines stop : laid at_ lines stop -> (at_ <= stop)%nat.
Proof. revert at_. induction lines as [|l lines IH]; cbn; intros at_; [lia|]. intros (<- & H & Hl). apply IH in Hl. lia. Qed.

(** A line of a text that comes after [d] bytes and [n] lines. *)
Definition shift (n : Z) (d : nat) (l : Line) : Line :=
  mkLine (l_text l) (n + l_no l) (d + l_start l) (d + l_end l) (l_whole l).

Lemma number_shift n d raw no at_ : number (n + no) (d + at_) raw = map (shift n d) (number no at_ raw).
Proof.
  revert no at_. induction raw as [|[w b] raw IH]; intros no at_; [done|]. cbn [number map]. unfold shift at 1.
  cbn [l_text l_no l_start l_end l_whole]. rewrite <- IH, !Nat.add_assoc, !Z.add_assoc. done.
Qed.

Lemma number_app r1 r2 no at_ :
  number no at_ (r1 ++ r2) = number no at_ r1 ++ number (no + Z.of_nat (length r1)) (at_ + sum_list_with size r1) r2.
Proof.
  revert no at_. induction r1 as [|[w b] r1 IH]; intros no at_; cbn [app number length sum_list_with].
  { by rewrite Nat.add_0_r, Z.add_0_r. }
  rewrite IH. f_equal. f_equal. f_equal; [lia|].
  unfold size at 2. cbn [fst snd]. lia.
Qed.

Lemma text_lines_app t x :
  ended t -> exists n, text_lines (t ++ x) = text_lines t ++ map (shift n (length t)) (text_lines x).
Proof.
  intros Ht. exists (Z.of_nat (length (raw_lines t))). unfold text_lines. rewrite raw_lines_app, number_app by done.
  rewrite (proj2 (raw_lines_size t)). f_equal. rewrite Z.add_comm, Nat.add_comm. apply number_shift.
Qed.

(** ** The parts of a file

    Both ways of reading go through the same parts: a record on its own, a whole
    batch, and a batch that does not check, with whether another follows it. *)

Inductive Part :=
  | Single (l : Line)
  | Batch (rs : list Line) (end_ : nat)
  | Bad (l : Line) (later : bool).

Fixpoint parts (fuel : nat) (t : bytes) (lines : list Line) : list Part :=
  match fuel, lines with
  | O, _ | _, [] => []
  | S fuel, l :: lines =>
      if negb (is_begin l) then Single l :: parts fuel t lines
      else
        match read_batch t (l_end l) [] lines with
        | (Some (rs, end_), lines) => Batch rs end_ :: parts fuel t lines
        | (None, lines) => [Bad l (existsb is_begin lines)]
        end
  end.

Fixpoint parse_parts (ps : list Part) (f : Fold) (applied : nat) : res (Fold * nat) :=
  match ps with
  | [] => Ok (f, applied)
  | Single l :: ps => let? f := fold_record f l in parse_parts ps f applied
  | Batch rs end_ :: ps => let? f := fold_records f rs in parse_parts ps f end_
  | Bad l later :: _ =>
      if later then Err (Format (Some (l_no l)) "appended change does not check") else Ok (f, l_start l)
  end.

Fixpoint journal_parts (ps : list Part) (ops : list JournalOp) (used : nat) : res (option (list JournalOp * nat)) :=
  match ps with
  | [] => Ok (Some (ops, used))
  | Single _ :: _ => Ok None
  | Batch rs end_ :: ps =>
      let? o := journal_ops rs in
      match o with
      | None => Ok None
      | Some ops' => journal_parts ps (ops ++ ops') end_
      end
  | Bad _ later :: _ => if later then Ok None else Ok (Some (ops, used))
  end.

Lemma parse_lines_parts fuel t lines f a : parse_lines fuel t lines f a = parse_parts (parts fuel t lines) f a.
Proof.
  revert lines f a. induction fuel as [|fuel IH]; intros lines f a; [done|]. destruct lines as [|l lines]; [done|].
  cbn [parse_lines parts]. destruct (negb (is_begin l)); cbn [parse_parts].
  - destruct (fold_record f l); [apply IH|done].
  - destruct (read_batch _ _ _ _) as [[[rs e]|] rest]; [|done]. cbn [parse_parts]. destruct (fold_records f rs); [apply IH|done].
Qed.

Lemma journal_tail_parts fuel t lines ops used : journal_tail fuel t lines ops used = journal_parts (parts fuel t lines) ops used.
Proof.
  revert lines ops used. induction fuel as [|fuel IH]; intros lines ops used; [done|]. destruct lines as [|l lines]; [done|].
  cbn [journal_tail parts]. destruct (negb (is_begin l)); cbn [journal_parts]; [done|].
  destruct (read_batch _ _ _ _) as [[[rs e]|] rest]; [|done]. cbn [journal_parts].
  destruct (journal_ops rs) as [[ops'|]|]; [apply IH|done..].
Qed.

Lemma read_batch_rest t b rs lines o rest : read_batch t b rs lines = (o, rest) -> (length rest <= length lines)%nat.
Proof.
  revert rs. induction lines as [|l lines IH]; intros rs; cbn [read_batch]; [by intros [= <- <-]|].
  destruct (negb (l_whole l)); [intros [= <- <-]; cbn; lia|].
  destruct (strip_prefix _ _); [intros [= <- <-]; cbn; lia|]. intros H. apply IH in H. cbn. lia.
Qed.

(** As many turns as there are lines are enough. *)
Lemma parts_fuel fuel fuel' t lines :
  (length lines <= fuel)%nat -> (length lines <= fuel')%nat -> parts fuel t lines = parts fuel' t lines.
Proof.
  revert fuel' lines. induction fuel as [|fuel IH]; intros [|fuel'] [|l lines] H H'; cbn [length] in *; try done; try lia.
  cbn [parts]. destruct (negb (is_begin l)); [f_equal; apply IH; lia|].
  destruct (read_batch _ _ _ _) as [[[rs e]|] rest] eqn:E; [|done]. apply read_batch_rest in E. f_equal. apply IH; lia.
Qed.

Definition parts_of (t : bytes) (lines : list Line) : list Part := parts (length lines) t lines.

Lemma parts_of_cons t l lines :
  parts_of t (l :: lines) =
  if negb (is_begin l) then Single l :: parts_of t lines
  else match read_batch t (l_end l) [] lines with
       | (Some (rs, end_), lines) => Batch rs end_ :: parts_of t lines
       | (None, lines) => [Bad l (existsb is_begin lines)]
       end.
Proof.
  unfold parts_of. cbn [length parts]. destruct (negb (is_begin l)); [done|].
  destruct (read_batch _ _ _ _) as [[[rs e]|] rest] eqn:E; [|done]. apply read_batch_rest in E.
  f_equal. apply parts_fuel; lia.
Qed.

Lemma lines_ind (P : list Line -> Prop) :
  P [] -> (forall l lines, (forall rest, (length rest <= length lines)%nat -> P rest) -> P (l :: lines)) -> forall lines, P lines.
Proof.
  intros H0 H1 lines. induction lines as [[|l lines] IH] using (induction_ltof1 _ (@length _)); [done|].
  apply H1. intros rest Hr. apply IH. unfold ltof. cbn. lia.
Qed.

(** ** The parts of a text in two parts *)

Lemma slice_app_l {A} (t x : list A) i j : (j <= length t)%nat -> slice (t ++ x) i j = slice t i j.
Proof.
  intros H. unfold slice. destruct (decide (i <= length t)%nat).
  - rewrite drop_app_le by done. rewrite take_app_le; [done|]. rewrite length_drop. lia.
  - replace (j - i)%nat with 0%nat by lia. done.
Qed.

Lemma slice_app_r {A} (t x : list A) i j : slice (t ++ x) (length t + i) (length t + j) = slice x i j.
Proof. unfold slice. rewrite drop_app_ge by lia. f_equal; [lia|]. f_equal. lia. Qed.

Lemma read_batch_app t x b rs lines more at_ stop v rest :
  laid at_ lines stop -> (stop <= length t)%nat -> read_batch t b rs lines = (Some v, rest) ->
  read_batch (t ++ x) b rs (lines ++ more) = (Some v, rest ++ more) /\ laid (snd v) rest stop.
Proof.
  revert at_ rs. induction lines as [|l lines IH]; intros at_ rs Hl Hs; [done|]. cbn [app read_batch].
  destruct Hl as (Ha & Hlt & Hl). pose proof (laid_le _ _ _ Hl). destruct (negb (l_whole l)); [done|].
  destruct (strip_prefix JOURNAL_END (l_text l)) as [crc|].
  - rewrite slice_app_l by lia. destruct (bool_decide _); [|done]. by intros [= <- <-].
  - intros E. by apply IH with (at_ := l_end l).
Qed.

Definition shift_found (n : Z) (d : nat) (v : list Line * nat) : list Line * nat := (map (shift n d) v.1, (d + v.2)%nat).

Lemma read_batch_shift t x n b rs lines :
  read_batch (t ++ x) (length t + b) (map (shift n (length t)) rs) (map (shift n (length t)) lines) =
  (shift_found n (length t) <$> (read_batch x b rs lines).1, map (shift n (length t)) (read_batch x b rs lines).2).
Proof.
  revert rs. induction lines as [|l lines IH]; intros rs; [done|]. cbn [map read_batch].
  destruct l as [w no s e whole]. cbn [shift l_text l_no l_start l_end l_whole]. destruct (negb whole); [done|].
  destruct (strip_prefix JOURNAL_END w) as [crc|].
  - rewrite slice_app_r. by destruct (bool_decide _).
  - rewrite <- IH. f_equal. by rewrite map_app.
Qed.

Definition is_bad (p : Part) : bool := match p with Bad _ _ => true | _ => false end.

Lemma parts_of_app t x lines more at_ stop :
  laid at_ lines stop -> (stop <= length t)%nat -> existsb is_bad (parts_of t lines) = false ->
  parts_of (t ++ x) (lines ++ more) = parts_of t lines ++ parts_of (t ++ x) more.
Proof.
  revert at_. induction lines as [|l lines IH] using lines_ind; intros at_ Hl Hs; [done|]. cbn [app].
  destruct Hl as (_ & _ & Hl). rewrite !parts_of_cons. destruct (negb (is_begin l)); cbn [existsb is_bad orb app].
  - intros Hb. f_equal. by apply IH with (at_ := l_end l).
  - destruct (read_batch t _ _ lines) as [[v|] rest] eqn:E; [|done].
    pose proof (read_batch_rest _ _ _ _ _ _ E). apply read_batch_app with (x := x) (more := more) (at_ := l_end l) (stop := stop) in E as [-> Hr]; [|done..].
    destruct v as [rs e]. cbn [existsb is_bad orb app]. intros Hb. f_equal. by apply IH with (at_ := e).
Qed.

Definition shift_part (n : Z) (d : nat) (p : Part) : Part :=
  match p with
  | Single l => Single (shift n d l)
  | Batch rs e => Batch (map (shift n d) rs) (d + e)
  | Bad l later => Bad (shift n d l) later
  end.

Lemma parts_of_shift t x n lines :
  parts_of (t ++ x) (map (shift n (length t)) lines) = map (shift_part n (length t)) (parts_of x lines).
Proof.
  induction lines as [|l lines IH] using lines_ind; [done|]. cbn [map]. rewrite !parts_of_cons.
  change (is_begin (shift n (length t) l)) with (is_begin l). destruct (negb (is_begin l)); [cbn [map]; f_equal; by apply IH|].
  change (l_end (shift n (length t) l)) with (length t + l_end l)%nat.
  pose proof (read_batch_shift t x n (l_end l) [] lines) as Eb. cbn [map] in Eb. rewrite Eb. clear Eb.
  destruct (read_batch x _ _ lines) as [[[rs e]|] rest] eqn:E; cbn [fst snd fmap option_fmap option_map map shift_part].
  - cbn [shift_found fst snd]. f_equal. apply read_batch_rest in E. by apply IH.
  - f_equal. f_equal. clear. induction rest as [|r rest IH]; [done|]. cbn [map existsb]. by rewrite IH.
Qed.

(** Nothing is bad in a file that was applied to its end. *)
Lemma applied_good t lines at_ f a f' :
  laid at_ lines (length t) -> parse_parts (parts_of t lines) f a = Ok (f', length t) -> existsb is_bad (parts_of t lines) = false.
Proof.
  revert at_ f a. induction lines as [|l lines IH] using lines_ind; intros at_ f a Hl; [done|].
  destruct Hl as (Ha & Hlt & Hl). pose proof (laid_le _ _ _ Hl). rewrite parts_of_cons.
  destruct (negb (is_begin l)); cbn [existsb is_bad orb parse_parts].
  - destruct (fold_record f l); [|done]. intros E. by eapply IH with (at_ := l_end l).
  - destruct (read_batch t _ _ lines) as [[v|] rest] eqn:E; cbn [existsb is_bad orb parse_parts].
    + pose proof (read_batch_rest _ _ _ _ _ _ E).
      apply read_batch_app with (x := []) (more := []) (at_ := l_end l) (stop := length t) in E as [_ Hr]; [|done..].
      destruct v as [rs e]. cbn [existsb is_bad orb parse_parts]. destruct (fold_records f rs); [|done].
      intros E'. by eapply IH with (at_ := e).
    + destruct (existsb is_begin rest); [done|]. intros [= _ ?]. lia.
Qed.

Lemma parse_parts_app ps qs f a :
  existsb is_bad ps = false -> parse_parts (ps ++ qs) f a = let? (f, a) := parse_parts ps f a in parse_parts qs f a.
Proof.
  revert f a. induction ps as [|p ps IH]; intros f a; [done|]. destruct p as [l|rs e|l later]; cbn [app parse_parts existsb is_bad orb].
  - intros H. destruct (fold_record f l); [by apply IH|done].
  - intros H. destruct (fold_records f rs); [by apply IH|done].
  - done.
Qed.

(** ** The number of a line is only for messages *)

Create HintDb numbered.

Section Numbered.
Context (n m : Z).

(** What a reader gives with one number it gives with another. *)
Definition agree {A} (r s : res A) : Prop := forall a, r = Ok a -> s = Ok a.


Lemma agree_bind {A B} (r s : res A) (k l : A -> res B) :
  agree r s -> (forall a, agree (k a) (l a)) -> agree (let? a := r in k a) (let? a := s in l a).
Proof. intros H Hk b. destruct r as [a|]; [|done]. rewrite (H a eq_refl). apply Hk. Qed.

Lemma agree_refl {A} (r : res A) : agree r r.
Proof. by intros a. Qed.

Lemma agree_err {A} e (s : res A) : agree (Err e) s.
Proof. by intros a. Qed.

Lemma agree_if {A} (c : bool) (r s r' s' : res A) : agree r s -> agree r' s' -> agree (if c then r else r') (if c then s else s').
Proof. by destruct c. Qed.

Lemma agree_or_bad {A} msg (r s : res A) : agree r s -> agree (or_bad n msg r) (or_bad m msg s).
Proof. intros H a. unfold or_bad. destruct r as [x|]; [|done]. intros [= ->]. by rewrite (H a eq_refl). Qed.

Lemma agree_times {A} e e' fuel (rd rd' : list bytes -> res (A * list bytes)) k f :
  (forall f, agree (rd f) (rd' f)) -> agree (times e fuel rd k f) (times e' fuel rd' k f).
Proof.
  intros H. revert k f. induction fuel as [|fuel IH]; intros k f; cbn [times]; apply agree_if; try apply agree_refl; try apply agree_err.
  apply agree_bind; [apply H|]. intros [a c]. apply agree_bind; [apply IH|]. intros [l c']. apply agree_refl.
Qed.

Lemma agree_repeat {A} k (rd rd' : list bytes -> res (A * list bytes)) f :
  (forall f, agree (rd f) (rd' f)) -> agree (repeat_n k rd f) (repeat_n k rd' f).
Proof.
  intros H. revert f. induction k as [|k IH]; intros f; cbn [repeat_n]; [apply agree_refl|].
  apply agree_bind; [apply H|]. intros [a c]. apply agree_bind; [apply IH|]. intros [l c']. apply agree_refl.
Qed.

End Numbered.

#[export] Hint Resolve agree_refl agree_err : numbered.

(** Agreement of two readings, step by step. *)
Ltac numbered :=
  repeat first
    [ assumption | solve [auto 2 with numbered nocore]
    | match goal with
      | |- forall _, _ => intros ?
      | x : (_ * _)%type |- _ => destruct x
      | |- agree (match ?o with Some _ => _ | None => _ end) _ => destruct o
      end
    | apply agree_or_bad | apply agree_times | apply agree_repeat | apply agree_if | apply agree_bind ].

Section NumberedReaders.
Context (n m : Z).

Lemma c_take_numbered f : agree (c_take n f) (c_take m f).
Proof. destruct f; [apply agree_err|apply agree_refl]. Qed.
#[local] Hint Resolve c_take_numbered : numbered.

Lemma c_u32_numbered f : agree (c_u32 n f) (c_u32 m f).
Proof. unfold c_u32. numbered. Qed.
#[local] Hint Resolve c_u32_numbered : numbered.

Lemma c_i32_numbered f : agree (c_i32 n f) (c_i32 m f).
Proof. unfold c_i32. numbered. Qed.
#[local] Hint Resolve c_i32_numbered : numbered.

Lemma c_hex_numbered k f : agree (c_hex n k f) (c_hex m k f).
Proof. unfold c_hex. numbered. Qed.
#[local] Hint Resolve c_hex_numbered : numbered.

Lemma typed_blob_numbered h c f : agree (typed_blob n h c f) (typed_blob m h c f).
Proof. unfold typed_blob, typed_len, c_usize. numbered. Qed.
#[local] Hint Resolve typed_blob_numbered : numbered.

Lemma parse_key_numbered f : agree (parse_key n f) (parse_key m f).
Proof. unfold parse_key, parse_slot. numbered. Qed.
#[local] Hint Resolve parse_key_numbered : numbered.

Lemma parse_name_numbered k f : agree (parse_name n k f) (parse_name m k f).
Proof. unfold parse_name. destruct f as [|w f]; cbn [c_take]; numbered. Qed.
#[local] Hint Resolve parse_name_numbered : numbered.

Lemma c_finish_numbered f : agree (c_finish n f) (c_finish m f).
Proof. destruct f; cbn [c_finish]; numbered. Qed.
#[local] Hint Resolve c_finish_numbered : numbered.

Lemma parse_princ_line_numbered r : agree (parse_princ_line n r) (parse_princ_line m r).
Proof.
  unfold parse_princ_line, parse_sizes, parse_attrs, parse_tl, c_usize. numbered.
  repeat match goal with |- agree (match ?l with _ => _ end) _ => destruct l; [numbered|] end. numbered.
Qed.

End NumberedReaders.

(** ** What a batch does *)

Definition rid_of (p : DumpPrincipal) : Z := match parse_sid_tl (d_tl_data p) with Ok (_, rid) => rid | Err _ => 0 end.

(** A record whose security identifier is not readable is refused. *)
Definition sid_ok (op : JournalOp) : bool := match op with JPut p => is_ok (parse_sid_tl (d_tl_data p)) | JDel _ => true end.

Definition fold_op (f : Fold) (op : JournalOp) : Fold :=
  match op with JPut p => put_princ p (rid_of p) f | JDel name => del_princ name f end.

Lemma strip_prefix_inv p s r : strip_prefix p s = Some r -> s = p ++ r.
Proof. unfold strip_prefix. case_bool_decide as E; [|done]. intros [= <-]. by rewrite <- E at 1; rewrite take_drop. Qed.

Lemma fold_record_op n d f l ops :
  journal_op l = Ok (Some ops) -> forallb sid_ok ops = true -> fold_record f (shift n d l) = Ok (fold_left fold_op ops f).
Proof.
  unfold journal_op, fold_record. cbn [shift l_text l_no]. destruct (strip_prefix PRINC (l_text l)) as [r|] eqn:Ep.
  - destruct (parse_princ_line (l_no l) r) as [p|] eqn:E; [|done]. intros [= <-] Hs. cbn [forallb sid_ok andb] in Hs.
    rewrite andb_true_r in Hs. rewrite (parse_princ_line_numbered _ (n + l_no l) _ _ E).
    apply strip_prefix_inv in Ep. rewrite Ep. cbn [fold_left fold_op]. unfold rid_of. by destruct (parse_sid_tl _) as [[??]|].
  - destruct (strip_prefix JOURNAL_DEL (l_text l)) as [name|] eqn:Ed.
    + intros [= <-] _. apply strip_prefix_inv in Ed. by rewrite Ed.
    + case_bool_decide; [|done]. by intros [= <-].
Qed.

Lemma fold_records_ops n d f rs ops :
  journal_ops rs = Ok (Some ops) -> forallb sid_ok ops = true ->
  fold_records f (map (shift n d) rs) = Ok (fold_left fold_op ops f).
Proof.
  revert f ops. induction rs as [|l rs IH]; intros f ops; [by intros [= <-]|]. cbn [journal_ops map fold_records].
  destruct (journal_op l) as [[o|]|] eqn:El; [|done..]. destruct (journal_ops rs) as [[o'|]|]; [|done..].
  cbn [mbind option_bind]. intros [= <-]. rewrite forallb_app. intros [Ho Ho']%andb_true_iff.
  rewrite (fold_record_op n d f l o), (IH _ o') by done. by rewrite fold_left_app.
Qed.

Lemma tail_parts x n d lines ops used stop ops' used' :
  laid used lines stop -> (stop <= length x)%nat -> journal_parts (parts_of x lines) ops used = Ok (Some (ops', used')) ->
  exists more, ops' = ops ++ more /\ forall f a, forallb sid_ok more = true -> (lines = [] -> a = (d + used)%nat) ->
    parse_parts (map (shift_part n d) (parts_of x lines)) f a = Ok (fold_left fold_op more f, (d + used')%nat).
Proof.
  revert ops used. induction lines as [|l lines IH] using lines_ind; intros ops used Hl Hs.
  { intros [= <- <-]. exists []. rewrite app_nil_r. split; [done|]. intros f a _ Ha. by rewrite <- Ha. }
  rewrite parts_of_cons. destruct (negb (is_begin l)); [done|]. destruct Hl as (Ha & _ & Hl).
  destruct (read_batch x _ _ lines) as [[[rs e]|] rest] eqn:E; cbn [journal_parts].
  - destruct (journal_ops rs) as [[o|]|] eqn:Eo; [|done..]. intros Ej.
    pose proof (read_batch_rest _ _ _ _ _ _ E) as Hr.
    apply read_batch_app with (x := []) (more := []) (at_ := l_end l) (stop := stop) in E as [_ Hl']; [|done..].
    apply (IH rest Hr) in Ej as (more & -> & H); [|done..]. exists (o ++ more). split; [by rewrite app_assoc|].
    intros f a. rewrite forallb_app. intros [Ho Hm]%andb_true_iff _. cbn [map shift_part parse_parts].
    rewrite (fold_records_ops n d f rs o) by done. rewrite H by done. by rewrite fold_left_app.
  - destruct (existsb is_begin rest); [done|]. intros [= <- <-]. exists []. rewrite app_nil_r. split; [done|].
    intros f a _ _. cbn [map shift_part parse_parts fold_left]. by rewrite <- Ha.
Qed.

(** ** The database a file holds *)

Definition by_name (l : list DumpPrincipal) : gmap bytes DumpPrincipal := list_to_map (map (fun p => (d_name p, p)) l).

Definition database (d : DumpFile) : gmap bytes DumpPrincipal := by_name (princs d).

Definition apply_op (db : gmap bytes DumpPrincipal) (op : JournalOp) : gmap bytes DumpPrincipal :=
  match op with JPut p => <[d_name p := p]> db | JDel name => delete name db end.

(** The index has each principal's place, and no name has two. *)
Definition indexed (f : Fold) : Prop :=
  forall name i, princ_at f !! name = Some i <-> exists p, f_princs f !! i = Some (Some p) /\ d_name p = name.

Definition held (f : Fold) : gmap bytes DumpPrincipal := by_name (omap id (f_princs f)).

Lemma by_name_inv l name p : by_name l !! name = Some p -> p ∈ l /\ d_name p = name.
Proof.
  unfold by_name. intros H%elem_of_list_to_map_2. apply list_elem_of_In, in_map_iff in H as (q & [= <- <-] & Hq).
  split; [by apply list_elem_of_In|done].
Qed.

Lemma by_name_in l p : (forall q, q ∈ l -> d_name q = d_name p -> q = p) -> p ∈ l -> by_name l !! d_name p = Some p.
Proof.
  intros Hu Hp. apply elem_of_list_to_map_1'.
  - intros y Hy. apply list_elem_of_In, in_map_iff in Hy as (q & [= E ->] & Hq). symmetry. apply Hu; [by apply list_elem_of_In|done].
  - apply list_elem_of_In, in_map_iff. exists p. split; [done|by apply list_elem_of_In].
Qed.

Lemma elem_of_held (l : list (option DumpPrincipal)) p : p ∈ omap id l <-> exists i, l !! i = Some (Some p).
Proof.
  rewrite list_elem_of_omap. split.
  - intros (o & Ho & E). apply list_elem_of_lookup in Ho as [i Hi]. exists i. by rewrite Hi, <- E.
  - intros [i Hi]. exists (Some p). split; [by eapply list_elem_of_lookup_2|done].
Qed.

Lemma held_spec f name p :
  indexed f -> held f !! name = Some p <-> exists i, f_princs f !! i = Some (Some p) /\ d_name p = name.
Proof.
  intros I. unfold held. split.
  - intros [H E]%by_name_inv. apply elem_of_held in H as [i Hi]. by exists i.
  - intros (i & Hi & <-). apply by_name_in; [|apply elem_of_held; by exists i].
    intros q [j Hj]%elem_of_held E.
    assert (princ_at f !! d_name p = Some i) as H1 by (apply I; by exists p).
    assert (princ_at f !! d_name p = Some j) as H2 by (apply I; by exists q). congruence.
Qed.

Lemma held_at f name : indexed f -> held f !! name = (i ← princ_at f !! name; mjoin (f_princs f !! i)).
Proof.
  intros I. apply option_eq. intros p. rewrite held_spec by done. split.
  - intros (i & Hi & E). rewrite (proj2 (I name i)) by (by exists p). cbn. by rewrite Hi.
  - destruct (princ_at f !! name) as [i|] eqn:E; [|done]. cbn. apply I in E as (q & Hq & E). rewrite Hq. intros [= ->]. by exists i.
Qed.

Lemma put_indexed p r f : indexed f -> indexed (put_princ p r f).
Proof.
  intros I name i. unfold put_princ, put_last. destruct (princ_at f !! d_name p) as [j|] eqn:Ej; cbn [princ_at f_princs].
  - pose proof (proj1 (I _ _) Ej) as (q & Hq & Eq). pose proof (lookup_lt_Some _ _ _ Hq) as Hlt.
    destruct (decide (i = j)) as [->|Hij].
    + rewrite list_lookup_insert_eq by done. split.
      * intros H%I. destruct H as (q' & Hq' & <-). exists p. split; [done|]. congruence.
      * intros (p' & [= <-] & <-). done.
    + rewrite list_lookup_insert_ne by done. apply I.
  - assert (forall k q, f_princs f !! k = Some (Some q) -> d_name q <> d_name p) as Hn.
    { intros k q Hk E. rewrite (proj2 (I (d_name p) k)) in Ej; [done|by exists q]. }
    destruct (decide (name = d_name p)) as [->|Hne].
    + rewrite lookup_insert_eq. split.
      * intros [= <-]. exists p. by rewrite list_lookup_middle.
      * intros (q & Hq & E). apply lookup_app_Some in Hq as [Hq|[Hq1 Hq2]]; [by apply Hn in Hq|].
        f_equal. apply list_lookup_singleton_Some in Hq2 as [? _]. lia.
    + rewrite lookup_insert_ne by done. rewrite (I name i). split; intros (q & Hq & E); exists q; (split; [|done]).
      * by apply lookup_app_l_Some.
      * apply lookup_app_Some in Hq as [Hq|[_ Hq]]; [done|]. apply list_lookup_singleton_Some in Hq as [_ [= ->]]. done.
Qed.

Lemma del_indexed name f : indexed f -> indexed (del_princ name f).
Proof.
  intros I name' i. unfold del_princ. destruct (princ_at f !! name) as [j|] eqn:Ej; [|apply I]. cbn [princ_at f_princs].
  pose proof (proj1 (I _ _) Ej) as (q & Hq & Eq). pose proof (lookup_lt_Some _ _ _ Hq) as Hlt.
  destruct (decide (name' = name)) as [->|Hne].
  - rewrite lookup_delete_eq. split; [done|]. intros (p & Hp & E). destruct (decide (i = j)) as [->|Hij].
    + by rewrite list_lookup_insert_eq in Hp.
    + rewrite list_lookup_insert_ne in Hp by done. rewrite (proj2 (I name i)) in Ej by (by exists p). congruence.
  - rewrite lookup_delete_ne by done. rewrite (I name' i). destruct (decide (i = j)) as [->|Hij].
    + rewrite list_lookup_insert_eq by done. split; intros (p & Hp & E); congruence.
    + by rewrite list_lookup_insert_ne.
Qed.

Lemma held_put p r f : indexed f -> held (put_princ p r f) = <[d_name p := p]> (held f).
Proof.
  intros I. apply map_eq. intros name. rewrite held_at by (by apply put_indexed).
  unfold put_princ, put_last. destruct (princ_at f !! d_name p) as [j|] eqn:Ej; cbn [princ_at f_princs].
  - pose proof (proj1 (I _ _) Ej) as (q & Hq & _). destruct (decide (name = d_name p)) as [->|Hne].
    + rewrite lookup_insert_eq, Ej. cbn. by rewrite list_lookup_insert_eq by (by eapply lookup_lt_Some).
    + rewrite lookup_insert_ne, held_at by done. destruct (princ_at f !! name) as [i|] eqn:Ei; [|done]. cbn.
      rewrite list_lookup_insert_ne; [done|]. intros ->. apply I in Ei as (q' & Hq' & <-). apply I in Ej as (q2 & H2 & E2).
      congruence.
  - destruct (decide (name = d_name p)) as [->|Hne].
    + rewrite !lookup_insert_eq. cbn. by rewrite list_lookup_middle.
    + rewrite !lookup_insert_ne, held_at by done. destruct (princ_at f !! name) as [i|] eqn:Ei; [|done]. cbn.
      apply I in Ei as (q & Hq & _). by rewrite Hq, (lookup_app_l_Some _ _ _ _ Hq).
Qed.

Lemma held_del name f : indexed f -> held (del_princ name f) = delete name (held f).
Proof.
  intros I. apply map_eq. intros name'. rewrite held_at by (by apply del_indexed).
  unfold del_princ. destruct (princ_at f !! name) as [j|] eqn:Ej; cbn [princ_at f_princs].
  - destruct (decide (name' = name)) as [->|Hne]; [by rewrite !lookup_delete_eq|].
    rewrite !lookup_delete_ne, held_at by done. destruct (princ_at f !! name') as [i|] eqn:Ei; [|done]. cbn.
    rewrite list_lookup_insert_ne; [done|]. intros ->. apply I in Ei as (q' & Hq' & <-). apply I in Ej as (q2 & H2 & E2).
    congruence.
  - rewrite <- held_at by done. destruct (decide (name' = name)) as [->|Hne]; [|by rewrite lookup_delete_ne].
    rewrite lookup_delete_eq, held_at by done. by rewrite Ej.
Qed.

Lemma fold_ops ops f (f' := fold_left fold_op ops f) :
  indexed f ->
  indexed f' /\ held f' = fold_left apply_op ops (held f) /\ f_policies f' = f_policies f /\
  f_records f' = f_records f + Z.of_nat (length ops).
Proof.
  subst f'. revert f. induction ops as [|op ops IH]; intros f I; cbn [fold_left length].
  { split; [done|]. split; [done|]. split; [done|lia]. }
  assert (indexed (fold_op f op) /\ held (fold_op f op) = apply_op (held f) op /\
    f_policies (fold_op f op) = f_policies f /\ f_records (fold_op f op) = f_records f + 1) as (I1 & E1 & E2 & E3).
  { destruct op as [p|name]; cbn [fold_op apply_op].
    - split; [by apply put_indexed|]. split; [by apply held_put|]. unfold put_princ. by destruct (put_last _ _ _ _).
    - split; [by apply del_indexed|]. split; [by apply held_del|]. unfold del_princ. by destruct (princ_at f !! name). }
  destruct (IH _ I1) as (I2 & H1 & H2 & H3). rewrite <- E1, <- E2.
  split; [done|]. split; [done|]. split; [done|lia].
Qed.

Lemma fold_record_indexed f l f' : fold_record f l = Ok f' -> indexed f -> indexed f'.
Proof.
  unfold fold_record. case_bool_decide; [by intros [= <-]|]. destruct (strip_prefix POLICY _) as [r|].
  { intros [= <-] I. unfold put_policy. destruct (put_last _ _ _ _). apply I. }
  destruct (strip_prefix PRINC _) as [r|].
  { destruct (parse_princ_line _ _) as [p|]; [|done]. destruct (parse_sid_tl _) as [[??]|]; [|done]. intros [= <-]. apply put_indexed. }
  destruct (strip_prefix JOURNAL_DEL _) as [name|]; [|done]. intros [= <-]. apply del_indexed.
Qed.

Lemma fold_records_indexed rs f f' : fold_records f rs = Ok f' -> indexed f -> indexed f'.
Proof.
  revert f. induction rs as [|l rs IH]; intros f; cbn [fold_records]; [by intros [= <-]|].
  destruct (fold_record f l) as [f1|] eqn:E; [|done]. intros H I. eapply IH; [done|]. by eapply fold_record_indexed.
Qed.

Lemma parse_parts_indexed ps f a f' a' : parse_parts ps f a = Ok (f', a') -> indexed f -> indexed f'.
Proof.
  revert f a. induction ps as [|[l|rs e|l later] ps IH]; intros f a; cbn [parse_parts]; [by intros [= <- _]|..].
  - destruct (fold_record f l) as [f1|] eqn:E; [|done]. intros H I. eapply IH; [done|]. by eapply fold_record_indexed.
  - destruct (fold_records f rs) as [f1|] eqn:E; [|done]. intros H I. eapply IH; [done|]. by eapply fold_records_indexed.
  - destruct later; [done|]. by intros [= <- _].
Qed.

Lemma parse_parts_applied ps f a b f' a' :
  parse_parts ps f a = Ok (f', a') -> exists b', parse_parts ps f b = Ok (f', b') /\ (b = a -> b' = a').
Proof.
  revert f. induction ps as [|[l|rs e|l later] ps IH]; intros f; cbn [parse_parts].
  - intros [= <- <-]. by exists b.
  - destruct (fold_record f l) as [f1|]; [|done]. apply IH.
  - destruct (fold_records f rs) as [f1|]; [|done]. intros ->. by exists a'.
  - destruct later; [done|]. intros [= <- <-]. by exists (l_start l).
Qed.

Lemma empty_indexed : indexed empty_fold.
Proof. intros name i. cbn. rewrite lookup_empty. split; [done|]. intros (p & Hp & _). by rewrite lookup_nil in Hp. Qed.

Lemma text_lines_nil t : text_lines t = [] -> t = [].
Proof. unfold text_lines. intros H. apply raw_lines_nil. by destruct (raw_lines t) as [|[w b] r]. Qed.

(** A file that was read to its end, with a journal after it. *)
Lemma parse_dump_app t x F ops used :
  ended t -> parse_dump t = Ok F -> applied_len F = length t ->
  parse_journal_tail x = Ok (Some (ops, used)) -> forallb sid_ok ops = true ->
  exists F', parse_dump (t ++ x) = Ok F' /\ version F' = version F /\
    database F' = fold_left apply_op ops (database F) /\ policies F' = policies F /\
    records F' = records F + Z.of_nat (length ops) /\ applied_len F' = (length t + used)%nat.
Proof.
  intros Ht EF Ha Ej Hs. unfold parse_dump in *. destruct (text_lines_app t x Ht) as [n En]. rewrite En.
  pose proof (text_lines_laid t) as Hl. pose proof (text_lines_laid x) as Hlx.
  destruct (text_lines t) as [|h lines]; [done|]. cbn [app]. destruct (parse_header (l_text h)) as [v|]; [|done].
  rewrite parse_lines_parts in *. fold (parts_of t lines) in EF.
  fold (parts_of (t ++ x) (lines ++ map (shift n (length t)) (text_lines x))).
  destruct (parse_parts (parts_of t lines) _ _) as [[f a]|] eqn:Ef; [|done]. injection EF as <-. cbn [applied_len] in Ha. subst a.
  destruct Hl as (_ & _ & Hl). pose proof (applied_good _ _ _ _ _ _ Hl Ef) as Hgood.
  rewrite (parts_of_app t x _ _ (l_end h) (length t)) by done. rewrite parts_of_shift, parse_parts_app by done.
  destruct (parse_parts_applied _ _ _ (length (t ++ x)) _ _ Ef) as (b & -> & Hb).
  unfold parse_journal_tail in Ej. rewrite journal_tail_parts in Ej. fold (parts_of x (text_lines x)) in Ej.
  destruct (tail_parts x n (length t) _ _ _ _ _ _ Hlx (Nat.le_refl _) Ej) as (more & Eo & Hm). cbn [app] in Eo. subst more.
  rewrite Hm; [|done|].
  - destruct (fold_ops ops f) as (_ & H1 & H2 & H3); [by eapply parse_parts_indexed; [exact Ef|apply empty_indexed]|].
    eexists. split; [done|]. unfold database, policies, records. cbn. rewrite H2, H3. repeat split. exact H1.
  - intros Hx%text_lines_nil. subst x. rewrite app_nil_r in Hb. rewrite Nat.add_0_r. by apply Hb.
Qed.

(** ** The text of a change *)

Definition op_line (op : JournalOp) : bytes := match op with JPut p => record p | JDel name => JOURNAL_DEL ++ name end.

Definition line_of (w : bytes) : bytes := w ++ [LF].

Definition body_of (ops : list JournalOp) : bytes := flat_map (fun op => line_of (op_line op)) ops.

Definition batch (ops : list JournalOp) : bytes := frame (body_of ops).

(** A change that can be written: its names are on one line, and the line does not
    end as a line of another system does. *)
Definition wf_op (op : JournalOp) : Prop :=
  match op with
  | JPut p => wf_dump p /\ ~ In LF (d_name p)
  | JDel name => ~ In LF name /\ list.last name <> Some x0d
  end.

Lemma in_tabbed c fs : c <> TAB -> Forall (fun f => ~ In c f) fs -> ~ In c (tabbed fs).
Proof.
  intros Hc Hf. induction Hf as [|f fs Hf _ IH]; [intros []|]. cbn [tabbed flat_map]. rewrite !in_app_iff.
  intros [[[E|[]]|?]|?]; [by symmetry in E|done..].
Qed.

Lemma record_one_line p : ~ In LF (d_name p) -> ~ In LF (record p).
Proof.
  intros Hn. rewrite record_tabbed, in_app_iff. intros [H|H]; [cbn in H; intuition discriminate|].
  revert H. apply in_tabbed; [done|]. pose proof (body_free p LF eq_refl Hn) as Hf. apply Forall_app in Hf as [Hb He].
  apply Forall_app. split; [done|]. apply Forall_cons_iff in He as [He _]. constructor; [|constructor].
  rewrite in_app_iff. intros [?|H]; [done|]. cbn in H. intuition discriminate.
Qed.

Lemma record_last p : list.last (record p) = Some x3b.
Proof. unfold record. rewrite !app_assoc. change (text ";") with [x3b]. apply last_snoc. Qed.

Lemma op_one_line op : wf_op op -> ~ In LF (op_line op).
Proof.
  destruct op as [p|name]; cbn [wf_op op_line]; intros [H H']; [by apply record_one_line|]. rewrite in_app_iff.
  intros [Hi|?]; [cbn in Hi; intuition discriminate|done].
Qed.

Lemma last_app_ne {A} (a b : list A) : b <> [] -> list.last (a ++ b) = list.last b.
Proof. intros Hb. destruct b as [|x b] using rev_ind; [done|]. by rewrite app_assoc, !last_snoc. Qed.

Lemma op_no_cr op : wf_op op -> without_last x0d (op_line op) = op_line op.
Proof.
  intros H. unfold without_last. rewrite bool_decide_false; [done|]. destruct op as [p|name]; cbn [op_line].
  - by rewrite record_last.
  - destruct H as [_ H]. destruct name as [|c name]; [done|]. by rewrite last_app_ne.
Qed.

Lemma op_not_end op : strip_prefix JOURNAL_END (op_line op) = None.
Proof.
  destruct (strip_prefix JOURNAL_END (op_line op)) as [r|] eqn:E; [|done]. apply strip_prefix_inv in E.
  destruct op as [p|name]; cbn [op_line] in E; [rewrite record_rest in E|]; discriminate E.
Qed.

Lemma journal_op_line op no s e : wf_op op -> journal_op (mkLine (op_line op) no s e true) = Ok (Some [op]).
Proof.
  intros H. unfold journal_op. cbn [l_text l_no]. destruct op as [p|name]; cbn [op_line].
  - rewrite record_rest, strip_prefix_app. destruct H as [W _]. by rewrite parse_rest.
  - rewrite strip_prefix_app. by destruct (strip_prefix PRINC _) as [r|] eqn:E; [apply strip_prefix_inv in E; discriminate E|].
Qed.

Definition end_line (body : bytes) : bytes := JOURNAL_END ++ LockoutFile.hex_fixed 8 (LockoutFile.crc32 body).

Lemma hex_digit_val_hex b : LockoutFile.is_hex b = true -> hex_digit_val b = LockoutFile.hex_val b.
Proof. by destruct b. Qed.

Lemma hex_digits_value s acc :
  forallb LockoutFile.is_hex s = true ->
  fold_left (fun acc b => acc * 16 + hex_digit_val b) s acc = fold_left (fun acc b => acc * 16 + LockoutFile.hex_val b) s acc.
Proof.
  revert acc. induction s as [|b s IH]; intros acc; [done|]. cbn [forallb fold_left]. intros [Hb Hs]%andb_true_iff.
  by rewrite hex_digit_val_hex, IH.
Qed.

Lemma parse_hex_fixed n : is_u32 n -> parse_hex_u32 (LockoutFile.hex_fixed 8 n) = Some n.
Proof.
  intros Hn. destruct (LockoutFile.hex_fixed_spec 8 n) as [Hh Hv]; [unfold is_u32 in Hn; lia|].
  pose proof (LockoutFile.length_hex_fixed 8 n) as Hl. destruct (LockoutFile.hex_fixed 8 n) as [|c s]; [done|].
  assert (from_hex_digits (c :: s) = Some n) as E.
  { unfold from_hex_digits. replace (forallb Ascii.is_ascii_hexdigit (c :: s)) with true.
    - cbn [negb]. rewrite hex_digits_value, Hv by done. change (16 ^ Z.of_nat 8) with (2 ^ 32).
      unfold is_u32, U32_MAX in *. rewrite Z.mod_small by lia. by rewrite (proj2 (Z.leb_le _ _)) by lia.
    - symmetry. apply forallb_forall. intros b Hb. apply is_hex_hexdigit. by apply forallb_forall with (x := b) in Hh. }
  cbn [forallb] in Hh. apply andb_prop in Hh as [Hc _]. by destruct c.
Qed.

(** ** The lines of a change *)

Definition partial (p : bytes) : list (bytes * bool) := match p with [] => [] | _ => [(p, false)] end.

Lemma raw_lines_line w rest : ~ In LF w -> raw_lines (line_of w ++ rest) = (w, true) :: raw_lines rest.
Proof.
  unfold line_of. rewrite <- app_assoc. induction w as [|c w IH]; intros Hw; cbn [app raw_lines]; [by rewrite bool_decide_true|].
  rewrite bool_decide_false by (intros ->; apply Hw; by left). cbn [app] in IH. rewrite IH; [done|]. intros ?. apply Hw. by right.
Qed.

Lemma raw_lines_partial p : ~ In LF p -> raw_lines p = partial p.
Proof.
  induction p as [|c p IH]; intros Hp; [done|]. cbn [raw_lines].
  rewrite bool_decide_false by (intros ->; apply Hp; by left). rewrite IH by (intros ?; apply Hp; by right). by destruct p.
Qed.

Lemma raw_lines_lines ws p :
  Forall (fun w => ~ In LF w) ws -> ~ In LF p -> raw_lines (flat_map line_of ws ++ p) = map (fun w => (w, true)) ws ++ partial p.
Proof.
  intros Hw Hp. induction Hw as [|w ws Hw _ IH]; [by apply raw_lines_partial|]. cbn [flat_map map app].
  by rewrite <- app_assoc, raw_lines_line, IH.
Qed.

(** A cut inside lines leaves some of them and a part of the next. *)
Lemma take_lines ws j :
  Forall (fun w => ~ In LF w) ws -> (j < length (flat_map line_of ws))%nat ->
  exists i p, (i < length ws)%nat /\ take j (flat_map line_of ws) = flat_map line_of (take i ws) ++ p /\ ~ In LF p.
Proof.
  intros Hw. revert j. induction Hw as [|w ws Hw _ IH]; intros j Hj; cbn [flat_map length] in *; [lia|].
  rewrite length_app in Hj. unfold line_of at 1 in Hj. rewrite length_app in Hj. cbn [length] in Hj.
  destruct (decide (j <= length w)%nat) as [Hle|Hgt].
  - exists 0%nat, (take j w). split; [lia|]. split.
    + unfold line_of at 1. rewrite <- app_assoc. by rewrite take_app_le.
    + intros Hi. apply Hw. rewrite <- (take_drop j w). apply in_app_iff. by left.
  - destruct (IH (j - S (length w))%nat) as (i & p & Hi & E & Hp); [lia|]. exists (S i), p. split; [lia|]. split; [|done].
    cbn [take flat_map]. rewrite <- app_assoc, <- E. unfold line_of at 1 3.
    replace j with (length (w ++ [LF]) + (j - S (length w)))%nat at 1 by (rewrite length_app; cbn; lia).
    by rewrite take_app_add.
Qed.

Lemma body_lines ops : body_of ops = flat_map line_of (map op_line ops).
Proof. unfold body_of. induction ops as [|op ops IH]; [done|]. cbn [flat_map map]. by rewrite IH. Qed.

Lemma batch_lines ops : batch ops = line_of JOURNAL_BEGIN ++ flat_map line_of (map op_line ops ++ [end_line (body_of ops)]).
Proof.
  unfold batch, frame, end_line. rewrite flat_map_app, <- body_lines. unfold line_of. cbn [flat_map].
  by rewrite app_nil_r, <- !app_assoc.
Qed.

Lemma hex_no_lf s : forallb LockoutFile.is_hex s = true -> ~ In LF s.
Proof. intros H Hi. by apply forallb_forall with (x := LF) in H. Qed.

Lemma end_one_line body : ~ In LF (end_line body) /\ without_last x0d (end_line body) = end_line body /\
  strip_prefix JOURNAL_END (end_line body) = Some (LockoutFile.hex_fixed 8 (LockoutFile.crc32 body)).
Proof.
  pose proof (LockoutFile.crc32_u32 body) as Hc. destruct (LockoutFile.hex_fixed_spec 8 (LockoutFile.crc32 body)) as [Hh _]; [unfold is_u32 in Hc; lia|].
  unfold end_line. split; [|split; [|apply strip_prefix_app]].
  - rewrite in_app_iff. intros [H|H]; [cbn in H; intuition discriminate|]. by apply hex_no_lf in H.
  - unfold without_last. rewrite bool_decide_false; [done|]. pose proof (LockoutFile.length_hex_fixed 8 (LockoutFile.crc32 body)) as Hl.
    destruct (LockoutFile.hex_fixed 8 _) as [|c s] using rev_ind; [done|]. rewrite app_assoc, last_snoc.
    rewrite forallb_app in Hh. apply andb_prop in Hh as [_ Hc']. by destruct c.
Qed.

Definition whole_lines (ws : list bytes) : list (bytes * bool) := map (fun w => (w, true)) ws.

(** The records of a batch are passed over until its last line. *)
Lemma read_batch_ops t b rs no at_ ops rest :
  Forall wf_op ops ->
  read_batch t b rs (number no at_ (whole_lines (map op_line ops) ++ rest)) =
  read_batch t b (rs ++ number no at_ (whole_lines (map op_line ops)))
    (number (no + Z.of_nat (length ops)) (at_ + length (body_of ops)) rest).
Proof.
  intros H. revert rs no at_. induction H as [|op ops Hop _ IH]; intros rs no at_.
  { cbn [map whole_lines app number length]. by rewrite app_nil_r, Nat.add_0_r, Z.add_0_r. }
  cbn [map whole_lines app number length]. cbn [read_batch l_whole negb l_text]. rewrite op_no_cr, op_not_end by done.
  unfold whole_lines in IH. rewrite IH. rewrite <- app_assoc. cbn [app]. f_equal. f_equal; [lia|].
  unfold body_of. cbn [flat_map]. unfold line_of at 2. rewrite !length_app. cbn [length Nat.b2n]. lia.
Qed.

Lemma journal_ops_lines no at_ ops :
  Forall wf_op ops -> journal_ops (number no at_ (whole_lines (map op_line ops))) = Ok (Some ops).
Proof.
  intros H. revert no at_. induction H as [|op ops Hop _ IH]; intros no at_; [done|].
  cbn [map whole_lines number journal_ops]. rewrite op_no_cr, journal_op_line by done. unfold whole_lines in IH.
  by rewrite IH.
Qed.

Lemma ops_one_line ops : Forall wf_op ops -> Forall (fun w => ~ In LF w) (map op_line ops).
Proof. intros H. apply Forall_map. eapply Forall_impl; [|exact H]. apply op_one_line. Qed.

Lemma all_one_line ops : Forall wf_op ops -> Forall (fun w => ~ In LF w) (map op_line ops ++ [end_line (body_of ops)]).
Proof. intros H. apply Forall_app. split; [by apply ops_one_line|]. constructor; [apply end_one_line|constructor]. Qed.

Lemma tail_begin raw w :
  raw = line_of JOURNAL_BEGIN ++ w ->
  parse_journal_tail raw = journal_parts
    (match read_batch raw 6 [] (number 2 6 (raw_lines w)) with
     | (Some (rs, end_), lines) => Batch rs end_ :: parts_of raw lines
     | (None, lines) => [Bad (mkLine JOURNAL_BEGIN 1 0 6 true) (existsb is_begin lines)]
     end) [] 0.
Proof.
  intros E. unfold parse_journal_tail. rewrite journal_tail_parts. fold (parts_of raw (text_lines raw)).
  assert (text_lines raw = mkLine JOURNAL_BEGIN 1 0 6 true :: number 2 6 (raw_lines w)) as ->.
  { unfold text_lines. rewrite E, raw_lines_line by (cbn; intuition discriminate). done. }
  by rewrite parts_of_cons.
Qed.

(** A whole change does what it says. *)
Lemma tail_whole ops : Forall wf_op ops -> parse_journal_tail (batch ops) = Ok (Some (ops, length (batch ops))).
Proof.
  intros H. rewrite (tail_begin _ _ (batch_lines ops)). pose proof (raw_lines_lines _ [] (all_one_line ops H) (fun x => x)) as E.
  rewrite app_nil_r in E. cbn [partial] in E. rewrite E, app_nil_r, map_app. clear E.
  change (map (fun w => (w, true)) (map op_line ops)) with (whole_lines (map op_line ops)). rewrite read_batch_ops by done.
  destruct (end_one_line (body_of ops)) as (_ & Hcr & Hend).
  cbn [map number read_batch l_whole negb l_text l_start l_end]. rewrite Hcr, Hend.
  rewrite parse_hex_fixed by apply LockoutFile.crc32_u32.
  assert (slice (batch ops) 6 (6 + length (body_of ops)) = body_of ops) as ->.
  { unfold batch, frame. rewrite (app_assoc JOURNAL_BEGIN). by rewrite slice_mid by (by rewrite ?length_app). }
  rewrite bool_decide_true by done. cbn [journal_parts app]. rewrite journal_ops_lines by done.
  cbn [parts_of length parts journal_parts app]. do 3 f_equal. unfold batch, frame, end_line. rewrite !length_app.
  cbn [length JOURNAL_BEGIN text String.list_byte_of_string]. cbn. lia.
Qed.

(** A torn one does nothing. *)
Lemma tail_torn ops k :
  Forall wf_op ops -> (5 <= k < length (batch ops))%nat -> parse_journal_tail (take k (batch ops)) = Ok (Some ([], 0%nat)).
Proof.
  intros H Hk. rewrite batch_lines in *. destruct (decide (k = 5)%nat) as [->|Hk5]; [done|].
  set (ws := map op_line ops ++ [end_line (body_of ops)]) in *. rewrite length_app in Hk. cbn [length line_of] in Hk.
  replace k with (length (line_of JOURNAL_BEGIN) + (k - 6))%nat by (cbn; lia). rewrite take_app_add.
  destruct (take_lines ws (k - 6)) as (i & p & Hi & E & Hp); [by apply all_one_line|cbn in Hk; lia|].
  rewrite (tail_begin _ _ eq_refl), E. rewrite raw_lines_lines; [|by apply Forall_take, all_one_line|done].
  unfold ws in *. rewrite length_app, length_map in Hi. cbn [length] in Hi.
  rewrite take_app_le, firstn_map by (rewrite length_map; lia).
  change (map (fun w => (w, true)) (map op_line (take i ops))) with (whole_lines (map op_line (take i ops))).
  rewrite read_batch_ops by (by apply Forall_take). by destruct p.
Qed.

(** ** A file and its changes *)

(** The file after [b] was written at [at_], the end of what was read of it. *)
Definition append_change (at_ : nat) (b file : bytes) : res bytes :=
  if (length file <? at_)%nat then Err (Format None "shorter than the database read") else Ok (take at_ file ++ b).

(** The file as a text, and as the database it holds. *)
Definition dump_text (blob : bytes) : res bytes :=
  match Utf8.from_utf8 blob with Some _ => Ok blob | None => Err (Format None "dump is not utf-8") end.

Definition read_dump (blob : bytes) : res DumpFile := let? text := dump_text blob in parse_dump text.

Definition utf8 (b : bytes) : Prop := is_Some (Utf8.from_utf8 b).

Lemma utf8_app a b : utf8 a -> utf8 (a ++ b) <-> utf8 b.
Proof. intros [s E]. unfold utf8. rewrite (Utf8.from_utf8_app a b s E). apply fmap_is_Some. Qed.

Lemma read_dump_ok b F : read_dump b = Ok F <-> utf8 b /\ parse_dump b = Ok F.
Proof.
  unfold read_dump, dump_text, utf8. destruct (Utf8.from_utf8 b); [naive_solver|].
  split; [done|]. by intros [[??] ?].
Qed.

(** A change of which [k] bytes reached the file. *)
Definition change (ops : list JournalOp) (k : nat) (file : bytes) : res bytes :=
  let? F := read_dump file in append_change (applied_len F) (take k (batch ops)) file.

Fixpoint changes (es : list (list JournalOp * nat)) (file : bytes) : res bytes :=
  match es with
  | [] => Ok file
  | (ops, k) :: es => let? file := change ops k file in changes es file
  end.

(** The changes that were written whole. *)
Definition made (es : list (list JournalOp * nat)) : list JournalOp :=
  flat_map (fun '(ops, k) => if (length (batch ops) <=? k)%nat then ops else []) es.

(** A change whose names and identifiers can be read back; the cut, if any, is not
    inside the first word, nor inside a character. *)
Definition sound (e : list JournalOp * nat) : Prop :=
  Forall wf_op e.1 /\ forallb sid_ok e.1 = true /\ (e.2 = 0 \/ 5 <= e.2)%nat /\ utf8 (take e.2 (batch e.1)).

Lemma batch_ended ops t : ended (t ++ batch ops).
Proof. right. unfold batch, frame. rewrite !app_assoc. apply last_snoc. Qed.

(** A file that reads to the end of [t], which the database [db] is that of. *)
Definition settled (file t : bytes) (v : Z) (db : gmap bytes DumpPrincipal) (pol : list bytes) : Prop :=
  ended t /\ utf8 t /\ utf8 file /\ exists x F, file = t ++ x /\ (exists F0, parse_dump t = Ok F0 /\ applied_len F0 = length t /\
    version F0 = v /\ database F0 = db /\ policies F0 = pol) /\
  parse_dump file = Ok F /\ applied_len F = length t /\ version F = v /\ database F = db /\ policies F = pol.

Lemma settled_change file t v db pol ops k :
  settled file t v db pol -> sound (ops, k) ->
  exists file' t', change ops k file = Ok file' /\ settled file' t' v (fold_left apply_op (made [(ops, k)]) db) pol.
Proof.
  intros (Ht & Ut & Uf & x & F & -> & (F0 & E0 & A0 & V0 & D0 & P0) & E & A & _) (Hw & Hs & Hk & Uk). cbn [fst snd] in *.
  apply (utf8_app t _ Ut) in Uk.
  unfold change, append_change. rewrite (proj2 (read_dump_ok (t ++ x) F)) by done. rewrite A, length_app. rewrite (proj2 (Nat.ltb_ge _ _)) by lia. rewrite take_app_length.
  exists (t ++ take k (batch ops)). unfold made. cbn [flat_map]. rewrite app_nil_r. destruct (length (batch ops) <=? k)%nat eqn:El.
  - apply Nat.leb_le in El. rewrite (take_ge (batch ops)) in * by done. exists (t ++ batch ops). split; [done|].
    destruct (parse_dump_app t (batch ops) F0 ops _ Ht E0 A0 (tail_whole ops Hw) Hs) as (F' & E' & V' & D' & P' & _ & A').
    split; [apply batch_ended|]. do 2 (split; [done|]). exists [], F'. rewrite app_nil_r, length_app.
    rewrite <- D0, <- P0, <- V0 in *.
    split; [done|]. split; [exists F'|]; auto.
  - apply Nat.leb_gt in El. exists t. split; [done|]. cbn [fold_left].
    assert (parse_journal_tail (take k (batch ops)) = Ok (Some ([], 0%nat))) as Et.
    { destruct Hk as [->|Hk]; [done|by apply tail_torn]. }
    destruct (parse_dump_app t _ F0 [] _ Ht E0 A0 Et eq_refl) as (F' & E' & V' & D' & P' & _ & A').
    do 3 (split; [done|]). exists (take k (batch ops)), F'. rewrite Nat.add_0_r in A'. split; [done|].
    rewrite <- D0, <- P0, <- V0 in *. split; [by exists F0|]. auto.
Qed.

Lemma settled_changes es file t v db pol :
  settled file t v db pol -> Forall sound es ->
  exists file' t', changes es file = Ok file' /\ settled file' t' v (fold_left apply_op (made es) db) pol.
Proof.
  intros S H. revert file t db S. induction H as [|[ops k] es He _ IH]; intros file t db S; [by exists file, t|].
  destruct (settled_change _ _ _ _ _ _ _ S He) as (file1 & t1 & E1 & S1).
  destruct (IH _ _ _ S1) as (file2 & t2 & E2 & S2). exists file2, t2. cbn [changes]. rewrite E1. split; [done|].
  unfold made in *. cbn [flat_map] in *. rewrite fold_left_app. by rewrite app_nil_r in S2.
Qed.

(** A cut inside the first word. *)
Lemma begin_torn t F ops k :
  ended t -> parse_dump t = Ok F -> applied_len F = length t -> (0 < k < 5)%nat ->
  exists n, parse_dump (t ++ take k (batch ops)) = Err (Format (Some n) "unknown record type").
Proof.
  intros Ht EF Ha Hk. set (x := take k (batch ops)). unfold parse_dump in *. destruct (text_lines_app t x Ht) as [n En]. rewrite En.
  pose proof (text_lines_laid t) as Hl.
  destruct (text_lines t) as [|h lines]; [done|]. cbn [app]. destruct (parse_header (l_text h)) as [v|]; [|done].
  rewrite parse_lines_parts in *. fold (parts_of t lines) in EF.
  fold (parts_of (t ++ x) (lines ++ map (shift n (length t)) (text_lines x))).
  destruct (parse_parts (parts_of t lines) _ _) as [[f a]|] eqn:Ef; [|done]. injection EF as <-. cbn [applied_len] in Ha. subst a.
  destruct Hl as (_ & _ & Hl). pose proof (applied_good _ _ _ _ _ _ Hl Ef) as Hgood.
  rewrite (parts_of_app t x _ _ (l_end h) (length t)) by done. rewrite parts_of_shift, parse_parts_app by done.
  destruct (parse_parts_applied _ _ _ (length (t ++ x)) _ _ Ef) as (b & -> & _). exists (n + 1). subst x.
  unfold batch, frame. destruct Hk as [Hk1 Hk2]. do 5 (destruct k as [|k]; [try lia; done|]). lia.
Qed.

Lemma begin_utf8 ops k : (k < 5)%nat -> utf8 (take k (batch ops)).
Proof. intros Hk. unfold batch, frame. do 5 (destruct k as [|k]; [by eexists|]). lia. Qed.

Lemma read_dump_utf8 b : utf8 b -> read_dump b = parse_dump b.
Proof. unfold read_dump, dump_text. by intros [s ->]. Qed.

(** C25: Catching up is reading again.  Let a file have been read to its end, and
    let what has been appended to it since read as changes, up to a last one that
    may be torn.  Then the whole file reads too, and what it holds is what it held
    before with these changes made in their order: the principals under their
    names, the policies as they were, as many records more as there are changes, and
    the place where the next change goes. *)
Theorem catch_up_rereads (t x : bytes) (F : DumpFile) (ops : list JournalOp) (used : nat) :
  ended t -> parse_dump t = Ok F -> applied_len F = length t ->
  parse_journal_tail x = Ok (Some (ops, used)) -> forallb sid_ok ops = true ->
  exists F', parse_dump (t ++ x) = Ok F' /\ version F' = version F /\
    database F' = fold_left apply_op ops (database F) /\ policies F' = policies F /\
    records F' = records F + Z.of_nat (length ops) /\ applied_len F' = (length t + used)%nat.
Proof. exact (parse_dump_app t x F ops used). Qed.

(** C11: Changes are all or nothing when they are cut short between characters.  A
    sequence of changes is written to a file, each by a process that has read it, and
    each may stop after any number of bytes that is none, or from the first word on
    and not inside a character of more than one byte.  The file can then be read,
    and it holds what it held with the changes made that were written whole, and no
    part of the others; the next change is written over what a cut one has left.
    After the other cuts the file cannot be read: inside the first word the rest is
    no record, and inside a character the whole file is refused as not UTF-8. *)
Theorem journal_history (t : bytes) (F : DumpFile) (es : list (list JournalOp * nat)) :
  ended t -> read_dump t = Ok F -> applied_len F = length t -> Forall sound es ->
  (exists file F', changes es t = Ok file /\ read_dump file = Ok F' /\
    database F' = fold_left apply_op (made es) (database F) /\ policies F' = policies F) /\
  (forall ops k, (0 < k < 5)%nat -> exists file n, change ops k t = Ok file /\
    read_dump file = Err (Format (Some n) "unknown record type")) /\
  (forall ops k, ~ utf8 (take k (batch ops)) -> exists file, change ops k t = Ok file /\
    read_dump file = Err (Format None "dump is not utf-8")).
Proof.
  intros Ht ER Ha Hes. pose proof ER as [Hu EF]%read_dump_ok.
  assert (forall ops k, change ops k t = Ok (t ++ take k (batch ops))) as Hch.
  { intros ops k. unfold change, append_change. rewrite ER. by rewrite Ha, Nat.ltb_irrefl, firstn_all. }
  split_and!.
  - destruct (settled_changes es t t (version F) (database F) (policies F))
      as (file & t' & E & _ & _ & Uf & x & F' & _ & _ & E' & _ & _ & D & P); [|done|].
    + do 3 (split; [done|]). exists [], F. rewrite app_nil_r. split; [done|]. split; [exists F|]; auto.
    + exists file, F'. rewrite read_dump_ok. auto.
  - intros ops k Hk. destruct (begin_torn t F ops k Ht EF Ha Hk) as [n En].
    exists (t ++ take k (batch ops)), n. split; [done|]. rewrite read_dump_utf8; [done|]. apply utf8_app; [done|]. apply begin_utf8. lia.
  - intros ops k Hk. exists (t ++ take k (batch ops)). split; [done|]. unfold read_dump, dump_text.
    rewrite <- (utf8_app t _ Hu) in Hk. unfold utf8 in Hk. by destruct (Utf8.from_utf8 _); [destruct Hk|].
Qed.

(** ** A small file *)

Definition sample_file : bytes := text "kdb5_util load_dump version 7" ++ [LF] ++ line_of (record sample_dump).

Definition sample_principal : DumpPrincipal :=
  mkDump 38 (text "bob@EXAMPLE.COM") 0 3600 0 0 0 0 0 0 [] [mkKey 1 1 [mkSlot 18 [x01]]] [].

Definition sample_ops : list JournalOp := [JPut sample_principal; JDel (text "alice@EXAMPLE.COM")].

Lemma sample_sound k : (k = 0 \/ 5 <= k)%nat -> utf8 (take k (batch sample_ops)) -> sound (sample_ops, k).
Proof.
  intros Hk Hu. split; [|by split_and!].
  apply Forall_cons; [split; [by apply wf_dumpb_spec|cbn; intuition discriminate]|].
  apply Forall_cons; [split; [cbn; intuition discriminate|done]|]. apply Forall_nil.
Qed.

Lemma catch_up_rereads_witness :
  exists F', parse_dump (sample_file ++ batch sample_ops ++ take 40 (batch sample_ops)) = Ok F' /\
    map d_name (princs F') = [text "bob@EXAMPLE.COM"] /\ applied_len F' = (length sample_file + length (batch sample_ops))%nat.
Proof.
  destruct (parse_dump sample_file) as [F|] eqn:EF; [|vm_compute in EF; discriminate].
  pose proof (catch_up_rereads sample_file (batch sample_ops ++ take 40 (batch sample_ops)) F sample_ops (length (batch sample_ops))) as H.
  destruct H as (F' & E & _ & _ & _ & _ & A).
  - right. by vm_compute.
  - exact EF.
  - vm_compute in EF. injection EF as <-. by vm_compute.
  - by vm_compute.
  - by vm_compute.
  - exists F'. split; [exact E|]. split; [|exact A]. vm_compute in E. injection E as <-. by vm_compute.
Defined.

Definition sample_events : list (list JournalOp * nat) := [(sample_ops, 17%nat); (sample_ops, 1000%nat); ([JDel (text "bob@EXAMPLE.COM")], 20%nat)].

Lemma journal_history_witness :
  exists file F', changes sample_events sample_file = Ok file /\ read_dump file = Ok F' /\
    map d_name (princs F') = [text "bob@EXAMPLE.COM"].
Proof.
  destruct (read_dump sample_file) as [F|] eqn:EF; [|vm_compute in EF; discriminate].
  destruct (journal_history sample_file F sample_events) as [(file & F' & E & E' & _) _].
  - right. by vm_compute.
  - exact EF.
  - vm_compute in EF. injection EF as <-. by vm_compute.
  - do 2 (apply Forall_cons; [apply sample_sound; [right; lia|by vm_compute; eexists]|]).
    apply Forall_cons; [|apply Forall_nil]. split; [|split_and!; [done|right; cbn; lia|by vm_compute; eexists]].
    apply Forall_cons; [split; [cbn; intuition discriminate|done]|apply Forall_nil].
  - exists file, F'. split; [exact E|]. split; [exact E'|]. vm_compute in E. injection E as <-. vm_compute in E'. injection E' as <-. by vm_compute.
Defined.

End Journal.
