(* ===== verification/Dump.v ===== *)
(** * Principals in the database's text

    Models what a record of the database's text means, from
    [krb5-kdc/src/kdb_dump.rs]: the record a principal is written as
    ([write_princ_record]), with its keys wrapped under the master key and the
    parts of it that are kept as tagged data, and the principal a record is read
    as ([into_principal]).  A principal that is written and read is as it was. *)

From S2P Require Import Prelude Reader StateErr Ascii Utf8 Etype Primitives Cts Derive Weak Ops Decimal Name EncList.
From S2P Require Import Kdc Lockout LockoutFile Osa History PMap Acl Store Iprop Ulog StoreOps DumpText.

Module Dump.
Import PMap Osa Store StoreOps DumpText.

Definition TL_MKVNO : Z := 8.
Definition TL_ACTKVNO : Z := 9.
Definition TL_KERBER_SERIAL : Z := 0x4B03.
Definition TL_KERBER_RID_HWM : Z := 0x4B05.

(** ** Tagged data *)

(** [KRB5_TL_MOD_PRINC]: a time and a name that ends in a NUL. *)
Definition tl_mod_princ (c : bytes) : option (Z * Name.ustr) :=
  if (length c <? 5)%nat || negb (bool_decide (list.last c = Some x00)) then None
  else name ← Utf8.from_utf8 (removelast (drop 4 c)); Some (from_le_bytes (take 4 c), name).

Definition tl_mod_princ_name (tl : list TlData) : option Name.ustr :=
  t ← find_tl TL_MOD_PRINC tl; '(_, n) ← tl_mod_princ (contents t); Some n.

Definition mkvno_from_tl (tl : list TlData) : Z :=
  match List.find (fun t => (ty t =? TL_MKVNO) && (length (contents t) =? 2)%nat) tl with
  | Some t => from_le_bytes (contents t)
  | None => 1
  end.

Definition encode_sid_tl (domain : RpcSid) (rid : Z) : TlData :=
  mkTl TL_KERBER_SID
    ([x01] ++ to_le_bytes 4 rid ++ [revision domain] ++ [z8 (try_from_or 8 (Z.of_nat (length (sub_authority domain))) 0)] ++
     identifier_authority domain ++ flat_map (to_le_bytes 4) (sub_authority domain)).

Definition merge_sid_tl (tl : list TlData) (domain : RpcSid) (rid : Z) : list TlData :=
  retain_tl (fun t => negb (t =? TL_KERBER_SID)) tl ++ (if negb (rid =? 0) then [encode_sid_tl domain rid] else []).

Definition rid_hwm_of (tl : list TlData) : option Z :=
  t ← find_tl TL_KERBER_RID_HWM tl;
  if (length (contents t) <? 4)%nat then None else Some (from_le_bytes (take 4 (contents t))).

Definition merge_rid_hwm (tl : list TlData) (next : Z) (is_km : bool) : list TlData :=
  retain_tl (fun t => negb (t =? TL_KERBER_RID_HWM)) tl ++ (if is_km then [mkTl TL_KERBER_RID_HWM (to_le_bytes 4 next)] else []).

Definition nul_tl (t : Z) (name : bytes) : TlData := mkTl t (name ++ [x00]).

Definition merge_s4u_tl (tl : list TlData) (p : Principal) : list TlData :=
  List.filter (fun t => negb (is_s4u_name_tl t)) tl ++
  map (nul_tl TL_CONSTRAINED_DELEGATION) (s4u_allowed_to p) ++ map (nul_tl TL_KERBER_S4U_FROM) (s4u_allowed_from p).

Definition absorb_identity_tl (p : Principal) : Principal * option Z :=
  let hwm := rid_hwm_of (tl_data p) in
  let p := absorb_s4u_tl p in
  (set_tl_data (retain_tl (fun t => negb (t =? TL_KERBER_RID_HWM)) (tl_data p)) p, hwm).

Definition merge_string_attrs_tl (tl : list TlData) (attrs : list (Name.ustr * Name.ustr)) : list TlData :=
  retain_tl (fun t => negb (t =? TL_STRING_ATTRS)) tl ++
  match attrs with [] => [] | _ => [mkTl TL_STRING_ATTRS (encode_string_attrs attrs)] end.

Fixpoint attr_pairs (parts : list bytes) : list (Name.ustr * Name.ustr) :=
  match parts with
  | k :: v :: parts =>
      (if bool_decide (k = []) then [] else [(Utf8.lossy_chars_of k, Utf8.lossy_chars_of v)]) ++ attr_pairs parts
  | _ => []
  end.

Definition attrs_from_tl (tl : list TlData) : list (Name.ustr * Name.ustr) :=
  flat_map (fun t => if ty t =? TL_STRING_ATTRS then attr_pairs (split x00 (contents t)) else []) tl.

Definition merge_kadm_tl (tl : list TlData) (p : Principal) : list TlData :=
  let has_kadm := existsb (fun t => ty t =? TL_KADM_DATA) tl in
  if has_kadm || (bool_decide (pw_policy p = None) && bool_decide (old_keys (kadm p) = [])) then tl
  else
    let fresh := refresh_kadm_tl p in
    retain_tl (fun t => negb (t =? TL_KERBER_POLICY)) tl ++ List.filter (fun t => ty t =? TL_KADM_DATA) (tl_data fresh).

Definition from_osa (o : OsaPrincEnt) : KadmData :=
  mkKadm (o_aux_attributes o) (o_old_key_next o) (o_admin_history_kvno o) (o_old_keys o).

Definition policy_from_tl (tl : list TlData) : option Name.ustr :=
  t ← find_tl TL_KERBER_POLICY tl;
  s ← Utf8.from_utf8 (contents t);
  match EncList.trim s with [] => None | s => Some s end.

Definition synthesize_tl (realm : bytes) (now mkv : Z) (is_km : bool) : list TlData :=
  (if is_km then [mkTl TL_ACTKVNO (to_le_bytes 2 1 ++ to_le_bytes 2 1 ++ to_le_bytes 4 0)] else []) ++
  [mkTl TL_MOD_PRINC (to_le_bytes 4 now ++ lit_bytes "db_creation@" ++ realm ++ [x00]);
   mkTl TL_MKVNO (to_le_bytes 2 mkv);
   mkTl TL_LAST_PWD_CHANGE (to_le_bytes 4 now)].

(** ** Names *)

Definition NT_SRV_HST : Z := 3.

Definition unparsed_type (comps : list Name.ustr) : Z :=
  match comps with
  | [c0; _] => if bool_decide (c0 = EncList.lit "host") then NT_SRV_HST else infer_name_type comps
  | _ => infer_name_type comps
  end.

Definition parse_unparsed (s : bytes) : res (PrincipalName.PrincipalName * bytes) :=
  match Name.parse_name (default [] (Utf8.from_utf8 s)) [] with
  | Err _ => Err (Format None "principal")
  | Ok (comps, realm) =>
      if bool_decide (realm = []) || bool_decide (comps = [[]]) then Err (Format None "empty principal")
      else
        match try_new (unparsed_type comps) comps with
        | Some n => Ok (n, Utf8.as_bytes realm)
        | None => Err (Format None "name")
        end
  end.

Definition is_km_name (n : PrincipalName.PrincipalName) : bool := bool_decide (components_joined n = KM).

Section Dump.
Context {Prim : Primitives}.

(** ** Keys *)

Definition crypto {A} (r : result Error A) : res A := map_err (fun _ => Crypto) r.

(** The [i]th key is wrapped with the [i]th draw. *)
Definition wrap (rnd : nat -> option bytes * option bytes) (i : nat) (mkey : Key.ProtocolKey) (k : KeyEntry) : res bytes :=
  crypto (Ops.kdb_encrypt_key (fst (rnd i)) (snd (rnd i)) mkey (Key.as_bytes (key k))).

Fixpoint encode_hist_keys (rnd : nat -> option bytes * option bytes) (i : nat) (mkey : Key.ProtocolKey) (ks : list KeyEntry)
    : res bytes :=
  match ks with
  | [] => Ok []
  | k :: ks =>
      let? enc := wrap rnd i mkey k in
      let? rest := encode_hist_keys rnd (S i) mkey ks in
      Ok (to_be_bytes 4 (EType.to_iana (ke_etype k) mod 2 ^ 32) ++ to_be_bytes 4 (kvno k) ++
          to_be_bytes 2 (try_from_or 16 (blen enc) U16_MAX) ++ enc ++ rest)
  end.

Definition encode_hist rnd (ks : list KeyEntry) (mkey : Key.ProtocolKey) : res bytes :=
  let? b := encode_hist_keys rnd 0 mkey ks in
  Ok (to_be_bytes 4 (try_from_or 32 (Z.of_nat (length ks)) 0) ++ b).

Definition merge_hist_tl rnd (tl : list TlData) (hist : list KeyEntry) (mkey : Key.ProtocolKey) : res (list TlData) :=
  let tl := retain_tl (fun t => negb (t =? TL_KERBER_HIST)) tl in
  match hist with
  | [] => Ok tl
  | _ => let? b := encode_hist rnd hist mkey in Ok (tl ++ [mkTl TL_KERBER_HIST b])
  end.

Definition decode_hist_key (mkey : Key.ProtocolKey) (b : bytes) : res (KeyEntry * bytes) :=
  if (length b <? 10)%nat then Err (Format None "truncated 0x4B04 hist tl_data")
  else
    let e := Osa.cast_signed (from_be_bytes (take 4 b)) in
    let kv := from_be_bytes (slice b 4 8) in
    let ln := Z.to_nat (from_be_bytes (slice b 8 10)) in
    let b := drop 10 b in
    if (length b <? ln)%nat then Err (Format None "truncated 0x4B04 hist key")
    else
      let? et := crypto (EType.known e) in
      let? raw := crypto (Ops.kdb_decrypt_key mkey (take ln b)) in
      let? k := crypto (Key.from_bytes et raw) in
      Ok (new_entry et k kv, drop ln b).

Definition decode_hist (b : bytes) (mkey : Key.ProtocolKey) : res (list KeyEntry) :=
  if (length b <? 4)%nat then Err (Format None "short 0x4B04 hist tl_data")
  else
    let n := from_be_bytes (take 4 b) in
    let b := drop 4 b in
    let? (l, _) := times (Format None "truncated 0x4B04 hist tl_data") (S (length b)) (decode_hist_key mkey) n b in
    Ok l.

Definition hist_from_tl (tl : list TlData) (mkey : Key.ProtocolKey) : res (list KeyEntry) :=
  match find_tl TL_KERBER_HIST tl with
  | None => Ok []
  | Some t => decode_hist (contents t) mkey
  end.

Fixpoint dump_keys rnd (i : nat) (mkey : Key.ProtocolKey) (ks : list KeyEntry) : res (list DumpKeyData) :=
  match ks with
  | [] => Ok []
  | k :: ks =>
      let? enc := wrap rnd i mkey k in
      let? rest := dump_keys rnd (S i) mkey ks in
      let slot := mkSlot (EType.to_iana (ke_etype k)) enc in
      Ok ((match salt_type k, kdb_salt k with
           | Some st, Some sb => mkKey 2 (kvno k) [slot; mkSlot st sb]
           | _, _ => mkKey 1 (kvno k) [slot]
           end) :: rest)
  end.

Definition key_of (mkey : Key.ProtocolKey) (kd : DumpKeyData) : res KeyEntry :=
  match slots kd with
  | [] => Err (Format None "key_data with no slots")
  | s :: more =>
      let? et := crypto (EType.known (sl_ty s)) in
      let? raw := crypto (Ops.kdb_decrypt_key mkey (sl_contents s)) in
      let? k := crypto (Key.from_bytes et raw) in
      Ok (match more with
          | s2 :: _ => if 2 <=? dk_ver kd then mkEntry et k (dk_kvno kd) (Some (sl_ty s2)) (Some (sl_contents s2))
                       else new_entry et k (dk_kvno kd)
          | [] => new_entry et k (dk_kvno kd)
          end)
  end.

Fixpoint keys_of (mkey : Key.ProtocolKey) (ks : list DumpKeyData) : res (list KeyEntry) :=
  match ks with
  | [] => Ok []
  | kd :: ks => let? k := key_of mkey kd in let? l := keys_of mkey ks in Ok (k :: l)
  end.

Definition opens_with (d : DumpPrincipal) (mkey : Key.ProtocolKey) : bool :=
  match d_keys d with
  | k :: _ =>
      match slots k with
      | s :: _ => (sl_ty s =? EType.to_iana (Key.etype mkey)) && is_ok (Ops.kdb_decrypt_key mkey (sl_contents s))
      | [] => false
      end
  | [] => false
  end.

(** ** Writing and reading a principal *)

(** What the record takes from the store: its realm and identifiers, and the time. *)
Record Context_ := mkContext { x_realm : bytes; x_domain : RpcSid; x_next_rid : Z; x_now : Z }.

Definition base_tl (x : Context_) (p : Principal) : list TlData :=
  match tl_data p with [] => synthesize_tl (realm p) (x_now x) (mkvno p) (is_km p) | tl => tl end.

(** The tagged data before the history. *)
Definition written_tl (x : Context_) (p : Principal) : list TlData :=
  let tl := base_tl x p in
  let tl := retain_tl (fun t => negb (t =? TL_DB_ARGS) && negb (t =? TL_KERBER_SERIAL)) tl in
  let tl := merge_sid_tl tl (x_domain x) (rid p) in
  let tl := merge_rid_hwm tl (x_next_rid x) (is_km p && bool_decide (realm p = x_realm x)) in
  let tl := merge_s4u_tl tl p in
  let tl := merge_kadm_tl tl p in
  merge_string_attrs_tl tl (string_attrs p).

(** [l]: the lockout state the store keeps of the principal. *)
Definition dump_principal rnd (x : Context_) (mkey : Key.ProtocolKey) (l : Lockout.Lockout) (p : Principal) : res DumpPrincipal :=
  let '(life, rlife) := if bool_decide (is_Some (alias_target p)) then (0, 0)
                        else (try_from_or 32 (max_life p) U32_MAX, try_from_or 32 (max_renewable_life p) U32_MAX) in
  let hist := if bool_decide (old_keys (kadm p) = []) then Some (key_history p) else None in
  let? tl := match hist with
             | Some h => merge_hist_tl rnd (written_tl x p) h mkey
             | None => Ok (written_tl x p)
             end in
  let? ks := dump_keys rnd (length (default [] hist)) mkey (keys p) in
  Ok (mkDump (db_entry_len p) (Utf8.as_bytes (principal_id p)) (attributes p) life rlife (expiration p) (pw_expire p)
        (Lockout.l_success l) (Lockout.l_failed l) (Lockout.l_count l) tl ks (p_e_data p)).

Definition write_princ_record rnd (x : Context_) (mkey : Key.ProtocolKey) (l : Lockout.Lockout) (p : Principal) : res bytes :=
  let? d := dump_principal rnd x mkey l p in Ok (record d ++ [LF]).

Definition into_principal (mkey : Key.ProtocolKey) (d : DumpPrincipal) : res (Principal * option RpcSid) :=
  let? (n, r) := parse_unparsed (d_name d) in
  let? ks := keys_of mkey (d_keys d) in
  if is_km_name n && match ks with k :: _ => negb (bool_decide (Key.as_bytes (key k) = Key.as_bytes mkey)) | [] => false end
  then Err Crypto
  else
    let tl := d_tl_data d in
    let? (sid, rd) := parse_sid_tl tl in
    let? osa := map_err (fun _ => Format None "kadm data") (Osa.from_tl tl) in
    let pol := match osa ≫= bound_policy with Some q => Some q | None => policy_from_tl tl end in
    let kd := match osa with Some o => from_osa o | None => default_kadm end in
    let? hist := hist_from_tl tl mkey in
    Ok (mkPrincipal n r ks hist (salt_of_keys ks n r) (d_max_life d) (d_pw_expiration d) (d_attributes d)
          (d_max_renewable_life d) (d_expiration d) (d_last_success d) (d_last_failed d) (d_fail_auth_count d)
          (mkvno_from_tl tl) (db_len d)
          (List.filter (fun t => negb (is_s4u_name_tl t) && negb (ty t =? TL_KERBER_RID_HWM)) tl)
          (d_e_data d) rd (nul_tl_names tl TL_KERBER_S4U_FROM) (nul_tl_names tl TL_CONSTRAINED_DELEGATION)
          pol kd (attrs_from_tl tl), sid).

End Dump.

End Dump.
