(* ===== verification/DumpKept.v ===== *)
(** * A principal written and read

    The record a principal is written as in the database's text (file Dump) is
    read back as the principal: the name, the keys out of their wrapping, the
    salts, the lifetimes and attributes, and what is kept as tagged data. *)

From S2P Require Import Prelude Reader StateErr Ascii Utf8 Etype Primitives Cts Derive Weak Ops Decimal Name EncList.
From S2P Require Import Kdc Lockout LockoutFile Osa History PMap Acl Store Iprop Ulog StoreOps StoreAlias DumpText Journal Dump.

Module DumpKept.
Import PMap Osa Store StoreOps StoreAlias DumpText Dump.

(** A type that is none of a list. *)
Ltac not_in := rewrite !not_elem_of_cons; repeat split; first [done|apply not_elem_of_nil].

(** ** Tagged data by type *)

Definition of_type (t : Z) (tl : list TlData) : list TlData := List.filter (fun x => ty x =? t) tl.

Lemma of_type_app t a b : of_type t (a ++ b) = of_type t a ++ of_type t b.
Proof. apply List.filter_app. Qed.

Lemma of_type_cons t x tl : of_type t (x :: tl) = if ty x =? t then x :: of_type t tl else of_type t tl.
Proof. done. Qed.

Lemma of_type_retain t f tl : of_type t (retain_tl f tl) = if f t then of_type t tl else [].
Proof.
  induction tl as [|x tl IH]; [by destruct (f t)|]. cbn [retain_tl List.filter]. destruct (f (ty x)) eqn:E.
  - rewrite !of_type_cons. fold (retain_tl f tl). rewrite IH. destruct (ty x =? t) eqn:Et; [|done].
    apply Z.eqb_eq in Et. subst t. by rewrite E.
  - fold (retain_tl f tl). rewrite IH, of_type_cons. destruct (ty x =? t) eqn:Et; [|done].
    apply Z.eqb_eq in Et. subst t. by rewrite E.
Qed.

Lemma find_of_type t g tl : List.find (fun x => (ty x =? t) && g x) tl = List.find g (of_type t tl).
Proof.
  induction tl as [|x tl IH]; [done|]. rewrite of_type_cons. cbn [List.find].
  destruct (ty x =? t); cbn [andb List.find]; [by destruct (g x)|done].
Qed.

Lemma find_tl_of_type t tl : find_tl t tl = head (of_type t tl).
Proof. unfold find_tl. induction tl as [|x tl IH]; [done|]. rewrite of_type_cons. cbn [List.find]. by destruct (ty x =? t). Qed.

Definition is_s4u_type (t : Z) : bool := (t =? TL_CONSTRAINED_DELEGATION) || (t =? TL_KERBER_S4U_FROM).

Lemma of_type_s4u_filter t tl : is_s4u_type t = false -> of_type t (List.filter (fun x => negb (is_s4u_name_tl x)) tl) = of_type t tl.
Proof.
  intros Ht. induction tl as [|x tl IH]; [done|]. cbn [List.filter]. rewrite of_type_cons.
  destruct (is_s4u_name_tl x) eqn:E; cbn [negb]; [|rewrite of_type_cons; by destruct (ty x =? t); rewrite IH].
  rewrite IH. destruct (ty x =? t) eqn:Et; [|done]. apply Z.eqb_eq in Et. subst t.
  unfold is_s4u_name_tl in E. unfold is_s4u_type in Ht. by rewrite Ht in E.
Qed.

Lemma names_s4u_filter t tl : is_s4u_type t = true -> omap nul_name (of_type t (List.filter (fun x => negb (is_s4u_name_tl x)) tl)) = [].
Proof.
  intros Ht. induction tl as [|x tl IH]; [done|]. cbn [List.filter]. destruct (is_s4u_name_tl x) eqn:E; cbn [negb]; [done|].
  rewrite of_type_cons. destruct (ty x =? t) eqn:Et; [|done]. apply Z.eqb_eq in Et. subst t. cbn [omap list_omap].
  unfold is_s4u_name_tl in E. unfold is_s4u_type in Ht. rewrite Ht in E. cbn [andb] in E.
  destruct (nul_name x); [|done]. by rewrite bool_decide_true in E by done.
Qed.

(** A name that can be kept with a NUL at its end. *)
Definition nul_ended (n : bytes) : Prop := n <> [] /\ ~ In x00 n /\ is_Some (Utf8.from_utf8 n).

Lemma nul_name_tl t n : nul_ended n -> nul_name (nul_tl t n) = Some n.
Proof.
  intros (H1 & H2 & H3). unfold nul_name, nul_tl. cbn [contents]. rewrite rev_app_distr. cbn [rev app].
  rewrite rev_involutive. rewrite (bool_decide_true (x00 = x00)), (bool_decide_false (n = [])), (bool_decide_true (is_Some _)) by done.
  rewrite (bool_decide_false (x00 ∈ n)); [done|]. by rewrite list_elem_of_In.
Qed.

Lemma of_type_names t u ns : of_type t (map (nul_tl u) ns) = if u =? t then map (nul_tl u) ns else [].
Proof.
  induction ns as [|n ns IH]; [by destruct (u =? t)|]. cbn [map]. rewrite of_type_cons. cbn [nul_tl ty]. rewrite IH.
  by destruct (u =? t).
Qed.

Lemma names_tl t ns : Forall nul_ended ns -> omap nul_name (map (nul_tl t) ns) = ns.
Proof. induction 1 as [|n ns Hn _ IH]; [done|]. cbn [map omap list_omap]. rewrite nul_name_tl by done. by rewrite <- IH at 2. Qed.

(** ** The parts of the written data *)

Lemma of_type_sid t tl dom r :
  of_type t (merge_sid_tl tl dom r) = if t =? TL_KERBER_SID then (if negb (r =? 0) then [encode_sid_tl dom r] else []) else of_type t tl.
Proof.
  unfold merge_sid_tl. rewrite of_type_app, of_type_retain. destruct (Z.eqb_spec t TL_KERBER_SID) as [->|Hne]; cbn [negb].
  - by destruct (r =? 0).
  - destruct (r =? 0); cbn [negb]; [by rewrite app_nil_r|]. rewrite of_type_cons. cbn [encode_sid_tl ty].
    rewrite (proj2 (Z.eqb_neq _ _)) by congruence. by rewrite app_nil_r.
Qed.

Lemma of_type_hwm t tl n km : t <> TL_KERBER_RID_HWM -> of_type t (merge_rid_hwm tl n km) = of_type t tl.
Proof.
  intros Ht. unfold merge_rid_hwm. rewrite of_type_app, of_type_retain. rewrite (proj2 (Z.eqb_neq _ _)) by done. cbn [negb].
  destruct km; [|by rewrite app_nil_r]. rewrite of_type_cons. cbn [ty]. rewrite (proj2 (Z.eqb_neq _ _)) by congruence.
  by rewrite app_nil_r.
Qed.

Lemma of_type_s4u t tl p : is_s4u_type t = false -> of_type t (merge_s4u_tl tl p) = of_type t tl.
Proof.
  intros Ht. unfold merge_s4u_tl. rewrite !of_type_app, of_type_s4u_filter, !of_type_names by done.
  unfold is_s4u_type in Ht. rewrite (Z.eqb_sym TL_CONSTRAINED_DELEGATION), (Z.eqb_sym TL_KERBER_S4U_FROM).
  apply orb_false_elim in Ht as [-> ->]. by rewrite !app_nil_r.
Qed.

Lemma names_s4u tl p :
  Forall nul_ended (s4u_allowed_to p) -> Forall nul_ended (s4u_allowed_from p) ->
  omap nul_name (of_type TL_CONSTRAINED_DELEGATION (merge_s4u_tl tl p)) = s4u_allowed_to p /\
  omap nul_name (of_type TL_KERBER_S4U_FROM (merge_s4u_tl tl p)) = s4u_allowed_from p.
Proof.
  intros Ht Hf. unfold merge_s4u_tl. rewrite !of_type_app, !of_type_names. cbn [Z.eqb TL_CONSTRAINED_DELEGATION TL_KERBER_S4U_FROM Pos.eqb].
  rewrite app_nil_r. cbn [app]. rewrite !omap_app, !names_s4u_filter by done. cbn [app]. split; by apply names_tl.
Qed.

Lemma of_type_attrs t tl l :
  of_type t (merge_string_attrs_tl tl l) =
  if t =? TL_STRING_ATTRS then (match l with [] => [] | _ => [mkTl TL_STRING_ATTRS (encode_string_attrs l)] end) else of_type t tl.
Proof.
  unfold merge_string_attrs_tl. rewrite of_type_app, of_type_retain. destruct (Z.eqb_spec t TL_STRING_ATTRS) as [->|Hne]; cbn [negb].
  - by destruct l.
  - destruct l; [by rewrite app_nil_r|]. rewrite of_type_cons. cbn [ty]. rewrite (proj2 (Z.eqb_neq _ _)) by congruence.
    by rewrite app_nil_r.
Qed.

Lemma of_type_filter_same t tl : of_type t (of_type t tl) = of_type t tl.
Proof. induction tl as [|x tl IH]; [done|]. rewrite of_type_cons. destruct (ty x =? t) eqn:E; [|done]. rewrite of_type_cons, E. by rewrite IH. Qed.

Lemma of_type_filter_other t u tl : t <> u -> of_type t (of_type u tl) = [].
Proof.
  intros H. induction tl as [|x tl IH]; [done|]. rewrite of_type_cons. destruct (ty x =? u) eqn:E; [|done].
  rewrite of_type_cons, IH. apply Z.eqb_eq in E. by rewrite (proj2 (Z.eqb_neq _ _)) by congruence.
Qed.

Lemma of_type_kadm_other t tl p : t <> TL_KADM_DATA -> t <> TL_KERBER_POLICY -> of_type t (merge_kadm_tl tl p) = of_type t tl.
Proof.
  intros H1 H2. unfold merge_kadm_tl. destruct (_ || _); [done|]. rewrite of_type_app, of_type_retain.
  rewrite (proj2 (Z.eqb_neq _ _)) by done. cbn [negb]. fold (of_type TL_KADM_DATA (tl_data (refresh_kadm_tl p))).
  rewrite of_type_filter_other by done. by rewrite app_nil_r.
Qed.

(** ** The administration record *)

Definition kadm_bound (p : Principal) : bool := match pw_policy p with Some (_ :: _) => true | _ => false end.

Definition kadm_aux (p : Principal) : Z :=
  if kadm_bound p then Z.lor (aux_attributes (kadm p)) KADM5_POLICY
  else Z.land (aux_attributes (kadm p)) (Acl.not32 KADM5_POLICY).

(** The record [refresh_kadm_tl] writes. *)
Definition kadm_record (p : Principal) : OsaPrincEnt :=
  mkOsa (if kadm_bound p then pw_policy p else None) (kadm_aux p) (old_key_next (kadm p)) (admin_history_kvno (kadm p))
    (old_keys (kadm p)).

Lemma kadm_written p : of_type TL_KADM_DATA (tl_data (refresh_kadm_tl p)) = [mkTl TL_KADM_DATA (encode (kadm_record p))].
Proof.
  unfold refresh_kadm_tl. cbn [tl_data set_tl_data]. rewrite of_type_app, of_type_retain. cbn [andb negb Z.eqb TL_KADM_DATA Pos.eqb app].
  rewrite of_type_cons. cbn [ty of_type List.filter Z.eqb TL_KADM_DATA Pos.eqb]. done.
Qed.

Definition policy_of (o : option OsaPrincEnt) (tl : list TlData) : option Name.ustr :=
  match o ≫= bound_policy with Some q => Some q | None => policy_from_tl tl end.

Definition kadm_of (o : option OsaPrincEnt) : KadmData := match o with Some o => from_osa o | None => default_kadm end.

(** The policy and the administration record are those of the tagged data, or they
    can be written as such. *)
Definition kadm_kept (p : Principal) (tl : list TlData) : Prop :=
  match find_tl TL_KADM_DATA tl with
  | Some t => exists o, decode (contents t) = Ok o /\ kadm p = from_osa o /\ pw_policy p = policy_of (Some o) tl
  | None =>
      if bool_decide (pw_policy p = None) && bool_decide (old_keys (kadm p) = [])
      then kadm p = default_kadm /\ policy_from_tl tl = None
      else wf_osa (kadm_record p) /\ kadm_aux p = aux_attributes (kadm p) /\ pw_policy p <> Some []
  end.

Lemma policy_from_of_type tl tl' : of_type TL_KERBER_POLICY tl = of_type TL_KERBER_POLICY tl' -> policy_from_tl tl = policy_from_tl tl'.
Proof. intros H. unfold policy_from_tl. by rewrite !find_tl_of_type, H. Qed.

Lemma kadm_kept_ext p tl tl' :
  of_type TL_KADM_DATA tl = of_type TL_KADM_DATA tl' -> of_type TL_KERBER_POLICY tl = of_type TL_KERBER_POLICY tl' ->
  kadm_kept p tl -> kadm_kept p tl'.
Proof.
  intros H1 H2. unfold kadm_kept, policy_of. by rewrite !find_tl_of_type, H1, (policy_from_of_type _ _ H2).
Qed.

Lemma existsb_find_tl t tl : existsb (fun x => ty x =? t) tl = bool_decide (is_Some (find_tl t tl)).
Proof.
  unfold find_tl. induction tl as [|x tl IH]; [done|]. cbn [existsb List.find]. destruct (ty x =? t); [|done].
  by rewrite bool_decide_true.
Qed.

Lemma bound_record p : pw_policy p <> Some [] -> bound_policy (kadm_record p) = pw_policy p.
Proof.
  intros Hp. unfold bound_policy, kadm_record, kadm_aux, kadm_bound. cbn [o_aux_attributes o_policy].
  destruct (pw_policy p) as [[|c s]|]; [done|..].
  - destruct (Z.eqb_spec (Z.land (Z.lor (aux_attributes (kadm p)) KADM5_POLICY) KADM5_POLICY) 0) as [E|]; [|done].
    rewrite Z.land_lor_distr_l in E. apply Z.lor_eq_0_iff in E as [_ E]. done.
  - rewrite <- Z.land_assoc. change (Z.land (Acl.not32 KADM5_POLICY) KADM5_POLICY) with 0. by rewrite Z.land_0_r.
Qed.

Lemma kadm_read tl p (tl' := merge_kadm_tl tl p) :
  kadm_kept p tl -> exists o, Osa.from_tl tl' = Ok o /\ policy_of o tl' = pw_policy p /\ kadm_of o = kadm p.
Proof.
  intros Hk. subst tl'. unfold merge_kadm_tl. rewrite existsb_find_tl. unfold kadm_kept in Hk.
  destruct (find_tl TL_KADM_DATA tl) as [t|] eqn:Et.
  - rewrite bool_decide_true by done. cbn [orb]. destruct Hk as (o & Eo & E1 & E2). exists (Some o).
    unfold from_tl. fold (find_tl TL_KADM_DATA tl). rewrite Et, Eo. by rewrite E1, E2.
  - rewrite bool_decide_false by (by intros [? ?]). cbn [orb]. destruct (_ && _) eqn:Ec.
    + destruct Hk as [E1 E2]. exists None. unfold from_tl. fold (find_tl TL_KADM_DATA tl). rewrite Et.
      unfold policy_of. cbn [mbind option_bind]. rewrite E1, E2. apply andb_prop in Ec as [Ec _].
      by apply bool_decide_eq_true in Ec.
    + destruct Hk as (W & Ea & Hne). exists (Some (kadm_record p)).
      fold (of_type TL_KADM_DATA (tl_data (refresh_kadm_tl p))). rewrite kadm_written. unfold from_tl.
      set (tl' := retain_tl _ tl ++ _). fold (find_tl TL_KADM_DATA tl').
      assert (find_tl TL_KADM_DATA tl' = Some (mkTl TL_KADM_DATA (encode (kadm_record p)))) as ->.
      { unfold tl'. rewrite find_tl_of_type in *. rewrite of_type_app, of_type_retain. cbn [negb Z.eqb TL_KADM_DATA TL_KERBER_POLICY Pos.eqb].
        by destruct (of_type TL_KADM_DATA tl). }
      cbn [contents]. unfold decode. pose proof (decode_rest_reads _ W []) as E. rewrite app_nil_r in E. rewrite E.
      split; [done|]. unfold policy_of. cbn [mbind option_bind]. rewrite bound_record by done. split.
      * destruct (pw_policy p) as [q|] eqn:Eq; [done|]. unfold policy_from_tl, tl'. rewrite find_tl_of_type, of_type_app, of_type_retain.
        done.
      * unfold kadm_of, from_osa, kadm_record. cbn. rewrite Ea. by destruct (kadm p).
Qed.

(** ** The other parts *)

Definition wf_sid (s : RpcSid) : Prop :=
  length (identifier_authority s) = 6%nat /\ (length (sub_authority s) < 256)%nat /\ Forall is_u32 (sub_authority s).

Lemma length_le4 l : length (flat_map (to_le_bytes 4) l) = (4 * length l)%nat.
Proof. induction l as [|x l IH]; [done|]. cbn [flat_map length]. rewrite length_app, length_to_le_bytes, IH. lia. Qed.

Lemma read_subs (a : bytes) l :
  Forall is_u32 l -> map (fun k => u32_at (a ++ flat_map (to_le_bytes 4) l) (length a + 4 * k)) (seq 0 (length l)) = l.
Proof.
  intros H. revert a. induction H as [|x l Hx _ IH]; intros a; [done|]. cbn [length seq map flat_map]. f_equal.
  - unfold u32_at. rewrite Nat.mul_0_r, Nat.add_0_r. rewrite slice_mid by (rewrite ?length_app, ?length_to_le_bytes; lia).
    unfold is_u32 in Hx. by rewrite from_to_le_bytes by (cbn; lia).
  - rewrite <- seq_shift, map_map. specialize (IH (a ++ to_le_bytes 4 x)). rewrite <- IH at 2. apply map_ext_in. intros k _.
    rewrite <- app_assoc, length_app, length_to_le_bytes. f_equal. lia.
Qed.

Lemma parse_sid_encoded tl dom r :
  wf_sid dom -> is_u32 r -> find_tl TL_KERBER_SID tl = Some (encode_sid_tl dom r) -> parse_sid_tl tl = Ok (Some dom, r).
Proof.
  intros (Ha & Hn & Hs) Hr E. unfold parse_sid_tl. rewrite E. cbn [contents encode_sid_tl]. clear E.
  unfold try_from_or. rewrite (proj2 (Z.ltb_lt (Z.of_nat (length (sub_authority dom))) _)) by lia.
  assert (u8z (z8 (Z.of_nat (length (sub_authority dom)))) = Z.of_nat (length (sub_authority dom))) as Eb.
  { rewrite byte.unsigned_of_Z. unfold byte.wrap. by rewrite Z.mod_small by lia. }
  destruct dom as [rv au sub]. cbn [revision identifier_authority sub_authority] in *.
  set (c := [x01] ++ to_le_bytes 4 r ++ [rv] ++ [z8 (Z.of_nat (length sub))] ++ au ++ flat_map (to_le_bytes 4) sub).
  assert (length c = 13 + 4 * length sub)%nat as Hl.
  { unfold c. rewrite !length_app, length_to_le_bytes, length_le4, Ha. cbn. lia. }
  assert (c !! 0%nat = Some x01) as E0 by done. rewrite E0, bool_decide_true by done. cbn [negb]. rewrite orb_false_r.
  assert (nth 5 c x00 = rv) as E5 by done. assert (nth 6 c x00 = z8 (Z.of_nat (length sub))) as E6 by done.
  rewrite E5, E6, Eb, Nat2Z.id. unfold blen. rewrite Hl. rewrite (proj2 (Z.ltb_ge _ _)) by lia. rewrite (proj2 (Z.ltb_ge _ _)) by lia.
  do 3 f_equal; [f_equal|].
  - unfold c. rewrite !app_assoc. rewrite <- (app_assoc _ au). apply slice_mid; rewrite ?length_app, ?length_to_le_bytes, ?Ha; done.
  - unfold c. rewrite !app_assoc. set (a := (((([x01] ++ to_le_bytes 4 r) ++ [rv]) ++ [z8 (Z.of_nat (length sub))]) ++ au)).
    assert (length a = 13%nat) as <- by (unfold a; rewrite !length_app, length_to_le_bytes, Ha; done). by apply read_subs.
  - unfold u32_at, c. rewrite slice_mid by (by rewrite ?length_app, ?length_to_le_bytes).
    unfold is_u32 in Hr. by rewrite from_to_le_bytes by (cbn; lia).
Qed.

(** Attributes that can be kept: named, without NULs. *)
Definition wf_attr (a : Name.ustr * Name.ustr) : Prop :=
  a.1 <> [] /\ scalar a.1 /\ scalar a.2 /\ ~ In 0 a.1 /\ ~ In 0 a.2.

Lemma as_bytes_nil s : Utf8.as_bytes s = [] -> s = [].
Proof.
  destruct s as [|c s]; [done|]. intros H. exfalso. unfold Utf8.as_bytes in H. cbn [flat_map] in H. apply app_nil in H as [H _].
  revert H. unfold Utf8.encode_char. repeat case_match; discriminate.
Qed.

Lemma attr_pairs_encoded l : Forall wf_attr l -> attr_pairs (split x00 (encode_string_attrs l)) = l.
Proof.
  induction 1 as [|[k v] l (Hne & Hk & Hv & Nk & Nv) _ IH]; [done|]. cbn [fst snd] in *. unfold encode_string_attrs in *. cbn [flat_map].
  rewrite <- !app_assoc. cbn [app]. rewrite split_one by (intros ?; by apply Nk, Utf8.as_bytes_nul).
  rewrite split_one by (intros ?; by apply Nv, Utf8.as_bytes_nul). cbn [attr_pairs].
  rewrite bool_decide_false by (intros ?%as_bytes_nil; done). rewrite !Utf8.lossy_chars_as_bytes by done. cbn [app] in *. by rewrite IH.
Qed.

Lemma attrs_of_type tl : attrs_from_tl tl = flat_map (fun t => attr_pairs (split x00 (contents t))) (of_type TL_STRING_ATTRS tl).
Proof.
  unfold attrs_from_tl. induction tl as [|x tl IH]; [done|]. cbn [flat_map]. rewrite of_type_cons, IH.
  by destruct (ty x =? TL_STRING_ATTRS).
Qed.

Lemma mkvno_of_type tl tl' : of_type TL_MKVNO tl = of_type TL_MKVNO tl' -> mkvno_from_tl tl = mkvno_from_tl tl'.
Proof. intros H. unfold mkvno_from_tl. by rewrite !find_of_type, H. Qed.

Section Kept.
Context {Prim : Primitives} {Laws : PrimitiveLaws}.
Context (rnd : nat -> option bytes * option bytes) (mkey : Key.ProtocolKey).
Context (Hrnd : History.rng_works rnd) (Hmkey : Ops.key_usable mkey 0).

(** ** Keys *)

Definition kept_key (k : KeyEntry) : Prop :=
  Key.wf (key k) /\ Key.etype (key k) = ke_etype k /\
  match salt_type k, kdb_salt k with Some _, Some _ => True | None, None => True | _, _ => False end.

Definition kept_old_key (k : KeyEntry) : Prop :=
  Key.wf (key k) /\ Key.etype (key k) = ke_etype k /\ salt_type k = None /\ kdb_salt k = None /\ is_u32 (kvno k).

Lemma wrapped i k :
  Key.wf (key k) -> exists enc, wrap rnd i mkey k = Ok enc /\ Ops.kdb_decrypt_key mkey enc = Ok (Key.as_bytes (key k)) /\
    (length enc <= 98)%nat.
Proof.
  intros W. destruct (Hrnd i) as (c & c8 & E & Hc & Hc8). unfold wrap. rewrite E. cbn [fst snd].
  assert (length (Key.as_bytes (key k)) <= 32)%nat as Hl.
  { unfold Key.wf in W. rewrite W. destruct (Key.etype (key k)); cbn; lia. }
  destruct (Ops.kdb_wrap_unwrap mkey c c8 (Key.as_bytes (key k)) Hmkey Hc Hc8) as (blob & Eb & Hd); [unfold blen; lia|].
  exists blob. rewrite Eb. split; [done|]. split; [done|]. apply Ops.kdb_wrap_length in Eb; [lia|done..].
Qed.

Lemma keys_read i ks : Forall kept_key ks -> exists ds, dump_keys rnd i mkey ks = Ok ds /\ keys_of mkey ds = Ok ks.
Proof.
  intros H. revert i. induction H as [|k ks (W & E & Hs) _ IH]; intros i; [by exists []|]. cbn [dump_keys].
  destruct (wrapped i k W) as (enc & -> & Hd & _). destruct (IH (S i)) as (ds & -> & Hks). eexists. split; [done|].
  cbn [keys_of]. unfold key_of. destruct k as [e kk v st sb]. cbn [salt_type kdb_salt ke_etype key kvno] in *.
  destruct st as [t|], sb as [b|]; try done; cbn [slots sl_ty sl_contents dk_ver dk_kvno]; rewrite EType.known_to_iana; cbn [crypto map_err];
    rewrite Hd; cbn [crypto map_err]; rewrite <- E, Key.from_bytes_of_key by done; cbn [crypto map_err]; by rewrite Hks.
Qed.

Lemma hist_key_local : local (decode_hist_key mkey).
Proof.
  intros b a r. unfold decode_hist_key. destruct (Nat.ltb_spec (length b) 10) as [|H10]; [done|].
  destruct (Nat.ltb_spec (length (drop 10 b)) (Z.to_nat (from_be_bytes (slice b 8 10)))) as [|Hln]; [done|].
  destruct (crypto (EType.known _)) as [et|] eqn:E1; [|done]. destruct (crypto (Ops.kdb_decrypt_key _ _)) as [raw|] eqn:E2; [|done].
  destruct (crypto (Key.from_bytes _ _)) as [k|] eqn:E3; [|done]. intros [= <- <-].
  rewrite !length_drop in *. split; [lia|]. intros x. rewrite length_app, (proj2 (Nat.ltb_ge _ _)) by lia.
  rewrite (Journal.slice_app_l b x 4 8), (Journal.slice_app_l b x 8 10), (take_app_le b x 4), (drop_app_le b x 10) by lia.
  rewrite length_app, length_drop, (proj2 (Nat.ltb_ge _ _)) by lia.
  rewrite take_app_le, drop_app_le by (rewrite length_drop; lia). by rewrite E1, E2, E3.
Qed.

Lemma hist_key_reads k i enc :
  kept_old_key k -> wrap rnd i mkey k = Ok enc ->
  reads (decode_hist_key mkey)
    (to_be_bytes 4 (EType.to_iana (ke_etype k) mod 2 ^ 32) ++ to_be_bytes 4 (kvno k) ++ to_be_bytes 2 (try_from_or 16 (blen enc) U16_MAX) ++ enc) k.
Proof.
  intros (W & E & Hs1 & Hs2 & Hv) Ew rest. destruct (wrapped i k W) as (enc' & Ew' & Hd & Hl).
  rewrite Ew in Ew'. injection Ew' as <-. unfold decode_hist_key. rewrite <- !app_assoc.
  assert (0 <= EType.to_iana (ke_etype k) mod 2 ^ 32 < 2 ^ 32) as Hm by (apply Z.mod_pos_bound; lia).
  unfold is_u32, blen, try_from_or in *. rewrite (proj2 (Z.ltb_lt (Z.of_nat (length enc)) _)) by lia.
  set (a := to_be_bytes 4 _). set (b := to_be_bytes 4 (kvno k)). set (c := to_be_bytes 2 _).
  assert (length a = 4%nat /\ length b = 4%nat /\ length c = 2%nat) as (La & Lb & Lc) by (unfold a, b, c; by rewrite !length_to_be_bytes).
  cbv zeta. rewrite !length_app, (proj2 (Nat.ltb_ge _ _)) by lia. rewrite take_app_length' by lia.
  assert (slice (a ++ b ++ c ++ enc ++ rest) 4 8 = b) as -> by (apply slice_mid; rewrite ?length_app; lia).
  rewrite (app_assoc a). assert (slice ((a ++ b) ++ c ++ enc ++ rest) 8 10 = c) as -> by (apply slice_mid; rewrite ?length_app; lia).
  rewrite (app_assoc (a ++ b)), drop_app_length' by (rewrite ?length_app; lia).
  unfold a, b, c. rewrite !from_to_be_bytes by (cbn; lia). rewrite Nat2Z.id, length_app, (proj2 (Nat.ltb_ge _ _)) by lia.
  rewrite take_app_length, drop_app_length.
  replace (Osa.cast_signed _) with (EType.to_iana (ke_etype k)) by (by destruct (ke_etype k)).
  rewrite EType.known_to_iana. cbn [crypto map_err]. rewrite Hd. cbn [crypto map_err]. rewrite <- E, Key.from_bytes_of_key by done.
  cbn [crypto map_err]. destruct k as [e kk v st sb]. cbn in *. by subst.
Qed.

Lemma hist_keys_read ks i :
  Forall kept_old_key ks -> exists b, encode_hist_keys rnd i mkey ks = Ok b /\
    forall e fuel rest, (length (b ++ rest) < fuel)%nat ->
      times e fuel (decode_hist_key mkey) (Z.of_nat (length ks)) (b ++ rest) = Ok (ks, rest).
Proof using Hrnd Hmkey Laws.
  intros H. revert i. induction H as [|k ks Hk _ IH]; intros i.
  { exists []. split; [done|]. intros e fuel rest _. by destruct fuel. }
  destruct (wrapped i k (proj1 Hk)) as (enc & Ew & _). destruct (IH (S i)) as (b & Eb & Hb). cbn [encode_hist_keys].
  rewrite Ew, Eb. eexists. split; [done|]. intros e fuel rest Hf. destruct fuel as [|fuel]; [lia|]. cbn [times length].
  rewrite (proj2 (Z.leb_gt _ _)) by lia.
  pose proof (hist_key_reads k i enc Hk Ew (b ++ rest)) as Er. destruct (hist_key_local _ _ _ Er) as [Hlt _].
  rewrite <- !app_assoc in *. rewrite Er. replace (Z.of_nat (S (length ks)) - 1) with (Z.of_nat (length ks)) by lia.
  rewrite Hb; [done|]. rewrite !length_app in *. lia.
Qed.

Lemma hist_read ks :
  Forall kept_old_key ks -> Z.of_nat (length ks) < 2 ^ 32 ->
  exists b, encode_hist rnd ks mkey = Ok b /\ decode_hist b mkey = Ok ks.
Proof using Hrnd Hmkey Laws.
  intros H Hl. destruct (hist_keys_read ks 0 H) as (b & Eb & Hb). unfold encode_hist. rewrite Eb. eexists. split; [done|].
  unfold decode_hist, try_from_or. rewrite (proj2 (Z.ltb_lt _ _)) by done.
  rewrite length_app, length_to_be_bytes, (proj2 (Nat.ltb_ge _ _)) by lia.
  rewrite take_app_length', drop_app_length' by (by rewrite length_to_be_bytes). rewrite from_to_be_bytes by (cbn; lia).
  specialize (Hb (Format None "truncated 0x4B04 hist tl_data") (S (length b)) []). rewrite app_nil_r in Hb. by rewrite Hb by lia.
Qed.

Lemma of_type_hist t tl h tl' : t <> TL_KERBER_HIST -> merge_hist_tl rnd tl h mkey = Ok tl' -> of_type t tl' = of_type t tl.
Proof.
  intros Ht. unfold merge_hist_tl. destruct h as [|k h].
  - intros [= <-]. rewrite of_type_retain. by rewrite (proj2 (Z.eqb_neq _ _)) by done.
  - destruct (encode_hist _ _ _) as [b|]; [|done]. intros [= <-]. rewrite of_type_app, of_type_retain, of_type_cons.
    cbn [ty]. rewrite !(proj2 (Z.eqb_neq _ _)) by done. cbn [negb]. by rewrite app_nil_r.
Qed.

Lemma hist_merged tl h :
  Forall kept_old_key h -> Z.of_nat (length h) < 2 ^ 32 ->
  exists tl', merge_hist_tl rnd tl h mkey = Ok tl' /\ hist_from_tl tl' mkey = Ok h.
Proof using Hrnd Hmkey Laws.
  intros H Hl. unfold merge_hist_tl, hist_from_tl. destruct h as [|k h].
  - eexists. split; [done|]. by rewrite find_tl_of_type, of_type_retain.
  - destruct (hist_read (k :: h) H Hl) as (b & -> & Hd). eexists. split; [done|].
    rewrite find_tl_of_type, of_type_app, of_type_retain. cbn [negb Z.eqb TL_KERBER_HIST Pos.eqb app]. by rewrite of_type_cons.
Qed.

(** ** The name *)

(** A name as it is read: its components in ASCII, of the type they imply, and a
    realm. *)
Definition kept_name (n : PrincipalName.PrincipalName) (r : bytes) : Prop :=
  PrincipalName.name_string n <> [] /\ PrincipalName.name_string n <> [[]] /\ Forall Utf8.ascii (PrincipalName.name_string n) /\
  PrincipalName.name_type n = unparsed_type (map Utf8.chars (PrincipalName.name_string n)) /\
  exists rl, scalar rl /\ rl <> [] /\ r = Utf8.as_bytes rl.

Lemma id_of_kept n r :
  kept_name n r -> exists rl, scalar rl /\ rl <> [] /\ r = Utf8.as_bytes rl /\
    lookup_principal_id n r = Name.unparse_name (map Utf8.chars (PrincipalName.name_string n)) rl.
Proof.
  intros (Hne & _ & Ha & Ht & rl & Hs & Hr & ->). exists rl. split; [done|]. split; [done|]. split; [done|].
  unfold lookup_principal_id. rewrite (proj2 (Z.eqb_neq _ _)).
  - unfold realm_chars. by rewrite Utf8.lossy_chars_as_bytes, comps_chars.
  - rewrite Ht. unfold unparsed_type. pose proof infer_not_enterprise. repeat case_match; done.
Qed.

Lemma id_scalar n r : kept_name n r -> scalar (lookup_principal_id n r).
Proof.
  intros H. destruct (id_of_kept n r H) as (rl & Hs & _ & _ & ->). destruct H as (_ & _ & Ha & _).
  apply scalar_unparsed; [|done]. apply List.Forall_map. eapply List.Forall_impl; [|exact Ha]. apply Utf8.scalar_chars.
Qed.

Lemma name_read n r : kept_name n r -> parse_unparsed (Utf8.as_bytes (lookup_principal_id n r)) = Ok (n, r).
Proof.
  intros H. unfold parse_unparsed. rewrite Utf8.from_utf8_as_bytes by (by apply id_scalar). cbn [default]. unfold Datatypes.id.
  destruct (id_of_kept n r H) as (rl & Hs & Hrl & -> & ->). destruct H as (Hne & Hne' & Ha & Ht & _).
  unfold Name.parse_name, Name.parse_name_ex. rewrite Name.parse_unparsed by (by destruct (PrincipalName.name_string n)).
  cbn [default Name.components Name.realm Datatypes.id]. rewrite (bool_decide_false (rl = [])) by done. cbn [orb].
  rewrite bool_decide_false.
  2: { intros E. apply Hne'. destruct (PrincipalName.name_string n) as [|c [|c' cs]]; try done. by destruct c. }
  unfold try_new. rewrite <- Ht. set (cs := PrincipalName.name_string n) in *.
  assert (forallb (forallb (fun c => c <? 0x80)) (map Utf8.chars cs) = true) as ->.
  { apply forallb_forall. intros x Hx. apply in_map_iff in Hx as (c & <- & Hc).
    apply forallb_forall. intros z Hz. apply in_map_iff in Hz as (y & <- & Hy).
    eapply List.Forall_forall in Ha; [|exact Hc]. eapply List.Forall_forall in Ha; [|exact Hy]. by apply Z.ltb_lt. }
  assert (map Utf8.as_bytes (map Utf8.chars cs) = cs) as ->.
  { rewrite map_map. transitivity (map Datatypes.id cs); [|apply map_id]. apply map_ext_in. intros c Hc.
    eapply List.Forall_forall in Ha; [|exact Hc]. by apply Utf8.as_bytes_chars. }
  by destruct n.
Qed.

(** Quoting leaves no tab and no newline in a name. *)
Lemma quoted_free s : ~ In 9 (Name.quote_component s) /\ ~ In 10 (Name.quote_component s).
Proof.
  split; intros H; apply in_flat_map in H as (c & _ & Hc); unfold Name.quote_char in Hc; repeat case_match; to_prop;
    cbn in Hc; unfold Name.BACKSLASH, Name.SLASH, Name.AT in *; destruct_or?; lia.
Qed.

Lemma unparsed_free comps r : ~ In 9 (Name.unparse_name comps r) /\ ~ In 10 (Name.unparse_name comps r).
Proof.
  destruct (quoted_free r) as [R1 R2].
  assert (forall c, c <> Name.SLASH -> (forall s, ~ In c (Name.quote_component s)) -> ~ In c (Name.unparse_components comps)) as Hj.
  { intros c Hc Hq. unfold Name.unparse_components. induction comps as [|k ks IH]; [intros []|]. cbn [map].
    destruct ks as [|k' ks]; [apply Hq|]. cbn [map Name.join]. rewrite in_app_iff. intros [?|[E|?]]; [by eapply Hq|by subst c|].
    by apply IH. }
  split; unfold Name.unparse_name; rewrite !in_app_iff; (intros [H|[[E|[]]|H]]; [revert H; apply Hj; [done|apply quoted_free]|discriminate E|done]).
Qed.

Lemma id_free n r c : kept_name n r -> c = TAB \/ c = LF -> ~ In c (Utf8.as_bytes (lookup_principal_id n r)).
Proof.
  intros H Hc Hin. pose proof (id_scalar n r H) as Hs. destruct (id_of_kept n r H) as (rl & _ & _ & _ & E). rewrite E in *.
  destruct (unparsed_free (map Utf8.chars (PrincipalName.name_string n)) rl) as [H9 H10].
  destruct Hc as [->| ->]; [apply H9; exact (Utf8.as_bytes_low _ TAB Hs eq_refl Hin)|].
  apply H10. exact (Utf8.as_bytes_low _ LF Hs eq_refl Hin).
Qed.

(** ** A principal as the store keeps it *)


Definition kept_hist (p : Principal) : list KeyEntry := if bool_decide (old_keys (kadm p) = []) then key_history p else [].

Record kept (x : Context_) (p : Principal) : Prop := {
  k_name : kept_name (name p) (realm p);
  k_keys : Forall kept_key (keys p);
  k_km : is_km p = true -> match keys p with k :: _ => Key.as_bytes (key k) = Key.as_bytes mkey | [] => True end;
  k_salt : salt p = salt_of_keys (keys p) (name p) (realm p);
  k_life : if bool_decide (is_Some (alias_target p)) then max_life p = 0 /\ max_renewable_life p = 0
           else is_u32 (max_life p) /\ is_u32 (max_renewable_life p);
  k_mkvno : mkvno p = mkvno_from_tl (base_tl x p);
  k_kadm : kadm_kept p (base_tl x p);
  k_hist : Forall kept_old_key (kept_hist p) /\ Z.of_nat (length (kept_hist p)) < 2 ^ 32;
  k_ring : old_keys (kadm p) <> [] -> of_type TL_KERBER_HIST (base_tl x p) = [];
  k_to : Forall nul_ended (s4u_allowed_to p);
  k_from : Forall nul_ended (s4u_allowed_from p);
  k_attrs : Forall wf_attr (string_attrs p);
  k_rid : is_u32 (rid p);
  k_domain : wf_sid (x_domain x);
}.

(** The types of tagged data that are written from the principal's own fields, or
    not at all. *)
Definition managed : list Z :=
  [TL_DB_ARGS; TL_KERBER_SERIAL; TL_KERBER_SID; TL_KERBER_RID_HWM; TL_CONSTRAINED_DELEGATION; TL_KERBER_S4U_FROM;
   TL_KADM_DATA; TL_KERBER_POLICY; TL_STRING_ATTRS; TL_KERBER_HIST].

Lemma written_other x p t : t ∉ managed -> of_type t (written_tl x p) = of_type t (base_tl x p).
Proof.
  unfold managed. rewrite !not_elem_of_cons. intros (H1 & H2 & H3 & H4 & H5 & H6 & H7 & H8 & H9 & _).
  unfold written_tl. rewrite of_type_attrs, (proj2 (Z.eqb_neq t TL_STRING_ATTRS)) by done. rewrite of_type_kadm_other by done.
  rewrite of_type_s4u by (unfold is_s4u_type; by rewrite !(proj2 (Z.eqb_neq _ _))). rewrite of_type_hwm by done.
  rewrite of_type_sid, (proj2 (Z.eqb_neq t TL_KERBER_SID)) by done. rewrite of_type_retain.
  by rewrite (proj2 (Z.eqb_neq t TL_DB_ARGS)), (proj2 (Z.eqb_neq t TL_KERBER_SERIAL)) by done.
Qed.

(** What is read of the written data, whatever is done with the history. *)
Record reads_tl (x : Context_) (p : Principal) (tl : list TlData) : Prop := {
  rt_sid : parse_sid_tl tl = Ok (if rid p =? 0 then None else Some (x_domain x), rid p);
  rt_kadm : exists o, Osa.from_tl tl = Ok o /\ policy_of o tl = pw_policy p /\ kadm_of o = kadm p;
  rt_attrs : attrs_from_tl tl = string_attrs p;
  rt_mkvno : mkvno_from_tl tl = mkvno p;
  rt_to : nul_tl_names tl TL_CONSTRAINED_DELEGATION = s4u_allowed_to p;
  rt_from : nul_tl_names tl TL_KERBER_S4U_FROM = s4u_allowed_from p;
  rt_other : forall t, t ∉ managed -> of_type t tl = of_type t (base_tl x p);
}.

Lemma reads_tl_ext x p tl tl' :
  (forall t, t <> TL_KERBER_HIST -> of_type t tl' = of_type t tl) -> reads_tl x p tl -> reads_tl x p tl'.
Proof.
  intros H [R1 R2 R3 R4 R5 R6 R7]. split.
  - unfold parse_sid_tl in *. rewrite find_tl_of_type in *. by rewrite H.
  - destruct R2 as (o & E1 & E2 & E3). exists o. unfold from_tl in *. fold (find_tl TL_KADM_DATA tl) in E1.
    fold (find_tl TL_KADM_DATA tl'). rewrite find_tl_of_type in *. rewrite H by done. split; [done|]. split; [|done].
    unfold policy_of in *. by rewrite (policy_from_of_type tl' tl) by (by apply H).
  - rewrite attrs_of_type in *. by rewrite H.
  - by rewrite <- R4; apply mkvno_of_type, H.
  - unfold nul_tl_names in *. fold (of_type TL_CONSTRAINED_DELEGATION tl') (of_type TL_CONSTRAINED_DELEGATION tl) in *. by rewrite H.
  - unfold nul_tl_names in *. fold (of_type TL_KERBER_S4U_FROM tl') (of_type TL_KERBER_S4U_FROM tl) in *. by rewrite H.
  - intros t Ht. rewrite H; [by apply R7|]. intros ->. apply Ht. unfold managed. do 9 right. left.
Qed.

Lemma written_reads x p : kept x p -> reads_tl x p (written_tl x p).
Proof.
  intros K. unfold written_tl. set (tl1 := retain_tl _ (base_tl x p)). set (tl2 := merge_sid_tl tl1 (x_domain x) (rid p)).
  set (tl3 := merge_rid_hwm tl2 _ _). set (tl4 := merge_s4u_tl tl3 p).
  assert (forall t, t ∉ [TL_DB_ARGS; TL_KERBER_SERIAL; TL_KERBER_SID; TL_KERBER_RID_HWM; TL_CONSTRAINED_DELEGATION; TL_KERBER_S4U_FROM] ->
    of_type t tl4 = of_type t (base_tl x p)) as H4.
  { intros t. rewrite !not_elem_of_cons. intros (H1 & H2 & H3 & H4' & H5 & H6 & _). unfold tl4, tl3, tl2, tl1.
    rewrite of_type_s4u by (unfold is_s4u_type; by rewrite !(proj2 (Z.eqb_neq _ _))). rewrite of_type_hwm by done.
    rewrite of_type_sid, (proj2 (Z.eqb_neq t TL_KERBER_SID)) by done. rewrite of_type_retain.
    by rewrite (proj2 (Z.eqb_neq t TL_DB_ARGS)), (proj2 (Z.eqb_neq t TL_KERBER_SERIAL)) by done. }
  split.
  - assert (of_type TL_KERBER_SID (merge_string_attrs_tl (merge_kadm_tl tl4 p) (string_attrs p)) =
      if negb (rid p =? 0) then [encode_sid_tl (x_domain x) (rid p)] else []) as E.
    { rewrite of_type_attrs, of_type_kadm_other by done. unfold tl4. rewrite of_type_s4u by done. unfold tl3.
      rewrite of_type_hwm by done. unfold tl2. by rewrite of_type_sid. }
    destruct (Z.eqb_spec (rid p) 0) as [E0|]; cbn [negb] in E.
    + unfold parse_sid_tl. by rewrite find_tl_of_type, E, E0.
    + apply parse_sid_encoded; [apply K|apply K|]. by rewrite find_tl_of_type, E.
  - assert (kadm_kept p tl4) as Hk by (apply (kadm_kept_ext p (base_tl x p)); [symmetry; apply H4; not_in..|apply K]).
    destruct (kadm_read tl4 p Hk) as (o & E1 & E2 & E3). exists o. unfold from_tl in *.
    fold (find_tl TL_KADM_DATA (merge_kadm_tl tl4 p)) in E1.
    fold (find_tl TL_KADM_DATA (merge_string_attrs_tl (merge_kadm_tl tl4 p) (string_attrs p))).
    rewrite find_tl_of_type, of_type_attrs. cbn [Z.eqb TL_KADM_DATA TL_STRING_ATTRS Pos.eqb]. rewrite <- find_tl_of_type. split; [done|]. split; [|done].
    unfold policy_of in *. rewrite (policy_from_of_type _ (merge_kadm_tl tl4 p)); [done|]. by rewrite of_type_attrs.
  - rewrite attrs_of_type, of_type_attrs. cbn [Z.eqb TL_STRING_ATTRS Pos.eqb]. pose proof (k_attrs x p K) as Ha.
    destruct (string_attrs p) as [|a l]; [done|]. cbn [flat_map contents]. by rewrite app_nil_r, attr_pairs_encoded.
  - rewrite (k_mkvno x p K). apply mkvno_of_type. rewrite of_type_attrs, of_type_kadm_other by done. apply H4. not_in.
  - unfold nul_tl_names. fold (of_type TL_CONSTRAINED_DELEGATION (merge_string_attrs_tl (merge_kadm_tl tl4 p) (string_attrs p))).
    rewrite of_type_attrs, of_type_kadm_other by done. cbn [Z.eqb TL_STRING_ATTRS TL_CONSTRAINED_DELEGATION Pos.eqb].
    by apply names_s4u; [apply (k_to x p K)|apply (k_from x p K)].
  - unfold nul_tl_names. fold (of_type TL_KERBER_S4U_FROM (merge_string_attrs_tl (merge_kadm_tl tl4 p) (string_attrs p))).
    rewrite of_type_attrs, of_type_kadm_other by done. cbn [Z.eqb TL_STRING_ATTRS TL_KERBER_S4U_FROM Pos.eqb].
    by apply names_s4u; [apply (k_to x p K)|apply (k_from x p K)].
  - intros t Ht. by apply (written_other x p t).
Qed.

(** The data with its history. *)
Lemma history_written x p :
  kept x p -> exists tl,
    match (if bool_decide (old_keys (kadm p) = []) then Some (key_history p) else None) with
    | Some h => merge_hist_tl rnd (written_tl x p) h mkey
    | None => Ok (written_tl x p)
    end = Ok tl /\ reads_tl x p tl /\ hist_from_tl tl mkey = Ok (kept_hist p).
Proof using Hrnd Hmkey Laws.
  intros K. pose proof (written_reads x p K) as R. destruct (k_hist x p K) as [Hh Hl]. unfold kept_hist in *.
  destruct (bool_decide (old_keys (kadm p) = [])) eqn:Eo.
  - destruct (hist_merged (written_tl x p) _ Hh Hl) as (tl & Et & Hd). exists tl. split; [done|]. split; [|done].
    apply (reads_tl_ext x p (written_tl x p)); [|done]. intros t Ht. by apply (of_type_hist t _ _ _ Ht Et).
  - apply bool_decide_eq_false in Eo. exists (written_tl x p). split; [done|]. split; [done|]. unfold hist_from_tl.
    rewrite find_tl_of_type. unfold written_tl. rewrite of_type_attrs. cbn [Z.eqb TL_KERBER_HIST TL_STRING_ATTRS Pos.eqb].
    rewrite of_type_kadm_other, of_type_s4u, of_type_hwm, of_type_sid by done. cbn [Z.eqb TL_KERBER_HIST TL_KERBER_SID Pos.eqb].
    rewrite of_type_retain. cbn [Z.eqb negb andb TL_KERBER_HIST TL_DB_ARGS TL_KERBER_SERIAL Pos.eqb]. by rewrite (k_ring x p K Eo).
Qed.

Lemma filter_other tl t :
  t ∉ managed -> of_type t (List.filter (fun u => negb (is_s4u_name_tl u) && negb (ty u =? TL_KERBER_RID_HWM)) tl) = of_type t tl.
Proof.
  intros Ht. induction tl as [|u tl IH]; [done|]. cbn [List.filter]. rewrite of_type_cons.
  destruct (negb (is_s4u_name_tl u) && negb (ty u =? TL_KERBER_RID_HWM)) eqn:E; [rewrite of_type_cons; by rewrite IH|].
  rewrite IH. destruct (Z.eqb_spec (ty u) t) as [<-|]; [|done]. exfalso. unfold managed in Ht. rewrite !not_elem_of_cons in Ht.
  destruct Ht as (_ & _ & _ & H4 & H5 & H6 & _). unfold is_s4u_name_tl in E. rewrite !(proj2 (Z.eqb_neq _ _)) in E by done. done.
Qed.

Lemma kept_lives x p :
  kept x p -> (if bool_decide (is_Some (alias_target p)) then (0, 0)
               else (try_from_or 32 (max_life p) U32_MAX, try_from_or 32 (max_renewable_life p) U32_MAX)) = (max_life p, max_renewable_life p).
Proof.
  intros K. pose proof (k_life x p K) as H. destruct (bool_decide _); [by destruct H as [-> ->]|]. destruct H as [H1 H2].
  unfold is_u32, try_from_or in *. by rewrite !(proj2 (Z.ltb_lt _ _)) by lia.
Qed.

Lemma persisted x l p :
  kept x p ->
  exists d tl, dump_principal rnd x mkey l p = Ok d /\
    into_principal mkey d =
      Ok (set_tl_data tl (set_key_history (kept_hist p) (Lockout.set_on l p)), if rid p =? 0 then None else Some (x_domain x)) /\
    (forall t, t ∉ managed -> of_type t tl = of_type t (base_tl x p)) /\ d_name d = Utf8.as_bytes (principal_id p).
Proof using Hrnd Hmkey Laws.
  intros K. unfold dump_principal. rewrite (kept_lives x p K). destruct (history_written x p K) as (tl & -> & R & Eh).
  destruct (keys_read (length (default [] (if bool_decide (old_keys (kadm p) = []) then Some (key_history p) else None))) _ (k_keys x p K))
    as (ds & -> & Eks).
  eexists _, (List.filter (fun u => negb (is_s4u_name_tl u) && negb (ty u =? TL_KERBER_RID_HWM)) tl).
  split; [done|]. split; [|split; [intros t Ht; rewrite filter_other by done; by apply R|done]].
  unfold into_principal. cbn [d_name d_keys d_tl_data d_attributes d_max_life d_max_renewable_life d_expiration d_pw_expiration
    d_last_success d_last_failed d_fail_auth_count d_e_data db_len]. unfold principal_id. rewrite (name_read _ _ (k_name x p K)), Eks.
  assert (is_km_name (name p) && match keys p with k :: _ => negb (bool_decide (Key.as_bytes (key k) = Key.as_bytes mkey)) | [] => false end = false) as ->.
  { pose proof (k_km x p K) as Hkm. unfold is_km in Hkm. unfold is_km_name. destruct (bool_decide _); [|done]. cbn [andb].
    specialize (Hkm eq_refl). destruct (keys p) as [|k ks]; [done|]. by rewrite bool_decide_true. }
  destruct R as [R1 (o & R2 & R2' & R2'') R3 R4 R5 R6 R7]. rewrite R1, R2. cbn [map_err]. rewrite Eh. fold (policy_of o tl) (kadm_of o).
  rewrite R2', R2'', R3, R4, R5, R6, <- (k_salt x p K). done.
Qed.

(** The data of the record, but for the history. *)
Lemma dump_tl x l p d t :
  dump_principal rnd x mkey l p = Ok d -> t <> TL_KERBER_HIST -> of_type t (d_tl_data d) = of_type t (written_tl x p).
Proof.
  unfold dump_principal. destruct (if bool_decide (is_Some _) then _ else _) as [life rlife].
  destruct (if bool_decide (old_keys _ = []) then _ else _) as [h|].
  - destruct (merge_hist_tl _ _ _ _) as [tl|] eqn:E; [|done]. destruct (dump_keys _ _ _ _); [|done]. intros [= <-] Ht. by eapply of_type_hist.
  - destruct (dump_keys _ _ _ _); [|done]. by intros [= <-].
Qed.

Lemma written_no_args x p : of_type TL_DB_ARGS (written_tl x p) = [].
Proof.
  unfold written_tl. rewrite of_type_attrs. cbn [Z.eqb TL_DB_ARGS TL_STRING_ATTRS Pos.eqb].
  rewrite of_type_kadm_other, of_type_s4u, of_type_hwm, of_type_sid by done. cbn [Z.eqb TL_DB_ARGS TL_KERBER_SID Pos.eqb].
  by rewrite of_type_retain.
Qed.

Lemma written_hwm x p :
  is_km p = true -> realm p = x_realm x -> of_type TL_KERBER_RID_HWM (written_tl x p) = [mkTl TL_KERBER_RID_HWM (to_le_bytes 4 (x_next_rid x))].
Proof.
  intros Hk Hr. unfold written_tl. rewrite of_type_attrs. cbn [Z.eqb TL_KERBER_RID_HWM TL_STRING_ATTRS Pos.eqb].
  rewrite of_type_kadm_other, of_type_s4u by done. rewrite Hk, bool_decide_true by done. cbn [andb]. unfold merge_rid_hwm.
  by rewrite of_type_app, of_type_retain.
Qed.

Lemma dump_wf x l p d : kept x p -> dump_principal rnd x mkey l p = Ok d -> fits d ->
  wf_dump d /\ Journal.wf_op (JPut d) /\ Journal.sid_ok (JPut d) = true.
Proof using Hrnd Hmkey Laws.
  intros K E F. destruct (persisted x l p K) as (d' & tl & E' & Ei & _ & En). rewrite E in E'. injection E' as <-.
  assert (~ In TAB (d_name d)) as Ht by (rewrite En; apply id_free; [apply K|by left]).
  assert (~ In LF (d_name d)) as Hl by (rewrite En; apply id_free; [apply K|by right]).
  split; [done|]. split; [done|]. cbn [Journal.sid_ok]. unfold into_principal in Ei.
  destruct (parse_unparsed _) as [[n r]|]; [|done]. destruct (keys_of _ _); [|done]. destruct (_ && _); [done|].
  by destruct (parse_sid_tl _) as [[??]|].
Qed.

(** C26: A principal is read from the database as it was written to it.  The record
    written for a principal that the store keeps gives, when it is read with the
    same master key, the principal again: its name, its keys out of their
    encryption and their salts, lifetimes, attributes, delegation, policy, string
    attributes and identifier, with the lockout state that was written.  Of the
    tagged data every type that is not made from these fields is kept.  If its
    numbers fit, the line that is written is read as that record. *)
Theorem principal_persisted x l p :
  kept x p ->
  exists d tl, dump_principal rnd x mkey l p = Ok d /\
    into_principal mkey d =
      Ok (set_tl_data tl (set_key_history (kept_hist p) (Lockout.set_on l p)), if rid p =? 0 then None else Some (x_domain x)) /\
    (forall t, t ∉ managed -> of_type t tl = of_type t (base_tl x p)) /\
    (fits d -> write_princ_record rnd x mkey l p = Ok (record d ++ [LF]) /\ ~ In LF (record d) /\
      exists rest, strip_prefix PRINC (record d) = Some rest /\ forall line, parse_princ_line line rest = Ok d).
Proof using Hrnd Hmkey Laws.
  intros K. destruct (persisted x l p K) as (d & tl & E & Ei & Ht & _). exists d, tl. split; [done|]. split; [done|].
  split; [done|]. intros F. destruct (dump_wf x l p d K E F) as (W & [_ Hlf] & _). unfold write_princ_record. rewrite E.
  split; [done|]. split; [by apply Journal.record_one_line|]. exists (rest_of d).
  split; [by rewrite record_rest, strip_prefix_app|]. intros line. by apply parse_rest.
Qed.

End Kept.

(** ** A change of the store in its file *)

Section Batch.
Context {Prim : Primitives} {Laws : PrimitiveLaws}.

(** The lines for the changed principals: their records, and the names of those that
    are gone.  The [i]th principal's keys are wrapped with the [i]th sequence of
    draws. *)
Fixpoint journal_ops_of (rnd : nat -> nat -> option bytes * option bytes) (x : Context_) (mkey : Key.ProtocolKey)
    (changed : list (id * option (Lockout.Lockout * Principal))) : res (list JournalOp) :=
  match changed with
  | [] => Ok []
  | (i, Some (l, p)) :: changed =>
      let? d := dump_principal (rnd O) x mkey l p in
      let? ops := journal_ops_of (fun n => rnd (S n)) x mkey changed in
      Ok (JPut d :: ops)
  | (i, None) :: changed =>
      let? ops := journal_ops_of (fun n => rnd (S n)) x mkey changed in
      Ok (JDel (Utf8.as_bytes i) :: ops)
  end.

Definition journal_batch rnd x mkey changed : res bytes :=
  let? ops := journal_ops_of rnd x mkey changed in Ok (Journal.batch ops).

Definition op_name (op : JournalOp) : bytes := match op with JPut d => d_name d | JDel n => n end.
Definition op_value (op : JournalOp) : option DumpPrincipal := match op with JPut d => Some d | JDel _ => None end.

Lemma apply_op_lookup db op n :
  Journal.apply_op db op !! n = if bool_decide (n = op_name op) then op_value op else db !! n.
Proof.
  destruct op as [d|m]; cbn [Journal.apply_op op_name op_value]; case_bool_decide as E.
  - subst n. by rewrite lookup_insert_eq.
  - by rewrite lookup_insert_ne by congruence.
  - subst n. by rewrite lookup_delete_eq.
  - by rewrite lookup_delete_ne by congruence.
Qed.

Lemma apply_ops_other ops db n : n ∉ map op_name ops -> fold_left Journal.apply_op ops db !! n = db !! n.
Proof.
  revert db. induction ops as [|op ops IH]; intros db; [done|]. cbn [map fold_left]. rewrite not_elem_of_cons. intros [Hn Hr].
  rewrite IH by done. rewrite apply_op_lookup. by rewrite bool_decide_false.
Qed.

Lemma apply_ops_in ops db op :
  NoDup (map op_name ops) -> op ∈ ops -> fold_left Journal.apply_op ops db !! op_name op = op_value op.
Proof.
  revert db. induction ops as [|o ops IH]; intros db; cbn [map fold_left]; [by intros _ ?%elem_of_nil|].
  intros [Ho Hn]%list.NoDup_cons [->|Hin]%elem_of_cons; [|by apply IH].
  rewrite apply_ops_other by done. by rewrite apply_op_lookup, bool_decide_true.
Qed.

(** A changed principal that can be written, or the name of one that is gone. *)
Definition writable (rnd : nat -> nat -> option bytes * option bytes) (x : Context_) (mkey : Key.ProtocolKey)
    (c : id * option (Lockout.Lockout * Principal)) : Prop :=
  match c with
  | (i, Some (l, p)) => kept mkey x p /\ principal_id p = i /\ forall n d, dump_principal (rnd n) x mkey l p = Ok d -> fits d
  | (i, None) => scalar i /\ ~ In LF (Utf8.as_bytes i) /\ list.last (Utf8.as_bytes i) <> Some x0d
  end.

Lemma writable_rest rnd x mkey cs : Forall (writable rnd x mkey) cs -> Forall (writable (fun n => rnd (S n)) x mkey) cs.
Proof.
  intros H. eapply List.Forall_impl; [|exact H]. intros [j [[l p]|]]; [|done]. intros (? & ? & Hf).
  split; [done|]. split; [done|]. intros n. apply Hf.
Qed.

(** What the line for it does. *)
Definition line_for (x : Context_) (mkey : Key.ProtocolKey) (c : id * option (Lockout.Lockout * Principal)) (op : JournalOp) : Prop :=
  Journal.wf_op op /\ Journal.sid_ok op = true /\ op_name op = Utf8.as_bytes c.1 /\
  match c.2, op with
  | Some (l, p), JPut d => exists tl, into_principal mkey d =
      Ok (set_tl_data tl (set_key_history (kept_hist p) (Lockout.set_on l p)), if rid p =? 0 then None else Some (x_domain x))
  | None, JDel _ => True
  | _, _ => False
  end.

Lemma lines_for rnd x mkey changed :
  (forall n, History.rng_works (rnd n)) -> Ops.key_usable mkey 0 -> Forall (writable rnd x mkey) changed ->
  exists ops, journal_ops_of rnd x mkey changed = Ok ops /\ Forall2 (line_for x mkey) changed ops.
Proof using Laws.
  intros Hr Hk H. revert rnd Hr H. induction changed as [|[i [[l p]|]] changed IH]; intros rnd Hr H; cbn [journal_ops_of].
  - exists []. split; [done|constructor].
  - apply Forall_cons_iff in H as [(K & Ei & Hf) H].
    destruct (persisted (rnd O) mkey (Hr O) Hk x l p K) as (d & tl & Ed & Ep & _ & En). rewrite Ed.
    destruct (dump_wf (rnd O) mkey (Hr O) Hk x l p d K Ed (Hf _ _ Ed)) as (_ & W & Hsid).
    destruct (IH (fun n => rnd (S n))) as (ops & -> & Ho); [intros n; apply Hr|by apply writable_rest|].
    exists (JPut d :: ops). split; [done|]. constructor; [|done]. split; [done|]. split; [done|]. cbn [op_name fst snd].
    rewrite En, Ei. split; [done|]. by exists tl.
  - apply Forall_cons_iff in H as [(Hs & Hl & Hc) H].
    destruct (IH (fun n => rnd (S n))) as (ops & -> & Ho); [intros n; apply Hr|by apply writable_rest|].
    exists (JDel (Utf8.as_bytes i) :: ops). split; [done|]. by constructor.
Qed.

Lemma as_bytes_inj a b : scalar a -> scalar b -> Utf8.as_bytes a = Utf8.as_bytes b -> a = b.
Proof. intros Ha Hb E. apply (f_equal Utf8.from_utf8) in E. rewrite !Utf8.from_utf8_as_bytes in E by done. congruence. Qed.

Lemma line_names x mkey changed ops :
  Forall2 (line_for x mkey) changed ops -> map op_name ops = map (fun c => Utf8.as_bytes c.1) changed /\
  Forall Journal.wf_op ops /\ forallb Journal.sid_ok ops = true.
Proof.
  induction 1 as [|c op changed ops (W & S & E & _) _ (IH1 & IH2 & IH3)]; [done|]. cbn [map forallb].
  rewrite E, IH1, S, IH3. split; [done|]. split; [by constructor|done].
Qed.

Lemma names_distinct rnd x mkey changed :
  Forall (writable rnd x mkey) changed -> NoDup (map fst changed) -> NoDup (map (fun c => Utf8.as_bytes c.1) changed).
Proof.
  intros H. assert (Forall (fun c => scalar c.1) changed) as Hs.
  { eapply List.Forall_impl; [|exact H]. intros [i [[l p]|]]; [intros (K & <- & _); by apply id_scalar, K|by intros (? & _)]. }
  clear H. induction Hs as [|c changed Hc Hs IH]; cbn [map]; [constructor|]. intros [Hn Hd]%list.NoDup_cons.
  apply list.NoDup_cons. split; [|by apply IH]. intros Hin. apply Hn. clear Hn Hd IH.
  apply list_elem_of_In, in_map_iff in Hin as (c' & E & Hin'). apply list_elem_of_In, in_map_iff. exists c'. split; [|done].
  apply as_bytes_inj; [|done|done]. by eapply List.Forall_forall in Hs.
Qed.

(** C24: A change of the store is what its file then holds.  Let a file have been
    read to its end, and let the principals that a change touched be written after
    it.  Then the file can be read, and under the name of each principal it holds a
    record that is read as that principal; it holds nothing under the names of those
    that are gone, and under every other name what it held. *)
Theorem change_persisted rnd x mkey (t : bytes) (F : DumpFile) (changed : list (id * option (Lockout.Lockout * Principal))) :
  (forall n, History.rng_works (rnd n)) -> Ops.key_usable mkey 0 ->
  Journal.ended t -> parse_dump t = Ok F -> applied_len F = length t ->
  Forall (writable rnd x mkey) changed -> NoDup (map fst changed) ->
  exists b file F', journal_batch rnd x mkey changed = Ok b /\ Journal.append_change (applied_len F) b t = Ok file /\
    parse_dump file = Ok F' /\ policies F' = policies F /\ applied_len F' = length file /\
    (forall i l p, (i, Some (l, p)) ∈ changed -> exists d tl, Journal.database F' !! Utf8.as_bytes i = Some d /\
      into_principal mkey d =
        Ok (set_tl_data tl (set_key_history (kept_hist p) (Lockout.set_on l p)), if rid p =? 0 then None else Some (x_domain x))) /\
    (forall i, (i, None) ∈ changed -> Journal.database F' !! Utf8.as_bytes i = None) /\
    (forall n, n ∉ map (fun c => Utf8.as_bytes c.1) changed -> Journal.database F' !! n = Journal.database F !! n).
Proof using Laws.
  intros Hr Hk Ht EF Ha Hw Hd. destruct (lines_for rnd x mkey changed Hr Hk Hw) as (ops & Eo & H2).
  destruct (line_names x mkey changed ops H2) as (En & Hwf & Hsid). pose proof (names_distinct _ _ _ _ Hw Hd) as Hn. rewrite <- En in Hn.
  destruct (Journal.parse_dump_app t (Journal.batch ops) F ops _ Ht EF Ha (Journal.tail_whole ops Hwf) Hsid)
    as (F' & E' & _ & D & P & _ & A).
  exists (Journal.batch ops), (t ++ Journal.batch ops), F'. unfold journal_batch. rewrite Eo. split; [done|].
  unfold Journal.append_change. rewrite Ha, Nat.ltb_irrefl, firstn_all. split; [done|]. split; [done|]. split; [done|].
  split; [by rewrite length_app|]. rewrite D, <- En. split; [|split].
  - intros i l p Hin. apply list_elem_of_lookup in Hin as [j Hj]. destruct (Forall2_lookup_l _ _ _ _ _ H2 Hj) as (op & Hop & _ & _ & E & Hl).
    cbn [fst snd] in *. destruct op as [d|m]; [|done]. destruct Hl as [tl Hl]. exists d, tl. rewrite <- E.
    split; [|done]. apply (apply_ops_in ops _ (JPut d) Hn). by eapply list_elem_of_lookup_2.
  - intros i Hin. apply list_elem_of_lookup in Hin as [j Hj]. destruct (Forall2_lookup_l _ _ _ _ _ H2 Hj) as (op & Hop & _ & _ & E & Hl).
    cbn [fst snd] in *. destruct op as [d|m]; [done|]. rewrite <- E. apply (apply_ops_in ops _ (JDel m) Hn). by eapply list_elem_of_lookup_2.
  - intros n Hin. by apply apply_ops_other.
Qed.

End Batch.

(** ** A small change *)

Definition sample_context : Context_ := mkContext [x52] (mkSid x01 [x00; x00; x00; x00; x00; x05] [21; 1]) 1002 1700000000.

Definition sample_entry : KeyEntry :=
  mkEntry Aes128CtsHmacSha196 (Key.mk Aes128CtsHmacSha196 (replicate 16 x21)) 3 (Some 4) (Some [x73; x61; x6c; x74]).

Definition sample_kept : Principal :=
  mkPrincipal (PrincipalName.mkName 1 [lit_bytes "alice"]) [x52] [sample_entry] [History.sample_key 1] [x73; x61; x6c; x74] 86400 0 0 0 0 0 0
    0 1 38 [mkTl TL_MKVNO [x01; x00]; mkTl TL_MOD_PRINC [x00; x00; x00; x00; x61; x00]] [] 1001 [] [lit_bytes "http/x@R"]
    (Some (EncList.lit "default")) (mkKadm KADM5_POLICY 0 2 []) [(EncList.lit "a", EncList.lit "")].

Lemma sample_is_kept : kept Ops.sample_aes sample_context sample_kept.
Proof.
  assert (forall c, is_Some (Utf8.from_utf8 c) <-> bool_decide (is_Some (Utf8.from_utf8 c)) = true) as Hu.
  { intros c. by rewrite bool_decide_eq_true. }
  split.
  - split; [done|]. split; [done|]. split; [repeat constructor|]. split; [done|]. exists [82]. split; [by repeat constructor|done].
  - apply Forall_cons; [|apply Forall_nil]. done.
  - done.
  - done.
  - done.
  - done.
  - unfold kadm_kept. change (find_tl _ _) with (@None TlData). cbn [bool_decide andb]. split; [|split; [done|discriminate]].
    split; [|done]. split; [by repeat constructor|]. split; [cbn; intuition discriminate|done].
  - split; [|done]. apply Forall_cons; [|apply Forall_nil]. done.
  - done.
  - apply Forall_cons; [|apply Forall_nil]. split; [done|]. split; [cbn; intuition discriminate|]. apply Hu. done.
  - apply Forall_nil.
  - apply Forall_cons; [|apply Forall_nil]. split; [done|]. split; [by repeat constructor|]. split; [constructor|].
    split; cbn; intuition discriminate.
  - done.
  - split; [done|]. split; [cbn; lia|]. apply Forall_cons; [done|]. apply Forall_cons; [done|]. apply Forall_nil.
Qed.

Definition sample_lockout : Lockout.Lockout := Lockout.mkLockout 5 6 2.

Definition sample_record : res DumpPrincipal :=
  @dump_principal ToyPrimitives History.toy_rnd sample_context Ops.sample_aes sample_lockout sample_kept.

Lemma sample_fits d : sample_record = Ok d -> fits d.
Proof.
  intros H. assert (match sample_record with Ok d => wf_dumpb d | Err _ => false end = true) as W by (by vm_compute).
  rewrite H in W. by apply wf_dumpb_spec in W as [? _].
Qed.

Lemma sample_draws : History.rng_works History.toy_rnd.
Proof. intros i. eexists _, _. split; [reflexivity|by split]. Qed.

Lemma sample_mkey : @Ops.key_usable ToyPrimitives Ops.sample_aes 0.
Proof. split; [reflexivity|]. discriminate. Qed.

Lemma principal_persisted_witness :
  exists d p, sample_record = Ok d /\ @into_principal ToyPrimitives Ops.sample_aes d = Ok (p, Some (x_domain sample_context)) /\
    keys p = [sample_entry] /\ string_attrs p = [(EncList.lit "a", [])] /\ pw_policy p = Some (EncList.lit "default").
Proof.
  destruct (@principal_persisted ToyPrimitives toy_laws History.toy_rnd Ops.sample_aes sample_draws sample_mkey sample_context
    sample_lockout sample_kept sample_is_kept) as (d & tl & Ed & Ei & _).
  exists d. eexists. split; [exact Ed|]. split; [exact Ei|]. by split.
Defined.

Definition sample_changed : list (id * option (Lockout.Lockout * Principal)) :=
  [(principal_id sample_kept, Some (sample_lockout, sample_kept)); (EncList.lit "alice@EXAMPLE.COM", None)].

Lemma change_persisted_witness :
  exists b file F', @journal_batch ToyPrimitives (fun _ => History.toy_rnd) sample_context Ops.sample_aes sample_changed = Ok b /\
    file = Journal.sample_file ++ b /\ parse_dump file = Ok F' /\
    Journal.database F' !! text "alice@EXAMPLE.COM" = None.
Proof.
  destruct (parse_dump Journal.sample_file) as [F|] eqn:EF; [|vm_compute in EF; discriminate].
  assert (applied_len F = length Journal.sample_file) as Ha by (vm_compute in EF; injection EF as <-; by vm_compute).
  destruct (@change_persisted ToyPrimitives toy_laws (fun _ => History.toy_rnd) sample_context Ops.sample_aes Journal.sample_file F
    sample_changed) as (b & file & F' & Eb & Ef & EF' & _ & _ & _ & Hd & _).
  - intros n. apply sample_draws.
  - apply sample_mkey.
  - right. by vm_compute.
  - exact EF.
  - exact Ha.
  - apply Forall_cons; [|apply Forall_cons; [|apply Forall_nil]].
    + split; [apply sample_is_kept|]. split; [done|]. intros n d. apply sample_fits.
    + split; [by repeat constructor|]. split; [cbn; intuition discriminate|done].
  - apply list.NoDup_cons. split; [|apply NoDup_singleton]. rewrite list_elem_of_singleton. by vm_compute.
  - exists b, file, F'. split; [exact Eb|]. split.
    + unfold Journal.append_change in Ef. rewrite Ha, Nat.ltb_irrefl, firstn_all in Ef. by injection Ef as <-.
    + split; [exact EF'|]. apply (Hd (EncList.lit "alice@EXAMPLE.COM")). right. left.
Defined.

End DumpKept.
