(* ===== verification/DumpStore.v ===== *)
(** * A store in the database's text

    Models [write_dump_nra] and [into_store] of [krb5-kdc/src/kdb_dump.rs]: the
    text a whole store is written as, its principals in the order of their names
    after the master key and its password policies, and the store such a text is
    read as; and the headers of the texts sent to replicas.  A store that is written
    and read has the principals and the policies it had. *)

From stdpp Require Import sorting.
From S2P Require Import Prelude Reader StateErr Ascii Utf8 Etype Primitives Cts Derive Weak Ops Decimal Name EncList.
From S2P Require Import Kdc Lockout LockoutFile Osa History PMap Pwqual Acl Store Iprop Ulog StoreOps StoreAlias DumpText Journal Dump DumpKept.

Module DumpStore.
Import PMap Osa Store StoreOps StoreAlias DumpText Dump.

(** ** Policies *)

Definition policy_fields (pol : NamedPolicy) : list bytes :=
  [Utf8.as_bytes (np_name pol); dec (pw_min_life pol); dec (pw_max_life pol); dec (min_length pol); dec (min_classes pol);
   dec (history pol); text "0"; dec (max_fail pol); dec (pw_failcnt_interval pol); dec (pw_lockout_duration pol);
   text "0"; text "0"; text "0"; match allowed_keysalts pol with Some ks => Utf8.as_bytes ks | None => text "-" end; text "0"].

Definition policy_line (pol : NamedPolicy) : bytes := text "policy" ++ tabbed (policy_fields pol).

(** [s.parse().ok().unwrap_or(0)] of the [i]th field. *)
Definition num (parts : list bytes) (i : nat) : Z := default 0 (s ← parts !! i; parse_unsigned U32_MAX s).

Definition str (b : bytes) : Name.ustr := default [] (Utf8.from_utf8 b).

Definition parse_policy_rest (rest : bytes) : NamedPolicy :=
  let parts := split TAB rest in
  let ks := default (text "-") (parts !! 13%nat) in
  mkNamedPolicy (str (default [] (parts !! 0%nat))) (num parts 3) (num parts 4) (num parts 5) (num parts 7) (num parts 8) (num parts 9)
    (num parts 1) (num parts 2)
    (if bool_decide (ks = []) || bool_decide (ks = text "-") then None else Some (str ks)).

(** ** Files *)

Definition HEADER : bytes := text "kdb5_util load_dump version ".

(** [DumpFile::text]. *)
Definition file_text (v : Z) (ps : list DumpPrincipal) (rests : list bytes) : bytes :=
  Journal.line_of (HEADER ++ dec v) ++ flat_map (fun p => Journal.line_of (record p)) ps ++
  flat_map (fun r => Journal.line_of (POLICY ++ r)) rests.

Definition policy_records (F : DumpFile) : list bytes := map (fun r => policy_line (parse_policy_rest r)) (policies F).

(** [DumpFile::policy_record]: older versions have fewer fields. *)
Definition policy_record (rest : bytes) (v : Z) : bytes :=
  let join (l : list bytes) := match l with f :: fs => f ++ tabbed fs | [] => [] end in
  if v =? KDB_DUMP_VERSION then POLICY ++ rest
  else if v <=? 5 then POLICY ++ join (take 6 (split TAB rest)) ++ [TAB] ++ text "0"
  else POLICY ++ join (take 10 (split TAB rest)).

(** What follows the last [@]. *)
Fixpoint after_last (c : byte) (s : bytes) : option bytes :=
  match s with
  | [] => None
  | b :: s =>
      match after_last c s with
      | Some r => Some r
      | None => if bool_decide (b = c) then Some s else None
      end
  end.

Definition file_realm (F : DumpFile) : res bytes :=
  match princs F with
  | [] => Err (Format None "dump has no princ records")
  | p :: _ =>
      match after_last x40 (d_name p) with
      | Some ((_ :: _) as r) => Ok r
      | _ => Err (Format None "missing realm")
      end
  end.

Definition file_princ (F : DumpFile) (name : bytes) : option DumpPrincipal := List.find (fun p => bool_decide (d_name p = name)) (princs F).

Definition master_etype (F : DumpFile) : option EncryptionType :=
  match file_realm F with
  | Err _ => None
  | Ok r =>
      km ← file_princ F (text "K/M@" ++ r);
      k ← head (d_keys km);
      s ← head (slots k);
      match EType.known (sl_ty s) with Ok e => Some e | Err _ => None end
  end.

(** The headers of a text for a replica: the place in the update log it stands for. *)
Definition space : bytes := [x20].

Definition last_text (l : Ulog.UlogLast) : bytes := dec (Ulog.la_sno l) ++ space ++ dec (Iprop.seconds (Ulog.la_time l)) ++ space ++ dec (Iprop.useconds (Ulog.la_time l)).

(** [text.replacen(header, .., 1)]: the first of the two in the text. *)
Fixpoint replace_first (old new s : bytes) : bytes :=
  match strip_prefix old s with
  | Some rest => new ++ rest
  | None => match s with [] => [] | b :: s => b :: replace_first old new s end
  end.

Definition iprop_header (l : Ulog.UlogLast) (t : bytes) : bytes :=
  replace_first (Journal.line_of (HEADER ++ dec KDB_DUMP_VERSION)) (Journal.line_of (text "ipropx 1 " ++ last_text l)) t.

(** [text.lines()]. *)
Definition str_lines (t : bytes) : list bytes := map (fun r => without_last x0d r.1) (raw_lines t).

Definition iprop_v0 (l : Ulog.UlogLast) (t : bytes) : bytes :=
  Journal.line_of (text "iprop " ++ last_text l) ++
  flat_map (fun w => Journal.line_of match strip_prefix POLICY w with Some rest => policy_record rest 5 | None => w end)
    (drop 1 (str_lines t)).

(** [str::split_whitespace]. *)
Fixpoint split_spaces (s : Name.ustr) : list Name.ustr :=
  match s with
  | [] => [[]]
  | c :: s =>
      if EncList.is_whitespace c then [] :: split_spaces s
      else match split_spaces s with [] => [[c]] | w :: ws => (c :: w) :: ws end
  end.

Definition split_whitespace (s : Name.ustr) : list Name.ustr := List.filter (fun w => negb (bool_decide (w = []))) (split_spaces s).

Inductive IpropHeaderError := NotIprop | UnknownVersion (v : Z) | Short.

(** [words.map_while(|w| w.parse().ok()).take(4)]. *)
Fixpoint leading_numbers (n : nat) (words : list Name.ustr) : list Z :=
  match n, words with
  | S n, w :: words =>
      match parse_unsigned U32_MAX (Utf8.as_bytes w) with Some v => v :: leading_numbers n words | None => [] end
  | _, _ => []
  end.

Definition last_of (sno s u : Z) : Ulog.UlogLast := Ulog.mkLast sno (Iprop.mkTime s u).

Definition parse_iprop_header (line : bytes) : result IpropHeaderError (bool * Ulog.UlogLast) :=
  match split_whitespace (str line) with
  | [] => Err NotIprop
  | head :: words =>
      let nums := leading_numbers 4 words in
      if bool_decide (head = EncList.lit "ipropx") then
        match nums with
        | [v; a; b; c] => if v =? 0 then Ok (false, last_of a b c) else if v =? 1 then Ok (true, last_of a b c) else Err (UnknownVersion v)
        | _ => Err Short
        end
      else if bool_decide (head = EncList.lit "iprop") then
        match nums with [a; b; c] => Ok (false, last_of a b c) | _ => Err Short end
      else Err NotIprop
  end.

(** ** Writing a store *)

(** The order of strings. *)
Fixpoint ustr_leb (a b : Name.ustr) : bool :=
  match a, b with
  | [], _ => true
  | _ :: _, [] => false
  | x :: a, y :: b => (x <? y) || ((x =? y) && ustr_leb a b)
  end.

(** The key of a principal: the master key is first. *)
Definition key_leb (p q : Principal) : bool :=
  let a := components_joined (name p) in
  let b := components_joined (name q) in
  if is_km p then negb (is_km q) || ustr_leb a b else negb (is_km q) && ustr_leb a b.

Definition sort_by {A} (leb : A -> A -> bool) (l : list A) : list A := merge_sort (fun a b => Is_true (leb a b)) l.

Section Write.
Context {Prim : Primitives}.

Definition synthesize_km (realm : bytes) (mkey : Key.ProtocolKey) (now life rlife : Z) : Principal :=
  let n := PrincipalName.mkName PrincipalName.NT_PRINCIPAL [lit_bytes "K"; lit_bytes "M"] in
  let p := from_keys n realm [new_entry (Key.etype mkey) mkey 1] (default_salt n realm) false life true 0 in
  let p := Kdc.set_attributes (Z.lor KDB_DISALLOW_ALL_TIX Acl.KDB_LOCKDOWN_KEYS) p in
  let p := Kdc.set_max_renewable_life rlife p in
  set_tl_data (synthesize_tl realm now 1 true) p.

(** The principals that are written, in their order. *)
Definition dumped (now : Z) (s : Store) (mkey : Key.ProtocolKey) : list Principal :=
  let ps := sort_by key_leb (map snd (map_to_list (rows (s_map s)))) in
  (if existsb is_km ps then []
   else [synthesize_km (s_realm s) mkey now (po_max_life (s_policy s)) (po_max_renewable_life (s_policy s))]) ++ ps.

(** [lk]: the lockout state the store keeps of a principal; it is written as zeros
    with [omit_nra].  The [i]th record is written with the [i]th sequence of draws. *)
Fixpoint dump_principals (rnd : nat -> nat -> option bytes * option bytes) (x : Context_) (mkey : Key.ProtocolKey)
    (lk : Principal -> Lockout.Lockout) (omit_nra : bool) (ps : list Principal) : res (list DumpPrincipal) :=
  match ps with
  | [] => Ok []
  | p :: ps =>
      let? d := dump_principal (rnd O) x mkey (if omit_nra then Lockout.mkLockout 0 0 0 else lk p) p in
      let? ds := dump_principals (fun n => rnd (S n)) x mkey lk omit_nra ps in
      Ok (d :: ds)
  end.

Definition sorted_policies (s : Store) : list NamedPolicy :=
  omap (fun n => s_policies s !! n) (sort_by ustr_leb (map fst (map_to_list (s_policies s)))).

Definition write_dump_nra rnd (domain : RpcSid) (now : Z) (lk : Principal -> Lockout.Lockout) (omit_nra : bool) (s : Store)
    (mkey : Key.ProtocolKey) : res bytes :=
  let x := mkContext (s_realm s) domain (s_next_rid s) now in
  let? ds := dump_principals rnd x mkey lk omit_nra (dumped now s mkey) in
  Ok (Journal.line_of (HEADER ++ dec KDB_DUMP_VERSION) ++ flat_map (fun d => Journal.line_of (record d)) ds ++
      flat_map (fun pol => Journal.line_of (policy_line pol)) (sorted_policies s)).

(** ** Reading a store *)

Record Load := mkLoad { ld_store : Store; ld_domain : option RpcSid; ld_hwm : option Z; ld_rids : gmap Z id }.

Definition load_principal (mkey : Key.ProtocolKey) (d : DumpPrincipal) (ld : Load) : res Load :=
  let km := bool_decide (is_Some (strip_prefix (text "K/M@") (d_name d))) in
  let hwm := if km then rid_hwm_of (d_tl_data d) else ld_hwm ld in
  let? (p, sid) := into_principal mkey d in
  if negb (rid p =? 0) && negb (is_km p) && bool_decide (is_Some (ld_rids ld !! rid p)) then Err (Format None "duplicate RID")
  else
    let seen := if negb (rid p =? 0) && negb (is_km p) then <[rid p := principal_id p]> (ld_rids ld) else ld_rids ld in
    let dom := if km then match sid with Some s => Some s | None => ld_domain ld end
               else match ld_domain ld with None => sid | dom => dom end in
    Ok (mkLoad (debug_insert p (ld_store ld)) dom hwm seen).

Fixpoint load_principals (mkey : Key.ProtocolKey) (ds : list DumpPrincipal) (ld : Load) : res Load :=
  match ds with
  | [] => Ok ld
  | d :: ds => let? ld := load_principal mkey d ld in load_principals mkey ds ld
  end.

Definition load_policy (pol : NamedPolicy) (s : Store) : Store := set_policies (<[np_name pol := pol]> (s_policies s)) s.

Definition raise_next_rid (next : Z) (s : Store) : Store :=
  if (RID_FIRST_USER <=? next) && (s_next_rid s <? next) then set_identity (s_sid s) next s else s.

Definition resolve_history_all (s : Store) : Store :=
  let hist := history_key s in
  set_map (set_rows ((fun p => History.resolve_history p hist) <$> rows (s_map s)) (s_map s)) s.

(** [s0]: a fresh store for the realm.  The domain's identifier is given with the
    store; the store itself has its sub-authorities. *)
Definition into_store (mkey : Key.ProtocolKey) (s0 : bytes -> Store) (F : DumpFile) : res (Store * option RpcSid) :=
  if existsb (fun p => negb (is_ok (strip_db_args (d_tl_data p)))) (princs F) then Err (Format None "while storing")
  else
    let? r := file_realm F in
    let? ld := load_principals mkey (princs F) (mkLoad (s0 r) None None ∅) in
    let s := fold_left (fun s rest => load_policy (parse_policy_rest rest) s) (policies F) (ld_store ld) in
    let s := resolve_history_all s in
    let s := match ld_domain ld with Some d => set_identity (sub_authority d) (s_next_rid s) s | None => s end in
    let s := match ld_hwm ld with Some n => raise_next_rid n s | None => s end in
    Ok (raise_next_rid (sat_add (seen_rid F) 1) s, ld_domain ld).

End Write.

(** ** Policies read back *)

Definition wf_pol (pol : NamedPolicy) : Prop :=
  scalar (np_name pol) /\ ~ In 9 (np_name pol) /\ ~ In 10 (np_name pol) /\
  Forall is_u32 [pw_min_life pol; pw_max_life pol; min_length pol; min_classes pol; history pol; max_fail pol;
                 pw_failcnt_interval pol; pw_lockout_duration pol] /\
  match allowed_keysalts pol with
  | Some ks => scalar ks /\ ~ In 9 ks /\ ~ In 10 ks /\ ks <> [] /\ ks <> EncList.lit "-"
  | None => True
  end.

Definition policy_rest (pol : NamedPolicy) : bytes :=
  match policy_fields pol with f :: fs => f ++ tabbed fs | [] => [] end.

Lemma policy_line_rest pol : policy_line pol = POLICY ++ policy_rest pol.
Proof. unfold policy_line, policy_rest, policy_fields, POLICY. cbn [tabbed flat_map]. by rewrite <- !app_assoc. Qed.

Lemma scalar_free s b : scalar s -> u8z b < 0x80 -> ~ In (u8z b) s -> ~ In b (Utf8.as_bytes s).
Proof. intros Hs Hb Hn Hin. by apply Hn, Utf8.as_bytes_low. Qed.

Lemma policy_fields_free pol c : wf_pol pol -> c = TAB \/ c = LF -> Forall (fun f => ~ In c f) (policy_fields pol).
Proof.
  intros (Hs & H9 & H10 & _ & Hk) Hc.
  assert (forall n, ~ In c (dec n)) as Hd by (intros n; apply plain_free; [apply plain_dec|by destruct Hc as [->| ->]]).
  assert (forall s, scalar s -> ~ In 9 s -> ~ In 10 s -> ~ In c (Utf8.as_bytes s)) as Hf.
  { intros s Ss S9 S10. destruct Hc as [->| ->]; by apply scalar_free. }
  assert (~ In c (text "0") /\ ~ In c (text "-")) as [H0 Hm] by (destruct Hc as [->| ->]; split; cbn; intuition discriminate).
  unfold policy_fields. repeat (apply Forall_cons; [first [apply Hd|exact H0|by apply Hf|idtac]|]); [|apply Forall_nil].
  destruct (allowed_keysalts pol) as [ks|]; [|done]. destruct Hk as (K1 & K2 & K3 & _). by apply Hf.
Qed.

Lemma num_dec l i n : l !! i = Some (dec n) -> is_u32 n -> num l i = n.
Proof. intros E Hn. unfold num. rewrite E. cbn [mbind option_bind]. unfold is_u32 in Hn. by rewrite parse_unsigned_dec by (unfold U32_MAX; lia). Qed.

Lemma split_policy_rest pol : wf_pol pol -> split TAB (policy_rest pol) = policy_fields pol.
Proof. intros W. pose proof (policy_fields_free pol TAB W (or_introl eq_refl)) as Hf. by apply split_tabbed. Qed.

Lemma policy_read pol : wf_pol pol -> parse_policy_rest (policy_rest pol) = pol.
Proof.
  intros W. pose proof (split_policy_rest pol W) as E. destruct W as (Hs & _ & _ & Hn & Hk).
  unfold parse_policy_rest. rewrite E. cbn zeta. unfold str.
  repeat (apply Forall_cons_iff in Hn as [? Hn]).
  rewrite (num_dec _ 1 (pw_min_life pol)), (num_dec _ 2 (pw_max_life pol)), (num_dec _ 3 (min_length pol)), (num_dec _ 4 (min_classes pol)),
    (num_dec _ 5 (history pol)), (num_dec _ 7 (max_fail pol)), (num_dec _ 8 (pw_failcnt_interval pol)), (num_dec _ 9 (pw_lockout_duration pol)) by done.
  change (policy_fields pol !! 0%nat) with (Some (Utf8.as_bytes (np_name pol))).
  change (policy_fields pol !! 13%nat) with (Some match allowed_keysalts pol with Some ks => Utf8.as_bytes ks | None => text "-" end).
  cbn [default]. unfold Datatypes.id. rewrite Utf8.from_utf8_as_bytes by done. cbn [default]. unfold Datatypes.id.
  destruct pol as [nm a b c d e f g h ak]. cbn [allowed_keysalts np_name min_length min_classes history max_fail pw_failcnt_interval
    pw_lockout_duration pw_min_life pw_max_life] in *. f_equal.
  destruct ak as [ks|]; [|done]. destruct Hk as (K1 & _ & _ & K4 & K5).
  rewrite (bool_decide_false (Utf8.as_bytes ks = [])) by (intros ?%DumpKept.as_bytes_nil; done).
  rewrite (bool_decide_false (Utf8.as_bytes ks = text "-")); [by rewrite Utf8.from_utf8_as_bytes|].
  intros E'. apply K5. apply (DumpKept.as_bytes_inj ks (EncList.lit "-")); [done|by repeat constructor|done].
Qed.

(** ** A file read back *)

Lemma first_field_rest pol : wf_pol pol -> first_field (policy_rest pol) = Utf8.as_bytes (np_name pol).
Proof. intros W. unfold first_field. by rewrite split_policy_rest. Qed.

(** A line that is a record on its own. *)
Definition plain_line (w : bytes) : Prop := ~ In LF w /\ without_last x0d w = w /\ w <> JOURNAL_BEGIN.

Lemma princ_plain d : wf_dump d -> ~ In LF (d_name d) -> plain_line (record d).
Proof.
  intros W Hl. split; [by apply Journal.record_one_line|]. split; [by apply (Journal.op_no_cr (JPut d))|].
  rewrite record_rest. intros E. discriminate E.
Qed.

Lemma policy_plain pol : wf_pol pol -> plain_line (policy_line pol).
Proof.
  intros W. split; [|split].
  - unfold policy_line. rewrite in_app_iff. intros [H|H]; [cbn in H; intuition discriminate|]. revert H.
    apply Journal.in_tabbed; [done|]. apply policy_fields_free; [done|by right].
  - unfold without_last. rewrite bool_decide_false; [done|]. rewrite policy_line_rest. unfold policy_rest, policy_fields. cbn [tabbed flat_map].
    rewrite app_nil_r, !app_assoc. change (text "0") with [x30] at 5. by rewrite last_snoc.
  - rewrite policy_line_rest. intros E. discriminate E.
Qed.

(** The lines of such a text are taken one after the other. *)
Lemma parts_plain t no at_ ws :
  Forall plain_line ws -> Journal.parts_of t (number no at_ (Journal.whole_lines ws)) = map Journal.Single (number no at_ (Journal.whole_lines ws)).
Proof.
  intros H. revert no at_. induction H as [|w ws (_ & Hc & Hb) _ IH]; intros no at_; [done|]. cbn [Journal.whole_lines map number].
  rewrite Journal.parts_of_cons. unfold is_begin. cbn [l_text]. rewrite Hc, bool_decide_false by done. cbn [negb]. f_equal. apply IH.
Qed.

Lemma parse_singles ls f a : Journal.parse_parts (map Journal.Single ls) f a = let? f := fold_records f ls in Ok (f, a).
Proof.
  revert f. induction ls as [|l ls IH]; intros f; [done|]. cbn [map Journal.parse_parts fold_records].
  destruct (fold_record f l); [apply IH|done].
Qed.

Lemma fold_princ_line f d no s e w :
  wf_dump d -> Journal.sid_ok (JPut d) = true -> fold_record f (mkLine (record d) no s e w) = Ok (put_princ d (Journal.rid_of d) f).
Proof.
  intros W S. unfold fold_record. cbn [l_text l_no]. rewrite record_rest, strip_prefix_app.
  rewrite bool_decide_false by done. change (strip_prefix POLICY (PRINC ++ rest_of d)) with (@None bytes).
  rewrite parse_rest by done. unfold Journal.rid_of. cbn [Journal.sid_ok] in S. by destruct (parse_sid_tl _) as [[??]|].
Qed.

Lemma fold_policy_line f pol no s e w : fold_record f (mkLine (policy_line pol) no s e w) = Ok (put_policy (policy_rest pol) f).
Proof. unfold fold_record. cbn [l_text]. rewrite policy_line_rest, strip_prefix_app. by rewrite bool_decide_false. Qed.

Definition put_all (f : Fold) (ds : list DumpPrincipal) : Fold := fold_left (fun f d => put_princ d (Journal.rid_of d) f) ds f.
Definition put_policies (f : Fold) (rests : list bytes) : Fold := fold_left (fun f r => put_policy r f) rests f.

Lemma fold_records_app f a b : fold_records f (a ++ b) = let? f := fold_records f a in fold_records f b.
Proof. revert f. induction a as [|l a IH]; intros f; [done|]. cbn [app fold_records]. destruct (fold_record f l); [apply IH|done]. Qed.

Definition writable_record (d : DumpPrincipal) : Prop := wf_dump d /\ ~ In LF (d_name d) /\ Journal.sid_ok (JPut d) = true.

Lemma fold_princ_lines f ds no at_ :
  Forall writable_record ds -> fold_records f (number no at_ (Journal.whole_lines (map record ds))) = Ok (put_all f ds).
Proof.
  intros H. revert f no at_. induction H as [|d ds (W & Hl & S) _ IH]; intros f no at_; [done|].
  cbn [map Journal.whole_lines number fold_records]. destruct (princ_plain d W Hl) as (_ & -> & _).
  rewrite fold_princ_line by done. apply IH.
Qed.

Lemma fold_policy_lines f pols no at_ :
  Forall wf_pol pols -> fold_records f (number no at_ (Journal.whole_lines (map policy_line pols))) = Ok (put_policies f (map policy_rest pols)).
Proof.
  intros H. revert f no at_. induction H as [|pol pols W _ IH]; intros f no at_; [done|].
  cbn [map Journal.whole_lines number fold_records]. destruct (policy_plain pol W) as (_ & -> & _).
  rewrite fold_policy_line. apply IH.
Qed.

Lemma put_all_new ds f :
  NoDup (map d_name ds) -> (forall d, d ∈ ds -> princ_at f !! d_name d = None) ->
  f_princs (put_all f ds) = f_princs f ++ map Some ds /\ f_policies (put_all f ds) = f_policies f /\ policy_at (put_all f ds) = policy_at f.
Proof.
  revert f. induction ds as [|d ds IH]; intros f; cbn [map].
  { intros _ _. cbn. by rewrite app_nil_r. }
  intros [Hn Hd]%list.NoDup_cons Hf. change (put_all f (d :: ds)) with (put_all (put_princ d (Journal.rid_of d) f) ds).
  unfold put_princ, put_last. rewrite (Hf d) by left.
  destruct (IH (mkFold (f_princs f ++ [Some d]) (<[d_name d := length (f_princs f)]> (princ_at f)) (f_policies f) (policy_at f) (f_records f + 1)
    (Z.max (max_rid f) (Journal.rid_of d)))) as (E1 & E2 & E3); [done| |].
  - intros e He. cbn [princ_at]. rewrite lookup_insert_ne; [apply Hf; by right|]. intros E. apply Hn. rewrite E.
    apply list_elem_of_In, in_map. by apply list_elem_of_In.
  - rewrite E1, E2, E3. cbn [f_princs f_policies policy_at]. by rewrite <- app_assoc.
Qed.

Lemma put_policies_new rests f :
  NoDup (map first_field rests) -> (forall r, r ∈ rests -> policy_at f !! first_field r = None) ->
  f_policies (put_policies f rests) = f_policies f ++ map Some rests /\ f_princs (put_policies f rests) = f_princs f.
Proof.
  revert f. induction rests as [|r rests IH]; intros f; cbn [map].
  { intros _ _. cbn. by rewrite app_nil_r. }
  intros [Hn Hd]%list.NoDup_cons Hf. change (put_policies f (r :: rests)) with (put_policies (put_policy r f) rests).
  unfold put_policy, put_last. rewrite (Hf r) by left.
  destruct (IH (mkFold (f_princs f) (princ_at f) (f_policies f ++ [Some r]) (<[first_field r := length (f_policies f)]> (policy_at f)) (f_records f)
    (max_rid f))) as (E1 & E2); [done| |].
  - intros e He. cbn [policy_at]. rewrite lookup_insert_ne; [apply Hf; by right|]. intros E. apply Hn. rewrite E.
    apply list_elem_of_In, in_map. by apply list_elem_of_In.
  - rewrite E1, E2. cbn [f_princs f_policies]. by rewrite <- app_assoc.
Qed.

Lemma omap_id_Some {A} (l : list A) : omap Datatypes.id (map Some l) = l.
Proof. induction l as [|x l IH]; [done|]. cbn. by rewrite <- IH at 2. Qed.

Lemma as_bytes_names pols : Forall wf_pol pols -> NoDup (map np_name pols) -> NoDup (map first_field (map policy_rest pols)).
Proof.
  intros H. induction H as [|pol pols W Hp IH]; cbn [map]; [constructor|]. intros [Hn Hd]%list.NoDup_cons.
  apply list.NoDup_cons. split; [|by apply IH]. rewrite first_field_rest by done. intros Hin. apply Hn.
  apply list_elem_of_In, in_map_iff in Hin as (r & E & Hr). apply in_map_iff in Hr as (q & <- & Hq).
  eapply List.Forall_forall in Hp; [|exact Hq]. rewrite first_field_rest in E by done.
  apply list_elem_of_In, in_map_iff. exists q. split; [|done]. apply DumpKept.as_bytes_inj; [apply Hp|apply W|done].
Qed.

(** The text of records and policies under a header. *)
Definition whole_text (h : bytes) (ds : list DumpPrincipal) (pols : list NamedPolicy) : bytes :=
  Journal.line_of h ++ flat_map (fun d => Journal.line_of (record d)) ds ++
  flat_map (fun pol => Journal.line_of (policy_line pol)) pols.

Lemma flat_map_lines {A} (f : A -> bytes) l : flat_map (fun x => Journal.line_of (f x)) l = flat_map Journal.line_of (map f l).
Proof. induction l as [|x l IH]; [done|]. cbn [flat_map map]. by rewrite IH. Qed.

Definition is_header (h : bytes) : Prop := ~ In LF h /\ exists v, parse_header (without_last x0d h) = Ok v.

Lemma header_is_header : is_header (HEADER ++ dec KDB_DUMP_VERSION).
Proof. split; [vm_compute; intuition discriminate|]. exists KDB_DUMP_VERSION. by vm_compute. Qed.

Lemma file_read h ds pols :
  is_header h -> Forall writable_record ds -> NoDup (map d_name ds) -> Forall wf_pol pols -> NoDup (map np_name pols) ->
  exists F, parse_dump (whole_text h ds pols) = Ok F /\ princs F = ds /\ policies F = map policy_rest pols.
Proof.
  intros (Hh & v & Hv) Hd Nd Hp Np. set (ws := map record ds ++ map policy_line pols).
  assert (Forall plain_line ws) as Hw.
  { apply Forall_app. split; apply List.Forall_map; [eapply List.Forall_impl; [|exact Hd]|eapply List.Forall_impl; [|exact Hp]].
    - intros d (W & L & _). by apply princ_plain.
    - apply policy_plain. }
  assert (raw_lines (whole_text h ds pols) = Journal.whole_lines (h :: ws)) as E.
  { unfold whole_text. rewrite (flat_map_lines record ds), (flat_map_lines policy_line pols), <- flat_map_app. fold ws.
    pose proof (Journal.raw_lines_lines (h :: ws) []) as R. rewrite !app_nil_r in R. apply R; [|by intros []].
    constructor; [done|]. eapply List.Forall_impl; [|exact Hw]. by intros w (? & _). }
  unfold parse_dump, text_lines. rewrite E. unfold Journal.whole_lines at 1. cbn [map number]. cbn [l_text].
  rewrite Hv.
  rewrite Journal.parse_lines_parts. set (at_ := (0 + _ + _)%nat). fold (Journal.whole_lines ws).
  change (Journal.parts (length (number (1 + 1) at_ (Journal.whole_lines ws))) ?t ?l) with (Journal.parts_of t l).
  rewrite parts_plain, parse_singles by done. unfold ws, Journal.whole_lines. rewrite map_app, Journal.number_app, fold_records_app.
  fold (Journal.whole_lines (map record ds)) (Journal.whole_lines (map policy_line pols)). rewrite fold_princ_lines, fold_policy_lines by done.
  destruct (put_all_new ds empty_fold Nd) as (E1 & E2 & E3); [done|].
  destruct (put_policies_new (map policy_rest pols) (put_all empty_fold ds)) as (E4 & E5); [by apply as_bytes_names|intros r _; by rewrite E3|].
  eexists. split; [done|]. cbn [princs policies]. rewrite E5, E4, E1, E2. cbn [f_princs f_policies empty_fold app]. by rewrite !omap_id_Some.
Qed.

(** ** The header for a replica *)

Lemma split_spaces_word w r :
  forallb (fun c => negb (EncList.is_whitespace c)) w = true -> split_spaces (w ++ 32 :: r) = w :: split_spaces r.
Proof.
  induction w as [|c w IH]; intros H; [done|]. cbn [forallb] in H. apply andb_prop in H as [Hc H]. cbn [app split_spaces].
  by rewrite (negb_true_iff _) in Hc; rewrite Hc, IH.
Qed.

Lemma split_spaces_last w : forallb (fun c => negb (EncList.is_whitespace c)) w = true -> split_spaces w = [w].
Proof.
  induction w as [|c w IH]; intros H; [done|]. cbn [forallb] in H. apply andb_prop in H as [Hc H]. cbn [split_spaces].
  by rewrite (negb_true_iff _) in Hc; rewrite Hc, IH.
Qed.

Lemma digit_word b : Decimal.is_ascii_digit b = true -> negb (EncList.is_whitespace (u8z b)) = true /\ u8z b < 128 /\ b <> LF /\ b <> x0d.
Proof. by destruct b. Qed.

Lemma dec_word n : forallb (fun c => negb (EncList.is_whitespace c)) (Utf8.chars (dec n)) = true.
Proof.
  pose proof (Decimal.dec_digits n) as H. unfold Utf8.chars. induction (dec n) as [|b l IH]; [done|]. cbn [map forallb] in *.
  apply andb_prop in H as [Hb H]. by rewrite (proj1 (digit_word b Hb)), IH.
Qed.

Definition ipropx (l : Ulog.UlogLast) : bytes := text "ipropx 1 " ++ last_text l.

Lemma last_text_digits l :
  Forall (fun b => u8z b < 128 /\ b <> LF /\ b <> x0d) (last_text l).
Proof.
  assert (forall n, Forall (fun b => u8z b < 128 /\ b <> LF /\ b <> x0d) (dec n)) as H.
  { intros n. apply List.Forall_forall. intros b Hb. pose proof (Decimal.dec_digits n) as Hd. apply forallb_forall with (x := b) in Hd; [|done].
    by apply digit_word. }
  unfold last_text. repeat (apply Forall_app; split); try apply H; by repeat constructor.
Qed.

Lemma ipropx_chars l : Forall (fun b => u8z b < 128 /\ b <> LF /\ b <> x0d) (ipropx l).
Proof. apply Forall_app. split; [by repeat constructor|apply last_text_digits]. Qed.

Lemma ipropx_no_cr l : without_last x0d (ipropx l) = ipropx l.
Proof.
  unfold without_last. rewrite bool_decide_false; [done|]. intros E. apply last_Some_elem_of, list_elem_of_In in E.
  eapply List.Forall_forall in E; [|apply ipropx_chars]. by destruct E as (_ & _ & E).
Qed.

Lemma ipropx_is_header l : is_header (ipropx l).
Proof.
  split.
  - intros Hin. eapply List.Forall_forall in Hin; [|apply ipropx_chars]. by destruct Hin as (_ & H & _).
  - exists KDB_DUMP_VERSION. by rewrite ipropx_no_cr.
Qed.

Definition wf_last (l : Ulog.UlogLast) : Prop :=
  is_u32 (Ulog.la_sno l) /\ is_u32 (Iprop.seconds (Ulog.la_time l)) /\ is_u32 (Iprop.useconds (Ulog.la_time l)).

Lemma iprop_header_read l : wf_last l -> parse_iprop_header (ipropx l) = Ok (true, l).
Proof.
  intros (H1 & H2 & H3). unfold parse_iprop_header.
  assert (Utf8.ascii (ipropx l)) as Ha.
  { eapply List.Forall_impl; [|apply ipropx_chars]. by intros b (? & _). }
  assert (str (ipropx l) = Utf8.chars (ipropx l)) as ->.
  { unfold str. rewrite <- (Utf8.as_bytes_chars _ Ha) at 1. by rewrite Utf8.from_utf8_as_bytes by (by apply Utf8.scalar_chars). }
  assert (split_whitespace (Utf8.chars (ipropx l)) =
    [EncList.lit "ipropx"; [49]; Utf8.chars (dec (Ulog.la_sno l)); Utf8.chars (dec (Iprop.seconds (Ulog.la_time l)));
     Utf8.chars (dec (Iprop.useconds (Ulog.la_time l)))]) as ->.
  { transitivity (List.filter (fun w => negb (bool_decide (w = []))) (EncList.lit "ipropx" :: [49] :: split_spaces (Utf8.chars (last_text l)))).
    { reflexivity. }
    unfold last_text, space, Utf8.chars. rewrite !map_app. cbn [map app]. change (u8z x20) with 32.
    rewrite split_spaces_word, split_spaces_word, split_spaces_last by apply dec_word. cbn [List.filter].
    assert (forall n, negb (bool_decide (Utf8.chars (dec n) = [])) = true) as N.
    { intros n. destruct (Decimal.dec_cons n) as (c & r & -> & _). by rewrite bool_decide_false. }
    unfold Utf8.chars in N. by rewrite !N. }
  assert (forall n, is_u32 n -> parse_unsigned U32_MAX (Utf8.as_bytes (Utf8.chars (dec n))) = Some n) as Hn.
  { intros n Hn. rewrite Utf8.as_bytes_chars; [apply parse_unsigned_dec; unfold is_u32, U32_MAX in *; lia|].
    apply List.Forall_forall. intros b Hb. pose proof (Decimal.dec_digits n) as Hd. apply forallb_forall with (x := b) in Hd; [|done]. by apply digit_word. }
  cbn [leading_numbers]. rewrite !Hn by done. destruct l as [a [b c]]. done.
Qed.
(** ** Order *)

Lemma ustr_leb_total a b : ustr_leb a b = true \/ ustr_leb b a = true.
Proof.
  revert b. induction a as [|x a IH]; intros [|y b]; cbn; auto. destruct (IH b) as [H|H]; rewrite H, ?andb_true_r;
    destruct (Z.ltb_spec x y), (Z.ltb_spec y x), (Z.eqb_spec x y), (Z.eqb_spec y x); cbn; auto; lia.
Qed.

Lemma ustr_leb_trans a b c : ustr_leb a b = true -> ustr_leb b c = true -> ustr_leb a c = true.
Proof.
  revert b c. induction a as [|x a IH]; intros [|y b] [|z c]; cbn; try done. intros H1 H2.
  apply orb_prop in H1 as [H1|H1], H2 as [H2|H2].
  - apply orb_true_intro. left. lia.
  - apply andb_prop in H2 as [H2 _]. apply orb_true_intro. left. lia.
  - apply andb_prop in H1 as [H1 _]. apply orb_true_intro. left. lia.
  - apply andb_prop in H1 as [H1 H1'], H2 as [H2 H2']. apply orb_true_intro. right. rewrite (IH b c) by done. rewrite andb_true_r. lia.
Qed.

#[global] Instance key_leb_total : Total (fun p q => Is_true (key_leb p q)).
Proof.
  intros p q. unfold key_leb. rewrite !Is_true_true. destruct (is_km p), (is_km q); cbn; auto; apply ustr_leb_total.
Qed.

#[global] Instance key_leb_trans : Transitive (fun p q => Is_true (key_leb p q)).
Proof.
  intros p q r. unfold key_leb. rewrite !Is_true_true. destruct (is_km p), (is_km q), (is_km r); cbn; try done; apply ustr_leb_trans.
Qed.

(** The master key is first. *)
Lemma km_first ps km : km ∈ ps -> is_km km = true -> exists p rest, sort_by key_leb ps = p :: rest /\ is_km p = true /\ p ∈ ps.
Proof.
  intros Hin Hk. unfold sort_by. pose proof (StronglySorted_merge_sort (fun p q => Is_true (key_leb p q)) ps) as Hs.
  pose proof (merge_sort_Permutation (fun p q => Is_true (key_leb p q)) ps) as Hp. rewrite <- Hp in Hin.
  destruct (merge_sort _ ps) as [|p rest]; [by apply elem_of_nil in Hin|]. exists p, rest. split; [done|]. split; [|rewrite <- Hp; left].
  apply elem_of_cons in Hin as [->|Hin]; [done|]. inversion Hs as [|? ? _ Hall]; subst.
  eapply list.Forall_forall in Hall; [|exact Hin]. unfold key_leb in Hall. rewrite Hk in Hall. destruct (is_km p); [done|]. by destruct Hall.
Qed.

Section Read.
Context {Prim : Primitives} {Laws : PrimitiveLaws}.

(** The principal a record is read as. *)
Definition reloaded (lk : Principal -> Lockout.Lockout) (p : Principal) (tl : list TlData) : Principal :=
  set_tl_data tl (set_key_history (DumpKept.kept_hist p) (Lockout.set_on (lk p) p)).

Record reads_as (mkey : Key.ProtocolKey) (x : Context_) (lk : Principal -> Lockout.Lockout) (p : Principal) (d : DumpPrincipal) : Prop := {
  ra_into : exists tl sid, into_principal mkey d = Ok (reloaded lk p tl, sid) /\
    forall t, t ∉ DumpKept.managed -> DumpKept.of_type t tl = DumpKept.of_type t (base_tl x p);
  ra_name : d_name d = Utf8.as_bytes (principal_id p);
  ra_record : writable_record d;
  ra_args : is_ok (strip_db_args (d_tl_data d)) = true;
  ra_hwm : is_km p = true -> realm p = x_realm x -> is_u32 (x_next_rid x) -> rid_hwm_of (d_tl_data d) = Some (x_next_rid x);
}.

Lemma no_args tl : DumpKept.of_type TL_DB_ARGS tl = [] -> is_ok (strip_db_args tl) = true.
Proof.
  intros H. unfold strip_db_args. fold (find_tl TL_DB_ARGS tl). by rewrite DumpKept.find_tl_of_type, H.
Qed.

Lemma dump_all rnd x mkey lk ps :
  (forall n, History.rng_works (rnd n)) -> Ops.key_usable mkey 0 ->
  Forall (fun p => DumpKept.kept mkey x p /\ forall n d, dump_principal (rnd n) x mkey (lk p) p = Ok d -> fits d) ps ->
  exists ds, dump_principals rnd x mkey lk false ps = Ok ds /\ Forall2 (reads_as mkey x lk) ps ds.
Proof using Laws.
  intros Hr Hk H. revert rnd Hr H. induction ps as [|p ps IH]; intros rnd Hr H; cbn [dump_principals]; [by exists []|].
  apply Forall_cons_iff in H as [[K Hf] H].
  destruct (DumpKept.persisted (rnd O) mkey (Hr O) Hk x (lk p) p K) as (d & tl & Ed & Ei & Ht & En). rewrite Ed.
  destruct (DumpKept.dump_wf (rnd O) mkey (Hr O) Hk x (lk p) p d K Ed (Hf _ _ Ed)) as (W & [_ Hl] & Hs).
  destruct (IH (fun n => rnd (S n))) as (ds & -> & H2); [intros n; apply Hr| |].
  { eapply List.Forall_impl; [|exact H]. intros q [Kq Hq]. split; [done|]. intros n. apply Hq. }
  exists (d :: ds). split; [done|]. constructor; [|done]. split.
  - by exists tl, (if rid p =? 0 then None else Some (x_domain x)).
  - done.
  - done.
  - apply no_args. rewrite (DumpKept.dump_tl (rnd O) mkey x (lk p) p d) by done. apply DumpKept.written_no_args.
  - intros Hkm Hre Hu. unfold rid_hwm_of. rewrite DumpKept.find_tl_of_type, (DumpKept.dump_tl (rnd O) mkey x (lk p) p d), DumpKept.written_hwm by done.
    cbn [head mbind option_bind contents]. rewrite length_to_le_bytes. cbn [Nat.ltb Nat.leb].
    rewrite take_ge by (by rewrite length_to_le_bytes). unfold is_u32 in Hu. by rewrite from_to_le_bytes by (cbn; lia).
Qed.

(** A principal with an identifier, or an alias, which has none. *)
Definition settled (p : Principal) : Prop := is_u32 (rid p) /\ (rid p <> 0 \/ is_Some (alias_target p)).

Lemma alias_reloaded lk x p tl :
  (forall t, t ∉ DumpKept.managed -> DumpKept.of_type t tl = DumpKept.of_type t (base_tl x p)) -> is_Some (alias_target p) ->
  alias_target (reloaded lk p tl) = alias_target p.
Proof.
  intros Ht Ha. unfold alias_target in *. cbn [reloaded tl_data set_tl_data]. fold (find_tl TL_ALIAS_TARGET tl).
  fold (find_tl TL_ALIAS_TARGET (tl_data p)) in *. rewrite !DumpKept.find_tl_of_type in *. rewrite Ht by (unfold DumpKept.managed; DumpKept.not_in).
  unfold base_tl. destruct (tl_data p); [|done]. by destruct Ha.
Qed.

Lemma debug_insert_settled p s :
  settled p -> debug_insert p s = set_map (insert_unlogged (principal_id p) p (s_map s)) (bump_next_rid (rid p) s).
Proof.
  intros [_ H]. unfold debug_insert, settle_rid. replace (_ && _) with false.
  - unfold bump_next_rid. by destruct (_ && _).
  - symmetry. apply andb_false_iff. destruct H as [H|[a Ha]]; [left; by apply Z.eqb_neq|right].
    rewrite bool_decide_false; [done|]. congruence.
Qed.

Definition owned (p : Principal) : bool := negb (rid p =? 0) && negb (is_km p).

Definition km_named (p : Principal) : bool := bool_decide (is_Some (strip_prefix (text "K/M@") (Utf8.as_bytes (principal_id p)))).

Lemma load_one mkey x lk p d ld :
  reads_as mkey x lk p d -> settled p -> (owned p = true -> ld_rids ld !! rid p = None) ->
  exists ld' tl, load_principal mkey d ld = Ok ld' /\
    rows (s_map (ld_store ld')) = <[principal_id p := reloaded lk p tl]> (rows (s_map (ld_store ld))) /\
    (forall r, ld_rids ld' !! r = if owned p && bool_decide (r = rid p) then Some (principal_id p) else ld_rids ld !! r) /\
    s_next_rid (ld_store ld) <= s_next_rid (ld_store ld') /\ s_policies (ld_store ld') = s_policies (ld_store ld) /\
    ld_hwm ld' = (if km_named p then rid_hwm_of (d_tl_data d) else ld_hwm ld).
Proof.
  intros [(tl & sid & Ei & Ht) En _ _ _] Hs Ho. unfold load_principal. rewrite Ei.
  change (rid (reloaded lk p tl)) with (rid p). change (is_km (reloaded lk p tl)) with (is_km p). fold (owned p).
  replace (owned p && _) with false.
  2: { symmetry. destruct (owned p); [|done]. cbn [andb]. rewrite Ho by done. apply bool_decide_eq_false. by intros [? ?]. }
  assert (settled (reloaded lk p tl)) as Hs'.
  { destruct Hs as [Hu [Hs|Hs]]; (split; [done|]); [by left|]. right. by rewrite (alias_reloaded lk x p tl Ht Hs). }
  eexists _, tl. split; [done|]. cbn [ld_store ld_rids ld_hwm]. rewrite debug_insert_settled by done.
  change (principal_id (reloaded lk p tl)) with (principal_id p). change (rid (reloaded lk p tl)) with (rid p).
  split; [|split; [|split; [|split]]].
  - cbn [set_map s_map]. unfold insert_unlogged. rewrite rows_insert_row. unfold lose_undo. by destruct (undo _).
  - intros r. destruct (owned p); cbn [andb]; [|done]. case_bool_decide as E; [subst r; by rewrite lookup_insert_eq|].
    by rewrite lookup_insert_ne by congruence.
  - cbn [set_map s_next_rid]. unfold bump_next_rid. destruct (_ && _) eqn:E; [|lia]. cbn [set_identity s_next_rid].
    unfold sat_add, U32_MAX. destruct Hs as [Hu _]. unfold is_u32 in Hu. lia.
  - cbn [set_map s_policies]. unfold bump_next_rid. by destruct (_ && _).
  - unfold km_named. by rewrite En.
Qed.

Lemma load_all mkey x lk ps ds ld :
  Forall2 (reads_as mkey x lk) ps ds -> Forall settled ps -> NoDup (map principal_id ps) ->
  NoDup (map rid (List.filter owned ps)) -> (forall p, p ∈ ps -> owned p = true -> ld_rids ld !! rid p = None) ->
  exists ld', load_principals mkey ds ld = Ok ld' /\
    (forall i, i ∉ map principal_id ps -> rows (s_map (ld_store ld')) !! i = rows (s_map (ld_store ld)) !! i) /\
    (forall p, p ∈ ps -> exists tl, rows (s_map (ld_store ld')) !! principal_id p = Some (reloaded lk p tl)) /\
    s_next_rid (ld_store ld) <= s_next_rid (ld_store ld') /\ s_policies (ld_store ld') = s_policies (ld_store ld) /\
    (forall n, (forall p d, reads_as mkey x lk p d -> p ∈ ps -> km_named p = true -> rid_hwm_of (d_tl_data d) = Some n) ->
      ld_hwm ld' = if existsb km_named ps then Some n else ld_hwm ld).
Proof.
  intros H. revert ld. induction H as [|p d ps ds Hr _ IH]; intros ld Hs Hn Hrid Hseen.
  { exists ld. split; [done|]. split; [done|]. split; [by intros p ?%elem_of_nil|]. split; [lia|]. done. }
  apply Forall_cons_iff in Hs as [Hs Hss]. cbn [map] in Hn. apply list.NoDup_cons in Hn as [Hp Hn].
  destruct (load_one mkey x lk p d ld Hr Hs) as (ld1 & tl & E1 & R1 & O1 & N1 & P1 & W1); [apply Hseen; left|].
  destruct (IH ld1 Hss Hn) as (ld2 & E2 & R2 & S2 & N2 & P2 & W2).
  { cbn [List.filter] in Hrid. destruct (owned p); [|done]. by apply list.NoDup_cons in Hrid as [_ ?]. }
  { intros q Hq Ho. rewrite O1. destruct (owned p) eqn:Eo; cbn [andb]; [|apply Hseen; [by right|done]].
    rewrite bool_decide_false; [apply Hseen; [by right|done]|]. intros E. cbn [List.filter] in Hrid. rewrite Eo in Hrid. cbn [map] in Hrid.
    apply list.NoDup_cons in Hrid as [Hx _]. apply Hx. rewrite <- E. apply list_elem_of_In, in_map, filter_In. split; [by apply list_elem_of_In|done]. }
  exists ld2. cbn [load_principals]. rewrite E1. split; [done|]. split; [|split; [|split; [lia|split; [congruence|]]]].
  - intros i. cbn [map]. rewrite not_elem_of_cons. intros [Hi Hi']. rewrite R2, R1 by done. by rewrite lookup_insert_ne.
  - intros q [->|Hq]%elem_of_cons; [|by apply S2]. exists tl. rewrite R2, R1 by done. by rewrite lookup_insert_eq.
  - intros n Hk. rewrite (W2 n) by (intros q e He Hq; apply Hk; [done|by right]). rewrite W1. cbn [existsb].
    destruct (km_named p) eqn:Ek; cbn [orb]; [|done]. rewrite (Hk p d Hr ltac:(left) Ek). by destruct (existsb km_named ps).
Qed.

(** ** The master key's name *)

Lemma realm_loop k s comps r fa c' r' b :
  (length s <= k)%nat -> Name.parse_loop false s comps r true fa = Ok (c', r', b) -> c' = comps.
Proof.
  revert s r fa. induction k as [|k IH]; intros [|c s] r fa Hl; cbn [length] in Hl; try lia; cbn [Name.parse_loop Name.push_char];
    try (by intros [= <- _ _]).
  destruct (c =? Name.BACKSLASH).
  { destruct s as [|n s]; [done|]. apply IH. cbn [length] in Hl. lia. }
  destruct (_ && _); [done|]. destruct (_ && _); [done|]. apply IH. lia.
Qed.

Lemma as_bytes_cons_low s b r :
  scalar s -> Utf8.as_bytes s = b :: r -> u8z b < 0x80 -> exists s', s = u8z b :: s' /\ Utf8.as_bytes s' = r /\ scalar s'.
Proof.
  intros Hs E Hb. destruct s as [|c s]; [done|]. apply Forall_cons_iff in Hs as [Hc Hs]. unfold Utf8.as_bytes in E. cbn [flat_map] in E.
  assert (In b (Utf8.encode_char c)) as Hin.
  { destruct (Utf8.encode_char c) as [|y w] eqn:Ew; [|injection E as -> _; by left].
    exfalso. revert Ew. unfold Utf8.encode_char. repeat case_match; discriminate. }
  apply Utf8.encode_char_low in Hin; [|done..]. subst c. exists s. split; [done|]. split; [|done].
  unfold Utf8.encode_char in E. rewrite (proj2 (Z.ltb_lt _ _)) in E by done. injection E as _ <-. done.
Qed.

Lemma km_named_is_km p : DumpKept.kept_name (name p) (realm p) -> km_named p = true -> is_km p = true.
Proof.
  intros Hn H. apply bool_decide_eq_true in H as [r H]. apply Journal.strip_prefix_inv in H.
  pose proof (DumpKept.id_scalar _ _ Hn) as Hs. fold (principal_id p) in Hs.
  destruct (as_bytes_cons_low _ _ _ Hs H eq_refl) as (s1 & E1 & H1 & Hs1).
  destruct (as_bytes_cons_low _ _ _ Hs1 H1 eq_refl) as (s2 & -> & H2 & Hs2).
  destruct (as_bytes_cons_low _ _ _ Hs2 H2 eq_refl) as (s3 & -> & H3 & Hs3).
  destruct (as_bytes_cons_low _ _ _ Hs3 H3 eq_refl) as (s4 & -> & H4 & Hs4).
  destruct (DumpKept.id_of_kept _ _ Hn) as (rl & _ & _ & _ & Eid). fold (principal_id p) in Eid. rewrite E1 in Eid.
  destruct Hn as (Hne & _ & Ha & _). pose proof (Name.parse_unparsed (map Utf8.chars (PrincipalName.name_string (name p))) rl) as Hp.
  rewrite <- Eid in Hp. specialize (Hp ltac:(by destruct (PrincipalName.name_string (name p)))). cbn in Hp.
  apply (realm_loop (length s4)) in Hp; [|done]. unfold is_km, components_joined. apply bool_decide_eq_true.
  rewrite StoreAlias.comps_chars by done. by rewrite Hp.
Qed.

Lemma after_last_app c a b : ~ In c b -> after_last c (a ++ c :: b) = Some b.
Proof.
  intros Hb. assert (after_last c b = None) as En.
  { induction b as [|x b IH]; [done|]. cbn [after_last]. rewrite IH by (intros ?; apply Hb; by right).
    rewrite bool_decide_false; [done|]. intros ->. apply Hb. by left. }
  induction a as [|x a IH]; cbn [app after_last]; [by rewrite En, bool_decide_true|]. by rewrite IH.
Qed.

(** ** A store that can be written *)

Record dumpable (rnd : nat -> nat -> option bytes * option bytes) (x : Context_) (mkey : Key.ProtocolKey) (lk : Principal -> Lockout.Lockout) (s : Store) : Prop := {
  dm_rows : forall i p, rows (s_map s) !! i = Some p ->
    principal_id p = i /\ DumpKept.kept mkey x p /\ settled p /\ forall n d, dump_principal (rnd n) x mkey (lk p) p = Ok d -> fits d;
  dm_km : exists i p, rows (s_map s) !! i = Some p /\ is_km p = true;
  dm_only : forall i p, rows (s_map s) !! i = Some p -> is_km p = true ->
    PrincipalName.name_string (name p) = [lit_bytes "K"; lit_bytes "M"] /\ realm p = s_realm s;
  dm_rids : forall i j p q, rows (s_map s) !! i = Some p -> rows (s_map s) !! j = Some q -> owned p = true -> owned q = true ->
    rid p = rid q -> i = j;
  dm_realm : exists rl, s_realm s = Utf8.as_bytes rl /\ scalar rl /\ rl <> [] /\ Name.quote_component rl = rl /\ ~ In Name.AT rl;
  dm_pols : forall n pol, s_policies s !! n = Some pol -> np_name pol = n /\ wf_pol pol;
  dm_next : RID_FIRST_USER <= s_next_rid s < 2 ^ 32;
}.

Lemma sort_by_elem {A} (leb : A -> A -> bool) l a : a ∈ sort_by leb l <-> a ∈ l.
Proof. unfold sort_by. by rewrite merge_sort_Permutation. Qed.

Lemma values_elem `{Countable K} {V} (m : gmap K V) v : v ∈ map snd (map_to_list m) <-> exists i, m !! i = Some v.
Proof.
  rewrite list_elem_of_In, in_map_iff. split.
  - intros ([i w] & <- & Hi). exists i. by apply list_elem_of_In, elem_of_map_to_list in Hi.
  - intros [i Hi]. exists (i, v). split; [done|]. by apply list_elem_of_In, elem_of_map_to_list.
Qed.

(** The values of a map under keys that are their own. *)
Lemma values_keys `{Countable K} {V} (f : V -> K) (m : gmap K V) :
  (forall i v, m !! i = Some v -> f v = i) -> NoDup (map f (map snd (map_to_list m))).
Proof.
  intros Hf. replace (map f (map snd (map_to_list m))) with (map_to_list m).*1; [apply NoDup_fst_map_to_list|].
  rewrite map_map. apply map_ext_in. intros [i v] Hi. apply list_elem_of_In, elem_of_map_to_list in Hi. cbn. by rewrite (Hf i v).
Qed.

Lemma sort_map_NoDup {A B} (leb : A -> A -> bool) (f : A -> B) l : NoDup (map f l) -> NoDup (map f (sort_by leb l)).
Proof. unfold sort_by. intros H. change (NoDup (f <$> merge_sort (fun a b => Is_true (leb a b)) l)). by rewrite merge_sort_Permutation. Qed.

Lemma owned_rids ps :
  NoDup ps -> (forall p q, p ∈ ps -> q ∈ ps -> owned p = true -> owned q = true -> rid p = rid q -> p = q) ->
  NoDup (map rid (List.filter owned ps)).
Proof.
  intros Hn Hu. apply NoDup_fmap_2_strong.
  - intros p q Hp Hq E. apply list_elem_of_In, filter_In in Hp as [Hp Op]. apply list_elem_of_In, filter_In in Hq as [Hq Oq].
    by apply Hu; [apply list_elem_of_In..| | |].
  - apply NoDup_ListNoDup, List.NoDup_filter. by apply NoDup_ListNoDup.
Qed.

Lemma sorted_policies_names s :
  (forall n pol, s_policies s !! n = Some pol -> np_name pol = n) ->
  map np_name (sorted_policies s) = sort_by ustr_leb (map fst (map_to_list (s_policies s))).
Proof.
  intros H. unfold sorted_policies. assert (forall n, n ∈ sort_by ustr_leb (map fst (map_to_list (s_policies s))) -> is_Some (s_policies s !! n)) as Hs.
  { intros n. rewrite sort_by_elem, list_elem_of_In, in_map_iff. intros ([k pol] & <- & Hk).
    apply list_elem_of_In, elem_of_map_to_list in Hk. by exists pol. }
  induction (sort_by ustr_leb _) as [|n l IH]; [done|]. destruct (Hs n) as [pol Hp]; [left|]. cbn [omap list_omap]. rewrite Hp.
  cbn [map]. rewrite (H n pol Hp). f_equal. apply IH. intros m Hm. apply Hs. by right.
Qed.

Lemma sorted_policies_elem s pol : pol ∈ sorted_policies s <-> exists n, s_policies s !! n = Some pol.
Proof.
  unfold sorted_policies. rewrite list_elem_of_omap. split.
  - intros (n & _ & E). by exists n.
  - intros [n E]. exists n. split; [|done]. rewrite sort_by_elem, list_elem_of_In, in_map_iff. exists (n, pol). split; [done|].
    by apply list_elem_of_In, elem_of_map_to_list.
Qed.

Definition load_policies (s : Store) (rests : list bytes) : Store := fold_left (fun s rest => load_policy (parse_policy_rest rest) s) rests s.

Lemma load_policies_spec pols s :
  Forall wf_pol pols -> NoDup (map np_name pols) ->
  s_map (load_policies s (map policy_rest pols)) = s_map s /\ s_next_rid (load_policies s (map policy_rest pols)) = s_next_rid s /\
  (forall n, n ∉ map np_name pols -> s_policies (load_policies s (map policy_rest pols)) !! n = s_policies s !! n) /\
  (forall pol, pol ∈ pols -> s_policies (load_policies s (map policy_rest pols)) !! np_name pol = Some pol).
Proof.
  intros H. revert s. induction H as [|pol pols W _ IH]; intros s Hn; cbn [map] in *.
  { split; [done|]. split; [done|]. split; [done|]. by intros pol ?%elem_of_nil. }
  apply list.NoDup_cons in Hn as [Hp Hn]. change (load_policies s (policy_rest pol :: map policy_rest pols))
    with (load_policies (load_policy (parse_policy_rest (policy_rest pol)) s) (map policy_rest pols)). rewrite policy_read by done.
  destruct (IH (load_policy pol s) Hn) as (E1 & E2 & E3 & E4). rewrite E1, E2. split; [done|]. split; [done|]. split.
  - intros n. rewrite not_elem_of_cons. intros [Hn1 Hn2]. rewrite E3 by done. cbn [load_policy set_policies s_policies]. by rewrite lookup_insert_ne.
  - intros q [->|Hq]%elem_of_cons; [|by apply E4]. rewrite E3 by done. cbn [load_policy set_policies s_policies]. by rewrite lookup_insert_eq.
Qed.

(** The name of the master key's principal. *)
Lemma km_name rl p :
  PrincipalName.name_string (name p) = [lit_bytes "K"; lit_bytes "M"] -> realm p = Utf8.as_bytes rl -> scalar rl ->
  Name.quote_component rl = rl -> DumpKept.kept_name (name p) (realm p) ->
  Utf8.as_bytes (principal_id p) = text "K/M" ++ x40 :: Utf8.as_bytes rl.
Proof.
  intros En Er Hs Hq Hk. destruct (DumpKept.id_of_kept _ _ Hk) as (rl' & Hs' & _ & Er' & Eid). fold (principal_id p) in Eid.
  rewrite Er in Er'. apply DumpKept.as_bytes_inj in Er'; [|done..]. subst rl'. rewrite Eid, En. unfold Name.unparse_name. rewrite Hq. done.
Qed.

Lemma realm_read F rl p d ps :
  princs F = d :: ps -> d_name d = text "K/M" ++ x40 :: Utf8.as_bytes rl -> scalar rl -> rl <> [] -> ~ In Name.AT rl -> realm p = Utf8.as_bytes rl ->
  file_realm F = Ok (realm p).
Proof.
  intros Ef En Hs Hne Hat Er. unfold file_realm. rewrite Ef, En, after_last_app by (by apply scalar_free). rewrite Er.
  destruct (Utf8.as_bytes rl) as [|b r] eqn:E; [by apply DumpKept.as_bytes_nil in E|done].
Qed.

Lemma raise_next n s : s_map (raise_next_rid n s) = s_map s /\ s_policies (raise_next_rid n s) = s_policies s /\
  s_next_rid s <= s_next_rid (raise_next_rid n s) /\ (RID_FIRST_USER <= n -> n <= s_next_rid (raise_next_rid n s)).
Proof.
  unfold raise_next_rid. destruct (_ && _) eqn:E; cbn; [split; [done|]; split; [done|]; lia|]. split; [done|]. split; [done|]. lia.
Qed.

(** What is done after the principals and policies leaves the rows, but for their
    histories, and the policies. *)
Definition finish (ld : Load) (seen : Z) (s : Store) : Store :=
  let s := resolve_history_all s in
  let s := match ld_domain ld with Some d => set_identity (sub_authority d) (s_next_rid s) s | None => s end in
  let s := match ld_hwm ld with Some n => raise_next_rid n s | None => s end in
  raise_next_rid (sat_add seen 1) s.

Lemma finish_spec ld seen s :
  exists h, rows (s_map (finish ld seen s)) = (fun p => History.resolve_history p h) <$> rows (s_map s) /\
    s_policies (finish ld seen s) = s_policies s /\
    forall n, ld_hwm ld = Some n -> RID_FIRST_USER <= n -> n <= s_next_rid (finish ld seen s).
Proof.
  exists (history_key s). unfold finish.
  set (s1 := resolve_history_all s). set (s2 := match ld_domain ld with Some d => _ | None => s1 end).
  set (s3 := match ld_hwm ld with Some n => raise_next_rid n s2 | None => s2 end).
  assert (s_map s2 = s_map s1 /\ s_policies s2 = s_policies s1) as [M2 P2] by (unfold s2; by destruct (ld_domain ld)).
  assert (s_map s3 = s_map s2 /\ s_policies s3 = s_policies s2) as [M3 P3].
  { unfold s3. destruct (ld_hwm ld) as [n|]; [|done]. by destruct (raise_next n s2) as (? & ? & _). }
  destruct (raise_next (sat_add seen 1) s3) as (M4 & P4 & N4 & _). rewrite M4, P4, M3, P3, M2, P2. split; [done|]. split; [done|].
  intros n En Hn. unfold s3 in N4 at 1. rewrite En in N4. destruct (raise_next n s2) as (_ & _ & _ & N3). specialize (N3 Hn). lia.
Qed.

(** The principals of a store that can be written. *)
Lemma dumped_spec rnd x now mkey lk s (ps := dumped now s mkey) :
  dumpable rnd x mkey lk s ->
  (forall p, p ∈ ps <-> exists i, rows (s_map s) !! i = Some p) /\ NoDup (map principal_id ps) /\ NoDup (map rid (List.filter owned ps)) /\
  exists km rest, ps = km :: rest /\ is_km km = true.
Proof.
  intros D. destruct (dm_km _ _ _ _ _ D) as (k & km & Hk & Ekm).
  assert (km ∈ map snd (map_to_list (rows (s_map s)))) as Hin by (apply values_elem; by exists k).
  destruct (km_first _ _ Hin Ekm) as (p & rest & Es & Ep & _).
  assert (ps = sort_by key_leb (map snd (map_to_list (rows (s_map s))))) as E.
  { subst ps. unfold dumped. rewrite Es. cbn [existsb]. by rewrite Ep. }
  assert (forall q, q ∈ ps <-> exists i, rows (s_map s) !! i = Some q) as He by (intros q; by rewrite E, sort_by_elem, values_elem).
  assert (NoDup (map principal_id ps)) as Hn.
  { rewrite E. apply sort_map_NoDup, values_keys. intros i v Hv. apply (dm_rows _ _ _ _ _ D i v Hv). }
  split; [done|]. split; [done|]. split; [|exists p, rest; by rewrite E].
  apply owned_rids; [by apply (NoDup_fmap_1 principal_id)|]. intros q r Hq Hr Oq Or Er.
  apply He in Hq as [i Hi], Hr as [j Hj]. pose proof (dm_rids _ _ _ _ _ D i j q r Hi Hj Oq Or Er). congruence.
Qed.

(** The lines of the store's text, and what they are read as. *)
Lemma dumped_lines h rnd domain now lk mkey s (x := mkContext (s_realm s) domain (s_next_rid s) now) :
  is_header h -> (forall n, History.rng_works (rnd n)) -> Ops.key_usable mkey 0 -> dumpable rnd x mkey lk s ->
  exists ds F, dump_principals rnd x mkey lk false (dumped now s mkey) = Ok ds /\
    Forall2 (reads_as mkey x lk) (dumped now s mkey) ds /\ parse_dump (whole_text h ds (sorted_policies s)) = Ok F /\
    princs F = ds /\ policies F = map policy_rest (sorted_policies s) /\
    Forall wf_pol (sorted_policies s) /\ NoDup (map np_name (sorted_policies s)).
Proof using Laws.
  intros Hh Hr Hk D. destruct (dumped_spec rnd x now mkey lk s D) as (He & Hn & _ & _).
  destruct (dump_all rnd x mkey lk (dumped now s mkey) Hr Hk) as (ds & Ed & H2).
  { apply List.Forall_forall. intros p Hp. apply list_elem_of_In, He in Hp as [i Hi].
    by destruct (dm_rows _ _ _ _ _ D i p Hi) as (_ & ? & _ & ?). }
  assert (Forall wf_pol (sorted_policies s)) as Hp.
  { apply List.Forall_forall. intros pol Hpol. apply list_elem_of_In, sorted_policies_elem in Hpol as [n Hpol]. by apply (dm_pols _ _ _ _ _ D n). }
  assert (NoDup (map np_name (sorted_policies s))) as Np.
  { rewrite sorted_policies_names by (intros n pol Hpol; by apply (dm_pols _ _ _ _ _ D n)).
    rewrite <- (map_id (sort_by ustr_leb _)). apply sort_map_NoDup. rewrite map_id. apply NoDup_fst_map_to_list. }
  destruct (file_read h ds (sorted_policies s) Hh) as (F & EF & E1 & E2); [| |done|done|exists ds, F; done].
  - clear -H2. induction H2 as [|p d ps ds R _ IH]; constructor; [apply R|done].
  - assert (map d_name ds = map Utf8.as_bytes (map principal_id (dumped now s mkey))) as ->.
    { clear -H2. induction H2 as [|p d ps ds R _ IH]; [done|]. cbn [map]. by rewrite (ra_name _ _ _ _ _ R), IH. }
    apply NoDup_fmap_2_strong; [|done]. intros a b Ha Hb E. apply list_elem_of_In, in_map_iff in Ha as (p & <- & Hp').
    apply list_elem_of_In, in_map_iff in Hb as (q & <- & Hq'). apply list_elem_of_In, He in Hp' as [i Hi]. apply list_elem_of_In, He in Hq' as [j Hj].
    apply DumpKept.as_bytes_inj; [|..|done]; apply DumpKept.id_scalar;
      [apply (dm_rows _ _ _ _ _ D i p Hi)|apply (dm_rows _ _ _ _ _ D j q Hj)].
Qed.

(** The records are loaded. *)
Lemma dumped_loaded rnd x now lk mkey s ds F ld :
  dumpable rnd x mkey lk s -> x_realm x = s_realm s -> x_next_rid x = s_next_rid s -> princs F = ds ->
  Forall2 (reads_as mkey x lk) (dumped now s mkey) ds -> rows (s_map (ld_store ld)) = ∅ -> ld_rids ld = ∅ ->
  file_realm F = Ok (s_realm s) /\ existsb (fun p => negb (is_ok (strip_db_args (d_tl_data p)))) ds = false /\
  exists ld', load_principals mkey ds ld = Ok ld' /\ ld_hwm ld' = Some (s_next_rid s) /\
    s_policies (ld_store ld') = s_policies (ld_store ld) /\
    forall i, match rows (s_map s) !! i with
              | Some p => exists tl, rows (s_map (ld_store ld')) !! i = Some (reloaded lk p tl)
              | None => rows (s_map (ld_store ld')) !! i = None
              end.
Proof.
  intros D Xr Xn EF H2 Hrows Hrids. destruct (dumped_spec rnd x now mkey lk s D) as (He & Hn & Hrid & km & rest & Eps & Ekm).
  assert (forall p, p ∈ dumped now s mkey -> km_named p = true -> is_km p = true /\ realm p = s_realm s) as Hkm.
  { intros p Hp Hm. apply He in Hp as [i Hi]. assert (is_km p = true) as Ep.
    { apply km_named_is_km; [|done]. apply (dm_rows _ _ _ _ _ D i p Hi). }
    split; [done|]. by apply (dm_only _ _ _ _ _ D i p Hi). }
  destruct (dm_realm _ _ _ _ _ D) as (rl & Er & Hs & Hne & Hq & Hat).
  assert (km ∈ dumped now s mkey) as Hin by (rewrite Eps; left). pose proof (proj1 (He km) Hin) as [ik Hik].
  destruct (dm_only _ _ _ _ _ D ik km Hik Ekm) as [Nk Rk].
  assert (Utf8.as_bytes (principal_id km) = text "K/M" ++ x40 :: Utf8.as_bytes rl) as Eid.
  { apply km_name; [done|by rewrite Rk|done|done|]. apply (dm_rows _ _ _ _ _ D ik km Hik). }
  split; [|split].
  - rewrite Eps in H2. inversion H2 as [|? d ? ds' R H2' E1 E2]. subst. rewrite <- Rk.
    eapply realm_read; [symmetry; exact E2|by rewrite (ra_name _ _ _ _ _ R)|done|done|done|by rewrite Rk].
  - clear -H2. induction H2 as [|p d ps ds R _ IH]; [done|]. cbn [existsb]. by rewrite (ra_args _ _ _ _ _ R), IH.
  - destruct (load_all mkey x lk (dumped now s mkey) ds ld H2) as (ld' & El & R1 & R2 & _ & P & W).
    + apply List.Forall_forall. intros p Hp. apply list_elem_of_In, He in Hp as [i Hi]. apply (dm_rows _ _ _ _ _ D i p Hi).
    + done.
    + done.
    + intros p _ _. by rewrite Hrids.
    + exists ld'. split; [done|]. split; [|split; [done|]].
      * rewrite (W (s_next_rid s)).
        { rewrite Eps. cbn [existsb]. replace (km_named km) with true; [done|]. symmetry. unfold km_named. rewrite Eid. by vm_compute. }
        intros p d Hr Hp Hm. destruct (Hkm p Hp Hm) as [Ek Ere]. rewrite <- Xn. apply (ra_hwm _ _ _ _ _ Hr); [done|congruence|].
        rewrite Xn. pose proof (dm_next _ _ _ _ _ D). unfold is_u32, RID_FIRST_USER in *. lia.
      * intros i. destruct (rows (s_map s) !! i) as [p|] eqn:Ei.
        { destruct (R2 p) as [tl Htl]; [apply He; by exists i|]. exists tl. rewrite <- (proj1 (dm_rows _ _ _ _ _ D i p Ei)) at 1. done. }
        rewrite R1, Hrows; [done|]. intros Hi. apply list_elem_of_In, in_map_iff in Hi as (p & Ep & Hp).
        apply list_elem_of_In, He in Hp as [j Hj]. pose proof (proj1 (dm_rows _ _ _ _ _ D j p Hj)). congruence.
Qed.

(** A store that holds what another held, as it is read of a text: a principal under
    a name exactly if the other has, which is that principal as its record is read,
    with its password history found again from the ring; the policies; and no
    identifier to give out that the other has given out. *)
Definition holds (lk : Principal -> Lockout.Lockout) (s s' : Store) : Prop :=
  exists h, (forall i, match rows (s_map s) !! i with
                       | Some p => exists tl, rows (s_map s') !! i = Some (History.resolve_history (reloaded lk p tl) h)
                       | None => rows (s_map s') !! i = None
                       end) /\
    s_policies s' = s_policies s /\ s_next_rid s <= s_next_rid s'.

Lemma text_reloaded hdr rnd domain now lk mkey (s : Store) (s0 : bytes -> Store) (x := mkContext (s_realm s) domain (s_next_rid s) now) :
  is_header hdr -> (forall n, History.rng_works (rnd n)) -> Ops.key_usable mkey 0 -> dumpable rnd x mkey lk s ->
  (forall r, rows (s_map (s0 r)) = ∅ /\ s_policies (s0 r) = ∅) ->
  exists ds F s' sid, dump_principals rnd x mkey lk false (dumped now s mkey) = Ok ds /\
    parse_dump (whole_text hdr ds (sorted_policies s)) = Ok F /\ into_store mkey s0 F = Ok (s', sid) /\ holds lk s s'.
Proof using Laws.
  intros Hh Hr Hk D H0.
  destruct (dumped_lines hdr rnd domain now lk mkey s Hh Hr Hk D) as (ds & F & Ed & H2 & EF & E1 & E2 & Hp & Np).
  destruct (dumped_loaded rnd x now lk mkey s ds F (mkLoad (s0 (s_realm s)) None None ∅) D eq_refl eq_refl E1 H2 (proj1 (H0 _)) eq_refl)
    as (Er & Ea & ld & El & Eh & Epo & Rows).
  destruct (load_policies_spec (sorted_policies s) (ld_store ld) Hp Np) as (M & _ & P1 & P2).
  destruct (finish_spec ld (seen_rid F) (load_policies (ld_store ld) (map policy_rest (sorted_policies s)))) as (h & Fr & Fp & Fn).
  exists ds, F, (finish ld (seen_rid F) (load_policies (ld_store ld) (map policy_rest (sorted_policies s)))), (ld_domain ld).
  split; [done|]. split; [done|]. split.
  { unfold into_store. rewrite E1, Ea, Er. cbv beta iota.
    match goal with |- context [load_principals mkey ds ?l] =>
      replace (load_principals mkey ds l) with (Ok ld : res Load) by (symmetry; exact El) end.
    cbv beta iota. rewrite E2. done. }
  exists h. split; [|split].
  - intros i. rewrite Fr, M, lookup_fmap. specialize (Rows i). destruct (rows (s_map s) !! i) as [p|].
    + destruct Rows as [tl ->]. by exists tl.
    + by rewrite Rows.
  - rewrite Fp. apply map_eq. intros n. destruct (s_policies s !! n) as [pol|] eqn:En.
    + rewrite <- (proj1 (dm_pols _ _ _ _ _ D n pol En)) at 1. apply P2. apply sorted_policies_elem. by exists n.
    + rewrite P1, Epo; [cbn [ld_store]; by rewrite (proj2 (H0 (s_realm s)))|]. intros Hin.
      apply list_elem_of_In, in_map_iff in Hin as (pol & E & Hin). apply list_elem_of_In, sorted_policies_elem in Hin as [m Hm].
      pose proof (proj1 (dm_pols _ _ _ _ _ D m pol Hm)). congruence.
  - apply Fn; [done|]. apply (dm_next _ _ _ _ _ D).
Qed.

Lemma resync_text l ds pols : iprop_header l (whole_text (HEADER ++ dec KDB_DUMP_VERSION) ds pols) = whole_text (ipropx l) ds pols.
Proof.
  unfold iprop_header, whole_text. set (old := Journal.line_of _). set (r := flat_map _ ds ++ _).
  assert (exists b t, old ++ r = b :: t) as (b & t & E) by (by eexists _, _).
  pose proof (strip_prefix_app old r) as H. rewrite E in *. cbn [replace_first]. by rewrite H.
Qed.

Lemma first_line h ds pols : ~ In LF h -> without_last x0d h = h -> hd [] (str_lines (whole_text h ds pols)) = h.
Proof.
  intros Hh Hc. unfold str_lines, whole_text, Journal.line_of. rewrite <- !app_assoc. cbn [app].
  assert (forall r, exists ls, raw_lines (h ++ LF :: r) = (h, true) :: ls) as R.
  { intros r. clear Hc. induction h as [|b h IH]; cbn [app raw_lines].
    - by eexists.
    - cbn [In] in Hh. destruct IH as [ls ->]; [tauto|]. rewrite bool_decide_false by (intros ->; tauto). by eexists. }
  edestruct R as [ls ->]. exact Hc.
Qed.

(** The text can be read as a database that holds what the store held. *)
Definition reads_back lk mkey (s0 : bytes -> Store) (s : Store) (t : bytes) : Prop :=
  exists F s' sid, parse_dump t = Ok F /\ into_store mkey s0 F = Ok (s', sid) /\ holds lk s s'.

(** C12: A store is read from its text as it was written, on the server that wrote it
    and on a replica.  The text written for a store, its principals each under its
    own name and its policies, can be read; and the store that is read has a principal
    under a name exactly if the store had, which is that principal as its record is
    read (see the claim on one principal), with its password history found again from
    the ring.  It has the same policies, and gives out no identifier that the store
    has given out.  The same holds of the text with the header for a full
    resynchronisation, and that header is read as the place in the update log for
    which it was written. *)
Theorem store_reloaded rnd domain now lk mkey (s : Store) (s0 : bytes -> Store) :
  (forall n, History.rng_works (rnd n)) -> Ops.key_usable mkey 0 ->
  dumpable rnd (mkContext (s_realm s) domain (s_next_rid s) now) mkey lk s ->
  (forall r, rows (s_map (s0 r)) = ∅ /\ s_policies (s0 r) = ∅) ->
  exists t, write_dump_nra rnd domain now lk false s mkey = Ok t /\ reads_back lk mkey s0 s t /\
    forall l, wf_last l -> reads_back lk mkey s0 s (iprop_header l t) /\ parse_iprop_header (hd [] (str_lines (iprop_header l t))) = Ok (true, l).
Proof using Laws.
  intros Hr Hk D H0.
  destruct (text_reloaded _ rnd domain now lk mkey s s0 header_is_header Hr Hk D H0) as (ds & F & s' & sid & Ed & EF & Es & Hs).
  exists (whole_text (HEADER ++ dec KDB_DUMP_VERSION) ds (sorted_policies s)).
  split; [unfold write_dump_nra; cbv zeta; by rewrite Ed|]. split; [by exists F, s', sid|]. intros l Hl. rewrite resync_text. split.
  - destruct (text_reloaded _ rnd domain now lk mkey s s0 (ipropx_is_header l) Hr Hk D H0) as (ds' & F' & s'' & sid' & Ed' & EF' & Es' & Hs').
    rewrite Ed in Ed'. injection Ed' as <-. by exists F', s'', sid'.
  - rewrite first_line; [by apply iprop_header_read|apply ipropx_is_header|apply ipropx_no_cr].
Qed.

End Read.

(** ** Samples *)

Definition sample_km : Principal :=
  mkPrincipal (PrincipalName.mkName 1 [lit_bytes "K"; lit_bytes "M"]) [x52]
    [mkEntry Aes256CtsHmacSha384192 Ops.sample_aes 1 (Some 4) (Some [x73])] [] [x73] 86400 0 0 0 0 0 0
    0 1 38 [mkTl TL_MKVNO [x01; x00]] [] 1000 [] [] None default_kadm [].

Definition sample_policy : NamedPolicy :=
  mkNamedPolicy (EncList.lit "default") 8 2 3 5 60 600 0 0 (Some (EncList.lit "aes256-cts:normal")).

Definition sample_dir : Store :=
  mkStore [x52] (mkMap {[principal_id sample_km := sample_km; principal_id DumpKept.sample_kept := DumpKept.sample_kept]} ∅ ∅ true Off)
    (mkPolicy 86400 0 true None 0 [] (Pwqual.mkRelations None None) (Pwqual.mkRelations None None) false)
    None true false false [] 1002 {[EncList.lit "default" := sample_policy]} ∅ None [] false None 0 [].

Definition sample_new (realm : bytes) : Store :=
  mkStore realm (mkMap ∅ ∅ ∅ true Off) (s_policy sample_dir) None true false false [] RID_FIRST_USER ∅ ∅ None [] false None 0 [].

Lemma sample_km_kept : DumpKept.kept Ops.sample_aes DumpKept.sample_context sample_km.
Proof.
  split; try done.
  - split; [done|]. split; [done|]. split; [repeat constructor|]. split; [done|]. exists [82]. split; [by repeat constructor|done].
  - apply Forall_cons; [|apply Forall_nil]. done.
  - split; [done|]. split; [cbn; lia|]. apply Forall_cons; [done|]. apply Forall_cons; [done|]. apply Forall_nil.
Qed.

Definition sample_locks (p : Principal) : Lockout.Lockout := DumpKept.sample_lockout.

Lemma sample_rows i p : rows (s_map sample_dir) !! i = Some p ->
  i = principal_id sample_km /\ p = sample_km \/ i = principal_id DumpKept.sample_kept /\ p = DumpKept.sample_kept.
Proof.
  intros H. cbn [sample_dir s_map rows] in H. apply lookup_insert_Some in H as [[<- <-]|[_ H]]; [by left|].
  apply lookup_singleton_Some in H as [<- <-]. by right.
Qed.

Lemma sample_km_fits d :
  @dump_principal ToyPrimitives History.toy_rnd DumpKept.sample_context Ops.sample_aes DumpKept.sample_lockout sample_km = Ok d -> fits d.
Proof.
  intros H. assert (match @dump_principal ToyPrimitives History.toy_rnd DumpKept.sample_context Ops.sample_aes DumpKept.sample_lockout sample_km
                    with Ok d => wf_dumpb d | Err _ => false end = true) as W by (by vm_compute).
  rewrite H in W. by apply wf_dumpb_spec in W as [? _].
Qed.

Lemma sample_dumpable :
  @dumpable ToyPrimitives (fun _ => History.toy_rnd) DumpKept.sample_context Ops.sample_aes sample_locks sample_dir.
Proof.
  split.
  - intros i p [[-> ->]|[-> ->]]%sample_rows.
    + split; [done|]. split; [apply sample_km_kept|]. split; [split; [done|by left]|]. intros n d. apply sample_km_fits.
    + split; [done|]. split; [apply DumpKept.sample_is_kept|]. split; [split; [done|by left]|]. intros n d. apply DumpKept.sample_fits.
  - exists (principal_id sample_km), sample_km. split; [|by vm_compute]. by apply lookup_insert_eq.
  - intros i p [[-> ->]|[-> ->]]%sample_rows H; [done|]. by vm_compute in H.
  - intros i j p q [[-> ->]|[-> ->]]%sample_rows [[-> ->]|[-> ->]]%sample_rows Hp Hq E; try done; by vm_compute in Hp, Hq.
  - exists [82]. split; [done|]. split; [by repeat constructor|]. split; [done|]. split; [by vm_compute|]. cbn. intuition discriminate.
  - intros n pol H. cbn [sample_dir s_policies] in H. apply lookup_singleton_Some in H as [<- <-]. split; [done|].
    split; [by repeat constructor|]. split; [cbn; intuition discriminate|]. split; [cbn; intuition discriminate|].
    split; [repeat (apply List.Forall_cons; [done|]); apply List.Forall_nil|].
    split; [by repeat constructor|]. split; [cbn; intuition discriminate|]. split; [cbn; intuition discriminate|]. by split.
  - done.
Qed.


Lemma store_reloaded_witness :
  exists t, @write_dump_nra ToyPrimitives (fun _ => History.toy_rnd) (x_domain DumpKept.sample_context) 1700000000 sample_locks false
      sample_dir Ops.sample_aes = Ok t /\ @reads_back ToyPrimitives sample_locks Ops.sample_aes sample_new sample_dir t /\
    parse_iprop_header (hd [] (str_lines (iprop_header (last_of 7 1700000000 5) t))) = Ok (true, last_of 7 1700000000 5).
Proof.
  destruct (@store_reloaded ToyPrimitives toy_laws (fun _ => History.toy_rnd) (x_domain DumpKept.sample_context) 1700000000 sample_locks
    Ops.sample_aes sample_dir sample_new) as (t & Et & Er & Hl).
  - intros n. apply DumpKept.sample_draws.
  - apply DumpKept.sample_mkey.
  - apply sample_dumpable.
  - by intros r.
  - exists t. split; [exact Et|]. split; [exact Er|]. apply Hl. by repeat split.
Defined.

End DumpStore.
