(* ===== verification/Gss.v ===== *)
(** * GSS-API per-message tokens

    Models [krb5-gss/src/wrap.rs], [mic.rs] and the token framing of [oid.rs]:
    RFC 4121 wrap and MIC tokens over a security context.  The context is a
    [GssContext] record; operations return the new context beside their
    result ([&mut self]). *)

From S2P Require Import Prelude Etype Primitives Cts Derive Weak Ops SeqState Der Name.

Module Gss.
Import SeqState.

(** Strings are their UTF-8 octets. *)
Record GssContext := mkCtx {
  session : Key.ProtocolKey;
  acceptor_subkey : option Key.ProtocolKey;
  send_seq : Z;
  recv : SeqState;
  initiator : bool;
  client : option bytes;
  delegated : option bytes;
  spnego_mech_list : option bytes;
  lifetime_end : Z;
  acceptor_skew : Z;
  gss_flags : Z;
  ticket_initial : bool;
  acceptor : option PrincipalName.PrincipalName;
  ticket_realm : option bytes;
  ap_rep_key : option Key.ProtocolKey;
  dce_style : bool;
  ap_req_time : option (Z * Z);
}.

Definition set_send_seq (c : GssContext) (n : Z) : GssContext :=
  mkCtx (session c) (acceptor_subkey c) n (recv c) (initiator c) (client c) (delegated c)
    (spnego_mech_list c) (lifetime_end c) (acceptor_skew c) (gss_flags c) (ticket_initial c)
    (acceptor c) (ticket_realm c) (ap_rep_key c) (dce_style c) (ap_req_time c).

Definition set_recv (c : GssContext) (r : SeqState) : GssContext :=
  mkCtx (session c) (acceptor_subkey c) (send_seq c) r (initiator c) (client c) (delegated c)
    (spnego_mech_list c) (lifetime_end c) (acceptor_skew c) (gss_flags c) (ticket_initial c)
    (acceptor c) (ticket_realm c) (ap_rep_key c) (dce_style c) (ap_req_time c).

Definition TOK_WRAP : bytes := [x05; x04].
Definition TOK_MIC : bytes := [x04; x04].
Definition FLAG_SENT_BY_ACCEPTOR : byte := x01.
Definition FLAG_SEALED : byte := x02.
Definition FLAG_ACCEPTOR_SUBKEY : byte := x04.

Definition KRB5_OID : bytes := [x2a; x86; x48; x86; xf7; x12; x01; x02; x02].

Definition has_flag (flags f : byte) : bool := negb (Z.land (u8z flags) (u8z f) =? 0).
Definition byte_or (a b : byte) : byte := z8 (Z.lor (u8z a) (u8z b)).

Definition seal_usage (initiator : bool) : Z := if initiator then 24 else 22.
Definition sign_usage (initiator : bool) : Z := if initiator then 25 else 23.

(** ** Token framing *)

Definition der_tlv (tag : byte) (body : bytes) : bytes := Der.push_tlv tag body.

Definition gss_wrap_app (tok_id inner : bytes) : bytes :=
  let body := der_tlv x06 KRB5_OID ++ tok_id ++ inner in
  der_tlv x60 body.

Definition der_len_decode (b : bytes) : result GssError (nat * Z) :=
  match Der.read_len b with
  | Some (len, hlen) => Ok (hlen, len)
  | None => Err GssTruncated
  end.

Definition gss_unwrap_app (token : bytes) : result GssError bytes :=
  if (length token <? 2)%nat || negb (bool_decide (head token = Some x60)) then Err GssTruncated
  else
    let? (hlen, blen') := der_len_decode (drop 1 token) in
    let start := (1 + hlen)%nat in
    if negb (Z.of_nat start + blen' =? blen token) then Err GssTruncated
    else
      let body := drop start token in
      if negb (bool_decide (head body = Some x06)) then Err GssTruncated
      else
        let? (olen, oid_len) := der_len_decode (drop 1 body) in
        if blen body <? 1 + Z.of_nat olen + oid_len then Err GssTruncated
        else Ok (drop (1 + olen + Z.to_nat oid_len) body).

Definition message_token (token : bytes) : result GssError bytes :=
  if bool_decide (head token = Some x60) then gss_unwrap_app token else Ok token.

(** ** Headers *)

Definition rotate_rrc (cipher : bytes) (rrc : Z) : bytes :=
  if (length cipher =? 0)%nat then cipher
  else
    let n := (Z.to_nat rrc mod length cipher)%nat in
    if (n =? 0)%nat then cipher
    else
      let split := (length cipher - n)%nat in
      drop split cipher ++ take split cipher.

Definition apply_send_rrc (tok : bytes) (rrc : Z) : result GssError bytes :=
  if (length tok <? 16)%nat then Err GssTruncated
  else
    let tok := write_at tok 6 (to_be_bytes 2 rrc) in
    let clen := (length tok - 16)%nat in
    if (clen =? 0)%nat then Ok tok
    else
      let n := (Z.to_nat rrc mod clen)%nat in
      if (n =? 0)%nat then Ok tok
      else
        let cipher := drop 16 tok in
        Ok (take 16 tok ++ drop n cipher ++ take n cipher).

Definition map_gss_cksum (e : Error) : GssError :=
  match e with BadChecksumSize => GssTruncated | _ => GssIntegrity end.

Definition rfc4121_ckhdr (toktype : bytes) (flags : byte) (seq : Z) (mic : bool) : bytes :=
  toktype ++ [flags; xff] ++ replicate 4 (if mic then xff else x00) ++ to_be_bytes 8 seq.

Definition check_direction (flags : byte) (initiator : bool) : result GssError unit :=
  if Bool.eqb (has_flag flags FLAG_SENT_BY_ACCEPTOR) initiator then Ok tt else Err GssIntegrity.

Definition verify_enc_header (plain : bytes) (flags : byte) (ec : nat) (seq : Z) : bool :=
  if (length plain <? 16 + ec)%nat then false
  else
    let h := drop (length plain - 16) plain in
    bool_decide (take 2 h = TOK_WRAP) && bool_decide (h !! 2%nat = Some flags)
    && bool_decide (h !! 3%nat = Some xff)
    && (from_be_bytes (slice h 4 6) =? Z.of_nat ec)
    && (from_be_bytes (slice h 8 16) =? seq).

Definition wrap_flags (initiator sealed : bool) : byte :=
  let flags := if negb initiator then FLAG_SENT_BY_ACCEPTOR else x00 in
  if sealed then byte_or flags FLAG_SEALED else flags.

Definition wrap_header (initiator sealed : bool) (seq : Z) : bytes :=
  TOK_WRAP ++ [wrap_flags initiator sealed; xff; x00; x00; x00; x00] ++ to_be_bytes 8 seq.

(** [header[2] |= extra] *)
Definition or_flags (header : bytes) (extra : byte) : bytes :=
  <[2%nat := byte_or (header !!! 2%nat) extra]> header.

Definition mic_header (initiator : bool) (extra : byte) (seq : Z) : bytes :=
  TOK_MIC ++ [byte_or extra (if initiator then x00 else FLAG_SENT_BY_ACCEPTOR)]
  ++ replicate 5 xff ++ to_be_bytes 8 seq.

Definition recv_key (c : GssContext) (flags : byte) : Key.ProtocolKey :=
  match acceptor_subkey c with
  | Some k => if has_flag flags FLAG_ACCEPTOR_SUBKEY then k else session c
  | None => session c
  end.

Definition send_key (c : GssContext) : Key.ProtocolKey * byte :=
  match acceptor_subkey c with
  | Some k => (k, FLAG_ACCEPTOR_SUBKEY)
  | None => (session c, x00)
  end.

Section Gss.
Context {Prim : Primitives}.

(** ** Wrap and unwrap; [rng] and [rng8] feed [encrypt]. *)

Definition wrap_conf_inner (rng rng8 : option bytes) (c : GssContext) (plaintext : bytes)
    (ec rrc : Z) : GssContext * result GssError bytes :=
  let usage := seal_usage (initiator c) in
  let '(key, extra) := send_key c in
  let header := or_flags (wrap_header (initiator c) true (send_seq c)) extra in
  let header := write_at header 4 (to_be_bytes 2 ec) in
  let to_enc := plaintext ++ replicate (Z.to_nat ec) xff ++ header in
  match Ops.encrypt rng rng8 key usage to_enc with
  | Err e => (c, Err (Inner e))
  | Ok cipher =>
      (set_send_seq c (wrapping_add 64 (send_seq c) 1), apply_send_rrc (header ++ cipher) rrc)
  end.

Definition mit_shaped_wrap_flags (rng rng8 : option bytes) (session : Key.ProtocolKey)
    (initiator : bool) (seq : Z) (plaintext : bytes) (extra_flags : byte) : result GssError bytes :=
  let usage := seal_usage initiator in
  let header := or_flags (wrap_header initiator true seq) extra_flags in
  let? cipher := map_err Inner (Ops.encrypt rng rng8 session usage (plaintext ++ header)) in
  Ok (header ++ cipher).

Definition mit_shaped_wrap rng rng8 session initiator seq plaintext : result GssError bytes :=
  mit_shaped_wrap_flags rng rng8 session initiator seq plaintext x00.

Definition wrap rng rng8 (c : GssContext) (plaintext : bytes) : GssContext * result GssError bytes :=
  wrap_conf_inner rng rng8 c plaintext 0 0.

Definition wrap_with_rrc rng rng8 (c : GssContext) (plaintext : bytes) (rrc : Z)
    : GssContext * result GssError bytes :=
  wrap_conf_inner rng rng8 c plaintext 0 rrc.

Definition wrap_integ (c : GssContext) (plaintext : bytes) : GssContext * result GssError bytes :=
  let usage := seal_usage (initiator c) in
  let '(key, extra) := send_key c in
  let header := or_flags (wrap_header (initiator c) false (send_seq c)) extra in
  let to_ck := plaintext ++ header in
  match Ops.checksum key usage to_ck with
  | Err e => (c, Err (Inner e))
  | Ok mac =>
      if U16_MAX <? blen mac then (c, Err GssTruncated)
      else
        let header := write_at header 4 (to_be_bytes 2 (blen mac)) in
        (set_send_seq c (wrapping_add 64 (send_seq c) 1), Ok (header ++ plaintext ++ mac))
  end.

(** The body of [unwrap_v3] up to [accept_seq]: the message, whether it was
    sealed, and its sequence number. *)
Definition unwrap_body (c : GssContext) (token : bytes) : result GssError (bytes * bool * Z) :=
  let? inner := message_token token in
  if (length inner <? 16)%nat || negb (bool_decide (take 2 inner = TOK_WRAP)) then Err GssTruncated
  else
    let header := take 16 inner in
    let flags := header !!! 2%nat in
    if negb (bool_decide (header !!! 3%nat = xff)) then Err GssTruncated
    else
      let? _ := check_direction flags (initiator c) in
      let ec := Z.to_nat (from_be_bytes (slice header 4 6)) in
      let rrc := from_be_bytes (slice header 6 8) in
      let seq := from_be_bytes (slice header 8 16) in
      let payload := rotate_rrc (drop 16 inner) rrc in
      let usage := seal_usage (negb (initiator c)) in
      let key := recv_key c flags in
      let conf := has_flag flags FLAG_SEALED in
      if negb conf then
        let ctype := EType.checksum_type (Key.etype key) in
        let? cksumsize := ok_or (Ops.checksum_output_size ctype) GssTruncated in
        if (length payload <? cksumsize)%nat || negb (ec =? cksumsize)%nat then Err GssTruncated
        else
          let split := (length payload - cksumsize)%nat in
          let data := take split payload in
          let mac := drop split payload in
          let ckhdr := rfc4121_ckhdr TOK_WRAP flags seq false in
          let? _ := map_err map_gss_cksum
                      (Ops.verify_checksum_type key usage (data ++ ckhdr) ctype mac) in
          Ok (data, conf, seq)
      else
        let? plain := map_err (fun e => if decide (e = Integrity) then GssIntegrity else Inner e)
                        (Ops.decrypt key usage payload) in
        if negb (verify_enc_header plain flags ec seq) then Err GssTruncated
        else Ok (take (length plain - ec - 16) plain, conf, seq).

Definition unwrap_v3 (c : GssContext) (token : bytes) : GssContext * result GssError (bytes * bool) :=
  match unwrap_body c token with
  | Err e => (c, Err e)
  | Ok (msg, conf, seq) =>
      let '(recv', r) := accept_seq (recv c) seq in
      (set_recv c recv', let? _ := r in Ok (msg, conf))
  end.

Definition unwrap (c : GssContext) (token : bytes) : GssContext * result GssError bytes :=
  let '(c', r) := unwrap_v3 c token in (c', let? (msg, _) := r in Ok msg).

(** The caller learns whether the body was sealed. *)
Definition unwrap_conf (c : GssContext) (token : bytes)
    : GssContext * result GssError (bytes * bool) :=
  unwrap_v3 c token.

(** ** MIC tokens *)

Definition get_mic (c : GssContext) (data : bytes) : GssContext * result GssError bytes :=
  let usage := sign_usage (initiator c) in
  let '(key, extra) := send_key c in
  let header := mic_header (initiator c) extra (send_seq c) in
  match Ops.checksum key usage (data ++ header) with
  | Err e => (c, Err (Inner e))
  | Ok mic => (set_send_seq c (wrapping_add 64 (send_seq c) 1), Ok (header ++ mic))
  end.

Definition mic_body (c : GssContext) (data token : bytes) : result GssError Z :=
  let? inner := message_token token in
  if (length inner <? 16)%nat || negb (bool_decide (take 2 inner = TOK_MIC)) then Err GssTruncated
  else
    let seq := from_be_bytes (slice inner 8 16) in
    if negb (bool_decide (inner !!! 3%nat = xff))
       || negb (bool_decide (slice inner 4 8 = replicate 4 xff)) then Err GssTruncated
    else
      let flags := inner !!! 2%nat in
      let? _ := check_direction flags (initiator c) in
      let usage := sign_usage (negb (initiator c)) in
      let key := recv_key c flags in
      let ctype := EType.checksum_type (Key.etype key) in
      let ckhdr := rfc4121_ckhdr TOK_MIC flags seq true in
      let? _ := map_err map_gss_cksum
                  (Ops.verify_checksum_type key usage (data ++ ckhdr) ctype (drop 16 inner)) in
      Ok seq.

Definition verify_mic (c : GssContext) (data token : bytes) : GssContext * result GssError unit :=
  match mic_body c data token with
  | Err e => (c, Err e)
  | Ok seq =>
      let '(recv', r) := accept_seq (recv c) seq in (set_recv c recv', r)
  end.

(** ** Proofs *)

Context {Laws : PrimitiveLaws}.

(** A token header with its fields. *)
Definition hdr (tok : bytes) (flags : byte) (ec rrc seq : Z) : bytes :=
  tok ++ [flags; xff] ++ to_be_bytes 2 ec ++ to_be_bytes 2 rrc ++ to_be_bytes 8 seq.

(** The two ends of a context. *)
Definition peers (a b : GssContext) : Prop :=
  initiator b = negb (initiator a) /\ session a = session b /\ acceptor_subkey a = acceptor_subkey b.

Lemma two_bytes z : exists a b, to_be_bytes 2 z = [a; b].
Proof.
  pose proof (length_to_be_bytes 2 z) as H. destruct (to_be_bytes 2 z) as [|a [|b [|]]]; try done. eauto.
Qed.

Lemma hdr_length tok flags ec rrc seq : length tok = 2%nat -> length (hdr tok flags ec rrc seq) = 16%nat.
Proof. intros H. unfold hdr. rewrite !length_app, !length_to_be_bytes, H. done. Qed.

Lemma hdr_fields a b flags ec rrc seq :
  is_u16 ec -> is_u16 rrc -> is_u64 seq ->
  let h := hdr [a; b] flags ec rrc seq in
  take 2 h = [a; b] /\ h !!! 2%nat = flags /\ h !!! 3%nat = xff /\
  h !! 2%nat = Some flags /\ h !! 3%nat = Some xff /\
  from_be_bytes (slice h 4 6) = ec /\ from_be_bytes (slice h 6 8) = rrc /\
  from_be_bytes (slice h 8 16) = seq.
Proof.
  intros He Hr Hs h. unfold is_u16, is_u64 in *.
  assert (slice h 4 6 = to_be_bytes 2 ec /\ slice h 6 8 = to_be_bytes 2 rrc /\
          slice h 8 16 = to_be_bytes 8 seq) as (-> & -> & ->).
  { subst h. unfold hdr. destruct (two_bytes ec) as (e1 & e2 & ->), (two_bytes rrc) as (r1 & r2 & ->).
    split_and!; [done|done|]. change (take 8 (to_be_bytes 8 seq) = to_be_bytes 8 seq).
    apply take_ge. rewrite length_to_be_bytes. lia. }
  rewrite !from_to_be_bytes by (cbn; lia). by split_and!.
Qed.

(** *** RRC *)

(** The sender's rotation. *)
Definition rotate_send (cipher : bytes) (rrc : Z) : bytes :=
  let n := (Z.to_nat rrc mod length cipher)%nat in drop n cipher ++ take n cipher.

Lemma length_rotate_send c rrc : length (rotate_send c rrc) = length c.
Proof. unfold rotate_send. rewrite length_app, length_drop, length_take. lia. Qed.

Lemma rotate_rrc_send c rrc : rotate_rrc (rotate_send c rrc) rrc = c.
Proof.
  destruct (decide (c = [])) as [->|Hc].
  { unfold rotate_send. by rewrite drop_nil, take_nil. }
  assert (length c <> 0)%nat as Hl by (by destruct c).
  unfold rotate_rrc. rewrite length_rotate_send, (proj2 (Nat.eqb_neq _ _)) by done.
  unfold rotate_send. set (n := (Z.to_nat rrc mod length c)%nat).
  assert (n < length c)%nat by (by apply Nat.mod_upper_bound).
  destruct (Nat.eqb_spec n 0) as [->|Hn]; [by rewrite take_0, drop_0, app_nil_r|].
  assert (length (drop n c) = length c - n)%nat as Hd by apply length_drop.
  rewrite <- Hd, drop_app_length, take_app_length. apply take_drop.
Qed.

Lemma apply_send_rrc_hdr a b flags ec seq cipher rrc :
  cipher <> [] ->
  apply_send_rrc (hdr [a; b] flags ec 0 seq ++ cipher) rrc
  = Ok (hdr [a; b] flags ec rrc seq ++ rotate_send cipher rrc).
Proof.
  intros Hc. assert (length cipher <> 0)%nat as Hl by (by destruct cipher).
  unfold apply_send_rrc. rewrite (proj2 (Nat.ltb_ge _ _)) by (rewrite length_app, hdr_length; [lia|done]).
  assert (write_at (hdr [a; b] flags ec 0 seq ++ cipher) 6 (to_be_bytes 2 rrc)
          = hdr [a; b] flags ec rrc seq ++ cipher) as ->.
  { unfold hdr, write_at. rewrite length_to_be_bytes.
    destruct (two_bytes ec) as (e1 & e2 & ->), (two_bytes 0) as (z1 & z2 & ->),
      (two_bytes rrc) as (r1 & r2 & ->). reflexivity. }
  rewrite length_app, hdr_length by done.
  replace (16 + length cipher - 16)%nat with (length cipher) by lia.
  rewrite (proj2 (Nat.eqb_neq _ _)) by done.
  unfold rotate_send. set (n := (Z.to_nat rrc mod length cipher)%nat).
  destruct (Nat.eqb_spec n 0) as [->|Hn]; [by rewrite take_0, drop_0, app_nil_r|].
  by rewrite take_app_length', drop_app_length' by (by rewrite hdr_length).
Qed.

(** *** Flags and keys of the two ends *)

Definition has_subkey (c : GssContext) : bool :=
  match acceptor_subkey c with Some _ => true | None => false end.

Lemma send_key_flags c i sealed :
  let flags := byte_or (wrap_flags i sealed) (snd (send_key c)) in
  has_flag flags FLAG_SENT_BY_ACCEPTOR = negb i /\ has_flag flags FLAG_SEALED = sealed /\
  has_flag flags FLAG_ACCEPTOR_SUBKEY = has_subkey c.
Proof. unfold send_key, has_subkey. destruct (acceptor_subkey c), i, sealed; done. Qed.

Lemma mic_flags c (i : bool) :
  let flags := byte_or (snd (send_key c)) (if i then x00 else FLAG_SENT_BY_ACCEPTOR) in
  has_flag flags FLAG_SENT_BY_ACCEPTOR = negb i /\
  has_flag flags FLAG_ACCEPTOR_SUBKEY = has_subkey c.
Proof. unfold send_key, has_subkey. destruct (acceptor_subkey c), i; done. Qed.

Lemma recv_key_peer a b flags :
  peers a b -> has_flag flags FLAG_ACCEPTOR_SUBKEY = has_subkey a ->
  recv_key b flags = fst (send_key a).
Proof.
  intros (_ & Hs & Hk) Hf. unfold recv_key, send_key, has_subkey in *. rewrite <- Hk.
  destruct (acceptor_subkey a); cbn; [by rewrite Hf|by rewrite Hs].
Qed.

Lemma check_direction_peer a b flags :
  peers a b -> has_flag flags FLAG_SENT_BY_ACCEPTOR = negb (initiator a) ->
  check_direction flags (initiator b) = Ok tt.
Proof. intros (Hi & _) Hf. unfold check_direction. rewrite Hf, Hi. by rewrite Bool.eqb_reflx. Qed.

Lemma message_token_hdr a b flags ec rrc seq rest :
  a <> x60 -> message_token (hdr [a; b] flags ec rrc seq ++ rest) = Ok (hdr [a; b] flags ec rrc seq ++ rest).
Proof.
  intros Ha. unfold message_token. rewrite bool_decide_eq_false_2; [done|]. cbn. congruence.
Qed.

(** *** The headers as written *)

Lemma wrap_header_hdr i sealed seq extra :
  or_flags (wrap_header i sealed seq) extra
  = hdr [x05; x04] (byte_or (wrap_flags i sealed) extra) 0 0 seq.
Proof. reflexivity. Qed.

Lemma write_ec_hdr a b flags seq ec :
  write_at (hdr [a; b] flags 0 0 seq) 4 (to_be_bytes 2 ec) = hdr [a; b] flags ec 0 seq.
Proof.
  unfold hdr, write_at. rewrite length_to_be_bytes.
  destruct (two_bytes ec) as (e1 & e2 & ->). reflexivity.
Qed.

Lemma ckhdr_wrap flags seq : rfc4121_ckhdr TOK_WRAP flags seq false = hdr TOK_WRAP flags 0 0 seq.
Proof. reflexivity. Qed.

Lemma verify_enc_header_hdr p flags ec seq :
  is_u16 ec -> is_u64 seq ->
  verify_enc_header (p ++ replicate (Z.to_nat ec) xff ++ hdr TOK_WRAP flags ec 0 seq)
    flags (Z.to_nat ec) seq = true /\
  take (length (p ++ replicate (Z.to_nat ec) xff ++ hdr TOK_WRAP flags ec 0 seq) - Z.to_nat ec - 16)
    (p ++ replicate (Z.to_nat ec) xff ++ hdr TOK_WRAP flags ec 0 seq) = p.
Proof.
  intros He Hs. destruct (hdr_fields x05 x04 flags ec 0 seq He) as (Ht & _ & _ & H2 & H3 & H4 & _ & H8);
    [done|done|].
  assert (length (hdr TOK_WRAP flags ec 0 seq) = 16%nat) as Hl by (by apply hdr_length).
  split.
  - unfold verify_enc_header. rewrite !length_app, length_replicate, Hl.
    rewrite (proj2 (Nat.ltb_ge _ _)) by lia.
    replace (length p + (Z.to_nat ec + 16) - 16)%nat with (length (p ++ replicate (Z.to_nat ec) xff))
      by (rewrite length_app, length_replicate; lia).
    rewrite app_assoc, drop_app_length. change TOK_WRAP with [x05; x04] in *.
    rewrite Ht, H2, H3, H4, H8, !bool_decide_eq_true_2 by done. cbn [andb].
    unfold is_u16 in He. rewrite Z2Nat.id, !Z.eqb_refl by lia. done.
  - rewrite !length_app, length_replicate, Hl.
    replace (length p + (Z.to_nat ec + 16) - Z.to_nat ec - 16)%nat with (length p) by lia.
    apply take_app_length.
Qed.

(** *** Unwrapping a token with a given header *)

Lemma token_hdr_fields a b flags ec rrc seq rest :
  is_u16 ec -> is_u16 rrc -> is_u64 seq ->
  let t := hdr [a; b] flags ec rrc seq ++ rest in
  (length t <? 16)%nat = false /\ take 2 t = [a; b] /\
  take 16 t = hdr [a; b] flags ec rrc seq /\ drop 16 t = rest.
Proof.
  intros He Hr Hs t. assert (length (hdr [a; b] flags ec rrc seq) = 16%nat) as Hl by (by apply hdr_length).
  subst t. split_and!.
  - apply Nat.ltb_ge. rewrite length_app. lia.
  - reflexivity.
  - by apply take_app_length'.
  - by apply drop_app_length'.
Qed.

Lemma unwrap_body_sealed a b flags ec rrc seq payload plain p :
  peers a b -> is_u16 ec -> is_u16 rrc -> is_u64 seq ->
  has_flag flags FLAG_SENT_BY_ACCEPTOR = negb (initiator a) -> has_flag flags FLAG_SEALED = true ->
  has_flag flags FLAG_ACCEPTOR_SUBKEY = has_subkey a ->
  plain = p ++ replicate (Z.to_nat ec) xff ++ hdr TOK_WRAP flags ec 0 seq ->
  Ops.decrypt (fst (send_key a)) (seal_usage (initiator a)) payload = Ok plain ->
  unwrap_body b (hdr TOK_WRAP flags ec rrc seq ++ rotate_send payload rrc) = Ok (p, true, seq).
Proof.
  intros Hp He Hr Hs Hf1 Hf2 Hf3 -> Hd. unfold unwrap_body.
  change TOK_WRAP with [x05; x04]. rewrite message_token_hdr by done.
  destruct (token_hdr_fields x05 x04 flags ec rrc seq (rotate_send payload rrc) He Hr Hs) as (T1 & T2 & T3 & T4).
  destruct (hdr_fields x05 x04 flags ec rrc seq He Hr Hs) as (_ & H2 & H3 & _ & _ & H4 & H6 & H8).
  rewrite T1, T2, T3, T4, H2, H3, H4, H6, H8.
  rewrite !bool_decide_eq_true_2 by done. cbn [negb orb].
  rewrite (check_direction_peer a b flags Hp Hf1), Hf2, (recv_key_peer a b flags Hp Hf3), rotate_rrc_send.
  cbn [negb]. destruct Hp as (Hi & _). rewrite Hi, negb_involutive, Hd. cbn [map_err].
  destruct (verify_enc_header_hdr p flags ec seq He Hs) as [-> ->]. done.
Qed.

Lemma unwrap_body_integ a b flags seq data mac :
  peers a b -> is_u64 seq -> blen mac < 2 ^ 16 ->
  Ops.checksum_output_size (EType.checksum_type (Key.etype (fst (send_key a)))) = Some (length mac) ->
  has_flag flags FLAG_SENT_BY_ACCEPTOR = negb (initiator a) -> has_flag flags FLAG_SEALED = false ->
  has_flag flags FLAG_ACCEPTOR_SUBKEY = has_subkey a ->
  Ops.verify_checksum_type (fst (send_key a)) (seal_usage (initiator a)) (data ++ hdr TOK_WRAP flags 0 0 seq)
    (EType.checksum_type (Key.etype (fst (send_key a)))) mac = Ok tt ->
  unwrap_body b (hdr TOK_WRAP flags (blen mac) 0 seq ++ data ++ mac) = Ok (data, false, seq).
Proof.
  intros Hp Hs Hm Hsz Hf1 Hf2 Hf3 Hv. unfold unwrap_body.
  change TOK_WRAP with [x05; x04]. rewrite message_token_hdr by done.
  assert (is_u16 (blen mac)) as He by (unfold is_u16, blen in *; lia).
  assert (is_u16 0) as Hr by done.
  destruct (token_hdr_fields x05 x04 flags (blen mac) 0 seq (data ++ mac) He Hr Hs) as (T1 & T2 & T3 & T4).
  destruct (hdr_fields x05 x04 flags (blen mac) 0 seq He Hr Hs) as (_ & H2 & H3 & _ & _ & H4 & H6 & H8).
  rewrite T1, T2, T3, T4, H2, H3, H4, H6, H8.
  rewrite !bool_decide_eq_true_2 by done. cbn [negb orb].
  rewrite (check_direction_peer a b flags Hp Hf1), Hf2, (recv_key_peer a b flags Hp Hf3).
  assert (rotate_rrc (data ++ mac) 0 = data ++ mac) as ->.
  { unfold rotate_rrc. destruct (Nat.eqb_spec (length (data ++ mac)) 0); [done|].
    by rewrite Nat.Div0.mod_0_l. }
  cbn [negb]. rewrite Hsz. cbn [ok_or]. unfold blen. rewrite Nat2Z.id, Nat.eqb_refl.
  rewrite (proj2 (Nat.ltb_ge _ _)) by (rewrite length_app; lia). cbn [negb orb].
  replace (length (data ++ mac) - length mac)%nat with (length data) by (rewrite length_app; lia).
  rewrite take_app_length, drop_app_length, ckhdr_wrap.
  destruct Hp as (Hi & _). by rewrite Hi, negb_involutive, Hv.
Qed.

Lemma not_des3_padded e p : e <> Des3CbcSha1 -> Ops.padded e p = p.
Proof. intros H. unfold Ops.padded. by destruct e. Qed.

(** a sealed token sent by one end is accepted by the other: for every
    extra-count and rotation count, [unwrap_v3] of what [wrap_conf_inner]
    produced returns exactly the plaintext, marked sealed, subject only to the
    receive window's verdict on the sequence number. *)
Theorem wrap_unwrap a b conf conf8 p ec rrc :
  peers a b -> is_u64 (send_seq a) -> is_u16 ec -> is_u16 rrc ->
  Ops.key_usable (fst (send_key a)) (seal_usage (initiator a)) ->
  Key.etype (fst (send_key a)) <> Des3CbcSha1 ->
  length conf = Cts.BLOCK -> length conf8 = 8%nat ->
  exists tok, wrap_conf_inner (Some conf) (Some conf8) a p ec rrc
    = (set_send_seq a (wrapping_add 64 (send_seq a) 1), Ok tok) /\
    unwrap_v3 b tok =
      let '(recv', r) := accept_seq (recv b) (send_seq a) in
      (set_recv b recv', let? _ := r in Ok (p, true)).
Proof.
  intros Hp Hs He Hr Hk Hd3 Hc Hc8. unfold wrap_conf_inner.
  destruct (send_key_flags a (initiator a) true) as (F1 & F2 & F3).
  destruct (send_key a) as [key extra] eqn:Hsk. cbn [fst snd] in *.
  rewrite wrap_header_hdr, write_ec_hdr. set (flags := byte_or _ extra) in *.
  set (plain := p ++ _).
  destruct (Ops.encrypt_roundtrip_state key (seal_usage (initiator a)) conf conf8 plain Weak.initial)
    as (ct & st & Henc & Hdec); [done..|].
  rewrite not_des3_padded in Hdec by done.
  unfold Ops.encrypt, Ops.encrypt_with_confounder, Ops.encrypt_inner. cbn [ok_or]. rewrite Henc. cbn [snd].
  assert (ct <> []) as Hct.
  { intros ->. assert (Ops.decrypt_inner_state key (seal_usage (initiator a)) [] Weak.initial = (st, Ok plain)) as Hbad by done.
    revert Hbad. unfold Ops.decrypt_inner_state. destruct (Key.etype key); cbn; discriminate. }
  rewrite apply_send_rrc_hdr by done. eexists. split; [reflexivity|]. change [x05; x04] with TOK_WRAP.
  unfold unwrap_v3. rewrite (unwrap_body_sealed a b flags ec rrc (send_seq a) ct plain p); try done.
  rewrite Hsk. cbn [fst]. unfold Ops.decrypt, Ops.decrypt_inner. by rewrite Hdec.
Qed.

(** A computed checksum verifies under the key's checksum type. *)
Lemma checksum_verifies key usage msg :
  Key.wf key ->
  (Key.etype key = Des3CbcSha1 -> is_ok (Derive.des3_key_sched (Key.as_bytes key)) = true) ->
  exists mac, Ops.checksum key usage msg = Ok mac /\ (length mac <= 24)%nat /\
    Ops.checksum_output_size (EType.checksum_type (Key.etype key)) = Some (length mac) /\
    Ops.verify_checksum_type key usage msg (EType.checksum_type (Key.etype key)) mac = Ok tt.
Proof.
  intros Hwf H3. destruct (Ops.checksum_inner_ok key usage msg Hwf H3) as (mac & Hm & Hs).
  exists mac. unfold Ops.checksum. split_and!; [done| |done|].
  - revert Hs. destruct (Key.etype key); cbn; intros H; injection H as H; lia.
  - rewrite Ops.verify_own, Hs, Nat.eqb_refl, Hm by done. apply Weak.mac_verify_refl.
Qed.

(** an integrity-only token is accepted by the other end: [unwrap_v3] of what
    [wrap_integ] produced returns the plaintext, marked unsealed, subject only
    to the receive window. *)
Theorem wrap_integ_unwrap a b p :
  peers a b -> is_u64 (send_seq a) -> Key.wf (fst (send_key a)) ->
  (Key.etype (fst (send_key a)) = Des3CbcSha1 ->
   is_ok (Derive.des3_key_sched (Key.as_bytes (fst (send_key a)))) = true) ->
  exists tok, wrap_integ a p = (set_send_seq a (wrapping_add 64 (send_seq a) 1), Ok tok) /\
    unwrap_v3 b tok =
      let '(recv', r) := accept_seq (recv b) (send_seq a) in
      (set_recv b recv', let? _ := r in Ok (p, false)).
Proof.
  intros Hp Hs Hwf H3. unfold wrap_integ.
  destruct (send_key_flags a (initiator a) false) as (F1 & F2 & F3).
  destruct (send_key a) as [key extra] eqn:Hsk. cbn [fst snd] in *.
  rewrite wrap_header_hdr. set (flags := byte_or _ extra) in *.
  destruct (checksum_verifies key (seal_usage (initiator a)) (p ++ hdr [x05; x04] flags 0 0 (send_seq a)) Hwf H3)
    as (mac & Hm & Hl & Hsz & Hv).
  rewrite Hm. unfold blen at 1. rewrite (proj2 (Z.ltb_ge _ _)) by (unfold U16_MAX; lia).
  rewrite write_ec_hdr. eexists. split; [reflexivity|]. change [x05; x04] with TOK_WRAP in *.
  unfold unwrap_v3. rewrite (unwrap_body_integ a b flags (send_seq a) p mac); try done.
  - unfold blen. lia.
  - by rewrite Hsk.
  - by rewrite Hsk.
Qed.

Lemma mic_header_hdr i extra seq rest :
  mic_header i extra seq ++ rest
  = hdr TOK_MIC (byte_or extra (if i then x00 else FLAG_SENT_BY_ACCEPTOR)) 0xffff 0xffff seq ++ rest.
Proof. reflexivity. Qed.

(** a MIC made by one end verifies at the other for the same data, subject
    only to the receive window's verdict on the sequence number. *)
Theorem mic_verify a b data :
  peers a b -> is_u64 (send_seq a) -> Key.wf (fst (send_key a)) ->
  (Key.etype (fst (send_key a)) = Des3CbcSha1 ->
   is_ok (Derive.des3_key_sched (Key.as_bytes (fst (send_key a)))) = true) ->
  exists tok, get_mic a data = (set_send_seq a (wrapping_add 64 (send_seq a) 1), Ok tok) /\
    verify_mic b data tok =
      let '(recv', r) := accept_seq (recv b) (send_seq a) in (set_recv b recv', r).
Proof.
  intros Hp Hs Hwf H3. unfold get_mic.
  destruct (mic_flags a (initiator a)) as (F1 & F3).
  destruct (send_key a) as [key extra] eqn:Hsk. cbn [fst snd] in *.
  destruct (checksum_verifies key (sign_usage (initiator a)) (data ++ mic_header (initiator a) extra (send_seq a)) Hwf H3)
    as (mac & Hm & Hl & Hsz & Hv).
  rewrite Hm, mic_header_hdr. rewrite <- (app_nil_r (mic_header _ _ _)), mic_header_hdr, app_nil_r in Hv.
  set (flags := byte_or extra _) in *. eexists. split; [reflexivity|].
  unfold verify_mic, mic_body. change TOK_MIC with [x04; x04] in *. rewrite message_token_hdr by done.
  assert (is_u16 0xffff) as Hu by done.
  destruct (token_hdr_fields x04 x04 flags 0xffff 0xffff (send_seq a) mac Hu Hu Hs) as (T1 & T2 & T3 & T4).
  destruct (hdr_fields x04 x04 flags 0xffff 0xffff (send_seq a) Hu Hu Hs) as (_ & H2 & H3' & _ & _ & _ & _ & H8).
  assert (slice (hdr [x04; x04] flags 0xffff 0xffff (send_seq a) ++ mac) 8 16
          = slice (hdr [x04; x04] flags 0xffff 0xffff (send_seq a)) 8 16) as E8.
  { unfold slice. rewrite drop_app_le, take_app_le by (rewrite ?length_drop, hdr_length by done; lia). done. }
  rewrite T1, T2, T4, E8, H8, !bool_decide_eq_true_2 by done. cbn [negb orb].
  change ((hdr [x04; x04] flags 0xffff 0xffff (send_seq a) ++ mac) !!! 2%nat) with flags.
  rewrite (check_direction_peer a b flags Hp F1), (recv_key_peer a b flags Hp F3), Hsk. cbn [fst].
  change (rfc4121_ckhdr [x04; x04] flags (send_seq a) true) with (hdr [x04; x04] flags 0xffff 0xffff (send_seq a)).
  destruct Hp as (Hi & _). rewrite Hi, negb_involutive, Hv. cbn [map_err]. done.
Qed.

(** *** What an accepted token proves *)

Lemma verify_enc_header_inv plain flags ec seq :
  verify_enc_header plain flags ec seq = true ->
  exists p fill h, plain = p ++ fill ++ h /\ length fill = ec /\ length h = 16%nat /\
    take (length plain - ec - 16) plain = p /\
    take 2 h = TOK_WRAP /\ h !! 2%nat = Some flags /\ from_be_bytes (slice h 4 6) = Z.of_nat ec /\
    from_be_bytes (slice h 8 16) = seq.
Proof.
  unfold verify_enc_header. destruct (Nat.ltb_spec (length plain) (16 + ec)) as [|Hl]; [done|].
  intros H. to_prop. set (n := (length plain - ec - 16)%nat).
  exists (take n plain), (take ec (drop n plain)), (drop (length plain - 16) plain).
  assert (drop (length plain - 16) plain = drop ec (drop n plain)) as E
    by (rewrite drop_drop; f_equal; lia).
  split_and!; try done.
  - by rewrite E, !take_drop.
  - rewrite length_take, length_drop. lia.
  - rewrite length_drop. lia.
Qed.

(** C34: a sealed token that unwraps is authentic: its body is an encryption,
    under the context's key and the peer's usage, of the returned message, a
    filler of the token's extra count, and a header that repeats the token's
    flags, extra count and sequence number; so none of these can be altered
    in transit. *)
Theorem unwrap_sealed_authentic c tok msg seq :
  (forall flags, Key.wf (recv_key c flags)) ->
  unwrap_body c tok = Ok (msg, true, seq) ->
  exists inner flags ec payload conf conf8 fill h,
    message_token tok = Ok inner /\ inner !! 2%nat = Some flags /\
    has_flag flags FLAG_SEALED = true /\ has_flag flags FLAG_SENT_BY_ACCEPTOR = initiator c /\
    seq = from_be_bytes (slice inner 8 16) /\ ec = from_be_bytes (slice inner 4 6) /\
    payload = rotate_rrc (drop 16 inner) (from_be_bytes (slice inner 6 8)) /\
    Ops.encrypt (Some conf) (Some conf8) (recv_key c flags) (seal_usage (negb (initiator c)))
      (msg ++ fill ++ h) = Ok payload /\
    blen fill = ec /\ length h = 16%nat /\ h !! 2%nat = Some flags /\
    from_be_bytes (slice h 4 6) = ec /\ from_be_bytes (slice h 8 16) = seq.
Proof.
  intros Hwf H. unfold unwrap_body in H.
  destruct (message_token tok) as [inner|] eqn:Hm; [|done].
  destruct (Nat.ltb_spec (length inner) 16) as [|Hl]; [done|].
  destruct (negb (bool_decide (take 2 inner = TOK_WRAP))); [done|]. cbn [orb] in H.
  assert (forall i j, (i <= j <= 16)%nat -> slice (take 16 inner) i j = slice inner i j) as Hsl.
  { intros i j Hij. unfold slice. rewrite skipn_firstn_comm, take_take. f_equal. lia. }
  rewrite !Hsl in H by lia.
  set (flags := take 16 inner !!! 2%nat) in *.
  destruct (negb (bool_decide (take 16 inner !!! 3%nat = xff))); [done|].
  unfold check_direction in H.
  destruct (Bool.eqb (has_flag flags FLAG_SENT_BY_ACCEPTOR) (initiator c)) eqn:Hdir; [|done].
  apply eqb_prop in Hdir. destruct (has_flag flags FLAG_SEALED) eqn:Hse; cbn [negb] in H.
  2: { repeat (case_match; try done). }
  set (payload := rotate_rrc _ _) in *.
  destruct (Ops.decrypt _ _ payload) as [plain|] eqn:Hd; [|done]. cbn [map_err] in H.
  destruct (verify_enc_header plain flags _ _) eqn:Hv; [|done]. cbn [negb] in H.
  apply verify_enc_header_inv in Hv as (p & fill & h & -> & Hlf & Hlh & Hp & _ & Hh2 & Hh4 & Hh8).
  rewrite Hp in H. injection H as <- <-.
  unfold Ops.decrypt, Ops.decrypt_inner in Hd.
  destruct (Ops.decrypt_inner_state _ _ payload Weak.initial) as [st' r] eqn:Hst. cbn [snd] in Hd. subst r.
  apply Ops.decrypt_authentic_state in Hst as (conf & conf8 & _ & _ & Henc); [|done|done].
  exists inner, flags, (from_be_bytes (slice inner 4 6)), payload, conf, conf8, fill, h.
  pose proof (from_be_bound (slice inner 4 6)).
  split_and!; try done; try (unfold blen; lia).
  - unfold flags. rewrite list_lookup_total_alt, lookup_take_lt by lia.
    destruct (lookup_lt_is_Some_2 inner 2) as [x ->]; [lia|done].
  - unfold Ops.encrypt, Ops.encrypt_with_confounder, Ops.encrypt_inner. cbn [ok_or]. by rewrite Henc.
Qed.

(** *** Framing *)

Lemma der_len_decode_push n rest :
  0 <= n < 2 ^ 64 -> n <= blen rest ->
  der_len_decode (Der.push_len n ++ rest) = Ok (length (Der.push_len n), n).
Proof. intros Hn Hr. unfold der_len_decode. by rewrite Der.read_push_len. Qed.

(** the RFC 2743 framing round trips: unwrapping an APPLICATION 0 token gives
    back the token id and the inner token. *)
Theorem gss_app_roundtrip tok_id inner :
  blen tok_id + blen inner < 2 ^ 32 ->
  gss_unwrap_app (gss_wrap_app tok_id inner) = Ok (tok_id ++ inner).
Proof.
  intros Hl. unfold gss_wrap_app, gss_unwrap_app, der_tlv, Der.push_tlv.
  set (oid := x06 :: Der.push_len (blen KRB5_OID) ++ KRB5_OID).
  assert (length oid = 11%nat) as Ho by done.
  set (body := oid ++ tok_id ++ inner).
  assert (blen body = 11 + (blen tok_id + blen inner)) as Hb.
  { unfold blen, body. rewrite !length_app, Ho. lia. }
  assert (1 <= length (Der.push_len (blen body)))%nat as Hpl.
  { unfold Der.push_len. case_match; cbn [length]; lia. }
  rewrite (proj2 (Nat.ltb_ge _ _)) by (cbn [length]; rewrite length_app; lia).
  cbn [head orb negb]. rewrite bool_decide_eq_true_2 by done. cbn [negb orb].
  change (drop 1 (x60 :: ?l)) with l.
  rewrite der_len_decode_push by (unfold blen in *; lia).
  assert ((Z.of_nat (1 + length (Der.push_len (blen body))) + blen body
           =? blen (x60 :: Der.push_len (blen body) ++ body)) = true) as ->.
  { apply Z.eqb_eq. unfold blen. cbn [length]. rewrite length_app. lia. }
  cbn [negb]. change (drop (1 + ?n) (x60 :: ?l)) with (drop n l). rewrite drop_app_length.
  unfold body at 1. cbn [head app oid]. rewrite bool_decide_eq_true_2 by done. cbn [negb].
  change (drop 1 body) with (Der.push_len (blen KRB5_OID) ++ (KRB5_OID ++ tok_id ++ inner)).
  assert (blen KRB5_OID = 9) as Hk by done.
  rewrite der_len_decode_push.
  2: { by rewrite Hk. }
  2: { unfold blen in *. rewrite !length_app. lia. }
  rewrite (proj2 (Z.ltb_ge _ _)); [done|]. rewrite Hb.
  change (1 + Z.of_nat (length (Der.push_len (blen KRB5_OID))) + blen KRB5_OID) with 11.
  unfold blen. lia.
Qed.

End Gss.

(** RFC 4121 section 4.2.5: the sender rotates right by RRC and the receiver left,
    so [aa bb cc dd ee ff 11 22] with RRC = 3 is sent as
    [ff 11 22 aa bb cc dd ee].  The code rotates the other way on both sides: it
    sends [dd ee ff 11 22 aa bb cc] and misreads the token of the RFC's
    example. *)
Theorem rrc_rotates_left :
  rotate_send [xaa; xbb; xcc; xdd; xee; xff; x11; x22] 3 = [xdd; xee; xff; x11; x22; xaa; xbb; xcc] /\
  rotate_rrc [xff; x11; x22; xaa; xbb; xcc; xdd; xee] 3 = [xcc; xdd; xee; xff; x11; x22; xaa; xbb].
Proof. vm_compute. by split. Qed.

(** *** Witnesses *)

Definition sample_ctx (i : bool) : GssContext :=
  mkCtx (Key.mk Aes256CtsHmacSha196 (replicate 32 x21)) (Some (Key.mk Aes128CtsHmacSha256128 (replicate 16 x22)))
    41 (new 41 12 true) i None None None 0 0 12 false None None None false None.

Lemma wrap_unwrap_witness :
  exists tok c', @wrap_conf_inner ToyPrimitives (Some (replicate 16 x01)) (Some (replicate 8 x02))
      (sample_ctx true) [x68; x69] 4 7 = (c', Ok tok) /\
    snd (@unwrap_v3 ToyPrimitives (sample_ctx false) tok) = Ok ([x68; x69], true).
Proof.
  destruct (@wrap_unwrap ToyPrimitives toy_laws (sample_ctx true) (sample_ctx false) (replicate 16 x01)
    (replicate 8 x02) [x68; x69] 4 7) as (tok & Hw & Hu); try done.
  eexists tok, _. split; [exact Hw|]. by rewrite Hu.
Defined.

Lemma wrap_integ_unwrap_witness :
  exists tok c', @wrap_integ ToyPrimitives (sample_ctx true) [x68; x69] = (c', Ok tok) /\
    snd (@unwrap_v3 ToyPrimitives (sample_ctx false) tok) = Ok ([x68; x69], false).
Proof.
  destruct (@wrap_integ_unwrap ToyPrimitives toy_laws (sample_ctx true) (sample_ctx false) [x68; x69])
    as (tok & Hw & Hu); try done.
  eexists tok, _. split; [exact Hw|]. by rewrite Hu.
Defined.

Lemma mic_verify_witness :
  exists tok c', @get_mic ToyPrimitives (sample_ctx false) [x68; x69] = (c', Ok tok) /\
    snd (@verify_mic ToyPrimitives (sample_ctx true) [x68; x69] tok) = Ok tt.
Proof.
  destruct (@mic_verify ToyPrimitives toy_laws (sample_ctx false) (sample_ctx true) [x68; x69])
    as (tok & Hw & Hu); try done.
  eexists tok, _. split; [exact Hw|]. by rewrite Hu.
Defined.

Definition sample_tok : bytes :=
  match snd (@wrap ToyPrimitives (Some (replicate 16 x01)) None (sample_ctx true) [x68; x69]) with
  | Ok t => t | Err _ => [] end.

Lemma unwrap_sealed_authentic_witness :
  exists payload conf conf8 fill h,
    @Ops.encrypt ToyPrimitives (Some conf) (Some conf8) (recv_key (sample_ctx false) x06) 24
      ([x68; x69] ++ fill ++ h) = Ok payload.
Proof.
  destruct (@unwrap_sealed_authentic ToyPrimitives toy_laws (sample_ctx false) sample_tok [x68; x69] 41)
    as (inner & flags & ec & payload & conf & conf8 & fill & h & Hi & Hf & _ & _ & _ & _ & _ & He & _).
  { intros flags. unfold recv_key. cbn. by case_match. }
  { vm_compute. reflexivity. }
  vm_compute in Hi. injection Hi as <-. injection Hf as <-.
  exists payload, conf, conf8, fill, h. exact He.
Defined.

Lemma gss_app_roundtrip_witness :
  gss_unwrap_app (gss_wrap_app [x01; x00] (replicate 200 x55)) = Ok ([x01; x00] ++ replicate 200 x55).
Proof. apply gss_app_roundtrip. reflexivity. Defined.

End Gss.
