(* ===== verification/ExportCtx.v ===== *)
(** * Exported security contexts

    Models [krb5-gss/src/export.rs].  The reader's [(token, &mut i)] pair is the
    unread rest of the token. *)

From S2P Require Import Prelude Etype Utf8 SeqState Gss.

Module ExportCtx.
Import SeqState Gss.

Definition EXPORT_MAGIC : bytes := [x4b; x35; x47; x31].
Definition EXPORT_VERSION : byte := x02.

(** ** Writing *)

Definition write_key (key : Key.ProtocolKey) : result GssError bytes :=
  if U16_MAX <? blen (Key.as_bytes key) then Err GssTruncated
  else Ok (to_be_bytes 4 (EType.to_iana (Key.etype key))
           ++ to_be_bytes 2 (blen (Key.as_bytes key)) ++ Key.as_bytes key).

Definition write_opt_str (s : option bytes) : result GssError bytes :=
  let b := default [] s in
  if U16_MAX <? blen b then Err GssTruncated else Ok (to_be_bytes 2 (blen b) ++ b).

Definition u8_of_bool (b : bool) : Z := if b then 1 else 0.

Definition check_bits (r : SeqState) : byte :=
  z8 (Z.lor (u8_of_bool (do_replay r))
     (Z.lor (Z.shiftl (u8_of_bool (do_sequence r)) 1) (Z.shiftl (u8_of_bool (wide r)) 2))).

Definition export_sec_context (c : GssContext) : result GssError bytes :=
  let r := recv c in
  let fixed := EXPORT_MAGIC ++ [EXPORT_VERSION; z8 (u8_of_bool (initiator c))]
    ++ to_le_bytes 4 (gss_flags c) ++ to_le_bytes 4 (lifetime_end c)
    ++ to_le_bytes 4 (acceptor_skew c) ++ to_be_bytes 8 (send_seq c)
    ++ [check_bits r] ++ to_be_bytes 8 (base r) ++ to_be_bytes 8 (next r) ++ to_be_bytes 8 (recvmap r) in
  let? k := write_key (session c) in
  let? sub := match acceptor_subkey c with
              | Some k => let? w := write_key k in Ok (x01 :: w)
              | None => Ok [x00]
              end in
  let? cl := write_opt_str (client c) in
  let? de := write_opt_str (delegated c) in
  let sp := default [] (spnego_mech_list c) in
  if U16_MAX <? blen sp then Err GssTruncated
  else Ok (fixed ++ k ++ sub ++ cl ++ de ++ to_be_bytes 2 (blen sp) ++ sp).

(** ** Reading *)

(** [token.get(i..i + n)], then [i += n]. *)
Definition take_n (n : nat) (token : bytes) : result GssError (bytes * bytes) :=
  if (length token <? n)%nat then Err GssTruncated else Ok (take n token, drop n token).

Definition take_byte (token : bytes) : result GssError (byte * bytes) :=
  match token with [] => Err GssTruncated | b :: t => Ok (b, t) end.

Definition read_key (token : bytes) : result GssError (Key.ProtocolKey * bytes) :=
  let? (e, token) := take_n 4 token in
  let etype_n := cast_signed 32 (from_be_bytes e) in
  let? (n, token) := take_n 2 token in
  let? (b, token) := take_n (Z.to_nat (from_be_bytes n)) token in
  let? et := map_err Inner (match EType.from_iana etype_n with
                            | Ok et => Ok et
                            | Err _ => EType.known etype_n
                            end) in
  let? key := map_err Inner (Key.from_bytes et b) in
  Ok (key, token).

Definition read_opt_str (token : bytes) : result GssError (option bytes * bytes) :=
  let? (n, token) := take_n 2 token in
  let? (b, token) := take_n (Z.to_nat (from_be_bytes n)) token in
  match b with
  | [] => Ok (None, token)
  | _ => match Utf8.from_utf8 b with
         | Some _ => Ok (Some b, token)
         | None => Err GssTruncated
         end
  end.

Definition import_sec_context (token : bytes) : result GssError GssContext :=
  if negb (bool_decide (take 4 token = EXPORT_MAGIC)) then Err GssTruncated
  else
    let token := drop 4 token in
    let? (ver, token) := take_byte token in
    if negb (bool_decide (ver = EXPORT_VERSION)) then Err GssTruncated
    else
      let? (ini, token) := take_byte token in
      let? (gf, token) := take_n 4 token in
      let? (le, token) := take_n 4 token in
      let? (sk, token) := take_n 4 token in
      let? (ss, token) := take_n 8 token in
      let? (checks, token) := take_byte token in
      if 7 <? u8z checks then Err GssTruncated
      else
        let? (ba, token) := take_n 8 token in
        let? (ne, token) := take_n 8 token in
        let? (rm, token) := take_n 8 token in
        let recv := mkSeq (negb (Z.land (u8z checks) 1 =? 0)) (negb (Z.land (u8z checks) 2 =? 0))
                          (negb (Z.land (u8z checks) 4 =? 0))
                          (from_be_bytes ba) (from_be_bytes ne) (from_be_bytes rm) in
        let? (session, token) := read_key token in
        let? (has_sub, token) := take_byte token in
        let? (sub, token) :=
          if negb (u8z has_sub =? 0) then
            let? (k, token) := read_key token in Ok (Some k, token)
          else Ok (None, token) in
        let? (client, token) := read_opt_str token in
        let? (delegated, token) := read_opt_str token in
        let? (nsp, token) := take_n 2 token in
        let? (sp, token) := take_n (Z.to_nat (from_be_bytes nsp)) token in
        if negb (length token =? 0)%nat then Err GssTruncated
        else Ok (mkCtx session sub (from_be_bytes ss) recv (negb (u8z ini =? 0)) client delegated
                   (match sp with [] => None | _ => Some sp end)
                   (from_le_bytes le) (cast_signed 32 (from_le_bytes sk)) (from_le_bytes gf)
                   false None None None false None).

(** ** Proofs *)

(** What a context keeps through an export: the fields that are not written
    come back at their defaults. *)
Definition exported (c : GssContext) : GssContext :=
  mkCtx (session c) (acceptor_subkey c) (send_seq c) (recv c) (initiator c) (client c) (delegated c)
    (spnego_mech_list c) (lifetime_end c) (acceptor_skew c) (gss_flags c)
    false None None None false None.

(** The ranges the types of the fields give, keys with the constructor's
    invariant, and strings that are non-empty UTF-8 of at most 0xffff octets. *)
Definition str_ok (s : option bytes) : Prop :=
  match s with
  | None => True
  | Some b => b <> [] /\ Utf8.from_utf8 b <> None /\ blen b <= U16_MAX
  end.

Definition seq_ok (r : SeqState) : Prop := is_u64 (base r) /\ is_u64 (next r) /\ is_u64 (recvmap r).

Definition ctx_ok (c : GssContext) : Prop :=
  Key.wf (session c) /\ (forall k, acceptor_subkey c = Some k -> Key.wf k) /\
  is_u64 (send_seq c) /\ seq_ok (recv c) /\ str_ok (client c) /\ str_ok (delegated c) /\
  (forall b, spnego_mech_list c = Some b -> b <> [] /\ blen b <= U16_MAX) /\
  is_u32 (lifetime_end c) /\ is_i32 (acceptor_skew c) /\ is_u32 (gss_flags c).

Lemma take_n_app n (a t : bytes) : length a = n -> take_n n (a ++ t) = Ok (a, t).
Proof.
  intros <-. unfold take_n. rewrite (proj2 (Nat.ltb_ge _ _)) by (rewrite length_app; lia).
  by rewrite take_app_length, drop_app_length.
Qed.

Lemma write_read_key k t :
  Key.wf k -> exists w, write_key k = Ok w /\ read_key (w ++ t) = Ok (k, t).
Proof.
  intros Hk. unfold write_key. assert (length (Key.as_bytes k) <= 32)%nat as Hl
    by (rewrite Hk; destruct (Key.etype k); cbn; lia).
  rewrite (proj2 (Z.ltb_ge _ _)) by (unfold U16_MAX, blen; lia). eexists. split; [done|].
  unfold read_key. rewrite <- !app_assoc.
  rewrite take_n_app by apply length_to_be_bytes. rewrite take_n_app by apply length_to_be_bytes.
  rewrite from_to_be_bytes by (unfold blen; cbn; lia).
  rewrite take_n_app by (unfold blen; lia).
  assert (cast_signed 32 (from_be_bytes (to_be_bytes 4 (EType.to_iana (Key.etype k)))) = EType.to_iana (Key.etype k)) as ->
    by (destruct (Key.etype k); vm_compute; reflexivity).
  assert (match EType.from_iana (EType.to_iana (Key.etype k)) with
          | Ok et => Ok et | Err _ => EType.known (EType.to_iana (Key.etype k)) end = Ok (Key.etype k)) as ->
    by (destruct (Key.etype k); reflexivity).
  cbn [map_err]. by rewrite Key.from_bytes_of_key.
Qed.

Lemma write_read_str s t :
  str_ok s -> exists w, write_opt_str s = Ok w /\ read_opt_str (w ++ t) = Ok (s, t).
Proof.
  intros Hs. unfold write_opt_str, read_opt_str, U16_MAX in *.
  destruct s as [b|].
  - destruct Hs as (Hne & Hu & Hl). unfold U16_MAX in Hl. change (default [] (Some b)) with b.
    rewrite (proj2 (Z.ltb_ge _ _)) by lia. eexists. split; [done|].
    rewrite <- app_assoc, take_n_app by apply length_to_be_bytes.
    rewrite from_to_be_bytes by (unfold blen in *; cbn; lia).
    rewrite take_n_app by (unfold blen; lia).
    destruct b; [done|]. by destruct (Utf8.from_utf8 _).
  - eexists. split; [reflexivity|]. reflexivity.
Qed.

Lemma check_bits_read r :
  (7 <? u8z (check_bits r)) = false /\
  negb (Z.land (u8z (check_bits r)) 1 =? 0) = do_replay r /\
  negb (Z.land (u8z (check_bits r)) 2 =? 0) = do_sequence r /\
  negb (Z.land (u8z (check_bits r)) 4 =? 0) = wide r.
Proof. unfold check_bits. destruct (do_replay r), (do_sequence r), (wide r); done. Qed.

Lemma cast_signed_le z :
  is_i32 z -> cast_signed 32 (from_le_bytes (to_le_bytes 4 z)) = z.
Proof.
  intros Hz. unfold is_i32 in Hz. unfold from_le_bytes, to_le_bytes. rewrite le_combine_split.
  change (2 ^ (Z.of_nat 4 * 8)) with (2 ^ 32). unfold cast_signed.
  destruct (Z.lt_ge_cases z 0).
  - assert (z mod 2 ^ 32 = z + 2 ^ 32) as ->
      by (rewrite <- (Z.mod_add z 1 (2 ^ 32)) by lia; rewrite Z.mod_small; lia).
    rewrite (proj2 (Z.ltb_ge (z + 2 ^ 32) (2 ^ (32 - 1)))); lia.
  - rewrite Z.mod_small, (proj2 (Z.ltb_lt _ _)) by lia. done.
Qed.

(** The optional subkey: its presence octet and the key. *)
Lemma write_read_subkey s t :
  (forall k, s = Some k -> Key.wf k) ->
  exists w, match s with
            | Some k => let? w := write_key k in Ok (x01 :: w)
            | None => Ok [x00]
            end = Ok w /\
    exists b w', w = b :: w' /\
    (if negb (u8z b =? 0) then let? (k, token) := read_key (w' ++ t) in Ok (Some k, token)
     else Ok (None, w' ++ t)) = Ok (s, t).
Proof.
  intros Hs. destruct s as [k|].
  - destruct (write_read_key k t (Hs k eq_refl)) as (w & -> & Hr).
    eexists. split; [done|]. exists x01, w. split; [done|]. cbn. by rewrite Hr.
  - eexists. split; [done|]. exists x00, []. by split.
Qed.

(** a context exported and imported again is the same context (its unexported
    acceptor-side fields at their defaults), for every context whose fields are
    in the range of their types: keys, window, sequence numbers, flags,
    lifetime, names and mechanism list all survive. *)
Theorem export_import c :
  ctx_ok c -> exists tok, export_sec_context c = Ok tok /\ import_sec_context tok = Ok (exported c).
Proof.
  intros (Hk & Hsub & Hss & (Hba & Hne & Hrm) & Hcl & Hde & Hsp & Hle & Hsk & Hgf).
  unfold export_sec_context.
  set (sp := default [] (spnego_mech_list c)).
  assert (blen sp <= U16_MAX) as Hlsp
    by (subst sp; destruct (spnego_mech_list c); [by apply Hsp|done]).
  destruct (write_read_str (delegated c) (to_be_bytes 2 (blen sp) ++ sp) Hde) as (de & -> & Rde).
  destruct (write_read_str (client c) (de ++ to_be_bytes 2 (blen sp) ++ sp) Hcl) as (cl & -> & Rcl).
  destruct (write_read_subkey (acceptor_subkey c) (cl ++ de ++ to_be_bytes 2 (blen sp) ++ sp) Hsub)
    as (sub & -> & sb & sub' & -> & Rsub).
  destruct (write_read_key (session c) ((sb :: sub') ++ cl ++ de ++ to_be_bytes 2 (blen sp) ++ sp) Hk) as (k & -> & Rk).
  rewrite (proj2 (Z.ltb_ge _ _)) by lia. eexists. split; [reflexivity|].
  unfold import_sec_context. rewrite <- !app_assoc.
  rewrite bool_decide_eq_true_2 by reflexivity. cbn [negb].
  change (drop 4 (EXPORT_MAGIC ++ ?l)) with l. cbn [app take_byte].
  rewrite bool_decide_eq_true_2 by done. cbn [negb].
  do 3 rewrite take_n_app by apply length_to_le_bytes.
  rewrite take_n_app by apply length_to_be_bytes. cbn [take_byte].
  destruct (check_bits_read (recv c)) as (-> & -> & -> & ->).
  do 3 rewrite take_n_app by apply length_to_be_bytes.
  change (sb :: sub' ++ ?l) with ((sb :: sub') ++ l).
  rewrite Rk. cbn [app take_byte]. rewrite Rsub, Rcl, Rde.
  rewrite take_n_app by apply length_to_be_bytes.
  rewrite from_to_be_bytes by (unfold U16_MAX, blen in *; cbn; lia).
  rewrite <- (app_nil_r sp) at 2. rewrite take_n_app by (unfold blen; lia). cbn [length Nat.eqb negb].
  unfold is_u32, is_u64 in *.
  rewrite cast_signed_le, !from_to_le_bytes, !from_to_be_bytes by (done || (cbn; lia)).
  unfold exported. do 2 f_equal.
  - by destruct (recv c).
  - by destruct (initiator c).
  - subst sp. destruct (spnego_mech_list c) as [b|]; [|done]. change (default [] (Some b)) with b.
    destruct (Hsp b eq_refl) as [Hnb _]. by destruct b.
Qed.

Lemma export_import_witness :
  exists tok, export_sec_context (sample_ctx true) = Ok tok /\
    import_sec_context tok = Ok (exported (sample_ctx true)).
Proof.
  apply export_import. unfold ctx_ok, seq_ok, is_u64, is_u32, is_i32. cbn.
  split_and!; try done; intros k Hk; try done. by injection Hk as <-.
Defined.

End ExportCtx.
