(* ===== verification/Replay.v ===== *)
(** * The authenticator replay cache

    Models [krb5-protocol/src/replay.rs].  The mutex serialises the calls, so a
    run is a sequence of [check_and_store] steps on the locked state; the
    elapsed time is an argument of each step.  A lock poisoned by a panic is not
    modelled: nothing in the critical section panics. *)

From S2P Require Import Prelude Etype Ops.

Module Replay.

Definition TAG_MAX : nat := 24.
Definition FILE2_TAG_LEN : nat := 12.

Record ReplayKey := mkKey { len : Z; tag : bytes }.

#[global] Instance ReplayKey_eq_dec : EqDecision ReplayKey.
Proof. solve_decision. Defined.

#[global] Instance ReplayKey_countable : Countable ReplayKey.
Proof.
  refine (inj_countable' (fun k => (len k, tag k)) (fun p => mkKey (fst p) (snd p)) _).
  by intros [].
Defined.

Definition key_tag (b : bytes) : ReplayKey :=
  let n := Nat.min (length b) TAG_MAX in
  mkKey (try_from_or 8 (Z.of_nat n) 255) (take n b ++ replicate (TAG_MAX - n) x00).

Definition from_ciphertext (e : EncryptionType) (cipher : bytes) : option ReplayKey :=
  n ← Ops.checksum_output_size (EType.checksum_type e);
  if (length cipher <? n)%nat then None
  else Some (key_tag (drop (length cipher - n) cipher)).

Definition file2 (k : ReplayKey) : ReplayKey :=
  mkKey (try_from_or 8 (Z.of_nat FILE2_TAG_LEN) 255)
        (take FILE2_TAG_LEN (tag k) ++ replicate (TAG_MAX - FILE2_TAG_LEN) x00).

(** [Inner]; the clock is an argument of the operations. *)
Record Inner := mkInner {
  seen : gset ReplayKey;
  buckets : list (Z * list ReplayKey);
  max_entries : nat;
}.

Definition with_limits (max_entries : nat) : Inner := mkInner ∅ [] (Nat.max max_entries 1).

Definition remove_keys (keys : list ReplayKey) (s : gset ReplayKey) : gset ReplayKey :=
  fold_left (fun s k => s ∖ {[k]}) keys s.

(** [while front expiry < now { pop_front; remove its keys }] *)
Fixpoint prune (now : Z) (bs : list (Z * list ReplayKey)) (s : gset ReplayKey)
    : list (Z * list ReplayKey) * gset ReplayKey :=
  match bs with
  | [] => ([], s)
  | (expiry, keys) :: rest =>
      if expiry <? now then prune now rest (remove_keys keys s) else (bs, s)
  end.

(** [back_mut()] with the same expiry, or a new bucket. *)
Definition push_key (expiry : Z) (key : ReplayKey) (bs : list (Z * list ReplayKey))
    : list (Z * list ReplayKey) :=
  match list.last bs with
  | Some (e, keys) =>
      if e =? expiry then removelast bs ++ [(e, keys ++ [key])] else bs ++ [(expiry, [key])]
  | None => bs ++ [(expiry, [key])]
  end.

(** [true] is a replay.  [now] is [start.elapsed().as_secs() + ahead]. *)
Definition check_and_store (g : Inner) (now : Z) (key : ReplayKey) (skew : Z) : Inner * bool :=
  if decide (key ∈ seen g) then (g, true)
  else
    let '(bs, s) := prune now (buckets g) (seen g) in
    let g := mkInner s bs (max_entries g) in
    if (max_entries g <=? size s)%nat then (g, true)
    else
      let expiry := now + (if skew <? 0 then 0 else skew) in
      (mkInner ({[key]} ∪ s) (push_key expiry key bs) (max_entries g), false).

Definition run_len (g : Inner) : nat := size (seen g).

(** A run: the state after a sequence of calls. *)
Definition step (g : Inner) (op : Z * ReplayKey * Z) : Inner :=
  let '(now, key, skew) := op in fst (check_and_store g now key skew).

Definition run (g : Inner) (ops : list (Z * ReplayKey * Z)) : Inner := fold_left step ops g.

(** ** Proofs *)

Definition all_keys (bs : list (Z * list ReplayKey)) : list ReplayKey := concat (map snd bs).

(** The buckets partition the set of held keys, which fits the limit. *)
Definition inv (g : Inner) : Prop :=
  NoDup (all_keys (buckets g)) /\ seen g = list_to_set (all_keys (buckets g)) /\
  (size (seen g) <= max_entries g)%nat /\ (1 <= max_entries g)%nat.

Lemma inv_new n : inv (with_limits n).
Proof. unfold inv, with_limits. cbn. split_and!; [constructor|done|rewrite size_empty; lia|lia]. Qed.

Lemma remove_keys_spec keys s : remove_keys keys s = s ∖ list_to_set keys.
Proof.
  revert s. unfold remove_keys. induction keys as [|k keys IH]; intros s; cbn.
  - by rewrite difference_empty_L.
  - by rewrite IH, difference_difference_l_L.
Qed.

(** Pruning keeps the partition and every bucket that has not expired. *)
Lemma prune_spec now bs s :
  NoDup (all_keys bs) -> s = list_to_set (all_keys bs) ->
  exists dead, bs = dead ++ fst (prune now bs s) /\ Forall (fun b => fst b < now) dead /\
    NoDup (all_keys (fst (prune now bs s))) /\
    snd (prune now bs s) = list_to_set (all_keys (fst (prune now bs s))).
Proof.
  revert s. induction bs as [|[e keys] bs IH]; intros s Hnd Hs; cbn [prune].
  { exists []. by split_and!. }
  destruct (Z.ltb_spec e now) as [Hlt|Hge].
  - unfold all_keys in Hnd, Hs. cbn [map concat snd] in Hnd, Hs.
    apply list.NoDup_app in Hnd as (Hk & Hdis & Hrest).
    destruct (IH (remove_keys keys s)) as (dead & Hd & Hf & H1 & H2); [done| |].
    { rewrite remove_keys_spec, Hs, list_to_set_app_L. fold (all_keys bs).
      apply set_eq. intros x. rewrite elem_of_difference, elem_of_union, !elem_of_list_to_set.
      split; [tauto|]. intros Hx. split; [by right|]. intros Hx'. by apply (Hdis x). }
    exists ((e, keys) :: dead). cbn [fst] in *. split_and!; [by rewrite Hd at 1|by constructor|done|done].
  - exists []. cbn [fst snd app]. by split_and!.
Qed.

Lemma all_keys_app a b : all_keys (a ++ b) = all_keys a ++ all_keys b.
Proof. unfold all_keys. by rewrite map_app, concat_app. Qed.

Lemma push_key_keys e k bs : all_keys (push_key e k bs) = all_keys bs ++ [k].
Proof.
  unfold push_key. destruct (list.last bs) as [[e' keys]|] eqn:Hl.
  - destruct (e' =? e).
    + apply last_Some in Hl as [l' ->]. rewrite removelast_last, !all_keys_app. cbn.
      by rewrite !app_nil_r, app_assoc.
    + by rewrite all_keys_app.
  - by rewrite all_keys_app.
Qed.

Lemma check_and_store_inv g now key skew : inv g -> inv (fst (check_and_store g now key skew)).
Proof.
  intros (Hnd & Hs & Hmax & Hone). unfold check_and_store.
  destruct (decide (key ∈ seen g)) as [Hin|Hout]; [by split_and!|].
  destruct (prune_spec now (buckets g) (seen g) Hnd Hs) as (dead & Hd & _ & Hnd' & Hs').
  destruct (prune now (buckets g) (seen g)) as [bs s]. cbn [fst snd] in *.
  assert (key ∉ all_keys bs) as Hk.
  { intros Hk. apply Hout. rewrite Hs, Hd, all_keys_app, elem_of_list_to_set, elem_of_app. by right. }
  cbn [max_entries].
  destruct (Nat.leb_spec (max_entries g) (size s)) as [Hfull|Hroom]; unfold inv;
    cbn [fst seen buckets max_entries].
  - assert (size s <= size (seen g))%nat.
    { apply subseteq_size. rewrite Hs, Hs', Hd at 1. rewrite all_keys_app, list_to_set_app_L.
      apply union_subseteq_r. }
    split_and!; [done|done|lia|lia].
  - rewrite push_key_keys. split_and!; [| | |lia].
    + apply list.NoDup_app. split_and!; [done| |apply NoDup_singleton].
      intros x Hx Hx'. apply list_elem_of_singleton in Hx' as ->. done.
    + rewrite list_to_set_app_L, <- Hs', list_to_set_singleton_L. apply union_comm_L.
    + rewrite size_union, size_singleton; [lia|]. rewrite Hs'. apply disjoint_singleton_l.
      by rewrite elem_of_list_to_set.
Qed.

Lemma replay_run_inv g ops : inv g -> inv (run g ops).
Proof.
  revert g. induction ops as [|[[now key] skew] ops IH]; intros g Hg; [done|].
  cbn. apply IH. by apply check_and_store_inv.
Qed.

Lemma max_entries_run g ops : max_entries (run g ops) = max_entries g.
Proof.
  revert g. induction ops as [|[[now key] skew] ops IH]; intros g; [done|].
  change (run g ((now, key, skew) :: ops)) with (run (fst (check_and_store g now key skew)) ops).
  rewrite IH. unfold check_and_store. destruct (decide _); [done|].
  destruct (prune _ _ _). cbn [max_entries]. by destruct (_ <=? _)%nat.
Qed.

(** [k] is held until at least [e]. *)
Definition held (g : Inner) (k : ReplayKey) (e : Z) : Prop :=
  exists e' keys, (e', keys) ∈ buckets g /\ k ∈ keys /\ e <= e'.

Lemma held_seen g k e : inv g -> held g k e -> k ∈ seen g.
Proof.
  intros (_ & -> & _) (e' & keys & Hb & Hk & _). rewrite elem_of_list_to_set. unfold all_keys.
  apply list_elem_of_In, in_concat. exists keys. split; [|by apply list_elem_of_In].
  apply in_map_iff. exists (e', keys). split; [done|]. by apply list_elem_of_In.
Qed.

Lemma push_key_held e k bs e' keys :
  (e', keys) ∈ bs -> exists keys', (e', keys') ∈ push_key e k bs /\ keys ⊆ keys'.
Proof.
  intros Hb. unfold push_key. destruct (list.last bs) as [[e2 ks]|] eqn:Hl.
  2: { exists keys. split; [|done]. apply elem_of_app. by left. }
  destruct (Z.eqb_spec e2 e) as [->|].
  2: { exists keys. split; [|done]. apply elem_of_app. by left. }
  apply last_Some in Hl as [l' ->]. rewrite removelast_last.
  apply elem_of_app in Hb as [Hb|Hb].
  - exists keys. split; [|done]. apply elem_of_app. by left.
  - apply list_elem_of_singleton in Hb. injection Hb as -> ->.
    exists (ks ++ [k]). split; [apply elem_of_app; right; by apply list_elem_of_singleton|].
    intros x Hx. apply elem_of_app. by left.
Qed.

Lemma push_key_new e k bs : exists keys, (e, keys) ∈ push_key e k bs /\ k ∈ keys.
Proof.
  assert ((e, [k]) ∈ bs ++ [(e, [k])]) as Hlast
    by (apply elem_of_app; right; by apply list_elem_of_singleton).
  unfold push_key. destruct (list.last bs) as [[e2 ks]|].
  - destruct (Z.eqb_spec e2 e) as [->|].
    + exists (ks ++ [k]). split; (apply elem_of_app; right; by apply list_elem_of_singleton).
    + exists [k]. split; [done|by apply list_elem_of_singleton].
  - exists [k]. split; [done|by apply list_elem_of_singleton].
Qed.

(** A key held until [e] stays held through any call up to time [e]. *)
Lemma held_step g now key skew k e :
  inv g -> now <= e -> held g k e -> held (fst (check_and_store g now key skew)) k e.
Proof.
  intros (Hnd & Hs & _) Hnow (e' & keys & Hb & Hk & He). unfold check_and_store.
  destruct (decide (key ∈ seen g)); [by exists e', keys|].
  destruct (prune_spec now (buckets g) (seen g) Hnd Hs) as (dead & Hd & Hdead & _).
  destruct (prune now (buckets g) (seen g)) as [bs s]. cbn [fst snd] in *.
  assert ((e', keys) ∈ bs) as Hb'.
  { rewrite Hd in Hb. apply elem_of_app in Hb as [Hb|Hb]; [|done].
    rewrite list.Forall_forall in Hdead. apply Hdead in Hb. cbn in Hb. lia. }
  cbn [max_entries]. destruct (_ <=? _)%nat; cbn [fst]; [by exists e', keys|].
  destruct (push_key_held (now + (if skew <? 0 then 0 else skew)) key bs e' keys Hb') as (keys' & H1 & H2).
  exists e', keys'. split_and!; [done|by apply H2|done].
Qed.

Lemma held_run g ops k e :
  inv g -> Forall (fun op => fst (fst op) <= e) ops -> held g k e -> held (run g ops) k e.
Proof.
  revert g. induction ops as [|[[now key] skew] ops IH]; intros g Hg Hops Hh; [done|].
  inversion_clear Hops as [|? ? H1 H2]. cbn in *.
  apply IH; [by apply check_and_store_inv|done|by apply held_step].
Qed.

(** C14: no authenticator is accepted twice within its skew: once a cache (in any
    state a run reaches) has accepted a key at time [t], every later call with
    that key up to [t + skew] is a replay, whatever calls with whatever skews
    come in between. *)
Theorem no_double_accept n before t k skew g' between now skew' :
  check_and_store (run (with_limits n) before) t k skew = (g', false) ->
  Forall (fun op => fst (fst op) <= t + Z.max 0 skew) between ->
  now <= t + Z.max 0 skew ->
  snd (check_and_store (run g' between) now k skew') = true.
Proof.
  intros Hacc Hbetween Hnow.
  assert (inv (run (with_limits n) before)) as Hinv by (apply replay_run_inv, inv_new).
  assert (inv g') as Hinv'.
  { pose proof (check_and_store_inv _ t k skew Hinv) as H. by rewrite Hacc in H. }
  assert (held g' k (t + Z.max 0 skew)) as Hheld.
  { revert Hacc. unfold check_and_store. destruct (decide _); [done|].
    destruct (prune _ _ _) as [bs s]. cbn [max_entries]. destruct (_ <=? _)%nat; [done|].
    intros H. injection H as <-.
    destruct (push_key_new (t + (if skew <? 0 then 0 else skew)) k bs) as (keys & H1 & H2).
    eexists _, keys. split_and!; [exact H1|done|]. destruct (Z.ltb_spec skew 0); lia. }
  pose proof (held_seen _ _ _ (replay_run_inv _ _ Hinv') (held_run _ _ _ _ Hinv' Hbetween Hheld)) as Hseen.
  unfold check_and_store. by rewrite decide_True by done.
Qed.

(** the cache's memory is bounded over every run: the expiry queue holds each
    held key exactly once, and never more than the limit, so a full cache
    refuses instead of growing. *)
Theorem replay_bounded n ops :
  let g := run (with_limits n) ops in
  NoDup (all_keys (buckets g)) /\ seen g = list_to_set (all_keys (buckets g)) /\
  (length (all_keys (buckets g)) <= Nat.max n 1)%nat.
Proof.
  assert (inv (run (with_limits n) ops)) as (Hnd & Hs & Hsz & _) by (apply replay_run_inv, inv_new).
  pose proof (max_entries_run (with_limits n) ops) as Hm. cbn in Hm.
  split_and!; [done|done|]. rewrite <- Hm. by rewrite Hs, size_list_to_set in Hsz.
Qed.

Lemma no_double_accept_witness :
  let k := key_tag [x01; x02] in let k2 := key_tag [x03] in
  exists g', check_and_store (run (with_limits 4) [(0, k2, 5)]) 10 k 300 = (g', false) /\
    snd (check_and_store (run g' [(100, k2, 5); (200, k2, 1)]) 310 k 1) = true.
Proof.
  cbv zeta. eexists. split; [vm_compute; reflexivity|].
  eapply (no_double_accept 4 [(0, key_tag [x03], 5)] 10 (key_tag [x01; x02]) 300);
    [vm_compute; reflexivity|repeat constructor; vm_compute; discriminate|vm_compute; discriminate].
Defined.

End Replay.
