(* ===== verification/Lookaside.v ===== *)
(** * The KDC's lookaside cache of replies

    Models [krb5-kdc/src/lookaside.rs].  A request's bytes are the key; the
    queue [order] holds each live request once, in arrival order, and [head] is
    the number of its first slot.  Instants and durations are numbers of
    nanoseconds; [Instant::now()] is an argument.  Logging is left out. *)

From S2P Require Import Prelude.

Module Lookaside.

Definition STALE_TIME : Z := 120 * 1000000000.
Definition MAX_SIZE : Z := 10 * 1024 * 1024.
Definition ENTRY_OVERHEAD : Z := 64.

Record Entry := mkEntry { timein : Z; reply : option bytes; seq : Z; entry_size : Z }.

Inductive Check := Hit (r : bytes) | InProgress | Fresh.

Record Lookaside := mkLA {
  map : gmap bytes Entry;
  order : list (option bytes);
  head : Z;
  total : Z;
  max_size : Z;
  stale : Z;
  full_logged : bool;
}.

Definition with_limits (max_size stale : Z) : Lookaside := mkLA ∅ [] 0 0 max_size stale false.
Definition new : Lookaside := with_limits MAX_SIZE STALE_TIME.

(** The front slot's entry, if the slot still stands for it: whether it is stale
    and its size. *)
Definition live (m : gmap bytes Entry) (head now stale : Z) (front : option bytes)
    : option (bytes * bool * Z) :=
  key ← front; e ← m !! key;
  if seq e =? head then Some (key, stale <? Z.max 0 (now - timein e), entry_size e) else None.

(** The [while let Some(front) = self.order.front()] loop. *)
Fixpoint evict_loop (now incoming max_size stale : Z) (m : gmap bytes Entry)
    (order : list (option bytes)) (head total : Z) (full : bool) : Lookaside :=
  match order with
  | [] => mkLA m [] head total max_size stale full
  | front :: rest =>
      match live m head now stale front with
      | Some (key, is_stale, sz) =>
          if negb is_stale && (total + incoming <=? max_size)
          then mkLA m order head total max_size stale full
          else evict_loop now incoming max_size stale (delete key m) rest (head + 1) (total - sz)
                 (full || negb is_stale)
      | None => evict_loop now incoming max_size stale m rest (head + 1) total full
      end
  end.

Definition evict (c : Lookaside) (now incoming : Z) : Lookaside :=
  evict_loop now incoming (max_size c) (stale c) (map c) (order c) (head c) (total c) (full_logged c).

Definition entry_bytes (key : bytes) (r : option bytes) : Z :=
  ENTRY_OVERHEAD + blen key + match r with Some b => blen b | None => 0 end.

Definition insert (c : Lookaside) (now : Z) (key : bytes) (r : option bytes) : Lookaside :=
  let size := entry_bytes key r in
  let c := evict c now size in
  let seq := head c + blen (order c) in
  mkLA (<[key := mkEntry now r seq size]> (map c)) (order c ++ [Some key]) (head c)
       (total c + size) (max_size c) (stale c) (full_logged c).

(** [self.total -= e.size] must not underflow; [lookaside_inv] shows it cannot. *)
Definition discard (c : Lookaside) (req : bytes) : Lookaside * option bytes :=
  match map c !! req with
  | None => (c, None)
  | Some e =>
      let i := seq e - head c in
      let order' := if (0 <=? i) && (i <? blen (order c)) then <[Z.to_nat i := None]> (order c)
                    else order c in
      (mkLA (delete req (map c)) order' (head c) (total c - entry_size e) (max_size c) (stale c)
            (full_logged c), Some req)
  end.

Definition check_or_mark (c : Lookaside) (now : Z) (req : bytes) : Lookaside * Check :=
  match map c !! req with
  | Some e => (c, match reply e with Some r => Hit r | None => InProgress end)
  | None => (insert c now req None, Fresh)
  end.

Definition finish (c : Lookaside) (now : Z) (req : bytes) (r : option bytes) : Lookaside :=
  let '(c, key) := discard c req in
  match r with
  | Some (b :: bs) => insert c now (default req key) (Some (b :: bs))
  | _ => c
  end.

(** A run of the cache. *)
Inductive Op :=
| OCheck (now : Z) (req : bytes)
| OFinish (now : Z) (req : bytes) (r : option bytes).

Definition step (c : Lookaside) (op : Op) : Lookaside :=
  match op with
  | OCheck now req => fst (check_or_mark c now req)
  | OFinish now req r => finish c now req r
  end.

Definition run (c : Lookaside) (ops : list Op) : Lookaside := fold_left step ops c.

(** ** Proofs *)

Definition sizes (m : gmap bytes Entry) : Z := map_fold (fun _ e acc => entry_size e + acc) 0 m.

Definition lookaside_inv (c : Lookaside) : Prop :=
  (forall k e, map c !! k = Some e ->
     head c <= seq e /\ order c !! Z.to_nat (seq e - head c) = Some (Some k) /\ 0 <= entry_size e) /\
  (forall i k, order c !! i = Some (Some k) ->
     exists e, map c !! k = Some e /\ seq e = head c + Z.of_nat i) /\
  total c = sizes (map c).

Lemma sizes_insert m k e : m !! k = None -> sizes (<[k := e]> m) = entry_size e + sizes m.
Proof. intros H. unfold sizes. rewrite map_fold_insert_L; [done|intros; lia|done]. Qed.

Lemma sizes_delete m k e : m !! k = Some e -> sizes (delete k m) = sizes m - entry_size e.
Proof. intros H. unfold sizes. rewrite (map_fold_delete_L _ _ k e m); [lia|intros; lia|done]. Qed.

Lemma sizes_nonneg m : (forall k e, m !! k = Some e -> 0 <= entry_size e) -> 0 <= sizes m.
Proof.
  unfold sizes. induction m as [|k e m Hk IH] using map_ind; intros H; [done|].
  rewrite map_fold_insert_L; [|intros; lia|done].
  pose proof (H k e (lookup_insert_eq m k e)).
  enough (0 <= map_fold (fun _ e acc => entry_size e + acc) 0 m) by lia.
  apply IH. intros k' e' Hk'. apply (H k'). rewrite lookup_insert_ne; [done|congruence].
Qed.

Lemma inv_with_limits mx st : lookaside_inv (with_limits mx st).
Proof. unfold lookaside_inv, with_limits. cbn. split_and!; try done. Qed.

(** Popping a slot: an emptied one, or the one of a deleted key. *)
Lemma inv_pop m front rest hd tot mx st full tot' full' :
  lookaside_inv (mkLA m (front :: rest) hd tot mx st full) ->
  (front = None -> tot' = tot) ->
  (forall k e, front = Some k -> m !! k = Some e -> tot' = tot - entry_size e) ->
  let m' := match front with Some k => delete k m | None => m end in
  lookaside_inv (mkLA m' rest (hd + 1) tot' mx st full').
Proof.
  intros (H1 & H2 & H3) Hn Hs. cbn [map order head total] in *.
  assert (forall k e, front <> Some k -> m !! k = Some e ->
    hd + 1 <= seq e /\ rest !! Z.to_nat (seq e - (hd + 1)) = Some (Some k) /\ 0 <= entry_size e) as Hk.
  { intros k e Hf Hke. destruct (H1 k e Hke) as (Ha & Hb & Hc).
    destruct (Z.to_nat (seq e - hd)) as [|n] eqn:E; cbn in Hb; [congruence|].
    split_and!; [lia| |done]. by replace (Z.to_nat (seq e - (hd + 1))) with n by lia. }
  assert (forall i k, rest !! i = Some (Some k) ->
    exists e, m !! k = Some e /\ seq e = hd + 1 + Z.of_nat i) as Hi.
  { intros i k Hik. destruct (H2 (S i) k Hik) as (e & He & Hse). exists e. split; [done|lia]. }
  destruct front as [k0|]; cbn [map order head total].
  - destruct (H2 0%nat k0 eq_refl) as (e0 & He0 & Hse0). split_and!; cbn [map order head total].
    + intros k e Hke. apply lookup_delete_Some in Hke as [Hne Hke]. apply Hk; [congruence|done].
    + intros i k Hik. destruct (Hi i k Hik) as (e & He & Hse). exists e. split; [|done].
      rewrite lookup_delete_ne; [done|]. intros ->. assert (e = e0) by congruence. subst e. lia.
    + rewrite (sizes_delete m k0 e0 He0), (Hs k0 e0 eq_refl He0). lia.
  - split_and!; cbn [map order head total]; [|done|by rewrite Hn].
    intros k e Hke. by apply Hk.
Qed.

Lemma evict_loop_spec now inc mx st :
  forall ord m hd tot full, lookaside_inv (mkLA m ord hd tot mx st full) ->
  let c := evict_loop now inc mx st m ord hd tot full in
  lookaside_inv c /\ map c ⊆ m /\ (order c = [] \/ total c + inc <= mx) /\
  max_size c = mx /\ stale c = st.
Proof.
  induction ord as [|front rest IH]; intros m hd tot full Hinv; cbn [evict_loop].
  { split_and!; [done|done|by left|done|done]. }
  destruct (live m hd now st front) as [[[key is_stale] sz]|] eqn:Hl.
  - destruct front as [k0|]; [|done]. cbn in Hl.
    destruct (m !! k0) as [e0|] eqn:He0; [|done]. cbn in Hl.
    destruct (seq e0 =? hd); [|done]. injection Hl as <- _ Hsz.
    destruct (negb is_stale && (tot + inc <=? mx)) eqn:Hstop.
    { to_prop. split_and!; [done|done|by right|done|done]. }
    destruct (IH (delete k0 m) (hd + 1) (tot - sz) (full || negb is_stale)) as (A & B & C & D & E).
    { apply (inv_pop m (Some k0) rest hd tot mx st full); [done|done|].
      intros k e Hke He. injection Hke as <-. congruence. }
    split_and!; [done| |done|done|done]. etrans; [exact B|apply delete_subseteq].
  - assert (front = None) as ->.
    { destruct front as [k0|]; [|done]. destruct Hinv as (_ & H2 & _).
      destruct (H2 0%nat k0 eq_refl) as (e & He & Hse). cbn [map head] in *. revert Hl. cbn. rewrite He.
      cbn. rewrite (proj2 (Z.eqb_eq _ _)) by lia. done. }
    apply IH. by apply (inv_pop m None rest hd tot mx st full).
Qed.

Lemma evict_spec c now inc :
  lookaside_inv c ->
  lookaside_inv (evict c now inc) /\ map (evict c now inc) ⊆ map c /\
  (order (evict c now inc) = [] \/ total (evict c now inc) + inc <= max_size c) /\
  max_size (evict c now inc) = max_size c.
Proof.
  intros Hinv. destruct (evict_loop_spec now inc (max_size c) (stale c) (order c) (map c) (head c) (total c) (full_logged c))
    as (A & B & C & D & E); [by destruct c|]. by split_and!.
Qed.

Lemma insert_inv c now key r :
  lookaside_inv c -> map c !! key = None -> lookaside_inv (insert c now key r).
Proof.
  intros Hinv Hk. unfold insert. destruct (evict_spec c now (entry_bytes key r) Hinv) as ((H1 & H2 & H3) & Hsub & _).
  set (c' := evict c now (entry_bytes key r)) in *.
  assert (map c' !! key = None) as Hk' by (by eapply lookup_weaken_None).
  split_and!; cbn [map order head total].
  - intros k e Hke. apply lookup_insert_Some in Hke as [[<- <-]|[Hne Hke]]; cbn [seq entry_size].
    + unfold blen. replace (Z.to_nat (head c' + Z.of_nat (length (order c')) - head c')) with (length (order c')) by lia.
      rewrite list_lookup_middle by done. split_and!; [lia|done|]. unfold entry_bytes, ENTRY_OVERHEAD, blen.
      destruct r; lia.
    + destruct (H1 k e Hke) as (A & B & C). split_and!; [done| |done].
      rewrite lookup_app_l; [done|]. by eapply lookup_lt_Some.
  - intros i k Hik. apply lookup_app_Some in Hik as [Hik|[Hge Hik]].
    + destruct (H2 i k Hik) as (e & He & Hse). exists e. split; [|done].
      rewrite lookup_insert_ne; [done|]. congruence.
    + destruct (i - length (order c'))%nat eqn:E; [|done]. injection Hik as <-.
      eexists. rewrite lookup_insert_eq. split; [done|]. cbn. unfold blen. lia.
  - rewrite sizes_insert by done. cbn [entry_size]. lia.
Qed.

Lemma discard_spec c req :
  lookaside_inv c ->
  let c' := fst (discard c req) in
  lookaside_inv c' /\ map c' = delete req (map c) /\ max_size c' = max_size c /\
  (snd (discard c req) = None \/ snd (discard c req) = Some req).
Proof.
  intros Hinv. pose proof Hinv as (H1 & H2 & H3).
  unfold discard. destruct (map c !! req) as [e|] eqn:He.
  2: { cbn [fst snd]. split; [done|]. split; [by rewrite delete_id|]. split; [done|by left]. }
  destruct (H1 req e He) as (Ha & Hb & Hc). pose proof (lookup_lt_Some _ _ _ Hb) as Hlt.
  rewrite (proj2 (Z.leb_le _ _)), (proj2 (Z.ltb_lt _ _)) by (unfold blen; lia). cbn [andb fst snd].
  split; [|split; [done|split; [done|by right]]]. split_and!; cbn [map order head total].
  - intros k e' Hk. apply lookup_delete_Some in Hk as [Hne Hk].
    destruct (H1 k e' Hk) as (A & B & C). split_and!; [done| |done].
    rewrite list_lookup_insert_ne; [done|]. intros E. rewrite E in Hb. congruence.
  - intros i k Hik. apply list_lookup_insert_Some in Hik as [(_ & Hbad & _)|[Hne Hik]]; [done|].
    destruct (H2 i k Hik) as (e' & He' & Hse'). exists e'. split; [|done].
    rewrite lookup_delete_ne; [done|]. intros ->. assert (e' = e) by congruence. subst e'. lia.
  - rewrite (sizes_delete _ _ e He). lia.
Qed.

Lemma finish_unfold c now req r :
  lookaside_inv c ->
  finish c now req r =
  match r with
  | Some (b :: bs) => insert (fst (discard c req)) now req (Some (b :: bs))
  | _ => fst (discard c req)
  end.
Proof.
  intros Hinv. unfold finish. destruct (discard_spec c req Hinv) as (_ & _ & _ & Hk).
  destruct (discard c req) as [c' key]. cbn [fst snd] in *.
  destruct r as [[|b bs]|]; [done| |done]. by destruct Hk as [-> | ->].
Qed.

Lemma step_inv c op : lookaside_inv c -> lookaside_inv (step c op).
Proof.
  intros Hinv. destruct op as [now req|now req r]; cbn [step].
  - unfold check_or_mark. destruct (map c !! req) eqn:E; cbn [fst]; [done|by apply insert_inv].
  - rewrite finish_unfold by done. destruct (discard_spec c req Hinv) as (Hd & Hm & _ & _).
    destruct r as [[|b bs]|]; [done| |done].
    apply insert_inv; [done|]. rewrite Hm. apply lookup_delete_eq.
Qed.

Lemma run_inv c ops : lookaside_inv c -> lookaside_inv (run c ops).
Proof. revert c. induction ops as [|op ops IH]; intros c Hc; [done|]. cbn. by apply IH, step_inv. Qed.

Lemma run_snoc c ops op : run c (ops ++ [op]) = step (run c ops) op.
Proof. unfold run. by rewrite fold_left_app. Qed.

(** An entry after a step: the one just made, or one that was there. *)
Lemma insert_lookup c now key r k e :
  lookaside_inv c -> map (insert c now key r) !! k = Some e ->
  (k = key /\ reply e = r) \/ (k <> key /\ map c !! k = Some e).
Proof.
  intros Hinv H. unfold insert in H. cbn [map] in H.
  destruct (evict_spec c now (entry_bytes key r) Hinv) as (_ & Hsub & _).
  apply lookup_insert_Some in H as [[-> <-]|[Hne H]]; [by left|].
  right. split; [done|]. by eapply lookup_weaken.
Qed.

(** The last answer given to a request in a run. *)
Fixpoint last_finish (ops : list Op) (req : bytes) : option (option bytes) :=
  match ops with
  | [] => None
  | OFinish _ req' r :: rest =>
      match last_finish rest req with
      | Some x => Some x
      | None => if decide (req' = req) then Some r else None
      end
  | OCheck _ _ :: rest => last_finish rest req
  end.

Lemma last_finish_snoc ops op req :
  last_finish (ops ++ [op]) req =
  match op with
  | OFinish _ req' r => if decide (req' = req) then Some r else last_finish ops req
  | OCheck _ _ => last_finish ops req
  end.
Proof.
  induction ops as [|op' ops IH]; [destruct op; [done|by cbn; case_decide]|].
  cbn. destruct op' as [|now' req' r']; rewrite IH; [done|].
  destruct op as [|now2 req2 r2]; [done|]. by case_decide.
Qed.

Lemma replies_are_last_finish mx st ops req e r :
  map (run (with_limits mx st) ops) !! req = Some e -> reply e = Some r ->
  last_finish ops req = Some (Some r).
Proof.
  revert req e r. induction ops as [|op ops IH] using rev_ind; intros req e r Hm Hr; [done|].
  rewrite run_snoc in Hm. rewrite last_finish_snoc.
  assert (lookaside_inv (run (with_limits mx st) ops)) as Hinv by (apply run_inv, inv_with_limits).
  set (c := run (with_limits mx st) ops) in *. destruct op as [now q|now q a]; cbn [step] in Hm.
  - unfold check_or_mark in Hm. destruct (map c !! q) eqn:E; cbn [fst] in Hm; [by eapply IH|].
    apply insert_lookup in Hm as [[-> Hr']|[_ Hm]]; [congruence|by eapply IH|done].
  - rewrite finish_unfold in Hm by done. destruct (discard_spec c q Hinv) as (Hd & Hdm & _ & _).
    destruct (decide (q = req)) as [->|Hne].
    + destruct a as [[|b bs]|].
      * rewrite Hdm in Hm. by rewrite lookup_delete_eq in Hm.
      * apply insert_lookup in Hm as [[_ Hr']|[? _]]; [congruence|done|done].
      * rewrite Hdm in Hm. by rewrite lookup_delete_eq in Hm.
    + assert (map (fst (discard c q)) !! req = Some e) as Hm'.
      { destruct a as [[|b bs]|]; [done| |done].
        apply insert_lookup in Hm as [[-> _]|[_ Hm]]; done. }
      rewrite Hdm, lookup_delete_ne in Hm' by done. by eapply IH.
Qed.

(** the cache's bookkeeping is consistent over every run: the live queue slots
    and the map's entries correspond one to one, and the running total is the
    sum of the entry sizes, so subtracting an entry's size never underflows. *)
Theorem lookaside_consistent mx st ops :
  let c := run (with_limits mx st) ops in
  lookaside_inv c /\ (forall k e, map c !! k = Some e -> 0 <= entry_size e <= total c).
Proof.
  intros c. assert (lookaside_inv c) as Hinv by (apply run_inv, inv_with_limits).
  split; [done|]. destruct Hinv as (H1 & _ & ->). intros k e Hk.
  split; [by apply (H1 k e)|]. pose proof (sizes_delete (map c) k e Hk) as Hd.
  assert (0 <= sizes (delete k (map c))); [|lia]. apply sizes_nonneg.
  intros k' e' Hk'. apply lookup_delete_Some in Hk' as [_ Hk']. by apply (H1 k' e').
Qed.

Lemma max_size_run mx st ops : max_size (run (with_limits mx st) ops) = mx.
Proof.
  induction ops as [|op ops IH] using rev_ind; [done|]. rewrite run_snoc.
  assert (lookaside_inv (run (with_limits mx st) ops)) as Hinv by (apply run_inv, inv_with_limits).
  assert (forall c now key r, lookaside_inv c -> max_size (insert c now key r) = max_size c) as Hi
    by (intros; unfold insert; cbn; by apply evict_spec).
  destruct op as [now q|now q a]; cbn [step].
  - unfold check_or_mark. destruct (map _ !! q); cbn [fst]; [done|]. by rewrite Hi.
  - rewrite finish_unfold by done. destruct (discard_spec _ q Hinv) as (Hd & _ & Hm & _).
    destruct a as [[|b bs]|]; rewrite ?Hi by done; congruence.
Qed.

(** C39: a hit is the last answer: over every run, [check_or_mark] returns only the
    reply of the last [finish] of that very request, and right after a [finish]
    with a non-empty reply it returns that reply. *)
Theorem hit_is_last_reply mx st ops now req r :
  (snd (check_or_mark (run (with_limits mx st) ops) now req) = Hit r ->
   last_finish ops req = Some (Some r)) /\
  (forall now' b bs, r = b :: bs ->
   snd (check_or_mark (run (with_limits mx st) (ops ++ [OFinish now' req (Some r)])) now req) = Hit r).
Proof.
  assert (lookaside_inv (run (with_limits mx st) ops)) as Hinv by (apply run_inv, inv_with_limits).
  split.
  - unfold check_or_mark. destruct (map _ !! req) as [e|] eqn:He; [|done]. cbn [snd].
    destruct (reply e) eqn:Hr; [|done]. intros H. injection H as ->.
    by eapply replies_are_last_finish.
  - intros now' b bs ->. rewrite run_snoc. cbn [step]. rewrite finish_unfold by done.
    unfold check_or_mark, insert. cbn [map]. by rewrite lookup_insert_eq.
Qed.

Definition within (mx : Z) (c : Lookaside) : Prop :=
  total c <= mx \/ exists k e, map c = {[k := e]}.

Lemma insert_within c now key r :
  lookaside_inv c -> within (max_size c) (insert c now key r).
Proof.
  intros Hinv. destruct (evict_spec c now (entry_bytes key r) Hinv) as ((H1 & _ & _) & _ & [Ho|Ht] & _).
  - right. unfold insert. cbn [map].
    assert (map (evict c now (entry_bytes key r)) = ∅) as ->.
    { apply map_empty. intros k. destruct (map _ !! k) as [e|] eqn:E; [|done].
      destruct (H1 k e E) as (_ & Hb & _). rewrite Ho in Hb. done. }
    eexists _, _. reflexivity.
  - left. unfold insert. cbn [total]. lia.
Qed.

Lemma discard_within mx c req :
  0 <= mx -> lookaside_inv c -> within mx c -> within mx (fst (discard c req)).
Proof.
  intros Hmx Hinv Hw. destruct (discard_spec c req Hinv) as ((_ & _ & Ht) & Hm & _ & _).
  destruct Hinv as (H1 & _ & Ht0). destruct (map c !! req) as [e|] eqn:He.
  2: { unfold discard. by rewrite He. }
  left. rewrite Ht, Hm, (sizes_delete _ _ e He). destruct (H1 req e He) as (_ & _ & Hsz).
  destruct Hw as [Hw|(k & e' & Hs)]; [lia|].
  rewrite Hs in *. apply lookup_singleton_Some in He as [-> ->].
  unfold sizes. rewrite map_fold_singleton. lia.
Qed.

(** the size limit holds over every run: the total never exceeds the limit
    unless a single oversized entry is all there is. *)
Theorem lookaside_bounded mx st ops :
  0 <= mx -> within mx (run (with_limits mx st) ops).
Proof.
  intros Hmx. induction ops as [|op ops IH] using rev_ind; [by left|]. rewrite run_snoc.
  assert (lookaside_inv (run (with_limits mx st) ops)) as Hinv by (apply run_inv, inv_with_limits).
  pose proof (max_size_run mx st ops) as Hms. set (c := run (with_limits mx st) ops) in *.
  destruct op as [now q|now q a]; cbn [step].
  - unfold check_or_mark. destruct (map c !! q); cbn [fst]; [done|]. rewrite <- Hms. by apply insert_within.
  - rewrite finish_unfold by done. destruct (discard_spec c q Hinv) as (Hd & _ & Hm & _).
    destruct a as [[|b bs]|]; [by apply discard_within| |by apply discard_within].
    rewrite <- Hms, <- Hm. by apply insert_within.
Qed.

Lemma hit_is_last_reply_witness :
  snd (check_or_mark (run new [OCheck 1 [x01]; OFinish 2 [x01] (Some [x0a; x0b])]) 3 [x01]) = Hit [x0a; x0b] /\
  last_finish [OCheck 1 [x01]; OFinish 2 [x01] (Some [x0a; x0b])] [x01] = Some (Some [x0a; x0b]).
Proof.
  split; [vm_compute; reflexivity|].
  apply (hit_is_last_reply MAX_SIZE STALE_TIME [OCheck 1 [x01]; OFinish 2 [x01] (Some [x0a; x0b])] 3 [x01]).
  vm_compute. reflexivity.
Defined.

Lemma lookaside_bounded_witness : within 200 (run (with_limits 200 10) [OCheck 1 [x01]; OCheck 2 [x02]; OCheck 3 [x03]; OCheck 4 [x04]]).
Proof. apply lookaside_bounded. done. Defined.

End Lookaside.
